(* ===== verification/_CoqProject ===== *)
-Q . S2P
Prelude.v
Sc.v
Buf.v
Crc32.v
Entry.v
Page.v
Store.v
Msg.v
Map.v
Timer.v
Queue.v
Dlist.v
Str.v
Uri.v
Meta.v
Cmd.v
Node.v
Server.v
Election.v
Sql.v
Session.v
Exec.v
Conn.v
Wire.v
Resql.v
Client.v
State.v
Replicate.v
Commit.v
Cluster.v
Pace.v
Hdr.v
Conf.v
Goresql.v
Disk.v
Snap.v
Handoff.v
Life.v
Jresql.v
