(* ===== verification/Prelude.v ===== *)
(** * A verification library for resql

    resql is a replicated SQL server: a set of nodes agree on a log of commands with a
    variant of Raft, and every node applies the committed commands to an SQLite database.
    This library translates the sources, in C and, for two client libraries, in Go and Java,
    into Rocq functions and proves what the parts promise to each other.  Paths below are relative to the root of the repository.

    ** The program and the files

    The library [lib/sc] provides the data structures.

    - [Prelude] (this file): machine integers with their wrap-around, little-endian
      encodings, list updates, tactics and the hint databases.
    - [Sc]: the RC4 generator and the powers of two of [sc.c].
    - [Buf]: the byte buffers of [sc_buf.c]; [contents] is the abstract queue of bytes, and
      [bufM] the monad of programs that read and write a buffer.
    - [Crc32]: the three builds of [sc_crc32.c] ([Section Hardware] is the one on the crc32
      instruction) against bit-wise polynomial division.
    - [Map]: the open-addressing tables of [sc_map.c], refined to finite maps.
    - [Timer], [Queue], [Dlist], [Str], [Uri]: the timer wheel, rings and arrays, intrusive
      lists on a shared heap of links, length-prefixed strings and URIs.
    - [Hdr]: the histograms of [lib/hdr] and how [util/benchmark] records and merges
      latencies.

    The log of a node and its messages:

    - [Entry]: one log entry ([src/entry.c]); [Page]: a mapped file of entries
      ([src/page.c]); [Store]: the log on two pages ([src/store.c]).
    - [Msg]: the frames that nodes and clients exchange ([src/msg.c]).
    - [Conn]: non-blocking sockets and their buffers ([src/conn.c], [sc_sock.c] and the
      buffer cache of [src/server.c]).
    - [Meta] and [Cmd]: the configuration of the cluster and the commands of log entries
      ([src/meta.c], [src/cmd.c]).

    The state machine ([src/state.c], [src/aux.c], [src/session.c], [src/info.c]):

    - [Sql]: SQLite as a record of operations, with the callbacks it makes.
    - [Session]: what is kept of a client.
    - [Exec]: a request of a client, read operation by operation and executed in a
      transaction.
    - [State]: [state_apply], that is sessions, requests, configurations, time and snapshots
      of the variables.
    - [Wire]: what a request means without the byte encoding, and that [Exec] does just
      this.

    The server ([src/server.c], [src/node.c], [src/client.c], [src/snapshot.c]):

    - [Node] and [Server]: peers; the state of [struct server] and elections.
    - [Election]: what each handler of a server does to its term, its vote and the votes it
      counts.
    - [Replicate]: merging the entries of a leader, choosing the commit index, sending
      entries and snapshots.
    - [Commit]: applying committed entries, answering clients, jobs and the event loop.
    - [Cluster]: several servers, each with the file of its vote, crashes and restarts with
      [server_read_meta], and a network that loses, repeats and reorders, as a step relation
      over the event loops of [Commit].
    - [Pace]: the invariant that holds over every run of the event loop.
    - [Disk]: the functions of [src/file.c] over a file system with failing calls and crashes,
      and the file with the vote and the configuration; [Snap]: taking, sending, receiving and
      reading snapshots over it.
    - [Handoff]: the snapshot thread and the server thread, with [sc_cond.c], as an
      interleaving of steps.
    - [Life]: starting, restarting, a full disk and stopping: the objects of nodes, the
      snapshot thread and the event loop around the handlers.
    - [Conf]: the configuration file and the command line ([src/conf.c], [sc_ini.c],
      [sc_option.c]).

    The client libraries:

    - [Resql] ([cresql/resql.c]): building requests, sending and reconnecting, reading
      results.
    - [Client]: a client, the network and the state machine together.
    - [Goresql] ([goresql/]) and [Jresql] ([jresql/]): the clients for Go and Java, each with
      the state machine behind it.

    ** How code corresponds to definitions

    A C function is a definition with its name, a [struct] a [Record], an [enum] or a tagged
    union an [Inductive].  Unsigned integers are [Z] and every operation that can leave the
    range is reduced ([u32], [+₃₂], ...); signed ones are reduced to two's complement where
    the code relies on it.  Functions that change an object return the new object; where
    objects are shared by pointers (nodes, sessions, list links, clients) there is a heap of
    them and pointers are addresses.  Code that threads state or errors through many calls is
    written in a small monad ([bufM], [sqlM], [execM], [stateM], [runM], [clientM],
    [connM], [fsM], [lifeM], [goM], [exnM]).  [None] as the result of a run is a process that stops or hangs: an abort or
    assertion that is hit, a null pointer, a loop that does not end.

    Code outside the repository is an argument: SQLite is the record [sqlite], the kernel a
    sequence of answers ([io], [h_kernel]) that the theorems quantify over, the network of
    the client libraries a record ([net], [jnet]).  The file system of [Disk] keeps flushed
    bytes over a crash, loses or replaces bytes that were not flushed, and brings changes of a
    directory to the disk in their order, at the latest when the directory is flushed.  Hypotheses about it state documented behaviour and
    are shown to hold for a concrete instance in the witnesses.

    ** What the theorems show

    - Data structures refine their abstract objects: [sc_map_refines], [sc_list_refines],
      [sc_queue_refines], [sc_timer_fires], [sc_str_spec], [sc_uri_stable],
      [sc_buf_invariant], [sc_crc32_all_builds]; [hdr_accuracy] and
      [hdr_merged_percentiles] bound the error of reported latencies.
    - What is written is read back: [entry_decode_total], [msg_stream_roundtrip],
      [meta_roundtrip], [cmd_roundtrip]; also after a crash: [page_open_recovers],
      [store_init_recovers_log], [store_init_after_snapshot], and for the files of the server
      down to the system calls: [vote_survives], [snapshot_arrives].
    - The store is a log: [page_refines_list], [store_refines_log].
    - Connections deliver messages unchanged and in order: [conn_delivers].
    - The protocol: [election_safety] (with the conditions the code needs),
      [store_entries_merges], [commit_index_majority], [meta_change_safe] and
      [server_stays_in_step]: over every run of the event loop the state machine has applied
      the committed entries of the log, each once and in order.
    - Threads and objects: [snapshot_handoff] (the two threads agree on snapshots, and every
      wait ends) and [server_releases] (no node object is freed twice, used after it was freed
      or lost).
    - Settings: [conf_precedence].
    - Clients: [state_request_once] (a request that is sent again is executed once),
      [state_sessions_consistent], [request_refines], and [client_roundtrip], [go_roundtrip]
      and [java_roundtrip], which join the three client libraries to the state machine.
    - Where the code does not do what it means to, a theorem shows it, in general:
      [candidate_votes_twice], [old_configuration_votes_again],
      [new_leader_commits_unconfirmed], [bind_params_hangs], [empty_statement_fatal],
      [failing_access_forgets]; or by a run: [two_leaders_one_term],
      [old_configuration_lowers_term], [reconnect_commits_unconfirmed],
      [meta_rollback_pending], [snapshot_forgets_disconnects], [snapshot_drops_late_entry],
      [page_open_loses_zero_crc], [page_fsync_skips_after_truncation],
      [full_stop_frees_twice], [stop_is_lost].

    ** Fuel and bounds

    Loops of the source that are not structural run with fuel.

    - Probing in [Map] has the size of the table plus one as fuel; the refinement theorem
      shows that it is never used up on a reachable table.
    - [word_loop], [zeros_loop] and [block_loop] of [Crc32], [page_read_loop],
      [entry_foreach], [msg_drain] and [tokens] consume input in every turn and take its
      length (or the bits of a length) as fuel.
    - The doubling loops ([reserve_loop], [buckets_needed_loop]) end after at most as many
      turns as an integer has bits.
    - [meta_decode] recurses into the previous configuration; [depth] of the configuration
      is enough, which [cmd_fuel] passes on.
    - The loops of [Exec] over a request take any fuel and return [None] when it is used up:
      they can really hang ([bind_params_hangs]).  For encoded requests [op_fuel] and
      [ops_fuel] are enough and the theorems prove that a result is returned;
      [replies_fuel] plays this role for the client.
    - [CREATE_FUEL] is 8: [server_create_entry] starts again only after a snapshot that was
      in progress is done, which it can wait for once, or after the page was enlarged, and
      calls itself once for a time stamp.  [RS_FAIL] marks used-up fuel.
    - [send_loop] and [readable_loop] of [Conn] take fuel; each turn uses an answer of the
      kernel.
    - [iter_fuel] of [Hdr] is the number of counters plus two.
    - [copy_loop] and [copy_write] of [Disk] take fuel; each turn uses an answer of the system,
      and a process that runs out of it counts as one that ends in the middle.
    - The loops of [Goresql] and [Jresql] that wait for the network take any fuel and report
      when it is used up; the theorems show that the fuel they name is enough.
    - The event loops of [Commit], [Cluster] and [Life] run over a given list of events.

    ** Not modelled

    - SQLite, the compiled libraries of the system and the kernel are arguments, see above.
    - Functions that only format text for people: the [*_print] functions, [sc_log], the
      printf-style string constructors, the terminal of the command line client
      ([util/cli], linenoise).
    - The wrappers of threads, locks, signals, clocks and memory maps ([sc_thread.c],
      [sc_mutex.c], [sc_signal.c], [sc_time.c], most of [sc_mmap.c], [src/rs.c]): their results
      are answers of the environment.  Except in [Handoff] the snapshot thread is a call that
      is answered later.
    - [src/metric.c]: the measurements are opaque bytes.
    - The objects of connections and clients in [Life], which follows those of nodes.
    - Freeing other memory at the end of the process, and allocation failure where the source
      ends the process ([rs_malloc]).
    - The trainer, the tests and the deployment scripts. *)

From Stdlib Require Import ZArith Lia.
From Stdlib Require Import Strings.Byte.
From stdpp Require Import base list numbers.

Declare Scope resql_scope.
Delimit Scope resql_scope with resql.
Open Scope Z_scope.

(** ** Machine integers

    A C unsigned integer of width [w] is a [Z]; every operation that can leave
    the range is written with the reduction the C standard gives it. *)

Definition u8 (z : Z) : Z := z mod 2 ^ 8.
Definition u16 (z : Z) : Z := z mod 2 ^ 16.
Definition u32 (z : Z) : Z := z mod 2 ^ 32.
Definition u64 (z : Z) : Z := z mod 2 ^ 64.

(** [UINT32_MAX] and [UINT64_MAX]. *)
Definition UINT32_MAX : Z := 2 ^ 32 - 1.
Definition UINT64_MAX : Z := 2 ^ 64 - 1.

Abbreviation is_u8 z := (0 <= z < 2 ^ 8).
Abbreviation is_u16 z := (0 <= z < 2 ^ 16).
Abbreviation is_u32 z := (0 <= z < 2 ^ 32).
Abbreviation is_u64 z := (0 <= z < 2 ^ 64).

(** Unsigned additions and subtractions, reduced to the width. *)
Notation "a +₃₂ b" := (u32 (a + b)) (at level 50, left associativity) : resql_scope.
Notation "a -₃₂ b" := (u32 (a - b)) (at level 50, left associativity) : resql_scope.
Notation "a +₆₄ b" := (u64 (a + b)) (at level 50, left associativity) : resql_scope.
Notation "a -₆₄ b" := (u64 (a - b)) (at level 50, left associativity) : resql_scope.
Open Scope resql_scope.

Lemma u32_small z : is_u32 z -> u32 z = z.
Proof. apply Z.mod_small. Qed.

Lemma u64_small z : is_u64 z -> u64 z = z.
Proof. apply Z.mod_small. Qed.

Lemma u8_range z : is_u8 (u8 z).
Proof. apply Z.mod_pos_bound; lia. Qed.

Lemma u16_range z : is_u16 (u16 z).
Proof. apply Z.mod_pos_bound; lia. Qed.

Lemma u32_le z : 0 <= z -> 0 <= u32 z <= z.
Proof. intros H. unfold u32. split; [apply Z.mod_pos_bound|apply Z.mod_le]; lia. Qed.
Lemma u32_range z : is_u32 (u32 z).
Proof. apply Z.mod_pos_bound; lia. Qed.

Lemma u64_range z : is_u64 (u64 z).
Proof. apply Z.mod_pos_bound; lia. Qed.

(** Replace the C comparisons (booleans) of the context and the goal by the
    propositions they decide. *)
Ltac zb :=
  repeat match goal with
  | H : (_ <? _) = true |- _ => apply Z.ltb_lt in H
  | H : (_ <? _) = false |- _ => apply Z.ltb_ge in H
  | H : (_ <=? _) = true |- _ => apply Z.leb_le in H
  | H : (_ <=? _) = false |- _ => apply Z.leb_gt in H
  | H : (_ >? _) = true |- _ => rewrite Z.gtb_ltb in H; apply Z.ltb_lt in H
  | H : (_ >? _) = false |- _ => rewrite Z.gtb_ltb in H; apply Z.ltb_ge in H
  | H : (_ >=? _) = true |- _ => rewrite Z.geb_leb in H; apply Z.leb_le in H
  | H : (_ >=? _) = false |- _ => rewrite Z.geb_leb in H; apply Z.leb_gt in H
  | H : (_ =? _) = true |- _ => apply Z.eqb_eq in H
  | H : (_ =? _) = false |- _ => apply Z.eqb_neq in H
  | H : (_ || _)%bool = false |- _ => apply orb_false_iff in H as [? ?]
  | H : (_ && _)%bool = true |- _ => apply andb_true_iff in H as [? ?]
  | H : negb _ = true |- _ => apply negb_true_iff in H
  | H : negb _ = false |- _ => apply negb_false_iff in H
  end.

(** Case analysis on every [if] of the goal, with the comparisons reflected. *)
Ltac case_if :=
  match goal with
  | |- context [if ?b then _ else _] => destruct b eqn:?
  end; zb.

(** [zif]: decide every [if] whose guard is settled by linear arithmetic. *)
Lemma if_true {A} (b : bool) (x y : A) : b = true -> (if b then x else y) = x.
Proof. by intros ->. Qed.

Lemma if_false {A} (b : bool) (x y : A) : b = false -> (if b then x else y) = y.
Proof. by intros ->. Qed.

Ltac zbool_solve :=
  repeat first
    [ rewrite Z.gtb_ltb | rewrite Z.geb_leb ];
  first
    [ apply Z.ltb_lt; lia | apply Z.ltb_ge; lia | apply Z.leb_le; lia
    | apply Z.leb_gt; lia | apply Z.eqb_eq; lia | apply Z.eqb_neq; lia
    | reflexivity | lia ].

Ltac zif :=
  repeat match goal with
  | |- context [if ?b then _ else _] =>
      first [ rewrite (if_true b) by zbool_solve
            | rewrite (if_false b) by zbool_solve ]
  end.

(** Linear arithmetic with divisions and remainders by constants. *)
Ltac dlia := Z.div_mod_to_equations; lia.

(** ** Bytes *)

Definition b2z (b : byte) : Z := Z.of_N (Byte.to_N b).

(** The conversion [(unsigned char) z]. *)
Definition z2b (z : Z) : byte :=
  match Byte.of_N (Z.to_N (z mod 256)) with
  | Some b => b
  | None => x00
  end.

#[export] Instance byte_eq_dec : EqDecision byte := Byte.byte_eq_dec.
#[export] Instance byte_inhabited : Inhabited byte := populate x00.

Lemma b2z_range b : 0 <= b2z b < 256.
Proof.
  unfold b2z. pose proof (Byte.to_N_bounded b). lia.
Qed.

Lemma b2z_z2b z : b2z (z2b z) = z mod 256.
Proof.
  unfold z2b, b2z. pose proof (Z.mod_pos_bound z 256).
  destruct (Byte.of_N _) as [b|] eqn:E.
  - apply Byte.to_of_N in E. rewrite E. lia.
  - apply Byte.of_N_None_iff in E. lia.
Qed.

Lemma z2b_b2z b : z2b (b2z b) = b.
Proof.
  unfold z2b, b2z. pose proof (b2z_range b). unfold b2z in *.
  rewrite Z.mod_small by lia. by rewrite N2Z.id, Byte.of_to_N.
Qed.

Lemma b2z_inj a b : b2z a = b2z b -> a = b.
Proof. intros E. by rewrite <- (z2b_b2z a), E, z2b_b2z. Qed.

Lemma z2b_mod z : z2b (z mod 256) = z2b z.
Proof. apply b2z_inj. by rewrite !b2z_z2b, Z.mod_mod by lia. Qed.

(** ** Little-endian integers

    [le_split n v] is the byte sequence [(v >> 0), (v >> 8), ...] that the
    [sc_buf_set_*_pos] functions store, [le_combine bs] the value
    [p[0] << 0 | p[1] << 8 | ...] that the readers assemble. *)

Fixpoint le_split (n : nat) (v : Z) : list byte :=
  match n with
  | O => []
  | S n => z2b v :: le_split n (Z.shiftr v 8)
  end.

Fixpoint le_combine (bs : list byte) : Z :=
  match bs with
  | [] => 0
  | b :: bs => Z.lor (b2z b) (Z.shiftl (le_combine bs) 8)
  end.

Lemma length_le_split n v : length (le_split n v) = n.
Proof. revert v. induction n; intros; simpl; auto. Qed.

(** Bits above the width of an unsigned value are clear. *)
Lemma testbit_high z w i : 0 <= z < 2 ^ w -> w <= i -> Z.testbit z i = false.
Proof.
  intros Hz Hi. destruct (decide (0 <= w)).
  - rewrite <- (Z.mod_small z (2 ^ w)) by lia. by apply Z.mod_pow2_bits_high.
  - rewrite Z.pow_neg_r in Hz by lia. lia.
Qed.

Lemma lor_shift_add a b n :
  0 <= n -> 0 <= a < 2 ^ n -> Z.lor a (Z.shiftl b n) = a + 2 ^ n * b.
Proof.
  intros Hn Ha. rewrite (Z.mul_comm (2 ^ n)), <- Z.shiftl_mul_pow2 by lia.
  rewrite <- Z.lxor_lor, <- Z.add_nocarry_lxor; [done| |].
  all: apply Z.bits_inj'; intros i Hi; rewrite Z.land_spec, Z.shiftl_spec, Z.bits_0 by lia.
  all: destruct (decide (i < n)).
  all: try (rewrite (Z.testbit_neg_r b) by lia; apply andb_false_r).
  all: by rewrite (testbit_high a n) by lia.
Qed.

Lemma le_combine_cons b bs : le_combine (b :: bs) = b2z b + 256 * le_combine bs.
Proof.
  simpl. rewrite lor_shift_add; [done|lia|].
  pose proof (b2z_range b). lia.
Qed.

Lemma le_combine_split n v : le_combine (le_split n v) = v mod 2 ^ (8 * Z.of_nat n).
Proof.
  revert v. induction n as [|n IH]; intros v.
  - simpl. by rewrite Z.mod_1_r.
  - cbn [le_split]. rewrite le_combine_cons, IH, b2z_z2b, Z.shiftr_div_pow2 by lia.
    replace (8 * Z.of_nat (S n)) with (8 + 8 * Z.of_nat n) by lia.
    rewrite Z.pow_add_r by lia. change (2 ^ 8) with 256.
    rewrite Z.rem_mul_r by (try apply Z.pow_nonzero; lia). lia.
Qed.

Lemma le_combine_range bs : 0 <= le_combine bs < 2 ^ (8 * Z.of_nat (length bs)).
Proof.
  induction bs as [|b bs IH]; [simpl; lia|].
  rewrite le_combine_cons. pose proof (b2z_range b). cbn [length].
  replace (8 * Z.of_nat (S (length bs))) with (8 + 8 * Z.of_nat (length bs)) by lia.
  rewrite Z.pow_add_r by lia. change (2 ^ 8) with 256. lia.
Qed.

Lemma le_combine_inj a b :
  length a = length b -> le_combine a = le_combine b -> a = b.
Proof.
  revert b. induction a as [|x a IH]; intros [|y b] Hl; [done..|].
  rewrite !le_combine_cons. intros E. injection Hl as Hl.
  pose proof (b2z_range x). pose proof (b2z_range y).
  rewrite (IH b), (b2z_inj x y) by lia. done.
Qed.

Lemma le_split_combine bs : le_split (length bs) (le_combine bs) = bs.
Proof.
  apply le_combine_inj; [apply length_le_split|].
  rewrite le_combine_split. apply Z.mod_small, le_combine_range.
Qed.

(** ** Byte memory

    [mread m pos n] is the C range [m[pos .. pos + n)] and [mwrite m pos bs]
    the memory after [memcpy(m + pos, bs, len)]. *)

Definition zlen {A} (l : list A) : Z := Z.of_nat (length l).

Definition mread (m : list byte) (pos n : Z) : list byte :=
  take (Z.to_nat n) (drop (Z.to_nat pos) m).

Definition mwrite (m : list byte) (pos : Z) (bs : list byte) : list byte :=
  take (Z.to_nat pos) m ++ bs ++ drop (Z.to_nat pos + length bs) m.

Lemma zlen_nonneg {A} (l : list A) : 0 <= zlen l.
Proof. unfold zlen. lia. Qed.

Lemma zlen_app {A} (l k : list A) : zlen (l ++ k) = zlen l + zlen k.
Proof. unfold zlen. rewrite length_app. lia. Qed.

Lemma zlen_cons {A} (x : A) l : zlen (x :: l) = 1 + zlen l.
Proof. unfold zlen. simpl. lia. Qed.

Lemma zlen_le_split n v : zlen (le_split n v) = Z.of_nat n.
Proof. unfold zlen. by rewrite length_le_split. Qed.

Lemma zlen_mread m pos n :
  0 <= pos -> 0 <= n -> pos + n <= zlen m -> zlen (mread m pos n) = n.
Proof.
  unfold zlen, mread. intros. rewrite length_take, length_drop. lia.
Qed.

Lemma zlen_mwrite m pos bs :
  0 <= pos -> pos + zlen bs <= zlen m -> zlen (mwrite m pos bs) = zlen m.
Proof.
  unfold zlen, mwrite. intros.
  rewrite !length_app, length_take, length_drop. lia.
Qed.

Lemma mread_write_same m pos bs :
  0 <= pos -> pos + zlen bs <= zlen m -> mread (mwrite m pos bs) pos (zlen bs) = bs.
Proof.
  unfold mread, mwrite, zlen. intros.
  rewrite drop_app_length' by (rewrite length_take; lia).
  rewrite Nat2Z.id. by apply take_app_length.
Qed.

Lemma mread_write_before m pos bs q n :
  0 <= q -> 0 <= n -> q + n <= pos -> pos <= zlen m ->
  mread (mwrite m pos bs) q n = mread m q n.
Proof.
  unfold mread, mwrite, zlen. intros. apply list_eq. intros i.
  destruct (decide (i < Z.to_nat n)%nat); [|by rewrite !lookup_take_ge by lia].
  rewrite !lookup_take_lt, !lookup_drop by done.
  rewrite lookup_app_l by (rewrite length_take; lia).
  rewrite lookup_take_lt by lia. done.
Qed.

Lemma mread_write_after m pos bs q n :
  0 <= pos -> 0 <= n -> pos + zlen bs <= q -> pos + zlen bs <= zlen m ->
  mread (mwrite m pos bs) q n = mread m q n.
Proof.
  unfold mread, mwrite, zlen. intros. f_equal.
  rewrite drop_app_ge by (rewrite length_take; lia).
  rewrite drop_app_ge by (rewrite length_take; lia).
  rewrite drop_drop. f_equal. rewrite length_take. lia.
Qed.

(** A range splits at any inner point. *)
Lemma mread_split m pos a b :
  0 <= pos -> 0 <= a -> 0 <= b ->
  mread m pos (a + b) = mread m pos a ++ mread m (pos + a) b.
Proof.
  unfold mread. intros. rewrite !Z2Nat.inj_add by lia.
  rewrite <- drop_drop. rewrite <- take_take_drop. done.
Qed.

Lemma mread_nil m pos : mread m pos 0 = [].
Proof. unfold mread. by rewrite take_0. Qed.

Lemma mread_all m : mread m 0 (zlen m) = m.
Proof. unfold mread, zlen. rewrite Nat2Z.id. by apply firstn_all. Qed.

(** Reading inside a range that was just read. *)
Lemma mread_mread m pos n q k :
  0 <= pos -> 0 <= q -> 0 <= k -> q + k <= n ->
  mread (mread m pos n) q k = mread m (pos + q) k.
Proof.
  unfold mread. intros. rewrite skipn_firstn_comm, take_take, drop_drop.
  f_equal; [lia|]. f_equal. lia.
Qed.

(** ** C strings

    [cstring m] is the C string that starts at the first byte of [m]: the bytes
    before the first NUL. *)

Fixpoint cstring (m : list byte) : list byte :=
  match m with
  | [] => []
  | b :: m => if decide (b = x00) then [] else b :: cstring m
  end.

(** A byte sequence that is a C string: no NUL inside. *)
Definition no_nul (s : list byte) : Prop := Forall (fun b => b <> x00) s.

#[export] Instance no_nul_dec s : Decision (no_nul s).
Proof. unfold no_nul. apply _. Defined.

Lemma cstring_app s m : no_nul s -> cstring (s ++ x00 :: m) = s.
Proof.
  induction 1 as [|b s Hb Hs IH]; simpl; [done|].
  rewrite decide_False by done. by rewrite IH.
Qed.

(** ** Return codes of the program: [enum rs_rc] of src/rs.h. *)

Inductive rs_rc :=
| RS_OK | RS_ERROR | RS_DONE | RS_NOOP | RS_RETRY | RS_NONBLOCK | RS_ENOENT
| RS_EMPTY | RS_INVALID | RS_PARTIAL | RS_EXISTS | RS_TIMEOUT | RS_INPROGRESS
| RS_NOTFOUND | RS_FULL | RS_FATAL | RS_FAIL | RS_SQL_ERROR | RS_SNAPSHOT
| RS_REJECT.

#[export] Instance rs_rc_eq_dec : EqDecision rs_rc.
Proof. solve_decision. Defined.
