(* ===== verification/Sc.v ===== *)
(** * Utilities: lib/sc/sc.c

    The RC4 generator that gives the state machine its replicated randomness and
    the power-of-two helpers that size pages and maps. *)

From Stdlib Require Import ZArith Lia Permutation.
From Stdlib Require Import Strings.Byte.
From stdpp Require Import base list numbers.
From S2P Require Import Prelude.

(** ** Powers of two *)

Definition sc_is_pow2 (num : Z) : bool := negb (num =? 0) && (Z.land num (num -₆₄ 1) =? 0).

(** The loop over [i = 1, 2, 4, ..., 32]. *)
Definition sc_to_pow2 (size : Z) : Z :=
  if size =? 0 then 1
  else
    let size := size - 1 in
    let size := fold_left (fun size i => Z.lor size (Z.shiftr size i)) [1; 2; 4; 8; 16; 32] size in
    size +₆₄ 1.

(** The [s] bits from [l] down are set and none above. *)
Definition smeared (l s x : Z) : Prop :=
  forall i, 0 <= i -> (l - s < i <= l -> Z.testbit x i = true) /\ (l < i -> Z.testbit x i = false).

Lemma smeared_step l s x :
  0 <= s -> smeared l s x -> smeared l (2 * s) (Z.lor x (Z.shiftr x s)).
Proof.
  intros Hs H i Hi. rewrite Z.lor_spec, Z.shiftr_spec by done. split; intros Hl.
  - destruct (Z_lt_le_dec (l - s) i) as [Hd|Hd].
    + by rewrite (proj1 (H i Hi)) by lia.
    + by rewrite (proj1 (H (i + s) ltac:(lia))), orb_true_r by lia.
  - by rewrite (proj2 (H i Hi)), (proj2 (H (i + s) ltac:(lia))) by lia.
Qed.

Lemma smeared_ones l s x : 0 <= l < s -> smeared l s x -> x = Z.ones (l + 1).
Proof.
  intros Hl H. apply Z.bits_inj'. intros i Hi. destruct (Z_lt_le_dec l i) as [Hd|Hd].
  - by rewrite Z.ones_spec_high, (proj2 (H i Hi)) by lia.
  - by rewrite Z.ones_spec_low, (proj1 (H i Hi)) by lia.
Qed.

Lemma sc_to_pow2_spec size :
  1 <= size <= 2 ^ 63 -> sc_to_pow2 size = 2 ^ Z.log2_up size.
Proof.
  intros Hs. unfold sc_to_pow2. destruct (Z.eqb_spec size 0) as [|_]; [lia|].
  destruct (Z.eq_dec size 1) as [->|Hne]; [done|].
  set (n := size - 1). set (l := Z.log2 n).
  assert (Hl : 0 <= l < 63).
  { split; [apply Z.log2_nonneg|]. apply Z.log2_lt_pow2; unfold n; lia. }
  assert (H1 : smeared l 1 n).
  { intros i Hi. split; intros Hi'.
    - assert (i = l) as -> by lia. apply Z.bit_log2. unfold n. lia.
    - apply Z.bits_above_log2; [unfold n; lia|done]. }
  cbn [fold_left].
  do 6 (apply smeared_step in H1; [|lia]). change (2 * (2 * (2 * (2 * (2 * (2 * 1)))))) with 64 in H1.
  change (2 * (2 * (2 * (2 * (2 * 1))))) with 32 in H1. change (2 * (2 * (2 * (2 * 1)))) with 16 in H1.
  change (2 * (2 * (2 * 1))) with 8 in H1. change (2 * (2 * 1)) with 4 in H1. change (2 * 1) with 2 in H1.
  apply smeared_ones in H1; [|lia]. rewrite H1.
  rewrite Z.log2_up_eqn by lia. replace (Z.pred size) with n by (unfold n; lia). fold l.
  rewrite Z.ones_equiv. replace (Z.pred (2 ^ (l + 1)) + 1) with (2 ^ (l + 1)) by lia.
  apply u64_small. split; [apply Z.pow_nonneg; lia|]. apply Z.pow_lt_mono_r; lia.
Qed.

(** [sc_to_pow2] returns the smallest power of two that is not below its
    argument, for every argument up to [2^63] (above it the increment wraps to
    zero). *)
Lemma sc_to_pow2_least size :
  1 <= size <= 2 ^ 63 ->
  exists k, 0 <= k /\ sc_to_pow2 size = 2 ^ k /\ size <= 2 ^ k /\
    (forall j, 0 <= j -> size <= 2 ^ j -> 2 ^ k <= 2 ^ j).
Proof.
  intros Hs. exists (Z.log2_up size). split_and!.
  - apply Z.log2_up_nonneg.
  - by apply sc_to_pow2_spec.
  - destruct (Z.eq_dec size 1) as [->|]; [done|]. by apply Z.log2_up_spec; lia.
  - intros j Hj Hle. apply Z.pow_le_mono_r; [lia|]. by apply Z.log2_up_le_pow2; lia.
Qed.

Lemma sc_to_pow2_least_witness :
  exists k, 0 <= k /\ sc_to_pow2 33554433 = 2 ^ k /\ 33554433 <= 2 ^ k /\
    (forall j, 0 <= j -> 33554433 <= 2 ^ j -> 2 ^ k <= 2 ^ j).
Proof. apply (sc_to_pow2_least 33554433). lia. Defined.

Lemma sc_to_pow2_wraps : sc_to_pow2 (2 ^ 63 + 1) = 0.
Proof. reflexivity. Qed.

Lemma sc_is_pow2_spec num :
  is_u64 num -> sc_is_pow2 num = true <-> exists k, 0 <= k /\ num = 2 ^ k.
Proof.
  intros Hn. unfold sc_is_pow2. rewrite andb_true_iff, negb_true_iff, Z.eqb_neq, Z.eqb_eq. split.
  - intros [Hne Hl]. exists (Z.log2 num). split; [apply Z.log2_nonneg|].
    destruct (Z.log2_spec num) as [Hlo Hhi]; [lia|].
    rewrite u64_small in Hl by lia.
    destruct (Z.eq_dec num (2 ^ Z.log2 num)) as [|Hd]; [done|]. exfalso.
    assert (num <> 1) by (intros ->; by apply Hd). pose proof (Z.log2_nonneg num).
    assert (Hb : Z.testbit (Z.land num (num - 1)) (Z.log2 num) = true).
    { rewrite Z.land_spec, Z.bit_log2 by lia. simpl.
      replace (Z.log2 num) with (Z.log2 (num - 1)); [apply Z.bit_log2; lia|].
      apply Z.log2_unique; lia. }
    by rewrite Hl, Z.bits_0 in Hb.
  - intros (k & Hk & ->). pose proof (Z.pow_pos_nonneg 2 k ltac:(lia) Hk). split; [lia|].
    rewrite u64_small by lia. replace (2 ^ k - 1) with (Z.ones k) by (rewrite Z.ones_equiv; lia).
    rewrite Z.land_ones by done. apply Z.mod_same. lia.
Qed.

(** ** The RC4 generator *)

(** [struct sc_rand]: the indices are [uint8_t]. *)
Record sc_rand := mk_rand {
  r_i : Z;
  r_j : Z;
  r_init : list byte
}.

Definition rget (l : list byte) (i : Z) : byte := nth (Z.to_nat i) l x00.
Definition rset (l : list byte) (i : Z) (v : byte) : list byte := <[Z.to_nat i := v]> l.

Definition sc_rand_init (init : list byte) : sc_rand :=
  fold_left (fun r i =>
    let j := u8 (r_j r + b2z (rget (r_init r) i) + b2z (rget init i)) in
    let t := rget (r_init r) j in
    let l := rset (r_init r) j (rget (r_init r) i) in
    mk_rand (r_i r) j (rset l i t))
  (map Z.of_nat (seq 0 256)) (mk_rand 0 0 (take 256 init)).

(** One round of the [do] loop: a byte of output. *)
Definition rand_step (r : sc_rand) : byte * sc_rand :=
  let i := u8 (r_i r + 1) in
  let t := rget (r_init r) i in
  let j := u8 (r_j r + b2z t) in
  let l := rset (r_init r) i (rget (r_init r) j) in
  let l := rset l j t in
  let t := u8 (b2z t + b2z (rget l i)) in
  (rget l t, mk_rand i j l).

Fixpoint rand_loop (n : nat) (r : sc_rand) : list byte * sc_rand :=
  match n with
  | O => ([], r)
  | S n =>
      let '(b, r) := rand_step r in
      let '(bs, r) := rand_loop n r in
      (b :: bs, r)
  end.

Definition sc_rand_read (r : sc_rand) (size : Z) : list byte * sc_rand :=
  if size <=? 0 then ([], r) else rand_loop (Z.to_nat size) r.

(** The generator is well formed: indices are bytes, the table has 256 entries. *)
Record rand_wf (r : sc_rand) : Prop := {
  rw_i : is_u8 (r_i r);
  rw_j : is_u8 (r_j r);
  rw_len : length (r_init r) = 256%nat
}.

(** A swap as the code writes it. *)
Lemma swap_perm (l : list byte) i j :
  0 <= i < zlen l -> 0 <= j < zlen l ->
  Permutation (rset (rset l i (rget l j)) j (rget l i)) l.
Proof.
  unfold rset, rget, zlen. intros Hi Hj.
  set (a := Z.to_nat i). set (b := Z.to_nat j).
  destruct (lookup_lt_is_Some_2 l a) as [x Hx]; [lia|].
  destruct (lookup_lt_is_Some_2 l b) as [y Hy]; [lia|].
  rewrite (nth_lookup_Some _ _ _ _ Hx), (nth_lookup_Some _ _ _ _ Hy).
  apply Permutation_inj. split; [by rewrite !length_insert|].
  exists (fun k => if decide (k = a) then b else if decide (k = b) then a else k). split.
  - intros k k'. repeat case_decide; congruence.
  - intros k. repeat case_decide; subst.
    + destruct (decide (a = b)) as [->|E].
      * by rewrite list_lookup_insert_eq by (rewrite length_insert; lia).
      * by rewrite list_lookup_insert_ne, list_lookup_insert_eq by (done || lia).
    + by rewrite list_lookup_insert_eq by (rewrite length_insert; lia).
    + by rewrite !list_lookup_insert_ne by congruence.
Qed.

Lemma zlen_256 (l : list byte) x : length l = 256%nat -> is_u8 x -> 0 <= x < zlen l.
Proof. unfold zlen. intros -> ?. lia. Qed.

Lemma rand_step_wf r :
  rand_wf r -> rand_wf (snd (rand_step r)) /\ Permutation (r_init (snd (rand_step r))) (r_init r).
Proof.
  intros []. unfold rand_step. cbn [snd r_init]. set (i := u8 (r_i r + 1)).
  set (j := u8 (r_j r + _)). pose proof (u8_range (r_i r + 1)) as Hi. fold i in Hi.
  pose proof (u8_range (r_j r + b2z (rget (r_init r) i))) as Hj. fold j in Hj.
  split; [|by apply swap_perm; apply zlen_256].
  split; simpl; try done. unfold rset. by rewrite !length_insert.
Qed.

Lemma rand_loop_wf n : forall r,
  rand_wf r ->
  rand_wf (snd (rand_loop n r)) /\ Permutation (r_init (snd (rand_loop n r))) (r_init r) /\
  length (fst (rand_loop n r)) = n.
Proof.
  induction n as [|n IH]; intros r Hwf; [done|]. cbn [rand_loop].
  destruct (rand_step_wf r Hwf) as [Hwf1 Hp1]. destruct (rand_step r) as [b r1].
  destruct (IH r1 Hwf1) as (Hwf2 & Hp2 & Hl). destruct (rand_loop n r1) as [bs r2].
  cbn [fst snd] in *. split_and!; [done|by rewrite Hp2|simpl; by rewrite Hl].
Qed.

Lemma rand_loop_app n m r :
  rand_loop (n + m) r =
  (let '(xs, r1) := rand_loop n r in let '(ys, r2) := rand_loop m r1 in (xs ++ ys, r2)).
Proof.
  revert r. induction n as [|n IH]; intros r; cbn [Nat.add rand_loop]; [by destruct (rand_loop m r)|].
  destruct (rand_step r) as [b r1]. rewrite IH. destruct (rand_loop n r1) as [xs r2].
  by destruct (rand_loop m r2) as [ys r3].
Qed.

Lemma init_fold_wf init ks : forall r,
  rand_wf r -> Forall (fun i => is_u8 i) ks ->
  let r' := fold_left (fun r i =>
    let j := u8 (r_j r + b2z (rget (r_init r) i) + b2z (rget init i)) in
    let t := rget (r_init r) j in
    let l := rset (r_init r) j (rget (r_init r) i) in
    mk_rand (r_i r) j (rset l i t)) ks r in
  rand_wf r' /\ Permutation (r_init r') (r_init r).
Proof.
  induction ks as [|i ks IH]; intros r Hwf His; [done|].
  apply Forall_cons_1 in His as [Hi His]. cbn [fold_left].
  set (r1 := mk_rand _ _ _). pose proof Hwf as [].
  pose proof (u8_range (r_j r + b2z (rget (r_init r) i) + b2z (rget init i))) as Hj.
  assert (H1 : rand_wf r1 /\ Permutation (r_init r1) (r_init r)).
  { split; [|apply swap_perm; by apply zlen_256].
    split; simpl; try done. unfold rset. by rewrite !length_insert. }
  destruct H1 as [H1 Hp1]. destruct (IH r1 H1 His) as [H2 Hp2]. split; [done|]. by rewrite Hp2.
Qed.

(** The generator stays a shuffle of its seed.  From any 256-byte seed,
    [sc_rand_init] and any number of reads keep the two indices in range and the
    table a permutation of the seed bytes, so no table access leaves the table;
    a read of [n > 0] bytes returns [n] bytes. *)
Theorem sc_rand_shuffle init size :
  length init = 256%nat ->
  let r0 := sc_rand_init init in
  let '(bs, r) := sc_rand_read r0 size in
  rand_wf r /\ Permutation (r_init r) init /\ zlen bs = Z.max 0 size.
Proof.
  intros Hl r0.
  assert (H0 : rand_wf r0 /\ Permutation (r_init r0) init).
  { destruct (init_fold_wf init (map Z.of_nat (seq 0 256)) (mk_rand 0 0 (take 256 init))) as [Hw Hp].
    - split; simpl; try lia. rewrite length_take. lia.
    - apply List.Forall_forall. intros i Hi. apply in_map_iff in Hi as (k & <- & Hk).
      apply in_seq in Hk. lia.
    - split; [exact Hw|]. etransitivity; [exact Hp|]. simpl r_init. by rewrite take_ge by lia. }
  destruct H0 as [H0 Hp0]. unfold sc_rand_read. destruct (Z.leb_spec size 0).
  - split_and!; [done..|]. change (zlen (@nil byte)) with 0. lia.
  - destruct (rand_loop_wf (Z.to_nat size) r0 H0) as (H1 & H2 & H3).
    destruct (rand_loop _ _) as [bs r]. cbn [fst snd] in *.
    split_and!; [done|by rewrite H2|]. unfold zlen. lia.
Qed.

Lemma sc_rand_shuffle_witness :
  let r0 := sc_rand_init (map (fun n => z2b (Z.of_nat n)) (seq 0 256)) in
  let '(bs, r) := sc_rand_read r0 3 in
  rand_wf r /\ Permutation (r_init r) (map (fun n => z2b (Z.of_nat n)) (seq 0 256)) /\
  zlen bs = Z.max 0 3.
Proof. apply (sc_rand_shuffle (map (fun n => z2b (Z.of_nat n)) (seq 0 256)) 3). reflexivity. Defined.

(** Replicas draw the same bytes however they batch them.  Reading [n] and
    then [m] bytes gives the bytes, and leaves the generator, of one read of
    [n + m]. *)
Lemma sc_rand_read_split r n m :
  0 <= n -> 0 <= m ->
  sc_rand_read r (n + m) =
  (let '(xs, r1) := sc_rand_read r n in
   let '(ys, r2) := sc_rand_read r1 m in (xs ++ ys, r2)).
Proof.
  intros Hn Hm.
  assert (E : forall r k, 0 <= k -> sc_rand_read r k = rand_loop (Z.to_nat k) r).
  { intros r' k Hk. unfold sc_rand_read. destruct (Z.leb_spec k 0); [|done].
    by assert (k = 0) as -> by lia. }
  rewrite E, Z2Nat.inj_add, rand_loop_app, E by lia. destruct (rand_loop _ r) as [xs r1].
  by rewrite E by lia.
Qed.

Lemma sc_rand_read_split_witness :
  let r := sc_rand_init (replicate 256 x07) in
  sc_rand_read r (2 + 3) =
  (let '(xs, r1) := sc_rand_read r 2 in let '(ys, r2) := sc_rand_read r1 3 in (xs ++ ys, r2)).
Proof. intros r. apply (sc_rand_read_split r 2 3); lia. Defined.
