(* ===== verification/Buf.v ===== *)
(** * Byte buffers: lib/sc/sc_buf.c

    [struct sc_buf] as a record, one definition per function.  A function that
    mutates its buffer returns the new buffer, paired with the C result when it
    has one.  Allocation cannot fail in this program: src/config.h maps
    [sc_buf_realloc] to [rs_realloc], which aborts the process.  The abstract
    view of a buffer is the queue of bytes between the read and the write
    position ([contents]); the specifications say that the writers append the
    encoding of their argument and the readers take it off the front. *)

From Stdlib Require Import ZArith Lia.
From Stdlib Require Import Strings.Byte.
From stdpp Require Import base list numbers relations.
From S2P Require Import Prelude.

(** ** The structure *)

Definition SC_BUF_MAX : Z := UINT32_MAX.
Definition SC_BUF_CORRUPT : Z := 1.
Definition SC_BUF_OOM : Z := 3.

Record sc_buf := mk_buf {
  b_mem : list byte;
  b_cap : Z;
  b_limit : Z;
  b_rpos : Z;
  b_wpos : Z;
  b_err : Z;
  b_ref : bool
}.

Definition with_mem (b : sc_buf) (m : list byte) : sc_buf :=
  mk_buf m (b_cap b) (b_limit b) (b_rpos b) (b_wpos b) (b_err b) (b_ref b).
Definition with_rpos (b : sc_buf) (r : Z) : sc_buf :=
  mk_buf (b_mem b) (b_cap b) (b_limit b) r (b_wpos b) (b_err b) (b_ref b).
Definition with_wpos (b : sc_buf) (w : Z) : sc_buf :=
  mk_buf (b_mem b) (b_cap b) (b_limit b) (b_rpos b) w (b_err b) (b_ref b).
(** [b->err |= e] *)
Definition or_err (b : sc_buf) (e : Z) : sc_buf :=
  mk_buf (b_mem b) (b_cap b) (b_limit b) (b_rpos b) (b_wpos b)
    (Z.lor (b_err b) e) (b_ref b).

(** Results paired with the mutated buffer: the state monad the readers of
    structured data (messages, entries, cluster metadata) are written in. *)
Definition bufM (A : Type) : Type := sc_buf -> A * sc_buf.

#[export] Instance bufM_ret : MRet bufM := fun A x b => (x, b).
#[export] Instance bufM_bind : MBind bufM :=
  fun A B f m b => let '(x, b') := m b in f x b'.

(** ** Creation and positions *)

Inductive buf_flag := SC_BUF_NONE | SC_BUF_REF | SC_BUF_DATA | SC_BUF_READ.

Definition flag_ref (f : buf_flag) : bool :=
  match f with SC_BUF_REF | SC_BUF_READ => true | _ => false end.
Definition flag_data (f : buf_flag) : bool :=
  match f with SC_BUF_DATA | SC_BUF_READ => true | _ => false end.

(** [data] is the memory the pointer designates: [len] bytes. *)
Definition sc_buf_wrap (data : list byte) (len : Z) (flag : buf_flag) : sc_buf :=
  mk_buf data len
    (if flag_ref flag then len else SC_BUF_MAX)
    0
    (if flag_data flag then len else 0)
    0
    (flag_ref flag).

Definition sc_buf_init (cap : Z) : sc_buf :=
  sc_buf_wrap (replicate (Z.to_nat cap) x00) cap SC_BUF_NONE.

Definition sc_buf_term (b : sc_buf) : sc_buf := sc_buf_init 0.

Definition sc_buf_set_limit (b : sc_buf) (limit : Z) : sc_buf :=
  mk_buf (b_mem b) (b_cap b) limit (b_rpos b) (b_wpos b) (b_err b) (b_ref b).

(** [realloc]: the old bytes are kept up to the smaller size.  The bytes past
    the old size are indeterminate in C and zero here; no reader can reach them
    before they are written ([wpos] does not move). *)
Definition mrealloc (m : list byte) (size : Z) : list byte :=
  take (Z.to_nat size) m ++ replicate (Z.to_nat size - length m) x00.

Definition round_4096 (n : Z) : Z := u32 (u32 (n + 4095) / 4096 * 4096).

Definition sc_buf_reserve (b : sc_buf) (len : Z) : bool * sc_buf :=
  if b_wpos b +₃₂ len >? b_cap b then
    if b_ref b then (false, or_err b SC_BUF_OOM)
    else
      let size := round_4096 (b_cap b + len) in
      if (size >? b_limit b) || (b_cap b >=? SC_BUF_MAX - 4096)
      then (false, or_err b SC_BUF_OOM)
      else (true, mk_buf (mrealloc (b_mem b) size) size (b_limit b)
                    (b_rpos b) (b_wpos b) (b_err b) (b_ref b))
  else (true, b).

Definition sc_buf_valid (b : sc_buf) : bool := b_err b =? 0.
Definition sc_buf_quota (b : sc_buf) : Z := b_cap b -₃₂ b_wpos b.
Definition sc_buf_size (b : sc_buf) : Z := b_wpos b -₃₂ b_rpos b.

Definition sc_buf_clear (b : sc_buf) : sc_buf :=
  mk_buf (b_mem b) (b_cap b) (b_limit b) 0 0 0 (b_ref b).

Definition sc_buf_mark_read (b : sc_buf) (len : Z) : sc_buf :=
  with_rpos b (b_rpos b +₃₂ len).
Definition sc_buf_mark_write (b : sc_buf) (len : Z) : sc_buf :=
  with_wpos b (b_wpos b +₃₂ len).

Definition sc_buf_set_rpos (b : sc_buf) (pos : Z) : sc_buf :=
  with_rpos (if pos >? b_wpos b then or_err b SC_BUF_CORRUPT else b) pos.
Definition sc_buf_set_wpos (b : sc_buf) (pos : Z) : sc_buf :=
  with_wpos (if pos >? b_cap b then or_err b SC_BUF_CORRUPT else b) pos.

(** The memory from the read position on: what [sc_buf_rbuf] points to. *)
Definition sc_buf_rbuf (b : sc_buf) : list byte := drop (Z.to_nat (b_rpos b)) (b_mem b).

Definition sc_buf_compact (b : sc_buf) : sc_buf :=
  let b := if b_rpos b =? b_wpos b then with_wpos (with_rpos b 0) 0 else b in
  if b_rpos b =? 0 then b
  else
    let copy := b_wpos b -₃₂ b_rpos b in
    with_wpos (with_rpos (with_mem b
      (mwrite (b_mem b) 0 (mread (b_mem b) (b_rpos b) copy))) 0) copy.

Definition sc_buf_shrink (b : sc_buf) (len : Z) : bool * sc_buf :=
  let b := sc_buf_compact b in
  if (len >? b_cap b) || (b_wpos b >=? len) then (true, b)
  else
    let len := round_4096 len in
    (true, mk_buf (mrealloc (b_mem b) len) len (b_limit b)
             (b_rpos b) (b_wpos b) (b_err b) (b_ref b)).

(** ** Reading at a position

    The four [sc_buf_peek_N_pos] functions differ in the width only: [n] bytes
    at [pos].  The sum [pos + sizeof( *val)] is a [size_t] and does not wrap. *)

Definition sc_buf_peek_pos (n : nat) (b : sc_buf) (pos : Z) : (Z * Z) * sc_buf :=
  if pos + Z.of_nat n >? b_wpos b then ((0, 0), or_err b SC_BUF_CORRUPT)
  else ((Z.of_nat n, le_combine (mread (b_mem b) pos (Z.of_nat n))), b).

Definition sc_buf_peek_8_pos := sc_buf_peek_pos 1.
Definition sc_buf_peek_16_pos := sc_buf_peek_pos 2.
Definition sc_buf_peek_32_pos := sc_buf_peek_pos 4.
Definition sc_buf_peek_64_pos := sc_buf_peek_pos 8.

Definition sc_buf_peek_8_at (b : sc_buf) (pos : Z) : Z * sc_buf :=
  let '((_, v), b) := sc_buf_peek_8_pos b pos in (v, b).
Definition sc_buf_peek_16_at (b : sc_buf) (pos : Z) : Z * sc_buf :=
  let '((_, v), b) := sc_buf_peek_16_pos b pos in (v, b).
Definition sc_buf_peek_32_at (b : sc_buf) (pos : Z) : Z * sc_buf :=
  let '((_, v), b) := sc_buf_peek_32_pos b pos in (v, b).
Definition sc_buf_peek_64_at (b : sc_buf) (pos : Z) : Z * sc_buf :=
  let '((_, v), b) := sc_buf_peek_64_pos b pos in (v, b).

Definition sc_buf_peek_8 (b : sc_buf) : Z * sc_buf := sc_buf_peek_8_at b (b_rpos b).
Definition sc_buf_peek_16 (b : sc_buf) : Z * sc_buf := sc_buf_peek_16_at b (b_rpos b).
Definition sc_buf_peek_32 (b : sc_buf) : Z * sc_buf := sc_buf_peek_32_at b (b_rpos b).
Definition sc_buf_peek_64 (b : sc_buf) : Z * sc_buf := sc_buf_peek_64_at b (b_rpos b).

(** The copied bytes, the returned length and the buffer. *)
Definition sc_buf_peek_data (b : sc_buf) (pos len : Z) : (list byte * Z) * sc_buf :=
  if negb (b_err b =? 0) || (pos +₃₂ len >? b_wpos b)
  then ((replicate (Z.to_nat len) x00, 0), or_err b SC_BUF_CORRUPT)
  else ((mread (b_mem b) pos len, len), b).

(** ** Writing at a position *)

Definition sc_buf_set_pos (n : nat) (b : sc_buf) (pos val : Z) : Z * sc_buf :=
  if negb (b_err b =? 0) || (pos + Z.of_nat n >? b_cap b)
  then (0, or_err b SC_BUF_CORRUPT)
  else (Z.of_nat n, with_mem b (mwrite (b_mem b) pos (le_split n val))).

Definition sc_buf_set_8_pos := sc_buf_set_pos 1.
Definition sc_buf_set_16_pos := sc_buf_set_pos 2.
Definition sc_buf_set_32_pos := sc_buf_set_pos 4.
Definition sc_buf_set_64_pos := sc_buf_set_pos 8.

Definition sc_buf_set_8_at (b : sc_buf) (pos val : Z) : sc_buf := snd (sc_buf_set_8_pos b pos val).
Definition sc_buf_set_16_at (b : sc_buf) (pos val : Z) : sc_buf := snd (sc_buf_set_16_pos b pos val).
Definition sc_buf_set_32_at (b : sc_buf) (pos val : Z) : sc_buf := snd (sc_buf_set_32_pos b pos val).
Definition sc_buf_set_64_at (b : sc_buf) (pos val : Z) : sc_buf := snd (sc_buf_set_64_pos b pos val).

Definition sc_buf_set_8 (b : sc_buf) (val : Z) : sc_buf := sc_buf_set_8_at b (b_wpos b) val.
Definition sc_buf_set_16 (b : sc_buf) (val : Z) : sc_buf := sc_buf_set_16_at b (b_wpos b) val.
Definition sc_buf_set_32 (b : sc_buf) (val : Z) : sc_buf := sc_buf_set_32_at b (b_wpos b) val.
Definition sc_buf_set_64 (b : sc_buf) (val : Z) : sc_buf := sc_buf_set_64_at b (b_wpos b) val.

(** [src] holds exactly the [len] bytes to copy. *)
Definition sc_buf_set_data (b : sc_buf) (offset : Z) (src : list byte) : Z * sc_buf :=
  let len := zlen src in
  if negb (b_err b =? 0) || (offset +₃₂ len >? b_cap b)
  then (0, or_err b SC_BUF_CORRUPT)
  else if len =? 0 then (0, b)
  else (len, with_mem b (mwrite (b_mem b) offset src)).

(** ** Readers at the read position *)

Definition sc_buf_get (n : nat) : bufM Z := fun b =>
  let '((k, v), b) := sc_buf_peek_pos n b (b_rpos b) in
  (v, with_rpos b (b_rpos b +₃₂ k)).

Definition sc_buf_get_8 : bufM Z := sc_buf_get 1.
Definition sc_buf_get_16 : bufM Z := sc_buf_get 2.
Definition sc_buf_get_32 : bufM Z := sc_buf_get 4.
Definition sc_buf_get_64 : bufM Z := sc_buf_get 8.

(** The conversion of the byte to [bool]. *)
Definition sc_buf_get_bool : bufM bool := fun b =>
  let '(v, b) := sc_buf_get_8 b in (negb (v =? 0), b).

(** A string field: 32-bit length, the bytes, a NUL.  [None] is the [NULL]
    pointer; [Some s] a pointer to the C string [s].  The length is an [int]
    read from an unsigned field, and the bound check is in [uint32_t]. *)
Definition sc_buf_get_str : bufM (option (list byte)) := fun b =>
  let '(len, b) := sc_buf_get_32 b in
  if len =? UINT32_MAX then (None, b)
  else if u32 (b_rpos b + len + 1) >? b_wpos b then (None, or_err b SC_BUF_CORRUPT)
  else (Some (cstring (sc_buf_rbuf b)), with_rpos b (u32 (b_rpos b + len + 1))).

Definition sc_buf_get_blob (len : Z) : bufM (option (list byte)) := fun b =>
  if len =? 0 then (None, b)
  else if b_rpos b +₃₂ len >? b_wpos b then (None, or_err b SC_BUF_CORRUPT)
  else (Some (take (Z.to_nat len) (sc_buf_rbuf b)), with_rpos b (b_rpos b +₃₂ len)).

Definition sc_buf_get_data (len : Z) : bufM (list byte) := fun b =>
  if b_rpos b +₃₂ len >? b_wpos b
  then (replicate (Z.to_nat len) x00, or_err b SC_BUF_CORRUPT)
  else
    let '((d, k), b) := sc_buf_peek_data b (b_rpos b) len in
    (d, with_rpos b (b_rpos b +₃₂ k)).

(** ** Writers at the write position *)

Definition sc_buf_put (n : nat) (b : sc_buf) (val : Z) : sc_buf :=
  let '(ok, b) := sc_buf_reserve b (Z.of_nat n) in
  if ok then
    let '(k, b) := sc_buf_set_pos n b (b_wpos b) val in
    with_wpos b (b_wpos b +₃₂ k)
  else b.

Definition sc_buf_put_8 := sc_buf_put 1.
Definition sc_buf_put_16 := sc_buf_put 2.
Definition sc_buf_put_32 := sc_buf_put 4.
Definition sc_buf_put_64 := sc_buf_put 8.

Definition sc_buf_put_bool (b : sc_buf) (val : bool) : sc_buf :=
  sc_buf_put_8 b (if val then 1 else 0).

Definition sc_buf_put_raw (b : sc_buf) (ptr : list byte) : sc_buf :=
  let '(ok, b) := sc_buf_reserve b (zlen ptr) in
  if ok then
    let '(k, b) := sc_buf_set_data b (b_wpos b) ptr in
    with_wpos b (b_wpos b +₃₂ k)
  else b.

(** [None] is the [NULL] pointer. *)
Definition sc_buf_put_str (b : sc_buf) (str : option (list byte)) : sc_buf :=
  match str with
  | None => sc_buf_put_32 b UINT32_MAX
  | Some s =>
      let sz := zlen s in
      if sz >=? UINT32_MAX then or_err b SC_BUF_CORRUPT
      else sc_buf_put_raw (sc_buf_put_32 b sz) (s ++ [x00])
  end.

(** [str] holds the [len] bytes; they may contain NUL. *)
Definition sc_buf_put_str_len (b : sc_buf) (str : option (list byte)) : sc_buf :=
  match str with
  | None => sc_buf_put_32 b UINT32_MAX
  | Some s => sc_buf_put_8 (sc_buf_put_raw (sc_buf_put_32 b (zlen s)) s) 0
  end.

Definition sc_buf_put_blob (b : sc_buf) (ptr : list byte) : sc_buf :=
  sc_buf_put_raw (sc_buf_put_32 b (zlen ptr)) ptr.

(** [sc_buf_move dest src]: returns both buffers. *)
Definition sc_buf_move (dest src : sc_buf) : sc_buf * sc_buf :=
  let quota := sc_buf_quota dest in
  let size := sc_buf_size src in
  let copy := if quota <? size then quota else size in
  let from := mread (b_mem src) (b_rpos src) copy in
  (sc_buf_put_raw dest from, with_rpos src (b_rpos src +₃₂ copy)).

(** ** Invariant and abstract view *)

(** The type invariant: the memory has [cap] bytes and the positions are
    ordered inside it. *)
Record buf_wf (b : sc_buf) : Prop := {
  wf_mem : zlen (b_mem b) = b_cap b;
  wf_cap : is_u32 (b_cap b);
  wf_limit : is_u32 (b_limit b);
  wf_rpos : 0 <= b_rpos b <= b_wpos b;
  wf_wpos : b_wpos b <= b_cap b;
  wf_err : 0 <= b_err b < 4
}.

(** The readable bytes, as a queue. *)
Definition contents (b : sc_buf) : list byte :=
  mread (b_mem b) (b_rpos b) (b_wpos b - b_rpos b).

(** Everything before the write position, consumed or not. *)
Definition written (b : sc_buf) : list byte := mread (b_mem b) 0 (b_wpos b).

Create HintDb buf.

Lemma lor_err_range e f : 0 <= e < 4 -> 0 <= f < 4 -> 0 <= Z.lor e f < 4.
Proof.
  intros He Hf. assert (He' : e = 0 \/ e = 1 \/ e = 2 \/ e = 3) by lia.
  assert (Hf' : f = 0 \/ f = 1 \/ f = 2 \/ f = 3) by lia.
  destruct He' as [->|[->|[->| ->]]]; destruct Hf' as [->|[->|[->| ->]]]; vm_compute; split; congruence.
Qed.

Lemma lor_err_nonzero e f : f <> 0 -> Z.lor e f <> 0.
Proof. rewrite Z.lor_eq_0_iff. tauto. Qed.

Lemma wf_or_err b e : buf_wf b -> 0 <= e < 4 -> buf_wf (or_err b e).
Proof. intros [] He. split; simpl; auto using lor_err_range. Qed.

Lemma wf_with_rpos b r : buf_wf b -> 0 <= r <= b_wpos b -> buf_wf (with_rpos b r).
Proof. intros [] Hr. by split. Qed.

Lemma wf_mwrite b pos bs :
  buf_wf b -> 0 <= pos -> pos + zlen bs <= b_cap b ->
  buf_wf (with_mem b (mwrite (b_mem b) pos bs)).
Proof.
  intros [] Hp Hl. split; simpl; auto. by rewrite zlen_mwrite by lia.
Qed.

Lemma wf_clear b : buf_wf b -> buf_wf (sc_buf_clear b).
Proof. intros []. split; simpl; lia. Qed.

#[export] Hint Resolve wf_or_err wf_with_rpos wf_clear : buf.

Lemma zlen_contents b : buf_wf b -> zlen (contents b) = b_wpos b - b_rpos b.
Proof. intros []. unfold contents. apply zlen_mread; lia. Qed.

Lemma zlen_written b : buf_wf b -> zlen (written b) = b_wpos b.
Proof. intros []. unfold written. apply zlen_mread; lia. Qed.

Lemma contents_written b :
  buf_wf b -> contents b = drop (Z.to_nat (b_rpos b)) (written b).
Proof.
  intros []. unfold contents, written, mread. rewrite drop_0, skipn_firstn_comm.
  f_equal. lia.
Qed.

Lemma sc_buf_size_wf b : buf_wf b -> sc_buf_size b = b_wpos b - b_rpos b.
Proof. intros []. unfold sc_buf_size. apply u32_small. lia. Qed.

Lemma sc_buf_quota_wf b : buf_wf b -> sc_buf_quota b = b_cap b - b_wpos b.
Proof. intros []. unfold sc_buf_quota. apply u32_small. lia. Qed.

(** Advancing the read position drops bytes from the front of the queue. *)
Lemma contents_advance b n :
  buf_wf b -> 0 <= n <= b_wpos b - b_rpos b ->
  contents (with_rpos b (b_rpos b + n)) = drop (Z.to_nat n) (contents b).
Proof.
  intros [] Hn. unfold contents, mread. simpl.
  rewrite skipn_firstn_comm, drop_drop. f_equal; [lia|]. f_equal. lia.
Qed.

Lemma contents_take b bs rest :
  buf_wf b -> contents b = bs ++ rest -> mread (b_mem b) (b_rpos b) (zlen bs) = bs.
Proof.
  intros Hwf E. pose proof (zlen_contents b Hwf) as Hl. destruct Hwf.
  rewrite E, zlen_app in Hl. pose proof (zlen_nonneg rest). pose proof (zlen_nonneg bs).
  replace (mread (b_mem b) (b_rpos b) (zlen bs))
    with (take (length bs) (contents b)).
  - rewrite E. by apply take_app_length.
  - unfold contents, mread. rewrite take_take. unfold zlen in *. f_equal. lia.
Qed.

(** ** Readers take their encoding off the front *)

(** The outcome of a successful read of [bs] when [rest] follows. *)
Record consumed (b : sc_buf) (bs rest : list byte) (b' : sc_buf) : Prop := {
  c_buf : b' = with_rpos b (b_rpos b + zlen bs);
  c_wf : buf_wf b';
  c_rest : contents b' = rest
}.

Lemma consumed_intro b bs rest :
  buf_wf b -> contents b = bs ++ rest ->
  consumed b bs rest (with_rpos b (b_rpos b + zlen bs)).
Proof.
  intros Hwf E. pose proof (zlen_contents b Hwf) as Hl.
  rewrite E, zlen_app in Hl. pose proof (zlen_nonneg rest). pose proof (zlen_nonneg bs).
  split; [done| |].
  - apply wf_with_rpos; [done|]. destruct Hwf. lia.
  - rewrite contents_advance by (done || lia). rewrite E. unfold zlen.
    rewrite Nat2Z.id. by apply drop_app_length.
Qed.

Lemma consumed_err b bs rest b' : consumed b bs rest b' -> b_err b' = b_err b.
Proof. by intros [-> _ _]. Qed.

Lemma sc_buf_get_spec n b bs rest :
  buf_wf b -> contents b = bs ++ rest -> length bs = n ->
  exists b', sc_buf_get n b = (le_combine bs, b') /\ consumed b bs rest b'.
Proof.
  intros Hwf E Hn. pose proof (zlen_contents b Hwf) as Hl.
  rewrite E, zlen_app in Hl. pose proof (zlen_nonneg rest).
  assert (Hz : zlen bs = Z.of_nat n) by (unfold zlen; lia).
  exists (with_rpos b (b_rpos b + zlen bs)). split; [|by apply consumed_intro].
  unfold sc_buf_get, sc_buf_peek_pos. zif.
  rewrite <- Hz, (contents_take b bs rest) by done.
  rewrite u32_small by (destruct Hwf; lia). done.
Qed.

(** Reading an integer that was written with the same width. *)
Lemma sc_buf_get_int n b v rest :
  buf_wf b -> contents b = le_split n v ++ rest -> 0 <= v < 2 ^ (8 * Z.of_nat n) ->
  exists b', sc_buf_get n b = (v, b') /\ consumed b (le_split n v) rest b'.
Proof.
  intros Hwf E Hv.
  destruct (sc_buf_get_spec n b _ rest Hwf E (length_le_split n v)) as (b' & Hg & Hc).
  exists b'. split; [|done]. by rewrite Hg, le_combine_split, Z.mod_small.
Qed.

Lemma sc_buf_get_bool_spec b v rest :
  buf_wf b -> contents b = le_split 1 (if v : bool then 1 else 0) ++ rest ->
  exists b', sc_buf_get_bool b = (v, b') /\
    consumed b (le_split 1 (if v then 1 else 0)) rest b'.
Proof.
  intros Hwf E.
  destruct (sc_buf_get_int 1 b _ rest Hwf E) as (b' & Hg & Hc).
  { destruct v; simpl; lia. }
  exists b'. split; [|done]. unfold sc_buf_get_bool, sc_buf_get_8. rewrite Hg.
  by destruct v.
Qed.

(** The encoding of a string field. *)
Definition enc_str (s : option (list byte)) : list byte :=
  match s with
  | None => le_split 4 UINT32_MAX
  | Some s => le_split 4 (zlen s) ++ s ++ [x00]
  end.

(** Strings a buffer can hold: C strings shorter than [UINT32_MAX]. *)
Definition str_ok (s : option (list byte)) : Prop :=
  match s with
  | None => True
  | Some s => no_nul s /\ zlen s < UINT32_MAX
  end.

#[export] Instance str_ok_dec s : Decision (str_ok s).
Proof. destruct s; simpl; apply _. Defined.

Lemma consumed_trans b xs ys rest b1 b2 :
  consumed b xs (ys ++ rest) b1 -> consumed b1 ys rest b2 ->
  consumed b (xs ++ ys) rest b2.
Proof.
  intros [-> _ _] [-> Hw Hc]. split; [|done..].
  unfold with_rpos. simpl. rewrite zlen_app. f_equal. lia.
Qed.

Lemma sc_buf_get_str_spec b s rest :
  buf_wf b -> contents b = enc_str s ++ rest -> str_ok s ->
  exists b', sc_buf_get_str b = (s, b') /\ consumed b (enc_str s) rest b'.
Proof.
  intros Hwf E Hs. unfold sc_buf_get_str, sc_buf_get_32. destruct s as [s|]; simpl in E.
  - destruct Hs as [Hn Hs]. rewrite <- !app_assoc in E.
    destruct (sc_buf_get_int 4 b _ _ Hwf E) as (b1 & Hg & Hc1).
    { unfold zlen, UINT32_MAX in *. lia. }
    destruct Hc1 as [Hb1 Hwf1 Hr1] eqn:EC. rewrite Hg.
    pose proof (zlen_contents b1 Hwf1) as Hl. rewrite Hr1, !zlen_app in Hl.
    pose proof (zlen_nonneg rest). pose proof (zlen_nonneg s).
    change (zlen [x00]) with 1 in Hl.
    assert (Hsm : is_u32 (b_rpos b1 + zlen s + 1)) by (destruct Hwf1; lia).
    rewrite (u32_small _ Hsm). zif.
    exists (with_rpos b1 (b_rpos b1 + zlen (s ++ [x00]))). split.
    + rewrite zlen_app. change (zlen [x00]) with 1. rewrite Z.add_assoc.
      f_equal. f_equal.
      unfold sc_buf_rbuf. rewrite <- (take_drop (Z.to_nat (b_wpos b1 - b_rpos b1)) (drop _ _)).
      fold (mread (b_mem b1) (b_rpos b1) (b_wpos b1 - b_rpos b1)).
      change (mread _ _ _) with (contents b1). rewrite Hr1, <- !app_assoc.
      by apply cstring_app.
    + eapply consumed_trans; [|apply consumed_intro].
      * simpl. rewrite <- app_assoc. exact Hc1.
      * done.
      * rewrite Hr1. by rewrite <- app_assoc.
  - destruct (sc_buf_get_int 4 b _ _ Hwf E) as (b1 & Hg & Hc1).
    { unfold UINT32_MAX. lia. }
    rewrite Hg. exists b1. by rewrite Z.eqb_refl.
Qed.

(** ** Writers append their encoding *)

(** The outcome of a successful write of [bs]. *)
Record appended (b : sc_buf) (bs : list byte) (b' : sc_buf) : Prop := {
  a_wf : buf_wf b';
  a_err : b_err b' = b_err b;
  a_rpos : b_rpos b' = b_rpos b;
  a_limit : b_limit b' = b_limit b;
  a_ref : b_ref b' = b_ref b;
  a_cap : b_cap b <= b_cap b';
  a_fixed : b_ref b = true -> b_cap b' = b_cap b;
  a_written : written b' = written b ++ bs
}.

(** The outcome of a write that failed: the error flag is set and the bytes
    written before the call are untouched. *)
Record put_failed (b : sc_buf) (n : Z) (b' : sc_buf) : Prop := {
  f_wf : buf_wf b';
  f_err : b_err b' <> 0;
  f_rpos : b_rpos b' = b_rpos b;
  f_wpos : b_wpos b <= b_wpos b' <= b_wpos b + n;
  f_cap : b_cap b <= b_cap b';
  f_written : mread (b_mem b') 0 (b_wpos b) = written b
}.

(** [n] more bytes fit: either in place or by growing below the limit. *)
Definition room (b : sc_buf) (n : Z) : Prop :=
  b_wpos b + n <= b_cap b \/
  (b_ref b = false /\ 2 * (b_wpos b + n) + 4095 <= b_limit b).

(** No 32-bit sum of the write path wraps for [n] more bytes: they fit already
    or the buffer stays below half of the 32-bit range. *)
Definition no_wrap (b : sc_buf) (n : Z) : Prop :=
  b_wpos b + n <= b_cap b \/ 2 * (b_wpos b + n) + 8192 < 2 ^ 32.

Lemma a_wpos b bs b' :
  buf_wf b -> appended b bs b' -> b_wpos b' = b_wpos b + zlen bs.
Proof.
  intros Hwf H. rewrite <- (zlen_written b'), (a_written _ _ _ H), zlen_app, zlen_written.
  - done.
  - done.
  - apply H.
Qed.

Lemma appended_nil b : buf_wf b -> appended b [] b.
Proof. intros. split; auto; [lia|]. by rewrite app_nil_r. Qed.

Lemma appended_trans b xs ys b1 b2 :
  appended b xs b1 -> appended b1 ys b2 -> appended b (xs ++ ys) b2.
Proof.
  intros H1 H2. split.
  - apply H2.
  - by rewrite (a_err _ _ _ H2), (a_err _ _ _ H1).
  - by rewrite (a_rpos _ _ _ H2), (a_rpos _ _ _ H1).
  - by rewrite (a_limit _ _ _ H2), (a_limit _ _ _ H1).
  - by rewrite (a_ref _ _ _ H2), (a_ref _ _ _ H1).
  - pose proof (a_cap _ _ _ H2). pose proof (a_cap _ _ _ H1). lia.
  - intros Hr. rewrite (a_fixed _ _ _ H2), (a_fixed _ _ _ H1); [done..|].
    by rewrite (a_ref _ _ _ H1).
  - by rewrite (a_written _ _ _ H2), (a_written _ _ _ H1), app_assoc.
Qed.

Lemma appended_contents b bs b' :
  buf_wf b -> appended b bs b' -> contents b' = contents b ++ bs.
Proof.
  intros Hwf H. rewrite !contents_written by (done || apply H).
  rewrite (a_written _ _ _ H), (a_rpos _ _ _ H).
  apply drop_app_le. pose proof (zlen_written b Hwf). unfold zlen in *. destruct Hwf. lia.
Qed.

(** The appended bytes are found at the old write position. *)
Lemma appended_tail b bs b' :
  buf_wf b -> appended b bs b' -> mread (b_mem b') (b_wpos b) (zlen bs) = bs.
Proof.
  intros Hwf Ha. pose proof (a_written _ _ _ Ha) as HW. unfold written in HW.
  pose proof (zlen_nonneg bs). pose proof Hwf as []. pose proof (a_wf _ _ _ Ha) as [].
  pose proof (a_wpos _ _ _ Hwf Ha) as Hw. rewrite Hw, mread_split in HW by lia.
  apply app_inj_2 in HW as [_ HW]; [done|].
  apply Nat2Z.inj. change (zlen (mread (b_mem b') (0 + b_wpos b) (zlen bs)) = zlen bs).
  apply zlen_mread; lia.
Qed.

(** A field that was appended is overwritten in place. *)
Lemma appended_patch o xs old ys b n v :
  buf_wf o -> b_err o = 0 -> appended o (xs ++ old ++ ys) b -> length old = n ->
  appended o (xs ++ le_split n v ++ ys) (snd (sc_buf_set_pos n b (b_wpos o + zlen xs) v)).
Proof.
  intros Hwf He Ha Hn. pose proof (a_wpos _ _ _ Hwf Ha) as Hw. rewrite !zlen_app in Hw.
  assert (Ho : zlen old = Z.of_nat n) by (unfold zlen; lia).
  pose proof (zlen_nonneg xs). pose proof (zlen_nonneg ys). pose proof (a_wf _ _ _ Ha) as []. pose proof Hwf as [].
  unfold sc_buf_set_pos. rewrite (a_err _ _ _ Ha), He. cbn [Z.eqb negb orb]. zif. cbn [snd].
  pose proof (zlen_le_split n v) as Hv. split; try apply Ha.
  - apply wf_mwrite; [apply Ha|lia|lia].
  - pose proof (a_written _ _ _ Ha) as HW. unfold written in HW |- *. cbn [b_mem b_wpos with_mem].
    remember (b_wpos o + zlen xs) as p eqn:Ep. replace (b_wpos b) with (p + (Z.of_nat n + zlen ys)) in HW |- * by lia.
    rewrite !mread_split in HW |- * by lia. rewrite !Z.add_0_l in HW |- *.
    rewrite mread_write_before by lia. rewrite <- Hv at 1. rewrite mread_write_same by lia.
    rewrite mread_write_after by lia.
    rewrite (app_assoc (mread (b_mem o) _ _)) in HW. apply app_inj_1 in HW as [HX HW].
    2: { apply Nat2Z.inj. change (zlen (mread (b_mem b) 0 p) = zlen (mread (b_mem o) 0 (b_wpos o) ++ xs)).
         rewrite zlen_app, !zlen_mread by lia. done. }
    apply app_inj_1 in HW as [_ HY].
    2: { apply Nat2Z.inj. change (zlen (mread (b_mem b) p (Z.of_nat n)) = zlen old). rewrite zlen_mread by lia. done. }
    by rewrite HX, HY, <- app_assoc.
Qed.

Lemma room_appended b bs b' n :
  buf_wf b -> appended b bs b' -> room b (zlen bs + n) -> room b' n.
Proof.
  intros Hwf H. unfold room.
  rewrite (a_wpos b bs b' Hwf H), (a_limit _ _ _ H), (a_ref _ _ _ H).
  pose proof (a_cap _ _ _ H). intros [?|[? ?]]; [left|right]; split_and?; lia || done.
Qed.

Lemma no_wrap_appended b bs b' n :
  buf_wf b -> appended b bs b' -> no_wrap b (zlen bs + n) -> no_wrap b' n.
Proof. intros Hwf H. unfold no_wrap. rewrite (a_wpos b bs b' Hwf H). pose proof (a_cap _ _ _ H). lia. Qed.

Lemma length_mrealloc m size : 0 <= size -> zlen (mrealloc m size) = size.
Proof.
  unfold zlen, mrealloc. intros.
  rewrite length_app, length_take, length_replicate. lia.
Qed.

Lemma mread_mrealloc m size n :
  0 <= n <= size -> n <= zlen m -> mread (mrealloc m size) 0 n = mread m 0 n.
Proof.
  unfold mread, mrealloc, zlen. intros. rewrite !drop_0.
  rewrite take_app_le by (rewrite length_take; lia).
  rewrite take_take. f_equal. lia.
Qed.

Lemma round_4096_spec n :
  0 <= n -> n + 4095 < 2 ^ 32 -> n <= round_4096 n <= n + 4095.
Proof.
  intros Hn Hs. unfold round_4096. rewrite (u32_small (n + 4095)) by lia.
  pose proof (Z.div_mod (n + 4095) 4096). pose proof (Z.mod_pos_bound (n + 4095) 4096).
  rewrite u32_small by lia. lia.
Qed.

(** [sc_buf_reserve] succeeds exactly when there is room, keeps what was
    written and leaves at least [len] bytes behind the write position. *)
Lemma sc_buf_reserve_ok b len :
  buf_wf b -> 0 <= len -> no_wrap b len -> room b len ->
  exists b', sc_buf_reserve b len = (true, b') /\ appended b [] b' /\
    b_wpos b' + len <= b_cap b'.
Proof.
  intros Hwf Hl Hw Hr. unfold no_wrap in Hw. unfold sc_buf_reserve.
  pose proof Hwf as [].
  rewrite u32_small by (destruct Hwf; lia).
  destruct (Z.gtb_spec (b_wpos b + len) (b_cap b)).
  2: { exists b. split_and!; [done|by apply appended_nil|lia]. }
  destruct Hr as [?|[Href Hlim]]; [lia|]. rewrite Href.
  destruct (round_4096_spec (b_cap b + len)) as [Hlo Hhi]; [destruct Hwf; lia..|].
  rewrite (proj2 (orb_false_iff _ _)).
  2: { unfold SC_BUF_MAX, UINT32_MAX. split; [|rewrite Z.geb_leb; apply Z.leb_gt; lia].
       rewrite Z.gtb_ltb. apply Z.ltb_ge. lia. }
  eexists. split; [done|]. split; [|destruct Hwf; simpl; lia].
  destruct Hwf. split; simpl; try done; try lia.
  - split; simpl; try done; try lia. by rewrite length_mrealloc by lia.
  - by rewrite Href.
  - rewrite app_nil_r. unfold written. simpl. apply mread_mrealloc; lia.
Qed.

Lemma with_wpos_id b : with_wpos b (b_wpos b) = b.
Proof. by destruct b. Qed.

(** A failing step that does not move the write position. *)
Lemma put_failed_err b n e :
  buf_wf b -> 0 <= n -> 0 < e < 4 -> put_failed b n (or_err b e).
Proof.
  intros Hwf Hn He. split; simpl; try done; try lia.
  - apply wf_or_err; [done|lia].
  - apply lor_err_nonzero. lia.
Qed.

Lemma sc_buf_reserve_cases b len :
  buf_wf b -> 0 <= len -> no_wrap b len ->
  (exists b', sc_buf_reserve b len = (true, b') /\ appended b [] b' /\
     b_wpos b' + len <= b_cap b') \/
  (exists b', sc_buf_reserve b len = (false, b') /\ put_failed b len b' /\ ~ room b len).
Proof.
  intros Hwf Hl Hw. destruct (decide (fst (sc_buf_reserve b len) = true)) as [E|E].
  - left. destruct (sc_buf_reserve b len) as [ok b'] eqn:E'. simpl in E. subst ok.
    exists b'. split; [done|]. revert E'. unfold sc_buf_reserve, no_wrap in *.
    pose proof Hwf as []. rewrite u32_small by lia.
    repeat case_if; intros [= <-].
    + destruct (round_4096_spec (b_cap b + len)) as [Hlo Hhi]; [lia..|].
      split; [|simpl; lia]. split; simpl; try done; try lia.
      * split; simpl; try done; try lia. by rewrite length_mrealloc by lia.
      * congruence.
      * rewrite app_nil_r. unfold written. simpl. apply mread_mrealloc; lia.
    + split; [by apply appended_nil|lia].
  - right. exists (snd (sc_buf_reserve b len)).
    split_and!.
    + destruct (sc_buf_reserve b len) as [[] ?]; done.
    + revert E. unfold sc_buf_reserve.
      pose proof (put_failed_err b len SC_BUF_OOM Hwf Hl) as HF. unfold SC_BUF_OOM in *.
      repeat case_if; simpl; intros; try done; apply HF; lia.
    + intros Hr. destruct (sc_buf_reserve_ok b len Hwf Hl Hw Hr) as (b' & Hb & _).
      by rewrite Hb in E.
Qed.

Lemma written_mwrite b bs :
  buf_wf b -> b_wpos b + zlen bs <= b_cap b ->
  appended b bs (with_wpos (with_mem b (mwrite (b_mem b) (b_wpos b) bs)) (b_wpos b + zlen bs)).
Proof.
  intros [] Hl. pose proof (zlen_nonneg bs). split; simpl; try done; try lia.
  - split; simpl; try done; try lia. by rewrite zlen_mwrite by lia.
  - unfold written. simpl. rewrite mread_split by lia. simpl.
    rewrite mread_write_before, mread_write_same by lia. done.
Qed.

(** The two outcomes of a writer of [bs]. *)
Definition put_outcome (b : sc_buf) (bs : list byte) (b' : sc_buf) : Prop :=
  (b_err b = 0 /\ appended b bs b') \/
  ((b_err b <> 0 \/ ~ room b (zlen bs)) /\ put_failed b (zlen bs) b').

Lemma put_outcome_ok b bs b' :
  b_err b = 0 -> room b (zlen bs) -> put_outcome b bs b' -> appended b bs b'.
Proof. intros He Hr [[_ H]|[[H|H] _]]; done. Qed.

Lemma put_outcome_wf b bs b' :
  buf_wf b -> put_outcome b bs b' ->
  buf_wf b' /\ b_wpos b' <= b_wpos b + zlen bs /\ b_cap b <= b_cap b'.
Proof.
  intros Hwf [[_ H]|[_ H]]; split_and!; try apply H.
  rewrite (a_wpos b bs b' Hwf H). lia.
Qed.

Lemma put_failed_appended b xs b1 n b2 :
  buf_wf b -> appended b xs b1 -> put_failed b1 n b2 -> put_failed b (zlen xs + n) b2.
Proof.
  intros Hwf Ha Hf. pose proof (a_wpos _ _ _ Hwf Ha) as Hw. pose proof (zlen_nonneg xs).
  pose proof (f_wpos _ _ _ Hf). split; try apply Hf.
  - by rewrite (f_rpos _ _ _ Hf), (a_rpos _ _ _ Ha).
  - lia.
  - pose proof (a_cap _ _ _ Ha). pose proof (f_cap _ _ _ Hf). lia.
  - pose proof (f_written _ _ _ Hf) as E. rewrite Hw, mread_split, (a_written _ _ _ Ha) in E
      by (destruct Hwf; lia).
    apply app_inj_1 in E as [E _]; [done|].
    apply Nat2Z.inj. change (zlen (mread (b_mem b2) 0 (b_wpos b)) = zlen (written b)).
    destruct (f_wf _ _ _ Hf).
    rewrite zlen_mread, zlen_written by (done || destruct Hwf; lia). done.
Qed.

Lemma put_failed_trans b b1 b2 n m :
  buf_wf b -> put_failed b n b1 -> put_failed b1 m b2 -> put_failed b (n + m) b2.
Proof.
  intros Hwf H1 H2. pose proof (f_wpos _ _ _ H1). pose proof (f_wpos _ _ _ H2).
  split; try apply H2.
  - by rewrite (f_rpos _ _ _ H2), (f_rpos _ _ _ H1).
  - lia.
  - pose proof (f_cap _ _ _ H1). pose proof (f_cap _ _ _ H2). lia.
  - rewrite <- (f_written _ _ _ H1). pose proof (f_wf _ _ _ H1) as [].
    change 0 with (0 + 0) at 1 2.
    rewrite <- (mread_mread (b_mem b2) 0 (b_wpos b1) 0 (b_wpos b)),
            <- (mread_mread (b_mem b1) 0 (b_wpos b1) 0 (b_wpos b)) by (destruct Hwf; lia).
    by rewrite (f_written _ _ _ H2).
Qed.

(** Writers in sequence: [xs] then [ys].  Once one has failed, all later fail. *)
Lemma put_outcome_trans b xs ys b1 b2 :
  buf_wf b -> put_outcome b xs b1 ->
  (buf_wf b1 -> b_wpos b1 <= b_wpos b + zlen xs -> b_cap b <= b_cap b1 ->
   put_outcome b1 ys b2) ->
  put_outcome b (xs ++ ys) b2.
Proof.
  intros Hwf H1 H2. destruct (put_outcome_wf b xs b1 Hwf H1) as (Hwf1 & Hw1 & Hc1).
  specialize (H2 Hwf1 Hw1 Hc1). unfold put_outcome. rewrite zlen_app.
  pose proof (zlen_nonneg xs). pose proof (zlen_nonneg ys).
  destruct H1 as [[He H1]|[Hn H1]].
  - destruct H2 as [[_ H3]|[Hn H3]].
    + left. split; [done|]. by apply (appended_trans _ _ _ b1).
    + right. split; [|by apply (put_failed_appended _ xs b1)].
      destruct Hn as [Hn|Hn]; [by rewrite (a_err _ _ _ H1) in Hn|].
      right. contradict Hn. by apply (room_appended b xs).
  - right. split.
    + destruct Hn as [|Hn]; [by left|right]. contradict Hn. unfold room in *.
      destruct Hn as [|[? ?]]; [left|right]; split_and?; lia || done.
    + apply (put_failed_trans _ b1); [done..|].
      destruct H2 as [[He _]|[_ ?]]; [by destruct (f_err _ _ _ H1)|done].
Qed.

Lemma set_data_outcome b bs :
  buf_wf b -> b_wpos b + zlen bs <= b_cap b ->
  let '(k, b1) := sc_buf_set_data b (b_wpos b) bs in
  put_outcome b bs (with_wpos b1 (b_wpos b1 +₃₂ k)).
Proof.
  intros Hwf Hl. unfold sc_buf_set_data. pose proof (zlen_nonneg bs).
  pose proof Hwf as []. rewrite u32_small by lia.
  destruct (Z.eqb_spec (b_err b) 0) as [He|He]; simpl.
  - destruct (Z.gtb_spec (b_wpos b + zlen bs) (b_cap b)); [lia|].
    destruct (Z.eqb_spec (zlen bs) 0) as [E|E]; left; split; try done.
    + destruct bs; [|unfold zlen in E; simpl in E; lia].
      rewrite Z.add_0_r, u32_small, with_wpos_id by lia. by apply appended_nil.
    + simpl. rewrite u32_small by lia. by apply written_mwrite.
  - right. split; [by left|].
    rewrite Z.add_0_r, u32_small by lia.
    change (b_wpos b) with (b_wpos (or_err b SC_BUF_CORRUPT)). rewrite with_wpos_id.
    apply put_failed_err; unfold SC_BUF_CORRUPT; done || lia.
Qed.

(** Reserve, then write in place. *)
Lemma put_after_reserve b bs (k : sc_buf -> sc_buf) :
  buf_wf b -> no_wrap b (zlen bs) ->
  (forall b1, buf_wf b1 -> b_wpos b1 + zlen bs <= b_cap b1 -> put_outcome b1 bs (k b1)) ->
  put_outcome b bs (let '(ok, b1) := sc_buf_reserve b (zlen bs) in if ok then k b1 else b1).
Proof.
  intros Hwf Hw Hk.
  destruct (sc_buf_reserve_cases b (zlen bs) Hwf (zlen_nonneg bs) Hw)
    as [(b1 & -> & Ha & Hc)|(b1 & -> & Hf & Hn)]; [|right; tauto].
  destruct (Hk b1 (a_wf _ _ _ Ha) Hc) as [[He H]|[Hn H]].
  - left. rewrite <- (a_err _ _ _ Ha). split; [done|]. by apply (appended_trans _ [] _ b1).
  - right. split; [|by apply (put_failed_appended _ [] b1)].
    rewrite <- (a_err _ _ _ Ha). destruct Hn as [?|Hn]; [by left|].
    exfalso. apply Hn. by left.
Qed.

Lemma sc_buf_put_raw_outcome b bs :
  buf_wf b -> no_wrap b (zlen bs) -> put_outcome b bs (sc_buf_put_raw b bs).
Proof.
  intros Hwf Hw. unfold sc_buf_put_raw.
  apply (put_after_reserve b bs (fun b1 =>
    let '(k, b2) := sc_buf_set_data b1 (b_wpos b1) bs in with_wpos b2 (b_wpos b2 +₃₂ k)));
    [done..|].
  intros b1 Hwf1 Hc. pose proof (set_data_outcome b1 bs Hwf1 Hc) as H.
  by destruct (sc_buf_set_data b1 (b_wpos b1) bs).
Qed.

Lemma sc_buf_put_outcome n b v :
  buf_wf b -> no_wrap b (Z.of_nat n) -> put_outcome b (le_split n v) (sc_buf_put n b v).
Proof.
  intros Hwf Hw. unfold sc_buf_put. rewrite <- (zlen_le_split n v) in *.
  apply (put_after_reserve b _ (fun b1 =>
    let '(k, b2) := sc_buf_set_pos n b1 (b_wpos b1) v in with_wpos b2 (b_wpos b2 +₃₂ k)));
    [done..|].
  intros b1 Hwf1 Hc. pose proof Hwf1 as []. pose proof (zlen_nonneg (le_split n v)).
  unfold sc_buf_set_pos. rewrite <- (zlen_le_split n v).
  destruct (Z.eqb_spec (b_err b1) 0) as [He|He]; simpl.
  - destruct (Z.gtb_spec (b_wpos b1 + zlen (le_split n v)) (b_cap b1)); [lia|].
    left. split; [done|]. simpl. rewrite u32_small by lia. by apply written_mwrite.
  - right. split; [by left|]. rewrite Z.add_0_r, u32_small by lia.
    change (b_wpos b1) with (b_wpos (or_err b1 SC_BUF_CORRUPT)). rewrite with_wpos_id.
    apply put_failed_err; unfold SC_BUF_CORRUPT; done || lia.
Qed.

Lemma zlen_enc_str s : zlen (enc_str s) = match s with None => 4 | Some s => zlen s + 5 end.
Proof.
  destruct s as [s|]; cbn [enc_str]; [|done]. rewrite !zlen_app, zlen_le_split.
  change (zlen [x00]) with 1. lia.
Qed.

Lemma sc_buf_put_str_outcome b s :
  buf_wf b -> no_wrap b (zlen (enc_str s)) -> put_outcome b (enc_str s) (sc_buf_put_str b s).
Proof.
  intros Hwf Hw. destruct s as [s|]; [|by apply sc_buf_put_outcome].
  pose proof (zlen_enc_str (Some s)) as Hl. pose proof (zlen_nonneg s).
  unfold no_wrap in Hw. rewrite Hl in Hw. pose proof Hwf as [].
  unfold sc_buf_put_str, sc_buf_put_32, UINT32_MAX. zif.
  eapply put_outcome_trans; [done|apply sc_buf_put_outcome; [done|unfold no_wrap; lia]|].
  intros Hwf1 Hw1 Hc1. rewrite zlen_le_split in Hw1.
  apply sc_buf_put_raw_outcome; [done|]. unfold no_wrap. rewrite zlen_app.
  change (zlen [x00]) with 1. lia.
Qed.

Lemma sc_buf_put_bool_outcome b v :
  buf_wf b -> no_wrap b 1 ->
  put_outcome b (le_split 1 (if v : bool then 1 else 0)) (sc_buf_put_bool b v).
Proof. intros. by apply sc_buf_put_outcome. Qed.

Lemma sc_buf_put_blob_outcome b bs :
  buf_wf b -> no_wrap b (4 + zlen bs) ->
  put_outcome b (le_split 4 (zlen bs) ++ bs) (sc_buf_put_blob b bs).
Proof.
  intros Hwf Hw. unfold no_wrap in Hw. pose proof (zlen_nonneg bs).
  unfold sc_buf_put_blob, sc_buf_put_32.
  eapply put_outcome_trans; [done|apply sc_buf_put_outcome; [done|unfold no_wrap; lia]|].
  intros Hwf1 Hw1 Hc1. rewrite zlen_le_split in Hw1.
  apply sc_buf_put_raw_outcome; [done|]. unfold no_wrap. lia.
Qed.

(** ** Every operation keeps the invariant *)

Lemma wf_peek_pos n b pos : buf_wf b -> buf_wf (snd (sc_buf_peek_pos n b pos)).
Proof.
  intros Hwf. unfold sc_buf_peek_pos. case_if; simpl; [|done].
  apply wf_or_err; unfold SC_BUF_CORRUPT; done || lia.
Qed.

Lemma wf_get n b : buf_wf b -> buf_wf (snd (sc_buf_get n b)).
Proof.
  intros Hwf. unfold sc_buf_get, sc_buf_peek_pos. pose proof Hwf as []. case_if; simpl.
  - rewrite Z.add_0_r, u32_small by lia. apply wf_with_rpos; [|simpl; lia].
    apply wf_or_err; unfold SC_BUF_CORRUPT; done || lia.
  - apply wf_with_rpos; [done|]. rewrite u32_small by lia. lia.
Qed.

Lemma wf_get_str b : buf_wf b -> buf_wf (snd (sc_buf_get_str b)).
Proof.
  intros Hwf. unfold sc_buf_get_str. pose proof (wf_get 4 b Hwf) as H.
  change (sc_buf_get_32 b) with (sc_buf_get 4 b).
  destruct (sc_buf_get 4 b) as [len b1]. simpl in H. repeat case_if; simpl; [done|..].
  - apply wf_or_err; unfold SC_BUF_CORRUPT; done || lia.
  - apply wf_with_rpos; [done|]. pose proof (u32_range (b_rpos b1 + len + 1)). lia.
Qed.

Lemma wf_get_blob b len : buf_wf b -> buf_wf (snd (sc_buf_get_blob len b)).
Proof.
  intros Hwf. unfold sc_buf_get_blob. repeat case_if; simpl; [done|..].
  - apply wf_or_err; unfold SC_BUF_CORRUPT; done || lia.
  - apply wf_with_rpos; [done|]. pose proof (u32_range (b_rpos b + len)). lia.
Qed.

Lemma wf_get_data b len : 0 <= len -> buf_wf b -> buf_wf (snd (sc_buf_get_data len b)).
Proof.
  intros Hl Hwf. unfold sc_buf_get_data, sc_buf_peek_data.
  assert (HE : buf_wf (or_err b SC_BUF_CORRUPT))
    by (apply wf_or_err; unfold SC_BUF_CORRUPT; done || lia).
  case_if; simpl; [done|]. case_if; simpl; apply wf_with_rpos; try done; simpl.
  - pose proof Hwf as []. rewrite Z.add_0_r, u32_small by lia. lia.
  - pose proof (u32_range (b_rpos b + len)). lia.
Qed.

Lemma wf_set_pos n b pos v : 0 <= pos -> buf_wf b -> buf_wf (snd (sc_buf_set_pos n b pos v)).
Proof.
  intros Hp Hwf. unfold sc_buf_set_pos. case_if; simpl.
  - apply wf_or_err; unfold SC_BUF_CORRUPT; done || lia.
  - apply wf_mwrite; [done..|]. rewrite zlen_le_split. lia.
Qed.

Lemma wf_compact b : buf_wf b -> buf_wf (sc_buf_compact b).
Proof.
  intros Hwf. unfold sc_buf_compact. pose proof Hwf as [].
  destruct (Z.eqb_spec (b_rpos b) (b_wpos b)); simpl.
  - split; simpl; done || lia.
  - case_if; [done|]. rewrite u32_small by lia.
    split; simpl; try done; try lia.
    rewrite zlen_mwrite; [done|lia|]. rewrite zlen_mread by lia. lia.
Qed.

(** The readers, on any input. *)
Inductive buf_read : sc_buf -> sc_buf -> Prop :=
| read_get n b : buf_read b (snd (sc_buf_get n b))
| read_get_str b : buf_read b (snd (sc_buf_get_str b))
| read_get_blob b len : buf_read b (snd (sc_buf_get_blob len b))
| read_get_data b len : is_u32 len -> buf_read b (snd (sc_buf_get_data len b))
| read_peek n b pos : buf_read b (snd (sc_buf_peek_pos n b pos)).

(** One operation that checks the positions it changes: a reader, or a writer whose size does not
    wrap around.  [sc_buf_set_rpos], [sc_buf_set_wpos], [sc_buf_mark_read] and
    [sc_buf_mark_write] set what the caller says and are not among them. *)
Inductive buf_step : sc_buf -> sc_buf -> Prop :=
| step_read b b' : buf_read b b' -> buf_step b b'
| step_put n b v : no_wrap b (Z.of_nat n) -> buf_step b (sc_buf_put n b v)
| step_put_raw b d : no_wrap b (zlen d) -> buf_step b (sc_buf_put_raw b d)
| step_put_str b s : no_wrap b (zlen (enc_str s)) -> buf_step b (sc_buf_put_str b s)
| step_put_blob b d : no_wrap b (4 + zlen d) -> buf_step b (sc_buf_put_blob b d)
| step_set n b pos v : is_u32 pos -> buf_step b (snd (sc_buf_set_pos n b pos v))
| step_reserve b len : is_u32 len -> no_wrap b len -> buf_step b (snd (sc_buf_reserve b len))
| step_shrink b len : 0 <= len -> len + 4095 < 2 ^ 32 -> buf_step b (snd (sc_buf_shrink b len))
| step_compact b : buf_step b (sc_buf_compact b)
| step_clear b : buf_step b (sc_buf_clear b)
| step_limit b l : is_u32 l -> buf_step b (sc_buf_set_limit b l).

Lemma wf_shrink b len :
  0 <= len -> len + 4095 < 2 ^ 32 -> buf_wf b -> buf_wf (snd (sc_buf_shrink b len)).
Proof.
  intros Hl Hs Hwf. apply wf_compact in Hwf. unfold sc_buf_shrink.
  case_if; simpl; [done|]. destruct (round_4096_spec len Hl Hs). pose proof Hwf as [].
  pose proof (u32_range (u32 (len + 4095) / 4096 * 4096)).
  split; simpl; try done; try lia. rewrite length_mrealloc; lia.
Qed.

Lemma buf_read_wf b b' : buf_read b b' -> buf_wf b -> buf_wf b'.
Proof.
  intros Hs Hwf. destruct Hs; [by apply wf_get|by apply wf_get_str|by apply wf_get_blob|apply wf_get_data; [lia|done]|by apply wf_peek_pos].
Qed.

(** A reader moves the read position and sets the error flag, and nothing else. *)
Definition unread (b : sc_buf) : list byte * Z * Z * Z * bool := (b_mem b, b_cap b, b_limit b, b_wpos b, b_ref b).

Lemma get_unread n b : unread (snd (sc_buf_get n b)) = unread b.
Proof. unfold sc_buf_get, sc_buf_peek_pos. by case_if. Qed.

Lemma buf_read_unread b b' : buf_read b b' -> unread b' = unread b.
Proof.
  intros []; [by apply get_unread| | | |].
  - unfold sc_buf_get_str, sc_buf_get_32. pose proof (get_unread 4 b0) as H. destruct (sc_buf_get 4 b0) as [len b1]. cbn [snd] in H.
    rewrite <- H. by repeat case_if.
  - unfold sc_buf_get_blob. by repeat case_if.
  - unfold sc_buf_get_data, sc_buf_peek_data. by repeat case_if.
  - unfold sc_buf_peek_pos. by case_if.
Qed.

Lemma buf_step_wf b b' : buf_step b b' -> buf_wf b -> buf_wf b'.
Proof.
  intros Hs Hwf. pose proof Hwf as []. destruct Hs.
  - by eapply buf_read_wf.
  - by eapply put_outcome_wf, sc_buf_put_outcome.
  - by eapply put_outcome_wf, sc_buf_put_raw_outcome.
  - by eapply put_outcome_wf, sc_buf_put_str_outcome.
  - by eapply put_outcome_wf, sc_buf_put_blob_outcome.
  - apply wf_set_pos; [lia|done].
  - destruct (sc_buf_reserve_cases b len) as [(b' & -> & Ha & _)|(b' & -> & Hf & _)];
      try done; try lia; simpl; [apply Ha|apply Hf].
  - by apply wf_shrink.
  - by apply wf_compact.
  - split; simpl; done || lia.
  - by split.
Qed.

(** C24: buffer invariant.  Starting from a well-formed buffer (memory of [cap]
    bytes, [0 <= rpos <= wpos <= cap]), any sequence of operations that check the positions
    they change leaves a well-formed buffer, failing operations included.  Readers do so on
    any contents and with any length, and change neither the memory nor the write position;
    writers do so as long as the new size fits the memory or stays below 2 GiB less a page. *)
Theorem sc_buf_invariant b b' : buf_wf b -> rtc buf_step b b' -> buf_wf b' /\ (rtc buf_read b b' -> unread b' = unread b).
Proof.
  intros Hwf Hs. split.
  - revert Hwf. induction Hs; eauto using buf_step_wf.
  - clear Hs. induction 1 as [|b1 b2 b3 H12 _ IH]; [done|]. rewrite IH; [by apply buf_read_unread|by eapply buf_read_wf].
Qed.

Lemma wf_init cap : is_u32 cap -> buf_wf (sc_buf_init cap).
Proof.
  intros Hc. split; simpl; try lia.
  - unfold zlen. rewrite length_replicate. lia.
  - unfold SC_BUF_MAX, UINT32_MAX. lia.
Qed.

Lemma wf_wrap d flag : zlen d < 2 ^ 32 -> buf_wf (sc_buf_wrap d (zlen d) flag).
Proof.
  intros Hc. pose proof (zlen_nonneg d). split; destruct flag; simpl;
    unfold SC_BUF_MAX, UINT32_MAX; lia.
Qed.

Lemma sc_buf_invariant_witness :
  buf_wf (sc_buf_put_32 (sc_buf_put_str (sc_buf_init 4) (Some [x61])) 7).
Proof.
  apply (sc_buf_invariant (sc_buf_init 4) (sc_buf_put_32 (sc_buf_put_str (sc_buf_init 4) (Some [x61])) 7)); [apply wf_init; lia|].
  eapply rtc_l; [apply (step_put_str _ (Some [x61])); right; vm_compute; reflexivity|].
  eapply rtc_l; [apply (step_put 4 _ 7); right; vm_compute; reflexivity|apply rtc_refl].
Defined.

(** ** Structured data: sequences of fields *)

Inductive field :=
| FInt (n : nat) (v : Z)
| FBool (v : bool)
| FStr (s : option (list byte))
| FBlob (d : list byte).

(** What a reader of a field has to know. *)
Inductive field_kind := KInt (n : nat) | KBool | KStr | KBlob.

Definition kind_of (f : field) : field_kind :=
  match f with
  | FInt n _ => KInt n
  | FBool _ => KBool
  | FStr _ => KStr
  | FBlob _ => KBlob
  end.

Definition enc_field (f : field) : list byte :=
  match f with
  | FInt n v => le_split n v
  | FBool v => le_split 1 (if v then 1 else 0)
  | FStr s => enc_str s
  | FBlob d => le_split 4 (zlen d) ++ d
  end.

Definition enc_fields (fs : list field) : list byte := concat (map enc_field fs).

Definition field_ok (f : field) : Prop :=
  match f with
  | FInt n v => 0 <= v < 2 ^ (8 * Z.of_nat n)
  | FBool _ => True
  | FStr s => str_ok s
  | FBlob d => 0 < zlen d < 2 ^ 32
  end.

Definition put_field (b : sc_buf) (f : field) : sc_buf :=
  match f with
  | FInt n v => sc_buf_put n b v
  | FBool v => sc_buf_put_bool b v
  | FStr s => sc_buf_put_str b s
  | FBlob d => sc_buf_put_blob b d
  end.

(** A blob is read the way [state_on_info] and [state_bind_params] read it:
    its length, then [sc_buf_get_blob]. *)
Definition get_field (k : field_kind) : bufM field :=
  match k with
  | KInt n => v ← sc_buf_get n; mret (FInt n v)
  | KBool => v ← sc_buf_get_bool; mret (FBool v)
  | KStr => s ← sc_buf_get_str; mret (FStr s)
  | KBlob => len ← sc_buf_get_32; d ← sc_buf_get_blob len; mret (FBlob (default [] d))
  end.

Fixpoint put_fields (b : sc_buf) (fs : list field) : sc_buf :=
  match fs with
  | [] => b
  | f :: fs => put_fields (put_field b f) fs
  end.

Fixpoint get_fields (ks : list field_kind) : bufM (list field) :=
  match ks with
  | [] => mret []
  | k :: ks => f ← get_field k; fs ← get_fields ks; mret (f :: fs)
  end.

Lemma put_field_outcome b f :
  buf_wf b -> no_wrap b (zlen (enc_field f)) -> put_outcome b (enc_field f) (put_field b f).
Proof.
  intros Hwf Hw. destruct f; cbn [enc_field put_field] in *.
  - apply sc_buf_put_outcome; [done|]. by rewrite zlen_le_split in Hw.
  - by apply sc_buf_put_bool_outcome.
  - by apply sc_buf_put_str_outcome.
  - apply sc_buf_put_blob_outcome; [done|]. by rewrite zlen_app, zlen_le_split in Hw.
Qed.

Lemma put_outcome_nil b : buf_wf b -> put_outcome b [] b.
Proof.
  intros Hwf. destruct (decide (b_err b = 0)).
  - left. split; [done|]. by apply appended_nil.
  - right. split; [by left|]. split; try done; try lia. change (zlen []) with 0. lia.
Qed.

Lemma put_fields_outcome fs : forall b,
  buf_wf b -> no_wrap b (zlen (enc_fields fs)) ->
  put_outcome b (enc_fields fs) (put_fields b fs).
Proof.
  induction fs as [|f fs IH]; intros b Hwf Hw; [by apply put_outcome_nil|].
  unfold enc_fields in *. cbn [map concat put_fields] in *.
  rewrite zlen_app in Hw. unfold no_wrap in *.
  pose proof (zlen_nonneg (enc_field f)). pose proof (zlen_nonneg (concat (map enc_field fs))).
  eapply put_outcome_trans; [done|apply put_field_outcome; [done|unfold no_wrap; lia]|].
  intros Hwf1 Hw1 Hc1. apply IH; [done|]. lia.
Qed.

Lemma get_field_spec b f rest :
  buf_wf b -> field_ok f -> contents b = enc_field f ++ rest ->
  exists b', get_field (kind_of f) b = (f, b') /\ consumed b (enc_field f) rest b'.
Proof.
  intros Hwf Hf E. destruct f as [n v|v|s|d]; cbn [enc_field field_ok kind_of get_field] in *;
    unfold mbind, bufM_bind.
  - destruct (sc_buf_get_int n b v rest Hwf E Hf) as (b' & -> & ?). by exists b'.
  - destruct (sc_buf_get_bool_spec b v rest Hwf E) as (b' & -> & ?). by exists b'.
  - destruct (sc_buf_get_str_spec b s rest Hwf E Hf) as (b' & -> & ?). by exists b'.
  - rewrite <- app_assoc in E.
    destruct (sc_buf_get_int 4 b _ _ Hwf E) as (b1 & Hg & Hc1); [simpl; lia|].
    unfold sc_buf_get_32. rewrite Hg. pose proof Hc1 as [Hb1 Hwf1 Hr1].
    pose proof (zlen_contents b1 Hwf1) as Hl. rewrite Hr1, zlen_app in Hl.
    pose proof (zlen_nonneg rest). pose proof Hwf1 as [].
    unfold sc_buf_get_blob. rewrite u32_small by lia. zif.
    exists (with_rpos b1 (b_rpos b1 + zlen d)). split.
    + unfold mret, bufM_ret. simpl. do 2 f_equal.
      change (mread (b_mem b1) (b_rpos b1) (zlen d) = d).
      by apply (contents_take b1 d rest).
    + eapply consumed_trans; [exact Hc1|]. by apply consumed_intro.
Qed.

Lemma get_fields_spec fs : forall b rest,
  buf_wf b -> Forall field_ok fs -> contents b = enc_fields fs ++ rest ->
  exists b', get_fields (map kind_of fs) b = (fs, b') /\ consumed b (enc_fields fs) rest b'.
Proof.
  induction fs as [|f fs IH]; intros b rest Hwf Hok E.
  - exists b. split; [done|]. split; [|done..].
    change (zlen (enc_fields [])) with 0. rewrite Z.add_0_r. by destruct b.
  - apply Forall_cons in Hok as [Hf Hok]. unfold enc_fields in *.
    cbn [map concat] in *. rewrite <- app_assoc in E.
    destruct (get_field_spec b f _ Hwf Hf E) as (b1 & Hg & Hc).
    destruct (IH b1 rest (c_wf _ _ _ _ Hc) Hok (c_rest _ _ _ _ Hc)) as (b2 & Hg2 & Hc2).
    exists b2. split; [|by eapply consumed_trans].
    cbn [get_fields]. unfold mbind, bufM_bind. by rewrite Hg, Hg2.
Qed.

(** buffer round trip.  Writing any sequence of integer, boolean, string and
    blob fields into a buffer with room for them appends exactly their encodings
    to the readable bytes, and reading fields of the same kinds back from an
    initially empty queue returns the same values and empties it. *)
Theorem sc_buf_fields_roundtrip b fs :
  buf_wf b -> b_err b = 0 -> contents b = [] ->
  Forall field_ok fs ->
  room b (zlen (enc_fields fs)) -> no_wrap b (zlen (enc_fields fs)) ->
  contents (put_fields b fs) = enc_fields fs /\
  exists b', get_fields (map kind_of fs) (put_fields b fs) = (fs, b') /\
    contents b' = [] /\ b_err b' = 0.
Proof.
  intros Hwf He Hc Hok Hr Hw.
  assert (Ha : appended b (enc_fields fs) (put_fields b fs))
    by (apply put_outcome_ok; [done..|by apply put_fields_outcome]).
  pose proof (appended_contents b _ _ Hwf Ha) as E. rewrite Hc in E. split; [done|].
  destruct (get_fields_spec fs (put_fields b fs) []) as (b' & Hg & Hcs).
  - apply Ha.
  - done.
  - by rewrite app_nil_r.
  - exists b'. split; [done|]. split; [apply Hcs|].
    by rewrite (consumed_err _ _ _ _ Hcs), (a_err _ _ _ Ha).
Qed.

Lemma sc_buf_fields_roundtrip_witness :
  let fs := [FInt 4 305419896; FStr (Some [x61; x62]); FBool true; FStr None; FBlob [x00; xff]] in
  exists b', get_fields (map kind_of fs) (put_fields (sc_buf_init 8) fs) = (fs, b') /\
    contents b' = [] /\ b_err b' = 0.
Proof.
  intros fs. apply (sc_buf_fields_roundtrip (sc_buf_init 8) fs).
  - apply wf_init. lia.
  - reflexivity.
  - reflexivity.
  - unfold fs. repeat constructor; try done.
  - right. split; [reflexivity|]. vm_compute. discriminate.
  - right. vm_compute. reflexivity.
Defined.

(** Writes are atomic and failures sticky.  For every well-formed buffer a
    sequence of field writes succeeds when the buffer is valid and has room; a
    buffer that is valid afterwards was valid before and holds all the encodings
    after the old contents; otherwise every byte written before the sequence is
    intact and the read position has not moved. *)
Theorem sc_buf_put_all_or_nothing b fs :
  buf_wf b -> no_wrap b (zlen (enc_fields fs)) ->
  let b' := put_fields b fs in
  (b_err b = 0 -> room b (zlen (enc_fields fs)) -> sc_buf_valid b' = true) /\
  (sc_buf_valid b' = true -> b_err b = 0 /\ contents b' = contents b ++ enc_fields fs) /\
  (sc_buf_valid b' = false ->
     mread (b_mem b') 0 (b_wpos b) = written b /\ b_rpos b' = b_rpos b).
Proof.
  intros Hwf Hw b'. subst b'. pose proof (put_fields_outcome fs b Hwf Hw) as Ho.
  unfold sc_buf_valid. split; [|split]; [intros He Hr|intros Hv; zb..].
  - apply Z.eqb_eq. by rewrite (a_err _ _ _ (put_outcome_ok _ _ _ He Hr Ho)).
  - destruct Ho as [[He Ha]|[_ Hf]]; [|by destruct (f_err _ _ _ Hf)].
    split; [done|]. by apply appended_contents.
  - destruct Ho as [[He Ha]|[_ Hf]]; [by rewrite (a_err _ _ _ Ha) in Hv|].
    split; apply Hf.
Qed.

Lemma sc_buf_put_all_or_nothing_witness :
  let b := sc_buf_set_limit (sc_buf_put_8 (sc_buf_init 4) 9) 4 in
  let b' := put_fields b [FInt 2 513; FInt 4 1] in
  sc_buf_valid b' = false /\ mread (b_mem b') 0 1 = [x09].
Proof.
  intros b b'. split; [reflexivity|].
  apply (sc_buf_put_all_or_nothing b [FInt 2 513; FInt 4 1]).
  - apply (buf_step_wf (sc_buf_put_8 (sc_buf_init 4) 9)).
    + apply step_limit. lia.
    + apply (buf_step_wf (sc_buf_init 4)); [apply (step_put _ _ 9); right; vm_compute; reflexivity|].
      apply wf_init. lia.
  - right. vm_compute. reflexivity.
  - reflexivity.
Defined.

(** Compaction frees space without changing the queue.  After
    [sc_buf_compact] the readable bytes are the same, the read position is zero
    and the quota has grown by the bytes already consumed. *)
Lemma sc_buf_compact_contents b :
  buf_wf b ->
  contents (sc_buf_compact b) = contents b /\
  b_rpos (sc_buf_compact b) = 0 /\
  sc_buf_quota (sc_buf_compact b) = sc_buf_quota b + b_rpos b.
Proof.
  intros Hwf. pose proof (wf_compact b Hwf) as Hwf'.
  rewrite !sc_buf_quota_wf by done. pose proof (zlen_contents b Hwf) as Hl.
  revert Hwf'. unfold sc_buf_compact. pose proof Hwf as [].
  destruct (Z.eqb_spec (b_rpos b) (b_wpos b)) as [E|E]; simpl.
  - intros _. rewrite E in *. unfold contents; simpl.
    rewrite E, !Z.sub_diag, !mread_nil. split_and!; done || lia.
  - rewrite u32_small by lia. destruct (Z.eqb_spec (b_rpos b) 0) as [E0|E0]; simpl.
    + intros _. rewrite E0. split_and!; done || lia.
    + intros _. split_and!; [|done|lia]. unfold contents; simpl. rewrite Z.sub_0_r.
      rewrite <- Hl at 2. fold (contents b).
      rewrite mread_write_same; [done|lia..].
Qed.

Lemma sc_buf_compact_contents_witness :
  let b := snd (sc_buf_get_8 (sc_buf_put_32 (sc_buf_init 4) 67305985)) in
  contents (sc_buf_compact b) = [x02; x03; x04] /\ sc_buf_quota (sc_buf_compact b) = 1.
Proof.
  intros b. destruct (sc_buf_compact_contents b) as (H1 & _ & H3).
  - apply wf_get, (buf_step_wf (sc_buf_init 4)); [apply (step_put _ _ 67305985); right; vm_compute; reflexivity|].
    apply wf_init. lia.
  - rewrite H1, H3. split; reflexivity.
Defined.

(** A hostile string length moves the read position backwards.  The bound
    check of [sc_buf_get_str] is computed in 32 bits: with the length field
    [0xFFFFFFFE] (not [-1], the null marker) it passes, no error is recorded, and
    the read position ends one byte before where the length field ended. *)
Theorem sc_buf_get_str_rewinds b rest :
  buf_wf b -> contents b = le_split 4 (UINT32_MAX - 1) ++ rest ->
  let b' := snd (sc_buf_get_str b) in
  b_err b' = b_err b /\ b_rpos b' = b_rpos b + 3.
Proof.
  intros Hwf E. destruct (sc_buf_get_int 4 b _ _ Hwf E) as (b1 & Hg & Hc).
  { unfold UINT32_MAX. simpl. lia. }
  unfold sc_buf_get_str. unfold sc_buf_get_32. rewrite Hg. pose proof Hc as [Hb Hwf1 Hr].
  pose proof Hwf1 as []. pose proof (consumed_err _ _ _ _ Hc) as He.
  assert (Hrp : b_rpos b1 = b_rpos b + 4) by (by rewrite Hb).
  assert (Hu : u32 (b_rpos b1 + (UINT32_MAX - 1) + 1) = b_rpos b1 - 1).
  { unfold UINT32_MAX, u32. pose proof Hwf as [].
    replace (b_rpos b1 + (2 ^ 32 - 1 - 1) + 1) with (b_rpos b1 - 1 + 1 * 2 ^ 32) by lia.
    rewrite Z.mod_add by lia. apply Z.mod_small. lia. }
  rewrite Hu. unfold UINT32_MAX in *. simpl. zif. simpl. split; [done|]. lia.
Qed.

Lemma sc_buf_get_str_rewinds_witness :
  let b := sc_buf_put_32 (sc_buf_init 4) (UINT32_MAX - 1) in
  sc_buf_valid (snd (sc_buf_get_str b)) = true /\ b_rpos (snd (sc_buf_get_str b)) = 3.
Proof.
  intros b. destruct (sc_buf_get_str_rewinds b []) as [H1 H2].
  - apply (buf_step_wf (sc_buf_init 4)); [apply (step_put _ _ (UINT32_MAX - 1)); right; vm_compute; reflexivity|].
    apply wf_init. lia.
  - reflexivity.
  - unfold sc_buf_valid. rewrite H1, H2. split; reflexivity.
Defined.
