(* ===== verification/Crc32.v ===== *)
(** * CRC-32C: lib/sc/sc_crc32.c

    The three builds of [sc_crc32]: the table-driven little-endian and
    big-endian versions and the version on the processor's crc32 instruction,
    with the tables and the zero-operators they precompute.  The reference is the
    bit-at-a-time division by the reversed Castagnoli polynomial ([crc32c]); the
    theorems show that every build computes it, so that checksums written by one
    build are accepted by another, and what the checksum detects. *)

From Stdlib Require Import ZArith Lia.
From Stdlib Require Import Strings.Byte.
From stdpp Require Import base list numbers.
From S2P Require Import Prelude.

(** ** The reference *)

Definition POLY : Z := 0x82f63b78.

(** One bit of the division: [crc & 1 ? (crc >> 1) ^ POLY : crc >> 1]. *)
Definition crc_bit (crc : Z) : Z :=
  if Z.odd crc then Z.lxor (Z.shiftr crc 1) POLY else Z.shiftr crc 1.

Definition crc_bits (n : nat) (crc : Z) : Z := Nat.iter n crc_bit crc.

Definition crc_byte (crc : Z) (b : byte) : Z := crc_bits 8 (Z.lxor crc (b2z b)).

(** [~crc] on [uint32_t]. *)
Definition not32 (z : Z) : Z := Z.lxor z UINT32_MAX.

(** The running register before the final complement. *)
Definition crc_run (crc : Z) (bs : list byte) : Z := fold_left crc_byte bs crc.

(** The checksum [sc_crc32(crc, buf, len)] has to compute. *)
Definition crc32c (crc : Z) (bs : list byte) : Z := not32 (crc_run (not32 crc) bs).

(** ** Software version, little-endian *)

Definition tab256 (f : Z -> Z) : list Z := map (fun n => f (Z.of_nat n)) (seq 0 256).
Definition tget (t : list Z) (i : Z) : Z := nth (Z.to_nat i) t 0.

Definition crc32_init_sw_le : list (list Z) :=
  let t0 := tab256 (fun n =>
    let crc := n in
    let crc := crc_bit crc in
    let crc := crc_bit crc in
    let crc := crc_bit crc in
    let crc := crc_bit crc in
    let crc := crc_bit crc in
    let crc := crc_bit crc in
    let crc := crc_bit crc in
    crc_bit crc) in
  t0 :: map (fun k => tab256 (fun n =>
          Nat.iter k (fun crc => Z.lxor (tget t0 (Z.land crc 0xff)) (Z.shiftr crc 8)) (tget t0 n)))
        (seq 1 7).

Definition crc32c_table_le (k : nat) (i : Z) : Z := tget (nth k crc32_init_sw_le []) i.

Definition sw_le_byte (crc : Z) (b : byte) : Z :=
  Z.lxor (crc32c_table_le 0 (Z.land (Z.lxor crc (b2z b)) 0xff)) (Z.shiftr crc 8).

(** The bytes up to the first eight-byte boundary, [addr] being the address of
    the next byte: returns the register and the rest of the data. *)
Fixpoint align_loop (step : Z -> byte -> Z) (addr crc : Z) (next : list byte) : Z * list byte :=
  match next with
  | b :: next' =>
      if negb (Z.land addr 7 =? 0) then align_loop step (addr + 1) (step crc b) next'
      else (crc, next)
  | [] => (crc, [])
  end.

Definition sw_le_word (crcw w : Z) : Z :=
  let crcw := Z.lxor crcw w in
  Z.lxor (crc32c_table_le 7 (Z.land crcw 0xff))
  (Z.lxor (crc32c_table_le 6 (Z.land (Z.shiftr crcw 8) 0xff))
  (Z.lxor (crc32c_table_le 5 (Z.land (Z.shiftr crcw 16) 0xff))
  (Z.lxor (crc32c_table_le 4 (Z.land (Z.shiftr crcw 24) 0xff))
  (Z.lxor (crc32c_table_le 3 (Z.land (Z.shiftr crcw 32) 0xff))
  (Z.lxor (crc32c_table_le 2 (Z.land (Z.shiftr crcw 40) 0xff))
  (Z.lxor (crc32c_table_le 1 (Z.land (Z.shiftr crcw 48) 0xff))
          (crc32c_table_le 0 (Z.shiftr crcw 56)))))))).

(** The loops over eight-byte words: one [word] step while eight bytes are left.
    [fuel] bounds the iterations; the length of the data is enough. *)
Fixpoint word_loop (word : Z -> list byte -> Z) (fuel : nat) (crc : Z) (next : list byte)
    : Z * list byte :=
  match fuel with
  | O => (crc, next)
  | S fuel =>
      if zlen next >=? 8
      then word_loop word fuel (word crc (take 8 next)) (drop 8 next)
      else (crc, next)
  end.

Definition crc32_sw_le (addr crc : Z) (buf : list byte) : Z :=
  let crc := not32 crc in
  let '(crc, next) := align_loop sw_le_byte addr crc buf in
  let '(crc, next) :=
    word_loop (fun c w => sw_le_word c (le_combine w)) (length next) crc next in
  let crc := fold_left sw_le_byte next crc in
  not32 crc.

(** ** Linearity of the division over GF(2) *)

Create HintDb crc.

Lemma crc_bit_nonneg c : 0 <= c -> 0 <= crc_bit c.
Proof.
  intros. unfold crc_bit. assert (0 <= Z.shiftr c 1) by by apply Z.shiftr_nonneg.
  destruct (Z.odd c); [|done]. apply Z.lxor_nonneg. unfold POLY. lia.
Qed.

Lemma lxor_odd a b : Z.odd (Z.lxor a b) = xorb (Z.odd a) (Z.odd b).
Proof. by rewrite <- !Z.bit0_odd, Z.lxor_spec. Qed.

Lemma lxor_swap a b c d : Z.lxor (Z.lxor a b) (Z.lxor c d) = Z.lxor (Z.lxor a c) (Z.lxor b d).
Proof.
  rewrite !Z.lxor_assoc. f_equal. rewrite <- !Z.lxor_assoc. f_equal. apply Z.lxor_comm.
Qed.

Lemma crc_bit_lxor a b : crc_bit (Z.lxor a b) = Z.lxor (crc_bit a) (crc_bit b).
Proof.
  unfold crc_bit. rewrite lxor_odd, Z.shiftr_lxor.
  destruct (Z.odd a), (Z.odd b); simpl xorb; cbv iota.
  - by rewrite lxor_swap, Z.lxor_nilpotent, Z.lxor_0_r.
  - rewrite !Z.lxor_assoc. f_equal. apply Z.lxor_comm.
  - by rewrite Z.lxor_assoc.
  - done.
Qed.

Lemma crc_bits_S n c : crc_bits (S n) c = crc_bits n (crc_bit c).
Proof. unfold crc_bits. by rewrite Nat.iter_succ_r. Qed.

Lemma crc_bits_add n k c : crc_bits (n + k) c = crc_bits n (crc_bits k c).
Proof. unfold crc_bits. apply Nat.iter_add. Qed.

Lemma crc_bits_lxor n a b : crc_bits n (Z.lxor a b) = Z.lxor (crc_bits n a) (crc_bits n b).
Proof.
  revert a b. induction n as [|n IH]; intros a b; [done|].
  by rewrite !crc_bits_S, crc_bit_lxor, IH.
Qed.

Lemma crc_bits_0 n : crc_bits n 0 = 0.
Proof. induction n as [|n IH]; [done|]. by rewrite crc_bits_S. Qed.

(** Bits that are shifted out as zeros only move. *)
Lemma crc_bits_shiftl n c : crc_bits n (Z.shiftl c (Z.of_nat n)) = c.
Proof.
  revert c. induction n as [|n IH]; intros c; [apply Z.shiftl_0_r|].
  rewrite crc_bits_S. unfold crc_bit.
  replace (Z.odd _) with false.
  - rewrite Z.shiftr_shiftl_l by lia. replace (Z.of_nat (S n) - 1) with (Z.of_nat n) by lia. apply IH.
  - rewrite <- Z.bit0_odd. symmetry. apply Z.shiftl_spec_low. lia.
Qed.

Lemma crc_run_app c xs ys : crc_run c (xs ++ ys) = crc_run (crc_run c xs) ys.
Proof. apply fold_left_app. Qed.

(** A word at a time: the register of [length bs] bytes is the division of
    the register xor their little-endian value. *)
Lemma crc_bits_combine bs c :
  crc_bits (8 * length bs) (Z.lxor c (le_combine bs)) = crc_run c bs.
Proof.
  revert c. induction bs as [|b bs IH]; intros c; [apply Z.lxor_0_r|].
  change (le_combine (b :: bs)) with (Z.lor (b2z b) (Z.shiftl (le_combine bs) 8)).
  assert (E : Z.lor (b2z b) (Z.shiftl (le_combine bs) 8) =
              Z.lxor (b2z b) (Z.shiftl (le_combine bs) 8)).
  { symmetry. apply Z.lxor_lor. apply Z.bits_inj'. intros i Hi.
    rewrite Z.land_spec, Z.bits_0.
    destruct (Z_lt_le_dec i 8).
    - by rewrite Z.shiftl_spec_low, andb_false_r.
    - rewrite (testbit_high (b2z b) 8); [done| |done]. pose proof (b2z_range b). lia. }
  rewrite E. replace (8 * length (b :: bs))%nat with (8 * length bs + 8)%nat by (simpl; lia).
  rewrite crc_bits_add, <- Z.lxor_assoc, (crc_bits_lxor 8).
  pose proof (crc_bits_shiftl 8 (le_combine bs)) as Hs. change (Z.of_nat 8) with 8 in Hs.
  rewrite Hs. apply IH.
Qed.

(** ** Range of the register *)

Lemma lxor_range w a b : 0 <= w -> 0 <= a < 2 ^ w -> 0 <= b < 2 ^ w -> 0 <= Z.lxor a b < 2 ^ w.
Proof.
  intros Hw Ha Hb. assert (0 <= Z.lxor a b) by (apply Z.lxor_nonneg; lia).
  split; [done|].
  destruct (Z.eq_dec (Z.lxor a b) 0) as [->|]; [lia|].
  apply Z.log2_lt_pow2; [lia|].
  pose proof (Z.log2_lxor a b (proj1 Ha) (proj1 Hb)).
  destruct (Z.eq_dec w 0) as [->|].
  { assert (a = 0) by lia. assert (b = 0) by lia. by subst. }
  assert (forall x, 0 <= x < 2 ^ w -> Z.log2 x < w).
  { intros x Hx. destruct (Z.eq_dec x 0) as [->|]; [simpl; lia|]. apply Z.log2_lt_pow2; lia. }
  pose proof (H1 a Ha). pose proof (H1 b Hb). lia.
Qed.

Lemma crc_bit_range c : is_u32 c -> is_u32 (crc_bit c).
Proof.
  intros Hc. unfold crc_bit.
  assert (is_u32 (Z.shiftr c 1)) by (rewrite Z.shiftr_div_pow2 by lia; change (2 ^ 1) with 2; dlia).
  destruct (Z.odd c); [|done]. apply lxor_range; [lia|done|]. unfold POLY. lia.
Qed.

Lemma crc_bits_range n c : is_u32 c -> is_u32 (crc_bits n c).
Proof.
  revert c. induction n as [|n IH]; intros c Hc; [done|].
  rewrite crc_bits_S. by apply IH, crc_bit_range.
Qed.

Lemma crc_byte_range c b : is_u32 c -> is_u32 (crc_byte c b).
Proof.
  intros. apply crc_bits_range, lxor_range; [lia|done|]. pose proof (b2z_range b). lia.
Qed.

Lemma crc_run_range bs : forall c, is_u32 c -> is_u32 (crc_run c bs).
Proof.
  induction bs as [|b bs IH]; intros c Hc; [done|]. apply (IH (crc_byte c b)).
  by apply crc_byte_range.
Qed.

Lemma not32_range z : is_u32 z -> is_u32 (not32 z).
Proof. intros. apply lxor_range; [lia|done|]. unfold UINT32_MAX. lia. Qed.

Lemma crc32c_range crc bs : is_u32 crc -> is_u32 (crc32c crc bs).
Proof. intros. by apply not32_range, crc_run_range, not32_range. Qed.

#[export] Hint Resolve crc_bit_range crc_bits_range crc_byte_range crc_run_range
  not32_range crc32c_range : crc.

(** ** The tables *)

Lemma land_ff c : Z.land c 0xff = c mod 256.
Proof. change 0xff with (Z.ones 8). by rewrite Z.land_ones. Qed.

Lemma tget_tab256 f i : 0 <= i < 256 -> tget (tab256 f) i = f i.
Proof.
  intros Hi. unfold tget, tab256.
  rewrite (nth_indep _ 0 (f (Z.of_nat 0))) by (rewrite length_map, length_seq; lia).
  rewrite (map_nth (fun n => f (Z.of_nat n))), seq_nth by lia. f_equal. lia.
Qed.

(** The low [n] bits and the rest. *)
Lemma split_low n c :
  0 <= n -> c = Z.lxor (Z.land c (Z.ones n)) (Z.shiftl (Z.shiftr c n) n).
Proof.
  intros Hn. apply Z.bits_inj'. intros i Hi. rewrite Z.lxor_spec, Z.land_spec.
  destruct (Z_lt_le_dec i n).
  - by rewrite Z.ones_spec_low, Z.shiftl_spec_low, andb_true_r, xorb_false_r by lia.
  - rewrite Z.ones_spec_high, Z.shiftl_spec, Z.shiftr_spec, andb_false_r by lia.
    simpl. f_equal. lia.
Qed.

(** [n] steps consume the low [n] bits; the others move down. *)
Lemma crc_bits_split n c :
  crc_bits n c =
  Z.lxor (crc_bits n (Z.land c (Z.ones (Z.of_nat n)))) (Z.shiftr c (Z.of_nat n)).
Proof.
  rewrite (split_low (Z.of_nat n) c) at 1 by lia.
  by rewrite crc_bits_lxor, crc_bits_shiftl.
Qed.

Lemma table_le_0 i : 0 <= i < 256 -> crc32c_table_le 0 i = crc_bits 8 i.
Proof. intros Hi. unfold crc32c_table_le, crc32_init_sw_le. cbn [nth]. by rewrite tget_tab256. Qed.

Lemma table_step (t0 : list Z) c :
  (forall i, 0 <= i < 256 -> tget t0 i = crc_bits 8 i) ->
  Z.lxor (tget t0 (Z.land c 0xff)) (Z.shiftr c 8) = crc_bits 8 c.
Proof.
  intros Ht. rewrite Ht; [by rewrite (crc_bits_split 8 c)|]. rewrite land_ff. dlia.
Qed.

Lemma table_le_k k i :
  (k < 8)%nat -> 0 <= i < 256 -> crc32c_table_le k i = crc_bits (8 * S k) i.
Proof.
  intros Hk Hi. destruct k as [|k]; [by apply table_le_0|].
  unfold crc32c_table_le, crc32_init_sw_le. cbn [nth].
  set (t0 := tab256 _).
  assert (Ht0 : forall i, 0 <= i < 256 -> tget t0 i = crc_bits 8 i)
    by (intros j Hj; unfold t0; by rewrite tget_tab256).
  rewrite (nth_indep _ [] (tab256 (fun n => Nat.iter 0 (fun crc => Z.lxor
     (tget t0 (Z.land crc 0xff)) (Z.shiftr crc 8)) (tget t0 n))))
    by (rewrite length_map, length_seq; lia).
  rewrite (map_nth (fun k => tab256 (fun n => Nat.iter k (fun crc => Z.lxor
     (tget t0 (Z.land crc 0xff)) (Z.shiftr crc 8)) (tget t0 n)))), seq_nth by lia.
  rewrite tget_tab256, Ht0 by done. change (1 + k)%nat with (S k). clear Hk.
  induction (S k) as [|j IH]; [done|].
  rewrite Nat.iter_succ, IH. cbv beta. rewrite table_step by done. rewrite <- crc_bits_add.
  f_equal. lia.
Qed.

(** ** The little-endian version computes the reference *)

Lemma lxor_byte_split c b :
  0 <= c -> Z.lxor (crc_bits 8 (Z.land (Z.lxor c (b2z b)) 0xff)) (Z.shiftr c 8) = crc_byte c b.
Proof.
  intros Hc. unfold crc_byte. rewrite (crc_bits_split 8 (Z.lxor c (b2z b))).
  change (Z.of_nat 8) with 8. change (Z.ones 8) with 0xff. f_equal.
  rewrite Z.shiftr_lxor. replace (Z.shiftr (b2z b) 8) with 0; [by rewrite Z.lxor_0_r|].
  rewrite Z.shiftr_div_pow2 by lia. pose proof (b2z_range b).
  change (2 ^ 8) with 256. dlia.
Qed.

Lemma sw_le_byte_spec c b : 0 <= c -> sw_le_byte c b = crc_byte c b.
Proof.
  intros Hc. unfold sw_le_byte. rewrite table_le_0; [by apply lxor_byte_split|].
  rewrite land_ff. dlia.
Qed.

(** Slicing: a [8 * n]-bit value byte by byte, the low byte needing the most
    steps. *)
Fixpoint slice (n : nat) (w : Z) : Z :=
  match n with
  | O => 0
  | S n => Z.lxor (crc_bits (8 * S n) (Z.land w 0xff)) (slice n (Z.shiftr w 8))
  end.

Lemma slice_spec n w : 0 <= w < 2 ^ (8 * Z.of_nat n) -> slice n w = crc_bits (8 * n) w.
Proof.
  revert w. induction n as [|n IH]; intros w Hw.
  - simpl in *. by assert (w = 0) as -> by lia.
  - cbn [slice]. rewrite IH.
    + rewrite (split_low 8 w) at 3 by lia. rewrite crc_bits_lxor. f_equal.
      replace (8 * S n)%nat with (8 * n + 8)%nat by lia. rewrite crc_bits_add. f_equal.
      symmetry. apply (crc_bits_shiftl 8).
    + rewrite Z.shiftr_div_pow2 by lia.
      replace (8 * Z.of_nat (S n)) with (8 + 8 * Z.of_nat n) in Hw by lia.
      rewrite Z.pow_add_r in Hw by lia. split; [apply Z.div_pos; lia|].
      apply Z.div_lt_upper_bound; lia.
Qed.

Lemma sw_le_word_spec c w :
  is_u64 c -> is_u64 w -> sw_le_word c w = crc_bits 64 (Z.lxor c w).
Proof.
  intros Hc Hw. pose proof (lxor_range 64 c w ltac:(lia) Hc Hw) as Hx.
  unfold sw_le_word. set (x := Z.lxor c w) in *.
  change 64%nat with (8 * 8)%nat. rewrite <- (slice_spec 8 x) by done.
  assert (Hb : forall y, 0 <= Z.land y 0xff < 256) by (intros; rewrite land_ff; dlia).
  assert (H56 : 0 <= Z.shiftr x 56 < 256) by (rewrite Z.shiftr_div_pow2 by lia; change (2 ^ 56) with 72057594037927936; dlia).
  rewrite !table_le_k by (lia || apply Hb || done).
  cbn [slice]. rewrite !Z.shiftr_shiftr by lia.
  change (8 + 8) with 16. change (16 + 8) with 24. change (24 + 8) with 32.
  change (32 + 8) with 40. change (40 + 8) with 48. change (48 + 8) with 56.
  by rewrite Z.lxor_0_r, (land_ff (Z.shiftr x 56)), (Z.mod_small (Z.shiftr x 56)) by done.
Qed.

Lemma align_loop_spec step addr c bs :
  is_u32 c -> (forall c b, is_u32 c -> step c b = crc_byte c b) ->
  let '(c', next) := align_loop step addr c bs in
  is_u32 c' /\ crc_run c' next = crc_run c bs.
Proof.
  intros Hc Hs. revert addr c Hc. induction bs as [|b bs IH]; intros addr c Hc; [done|].
  cbn [align_loop]. destruct (negb _); [|done].
  specialize (IH (addr + 1) (step c b)). rewrite Hs in * by done.
  apply IH. by apply crc_byte_range.
Qed.

Lemma word_loop_spec word fuel : forall c bs,
  is_u32 c -> (length bs <= fuel)%nat ->
  (forall c w, is_u32 c -> length w = 8%nat -> word c w = crc_run c w) ->
  let '(c', next) := word_loop word fuel c bs in
  is_u32 c' /\ crc_run c' next = crc_run c bs /\ (length next < 8)%nat.
Proof.
  induction fuel as [|fuel IH]; intros c bs Hc Hf Hw; cbn [word_loop].
  - split_and!; done || lia.
  - unfold zlen. destruct (Z.of_nat (length bs) >=? 8) eqn:E; zb; [|split_and!; done || lia].
    assert (length (take 8 bs) = 8%nat) by (rewrite length_take; lia).
    specialize (IH (word c (take 8 bs)) (drop 8 bs)). rewrite Hw in * by done.
    rewrite <- crc_run_app, take_drop in IH. apply IH; [by apply crc_run_range| |done].
    rewrite length_drop. lia.
Qed.

Lemma fold_step_spec step bs : forall c,
  is_u32 c -> (forall c b, is_u32 c -> step c b = crc_byte c b) ->
  fold_left step bs c = crc_run c bs.
Proof.
  induction bs as [|b bs IH]; intros c Hc Hs; [done|]. simpl.
  rewrite Hs, IH by eauto with crc. done.
Qed.

Lemma le_combine_u64 w : length w = 8%nat -> is_u64 (le_combine w).
Proof. intros Hw. pose proof (le_combine_range w) as H. by rewrite Hw in H. Qed.

Lemma crc32_sw_le_spec addr crc bs :
  is_u32 crc -> crc32_sw_le addr crc bs = crc32c crc bs.
Proof.
  intros Hc. apply not32_range in Hc. unfold crc32_sw_le, crc32c.
  assert (Hb : forall c b, is_u32 c -> sw_le_byte c b = crc_byte c b)
    by (intros; apply sw_le_byte_spec; lia).
  pose proof (align_loop_spec sw_le_byte addr _ bs Hc Hb) as Ha.
  destruct (align_loop _ _ _ _) as [c1 next1]. destruct Ha as [H1 E1].
  pose proof (word_loop_spec (fun c w => sw_le_word c (le_combine w)) (length next1) c1 next1)
    as Hw.
  destruct (word_loop _ _ _ _) as [c2 next2]. destruct Hw as (H2 & E2 & _); [done..| |].
  - intros c w Hcu Hl. rewrite sw_le_word_spec by (lia || by apply le_combine_u64).
    rewrite <- crc_bits_combine, Hl. done.
  - by rewrite (fold_step_spec _ _ _ H2 Hb), E2, E1.
Qed.

(** ** Hardware version

    The matrices over GF(2) and the operators that append zeros. *)

Fixpoint gf2_loop (mat : list Z) (vec sum : Z) : Z :=
  match mat with
  | [] => sum
  | row :: mat =>
      if vec =? 0 then sum
      else gf2_loop mat (Z.shiftr vec 1) (if Z.odd vec then Z.lxor sum row else sum)
  end.

Definition gf2_matrix_times (mat : list Z) (vec : Z) : Z := gf2_loop mat vec 0.

Definition gf2_matrix_square (mat : list Z) : list Z := map (gf2_matrix_times mat) mat.

(** The [do] loop of [crc32_zeros_op]: returns what ends up in [even].  [len] is
    a [size_t]: it is zero after 64 shifts, two per iteration. *)
Fixpoint zeros_loop (fuel : nat) (odd : list Z) (len : Z) : list Z :=
  match fuel with
  | O => odd
  | S fuel =>
      let even := gf2_matrix_square odd in
      let len := Z.shiftr len 1 in
      if len =? 0 then even
      else
        let odd := gf2_matrix_square even in
        let len := Z.shiftr len 1 in
        if len =? 0 then odd else zeros_loop fuel odd len
  end.

Definition crc32_zeros_op (len : Z) : list Z :=
  let odd := POLY :: map (fun n => Z.shiftl 1 (Z.of_nat n)) (seq 0 31) in
  let even := gf2_matrix_square odd in
  let odd := gf2_matrix_square even in
  zeros_loop 32 odd len.

Definition crc32_zeros (len : Z) : list (list Z) :=
  let op := crc32_zeros_op len in
  [ tab256 (fun n => gf2_matrix_times op n);
    tab256 (fun n => gf2_matrix_times op (Z.shiftl n 8));
    tab256 (fun n => gf2_matrix_times op (Z.shiftl n 16));
    tab256 (fun n => gf2_matrix_times op (Z.shiftl n 24)) ].

Definition crc32_shift (zeros : list (list Z)) (crc : Z) : Z :=
  Z.lxor (tget (nth 0 zeros []) (Z.land (Z.shiftr crc 0) 0xff))
  (Z.lxor (tget (nth 1 zeros []) (Z.land (Z.shiftr crc 8) 0xff))
  (Z.lxor (tget (nth 2 zeros []) (Z.land (Z.shiftr crc 16) 0xff))
          (tget (nth 3 zeros []) (Z.land (Z.shiftr crc 24) 0xff)))).

Definition CRC32_LONG : nat := 2048.
Definition CRC32_SHORT : nat := 256.

(** [crc32_init_hw]: the two global tables. *)
Definition crc32_init_hw : list (list Z) * list (list Z) :=
  (crc32_zeros (Z.of_nat CRC32_LONG), crc32_zeros (Z.of_nat CRC32_SHORT)).

(** The instruction on a byte and on eight bytes is a parameter. *)
Section Hardware.
Context (mm_crc32_u8 mm_crc32_u64 : Z -> Z -> Z).

(** The inner loop: [k] groups of eight bytes of three adjacent blocks. *)
Fixpoint three_way (blk k : nat) (next : list byte) (crc0 crc1 crc2 : Z)
    : Z * Z * Z * list byte :=
  match k with
  | O => (crc0, crc1, crc2, next)
  | S k =>
      let a := le_combine (take 8 next) in
      let b := le_combine (take 8 (drop blk next)) in
      let c := le_combine (take 8 (drop (blk * 2) next)) in
      three_way blk k (drop 8 next)
        (mm_crc32_u64 crc0 a) (mm_crc32_u64 crc1 b) (mm_crc32_u64 crc2 c)
  end.

(** The loop [while (len >= blk * 3)] with its shift table. *)
Fixpoint block_loop (blk : nat) (zeros : list (list Z)) (fuel : nat) (crc0 : Z)
    (next : list byte) : Z * list byte :=
  match fuel with
  | O => (crc0, next)
  | S fuel =>
      if zlen next >=? Z.of_nat (blk * 3) then
        let '(crc0, crc1, crc2, next) := three_way blk (blk / 8) next crc0 0 0 in
        let crc0 := Z.lxor (crc32_shift zeros crc0) crc1 in
        let crc0 := Z.lxor (crc32_shift zeros crc0) crc2 in
        block_loop blk zeros fuel crc0 (drop (blk * 2) next)
      else (crc0, next)
  end.

Definition crc32_hw (addr crc : Z) (buf : list byte) : Z :=
  let '(crc32c_long, crc32c_short) := crc32_init_hw in
  let crc0 := Z.lxor crc 0xffffffff in
  let '(crc0, next) := align_loop (fun c b => mm_crc32_u8 c (b2z b)) addr crc0 buf in
  let '(crc0, next) := block_loop CRC32_LONG crc32c_long (length next) crc0 next in
  let '(crc0, next) := block_loop CRC32_SHORT crc32c_short (length next) crc0 next in
  let '(crc0, next) :=
    word_loop (fun c w => mm_crc32_u64 c (le_combine w)) (length next) crc0 next in
  let crc0 := fold_left (fun c b => mm_crc32_u8 c (b2z b)) next crc0 in
  Z.lxor crc0 0xffffffff.

End Hardware.

(** ** The zero-operators *)

(** The matrix of a linear map: its images of the 32 unit vectors. *)
Definition matrix (f : Z -> Z) : list Z := map (fun i => f (Z.shiftl 1 (Z.of_nat i))) (seq 0 32).

Lemma gf2_loop_spec f n : forall s vec sum,
  f 0 = 0 -> (forall a b, f (Z.lxor a b) = Z.lxor (f a) (f b)) ->
  0 <= vec < 2 ^ Z.of_nat n ->
  gf2_loop (map (fun i => f (Z.shiftl 1 (Z.of_nat i))) (seq s n)) vec sum =
  Z.lxor sum (f (Z.shiftl vec (Z.of_nat s))).
Proof.
  induction n as [|n IH]; intros s vec sum H0 Hl Hv.
  - simpl in *. assert (vec = 0) as -> by lia. by rewrite Z.shiftl_0_l, H0, Z.lxor_0_r.
  - cbn [seq map gf2_loop]. destruct (Z.eqb_spec vec 0) as [->|Hne].
    { by rewrite Z.shiftl_0_l, H0, Z.lxor_0_r. }
    rewrite IH; [|done..|].
    + assert (E : Z.shiftl vec (Z.of_nat s) =
        Z.lxor (Z.shiftl (Z.land vec 1) (Z.of_nat s))
               (Z.shiftl (Z.shiftr vec 1) (Z.of_nat (S s)))).
      { rewrite (split_low 1 vec) at 1 by lia. rewrite Z.shiftl_lxor. f_equal.
        rewrite Z.shiftl_shiftl by lia. f_equal. lia. }
      rewrite E, Hl, <- Z.lxor_assoc. f_equal.
      change 1 with (Z.ones 1) at 2. rewrite Z.land_ones by lia. change (2 ^ 1) with 2.
      rewrite Zmod_odd. destruct (Z.odd vec); [done|].
      by rewrite Z.shiftl_0_l, H0, Z.lxor_0_r.
    + rewrite Z.shiftr_div_pow2 by lia. rewrite Nat2Z.inj_succ, Z.pow_succ_r in Hv by lia.
      change (2 ^ 1) with 2. dlia.
Qed.

Lemma matrix_times n vec :
  is_u32 vec -> gf2_matrix_times (matrix (crc_bits n)) vec = crc_bits n vec.
Proof.
  intros Hv. unfold gf2_matrix_times, matrix.
  rewrite gf2_loop_spec; [|apply crc_bits_0|apply crc_bits_lxor|done].
  change (Z.of_nat 0) with 0. by rewrite Z.shiftl_0_r, Z.lxor_0_l.
Qed.

Lemma unit_range i : (i < 32)%nat -> is_u32 (Z.shiftl 1 (Z.of_nat i)).
Proof.
  intros Hi. rewrite Z.shiftl_1_l. split; [apply Z.pow_nonneg; lia|].
  apply Z.pow_lt_mono_r; lia.
Qed.

Lemma matrix_square n : gf2_matrix_square (matrix (crc_bits n)) = matrix (crc_bits (n + n)).
Proof.
  unfold gf2_matrix_square. unfold matrix at 2 3. rewrite map_map.
  apply map_ext_in. intros i Hi. apply in_seq in Hi.
  rewrite matrix_times by (apply crc_bits_range, unit_range; lia).
  by rewrite <- crc_bits_add.
Qed.

Lemma zeros_loop_spec fuel : forall n len,
  0 <= len < 4 ^ Z.of_nat fuel ->
  zeros_loop fuel (matrix (crc_bits n)) len =
  match fuel with
  | O => matrix (crc_bits n)
  | S _ => matrix (crc_bits (n * 2 ^ S (Z.to_nat (Z.log2 len))))
  end.
Proof.
  induction fuel as [|fuel IH]; intros n len Hlen; [done|].
  cbn [zeros_loop]. rewrite !matrix_square.
  rewrite Nat2Z.inj_succ, Z.pow_succ_r in Hlen by lia.
  rewrite !Z.shiftr_div_pow2 by lia. change (2 ^ 1) with 2.
  destruct (Z.eqb_spec (len / 2) 0) as [E|E].
  { replace (Z.log2 len) with 0; [f_equal; f_equal; simpl; lia|].
    symmetry. apply Z.log2_null. dlia. }
  destruct (Z.eqb_spec (len / 2 / 2) 0) as [E2|E2].
  { replace (Z.log2 len) with 1; [f_equal; f_equal; simpl; lia|].
    symmetry. apply Z.log2_unique; simpl; dlia. }
  rewrite IH by dlia. destruct fuel as [|fuel]; [simpl in Hlen; dlia|].
  assert (EL : Z.log2 len = Z.log2 (len / 2 / 2) + 2).
  { rewrite Z.div_div by lia. change (2 * 2) with (2 ^ 2). rewrite <- Z.shiftr_div_pow2 by lia.
    rewrite Z.log2_shiftr; [|dlia]. assert (2 <= Z.log2 len); [|lia].
    apply Z.log2_le_pow2; simpl; dlia. }
  do 2 f_equal. rewrite EL. pose proof (Z.log2_nonneg (len / 2 / 2)).
  rewrite Z2Nat.inj_add by lia. change (Z.to_nat 2) with 2%nat.
  rewrite <- plus_n_Sm, <- plus_n_Sm, Nat.add_0_r, !Nat.pow_succ_r'. lia.
Qed.

Lemma crc32_zeros_op_spec len :
  is_u64 len -> crc32_zeros_op len = matrix (crc_bits (8 * 2 ^ Z.to_nat (Z.log2 len))).
Proof.
  intros Hlen. unfold crc32_zeros_op.
  assert (E : POLY :: map (fun n => Z.shiftl 1 (Z.of_nat n)) (seq 0 31) = matrix (crc_bits 1))
    by reflexivity.
  rewrite E, !matrix_square, (zeros_loop_spec 32) by (simpl; lia).
  do 2 f_equal. rewrite Nat.pow_succ_r'. lia.
Qed.

Lemma four_bytes c :
  is_u32 c ->
  Z.lxor (Z.land (Z.shiftr c 0) 0xff)
    (Z.lxor (Z.shiftl (Z.land (Z.shiftr c 8) 0xff) 8)
    (Z.lxor (Z.shiftl (Z.land (Z.shiftr c 16) 0xff) 16)
            (Z.shiftl (Z.land (Z.shiftr c 24) 0xff) 24))) = c.
Proof.
  intros Hc. rewrite Z.shiftr_0_r.
  assert (E24 : Z.land (Z.shiftr c 24) 0xff = Z.shiftr c 24).
  { rewrite land_ff. apply Z.mod_small. rewrite Z.shiftr_div_pow2 by lia.
    change (2 ^ 24) with 16777216. dlia. }
  assert (E : forall s, 0 <= s -> Z.lxor (Z.shiftl (Z.land (Z.shiftr c s) 0xff) s)
      (Z.shiftl (Z.shiftr c (s + 8)) (s + 8)) = Z.shiftl (Z.shiftr c s) s).
  { intros s Hs. rewrite (split_low 8 (Z.shiftr c s)) at 2 by lia.
    by rewrite Z.shiftl_lxor, Z.shiftl_shiftl, Z.shiftr_shiftr, (Z.add_comm 8 s) by lia. }
  rewrite E24. change 24 with (16 + 8). rewrite E by lia.
  change 16 with (8 + 8). rewrite E by lia. symmetry. apply (split_low 8). lia.
Qed.

Lemma crc32_shift_spec blk crc :
  is_u64 (Z.of_nat blk) -> blk = (2 ^ Z.to_nat (Z.log2 (Z.of_nat blk)))%nat ->
  is_u32 crc ->
  crc32_shift (crc32_zeros (Z.of_nat blk)) crc = crc_bits (8 * blk) crc.
Proof.
  intros Hb Hp Hc. unfold crc32_zeros, crc32_shift. cbn [nth].
  rewrite crc32_zeros_op_spec, <- Hp by done.
  assert (Hr : forall s, 0 <= Z.land (Z.shiftr crc s) 0xff < 256) by (intros; rewrite land_ff; dlia).
  rewrite !tget_tab256 by by apply Hr.
  assert (Hs : forall s, 0 <= s <= 24 -> is_u32 (Z.shiftl (Z.land (Z.shiftr crc s) 0xff) s)).
  { intros s Hs. rewrite Z.shiftl_mul_pow2 by lia. pose proof (Hr s).
    assert (0 < 2 ^ s <= 2 ^ 24) by (split; [apply Z.pow_pos_nonneg|apply Z.pow_le_mono_r]; lia).
    nia. }
  rewrite !matrix_times; [|by apply Hs..|].
  2:{ specialize (Hr 0). lia. }
  rewrite <- !crc_bits_lxor. f_equal. by apply four_bytes.
Qed.

(** ** The hardware version computes the reference *)

Lemma crc_run_split c bs :
  crc_run c bs = Z.lxor (crc_bits (8 * length bs) c) (crc_run 0 bs).
Proof. by rewrite <- (crc_bits_combine bs c), <- (crc_bits_combine bs 0), Z.lxor_0_l, crc_bits_lxor. Qed.

Section HardwareProofs.
Context (mm_crc32_u8 mm_crc32_u64 : Z -> Z -> Z).
(** The documented effect of the instruction: the division of the register
    xor the operand, one bit at a time. *)
Hypothesis mm_u8 : forall c v, is_u32 c -> is_u8 v -> mm_crc32_u8 c v = crc_bits 8 (Z.lxor c v).
Hypothesis mm_u64 : forall c v, is_u32 c -> is_u64 v -> mm_crc32_u64 c v = crc_bits 64 (Z.lxor c v).

Lemma mm_byte c b : is_u32 c -> mm_crc32_u8 c (b2z b) = crc_byte c b.
Proof. intros Hc. apply mm_u8; [done|]. pose proof (b2z_range b). lia. Qed.

Lemma mm_word c w : is_u32 c -> length w = 8%nat -> mm_crc32_u64 c (le_combine w) = crc_run c w.
Proof.
  intros Hc Hw. rewrite mm_u64 by (done || by apply le_combine_u64).
  by rewrite <- crc_bits_combine, Hw.
Qed.

Lemma three_way_spec blk k : forall next c0 c1 c2,
  is_u32 c0 -> is_u32 c1 -> is_u32 c2 ->
  (8 * k + blk * 2 <= length next)%nat ->
  three_way mm_crc32_u64 blk k next c0 c1 c2 =
  (crc_run c0 (take (8 * k) next), crc_run c1 (take (8 * k) (drop blk next)),
   crc_run c2 (take (8 * k) (drop (blk * 2) next)), drop (8 * k) next).
Proof.
  induction k as [|k IH]; intros next c0 c1 c2 H0 H1 H2 Hl; [done|].
  cbn [three_way].
  assert (Ht : forall j, (j <= blk * 2)%nat -> length (take 8 (drop j next)) = 8%nat).
  { intros j Hj. rewrite length_take, length_drop. lia. }
  rewrite <- (drop_0 next) at 2. rewrite !mm_word by (done || apply Ht; lia). rewrite drop_0.
  rewrite IH by (try apply crc_run_range; done || rewrite length_drop; lia).
  replace (8 * S k)%nat with (8 + 8 * k)%nat by lia.
  rewrite <- !(take_take_drop _ 8), !crc_run_app, !drop_drop.
  by rewrite !(Nat.add_comm 8).
Qed.

Lemma block_loop_spec blk fuel : forall c bs,
  (0 < blk)%nat -> (blk / 8 * 8 = blk)%nat ->
  blk = (2 ^ Z.to_nat (Z.log2 (Z.of_nat blk)))%nat -> is_u64 (Z.of_nat blk) ->
  is_u32 c -> (length bs <= fuel)%nat ->
  let '(c', next) := block_loop mm_crc32_u64 blk (crc32_zeros (Z.of_nat blk)) fuel c bs in
  is_u32 c' /\ crc_run c' next = crc_run c bs.
Proof.
  induction fuel as [|fuel IH]; intros c bs Hb H8 Hp Hu Hc Hf; cbn [block_loop]; [done|].
  destruct (zlen bs >=? Z.of_nat (blk * 3)) eqn:E; zb; [|done]. unfold zlen in E.
  rewrite three_way_spec by (done || lia).
  replace (8 * (blk / 8))%nat with blk by lia.
  set (A := take blk bs). set (B := take blk (drop blk bs)). set (C := take blk (drop (blk * 2) bs)).
  assert (HB : length B = blk) by (unfold B; rewrite length_take, length_drop; lia).
  assert (HC : length C = blk) by (unfold C; rewrite length_take, length_drop; lia).
  assert (Hj : forall c X, is_u32 c -> length X = blk ->
    Z.lxor (crc32_shift (crc32_zeros (Z.of_nat blk)) c) (crc_run 0 X) = crc_run c X).
  { intros c' X Hc' HX. rewrite crc32_shift_spec by done. by rewrite (crc_run_split c'), HX. }
  rewrite (Hj _ B) by (done || by apply crc_run_range).
  rewrite (Hj _ C) by (done || by repeat apply crc_run_range).
  rewrite <- !crc_run_app, app_assoc.
  assert (EQ : bs = ((A ++ B) ++ C) ++ drop (blk * 3) bs).
  { unfold A, B, C. rewrite <- (take_drop (blk * 3) bs) at 1. f_equal.
    replace (blk * 3)%nat with (blk + (blk + blk))%nat by lia.
    replace (blk * 2)%nat with (blk + blk)%nat by lia.
    by rewrite <- !take_take_drop, drop_drop, app_assoc. }
  rewrite drop_drop. replace (blk + blk * 2)%nat with (blk * 3)%nat by lia.
  specialize (IH (crc_run c ((A ++ B) ++ C)) (drop (blk * 3) bs)).
  rewrite <- crc_run_app, <- EQ in IH. apply IH; try done.
  - by apply crc_run_range.
  - rewrite length_drop. lia.
Qed.

Lemma crc32_hw_spec addr crc bs :
  is_u32 crc -> crc32_hw mm_crc32_u8 mm_crc32_u64 addr crc bs = crc32c crc bs.
Proof.
  intros Hc. apply not32_range in Hc. unfold crc32_hw, crc32c.
  change (Z.lxor crc 0xffffffff) with (not32 crc).
  pose proof (align_loop_spec (fun c b => mm_crc32_u8 c (b2z b)) addr _ bs Hc mm_byte) as Ha.
  destruct crc32_init_hw as [tl ts] eqn:Ei. apply pair_eq in Ei as [<- <-].
  destruct (align_loop _ _ _ _) as [c1 n1]. destruct Ha as [H1 E1].
  pose proof (block_loop_spec CRC32_LONG (length n1) c1 n1) as Hl.
  destruct (block_loop _ _ _ _ _ _) as [c2 n2].
  destruct Hl as [H2 E2]; [unfold CRC32_LONG; lia|reflexivity|reflexivity|vm_compute; intuition congruence|done|done|].
  pose proof (block_loop_spec CRC32_SHORT (length n2) c2 n2) as Hs.
  destruct (block_loop _ _ _ _ _ _) as [c3 n3].
  destruct Hs as [H3 E3]; [unfold CRC32_SHORT; lia|reflexivity|reflexivity|vm_compute; intuition congruence|done|done|].
  pose proof (word_loop_spec (fun c w => mm_crc32_u64 c (le_combine w)) (length n3) c3 n3) as Hw.
  destruct (word_loop _ _ _ _) as [c4 n4].
  destruct Hw as (H4 & E4 & _); [done..|exact mm_word|].
  rewrite (fold_step_spec _ _ _ H4 mm_byte), E4, E3, E2, E1. done.
Qed.

End HardwareProofs.

(** ** Software version, big-endian *)

Definition swap (x : Z) : Z :=
  let x := Z.lor (Z.land (Z.shiftl x 8) 0xff00ff00ff00ff00)
                 (Z.land (Z.shiftr x 8) 0x00ff00ff00ff00ff) in
  let x := Z.lor (Z.land (Z.shiftl x 16) 0xffff0000ffff0000)
                 (Z.land (Z.shiftr x 16) 0x0000ffff0000ffff) in
  u64 (Z.lor (Z.shiftl x 32) (Z.shiftr x 32)).

(** [crc32c_table_be_byte] and [crc32c_table_be]. *)
Definition crc32_init_sw_be : list Z * list (list Z) :=
  let t0 := tab256 (fun n =>
    let crc := n in
    let crc := crc_bit crc in
    let crc := crc_bit crc in
    let crc := crc_bit crc in
    let crc := crc_bit crc in
    let crc := crc_bit crc in
    let crc := crc_bit crc in
    let crc := crc_bit crc in
    crc_bit crc) in
  (t0, map (fun k => tab256 (fun n => swap (
          Nat.iter k (fun crc => Z.lxor (tget t0 (Z.land crc 0xff)) (Z.shiftr crc 8)) (tget t0 n))))
        (seq 0 8)).

Definition crc32c_table_be_byte (i : Z) : Z := tget (fst crc32_init_sw_be) i.
Definition crc32c_table_be (k : nat) (i : Z) : Z := tget (nth k (snd crc32_init_sw_be) []) i.

Definition sw_be_byte (crc : Z) (b : byte) : Z :=
  Z.lxor (crc32c_table_be_byte (Z.land (Z.lxor crc (b2z b)) 0xff)) (Z.shiftr crc 8).

Definition sw_be_word (crcw w : Z) : Z :=
  let crcw := Z.lxor crcw w in
  Z.lxor (crc32c_table_be 0 (Z.land crcw 0xff))
  (Z.lxor (crc32c_table_be 1 (Z.land (Z.shiftr crcw 8) 0xff))
  (Z.lxor (crc32c_table_be 2 (Z.land (Z.shiftr crcw 16) 0xff))
  (Z.lxor (crc32c_table_be 3 (Z.land (Z.shiftr crcw 24) 0xff))
  (Z.lxor (crc32c_table_be 4 (Z.land (Z.shiftr crcw 32) 0xff))
  (Z.lxor (crc32c_table_be 5 (Z.land (Z.shiftr crcw 40) 0xff))
  (Z.lxor (crc32c_table_be 6 (Z.land (Z.shiftr crcw 48) 0xff))
          (crc32c_table_be 7 (Z.shiftr crcw 56)))))))).

(** A [uint64_t] load on a big-endian machine. *)
Definition be_combine (w : list byte) : Z := le_combine (rev w).

Definition crc32_sw_be (addr crc : Z) (buf : list byte) : Z :=
  let crc := not32 crc in
  let '(crc, next) := align_loop sw_be_byte addr crc buf in
  let '(crc, next) :=
    if zlen next >=? 8 then
      let '(crcw, next) :=
        word_loop (fun c w => sw_be_word c (be_combine w)) (length next) (swap crc) next in
      (u32 (swap crcw), next)
    else (crc, next) in
  let crc := fold_left sw_be_byte next crc in
  not32 crc.

(** *** Byte reversal *)

(** The bit of the argument that ends up at bit [i]. *)
Definition swap_bit (i : Z) : Z := 8 * (7 - i / 8) + i mod 8.

Lemma swap_stage k M M' x i :
  0 <= k -> 0 <= i -> Z.testbit M' i = negb (Z.testbit M i) ->
  (Z.testbit M i = true -> k <= i) ->
  Z.testbit (Z.lor (Z.land (Z.shiftl x k) M) (Z.land (Z.shiftr x k) M')) i =
  Z.testbit x (if Z.testbit M i then i - k else i + k).
Proof.
  intros Hk Hi HM Hle. rewrite Z.lor_spec, !Z.land_spec, Z.shiftr_spec, HM by done.
  destruct (Z.testbit M i); simpl.
  - rewrite Z.shiftl_spec by done. by rewrite andb_false_r, orb_false_r, andb_true_r.
  - by rewrite andb_false_r, andb_true_r.
Qed.

Lemma below_64 (P : Z -> bool) :
  forallb P (map Z.of_nat (seq 0 64)) = true -> forall i, 0 <= i < 64 -> P i = true.
Proof.
  intros Hf i Hi. rewrite forallb_forall in Hf. apply Hf, in_map_iff.
  exists (Z.to_nat i). split; [lia|]. apply in_seq. lia.
Qed.

Lemma mask_high m i : 0 <= m < 2 ^ 64 -> 64 <= i -> Z.testbit m i = false.
Proof. intros. by apply (testbit_high m 64). Qed.

Lemma swap_testbit x i : 0 <= i < 64 -> Z.testbit (swap x) i = Z.testbit x (swap_bit i).
Proof.
  intros Hi. unfold swap. set (x1 := Z.lor (Z.land (Z.shiftl x 8) _) _).
  set (x2 := Z.lor (Z.land (Z.shiftl x1 16) _) _).
  unfold u64. rewrite Z.mod_pow2_bits_low, Z.lor_spec, Z.shiftl_spec, Z.shiftr_spec by lia.
  assert (E3 : (Z.testbit x2 (i - 32) || Z.testbit x2 (i + 32))%bool =
               Z.testbit x2 (if i <? 32 then i + 32 else i - 32)).
  { destruct (Z.ltb_spec i 32); [by rewrite Z.testbit_neg_r by lia|].
    unfold x2 at 2. rewrite Z.lor_spec, !Z.land_spec, (mask_high 0xffff0000ffff0000),
      (mask_high 0x0000ffff0000ffff) by lia.
    by rewrite !andb_false_r, orb_false_r. }
  rewrite E3. set (i2 := if i <? 32 then _ else _).
  set (M2 := 0xffff0000ffff0000) in x2. set (M1 := 0xff00ff00ff00ff00) in x1.
  set (i1 := if Z.testbit M2 i2 then i2 - 16 else i2 + 16).
  assert (H2 : 0 <= i2 < 64) by (unfold i2; destruct (Z.ltb_spec i 32); lia).
  assert (Hc : ((Bool.eqb (Z.testbit 0x0000ffff0000ffff i2) (negb (Z.testbit M2 i2))) &&
                implb (Z.testbit M2 i2) (16 <=? i2) && (0 <=? i1) && (i1 <? 64))%bool = true).
  { apply (below_64 (fun i2 => let i1 := if Z.testbit M2 i2 then i2 - 16 else i2 + 16 in
      ((Bool.eqb (Z.testbit 0x0000ffff0000ffff i2) (negb (Z.testbit M2 i2))) &&
       implb (Z.testbit M2 i2) (16 <=? i2) && (0 <=? i1) && (i1 <? 64))%bool)); [reflexivity|done]. }
  apply andb_true_iff in Hc as [Hc Hlt]. apply andb_true_iff in Hc as [Hc Hge].
  apply andb_true_iff in Hc as [Hm2 Himp2]. apply eqb_prop in Hm2.
  unfold x2. rewrite (swap_stage 16 M2) by
    (try done; try lia; intros Ht; rewrite Ht in Himp2; simpl in Himp2; lia).
  fold i1. zb.
  assert (Hc : ((Bool.eqb (Z.testbit 0x00ff00ff00ff00ff i1) (negb (Z.testbit M1 i1))) &&
                implb (Z.testbit M1 i1) (8 <=? i1))%bool = true).
  { apply (below_64 (fun i1 =>
      ((Bool.eqb (Z.testbit 0x00ff00ff00ff00ff i1) (negb (Z.testbit M1 i1))) &&
       implb (Z.testbit M1 i1) (8 <=? i1))%bool)); [reflexivity|done]. }
  apply andb_true_iff in Hc as [Hm1 Himp1]. apply eqb_prop in Hm1.
  unfold x1. rewrite (swap_stage 8 M1) by
    (try done; try lia; intros Ht; rewrite Ht in Himp1; simpl in Himp1; lia).
  f_equal. unfold i1, i2. apply Z.eqb_eq.
  apply (below_64 (fun i =>
    let i2 := if i <? 32 then i + 32 else i - 32 in
    let i1 := if Z.testbit M2 i2 then i2 - 16 else i2 + 16 in
    (if Z.testbit M1 i1 then i1 - 8 else i1 + 8) =? swap_bit i)); [reflexivity|done].
Qed.

Lemma swap_range x : is_u64 (swap x).
Proof. unfold swap. apply u64_range. Qed.

Lemma bits_64 x y :
  is_u64 x -> is_u64 y -> (forall i, 0 <= i < 64 -> Z.testbit x i = Z.testbit y i) -> x = y.
Proof.
  intros Hx Hy H. apply Z.bits_inj'. intros i Hi. destruct (Z_lt_le_dec i 64); [by apply H|].
  by rewrite !(mask_high _ i).
Qed.

Lemma swap_bit_range i : 0 <= i < 64 -> 0 <= swap_bit i < 64.
Proof. unfold swap_bit. intros. dlia. Qed.

Lemma swap_lxor a b : swap (Z.lxor a b) = Z.lxor (swap a) (swap b).
Proof.
  apply bits_64; [apply swap_range|apply lxor_range; [lia|apply swap_range..]|].
  intros i Hi. rewrite Z.lxor_spec, !swap_testbit by done. by rewrite Z.lxor_spec.
Qed.

Lemma swap_swap x : is_u64 x -> swap (swap x) = x.
Proof.
  intros Hx. apply bits_64; [apply swap_range|done|]. intros i Hi.
  rewrite !swap_testbit by (try apply swap_bit_range; done). f_equal. unfold swap_bit. dlia.
Qed.

Lemma swap_get_byte x s :
  0 <= s <= 56 -> s mod 8 = 0 ->
  Z.land (Z.shiftr (swap x) s) 0xff = Z.land (Z.shiftr x (56 - s)) 0xff.
Proof.
  intros Hs Hm. apply Z.bits_inj'. intros i Hi. rewrite !Z.land_spec, !Z.shiftr_spec by done.
  change 0xff with (Z.ones 8).
  destruct (Z_lt_le_dec i 8); [|by rewrite Z.ones_spec_high, !andb_false_r by lia].
  f_equal. rewrite swap_testbit by lia. f_equal. unfold swap_bit. dlia.
Qed.

Lemma le_combine_testbit bs : forall k j,
  0 <= j < 8 ->
  Z.testbit (le_combine bs) (8 * Z.of_nat k + j) = Z.testbit (b2z (nth k bs x00)) j.
Proof.
  induction bs as [|b bs IH]; intros k j Hj.
  - simpl. rewrite Z.bits_0. destruct k; symmetry; apply Z.bits_0.
  - change (le_combine (b :: bs)) with (Z.lor (b2z b) (Z.shiftl (le_combine bs) 8)).
    rewrite Z.lor_spec. destruct k as [|k].
    + rewrite Z.shiftl_spec_low by lia. by rewrite orb_false_r.
    + rewrite (testbit_high (b2z b) 8) by (pose proof (b2z_range b); lia).
      rewrite Z.shiftl_spec by lia. simpl nth. rewrite <- IH by done. simpl orb. f_equal. lia.
Qed.

Lemma be_combine_swap w : length w = 8%nat -> be_combine w = swap (le_combine w).
Proof.
  intros Hw. unfold be_combine. apply bits_64; [|apply swap_range|].
  - apply le_combine_u64. by rewrite length_rev.
  - intros i Hi. rewrite swap_testbit by done. unfold swap_bit.
    rewrite (Z.div_mod i 8) at 1 by lia.
    replace (i / 8) with (Z.of_nat (Z.to_nat (i / 8))) at 1 by dlia.
    replace (7 - i / 8) with (Z.of_nat (7 - Z.to_nat (i / 8))) by dlia.
    rewrite !le_combine_testbit by dlia. rewrite rev_nth by (rewrite Hw; dlia).
    do 3 f_equal. rewrite Hw. lia.
Qed.

(** *** The big-endian version computes the reference *)

Lemma table_be_byte_le i : crc32c_table_be_byte i = crc32c_table_le 0 i.
Proof. done. Qed.

Lemma table_be_le k i :
  (k < 8)%nat -> 0 <= i < 256 -> crc32c_table_be k i = swap (crc32c_table_le k i).
Proof.
  intros Hk Hi. rewrite table_le_k by done.
  unfold crc32c_table_be, crc32_init_sw_be. cbn [snd]. set (t0 := tab256 _).
  assert (Ht0 : forall i, 0 <= i < 256 -> tget t0 i = crc_bits 8 i)
    by (intros j Hj; unfold t0; by rewrite tget_tab256).
  pose (g := fun k n => Nat.iter k (fun crc =>
     Z.lxor (tget t0 (Z.land crc 0xff)) (Z.shiftr crc 8)) (tget t0 n)).
  change (tget (nth k (map (fun k => tab256 (fun n => swap (g k n))) (seq 0 8)) []) i =
          swap (crc_bits (8 * S k) i)).
  rewrite (nth_indep _ [] (tab256 (fun n => swap (g 0%nat n))))
    by (rewrite length_map, length_seq; lia).
  rewrite (map_nth (fun k => tab256 (fun n => swap (g k n)))), seq_nth by lia.
  rewrite tget_tab256 by done. f_equal. simpl plus. unfold g. rewrite Ht0 by done. clear Hk.
  induction k as [|j IH]; [done|].
  rewrite Nat.iter_succ, IH. cbv beta. rewrite table_step by done. rewrite <- crc_bits_add.
  f_equal. lia.
Qed.

Lemma sw_be_word_spec c w :
  is_u64 c -> is_u64 w -> sw_be_word (swap c) (swap w) = swap (sw_le_word c w).
Proof.
  intros Hc Hw. pose proof (lxor_range 64 c w ltac:(lia) Hc Hw) as Hx.
  unfold sw_be_word, sw_le_word. rewrite <- swap_lxor. set (x := Z.lxor c w) in *.
  assert (Hb : forall y, 0 <= Z.land y 0xff < 256) by (intros; rewrite land_ff; dlia).
  assert (H0 : forall y, is_u64 y -> Z.shiftr y 56 = Z.land (Z.shiftr y 56) 0xff).
  { intros y Hy. rewrite land_ff. symmetry. apply Z.mod_small.
    rewrite Z.shiftr_div_pow2 by lia. change (2 ^ 56) with 72057594037927936. dlia. }
  rewrite (H0 (swap x)), (H0 x) by (done || apply swap_range).
  rewrite <- (Z.shiftr_0_r (swap x)) at 1.
  rewrite !swap_get_byte by (done || lia).
  rewrite !table_be_le by (lia || apply Hb).
  change (56 - 0) with 56. change (56 - 8) with 48. change (56 - 16) with 40.
  change (56 - 24) with 32. change (56 - 32) with 24. change (56 - 40) with 16.
  change (56 - 48) with 8. change (56 - 56) with 0. rewrite Z.shiftr_0_r.
  rewrite <- !swap_lxor. f_equal.
  apply Z.bits_inj'. intros i _. rewrite !Z.lxor_spec.
  repeat match goal with |- context [Z.testbit ?a i] => destruct (Z.testbit a i) end; reflexivity.
Qed.

Lemma word_loop_map (g : Z -> Z) word fuel : forall c next,
  is_u32 c ->
  (forall c w, is_u32 c -> length w = 8%nat -> word (g c) w = g (crc_run c w)) ->
  word_loop word fuel (g c) next =
  (let '(c', next') := word_loop crc_run fuel c next in (g c', next')).
Proof.
  induction fuel as [|fuel IH]; intros c next Hc Hw; cbn [word_loop]; [done|].
  unfold zlen. destruct (Z.of_nat (length next) >=? 8) eqn:E; zb; [|done].
  rewrite Hw by (done || rewrite length_take; lia). apply IH; [by apply crc_run_range|done].
Qed.

Lemma crc32_sw_be_spec addr crc bs :
  is_u32 crc -> crc32_sw_be addr crc bs = crc32c crc bs.
Proof.
  intros Hc. apply not32_range in Hc. unfold crc32_sw_be, crc32c.
  assert (Hb : forall c b, is_u32 c -> sw_be_byte c b = crc_byte c b)
    by (intros; apply sw_le_byte_spec; lia).
  pose proof (align_loop_spec sw_be_byte addr _ bs Hc Hb) as Ha.
  destruct (align_loop _ _ _ _) as [c1 next1]. destruct Ha as [H1 E1].
  destruct (zlen next1 >=? 8); [|by rewrite (fold_step_spec _ _ _ H1 Hb), E1].
  rewrite (word_loop_map swap); [|done|].
  - pose proof (word_loop_spec crc_run (length next1) c1 next1) as Hw.
    destruct (word_loop _ _ _ _) as [c2 next2]. destruct Hw as (H2 & E2 & _); [done..|].
    rewrite swap_swap, u32_small by lia. by rewrite (fold_step_spec _ _ _ H2 Hb), E2, E1.
  - intros c w Hcu Hl. rewrite be_combine_swap by done.
    rewrite sw_be_word_spec, sw_le_word_spec by (lia || by apply le_combine_u64).
    by rewrite <- crc_bits_combine, Hl.
Qed.

(** ** The dispatch of [sc_crc32] on the build, and the claims *)

Inductive crc_build := HAVE_CRC32C | HAVE_BIG_ENDIAN | HAVE_NEITHER.

Definition sc_crc32 (mm_crc32_u8 mm_crc32_u64 : Z -> Z -> Z) (build : crc_build)
    (addr crc : Z) (buf : list byte) : Z :=
  match build with
  | HAVE_CRC32C => crc32_hw mm_crc32_u8 mm_crc32_u64 addr crc buf
  | HAVE_BIG_ENDIAN => crc32_sw_be addr crc buf
  | HAVE_NEITHER => crc32_sw_le addr crc buf
  end.

(** C31: every build of [sc_crc32] computes the same checksum, the bit-at-a-time
    CRC-32C, whatever the alignment and the length of the data: the slicing-by-8
    table versions on both byte orders and the three-way interleaved hardware
    version with its zero-operator tables. *)
Theorem sc_crc32_all_builds mm_crc32_u8 mm_crc32_u64 build addr crc buf :
  (forall c v, is_u32 c -> is_u8 v -> mm_crc32_u8 c v = crc_bits 8 (Z.lxor c v)) ->
  (forall c v, is_u32 c -> is_u64 v -> mm_crc32_u64 c v = crc_bits 64 (Z.lxor c v)) ->
  is_u32 crc ->
  sc_crc32 mm_crc32_u8 mm_crc32_u64 build addr crc buf = crc32c crc buf.
Proof.
  intros H8 H64 Hc. destruct build; simpl.
  - by apply crc32_hw_spec.
  - by apply crc32_sw_be_spec.
  - by apply crc32_sw_le_spec.
Qed.

(** The check value of CRC-32C: the checksum of the digits 1 to 9. *)
Lemma sc_crc32_all_builds_witness :
  sc_crc32 (fun c v => crc_bits 8 (Z.lxor c v)) (fun c v => crc_bits 64 (Z.lxor c v))
    HAVE_CRC32C 5 0 [x31; x32; x33; x34; x35; x36; x37; x38; x39] = 0xe3069283.
Proof.
  rewrite (sc_crc32_all_builds (fun c v => crc_bits 8 (Z.lxor c v))
             (fun c v => crc_bits 64 (Z.lxor c v)) HAVE_CRC32C 5 0).
  - reflexivity.
  - done.
  - done.
  - lia.
Defined.

Lemma not32_inv z : not32 (not32 z) = z.
Proof. unfold not32. by rewrite Z.lxor_assoc, Z.lxor_nilpotent, Z.lxor_0_r. Qed.

(** Checksums are incremental: what [entry_encode] relies on is the one-shot
    form, [crc32c_app] the chained one. *)
Lemma crc32c_app crc xs ys : crc32c (crc32c crc xs) ys = crc32c crc (xs ++ ys).
Proof. unfold crc32c. by rewrite not32_inv, crc_run_app. Qed.

Lemma crc_bit_inj a b : is_u32 a -> is_u32 b -> crc_bit a = crc_bit b -> a = b.
Proof.
  intros Ha Hb E.
  assert (Hx : is_u32 (Z.lxor a b)) by (by apply lxor_range).
  assert (E0 : crc_bit (Z.lxor a b) = 0) by (by rewrite crc_bit_lxor, E, Z.lxor_nilpotent).
  apply Z.lxor_eq. revert E0. unfold crc_bit. set (x := Z.lxor a b) in *.
  pose proof (Z.div2_odd x) as Ho. rewrite <- Z.div2_spec. destruct (Z.odd x) eqn:Hodd; intros E0.
  - apply Z.lxor_eq in E0. unfold POLY in E0. simpl Z.b2z in Ho. lia.
  - simpl Z.b2z in Ho. lia.
Qed.

Lemma crc_bits_inj n : forall a b, is_u32 a -> is_u32 b -> crc_bits n a = crc_bits n b -> a = b.
Proof.
  induction n as [|n IH]; intros a b Ha Hb E; [done|]. rewrite !crc_bits_S in E.
  apply crc_bit_inj; [done..|]. by apply IH; [apply crc_bit_range..|].
Qed.

Lemma lxor_cancel_l a b c : Z.lxor a b = Z.lxor a c -> b = c.
Proof.
  intros E. rewrite <- (Z.lxor_0_l b), <- (Z.lxor_0_l c), <- (Z.lxor_nilpotent a).
  by rewrite !Z.lxor_assoc, E.
Qed.

Lemma lxor_cancel_r a b c : Z.lxor b a = Z.lxor c a -> b = c.
Proof. rewrite !(Z.lxor_comm _ a). apply lxor_cancel_l. Qed.

(** The register determines the one before a common suffix. *)
Lemma crc_run_inj bs a b :
  is_u32 a -> is_u32 b -> crc_run a bs = crc_run b bs -> a = b.
Proof.
  intros Ha Hb E. rewrite (crc_run_split a), (crc_run_split b) in E.
  apply lxor_cancel_r in E. by eapply crc_bits_inj.
Qed.

(** What a checksum detects.  Two byte strings that differ only inside a
    window of at most four consecutive bytes (a torn 32-bit write, any burst
    inside it, any single flipped bit) have different checksums. *)
Theorem crc32c_detects_window crc pre w w' post :
  is_u32 crc -> length w = length w' -> (length w <= 4)%nat -> w <> w' ->
  crc32c crc (pre ++ w ++ post) <> crc32c crc (pre ++ w' ++ post).
Proof.
  intros Hc Hl H4 Hne E. apply Hne. unfold crc32c in E. apply lxor_cancel_r in E.
  apply not32_range in Hc. rewrite !crc_run_app in E. set (c := crc_run (not32 crc) pre) in *.
  assert (Hcu : is_u32 c) by by apply crc_run_range.
  apply crc_run_inj in E; [|by apply crc_run_range..].
  rewrite <- !crc_bits_combine, <- Hl in E.
  assert (Hr : forall v, length v = length w -> is_u32 (le_combine v)).
  { intros v Hv. pose proof (le_combine_range v) as H. rewrite Hv in H. split; [lia|].
    eapply Z.lt_le_trans; [apply H|]. apply Z.pow_le_mono_r; lia. }
  apply crc_bits_inj in E; [|apply lxor_range; [lia|done|by apply Hr]..].
  apply lxor_cancel_l in E. by apply le_combine_inj.
Qed.
