(* ===== verification/Entry.v ===== *)
(** * Log entries: src/entry.c

    An entry in a log page or a message is a byte string: checksum, length,
    term, sequence, client id, flags and the data.  [entry_encode] writes one
    into a buffer, [entry_decode] checks one, the accessors read the fields of
    an entry in memory.  The abstract entry is the record [entry], its byte
    string [enc_entry]. *)

From Stdlib Require Import ZArith Lia.
From Stdlib Require Import Strings.Byte.
From stdpp Require Import base list numbers.
From S2P Require Import Prelude Buf Crc32.

Definition ENTRY_CRC_LEN : Z := 4.
Definition ENTRY_HEADER_SIZE : Z := 36.
Definition ENTRY_CRC_OFFSET : Z := 0.
Definition ENTRY_LEN_OFFSET : Z := 4.
Definition ENTRY_TERM_OFFSET : Z := 8.
Definition ENTRY_SEQ_OFFSET : Z := 16.
Definition ENTRY_CID_OFFSET : Z := 24.
Definition ENTRY_FLAGS_OFFSET : Z := 32.
Definition ENTRY_DATA_OFFSET : Z := 36.

(** ** Accessors: [e] is the memory from the entry's first byte on. *)

Definition entry_get_64 (p : list byte) : Z := le_combine (mread p 0 8).
Definition entry_get_32 (p : list byte) : Z := le_combine (mread p 0 4).

Definition at_off (e : list byte) (off : Z) : list byte := drop (Z.to_nat off) e.

Definition entry_crc (e : list byte) : Z := entry_get_32 (at_off e ENTRY_CRC_OFFSET).
Definition entry_len (e : list byte) : Z := entry_get_32 (at_off e ENTRY_LEN_OFFSET).
Definition entry_term (e : list byte) : Z := entry_get_64 (at_off e ENTRY_TERM_OFFSET).
Definition entry_seq (e : list byte) : Z := entry_get_64 (at_off e ENTRY_SEQ_OFFSET).
Definition entry_cid (e : list byte) : Z := entry_get_64 (at_off e ENTRY_CID_OFFSET).
Definition entry_flags (e : list byte) : Z := entry_get_32 (at_off e ENTRY_FLAGS_OFFSET).
Definition entry_data (e : list byte) : list byte := at_off e ENTRY_DATA_OFFSET.
Definition entry_data_len (e : list byte) : Z := entry_len e -₃₂ ENTRY_HEADER_SIZE.

Definition entry_encoded_len (len : Z) : Z := ENTRY_HEADER_SIZE +₃₂ len.

(** ** Encoder and decoder *)

Definition entry_encode (b : sc_buf) (term seq cid flags : Z) (data : list byte) : sc_buf :=
  let enc := entry_encoded_len (zlen data) in
  let head := b_wpos b in
  let b := snd (sc_buf_reserve b enc) in
  let b := sc_buf_set_wpos b (head +₃₂ ENTRY_LEN_OFFSET) in
  let b := sc_buf_put_32 b enc in
  let b := sc_buf_put_64 b term in
  let b := sc_buf_put_64 b seq in
  let b := sc_buf_put_64 b cid in
  let b := sc_buf_put_32 b flags in
  let b := sc_buf_put_raw b data in
  let crc := crc32c 0 (mread (b_mem b) (head + ENTRY_CRC_LEN) (enc -₃₂ ENTRY_CRC_LEN)) in
  sc_buf_set_32_at b head crc.

Definition entry_decode (b : sc_buf) : rs_rc * sc_buf :=
  let head := b_rpos b in
  let '(crc_val, b) := sc_buf_get_32 b in
  let '(len, b) := sc_buf_peek_32 b in
  let read_pos := b_rpos b in
  if negb (sc_buf_valid b) || (len -₃₂ ENTRY_CRC_LEN >? sc_buf_size b)
  then (RS_ERROR, sc_buf_set_rpos b head)
  else
    let crc_calc := crc32c 0 (mread (b_mem b) read_pos (len -₃₂ ENTRY_CRC_LEN)) in
    if negb (crc_val =? crc_calc) then (RS_ERROR, sc_buf_set_rpos b head)
    else (RS_OK, sc_buf_set_rpos b (head +₃₂ len)).

(** ** The byte string of an entry *)

Record entry := mk_entry {
  e_term : Z;
  e_seq : Z;
  e_cid : Z;
  e_flags : Z;
  e_data : list byte
}.

#[export] Instance entry_eq_dec : EqDecision entry.
Proof. solve_decision. Defined.

Record entry_ok (e : entry) : Prop := {
  ok_term : is_u64 (e_term e);
  ok_seq : is_u64 (e_seq e);
  ok_cid : is_u64 (e_cid e);
  ok_flags : is_u32 (e_flags e);
  ok_data : ENTRY_HEADER_SIZE + zlen (e_data e) < 2 ^ 32
}.

#[export] Instance entry_ok_dec e : Decision (entry_ok e).
Proof.
  refine (cast_if (decide ((is_u64 (e_term e) /\ is_u64 (e_seq e)) /\
    (is_u64 (e_cid e) /\ is_u32 (e_flags e)) /\ ENTRY_HEADER_SIZE + zlen (e_data e) < 2 ^ 32)));
    [split; tauto|intros []; tauto].
Defined.

Definition entry_size (e : entry) : Z := ENTRY_HEADER_SIZE + zlen (e_data e).

Definition entry_header (e : entry) : list field :=
  [FInt 4 (entry_size e); FInt 8 (e_term e); FInt 8 (e_seq e);
   FInt 8 (e_cid e); FInt 4 (e_flags e)].

(** Everything but the checksum, and the whole entry. *)
Definition enc_body (e : entry) : list byte := enc_fields (entry_header e) ++ e_data e.
Definition enc_entry (e : entry) : list byte := le_split 4 (crc32c 0 (enc_body e)) ++ enc_body e.

Lemma zlen_enc_body e : zlen (enc_body e) = entry_size e - 4.
Proof.
  unfold enc_body, enc_fields, entry_header, entry_size, ENTRY_HEADER_SIZE. cbn [map concat enc_field].
  rewrite !zlen_app, !zlen_le_split. change (zlen []) with 0. lia.
Qed.

Lemma zlen_enc_entry e : zlen (enc_entry e) = entry_size e.
Proof. unfold enc_entry. rewrite zlen_app, zlen_le_split, zlen_enc_body. lia. Qed.

Lemma entry_size_min e : ENTRY_HEADER_SIZE <= entry_size e.
Proof. unfold entry_size. pose proof (zlen_nonneg (e_data e)). lia. Qed.

(** ** The accessors read the fields back *)

Lemma mread_app_l xs ys n : zlen xs = n -> mread (xs ++ ys) 0 n = xs.
Proof. intros <-. unfold mread, zlen. rewrite Nat2Z.id. apply take_app_length. Qed.

Lemma at_off_app xs ys n : zlen xs = n -> at_off (xs ++ ys) n = ys.
Proof. intros <-. unfold at_off, zlen. rewrite Nat2Z.id. apply drop_app_length. Qed.

Lemma get_le n v rest :
  0 <= v < 2 ^ (8 * Z.of_nat n) -> le_combine (mread (le_split n v ++ rest) 0 (Z.of_nat n)) = v.
Proof.
  intros Hv. rewrite mread_app_l by apply zlen_le_split.
  rewrite le_combine_split. by apply Z.mod_small.
Qed.

(** The position of each field in the byte string. *)
Lemma enc_entry_layout e rest :
  let crc := le_split 4 (crc32c 0 (enc_body e)) in
  let len := le_split 4 (entry_size e) in
  let term := le_split 8 (e_term e) in
  let seq := le_split 8 (e_seq e) in
  let cid := le_split 8 (e_cid e) in
  let flags := le_split 4 (e_flags e) in
  enc_entry e ++ rest = crc ++ len ++ term ++ seq ++ cid ++ flags ++ e_data e ++ rest.
Proof.
  simpl. unfold enc_entry, enc_body, enc_fields, entry_header. cbn [map concat enc_field].
  by rewrite app_nil_r, <- !app_assoc.
Qed.

Lemma at_off_skip xs ys n m : zlen xs = n -> n <= m -> at_off (xs ++ ys) m = at_off ys (m - n).
Proof.
  intros <- Hm. unfold at_off, zlen in *. rewrite drop_app_ge by lia. f_equal. lia.
Qed.

(** Move to the field of an encoded entry that starts at the offset. *)
Ltac at_field :=
  rewrite enc_entry_layout;
  repeat (erewrite at_off_skip; [|apply zlen_le_split|vm_compute; congruence]);
  match goal with |- context [at_off ?l ?o] => change (at_off l o) with l end.

Section Fields.
Context (e : entry) (rest : list byte).

Lemma entry_crc_enc : entry_crc (enc_entry e ++ rest) = crc32c 0 (enc_body e).
Proof. unfold entry_crc, entry_get_32. at_field. apply (get_le 4), crc32c_range. lia. Qed.

Context (Hok : entry_ok e).

Lemma entry_size_u32 : is_u32 (entry_size e).
Proof.
  pose proof (entry_size_min e). destruct Hok. unfold entry_size, ENTRY_HEADER_SIZE in *. lia.
Qed.

Lemma entry_len_enc : entry_len (enc_entry e ++ rest) = entry_size e.
Proof. unfold entry_len, entry_get_32. at_field. apply (get_le 4), entry_size_u32. Qed.

Lemma entry_term_enc : entry_term (enc_entry e ++ rest) = e_term e.
Proof. unfold entry_term, entry_get_64. at_field. apply (get_le 8), Hok. Qed.

Lemma entry_seq_enc : entry_seq (enc_entry e ++ rest) = e_seq e.
Proof. unfold entry_seq, entry_get_64. at_field. apply (get_le 8), Hok. Qed.

Lemma entry_cid_enc : entry_cid (enc_entry e ++ rest) = e_cid e.
Proof. unfold entry_cid, entry_get_64. at_field. apply (get_le 8), Hok. Qed.

Lemma entry_flags_enc : entry_flags (enc_entry e ++ rest) = e_flags e.
Proof. unfold entry_flags, entry_get_32. at_field. apply (get_le 4), Hok. Qed.

Lemma entry_data_enc : entry_data (enc_entry e ++ rest) = e_data e ++ rest.
Proof. unfold entry_data. by at_field. Qed.

Lemma entry_data_len_enc : entry_data_len (enc_entry e ++ rest) = zlen (e_data e).
Proof.
  unfold entry_data_len. rewrite entry_len_enc. unfold entry_size.
  pose proof (zlen_nonneg (e_data e)). destruct Hok. unfold ENTRY_HEADER_SIZE in *.
  rewrite u32_small by lia. lia.
Qed.

End Fields.

(** The entry that the accessors see at an address. *)
Definition view_entry (m : list byte) : entry :=
  mk_entry (entry_term m) (entry_seq m) (entry_cid m) (entry_flags m)
    (take (Z.to_nat (entry_data_len m)) (entry_data m)).

Lemma view_enc_entry e rest : entry_ok e -> view_entry (enc_entry e ++ rest) = e.
Proof.
  intros Hok. unfold view_entry.
  rewrite entry_term_enc, entry_seq_enc, entry_cid_enc, entry_flags_enc, entry_data_len_enc,
    entry_data_enc by done.
  unfold zlen. rewrite Nat2Z.id, take_app_length. by destruct e.
Qed.

(** ** Encoding *)

Lemma header_fields_ok e : entry_ok e -> Forall field_ok (entry_header e).
Proof.
  intros Hok. pose proof (entry_size_u32 e Hok). destruct Hok.
  unfold entry_header, entry_size in *.
  repeat apply Forall_cons_2; try apply Forall_nil_2; simpl; lia.
Qed.

(** Four bytes reserved, a body appended, the four bytes filled in. *)
Lemma appended_fill b gap body b' crc :
  buf_wf b -> zlen gap = 4 -> appended b (gap ++ body) b' -> b_err b' = 0 ->
  appended b (le_split 4 crc ++ body) (sc_buf_set_32_at b' (b_wpos b) crc).
Proof.
  intros Hwf Hg Ha He. rewrite (a_err _ _ _ Ha) in He. unfold sc_buf_set_32_at, sc_buf_set_32_pos.
  rewrite <- (Z.add_0_r (b_wpos b)). apply (appended_patch b [] gap); try done. unfold zlen in Hg. lia.
Qed.

(** Moving the write position over reserved bytes appends what they hold. *)
Lemma appended_skip b n :
  buf_wf b -> 0 <= n -> b_wpos b + n <= b_cap b ->
  appended b (mread (b_mem b) (b_wpos b) n) (sc_buf_set_wpos b (b_wpos b + n)).
Proof.
  intros Hwf Hn Hc. pose proof Hwf as []. unfold sc_buf_set_wpos. zif.
  split; simpl; try done; try lia.
  - split; simpl; done || lia.
  - unfold written. simpl. rewrite mread_split by lia. done.
Qed.

Lemma put_header b e :
  sc_buf_put_32 (sc_buf_put_64 (sc_buf_put_64 (sc_buf_put_64
    (sc_buf_put_32 b (entry_size e)) (e_term e)) (e_seq e)) (e_cid e)) (e_flags e) =
  put_fields b (entry_header e).
Proof.
  unfold entry_header, sc_buf_put_32, sc_buf_put_64. by cbn [put_fields put_field].
Qed.

Lemma put_body_outcome b e :
  buf_wf b -> no_wrap b (zlen (enc_body e)) ->
  put_outcome b (enc_body e) (sc_buf_put_raw (put_fields b (entry_header e)) (e_data e)).
Proof.
  intros Hwf Hw. unfold enc_body in *. rewrite zlen_app in Hw. unfold no_wrap in *.
  pose proof (zlen_nonneg (e_data e)). pose proof (zlen_nonneg (enc_fields (entry_header e))).
  eapply put_outcome_trans; [done|apply put_fields_outcome; [done|unfold no_wrap; lia]|].
  intros Hwf3 Hw3 Hc3. apply sc_buf_put_raw_outcome; [done|]. unfold no_wrap. lia.
Qed.

Lemma entry_encode_appends b e :
  buf_wf b -> b_err b = 0 -> entry_ok e ->
  room b (entry_size e) -> no_wrap b (entry_size e) ->
  appended b (enc_entry e)
    (entry_encode b (e_term e) (e_seq e) (e_cid e) (e_flags e) (e_data e)).
Proof.
  intros Hwf He Hok Hr Hw. pose proof (entry_size_u32 e Hok) as Hu.
  pose proof (entry_size_min e) as Hm. unfold ENTRY_HEADER_SIZE in Hm.
  unfold entry_encode, entry_encoded_len. fold (entry_size e).
  rewrite (u32_small (entry_size e)) by done.
  destruct (sc_buf_reserve_ok b (entry_size e)) as (b1 & -> & Ha1 & Hc1); [done|lia|done..|].
  cbn [snd]. pose proof (a_wf _ _ _ Ha1) as Hwf1. pose proof Hwf1 as [].
  pose proof (a_wpos _ _ _ Hwf Ha1) as Hw1. change (zlen []) with 0 in Hw1. rewrite Z.add_0_r in Hw1.
  unfold ENTRY_LEN_OFFSET, ENTRY_CRC_LEN. rewrite <- Hw1, (u32_small (b_wpos b1 + 4)) by lia.
  pose proof (appended_skip b1 4 Hwf1 ltac:(lia) ltac:(lia)) as Ha2.
  set (b2 := sc_buf_set_wpos b1 _) in *. set (gap := mread _ _ _) in *.
  assert (Hg : zlen gap = 4) by (apply zlen_mread; lia).
  rewrite put_header.
  pose proof (a_wpos _ _ _ Hwf1 Ha2) as Hw2. pose proof (a_cap _ _ _ Ha2) as Hc2.
  pose proof (a_wf _ _ _ Ha2) as Hwf2. pose proof (zlen_enc_body e) as Hz.
  pose proof (put_body_outcome b2 e Hwf2 ltac:(left; lia)) as Hbody.
  apply put_outcome_ok in Hbody; [|by rewrite (a_err _ _ _ Ha2), (a_err _ _ _ Ha1)|left; lia].
  set (b3 := sc_buf_put_raw _ _) in *.
  assert (Ha : appended b (gap ++ enc_body e) b3).
  { apply (appended_trans b [] _ b1); [done|]. by apply (appended_trans b1 _ _ b2). }
  pose proof (appended_tail _ _ _ Hwf2 Hbody) as Ht. rewrite Hz, Hw2, Hg in Ht.
  rewrite u32_small, Ht, Hw1 by lia. unfold enc_entry.
  apply (appended_fill b gap); try done. by rewrite (a_err _ _ _ Ha).
Qed.

(** ** Decoding *)

(** What [entry_decode] accepts at the front of the readable bytes, for any
    bytes at all: the checksum, a length of at least four bytes and the bytes it
    covers. *)
Definition decodes (q : list byte) : option Z :=
  let len := entry_len q in
  if (8 <=? zlen q) && (4 <=? len) && (len <=? zlen q) &&
     (entry_crc q =? crc32c 0 (mread q 4 (len - 4)))
  then Some len else None.

Lemma with_rpos_twice b r r' : with_rpos (with_rpos b r) r' = with_rpos b r'.
Proof. done. Qed.

Lemma with_rpos_id b : with_rpos b (b_rpos b) = b.
Proof. by destruct b. Qed.

Lemma mread_at_off q off n : mread (at_off q off) 0 n = mread q off n.
Proof. done. Qed.

Lemma mread_contents b off n :
  buf_wf b -> 0 <= off -> 0 <= n -> off + n <= b_wpos b - b_rpos b ->
  mread (contents b) off n = mread (b_mem b) (b_rpos b + off) n.
Proof. intros [] ???. unfold contents. apply mread_mread; lia. Qed.

(** Too few bytes for the checksum and the length. *)
Lemma entry_decode_short b :
  buf_wf b -> b_err b = 0 -> b_wpos b - b_rpos b < 8 ->
  entry_decode b = (RS_ERROR, or_err b SC_BUF_CORRUPT).
Proof.
  intros Hwf He Hs. pose proof Hwf as [].
  unfold entry_decode, sc_buf_get_32, sc_buf_get, sc_buf_peek_32, sc_buf_peek_32_at,
    sc_buf_peek_32_pos, sc_buf_peek_pos, sc_buf_set_rpos, sc_buf_valid, or_err.
  rewrite He. destruct (Z.gtb_spec (b_rpos b + Z.of_nat 4) (b_wpos b)) as [H4|H4]; simpl.
  - rewrite Z.add_0_r, (u32_small (b_rpos b)) by lia. zif. simpl. zif. reflexivity.
  - rewrite u32_small by lia. zif. simpl. rewrite He. zif. done.
Qed.

Lemma entry_decode_eq b :
  buf_wf b -> b_err b = 0 ->
  entry_decode b =
  match decodes (contents b) with
  | Some len => (RS_OK, with_rpos b (b_rpos b + len))
  | None => (RS_ERROR, if zlen (contents b) <? 8 then or_err b SC_BUF_CORRUPT else b)
  end.
Proof.
  intros Hwf He. pose proof Hwf as []. pose proof (zlen_contents b Hwf) as Hz.
  unfold decodes. rewrite Hz. destruct (Z.leb_spec 8 (b_wpos b - b_rpos b)) as [H8|H8].
  2: { simpl. zif. apply entry_decode_short; done || lia. }
  simpl andb. unfold entry_len, entry_crc, entry_get_32, ENTRY_LEN_OFFSET, ENTRY_CRC_OFFSET.
  rewrite !mread_at_off, !mread_contents, Z.add_0_r by (done || lia).
  unfold entry_decode, sc_buf_get_32, sc_buf_get, sc_buf_peek_32, sc_buf_peek_32_at,
    sc_buf_peek_32_pos, sc_buf_peek_pos. change (Z.of_nat 4) with 4. zif. cbv beta iota.
  cbn [b_rpos with_rpos b_wpos]. rewrite (u32_small (b_rpos b + 4)) by lia. zif.
  cbn [b_rpos with_rpos b_mem].
  set (len := le_combine (mread (b_mem b) (b_rpos b + 4) 4)).
  assert (Hlen : is_u32 len).
  { pose proof (le_combine_range (mread (b_mem b) (b_rpos b + 4) 4)) as H.
    replace (length _) with 4%nat in H; [done|]. apply Nat2Z.inj.
    symmetry. apply (zlen_mread (b_mem b) (b_rpos b + 4) 4); lia. }
  unfold sc_buf_valid, ENTRY_CRC_LEN. cbn [b_err with_rpos]. rewrite He. cbn [Z.eqb negb orb].
  rewrite sc_buf_size_wf by (apply wf_with_rpos; [done|lia]). cbn [b_rpos b_wpos with_rpos].
  assert (Hset : forall p, 0 <= p <= b_wpos b ->
    sc_buf_set_rpos (with_rpos b (b_rpos b + 4)) p = with_rpos b p).
  { intros p Hp. unfold sc_buf_set_rpos. cbn [b_wpos with_rpos]. by zif. }
  rewrite (Hset (b_rpos b)), with_rpos_id by lia.
  destruct (Z.leb_spec 4 len) as [Hl4|Hl4].
  2: { simpl. rewrite if_true; [done|]. unfold u32.
       rewrite <- (Z.mod_add _ 1) by lia. rewrite Z.mod_small by lia. zbool_solve. }
  rewrite u32_small by lia. destruct (Z.leb_spec len (b_wpos b - b_rpos b)) as [Hls|Hls].
  2: { simpl. by zif. }
  simpl andb. rewrite mread_contents by (done || lia). zif.
  destruct (_ =? _); simpl; [|done]. by rewrite u32_small, Hset by lia.
Qed.

Lemma decodes_enc e rest :
  entry_ok e -> decodes (enc_entry e ++ rest) = Some (entry_size e).
Proof.
  intros Hok. unfold decodes. rewrite entry_len_enc, entry_crc_enc by done.
  rewrite zlen_app, zlen_enc_entry. pose proof (entry_size_min e). unfold ENTRY_HEADER_SIZE in *.
  pose proof (zlen_nonneg rest).
  rewrite (proj2 (Z.leb_le 8 _)), (proj2 (Z.leb_le 4 _)), (proj2 (Z.leb_le (entry_size e) _)) by lia.
  replace (mread _ _ _) with (enc_body e); [by rewrite Z.eqb_refl|].
  unfold enc_entry. rewrite <- app_assoc, <- mread_at_off, (at_off_app _ _ 4) by apply zlen_le_split.
  symmetry. apply mread_app_l, zlen_enc_body.
Qed.

(** entry round trip.  Encoding an entry appends its byte string; decoding
    that string succeeds, consumes exactly the entry, and the accessors on it
    return the term, sequence, client id, flags, data and data length that were
    encoded. *)
Theorem entry_roundtrip b e :
  buf_wf b -> b_err b = 0 -> contents b = [] -> entry_ok e ->
  room b (entry_size e) -> no_wrap b (entry_size e) ->
  let b1 := entry_encode b (e_term e) (e_seq e) (e_cid e) (e_flags e) (e_data e) in
  sc_buf_size b1 = entry_encoded_len (zlen (e_data e)) /\
  view_entry (contents b1) = e /\
  entry_decode b1 = (RS_OK, with_rpos b1 (b_wpos b1)).
Proof.
  intros Hwf He Hc Hok Hr Hw b1.
  pose proof (entry_encode_appends b e Hwf He Hok Hr Hw) as Ha. fold b1 in Ha.
  pose proof (appended_contents _ _ _ Hwf Ha) as E. rewrite Hc in E. simpl in E.
  pose proof (a_wf _ _ _ Ha) as Hwf1. pose proof (zlen_contents b1 Hwf1) as Hz.
  rewrite E, zlen_enc_entry in Hz. split_and!.
  - rewrite sc_buf_size_wf by done. rewrite <- Hz. unfold entry_encoded_len.
    symmetry. apply u32_small, (entry_size_u32 e Hok).
  - rewrite E, <- (app_nil_r (enc_entry e)). by apply view_enc_entry.
  - rewrite entry_decode_eq by (done || by rewrite (a_err _ _ _ Ha)).
    rewrite E, <- (app_nil_r (enc_entry e)), decodes_enc by done. do 2 f_equal. lia.
Qed.

Lemma entry_roundtrip_witness :
  let e := mk_entry 3 7 42 1 [xde; xad] in
  let b1 := entry_encode (sc_buf_init 16) 3 7 42 1 [xde; xad] in
  view_entry (contents b1) = e /\ entry_decode b1 = (RS_OK, with_rpos b1 (b_wpos b1)).
Proof.
  intros e b1. apply (entry_roundtrip (sc_buf_init 16) e).
  - apply wf_init. lia.
  - reflexivity.
  - reflexivity.
  - apply (bool_decide_unpack _). reflexivity.
  - right. split; [reflexivity|]. vm_compute. discriminate.
  - right. vm_compute. reflexivity.
Defined.

(** C23: [entry_decode] on arbitrary bytes.  It accepts exactly when the readable
    bytes start with a checksum and a length of at least four, at most the
    readable size, whose checksum matches; it then advances by the length.
    Otherwise it reports an error and the read position is where it was. *)
Theorem entry_decode_total b :
  buf_wf b -> b_err b = 0 ->
  match decodes (contents b) with
  | Some len => entry_decode b = (RS_OK, with_rpos b (b_rpos b + len)) /\
      4 <= len <= sc_buf_size b
  | None => exists b', entry_decode b = (RS_ERROR, b') /\
      b_rpos b' = b_rpos b /\ b_wpos b' = b_wpos b /\ b_mem b' = b_mem b
  end.
Proof.
  intros Hwf He. rewrite entry_decode_eq by done.
  destruct (decodes (contents b)) as [len|] eqn:E.
  - split; [done|]. unfold decodes in E. revert E. case_if; [|done]. intros [= <-].
    rewrite sc_buf_size_wf, <- zlen_contents by done. zb. lia.
  - eexists. split; [done|]. by case_if.
Qed.

Lemma entry_decode_total_witness :
  exists b', entry_decode (sc_buf_wrap [x00; x00; x00; x00; x02; x00; x00; x00] 8 SC_BUF_READ)
             = (RS_ERROR, b') /\ b_rpos b' = 0.
Proof.
  destruct (entry_decode_total
    (sc_buf_wrap [x00; x00; x00; x00; x02; x00; x00; x00] 8 SC_BUF_READ)) as (b' & H & Hr & _).
  - apply (wf_wrap [x00; x00; x00; x00; x02; x00; x00; x00]). vm_compute. reflexivity.
  - reflexivity.
  - exists b'. by split.
Defined.
