(* ===== verification/Page.v ===== *)
(** * Log pages: src/page.c

    A page is a memory-mapped file: a header of 32 bytes with the index before
    the first entry, then the entries one after another, then an end mark.  The
    buffer [p_buf] wraps the mapping, so its memory is the file's content;
    entry pointers are offsets into it.  [page_fsync] and its callers return the
    ranges given to [msync].  A page represents a list of entries
    ([page_repr]); every operation is shown to act on that list, and opening the
    file again gives the list back. *)

From Stdlib Require Import ZArith Lia.
From Stdlib Require Import Strings.Byte.
From stdpp Require Import base list numbers.
From S2P Require Import Prelude Sc Buf Crc32 Entry.

Definition PAGE_END_MARK : Z := 0.
Definition PAGE_END_MARK_LEN : Z := 4.
Definition PAGE_VERSION_OFFSET : Z := 0.
Definition PAGE_HEADER_LEN : Z := 32.
Definition PAGE_VERSION : Z := 1.
Definition PAGE_CRC_OFFSET : Z := 28.
Definition PAGE_PREV_INDEX_OFFSET : Z := 8.
Definition PAGE_MAX_SIZE : Z := 2 * 1024 * 1024 * 1024.
Definition PAGE_INITIAL_SIZE : Z := 32 * 1024 * 1024.

(** [struct page]: [p_map_len] is [map.len]; [map.ptr] is [buf.mem]. *)
Record page := mk_page {
  p_init : bool;
  p_map_len : Z;
  p_prev_index : Z;
  p_flush_pos : Z;
  p_flush_index : Z;
  p_buf : sc_buf;
  p_entries : list Z
}.

Definition with_buf (p : page) (b : sc_buf) : page :=
  mk_page (p_init p) (p_map_len p) (p_prev_index p) (p_flush_pos p) (p_flush_index p) b (p_entries p).
Definition with_entries (p : page) (es : list Z) : page :=
  mk_page (p_init p) (p_map_len p) (p_prev_index p) (p_flush_pos p) (p_flush_index p) (p_buf p) es.
Definition with_flush (p : page) (pos index : Z) : page :=
  mk_page (p_init p) (p_map_len p) (p_prev_index p) pos index (p_buf p) (p_entries p).

(** The entry behind an entry pointer. *)
Definition entry_ptr (p : page) (off : Z) : list byte := at_off (b_mem (p_buf p)) off.

(** A range handed to [sc_mmap_msync]: offset and length. *)
Definition msync : Type := Z * Z.

(** ** Accessors *)

Definition page_isempty (p : page) : bool := zlen (p_entries p) =? 0.
Definition page_entry_count (p : page) : Z := u32 (zlen (p_entries p)).
Definition page_prev_index (p : page) : Z := p_prev_index p.
Definition page_last_index (p : page) : Z := p_prev_index p +₆₄ zlen (p_entries p).

(** [sc_array_last] of a non-empty array; [None] for the assertion. *)
Definition page_last_entry (p : page) : option Z := list.last (p_entries p).
Definition page_last_term (p : page) : option Z :=
  match page_last_entry p with
  | Some off => Some (entry_term (entry_ptr p off))
  | None => None
  end.

Definition page_quota (p : page) : Z :=
  u32 (u32 (sc_buf_quota (p_buf p) - ENTRY_HEADER_SIZE) - PAGE_END_MARK_LEN).
Definition page_cap (p : page) : Z :=
  u32 (b_cap (p_buf p) - PAGE_HEADER_LEN - ENTRY_HEADER_SIZE - PAGE_END_MARK_LEN).
Definition page_last_part (p : page) : bool := b_wpos (p_buf p) >=? PAGE_MAX_SIZE / 2.

(** ** Operations *)

Definition page_fsync (p : page) (index : Z) : page * list msync :=
  if (index <=? p_prev_index p) || (index >? page_last_index p) || (p_flush_index p >=? index)
  then (p, [])
  else
    let pos := b_wpos (p_buf p) in
    if p_flush_pos p >=? pos then (p, [])
    else (with_flush p pos (page_last_index p), [(p_flush_pos p, pos - p_flush_pos p)]).

Definition page_clear (p : page) (prev_index : Z) : page * list msync :=
  let mem := mwrite (b_mem (p_buf p)) 0 (replicate (Z.to_nat PAGE_HEADER_LEN) x00) in
  let buf := sc_buf_wrap mem (u32 (p_map_len p)) SC_BUF_REF in
  let buf := sc_buf_set_32_at buf PAGE_VERSION_OFFSET PAGE_VERSION in
  let buf := sc_buf_set_64_at buf PAGE_PREV_INDEX_OFFSET prev_index in
  let crc := crc32c 0 (mread (b_mem buf) 0 (PAGE_HEADER_LEN - 4)) in
  let buf := sc_buf_set_32_at buf PAGE_CRC_OFFSET crc in
  let buf := sc_buf_set_wpos buf PAGE_HEADER_LEN in
  let buf := sc_buf_set_32_at buf PAGE_HEADER_LEN PAGE_END_MARK in
  page_fsync (mk_page (p_init p) (p_map_len p) prev_index 0 0 buf []) 0.

(** The loop of [page_read].  [sc_buf_peek_32] with four bytes left does not
    change the buffer; an accepted entry is at least four bytes long, so the
    number of remaining bytes bounds the iterations. *)
Fixpoint page_read_loop (fuel : nat) (b : sc_buf) (entries : list Z) : sc_buf * list Z :=
  match fuel with
  | O => (b, entries)
  | S fuel =>
      let remaining := sc_buf_size b in
      if (remaining =? 0) ||
         ((remaining >=? PAGE_END_MARK_LEN) && (fst (sc_buf_peek_32 b) =? PAGE_END_MARK))
      then (b, entries)
      else if remaining <? ENTRY_HEADER_SIZE then (b, entries)
      else
        let entry := b_rpos b in
        let '(rc, b) := entry_decode b in
        if negb (bool_decide (rc = RS_OK)) then (b, entries)
        else page_read_loop fuel b (entries ++ [entry])
  end.

Definition page_read (p : page) : page :=
  let '(buf, entries) := page_read_loop (S (length (b_mem (p_buf p)))) (p_buf p) [] in
  let read_pos := b_rpos buf in
  let buf := sc_buf_set_wpos buf read_pos in
  with_entries (with_buf p buf) entries.

(** [page_init] after a successful [sc_mmap_init]: [mem] is the mapped file. *)
Definition page_open (mem : list byte) (prev_index : Z) : page * list msync :=
  let len := u32 (zlen mem) in
  let buf := sc_buf_wrap mem len SC_BUF_REF in
  let buf := sc_buf_set_wpos buf len in
  let '(crc_val, buf) := sc_buf_peek_32_at buf PAGE_CRC_OFFSET in
  let crc_calc := crc32c 0 (mread (b_mem buf) 0 (PAGE_HEADER_LEN - 4)) in
  if negb (crc_calc =? crc_val)
  then page_clear (mk_page true (zlen mem) 0 0 0 buf []) prev_index
  else
    let '(prev, buf) := sc_buf_peek_64_at buf PAGE_PREV_INDEX_OFFSET in
    let buf := sc_buf_set_wpos buf len in
    let buf := sc_buf_set_rpos buf PAGE_HEADER_LEN in
    (page_read (mk_page true (zlen mem) prev 0 0 buf []), []).

(** The outcome of [sc_mmap_init]: the file is created if needed and extended
    with zeros to the length, or the call fails, with [ENOSPC] or another error. *)
Inductive mmap_result := MMAP_OK | MMAP_ENOSPC | MMAP_ERROR.

(** [file] is the file at the path before the call, [None] if there is none. *)
Definition page_init (p : page) (file : option (list byte)) (mmap : mmap_result)
    (len prev_index : Z) : rs_rc * page * list msync :=
  let failed := mk_page false (p_map_len p) (p_prev_index p) (p_flush_pos p)
                  (p_flush_index p) (p_buf p) (p_entries p) in
  if len >? PAGE_MAX_SIZE then (RS_ERROR, failed, [])
  else
    let file_len := match file with Some f => zlen f | None => -1 end in
    let len := Z.max len file_len in
    let len := Z.max len PAGE_INITIAL_SIZE in
    match mmap with
    | MMAP_ENOSPC => (RS_FULL, failed, [])
    | MMAP_ERROR => (RS_ERROR, failed, [])
    | MMAP_OK =>
        let '(p, syncs) := page_open (mrealloc (default [] file) len) prev_index in
        (RS_OK, p, syncs)
    end.

(** The file keeps the mapped content ([MAP_SHARED]). *)
Definition page_term (p : page) : list msync :=
  if negb (p_init p) then [] else snd (page_fsync p (page_last_index p)).

(** The loop of [page_reserve]; the capacity at least doubles, 32 rounds pass
    [PAGE_MAX_SIZE]. *)
Fixpoint reserve_loop (fuel : nat) (cap need : Z) : Z :=
  match fuel with
  | O => cap
  | S fuel =>
      if (cap <=? PAGE_MAX_SIZE) && (cap <? need)
      then reserve_loop fuel (sc_to_pow2 (cap + 1)) need
      else cap
  end.

(** [mmap1] and [mmap2]: the outcome of mapping the grown file and, if that
    fails, of mapping the old one again. *)
Definition page_reserve (p : page) (size : Z) (mmap1 mmap2 : mmap_result)
    : rs_rc * page * list msync :=
  let count := p_map_len p -₆₄ page_quota p in
  let prev_index := p_prev_index p in
  let last_index := page_last_index p in
  let entry_count := page_entry_count p in
  if page_quota p >=? size then (RS_OK, p, [])
  else
    let cap := reserve_loop 64 (p_map_len p) (count +₆₄ size) in
    if cap >? PAGE_MAX_SIZE then (RS_FULL, p, [])
    else
      let file := Some (b_mem (p_buf p)) in
      let s1 := page_term p in
      let check (ret : rs_rc) (p : page) (s : list msync) :=
        if negb (prev_index =? p_prev_index p) || negb (last_index =? page_last_index p) ||
           negb (entry_count =? page_entry_count p)
        then (RS_ERROR, p, s) else (ret, p, s) in
      let '(rc, p1, s2) := page_init p file mmap1 cap (p_prev_index p) in
      if negb (bool_decide (rc = RS_OK)) then
        let '(rc, p2, s3) := page_init p1 file mmap2 (-1) (p_prev_index p1) in
        if negb (bool_decide (rc = RS_OK)) then (RS_ERROR, p2, s1 ++ s2 ++ s3)
        else check RS_FULL p2 (s1 ++ s2 ++ s3)
      else check RS_OK p1 (s1 ++ s2).

(** [None]: the assertion on the quota fails and the process aborts. *)
Definition page_create_entry (p : page) (term seq cid flags : Z) (data : list byte)
    : option page :=
  let entry := b_wpos (p_buf p) in
  let p := with_entries p (p_entries p ++ [entry]) in
  if negb (entry_encoded_len (zlen data) <=? page_quota p) then None
  else
    let buf := entry_encode (p_buf p) term seq cid flags data in
    let buf := sc_buf_set_32 buf PAGE_END_MARK in
    Some (with_buf p buf).

(** [e] is the memory at the entry pointer. *)
Definition page_put_entry (p : page) (e : list byte) : option page :=
  if negb (entry_len e <=? page_quota p) then None
  else
    let len := entry_len e -₃₂ ENTRY_CRC_LEN in
    let crc0 := entry_crc e in
    let d := at_off e ENTRY_CRC_LEN in
    if negb (crc0 =? crc32c 0 (mread d 0 len)) then None
    else
      let p := with_entries p (p_entries p ++ [b_wpos (p_buf p)]) in
      let buf := sc_buf_put_raw (p_buf p) (mread e 0 (entry_len e)) in
      let buf := sc_buf_set_32 buf PAGE_END_MARK in
      Some (with_buf p buf).

Definition page_entry_at (p : page) (index : Z) : option Z :=
  let pos := u64 (u64 (index - p_prev_index p) - 1) in
  if (index <=? p_prev_index p) || (index >? p_prev_index p +₆₄ zlen (p_entries p))
  then None
  else p_entries p !! Z.to_nat pos.

(** The loop over the array from [pos]: total size and number of entries. *)
Fixpoint get_entries_loop (p : page) (ptrs : list Z) (limit total n : Z) : Z * Z :=
  match ptrs with
  | [] => (total, n)
  | off :: ptrs =>
      let n := n +₃₂ 1 in
      let total := total +₃₂ entry_len (entry_ptr p off) in
      if total >=? limit then (total, n) else get_entries_loop p ptrs limit total n
  end.

(** The pointer to the first entry, the size in bytes and the count. *)
Definition page_get_entries (p : page) (index limit : Z) : option Z * Z * Z :=
  if (index <=? p_prev_index p) || (index >? p_prev_index p +₆₄ zlen (p_entries p))
  then (None, 0, 0)
  else
    let pos := u64 (u64 (index - p_prev_index p) - 1) in
    let head := p_entries p !! Z.to_nat pos in
    let '(total, n) := get_entries_loop p (drop (Z.to_nat pos) (p_entries p)) limit 0 0 in
    (head, total, n).

(** [sc_array_del_last] while the last index is above [index]. *)
Fixpoint del_last_loop (fuel : nat) (prev index : Z) (es : list Z) : list Z :=
  match fuel with
  | O => es
  | S fuel =>
      if prev +₆₄ zlen es >? index
      then del_last_loop fuel prev index (take (length es - 1) es)
      else es
  end.

Definition page_remove_after (p : page) (index : Z) : page * list msync :=
  if index <=? p_prev_index p then page_clear p (p_prev_index p)
  else
    match page_entry_at p (index +₆₄ 1) with
    | None => (p, [])
    | Some entry =>
        let pos := u32 entry in
        let buf := sc_buf_set_wpos (p_buf p) pos in
        let buf := sc_buf_set_32 buf PAGE_END_MARK in
        let p := with_buf p buf in
        let p := with_flush p (Z.min (pos -₃₂ 4) (p_flush_pos p)) (p_flush_index p) in
        let '(p, syncs) := page_fsync p index in
        (with_entries p (del_last_loop (length (p_entries p)) (p_prev_index p) index (p_entries p)),
         syncs)
    end.

(** ** The list of entries a page represents *)

Definition page_header_body (prev : Z) : list byte :=
  le_split 4 PAGE_VERSION ++ replicate 4 x00 ++ le_split 8 prev ++ replicate 12 x00.
Definition page_header (prev : Z) : list byte :=
  page_header_body prev ++ le_split 4 (crc32c 0 (page_header_body prev)).

Definition enc_entries (es : list entry) : list byte := concat (map enc_entry es).

Fixpoint total_size (es : list entry) : Z :=
  match es with
  | [] => 0
  | e :: es => entry_size e + total_size es
  end.

(** The positions of consecutive entries. *)
Fixpoint offsets (start : Z) (es : list entry) : list Z :=
  match es with
  | [] => []
  | e :: es => start :: offsets (start + entry_size e) es
  end.

(** The smallest gap behind the entries that the quota arithmetic relies on. *)
Definition PAGE_RESERVE : Z := ENTRY_HEADER_SIZE + PAGE_END_MARK_LEN.

(** Recovery stops at these bytes: too short for an entry, the end mark, or
    something [entry_decode] refuses. *)
Definition stops (t : list byte) : Prop :=
  zlen t < ENTRY_HEADER_SIZE \/ entry_crc t = PAGE_END_MARK \/ decodes t = None.

(** The end mark is behind the entries, as every operation leaves it. *)
Definition page_marked (p : page) : Prop :=
  mread (b_mem (p_buf p)) (b_wpos (p_buf p)) 4 = le_split 4 PAGE_END_MARK.

Record page_repr (p : page) (es : list entry) : Prop := {
  pr_wf : buf_wf (with_rpos (p_buf p) 0);
  pr_err : b_err (p_buf p) = 0;
  pr_ref : b_ref (p_buf p) = true;
  pr_map : p_map_len p = b_cap (p_buf p);
  pr_max : b_cap (p_buf p) <= PAGE_MAX_SIZE;
  pr_room : b_wpos (p_buf p) + PAGE_RESERVE <= b_cap (p_buf p);
  pr_ok : Forall entry_ok es;
  pr_prev : 0 <= p_prev_index p;
  pr_last : p_prev_index p + zlen es + 1 < 2 ^ 64;
  pr_written : written (p_buf p) = page_header (p_prev_index p) ++ enc_entries es;
  pr_entries : p_entries p = offsets PAGE_HEADER_LEN es;
  pr_stop : stops (at_off (b_mem (p_buf p)) (b_wpos (p_buf p)))
}.

Lemma marked_stops m pos : mread m pos 4 = le_split 4 PAGE_END_MARK -> stops (at_off m pos).
Proof.
  intros H. right; left. unfold entry_crc, entry_get_32.
  change (mread (at_off (at_off m pos) ENTRY_CRC_OFFSET) 0 4) with (mread m pos 4). by rewrite H.
Qed.

Lemma zlen_replicate {A} n (x : A) : zlen (replicate n x) = Z.of_nat n.
Proof. unfold zlen. by rewrite length_replicate. Qed.

Lemma zlen_page_header_body prev : zlen (page_header_body prev) = 28.
Proof. unfold page_header_body. by rewrite !zlen_app, !zlen_le_split, !zlen_replicate. Qed.

Lemma zlen_page_header prev : zlen (page_header prev) = PAGE_HEADER_LEN.
Proof. unfold page_header. by rewrite zlen_app, zlen_page_header_body, zlen_le_split. Qed.

Lemma enc_entries_app xs ys : enc_entries (xs ++ ys) = enc_entries xs ++ enc_entries ys.
Proof. unfold enc_entries. by rewrite map_app, concat_app. Qed.

Lemma total_size_app xs ys : total_size (xs ++ ys) = total_size xs + total_size ys.
Proof. induction xs as [|x xs IH]; simpl; [done|]. rewrite IH. lia. Qed.

Lemma zlen_enc_entries es : zlen (enc_entries es) = total_size es.
Proof.
  induction es as [|e es IH]; [done|]. change (enc_entries (e :: es)) with (enc_entry e ++ enc_entries es).
  rewrite zlen_app, zlen_enc_entry, IH. done.
Qed.

Lemma total_size_nonneg es : 0 <= total_size es.
Proof. rewrite <- zlen_enc_entries. apply zlen_nonneg. Qed.

Lemma offsets_app start xs ys :
  offsets start (xs ++ ys) = offsets start xs ++ offsets (start + total_size xs) ys.
Proof.
  revert start. induction xs as [|x xs IH]; intros start; simpl.
  - f_equal. lia.
  - by rewrite IH, Z.add_assoc.
Qed.

Lemma length_offsets start es : length (offsets start es) = length es.
Proof. revert start. induction es; intros; simpl; auto. Qed.

Lemma offsets_lookup start es i :
  offsets start es !! i =
  if decide (i < length es)%nat then Some (start + total_size (take i es)) else None.
Proof.
  revert start i. induction es as [|e es IH]; intros start i; simpl; [done|].
  destruct i as [|i]; simpl; [by rewrite Z.add_0_r|].
  rewrite IH. do 2 case_decide; try lia; [f_equal; lia|done].
Qed.

Section Repr.
Context (p : page) (es : list entry) (H : page_repr p es).

Lemma pr_wpos : b_wpos (p_buf p) = PAGE_HEADER_LEN + total_size es.
Proof.
  pose proof (zlen_written _ (pr_wf _ _ H)) as E. change (written (with_rpos _ _)) with (written (p_buf p)) in E.
  rewrite (pr_written _ _ H), zlen_app, zlen_page_header, zlen_enc_entries in E. symmetry. exact E.
Qed.

Lemma pr_count : zlen (p_entries p) = zlen es.
Proof. unfold zlen. by rewrite (pr_entries _ _ H), length_offsets. Qed.

Lemma pr_last_index : page_last_index p = p_prev_index p + zlen es.
Proof.
  unfold page_last_index. rewrite pr_count. apply u64_small.
  pose proof (pr_prev _ _ H). pose proof (pr_last _ _ H). pose proof (zlen_nonneg es). lia.
Qed.

(** The quota never wraps: it is what is left before the reserve. *)
Lemma pr_quota : page_quota p = b_cap (p_buf p) - b_wpos (p_buf p) - PAGE_RESERVE.
Proof.
  pose proof (pr_room _ _ H). pose proof (pr_wf _ _ H) as []. simpl in *.
  unfold page_quota, sc_buf_quota, PAGE_RESERVE, ENTRY_HEADER_SIZE, PAGE_END_MARK_LEN in *.
  rewrite (u32_small (b_cap (p_buf p) - b_wpos (p_buf p))) by lia.
  rewrite (u32_small (b_cap (p_buf p) - b_wpos (p_buf p) - 36)), u32_small by lia. lia.
Qed.

Lemma pr_mem :
  b_mem (p_buf p) = page_header (p_prev_index p) ++ enc_entries es ++
                    at_off (b_mem (p_buf p)) (b_wpos (p_buf p)).
Proof.
  rewrite app_assoc, <- (pr_written _ _ H). unfold written, mread, at_off.
  rewrite drop_0. by rewrite take_drop.
Qed.

(** What the pointer of entry [i] points to. *)
Lemma pr_entry_ptr i e :
  es !! i = Some e ->
  exists off, p_entries p !! i = Some off /\
    entry_ptr p off = enc_entries (drop i es) ++ at_off (b_mem (p_buf p)) (b_wpos (p_buf p)) /\
    off = PAGE_HEADER_LEN + total_size (take i es).
Proof.
  intros Hi. rewrite (pr_entries _ _ H), offsets_lookup. pose proof (lookup_lt_Some _ _ _ Hi).
  rewrite decide_True by done. eexists. split_and!; [done| |done].
  unfold entry_ptr. rewrite pr_mem at 1. rewrite app_assoc.
  rewrite <- (take_drop i es) at 1. rewrite enc_entries_app, (app_assoc (page_header _)), <- (app_assoc (_ ++ _)).
  apply at_off_app. by rewrite zlen_app, zlen_page_header, zlen_enc_entries.
Qed.

Lemma pr_entry_ptr_enc i e :
  es !! i = Some e ->
  exists off rest, p_entries p !! i = Some off /\ entry_ptr p off = enc_entry e ++ rest.
Proof.
  intros Hi. destruct (pr_entry_ptr i e Hi) as (off & Ho & Hp & _).
  rewrite (drop_S _ _ _ Hi) in Hp. change (enc_entries (e :: ?l)) with (enc_entry e ++ enc_entries l) in Hp.
  rewrite <- app_assoc in Hp. eauto.
Qed.

End Repr.

(** ** The read position plays no role for writers *)

Lemma b_mem_rpos b r : b_mem (with_rpos b r) = b_mem b.
Proof. done. Qed.

Lemma set_pos_rpos n b r pos v :
  sc_buf_set_pos n (with_rpos b r) pos v =
  (fst (sc_buf_set_pos n b pos v), with_rpos (snd (sc_buf_set_pos n b pos v)) r).
Proof. unfold sc_buf_set_pos. cbn [b_err b_cap with_rpos]. by case_if. Qed.

Lemma reserve_rpos b r n :
  sc_buf_reserve (with_rpos b r) n = (fst (sc_buf_reserve b n), with_rpos (snd (sc_buf_reserve b n)) r).
Proof.
  unfold sc_buf_reserve. cbn [b_err b_cap b_wpos b_ref b_limit with_rpos].
  repeat case_if; done.
Qed.

Lemma put_rpos n b r v : sc_buf_put n (with_rpos b r) v = with_rpos (sc_buf_put n b v) r.
Proof.
  unfold sc_buf_put. rewrite reserve_rpos. destruct (sc_buf_reserve b _) as [[] b1]; [|done].
  cbn [fst snd b_wpos with_rpos]. rewrite set_pos_rpos. by destruct (sc_buf_set_pos n b1 _ v).
Qed.

Lemma put_raw_rpos b r d : sc_buf_put_raw (with_rpos b r) d = with_rpos (sc_buf_put_raw b d) r.
Proof.
  unfold sc_buf_put_raw. rewrite reserve_rpos. destruct (sc_buf_reserve b _) as [[] b1]; [|done].
  cbn [fst snd b_wpos with_rpos]. unfold sc_buf_set_data. cbn [b_err b_cap with_rpos].
  by repeat case_if.
Qed.

Lemma set_wpos_rpos b r w : sc_buf_set_wpos (with_rpos b r) w = with_rpos (sc_buf_set_wpos b w) r.
Proof. unfold sc_buf_set_wpos. cbn [b_cap with_rpos]. by case_if. Qed.

Lemma set_32_at_rpos b r pos v : sc_buf_set_32_at (with_rpos b r) pos v = with_rpos (sc_buf_set_32_at b pos v) r.
Proof. unfold sc_buf_set_32_at, sc_buf_set_32_pos. by rewrite set_pos_rpos. Qed.

Lemma entry_encode_rpos b r t s c f d :
  entry_encode (with_rpos b r) t s c f d = with_rpos (entry_encode b t s c f d) r.
Proof.
  unfold entry_encode, sc_buf_put_32, sc_buf_put_64. cbn [b_wpos with_rpos].
  rewrite reserve_rpos. cbn [snd]. rewrite set_wpos_rpos, !put_rpos, put_raw_rpos, set_32_at_rpos.
  by rewrite b_mem_rpos.
Qed.

(** ** Appending *)

(** Writing the end mark behind the write position. *)
Lemma set_mark b :
  buf_wf (with_rpos b 0) -> b_err b = 0 -> b_wpos b + 4 <= b_cap b ->
  let b' := sc_buf_set_32 b PAGE_END_MARK in
  buf_wf (with_rpos b' 0) /\ b_err b' = 0 /\ b_ref b' = b_ref b /\ b_cap b' = b_cap b /\
  b_wpos b' = b_wpos b /\ written b' = written b /\
  mread (b_mem b') (b_wpos b) 4 = le_split 4 PAGE_END_MARK.
Proof.
  intros Hwf He Hc. pose proof Hwf as []. cbn [b_mem b_cap b_wpos b_rpos b_err with_rpos] in *.
  unfold sc_buf_set_32, sc_buf_set_32_at, sc_buf_set_32_pos, sc_buf_set_pos.
  rewrite He. cbn [negb orb Z.eqb]. zif. cbn [snd].
  set (bs := le_split 4 PAGE_END_MARK). assert (Hz : zlen bs = 4) by apply zlen_le_split.
  split_and!; try done.
  - apply (wf_mwrite (with_rpos b 0)); [done|cbn [b_wpos with_rpos]; lia|].
    rewrite Hz. cbn [b_cap with_rpos]. lia.
  - unfold written. cbn [b_mem b_wpos with_mem]. apply mread_write_before; lia.
  - cbn [b_mem with_mem]. rewrite <- Hz. apply mread_write_same; lia.
Qed.

Lemma repr_append p es e b' :
  page_repr p es -> entry_ok e -> entry_size e <= page_quota p ->
  p_prev_index p + zlen es + 2 < 2 ^ 64 ->
  appended (with_rpos (p_buf p) 0) (enc_entry e) (with_rpos b' 0) ->
  page_repr (with_buf (with_entries p (p_entries p ++ [b_wpos (p_buf p)]))
               (sc_buf_set_32 b' PAGE_END_MARK)) (es ++ [e]) /\
  page_marked (with_buf (with_entries p (p_entries p ++ [b_wpos (p_buf p)]))
               (sc_buf_set_32 b' PAGE_END_MARK)).
Proof.
  intros H Hok Hq Hidx Ha. rewrite (pr_quota _ _ H) in Hq.
  pose proof (a_wpos _ _ _ (pr_wf _ _ H) Ha) as Hw. rewrite zlen_enc_entry in Hw.
  pose proof (a_fixed _ _ _ Ha (pr_ref _ _ H)) as Hc.
  pose proof (a_err _ _ _ Ha) as He. pose proof (a_ref _ _ _ Ha) as Hr.
  cbn [b_wpos b_cap b_err b_ref with_rpos] in *.
  unfold PAGE_RESERVE, ENTRY_HEADER_SIZE, PAGE_END_MARK_LEN in *.
  destruct (set_mark b') as (Hwf' & He' & Hr' & Hc' & Hw' & HW' & Hm');
    [apply Ha|by rewrite He, (pr_err _ _ H)|lia|].
  split; [|unfold page_marked; cbn [p_buf with_buf]; by rewrite Hw'].
  split; cbn [p_buf p_entries p_map_len p_prev_index with_buf with_entries]; try done.
  - by rewrite Hr', Hr, (pr_ref _ _ H).
  - by rewrite Hc', Hc, (pr_map _ _ H).
  - by rewrite Hc', Hc; apply (pr_max _ _ H).
  - rewrite Hc', Hw'. unfold PAGE_RESERVE, ENTRY_HEADER_SIZE, PAGE_END_MARK_LEN. lia.
  - apply Forall_app. split; [apply (pr_ok _ _ H)|]. by apply Forall_singleton.
  - apply (pr_prev _ _ H).
  - rewrite zlen_app. change (zlen [e]) with 1. lia.
  - rewrite HW'. change (written b') with (written (with_rpos b' 0)).
    rewrite (a_written _ _ _ Ha). change (written (with_rpos _ 0)) with (written (p_buf p)).
    rewrite (pr_written _ _ H), enc_entries_app, <- !app_assoc.
    change (enc_entries [e]) with (enc_entry e ++ []). by rewrite app_nil_r.
  - rewrite (pr_entries _ _ H), offsets_app, (pr_wpos _ _ H). done.
  - apply marked_stops. by rewrite Hw'.
Qed.

Lemma page_create_entry_repr p es e :
  page_repr p es -> entry_ok e -> entry_size e <= page_quota p ->
  p_prev_index p + zlen es + 2 < 2 ^ 64 ->
  exists p', page_create_entry p (e_term e) (e_seq e) (e_cid e) (e_flags e) (e_data e) = Some p' /\
    (page_repr p' (es ++ [e]) /\ page_marked p') /\ p_prev_index p' = p_prev_index p.
Proof.
  intros H Hok Hq Hidx. unfold page_create_entry, entry_encoded_len. fold (entry_size e).
  rewrite u32_small by apply (entry_size_u32 e Hok).
  change (page_quota (with_entries p _)) with (page_quota p). cbn [p_buf with_entries].
  rewrite (proj2 (Z.leb_le _ _) Hq). change (negb true) with false. cbv iota.
  eexists. split; [done|]. split; [|done]. apply repr_append; try done.
  rewrite <- entry_encode_rpos. pose proof (pr_quota _ _ H). pose proof (pr_wf _ _ H) as [].
  cbn [b_mem b_cap b_wpos b_rpos b_err with_rpos] in *.
  unfold PAGE_RESERVE, ENTRY_HEADER_SIZE, PAGE_END_MARK_LEN in *.
  apply entry_encode_appends; try done.
  - apply (pr_err _ _ H).
  - left. cbn [b_cap b_wpos with_rpos]. lia.
  - left. cbn [b_cap b_wpos with_rpos]. lia.
Qed.

Lemma page_put_entry_repr p es e rest :
  page_repr p es -> entry_ok e -> entry_size e <= page_quota p ->
  p_prev_index p + zlen es + 2 < 2 ^ 64 ->
  exists p', page_put_entry p (enc_entry e ++ rest) = Some p' /\
    (page_repr p' (es ++ [e]) /\ page_marked p') /\ p_prev_index p' = p_prev_index p.
Proof.
  intros H Hok Hq Hidx. unfold page_put_entry. rewrite entry_len_enc, entry_crc_enc by done.
  pose proof (entry_size_u32 e Hok). pose proof (entry_size_min e). unfold ENTRY_HEADER_SIZE in *.
  rewrite (proj2 (Z.leb_le _ _) Hq). change (negb true) with false. cbv iota.
  unfold ENTRY_CRC_LEN. rewrite u32_small by lia.
  assert (Hb : mread (at_off (enc_entry e ++ rest) 4) 0 (entry_size e - 4) = enc_body e).
  { unfold enc_entry. rewrite <- app_assoc, (at_off_app _ _ 4) by apply zlen_le_split.
    apply mread_app_l, zlen_enc_body. }
  rewrite Hb, Z.eqb_refl. change (negb true) with false. cbv iota. rewrite mread_app_l by apply zlen_enc_entry.
  eexists. split; [done|]. split; [|done]. apply repr_append; try done.
  rewrite <- put_raw_rpos. cbn [p_buf with_entries]. pose proof (pr_quota _ _ H).
  unfold PAGE_RESERVE, ENTRY_HEADER_SIZE, PAGE_END_MARK_LEN in *.
  apply put_outcome_ok; [apply (pr_err _ _ H)| |].
  - left. rewrite zlen_enc_entry. cbn [b_cap b_wpos with_rpos]. lia.
  - apply sc_buf_put_raw_outcome; [apply (pr_wf _ _ H)|].
    left. rewrite zlen_enc_entry. cbn [b_cap b_wpos with_rpos]. lia.
Qed.

(** ** Flushing does not change the contents *)

Lemma repr_flush p es a b : page_repr p es -> page_repr (with_flush p a b) es.
Proof. intros []. by split. Qed.

Lemma page_fsync_repr p es i : page_repr p es -> page_repr (fst (page_fsync p i)) es.
Proof. intros H. unfold page_fsync. repeat case_if; try done. by apply repr_flush. Qed.

Lemma page_fsync_buf p i :
  p_buf (fst (page_fsync p i)) = p_buf p /\ p_entries (fst (page_fsync p i)) = p_entries p /\
  p_prev_index (fst (page_fsync p i)) = p_prev_index p /\
  p_map_len (fst (page_fsync p i)) = p_map_len p.
Proof. unfold page_fsync. by repeat case_if. Qed.

(** The flush bookkeeping and the [init] flag are not part of the contents. *)
Lemma repr_ext p q es :
  p_buf q = p_buf p -> p_entries q = p_entries p -> p_prev_index q = p_prev_index p ->
  p_map_len q = p_map_len p -> page_repr p es -> page_repr q es.
Proof. intros E1 E2 E3 E4 []. split; rewrite ?E1, ?E2, ?E3, ?E4; done. Qed.

(** ** Clearing *)

Lemma mwrite_mid (a b c b' : list byte) n :
  zlen a = n -> zlen b = zlen b' -> mwrite (a ++ b ++ c) n b' = a ++ b' ++ c.
Proof.
  intros <- Hb. unfold mwrite, zlen in *. rewrite Nat2Z.id, take_app_length. do 2 f_equal.
  rewrite <- drop_drop, drop_app_length. apply drop_app_length'. lia.
Qed.

Lemma set_at_eq n b pos v :
  b_err b = 0 -> pos + Z.of_nat n <= b_cap b ->
  snd (sc_buf_set_pos n b pos v) = with_mem b (mwrite (b_mem b) pos (le_split n v)).
Proof. intros He Hc. unfold sc_buf_set_pos. rewrite He. change (negb (0 =? 0)) with false. simpl orb. by zif. Qed.

(** The header that [page_clear] writes, whatever was there. *)
Lemma clear_header mem prev :
  PAGE_HEADER_LEN <= zlen mem ->
  let m0 := mwrite mem 0 (replicate (Z.to_nat PAGE_HEADER_LEN) x00) in
  let m1 := mwrite m0 PAGE_VERSION_OFFSET (le_split 4 PAGE_VERSION) in
  let m2 := mwrite m1 PAGE_PREV_INDEX_OFFSET (le_split 8 prev) in
  mread m2 0 (PAGE_HEADER_LEN - 4) = page_header_body prev /\
  mwrite m2 PAGE_CRC_OFFSET (le_split 4 (crc32c 0 (page_header_body prev))) =
    page_header prev ++ at_off mem PAGE_HEADER_LEN.
Proof.
  intros Hl. set (rest := at_off mem PAGE_HEADER_LEN).
  assert (E0 : mwrite mem 0 (replicate (Z.to_nat PAGE_HEADER_LEN) x00) =
    [] ++ replicate 4 x00 ++ (replicate 4 x00 ++ replicate 8 x00 ++ replicate 12 x00 ++
    replicate 4 x00 ++ rest)) by done.
  cbv zeta. rewrite E0, (mwrite_mid [] _ _ (le_split 4 PAGE_VERSION) PAGE_VERSION_OFFSET) by done.
  cbn [app]. rewrite (app_assoc (le_split 4 PAGE_VERSION)).
  rewrite (mwrite_mid _ (replicate 8 x00) _ (le_split 8 prev) PAGE_PREV_INDEX_OFFSET) by
    (rewrite ?zlen_app, ?zlen_le_split, ?zlen_replicate; done).
  set (c := le_split 4 (crc32c 0 (page_header_body prev))).
  assert (E2 : (le_split 4 PAGE_VERSION ++ replicate 4 x00) ++ le_split 8 prev ++
     replicate 12 x00 ++ replicate 4 x00 ++ rest =
     page_header_body prev ++ replicate 4 x00 ++ rest).
  { unfold page_header_body. by rewrite <- !app_assoc. }
  rewrite E2. split.
  - apply mread_app_l, zlen_page_header_body.
  - rewrite mwrite_mid by (apply zlen_page_header_body || unfold c; by rewrite zlen_le_split).
    unfold page_header. by rewrite <- app_assoc.
Qed.

Lemma page_clear_repr p prev :
  zlen (b_mem (p_buf p)) = p_map_len p ->
  PAGE_HEADER_LEN + PAGE_RESERVE <= p_map_len p <= PAGE_MAX_SIZE ->
  0 <= prev -> prev + 1 < 2 ^ 64 ->
  exists p', page_clear p prev = (p', []) /\ page_repr p' [] /\ page_marked p' /\
    p_prev_index p' = prev /\ p_map_len p' = p_map_len p.
Proof.
  intros Hm Hl Hp0 Hp. unfold PAGE_HEADER_LEN, PAGE_RESERVE, ENTRY_HEADER_SIZE,
    PAGE_END_MARK_LEN, PAGE_MAX_SIZE in Hl.
  assert (HL : PAGE_HEADER_LEN <= zlen (b_mem (p_buf p))) by (unfold PAGE_HEADER_LEN; lia).
  destruct (clear_header (b_mem (p_buf p)) prev HL) as [E1 E2].
  unfold page_clear. rewrite u32_small by lia.
  unfold sc_buf_set_32_at, sc_buf_set_64_at, sc_buf_set_32_pos, sc_buf_set_64_pos.
  set (m0 := mwrite _ 0 _) in *.
  assert (Hz0 : zlen m0 = p_map_len p).
  { unfold m0. rewrite zlen_mwrite; [done|lia|]. rewrite zlen_replicate. unfold PAGE_HEADER_LEN in *. lia. }
  clearbody m0. unfold PAGE_VERSION_OFFSET, PAGE_PREV_INDEX_OFFSET, PAGE_CRC_OFFSET in *.
  set (b0 := sc_buf_wrap m0 (p_map_len p) SC_BUF_REF).
  rewrite (set_at_eq 4 b0 0 PAGE_VERSION) by (reflexivity || (cbn; lia)).
  set (b01 := with_mem b0 _). rewrite (set_at_eq 8 b01 8 prev) by (reflexivity || (cbn; lia)).
  set (b02 := with_mem b01 _).
  change (b_mem b02) with (mwrite (mwrite m0 0 (le_split 4 PAGE_VERSION)) 8 (le_split 8 prev)).
  rewrite E1. rewrite (set_at_eq 4 b02 28) by (reflexivity || (cbn; lia)).
  change (b_mem b02) with (mwrite (mwrite m0 0 (le_split 4 PAGE_VERSION)) 8 (le_split 8 prev)).
  rewrite E2. set (b1 := with_mem b02 _). unfold sc_buf_set_wpos. change (b_cap b1) with (p_map_len p).
  rewrite if_false by (unfold PAGE_HEADER_LEN; zbool_solve).
  set (b2 := with_wpos b1 _).
  assert (Hz2 : zlen (b_mem b2) = p_map_len p).
  { change (b_mem b2) with (page_header prev ++ at_off (b_mem (p_buf p)) PAGE_HEADER_LEN).
    rewrite zlen_app, zlen_page_header. unfold at_off, zlen. rewrite length_drop.
    unfold zlen, PAGE_HEADER_LEN in *. lia. }
  assert (Hwf2 : buf_wf (with_rpos b2 0)).
  { split; [exact Hz2|cbn; unfold PAGE_HEADER_LEN, SC_BUF_MAX, UINT32_MAX; lia..]. }
  destruct (set_mark b2) as (Hwf3 & He3 & Hr3 & Hc3 & Hw3 & HW3 & Hm3);
    [exact Hwf2|reflexivity|cbn; unfold PAGE_HEADER_LEN; lia|].
  change (snd (sc_buf_set_pos 4 b2 PAGE_HEADER_LEN PAGE_END_MARK)) with (sc_buf_set_32 b2 PAGE_END_MARK).
  set (b3 := sc_buf_set_32 b2 PAGE_END_MARK) in *.
  unfold page_fsync. cbn [p_prev_index]. rewrite (proj2 (Z.leb_le 0 prev)) by done. cbn [orb].
  eexists. split; [done|]. split; [|split; [unfold page_marked; cbn [p_buf]; by rewrite Hw3|done]].
  split; cbn [p_buf p_map_len p_prev_index p_entries]; try done.
  - rewrite Hc3. cbn. unfold PAGE_MAX_SIZE. lia.
  - rewrite Hc3, Hw3. cbn. unfold PAGE_HEADER_LEN, PAGE_RESERVE, ENTRY_HEADER_SIZE, PAGE_END_MARK_LEN. lia.
  - change (zlen (@nil entry)) with 0. lia.
  - apply marked_stops. by rewrite Hw3.
Qed.

(** ** Recovery *)

(** The checksum of an entry must not be the end mark for recovery to see it. *)
Definition visible (e : entry) : Prop := crc32c 0 (enc_body e) <> PAGE_END_MARK.

#[export] Instance visible_dec e : Decision (visible e).
Proof. unfold visible. apply _. Defined.

Lemma peek_32_crc b :
  buf_wf b -> 4 <= sc_buf_size b -> fst (sc_buf_peek_32 b) = entry_crc (contents b).
Proof.
  intros Hwf Hs. rewrite sc_buf_size_wf in Hs by done.
  unfold sc_buf_peek_32, sc_buf_peek_32_at, sc_buf_peek_32_pos, sc_buf_peek_pos. zif. cbn [fst].
  unfold entry_crc, entry_get_32. rewrite mread_at_off, mread_contents by (done || unfold ENTRY_CRC_OFFSET; lia).
  unfold ENTRY_CRC_OFFSET. by rewrite Z.add_0_r.
Qed.

(** One round of the loop, in terms of the readable bytes. *)
Lemma page_read_loop_step fuel b acc :
  buf_wf b -> b_err b = 0 ->
  page_read_loop (S fuel) b acc =
  let q := contents b in
  if (zlen q =? 0) || ((4 <=? zlen q) && (entry_crc q =? PAGE_END_MARK)) then (b, acc)
  else if zlen q <? ENTRY_HEADER_SIZE then (b, acc)
  else match decodes q with
       | Some len => page_read_loop fuel (with_rpos b (b_rpos b + len)) (acc ++ [b_rpos b])
       | None => (b, acc)
       end.
Proof.
  intros Hwf He. cbn [page_read_loop]. rewrite zlen_contents, sc_buf_size_wf by done.
  unfold PAGE_END_MARK_LEN. rewrite Z.geb_leb.
  destruct (Z.leb_spec 4 (b_wpos b - b_rpos b)).
  - rewrite peek_32_crc by (done || rewrite sc_buf_size_wf by done; lia).
    repeat case_if; try done. rewrite entry_decode_eq, zlen_contents by done.
    destruct (decodes (contents b)); [done|]. unfold ENTRY_HEADER_SIZE in *. by zif.
  - cbn [andb]. repeat case_if; try done. unfold ENTRY_HEADER_SIZE in *. lia.
Qed.

Lemma page_read_loop_stop fuel b acc :
  buf_wf b -> b_err b = 0 -> stops (contents b) -> page_read_loop fuel b acc = (b, acc).
Proof.
  intros Hwf He Hs. destruct fuel as [|fuel]; [done|]. rewrite page_read_loop_step by done.
  cbv zeta. destruct (Z.ltb_spec (zlen (contents b)) ENTRY_HEADER_SIZE) as [Hl|Hl]; [by case_if|].
  unfold ENTRY_HEADER_SIZE in *. destruct Hs as [Hs|[Hs|Hs]].
  - unfold ENTRY_HEADER_SIZE in *. lia.
  - rewrite Hs, Z.eqb_refl, (proj2 (Z.leb_le 4 _)) by lia. by rewrite orb_true_r.
  - rewrite Hs. by case_if.
Qed.

Lemma page_read_loop_entries es : forall fuel b acc rest,
  buf_wf b -> b_err b = 0 -> Forall entry_ok es -> Forall visible es ->
  contents b = enc_entries es ++ rest -> stops rest -> (length es <= fuel)%nat ->
  page_read_loop fuel b acc =
  (with_rpos b (b_rpos b + total_size es), acc ++ offsets (b_rpos b) es).
Proof.
  induction es as [|e es IH]; intros fuel b acc rest Hwf He Hok Hv Hc Hs Hf.
  - rewrite page_read_loop_stop by (rewrite ?Hc; done). simpl.
    by rewrite app_nil_r, Z.add_0_r, with_rpos_id.
  - destruct fuel as [|fuel]; [simpl in Hf; lia|].
    apply Forall_cons_1 in Hok as [Hoe Hok]. apply Forall_cons_1 in Hv as [Hve Hv].
    change (enc_entries (e :: es)) with (enc_entry e ++ enc_entries es) in Hc.
    rewrite <- app_assoc in Hc. rewrite page_read_loop_step by done. cbv zeta.
    pose proof (zlen_contents b Hwf) as Hz. rewrite Hc, zlen_app, zlen_enc_entry in Hz.
    pose proof (entry_size_min e). pose proof (zlen_nonneg (enc_entries es ++ rest)).
    rewrite Hc, decodes_enc, entry_crc_enc, zlen_app, zlen_enc_entry by done.
    unfold ENTRY_HEADER_SIZE in *. rewrite (proj2 (Z.eqb_neq _ 0)) by lia.
    rewrite (proj2 (Z.eqb_neq (crc32c 0 (enc_body e)) _)) by done.
    rewrite andb_false_r. cbn [orb]. zif.
    pose proof (consumed_intro b (enc_entry e) _ Hwf Hc) as Hcs. rewrite zlen_enc_entry in Hcs.
    rewrite (IH fuel _ _ rest); try done.
    + cbn [b_rpos with_rpos offsets total_size]. rewrite <- app_assoc. cbn [app].
      f_equal. unfold with_rpos; simpl. f_equal. lia.
    + apply (c_wf _ _ _ _ Hcs).
    + apply (c_rest _ _ _ _ Hcs).
    + simpl in Hf. lia.
Qed.

Lemma length_le_total es : zlen es <= total_size es.
Proof.
  induction es as [|e es IH]; [done|]. rewrite zlen_cons. simpl.
  pose proof (entry_size_min e). unfold ENTRY_HEADER_SIZE in *. lia.
Qed.

Lemma header_peek prev rest :
  is_u64 prev ->
  le_combine (mread (page_header prev ++ rest) PAGE_CRC_OFFSET 4) = crc32c 0 (page_header_body prev) /\
  mread (page_header prev ++ rest) 0 (PAGE_HEADER_LEN - 4) = page_header_body prev /\
  le_combine (mread (page_header prev ++ rest) PAGE_PREV_INDEX_OFFSET 8) = prev.
Proof.
  intros Hp. unfold page_header. rewrite <- app_assoc. split_and!.
  - rewrite <- mread_at_off, (at_off_app _ _ PAGE_CRC_OFFSET) by apply zlen_page_header_body.
    apply (get_le 4), crc32c_range. lia.
  - apply mread_app_l, zlen_page_header_body.
  - unfold page_header_body. rewrite <- mread_at_off, <- !app_assoc, app_assoc.
    rewrite (at_off_app _ _ PAGE_PREV_INDEX_OFFSET) by (by rewrite zlen_app, zlen_le_split, zlen_replicate).
    by apply (get_le 8).
Qed.

(** The buffer over a whole file, positioned behind the header. *)
Definition mapped (mem : list byte) : sc_buf :=
  mk_buf mem (zlen mem) (zlen mem) PAGE_HEADER_LEN (zlen mem) 0 true.

(** A file whose header checksum is right is read from the header on. *)
Lemma page_open_header mem prev rest prev' :
  mem = page_header prev ++ rest -> zlen mem < 2 ^ 32 -> is_u64 prev ->
  page_open mem prev' = (page_read (mk_page true (zlen mem) prev 0 0 (mapped mem) []), []).
Proof.
  intros Em Hmax Hp.
  assert (Hz : PAGE_HEADER_LEN <= zlen mem).
  { rewrite Em, zlen_app, zlen_page_header. pose proof (zlen_nonneg rest). lia. }
  destruct (header_peek prev rest Hp) as (E1 & E2 & E3). rewrite <- Em in E1, E2, E3.
  clear Em. pose proof (zlen_nonneg mem). unfold page_open. rewrite u32_small by lia.
  unfold PAGE_HEADER_LEN, PAGE_CRC_OFFSET, PAGE_PREV_INDEX_OFFSET in *. cbv zeta.
  set (b1 := mk_buf mem (zlen mem) (zlen mem) 0 (zlen mem) 0 true).
  assert (A1 : sc_buf_set_wpos (sc_buf_wrap mem (zlen mem) SC_BUF_REF) (zlen mem) = b1)
    by (unfold sc_buf_set_wpos, sc_buf_wrap; cbn [b_cap]; by zif).
  assert (A2 : sc_buf_peek_32_at b1 28 = (crc32c 0 (page_header_body prev), b1)).
  { unfold sc_buf_peek_32_at, sc_buf_peek_32_pos, sc_buf_peek_pos. cbn [b_wpos b1]. zif.
    change (b_mem b1) with mem. change (Z.of_nat 4) with 4. by rewrite E1. }
  assert (A3 : sc_buf_peek_64_at b1 8 = (prev, b1)).
  { unfold sc_buf_peek_64_at, sc_buf_peek_64_pos, sc_buf_peek_pos. cbn [b_wpos b1]. zif.
    change (b_mem b1) with mem. change (Z.of_nat 8) with 8. by rewrite E3. }
  assert (A4 : sc_buf_set_wpos b1 (zlen mem) = b1)
    by (unfold sc_buf_set_wpos; cbn [b_cap b1]; by zif).
  assert (A5 : sc_buf_set_rpos b1 32 = mapped mem)
    by (unfold sc_buf_set_rpos; cbn [b_wpos b1]; by zif).
  rewrite A1, A2. change (b_mem b1) with mem. rewrite E2, Z.eqb_refl.
  change (negb true) with false. cbv iota. by rewrite A3, A4, A5.
Qed.

Lemma mapped_wf mem :
  PAGE_HEADER_LEN <= zlen mem < 2 ^ 32 -> buf_wf (mapped mem) /\
  contents (mapped mem) = at_off mem PAGE_HEADER_LEN.
Proof.
  intros Hz. unfold PAGE_HEADER_LEN in *. split.
  - split; cbn [b_mem b_cap b_limit b_rpos b_wpos b_err mapped]; unfold PAGE_HEADER_LEN; done || lia.
  - unfold contents. cbn [b_mem b_rpos b_wpos mapped]. rewrite <- mread_at_off. unfold PAGE_HEADER_LEN.
    replace (zlen mem - 32) with (zlen (at_off mem 32)); [apply mread_all|].
    unfold at_off, zlen in *. rewrite length_drop. lia.
Qed.

(** Opening a file that holds a page: the entries come back, the torn or
    unused rest is ignored. *)
Lemma page_open_repr mem prev es rest prev' :
  mem = page_header prev ++ enc_entries es ++ rest ->
  zlen mem <= PAGE_MAX_SIZE -> PAGE_RESERVE <= zlen rest -> stops rest ->
  Forall entry_ok es -> Forall visible es -> 0 <= prev -> prev + zlen es + 1 < 2 ^ 64 ->
  exists p, page_open mem prev' = (p, []) /\ page_repr p es /\ p_prev_index p = prev /\
    b_mem (p_buf p) = mem /\ p_init p = true.
Proof.
  intros Em Hmax Hrest Hs Hok Hv Hp0 Hp. pose proof (zlen_nonneg es).
  pose proof (total_size_nonneg es) as Ht. pose proof (length_le_total es) as Hle.
  assert (Hz : zlen mem = PAGE_HEADER_LEN + total_size es + zlen rest).
  { rewrite Em, !zlen_app, zlen_page_header, zlen_enc_entries. lia. }
  unfold PAGE_MAX_SIZE, PAGE_RESERVE, ENTRY_HEADER_SIZE, PAGE_END_MARK_LEN in *.
  rewrite (page_open_header mem prev (enc_entries es ++ rest)) by (done || lia).
  unfold PAGE_HEADER_LEN in Hz. destruct (mapped_wf mem) as [Hwf Hc]; [unfold PAGE_HEADER_LEN; lia|].
  assert (Ho : at_off mem PAGE_HEADER_LEN = enc_entries es ++ rest)
    by (rewrite Em; apply at_off_app, zlen_page_header).
  rewrite Ho in Hc.
  unfold page_read. cbn [p_buf]. change (length (b_mem (mapped mem))) with (length mem).
  rewrite (page_read_loop_entries es _ _ [] rest) by (done || unfold zlen in *; lia).
  unfold sc_buf_set_wpos. cbn [b_rpos with_rpos b_cap mapped app]. unfold PAGE_HEADER_LEN. zif.
  eexists. split; [done|]. split; [|done].
  assert (HW : mread mem 0 (32 + total_size es) = page_header prev ++ enc_entries es).
  { rewrite Em, app_assoc. apply mread_app_l. by rewrite zlen_app, zlen_page_header, zlen_enc_entries. }
  split; cbn [p_buf p_map_len p_prev_index p_entries with_entries with_buf b_mem b_cap b_wpos
    with_wpos with_rpos mapped]; try done; unfold PAGE_MAX_SIZE, PAGE_RESERVE, ENTRY_HEADER_SIZE,
    PAGE_END_MARK_LEN; try lia.
  - split; cbn [b_mem b_cap b_limit b_rpos b_wpos b_err with_rpos with_wpos mapped]; done || lia.
  - rewrite Em, app_assoc, at_off_app; [done|].
    by rewrite zlen_app, zlen_page_header, zlen_enc_entries.
Qed.

(** ** Lookups *)

Section Lookups.
Context (p : page) (es : list entry) (H : page_repr p es).

(** The guard shared by the lookups: [index] is one of the page's. *)
Lemma index_guard index :
  (index <=? p_prev_index p) || (index >? p_prev_index p +₆₄ zlen (p_entries p)) =
  negb ((p_prev_index p <? index) && (index <=? p_prev_index p + zlen es)).
Proof.
  change (p_prev_index p +₆₄ zlen (p_entries p)) with (page_last_index p).
  rewrite (pr_last_index _ _ H), negb_andb, Z.gtb_ltb.
  by rewrite <- Z.leb_antisym, <- Z.ltb_antisym.
Qed.

(** The array position of an index of the page. *)
Definition ix (index : Z) : nat := Z.to_nat (index - p_prev_index p - 1).

Lemma ix_pos index :
  p_prev_index p < index <= p_prev_index p + zlen es ->
  Z.to_nat (u64 (u64 (index - p_prev_index p) - 1)) = ix index /\ (ix index < length es)%nat.
Proof.
  intros Hi. pose proof (pr_prev _ _ H). pose proof (pr_last _ _ H). unfold ix.
  rewrite (u64_small (index - p_prev_index p)), u64_small by lia. unfold zlen in Hi. lia.
Qed.

Lemma page_entry_at_repr index :
  page_entry_at p index =
  if (p_prev_index p <? index) && (index <=? p_prev_index p + zlen es)
  then Some (PAGE_HEADER_LEN + total_size (take (ix index) es)) else None.
Proof.
  unfold page_entry_at. rewrite index_guard. destruct (_ && _) eqn:E; [|done]. zb. simpl negb. cbv iota.
  destruct (ix_pos index) as [-> Hlt]; [lia|].
  by rewrite (pr_entries _ _ H), offsets_lookup, decide_True.
Qed.

End Lookups.

(** What [page_get_entries] selects: entries up to and including the one that
    reaches the limit. *)
Fixpoint upto (limit total : Z) (es : list entry) : list entry :=
  match es with
  | [] => []
  | e :: es =>
      let total := total + entry_size e in
      if total >=? limit then [e] else e :: upto limit total es
  end.

Lemma upto_prefix limit total es : exists n, upto limit total es = take n es.
Proof.
  revert total. induction es as [|e es IH]; intros total; [by exists 0%nat|]. simpl. case_if.
  - exists 1%nat. simpl. by rewrite take_0.
  - destruct (IH (total + entry_size e)) as [n ->]. by exists (S n).
Qed.

Lemma get_entries_loop_repr p es limit :
  page_repr p es ->
  forall k total n, (k <= length es)%nat -> 0 <= total -> 0 <= n ->
  total + total_size (drop k es) < 2 ^ 32 -> n + zlen (drop k es) < 2 ^ 32 ->
  get_entries_loop p (drop k (p_entries p)) limit total n =
  (total + total_size (upto limit total (drop k es)), n + zlen (upto limit total (drop k es))).
Proof.
  intros H k. remember (length es - k)%nat as d eqn:Hd. revert k Hd.
  induction d as [|d IH]; intros k Hd total n Hk Ht Hn Ht2 Hn2.
  - rewrite !drop_ge by (rewrite ?(pr_entries _ _ H), ?length_offsets; lia). simpl.
    change (zlen []) with 0. f_equal; lia.
  - destruct (lookup_lt_is_Some_2 es k) as [e He]; [lia|].
    destruct (pr_entry_ptr_enc p es H k e He) as (off & rest & Ho & Hp).
    rewrite (drop_S _ _ _ He), (drop_S _ _ _ Ho) in *. cbn [get_entries_loop upto total_size] in *.
    rewrite zlen_cons in Hn2.
    rewrite Hp, entry_len_enc by (eapply Forall_lookup_1; [apply (pr_ok _ _ H)|done]).
    pose proof (entry_size_min e). unfold ENTRY_HEADER_SIZE in *.
    pose proof (total_size_nonneg (drop (S k) es)). pose proof (zlen_nonneg (drop (S k) es)).
    rewrite !u32_small by lia. case_if.
    + simpl. change (zlen [e]) with 1. f_equal; lia.
    + rewrite IH by lia. cbn [total_size]. rewrite zlen_cons. f_equal; lia.
Qed.

Lemma page_get_entries_repr p es index limit :
  page_repr p es -> p_prev_index p < index <= p_prev_index p + zlen es ->
  let sel := upto limit 0 (drop (ix p index) es) in
  exists off, page_get_entries p index limit = (Some off, total_size sel, zlen sel) /\
    mread (b_mem (p_buf p)) off (total_size sel) = enc_entries sel.
Proof.
  intros H Hi sel. unfold page_get_entries. rewrite (index_guard p es H).
  rewrite (proj2 (Z.ltb_lt _ _)), (proj2 (Z.leb_le _ _)) by lia. cbn [andb negb].
  destruct (ix_pos p es H index Hi) as [-> Hlt]. set (k := ix p index) in *.
  destruct (lookup_lt_is_Some_2 es k) as [e He]; [done|].
  destruct (pr_entry_ptr p es H k e He) as (off & Ho & Hp & _).
  pose proof (pr_wpos _ _ H) as Hw. pose proof (pr_room _ _ H). pose proof (pr_max _ _ H).
  pose proof (length_le_total (drop k es)). pose proof (total_size_nonneg (take k es)).
  assert (Ht : total_size es = total_size (take k es) + total_size (drop k es))
    by (rewrite <- total_size_app; by rewrite take_drop).
  unfold PAGE_MAX_SIZE, PAGE_HEADER_LEN, PAGE_RESERVE, ENTRY_HEADER_SIZE, PAGE_END_MARK_LEN in *.
  rewrite (get_entries_loop_repr p es limit H k) by lia.
  exists off. rewrite Ho. fold sel. split; [done|].
  destruct (upto_prefix limit 0 (drop k es)) as [j Hj]. fold sel in Hj.
  rewrite <- mread_at_off. change (at_off (b_mem (p_buf p)) off) with (entry_ptr p off).
  rewrite Hp, <- (take_drop j (drop k es)), enc_entries_app, <- app_assoc, <- Hj.
  apply mread_app_l, zlen_enc_entries.
Qed.

(** ** Truncation *)

Lemma del_last_loop_take fuel prev index (l : list Z) :
  0 <= prev -> prev + zlen l < 2 ^ 64 -> prev <= index -> (length l <= fuel)%nat ->
  del_last_loop fuel prev index l = take (Z.to_nat (index - prev)) l.
Proof.
  revert l. induction fuel as [|fuel IH]; intros l Hp Hl Hi Hf; cbn [del_last_loop].
  - destruct l; [by rewrite take_nil|simpl in Hf; lia].
  - pose proof (zlen_nonneg l). rewrite u64_small by lia. unfold zlen in *. case_if.
    + rewrite IH by (rewrite ?length_take; lia). rewrite take_take. f_equal. lia.
    + by rewrite take_ge by lia.
Qed.

Lemma take_offsets start k es : take k (offsets start es) = offsets start (take k es).
Proof.
  revert start k. induction es as [|e es IH]; intros start k; destruct k; try done.
  simpl. by rewrite IH.
Qed.

(** The buffer of a page cut behind its first [k] entries. *)
Lemma repr_cut p es k :
  page_repr p es -> (k < length es)%nat ->
  let pos := PAGE_HEADER_LEN + total_size (take k es) in
  let p' := with_entries (with_buf p (sc_buf_set_32 (sc_buf_set_wpos (p_buf p) pos) PAGE_END_MARK))
              (take k (p_entries p)) in
  page_repr p' (take k es) /\ page_marked p'.
Proof.
  intros H Hk pos p'. pose proof (pr_wf _ _ H) as Hwf. pose proof Hwf as [].
  cbn [b_mem b_cap b_limit b_rpos b_wpos b_err with_rpos] in *.
  pose proof (pr_wpos _ _ H) as Hw. pose proof (pr_room _ _ H) as Hr.
  pose proof (total_size_nonneg (take k es)). pose proof (total_size_nonneg (drop k es)).
  assert (Ht : total_size es = total_size (take k es) + total_size (drop k es))
    by (rewrite <- total_size_app; by rewrite take_drop).
  unfold PAGE_RESERVE, ENTRY_HEADER_SIZE, PAGE_END_MARK_LEN, PAGE_HEADER_LEN in *.
  assert (Hs : sc_buf_set_wpos (p_buf p) pos = with_wpos (p_buf p) pos)
    by (unfold sc_buf_set_wpos; by zif).
  set (b := with_wpos (p_buf p) pos) in *.
  destruct (set_mark b) as (Hwf' & He' & Hr' & Hc' & Hw' & HW' & Hm').
  { split; cbn [b_mem b_cap b_limit b_rpos b_wpos b_err with_rpos with_wpos b]; done || lia. }
  { apply (pr_err _ _ H). }
  { cbn [b_wpos b_cap b with_wpos]. lia. }
  change (b_wpos b) with pos in *. change (b_cap b) with (b_cap (p_buf p)) in *.
  change (b_ref b) with (b_ref (p_buf p)) in *.
  unfold p', page_marked. rewrite Hs.
  split; [|cbn [p_buf with_entries with_buf]; by rewrite Hw'].
  split; cbn [p_buf p_map_len p_prev_index p_entries with_entries with_buf]; rewrite ?Hc', ?Hw', ?Hr'; try apply H; try done.
  - unfold PAGE_RESERVE, ENTRY_HEADER_SIZE, PAGE_END_MARK_LEN. lia.
  - apply Forall_take, (pr_ok _ _ H).
  - pose proof (pr_last _ _ H). unfold zlen in *. rewrite length_take. lia.
  - rewrite HW'. unfold written. change (b_mem b) with (b_mem (p_buf p)). change (b_wpos b) with pos.
    rewrite (pr_mem _ _ H). rewrite <- (take_drop k es) at 1. rewrite enc_entries_app, <- app_assoc, app_assoc.
    apply mread_app_l. rewrite zlen_app, zlen_page_header, zlen_enc_entries. done.
  - by rewrite (pr_entries _ _ H), take_offsets.
  - by apply marked_stops.
Qed.

Lemma repr_bounds p es :
  page_repr p es ->
  PAGE_HEADER_LEN + PAGE_RESERVE <= p_map_len p <= PAGE_MAX_SIZE /\
  zlen (b_mem (p_buf p)) = p_map_len p.
Proof.
  intros H. pose proof (pr_wpos _ _ H). pose proof (pr_room _ _ H). pose proof (pr_max _ _ H).
  pose proof (total_size_nonneg es). rewrite (pr_map _ _ H). pose proof (wf_mem _ (pr_wf _ _ H)).
  cbn [b_mem b_cap with_rpos] in *. split; [|done]. lia.
Qed.

(** Removing the entries after [index], with the pages' flush bookkeeping. *)
Lemma page_remove_after_repr p es index :
  page_repr p es -> page_marked p -> is_u64 index ->
  let p' := fst (page_remove_after p index) in
  page_repr p' (take (Z.to_nat (index - p_prev_index p)) es) /\ page_marked p' /\
  p_prev_index p' = p_prev_index p.
Proof.
  intros H Hm Hi. destruct (repr_bounds p es H) as [Hb Hz].
  pose proof (pr_prev _ _ H). pose proof (pr_last _ _ H). pose proof (zlen_nonneg es).
  unfold page_remove_after. destruct (Z.leb_spec index (p_prev_index p)) as [Hle|Hgt].
  { destruct (page_clear_repr p (p_prev_index p) Hz Hb) as (p' & -> & Hr & Hm' & Hp' & _); [lia..|].
    cbn [fst]. replace (Z.to_nat _) with 0%nat by lia. by rewrite take_0. }
  rewrite (page_entry_at_repr p es H).
  destruct ((_ <? index +₆₄ 1) && _) eqn:E; cbn [fst].
  - apply andb_true_iff in E as [E1 E2]. zb.
    assert (Hu : index +₆₄ 1 = index + 1).
    { unfold u64 in *. destruct (Z.eq_dec index (2 ^ 64 - 1)) as [->|]; [|apply Z.mod_small; lia].
      change ((2 ^ 64 - 1 + 1) mod 2 ^ 64) with 0 in E1. lia. }
    rewrite Hu in *. unfold ix. replace (index + 1 - p_prev_index p - 1) with (index - p_prev_index p) by lia.
    set (k := Z.to_nat (index - p_prev_index p)). unfold zlen in E2.
    destruct (repr_cut p es k H ltac:(lia)) as [Hr Hm'].
    rewrite (u32_small (PAGE_HEADER_LEN + _)).
    2: { pose proof (total_size_nonneg (take k es)). pose proof (pr_wpos _ _ H).
         pose proof (total_size_nonneg (drop k es)). pose proof (pr_room _ _ H).
         assert (Ht : total_size es = total_size (take k es) + total_size (drop k es))
           by (rewrite <- total_size_app; by rewrite take_drop).
         unfold PAGE_RESERVE, ENTRY_HEADER_SIZE, PAGE_END_MARK_LEN, PAGE_HEADER_LEN, PAGE_MAX_SIZE in *.
         pose proof (pr_map _ _ H). lia. }
    set (buf := sc_buf_set_32 _ _) in *.
    set (q := with_flush (with_buf p buf) _ _).
    destruct (page_fsync_buf q index) as (F1 & F2 & F3 & F4).
    destruct (page_fsync q index) as [q' syncs]. cbn [fst] in *.
    change (p_buf q) with buf in F1. change (p_entries q) with (p_entries p) in F2.
    rewrite F2, F3, del_last_loop_take; [|done| |change (p_prev_index q) with (p_prev_index p); lia|lia].
    2: { change (p_prev_index q) with (p_prev_index p). rewrite (pr_count _ _ H). lia. }
    split_and!; [|unfold page_marked in *; cbn [p_buf with_entries with_buf] in *; by rewrite F1|done].
    by eapply repr_ext, Hr.
  - rewrite take_ge; [done|]. destruct (Z.eq_dec index (2 ^ 64 - 1)) as [->|]; [unfold zlen in *; lia|].
    rewrite u64_small in E by lia. apply andb_false_iff in E as [E|E]; zb; unfold zlen in *; lia.
Qed.

(** ** Growing *)

Lemma reserve_loop_spec need fuel : forall cap,
  1 <= cap <= 2 ^ 32 -> 33 < Z.log2 cap + Z.of_nat fuel ->
  let r := reserve_loop fuel cap need in
  cap <= r /\ (PAGE_MAX_SIZE < r \/ need <= r).
Proof.
  induction fuel as [|fuel IH]; intros cap Hc Hf.
  - exfalso. pose proof (Z.log2_le_mono cap (2 ^ 32) ltac:(lia)) as Hm.
    change (Z.log2 (2 ^ 32)) with 32 in Hm. lia.
  - cbn [reserve_loop]. unfold PAGE_MAX_SIZE in *. destruct (Z.leb_spec cap (2 * 1024 * 1024 * 1024)); simpl; [|lia].
    destruct (Z.ltb_spec cap need); simpl; [|lia].
    pose proof (Z.log2_nonneg cap). destruct (Z.log2_spec cap ltac:(lia)) as [Hlo Hhi].
    rewrite sc_to_pow2_spec by lia. rewrite Z.log2_up_eqn by lia.
    replace (Z.pred (cap + 1)) with cap by lia. set (l := Z.succ (Z.log2 cap)) in *.
    assert (l <= 32).
    { pose proof (Z.log2_le_mono cap (2 ^ 31) ltac:(lia)) as Hm. change (Z.log2 (2 ^ 31)) with 31 in Hm. lia. }
    assert (2 ^ l <= 2 ^ 32) by (apply Z.pow_le_mono_r; lia).
    destruct (IH (2 ^ l)) as [I1 I2]; [lia|rewrite Z.log2_pow2; lia|]. split; [lia|done].
Qed.

Lemma mread_app_before m m' pos n :
  0 <= pos -> 0 <= n -> pos + n <= zlen m -> mread (m ++ m') pos n = mread m pos n.
Proof.
  intros ???. unfold mread, zlen in *. rewrite drop_app_le by lia.
  apply take_app_le. rewrite length_drop. lia.
Qed.

Lemma entry_crc_app t t' : 4 <= zlen t -> entry_crc (t ++ t') = entry_crc t.
Proof.
  intros Ht. unfold entry_crc, entry_get_32, ENTRY_CRC_OFFSET. f_equal.
  apply (mread_app_before t t' 0 4); lia.
Qed.

Lemma mrealloc_grow m size :
  zlen m <= size -> mrealloc m size = m ++ replicate (Z.to_nat (size - zlen m)) x00.
Proof. unfold mrealloc, zlen. intros. rewrite take_ge by lia. do 2 f_equal. lia. Qed.

(** Mapping the file of a page again, grown or not. *)
Lemma page_init_repr p es q len prev :
  page_repr p es -> page_marked p -> Forall visible es -> len <= PAGE_MAX_SIZE ->
  exists p', page_init q (Some (b_mem (p_buf p))) MMAP_OK len prev = (RS_OK, p', []) /\
    page_repr p' es /\ page_marked p' /\ p_prev_index p' = p_prev_index p /\
    b_cap (p_buf p') = Z.max (Z.max len (p_map_len p)) PAGE_INITIAL_SIZE.
Proof.
  intros H Hm Hv Hl. destruct (repr_bounds p es H) as [Hb Hz].
  unfold page_init. rewrite Z.gtb_ltb, (proj2 (Z.ltb_ge _ _) Hl). rewrite Hz.
  set (L := Z.max (Z.max len (p_map_len p)) PAGE_INITIAL_SIZE).
  assert (HL : p_map_len p <= L <= PAGE_MAX_SIZE).
  { unfold L, PAGE_INITIAL_SIZE, PAGE_MAX_SIZE in *. lia. }
  change (default [] (Some (b_mem (p_buf p)))) with (b_mem (p_buf p)).
  rewrite mrealloc_grow, Hz by lia.
  set (zs := replicate _ x00). assert (Hzs : zlen zs = L - p_map_len p).
  { unfold zs. rewrite zlen_replicate. lia. }
  set (t := at_off (b_mem (p_buf p)) (b_wpos (p_buf p))).
  pose proof (pr_room _ _ H). pose proof (pr_wf _ _ H) as []. pose proof (pr_map _ _ H).
  cbn [b_mem b_cap b_wpos b_rpos with_rpos] in *.
  assert (Ht : zlen t = b_cap (p_buf p) - b_wpos (p_buf p)).
  { unfold t, at_off, zlen in *. rewrite length_drop. lia. }
  unfold PAGE_RESERVE, ENTRY_HEADER_SIZE, PAGE_END_MARK_LEN in *.
  assert (Hcrc : entry_crc (t ++ zs) = PAGE_END_MARK).
  { rewrite entry_crc_app by lia. unfold entry_crc, entry_get_32.
    change (mread (at_off t ENTRY_CRC_OFFSET) 0 4) with (mread (b_mem (p_buf p)) (b_wpos (p_buf p)) 4).
    by rewrite Hm. }
  destruct (page_open_repr (b_mem (p_buf p) ++ zs) (p_prev_index p) es (t ++ zs) prev)
    as (p' & -> & Hr & Hp & Hmem & _).
  - rewrite (pr_mem _ _ H) at 1. by rewrite <- !app_assoc.
  - rewrite zlen_app. lia.
  - rewrite zlen_app. unfold PAGE_RESERVE, ENTRY_HEADER_SIZE, PAGE_END_MARK_LEN. lia.
  - right; left. done.
  - apply (pr_ok _ _ H).
  - done.
  - apply (pr_prev _ _ H).
  - apply (pr_last _ _ H).
  - exists p'. split_and!; try done.
    + unfold page_marked. rewrite (pr_wpos _ _ Hr), <- (pr_wpos _ _ H), Hmem.
      unfold page_marked in Hm. rewrite <- Hm. apply mread_app_before; lia.
    + pose proof (Buf.wf_mem _ (pr_wf _ _ Hr)) as Hc. cbn [b_mem b_cap with_rpos] in Hc.
      rewrite <- Hc, Hmem, zlen_app. lia.
Qed.

(** The comparison that ends [page_reserve] holds for a page with the same
    entries. *)
Lemma reserve_check p p' es :
  page_repr p es -> page_repr p' es -> p_prev_index p' = p_prev_index p ->
  negb (p_prev_index p =? p_prev_index p') || negb (page_last_index p =? page_last_index p') ||
  negb (page_entry_count p =? page_entry_count p') = false.
Proof.
  intros H H' E. rewrite (pr_last_index _ _ H), (pr_last_index _ _ H'), E.
  unfold page_entry_count. by rewrite (pr_count _ _ H), (pr_count _ _ H'), !Z.eqb_refl.
Qed.

#[export] Instance mmap_result_dec : EqDecision mmap_result.
Proof. solve_decision. Defined.

Lemma page_init_fails q file mmap len prev :
  len <= PAGE_MAX_SIZE -> mmap <> MMAP_OK ->
  exists rc p1, page_init q file mmap len prev = (rc, p1, []) /\ rc <> RS_OK.
Proof.
  intros Hl Hm. unfold page_init. rewrite Z.gtb_ltb, (proj2 (Z.ltb_ge _ _) Hl).
  destruct mmap; [done|..]; by eexists _, _.
Qed.

Definition reserve_outcome (p : page) (es : list entry) (size : Z) (mmap1 mmap2 : mmap_result)
    (r : rs_rc * page * list msync) : Prop :=
  let '(rc, p', _) := r in
  match rc with
  | RS_OK => page_repr p' es /\ page_marked p' /\ p_prev_index p' = p_prev_index p /\
      size <= page_quota p'
  | RS_FULL => page_repr p' es /\ page_marked p' /\ p_prev_index p' = p_prev_index p
  | RS_ERROR => mmap1 <> MMAP_OK /\ mmap2 <> MMAP_OK
  | _ => False
  end.

Lemma page_reserve_repr p es size mmap1 mmap2 :
  page_repr p es -> page_marked p -> Forall visible es -> is_u32 size ->
  reserve_outcome p es size mmap1 mmap2 (page_reserve p size mmap1 mmap2).
Proof.
  intros H Hm Hv Hs. destruct (repr_bounds p es H) as [Hb _].
  pose proof (pr_quota _ _ H) as Hq. pose proof (pr_wf _ _ H) as [].
  cbn [b_mem b_cap b_wpos b_rpos with_rpos] in *. pose proof (pr_map _ _ H) as Hmap.
  unfold page_reserve. destruct (Z.geb_spec (page_quota p) size) as [Hge|Hlt]; [done|].
  pose proof (pr_room _ _ H) as Hroom.
  unfold PAGE_RESERVE, ENTRY_HEADER_SIZE, PAGE_END_MARK_LEN, PAGE_HEADER_LEN, PAGE_MAX_SIZE in *.
  rewrite (u64_small (p_map_len p - page_quota p)) by lia.
  rewrite (u64_small (_ + size)) by lia. set (need := p_map_len p - page_quota p + size).
  destruct (reserve_loop_spec need 64 (p_map_len p)) as [Hr1 Hr2];
    [lia|pose proof (Z.log2_nonneg (p_map_len p)); lia|].
  set (cap := reserve_loop 64 _ need) in *. unfold PAGE_MAX_SIZE in *.
  destruct (Z.gtb_spec cap (2 * 1024 * 1024 * 1024)) as [Hbig|Hsmall]; [done|].
  assert (Hok : forall q ret len, len <= PAGE_MAX_SIZE -> ret = RS_OK \/ ret = RS_FULL ->
    (ret = RS_OK -> need <= len) ->
    exists p', page_init q (Some (b_mem (p_buf p))) MMAP_OK len (p_prev_index q) = (RS_OK, p', []) /\
      forall s, reserve_outcome p es size mmap1 mmap2
        (if negb (p_prev_index p =? p_prev_index p') || negb (page_last_index p =? page_last_index p') ||
            negb (page_entry_count p =? page_entry_count p')
         then (RS_ERROR, p', s) else (ret, p', s))).
  { intros q ret len Hlen Hret Hneed.
    destruct (page_init_repr p es q len (p_prev_index q) H Hm Hv Hlen) as (p' & Hi & Hr' & Hm' & Hp' & Hc').
    exists p'. split; [done|]. intros s. rewrite (reserve_check p p' es) by done.
    destruct Hret as [-> | ->]; [|done]. split_and!; try done.
    rewrite (pr_quota _ _ Hr'), (pr_wpos _ _ Hr'), <- (pr_wpos _ _ H), Hc'.
    specialize (Hneed eq_refl). unfold need, PAGE_RESERVE, ENTRY_HEADER_SIZE, PAGE_END_MARK_LEN in *. lia. }
  destruct (decide (mmap1 = MMAP_OK)) as [->|Hne].
  { destruct (Hok p RS_OK cap) as (p' & -> & Ho); [unfold PAGE_MAX_SIZE; lia|by left|lia|]. apply Ho. }
  destruct (page_init_fails p (Some (b_mem (p_buf p))) mmap1 cap (p_prev_index p)) as (rc & p1 & -> & Hrc);
    [unfold PAGE_MAX_SIZE; lia|done|].
  rewrite bool_decide_false by done. cbn [negb].
  destruct (decide (mmap2 = MMAP_OK)) as [->|Hne2].
  - destruct (Hok p1 RS_FULL (-1)) as (p' & -> & Ho); [unfold PAGE_MAX_SIZE; lia|by right|done|]. apply Ho.
  - destruct (page_init_fails p1 (Some (b_mem (p_buf p))) mmap2 (-1) (p_prev_index p1))
      as (rc2 & p2 & -> & Hrc2); [unfold PAGE_MAX_SIZE; lia|done|].
    by rewrite bool_decide_false.
Qed.

(** ** The claims *)

(** The operations of a page and what they mean for the list of entries. *)
Inductive page_op :=
| OpCreate (e : entry)
| OpPut (e : entry) (rest : list byte)
| OpRemoveAfter (index : Z)
| OpClear (prev : Z)
| OpFsync (index : Z).

Definition page_exec (p : page) (op : page_op) : option page :=
  match op with
  | OpCreate e => page_create_entry p (e_term e) (e_seq e) (e_cid e) (e_flags e) (e_data e)
  | OpPut e rest => page_put_entry p (enc_entry e ++ rest)
  | OpRemoveAfter index => Some (fst (page_remove_after p index))
  | OpClear prev => Some (fst (page_clear p prev))
  | OpFsync index => Some (fst (page_fsync p index))
  end.

(** The abstract page: the index before the first entry, and the entries. *)
Definition apage : Type := Z * list entry.

Definition apage_exec (a : apage) (op : page_op) : apage :=
  let '(prev, es) := a in
  match op with
  | OpCreate e | OpPut e _ => (prev, es ++ [e])
  | OpRemoveAfter index => (prev, take (Z.to_nat (index - prev)) es)
  | OpClear prev' => (prev', [])
  | OpFsync _ => a
  end.

(** What the store guarantees before a call: entries fit the quota. *)
Definition op_legal (p : page) (op : page_op) : Prop :=
  match op with
  | OpCreate e | OpPut e _ =>
      entry_ok e /\ entry_size e <= page_quota p /\
      p_prev_index p + zlen (p_entries p) + 2 < 2 ^ 64
  | OpRemoveAfter index => is_u64 index
  | OpClear prev => 0 <= prev /\ prev + 1 < 2 ^ 64
  | OpFsync _ => True
  end.

(** A page in use, abstractly: it represents the list and is end-marked. *)
Definition page_is (p : page) (a : apage) : Prop :=
  page_repr p (snd a) /\ page_marked p /\ p_prev_index p = fst a.

Lemma page_exec_is p a op :
  page_is p a -> op_legal p op ->
  exists p', page_exec p op = Some p' /\ page_is p' (apage_exec a op).
Proof.
  destruct a as [pv es]. intros (H & Hm & Hp) Hl. cbn [fst snd] in *. subst pv. destruct op; cbn [op_legal] in Hl.
  1, 2: rewrite (pr_count _ _ H) in Hl; destruct Hl as (Hok & Hq & Hi).
  - destruct (page_create_entry_repr p es e) as (p' & E & (? & ?) & ?); [done..|]. by exists p'.
  - destruct (page_put_entry_repr p es e rest) as (p' & E & (? & ?) & ?); [done..|]. by exists p'.
  - destruct (page_remove_after_repr p es index H Hm Hl) as (? & ? & ?). by eexists.
  - destruct (repr_bounds p es H) as [Hb Hz].
    destruct (page_clear_repr p prev Hz Hb) as (p' & E & ? & ? & ? & _); [lia..|].
    exists p'. cbn [page_exec]. by rewrite E.
  - destruct (page_fsync_buf p index) as (F1 & F2 & F3 & F4). eexists. split; [done|].
    split_and!; [by apply page_fsync_repr|unfold page_marked; by rewrite F1|by rewrite F3].
Qed.

(** Sequences of operations. *)
Fixpoint page_run (p : page) (ops : list page_op) : option page :=
  match ops with
  | [] => Some p
  | op :: ops => match page_exec p op with Some p => page_run p ops | None => None end
  end.

(** Each operation of the sequence is legal where it runs. *)
Fixpoint ops_legal (p : page) (ops : list page_op) : Prop :=
  match ops with
  | [] => True
  | op :: ops => op_legal p op /\ forall p', page_exec p op = Some p' -> ops_legal p' ops
  end.

Lemma page_run_is ops : forall p a,
  page_is p a -> ops_legal p ops ->
  exists p', page_run p ops = Some p' /\ page_is p' (fold_left apage_exec ops a).
Proof.
  induction ops as [|op ops IH]; intros p a H Hl; [by exists p|].
  destruct Hl as [H1 H2]. destruct (page_exec_is p a op H H1) as (p1 & E & Hp1).
  cbn [page_run fold_left]. rewrite E. by apply IH; [|apply H2].
Qed.

(** C19: a page refines an indexed list of entries.  From a page that represents
    the list, every sequence of operations whose entries fit the quota completes
    (no assertion fires, no write leaves the mapping) and leaves a page that
    represents the list the abstract operations give: append, truncate after an
    index, reset, flush. *)
Theorem page_refines_list p a ops :
  page_is p a -> ops_legal p ops ->
  exists p', page_run p ops = Some p' /\ page_is p' (fold_left apage_exec ops a).
Proof. apply page_run_is. Qed.

(** A small empty page for the witnesses. *)
Definition demo_page : page :=
  fst (page_clear (mk_page true 160 0 0 0 (sc_buf_wrap (replicate 160 xaa) 160 SC_BUF_REF) []) 10).
Definition demo_entry : entry := mk_entry 2 5 77 1 [xab; xcd].

Lemma demo_page_is : page_is demo_page (10, []).
Proof.
  destruct (page_clear_repr
    (mk_page true 160 0 0 0 (sc_buf_wrap (replicate 160 xaa) 160 SC_BUF_REF) []) 10)
    as (p' & E & H1 & H2 & H3 & _); [reflexivity|vm_compute; intuition congruence|lia..|].
  unfold demo_page. rewrite E. done.
Qed.

Definition demo_ops : list page_op :=
  [OpCreate demo_entry; OpPut (mk_entry 2 6 77 1 []) [x99]; OpFsync 12].

Lemma demo_ops_legal : ops_legal demo_page demo_ops.
Proof.
  split; [split_and!; [apply (bool_decide_unpack _); reflexivity|vm_compute; congruence..]|].
  intros p1 E1. vm_compute in E1. injection E1 as <-.
  split; [split_and!; [apply (bool_decide_unpack _); reflexivity|vm_compute; congruence..]|].
  intros p2 _. by split.
Qed.

Lemma page_refines_list_witness :
  exists p', page_run demo_page (demo_ops ++ [OpRemoveAfter 11]) = Some p' /\ page_is p' (10, [demo_entry]).
Proof.
  apply (page_refines_list demo_page (10, []) (demo_ops ++ [OpRemoveAfter 11])); [apply demo_page_is|].
  split; [apply demo_ops_legal|]. intros p1 E1. vm_compute in E1. injection E1 as <-.
  split; [split_and!; [apply (bool_decide_unpack _); reflexivity|vm_compute; congruence..]|].
  intros p2 _. split; [done|]. intros p3 _. split; [vm_compute; intuition congruence|done].
Defined.

(** C22: crash recovery.  A file whose first bytes are a page header and the
    entries [es], followed by anything recovery stops at (the end mark, a torn
    entry, garbage that does not decode), opens as a page that represents exactly
    [es] under the index stored in the header, ready for appends; the mapped bytes
    are not changed. *)
Theorem page_open_recovers prev es rest prev' :
  let mem := page_header prev ++ enc_entries es ++ rest in
  zlen mem <= PAGE_MAX_SIZE -> PAGE_RESERVE <= zlen rest -> stops rest ->
  Forall entry_ok es -> Forall visible es -> 0 <= prev -> prev + zlen es + 1 < 2 ^ 64 ->
  exists p, page_open mem prev' = (p, []) /\ page_repr p es /\ p_prev_index p = prev /\
    b_mem (p_buf p) = mem.
Proof.
  intros mem ???????. destruct (page_open_repr mem prev es rest prev') as (p & ? & ? & ? & ? & _); try done.
  by exists p.
Qed.

(** Two entries, then the first bytes of a torn third one. *)
Lemma page_open_recovers_witness :
  let es := [demo_entry; mk_entry 3 6 77 0 []] in
  let rest := take 40 (enc_entry (mk_entry 3 7 77 0 (replicate 30 x11))) in
  exists p, page_open (page_header 10 ++ enc_entries es ++ rest) 0 = (p, []) /\ page_repr p es /\
    p_prev_index p = 10 /\ b_mem (p_buf p) = page_header 10 ++ enc_entries es ++ rest.
Proof.
  intros es rest. apply (page_open_recovers 10 es rest 0).
  - vm_compute. congruence.
  - vm_compute. congruence.
  - right; right. vm_compute. reflexivity.
  - repeat apply Forall_cons_2; try apply Forall_nil_2; apply (bool_decide_unpack _); reflexivity.
  - repeat apply Forall_cons_2; try apply Forall_nil_2; vm_compute; congruence.
  - lia.
  - vm_compute. reflexivity.
Defined.

(** An entry whose checksum happens to be zero is taken for the end mark: it
    and every entry after it disappear when the page is opened again, although
    the page in memory held them and [entry_decode] accepts them. *)
Theorem page_open_loses_zero_crc :
  let e0 := mk_entry 1 0 0 0 [x2b; x8f; xe1; xf6] in
  let mem := page_header 10 ++ enc_entries [e0; demo_entry] ++ replicate 60 x00 in
  entry_ok e0 /\ decodes (enc_entry e0) = Some (entry_size e0) /\
  p_entries (fst (page_open mem 0)) = [].
Proof. split_and!; [apply (bool_decide_unpack _)|..]; vm_compute; reflexivity. Qed.

(** Growing a page keeps its entries.  [page_reserve] either leaves a page
    with the same entries and index and a quota of at least [size] ([RS_OK]), or
    the same entries without the space ([RS_FULL]: the page would exceed its
    maximum or the grown file cannot be mapped), and only when both mappings fail
    does it report [RS_ERROR]. *)
Theorem page_reserve_keeps_entries p a size mmap1 mmap2 :
  page_is p a -> Forall visible (snd a) -> is_u32 size ->
  reserve_outcome p (snd a) size mmap1 mmap2 (page_reserve p size mmap1 mmap2).
Proof. intros (H & Hm & _) Hv Hs. by apply page_reserve_repr. Qed.

Lemma page_reserve_keeps_entries_witness :
  reserve_outcome demo_page [] 100000 MMAP_OK MMAP_ERROR
    (page_reserve demo_page 100000 MMAP_OK MMAP_ERROR).
Proof.
  apply (page_reserve_keeps_entries demo_page (10, [])); [apply demo_page_is|apply Forall_nil_2|lia].
Defined.

(** The entries sent to a follower.  For an index of the page,
    [page_get_entries] returns a pointer to the encodings of consecutive entries
    that start at the index: at least one, no more than needed to reach the limit,
    with their exact size and count. *)
Lemma page_get_entries_correct p a index limit :
  page_is p a -> fst a < index <= fst a + zlen (snd a) ->
  let sel := upto limit 0 (drop (Z.to_nat (index - fst a - 1)) (snd a)) in
  exists off, page_get_entries p index limit = (Some off, total_size sel, zlen sel) /\
    mread (b_mem (p_buf p)) off (total_size sel) = enc_entries sel /\ sel <> [].
Proof.
  destruct a as [prev es]. intros (H & _ & Hp) Hi. cbn [fst snd] in *. subst prev.
  destruct (page_get_entries_repr p es index limit H Hi) as (off & E & Hmem).
  exists off. split_and!; [done..|]. intros Hn.
  destruct (drop _ es) as [|e l] eqn:Ed.
  - apply (f_equal length) in Ed. rewrite length_drop in Ed. unfold zlen in Hi. cbn [length] in Ed. unfold ix in Ed. lia.
  - revert Hn. simpl. by case_if.
Qed.

Lemma page_get_entries_correct_witness :
  exists p off, page_exec demo_page (OpCreate demo_entry) = Some p /\
    page_get_entries p 11 1000 = (Some off, 38, 1) /\
    mread (b_mem (p_buf p)) off 38 = enc_entry demo_entry.
Proof.
  destruct (page_create_entry_repr demo_page [] demo_entry) as (p & E & (H1 & H2) & H3);
    [apply demo_page_is|apply (bool_decide_unpack _); reflexivity|vm_compute; congruence|vm_compute; reflexivity|].
  destruct (page_get_entries_correct p (10, [demo_entry]) 11 1000) as (off & H4 & H5 & _).
  - exact (conj H1 (conj H2 H3)).
  - cbn [fst snd]. change (zlen [demo_entry]) with 1. lia.
  - exists p, off. split_and!; [exact E|exact H4|].
    rewrite <- (app_nil_r (enc_entry demo_entry)). exact H5.
Defined.

(** reading a page file terminates.  On any file with a readable header the
    recovery loop stops by itself, at bytes where it has to stop, before the bound
    on its iterations is reached; the entry positions it collected and the write
    position lie inside the file. *)
Theorem page_read_terminates b acc :
  buf_wf b -> b_err b = 0 ->
  let '(b', acc') := page_read_loop (S (length (b_mem b))) b acc in
  buf_wf b' /\ stops (contents b') /\ b_rpos b <= b_rpos b' /\
  exists offs, acc' = acc ++ offs /\ Forall (fun o => b_rpos b <= o < b_rpos b') offs.
Proof.
  assert (G : forall fuel b acc, buf_wf b -> b_err b = 0 -> zlen (contents b) < Z.of_nat fuel ->
    let '(b', acc') := page_read_loop fuel b acc in
    buf_wf b' /\ stops (contents b') /\ b_rpos b <= b_rpos b' /\
    exists offs, acc' = acc ++ offs /\ Forall (fun o => b_rpos b <= o < b_rpos b') offs).
  2: { intros Hwf He. apply G; [done..|]. rewrite zlen_contents by done. destruct Hwf.
       unfold zlen in *. lia. }
  clear b acc. induction fuel as [|fuel IH]; intros b acc Hwf He Hf.
  { pose proof (zlen_nonneg (contents b)). lia. }
  rewrite page_read_loop_step by done. cbv zeta.
  assert (Hstop : stops (contents b) -> buf_wf b /\ stops (contents b) /\ b_rpos b <= b_rpos b /\
    exists offs, acc = acc ++ offs /\ Forall (fun o => b_rpos b <= o < b_rpos b) offs).
  { intros. split_and!; try done. exists []. by rewrite app_nil_r. }
  destruct (_ || _) eqn:E1.
  { apply Hstop. apply orb_true_iff in E1 as [E1|E1]; zb; [left; unfold ENTRY_HEADER_SIZE; lia|].
    by right; left. }
  destruct (Z.ltb_spec (zlen (contents b)) ENTRY_HEADER_SIZE); [by apply Hstop; left|].
  destruct (decodes (contents b)) as [len|] eqn:E2; [|by apply Hstop; right; right].
  assert (Hlen : 4 <= len <= zlen (contents b)).
  { unfold decodes in E2. revert E2. case_if; [|done]. intros [= <-]. zb. lia. }
  rewrite zlen_contents in * by done. pose proof Hwf as [].
  assert (Hwf1 : buf_wf (with_rpos b (b_rpos b + len))) by (apply wf_with_rpos; [done|lia]).
  specialize (IH (with_rpos b (b_rpos b + len)) (acc ++ [b_rpos b]) Hwf1 He).
  rewrite zlen_contents in IH by done. cbn [b_rpos b_wpos with_rpos] in IH.
  destruct (page_read_loop _ _ _) as [b' acc']. destruct IH as (H1 & H2 & H3 & offs & -> & H4); [lia|].
  split_and!; [done..|lia|]. exists (b_rpos b :: offs). rewrite <- app_assoc. split; [done|].
  apply Forall_cons_2; [lia|]. eapply List.Forall_impl, H4. simpl. intros. lia.
Qed.

Lemma page_read_terminates_witness :
  let b := sc_buf_wrap (replicate 50 x03) 50 SC_BUF_READ in
  let '(b', acc') := page_read_loop (S (length (b_mem b))) b [] in
  buf_wf b' /\ stops (contents b') /\ b_rpos b <= b_rpos b' /\
  exists offs, acc' = [] ++ offs /\ Forall (fun o => b_rpos b <= o < b_rpos b') offs.
Proof.
  intros b. apply (page_read_terminates b []); [|reflexivity].
  apply (wf_wrap (replicate 50 x03)). vm_compute. reflexivity.
Defined.

(** Removing entries of a flushed page does not touch [flush_index]. *)
Lemma remove_after_flush_index p es index :
  page_repr p es -> p_prev_index p < index < p_flush_index p ->
  p_flush_index (fst (page_remove_after p index)) = p_flush_index p.
Proof.
  intros H Hi. unfold page_remove_after. destruct (Z.leb_spec index (p_prev_index p)); [lia|].
  destruct (page_entry_at p (index +₆₄ 1)) as [off|]; [|done].
  unfold page_fsync. cbn [p_flush_index with_flush with_buf].
  rewrite (proj2 (Z.geb_le (p_flush_index p) index)) by lia. by rewrite orb_true_r.
Qed.

(** After a truncation new entries are taken for flushed.  When a page
    flushed up to its last index is cut behind [index] and an entry is created at
    [index + 1], [page_fsync] of that index does nothing: [flush_index] still
    holds the old last index, and no [msync] covers the new entry. *)
Theorem page_fsync_skips_after_truncation p a index e :
  page_is p a -> fst a < index < fst a + zlen (snd a) ->
  p_flush_index p = page_last_index p ->
  let p1 := fst (page_remove_after p index) in
  entry_ok e -> entry_size e <= page_quota p1 ->
  exists p2, page_exec p1 (OpCreate e) = Some p2 /\
    page_last_index p2 = index + 1 /\ page_fsync p2 (index + 1) = (p2, []).
Proof.
  destruct a as [prev es]. intros (H & Hm & Hp) Hi Hf p1 Hok Hq. cbn [fst snd] in *. subst prev.
  pose proof (pr_prev _ _ H) as Hpr. pose proof (pr_last _ _ H) as Hla.
  rewrite (pr_last_index _ _ H) in Hf.
  destruct (page_remove_after_repr p es index H Hm ltac:(lia)) as (H1 & Hm1 & Hp1). fold p1 in H1, Hm1, Hp1.
  pose proof (remove_after_flush_index p es index H ltac:(lia)) as Hf1. fold p1 in Hf1.
  assert (Hz : zlen (take (Z.to_nat (index - p_prev_index p)) es) = index - p_prev_index p).
  { unfold zlen in *. rewrite length_take. lia. }
  destruct (page_create_entry_repr p1 _ e H1 Hok Hq) as (p2 & E & (H2 & _) & Hp2); [rewrite Hz; lia|].
  exists p2. split; [done|].
  assert (Hl : page_last_index p2 = index + 1).
  { rewrite (pr_last_index _ _ H2), zlen_app, Hz. change (zlen [e]) with 1. lia. }
  split; [done|]. unfold page_fsync.
  assert (Hf2 : p_flush_index p2 = p_flush_index p).
  { revert E. unfold page_create_entry. case_if; [done|]. intros [= <-]. exact Hf1. }
  rewrite Hf2, (proj2 (Z.geb_le (p_flush_index p) (index + 1))) by lia. by rewrite orb_true_r.
Qed.

Lemma page_fsync_skips_after_truncation_witness :
  exists p p2, page_run demo_page demo_ops = Some p /\
    page_exec (fst (page_remove_after p 11)) (OpCreate (mk_entry 3 9 77 1 [])) = Some p2 /\
    page_last_index p2 = 12 /\ page_fsync p2 12 = (p2, []).
Proof.
  destruct (page_run_is demo_ops demo_page (10, []) demo_page_is demo_ops_legal) as (p & E & H).
  exists p.
  destruct (page_fsync_skips_after_truncation p (10, [demo_entry; mk_entry 2 6 77 1 []]) 11
    (mk_entry 3 9 77 1 [])) as (p2 & H2 & H3 & H4).
  - exact H.
  - cbn [fst snd]. change (zlen _) with 2. lia.
  - vm_compute in E. injection E as <-. reflexivity.
  - apply (bool_decide_unpack _). reflexivity.
  - vm_compute in E. injection E as <-. vm_compute. congruence.
  - exists p2. exact (conj E (conj H2 (conj H3 H4))).
Defined.
