(* ===== verification/Store.v ===== *)
(** * The log store: src/store.c

    Two pages hold the log: entries go to [pages[0]] until it is full, then to
    [pages[1]]; when a snapshot covers [pages[0]] it is cleared and the pages
    swap.  [s_curr] says which of the two [curr] points to.  The store represents
    a log: the index before the first entry and the entries in order. *)

From Stdlib Require Import ZArith Lia.
From Stdlib Require Import Strings.Byte.
From stdpp Require Import base list numbers.
From S2P Require Import Prelude Sc Buf Crc32 Entry Page.

Definition STORE_MAX_ENTRY_SIZE : Z := 512 * 1024 * 1024.

Inductive which := P0 | P1.

#[export] Instance which_eq_dec : EqDecision which.
Proof. solve_decision. Defined.

Record store := mk_store {
  s_ss_index : Z;
  s_ss_term : Z;
  s_p0 : page;
  s_p1 : page;
  s_curr : which;
  s_last_term : Z;
  s_last_index : Z
}.

Definition curr_page (s : store) : page :=
  match s_curr s with P0 => s_p0 s | P1 => s_p1 s end.

Definition with_pages (s : store) (p0 p1 : page) : store :=
  mk_store (s_ss_index s) (s_ss_term s) p0 p1 (s_curr s) (s_last_term s) (s_last_index s).
Definition with_curr_page (s : store) (p : page) : store :=
  match s_curr s with P0 => with_pages s p (s_p1 s) | P1 => with_pages s (s_p0 s) p end.
Definition with_curr (s : store) (c : which) : store :=
  mk_store (s_ss_index s) (s_ss_term s) (s_p0 s) (s_p1 s) c (s_last_term s) (s_last_index s).
Definition with_last (s : store) (term index : Z) : store :=
  mk_store (s_ss_index s) (s_ss_term s) (s_p0 s) (s_p1 s) (s_curr s) term index.
Definition with_ss (s : store) (term index : Z) : store :=
  mk_store index term (s_p0 s) (s_p1 s) (s_curr s) (s_last_term s) (s_last_index s).

(** Exchanging the page pointers; [curr] keeps pointing to the same page. *)
Definition store_swap (s : store) : store :=
  mk_store (s_ss_index s) (s_ss_term s) (s_p1 s) (s_p0 s)
    (match s_curr s with P0 => P1 | P1 => P0 end) (s_last_term s) (s_last_index s).

(** [store_read] after both pages are open; [s_p0] and [s_p1] hold them in the
    order of their file names.  Its steps: order the pages by index, drop a first
    page that the snapshot covers or that starts after it, drop a second page
    that does not follow the first, use the page that has entries first, choose
    the current page. *)
Definition read_sort (s : store) : store :=
  if page_prev_index (s_p1 s) <? page_prev_index (s_p0 s) then store_swap s else s.

Definition read_clear0 (s : store) : store :=
  let prev := page_prev_index (s_p0 s) in
  let last := page_last_index (s_p0 s) in
  if (prev >? s_ss_index s) || (last <=? s_ss_index s)
  then with_pages s (fst (page_clear (s_p0 s) (s_ss_index s))) (s_p1 s) else s.

Definition read_clear1 (s : store) : store :=
  if negb (page_prev_index (s_p1 s) =? page_last_index (s_p0 s))
  then with_pages s (s_p0 s) (fst (page_clear (s_p1 s) (s_ss_index s))) else s.

Definition read_order (s : store) : store :=
  if page_entry_count (s_p0 s) =? 0 then store_swap s else s.

(** [None] for the assertion in [page_last_term]. *)
Definition read_curr (s : store) : option store :=
  let c := page_entry_count (s_p1 s) in
  let s := with_curr s (if c >? 0 then P1 else P0) in
  let last_index := page_last_index (curr_page s) in
  let count := page_entry_count (curr_page s) in
  match (if negb (count =? 0) then page_last_term (curr_page s) else Some (s_ss_term s)) with
  | Some last_term => Some (with_last s last_term last_index)
  | None => None
  end.

Definition store_read_pages (s : store) : option store :=
  read_curr (read_order (read_clear1 (read_clear0 (read_sort s)))).

(** [store_init] with [store_read]: the two page files, the outcomes of mapping
    them.  [None] for a failing assertion. *)
Definition store_init (file0 file1 : option (list byte)) (mmap0 mmap1 : mmap_result)
    (ss_term ss_index : Z) : option (rs_rc * option store) :=
  let fresh := mk_page false 0 0 0 0 (sc_buf_init 0) [] in
  let '(rc, p0, _) := page_init fresh file0 mmap0 (-1) ss_index in
  if negb (bool_decide (rc = RS_OK)) then Some (rc, None)
  else
    let '(rc, p1, _) := page_init fresh file1 mmap1 (-1) ss_index in
    if negb (bool_decide (rc = RS_OK)) then Some (rc, None)
    else match store_read_pages (mk_store ss_index ss_term p0 p1 P0 0 0) with
         | Some s => Some (RS_OK, Some s)
         | None => None
         end.

Definition store_flush (s : store) : store * list msync :=
  let '(p, syncs) := page_fsync (curr_page s) (s_last_index s) in
  (with_curr_page s p, syncs).

(** [None]: the page is empty and the assertion fails. *)
Definition store_snapshot_taken (s : store) : option store :=
  if page_isempty (s_p0 s) then None
  else
    match page_last_term (s_p0 s) with
    | None => None
    | Some term =>
        let s := with_ss s term (page_last_index (s_p0 s)) in
        let s := with_pages s (fst (page_clear (s_p0 s) 0)) (s_p1 s) in
        Some (with_curr (store_swap s) P0)
    end.

Definition store_ss_index (s : store) : Z :=
  if page_isempty (s_p1 s) then UINT64_MAX else page_last_index (s_p0 s).

Definition store_ss_page (s : store) : page := s_p0 s.

(** The space management that [store_create_entry] and [store_put_entry] share:
    [goto retry] until the current page has room for [size] bytes.  [io] gives
    the outcomes of the mappings of each round, [flush] whether the page is
    flushed before the switch.  Three rounds are enough: a round that retries
    has made room or has switched to the other, empty page. *)
Fixpoint store_room (fuel : nat) (flush : bool) (io : nat -> mmap_result * mmap_result)
    (s : store) (size : Z) : rs_rc * store :=
  match fuel with
  | O => (RS_FAIL, s)
  | S fuel =>
      if size >? page_quota (curr_page s) then
        let '(rc, s) :=
          if size >? page_cap (curr_page s) then
            let '(rc, p, _) := page_reserve (curr_page s) size (fst (io fuel)) (snd (io fuel)) in
            (rc, with_curr_page s p)
          else (RS_FULL, s) in
        match rc with
        | RS_OK => store_room fuel flush io s size
        | RS_FULL =>
            if negb (bool_decide (s_curr s = P1)) then
              let s := if flush then fst (store_flush s) else s in
              let s := with_curr s P1 in
              let s := with_curr_page s (fst (page_clear (curr_page s) (s_last_index s))) in
              store_room fuel flush io s size
            else (RS_FULL, s)
        | _ => (rc, s)
        end
      else (RS_OK, s)
  end.

(** [None]: an assertion failed.  [io] as in [store_room]. *)
Definition store_create_entry (io : nat -> mmap_result * mmap_result) (s : store)
    (term seq cid flags : Z) (data : list byte) : option (rs_rc * store) :=
  let size := entry_encoded_len (zlen data) in
  if negb (size <? STORE_MAX_ENTRY_SIZE) then None
  else
    let '(rc, s) := store_room 4 false io s size in
    match rc with
    | RS_OK =>
        match page_create_entry (curr_page s) term seq cid flags data with
        | Some p => Some (RS_OK, with_last (with_curr_page s p) term (s_last_index s +₆₄ 1))
        | None => None
        end
    | _ => Some (rc, s)
    end.

Definition store_reserve (s : store) (size : Z) (mmap1 mmap2 : mmap_result)
    : option (rs_rc * store) :=
  if negb (bool_decide (s_curr s = P1)) then None
  else
    let '(rc, p, _) := page_reserve (s_p1 s) size mmap1 mmap2 in
    Some (rc, with_pages s (s_p0 s) p).

Definition store_last_part (s : store) : option bool :=
  if negb (bool_decide (s_curr s = P1)) then None else Some (page_last_part (curr_page s)).

(** [entry] is the memory at the entry pointer. *)
Definition store_put_entry (io : nat -> mmap_result * mmap_result) (s : store) (index : Z)
    (entry : list byte) : option (rs_rc * store) :=
  if negb (index =? s_last_index s +₆₄ 1) then None
  else if negb (s_last_term s <=? entry_term entry) then None
  else
    let size := entry_len entry in
    let '(rc, s) := store_room 4 true io s size in
    match rc with
    | RS_OK =>
        match page_put_entry (curr_page s) entry with
        | Some p => Some (RS_OK, with_last (with_curr_page s p) (entry_term entry) (s_last_index s +₆₄ 1))
        | None => None
        end
    | _ => Some (rc, s)
    end.

(** The memory at the entry's address. *)
Definition store_get_entry (s : store) (index : Z) : option (list byte) :=
  match page_entry_at (s_p0 s) index with
  | Some off => Some (entry_ptr (s_p0 s) off)
  | None =>
      match page_entry_at (s_p1 s) index with
      | Some off => Some (entry_ptr (s_p1 s) off)
      | None => None
      end
  end.

Definition store_prev_term (s : store) (index : Z) : Z :=
  match store_get_entry s index with
  | Some e => entry_term e
  | None => s_ss_term s
  end.

(** The memory from the first entry on, the size in bytes and the count. *)
Definition store_entries (s : store) (index limit : Z) : option (list byte) * Z * Z :=
  let '(head, size, count) := page_get_entries (s_p0 s) index limit in
  match head with
  | Some off => (Some (entry_ptr (s_p0 s) off), size, count)
  | None =>
      let '(head, size, count) := page_get_entries (s_p1 s) index limit in
      (match head with Some off => Some (entry_ptr (s_p1 s) off) | None => None end, size, count)
  end.

(** [None] for the assertion in [page_last_term]. *)
Definition store_remove_after (s : store) (index : Z) : option store :=
  let s := with_pages s (fst (page_remove_after (s_p0 s) index)) (s_p1 s) in
  let s := with_pages s (s_p0 s) (fst (page_remove_after (s_p1 s) index)) in
  let s := if page_isempty (s_p1 s) then with_curr s P0 else s in
  if page_isempty (curr_page s) then
    let s := with_last s (s_ss_term s) (s_ss_index s) in
    Some (with_curr_page s (fst (page_clear (curr_page s) (s_ss_index s))))
  else
    match page_last_term (curr_page s) with
    | Some term => Some (with_last s term (page_last_index (curr_page s)))
    | None => None
    end.

(** Proofs about the store use the pages through their specifications only. *)
#[local] Arguments page_clear : simpl never.
#[local] Arguments page_fsync : simpl never.
#[local] Arguments page_remove_after : simpl never.
#[local] Arguments page_reserve : simpl never.
#[local] Arguments page_last_index : simpl never.

(** ** The log a store represents *)

Definition last_term_of (ss_term : Z) (es : list entry) : Z :=
  match list.last es with Some e => e_term e | None => ss_term end.

(** The store holds the entries [es0] in the first page and [es1] in the second,
    numbered from [prev + 1]. *)
Record store_inv (s : store) (prev : Z) (es0 es1 : list entry) : Prop := {
  si_p0 : page_is (s_p0 s) (prev, es0);
  si_p1 : exists prev1, page_is (s_p1 s) (prev1, es1) /\
    match s_curr s with P0 => es1 = [] | P1 => prev1 = prev + zlen es0 end;
  si_visible : Forall visible (es0 ++ es1);
  si_ss : prev <= s_ss_index s <= prev + zlen (es0 ++ es1);
  si_base : es0 = [] -> prev = s_ss_index s;
  si_last : s_last_index s = prev + zlen (es0 ++ es1);
  si_term : s_last_term s = last_term_of (s_ss_term s) (es0 ++ es1)
}.

(** The log: index before the first entry, and the entries. *)
Definition store_is (s : store) (a : apage) : Prop :=
  exists es0 es1, store_inv s (fst a) es0 es1 /\ snd a = es0 ++ es1.

(** What the current page represents. *)
Definition curr_abs (s : store) (prev : Z) (es0 es1 : list entry) : apage :=
  match s_curr s with P0 => (prev, es0) | P1 => (prev + zlen es0, es1) end.

Lemma inv_curr s prev es0 es1 :
  store_inv s prev es0 es1 -> page_is (curr_page s) (curr_abs s prev es0 es1).
Proof.
  intros [H0 (prev1 & Hp & Hc) _ _ _ _ _]. unfold curr_page, curr_abs. revert Hc.
  destruct (s_curr s); [done|]. by intros <-.
Qed.

Lemma with_curr_page_curr s p : s_curr (with_curr_page s p) = s_curr s /\ curr_page (with_curr_page s p) = p.
Proof. unfold with_curr_page, curr_page. by destruct s as [? ? ? ? []]. Qed.

(** Replacing the current page by one with the same contents. *)
Lemma inv_set_curr s prev es0 es1 p :
  store_inv s prev es0 es1 -> page_is p (curr_abs s prev es0 es1) ->
  store_inv (with_curr_page s p) prev es0 es1.
Proof.
  intros [H0 (prev1 & H1 & Hc) Hv Hss Hb Hl Ht] Hp. unfold curr_abs, with_curr_page in *.
  destruct s as [ssi sst p0 p1 [] lt li]; cbn in *; split; cbn; try done; eauto.
Qed.

Lemma page_clear_is p a prev :
  page_is p a -> 0 <= prev -> prev + 1 < 2 ^ 64 -> page_is (fst (page_clear p prev)) (prev, []).
Proof.
  intros (H & _) H0 H1. destruct (repr_bounds p (snd a) H) as [Hb Hz].
  destruct (page_clear_repr p prev Hz Hb H0 H1) as (p' & -> & Hr & Hm & Hp & _). done.
Qed.

Lemma page_fsync_is p a i : page_is p a -> page_is (fst (page_fsync p i)) a.
Proof.
  intros (H & Hm & Hp). destruct (page_fsync_buf p i) as (F1 & _ & F3 & _).
  split_and!; [by apply page_fsync_repr|unfold page_marked; by rewrite F1|by rewrite F3].
Qed.

Lemma store_flush_inv s prev es0 es1 :
  store_inv s prev es0 es1 -> store_inv (fst (store_flush s)) prev es0 es1.
Proof.
  intros H. unfold store_flush. pose proof (inv_curr _ _ _ _ H) as Hc.
  pose proof (page_fsync_is _ _ (s_last_index s) Hc). destruct (page_fsync _ _) as [p syncs].
  by apply inv_set_curr.
Qed.

Lemma store_flush_same s :
  s_curr (fst (store_flush s)) = s_curr s /\ s_last_index (fst (store_flush s)) = s_last_index s.
Proof.
  unfold store_flush. destruct (page_fsync _ _) as [p syncs].
  unfold with_curr_page. by destruct (s_curr s) eqn:E; cbn; rewrite ?E.
Qed.

(** Switching to the second page: it is cleared to continue the log. *)
Lemma switch_inv s prev es0 es1 :
  store_inv s prev es0 es1 -> s_curr s = P0 -> s_last_index s + 1 < 2 ^ 64 ->
  let s1 := with_curr s P1 in
  store_inv (with_curr_page s1 (fst (page_clear (curr_page s1) (s_last_index s1)))) prev es0 es1.
Proof.
  intros [H0 (prev1 & H1 & Hc) Hv Hss Hb Hl Ht] HP Hi. rewrite HP in Hc. subst es1.
  pose proof (pr_prev _ _ (proj1 H0)) as Hpr. destruct H0 as (H0 & Hm0 & Hp0). cbn [fst snd] in *.
  pose proof (zlen_nonneg es0). rewrite app_nil_r in *.
  split; cbn; rewrite ?app_nil_r; try done.
  exists (s_last_index s). split; [|by rewrite Hl].
  eapply page_clear_is; [done|lia|done].
Qed.

Definition room_outcome (io : nat -> mmap_result * mmap_result) (size prev : Z) (es0 es1 : list entry)
    (r : rs_rc * store) : Prop :=
  let '(rc, s') := r in
  match rc with
  | RS_OK => store_inv s' prev es0 es1 /\ size <= page_quota (curr_page s')
  | RS_FULL => store_inv s' prev es0 es1
  | RS_ERROR => exists n, fst (io n) <> MMAP_OK /\ snd (io n) <> MMAP_OK
  | _ => False
  end.

Section Room.
Context (io : nat -> mmap_result * mmap_result) (flush : bool) (size prev : Z) (es0 es1 : list entry).
Hypothesis Hsize : is_u32 size.

(** The reservation of a round: the log is kept, [RS_OK] means there is room. *)
Lemma reserve_round s n :
  store_inv s prev es0 es1 ->
  room_outcome io size prev es0 es1
    (if size >? page_cap (curr_page s) then
       let '(rc, p, _) := page_reserve (curr_page s) size (fst (io n)) (snd (io n)) in
       (rc, with_curr_page s p)
     else (RS_FULL, s)) /\
  s_curr (snd (if size >? page_cap (curr_page s) then
       let '(rc, p, _) := page_reserve (curr_page s) size (fst (io n)) (snd (io n)) in
       (rc, with_curr_page s p)
     else (RS_FULL, s))) = s_curr s /\
  s_last_index (snd (if size >? page_cap (curr_page s) then
       let '(rc, p, _) := page_reserve (curr_page s) size (fst (io n)) (snd (io n)) in
       (rc, with_curr_page s p)
     else (RS_FULL, s))) = s_last_index s.
Proof.
  intros H. case_if; [|done]. pose proof (inv_curr _ _ _ _ H) as (Hr & Hm & Hp).
  assert (Hv : Forall visible (snd (curr_abs s prev es0 es1))).
  { pose proof (si_visible _ _ _ _ H) as Hv. apply Forall_app in Hv as [? ?].
    unfold curr_abs. by destruct (s_curr s). }
  pose proof (page_reserve_repr _ _ size (fst (io n)) (snd (io n)) Hr Hm Hv Hsize) as Ho.
  destruct (page_reserve _ _ _ _) as [[rc p] syncs]. unfold reserve_outcome in Ho.
  destruct (with_curr_page_curr s p) as [E1 E2]. cbn [snd]. split_and!; [|done|].
  - destruct rc; try done; cbn [room_outcome].
    + destruct Ho as (? & ? & ? & ?). rewrite E2. split; [|done]. apply inv_set_curr; [done|].
      split_and!; [done..|cbn [fst]; congruence].
    + by exists n.
    + destruct Ho as (? & ? & ?). apply inv_set_curr; [done|]. split_and!; [done..|congruence].
  - unfold with_curr_page. by destruct (s_curr s).
Qed.

Lemma store_room_enough fuel s :
  store_inv s prev es0 es1 -> (0 < fuel)%nat -> size <= page_quota (curr_page s) ->
  store_room fuel flush io s size = (RS_OK, s).
Proof.
  intros H Hf Hq. destruct fuel; [lia|]. cbn [store_room]. by rewrite if_false by zbool_solve.
Qed.

Lemma store_room_p1 fuel s :
  store_inv s prev es0 es1 -> s_curr s = P1 -> (1 < fuel)%nat ->
  room_outcome io size prev es0 es1 (store_room fuel flush io s size).
Proof.
  intros H HP Hf. destruct fuel as [|fuel]; [lia|]. cbn [store_room].
  destruct (Z.gtb_spec size (page_quota (curr_page s))) as [|Hq]; [|by split].
  destruct (reserve_round s fuel H) as (Ho & Ec & _).
  destruct (if size >? page_cap _ then _ else _) as [rc s1]. cbn [snd] in *.
  destruct rc; try done; cbn [room_outcome] in *.
  - destruct Ho as [H1 Hq1]. rewrite store_room_enough by (done || lia). done.
  - by rewrite bool_decide_true by congruence.
Qed.

Lemma store_room_inv fuel s :
  store_inv s prev es0 es1 -> s_last_index s + 1 < 2 ^ 64 -> (2 < fuel)%nat ->
  room_outcome io size prev es0 es1 (store_room fuel flush io s size).
Proof.
  intros H Hi Hf. destruct (decide (s_curr s = P1)) as [HP|HP]; [apply store_room_p1; done || lia|].
  destruct fuel as [|fuel]; [lia|]. cbn [store_room].
  destruct (Z.gtb_spec size (page_quota (curr_page s))) as [|Hq]; [|by split].
  destruct (reserve_round s fuel H) as (Ho & Ec & El).
  destruct (if size >? page_cap _ then _ else _) as [rc s1]. cbn [snd] in *.
  destruct rc; try done; cbn [room_outcome] in *.
  - destruct Ho as [H1 Hq1]. rewrite store_room_enough by (done || lia). done.
  - rewrite bool_decide_false by congruence. cbn [negb].
    set (s2 := if flush then fst (store_flush s1) else s1).
    assert (H2 : store_inv s2 prev es0 es1) by (unfold s2; destruct flush; [by apply store_flush_inv|done]).
    assert (HP2 : s_curr s2 = P0 /\ s_last_index s2 = s_last_index s).
    { assert (s_curr s1 = P0) by (destruct (s_curr s1); congruence).
      unfold s2. destruct (store_flush_same s1). destruct flush; split; congruence. }
    destruct HP2 as [HP2 Hl2].
    apply store_room_p1; [|done|lia]. apply switch_inv; [done..|]. by rewrite Hl2.
Qed.

End Room.

(** The log is full only when the current page had no room and the second page is in use. *)
Lemma store_room_full flush io size fuel : forall s s', store_room fuel flush io s size = (RS_FULL, s') ->
  s_curr s' = P1 /\ page_quota (curr_page s) < size.
Proof.
  induction fuel as [|fuel IH]; intros s s' H; [done|]. cbn [store_room] in H.
  destruct (Z.gtb_spec size (page_quota (curr_page s))); [|done]. split; [|lia].
  set (r := if size >? page_cap (curr_page s) then _ else _) in H.
  assert (Hc : s_curr (snd r) = s_curr s).
  { unfold r. case_if; [|done]. destruct (page_reserve _ _ _ _) as [[rc p] syncs]. apply with_curr_page_curr. }
  destruct r as [rc s1]. cbn [snd] in Hc. destruct rc; try done; [by apply IH in H as [? _]|].
  case_bool_decide as HP; cbn [negb] in H; [by injection H as <-|]. by apply IH in H as [? _].
Qed.

(** ** Appending *)

Lemma last_term_snoc t es e : last_term_of t (es ++ [e]) = e_term e.
Proof. unfold last_term_of. by rewrite last_snoc. Qed.

Lemma append_inv s prev es0 es1 p e :
  store_inv s prev es0 es1 -> visible e -> s_last_index s + 1 < 2 ^ 64 ->
  page_is p (fst (curr_abs s prev es0 es1), snd (curr_abs s prev es0 es1) ++ [e]) ->
  store_is (with_last (with_curr_page s p) (e_term e) (s_last_index s +₆₄ 1)) (prev, (es0 ++ es1) ++ [e]).
Proof.
  intros H Hv Hi Hp. pose proof (pr_prev _ _ (proj1 (si_p0 _ _ _ _ H))) as Hpr.
  destruct H as [H0 (prev1 & H1 & Hc) Hvs Hss Hb Hl Ht]. destruct H0 as (H0 & Hm0 & Hp0). cbn [fst snd] in *.
  pose proof (zlen_nonneg (es0 ++ es1)).
  rewrite u64_small by lia. unfold store_is. cbn [fst snd].
  destruct s as [ssi sst p0 p1 c lt li]. cbn in *. subst p0 || idtac.
  destruct c; cbn in *.
  - subst es1. rewrite app_nil_r in *. exists (es0 ++ [e]), []. split; [|by rewrite app_nil_r].
    split; cbn; rewrite ?app_nil_r, ?last_term_snoc, ?zlen_app; change (zlen [e]) with 1; try done; eauto; try lia.
    + apply Forall_app. by split; [|apply Forall_singleton].
    + intros E. by destruct es0.
  - exists es0, (es1 ++ [e]). split; [|by rewrite app_assoc].
    split; cbn; rewrite ?app_assoc, ?last_term_snoc, ?zlen_app in *; change (zlen [e]) with 1; try done; eauto; try lia.
    apply Forall_app. by split; [|apply Forall_singleton].
Qed.

(** The outcome of an append for the log [a]. *)
Definition append_outcome (io : nat -> mmap_result * mmap_result) (a : apage) (e : entry)
    (r : rs_rc * store) : Prop :=
  let '(rc, s') := r in
  match rc with
  | RS_OK => store_is s' (fst a, snd a ++ [e])
  | RS_FULL => store_is s' a
  | RS_ERROR => exists n, fst (io n) <> MMAP_OK /\ snd (io n) <> MMAP_OK
  | _ => False
  end.

Lemma curr_room s prev es0 es1 :
  store_inv s prev es0 es1 -> s_last_index s + 3 < 2 ^ 64 ->
  p_prev_index (curr_page s) + zlen (snd (curr_abs s prev es0 es1)) + 2 < 2 ^ 64.
Proof.
  intros H Hi. pose proof (inv_curr _ _ _ _ H) as (_ & _ & ->).
  pose proof (si_last _ _ _ _ H) as Hl. rewrite zlen_app in Hl.
  pose proof (zlen_nonneg es0). pose proof (zlen_nonneg es1).
  unfold curr_abs. destruct (s_curr s); cbn [fst snd]; lia.
Qed.

Lemma store_is_bound s a : store_is s a -> 0 <= fst a /\ s_last_index s = fst a + zlen (snd a).
Proof.
  intros (es0 & es1 & H & E). split; [|by rewrite E, (si_last _ _ _ _ H)].
  pose proof (pr_prev _ _ (proj1 (si_p0 _ _ _ _ H))) as Hp.
  destruct (si_p0 _ _ _ _ H) as (_ & _ & Hq). cbn [fst] in Hq. lia.
Qed.

Lemma store_create_entry_is io s a e :
  store_is s a -> entry_ok e -> visible e -> entry_size e < STORE_MAX_ENTRY_SIZE ->
  s_last_index s + 3 < 2 ^ 64 ->
  exists r, store_create_entry io s (e_term e) (e_seq e) (e_cid e) (e_flags e) (e_data e) = Some r /\
    append_outcome io a e r.
Proof.
  intros (es0 & es1 & H & Ea) Hok Hv Hs Hi. destruct a as [prev es]. cbn [fst snd] in *. subst es.
  unfold store_create_entry, entry_encoded_len. fold (entry_size e).
  pose proof (entry_size_u32 e Hok) as Hu. rewrite u32_small by done.
  rewrite (proj2 (Z.ltb_lt _ _) Hs). cbn [negb].
  pose proof (store_room_inv io false (entry_size e) prev es0 es1 Hu 4 s H ltac:(lia) ltac:(lia)) as Ho.
  destruct (store_room 4 false io s (entry_size e)) as [rc s1] eqn:Er. cbn [room_outcome] in Ho.
  destruct rc; try done; eauto.
  - destruct Ho as [H1 Hq]. pose proof (inv_curr _ _ _ _ H1) as (Hr & Hm & Hp).
    assert (Hl : s_last_index s1 = s_last_index s)
      by by rewrite (si_last _ _ _ _ H1), (si_last _ _ _ _ H).
    destruct (page_create_entry_repr _ _ e Hr Hok Hq) as (p' & -> & (Hr' & Hm') & Hp').
    { apply curr_room; [done|by rewrite Hl]. }
    eexists. split; [done|]. apply append_inv; [done..|by rewrite Hl; lia|].
    split_and!; [done..|cbn [fst]; congruence].
  - eexists. split; [done|]. by exists es0, es1.
Qed.

Lemma store_put_entry_is io s a e rest :
  store_is s a -> entry_ok e -> visible e ->
  s_last_index s + 3 < 2 ^ 64 -> s_last_term s <= e_term e ->
  exists r, store_put_entry io s (s_last_index s + 1) (enc_entry e ++ rest) = Some r /\
    append_outcome io a e r.
Proof.
  intros Ha Hok Hv Hi Ht. destruct (store_is_bound s a Ha) as [Hb0 Hb1].
  destruct Ha as (es0 & es1 & H & Ea). destruct a as [prev es]. cbn [fst snd] in *. subst es.
  unfold store_put_entry. pose proof (zlen_nonneg (es0 ++ es1)).
  rewrite u64_small, Z.eqb_refl by lia. cbn [negb].
  rewrite entry_term_enc, entry_len_enc by done. rewrite (proj2 (Z.leb_le _ _) Ht). cbn [negb].
  pose proof (entry_size_u32 e Hok) as Hu.
  pose proof (store_room_inv io true (entry_size e) prev es0 es1 Hu 4 s H ltac:(lia) ltac:(lia)) as Ho.
  destruct (store_room 4 true io s (entry_size e)) as [rc s1] eqn:Er. cbn [room_outcome] in Ho.
  destruct rc; try done; eauto.
  - destruct Ho as [H1 Hq]. pose proof (inv_curr _ _ _ _ H1) as (Hr & Hm & Hp).
    assert (Hl : s_last_index s1 = s_last_index s)
      by by rewrite (si_last _ _ _ _ H1), (si_last _ _ _ _ H).
    destruct (page_put_entry_repr _ _ e rest Hr Hok Hq) as (p' & -> & (Hr' & Hm') & Hp').
    { apply curr_room; [done|by rewrite Hl]. }
    eexists. split; [done|]. apply append_inv; [done..|by rewrite Hl; lia|].
    split_and!; [done..|cbn [fst]; congruence].
  - eexists. split; [done|]. by exists es0, es1.
Qed.

(** ** Lookups *)

(** Entry [index] of the log. *)
Definition log_at (a : apage) (index : Z) : option entry :=
  if (fst a <? index) && (index <=? fst a + zlen (snd a))
  then snd a !! Z.to_nat (index - fst a - 1) else None.

Lemma page_entry_at_is p a index :
  page_is p a ->
  match page_entry_at p index with
  | Some off => exists e rest, log_at a index = Some e /\ entry_ptr p off = enc_entry e ++ rest /\ entry_ok e
  | None => log_at a index = None
  end.
Proof.
  destruct a as [prev es]. intros (H & _ & Hp). cbn [fst snd] in *. subst prev.
  rewrite (page_entry_at_repr p es H). unfold log_at. cbn [fst snd].
  destruct (_ && _) eqn:E; [|done]. zb. destruct (ix_pos p es H index) as [_ Hlt]; [lia|].
  change (Z.to_nat (index - p_prev_index p - 1)) with (ix p index).
  destruct (lookup_lt_is_Some_2 es (ix p index) Hlt) as [e He].
  destruct (pr_entry_ptr p es H _ e He) as (off & Ho & Hptr & ->).
  rewrite (drop_S _ _ _ He) in Hptr. change (enc_entries (e :: ?l)) with (enc_entry e ++ enc_entries l) in Hptr.
  rewrite <- app_assoc in Hptr. eexists e, _. split_and!; [done..|].
  eapply Forall_lookup_1; [apply (pr_ok _ _ H)|done].
Qed.

Lemma log_at_app prev es0 es1 index :
  log_at (prev, es0 ++ es1) index =
  match log_at (prev, es0) index with
  | Some e => Some e
  | None => log_at (prev + zlen es0, es1) index
  end.
Proof.
  unfold log_at. cbn [fst snd]. rewrite zlen_app. pose proof (zlen_nonneg es0). pose proof (zlen_nonneg es1).
  destruct (Z.ltb_spec prev index); cbn [andb].
  2: { rewrite (proj2 (Z.ltb_ge (prev + zlen es0) index)) by lia. done. }
  destruct (Z.leb_spec index (prev + zlen es0)).
  - rewrite (proj2 (Z.leb_le index (prev + (zlen es0 + zlen es1)))) by lia.
    rewrite lookup_app_l by (unfold zlen in *; lia).
    destruct (lookup_lt_is_Some_2 es0 (Z.to_nat (index - prev - 1))) as [e He]; [unfold zlen in *; lia|].
    by rewrite He.
  - rewrite (proj2 (Z.ltb_lt (prev + zlen es0) index)) by lia. cbn [andb]. rewrite Z.add_assoc.
    destruct (Z.leb_spec index (prev + zlen es0 + zlen es1)); [|done].
    rewrite lookup_app_r by (unfold zlen in *; lia). f_equal. unfold zlen in *. lia.
Qed.

Lemma log_at_nil prev index : log_at (prev, []) index = None.
Proof. unfold log_at. cbn [fst snd]. by destruct (_ && _). Qed.

Lemma store_get_entry_is s a index :
  store_is s a ->
  match store_get_entry s index with
  | Some m => exists e rest, log_at a index = Some e /\ m = enc_entry e ++ rest /\ entry_ok e
  | None => log_at a index = None
  end.
Proof.
  intros (es0 & es1 & H & E). destruct a as [prev es]. cbn [fst snd] in *. subst es.
  unfold store_get_entry. rewrite log_at_app.
  pose proof (page_entry_at_is _ _ index (si_p0 _ _ _ _ H)) as H0.
  destruct (page_entry_at (s_p0 s) index) as [off|].
  { destruct H0 as (e & rest & -> & -> & ?). eauto. }
  rewrite H0. destruct (si_p1 _ _ _ _ H) as (prev1 & Hp1 & Hc).
  assert (E1 : log_at (prev1, es1) index = log_at (prev + zlen es0, es1) index).
  { destruct (s_curr s); [by subst; rewrite !log_at_nil|by subst]. }
  rewrite <- E1. pose proof (page_entry_at_is _ _ index Hp1) as H1.
  destruct (page_entry_at (s_p1 s) index) as [off|]; [|done].
  destruct H1 as (e & rest & -> & -> & ?). eauto.
Qed.

(** ** Truncation *)

Lemma page_remove_after_is p a index :
  page_is p a -> is_u64 index ->
  page_is (fst (page_remove_after p index)) (fst a, take (Z.to_nat (index - fst a)) (snd a)).
Proof.
  destruct a as [prev es]. intros (H & Hm & Hp) Hi. cbn [fst snd] in *. subst prev.
  destruct (page_remove_after_repr p es index H Hm Hi) as (? & ? & ?). done.
Qed.

Lemma page_isempty_is p a : page_is p a -> page_isempty p = bool_decide (snd a = []).
Proof.
  intros (H & _). unfold page_isempty. rewrite (pr_count _ _ H). destruct (snd a); done.
Qed.

Lemma page_last_term_is p a :
  page_is p a -> page_last_term p = (e_term <$> list.last (snd a)).
Proof.
  destruct a as [prev es]. intros (H & _ & _). cbn [snd] in *. unfold page_last_term, page_last_entry.
  rewrite !last_lookup.
  assert (El : length (p_entries p) = length es) by (rewrite (pr_entries _ _ H); apply length_offsets).
  rewrite El. destruct (es !! pred (length es)) as [e|] eqn:He.
  - destruct (pr_entry_ptr_enc p es H _ e He) as (off & rest & -> & ->).
    cbn [fmap option_fmap option_map].
    rewrite entry_term_enc; [done|]. eapply Forall_lookup_1; [apply (pr_ok _ _ H)|done].
  - apply lookup_ge_None in He. rewrite lookup_ge_None_2 by lia. done.
Qed.

Lemma page_last_index_is p a : page_is p a -> page_last_index p = fst a + zlen (snd a).
Proof. intros (H & _ & <-). by apply pr_last_index. Qed.

Lemma page_is_prev p a : page_is p a -> 0 <= fst a /\ fst a + 1 < 2 ^ 64.
Proof.
  intros (H & _ & <-). pose proof (pr_prev _ _ H). pose proof (pr_last _ _ H).
  pose proof (zlen_nonneg (snd a)). lia.
Qed.

(** Cutting [es0 ++ es1] cuts the second part first. *)
Lemma take_split (es0 es1 : list entry) prev index :
  take (Z.to_nat (index - prev)) (es0 ++ es1) =
  take (Z.to_nat (index - prev)) es0 ++ take (Z.to_nat (index - (prev + zlen es0))) es1.
Proof. rewrite take_app. do 2 f_equal. unfold zlen. lia. Qed.

Lemma last_app_ne {A} (xs ys : list A) : ys <> [] -> list.last (xs ++ ys) = list.last ys.
Proof. intros H. rewrite last_app. destruct (list.last ys) eqn:E; [done|]. by apply last_None in E. Qed.

Lemma Forall_visible_take n (es : list entry) : Forall visible es -> Forall visible (take n es).
Proof. apply Forall_take. Qed.

Lemma zlen_take (es : list entry) k : 0 <= k -> zlen (take (Z.to_nat k) es) = Z.min k (zlen es).
Proof. intros. unfold zlen. rewrite length_take. lia. Qed.

(** The two pages after the cut: [k0] and [k1] are what they keep. *)
Record cut_parts (s : store) (prev prev1 index : Z) (es0 es1 k0 k1 : list entry) : Prop := {
  cp_p0 : page_is (fst (page_remove_after (s_p0 s) index)) (prev, k0);
  cp_p1 : page_is (fst (page_remove_after (s_p1 s) index)) (prev1, k1);
  cp_take : take (Z.to_nat (index - prev)) (es0 ++ es1) = k0 ++ k1;
  cp_len : zlen (k0 ++ k1) = Z.min (index - prev) (zlen (es0 ++ es1));
  cp_visible : Forall visible (k0 ++ k1);
  cp_base : k0 = [] -> prev = s_ss_index s;
  cp_second : k1 <> [] -> s_curr s = P1 /\ k0 = es0 /\ prev1 = prev + zlen es0
}.

Lemma cut_parts_intro s prev es0 es1 index :
  store_inv s prev es0 es1 -> is_u64 index -> s_ss_index s <= index ->
  exists prev1 k0 k1, cut_parts s prev prev1 index es0 es1 k0 k1.
Proof.
  intros [H0 (prev1 & H1 & Hc) Hv Hss Hb Hl Ht] Hi Hge. exists prev1.
  set (k0 := take (Z.to_nat (index - prev)) es0). set (k1 := take (Z.to_nat (index - prev1)) es1).
  exists k0, k1.
  assert (Ek : take (Z.to_nat (index - prev)) (es0 ++ es1) = k0 ++ k1).
  { rewrite take_split. unfold k0, k1. f_equal. destruct (s_curr s); subst; [by rewrite !take_nil|done]. }
  split; try done.
  - by apply (page_remove_after_is _ _ index H0).
  - by apply (page_remove_after_is _ _ index H1).
  - rewrite <- Ek. apply zlen_take. lia.
  - rewrite <- Ek. by apply Forall_visible_take.
  - intros Hn. destruct es0 as [|e0 es0]; [by apply Hb|]. unfold k0 in Hn.
    destruct (Z.to_nat (index - prev)) eqn:En; [lia|done].
  - intros Hn. destruct (s_curr s); [by subst; unfold k1 in Hn; rewrite take_nil in Hn|].
    split_and!; [done| |done]. unfold k0. apply take_ge.
    assert (0 < index - prev1); [|unfold zlen in *; lia].
    destruct (Z_lt_le_dec 0 (index - prev1)); [done|]. exfalso. apply Hn. unfold k1.
    by replace (Z.to_nat (index - prev1)) with 0%nat by lia.
Qed.

Lemma store_remove_after_is s a index :
  store_is s a -> is_u64 index -> s_ss_index s <= index ->
  exists s', store_remove_after s index = Some s' /\
    store_is s' (fst a, take (Z.to_nat (index - fst a)) (snd a)) /\
    s_ss_index s' = s_ss_index s.
Proof.
  intros (es0 & es1 & H & E) Hi Hge. destruct a as [prev es]. cbn [fst snd] in *. subst es.
  destruct (cut_parts_intro s prev es0 es1 index H Hi Hge)
    as (prev1 & k0 & k1 & [R0 R1 -> Hz Hvk Hk0 Hk1]).
  destruct (page_is_prev _ _ R0) as [Hp0 Hp1]. cbn [fst] in *.
  destruct H as [_ _ _ Hss _ _ _].
  unfold store_remove_after. cbn [s_p0 s_p1 with_pages s_curr].
  rewrite (page_isempty_is _ _ R1). cbn [snd]. destruct (decide (k1 = [])) as [->|E1].
  - rewrite bool_decide_true by done. unfold curr_page.
    cbn [s_curr with_curr s_p0 s_p1 with_pages s_ss_index s_ss_term with_last].
    rewrite (page_isempty_is _ _ R0). cbn [snd]. rewrite app_nil_r in *.
    destruct (decide (k0 = [])) as [->|E0].
    + rewrite bool_decide_true by done. eexists. split; [done|]. split; [|done].
      exists [], []. split; [|done]. pose proof (Hk0 eq_refl) as Hps.
      split; cbn; try done; rewrite <- ?Hps; try (change (zlen []) with 0; lia).
      * eapply page_clear_is; [apply R0|lia..].
      * by exists prev1.
    + rewrite bool_decide_false by done. rewrite (page_last_term_is _ _ R0). cbn [snd].
      destruct (list.last k0) as [e|] eqn:EL; [|by apply last_None in EL]. cbn [fmap option_fmap option_map].
      eexists. split; [done|]. split; [|done]. exists k0, []. rewrite app_nil_r. split; [|done].
      split; cbn; rewrite ?app_nil_r; try done; [by exists prev1|lia| |].
      * by rewrite (page_last_index_is _ _ R0).
      * unfold last_term_of. by rewrite EL.
  - rewrite bool_decide_false by done. destruct (Hk1 E1) as (HP & Ek0 & Hpr).
    unfold curr_page. cbn [s_curr with_pages]. rewrite HP. cbn [s_p0 s_p1 with_pages].
    rewrite (page_isempty_is _ _ R1). cbn [snd]. rewrite bool_decide_false by done.
    rewrite (page_last_term_is _ _ R1). cbn [snd].
    destruct (list.last k1) as [e|] eqn:EL; [|by apply last_None in EL]. cbn [fmap option_fmap option_map].
    eexists. split; [done|]. split; [|done]. exists k0, k1. split; [|done].
    split; cbn; rewrite ?HP; try done; [|lia| |].
    + exists prev1. split; [done|]. by rewrite Ek0.
    + rewrite (page_last_index_is _ _ R1), zlen_app, Ek0. cbn [fst snd]. lia.
    + unfold last_term_of. by rewrite last_app_ne, EL.
Qed.

(** ** Snapshots *)

Lemma store_snapshot_taken_inv s prev es0 es1 :
  store_inv s prev es0 es1 -> es0 <> [] -> es1 <> [] ->
  exists s', store_snapshot_taken s = Some s' /\ store_inv s' (prev + zlen es0) es1 [] /\
    s_ss_index s' = prev + zlen es0 /\ s_last_index s' = s_last_index s /\
    s_ss_term s' = last_term_of (s_ss_term s) es0.
Proof.
  intros [H0 (prev1 & H1 & Hc) Hv Hss Hb Hl Ht] Hne0 Hne1. unfold store_snapshot_taken.
  rewrite (page_isempty_is _ _ H0), bool_decide_false by done.
  rewrite (page_last_term_is _ _ H0). cbn [snd].
  destruct (list.last es0) as [e|] eqn:EL; [|by apply last_None in EL]. cbn [fmap option_fmap option_map].
  destruct (s_curr s); [done|]. subst prev1. apply Forall_app in Hv as [_ Hv].
  rewrite zlen_app in *. pose proof (zlen_nonneg es1).
  eexists. split; [done|]. split_and!; try done.
  - split; cbn; rewrite ?app_nil_r, ?(page_last_index_is _ _ H0); cbn [fst snd]; try done; try lia.
    + exists 0. split; [|done]. eapply page_clear_is; [apply H0|lia..].
    + rewrite Ht. unfold last_term_of. rewrite last_app_ne by done.
      destruct (list.last es1) eqn:E1; [done|by apply last_None in E1].
  - cbn. by rewrite (page_last_index_is _ _ H0).
  - cbn. unfold last_term_of. by rewrite EL.
Qed.

(** ** Opening the store again *)

Lemma page_count_is p a : page_is p a -> page_entry_count p = zlen (snd a).
Proof.
  intros (H & _). unfold page_entry_count. rewrite (pr_count _ _ H). apply u32_small.
  pose proof (zlen_nonneg (snd a)). pose proof (length_le_total (snd a)).
  pose proof (pr_wpos _ _ H). pose proof (pr_room _ _ H). pose proof (pr_max _ _ H).
  unfold PAGE_HEADER_LEN, PAGE_RESERVE, ENTRY_HEADER_SIZE, PAGE_END_MARK_LEN, PAGE_MAX_SIZE in *. lia.
Qed.

(** The end of [store_read]: choosing the current page. *)
Lemma read_curr_inv s prev prev1 es0 es1 :
  page_is (s_p0 s) (prev, es0) -> page_is (s_p1 s) (prev1, es1) ->
  (es1 <> [] -> prev1 = prev + zlen es0) -> (es0 = [] -> es1 = [] /\ prev = s_ss_index s) ->
  Forall visible (es0 ++ es1) -> prev <= s_ss_index s <= prev + zlen (es0 ++ es1) ->
  exists s', read_curr s = Some s' /\ store_inv s' prev es0 es1 /\
    s_ss_index s' = s_ss_index s /\ s_ss_term s' = s_ss_term s.
Proof.
  intros H0 H1 Hch Hem Hv Hss. unfold read_curr, curr_page. cbn [s_p0 s_p1 s_curr with_curr s_ss_term].
  rewrite (page_count_is _ _ H1). cbn [snd].
  destruct (decide (es1 = [])) as [->|Hne].
  - change (zlen [] >? 0) with false. cbv iota. rewrite (page_count_is _ _ H0), (page_last_term_is _ _ H0).
    cbn [snd]. rewrite app_nil_r in *.
    destruct (list.last es0) as [e|] eqn:EL; cbn [fmap option_fmap option_map].
    + assert (zlen es0 <> 0) by (destruct es0; [done|rewrite zlen_cons; pose proof (zlen_nonneg es0); lia]).
      rewrite (proj2 (Z.eqb_neq _ _)) by done. cbn [negb]. eexists. split; [done|]. split; [|done].
      split; cbn; rewrite ?app_nil_r; try done; [by exists prev1|by intros ->|by rewrite (page_last_index_is _ _ H0)|].
      unfold last_term_of. by rewrite EL.
    + apply last_None in EL as ->. cbn [negb Z.eqb zlen length Z.of_nat]. eexists. split; [done|]. split; [|done].
      split; cbn; try done; [by exists prev1|by intros _; apply Hem|by rewrite (page_last_index_is _ _ H0)].
  - assert (Hz : 0 < zlen es1) by (destruct es1; [done|rewrite zlen_cons; pose proof (zlen_nonneg es1); lia]).
    rewrite (if_true (_ >? 0)) by zbool_solve. rewrite (page_count_is _ _ H1), (page_last_term_is _ _ H1).
    cbn [snd]. rewrite (proj2 (Z.eqb_neq _ _)) by lia. cbn [negb].
    destruct (list.last es1) as [e|] eqn:EL; [|by apply last_None in EL]. cbn [fmap option_fmap option_map].
    eexists. split; [done|]. split; [|done]. pose proof (Hch Hne). subst prev1.
    split; cbn; try done; [by eexists|by intros ->; apply Hem| |].
    + rewrite (page_last_index_is _ _ H1), zlen_app. cbn [fst snd]. lia.
    + unfold last_term_of. by rewrite last_app_ne, EL.
Qed.

Section Read.
Context (ss_index ss_term : Z).

(** A store whose pages are open, and what its pages hold. *)
Definition holds (s : store) (a0 a1 : apage) : Prop :=
  page_is (s_p0 s) a0 /\ page_is (s_p1 s) a1 /\ s_ss_index s = ss_index /\ s_ss_term s = ss_term.

Lemma read_sort_holds s a0 a1 :
  holds s a0 a1 ->
  if fst a1 <? fst a0 then holds (read_sort s) a1 a0 else holds (read_sort s) a0 a1.
Proof.
  intros (H0 & H1 & E1 & E2). unfold read_sort, page_prev_index.
  rewrite (proj2 (proj2 H0)), (proj2 (proj2 H1)). by destruct (_ <? _).
Qed.

Lemma read_clear0_holds s a0 a1 :
  holds s a0 a1 -> 0 <= ss_index -> ss_index + 1 < 2 ^ 64 ->
  holds (read_clear0 s)
    (if (fst a0 >? ss_index) || (fst a0 + zlen (snd a0) <=? ss_index) then (ss_index, []) else a0) a1.
Proof.
  intros (H0 & H1 & E1 & E2) Hs Hm. unfold read_clear0, page_prev_index.
  rewrite (proj2 (proj2 H0)), (page_last_index_is _ _ H0), E1. destruct (_ || _); [|done].
  split_and!; try done. by eapply page_clear_is.
Qed.

Lemma read_clear1_holds s a0 a1 :
  holds s a0 a1 -> 0 <= ss_index -> ss_index + 1 < 2 ^ 64 ->
  holds (read_clear1 s) a0 (if fst a1 =? fst a0 + zlen (snd a0) then a1 else (ss_index, [])).
Proof.
  intros (H0 & H1 & E1 & E2) Hs Hm. unfold read_clear1, page_prev_index.
  rewrite (proj2 (proj2 H1)), (page_last_index_is _ _ H0), E1. destruct (_ =? _); [done|].
  split_and!; try done. by eapply page_clear_is.
Qed.

Lemma read_order_holds s a0 a1 :
  holds s a0 a1 ->
  if zlen (snd a0) =? 0 then holds (read_order s) a1 a0 else holds (read_order s) a0 a1.
Proof.
  intros (H0 & H1 & E1 & E2). unfold read_order. rewrite (page_count_is _ _ H0). by destruct (_ =? 0).
Qed.

Lemma zlen_pos {A} (l : list A) : l <> [] -> 0 < zlen l.
Proof. destruct l; [done|]. rewrite zlen_cons. pose proof (zlen_nonneg l). lia. Qed.

Lemma zlen_zero {A} (l : list A) : zlen l <= 0 -> l = [].
Proof. destruct l; [done|]. rewrite zlen_cons. pose proof (zlen_nonneg l). lia. Qed.

Definition reads_as (s : store) (prev : Z) (es0 es1 : list entry) : Prop :=
  exists s', store_read_pages s = Some s' /\ store_inv s' prev es0 es1 /\
    s_ss_index s' = ss_index /\ s_ss_term s' = ss_term.

(** Two pages in sequence, the snapshot inside the first; in either file order. *)
Lemma store_read_chain s prev es0 es1 :
  0 <= ss_index -> ss_index + 1 < 2 ^ 64 ->
  prev <= ss_index < prev + zlen es0 -> Forall visible (es0 ++ es1) ->
  holds s (prev, es0) (prev + zlen es0, es1) \/ holds s (prev + zlen es0, es1) (prev, es0) ->
  reads_as s prev es0 es1.
Proof.
  intros Hs Hm Hss Hv Hor. pose proof (zlen_nonneg es1).
  assert (H1 : holds (read_sort s) (prev, es0) (prev + zlen es0, es1)).
  { destruct Hor as [Hh|Hh]; pose proof (read_sort_holds s _ _ Hh) as Hr; cbn [fst] in Hr.
    - by rewrite (proj2 (Z.ltb_ge _ _)) in Hr by lia.
    - by rewrite (proj2 (Z.ltb_lt _ _)) in Hr by lia. }
  pose proof (read_clear0_holds _ _ _ H1 Hs Hm) as H2. cbn [fst snd] in H2.
  rewrite (if_false (_ || _)) in H2 by (apply orb_false_iff; split; zbool_solve).
  pose proof (read_clear1_holds _ _ _ H2 Hs Hm) as H3. cbn [fst snd] in H3. rewrite Z.eqb_refl in H3.
  pose proof (read_order_holds _ _ _ H3) as H4. cbn [fst snd] in H4.
  rewrite (proj2 (Z.eqb_neq (zlen es0) 0)) in H4 by lia. destruct H4 as (P0 & P1 & E1 & E2).
  destruct (read_curr_inv _ prev (prev + zlen es0) es0 es1 P0 P1) as (s' & E & Hi & F1 & F2); try done.
  - intros ->. change (zlen []) with 0 in Hss. lia.
  - rewrite zlen_app, E1. lia.
  - exists s'. split_and!; [done..|congruence|congruence].
Qed.

(** A page that the snapshot covers and the page that follows the snapshot. *)
Lemma store_read_covered s q fs es :
  0 <= ss_index -> ss_index + 1 < 2 ^ 64 -> 0 <= q -> q + zlen fs <= ss_index -> Forall visible es ->
  holds s (q, fs) (ss_index, es) \/ holds s (ss_index, es) (q, fs) ->
  reads_as s ss_index es [].
Proof.
  intros Hs Hm Hq0 Hq Hv Hor. pose proof (zlen_nonneg fs). pose proof (zlen_nonneg es).
  assert (H1 : holds (read_sort s) (q, fs) (ss_index, es) \/
               (holds (read_sort s) (ss_index, es) (ss_index, []) /\ es <> [])).
  { destruct Hor as [Hh|Hh]; pose proof (read_sort_holds s _ _ Hh) as Hr; cbn [fst] in Hr.
    - rewrite (proj2 (Z.ltb_ge _ _)) in Hr by lia. by left.
    - destruct (Z.ltb_spec q ss_index); [by left|]. assert (q = ss_index) as -> by lia.
      assert (fs = []) as -> by (apply zlen_zero; lia).
      destruct (decide (es = [])) as [->|]; [by left|by right]. }
  assert (H4 : holds (read_order (read_clear1 (read_clear0 (read_sort s)))) (ss_index, es) (ss_index, [])).
  { destruct H1 as [H1|[H1 Hne]]; pose proof (read_clear0_holds _ _ _ H1 Hs Hm) as H2; cbn [fst snd] in H2.
    - rewrite (if_true (_ || _)) in H2 by (apply orb_true_iff; right; zbool_solve).
      pose proof (read_clear1_holds _ _ _ H2 Hs Hm) as H3. cbn [fst snd] in H3. change (zlen []) with 0 in H3.
      rewrite Z.add_0_r, Z.eqb_refl in H3. by pose proof (read_order_holds _ _ _ H3).
    - pose proof (zlen_pos _ Hne) as Hpos.
      rewrite (if_false (_ || _)) in H2 by (apply orb_false_iff; split; zbool_solve).
      pose proof (read_clear1_holds _ _ _ H2 Hs Hm) as H3. cbn [fst snd] in H3.
      rewrite (proj2 (Z.eqb_neq _ _)) in H3 by lia. pose proof (read_order_holds _ _ _ H3) as H4.
      cbn [fst snd] in H4. by rewrite (proj2 (Z.eqb_neq _ _)) in H4 by lia. }
  destruct H4 as (P0 & P1 & E1 & E2).
  destruct (read_curr_inv _ ss_index ss_index es [] P0 P1) as (s' & E & Hi & F1 & F2); try done.
  - by rewrite app_nil_r.
  - rewrite app_nil_r, E1. lia.
  - exists s'. split_and!; [done..|congruence|congruence].
Qed.

End Read.

(** ** Page files *)

(** A file that holds a page: header, entries, end mark and unused bytes. *)
Record file_is (f : list byte) (a : apage) : Prop := {
  fi_rest : exists rest, f = page_header (fst a) ++ enc_entries (snd a) ++ le_split 4 PAGE_END_MARK ++ rest /\
    ENTRY_HEADER_SIZE <= zlen rest;
  fi_max : zlen f <= PAGE_MAX_SIZE;
  fi_ok : Forall entry_ok (snd a);
  fi_visible : Forall visible (snd a);
  fi_prev : 0 <= fst a;
  fi_last : fst a + zlen (snd a) + 1 < 2 ^ 64
}.

(** What the operations of a page leave in its file. *)
Lemma page_file p a :
  page_is p a -> Forall visible (snd a) -> file_is (b_mem (p_buf p)) a.
Proof.
  destruct a as [prev es]. intros (H & Hm & Hp) Hv. cbn [fst snd] in *. subst prev.
  pose proof (repr_bounds p es H) as [Hb Hz]. pose proof (pr_room _ _ H).
  split; cbn [fst snd]; try done; try apply H; [|lia].
  unfold page_marked in Hm. set (t := at_off (b_mem (p_buf p)) (b_wpos (p_buf p))).
  pose proof (pr_wf _ _ H) as []. cbn [b_mem b_cap b_wpos b_rpos with_rpos] in *.
  exists (at_off t 4). split.
  - rewrite (pr_mem _ _ H) at 1. do 2 f_equal. fold t. rewrite <- Hm, <- mread_at_off. fold t.
    unfold mread, at_off. by rewrite drop_0, take_drop.
  - unfold t, at_off, PAGE_RESERVE, ENTRY_HEADER_SIZE, PAGE_END_MARK_LEN, zlen in *.
    rewrite !length_drop. lia.
Qed.

Lemma page_init_file q f a ss :
  file_is f a ->
  exists p, page_init q (Some f) MMAP_OK (-1) ss = (RS_OK, p, []) /\ page_is p a.
Proof.
  destruct a as [prev es]. intros [(rest & Ef & Hr) Hmax Hok Hv Hp Hl]. cbn [fst snd] in *.
  unfold page_init. change (-1 >? PAGE_MAX_SIZE) with false. cbv iota.
  change (default [] (Some f)) with f. pose proof (zlen_nonneg f).
  set (L := Z.max (Z.max (-1) (zlen f)) PAGE_INITIAL_SIZE).
  assert (HL : zlen f <= L <= PAGE_MAX_SIZE) by (unfold L, PAGE_INITIAL_SIZE, PAGE_MAX_SIZE in *; lia).
  rewrite mrealloc_grow by lia. set (zs := replicate _ _).
  assert (Hzs : zlen zs = L - zlen f) by (unfold zs; rewrite zlen_replicate; lia).
  destruct (page_open_repr (f ++ zs) prev es (le_split 4 PAGE_END_MARK ++ rest ++ zs) ss)
    as (p & -> & Hrep & Hpp & Hmem & _); try done.
  - rewrite Ef, <- !app_assoc. done.
  - rewrite zlen_app. lia.
  - rewrite !zlen_app, zlen_le_split. pose proof (zlen_nonneg zs).
    unfold PAGE_RESERVE, ENTRY_HEADER_SIZE, PAGE_END_MARK_LEN in *. lia.
  - right; left. unfold entry_crc, entry_get_32. change (at_off ?l ENTRY_CRC_OFFSET) with l.
    rewrite mread_app_l by apply zlen_le_split. reflexivity.
  - exists p. split; [done|]. split_and!; [done| |done]. unfold page_marked.
    rewrite (pr_wpos _ _ Hrep), Hmem, Ef, <- !app_assoc, app_assoc.
    rewrite <- mread_at_off, at_off_app by by rewrite zlen_app, zlen_page_header, zlen_enc_entries.
    apply mread_app_l, zlen_le_split.
Qed.

(** ** The claims *)

Inductive store_op :=
| SCreate (e : entry)
| SPut (e : entry) (rest : list byte)
| SRemoveAfter (index : Z)
| SFlush
| SSnapshotTaken.

(** [None]: an assertion of the store fails. *)
Definition store_exec (io : nat -> mmap_result * mmap_result) (s : store) (op : store_op)
    : option (rs_rc * store) :=
  match op with
  | SCreate e => store_create_entry io s (e_term e) (e_seq e) (e_cid e) (e_flags e) (e_data e)
  | SPut e rest => store_put_entry io s (s_last_index s +₆₄ 1) (enc_entry e ++ rest)
  | SRemoveAfter index => option_map (pair RS_OK) (store_remove_after s index)
  | SFlush => Some (RS_OK, fst (store_flush s))
  | SSnapshotTaken => option_map (pair RS_OK) (store_snapshot_taken s)
  end.

(** The abstract log: what each operation may do and return. *)
Inductive log_step : apage -> store_op -> rs_rc -> apage -> Prop :=
| log_create a e : log_step a (SCreate e) RS_OK (fst a, snd a ++ [e])
| log_create_full a e : log_step a (SCreate e) RS_FULL a
| log_put a e rest : log_step a (SPut e rest) RS_OK (fst a, snd a ++ [e])
| log_put_full a e rest : log_step a (SPut e rest) RS_FULL a
| log_remove a index :
    log_step a (SRemoveAfter index) RS_OK (fst a, take (Z.to_nat (index - fst a)) (snd a))
| log_flush a : log_step a SFlush RS_OK a
| log_snapshot a k :
    (0 < k < length (snd a))%nat ->
    log_step a SSnapshotTaken RS_OK (fst a + Z.of_nat k, drop k (snd a)).

(** What the store relies on before each call. *)
Definition store_legal (s : store) (op : store_op) : Prop :=
  match op with
  | SCreate e => entry_ok e /\ visible e /\ entry_size e < STORE_MAX_ENTRY_SIZE /\
      s_last_index s + 3 < 2 ^ 64
  | SPut e _ => entry_ok e /\ visible e /\ s_last_term s <= e_term e /\ s_last_index s + 3 < 2 ^ 64
  | SRemoveAfter index => is_u64 index /\ s_ss_index s <= index
  | SFlush => True
  | SSnapshotTaken => page_isempty (s_p0 s) = false /\ page_isempty (s_p1 s) = false
  end.

(** The disk may refuse to grow a file but maps the old one again. *)
Definition disk_ok (io : nat -> mmap_result * mmap_result) : Prop :=
  forall n, fst (io n) = MMAP_OK \/ snd (io n) = MMAP_OK.

(** Why the log is full, and what a snapshot removes. *)
Definition store_reason (s : store) (op : store_op) (rc : rs_rc) (s' : store) (a' : apage) : Prop :=
  match op, rc with
  | (SCreate e | SPut e _), RS_FULL => s_curr s' = P1 /\ page_quota (curr_page s) < entry_size e
  | SSnapshotTaken, _ => fst a' = store_ss_index s /\ s_ss_index s' = store_ss_index s
  | _, _ => True
  end.

Lemma create_full io s term seq cid flags data s' :
  store_create_entry io s term seq cid flags data = Some (RS_FULL, s') ->
  s_curr s' = P1 /\ page_quota (curr_page s) < entry_encoded_len (zlen data).
Proof.
  unfold store_create_entry. case_if; [done|]. destruct (store_room _ _ _ _ _) as [rc s1] eqn:E.
  destruct rc; try done; [by destruct (page_create_entry _ _ _ _ _ _)|]. intros [= <-]. by apply store_room_full in E.
Qed.

Lemma put_full io s index e s' :
  store_put_entry io s index e = Some (RS_FULL, s') -> s_curr s' = P1 /\ page_quota (curr_page s) < entry_len e.
Proof.
  unfold store_put_entry. do 2 (case_if; [done|]). destruct (store_room _ _ _ _ _) as [rc s1] eqn:E.
  destruct rc; try done; [by destruct (page_put_entry _ _)|]. intros [= <-]. by apply store_room_full in E.
Qed.


(** A store of two small empty pages for the witnesses. *)
Definition demo_store : store := mk_store 10 1 demo_page demo_page P0 1 10.

Lemma demo_store_inv : store_inv demo_store 10 [] [].
Proof.
  split; [apply demo_page_is|exists 10; split; [apply demo_page_is|reflexivity]|apply Forall_nil_2| |
    intros _; reflexivity|reflexivity|reflexivity].
  vm_compute. intuition congruence.
Qed.


(** ** A snapshot of a page that is written again *)

Fixpoint store_run (io : nat -> mmap_result * mmap_result) (s : store) (ops : list store_op) : option store :=
  match ops with
  | [] => Some s
  | op :: ops => match store_exec io s op with Some (RS_OK, s) => store_run io s ops | _ => None end
  end.

Definition small_page : page :=
  fst (page_clear (mk_page true 240 0 0 0 (sc_buf_wrap (replicate 240 xaa) 240 SC_BUF_REF) []) 10).
Definition small_store : store := mk_store 10 1 small_page small_page P0 1 10.
Definition long_entry : entry := mk_entry 2 6 77 1 (replicate 60 xab).

(** A defect.  A snapshot of the first page is started with the index 12.  While it is written,
    a new leader replaces the only entry of the second page: [store_remove_after] makes the
    first page the current one, and the next entry goes into it.  [store_snapshot_taken] then
    takes the last index of the page as that of the snapshot: entry 13 is in the log and not in
    the snapshot, and is dropped. *)
Lemma snapshot_drops_late_entry :
  let run := store_run (fun _ => (MMAP_ERROR, MMAP_OK)) small_store in
  let started := [SPut demo_entry []; SPut demo_entry []; SPut long_entry []] in
  store_ss_index <$> run started = Some 12 /\
  (fun s => bool_decide (is_Some (store_get_entry s 13))) <$> run (started ++ [SRemoveAfter 12; SPut demo_entry []]) = Some true /\
  (fun s => (s_ss_index s, store_get_entry s 13)) <$> run (started ++ [SRemoveAfter 12; SPut demo_entry []; SSnapshotTaken]) = Some (13, None).
Proof. cbv zeta. split_and!; vm_compute; reflexivity. Qed.

(** Reading the log.  [store_get_entry] finds exactly the entries of the log,
    at the memory where their encoding starts; [store_prev_term] is the term of
    the entry or, outside the log, the term of the snapshot. *)
Theorem store_reads_log s a index :
  store_is s a ->
  match log_at a index with
  | Some e => exists rest, store_get_entry s index = Some (enc_entry e ++ rest) /\
      view_entry (enc_entry e ++ rest) = e /\ store_prev_term s index = e_term e
  | None => store_get_entry s index = None /\ store_prev_term s index = s_ss_term s
  end.
Proof.
  intros Ha. pose proof (store_get_entry_is s a index Ha) as H. unfold store_prev_term.
  destruct (store_get_entry s index) as [m|].
  - destruct H as (e & rest & -> & -> & Hok). exists rest. split_and!; [done|by apply view_enc_entry|].
    by apply entry_term_enc.
  - by rewrite H.
Qed.

Lemma store_reads_log_witness :
  store_get_entry demo_store 11 = None /\ store_prev_term demo_store 11 = 1.
Proof.
  apply (store_reads_log demo_store (10, []) 11). exists [], []. split; [apply demo_store_inv|done].
Defined.

Lemma upto_take limit es : forall total,
  upto limit total es = take (length (upto limit total es)) es /\
  (length (upto limit total es) <= length es)%nat /\ (es <> [] -> upto limit total es <> []).
Proof.
  induction es as [|e es IH]; intros total; [done|]. simpl. case_if; simpl.
  - rewrite take_0. split_and!; done || lia.
  - destruct (IH (total + entry_size e)) as (E & Hl & _). split_and!; [by f_equal|lia|done].
Qed.

(** The entries that a page of the log selects are consecutive in the log. *)
Lemma page_entries_in_log p q es pre post index limit :
  page_is p (q, es) -> q < index <= q + zlen es ->
  exists off n sel, page_get_entries p index limit = (Some off, total_size sel, zlen sel) /\
    sel = take n (drop (Z.to_nat (index - (q - zlen pre) - 1)) (pre ++ es ++ post)) /\ sel <> [] /\
    mread (entry_ptr p off) 0 (total_size sel) = enc_entries sel.
Proof.
  intros (H & _ & Hp) Hi. cbn [fst snd] in *. subst q.
  destruct (page_get_entries_repr p es index limit H Hi) as (off & E & Hmem).
  destruct (ix_pos p es H index Hi) as [_ Hlt]. set (k := ix p index) in *.
  destruct (upto_take limit (drop k es) 0) as (Et & Hl & Hne).
  exists off, (length (upto limit 0 (drop k es))), (upto limit 0 (drop k es)).
  split_and!; [done| | |exact Hmem].
  - replace (Z.to_nat _) with (length pre + k)%nat by (unfold k, ix, zlen in *; lia).
    rewrite <- drop_drop, drop_app_length, drop_app_le, take_app_le by (done || lia). exact Et.
  - apply Hne. intros En. apply (f_equal length) in En. rewrite length_drop in En. cbn [length] in En. lia.
Qed.

(** what is sent to a follower.  For an index of the log, [store_entries]
    points to encodings of consecutive entries of the log that start at the index:
    at least one, with their exact size and count. *)
Theorem store_entries_consecutive s a index limit :
  store_is s a -> fst a < index <= fst a + zlen (snd a) ->
  exists m n sel, store_entries s index limit = (Some m, total_size sel, zlen sel) /\
    sel = take n (drop (Z.to_nat (index - fst a - 1)) (snd a)) /\ sel <> [] /\
    mread m 0 (total_size sel) = enc_entries sel.
Proof.
  intros (es0 & es1 & H & E) Hi. destruct a as [prev es]. cbn [fst snd] in *. subst es.
  rewrite zlen_app in Hi. unfold store_entries. pose proof (si_p0 _ _ _ _ H) as H0.
  destruct (Z_le_gt_dec index (prev + zlen es0)) as [Hle|Hgt].
  - destruct (page_entries_in_log _ prev es0 [] es1 index limit H0) as (off & n & sel & -> & Hs & Hn & Hm); [lia|].
    change (zlen []) with 0 in Hs. rewrite Z.sub_0_r in Hs. by exists (entry_ptr (s_p0 s) off), n, sel.
  - destruct (si_p1 _ _ _ _ H) as (prev1 & H1 & Hc).
    assert (prev1 = prev + zlen es0) as ->.
    { destruct (s_curr s); [|done]. subst es1. change (zlen []) with 0 in Hi. lia. }
    destruct (page_entries_in_log _ _ es1 es0 [] index limit H1) as (off & n & sel & E1 & Hs & Hn & Hm); [lia|].
    unfold page_get_entries at 1. rewrite (index_guard _ _ (proj1 H0)), (proj2 (proj2 H0)). cbn [fst snd].
    rewrite (proj2 (Z.leb_gt index _)) by lia. rewrite andb_false_r. cbn [negb]. rewrite E1.
    exists (entry_ptr (s_p1 s) off), n, sel. split_and!; try done.
    rewrite app_nil_r in Hs. by replace (prev + zlen es0 - zlen es0) with prev in Hs by lia.
Qed.

Lemma store_entries_consecutive_witness :
  exists s, store_is s (10, [demo_entry]) /\
  exists m n sel, store_entries s 11 0 = (Some m, total_size sel, zlen sel) /\
    sel = take n (drop (Z.to_nat (11 - 10 - 1)) [demo_entry]) /\ sel <> [] /\
    mread m 0 (total_size sel) = enc_entries sel.
Proof.
  destruct (store_create_entry_is (fun _ => (MMAP_OK, MMAP_OK)) demo_store (10, []) demo_entry)
    as ([rc s'] & E & Ho).
  - exists [], []. split; [apply demo_store_inv|done].
  - apply (bool_decide_unpack _). reflexivity.
  - vm_compute. congruence.
  - vm_compute. reflexivity.
  - vm_compute. reflexivity.
  - assert (rc = RS_OK) as -> by (vm_compute in E; congruence). exists s'. split; [exact Ho|].
    apply (store_entries_consecutive s' (10, [demo_entry]) 11 0); [exact Ho|].
    cbn [fst snd]. change (zlen [demo_entry]) with 1. lia.
Defined.

Lemma init_pages file0 file1 a0 a1 ss_term ss_index :
  file_is file0 a0 -> file_is file1 a1 ->
  exists p0 p1, page_is p0 a0 /\ page_is p1 a1 /\
    store_init (Some file0) (Some file1) MMAP_OK MMAP_OK ss_term ss_index =
    match store_read_pages (mk_store ss_index ss_term p0 p1 P0 0 0) with
    | Some s => Some (RS_OK, Some s)
    | None => None
    end.
Proof.
  intros F0 F1. unfold store_init. set (fresh := mk_page _ _ _ _ _ _ _).
  destruct (page_init_file fresh file0 a0 ss_index F0) as (p0 & -> & H0).
  destruct (page_init_file fresh file1 a1 ss_index F1) as (p1 & -> & H1).
  exists p0, p1. rewrite bool_decide_true by done. done.
Qed.

(** C20: restart.  When the two page files hold consecutive parts of the log and
    the snapshot lies inside the first part, opening the store again (in whatever
    order the file names have) gives the same log. *)
Theorem store_init_recovers_log fileA fileB prev es0 es1 ss_term ss_index (in_order : bool) :
  file_is fileA (prev, es0) -> file_is fileB (prev + zlen es0, es1) ->
  prev <= ss_index < prev + zlen es0 ->
  exists s,
    store_init (Some (if in_order then fileA else fileB)) (Some (if in_order then fileB else fileA))
      MMAP_OK MMAP_OK ss_term ss_index = Some (RS_OK, Some s) /\
    store_is s (prev, es0 ++ es1) /\ s_ss_index s = ss_index /\ s_ss_term s = ss_term.
Proof.
  intros FA FB Hss. pose proof (fi_prev _ _ FA) as Hpr. pose proof (fi_last _ _ FA) as Hla. cbn [fst snd] in *.
  assert (Hv : Forall visible (es0 ++ es1)) by (apply Forall_app; split; [apply FA|apply FB]).
  assert (G : forall s, holds ss_index ss_term s (prev, es0) (prev + zlen es0, es1) \/
    holds ss_index ss_term s (prev + zlen es0, es1) (prev, es0) ->
    exists s', store_read_pages s = Some s' /\
      store_is s' (prev, es0 ++ es1) /\ s_ss_index s' = ss_index /\ s_ss_term s' = ss_term).
  { intros s Hor. destruct (store_read_chain ss_index ss_term s prev es0 es1) as (s' & E & Hi & ? & ?);
      try done; try lia. exists s'. split_and!; try done. by exists es0, es1. }
  destruct in_order.
  - destruct (init_pages _ _ _ _ ss_term ss_index FA FB) as (p0 & p1 & H0 & H1 & ->).
    destruct (G (mk_store ss_index ss_term p0 p1 P0 0 0)) as (s' & -> & ?); [by left|]. by exists s'.
  - destruct (init_pages _ _ _ _ ss_term ss_index FB FA) as (p0 & p1 & H0 & H1 & ->).
    destruct (G (mk_store ss_index ss_term p0 p1 P0 0 0)) as (s' & -> & ?); [by right|]. by exists s'.
Qed.

(** The files of the witnesses: two entries, then one. *)
Definition demo_file (prev : Z) (es : list entry) : list byte :=
  page_header prev ++ enc_entries es ++ le_split 4 PAGE_END_MARK ++ replicate 40 x00.

Lemma demo_file_is prev es :
  zlen (demo_file prev es) <= PAGE_MAX_SIZE -> Forall entry_ok es -> Forall visible es ->
  0 <= prev -> prev + zlen es + 1 < 2 ^ 64 -> file_is (demo_file prev es) (prev, es).
Proof. intros. split; cbn [fst snd]; try done. exists (replicate 40 x00). split; [done|]. vm_compute. congruence. Qed.

Ltac demo_file_tac :=
  apply demo_file_is;
  [vm_compute; congruence
  |repeat apply Forall_cons_2; try apply Forall_nil_2; apply (bool_decide_unpack _); reflexivity
  |repeat apply Forall_cons_2; try apply Forall_nil_2; vm_compute; congruence
  |lia
  |vm_compute; reflexivity].

Lemma store_init_recovers_log_witness :
  let es0 := [demo_entry; mk_entry 2 6 77 0 []] in
  let es1 := [mk_entry 3 7 77 0 [x01]] in
  exists s, store_init (Some (demo_file 12 es1)) (Some (demo_file 10 es0)) MMAP_OK MMAP_OK 2 11
      = Some (RS_OK, Some s) /\
    store_is s (10, es0 ++ es1) /\ s_ss_index s = 11 /\ s_ss_term s = 2.
Proof.
  intros es0 es1.
  apply (store_init_recovers_log (demo_file 10 es0) (demo_file 12 es1) 10 es0 es1 2 11 false).
  - unfold es0. demo_file_tac.
  - change (10 + zlen es0) with 12. unfold es1. demo_file_tac.
  - change (zlen es0) with 2. lia.
Defined.


