(* ===== verification/Msg.v ===== *)
(** * Wire messages (src/msg.c, src/msg.h)

    A message is a frame: its total length (32 bits), its type (8 bits), the
    fields of that type and, for five types, a raw payload that fills the rest
    of the frame.  This file holds the sixteen message structures as one
    inductive type, the [msg_create_*] functions, [msg_len] and [msg_parse], and
    the framing theorems: a creator appends exactly one frame or nothing, the
    parser gives the message back and consumes exactly its frame, and an
    incomplete frame is left in the buffer. *)

From Stdlib Require Import ZArith Lia.
From Stdlib Require Import Strings.Byte.
From stdpp Require Import base list numbers.
From S2P Require Import Prelude Buf.

(** ** Constants *)

Definition MSG_RC_LEN : Z := 1.
Definition MSG_MAX_SIZE : Z := 2 * 1000 * 1000 * 1000.
Definition MSG_SIZE_LEN : Z := 4.
Definition MSG_TYPE_LEN : Z := 1.
Definition MSG_FIXED_LEN : Z := MSG_SIZE_LEN + MSG_TYPE_LEN.

(** "resql" *)
Definition MSG_RESQL_STR : list byte := [x72; x65; x73; x71; x6c].

(** [enum msg_type] *)
Definition MSG_CONNECT_REQ : Z := 0.
Definition MSG_CONNECT_RESP : Z := 1.
Definition MSG_DISCONNECT_REQ : Z := 2.
Definition MSG_DISCONNECT_RESP : Z := 3.
Definition MSG_CLIENT_REQ : Z := 4.
Definition MSG_CLIENT_RESP : Z := 5.
Definition MSG_APPEND_REQ : Z := 6.
Definition MSG_APPEND_RESP : Z := 7.
Definition MSG_PREVOTE_REQ : Z := 8.
Definition MSG_PREVOTE_RESP : Z := 9.
Definition MSG_REQVOTE_REQ : Z := 10.
Definition MSG_REQVOTE_RESP : Z := 11.
Definition MSG_SNAPSHOT_REQ : Z := 12.
Definition MSG_SNAPSHOT_RESP : Z := 13.
Definition MSG_INFO_REQ : Z := 14.
Definition MSG_SHUTDOWN_REQ : Z := 15.

(** [struct msg]: one constructor per member of the union, its arguments in the
    order of the structure; a pointer and length pair is a byte list.  A frame
    of a type outside the enumeration has no member. *)
Inductive msg :=
| connect_req (flags : Z) (protocol cluster_name name : option (list byte))
| connect_resp (rc sequence term : Z) (nodes : option (list byte))
| disconnect_req (rc flags : Z)
| disconnect_resp (rc flags : Z)
| client_req (seq : Z) (readonly : bool) (buf : list byte)
| client_resp (buf : list byte)
| append_req (term prev_log_index prev_log_term leader_commit round : Z) (buf : list byte)
| append_resp (index term round : Z) (success : bool)
| prevote_req (term last_log_term last_log_index : Z)
| prevote_resp (term index : Z) (granted : bool)
| reqvote_req (term last_log_term last_log_index : Z)
| reqvote_resp (term index : Z) (granted : bool)
| snapshot_req (term round ss_term ss_index offset : Z) (done : bool) (buf : list byte)
| snapshot_resp (term round : Z) (success done : bool)
| info_req (buf : list byte)
| shutdown_req (now : bool)
| unknown_msg (type : Z).

#[export] Instance msg_eq_dec : EqDecision msg.
Proof. solve_decision. Defined.

(** ** Creation *)

Definition sc_buf_str_len (str : option (list byte)) : Z :=
  match str with
  | None => 4
  | Some s => u32 (5 + zlen s)
  end.

(** The common end of the creators: on an error the write position goes back to
    the head of the message. *)
Definition msg_end (head : Z) (buf : sc_buf) : bool * sc_buf :=
  if negb (sc_buf_valid buf) then (false, sc_buf_set_wpos buf head)
  else (true, buf).

Definition msg_create_connect_req (buf : sc_buf) (flags : Z)
    (cluster_name name : option (list byte)) : bool * sc_buf :=
  let head := b_wpos buf in
  let len := u32 (MSG_SIZE_LEN + MSG_TYPE_LEN + 4 + sc_buf_str_len (Some MSG_RESQL_STR) +
                  sc_buf_str_len cluster_name + sc_buf_str_len name) in
  let buf := sc_buf_put_32 buf len in
  let buf := sc_buf_put_8 buf MSG_CONNECT_REQ in
  let buf := sc_buf_put_32 buf flags in
  let buf := sc_buf_put_str buf (Some MSG_RESQL_STR) in
  let buf := sc_buf_put_str buf cluster_name in
  let buf := sc_buf_put_str buf name in
  msg_end head buf.

Definition msg_create_connect_resp (buf : sc_buf) (rc sequence term : Z)
    (nodes : option (list byte)) : bool * sc_buf :=
  let head := b_wpos buf in
  let len := u32 (MSG_SIZE_LEN + MSG_TYPE_LEN + MSG_RC_LEN + 8 + 8 + sc_buf_str_len nodes) in
  let buf := sc_buf_put_32 buf len in
  let buf := sc_buf_put_8 buf MSG_CONNECT_RESP in
  let buf := sc_buf_put_8 buf rc in
  let buf := sc_buf_put_64 buf sequence in
  let buf := sc_buf_put_64 buf term in
  let buf := sc_buf_put_str buf nodes in
  msg_end head buf.

Definition msg_create_disconnect_req (buf : sc_buf) (rc flags : Z) : bool * sc_buf :=
  let head := b_wpos buf in
  let len := u32 (MSG_FIXED_LEN + MSG_RC_LEN + 4) in
  let buf := sc_buf_put_32 buf len in
  let buf := sc_buf_put_8 buf MSG_DISCONNECT_REQ in
  let buf := sc_buf_put_8 buf rc in
  let buf := sc_buf_put_32 buf flags in
  msg_end head buf.

Definition msg_create_disconnect_resp (buf : sc_buf) (rc flags : Z) : bool * sc_buf :=
  let head := b_wpos buf in
  let len := u32 (MSG_FIXED_LEN + MSG_RC_LEN + 4) in
  let buf := sc_buf_put_32 buf len in
  let buf := sc_buf_put_8 buf MSG_DISCONNECT_RESP in
  let buf := sc_buf_put_8 buf rc in
  let buf := sc_buf_put_32 buf flags in
  msg_end head buf.

Definition msg_create_client_req (buf : sc_buf) (readonly : bool) (seq : Z)
    (req : list byte) : bool * sc_buf :=
  let head := b_wpos buf in
  let len := u32 (MSG_FIXED_LEN + 1 + 8 + zlen req) in
  let buf := sc_buf_put_32 buf len in
  let buf := sc_buf_put_8 buf MSG_CLIENT_REQ in
  let buf := sc_buf_put_bool buf readonly in
  let buf := sc_buf_put_64 buf seq in
  let buf := sc_buf_put_raw buf req in
  msg_end head buf.

(** A client response is built in place: the header with length zero, the
    results the state machine writes behind it, then the length. *)
Definition msg_create_client_resp_header (buf : sc_buf) : bool * sc_buf :=
  let buf := sc_buf_put_32 buf 0 in
  let buf := sc_buf_put_8 buf MSG_CLIENT_RESP in
  (sc_buf_valid buf, buf).

Definition msg_finalize_client_resp (buf : sc_buf) : bool * sc_buf :=
  let buf := sc_buf_set_32_at buf 0 (b_wpos buf) in
  (sc_buf_valid buf, buf).

Definition msg_create_prevote_req (buf : sc_buf) (term last_log_index last_log_term : Z)
    : bool * sc_buf :=
  let head := b_wpos buf in
  let len := u32 (MSG_FIXED_LEN + 8 + 8 + 8) in
  let buf := sc_buf_put_32 buf len in
  let buf := sc_buf_put_8 buf MSG_PREVOTE_REQ in
  let buf := sc_buf_put_64 buf term in
  let buf := sc_buf_put_64 buf last_log_term in
  let buf := sc_buf_put_64 buf last_log_index in
  msg_end head buf.

Definition msg_create_prevote_resp (buf : sc_buf) (term index : Z) (granted : bool)
    : bool * sc_buf :=
  let head := b_wpos buf in
  let len := u32 (MSG_SIZE_LEN + MSG_TYPE_LEN + 8 + 8 + 1) in
  let buf := sc_buf_put_32 buf len in
  let buf := sc_buf_put_8 buf MSG_PREVOTE_RESP in
  let buf := sc_buf_put_64 buf term in
  let buf := sc_buf_put_64 buf index in
  let buf := sc_buf_put_bool buf granted in
  msg_end head buf.

Definition msg_create_reqvote_req (buf : sc_buf) (term last_log_index last_log_term : Z)
    : bool * sc_buf :=
  let head := b_wpos buf in
  let len := u32 (MSG_SIZE_LEN + MSG_TYPE_LEN + 8 + 8 + 8) in
  let buf := sc_buf_put_32 buf len in
  let buf := sc_buf_put_8 buf MSG_REQVOTE_REQ in
  let buf := sc_buf_put_64 buf term in
  let buf := sc_buf_put_64 buf last_log_term in
  let buf := sc_buf_put_64 buf last_log_index in
  msg_end head buf.

Definition msg_create_reqvote_resp (buf : sc_buf) (term index : Z) (granted : bool)
    : bool * sc_buf :=
  let head := b_wpos buf in
  let len := u32 (MSG_SIZE_LEN + MSG_TYPE_LEN + 8 + 8 + 1) in
  let buf := sc_buf_put_32 buf len in
  let buf := sc_buf_put_8 buf MSG_REQVOTE_RESP in
  let buf := sc_buf_put_64 buf term in
  let buf := sc_buf_put_64 buf index in
  let buf := sc_buf_put_bool buf granted in
  msg_end head buf.

Definition msg_create_append_req (buf : sc_buf)
    (term prev_log_index prev_log_term leader_commit query_sequence : Z)
    (entries : list byte) : bool * sc_buf :=
  let head := b_wpos buf in
  let len := u32 (MSG_FIXED_LEN + 8 + 8 + 8 + 8 + 8 + zlen entries) in
  let buf := sc_buf_put_32 buf len in
  let buf := sc_buf_put_8 buf MSG_APPEND_REQ in
  let buf := sc_buf_put_64 buf term in
  let buf := sc_buf_put_64 buf prev_log_index in
  let buf := sc_buf_put_64 buf prev_log_term in
  let buf := sc_buf_put_64 buf leader_commit in
  let buf := sc_buf_put_64 buf query_sequence in
  let buf := sc_buf_put_raw buf entries in
  msg_end head buf.

Definition msg_create_append_resp (buf : sc_buf) (term index query_sequence : Z)
    (success : bool) : bool * sc_buf :=
  let head := b_wpos buf in
  let len := u32 (MSG_FIXED_LEN + 8 + 8 + 8 + 1) in
  let buf := sc_buf_put_32 buf len in
  let buf := sc_buf_put_8 buf MSG_APPEND_RESP in
  let buf := sc_buf_put_64 buf term in
  let buf := sc_buf_put_64 buf index in
  let buf := sc_buf_put_64 buf query_sequence in
  let buf := sc_buf_put_bool buf success in
  msg_end head buf.

Definition msg_create_snapshot_req (buf : sc_buf) (term round ss_term ss_index offset : Z)
    (done : bool) (data : list byte) : bool * sc_buf :=
  let head := b_wpos buf in
  let len := u32 (MSG_FIXED_LEN + 8 + 8 + 8 + 8 + 8 + 1 + zlen data) in
  let buf := sc_buf_put_32 buf len in
  let buf := sc_buf_put_8 buf MSG_SNAPSHOT_REQ in
  let buf := sc_buf_put_64 buf term in
  let buf := sc_buf_put_64 buf round in
  let buf := sc_buf_put_64 buf ss_term in
  let buf := sc_buf_put_64 buf ss_index in
  let buf := sc_buf_put_64 buf offset in
  let buf := sc_buf_put_bool buf done in
  let buf := sc_buf_put_raw buf data in
  msg_end head buf.

Definition msg_create_snapshot_resp (buf : sc_buf) (term round : Z) (success done : bool)
    : bool * sc_buf :=
  let head := b_wpos buf in
  let len := u32 (MSG_FIXED_LEN + 8 + 8 + 1 + 1) in
  let buf := sc_buf_put_32 buf len in
  let buf := sc_buf_put_8 buf MSG_SNAPSHOT_RESP in
  let buf := sc_buf_put_64 buf term in
  let buf := sc_buf_put_64 buf round in
  let buf := sc_buf_put_bool buf success in
  let buf := sc_buf_put_bool buf done in
  msg_end head buf.

Definition msg_create_info_req (buf : sc_buf) (data : list byte) : bool * sc_buf :=
  let head := b_wpos buf in
  let len := u32 (MSG_FIXED_LEN + zlen data) in
  let buf := sc_buf_put_32 buf len in
  let buf := sc_buf_put_8 buf MSG_INFO_REQ in
  let buf := sc_buf_put_raw buf data in
  msg_end head buf.

Definition msg_create_shutdown_req (buf : sc_buf) (now : bool) : bool * sc_buf :=
  let head := b_wpos buf in
  let len := u32 (MSG_FIXED_LEN + 1) in
  let buf := sc_buf_put_32 buf len in
  let buf := sc_buf_put_8 buf MSG_SHUTDOWN_REQ in
  let buf := sc_buf_put_bool buf now in
  msg_end head buf.

(** ** Parsing *)

(** The [int] result of a 32-bit unsigned value. *)
Definition to_int (v : Z) : Z := if v <? 2 ^ 31 then v else v - 2 ^ 32.

Definition msg_len (buf : sc_buf) : Z :=
  if sc_buf_size buf <? MSG_SIZE_LEN then -1 else to_int (fst (sc_buf_peek_32 buf)).

(** [buf = sc_buf_rbuf(&tmp); len = sc_buf_size(&tmp)]: the unread bytes. *)
Definition rest_of : bufM (list byte) := fun tmp =>
  (take (Z.to_nat (sc_buf_size tmp)) (sc_buf_rbuf tmp), tmp).

Definition rest_of_read : bufM (list byte) := fun tmp =>
  let '(d, tmp) := rest_of tmp in (d, sc_buf_mark_read tmp (zlen d)).

(** The [switch] on the type. *)
Definition msg_parse_body (type : Z) : bufM msg :=
  if type =? MSG_CONNECT_REQ then
    flags ← sc_buf_get_32; protocol ← sc_buf_get_str;
    cluster_name ← sc_buf_get_str; name ← sc_buf_get_str;
    mret (connect_req flags protocol cluster_name name)
  else if type =? MSG_CONNECT_RESP then
    rc ← sc_buf_get_8; sequence ← sc_buf_get_64; term ← sc_buf_get_64;
    nodes ← sc_buf_get_str;
    mret (connect_resp rc sequence term nodes)
  else if type =? MSG_DISCONNECT_REQ then
    rc ← sc_buf_get_8; flags ← sc_buf_get_32;
    mret (disconnect_req rc flags)
  else if type =? MSG_DISCONNECT_RESP then
    rc ← sc_buf_get_8; flags ← sc_buf_get_32;
    mret (disconnect_resp rc flags)
  else if type =? MSG_CLIENT_REQ then
    readonly ← sc_buf_get_8; seq ← sc_buf_get_64; buf ← rest_of_read;
    mret (client_req seq (negb (readonly =? 0)) buf)
  else if type =? MSG_CLIENT_RESP then
    buf ← rest_of;
    mret (client_resp buf)
  else if type =? MSG_APPEND_REQ then
    term ← sc_buf_get_64; prev_log_index ← sc_buf_get_64;
    prev_log_term ← sc_buf_get_64; leader_commit ← sc_buf_get_64;
    round ← sc_buf_get_64; buf ← rest_of_read;
    mret (append_req term prev_log_index prev_log_term leader_commit round buf)
  else if type =? MSG_APPEND_RESP then
    term ← sc_buf_get_64; index ← sc_buf_get_64; round ← sc_buf_get_64;
    success ← sc_buf_get_bool;
    mret (append_resp index term round success)
  else if type =? MSG_PREVOTE_REQ then
    term ← sc_buf_get_64; last_log_term ← sc_buf_get_64; last_log_index ← sc_buf_get_64;
    mret (prevote_req term last_log_term last_log_index)
  else if type =? MSG_PREVOTE_RESP then
    term ← sc_buf_get_64; index ← sc_buf_get_64; granted ← sc_buf_get_bool;
    mret (prevote_resp term index granted)
  else if type =? MSG_REQVOTE_REQ then
    term ← sc_buf_get_64; last_log_term ← sc_buf_get_64; last_log_index ← sc_buf_get_64;
    mret (reqvote_req term last_log_term last_log_index)
  else if type =? MSG_REQVOTE_RESP then
    term ← sc_buf_get_64; index ← sc_buf_get_64; granted ← sc_buf_get_bool;
    mret (reqvote_resp term index granted)
  else if type =? MSG_SNAPSHOT_REQ then
    term ← sc_buf_get_64; round ← sc_buf_get_64; ss_term ← sc_buf_get_64;
    ss_index ← sc_buf_get_64; offset ← sc_buf_get_64; done ← sc_buf_get_bool;
    buf ← rest_of_read;
    mret (snapshot_req term round ss_term ss_index offset done buf)
  else if type =? MSG_SNAPSHOT_RESP then
    term ← sc_buf_get_64; round ← sc_buf_get_64; success ← sc_buf_get_bool;
    done ← sc_buf_get_bool;
    mret (snapshot_resp term round success done)
  else if type =? MSG_INFO_REQ then
    buf ← rest_of_read;
    mret (info_req buf)
  else if type =? MSG_SHUTDOWN_REQ then
    now ← sc_buf_get_bool;
    mret (shutdown_req now)
  else mret (unknown_msg type).

(** The frame of [tmp]: length, type, body.  The length field read again into
    [msg->len] is the one already peeked. *)
Definition msg_parse_frame : bufM msg :=
  len ← sc_buf_get_32; type ← sc_buf_get_8; msg_parse_body type.

(** The message is meaningful only with [RS_OK]; the other results carry none. *)
Definition msg_parse (buf : sc_buf) : (rs_rc * option msg) * sc_buf :=
  if sc_buf_size buf <? MSG_SIZE_LEN then ((RS_PARTIAL, None), buf)
  else
    let '(len, buf) := sc_buf_peek_32 buf in
    if len >? MSG_MAX_SIZE then ((RS_INVALID, None), buf)
    else if len =? 0 then ((RS_PARTIAL, None), buf)
    else if len >? sc_buf_size buf then ((RS_PARTIAL, None), buf)
    else
      let p := take (Z.to_nat len) (sc_buf_rbuf buf) in
      let buf := sc_buf_mark_read buf len in
      let tmp := sc_buf_wrap p len SC_BUF_READ in
      let '(msg, tmp) := msg_parse_frame tmp in
      if sc_buf_valid tmp then ((RS_OK, Some msg), buf) else ((RS_INVALID, None), buf).

(** ** The frame of a message *)

Definition msg_type (m : msg) : Z :=
  match m with
  | connect_req _ _ _ _ => MSG_CONNECT_REQ
  | connect_resp _ _ _ _ => MSG_CONNECT_RESP
  | disconnect_req _ _ => MSG_DISCONNECT_REQ
  | disconnect_resp _ _ => MSG_DISCONNECT_RESP
  | client_req _ _ _ => MSG_CLIENT_REQ
  | client_resp _ => MSG_CLIENT_RESP
  | append_req _ _ _ _ _ _ => MSG_APPEND_REQ
  | append_resp _ _ _ _ => MSG_APPEND_RESP
  | prevote_req _ _ _ => MSG_PREVOTE_REQ
  | prevote_resp _ _ _ => MSG_PREVOTE_RESP
  | reqvote_req _ _ _ => MSG_REQVOTE_REQ
  | reqvote_resp _ _ _ => MSG_REQVOTE_RESP
  | snapshot_req _ _ _ _ _ _ _ => MSG_SNAPSHOT_REQ
  | snapshot_resp _ _ _ _ => MSG_SNAPSHOT_RESP
  | info_req _ => MSG_INFO_REQ
  | shutdown_req _ => MSG_SHUTDOWN_REQ
  | unknown_msg t => t
  end.

(** The fields behind the type byte, in wire order. *)
Definition msg_fields (m : msg) : list field :=
  match m with
  | connect_req flags p c n => [FInt 4 flags; FStr p; FStr c; FStr n]
  | connect_resp rc s t nodes => [FInt 1 rc; FInt 8 s; FInt 8 t; FStr nodes]
  | disconnect_req rc flags | disconnect_resp rc flags => [FInt 1 rc; FInt 4 flags]
  | client_req seq ro _ => [FBool ro; FInt 8 seq]
  | append_req t pi pt c r _ => [FInt 8 t; FInt 8 pi; FInt 8 pt; FInt 8 c; FInt 8 r]
  | append_resp i t r s => [FInt 8 t; FInt 8 i; FInt 8 r; FBool s]
  | prevote_req t lt li | reqvote_req t lt li => [FInt 8 t; FInt 8 lt; FInt 8 li]
  | prevote_resp t i g | reqvote_resp t i g => [FInt 8 t; FInt 8 i; FBool g]
  | snapshot_req t r st si o d _ =>
      [FInt 8 t; FInt 8 r; FInt 8 st; FInt 8 si; FInt 8 o; FBool d]
  | snapshot_resp t r s d => [FInt 8 t; FInt 8 r; FBool s; FBool d]
  | shutdown_req now => [FBool now]
  | client_resp _ | info_req _ | unknown_msg _ => []
  end.

(** The raw tail, for the types that have one. *)
Definition msg_payload (m : msg) : option (list byte) :=
  match m with
  | client_req _ _ d | client_resp d | append_req _ _ _ _ _ d
  | snapshot_req _ _ _ _ _ _ d | info_req d => Some d
  | _ => None
  end.

Definition str_size (s : option (list byte)) : Z :=
  match s with None => 4 | Some s => zlen s + 5 end.

Definition field_size (f : field) : Z :=
  match f with
  | FInt n _ => Z.of_nat n
  | FBool _ => 1
  | FStr s => str_size s
  | FBlob d => 4 + zlen d
  end.

Definition fields_size (fs : list field) : Z := foldr (fun f n => field_size f + n) 0 fs.

Definition frame_len (m : msg) : Z :=
  MSG_FIXED_LEN + fields_size (msg_fields m) + zlen (default [] (msg_payload m)).

Definition frame_fields (m : msg) : list field :=
  FInt 4 (frame_len m) :: FInt 1 (msg_type m) :: msg_fields m.

Definition enc_msg (m : msg) : list byte :=
  enc_fields (frame_fields m) ++ default [] (msg_payload m).

Definition type_ok (m : msg) : Prop :=
  match m with unknown_msg t => 16 <= t < 256 | _ => True end.

#[export] Instance type_ok_dec m : Decision (type_ok m).
Proof. destruct m; simpl; apply _. Defined.

(** What the wire can carry: field values in range, C strings, and a frame
    that the parser does not refuse for its size. *)
Record msg_ok (m : msg) : Prop := {
  ok_fields : Forall field_ok (msg_fields m);
  ok_type : type_ok m;
  ok_size : frame_len m <= MSG_MAX_SIZE
}.

#[export] Instance field_ok_dec f : Decision (field_ok f).
Proof. destruct f; simpl; apply _. Defined.

#[export] Instance msg_ok_dec m : Decision (msg_ok m).
Proof.
  refine (cast_if_and3 (decide (Forall field_ok (msg_fields m)))
    (decide (type_ok m))
    (decide (frame_len m <= MSG_MAX_SIZE))); [by split|by destruct 1..].
Defined.

Lemma zlen_enc_field f : zlen (enc_field f) = field_size f.
Proof.
  destruct f as [n v|v|s|d]; cbn [enc_field field_size].
  - apply zlen_le_split.
  - apply zlen_le_split.
  - apply zlen_enc_str.
  - by rewrite zlen_app, zlen_le_split.
Qed.

Lemma zlen_enc_fields fs : zlen (enc_fields fs) = fields_size fs.
Proof.
  unfold enc_fields. induction fs as [|f fs IH]; [done|].
  cbn [map concat fields_size foldr]. rewrite zlen_app, zlen_enc_field, IH. done.
Qed.

Lemma fields_size_nonneg fs : 0 <= fields_size fs.
Proof. rewrite <- zlen_enc_fields. apply zlen_nonneg. Qed.

Lemma zlen_enc_msg m : zlen (enc_msg m) = frame_len m.
Proof.
  unfold enc_msg, frame_len. rewrite zlen_app, zlen_enc_fields. unfold frame_fields.
  cbn [fields_size foldr field_size]. unfold MSG_FIXED_LEN, MSG_SIZE_LEN, MSG_TYPE_LEN.
  unfold fields_size. lia.
Qed.

Lemma frame_len_bound m : msg_ok m -> 5 <= frame_len m <= MSG_MAX_SIZE.
Proof.
  intros H. split; [|apply H]. unfold frame_len, MSG_FIXED_LEN, MSG_SIZE_LEN, MSG_TYPE_LEN.
  pose proof (fields_size_nonneg (msg_fields m)).
  pose proof (zlen_nonneg (default [] (msg_payload m))). lia.
Qed.

(** ** Creators append the frame *)

(** The creator of each message structure. *)
Definition msg_create (buf : sc_buf) (m : msg) : bool * sc_buf :=
  match m with
  | connect_req flags _ c n => msg_create_connect_req buf flags c n
  | connect_resp rc s t nodes => msg_create_connect_resp buf rc s t nodes
  | disconnect_req rc flags => msg_create_disconnect_req buf rc flags
  | disconnect_resp rc flags => msg_create_disconnect_resp buf rc flags
  | client_req seq ro d => msg_create_client_req buf ro seq d
  | append_req t pi pt c r d => msg_create_append_req buf t pi pt c r d
  | append_resp i t r s => msg_create_append_resp buf t i r s
  | prevote_req t lt li => msg_create_prevote_req buf t li lt
  | prevote_resp t i g => msg_create_prevote_resp buf t i g
  | reqvote_req t lt li => msg_create_reqvote_req buf t li lt
  | reqvote_resp t i g => msg_create_reqvote_resp buf t i g
  | snapshot_req t r st si o dn d => msg_create_snapshot_req buf t r st si o dn d
  | snapshot_resp t r s d => msg_create_snapshot_resp buf t r s d
  | info_req d => msg_create_info_req buf d
  | shutdown_req now => msg_create_shutdown_req buf now
  | client_resp _ | unknown_msg _ => (false, buf)
  end.

(** The messages [msg_create] builds: client responses are built in place, and
    the protocol of a connection request is fixed. *)
Definition creatable (m : msg) : Prop :=
  match m with
  | connect_req _ p _ _ => p = Some MSG_RESQL_STR
  | client_resp _ | unknown_msg _ => False
  | _ => True
  end.

#[export] Instance creatable_dec m : Decision (creatable m).
Proof. destruct m; simpl; apply _. Defined.

Definition put_msg (b : sc_buf) (m : msg) : sc_buf :=
  let b := put_fields b (frame_fields m) in
  match msg_payload m with Some d => sc_buf_put_raw b d | None => b end.

Lemma str_size_nonneg s : 0 <= str_size s.
Proof. destruct s as [s|]; simpl; [pose proof (zlen_nonneg s)|]; lia. Qed.

Lemma str_len_small s : str_size s < 2 ^ 32 -> sc_buf_str_len s = str_size s.
Proof.
  destruct s as [s|]; cbn [str_size sc_buf_str_len]; [|done]. intros H.
  pose proof (zlen_nonneg s). rewrite u32_small by lia. lia.
Qed.

(** The length a creator computes in 32 bits is the length of the frame. *)
Ltac frame_length b :=
  lazymatch goal with
  | |- _ = msg_end _ ?r =>
      lazymatch r with
      | context [sc_buf_put 4 b ?y] =>
          lazymatch goal with
          | |- context [u32 ?x] => replace (u32 x) with y; [reflexivity|]
          end
      end
  end.

(** Every creator writes the fields of its frame. *)
Lemma msg_create_eq b m :
  creatable m -> msg_ok m -> msg_create b m = msg_end (b_wpos b) (put_msg b m).
Proof.
  intros Hc [_ _ Hs]. unfold MSG_MAX_SIZE in Hs.
  pose proof str_size_nonneg as Hn. pose proof (@zlen_nonneg byte) as Hz.
  destruct m; cbn [creatable msg_create] in *; try contradiction; subst; unfold put_msg, frame_fields;
    cbn [msg_payload msg_type msg_fields put_fields put_field];
    unfold frame_len, fields_size in *;
    cbn [msg_fields foldr msg_payload default field_size] in *;
    change (zlen []) with 0 in *;
    unfold MSG_FIXED_LEN, MSG_SIZE_LEN, MSG_TYPE_LEN in *; simpl Z.of_nat in *.
  all: unfold msg_create_connect_req, msg_create_connect_resp, msg_create_disconnect_req,
    msg_create_disconnect_resp, msg_create_client_req, msg_create_append_req,
    msg_create_append_resp, msg_create_prevote_req, msg_create_prevote_resp,
    msg_create_reqvote_req, msg_create_reqvote_resp, msg_create_snapshot_req,
    msg_create_snapshot_resp, msg_create_info_req, msg_create_shutdown_req,
    MSG_FIXED_LEN, MSG_SIZE_LEN, MSG_TYPE_LEN, MSG_RC_LEN; cbv zeta.
  all: unfold sc_buf_put_8, sc_buf_put_32, sc_buf_put_64; frame_length b.
  all: repeat match goal with
    | s : option (list byte) |- _ =>
        lazymatch goal with _ : 0 <= str_size s |- _ => fail | _ => pose proof (Hn s) end
    | d : list byte |- _ =>
        lazymatch goal with _ : 0 <= zlen d |- _ => fail | _ => pose proof (Hz d) end
    end; unfold id in *.
  all: change (str_size (Some MSG_RESQL_STR)) with 10 in *;
    change (sc_buf_str_len (Some MSG_RESQL_STR)) with 10.
  all: rewrite ?str_len_small by lia; symmetry; rewrite u32_small; lia.
Qed.

Lemma put_msg_outcome b m :
  buf_wf b -> no_wrap b (frame_len m) -> put_outcome b (enc_msg m) (put_msg b m).
Proof.
  intros Hwf Hw. rewrite <- zlen_enc_msg in Hw. unfold enc_msg in *. rewrite zlen_app in Hw.
  unfold put_msg, no_wrap in *. pose proof (zlen_nonneg (enc_fields (frame_fields m))).
  destruct (msg_payload m) as [d|]; cbn [default] in *; unfold id in *.
  - pose proof (zlen_nonneg d).
    eapply put_outcome_trans; [done|apply put_fields_outcome; [done|unfold no_wrap; lia]|].
    intros. apply sc_buf_put_raw_outcome; [done|]. unfold no_wrap. lia.
  - change (zlen []) with 0 in Hw. rewrite app_nil_r. apply put_fields_outcome; [done|].
    unfold no_wrap. lia.
Qed.

(** On success the buffer is the one written; on failure the bytes before the
    message are back as the whole contents. *)
Lemma msg_end_outcome b bs b' :
  buf_wf b -> put_outcome b bs b' ->
  (b_err b = 0 /\ msg_end (b_wpos b) b' = (true, b') /\ appended b bs b') \/
  ((b_err b <> 0 \/ ~ room b (zlen bs)) /\
   exists b'', msg_end (b_wpos b) b' = (false, b'') /\ buf_wf b'' /\
     b_wpos b'' = b_wpos b /\ contents b'' = contents b).
Proof.
  intros Hwf Ho. unfold msg_end, sc_buf_valid. destruct Ho as [[He Ha]|[Hn Hf]].
  - left. rewrite (a_err _ _ _ Ha), He. done.
  - right. split; [done|]. pose proof (f_err _ _ _ Hf). pose proof (f_wf _ _ _ Hf) as [].
    rewrite (proj2 (Z.eqb_neq (b_err b') 0)) by done. cbn [negb].
    pose proof (f_cap _ _ _ Hf). pose proof (f_rpos _ _ _ Hf) as Hr. pose proof (f_wpos _ _ _ Hf).
    unfold sc_buf_set_wpos. rewrite if_false by (destruct Hwf; zbool_solve).
    pose proof (f_written _ _ _ Hf) as Hm. pose proof Hwf as [].
    assert (Hwf2 : buf_wf (with_wpos b' (b_wpos b))) by (split; simpl; lia).
    eexists. split; [reflexivity|]. split; [done|]. split; [done|].
    rewrite !contents_written by done. simpl. unfold written. simpl. by rewrite Hm, Hr.
Qed.

(** ** The parser reads the frame back *)

Section bind.
Context {A : Type} (P : A * sc_buf -> Prop).

(** One step of a reader on a buffer that starts with the field it expects. *)
Lemma bind_int n v (k : Z -> bufM A) b rest :
  buf_wf b -> contents b = le_split n v ++ rest -> 0 <= v < 2 ^ (8 * Z.of_nat n) ->
  (forall b1, buf_wf b1 -> contents b1 = rest -> b_err b1 = b_err b -> P (k v b1)) ->
  P ((sc_buf_get n ≫= k) b).
Proof.
  intros Hwf E Hv H. destruct (sc_buf_get_int n b v rest Hwf E Hv) as (b1 & Hg & Hc).
  unfold mbind, bufM_bind. rewrite Hg. apply H; [apply Hc..|]. by apply consumed_err in Hc.
Qed.

Lemma bind_bool (v : bool) (k : bool -> bufM A) b rest :
  buf_wf b -> contents b = le_split 1 (if v then 1 else 0) ++ rest ->
  (forall b1, buf_wf b1 -> contents b1 = rest -> b_err b1 = b_err b -> P (k v b1)) ->
  P ((sc_buf_get_bool ≫= k) b).
Proof.
  intros Hwf E H. destruct (sc_buf_get_bool_spec b v rest Hwf E) as (b1 & Hg & Hc).
  unfold mbind, bufM_bind. rewrite Hg. apply H; [apply Hc..|]. by apply consumed_err in Hc.
Qed.

Lemma bind_str s (k : option (list byte) -> bufM A) b rest :
  buf_wf b -> contents b = enc_str s ++ rest -> str_ok s ->
  (forall b1, buf_wf b1 -> contents b1 = rest -> b_err b1 = b_err b -> P (k s b1)) ->
  P ((sc_buf_get_str ≫= k) b).
Proof.
  intros Hwf E Hs H. destruct (sc_buf_get_str_spec b s rest Hwf E Hs) as (b1 & Hg & Hc).
  unfold mbind, bufM_bind. rewrite Hg. apply H; [apply Hc..|]. by apply consumed_err in Hc.
Qed.

Lemma rest_of_contents b : buf_wf b -> fst (rest_of b) = contents b.
Proof. intros Hwf. unfold rest_of, contents, mread. simpl. by rewrite sc_buf_size_wf. Qed.

Lemma bind_rest d (k : list byte -> bufM A) b :
  buf_wf b -> contents b = d ->
  (forall b1, b_err b1 = b_err b -> P (k d b1)) ->
  P ((rest_of_read ≫= k) b).
Proof.
  intros Hwf E H. unfold mbind, bufM_bind, rest_of_read.
  pose proof (rest_of_contents b Hwf) as Hr.
  destruct (rest_of b) as [d' b'] eqn:Hb. simpl in Hr. rewrite E in Hr. subst d'.
  apply H. unfold rest_of in Hb. by injection Hb as _ <-.
Qed.
End bind.

Ltac unfold_msg_type :=
  unfold MSG_CONNECT_REQ, MSG_CONNECT_RESP, MSG_DISCONNECT_REQ, MSG_DISCONNECT_RESP,
    MSG_CLIENT_REQ, MSG_CLIENT_RESP, MSG_APPEND_REQ, MSG_APPEND_RESP, MSG_PREVOTE_REQ,
    MSG_PREVOTE_RESP, MSG_REQVOTE_REQ, MSG_REQVOTE_RESP, MSG_SNAPSHOT_REQ,
    MSG_SNAPSHOT_RESP, MSG_INFO_REQ, MSG_SHUTDOWN_REQ.

Ltac read_field :=
  match goal with
  | Hwf : buf_wf ?b, E : contents ?b = _ |- _ ((sc_buf_get _ ≫= _) ?b) =>
      eapply (bind_int _ _ _ _ _ _ Hwf E); [try done; by case_match|clear Hwf E; intros ? Hwf E ?]
  | Hwf : buf_wf ?b, E : contents ?b = _ |- _ ((sc_buf_get_bool ≫= _) ?b) =>
      eapply (bind_bool _ _ _ _ _ Hwf E); clear Hwf E; intros ? Hwf E ?
  | Hwf : buf_wf ?b, E : contents ?b = _ |- _ ((sc_buf_get_str ≫= _) ?b) =>
      eapply (bind_str _ _ _ _ _ Hwf E); [done|clear Hwf E; intros ? Hwf E ?]
  | Hwf : buf_wf ?b, E : contents ?b = _ |- _ ((rest_of_read ≫= _) ?b) =>
      eapply (bind_rest _ _ _ _ Hwf E); intros
  end.

(** The [switch] on the bytes behind the type of a well-formed message. *)
Lemma msg_parse_body_spec m b :
  msg_ok m -> buf_wf b ->
  contents b = enc_fields (msg_fields m) ++ default [] (msg_payload m) ->
  fst (msg_parse_body (msg_type m) b) = m /\
  b_err (snd (msg_parse_body (msg_type m) b)) = b_err b.
Proof.
  intros [Hf Ht _] Hwf E. unfold enc_fields in E.
  pose (P := fun r : msg * sc_buf => fst r = m /\ b_err (snd r) = b_err b).
  change (P (msg_parse_body (msg_type m) b)).
  assert (Hend : forall b1, b_err b1 = b_err b -> P (m, b1)) by done. clearbody P.
  destruct m; cbn [msg_type msg_fields map concat enc_field msg_payload default type_ok] in *;
    unfold id in *; rewrite <- ?app_assoc in E;
    repeat match goal with
    | H : Forall field_ok (_ :: _) |- _ => apply Forall_cons_1 in H as [? ?]
    end; cbn [field_ok] in *; unfold msg_parse_body, sc_buf_get_8, sc_buf_get_32, sc_buf_get_64; zif.
  all: try (repeat read_field; apply Hend; congruence).
  - destruct readonly; repeat read_field; apply Hend; congruence.
  - unfold mbind, bufM_bind. pose proof (rest_of_contents b Hwf) as Hr.
    destruct (rest_of b) as [d b1] eqn:Hb. cbn [fst app] in *. rewrite E in Hr. subst d.
    apply Hend. unfold rest_of in Hb. by injection Hb as _ <-.
  - unfold_msg_type. zif. by apply Hend.
Qed.

Lemma msg_type_range m : msg_ok m -> 0 <= msg_type m < 2 ^ (8 * Z.of_nat 1).
Proof. intros [_ Ht _]. destruct m; simpl in *; unfold_msg_type; lia. Qed.

Lemma wrap_contents p flag :
  flag_data flag = true -> zlen p < 2 ^ 32 ->
  buf_wf (sc_buf_wrap p (zlen p) flag) /\ contents (sc_buf_wrap p (zlen p) flag) = p.
Proof.
  intros Hd Hl. split; [by apply wf_wrap|]. unfold contents, sc_buf_wrap. simpl.
  rewrite Hd, Z.sub_0_r. apply mread_all.
Qed.

Lemma msg_parse_frame_spec m :
  msg_ok m ->
  let r := msg_parse_frame (sc_buf_wrap (enc_msg m) (frame_len m) SC_BUF_READ) in
  fst r = m /\ b_err (snd r) = 0.
Proof.
  intros Hok. pose proof (frame_len_bound m Hok) as Hb. unfold MSG_MAX_SIZE in Hb.
  destruct (wrap_contents (enc_msg m) SC_BUF_READ) as [Hwf E];
    [done|rewrite zlen_enc_msg; lia|].
  rewrite zlen_enc_msg in Hwf, E. cbv zeta.
  pose proof (eq_refl : b_err (sc_buf_wrap (enc_msg m) (frame_len m) SC_BUF_READ) = 0) as He.
  generalize dependent (sc_buf_wrap (enc_msg m) (frame_len m) SC_BUF_READ). intros b Hwf E He.
  unfold enc_msg, frame_fields, enc_fields in E. cbn [map concat enc_field] in E.
  rewrite <- !app_assoc in E. unfold msg_parse_frame, sc_buf_get_32, sc_buf_get_8.
  change ((fun r => fst r = m /\ b_err (snd r) = 0)
    ((len ← sc_buf_get 4; type ← sc_buf_get 1; msg_parse_body type) b)).
  eapply bind_int; [done|exact E|simpl; lia|]. intros b1 Hwf1 E1 He1.
  eapply bind_int; [done|exact E1|by apply msg_type_range|]. intros b2 Hwf2 E2 He2.
  destruct (msg_parse_body_spec m b2 Hok Hwf2 E2) as [-> ->]. split; [done|congruence].
Qed.

(** ** [msg_parse] on a stream *)

Lemma peek_32_contents b :
  buf_wf b -> 4 <= zlen (contents b) ->
  sc_buf_peek_32 b = (le_combine (take 4 (contents b)), b).
Proof.
  intros Hwf Hl. rewrite zlen_contents in Hl by done.
  unfold sc_buf_peek_32, sc_buf_peek_32_at, sc_buf_peek_32_pos, sc_buf_peek_pos. zif.
  unfold contents, mread. rewrite take_take. do 4 f_equal. lia.
Qed.

Lemma le_combine_prefix n v rest :
  0 <= v < 2 ^ (8 * Z.of_nat n) -> le_combine (take n (le_split n v ++ rest)) = v.
Proof.
  intros Hv. rewrite take_app_length' by (by rewrite length_le_split).
  rewrite le_combine_split. by apply Z.mod_small.
Qed.

(** Every frame starts with its length. *)
Lemma enc_msg_head m : exists tl, enc_msg m = le_split 4 (frame_len m) ++ tl.
Proof. eexists. unfold enc_msg, frame_fields, enc_fields. cbn [map concat enc_field]. by rewrite <- !app_assoc. Qed.

(** A complete frame at the read position. *)
Lemma msg_parse_complete m b rest :
  buf_wf b -> msg_ok m -> contents b = enc_msg m ++ rest ->
  exists b', msg_parse b = ((RS_OK, Some m), b') /\ consumed b (enc_msg m) rest b'.
Proof.
  intros Hwf Hok E. pose proof (frame_len_bound m Hok) as Hb. unfold MSG_MAX_SIZE in Hb.
  pose proof (zlen_contents b Hwf) as Hl. rewrite E, zlen_app, zlen_enc_msg in Hl.
  pose proof (zlen_nonneg rest). pose proof Hwf as [].
  exists (with_rpos b (b_rpos b + zlen (enc_msg m))). split; [|by apply consumed_intro].
  unfold msg_parse, MSG_SIZE_LEN. rewrite sc_buf_size_wf by done. zif.
  rewrite peek_32_contents by (done || rewrite E, zlen_app, zlen_enc_msg; lia).
  destruct (enc_msg_head m) as [tl Ht]. rewrite E, Ht, <- app_assoc, le_combine_prefix by (simpl; lia).
  unfold MSG_MAX_SIZE. rewrite sc_buf_size_wf by done. zif.
  assert (Hp : take (Z.to_nat (frame_len m)) (sc_buf_rbuf b) = enc_msg m).
  { rewrite <- zlen_enc_msg. by apply (contents_take b (enc_msg m) rest). }
  rewrite Hp. destruct (msg_parse_frame_spec m Hok) as [H1 H2].
  destruct (msg_parse_frame _) as [m' tmp]. simpl in H1, H2. subst m'.
  unfold sc_buf_valid. rewrite H2. cbn [Z.eqb]. rewrite <- Ht, zlen_enc_msg.
  unfold sc_buf_mark_read. rewrite u32_small by lia. done.
Qed.

(** The beginning of a frame stays in the buffer. *)
Lemma msg_parse_partial m b part rest :
  buf_wf b -> msg_ok m -> enc_msg m = part ++ rest -> rest <> [] -> contents b = part ->
  msg_parse b = ((RS_PARTIAL, None), b).
Proof.
  intros Hwf Hok E Hr Hc. pose proof (frame_len_bound m Hok) as Hb. unfold MSG_MAX_SIZE in Hb.
  assert (Hl : zlen part + zlen rest = frame_len m) by (by rewrite <- zlen_app, <- E, zlen_enc_msg).
  assert (0 < zlen rest) by (destruct rest; [done|rewrite zlen_cons; pose proof (zlen_nonneg rest); lia]).
  pose proof (zlen_contents b Hwf) as Hz. rewrite Hc in Hz.
  unfold msg_parse, MSG_SIZE_LEN. rewrite sc_buf_size_wf by done.
  destruct (Z.ltb_spec (b_wpos b - b_rpos b) 4) as [|Hge]; [done|].
  rewrite peek_32_contents by (done || rewrite Hc; lia).
  destruct (enc_msg_head m) as [tl Ht]. rewrite Ht in E.
  assert (Hp : take 4 (contents b) = take 4 (le_split 4 (frame_len m) ++ tl)).
  { rewrite Hc, E, take_app_le; [done|]. unfold zlen in *. lia. }
  rewrite Hp, le_combine_prefix by (simpl; lia).
  unfold MSG_MAX_SIZE. rewrite sc_buf_size_wf by done. by zif.
Qed.

(** What a receiver gets by parsing until no frame is complete. *)
Fixpoint msg_drain (fuel : nat) (b : sc_buf) : (list msg * rs_rc) * sc_buf :=
  match fuel with
  | O => (([], RS_ERROR), b)
  | S fuel =>
      match msg_parse b with
      | ((RS_OK, Some m), b) =>
          let '((ms, rc), b) := msg_drain fuel b in ((m :: ms, rc), b)
      | ((rc, _), b) => (([], rc), b)
      end
  end.

(** creating a message is all or nothing.  For every message structure a
    creator of msg.c builds, whose values fit their fields, on a well-formed
    buffer: with room for the frame and no earlier error the creator returns
    true; when it returns true the readable bytes grew by exactly the frame,
    whose first field is its length; when it returns false the readable bytes
    and the write position are those before the call. *)
Theorem msg_create_all_or_nothing b m :
  buf_wf b -> creatable m -> msg_ok m -> no_wrap b (frame_len m) ->
  let ok := fst (msg_create b m) in
  let b' := snd (msg_create b m) in
  (b_err b = 0 -> room b (frame_len m) -> ok = true) /\
  (ok = true -> contents b' = contents b ++ enc_msg m /\ zlen (enc_msg m) = frame_len m) /\
  (ok = false -> contents b' = contents b /\ b_wpos b' = b_wpos b) /\
  buf_wf b'.
Proof.
  intros Hwf Hc Hok Hw. rewrite (msg_create_eq b m Hc Hok). cbv zeta.
  pose proof (put_msg_outcome b m Hwf Hw) as Ho. rewrite <- zlen_enc_msg.
  destruct (msg_end_outcome b (enc_msg m) (put_msg b m) Hwf Ho)
    as [(He & -> & Ha)|(Hn & b'' & -> & Hwf2 & Hw2 & Hc2)]; cbn [fst snd].
  - split_and!; try done; [|apply Ha]. intros _. split; [|done]. by apply appended_contents.
  - split_and!; try done. intros He Hr. by destruct Hn.
Qed.

(** C16: the wire protocol is a faithful framing.  Whatever messages a buffer
    holds one after the other, followed by the incomplete beginning of another
    frame, parsing returns exactly these messages in order, then reports
    [RS_PARTIAL] and leaves the incomplete bytes for the next read. *)
Theorem msg_stream_roundtrip b ms m part rest :
  buf_wf b -> Forall msg_ok ms -> msg_ok m ->
  enc_msg m = part ++ rest -> rest <> [] ->
  contents b = concat (map enc_msg ms) ++ part ->
  exists b', msg_drain (S (length ms)) b = ((ms, RS_PARTIAL), b') /\
    contents b' = part /\ b_err b' = b_err b.
Proof.
  intros Hwf Hms Hm Em Hr. revert b Hwf.
  induction Hms as [|m0 ms Hm0 Hms IH]; intros b Hwf E.
  - exists b. cbn [map concat app length msg_drain] in *.
    by rewrite (msg_parse_partial m b part rest).
  - cbn [map concat] in E. rewrite <- app_assoc in E.
    destruct (msg_parse_complete m0 b _ Hwf Hm0 E) as (b1 & Hp & Hc).
    destruct (IH b1 (c_wf _ _ _ _ Hc) (c_rest _ _ _ _ Hc)) as (b2 & Hd & Hc2 & He2).
    exists b2. split; [|split; [done|by rewrite He2; apply consumed_err in Hc]].
    cbn [length]. change (msg_drain (S (S (length ms))) b) with
      (match msg_parse b with
       | ((RS_OK, Some m), b) =>
          let '((ms', rc), b) := msg_drain (S (length ms)) b in ((m :: ms', rc), b)
       | ((rc, _), b) => (([], rc), b) end).
    by rewrite Hp, Hd.
Qed.

Lemma msg_stream_roundtrip_witness :
  let ms := [append_req 3 7 2 6 1 [x01; x02]; shutdown_req true;
             connect_req 1 (Some MSG_RESQL_STR) (Some [x63]) None] in
  let m := prevote_req 4 3 9 in
  let part := take 11 (enc_msg m) in
  let bytes := concat (map enc_msg ms) ++ part in
  let b := sc_buf_wrap bytes (zlen bytes) SC_BUF_DATA in
  exists b', msg_drain 4 b = ((ms, RS_PARTIAL), b') /\ contents b' = part /\ b_err b' = b_err b.
Proof.
  intros ms m part bytes b.
  apply (msg_stream_roundtrip b ms m part (drop 11 (enc_msg m))).
  - apply wf_wrap. vm_compute. reflexivity.
  - apply (bool_decide_unpack _). reflexivity.
  - apply (bool_decide_unpack _). reflexivity.
  - symmetry. apply take_drop.
  - discriminate.
  - reflexivity.
Defined.

Lemma msg_create_all_or_nothing_witness :
  let b := sc_buf_set_limit (snd (msg_create_shutdown_req (sc_buf_init 8) false)) 16 in
  let m := append_resp 5 2 1 true in
  fst (msg_create b m) = false /\ contents (snd (msg_create b m)) = enc_msg (shutdown_req false).
Proof.
  intros b m.
  destruct (msg_create_all_or_nothing b m) as (_ & _ & H & _).
  - apply (buf_step_wf (snd (msg_create_shutdown_req (sc_buf_init 8) false))); [apply step_limit; lia|].
    split; vm_compute; first [reflexivity|discriminate|split; discriminate || reflexivity].
  - exact I.
  - apply (bool_decide_unpack _). reflexivity.
  - right. vm_compute. reflexivity.
  - split; [reflexivity|]. destruct H as [-> _]; reflexivity.
Defined.

(** ** Client responses, built in place *)

Lemma contents_wpos b : buf_wf b -> b_rpos b = 0 -> contents b = written b.
Proof. intros Hwf Hr. rewrite contents_written by done. by rewrite Hr. Qed.

(** Overwriting the first bytes of what was written. *)
Lemma written_set_head b n v tl old :
  buf_wf b -> b_err b = 0 -> written b = old ++ tl -> length old = n ->
  exists b', sc_buf_set_pos n b 0 v = (Z.of_nat n, b') /\ buf_wf b' /\ b_err b' = 0 /\
    b_rpos b' = b_rpos b /\ written b' = le_split n v ++ tl.
Proof.
  intros Hwf He Hw Hn. pose proof (zlen_written b Hwf) as Hl. rewrite Hw, zlen_app in Hl.
  pose proof (zlen_nonneg tl). pose proof Hwf as []. unfold zlen in Hl at 1. rewrite Hn in Hl.
  unfold sc_buf_set_pos. rewrite He. cbn [Z.eqb negb orb]. zif.
  eexists. split; [reflexivity|]. split_and!; try done.
  - apply wf_mwrite; [done|lia|]. rewrite zlen_le_split. lia.
  - unfold written in *. simpl in *.
    replace (b_wpos b) with (Z.of_nat n + zlen tl) in * by (unfold zlen in *; lia).
    rewrite mread_split in Hw |- * by lia.
    apply app_inj_2 in Hw as [_ Hw].
    + rewrite <- (zlen_le_split n v) at 1. rewrite mread_write_same by (rewrite ?zlen_le_split; unfold zlen in *; lia).
      rewrite mread_write_after by (rewrite ?zlen_le_split; unfold zlen in *; lia). by rewrite Hw.
    + apply Nat2Z.inj. change (zlen (mread (b_mem b) (0 + Z.of_nat n) (zlen tl)) = zlen tl).
      apply zlen_mread; unfold zlen in *; lia.
Qed.

Lemma client_resp_header_ok b b1 :
  buf_wf b -> no_wrap b 5 -> msg_create_client_resp_header b = (true, b1) ->
  b_err b = 0 /\ appended b (enc_fields [FInt 4 0; FInt 1 MSG_CLIENT_RESP]) b1.
Proof.
  intros Hwf Hnw Hh.
  pose proof (put_fields_outcome [FInt 4 0; FInt 1 MSG_CLIENT_RESP] b Hwf Hnw) as Ho.
  change (put_fields b [FInt 4 0; FInt 1 MSG_CLIENT_RESP])
    with (snd (msg_create_client_resp_header b)) in Ho.
  assert (Hv : sc_buf_valid b1 = true) by (unfold msg_create_client_resp_header in Hh; congruence).
  rewrite Hh in Ho. cbn [snd] in Ho. unfold sc_buf_valid in Hv. zb.
  destruct Ho as [?|[_ Hf]]; [done|]. by destruct (f_err _ _ _ Hf).
Qed.

(** a response built in place is one frame.  A header written to an empty
    buffer, any results appended behind it and the length patched at the end
    give a buffer that holds exactly the frame of the response with these
    results, and parsing it returns them. *)
Theorem client_resp_in_place b b1 b2 d :
  buf_wf b -> b_rpos b = 0 -> b_wpos b = 0 -> no_wrap b 5 ->
  msg_create_client_resp_header b = (true, b1) ->
  appended b1 d b2 -> msg_ok (client_resp d) ->
  exists b3, msg_finalize_client_resp b2 = (true, b3) /\
    contents b3 = enc_msg (client_resp d) /\
    exists b4, msg_parse b3 = ((RS_OK, Some (client_resp d)), b4) /\ contents b4 = [].
Proof.
  intros Hwf Hr0 Hw0 Hnw Hh Ha Hok. destruct (client_resp_header_ok b b1 Hwf Hnw Hh) as [He Ho].
  pose proof (a_written _ _ _ Ha) as HW. rewrite (a_written _ _ _ Ho) in HW.
  unfold written in HW at 2. rewrite Hw0, mread_nil in HW. cbn [app] in HW.
  unfold enc_fields in HW. cbn [map concat enc_field] in HW. rewrite <- !app_assoc in HW.
  pose proof (zlen_written b2 (a_wf _ _ _ Ha)) as Hl. rewrite HW, !zlen_app, !zlen_le_split in Hl.
  assert (He2 : b_err b2 = 0) by (by rewrite (a_err _ _ _ Ha), (a_err _ _ _ Ho)).
  destruct (written_set_head b2 4 (b_wpos b2) _ _ (a_wf _ _ _ Ha) He2 HW (length_le_split 4 0))
    as (b3 & Hs & Hwf3 & He3 & Hr3 & Hw3).
  assert (Hc : contents b3 = enc_msg (client_resp d)).
  { rewrite contents_wpos, Hw3 by (done || by rewrite Hr3, (a_rpos _ _ _ Ha), (a_rpos _ _ _ Ho)).
    unfold enc_msg, frame_fields, enc_fields. cbn [map concat enc_field msg_fields msg_type].
    rewrite <- !app_assoc. do 2 f_equal. rewrite <- Hl. unfold frame_len. simpl. unfold id.
    unfold MSG_FIXED_LEN, MSG_SIZE_LEN, MSG_TYPE_LEN. change (zlen []) with 0. lia. }
  exists b3. split_and!.
  - unfold msg_finalize_client_resp, sc_buf_set_32_at, sc_buf_set_32_pos. rewrite Hs.
    cbn [snd]. unfold sc_buf_valid. by rewrite He3.
  - done.
  - destruct (msg_parse_complete (client_resp d) b3 [] Hwf3 Hok) as (b4 & Hp & Hcs).
    { by rewrite app_nil_r. }
    exists b4. split; [done|]. apply Hcs.
Qed.

Lemma client_resp_in_place_witness :
  let b := sc_buf_init 16 in
  let b2 := sc_buf_put_raw (snd (msg_create_client_resp_header b)) [x07; x09] in
  exists b3, msg_finalize_client_resp b2 = (true, b3) /\
    contents b3 = enc_msg (client_resp [x07; x09]) /\
    exists b4, msg_parse b3 = ((RS_OK, Some (client_resp [x07; x09])), b4) /\ contents b4 = [].
Proof.
  intros b b2.
  apply (client_resp_in_place b (snd (msg_create_client_resp_header b)) b2 [x07; x09]).
  - apply wf_init. lia.
  - reflexivity.
  - reflexivity.
  - left. vm_compute. discriminate.
  - reflexivity.
  - split; try reflexivity.
    split; vm_compute; first [reflexivity|discriminate|split; discriminate || reflexivity].
  - apply (bool_decide_unpack _). reflexivity.
Defined.

(** ** Arbitrary input *)

(** Whatever the bytes, one call consumes a whole frame or nothing. *)
Lemma msg_parse_cases b :
  buf_wf b ->
  let '((rc, m), b') := msg_parse b in
  buf_wf b' /\ b_err b' = b_err b /\
  ((rc = RS_PARTIAL /\ b' = b) \/ (rc = RS_INVALID /\ b' = b) \/
   ((rc = RS_INVALID \/ (rc = RS_OK /\ is_Some m)) /\
    exists frame, frame <> [] /\ contents b = frame ++ contents b' /\
      zlen frame = le_combine (take 4 (contents b)) /\ zlen frame <= MSG_MAX_SIZE)).
Proof.
  intros Hwf. unfold msg_parse. rewrite sc_buf_size_wf by done. unfold MSG_SIZE_LEN.
  destruct (Z.ltb_spec (b_wpos b - b_rpos b) 4) as [Hs|Hs]; [by auto|].
  rewrite peek_32_contents by (done || rewrite zlen_contents by done; lia).
  rewrite sc_buf_size_wf by done.
  set (len := le_combine _). pose proof (le_combine_range (take 4 (contents b))) as Hr. fold len in Hr.
  destruct (len >? MSG_MAX_SIZE) eqn:E1; [by auto 7|].
  destruct (len =? 0) eqn:E2; [by auto|].
  destruct (len >? b_wpos b - b_rpos b) eqn:E3; [by auto|]. zb.
  pose proof Hwf as []. unfold sc_buf_mark_read. rewrite u32_small by lia.
  pose proof (zlen_contents b Hwf) as Hl.
  destruct (msg_parse_frame _) as [m tmp].
  assert (Hb : buf_wf (with_rpos b (b_rpos b + len))) by (apply wf_with_rpos; [done|lia]).
  assert (Hf : exists frame, frame <> [] /\
    contents b = frame ++ contents (with_rpos b (b_rpos b + len)) /\
    zlen frame = len /\ zlen frame <= MSG_MAX_SIZE).
  { exists (take (Z.to_nat len) (contents b)).
    assert (Hz : zlen (take (Z.to_nat len) (contents b)) = len)
      by (unfold zlen in *; rewrite length_take; lia).
    rewrite Hz. split_and!; [|rewrite contents_advance, take_drop by (done || lia); done|done|done].
    intros E. rewrite E in Hz. change (zlen []) with 0 in Hz. lia. }
  destruct (sc_buf_valid tmp); split_and!; auto 8.
Qed.

(** hostile input cannot stall or derail the receive loop.  For every
    well-formed buffer, whatever bytes it holds, the loop that parses until the
    result is not [RS_OK] ends within one iteration more than the readable
    bytes, with [RS_PARTIAL] or [RS_INVALID]; the buffer stays well formed and
    what is left is a suffix of what was there. *)
Theorem msg_drain_terminates b fuel :
  buf_wf b -> (length (contents b) < fuel)%nat ->
  let '((ms, rc), b') := msg_drain fuel b in
  (rc = RS_PARTIAL \/ rc = RS_INVALID) /\ buf_wf b' /\
  (length ms <= length (contents b))%nat /\
  exists eaten, contents b = eaten ++ contents b'.
Proof.
  revert b. induction fuel as [|fuel IH]; intros b Hwf Hl; [lia|]. cbn [msg_drain].
  pose proof (msg_parse_cases b Hwf) as Hc. destruct (msg_parse b) as [[rc m] b'].
  destruct Hc as (Hwf' & _ & [[-> ->]|[[-> ->]|[Hrc (frame & Hne & E & _)]]]).
  - split_and!; simpl; auto; [lia|]. by exists [].
  - split_and!; simpl; auto; [lia|]. by exists [].
  - assert (length frame <> 0%nat) by (by destruct frame).
    pose proof (f_equal length E) as El. rewrite length_app in El.
    destruct Hrc as [->|[-> [m' ->]]].
    + split_and!; simpl; auto; [lia|]. by exists frame.
    + specialize (IH b' Hwf'). destruct (msg_drain fuel b') as [[ms rc'] b2].
      destruct IH as (H1 & H2 & H3 & eaten & H4); [lia|].
      split_and!; auto; [simpl; lia|]. exists (frame ++ eaten). by rewrite E, H4, app_assoc.
Qed.

Lemma msg_drain_terminates_witness :
  let bytes := [x05; x00; x00; x00; x63; x02; x00; x00; x00; x01] in
  let b := sc_buf_wrap bytes 10 SC_BUF_DATA in
  fst (msg_drain 11 b) = ([unknown_msg 99], RS_INVALID) /\
  exists eaten, bytes = eaten ++ contents (snd (msg_drain 11 b)).
Proof.
  intros bytes b. split; [reflexivity|].
  assert (Hwf : buf_wf b) by (apply (wf_wrap bytes); reflexivity).
  pose proof (msg_drain_terminates b 11 Hwf ltac:(vm_compute; lia)) as H.
  destruct (msg_drain 11 b) as [[ms rc] b']. destruct H as (_ & _ & _ & H). exact H.
Defined.
