(* ===== verification/Map.v ===== *)
(** * Hash maps (lib/sc/sc_map.c, lib/sc/sc_map.h)

    The open-addressing hash map that the macros [sc_map_def_scalar] and
    [sc_map_def_strkey] define: linear probing over a power-of-two table, the
    zero key kept apart in [mem[-1]], growth at a load factor and deletion by
    shifting entries back.  The definitions are generic in the key type, as the
    macros are; a [strkey] instance caches the hash in the item.  The file ends
    with the hash functions of the instances.

    The probing loops have no bound in the source; here they run with fuel, and
    [None] is a loop that does not end.  The refinement theorem shows that on
    every reachable map they end and the map behaves like a finite map. *)

From Stdlib Require Import ZArith Lia.
From Stdlib Require Import Strings.Byte.
From stdpp Require Import base list numbers gmap.
From S2P Require Import Prelude Sc.

Definition SC_MAP_MAX : Z := UINT32_MAX.

Section sc_map.
Context {K V : Type} `{Countable K}.
Variables (k0 : K) (v0 : V) (hash_fn : K -> Z) (strkey : bool).

(** [struct sc_map_item_name]; the hash is a member of string-key items only. *)
Record item := mk_item {
  it_key : K;
  it_value : V;
  it_hash : Z
}.

(** Zeroed memory of [calloc]. *)
Definition empty_item : item := mk_item k0 v0 0.

(** [struct sc_map_name].  [m_zero] is [mem[-1].value]; [m_static] tells whether
    [mem] is the shared empty table. *)
Record sc_map := mk_map {
  m_mem : list item;
  m_zero : V;
  m_static : bool;
  m_cap : Z;
  m_size : Z;
  m_load_fac : Z;
  m_remap : Z;
  m_used : bool;
  m_oom : bool;
  m_found : bool
}.

Definition with_found (m : sc_map) (b : bool) : sc_map :=
  mk_map (m_mem m) (m_zero m) (m_static m) (m_cap m) (m_size m) (m_load_fac m)
    (m_remap m) (m_used m) (m_oom m) b.
Definition with_oom (m : sc_map) (b : bool) : sc_map :=
  mk_map (m_mem m) (m_zero m) (m_static m) (m_cap m) (m_size m) (m_load_fac m)
    (m_remap m) (m_used m) b (m_found m).

(** The table, its size and the hit flag after an update. *)
Definition with_table (m : sc_map) (mem : list item) (size : Z) (found : bool) : sc_map :=
  mk_map mem (m_zero m) (m_static m) (m_cap m) size (m_load_fac m)
    (m_remap m) (m_used m) (m_oom m) found.

Definition sc_map_cmp (t : item) (key : K) (hash : Z) : bool :=
  if strkey then (it_hash t =? hash) && bool_decide (it_key t = key)
  else bool_decide (it_key t = key).

Definition sc_map_assign (t : item) (key : K) (value : V) (hash : Z) : item :=
  mk_item key value (if strkey then hash else it_hash t).

Definition sc_map_hashof (t : item) : Z :=
  if strkey then it_hash t else hash_fn (it_key t).

(** [mem[i]] and [mem[i] = t], for [0 <= i < cap]. *)
Definition slot (mem : list item) (i : Z) : item := default empty_item (mem !! Z.to_nat i).
Definition set_slot (mem : list item) (i : Z) (t : item) : list item := <[Z.to_nat i := t]> mem.

Definition is_empty (t : item) : bool := bool_decide (it_key t = k0).

(** [mem[i].key = 0] *)
Definition clear_key (t : item) : item := mk_item k0 (it_value t) (it_hash t).

(** The static table: one item, capacity one. *)
Definition sc_map_empty : sc_map :=
  mk_map [empty_item] v0 true 1 0 0 0 false false false.

(** [alloc_ok] is the outcome of [calloc]. *)
Definition sc_map_alloc (alloc_ok : bool) (cap factor : Z) : option (Z * list item) :=
  if cap >? SC_MAP_MAX / factor then None
  else
    let v := if cap <? 8 then 8 else u32 (cap * factor) in
    let v := v -₃₂ 1 in
    let v := fold_left (fun v i => Z.lor v (Z.shiftr v i)) [1; 2; 4; 8; 16] v in
    let v := v +₃₂ 1 in
    if alloc_ok then Some (v, replicate (Z.to_nat v) empty_item) else None.

(** [(uint32_t) (cap * ((double) load_fac / 100))], which is exact for the
    default factor 75, the one every map of the program has. *)
Definition remap_at (cap load_fac : Z) : Z := cap * load_fac / 100.

Definition sc_map_init (alloc_ok : bool) (cap load_fac : Z) : option sc_map :=
  let f := if load_fac =? 0 then 75 else load_fac in
  if (f >? 95) || (f <? 25) then None
  else if cap =? 0 then
    Some (mk_map [empty_item] v0 true 1 0 f 0 false false false)
  else
    match sc_map_alloc alloc_ok cap 1 with
    | None => None
    | Some (cap, t) => Some (mk_map t v0 false cap 0 f (remap_at cap f) false false false)
    end.

Definition sc_map_term (m : sc_map) : sc_map :=
  if m_static m then m else sc_map_empty.

Definition sc_map_size (m : sc_map) : Z := m_size m.

Definition sc_map_clear (m : sc_map) : sc_map :=
  if m_size m >? 0 then
    mk_map (map clear_key (m_mem m)) (m_zero m) (m_static m) (m_cap m) 0 (m_load_fac m)
      (m_remap m) false (m_oom m) (m_found m)
  else m.

(** ** Growth *)

(** The inner loop of the remapping: the first free slot from [pos] on. *)
Fixpoint free_slot (fuel : nat) (mem : list item) (mask pos : Z) : option Z :=
  match fuel with
  | O => None
  | S fuel =>
      if is_empty (slot mem pos) then Some pos
      else free_slot fuel mem mask (Z.land (pos +₃₂ 1) mask)
  end.

(** The outer loop over the items of the old table. *)
Fixpoint remap_items (old : list item) (cap : Z) (new : list item) : option (list item) :=
  match old with
  | [] => Some new
  | t :: old =>
      if is_empty t then remap_items old cap new
      else
        match free_slot (Z.to_nat cap) new (cap - 1) (Z.land (sc_map_hashof t) (cap - 1)) with
        | None => None
        | Some pos => remap_items old cap (set_slot new pos t)
        end
  end.

(** [None]: a loop does not end; [Some (false, _)]: out of memory. *)
Definition sc_map_remap (alloc_ok : bool) (m : sc_map) : option (bool * sc_map) :=
  if m_size m <? m_remap m then Some (true, m)
  else
    match sc_map_alloc alloc_ok (m_cap m) 2 with
    | None => Some (false, m)
    | Some (cap, new) =>
        match remap_items (m_mem m) cap new with
        | None => None
        | Some new =>
            Some (true, mk_map new (if m_static m then v0 else m_zero m) false cap
              (m_size m) (m_load_fac m) (remap_at cap (m_load_fac m))
              (m_used m) (m_oom m) (m_found m))
        end
    end.

(** ** Lookup, insertion and deletion *)

(** The probing loop of [put], [get] and [del]: the slot where it stops, free or
    holding the key. *)
Fixpoint probe (fuel : nat) (mem : list item) (mask : Z) (key : K) (h pos : Z) : option Z :=
  match fuel with
  | O => None
  | S fuel =>
      if is_empty (slot mem pos) then Some pos
      else if negb (sc_map_cmp (slot mem pos) key h)
      then probe fuel mem mask key h (Z.land (pos +₃₂ 1) mask)
      else Some pos
  end.

Definition sc_map_put (alloc_ok : bool) (m : sc_map) (key : K) (value : V)
    : option (V * sc_map) :=
  let m := with_oom m false in
  match sc_map_remap alloc_ok m with
  | None => None
  | Some (false, m) => Some (v0, with_oom m true)
  | Some (true, m) =>
      if bool_decide (key = k0) then
        let ret := if m_used m then m_zero m else v0 in
        Some (ret, mk_map (m_mem m) value (m_static m) (m_cap m)
          (m_size m +₃₂ (if m_used m then 0 else 1)) (m_load_fac m) (m_remap m)
          true (m_oom m) (m_used m))
      else
        let mask := m_cap m - 1 in
        let h := hash_fn key in
        match probe (Z.to_nat (m_cap m)) (m_mem m) mask key h (Z.land h mask) with
        | None => None
        | Some pos =>
            let t := slot (m_mem m) pos in
            let size := if is_empty t then m_size m +₃₂ 1 else m_size m in
            let found := negb (is_empty t) in
            let ret := if found then it_value t else v0 in
            Some (ret, with_table m (set_slot (m_mem m) pos (sc_map_assign t key value h)) size found)
        end
  end.

Definition sc_map_get (m : sc_map) (key : K) : option (V * sc_map) :=
  let mask := m_cap m - 1 in
  if bool_decide (key = k0) then
    Some (if m_used m then m_zero m else v0, with_found m (m_used m))
  else
    let h := hash_fn key in
    match probe (Z.to_nat (m_cap m)) (m_mem m) mask key h (Z.land h mask) with
    | None => None
    | Some pos =>
        let t := slot (m_mem m) pos in
        if is_empty t then Some (v0, with_found m false)
        else Some (it_value t, with_found m true)
    end.

(** The inner loop of the deletion: [prev] is the hole, [it] the cursor. *)
Fixpoint shift_back (fuel : nat) (mem : list item) (mask prev it : Z) : option (list item) :=
  match fuel with
  | O => None
  | S fuel =>
      let it := Z.land (it +₃₂ 1) mask in
      if is_empty (slot mem it) then Some mem
      else
        let p := Z.land (sc_map_hashof (slot mem it)) mask in
        if ((p >? it) && ((p <=? prev) || (it >=? prev))) || ((p <=? prev) && (it >=? prev))
        then
          let mem := set_slot mem prev (slot mem it) in
          let mem := set_slot mem it (clear_key (slot mem it)) in
          shift_back fuel mem mask it it
        else shift_back fuel mem mask prev it
  end.

Definition sc_map_del (m : sc_map) (key : K) : option (V * sc_map) :=
  let mask := m_cap m - 1 in
  if bool_decide (key = k0) then
    let found := m_used m in
    Some (if found then m_zero m else v0,
      mk_map (m_mem m) (m_zero m) (m_static m) (m_cap m)
        (m_size m -₃₂ (if m_used m then 1 else 0)) (m_load_fac m) (m_remap m)
        false (m_oom m) found)
  else
    let h := hash_fn key in
    match probe (Z.to_nat (m_cap m)) (m_mem m) mask key h (Z.land h mask) with
    | None => None
    | Some pos =>
        let t := slot (m_mem m) pos in
        if is_empty t then Some (v0, with_found m false)
        else
          let mem := set_slot (m_mem m) pos (clear_key t) in
          match shift_back (Z.to_nat (m_cap m)) mem mask pos pos with
          | None => None
          | Some mem => Some (it_value t, with_table m mem (m_size m -₃₂ 1) true)
          end
    end.

(** [sc_map_foreach]: the pairs in the order of the loop. *)
Definition sc_map_foreach (m : sc_map) : list (K * V) :=
  (if m_used m then [(k0, m_zero m)] else []) ++
  map (fun t => (it_key t, it_value t)) (filter (fun t => is_empty t = false) (m_mem m)).

(** ** Positions on the circle *)

(** [next] is the successor of a slot and [cyc a b] the number of steps from
    [a] to [b] in a table of [N] slots. *)
Definition next (N x : Z) : Z := if x =? N - 1 then 0 else x + 1.
Definition cyc (N a b : Z) : Z := if a <=? b then b - a else b - a + N.

(** The capacities of tables. *)
Definition is_cap (N : Z) : Prop := exists k, 0 <= k <= 31 /\ N = 2 ^ k.

Lemma is_cap_bound N : is_cap N -> 0 < N <= 2 ^ 31.
Proof.
  intros (k & Hk & ->). split; [apply Z.pow_pos_nonneg; lia|]. apply Z.pow_le_mono_r; lia.
Qed.

Lemma land_mask N h : is_cap N -> Z.land h (N - 1) = h `mod` N.
Proof.
  intros (k & Hk & ->). rewrite <- Z.land_ones by lia. f_equal. rewrite Z.ones_equiv. lia.
Qed.

Lemma land_mask_range N h : is_cap N -> 0 <= Z.land h (N - 1) < N.
Proof.
  intros HN. rewrite land_mask by done. apply Z.mod_pos_bound. by apply is_cap_bound in HN as [].
Qed.

Lemma land_next N x : is_cap N -> 0 <= x < N -> Z.land (x +₃₂ 1) (N - 1) = next N x.
Proof.
  intros HN Hx. pose proof (is_cap_bound N HN). rewrite u32_small, land_mask by (done || lia).
  unfold next. case_if.
  - subst x. replace (N - 1 + 1) with (1 * N) by lia. apply Z.mod_mul. lia.
  - apply Z.mod_small. lia.
Qed.

(** Case analysis on the positions of a few slots of the circle. *)
Ltac circle :=
  unfold cyc, next in *;
  repeat match goal with
  | |- context [if ?b then _ else _] => destruct b eqn:?
  | H : context [if ?b then _ else _] |- _ => destruct b eqn:?
  end; zb; lia.

(** ** Tables *)

Section table.
Variable N : Z.
Hypothesis HN : is_cap N.

Definition full (mem : list item) (i : Z) : Prop := is_empty (slot mem i) = false.
Definition home (key : K) : Z := Z.land (hash_fn key) (N - 1).

(** What a table stores: the finite map [M] of its non-zero keys, each in one
    slot. *)
Record core (mem : list item) (M : gmap K V) : Prop := {
  c_len : zlen mem = N;
  c_hash : forall i, 0 <= i < N -> full mem i -> strkey = true ->
    it_hash (slot mem i) = hash_fn (it_key (slot mem i));
  c_uniq : forall i j, 0 <= i < N -> 0 <= j < N -> full mem i ->
    it_key (slot mem i) = it_key (slot mem j) -> i = j;
  c_repr : forall k v, M !! k = Some v <-> k <> k0 /\
    exists i, 0 <= i < N /\ it_key (slot mem i) = k /\ it_value (slot mem i) = v
}.

(** Every slot from the home of a key up to the key is occupied, up to the
    exceptions [exc]. *)
Definition paths (mem : list item) (exc : Z -> Z -> Prop) : Prop :=
  forall i s, 0 <= i < N -> 0 <= s < N -> full mem i ->
    cyc N (home (it_key (slot mem i))) s < cyc N (home (it_key (slot mem i))) i ->
    full mem s \/ exc i s.

Definition no_exc (i s : Z) : Prop := False.

Definition tbl (mem : list item) (M : gmap K V) : Prop := core mem M /\ paths mem no_exc.

Lemma home_range k : 0 <= home k < N.
Proof. by apply land_mask_range. Qed.

Lemma slot_set mem i j t :
  zlen mem = N -> 0 <= i < N -> 0 <= j < N ->
  slot (set_slot mem i t) j = if i =? j then t else slot mem j.
Proof.
  unfold zlen, slot, set_slot. intros Hl Hi Hj. case_if.
  - subst j. by rewrite list_lookup_insert_eq by lia.
  - by rewrite list_lookup_insert_ne by lia.
Qed.

Lemma zlen_set mem i t : zlen (set_slot mem i t) = zlen mem.
Proof. unfold zlen, set_slot. by rewrite length_insert. Qed.

Lemma full_key mem i : full mem i <-> it_key (slot mem i) <> k0.
Proof. unfold full, is_empty. by rewrite bool_decide_eq_false. Qed.

Lemma core_hashof mem M i :
  core mem M -> 0 <= i < N -> full mem i ->
  sc_map_hashof (slot mem i) = hash_fn (it_key (slot mem i)).
Proof.
  intros Hc Hi Hf. unfold sc_map_hashof. destruct strkey eqn:E; [|done].
  by apply (c_hash _ _ Hc).
Qed.

Lemma core_cmp mem M i k :
  core mem M -> 0 <= i < N -> full mem i ->
  sc_map_cmp (slot mem i) k (hash_fn k) = bool_decide (it_key (slot mem i) = k).
Proof.
  intros Hc Hi Hf. unfold sc_map_cmp. destruct strkey eqn:E; [|done].
  rewrite (c_hash _ _ Hc) by done.
  destruct (decide (it_key (slot mem i) = k)) as [->|Hn].
  - by rewrite Z.eqb_refl.
  - rewrite bool_decide_eq_false_2 by done. apply andb_false_r.
Qed.

(** ** Probing finds the first stop *)

(** The common shape of the two probing loops. *)
Fixpoint scan (fuel : nat) (stop : Z -> bool) (pos : Z) : option Z :=
  match fuel with
  | O => None
  | S fuel => if stop pos then Some pos else scan fuel stop (Z.land (pos +₃₂ 1) (N - 1))
  end.

Lemma free_slot_scan fuel mem pos :
  free_slot fuel mem (N - 1) pos = scan fuel (fun p => is_empty (slot mem p)) pos.
Proof. revert pos. induction fuel as [|fuel IH]; intros pos; [done|]. simpl. by rewrite IH. Qed.

Lemma probe_scan fuel mem key h pos :
  probe fuel mem (N - 1) key h pos =
  scan fuel (fun p => is_empty (slot mem p) || sc_map_cmp (slot mem p) key h) pos.
Proof.
  revert pos. induction fuel as [|fuel IH]; intros pos; [done|]. simpl. rewrite IH.
  by destruct (is_empty _), (sc_map_cmp _ _ _).
Qed.

Lemma scan_first stop h e :
  0 <= h < N -> 0 <= e < N -> stop e = true ->
  exists p, scan (Z.to_nat N) stop h = Some p /\ 0 <= p < N /\ stop p = true /\
    forall s, 0 <= s < N -> cyc N h s < cyc N h p -> stop s = false.
Proof.
  intros Hh He Hs.
  assert (G : forall n pos, 0 <= pos < N -> Z.of_nat n + cyc N h pos = N ->
    (forall s, 0 <= s < N -> cyc N h s < cyc N h pos -> stop s = false) ->
    exists p, scan n stop pos = Some p /\ 0 <= p < N /\ stop p = true /\
      forall s, 0 <= s < N -> cyc N h s < cyc N h p -> stop s = false).
  { induction n as [|n IH]; intros pos Hp Hn Hb; [circle|]. cbn [scan].
    destruct (stop pos) eqn:E; [by exists pos|].
    assert (Hne : cyc N h pos <= cyc N h e).
    { destruct (Z_lt_le_dec (cyc N h e) (cyc N h pos)) as [Hlt|]; [|done].
      rewrite (Hb e He Hlt) in Hs. done. }
    assert (pos <> e) by congruence. rewrite land_next by done. apply IH.
    - circle.
    - circle.
    - intros s Hs' Hc. destruct (decide (s = pos)) as [->|]; [done|]. apply Hb; [done|]. circle. }
  apply G; [done|circle|]. intros s Hs' Hc. circle.
Qed.

Lemma probe_spec mem M k e :
  tbl mem M -> k <> k0 -> 0 <= e < N -> ~ full mem e ->
  exists p, probe (Z.to_nat N) mem (N - 1) k (hash_fn k) (home k) = Some p /\
    0 <= p < N /\ (full mem p -> it_key (slot mem p) = k) /\
    (forall s, 0 <= s < N -> cyc N (home k) s < cyc N (home k) p -> full mem s) /\
    M !! k = if is_empty (slot mem p) then None else Some (it_value (slot mem p)).
Proof.
  intros [Hc Hp] Hk He Hf. rewrite probe_scan.
  destruct (scan_first (fun p => is_empty (slot mem p) || sc_map_cmp (slot mem p) k (hash_fn k))
    (home k) e) as (p & Hs & Hpr & Hst & Hb); [by apply home_range|done| |].
  { unfold full in Hf. by destruct (is_empty (slot mem e)). }
  exists p. split; [done|]. split; [done|].
  assert (Hb' : forall s, 0 <= s < N -> cyc N (home k) s < cyc N (home k) p ->
    full mem s /\ it_key (slot mem s) <> k).
  { intros s Hsr Hlt. specialize (Hb s Hsr Hlt). apply orb_false_iff in Hb as [H1 H2].
    rewrite (core_cmp _ _ _ _ Hc Hsr H1), bool_decide_eq_false in H2. done. }
  assert (Hkey : full mem p -> it_key (slot mem p) = k).
  { intros Hfp. rewrite Hfp in Hst. cbn [orb] in Hst.
    by rewrite (core_cmp _ _ _ _ Hc Hpr Hfp), bool_decide_eq_true in Hst. }
  split_and!; [done|intros; by apply Hb'|].
  destruct (is_empty (slot mem p)) eqn:E.
  - apply eq_None_not_Some. intros [v Hv]. apply (c_repr _ _ Hc) in Hv as (_ & i & Hi & Hik & _).
    assert (Hfi : full mem i) by (apply full_key; congruence).
    destruct (Z_lt_le_dec (cyc N (home k) i) (cyc N (home k) p)) as [Hlt|Hge].
    + by destruct (Hb' i Hi Hlt).
    + assert (p <> i) by (intros ->; unfold full in Hfi; congruence).
      destruct (Hp i p Hi Hpr Hfi) as [Hfp|[]].
      * rewrite Hik. pose proof (home_range k). circle.
      * unfold full in Hfp. congruence.
  - apply (c_repr _ _ Hc). split; [done|]. exists p. split; [done|]. auto.
Qed.

Lemma full_set mem p t i :
  zlen mem = N -> 0 <= p < N -> 0 <= i < N -> it_key t <> k0 ->
  full (set_slot mem p t) i <-> i = p \/ full mem i.
Proof.
  intros Hl Hp Hi Ht. rewrite !full_key, slot_set by done. destruct (Z.eqb_spec p i) as [->|Hn].
  - split; [by left|done].
  - split; [by right|]. by intros [->|].
Qed.

(** Writing a key into its slot or a free one. *)
Lemma core_insert mem M k p t :
  core mem M -> k <> k0 -> 0 <= p < N ->
  (full mem p -> it_key (slot mem p) = k) -> (~ full mem p -> M !! k = None) ->
  it_key t = k -> (strkey = true -> it_hash t = hash_fn k) ->
  core (set_slot mem p t) (<[k := it_value t]> M).
Proof.
  intros Hc Hk Hpr Hfull Hfresh Hkt Hht. pose proof (c_len _ _ Hc) as Hl.
  assert (Hf : forall i, 0 <= i < N -> full (set_slot mem p t) i <-> i = p \/ full mem i)
    by (intros; apply full_set; congruence).
  assert (Hold : forall i, 0 <= i < N -> it_key (slot mem i) = k -> i = p).
  { intros i Hi Hik. assert (Hfi : full mem i) by (apply full_key; congruence).
    destruct (is_empty (slot mem p)) eqn:E.
    - assert (HM : M !! k = Some (it_value (slot mem i))).
      { apply (c_repr _ _ Hc). split; [done|]. by exists i. }
      rewrite Hfresh in HM; [done|]. unfold full. congruence.
    - apply (c_uniq _ _ Hc); [done..|]. by rewrite Hik, Hfull. }
  split.
  - by rewrite zlen_set.
  - intros i Hi Hfi Hs. apply Hf in Hfi; [|done]. rewrite slot_set by done. case_if.
    + rewrite Hkt. auto.
    + destruct Hfi; [by subst|]. by apply (c_hash _ _ Hc).
  - intros i j Hi Hj Hfi. rewrite !slot_set by done. apply Hf in Hfi; [|done].
    repeat case_if; subst; try done.
    + intros E. symmetry. apply Hold; [done|congruence].
    + intros E. apply Hold; [done|congruence].
    + destruct Hfi; [by subst|]. by apply (c_uniq _ _ Hc).
  - intros k' v. destruct (decide (k' = k)) as [->|Hne].
    + rewrite lookup_insert_eq. split.
      * intros [= <-]. split; [done|]. exists p. by rewrite slot_set, Z.eqb_refl.
      * intros (_ & i & Hi & Hik & Hiv). rewrite slot_set in Hik, Hiv by done.
        destruct (Z.eqb_spec p i); [congruence|]. by destruct (Hold i Hi Hik).
    + rewrite lookup_insert_ne, (c_repr _ _ Hc) by done. split; intros (? & i & Hi & Hik & Hiv).
      * split; [done|]. exists i. rewrite slot_set by done. case_if; [|done]. subst i.
        destruct (Hne). rewrite <- Hik. apply Hfull, full_key. congruence.
      * split; [done|]. exists i. rewrite slot_set in Hik, Hiv by done.
        destruct (Z.eqb_spec p i); [congruence|done].
Qed.

Lemma tbl_insert mem M k p t :
  tbl mem M -> k <> k0 -> 0 <= p < N ->
  (full mem p -> it_key (slot mem p) = k) -> (~ full mem p -> M !! k = None) ->
  (forall s, 0 <= s < N -> cyc N (home k) s < cyc N (home k) p -> full mem s) ->
  it_key t = k -> (strkey = true -> it_hash t = hash_fn k) ->
  tbl (set_slot mem p t) (<[k := it_value t]> M).
Proof.
  intros [Hc Hp] Hk Hpr Hfull Hfresh Hpath Hkt Hht. split; [by apply core_insert|].
  pose proof (c_len _ _ Hc) as Hl. intros i s Hi Hs Hfi Hlt. left.
  apply full_set; [done..|congruence|]. rewrite slot_set in Hlt by done.
  apply full_set in Hfi; [|done..|congruence]. right. destruct (Z.eqb_spec p i) as [<-|Hne].
  - apply Hpath; [done|]. by rewrite Hkt in Hlt.
  - destruct Hfi; [by subst|]. by destruct (Hp i s) as [|[]].
Qed.

(** ** Occupied slots *)

Definition count (mem : list item) : Z := zlen (filter (fun t => is_empty t = false) mem).

Lemma count_cons t mem : count (t :: mem) = (if is_empty t then 0 else 1) + count mem.
Proof.
  unfold count. destruct (is_empty t) eqn:E.
  - by rewrite filter_cons_False by (by rewrite E).
  - rewrite filter_cons_True by done. by rewrite zlen_cons.
Qed.

Lemma count_le mem : 0 <= count mem <= zlen mem.
Proof.
  induction mem as [|t mem IH]; [done|]. rewrite count_cons, zlen_cons. case_if; lia.
Qed.

Lemma count_insert (mem : list item) : forall n t old, mem !! n = Some old ->
  count (<[n := t]> mem) =
    count mem - (if is_empty old then 0 else 1) + (if is_empty t then 0 else 1).
Proof.
  induction mem as [|x mem IH]; intros [|n] t old Hl; [done..| |].
  - injection Hl as ->. change (<[0%nat := t]> (old :: mem)) with (t :: mem).
    rewrite !count_cons. lia.
  - change (<[S n := t]> (x :: mem)) with (x :: <[n := t]> mem).
    rewrite !count_cons, (IH n t old Hl). lia.
Qed.

Lemma count_set mem i t :
  zlen mem = N -> 0 <= i < N ->
  count (set_slot mem i t) =
    count mem - (if is_empty (slot mem i) then 0 else 1) + (if is_empty t then 0 else 1).
Proof.
  unfold zlen. intros Hl Hi. unfold set_slot, slot.
  destruct (lookup_lt_is_Some_2 mem (Z.to_nat i)) as [x Hx]; [lia|].
  rewrite Hx. by apply count_insert.
Qed.

Lemma count_free mem : count mem < zlen mem -> exists e, 0 <= e < zlen mem /\ ~ full mem e.
Proof.
  induction mem as [|t mem IH]; [done|]. rewrite count_cons, zlen_cons.
  destruct (is_empty t) eqn:E.
  - intros _. exists 0. split; [pose proof (zlen_nonneg mem); lia|].
    unfold full, slot. simpl. congruence.
  - intros Hlt. destruct IH as (e & He & Hf); [lia|]. exists (e + 1). split; [lia|].
    unfold full, slot in *. by replace (Z.to_nat (e + 1)) with (S (Z.to_nat e)) by lia.
Qed.

(** ** Deletion *)

Lemma full_clear mem p i :
  zlen mem = N -> 0 <= p < N -> 0 <= i < N ->
  full (set_slot mem p (clear_key (slot mem p))) i <-> i <> p /\ full mem i.
Proof.
  intros Hl Hp Hi. rewrite !full_key, slot_set by done. destruct (Z.eqb_spec p i) as [->|Hn].
  - split; [by intros []|by intros [[] _]].
  - split; [by split|by intros []].
Qed.

Lemma slot_clear_ne mem p i :
  zlen mem = N -> 0 <= p < N -> 0 <= i < N -> i <> p ->
  slot (set_slot mem p (clear_key (slot mem p))) i = slot mem i.
Proof. intros. rewrite slot_set by done. case_if; [by subst|done]. Qed.

Lemma core_clear mem M p :
  core mem M -> 0 <= p < N -> full mem p ->
  core (set_slot mem p (clear_key (slot mem p))) (delete (it_key (slot mem p)) M).
Proof.
  intros Hc Hp Hf. pose proof (c_len _ _ Hc) as Hl. split.
  - by rewrite zlen_set.
  - intros i Hi Hfi Hs. apply full_clear in Hfi as [Hne Hfi]; [|done..].
    rewrite slot_clear_ne by done. by apply (c_hash _ _ Hc).
  - intros i j Hi Hj Hfi E. apply full_clear in Hfi as [Hne Hfi]; [|done..].
    rewrite slot_clear_ne in E by done. destruct (decide (j = p)) as [->|Hj'].
    + rewrite slot_set, Z.eqb_refl in E by done. apply full_key in Hfi. done.
    + rewrite slot_clear_ne in E by done. by apply (c_uniq _ _ Hc).
  - intros k v. rewrite lookup_delete_Some, (c_repr _ _ Hc). split.
    + intros (Hne & Hk & i & Hi & Hik & Hiv). split; [done|]. exists i.
      rewrite slot_clear_ne; [done..|]. intros ->. done.
    + intros (Hk & i & Hi & Hik & Hiv). assert (i <> p).
      { intros ->. rewrite slot_set, Z.eqb_refl in Hik by done. done. }
      rewrite slot_clear_ne in Hik, Hiv by done. split_and!; [|done|by exists i].
      intros E. assert (p = i); [|done]. apply (c_uniq _ _ Hc); [done..|congruence].
Qed.

(** Moving an item into a hole. *)
Definition moved (mem : list item) (prev it : Z) : list item :=
  let mem := set_slot mem prev (slot mem it) in
  set_slot mem it (clear_key (slot mem it)).

Lemma moved_eq mem prev it :
  zlen mem = N -> 0 <= prev < N -> 0 <= it < N -> prev <> it ->
  moved mem prev it = set_slot (set_slot mem it (clear_key (slot mem it))) prev (slot mem it).
Proof.
  intros Hl Hp Hi Hne. unfold moved. rewrite slot_set by done. case_if; [done|].
  unfold set_slot. apply list_insert_insert_ne. lia.
Qed.

Lemma core_move mem M prev it :
  core mem M -> 0 <= prev < N -> 0 <= it < N -> ~ full mem prev -> full mem it ->
  core (moved mem prev it) M /\ count (moved mem prev it) = count mem.
Proof.
  intros Hc Hp Hi He Hf. pose proof (c_len _ _ Hc) as Hl.
  assert (Hne : prev <> it) by (intros ->; done). rewrite moved_eq by done.
  pose proof (core_clear mem M it Hc Hi Hf) as Hc1.
  assert (Hk : it_key (slot mem it) <> k0) by (by apply full_key).
  assert (HM : M !! it_key (slot mem it) = Some (it_value (slot mem it))).
  { apply (c_repr _ _ Hc). split; [done|]. by exists it. }
  assert (He1 : ~ full (set_slot mem it (clear_key (slot mem it))) prev).
  { rewrite full_clear by done. by intros []. }
  split.
  - rewrite <- (insert_delete_id M _ _ HM) at 1.
    apply core_insert; [done..|by intros|by rewrite lookup_delete_eq|done|].
    intros. by apply (c_hash _ _ Hc).
  - rewrite !count_set by (rewrite ?zlen_set; done). rewrite slot_clear_ne by done.
    assert (Ec : is_empty (clear_key (slot mem it)) = true) by (unfold is_empty; by rewrite bool_decide_true).
    assert (Hep : is_empty (slot mem prev) = true) by (unfold full in He; by destruct is_empty).
    rewrite Ec, Hf, Hep. lia.
Qed.

(** The test of the shifting loop: the hole lies between the home of the item
    and the item. *)
Lemma shift_test p prev it :
  0 <= p < N -> 0 <= prev < N -> 0 <= it < N -> prev <> it ->
  ((p >? it) && ((p <=? prev) || (it >=? prev))) || ((p <=? prev) && (it >=? prev)) =
  (cyc N p prev <=? cyc N p it).
Proof.
  intros. apply eq_true_iff_eq.
  rewrite orb_true_iff, !andb_true_iff, orb_true_iff, Z.gtb_lt, !Z.leb_le, Z.geb_le. circle.
Qed.

Lemma cyc_inj a i j : 0 <= a < N -> 0 <= i < N -> 0 <= j < N -> cyc N a i = cyc N a j -> i = j.
Proof. intros. circle. Qed.

(** A path over the hole that ends behind a slot passes through that slot. *)
Lemma cyc_between h a b i :
  0 <= h < N -> 0 <= a < N -> 0 <= b < N -> 0 <= i < N ->
  cyc N h a < cyc N h i -> cyc N a b < cyc N a i -> cyc N h b < cyc N h i.
Proof. intros. circle. Qed.

(** While the loop runs, only items behind the cursor may still reach over the
    hole. *)
Definition behind (prev it i s : Z) : Prop := s = prev /\ cyc N prev it < cyc N prev i.

Lemma paths_move mem M prev it :
  core mem M -> 0 <= prev < N -> 0 <= it < N -> ~ full mem prev -> full mem it ->
  cyc N (home (it_key (slot mem it))) prev <= cyc N (home (it_key (slot mem it))) it ->
  (forall i s, 0 <= i < N -> 0 <= s < N -> full mem i ->
    cyc N (home (it_key (slot mem i))) s < cyc N (home (it_key (slot mem i))) i ->
    full mem s \/ s = prev) ->
  paths (moved mem prev it) (behind it it).
Proof.
  intros Hc Hp Hi He Hf Hle HP i s Hir Hs Hfi Hlt. pose proof (c_len _ _ Hc) as Hl.
  assert (Hne : prev <> it) by (intros ->; done). rewrite moved_eq in * by done.
  assert (Hl1 : zlen (set_slot mem it (clear_key (slot mem it))) = N) by (by rewrite zlen_set).
  assert (Hk : it_key (slot mem it) <> k0) by (by apply full_key).
  rewrite full_set, full_clear in Hfi |- * by done.
  pose proof (home_range (it_key (slot mem it))). rewrite slot_set in Hlt by done.
  destruct (Z.eqb_spec prev i) as [<-|Hpi].
  - left. assert (s <> prev) by (intros ->; lia). assert (s <> it) by (intros ->; lia).
    destruct (HP it s) as [?|?]; [done..|circle| |done]. auto.
  - destruct Hfi as [->|[Hii Hfi]]; [done|]. rewrite slot_clear_ne in Hlt by done.
    destruct (decide (s = it)) as [->|Hsi].
    + right. split; [done|]. circle.
    + left. destruct (HP i s Hir Hs Hfi Hlt) as [?| ->]; auto.
Qed.

Lemma shift_back_spec e : forall fuel mem M prev it,
  core mem M -> 0 <= prev < N -> 0 <= it < N -> 0 <= e < N ->
  ~ full mem prev -> ~ full mem e -> cyc N prev it < cyc N prev e ->
  paths mem (behind prev it) -> cyc N it e <= Z.of_nat fuel ->
  exists mem', shift_back fuel mem (N - 1) prev it = Some mem' /\
    tbl mem' M /\ count mem' = count mem.
Proof.
  induction fuel as [|fuel IH]; intros mem M prev it Hc Hp Hi He Hfp Hfe Hlt HP Hfuel.
  { exfalso. circle. }
  cbn [shift_back]. rewrite land_next by done. set (it' := next N it).
  assert (Hi' : 0 <= it' < N) by (unfold it'; circle).
  assert (Hnp : it' <> prev) by (unfold it'; circle).
  assert (Hcy : cyc N prev it' = cyc N prev it + 1) by (unfold it'; circle).
  assert (Hce : it' <> e -> cyc N it e = cyc N it' e + 1) by (unfold it'; circle).
  assert (Hne : it <> e) by (intros ->; lia).
  destruct (is_empty (slot mem it')) eqn:E.
  - exists mem. split; [done|]. split; [|done]. split; [done|]. intros i s Hir Hs Hfi Hls.
    destruct (HP i s Hir Hs Hfi Hls) as [?|[-> Hb]]; [by left|]. exfalso.
    assert (i <> it') by (intros ->; unfold full in Hfi; congruence).
    assert (cyc N prev i <> cyc N prev it') by (by intros ?%cyc_inj).
    destruct (HP i it' Hir Hi' Hfi) as [Hf|[? _]]; [|unfold full in Hf; congruence|done].
    apply (cyc_between _ prev); [apply home_range|done..|lia].
  - assert (Hfi : full mem it') by done.
    assert (it' <> e) by (intros ->; done).
    rewrite (core_hashof mem M it') by done. fold (home (it_key (slot mem it'))).
    pose proof (home_range (it_key (slot mem it'))) as Hh.
    rewrite shift_test by done. fold (moved mem prev it').
    destruct (Z.leb_spec (cyc N (home (it_key (slot mem it'))) prev)
                (cyc N (home (it_key (slot mem it'))) it')) as [Hle|Hgt].
    + destruct (core_move mem M prev it' Hc Hp Hi' Hfp Hfi) as [Hc1 Hn1].
      pose proof (c_len _ _ Hc) as Hl.
      assert (Hfm : forall i, 0 <= i < N -> full (moved mem prev it') i <->
        i = prev \/ (i <> it' /\ full mem i)).
      { intros i Hir. rewrite moved_eq by done. rewrite full_set, full_clear by
          (rewrite ?zlen_set; done || by apply full_key). done. }
      destruct (IH (moved mem prev it') M it' it') as (mem' & Hs & Ht & Hn); try done.
      * rewrite Hfm by done. intros [->|[? _]]; done.
      * rewrite Hfm by done. intros [->|[_ ?]]; [circle|done].
      * circle.
      * apply (paths_move mem M); [done..|]. intros i s H1 H2 H3 H4.
        destruct (HP i s H1 H2 H3 H4) as [?|[-> _]]; auto.
      * lia.
      * exists mem'. rewrite Hn1 in Hn. done.
    + apply IH; try done; [circle| |lia]. intros i s Hir Hs Hf Hls.
      destruct (HP i s Hir Hs Hf Hls) as [?|[-> Hb]]; [by left|]. right. split; [done|].
      assert (i <> it') by (intros ->; lia).
      assert (cyc N prev i <> cyc N prev it') by (by intros ?%cyc_inj). lia.
Qed.
End table.

(** ** Capacities *)

Lemma smear_ones v :
  2 <= v <= 2 ^ 31 ->
  fold_left (fun v i => Z.lor v (Z.shiftr v i)) [1; 2; 4; 8; 16] (v - 1) = 2 ^ Z.log2_up v - 1.
Proof.
  intros Hv. set (n := v - 1). set (l := Z.log2 n).
  assert (Hl : 0 <= l < 31).
  { split; [apply Z.log2_nonneg|]. apply Z.log2_lt_pow2; unfold n; lia. }
  assert (H1 : smeared l 1 n).
  { intros i Hi. split; intros Hi'.
    - assert (i = l) as -> by lia. apply Z.bit_log2. unfold n. lia.
    - apply Z.bits_above_log2; [unfold n; lia|done]. }
  cbn [fold_left]. apply smeared_step in H1; [|lia]. apply (smeared_step l 2) in H1; [|lia].
  apply (smeared_step l 4) in H1; [|lia]. apply (smeared_step l 8) in H1; [|lia].
  apply (smeared_step l 16) in H1; [|lia]. apply smeared_ones in H1; [|lia]. rewrite H1.
  rewrite Z.log2_up_eqn by lia. replace (Z.pred v) with n by (unfold n; lia). fold l.
  rewrite Z.ones_equiv. unfold Z.succ. lia.
Qed.

(** The next capacity: a power of two, eight at least and [factor] times the old
    one from eight on. *)
Lemma sc_map_alloc_spec cap factor :
  0 <= cap -> factor = 1 \/ factor = 2 -> cap * factor <= 2 ^ 31 ->
  let v := if cap <? 8 then 8 else cap * factor in
  let N := 2 ^ Z.log2_up v in
  sc_map_alloc true cap factor = Some (N, replicate (Z.to_nat N) empty_item) /\
  is_cap N /\ 8 <= v <= N.
Proof.
  intros Hc Hf Hb v N.
  assert (Hv : 8 <= v <= 2 ^ 31) by (unfold v; case_if; lia).
  destruct (Z.log2_up_spec v) as [Hlo Hhi]; [lia|].
  assert (Hl : Z.log2_up v <= 31) by (apply Z.log2_up_le_pow2; lia).
  pose proof (Z.log2_up_nonneg v). fold N in Hhi.
  assert (HN : is_cap N) by (by exists (Z.log2_up v)). pose proof (is_cap_bound N HN).
  split_and!; [|done|lia|lia]. unfold sc_map_alloc, SC_MAP_MAX, UINT32_MAX.
  rewrite if_false.
  2: { rewrite Z.gtb_ltb. apply Z.ltb_ge. destruct Hf as [->| ->]; [rewrite Z.div_1_r; lia|].
       change ((2 ^ 32 - 1) / 2) with (2 ^ 31 - 1). lia. }
  replace (if cap <? 8 then 8 else u32 (cap * factor)) with v
    by (unfold v; case_if; [done|]; rewrite u32_small; lia).
  cbv zeta. rewrite (u32_small (v - 1)), smear_ones by lia. fold N.
  rewrite u32_small by lia. by replace (N - 1 + 1) with N by lia.
Qed.

(** ** Growth keeps the contents *)

Lemma slot_app_eq (l r : list item) t : slot (l ++ t :: r) (zlen l) = t.
Proof. unfold slot, zlen. by rewrite Nat2Z.id, list_lookup_middle. Qed.

Lemma tbl_empty N mem :
  zlen mem = N -> Forall (fun t => it_key t = k0) mem -> tbl N mem ∅.
Proof.
  intros Hl Hall.
  assert (Hs : forall i, it_key (slot mem i) = k0).
  { intros i. unfold slot. destruct (_ !! _) as [x|] eqn:E; [|done].
    by apply (Forall_lookup_1 _ _ _ _ Hall) in E. }
  assert (Hf : forall i, ~ full mem i).
  { intros i. rewrite full_key. intros []. apply Hs. }
  split; [split|].
  - done.
  - intros i _ Hi. by destruct (Hf i).
  - intros i j _ _ Hi. by destruct (Hf i).
  - intros k v. rewrite lookup_empty. split; [done|]. intros (Hk & i & _ & <- & _). by rewrite Hs in Hk.
  - intros i s _ _ Hi. by destruct (Hf i).
Qed.

Lemma count_empty mem : Forall (fun t => it_key t = k0) mem -> count mem = 0.
Proof.
  induction 1 as [|t mem Ht _ IH]; [done|]. rewrite count_cons, IH.
  unfold is_empty. by rewrite bool_decide_true.
Qed.

Lemma fresh_empty n : Forall (fun t => it_key t = k0) (replicate n empty_item).
Proof. by apply Forall_replicate. Qed.

Lemma zlen_replicate_Z {A} (x : A) n : 0 <= n -> zlen (replicate (Z.to_nat n) x) = n.
Proof. intros. unfold zlen. rewrite length_replicate. lia. Qed.

(** The items of the first [n] slots. *)
Definition stored_below (mem : list item) (n : Z) (M : gmap K V) : Prop :=
  forall k v, M !! k = Some v <-> k <> k0 /\
    exists i, 0 <= i < n /\ it_key (slot mem i) = k /\ it_value (slot mem i) = v.

(** One more slot. *)
Lemma stored_below_empty (l r : list item) t M :
  is_empty t = true -> stored_below (l ++ t :: r) (zlen l) M ->
  stored_below (l ++ t :: r) (zlen (l ++ [t])) M.
Proof.
  intros E Hb k v. unfold is_empty in E. apply bool_decide_eq_true in E.
  pose proof (slot_app_eq l r t) as Ht. rewrite (Hb k v), zlen_app. change (zlen [t]) with 1.
  split; intros (Hk & i & Hi & Hik & Hiv).
  - split; [done|]. exists i. split; [lia|done].
  - split; [done|]. exists i. split; [|done]. destruct (decide (i = zlen l)) as [->|]; [congruence|lia].
Qed.

Lemma stored_below_full (l r : list item) t M :
  it_key t <> k0 -> M !! it_key t = None -> stored_below (l ++ t :: r) (zlen l) M ->
  stored_below (l ++ t :: r) (zlen (l ++ [t])) (<[it_key t := it_value t]> M).
Proof.
  intros Hk0 Hf Hb k v. pose proof (slot_app_eq l r t) as Ht. rewrite zlen_app.
  change (zlen [t]) with 1. pose proof (zlen_nonneg l).
  destruct (decide (k = it_key t)) as [->|Hne].
  - rewrite lookup_insert_eq. split.
    + intros [= <-]. split; [done|]. exists (zlen l). rewrite Ht. split; [lia|done].
    + intros (_ & i & Hi & Hik & Hiv). destruct (decide (i = zlen l)) as [->|]; [congruence|].
      rewrite (proj2 (Hb (it_key t) v)) in Hf; [done|]. split; [done|]. exists i. split; [lia|done].
  - rewrite lookup_insert_ne, (Hb k v) by done. split; intros (Hk & i & Hi & Hik & Hiv).
    + split; [done|]. exists i. split; [lia|done].
    + split; [done|]. exists i. split; [|done]. destruct (decide (i = zlen l)) as [->|]; [congruence|lia].
Qed.

Lemma remap_items_spec N N0 M : is_cap N ->
  forall old l new Mn,
  core N0 (l ++ old) M -> tbl N new Mn -> stored_below (l ++ old) (zlen l) Mn ->
  count new + count old < N ->
  exists new', remap_items old N new = Some new' /\ tbl N new' M /\
    count new' = count new + count old.
Proof.
  intros HN. induction old as [|t old IH]; intros l new Mn Hc Ht Hb Hn.
  - rewrite app_nil_r in *. exists new. split; [done|]. change (count []) with 0. split; [|lia].
    replace M with Mn; [done|]. apply map_eq. intros k. apply option_eq. intros v.
    rewrite (Hb k v), (c_repr _ _ _ Hc). by rewrite (c_len _ _ _ Hc).
  - pose proof (slot_app_eq l old t) as Ht0. rewrite count_cons in *.
    assert (Hl0 : 0 <= zlen l < N0).
    { rewrite <- (c_len _ _ _ Hc), zlen_app, zlen_cons.
      pose proof (zlen_nonneg l). pose proof (zlen_nonneg old). lia. }
    assert (Hassoc : l ++ t :: old = (l ++ [t]) ++ old) by (by rewrite <- app_assoc).
    cbn [remap_items]. destruct (is_empty t) eqn:E.
    + apply (stored_below_empty l old t Mn E) in Hb. rewrite Hassoc in Hc, Hb.
      by apply (IH (l ++ [t]) new Mn).
    + assert (Hf0 : full (l ++ t :: old) (zlen l)) by (unfold full; by rewrite Ht0).
      assert (Hk : it_key t <> k0) by (rewrite <- Ht0; by apply full_key).
      assert (Hho : sc_map_hashof t = hash_fn (it_key t)).
      { rewrite <- Ht0. by apply (core_hashof N0 _ M). }
      rewrite Hho. fold (home N (it_key t)). pose proof Ht as [Htc _].
      pose proof (c_len _ _ _ Htc) as Hlen.
      destruct (count_free new) as (e & He & Hfe); [pose proof (count_le old); lia|].
      rewrite Hlen in He. rewrite free_slot_scan.
      destruct (scan_first N HN (fun p => is_empty (slot new p)) (home N (it_key t)) e)
        as (p & -> & Hp & Hst & Hbef); [by apply home_range|done|by apply not_false_iff_true|].
      assert (Hfr : Mn !! it_key t = None).
      { apply eq_None_not_Some. intros [v Hv]. apply Hb in Hv as (_ & i & Hi & Hik & _).
        assert (zlen l = i); [|lia]. apply (c_uniq _ _ _ Hc); [lia..|done|]. by rewrite Ht0. }
      destruct (IH (l ++ [t]) (set_slot new p t) (<[it_key t := it_value t]> Mn)) as (new' & Hr & Ht' & Hn').
      * by rewrite <- Hassoc.
      * apply tbl_insert; try done.
        -- intros Hfp. unfold full in Hfp. congruence.
        -- intros Hs. rewrite <- Ht0. by apply (c_hash _ _ _ Hc).
      * rewrite <- Hassoc. by apply stored_below_full.
      * rewrite (count_set N) by done. rewrite Hst, E. lia.
      * exists new'. split; [done|]. split; [done|]. rewrite Hn', (count_set N) by done.
        rewrite Hst, E. lia.
Qed.

(** ** The map invariant *)

Record map_inv (m : sc_map) (M : gmap K V) : Prop := {
  i_cap : is_cap (m_cap m);
  i_tbl : tbl (m_cap m) (m_mem m) (delete k0 M);
  i_zero : M !! k0 = if m_used m then Some (m_zero m) else None;
  i_count : m_size m = count (m_mem m) + (if m_used m then 1 else 0);
  i_size : m_size m = Z.of_nat (size M);
  i_fac : 25 <= m_load_fac m <= 95;
  i_load : m_size m <= m_remap m;
  i_remap : if m_static m then m_cap m = 1 /\ m_remap m = 0
            else 8 <= m_cap m /\ m_remap m = remap_at (m_cap m) (m_load_fac m)
}.

Lemma remap_at_bound N f : 25 <= f <= 95 -> 8 <= N -> 2 <= remap_at N f < N.
Proof.
  unfold remap_at. intros. split; [apply Z.div_le_lower_bound|apply Z.div_lt_upper_bound]; nia.
Qed.

Lemma remap_at_double N f : 25 <= f -> 8 <= N -> remap_at N f < remap_at (2 * N) f.
Proof.
  unfold remap_at. intros. assert (200 <= N * f) by nia.
  replace (2 * N * f) with (N * f + N * f) by lia. generalize dependent (N * f). intros. dlia.
Qed.

Lemma inv_remap m M : map_inv m M -> 0 <= m_remap m < m_cap m.
Proof.
  intros Hi. pose proof (i_remap _ _ Hi) as Hr. destruct (m_static m); [lia|].
  destruct Hr as [Hc ->]. pose proof (remap_at_bound (m_cap m) (m_load_fac m) (i_fac _ _ Hi) Hc). lia.
Qed.

Lemma inv_free m M : map_inv m M -> exists e, 0 <= e < m_cap m /\ ~ full (m_mem m) e.
Proof.
  intros Hi. pose proof (c_len _ _ _ (proj1 (i_tbl _ _ Hi))) as Hl.
  destruct (count_free (m_mem m)) as (e & He & Hf); [|exists e; by rewrite Hl in He].
  pose proof (inv_remap _ _ Hi). pose proof (i_load _ _ Hi). pose proof (i_count _ _ Hi) as Hc.
  destruct (m_used m); lia.
Qed.

Lemma inv_oom m M b : map_inv m M -> map_inv (with_oom m b) M.
Proof. by intros []. Qed.

Lemma inv_found m M b : map_inv m M -> map_inv (with_found m b) M.
Proof. by intros []. Qed.

(** A larger table takes all items and one more. *)
Lemma inv_grown m M N :
  map_inv m M -> m_remap m <= m_size m -> 8 <= N -> (8 <= m_cap m -> 2 * m_cap m <= N) ->
  m_size m < remap_at N (m_load_fac m) /\ count (m_mem m) < N.
Proof.
  intros Hi Hge HN Hd. pose proof Hi as [Hcap Ht Hz Hct Hsz Hfac Hload Hrm].
  pose proof (inv_remap _ _ Hi) as Hr. destruct (m_static m).
  - pose proof (remap_at_bound N (m_load_fac m) Hfac). destruct (m_used m); lia.
  - destruct Hrm as [Hc8 Hr8].
    assert (remap_at (2 * m_cap m) (m_load_fac m) <= remap_at N (m_load_fac m)).
    { unfold remap_at. apply Z.div_le_mono; [lia|]. apply Z.mul_le_mono_nonneg_r; lia. }
    pose proof (remap_at_double (m_cap m) (m_load_fac m)). destruct (m_used m); lia.
Qed.

Lemma cap_limit N : is_cap N -> 2 ^ 31 < N * 2 -> N = 2 ^ 31.
Proof.
  intros (k & Hk & ->) Hgt. destruct (decide (k = 31)) as [->|]; [done|].
  assert (2 ^ k <= 2 ^ 30) by (apply Z.pow_le_mono_r; lia). lia.
Qed.

(** Growth either leaves room for one more key or fails without a trace. *)
Lemma sc_map_remap_spec ok m M :
  map_inv m M ->
  (exists m', sc_map_remap ok m = Some (true, m') /\ map_inv m' M /\ m_size m' < m_remap m' /\
     m_oom m' = m_oom m) \/
  (sc_map_remap ok m = Some (false, m) /\ (ok = false \/ 2 ^ 29 <= m_size m)).
Proof.
  intros Hi. pose proof Hi as [Hcap Ht Hz Hct Hsz Hfac Hload Hrm]. unfold sc_map_remap.
  destruct (Z.ltb_spec (m_size m) (m_remap m)) as [Hlt|Hge]; [left; by exists m|].
  pose proof (is_cap_bound _ Hcap) as Hb.
  destruct (Z_le_gt_dec (m_cap m * 2) (2 ^ 31)) as [Hle|Hgt].
  2: { right. unfold sc_map_alloc, SC_MAP_MAX, UINT32_MAX. change ((2 ^ 32 - 1) / 2) with (2 ^ 31 - 1).
       assert (m_cap m = 2 ^ 31) as E by (apply cap_limit; [done|lia]).
       rewrite E. split; [done|]. right. destruct (m_static m); [lia|].
       destruct Hrm as [_ Hr]. rewrite E in Hr. unfold remap_at in Hr. dlia. }
  destruct ok; [|right; split; [|by left]; unfold sc_map_alloc; by destruct (m_cap m >? SC_MAP_MAX / 2)].
  destruct (sc_map_alloc_spec (m_cap m) 2) as (Ha & HN & Hv); [lia|by right|done|].
  rewrite Ha. left. generalize dependent (2 ^ Z.log2_up (if m_cap m <? 8 then 8 else m_cap m * 2)).
  intros N Ha HN Hv. destruct (inv_grown m M N Hi Hge) as [H1 H2].
  { lia. }
  { intros. rewrite (if_false (m_cap m <? 8)) in Hv by zbool_solve. lia. }
  destruct (remap_items_spec N (m_cap m) (delete k0 M) HN (m_mem m) [] (replicate (Z.to_nat N) empty_item) ∅)
    as (new & Hr & Htn & Hcn).
  - apply Ht.
  - apply tbl_empty; [apply zlen_replicate_Z; lia|apply fresh_empty].
  - intros k v. rewrite lookup_empty. split; [done|]. intros (_ & i & Hi' & _). change (zlen []) with 0 in Hi'. lia.
  - rewrite count_empty by apply fresh_empty. lia.
  - rewrite Hr. eexists. split; [reflexivity|]. rewrite (count_empty (replicate _ _)) in Hcn by apply fresh_empty.
    split; [|done]. split; simpl; try done; [|lia|lia|split; [lia|done]].
    destruct (m_static m); [|done]. destruct (m_used m); [|done].
    pose proof (count_le (m_mem m)). lia.
Qed.

(** ** Operations *)

Lemma lookup_ne_zero (M : gmap K V) k : k <> k0 -> delete k0 M !! k = M !! k.
Proof. intros. by rewrite lookup_delete_ne. Qed.

Lemma inv_probe m M k :
  map_inv m M -> k <> k0 ->
  exists p, probe (Z.to_nat (m_cap m)) (m_mem m) (m_cap m - 1) k (hash_fn k)
      (Z.land (hash_fn k) (m_cap m - 1)) = Some p /\
    0 <= p < m_cap m /\ (full (m_mem m) p -> it_key (slot (m_mem m) p) = k) /\
    (forall s, 0 <= s < m_cap m ->
       cyc (m_cap m) (home (m_cap m) k) s < cyc (m_cap m) (home (m_cap m) k) p -> full (m_mem m) s) /\
    M !! k = if is_empty (slot (m_mem m) p) then None else Some (it_value (slot (m_mem m) p)).
Proof.
  intros Hi Hk. destruct (inv_free m M Hi) as (e & He & Hf).
  destruct (probe_spec (m_cap m) (i_cap _ _ Hi) (m_mem m) _ k e (i_tbl _ _ Hi) Hk He Hf)
    as (p & H1 & H2 & H3 & H4 & H5).
  exists p. by rewrite lookup_ne_zero in H5.
Qed.

Lemma sc_map_get_spec m M k :
  map_inv m M ->
  exists m', sc_map_get m k = Some (default v0 (M !! k), m') /\ map_inv m' M /\
    m_found m' = bool_decide (is_Some (M !! k)).
Proof.
  intros Hi. unfold sc_map_get. destruct (decide (k = k0)) as [->|Hk].
  - rewrite bool_decide_true by done. rewrite (i_zero _ _ Hi).
    exists (with_found m (m_used m)). split; [by destruct (m_used m)|]. split; [by apply inv_found|].
    simpl. by destruct (m_used m).
  - rewrite bool_decide_false by done. destruct (inv_probe m M k Hi Hk) as (p & -> & _ & _ & _ & ->).
    destruct (is_empty _); eexists; (split; [reflexivity|split; [by apply inv_found|done]]).
Qed.

Lemma insert_zero_delete k v (M : gmap K V) :
  k <> k0 -> delete k0 (<[k := v]> M) = <[k := v]> (delete k0 M).
Proof. intros. by rewrite delete_insert_ne. Qed.

(** Insertion when there is room. *)
Lemma put_room m M k v :
  map_inv m M -> m_size m < m_remap m -> k <> k0 ->
  forall p, 0 <= p < m_cap m -> (full (m_mem m) p -> it_key (slot (m_mem m) p) = k) ->
  (forall s, 0 <= s < m_cap m ->
     cyc (m_cap m) (home (m_cap m) k) s < cyc (m_cap m) (home (m_cap m) k) p -> full (m_mem m) s) ->
  M !! k = (if is_empty (slot (m_mem m) p) then None else Some (it_value (slot (m_mem m) p))) ->
  let t := slot (m_mem m) p in
  map_inv (with_table m (set_slot (m_mem m) p (sc_map_assign t k v (hash_fn k)))
    (if is_empty t then m_size m +₃₂ 1 else m_size m) (negb (is_empty t))) (<[k := v]> M).
Proof.
  intros Hi Hlt Hk p Hp Hfull Hpath HM t. pose proof Hi as [Hcap Ht Hz Hct Hsz Hfac Hload Hrm].
  pose proof (inv_remap _ _ Hi). pose proof (is_cap_bound _ Hcap).
  assert (Hu : u32 (m_size m + 1) = m_size m + 1) by (apply u32_small; lia).
  assert (Hne : is_empty (sc_map_assign t k v (hash_fn k)) = false)
    by (unfold is_empty; simpl; by rewrite bool_decide_false).
  split; simpl; try done.
  - rewrite insert_zero_delete by done.
    apply (tbl_insert _ (m_mem m) _ k p (sc_map_assign t k v (hash_fn k))); try done.
    + rewrite lookup_ne_zero by done. intros Hf. rewrite HM.
      apply not_false_iff_true in Hf. by rewrite Hf.
    + intros Hs. simpl. by rewrite Hs.
  - by rewrite lookup_insert_ne.
  - rewrite (count_set (m_cap m)) by (done || apply Ht). rewrite Hne, Hu. fold t.
    destruct (is_empty t); lia.
  - rewrite map_size_insert, HM, Hu. fold t. destruct (is_empty t); unfold id; lia.
  - rewrite Hu. destruct (is_empty t); lia.
Qed.

Lemma zero_value (u : bool) (z : V) :
  (if u then z else v0) = default v0 (if u then Some z else None).
Proof. by destruct u. Qed.

Lemma put_zero m M v :
  map_inv m M -> m_size m < m_remap m ->
  map_inv (mk_map (m_mem m) v (m_static m) (m_cap m) (m_size m +₃₂ (if m_used m then 0 else 1))
    (m_load_fac m) (m_remap m) true (m_oom m) (m_used m)) (<[k0 := v]> M).
Proof.
  intros Hi Hlt. pose proof Hi as [Hcap Ht Hz Hct Hsz Hfac Hload Hrm].
  pose proof (inv_remap _ _ Hi). pose proof (is_cap_bound _ Hcap).
  assert (Hu : u32 (m_size m + (if m_used m then 0 else 1)) = m_size m + (if m_used m then 0 else 1))
    by (apply u32_small; destruct (m_used m); lia).
  split; simpl; try done.
  - by rewrite delete_insert_eq.
  - by rewrite lookup_insert_eq.
  - rewrite Hu. destruct (m_used m); lia.
  - rewrite map_size_insert, Hz, Hu. destruct (m_used m); unfold id; lia.
  - rewrite Hu. destruct (m_used m); lia.
Qed.

Lemma sc_map_put_spec ok m M k v :
  map_inv m M ->
  (exists m', sc_map_put ok m k v = Some (default v0 (M !! k), m') /\ map_inv m' (<[k := v]> M) /\
     m_found m' = bool_decide (is_Some (M !! k)) /\ m_oom m' = false) \/
  (exists m', sc_map_put ok m k v = Some (v0, m') /\ map_inv m' M /\ m_oom m' = true /\
     (ok = false \/ 2 ^ 29 <= m_size m)).
Proof.
  intros Hi0. unfold sc_map_put.
  destruct (sc_map_remap_spec ok (with_oom m false) M (inv_oom _ _ _ Hi0))
    as [(m1 & -> & Hi & Hlt & Ho)|[-> Hn]].
  - left. destruct (decide (k = k0)) as [->|Hk].
    + rewrite bool_decide_true by done. rewrite (i_zero _ _ Hi).
      rewrite <- zero_value. eexists. split; [reflexivity|]. split; [by apply put_zero|].
      simpl. by destruct (m_used m1).
    + rewrite bool_decide_false by done. destruct (inv_probe m1 M k Hi Hk) as (p & -> & Hp & Hf & Hb & HM).
      rewrite HM. eexists. split; [|split; [by apply put_room|]].
      * by destruct (is_empty _).
      * simpl. by destruct (is_empty _).
  - right. eexists. split; [reflexivity|]. split; [|done]. by apply inv_oom, inv_oom.
Qed.

Lemma delete_zero_comm k (M : gmap K V) : delete k0 (delete k M) = delete k (delete k0 M).
Proof. apply delete_delete. Qed.

Lemma del_hit m M k p :
  map_inv m M -> k <> k0 -> 0 <= p < m_cap m -> full (m_mem m) p ->
  it_key (slot (m_mem m) p) = k -> M !! k = Some (it_value (slot (m_mem m) p)) ->
  exists mem, shift_back (Z.to_nat (m_cap m))
      (set_slot (m_mem m) p (clear_key (slot (m_mem m) p))) (m_cap m - 1) p p = Some mem /\
    map_inv (with_table m mem (m_size m -₃₂ 1) true) (delete k M).
Proof.
  intros Hi Hk Hp Hf Hkey HM. pose proof Hi as [Hcap [Hc HP] Hz Hct Hsz Hfac Hload Hrm].
  pose proof (inv_remap _ _ Hi). pose proof (is_cap_bound _ Hcap). pose proof (c_len _ _ _ Hc) as Hl.
  destruct (inv_free m M Hi) as (e & He & Hfe).
  assert (Hpe : p <> e) by (intros ->; done).
  destruct (shift_back_spec (m_cap m) Hcap e (Z.to_nat (m_cap m))
    (set_slot (m_mem m) p (clear_key (slot (m_mem m) p))) (delete k (delete k0 M)) p p)
    as (mem & Hs & Ht & Hn); try done.
  - rewrite <- Hkey. by apply core_clear.
  - rewrite (full_clear (m_cap m)) by done. by intros [].
  - rewrite (full_clear (m_cap m)) by done. by intros [].
  - circle.
  - intros i s Hir Hsr Hfi Hlt. rewrite (full_clear (m_cap m)) in Hfi by done. destruct Hfi as [Hne Hfi].
    rewrite (slot_clear_ne (m_cap m)) in Hlt by done. rewrite (full_clear (m_cap m)) by done.
    destruct (HP i s Hir Hsr Hfi Hlt) as [Hfs|[]].
    destruct (decide (s = p)) as [->|]; [right|by left]. split; [done|]. circle.
  - circle.
  - exists mem. split; [done|].
    rewrite (count_set (m_cap m)) in Hn by done. rewrite Hf in Hn.
    assert (Ec : is_empty (clear_key (slot (m_mem m) p)) = true) by (unfold is_empty; by rewrite bool_decide_true).
    rewrite Ec in Hn. pose proof (count_le mem).
    assert (Hu : u32 (m_size m - 1) = m_size m - 1) by (apply u32_small; destruct (m_used m); lia).
    split; simpl; try done.
    + by rewrite delete_zero_comm.
    + by rewrite lookup_delete_ne.
    + rewrite Hu. lia.
    + rewrite map_size_delete, HM, Hu. unfold id. destruct (m_used m); lia.
    + lia.
Qed.

Lemma sc_map_del_spec m M k :
  map_inv m M ->
  exists m', sc_map_del m k = Some (default v0 (M !! k), m') /\ map_inv m' (delete k M) /\
    m_found m' = bool_decide (is_Some (M !! k)).
Proof.
  intros Hi. unfold sc_map_del. destruct (decide (k = k0)) as [->|Hk].
  - rewrite bool_decide_true by done. pose proof Hi as [Hcap Ht Hz Hct Hsz Hfac Hload Hrm].
    pose proof (inv_remap _ _ Hi). pose proof (is_cap_bound _ Hcap). pose proof (count_le (m_mem m)).
    assert (Hu : u32 (m_size m - (if m_used m then 1 else 0)) = m_size m - (if m_used m then 1 else 0))
      by (apply u32_small; destruct (m_used m); lia).
    rewrite Hz, <- zero_value. eexists. split; [reflexivity|]. split; [|simpl; by destruct (m_used m)].
    split; simpl; try done; rewrite ?Hu.
    + by rewrite (delete_id (delete k0 M)) by apply lookup_delete_eq.
    + by rewrite lookup_delete_eq.
    + destruct (m_used m); lia.
    + rewrite map_size_delete, Hz. destruct (m_used m); unfold id; lia.
    + destruct (m_used m); lia.
  - rewrite bool_decide_false by done. destruct (inv_probe m M k Hi Hk) as (p & -> & Hp & Hf & _ & HM).
    destruct (is_empty (slot (m_mem m) p)) eqn:E.
    + rewrite HM, delete_id by done. eexists. split; [done|]. split; [by apply inv_found|done].
    + destruct (del_hit m M k p Hi Hk Hp E (Hf E) HM) as (mem & -> & Hi').
      rewrite HM. eexists. split; [done|]. split; [done|done].
Qed.

Lemma sc_map_clear_spec m M : map_inv m M -> map_inv (sc_map_clear m) ∅.
Proof.
  intros Hi. pose proof Hi as [Hcap Ht Hz Hct Hsz Hfac Hload Hrm]. unfold sc_map_clear.
  destruct (m_size m >? 0) eqn:E; zb.
  - assert (Hall : Forall (fun t => it_key t = k0) (map clear_key (m_mem m)))
      by (by apply Forall_map, Forall_true).
    split; simpl; try done; rewrite ?delete_empty.
    + apply tbl_empty; [|done]. unfold zlen. rewrite length_map. apply Ht.
    + rewrite count_empty by done. lia.
    + pose proof (inv_remap _ _ Hi). lia.
  - assert (M = ∅) as -> by (apply map_size_empty_inv; lia). done.
Qed.

Lemma sc_map_init_spec ok cap f m :
  0 <= cap <= 2 ^ 31 -> sc_map_init ok cap f = Some m -> map_inv m ∅.
Proof.
  intros Hc. unfold sc_map_init. set (g := if f =? 0 then 75 else f).
  destruct ((g >? 95) || (g <? 25)) eqn:Ef; [done|]. zb.
  destruct (Z.eqb_spec cap 0) as [->|Hne].
  - intros [= <-]. split; simpl; try done; rewrite ?delete_empty.
    + by exists 0.
    + apply tbl_empty; [done|]. by repeat constructor.
    + rewrite count_empty; [done|]. by repeat constructor.
  - destruct (sc_map_alloc_spec cap 1) as (Ha & HN & Hv); [lia|by left|lia|].
    destruct ok; [|unfold sc_map_alloc; by destruct (cap >? SC_MAP_MAX / 1)]. rewrite Ha.
    generalize dependent (2 ^ Z.log2_up (if cap <? 8 then 8 else cap * 1)). intros N Ha HN Hv [= <-].
    pose proof (remap_at_bound N g). split; simpl; try done; rewrite ?delete_empty.
    + apply tbl_empty; [apply zlen_replicate_Z; lia|apply fresh_empty].
    + rewrite count_empty by apply fresh_empty. done.
    + lia.
    + split; [lia|done].
Qed.

(** ** Refinement: a finite map *)

Inductive map_op :=
| OpPut (alloc_ok : bool) (k : K) (v : V)
| OpGet (k : K)
| OpDel (k : K)
| OpClear.

(** The value returned and the [found] and [oom] flags after the operation. *)
Definition map_exec (m : sc_map) (op : map_op) : option ((V * bool * bool) * sc_map) :=
  let flags := fun r => match r with
    | Some (v, m) => Some ((v, m_found m, m_oom m), m) | None => None end in
  match op with
  | OpPut ok k v => flags (sc_map_put ok m k v)
  | OpGet k => flags (sc_map_get m k)
  | OpDel k => flags (sc_map_del m k)
  | OpClear => flags (Some (v0, sc_map_clear m))
  end.

Fixpoint map_run (m : sc_map) (ops : list map_op) : option (list (V * bool * bool) * sc_map) :=
  match ops with
  | [] => Some ([], m)
  | op :: ops =>
      match map_exec m op with
      | None => None
      | Some (r, m) =>
          match map_run m ops with None => None | Some (rs, m) => Some (r :: rs, m) end
      end
  end.

(** What a finite map does: the old value (zero if absent), whether the key was
    present, and the new contents.  An insertion may instead report that memory
    ran out and change nothing, when the allocation failed or the map holds
    [2^29] keys. *)
Inductive fin_step : gmap K V -> map_op -> V * bool * bool -> gmap K V -> Prop :=
| fin_put ok k v M :
    fin_step M (OpPut ok k v) (default v0 (M !! k), bool_decide (is_Some (M !! k)), false)
      (<[k := v]> M)
| fin_put_oom ok k v M found :
    ok = false \/ 2 ^ 29 <= Z.of_nat (size M) ->
    fin_step M (OpPut ok k v) (v0, found, true) M
| fin_get k M oom :
    fin_step M (OpGet k) (default v0 (M !! k), bool_decide (is_Some (M !! k)), oom) M
| fin_del k M oom :
    fin_step M (OpDel k) (default v0 (M !! k), bool_decide (is_Some (M !! k)), oom) (delete k M)
| fin_clear M v found oom : fin_step M OpClear (v, found, oom) ∅.

Inductive fin_run : gmap K V -> list map_op -> list (V * bool * bool) -> gmap K V -> Prop :=
| fin_nil M : fin_run M [] [] M
| fin_cons M op r M1 ops rs M2 :
    fin_step M op r M1 -> fin_run M1 ops rs M2 -> fin_run M (op :: ops) (r :: rs) M2.

Lemma map_exec_spec m M op :
  map_inv m M ->
  exists r m' M', map_exec m op = Some (r, m') /\ map_inv m' M' /\ fin_step M op r M'.
Proof.
  intros Hi. destruct op as [ok k v|k|k|]; simpl.
  - destruct (sc_map_put_spec ok m M k v Hi)
      as [(m' & -> & Hi' & -> & ->)|(m' & -> & Hi' & -> & Hn)].
    + do 3 eexists. split; [done|]. split; [exact Hi'|]. constructor.
    + do 3 eexists. split; [done|]. split; [exact Hi'|]. constructor. by rewrite <- (i_size _ _ Hi).
  - destruct (sc_map_get_spec m M k Hi) as (m' & -> & Hi' & ->).
    do 3 eexists. split; [done|]. split; [exact Hi'|]. constructor.
  - destruct (sc_map_del_spec m M k Hi) as (m' & -> & Hi' & ->).
    do 3 eexists. split; [done|]. split; [exact Hi'|]. constructor.
  - do 3 eexists. split; [done|]. split; [by apply (sc_map_clear_spec m M)|]. constructor.
Qed.

(** C18: a hash map is a finite map.  On a map that satisfies the invariant with
    contents [M] (an initialised map does, with no contents) any sequence of
    insertions, lookups, deletions and clears runs without a probing loop that
    fails to end, every result and flag is that of the finite map, and the final
    map again satisfies the invariant, its size field being the number of keys. *)
Theorem sc_map_refines m M ops :
  map_inv m M ->
  exists rs m' M', map_run m ops = Some (rs, m') /\ fin_run M ops rs M' /\
    map_inv m' M' /\ sc_map_size m' = Z.of_nat (size M').
Proof.
  revert m M. induction ops as [|op ops IH]; intros m M Hi.
  - exists [], m, M. split_and!; [done|constructor|done|exact (i_size _ _ Hi)].
  - destruct (map_exec_spec m M op Hi) as (r & m1 & M1 & He & Hi1 & Hs).
    destruct (IH m1 M1 Hi1) as (rs & m2 & M2 & Hr & Hf & Hi2 & Hz).
    exists (r :: rs), m2, M2. split_and!; [|by apply (fin_cons _ _ _ M1)|done..].
    simpl. by rewrite He, Hr.
Qed.

(** ** Iteration *)

Lemma elem_of_full mem t :
  t ∈ filter (fun t => is_empty t = false) mem <->
  it_key t <> k0 /\ exists i, 0 <= i < zlen mem /\ slot mem i = t.
Proof.
  rewrite list_elem_of_filter. unfold is_empty at 1. rewrite bool_decide_eq_false.
  split; (intros [Hk Ht]; split; [done|]).
  - apply list_elem_of_lookup_1 in Ht as [n Hn]. exists (Z.of_nat n).
    pose proof (lookup_lt_Some _ _ _ Hn). unfold zlen, slot. split; [lia|]. by rewrite Nat2Z.id, Hn.
  - destruct Ht as (i & Hi & Hs). unfold slot, zlen in *.
    destruct (lookup_lt_is_Some_2 mem (Z.to_nat i)) as [x Hx]; [lia|].
    rewrite Hx in Hs. simpl in Hs. unfold id in Hs. subst x.
    by apply list_elem_of_lookup_2 in Hx.
Qed.

Lemma core_no_dup N mem M :
  core N mem M -> NoDup (map it_key (filter (fun t => is_empty t = false) mem)).
Proof.
  intros Hc. assert (G : forall r l, mem = l ++ r ->
    NoDup (map it_key (filter (fun t => is_empty t = false) r))); [|by apply (G mem [])].
  induction r as [|t r IH]; intros l E; [constructor|].
  assert (IHr : NoDup (map it_key (filter (fun t => is_empty t = false) r))).
  { apply (IH (l ++ [t])). by rewrite <- app_assoc. }
  destruct (is_empty t) eqn:Et.
  - by rewrite filter_cons_False by (by rewrite Et).
  - rewrite filter_cons_True by done. cbn [map]. constructor; [|done].
    intros Hin. apply list_elem_of_fmap in Hin as (t' & Hk & Hin).
    apply elem_of_full in Hin as (_ & i & Hi & Hs). pose proof (zlen_nonneg l).
    pose proof (c_len _ _ _ Hc) as Hl. rewrite E, zlen_app, zlen_cons in Hl.
    pose proof (slot_app_eq l r t) as Ht. rewrite <- E in Ht.
    assert (Hs' : slot mem (zlen l + 1 + i) = t').
    { rewrite <- Hs, E. unfold slot, zlen in *.
      replace (Z.to_nat (Z.of_nat (length l) + 1 + i)) with (length l + S (Z.to_nat i))%nat by lia.
      by rewrite lookup_app_r, Nat.add_comm, Nat.add_sub by lia. }
    assert (zlen l = zlen l + 1 + i); [|lia].
    apply (c_uniq _ _ _ Hc); [lia..| |].
    + unfold full. by rewrite Ht.
    + by rewrite Ht, Hs'.
Qed.

(** Iteration visits every binding once.  The pairs [sc_map_foreach] runs
    through are, in some order, exactly the bindings of the represented finite
    map, the zero key included. *)
Lemma sc_map_foreach_complete m M :
  map_inv m M -> sc_map_foreach m ≡ₚ map_to_list M.
Proof.
  intros Hi. pose proof (i_tbl _ _ Hi) as [Hc _]. pose proof (i_zero _ _ Hi) as Hz.
  pose proof (core_no_dup _ _ _ Hc) as Hn. pose proof (c_len _ _ _ Hc) as Hl.
  apply NoDup_Permutation; [|apply NoDup_map_to_list|].
  - apply (NoDup_fmap_1 fst). unfold sc_map_foreach.
    change (NoDup (map fst ((if m_used m then [(k0, m_zero m)] else []) ++
      map (fun t => (it_key t, it_value t)) (filter (fun t => is_empty t = false) (m_mem m))))).
    rewrite map_app, map_map. cbn [fst]. destruct (m_used m); [|done].
    cbn [map app fst]. constructor; [|done]. intros Hin.
    apply list_elem_of_fmap in Hin as (t & Hk & Hin). by apply elem_of_full in Hin as [? _].
  - intros [k v]. rewrite elem_of_map_to_list. unfold sc_map_foreach. rewrite elem_of_app.
    destruct (decide (k = k0)) as [->|Hk].
    + rewrite Hz. split.
      * intros [Hin|Hin].
        -- destruct (m_used m); [|by apply not_elem_of_nil in Hin].
           apply list_elem_of_singleton in Hin. congruence.
        -- apply list_elem_of_fmap in Hin as (t & [= E _] & Hin). by apply elem_of_full in Hin as [[] _].
      * intros Hin. left. destruct (m_used m); [|done]. injection Hin as ->. by apply list_elem_of_singleton.
    + rewrite <- (lookup_ne_zero M k Hk), (c_repr _ _ _ Hc). split.
      * intros [Hin|Hin].
        -- destruct (m_used m); [|by apply not_elem_of_nil in Hin].
           apply list_elem_of_singleton in Hin. congruence.
        -- apply list_elem_of_fmap in Hin as (t & [= -> ->] & Hin).
           apply elem_of_full in Hin as (_ & i & Hir & <-). split; [done|]. exists i. by rewrite <- Hl.
      * intros (_ & i & Hir & <- & <-). right. apply list_elem_of_fmap. exists (slot (m_mem m) i).
        split; [done|]. apply elem_of_full. split; [done|]. exists i. by rewrite Hl.
Qed.
End sc_map.

(** ** Hash functions of the instances *)

Definition sc_map_hash_32 (a : Z) : Z := a.

Definition sc_map_hash_64 (a : Z) : Z := Z.lxor (u32 a) (u32 (Z.shiftr a 32)).

Definition MURMUR_M : Z := 0xc6a4a7935bd1e995.

(** The loop over the blocks of eight bytes, read in the little-endian order of
    the host; [n] is the number of blocks. *)
Fixpoint murmur_blocks (n : nat) (p : list byte) (h : Z) : list byte * Z :=
  match n with
  | O => (p, h)
  | S n =>
      let k := le_combine (take 8 p) in
      let k := u64 (k * MURMUR_M) in
      let k := Z.lxor k (Z.shiftr k 47) in
      let k := u64 (k * MURMUR_M) in
      let h := Z.lxor h k in
      let h := u64 (h * MURMUR_M) in
      murmur_blocks n (drop 8 p) h
  end.

(** The cases of the [switch], falling through from the last byte to the first:
    byte [i] is shifted by [8 * i]. *)
Fixpoint murmur_tail (shift : Z) (p : list byte) (h : Z) : Z :=
  match p with
  | [] => h
  | b :: p => Z.lxor (murmur_tail (shift + 8) p h) (Z.shiftl (b2z b) shift)
  end.

Definition murmurhash (key : list byte) : Z :=
  let len := zlen key in
  let h := u64 (len * MURMUR_M) in
  let '(p, h) := murmur_blocks (Z.to_nat (len / 8)) key h in
  let h := if Z.land len 7 =? 0 then h else u64 (murmur_tail 0 p h * MURMUR_M) in
  let h := Z.lxor h (Z.shiftr h 47) in
  let h := u64 (h * MURMUR_M) in
  let h := Z.lxor h (Z.shiftr h 47) in
  u32 h.

#[export] Instance byte_countable : Countable byte :=
  inj_countable Byte.to_N Byte.of_N Byte.of_to_N.

(** The maps of the program: [sc_map_64v] and the string-keyed [sc_map_sv]; the
    zero key of the latter is the null pointer. *)
Definition sc_map_init_64v {V} (v0 : V) := sc_map_init 0 v0.
Definition sc_map_init_sv {V} (v0 : V) := sc_map_init (@None (list byte)) v0.
Definition sv_hash (k : option (list byte)) : Z := murmurhash (default [] k).

Definition demo_ops : list (map_op (K := option (list byte)) (V := Z)) :=
  [OpPut true (Some [x61]) 1; OpPut true (Some [x62]) 2; OpPut true None 3;
   OpPut true (Some [x61]) 4; OpGet (Some [x61]); OpDel (Some [x61]);
   OpGet (Some [x61]); OpGet None] ++
  map (fun i => OpPut true (Some [z2b i; x63]) i) (map Z.of_nat (seq 1 12)) ++
  [OpGet (Some [x0c; x63]); OpGet (Some [x62])].

Definition demo_map : sc_map (K := option (list byte)) (V := Z) :=
  default (sc_map_empty None 0) (sc_map_init_sv 0 true 0 0).

Lemma sc_map_refines_witness :
  exists rs m' M', map_run None 0 sv_hash true demo_map demo_ops = Some (rs, m') /\
    fin_run 0 ∅ demo_ops rs M' /\ map_inv None 0 sv_hash true m' M' /\
    sc_map_size m' = Z.of_nat (size M').
Proof.
  apply (sc_map_refines None 0 sv_hash true demo_map ∅ demo_ops).
  apply (sc_map_init_spec None 0 sv_hash true true 0 0 demo_map); [lia|reflexivity].
Defined.

Lemma demo_results :
  option_map (fun r => (map (fun x => fst x) (fst r), sc_map_size (snd r), m_cap (snd r)))
    (map_run None 0 sv_hash true demo_map demo_ops) =
  Some ([(0, false); (0, false); (0, false); (1, true); (4, true); (4, true); (0, false); (3, true)] ++
    replicate 12 (0, false) ++ [(12, true); (2, true)], 14, 32).
Proof. vm_compute. reflexivity. Qed.

Lemma sc_map_foreach_complete_witness :
  exists m', sc_map_put None 0 sv_hash true true demo_map (Some [x61]) 7 = Some (0, m') /\
    sc_map_foreach None m' ≡ₚ map_to_list (<[Some [x61] := 7]> (∅ : gmap (option (list byte)) Z)).
Proof.
  assert (Hi : map_inv None 0 sv_hash true demo_map ∅)
    by (apply (sc_map_init_spec None 0 sv_hash true true 0 0 demo_map); [lia|reflexivity]).
  destruct (sc_map_put_spec None 0 sv_hash true true demo_map ∅ (Some [x61]) 7 Hi)
    as [(m' & Hp & Hi' & _)|(m' & Hp & _ & _ & [|Hn])]; [|done|].
  - exists m'. split; [exact Hp|]. apply (sc_map_foreach_complete None 0 sv_hash true m' _ Hi').
  - exfalso. vm_compute in Hn. by apply Hn.
Defined.
