(* ===== verification/Timer.v ===== *)
(** * The timer wheel (lib/sc/sc_timer.c)

    Timers live in sixteen slots of [wheel] entries each; a tick is sixteen
    milliseconds.  A timer goes into the slot its timeout reaches, counted from
    the head, and is due when its slot is passed and its deadline is reached.
    The callback of [sc_timer_timeout] may add and cancel timers, so it is a
    function on the timer and on its own state. *)

From Stdlib Require Import ZArith Lia Sorted.
From stdpp Require Import base list numbers.
From S2P Require Import Prelude.

Definition TICK : Z := 16.
Definition WHEEL_COUNT : Z := 16.
Definition SC_TIMER_INVALID : Z := UINT64_MAX.

(** [(UINT32_MAX / sizeof(struct sc_timer_data)) / WHEEL_COUNT], 24 bytes each *)
Definition SC_TIMER_MAX : Z := UINT32_MAX / 24 / WHEEL_COUNT.

Section sc_timer.
Context {D : Type} (null : D).

Record sc_timer_data := mk_data {
  d_timeout : Z;
  d_type : Z;
  d_data : D
}.

Record sc_timer := mk_timer {
  t_timestamp : Z;
  t_head : Z;
  t_wheel : Z;
  t_list : list sc_timer_data
}.

Definition invalid : sc_timer_data := mk_data SC_TIMER_INVALID 0 null.

(** [list[i]] and its assignment. *)
Definition entry_at (l : list sc_timer_data) (i : Z) : sc_timer_data :=
  default invalid (l !! Z.to_nat i).
Definition set_entry (l : list sc_timer_data) (i : Z) (d : sc_timer_data) : list sc_timer_data :=
  <[Z.to_nat i := d]> l.

Definition with_list (t : sc_timer) (l : list sc_timer_data) : sc_timer :=
  mk_timer (t_timestamp t) (t_head t) (t_wheel t) l.

Definition sc_timer_init (timestamp : Z) : sc_timer := mk_timer timestamp 0 0 [].

Definition sc_timer_term (t : sc_timer) : sc_timer := mk_timer (t_timestamp t) 0 0 [].

(** The entries of the sixteen wheels lose their deadline and data. *)
Definition sc_timer_clear (t : sc_timer) : sc_timer :=
  let cap := t_wheel t * WHEEL_COUNT in
  mk_timer (t_timestamp t) 0 (t_wheel t)
    (map (fun d => mk_data SC_TIMER_INVALID (d_type d) null) (take (Z.to_nat cap) (t_list t)) ++
     drop (Z.to_nat cap) (t_list t)).

(** The copy loop: wheel [i] of [w] entries moves to the position it has in
    wheels of [2 * w] entries.  [memcpy] of [w] entries from index [src] to
    index [dst]. *)
Definition copy_entries (dst src : list sc_timer_data) (to from n : Z) : list sc_timer_data :=
  take (Z.to_nat to) dst ++ take (Z.to_nat n) (drop (Z.to_nat from) src) ++
  drop (Z.to_nat (to + n)) dst.

Definition copy_wheels (w : Z) (old new : list sc_timer_data) : list sc_timer_data :=
  fold_left (fun new i => copy_entries new old (i * w * 2) (i * w) w)
    (map Z.of_nat (seq 0 16)) new.

(** [malloc_ok] is the outcome of the allocation. *)
Definition expand (malloc_ok : bool) (t : sc_timer) : bool * sc_timer :=
  let wheel := if negb (t_wheel t =? 0) then u32 (t_wheel t * 2) else 4 in
  let cap := u32 (wheel * WHEEL_COUNT * 2) in
  if t_wheel t >=? SC_TIMER_MAX / 2 then (false, t)
  else if negb malloc_ok then (false, t)
  else
    let alloc := replicate (Z.to_nat cap) invalid in
    let alloc := if negb (t_wheel t =? 0) then copy_wheels (t_wheel t) (t_list t) alloc else alloc in
    (true, mk_timer (t_timestamp t) (t_head t) wheel alloc).

(** The search of a free entry in the wheel: the [seq] where the loop stops,
    [wheel] when there is none. *)
Fixpoint free_seq (n : nat) (l : list sc_timer_data) (wheel_pos seq : Z) : Z :=
  match n with
  | O => seq
  | S n =>
      if d_timeout (entry_at l (wheel_pos + seq)) =? SC_TIMER_INVALID then seq
      else free_seq n l wheel_pos (seq + 1)
  end.

Definition sc_timer_add (malloc_ok : bool) (t : sc_timer) (timeout type : Z) (data : D)
    : Z * sc_timer :=
  let offset := u32 (timeout / TICK + t_head t) in
  let pos := Z.land offset (WHEEL_COUNT - 1) in
  let seq := free_seq (Z.to_nat (t_wheel t)) (t_list t) (pos * t_wheel t) 0 in
  let '(ok, t) := if seq <? t_wheel t then (true, t) else expand malloc_ok t in
  if negb ok then (SC_TIMER_INVALID, t)
  else
    let index := pos * t_wheel t + seq in
    (Z.lor (Z.shiftl seq 32) pos,
     with_list t (set_entry (t_list t) index (mk_data (u64 (timeout + t_timestamp t)) type data))).

(** Returns the new value of the id as well. *)
Definition sc_timer_cancel (t : sc_timer) (id : Z) : Z * sc_timer :=
  if id =? SC_TIMER_INVALID then (id, t)
  else
    let pos := u32 id * t_wheel t + Z.shiftr id 32 in
    let d := entry_at (t_list t) pos in
    (SC_TIMER_INVALID,
     with_list t (set_entry (t_list t) pos (mk_data SC_TIMER_INVALID (d_type d) (d_data d)))).

(** ** Cells and the invariant *)

(** The entry with sequence number [seq] of wheel [pos]. *)
Definition cell (t : sc_timer) (pos seq : Z) : sc_timer_data :=
  entry_at (t_list t) (pos * t_wheel t + seq).

Definition in_cell (t : sc_timer) (pos seq : Z) : Prop :=
  0 <= pos < WHEEL_COUNT /\ 0 <= seq < t_wheel t.

(** A timer that is waiting. *)
Definition pending (t : sc_timer) (pos seq : Z) (d : sc_timer_data) : Prop :=
  in_cell t pos seq /\ cell t pos seq = d /\ d_timeout d <> SC_TIMER_INVALID.

(** The allocation holds twice the entries of the sixteen wheels. *)
Record timer_wf (t : sc_timer) : Prop := {
  w_wheel : 0 <= t_wheel t < 2 ^ 24;
  w_list : zlen (t_list t) = 32 * t_wheel t;
  w_head : 0 <= t_head t < WHEEL_COUNT;
  w_stamp : is_u64 (t_timestamp t)
}.

Lemma entry_at_set l i j d :
  0 <= i < zlen l -> 0 <= j ->
  entry_at (set_entry l i d) j = if i =? j then d else entry_at l j.
Proof.
  unfold zlen, entry_at, set_entry. intros Hi Hj. case_if.
  - subst j. by rewrite list_lookup_insert_eq by lia.
  - by rewrite list_lookup_insert_ne by lia.
Qed.

Lemma zlen_set_entry l i d : zlen (set_entry l i d) = zlen l.
Proof. unfold zlen, set_entry. by rewrite length_insert. Qed.

(** Distinct cells have distinct indices. *)
Lemma cell_index w p q r s :
  0 <= q < w -> 0 <= s < w -> p * w + q = r * w + s -> p = r /\ q = s.
Proof. intros. assert (p = r) by nia. subst. lia. Qed.

Lemma cell_bound t pos seq :
  timer_wf t -> in_cell t pos seq -> 0 <= pos * t_wheel t + seq < zlen (t_list t).
Proof. intros [] [? ?]. unfold WHEEL_COUNT in *. nia. Qed.

Lemma cell_set t pos seq d p s :
  timer_wf t -> in_cell t pos seq -> in_cell t p s ->
  cell (with_list t (set_entry (t_list t) (pos * t_wheel t + seq) d)) p s =
  if (pos =? p) && (seq =? s) then d else cell t p s.
Proof.
  intros Hw Hi Hj. pose proof (cell_bound _ _ _ Hw Hi). pose proof (cell_bound _ _ _ Hw Hj).
  unfold cell. simpl. rewrite entry_at_set by lia. destruct Hi as [_ Hi], Hj as [_ Hj].
  destruct (Z.eqb_spec (pos * t_wheel t + seq) (p * t_wheel t + s)) as [E|E].
  - destruct (cell_index _ _ _ _ _ Hi Hj E) as [-> ->]. by rewrite !Z.eqb_refl.
  - destruct (Z.eqb_spec pos p), (Z.eqb_spec seq s); try done. congruence.
Qed.

Lemma wf_with_entry t i d : timer_wf t -> timer_wf (with_list t (set_entry (t_list t) i d)).
Proof. intros []. split; simpl; [done| |done..]. by rewrite zlen_set_entry. Qed.

Lemma wf_sc_timer_init ts : is_u64 ts -> timer_wf (sc_timer_init ts).
Proof. intros. by split. Qed.

(** ** Expansion *)

Lemma entry_at_copy dst src to from n j :
  0 <= to -> 0 <= from -> 0 <= n -> to + n <= zlen dst -> from + n <= zlen src -> 0 <= j ->
  entry_at (copy_entries dst src to from n) j =
    if (to <=? j) && (j <? to + n) then entry_at src (from + (j - to)) else entry_at dst j.
Proof.
  unfold zlen, entry_at, copy_entries. intros H1 H2 H3 H4 H5 H6.
  destruct (Z.leb_spec to j) as [Hj|Hj]; cbn [andb].
  2: { rewrite lookup_app_l by (rewrite length_take; lia). by rewrite lookup_take_lt by lia. }
  rewrite lookup_app_r by (rewrite length_take; lia). rewrite length_take.
  destruct (Z.ltb_spec j (to + n)) as [Hk|Hk].
  - rewrite lookup_app_l by (rewrite length_take, length_drop; lia).
    rewrite lookup_take_lt, lookup_drop by lia. do 2 f_equal. lia.
  - rewrite lookup_app_r by (rewrite length_take, length_drop; lia).
    rewrite length_take, length_drop, lookup_drop. do 2 f_equal. lia.
Qed.

Lemma zlen_copy dst src to from n :
  0 <= to -> 0 <= from -> 0 <= n -> to + n <= zlen dst -> from + n <= zlen src ->
  zlen (copy_entries dst src to from n) = zlen dst.
Proof.
  unfold zlen, copy_entries. intros. rewrite !length_app, !length_take, !length_drop. lia.
Qed.

Lemma entry_at_replicate n j : entry_at (replicate n invalid) j = invalid.
Proof.
  unfold entry_at. destruct (_ !! _) as [x|] eqn:E; [|done]. by apply lookup_replicate in E as [-> _].
Qed.

(** After [k] rounds of the copy loop the first [k] wheels are in place. *)
Lemma copy_wheels_prefix w old N (k : nat) :
  0 < w -> zlen old = 32 * w -> 0 <= N -> N = 64 * w -> (k <= 16)%nat ->
  let new := fold_left (fun new i => copy_entries new old (i * w * 2) (i * w) w)
    (map Z.of_nat (seq 0 k)) (replicate (Z.to_nat N) invalid) in
  zlen new = N /\
  forall p s, 0 <= p < WHEEL_COUNT -> 0 <= s < 2 * w ->
    entry_at new (p * (2 * w) + s) =
      if (p <? Z.of_nat k) && (s <? w) then entry_at old (p * w + s) else invalid.
Proof.
  intros Hw Ho HN0 HN. unfold WHEEL_COUNT. cbv zeta. induction k as [|k IH]; intros Hk.
  - cbn [seq map fold_left]. split; [unfold zlen; rewrite length_replicate; lia|].
    intros p s Hp Hs. rewrite entry_at_replicate, (if_false ((p <? 0) && _)); [done|].
    apply andb_false_iff. left. apply Z.ltb_ge; simpl; lia.
  - rewrite seq_S, map_app, fold_left_app. cbn [map fold_left].
    destruct IH as [Hl IH]; [lia|]. set (prev := fold_left _ _ _) in *.
    replace (0 + k)%nat with k by lia. assert (0 <= Z.of_nat k * w <= 15 * w) by nia.
    split; [rewrite zlen_copy by lia; done|]. intros p s Hp Hs. rewrite entry_at_copy by nia.
    rewrite IH by done.
    destruct (decide (p = Z.of_nat k)) as [->|Hne].
    + rewrite (if_false ((Z.of_nat k <? Z.of_nat k) && _)) by (by rewrite Z.ltb_irrefl).
      rewrite (proj2 (Z.ltb_lt (Z.of_nat k) (Z.of_nat (S k)))) by lia.
      rewrite (proj2 (Z.leb_le (Z.of_nat k * w * 2) _)) by lia. cbn [andb].
      destruct (Z.ltb_spec s w).
      * rewrite (proj2 (Z.ltb_lt _ _)) by lia. f_equal. lia.
      * by rewrite (proj2 (Z.ltb_ge _ _)) by lia.
    + rewrite if_false.
      * replace (p <? Z.of_nat (S k)) with (p <? Z.of_nat k); [done|].
        apply eq_true_iff_eq. rewrite !Z.ltb_lt. lia.
      * apply andb_false_iff. rewrite Z.leb_gt, Z.ltb_ge.
        destruct (Z_lt_le_dec p (Z.of_nat k)); [left; nia|right; nia].
Qed.

Lemma expand_spec ok t :
  timer_wf t ->
  (exists t', expand ok t = (true, t') /\ timer_wf t' /\
     t_timestamp t' = t_timestamp t /\ t_head t' = t_head t /\ t_wheel t < t_wheel t' /\
     forall p s, in_cell t' p s -> cell t' p s = if s <? t_wheel t then cell t p s else invalid) \/
  (expand ok t = (false, t) /\ (ok = false \/ SC_TIMER_MAX / 2 <= t_wheel t)).
Proof.
  intros [Hw Hl Hh Hts]. unfold expand. change (SC_TIMER_MAX / 2) with 5592405.
  destruct (t_wheel t >=? 5592405) eqn:E; [right; split; [done|right; by zb]|]. zb.
  destruct ok; [|by right; auto]. left. cbn [negb]. unfold WHEEL_COUNT.
  destruct (Z.eqb_spec (t_wheel t) 0) as [E0|E0]; cbn [negb].
  - eexists. split; [reflexivity|]. split_and!; try done; try (simpl; lia).
    intros p s [_ [Hs _]]. rewrite E0, (if_false (s <? 0)) by zbool_solve.
    apply entry_at_replicate.
  - rewrite (u32_small (t_wheel t * 2)), u32_small by lia.
    destruct (copy_wheels_prefix (t_wheel t) (t_list t) (t_wheel t * 2 * 16 * 2) 16)
      as [Hlen Hc]; [lia..|].
    eexists. split; [reflexivity|]. split_and!; try done; try (simpl; lia).
    + split; simpl; try done; [lia|]. unfold copy_wheels. rewrite Hlen. lia.
    + intros p s [Hp Hs]. simpl in Hs. unfold cell, copy_wheels. simpl t_list. simpl t_wheel.
      replace (p * (t_wheel t * 2) + s) with (p * (2 * t_wheel t) + s) by lia. rewrite Hc by (unfold WHEEL_COUNT in *; lia).
      rewrite (proj2 (Z.ltb_lt p _)) by (unfold WHEEL_COUNT in *; lia). done.
Qed.

(** ** Ids, addition and cancellation *)

Definition timer_id (pos seq : Z) : Z := Z.lor (Z.shiftl seq 32) pos.

Lemma timer_id_split pos seq :
  0 <= pos < WHEEL_COUNT -> 0 <= seq ->
  timer_id pos seq = pos + 2 ^ 32 * seq /\
  u32 (timer_id pos seq) = pos /\ Z.shiftr (timer_id pos seq) 32 = seq.
Proof.
  unfold WHEEL_COUNT. intros Hp Hs.
  assert (E : timer_id pos seq = pos + 2 ^ 32 * seq)
    by (unfold timer_id; rewrite Z.lor_comm; apply lor_shift_add; lia).
  rewrite E. split; [done|]. unfold u32. rewrite Z.shiftr_div_pow2 by lia. split; dlia.
Qed.

Lemma timer_id_valid t pos seq :
  timer_wf t -> in_cell t pos seq -> timer_id pos seq <> SC_TIMER_INVALID.
Proof.
  intros [] [Hp Hs]. destruct (timer_id_split pos seq) as (-> & _ & _); [done|lia|].
  unfold SC_TIMER_INVALID, UINT64_MAX, WHEEL_COUNT in *. lia.
Qed.

Lemma free_seq_spec l base : forall n seq, 0 <= seq ->
  let r := free_seq n l base seq in
  seq <= r <= seq + Z.of_nat n /\
  (r < seq + Z.of_nat n -> d_timeout (entry_at l (base + r)) = SC_TIMER_INVALID).
Proof.
  induction n as [|n IH]; intros seq Hs; cbv zeta; cbn [free_seq]; [lia|].
  destruct (Z.eqb_spec (d_timeout (entry_at l (base + seq))) SC_TIMER_INVALID); [lia|].
  destruct (IH (seq + 1)) as [H1 H2]; [lia|]. split; [lia|]. intros. apply H2. lia.
Qed.

(** The slot a timeout reaches from the head. *)
Definition slot_of (t : sc_timer) (timeout : Z) : Z := (timeout / TICK + t_head t) `mod` WHEEL_COUNT.

Lemma slot_of_range t timeout : 0 <= slot_of t timeout < WHEEL_COUNT.
Proof. apply Z.mod_pos_bound. done. Qed.

Lemma slot_of_code t timeout :
  0 <= timeout -> 0 <= t_head t ->
  Z.land (u32 (timeout / TICK + t_head t)) (WHEEL_COUNT - 1) = slot_of t timeout.
Proof.
  intros. unfold slot_of, WHEEL_COUNT. change (16 - 1) with (Z.ones 4). rewrite Z.land_ones by lia.
  unfold u32, TICK. change (2 ^ 4) with 16. dlia.
Qed.

(** The free entry found, in the wheel as it is or in the expanded one. *)
Lemma room_in_wheel ok t pos seq :
  timer_wf t -> 0 <= pos < WHEEL_COUNT -> 0 <= seq <= 0 + t_wheel t ->
  (seq < 0 + t_wheel t -> d_timeout (cell t pos seq) = SC_TIMER_INVALID) ->
  exists ok' t', (if seq <? t_wheel t then (true, t) else expand ok t) = (ok', t') /\
    (ok' = true -> timer_wf t' /\ t_timestamp t' = t_timestamp t /\ t_head t' = t_head t /\
       t_wheel t <= t_wheel t' /\ seq < t_wheel t' /\
       d_timeout (cell t' pos seq) = SC_TIMER_INVALID /\
       forall p s, in_cell t' p s -> cell t' p s = if s <? t_wheel t then cell t p s else invalid) /\
    (ok' = false -> t' = t /\ (ok = false \/ SC_TIMER_MAX / 2 <= t_wheel t)).
Proof.
  intros Hwf Hpos Hr Hf. destruct (Z.ltb_spec seq (t_wheel t)) as [Hs|Hs].
  - exists true, t. split; [done|]. split; [|done]. intros _. split_and!; try done; [by apply Hf|].
    intros p s [_ ?]. by rewrite if_true by zbool_solve.
  - destruct (expand_spec ok t Hwf) as [(t' & -> & Hwf' & H1 & H2 & H3 & H4)|[-> H]].
    + exists true, t'. split; [done|]. split; [|done]. intros _. split_and!; try done; try lia.
      rewrite H4 by (split; [done|lia]). by rewrite if_false by zbool_solve.
    + exists false, t. done.
Qed.

Lemma sc_timer_add_spec ok t timeout type data :
  timer_wf t -> 0 <= timeout -> timeout + t_timestamp t < SC_TIMER_INVALID ->
  let d := mk_data (timeout + t_timestamp t) type data in
  let pos := slot_of t timeout in
  (exists seq t', sc_timer_add ok t timeout type data = (timer_id pos seq, t') /\
     timer_wf t' /\ t_timestamp t' = t_timestamp t /\ t_head t' = t_head t /\
     t_wheel t <= t_wheel t' /\ pending t' pos seq d /\ (forall x, ~ pending t pos seq x) /\
     (forall p s x, (p, s) <> (pos, seq) -> pending t' p s x <-> pending t p s x)) \/
  (sc_timer_add ok t timeout type data = (SC_TIMER_INVALID, t) /\
   (ok = false \/ SC_TIMER_MAX / 2 <= t_wheel t)).
Proof.
  intros Hwf Ht Hd. pose proof Hwf as []. unfold sc_timer_add. rewrite slot_of_code by lia.
  set (pos := slot_of t timeout). pose proof (slot_of_range t timeout) as Hpos. fold pos in Hpos.
  destruct (free_seq_spec (t_list t) (pos * t_wheel t) (Z.to_nat (t_wheel t)) 0) as [Hr Hf]; [lia|].
  set (seq := free_seq _ _ _ _) in *. rewrite Z2Nat.id in Hr, Hf by lia.
  destruct (room_in_wheel ok t pos seq Hwf Hpos Hr Hf) as (ok' & t' & -> & G1 & G2).
destruct ok'; cbn [negb].
  2: { right. destruct G2 as [-> G2]; done. }
  left. destruct G1 as (Hwf' & H1 & H2 & H3 & H4 & H5 & H6); [done|].
  assert (Hic : in_cell t' pos seq) by (split; [done|lia]).
  exists seq. eexists. split; [reflexivity|]. rewrite H1, u64_small
    by (unfold SC_TIMER_INVALID, UINT64_MAX in Hd; lia).
  split_and!; try done.
  - by apply wf_with_entry.
  - split; [done|]. split; [|simpl; lia]. rewrite cell_set by done. by rewrite !Z.eqb_refl.
  - intros x ([_ Hs] & Hx & Hv). apply Hv. rewrite <- Hx.
    rewrite H6, if_true in H5 by (zbool_solve || done). done.
  - intros p s x Hne. unfold pending.
    assert (Hcs : in_cell t' p s -> cell (with_list t' (set_entry (t_list t') (pos * t_wheel t' + seq)
      (mk_data (timeout + t_timestamp t) type data))) p s = cell t' p s).
    { intros Hin. rewrite cell_set by done. destruct (Z.eqb_spec pos p), (Z.eqb_spec seq s); try done.
      congruence. }
    change (in_cell (with_list t' _) p s) with (in_cell t' p s). split.
    + intros (Hin & Hx & Hv). rewrite Hcs, H6 in Hx by done. pose proof Hin as [? ?].
      destruct (Z.ltb_spec s (t_wheel t)); [|by subst x]. split_and!; [split; [done|lia]|done|done].
    + intros ([Hp Hs] & Hx & Hv). assert (Hin : in_cell t' p s) by (split; [done|lia]).
      rewrite Hcs, H6, if_true by (done || zbool_solve). done.
Qed.

Lemma sc_timer_cancel_spec t pos seq :
  timer_wf t -> in_cell t pos seq ->
  let r := sc_timer_cancel t (timer_id pos seq) in
  fst r = SC_TIMER_INVALID /\ timer_wf (snd r) /\
  t_timestamp (snd r) = t_timestamp t /\ t_head (snd r) = t_head t /\
  forall p s x, pending (snd r) p s x <-> (p, s) <> (pos, seq) /\ pending t p s x.
Proof.
  intros Hwf Hin. cbv zeta. unfold sc_timer_cancel.
  rewrite (proj2 (Z.eqb_neq (timer_id pos seq) _)) by (by apply (timer_id_valid t)).
  destruct (timer_id_split pos seq) as (_ & -> & ->); [apply Hin|destruct Hin; lia|]. cbn [fst snd].
  split_and!; try done; [by apply wf_with_entry|]. intros p s x. unfold pending.
  change (in_cell (with_list t _) p s) with (in_cell t p s). split.
  - intros (Hps & Hx & Hv). rewrite cell_set in Hx by done.
    destruct (Z.eqb_spec pos p), (Z.eqb_spec seq s); cbn [andb] in Hx; try (split; [congruence|done]).
    by subst x.
  - intros (Hne & Hps & Hx & Hv). split; [done|]. split; [|done]. rewrite cell_set by done.
    destruct (Z.eqb_spec pos p), (Z.eqb_spec seq s); cbn [andb]; try done. congruence.
Qed.

(** ** Timeouts *)

Section timeouts.
Context {A : Type}.

(** [callback(arg, timeout, type, data)], acting on the state behind [arg] and
    on the timer. *)
Variable callback : A -> Z -> Z -> D -> sc_timer -> A * sc_timer.

(** The loop over the entries of one wheel.  The number of iterations is the
    wheel size at its start, the base is computed again after each callback.
    The log records the entries handed to the callback; the callback is given
    the deadline truncated to 32 bits. *)
Fixpoint fire_wheel (n : nat) (head i base : Z) (a : A) (t : sc_timer) (log : list sc_timer_data)
    : A * sc_timer * list sc_timer_data :=
  match n with
  | O => (a, t, log)
  | S n =>
      let item := entry_at (t_list t) (base + i) in
      if d_timeout item <=? t_timestamp t then
        let timeout := u32 (d_timeout item) in
        let t := with_list t (set_entry (t_list t) (base + i)
                   (mk_data SC_TIMER_INVALID (d_type item) (d_data item))) in
        let '(a, t) := callback a timeout (d_type item) (d_data item) t in
        fire_wheel n head (i + 1) (t_wheel t * head) a t (log ++ [item])
      else fire_wheel n head (i + 1) base a t log
  end.

Fixpoint fire_wheels (wheels : nat) (head : Z) (a : A) (t : sc_timer) (log : list sc_timer_data)
    : A * sc_timer * list sc_timer_data :=
  match wheels with
  | O => (a, t, log)
  | S wheels =>
      let '(a, t, log) := fire_wheel (Z.to_nat (t_wheel t)) head 0 (t_wheel t * head) a t log in
      fire_wheels wheels (Z.land (head + 1) (WHEEL_COUNT - 1)) a t log
  end.

(** The next delay: [sc_timer_min(TICK - time, TICK)] in 64 bits. *)
Definition next_delay (time : Z) : Z := Z.min (u64 (TICK - time)) TICK.

Definition sc_timer_timeout (t : sc_timer) (timestamp : Z) (a : A)
    : Z * (A * sc_timer * list sc_timer_data) :=
  let time := timestamp -₆₄ t_timestamp t in
  let wheels := u32 (Z.min (time / TICK) WHEEL_COUNT) in
  if wheels =? 0 then (next_delay time, (a, t, []))
  else
    let head := t_head t in
    let t := mk_timer timestamp (Z.land (u32 (head + wheels)) (WHEEL_COUNT - 1)) (t_wheel t) (t_list t) in
    (next_delay time, fire_wheels (Z.to_nat wheels) head a t []).

(** ** Firing *)

(** What [sc_timer_timeout] needs of its callback: it may add and cancel timers
    but leaves the clock and the head alone and does not drop wheels. *)
Definition callback_ok : Prop := forall a timeout type data t, timer_wf t ->
  let t' := snd (callback a timeout type data t) in
  timer_wf t' /\ t_timestamp t' = t_timestamp t /\ t_head t' = t_head t /\
  t_wheel t <= t_wheel t'.

(** The callback does not touch the timer [d] of a cell. *)
Definition callback_keeps (pos seq : Z) (d : sc_timer_data) : Prop :=
  forall a timeout type data t, timer_wf t -> pending t pos seq d ->
    pending (snd (callback a timeout type data t)) pos seq d.

Section firing.
Hypothesis Hok : callback_ok.
Variables (pos seq : Z) (d : sc_timer_data).
Hypothesis Hkeep : callback_keeps pos seq d.

(** What a part of the firing loops does: the clock and the head stay, only due
    timers are fired, and [d] is fired or still waiting. *)
Record fired (t : sc_timer) (t' : sc_timer) (new : list sc_timer_data) : Prop := {
  fi_wf : timer_wf t';
  fi_stamp : t_timestamp t' = t_timestamp t;
  fi_head : t_head t' = t_head t;
  fi_wheel : t_wheel t <= t_wheel t';
  fi_due : Forall (fun x => d_timeout x <= t_timestamp t) new;
  fi_kept : pending t pos seq d -> d ∈ new \/ pending t' pos seq d
}.

Lemma fired_nil t : timer_wf t -> fired t t [].
Proof. intros. split; try done; auto. Qed.

Lemma fired_trans t t1 t2 n1 n2 : fired t t1 n1 -> fired t1 t2 n2 -> fired t t2 (n1 ++ n2).
Proof.
  intros [] [fw fs fh fv fd fk]. split; try done; try congruence; [lia| |].
  - apply Forall_app. split; [done|]. by rewrite fi_stamp0 in fd.
  - intros Hp. rewrite elem_of_app. destruct fi_kept0 as [|Hp1]; [done|by auto|].
    destruct fk as [|]; auto.
Qed.

(** One due entry of slot [h]. *)
Lemma fired_one t h i a :
  timer_wf t -> in_cell t h i -> d_timeout (cell t h i) <= t_timestamp t ->
  let x := cell t h i in
  let t1 := with_list t (set_entry (t_list t) (h * t_wheel t + i)
              (mk_data SC_TIMER_INVALID (d_type x) (d_data x))) in
  fired t (snd (callback a (u32 (d_timeout x)) (d_type x) (d_data x) t1)) [x].
Proof.
  intros Hwf Hc Hdue x t1. assert (Hwf1 : timer_wf t1) by (by apply wf_with_entry).
  destruct (Hok a (u32 (d_timeout x)) (d_type x) (d_data x) t1 Hwf1) as (H1 & H2 & H3 & H4).
  split; try done; [by repeat constructor|]. intros (Hin & Hd & Hv).
  destruct (decide ((pos, seq) = (h, i))) as [[= -> ->]|Hne].
  - left. apply list_elem_of_singleton. by rewrite <- Hd.
  - right. apply Hkeep; [done|]. split; [done|]. split; [|done]. unfold t1. rewrite cell_set by done.
    destruct (Z.eqb_spec h pos), (Z.eqb_spec i seq); cbn [andb]; try done. congruence.
Qed.

Lemma fire_wheel_spec h : 0 <= h < WHEEL_COUNT -> forall n i a t log,
  timer_wf t -> 0 <= i -> i + Z.of_nat n <= t_wheel t ->
  exists a' t' new, fire_wheel n h i (t_wheel t * h) a t log = (a', t', log ++ new) /\
    fired t t' new /\
    (pending t pos seq d -> pos = h -> i <= seq < i + Z.of_nat n ->
     d_timeout d <= t_timestamp t -> d ∈ new).
Proof.
  intros Hh. induction n as [|n IH]; intros i a t log Hwf Hi Hn.
  - exists a, t, []. rewrite app_nil_r. split; [done|]. split; [by apply fired_nil|lia].
  - cbn [fire_wheel]. replace (t_wheel t * h + i) with (h * t_wheel t + i) by lia.
    fold (cell t h i). assert (Hc : in_cell t h i) by (split; [done|lia]).
    destruct (Z.leb_spec (d_timeout (cell t h i)) (t_timestamp t)) as [Hdue|Hnot].
    + pose proof (fired_one t h i a Hwf Hc Hdue) as Hf. cbv zeta in Hf.
      destruct (callback _ _ _ _ _) as [a1 t1]. cbn [snd] in Hf.
      destruct (IH (i + 1) a1 t1 (log ++ [cell t h i])) as (a' & t' & new & He & Hf2 & Hs).
      { apply Hf. } { lia. } { pose proof (fi_wheel _ _ _ Hf). lia. }
      exists a', t', ([cell t h i] ++ new). split; [by rewrite He, app_assoc|].
      split; [by apply (fired_trans _ t1)|]. intros Hp Hph Hseq Hd. apply elem_of_app.
      destruct (fi_kept _ _ _ Hf Hp) as [|Hp1]; [by left|].
      destruct (decide (seq = i)) as [Hsi|].
      * left. destruct Hp as (_ & Hx & _). rewrite Hph, Hsi in Hx. by apply list_elem_of_singleton.
      * right. apply Hs; [done..|lia|]. by rewrite (fi_stamp _ _ _ Hf).
    + destruct (IH (i + 1) a t log Hwf) as (a' & t' & new & He & Hf2 & Hs); [lia|lia|].
      exists a', t', new. split; [done|]. split; [done|]. intros Hp Hph Hseq Hd.
      apply Hs; try done. destruct (decide (seq = i)) as [Hsi|]; [|lia].
      destruct Hp as (_ & Hx & _). rewrite Hph, Hsi in Hx. rewrite Hx in Hnot. lia.
Qed.

Lemma land_wheel x : Z.land x (WHEEL_COUNT - 1) = x `mod` WHEEL_COUNT.
Proof. unfold WHEEL_COUNT. change (16 - 1) with (Z.ones 4). by rewrite Z.land_ones by lia. Qed.

(** The slots from [h] on; [(pos - h) mod 16] is the distance of the slot of [d]. *)
Lemma fire_wheels_spec n : forall h a t log,
  timer_wf t -> 0 <= h < WHEEL_COUNT ->
  exists a' t' new, fire_wheels n h a t log = (a', t', log ++ new) /\ fired t t' new /\
    (pending t pos seq d -> (pos - h) `mod` WHEEL_COUNT < Z.of_nat n ->
     d_timeout d <= t_timestamp t -> d ∈ new).
Proof.
  induction n as [|n IH]; intros h a t log Hwf Hh.
  - exists a, t, []. rewrite app_nil_r. split; [done|]. split; [by apply fired_nil|].
    intros _ Hm. pose proof (Z.mod_pos_bound (pos - h) WHEEL_COUNT ltac:(done)). lia.
  - cbn [fire_wheels].
    destruct (fire_wheel_spec h Hh (Z.to_nat (t_wheel t)) 0 a t log Hwf) as (a1 & t1 & n1 & -> & Hf1 & Hs1);
      [lia|destruct Hwf; lia|].
    rewrite land_wheel.
    destruct (IH ((h + 1) `mod` WHEEL_COUNT) a1 t1 (log ++ n1)) as (a' & t' & n2 & -> & Hf2 & Hs2);
      [apply Hf1|by apply Z.mod_pos_bound|].
    exists a', t', (n1 ++ n2). split; [by rewrite app_assoc|]. split; [by apply (fired_trans _ t1)|].
    intros Hp Hm Hd. apply elem_of_app. destruct (fi_kept _ _ _ Hf1 Hp) as [|Hp1]; [by left|].
    pose proof Hp as [[Hpos Hseq] _]. destruct (decide (pos = h)) as [Hph|Hne].
    + left. apply Hs1; [done..|destruct Hwf; lia|done].
    + right. apply Hs2; [done| |by rewrite (fi_stamp _ _ _ Hf1)]. unfold WHEEL_COUNT in *. dlia.
Qed.

(** The ticks a call with a new timestamp is worth. *)
Definition ticks (t : sc_timer) (timestamp : Z) : Z :=
  Z.min ((timestamp - t_timestamp t) / TICK) WHEEL_COUNT.

(** [d] is due within [n] ticks more: the slots left to its cell are [n] modulo
    the wheel, and its deadline is before the end of the last tick. *)
Definition due_in (t : sc_timer) (n : Z) : Prop :=
  0 <= n /\ pending t pos seq d /\ (pos - t_head t) `mod` WHEEL_COUNT = n `mod` WHEEL_COUNT /\
  d_timeout d < t_timestamp t + TICK * (n + 1).

Lemma sc_timer_timeout_spec t timestamp a :
  timer_wf t -> is_u64 timestamp -> t_timestamp t <= timestamp ->
  exists delay a' t' new, sc_timer_timeout t timestamp a = (delay, (a', t', new)) /\
    timer_wf t' /\ t_timestamp t <= t_timestamp t' <= timestamp /\
    Forall (fun x => d_timeout x <= timestamp) new /\
    (forall n, due_in t n -> d ∈ new \/ (ticks t timestamp <= n /\ due_in t' (n - ticks t timestamp))).
Proof.
  intros Hwf Hts Hle. unfold sc_timer_timeout. pose proof Hwf as [Hw Hl Hh Hst].
  rewrite (u64_small (timestamp - _)) by lia.
  assert (Htk : 0 <= ticks t timestamp <= 16) by (unfold ticks, TICK, WHEEL_COUNT; dlia).
  fold (ticks t timestamp). rewrite (u32_small (ticks _ _)) by lia.
  destruct (Z.eqb_spec (ticks t timestamp) 0) as [E|E].
  - do 4 eexists. split; [done|]. rewrite E. split_and!; [done|lia|lia|done|].
    intros n Hd. right. rewrite Z.sub_0_r. destruct Hd; split; [lia|done].
  - set (h' := Z.land _ _).
    assert (Hh' : h' = (t_head t + ticks t timestamp) `mod` 16).
    { unfold h'. rewrite land_wheel. unfold WHEEL_COUNT in *. rewrite u32_small by lia. done. }
    assert (Hr : 0 <= h' < WHEEL_COUNT) by (rewrite Hh'; by apply Z.mod_pos_bound).
    assert (Hwf1 : timer_wf (mk_timer timestamp h' (t_wheel t) (t_list t))) by done.
    destruct (fire_wheels_spec (Z.to_nat (ticks t timestamp)) (t_head t) a _ [] Hwf1 Hh)
      as (a' & t' & new & -> & Hf & Hs).
    do 4 eexists. split; [done|]. cbn [app]. rewrite (fi_stamp _ _ _ Hf). simpl t_timestamp.
    split_and!; [apply Hf|lia|lia|apply Hf|]. intros n (Hn & Hp & Hm & Hd).
    assert (Hp1 : pending (mk_timer timestamp h' (t_wheel t) (t_list t)) pos seq d) by exact Hp.
    rewrite Z2Nat.id in Hs by lia. specialize (Hs Hp1). simpl in Hs.
    assert (Htick : 16 * ticks t timestamp <= timestamp - t_timestamp t)
      by (unfold ticks, TICK, WHEEL_COUNT; dlia).
    destruct (fi_kept _ _ _ Hf Hp1) as [|Hp2]; [by left|].
    pose proof (Z.mod_pos_bound (pos - t_head t) 16 ltac:(lia)) as Hmr.
    destruct (Z_lt_le_dec ((pos - t_head t) `mod` WHEEL_COUNT) (ticks t timestamp)) as [Hpass|Hpass].
    + destruct (Z_le_gt_dec (d_timeout d) timestamp) as [Hdue|Hnot]; [left; by apply Hs|].
      right. unfold due_in. rewrite (fi_stamp _ _ _ Hf), (fi_head _ _ _ Hf). simpl.
      unfold WHEEL_COUNT, TICK in *. rewrite Hh'. split_and!; [dlia..|done|dlia|lia].
    + right. unfold due_in. rewrite (fi_stamp _ _ _ Hf), (fi_head _ _ _ Hf). simpl.
      unfold WHEEL_COUNT, TICK in *. rewrite Hh'. split_and!; [dlia..|done|dlia|lia].
Qed.
End firing.

(** ** Runs *)

(** Calls of [sc_timer_timeout] at the times [stamps]: the entries fired, each
    with the time of its call, and the ticks passed. *)
Fixpoint timer_run (t : sc_timer) (a : A) (stamps : list Z)
    : list (Z * sc_timer_data) * Z * sc_timer :=
  match stamps with
  | [] => ([], 0, t)
  | ts :: stamps =>
      let '(_, (a, t', new)) := sc_timer_timeout t ts a in
      let '(log, n, t'') := timer_run t' a stamps in
      (map (pair ts) new ++ log, ticks t ts + n, t'')
  end.

Lemma timer_run_spec pos seq d :
  callback_ok -> callback_keeps pos seq d -> forall stamps t a,
  timer_wf t -> Forall (fun ts => is_u64 ts) stamps -> StronglySorted Z.le (t_timestamp t :: stamps) ->
  let '(log, n, t') := timer_run t a stamps in
  Forall (fun sx => d_timeout (snd sx) <= fst sx) log /\
  (forall k, due_in pos seq d t k -> k < n -> exists ts, (ts, d) ∈ log).
Proof.
  intros Hok Hk. induction stamps as [|ts stamps IH]; intros t a Hwf Hu Hs; cbn [timer_run].
  { split; [constructor|]. intros k [Hk0 _] Hn. lia. }
  apply Forall_cons_1 in Hu as [Hts Hu].
  apply StronglySorted_inv in Hs as [Hss Hle]. apply Forall_cons_1 in Hle as [Hle Hall].
  destruct (sc_timer_timeout_spec Hok pos seq d Hk t ts a Hwf Hts Hle)
    as (delay & a' & t1 & new & -> & Hwf1 & Hst & Hdue & Hd).
  assert (Hs1 : StronglySorted Z.le (t_timestamp t1 :: stamps)).
  { apply StronglySorted_inv in Hss as [Hss Hall2]. constructor; [done|].
    eapply Forall_impl; [|exact Hall2]. intros x Hx. simpl in *. lia. }
  specialize (IH t1 a' Hwf1 Hu Hs1). destruct (timer_run t1 a' stamps) as [[log n] t2].
  destruct IH as [IH1 IH2]. split.
  - apply Forall_app. split; [|done]. apply Forall_map. eapply Forall_impl; [|exact Hdue]. done.
  - intros k Hk' Hn. destruct (Hd k Hk') as [Hin|[Hle' Hd1]].
    + exists ts. apply elem_of_app. left. by apply list_elem_of_fmap_2.
    + destruct (IH2 _ Hd1) as [ts' Hin]; [lia|]. exists ts'. apply elem_of_app. by right.
Qed.

(** C26: timers fire, and never early.  A timer that was added with a timeout
    fires in every run of timeout checks, at times that do not go back, whose
    ticks exceed the timeout (a check is worth the whole ticks since the last
    one, sixteen at most), provided the callbacks run in between do not cancel
    it; and no check ever fires a timer before its deadline. *)
Theorem sc_timer_fires ok t timeout type data id t1 :
  callback_ok -> timer_wf t -> 0 <= timeout -> timeout + t_timestamp t < SC_TIMER_INVALID ->
  sc_timer_add ok t timeout type data = (id, t1) -> id <> SC_TIMER_INVALID ->
  let d := mk_data (timeout + t_timestamp t) type data in
  exists pos seq, id = timer_id pos seq /\
    (callback_keeps pos seq d -> forall a stamps,
     Forall (fun ts => is_u64 ts) stamps -> StronglySorted Z.le (t_timestamp t :: stamps) ->
     let '(log, n, _) := timer_run t1 a stamps in
     Forall (fun sx => d_timeout (snd sx) <= fst sx) log /\
     (timeout / TICK < n -> exists ts, (ts, d) ∈ log)).
Proof.
  intros Hok Hwf Ht Hb Ha Hv. destruct (sc_timer_add_spec ok t timeout type data Hwf Ht Hb)
    as [(seq & t' & He & Hwf' & H1 & H2 & _ & Hp & _)|[He _]]; [|congruence].
  rewrite He in Ha. injection Ha as <- <-. eexists _, seq. split; [reflexivity|].
  intros Hk a stamps Hu Hs. rewrite <- H1 in Hs.
  pose proof (timer_run_spec _ _ _ Hok Hk stamps t' a Hwf' Hu Hs) as Hr.
  destruct (timer_run t' a stamps) as [[log n] t2]. destruct Hr as [Hr1 Hr2]. split; [done|].
  intros Hn. apply (Hr2 (timeout / TICK)); [|done]. pose proof Hwf as [_ _ Hh _].
  unfold due_in. rewrite H1, H2. unfold slot_of, TICK, WHEEL_COUNT in *.
  split_and!; [dlia|done|dlia|simpl; dlia].
Qed.

(** Ids name timers.  Adding a timer gives an id that was free and changes
    nothing else, also when the wheels have to be expanded; cancelling by this
    id removes this timer and no other. *)
Lemma sc_timer_add_cancel ok t timeout type data id t1 :
  timer_wf t -> 0 <= timeout -> timeout + t_timestamp t < SC_TIMER_INVALID ->
  sc_timer_add ok t timeout type data = (id, t1) -> id <> SC_TIMER_INVALID ->
  exists pos seq, id = timer_id pos seq /\ timer_wf t1 /\ (forall x, ~ pending t pos seq x) /\
    (forall p s x, pending t1 p s x <->
       (p, s) = (pos, seq) /\ x = mk_data (timeout + t_timestamp t) type data \/ pending t p s x) /\
    let r := sc_timer_cancel t1 id in
    fst r = SC_TIMER_INVALID /\ timer_wf (snd r) /\
    (forall p s x, pending (snd r) p s x <-> pending t p s x).
Proof.
  intros Hwf Ht Hb Ha Hv. destruct (sc_timer_add_spec ok t timeout type data Hwf Ht Hb)
    as [(seq & t' & He & Hwf' & H1 & H2 & _ & Hp & Hf & Ho)|[He _]]; [|congruence].
  rewrite He in Ha. injection Ha as <- <-. eexists _, seq. split; [reflexivity|].
  set (pos := slot_of t timeout) in *.
  destruct (sc_timer_cancel_spec t' pos seq Hwf' (proj1 Hp)) as (Hc1 & Hc2 & _ & _ & Hc3).
  cbv zeta. split_and!; try done.
  - intros p s x. destruct (decide ((p, s) = (pos, seq))) as [[= -> ->]|Hne].
    + split; [|intros [[_ ->]|H]; [done|by destruct (Hf x)]].
      intros (_ & <- & _). left. split; [done|]. apply Hp.
    + rewrite Ho by done. split; [by right|]. by intros [[]|].
  - intros p s x. rewrite Hc3. destruct (decide ((p, s) = (pos, seq))) as [[= -> ->]|Hne].
    + split; [by intros [[] _]|]. intros Hx. by destruct (Hf x).
    + rewrite Ho by done. split; [by intros [_ ?]|]. by split.
Qed.
End timeouts.
End sc_timer.

(** A periodic callback: it counts the calls and adds the timer again. *)
Definition periodic (a : Z) (timeout type : Z) (data : unit) (t : sc_timer) : Z * sc_timer :=
  (a + 1, if t_timestamp t <? 10000 then snd (sc_timer_add tt true t 100 type data) else t).

Lemma periodic_step a timeout type data t :
  timer_wf t ->
  let t' := snd (periodic a timeout type data t) in
  timer_wf t' /\ t_timestamp t' = t_timestamp t /\ t_head t' = t_head t /\ t_wheel t <= t_wheel t' /\
  forall pos seq d, pending tt t pos seq d -> pending tt t' pos seq d.
Proof.
  intros Hwf. unfold periodic. cbn [snd]. destruct (Z.ltb_spec (t_timestamp t) 10000) as [Hlt|]; [|by auto].
  destruct (sc_timer_add_spec tt true t 100 type data Hwf)
    as [(s & t' & -> & H1 & H2 & H3 & H4 & H5 & H6 & H7)|[-> _]];
    [lia|unfold SC_TIMER_INVALID, UINT64_MAX; lia| |by auto].
  cbn [snd]. split_and!; try done. intros p q d Hp. apply H7; [|done].
  intros [= -> ->]. by destruct (H6 d).
Qed.

Lemma sc_timer_fires_witness :
  let t := sc_timer_init 1000 in
  let d := mk_data 1250 7 tt in
  let '(log, n, _) := timer_run tt periodic (snd (sc_timer_add tt true t 250 7 tt)) 0
    [1020; 1100; 1107; 1200; 1240; 1300; 1500] in
  Forall (fun sx => d_timeout (snd sx) <= fst sx) log /\ n = 29 /\ exists ts, (ts, d) ∈ log.
Proof.
  intros t d.
  destruct (sc_timer_fires tt periodic true t 250 7 tt 15 (snd (sc_timer_add tt true t 250 7 tt)))
    as (pos & seq & _ & H).
  - intros a o y u t' Hwf. destruct (periodic_step a o y u t' Hwf) as (? & ? & ? & ? & _). done.
  - apply wf_sc_timer_init. lia.
  - lia.
  - reflexivity.
  - reflexivity.
  - discriminate.
  - specialize (H ltac:(intros a o y u t' Hwf; by apply periodic_step) 0
      [1020; 1100; 1107; 1200; 1240; 1300; 1500]).
    assert (E : snd (fst (timer_run tt periodic (snd (sc_timer_add tt true t 250 7 tt)) 0
      [1020; 1100; 1107; 1200; 1240; 1300; 1500])) = 29) by (vm_compute; reflexivity).
    destruct (timer_run tt periodic _ _ _) as [[log n] t2]. simpl in E. subst n.
    destruct H as [H1 H2].
    + repeat constructor; lia.
    + repeat constructor; simpl; lia.
    + split; [done|]. split; [done|]. apply H2. done.
Defined.

Lemma sc_timer_add_cancel_witness :
  let t := snd (sc_timer_add tt true (sc_timer_init 5) 40 1 tt) in
  exists pos seq, timer_id 2 1 = timer_id pos seq /\ 
    forall p s x, pending tt (snd (sc_timer_cancel tt (snd (sc_timer_add tt true t 40 2 tt)) (timer_id 2 1))) p s x
      <-> pending tt t p s x.
Proof.
  intros t.
  destruct (sc_timer_add_cancel tt true t 40 2 tt (timer_id 2 1) (snd (sc_timer_add tt true t 40 2 tt)))
    as (pos & seq & E & _ & _ & _ & _ & _ & H).
  - split; vm_compute; first [reflexivity|discriminate|split; discriminate || reflexivity].
  - lia.
  - reflexivity.
  - vm_compute. reflexivity.
  - vm_compute. discriminate.
  - exists pos, seq. split; [exact E|exact H].
Defined.
