(* ===== verification/Queue.v ===== *)
(** * Ring buffers and growing arrays (lib/sc/sc_queue.h, lib/sc/sc_array.h)

    [sc_queue] is a double-ended queue in a ring of a power-of-two capacity, one
    slot of which is always free; the job queue of the server and the addresses
    of a node are such queues.  [sc_array] is a growing array; page entries and
    the nodes of the cluster metadata are kept in such arrays.  Both are shown to
    implement lists. *)

From Stdlib Require Import ZArith Lia.
From stdpp Require Import base list numbers.
From S2P Require Import Prelude.

Definition SIZE_MAX : Z := UINT64_MAX.

Section sc_queue.
Context {T : Type} (zero : T).

Record sc_queue := mk_queue {
  q_oom : bool;
  q_cap : Z;
  q_first : Z;
  q_last : Z;
  q_elems : list T
}.

Definition SC_QUEUE_MAX : Z := SIZE_MAX.

Definition elem_at (l : list T) (i : Z) : T := default zero (l !! Z.to_nat i).

(** [alloc_ok] is the outcome of [calloc].  The two copies put the elements from
    [first] to the end in front of those before [first]. *)
Definition sc_queue_expand (alloc_ok : bool) (q : sc_queue) : sc_queue :=
  let pos := Z.land (q_last q +₆₄ 1) (q_cap q - 1) in
  if pos =? q_first q then
    if q_cap q >? SC_QUEUE_MAX / 2 then
      mk_queue true (q_cap q) (q_first q) (q_last q) (q_elems q)
    else if negb alloc_ok then
      mk_queue true (q_cap q) (q_first q) (q_last q) (q_elems q)
    else
      let cap := q_cap q * 2 in
      let dst := drop (Z.to_nat (q_first q)) (q_elems q) ++ take (Z.to_nat (q_first q)) (q_elems q) ++
                 replicate (Z.to_nat (cap - q_cap q)) zero in
      mk_queue false cap 0 (q_cap q - 1) dst
  else q.

Definition sc_queue_init (alloc_ok : bool) : sc_queue :=
  mk_queue (negb alloc_ok) 8 0 0 (if alloc_ok then replicate 8 zero else []).

Definition sc_queue_term (q : sc_queue) : sc_queue := mk_queue false 0 0 0 [].

Definition sc_queue_size (q : sc_queue) : Z := Z.land (q_last q -₆₄ q_first q) (q_cap q - 1).

Definition sc_queue_clear (q : sc_queue) : sc_queue :=
  mk_queue false (q_cap q) 0 0 (q_elems q).

Definition sc_queue_empty (q : sc_queue) : bool := q_last q =? q_first q.

Definition sc_queue_at (q : sc_queue) (i : Z) : T :=
  elem_at (q_elems q) (Z.land (q_first q +₆₄ i) (q_cap q - 1)).

Definition sc_queue_peek_first (q : sc_queue) : T := elem_at (q_elems q) (q_first q).

Definition sc_queue_peek_last (q : sc_queue) : T :=
  elem_at (q_elems q) (Z.land (q_last q -₆₄ 1) (q_cap q - 1)).

Definition sc_queue_add_last (alloc_ok : bool) (q : sc_queue) (elem : T) : sc_queue :=
  let q := sc_queue_expand alloc_ok q in
  if q_oom q then q
  else
    mk_queue false (q_cap q) (q_first q) (Z.land (q_last q +₆₄ 1) (q_cap q - 1))
      (<[Z.to_nat (q_last q) := elem]> (q_elems q)).

Definition sc_queue_del_last (q : sc_queue) : T * sc_queue :=
  let last := Z.land (q_last q -₆₄ 1) (q_cap q - 1) in
  (elem_at (q_elems q) last, mk_queue (q_oom q) (q_cap q) (q_first q) last (q_elems q)).

Definition sc_queue_add_first (alloc_ok : bool) (q : sc_queue) (elem : T) : sc_queue :=
  let q := sc_queue_expand alloc_ok q in
  if q_oom q then q
  else
    let first := Z.land (q_first q -₆₄ 1) (q_cap q - 1) in
    mk_queue false (q_cap q) first (q_last q) (<[Z.to_nat first := elem]> (q_elems q)).

Definition sc_queue_inc_first (first cap : Z) : Z * Z := (first, Z.land (first +₆₄ 1) (cap - 1)).

Definition sc_queue_del_first (q : sc_queue) : T * sc_queue :=
  let '(i, first) := sc_queue_inc_first (q_first q) (q_cap q) in
  (elem_at (q_elems q) i, mk_queue (q_oom q) (q_cap q) first (q_last q) (q_elems q)).

(** ** A queue represents a list *)

(** The index of the [i]-th element in a ring of [N] slots. *)
Definition ring (N first i : Z) : Z := (first + i) `mod` N.

Record queue_is (q : sc_queue) (l : list T) : Prop := {
  qi_cap : exists k, 1 <= k <= 63 /\ q_cap q = 2 ^ k;
  qi_mem : zlen (q_elems q) = q_cap q;
  qi_first : 0 <= q_first q < q_cap q;
  qi_size : zlen l < q_cap q;
  qi_last : q_last q = ring (q_cap q) (q_first q) (zlen l);
  qi_elems : forall i x, l !! i = Some x ->
    elem_at (q_elems q) (ring (q_cap q) (q_first q) (Z.of_nat i)) = x
}.

Lemma queue_mask q l x :
  queue_is q l -> Z.land (u64 x) (q_cap q - 1) = x `mod` q_cap q.
Proof.
  intros [(k & Hk & E) _ _ _ _ _]. rewrite E.
  replace (2 ^ k - 1) with (Z.ones k) by (rewrite Z.ones_equiv; lia).
  rewrite Z.land_ones by lia. unfold u64. symmetry.
  replace (2 ^ 64) with (2 ^ (64 - k) * 2 ^ k) by (rewrite <- Z.pow_add_r by lia; f_equal; lia).
  symmetry. apply Z.mod_mod_divide, Z.divide_factor_r.
Qed.

Lemma queue_cap_pos q l : queue_is q l -> 2 <= q_cap q <= 2 ^ 63.
Proof.
  intros [(k & Hk & ->) _ _ _ _ _]. split.
  - change 2 with (2 ^ 1) at 1. apply Z.pow_le_mono_r; lia.
  - apply Z.pow_le_mono_r; lia.
Qed.

Lemma ring_range N first i : 0 < N -> 0 <= ring N first i < N.
Proof. intros. by apply Z.mod_pos_bound. Qed.

Lemma ring_small N first i :
  0 <= first < N -> 0 <= i < N -> ring N first i = if first + i <? N then first + i else first + i - N.
Proof.
  intros. unfold ring. case_if; [by apply Z.mod_small; lia|].
  replace (first + i) with (first + i - N + 1 * N) at 1 by lia.
  rewrite Z.mod_add by lia. apply Z.mod_small. lia.
Qed.

Lemma ring_inj N first i j :
  0 <= first < N -> 0 <= i < N -> 0 <= j < N -> ring N first i = ring N first j -> i = j.
Proof. intros ? ? ?. rewrite !ring_small by done. repeat case_if; lia. Qed.

Lemma ring_next N first i : 0 < N -> (ring N first i + 1) `mod` N = ring N first (i + 1).
Proof. intros. unfold ring. rewrite Zplus_mod_idemp_l. f_equal. lia. Qed.

Lemma ring_prev N first i : 0 < N -> (ring N first i - 1) `mod` N = ring N first (i - 1).
Proof. intros. unfold ring. rewrite Zminus_mod_idemp_l. f_equal. lia. Qed.

Lemma elem_at_insert l i j x :
  0 <= i < zlen l -> 0 <= j -> elem_at (<[Z.to_nat i := x]> l) j = if i =? j then x else elem_at l j.
Proof.
  unfold zlen, elem_at. intros Hi Hj. case_if.
  - subst j. by rewrite list_lookup_insert_eq by lia.
  - by rewrite list_lookup_insert_ne by lia.
Qed.

Lemma elem_at_rotate (l tail : list T) f i :
  0 <= f <= zlen l -> 0 <= i < zlen l ->
  elem_at (drop (Z.to_nat f) l ++ take (Z.to_nat f) l ++ tail) i =
  elem_at l (if f + i <? zlen l then f + i else f + i - zlen l).
Proof.
  unfold zlen, elem_at. intros Hf Hi. case_if.
  - rewrite lookup_app_l by (rewrite length_drop; lia). rewrite lookup_drop. do 2 f_equal. lia.
  - rewrite lookup_app_r by (rewrite length_drop; lia).
    rewrite lookup_app_l by (rewrite length_take, length_drop; lia).
    rewrite length_drop, lookup_take_lt by lia. do 2 f_equal. lia.
Qed.

(** Expansion keeps the list and leaves a free slot, unless memory is out. *)
Lemma sc_queue_expand_spec ok q l :
  queue_is q l ->
  (queue_is (sc_queue_expand ok q) l /\ zlen l + 1 < q_cap (sc_queue_expand ok q) /\
   (q_oom (sc_queue_expand ok q) = false \/ q_oom (sc_queue_expand ok q) = q_oom q)) \/
  (zlen l + 1 = q_cap q /\ queue_is (sc_queue_expand ok q) l /\ q_oom (sc_queue_expand ok q) = true /\
   (ok = false \/ q_cap q = 2 ^ 63)).
Proof.
  intros Hq. pose proof Hq as [(k & Hk & Ek) Hm Hf Hs Hl He]. pose proof (queue_cap_pos q l Hq) as Hc.
  pose proof (zlen_nonneg l). unfold sc_queue_expand. rewrite (queue_mask q l) by done.
  rewrite Hl, ring_next by lia.
  assert (Hfull : (ring (q_cap q) (q_first q) (zlen l + 1) =? q_first q) = (zlen l + 1 =? q_cap q)).
  { apply eq_true_iff_eq. rewrite !Z.eqb_eq. split; intros E.
    - destruct (decide (zlen l + 1 = q_cap q)); [done|].
      rewrite ring_small in E by lia. revert E. case_if; lia.
    - unfold ring. rewrite E. replace (q_first q + q_cap q) with (q_first q + 1 * q_cap q) by lia.
      rewrite Z.mod_add by lia. by apply Z.mod_small. }
  rewrite Hfull. destruct (Z.eqb_spec (zlen l + 1) (q_cap q)) as [E|E].
  2: { left. split; [done|]. split; [lia|by right]. }
  change (SC_QUEUE_MAX / 2) with (2 ^ 63 - 1).
  destruct (q_cap q >? 2 ^ 63 - 1) eqn:Eb; zb.
  { right. split; [done|]. split; [by split; try done; exists k|]. split; [done|]. right. lia. }
  destruct ok; cbn [negb]; [left|right; split; [done|split; [by split; try done; exists k|auto]]].
  split; [|split; [simpl; lia|by left]].
  assert (Hk63 : k < 63).
  { destruct (decide (k = 63)) as [->|]; [|lia]. change (2 ^ 63) with 9223372036854775808 in *. lia. }
  split; simpl.
  - exists (k + 1). split; [lia|]. rewrite Ek, Z.pow_add_r by lia. done.
  - rewrite !zlen_app. unfold zlen in *. rewrite length_drop, length_take, length_replicate. lia.
  - lia.
  - lia.
  - rewrite ring_small by lia. rewrite if_true by zbool_solve. lia.
  - intros i x Hi. pose proof (lookup_lt_Some _ _ _ Hi) as Hlt. unfold zlen in E, Hs.
    rewrite ring_small by lia. rewrite if_true by zbool_solve.
    replace (q_cap q * 2 - q_cap q) with (q_cap q) by lia.
    rewrite elem_at_rotate, Hm by lia. rewrite <- (He i x Hi). f_equal. rewrite ring_small by lia. done.
Qed.

Lemma sc_queue_size_spec q l : queue_is q l -> sc_queue_size q = zlen l.
Proof.
  intros Hq. unfold sc_queue_size. rewrite (queue_mask q l) by done.
  pose proof Hq as [_ _ Hf Hs -> _]. pose proof (queue_cap_pos q l Hq). pose proof (zlen_nonneg l).
  unfold ring. rewrite Zminus_mod_idemp_l. replace (q_first q + zlen l - q_first q) with (zlen l) by lia.
  apply Z.mod_small. lia.
Qed.

Lemma sc_queue_empty_spec q l : queue_is q l -> sc_queue_empty q = bool_decide (l = []).
Proof.
  intros Hq. pose proof Hq as [_ _ Hf Hs Hl _]. pose proof (zlen_nonneg l).
  unfold sc_queue_empty. rewrite Hl, ring_small by lia. destruct l as [|x l].
  - change (zlen []) with 0. rewrite if_true by zbool_solve. rewrite Z.add_0_r. by rewrite Z.eqb_refl.
  - rewrite zlen_cons in *. pose proof (zlen_nonneg l). rewrite bool_decide_false by done.
    apply Z.eqb_neq. case_if; lia.
Qed.

Lemma lookup_snoc_cases (l : list T) x i y :
  (l ++ [x]) !! i = Some y -> (i = length l /\ y = x) \/ (l !! i = Some y).
Proof. rewrite lookup_snoc_Some. intros [[? ?]|[? ->]]; auto. Qed.

Lemma add_last_room q l x :
  queue_is q l -> zlen l + 1 < q_cap q ->
  queue_is (mk_queue false (q_cap q) (q_first q) (Z.land (q_last q +₆₄ 1) (q_cap q - 1))
    (<[Z.to_nat (q_last q) := x]> (q_elems q))) (l ++ [x]).
Proof.
  intros Hq Hr. pose proof Hq as [Hk Hm Hf Hs Hl He]. pose proof (queue_cap_pos q l Hq).
  pose proof (zlen_nonneg l). rewrite (queue_mask q l) by done.
  pose proof (ring_range (q_cap q) (q_first q) (zlen l) ltac:(lia)).
  split; simpl; try done.
  - unfold zlen in *. by rewrite length_insert.
  - rewrite zlen_app. change (zlen [x]) with 1. lia.
  - rewrite Hl, ring_next, zlen_app by lia. done.
  - intros i y Hi. rewrite Hl. pose proof (ring_range (q_cap q) (q_first q) (Z.of_nat i) ltac:(lia)).
    rewrite elem_at_insert by lia. apply lookup_snoc_cases in Hi as [[-> ->]|Hi].
    + by rewrite Z.eqb_refl.
    + pose proof (lookup_lt_Some _ _ _ Hi) as Hlt. rewrite if_false; [by apply He|].
      apply Z.eqb_neq. intros E. unfold zlen in *. apply ring_inj in E; lia.
Qed.

Lemma add_first_room q l x :
  queue_is q l -> zlen l + 1 < q_cap q ->
  let first := Z.land (q_first q -₆₄ 1) (q_cap q - 1) in
  queue_is (mk_queue false (q_cap q) first (q_last q) (<[Z.to_nat first := x]> (q_elems q))) (x :: l).
Proof.
  intros Hq Hr first. pose proof Hq as [Hk Hm Hf Hs Hl He]. pose proof (queue_cap_pos q l Hq).
  pose proof (zlen_nonneg l).
  assert (Ef : first = (q_first q - 1) `mod` q_cap q) by (by apply (queue_mask q l)).
  assert (Hfr : 0 <= first < q_cap q) by (rewrite Ef; apply Z.mod_pos_bound; lia).
  assert (Hring : forall i, ring (q_cap q) first (i + 1) = ring (q_cap q) (q_first q) i).
  { intros i. unfold ring. rewrite Ef, Zplus_mod_idemp_l. f_equal. lia. }
  split; simpl; try done.
  - unfold zlen in *. by rewrite length_insert.
  - rewrite zlen_cons. lia.
  - rewrite Hl, zlen_cons, Z.add_comm. by rewrite Hring.
  - intros i y Hi. pose proof (ring_range (q_cap q) first (Z.of_nat i) ltac:(lia)).
    rewrite elem_at_insert by lia. destruct i as [|i].
    + injection Hi as <-. change (Z.of_nat 0) with 0. rewrite ring_small by lia.
      rewrite (if_true (first + 0 <? q_cap q)) by zbool_solve. by rewrite Z.add_0_r, Z.eqb_refl.
    + pose proof (lookup_lt_Some _ _ _ Hi) as Hlt. simpl in Hlt. rewrite if_false.
      * rewrite <- (He i y Hi). f_equal. rewrite <- Hring. f_equal. lia.
      * apply Z.eqb_neq. intros E. unfold zlen in *.
        replace first with (ring (q_cap q) first 0) in E at 1
          by (rewrite ring_small by lia; rewrite if_true by zbool_solve; lia).
        apply ring_inj in E; lia.
Qed.

Lemma sc_queue_del_last_spec q l x :
  queue_is q (l ++ [x]) ->
  fst (sc_queue_del_last q) = x /\ queue_is (snd (sc_queue_del_last q)) l /\
  q_oom (snd (sc_queue_del_last q)) = q_oom q.
Proof.
  intros Hq. pose proof Hq as [Hk Hm Hf Hs Hl He]. pose proof (queue_cap_pos q _ Hq).
  unfold sc_queue_del_last. rewrite (queue_mask q _ _ Hq), Hl, ring_prev by lia.
  rewrite zlen_app in *. change (zlen [x]) with 1 in *. replace (zlen l + 1 - 1) with (zlen l) by lia.
  cbn [fst snd]. split; [|split; [|done]].
  - apply (He (length l) x). by rewrite lookup_app_r, Nat.sub_diag by lia.
  - split; simpl; try done; [lia|]. intros i y Hi. apply He.
    by rewrite lookup_app_l by (by apply lookup_lt_Some in Hi).
Qed.

Lemma sc_queue_del_first_spec q l x :
  queue_is q (x :: l) ->
  fst (sc_queue_del_first q) = x /\ queue_is (snd (sc_queue_del_first q)) l /\
  q_oom (snd (sc_queue_del_first q)) = q_oom q.
Proof.
  intros Hq. pose proof Hq as [Hk Hm Hf Hs Hl He]. pose proof (queue_cap_pos q _ Hq).
  unfold sc_queue_del_first, sc_queue_inc_first. rewrite (queue_mask q _ _ Hq). cbn [fst snd].
  rewrite zlen_cons in *. pose proof (zlen_nonneg l).
  assert (Hring : forall i, ring (q_cap q) ((q_first q + 1) `mod` q_cap q) i =
    ring (q_cap q) (q_first q) (1 + i)).
  { intros i. unfold ring. rewrite Zplus_mod_idemp_l. f_equal. lia. }
  split; [|split; [|done]].
  - rewrite <- (He 0%nat x eq_refl). f_equal. change (Z.of_nat 0) with 0. rewrite ring_small by lia.
    rewrite if_true by zbool_solve. lia.
  - split; simpl; try done; [apply Z.mod_pos_bound; lia|lia|by rewrite Hring|].
    intros i y Hi. rewrite Hring, <- (He (S i) y Hi). do 2 f_equal. lia.
Qed.

Lemma sc_queue_clear_spec q l : queue_is q l -> queue_is (sc_queue_clear q) [].
Proof.
  intros Hq. pose proof Hq as [Hk Hm Hf Hs Hl He]. pose proof (queue_cap_pos q _ Hq).
  split; simpl; try done; try (change (zlen []) with 0; lia).
Qed.

Lemma sc_queue_init_spec : queue_is (sc_queue_init true) [].
Proof. split; simpl; try done. by exists 3. Qed.

(** ** Refinement *)

Inductive queue_op := QAddLast (x : T) | QAddFirst (x : T) | QDelLast | QDelFirst | QClear.

(** Operations with allocations that succeed. *)
Definition queue_exec (q : sc_queue) (op : queue_op) : option T * sc_queue :=
  match op with
  | QAddLast x => (None, sc_queue_add_last true q x)
  | QAddFirst x => (None, sc_queue_add_first true q x)
  | QDelLast => let '(x, q) := sc_queue_del_last q in (Some x, q)
  | QDelFirst => let '(x, q) := sc_queue_del_first q in (Some x, q)
  | QClear => (None, sc_queue_clear q)
  end.

(** The same on lists; [None] where the source leaves the result undefined. *)
Definition list_exec (l : list T) (op : queue_op) : option (option T * list T) :=
  match op with
  | QAddLast x => Some (None, l ++ [x])
  | QAddFirst x => Some (None, x :: l)
  | QDelLast => match reverse l with [] => None | x :: r => Some (Some x, reverse r) end
  | QDelFirst => match l with [] => None | x :: l => Some (Some x, l) end
  | QClear => Some (None, [])
  end.

Fixpoint queue_run (q : sc_queue) (ops : list queue_op) : list (option T) * sc_queue :=
  match ops with
  | [] => ([], q)
  | op :: ops =>
      let '(r, q) := queue_exec q op in
      let '(rs, q) := queue_run q ops in (r :: rs, q)
  end.

Fixpoint list_run (l : list T) (ops : list queue_op) : option (list (option T) * list T) :=
  match ops with
  | [] => Some ([], l)
  | op :: ops =>
      match list_exec l op with
      | None => None
      | Some (r, l) =>
          match list_run l ops with None => None | Some (rs, l) => Some (r :: rs, l) end
      end
  end.

Lemma expand_room q l :
  queue_is q l -> q_oom q = false -> zlen l + 1 < 2 ^ 63 ->
  let q1 := sc_queue_expand true q in
  queue_is q1 l /\ zlen l + 1 < q_cap q1 /\ q_oom q1 = false.
Proof.
  intros Hq Ho Hb. destruct (sc_queue_expand_spec true q l Hq)
    as [(H1 & H2 & H3)|(H1 & _ & _ & [|H3])]; [|done|lia].
  cbv zeta. split_and!; [done|done|]. destruct H3; congruence.
Qed.

Lemma queue_exec_spec q l op r l' :
  queue_is q l -> q_oom q = false -> zlen l + 1 < 2 ^ 63 -> list_exec l op = Some (r, l') ->
  exists q', queue_exec q op = (r, q') /\ queue_is q' l' /\ q_oom q' = false /\ zlen l' <= zlen l + 1.
Proof.
  intros Hq Ho Hb. destruct op as [x|x| | |]; cbn [queue_exec list_exec].
  - intros [= <- <-]. destruct (expand_room q l Hq Ho Hb) as (H1 & H2 & H3).
    eexists. split; [reflexivity|]. unfold sc_queue_add_last. rewrite H3.
    split; [by apply add_last_room|]. rewrite zlen_app. done.
  - intros [= <- <-]. destruct (expand_room q l Hq Ho Hb) as (H1 & H2 & H3).
    eexists. split; [reflexivity|]. unfold sc_queue_add_first. rewrite H3.
    split; [by apply add_first_room|]. rewrite zlen_cons. split; [done|lia].
  - destruct (reverse l) as [|x r'] eqn:E; [done|]. intros [= <- <-].
    assert (El : l = reverse r' ++ [x]) by (by rewrite <- (reverse_involutive l), E, reverse_cons).
    rewrite El in Hq |- *. destruct (sc_queue_del_last_spec q (reverse r') x Hq) as (H1 & H2 & H3).
    destruct (sc_queue_del_last q) as [y q']. cbn [fst snd] in *. subst y. exists q'.
    rewrite zlen_app. change (zlen [x]) with 1. split_and!; [done|done|congruence|lia].
  - destruct l as [|x l1]; [done|]. intros [= <- <-].
    destruct (sc_queue_del_first_spec q l1 x Hq) as (H1 & H2 & H3).
    destruct (sc_queue_del_first q) as [y q']. cbn [fst snd] in *. subst y. exists q'.
    rewrite zlen_cons. split_and!; [done|done|congruence|lia].
  - intros [= <- <-]. eexists. split; [reflexivity|]. split; [by apply (sc_queue_clear_spec q l)|].
    pose proof (zlen_nonneg l). split; [done|]. change (zlen []) with 0. lia.
Qed.

(** C28: a ring buffer is a double-ended queue.  As long as allocations succeed,
    any sequence of additions and removals at both ends and clears, none of them
    removing from the empty queue, returns what the same operations on a list
    return, across wrap-around and expansion, and the size and the emptiness test
    are those of the list. *)
Theorem sc_queue_refines q l ops rs l' :
  queue_is q l -> q_oom q = false -> zlen l + zlen ops < 2 ^ 63 ->
  list_run l ops = Some (rs, l') ->
  exists q', queue_run q ops = (rs, q') /\ queue_is q' l' /\
    sc_queue_size q' = zlen l' /\ sc_queue_empty q' = bool_decide (l' = []).
Proof.
  revert q l rs. induction ops as [|op ops IH]; intros q l rs Hq Ho Hb Hr; simpl in Hr.
  - injection Hr as <- <-. exists q. split; [done|]. split; [done|].
    split; [by apply sc_queue_size_spec|by apply sc_queue_empty_spec].
  - rewrite zlen_cons in Hb. pose proof (zlen_nonneg ops).
    destruct (list_exec l op) as [[r l1]|] eqn:E; [|done].
    destruct (queue_exec_spec q l op r l1 Hq Ho ltac:(lia) E) as (q1 & He & Hq1 & Ho1 & Hl1).
    destruct (list_run l1 ops) as [[rs1 l2]|] eqn:Er; [|done]. injection Hr as <- <-.
    destruct (IH q1 l1 rs1 Hq1 Ho1 ltac:(lia) Er) as (q' & Hr' & Hq' & Hs').
    exists q'. simpl. by rewrite He, Hr'.
Qed.

(** A failed expansion blocks the queue.  When an addition to a full queue
    fails for lack of memory, the error flag stays set; after a removal has made
    room, a further addition that needs no memory at all is still refused. *)
Lemma sc_queue_oom_sticks q x l y z :
  queue_is q (x :: l) -> zlen (x :: l) + 1 = q_cap q ->
  let q1 := sc_queue_add_last false q y in
  let q2 := snd (sc_queue_del_first q1) in
  let q3 := sc_queue_add_last true q2 z in
  queue_is q1 (x :: l) /\ queue_is q2 l /\ zlen l + 1 < q_cap q2 /\ q_oom q3 = true /\ queue_is q3 l.
Proof.
  intros Hq Hfull. cbv zeta.
  destruct (sc_queue_expand_spec false q (x :: l) Hq) as [(_ & Hlt & _)|(_ & Hq1 & Ho1 & _)].
  - exfalso. revert Hlt. unfold sc_queue_expand. cbn [negb]. repeat case_if; simpl; lia.
  - assert (E1 : sc_queue_add_last false q y = sc_queue_expand false q)
      by (unfold sc_queue_add_last; by rewrite Ho1).
    rewrite E1. assert (Ecap : q_cap (sc_queue_expand false q) = q_cap q)
      by (unfold sc_queue_expand; cbn [negb]; repeat case_if; done).
    destruct (sc_queue_del_first_spec _ l x Hq1) as (_ & Hq2 & Ho2). rewrite Ho1 in Ho2.
    assert (Ecap2 : q_cap (snd (sc_queue_del_first (sc_queue_expand false q))) = q_cap q) by done.
    generalize dependent (snd (sc_queue_del_first (sc_queue_expand false q))). intros q2 Hq2 Ho2 Ecap2.
    rewrite zlen_cons in Hfull.
    assert (E3 : sc_queue_add_last true q2 z = q2).
    { unfold sc_queue_add_last. assert (En : sc_queue_expand true q2 = q2); [|by rewrite En, Ho2].
      pose proof Hq2 as [_ _ Hf Hs Hl _]. pose proof (queue_cap_pos _ _ Hq2). pose proof (zlen_nonneg l).
      unfold sc_queue_expand. rewrite (queue_mask q2 l _ Hq2), Hl, ring_next, ring_small by lia.
      rewrite (if_false (_ =? _)); [done|]. apply Z.eqb_neq. case_if; lia. }
    rewrite E3. split_and!; [done|done|lia|done|done].
Qed.
End sc_queue.

Definition demo_queue_ops : list (queue_op (T := Z)) :=
  [QAddLast 1; QAddLast 2; QAddFirst 0; QDelFirst; QDelLast] ++
  map QAddLast (map Z.of_nat (seq 10 12)) ++ [QDelFirst; QDelLast].

Lemma sc_queue_refines_witness :
  exists q', queue_run 0 (sc_queue_init 0 true) demo_queue_ops =
      ([None; None; None; Some 0; Some 2] ++ replicate 12 None ++ [Some 1; Some 21], q') /\
    queue_is 0 q' (map Z.of_nat (seq 10 11)) /\ sc_queue_size q' = 11 /\ sc_queue_empty q' = false.
Proof.
  apply (sc_queue_refines 0 (sc_queue_init 0 true) [] demo_queue_ops _ (map Z.of_nat (seq 10 11))).
  - apply sc_queue_init_spec.
  - reflexivity.
  - reflexivity.
  - reflexivity.
Defined.

Lemma sc_queue_oom_sticks_witness :
  let q := snd (queue_run 0 (sc_queue_init 0 true) (map QAddLast [1; 2; 3; 4; 5; 6; 7])) in
  let q2 := snd (sc_queue_del_first 0 (sc_queue_add_last 0 false q 8)) in
  sc_queue_size q2 = 6 /\ q_cap q2 = 8 /\ q_oom (sc_queue_add_last 0 true q2 8) = true.
Proof.
  intros q q2. split; [reflexivity|]. split; [reflexivity|].
  destruct (sc_queue_oom_sticks 0 q 1 [2; 3; 4; 5; 6; 7] 8 8) as (_ & _ & _ & H & _).
  - split; [by exists 3|reflexivity|by split|reflexivity|reflexivity|].
    intros i x. do 7 (destruct i as [|i]; [intros [= <-]; reflexivity|]). done.
  - reflexivity.
  - exact H.
Defined.

(** ** Growing arrays *)

Section sc_array.
Context {T : Type} (zero : T).

(** The size of an element, as in [sizeof( *(a)->elems)]. *)
Variable sizeof : Z.

Record sc_array := mk_array {
  a_oom : bool;
  a_cap : Z;
  a_size : Z;
  a_elems : list T
}.

Definition SC_ARRAY_MAX : Z := SIZE_MAX.

Definition sc_array_init : sc_array := mk_array false 0 0 [].

Definition sc_array_term (a : sc_array) : sc_array := sc_array_init.

(** [realloc] to [n] elements: the common prefix is kept. *)
Definition realloc (l : list T) (n : Z) : list T :=
  take (Z.to_nat n) l ++ replicate (Z.to_nat n - length l) zero.

Definition sc_array_add (alloc_ok : bool) (a : sc_array) (k : T) : sc_array :=
  let max := SC_ARRAY_MAX / sizeof in
  let put := fun a =>
    mk_array false (a_cap a) (a_size a + 1) (<[Z.to_nat (a_size a) := k]> (a_elems a)) in
  let oom := mk_array true (a_cap a) (a_size a) (a_elems a) in
  if a_cap a =? a_size a then
    if a_cap a >? max / 2 then oom
    else
      let cap := if a_cap a =? 0 then 8 else a_cap a * 2 in
      if negb alloc_ok then oom
      else put (mk_array (a_oom a) cap (a_size a) (realloc (a_elems a) cap))
  else put a.

(** The capacity is reset with the size: the next addition reallocates. *)
Definition sc_array_clear (a : sc_array) : sc_array := mk_array false 0 0 (a_elems a).

Definition sc_array_at (a : sc_array) (i : Z) : T := default zero (a_elems a !! Z.to_nat i).

(** [None]: the assertion on the index fails. *)
Definition sc_array_del (a : sc_array) (i : Z) : option sc_array :=
  if negb (i <? a_size a) then None
  else
    let cnt := a_size a - i - 1 in
    let elems :=
      if cnt >? 0 then
        take (Z.to_nat i) (a_elems a) ++ take (Z.to_nat cnt) (drop (Z.to_nat (i + 1)) (a_elems a)) ++
        drop (Z.to_nat (i + cnt)) (a_elems a)
      else a_elems a in
    Some (mk_array (a_oom a) (a_cap a) (a_size a - 1) elems).

Definition sc_array_del_unordered (a : sc_array) (i : Z) : option sc_array :=
  if negb (i <? a_size a) then None
  else
    let size := a_size a - 1 in
    Some (mk_array (a_oom a) (a_cap a) size (<[Z.to_nat i := sc_array_at a size]> (a_elems a))).

Definition sc_array_del_last (a : sc_array) : option sc_array :=
  if a_size a =? 0 then None
  else Some (mk_array (a_oom a) (a_cap a) (a_size a - 1) (a_elems a)).

Definition sc_array_last (a : sc_array) : T := sc_array_at a (a_size a - 1).

Record array_is (a : sc_array) (l : list T) : Prop := {
  ai_size : a_size a = zlen l;
  ai_cap : a_size a <= a_cap a <= zlen (a_elems a);
  ai_elems : take (length l) (a_elems a) = l
}.

Lemma array_prefix a l : array_is a l -> exists r, a_elems a = l ++ r.
Proof.
  intros [_ _ E]. exists (drop (length l) (a_elems a)). pose proof (take_drop (length l) (a_elems a)) as H.
  by rewrite E in H.
Qed.

Lemma array_split a l :
  (exists r, a_elems a = l ++ r) -> a_size a = zlen l -> a_size a <= a_cap a <= zlen (a_elems a) ->
  array_is a l.
Proof. intros [r E] Hs Hc. split; [done..|]. rewrite E. by apply take_app_length. Qed.

Lemma sc_array_add_spec ok a l k :
  array_is a l ->
  (array_is (sc_array_add ok a k) (l ++ [k]) /\ a_oom (sc_array_add ok a k) = false) \/
  (array_is (sc_array_add ok a k) l /\ a_oom (sc_array_add ok a k) = true /\
   (ok = false \/ SC_ARRAY_MAX / sizeof / 2 < zlen l)).
Proof.
  intros Ha. destruct (array_prefix a l Ha) as [r Er]. pose proof Ha as [Hs Hc _].
  assert (Hput : forall a', (exists r', a_elems a' = l ++ r') -> a_size a' = zlen l ->
    zlen l < a_cap a' <= zlen (a_elems a') ->
    array_is (mk_array false (a_cap a') (a_size a' + 1) (<[Z.to_nat (a_size a') := k]> (a_elems a'))) (l ++ [k])).
  { intros a' [r' E'] Hs' Hc'. apply array_split; simpl.
    - rewrite E', Hs' in *. unfold zlen in *. rewrite Nat2Z.id, insert_app_r_alt, Nat.sub_diag by lia.
      rewrite length_app in Hc'. destruct r' as [|y r']; [simpl in Hc'; lia|].
      exists r'. by rewrite <- app_assoc.
    - rewrite zlen_app, Hs'. done.
    - unfold zlen in *. rewrite length_insert. lia. }
  unfold sc_array_add. destruct (Z.eqb_spec (a_cap a) (a_size a)) as [E|E].
  2: { left. split; [|done]. apply Hput; [by exists r|done|lia]. }
  destruct (a_cap a >? SC_ARRAY_MAX / sizeof / 2) eqn:Eb; zb.
  { right. split; [by apply array_split; [exists r|..]|]. split; [done|]. right. lia. }
  destruct ok; cbn [negb]; [left|right; split; [by apply array_split; [exists r|..]|auto]].
  split; [|done]. pose proof (zlen_nonneg l).
  assert (Hcap : a_cap a < (if a_cap a =? 0 then 8 else a_cap a * 2)) by (case_if; lia).
  set (cap := if a_cap a =? 0 then 8 else a_cap a * 2) in *.
  apply (Hput (mk_array (a_oom a) cap (a_size a) (realloc (a_elems a) cap))); simpl; [|done|].
  - unfold realloc. rewrite Er, take_app_ge, <- app_assoc by (unfold zlen in *; lia). by eexists.
  - split; [lia|]. unfold realloc, zlen in *. rewrite length_app, length_take, length_replicate. lia.
Qed.

Lemma sc_array_at_spec a l i x : array_is a l -> l !! i = Some x -> sc_array_at a (Z.of_nat i) = x.
Proof.
  intros Ha Hi. destruct (array_prefix a l Ha) as [r E]. unfold sc_array_at.
  by rewrite Nat2Z.id, E, lookup_app_l, Hi by (by apply lookup_lt_Some in Hi).
Qed.

Lemma sc_array_del_spec a l1 x l2 :
  array_is a (l1 ++ x :: l2) ->
  exists a', sc_array_del a (zlen l1) = Some a' /\ array_is a' (l1 ++ l2) /\ a_oom a' = a_oom a.
Proof.
  intros Ha. destruct (array_prefix a _ Ha) as [r Er]. pose proof Ha as [Hs Hc _].
  rewrite zlen_app, zlen_cons in Hs. pose proof (zlen_nonneg l1). pose proof (zlen_nonneg l2).
  unfold sc_array_del. rewrite (if_false (negb _)) by (apply negb_false_iff; zbool_solve).
  eexists. split; [reflexivity|]. split; [|done].
  replace (a_size a - zlen l1 - 1) with (zlen l2) by lia.
  apply array_split; simpl; [|rewrite zlen_app; lia|].
  - rewrite Er. destruct (zlen l2 >? 0) eqn:E; zb.
    + unfold zlen. rewrite !Nat2Z.id, <- app_assoc. exists (drop (length l1 + length l2) (l1 ++ (x :: l2) ++ r)).
      rewrite take_app_length, drop_app_ge by lia.
      replace (Z.to_nat (Z.of_nat (length l1) + 1) - length l1)%nat with 1%nat by lia.
      change (drop 1 ((x :: l2) ++ r)) with (l2 ++ r). rewrite take_app_length, <- !app_assoc.
      do 3 f_equal. lia.
    + destruct l2; [|rewrite zlen_cons in *; pose proof (zlen_nonneg l2); lia].
      exists (x :: r). by rewrite app_nil_r, <- app_assoc.
  - assert (Hz : zlen (if zlen l2 >? 0 then
      take (Z.to_nat (zlen l1)) (a_elems a) ++
      take (Z.to_nat (zlen l2)) (drop (Z.to_nat (zlen l1 + 1)) (a_elems a)) ++
      drop (Z.to_nat (zlen l1 + zlen l2)) (a_elems a) else a_elems a) = zlen (a_elems a)).
    { case_if; [|done]. unfold zlen in *. rewrite !length_app, !length_take, !length_drop. lia. }
    rewrite Hz. lia.
Qed.

Lemma sc_array_del_unordered_spec a l1 x l2 y :
  array_is a (l1 ++ x :: l2 ++ [y]) ->
  exists a', sc_array_del_unordered a (zlen l1) = Some a' /\ array_is a' (l1 ++ y :: l2).
Proof.
  intros Ha. destruct (array_prefix a _ Ha) as [r Er]. pose proof Ha as [Hs Hc _].
  rewrite zlen_app, zlen_cons, zlen_app in Hs. change (zlen [y]) with 1 in Hs.
  pose proof (zlen_nonneg l1). pose proof (zlen_nonneg l2).
  unfold sc_array_del_unordered. rewrite (if_false (negb _)) by (apply negb_false_iff; zbool_solve).
  eexists. split; [reflexivity|].
  assert (Hy : sc_array_at a (a_size a - 1) = y).
  { replace (a_size a - 1) with (Z.of_nat (length l1 + S (length l2))) by (unfold zlen in *; lia).
    apply (sc_array_at_spec a _ _ _ Ha). rewrite lookup_app_r by lia.
    replace (length l1 + S (length l2) - length l1)%nat with (S (length l2)) by lia. simpl.
    by rewrite lookup_app_r, Nat.sub_diag by lia. }
  rewrite Hy. apply array_split; simpl.
  - rewrite Er. unfold zlen. rewrite Nat2Z.id, <- app_assoc, insert_app_r_alt, Nat.sub_diag by lia.
    simpl. rewrite <- app_assoc. exists (y :: r). by rewrite <- app_assoc.
  - rewrite zlen_app, zlen_cons. lia.
  - unfold zlen in *. rewrite length_insert. lia.
Qed.

Lemma sc_array_del_last_spec a l x :
  array_is a (l ++ [x]) -> exists a', sc_array_del_last a = Some a' /\ array_is a' l.
Proof.
  intros Ha. destruct (array_prefix a _ Ha) as [r Er]. pose proof Ha as [Hs Hc _].
  rewrite zlen_app in Hs. change (zlen [x]) with 1 in Hs. pose proof (zlen_nonneg l).
  unfold sc_array_del_last. rewrite if_false by zbool_solve. eexists. split; [reflexivity|].
  apply array_split; simpl; [|lia|lia]. exists ([x] ++ r). by rewrite app_assoc.
Qed.

Lemma sc_array_clear_spec a l : array_is a l -> array_is (sc_array_clear a) [].
Proof. intros Ha. split; simpl; [done| |done]. pose proof (zlen_nonneg (a_elems a)). lia. Qed.
End sc_array.
