(* ===== verification/Dlist.v ===== *)
(** * Intrusive doubly linked lists (lib/sc/sc_list.c)

    Nodes are embedded in the structures they link (sessions, clients, peers,
    connections), and a node can be moved from one list to another at any time.
    The model is therefore a heap of links shared by all lists: a list is a ring
    of nodes through its head.  The operations are the pointer assignments of the
    source; the theorem says what they do to all the lists of the heap at once. *)

From Stdlib Require Import ZArith Lia.
From stdpp Require Import base list numbers.
From S2P Require Import Prelude.

(** [struct sc_list]: the links of a node; nodes are named by their address. *)
Record sc_list := mk_link {
  l_next : Z;
  l_prev : Z
}.

Definition heap : Type := Z -> sc_list.

(** [n->next = v] and [n->prev = v] *)
Definition set_next (h : heap) (n v : Z) : heap :=
  fun m => if m =? n then mk_link v (l_prev (h m)) else h m.
Definition set_prev (h : heap) (n v : Z) : heap :=
  fun m => if m =? n then mk_link (l_next (h m)) v else h m.

Definition sc_list_init (h : heap) (l : Z) : heap :=
  let h := set_next h l l in
  set_prev h l l.

Definition sc_list_del (h : heap) (elem : Z) : heap :=
  let h := set_next h (l_prev (h elem)) (l_next (h elem)) in
  let h := set_prev h (l_next (h elem)) (l_prev (h elem)) in
  let h := set_next h elem elem in
  set_prev h elem elem.

Definition sc_list_is_empty (h : heap) (l : Z) : bool := l_next (h l) =? l.

(** [sc_list_foreach]: from the node behind the head until the head is reached;
    [None] when the fuel is too small. *)
Fixpoint foreach_from (fuel : nat) (h : heap) (l n : Z) : option (list Z) :=
  match fuel with
  | O => None
  | S fuel =>
      if n =? l then Some []
      else match foreach_from fuel h l (l_next (h n)) with
           | None => None
           | Some r => Some (n :: r)
           end
  end.

Definition sc_list_foreach (fuel : nat) (h : heap) (l : Z) : option (list Z) :=
  foreach_from fuel h l (l_next (h l)).

Definition sc_list_count (fuel : nat) (h : heap) (l : Z) : option Z :=
  match sc_list_foreach fuel h l with None => None | Some r => Some (zlen r) end.

(** [sc_list_foreach_safe] with a deletion: the next node is read before the
    current one is deleted. *)
Fixpoint clear_from (fuel : nat) (h : heap) (l n : Z) : option heap :=
  match fuel with
  | O => None
  | S fuel =>
      if n =? l then Some h
      else
        let tmp := l_next (h n) in
        clear_from fuel (sc_list_del h n) l tmp
  end.

Definition sc_list_clear (fuel : nat) (h : heap) (l : Z) : option heap :=
  clear_from fuel h l (l_next (h l)).

(** [None] is the null pointer. *)
Definition sc_list_head (h : heap) (l : Z) : option Z :=
  if negb (l_next (h l) =? l) then Some (l_next (h l)) else None.
Definition sc_list_tail (h : heap) (l : Z) : option Z :=
  if negb (l_prev (h l) =? l) then Some (l_prev (h l)) else None.

Definition sc_list_add_tail (h : heap) (l elem : Z) : heap :=
  let h := sc_list_del h elem in
  let prev := l_prev (h l) in
  let h := set_prev h l elem in
  let h := set_next h elem l in
  let h := set_prev h elem prev in
  set_next h prev elem.

Definition sc_list_pop_tail (h : heap) (l : Z) : option Z * heap :=
  let tail := l_prev (h l) in
  if sc_list_is_empty h l then (None, h)
  else (Some tail, sc_list_del h (l_prev (h l))).

Definition sc_list_add_head (h : heap) (l elem : Z) : heap :=
  let h := sc_list_del h elem in
  let next := l_next (h l) in
  let h := set_next h l elem in
  let h := set_prev h elem l in
  let h := set_next h elem next in
  set_prev h next elem.

Definition sc_list_pop_head (h : heap) (l : Z) : option Z * heap :=
  let head := l_next (h l) in
  if sc_list_is_empty h l then (None, h)
  else (Some head, sc_list_del h (l_next (h l))).

Definition sc_list_add_after (h : heap) (prev elem : Z) : heap :=
  let h := sc_list_del h elem in
  let next := l_next (h prev) in
  let h := set_next h prev elem in
  let h := set_next h elem next in
  let h := set_prev h elem prev in
  set_prev h next elem.

Definition sc_list_add_before (h : heap) (next elem : Z) : heap :=
  let h := sc_list_del h elem in
  let prev := l_prev (h next) in
  let h := set_prev h next elem in
  let h := set_next h elem next in
  let h := set_prev h elem prev in
  set_next h prev elem.

(** ** Links *)

Lemma next_set_next h n v m : l_next (set_next h n v m) = if m =? n then v else l_next (h m).
Proof. unfold set_next. by case_if. Qed.
Lemma prev_set_next h n v m : l_prev (set_next h n v m) = l_prev (h m).
Proof. unfold set_next. by case_if. Qed.
Lemma next_set_prev h n v m : l_next (set_prev h n v m) = l_next (h m).
Proof. unfold set_prev. by case_if. Qed.
Lemma prev_set_prev h n v m : l_prev (set_prev h n v m) = if m =? n then v else l_prev (h m).
Proof. unfold set_prev. by case_if. Qed.

Create Rewrite HintDb links.
#[local] Hint Rewrite next_set_next prev_set_next next_set_prev prev_set_prev : links.

Definition link (h : heap) (a b : Z) : Prop := l_next (h a) = b /\ l_prev (h b) = a.

(** Neighbours of the sequence are linked. *)
Fixpoint adj (h : heap) (c : list Z) : Prop :=
  match c with
  | a :: ((b :: _) as r) => link h a b /\ adj h r
  | _ => True
  end.

Lemma adj_app h c x d : adj h (c ++ x :: d) <-> adj h (c ++ [x]) /\ adj h (x :: d).
Proof.
  induction c as [|a c IH]; simpl.
  - split; [by intros|by intros [_ ?]].
  - destruct c as [|b c]; simpl in *; [tauto|]. rewrite IH. tauto.
Qed.

(** The links a sequence depends on: forward from all but the last node,
    backward from all but the first. *)
Lemma adj_frame h h' c :
  (forall a r, c = r ++ [a] -> forall x, x ∈ r -> l_next (h' x) = l_next (h x)) ->
  (forall a r, c = a :: r -> forall x, x ∈ r -> l_prev (h' x) = l_prev (h x)) ->
  adj h c -> adj h' c.
Proof.
  induction c as [|a c IH]; [done|]. intros Hn Hp Ha. destruct c as [|b c]; [done|].
  destruct Ha as [[H1 H2] Ha].
  split.
  - split.
    + destruct (exists_last (l := b :: c)) as (r & z & E); [done|].
      rewrite (Hn z (a :: r)); [done|by rewrite E|left].
    + rewrite (Hp a (b :: c)); [done|done|left].
  - apply IH; [| |done].
    + intros z r E x Hx. apply (Hn z (a :: r)); [by rewrite E|by right].
    + intros z r E x Hx. apply (Hp a (b :: c)); [done|]. injection E as -> ->. by right.
Qed.

(** ** Rings *)

(** The list with head [l] and members [xs]. *)
Definition ring (h : heap) (l : Z) (xs : list Z) : Prop := adj h (l :: xs ++ [l]).

Lemma ring_frame h h' l xs :
  (forall x, x ∈ l :: xs -> h' x = h x) -> ring h l xs -> ring h' l xs.
Proof.
  intros Hf. apply adj_frame.
  - intros a r E x Hx. rewrite app_comm_cons in E. apply app_inj_tail in E as [<- _]. by rewrite Hf.
  - intros a r [= <- <-] x Hx. rewrite elem_of_app, list_elem_of_singleton in Hx.
    rewrite Hf; [done|]. rewrite elem_of_cons. tauto.
Qed.

(** The neighbours of a member of a ring. *)
Lemma ring_split h l xs e ys :
  ring h l (xs ++ e :: ys) ->
  exists u p n w, l :: xs = u ++ [p] /\ ys ++ [l] = n :: w /\
    link h p e /\ link h e n /\ adj h (u ++ [p]) /\ adj h (n :: w).
Proof.
  unfold ring. intros Ha. destruct (exists_last (l := l :: xs)) as (u & p & Eu); [done|].
  destruct (ys ++ [l]) as [|n w] eqn:Ew; [by destruct ys|].
  exists u, p, n, w. split; [done|]. split; [done|].
  replace (l :: (xs ++ e :: ys) ++ [l]) with (u ++ p :: e :: n :: w) in Ha.
  - apply adj_app in Ha as [H1 H2]. destruct H2 as [H2 [H3 H4]]. done.
  - rewrite <- app_assoc. cbn [app]. rewrite Ew, app_comm_cons, Eu, <- app_assoc. done.
Qed.

Ltac links := autorewrite with links; repeat case_if; try congruence.

Lemma elem_of_split_nodup (l : Z) xs e ys u p n w :
  NoDup (l :: xs ++ e :: ys) -> l :: xs = u ++ [p] -> ys ++ [l] = n :: w ->
  p <> e /\ n <> e /\ p ∈ l :: xs /\ (n = l \/ n ∈ ys).
Proof.
  intros Hnd Eu Ew. assert (Hp : p ∈ l :: xs) by (rewrite Eu; apply elem_of_app; right; left).
  assert (Hn : n = l \/ n ∈ ys).
  { assert (H : n ∈ ys ++ [l]) by (rewrite Ew; left).
    rewrite elem_of_app, list_elem_of_singleton in H. tauto. }
  rewrite app_comm_cons in Hnd. apply list.NoDup_app in Hnd as (_ & Hd & He).
  apply list.NoDup_cons in He as [He _].
  assert (Hle : l <> e) by (intros ->; apply (Hd e); left).
  split_and!; [intros ->; apply (Hd e); [done|left]| |done|done].
  intros ->. destruct Hn as [->|]; done.
Qed.

(** The four assignments of the deletion, for a node between [p] and [n]. *)
Lemma sc_list_del_links h p e n :
  link h p e -> link h e n -> p <> e -> n <> e -> forall m,
  sc_list_del h e m =
    mk_link (if m =? e then e else if m =? p then n else l_next (h m))
            (if m =? e then e else if m =? n then p else l_prev (h m)).
Proof.
  intros [H1 H1'] [H2 H2'] Hpe Hne m. unfold sc_list_del. rewrite H1', H2.
  assert (E1 : l_next (set_next h p n e) = n) by links.
  assert (E2 : l_prev (set_next h p n e) = p) by links. rewrite E1, E2.
  assert (Hx : forall q : sc_list, q = mk_link (l_next q) (l_prev q)) by (by intros []).
  rewrite (Hx (set_prev _ _ _ m)). f_equal; links.
Qed.

(** A change of the heap that touches only a node [e], the forward link of its
    neighbour [p] and the backward link of its neighbour [n]. *)
Section splice.
Variables (h h' : heap) (l : Z) (xs : list Z) (e : Z) (ys : list Z) (u : list Z) (p n : Z) (w : list Z).
Hypothesis Hnd : NoDup (l :: xs ++ e :: ys).
Hypothesis Eu : l :: xs = u ++ [p].
Hypothesis Ew : ys ++ [l] = n :: w.
Hypothesis Hnext : forall m, m <> e -> m <> p -> l_next (h' m) = l_next (h m).
Hypothesis Hprev : forall m, m <> e -> m <> n -> l_prev (h' m) = l_prev (h m).

Lemma splice_prefix : adj h (u ++ [p]) -> adj h' (u ++ [p]).
Proof.
  destruct (elem_of_split_nodup l xs e ys u p n w Hnd Eu Ew) as (_ & _ & _ & Hn).
  apply adj_frame.
  - intros a r E x Hx. apply app_inj_tail in E as [<- <-].
    assert (Hxl : x ∈ l :: xs) by (rewrite Eu; apply elem_of_app; by left).
    pose proof Hnd as Hnd'. rewrite app_comm_cons in Hnd'.
    apply list.NoDup_app in Hnd' as (Hnd' & Hd & _).
    rewrite Eu in Hnd'. apply list.NoDup_app in Hnd' as (_ & Hd2 & _).
    assert (x <> e) by (intros E; destruct (Hd x Hxl); rewrite E; left).
    assert (x <> p) by (intros E; destruct (Hd2 x Hx); rewrite E; left).
    auto.
  - intros a r E x Hx. rewrite <- Eu in E. injection E as <- <-.
    pose proof Hnd as Hnd'. apply list.NoDup_cons in Hnd' as [Hl Hnd'].
    apply list.NoDup_app in Hnd' as (_ & Hd & Hy).
    assert (x <> e) by (intros E; destruct (Hd x Hx); rewrite E; left).
    assert (x <> n).
    { intros E. destruct Hn as [Hn|Hn].
      - destruct Hl. apply elem_of_app. left. congruence.
      - destruct (Hd x Hx). right. congruence. }
    auto.
Qed.

Lemma splice_suffix : adj h (n :: w) -> adj h' (n :: w).
Proof.
  destruct (elem_of_split_nodup l xs e ys u p n w Hnd Eu Ew) as (_ & _ & Hp & _).
  pose proof Hnd as Hnd'. apply list.NoDup_cons in Hnd' as [Hl Hnd'].
  apply list.NoDup_app in Hnd' as (_ & Hd & Hy). apply list.NoDup_cons in Hy as [He Hy].
  assert (Hln : l ∉ ys) by (intros Hin; apply Hl, elem_of_app; right; by right).
  rewrite <- Ew. apply adj_frame.
  - intros a r E x Hx. apply app_inj_tail in E as [<- <-].
    assert (x <> e) by congruence.
    assert (x <> p).
    { intros E. apply elem_of_cons in Hp as [Hp|Hp]; [congruence|].
      destruct (Hd p Hp). right. congruence. }
    auto.
  - intros a r E x Hx. rewrite Ew in E. injection E as <- <-.
    assert (Hndw : NoDup (n :: w)).
    { rewrite <- Ew. apply list.NoDup_app. split_and!; [done| |by apply NoDup_singleton].
      intros y Hy' ->%list_elem_of_singleton. done. }
    apply list.NoDup_cons in Hndw as [Hnw _]. assert (x <> n) by congruence.
    assert (x <> e).
    { intros E. assert (Hin : x ∈ ys ++ [l]) by (rewrite Ew; by right).
      apply elem_of_app in Hin as [|Hin%list_elem_of_singleton]; [congruence|].
      destruct Hl. apply elem_of_app. right. rewrite <- Hin, E. left. }
    auto.
Qed.
End splice.

(** Deletion takes the node out of its ring and leaves all others alone. *)
Lemma sc_list_del_ring h l xs e ys :
  NoDup (l :: xs ++ e :: ys) -> ring h l (xs ++ e :: ys) ->
  ring (sc_list_del h e) l (xs ++ ys) /\ sc_list_del h e e = mk_link e e /\
  forall m, m ∉ l :: xs ++ e :: ys -> sc_list_del h e m = h m.
Proof.
  intros Hnd Hr. destruct (ring_split _ _ _ _ _ Hr) as (u & p & n & w & Eu & Ew & H1 & H2 & H3 & H4).
  destruct (elem_of_split_nodup l xs e ys u p n w Hnd Eu Ew) as (Hpe & Hne & Hp & Hn).
  pose proof (sc_list_del_links h p e n H1 H2 Hpe Hne) as Hdel. split_and!.
  - unfold ring. replace (l :: (xs ++ ys) ++ [l]) with (u ++ p :: n :: w)
      by (rewrite <- app_assoc, Ew, app_comm_cons, Eu, <- app_assoc; done).
    assert (Hfn : forall m, m <> e -> m <> p -> l_next (sc_list_del h e m) = l_next (h m))
      by (intros m; rewrite Hdel; simpl; intros; repeat case_if; done).
    assert (Hfp : forall m, m <> e -> m <> n -> l_prev (sc_list_del h e m) = l_prev (h m))
      by (intros m; rewrite Hdel; simpl; intros; repeat case_if; done).
    apply adj_app. split; [by apply (splice_prefix h _ l xs e ys u p n w)|].
    split; [|by apply (splice_suffix h _ l xs e ys u p n w)].
    split; rewrite Hdel; simpl; repeat case_if; congruence.
  - rewrite Hdel. by rewrite Z.eqb_refl.
  - intros m Hm. rewrite Hdel. rewrite app_comm_cons in Hm. apply not_elem_of_app in Hm as [Hm1 Hm2].
    apply not_elem_of_cons in Hm1 as [Hm0 Hm1]. apply not_elem_of_cons in Hm2 as [Hm2 Hm3].
    assert (m <> p) by (intros E; apply elem_of_cons in Hp as [|]; congruence).
    assert (m <> n) by (intros E; destruct Hn; congruence).
    destruct (h m) as [a b]. simpl. f_equal; repeat case_if; done.
Qed.

(** A node linked to itself stays as it is. *)
Lemma sc_list_del_self h e : h e = mk_link e e -> forall m, sc_list_del h e m = h m.
Proof.
  intros E m. unfold sc_list_del. rewrite E. cbn [l_next l_prev].
  assert (E1 : l_next (set_next h e e e) = e) by (by links).
  assert (E2 : l_prev (set_next h e e e) = e) by (rewrite prev_set_next, E; done). rewrite E1, E2.
  assert (Hx : forall q : sc_list, q = mk_link (l_next q) (l_prev q)) by (by intros []).
  rewrite (Hx (set_prev _ _ _ m)), (Hx (h m)). f_equal; links; by subst; rewrite E.
Qed.

(** Linking a detached node between two neighbours of a ring. *)
Definition inserted (h : heap) (p e n : Z) (h' : heap) : Prop := forall m, h' m =
  mk_link (if m =? e then n else if m =? p then e else l_next (h m))
          (if m =? e then p else if m =? n then e else l_prev (h m)).

Lemma ring_insert h h' l xs e ys u p n w :
  NoDup (l :: xs ++ e :: ys) -> ring h l (xs ++ ys) ->
  l :: xs = u ++ [p] -> ys ++ [l] = n :: w -> inserted h p e n h' ->
  ring h' l (xs ++ e :: ys) /\ forall m, m ∉ l :: xs ++ e :: ys -> h' m = h m.
Proof.
  intros Hnd Hr Eu Ew Hi. destruct (elem_of_split_nodup l xs e ys u p n w Hnd Eu Ew) as (Hpe & Hne & Hp & Hn).
  assert (Hfn : forall m, m <> e -> m <> p -> l_next (h' m) = l_next (h m))
    by (intros m; rewrite Hi; simpl; intros; repeat case_if; done).
  assert (Hfp : forall m, m <> e -> m <> n -> l_prev (h' m) = l_prev (h m))
    by (intros m; rewrite Hi; simpl; intros; repeat case_if; done).
  split.
  - unfold ring in *. replace (l :: (xs ++ ys) ++ [l]) with (u ++ p :: n :: w) in Hr
      by (rewrite <- app_assoc, Ew, app_comm_cons, Eu, <- app_assoc; done).
    replace (l :: (xs ++ e :: ys) ++ [l]) with (u ++ p :: e :: n :: w)
      by (rewrite <- app_assoc; cbn [app]; rewrite Ew, app_comm_cons, Eu, <- app_assoc; done).
    apply adj_app in Hr as [H1 [H2 H3]]. apply adj_app.
    split; [by apply (splice_prefix h _ l xs e ys u p n w)|].
    split; [|split; [|by apply (splice_suffix h _ l xs e ys u p n w)]].
    + split; rewrite Hi; simpl; repeat case_if; congruence.
    + split; rewrite Hi; simpl; repeat case_if; congruence.
  - intros m Hm. rewrite Hi. rewrite app_comm_cons in Hm. apply not_elem_of_app in Hm as [Hm1 Hm2].
    apply not_elem_of_cons in Hm1 as [Hm0 Hm1]. apply not_elem_of_cons in Hm2 as [Hm2 Hm3].
    assert (m <> p) by (intros E; apply elem_of_cons in Hp as [|]; congruence).
    assert (m <> n) by (intros E; destruct Hn; congruence).
    destruct (h m) as [a b]. simpl. f_equal; repeat case_if; done.
Qed.

Lemma ring_ends h l xs :
  ring h l xs ->
  (exists w, xs ++ [l] = l_next (h l) :: w) /\ (exists u, l :: xs = u ++ [l_prev (h l)]).
Proof.
  unfold ring. intros Ha. split.
  - destruct (xs ++ [l]) as [|n w] eqn:E; [by destruct xs|]. destruct Ha as [[<- _] _]. by exists w.
  - destruct (exists_last (l := l :: xs)) as (u & p & E); [done|].
    rewrite app_comm_cons, E, <- app_assoc in Ha. apply adj_app in Ha as [_ [[_ Hp] _]].
    exists u. by rewrite E, Hp.
Qed.

(** ** All lists of the heap *)

(** The lists of the heap: heads with their members.  All other nodes are linked
    to themselves, as [sc_list_init] and [sc_list_del] leave them. *)
Definition nodes (L : list (Z * list Z)) : list Z := concat (map (fun lx => fst lx :: snd lx) L).

Record lists_are (h : heap) (L : list (Z * list Z)) : Prop := {
  la_nodup : NoDup (nodes L);
  la_ring : forall l xs, (l, xs) ∈ L -> ring h l xs;
  la_free : forall n, n ∉ nodes L -> h n = mk_link n n
}.

(** What the operations do to the lists. *)
Definition remove_node (e : Z) (L : list (Z * list Z)) : list (Z * list Z) :=
  map (fun lx => (fst lx, filter (fun x => x <> e) (snd lx))) L.
Definition update_list (l : Z) (f : list Z -> list Z) (L : list (Z * list Z)) : list (Z * list Z) :=
  map (fun lx => if fst lx =? l then (fst lx, f (snd lx)) else lx) L.

Lemma elem_of_nodes L n : n ∈ nodes L <-> exists l xs, (l, xs) ∈ L /\ n ∈ l :: xs.
Proof.
  unfold nodes. split.
  - intros Hn. apply list_elem_of_In, in_concat in Hn as (r & Hr & Hn).
    apply in_map_iff in Hr as ([l xs] & <- & Hin). exists l, xs.
    split; by apply list_elem_of_In.
  - intros (l & xs & Hin & Hn). apply list_elem_of_In, in_concat. exists (l :: xs).
    split; [|by apply list_elem_of_In]. apply in_map_iff. exists (l, xs).
    split; [done|]. by apply list_elem_of_In.
Qed.

Lemma nodes_app L1 L2 : nodes (L1 ++ L2) = nodes L1 ++ nodes L2.
Proof. unfold nodes. by rewrite map_app, concat_app. Qed.

Lemma nodes_cons l xs L : nodes ((l, xs) :: L) = (l :: xs) ++ nodes L.
Proof. done. Qed.

(** Two entries that share a node are the same entry. *)
Lemma nodes_unique L1 l xs L2 l' xs' n :
  NoDup (nodes (L1 ++ (l, xs) :: L2)) -> (l', xs') ∈ L1 ++ L2 -> n ∈ l :: xs -> n ∉ l' :: xs'.
Proof.
  rewrite nodes_app, nodes_cons. intros Hnd Hin Hn Hn'.
  apply list.NoDup_app in Hnd as (_ & H1 & Hnd). apply list.NoDup_app in Hnd as (_ & H2 & _).
  apply elem_of_app in Hin as [Hin|Hin].
  - destruct (H1 n); [apply elem_of_nodes; by exists l', xs'|]. apply elem_of_app. by left.
  - destruct (H2 n Hn). apply elem_of_nodes. by exists l', xs'.
Qed.

Lemma nodup_entry L l xs : NoDup (nodes L) -> (l, xs) ∈ L -> NoDup (l :: xs).
Proof.
  intros Hnd Hin. apply list_elem_of_split in Hin as (L1 & L2 & ->).
  rewrite nodes_app, nodes_cons in Hnd. apply list.NoDup_app in Hnd as (_ & _ & Hnd).
  by apply list.NoDup_app in Hnd as (Hnd & _).
Qed.

Lemma filter_absent (e : Z) (xs : list Z) : e ∉ xs -> filter (fun x => x <> e) xs = xs.
Proof.
  induction xs as [|x xs IH]; [done|]. intros [Hx Hn]%not_elem_of_cons.
  rewrite filter_cons_True by done. by rewrite IH.
Qed.

Lemma filter_present (e : Z) (xs ys : list Z) :
  e ∉ xs -> e ∉ ys -> filter (fun x => x <> e) (xs ++ e :: ys) = xs ++ ys.
Proof.
  intros Hx Hy. rewrite list.filter_app, filter_cons_False by (by intros []).
  by rewrite !filter_absent by done.
Qed.

Lemma nodes_remove e L :
  e ∉ map fst L -> nodes (remove_node e L) = filter (fun x => x <> e) (nodes L).
Proof.
  induction L as [|[l xs] L IH]; [done|]. intros [Hl HL]%not_elem_of_cons. cbn [fst] in Hl.
  unfold remove_node in *. cbn [map]. rewrite !nodes_cons, list.filter_app, IH by done.
  by rewrite filter_cons_True by done.
Qed.

Lemma remove_absent e L : e ∉ nodes L -> remove_node e L = L.
Proof.
  induction L as [|[l xs] L IH]; [done|]. rewrite nodes_cons. intros Hn.
  apply not_elem_of_app in Hn as [Hn HL]. apply not_elem_of_cons in Hn as [_ Hn].
  unfold remove_node in *. cbn [map fst snd]. by rewrite IH, filter_absent by done.
Qed.

Lemma lists_ext h h' L : (forall m, h' m = h m) -> lists_are h L -> lists_are h' L.
Proof.
  intros E [H1 H2 H3]. split; [done| |].
  - intros l xs Hin. apply (ring_frame h); [by intros|by apply H2].
  - intros n Hn. rewrite E. by apply H3.
Qed.

Lemma sc_list_del_lists h L e :
  lists_are h L -> e ∉ map fst L -> lists_are (sc_list_del h e) (remove_node e L).
Proof.
  intros HL He. pose proof HL as [Hnd Hr Hf].
  destruct (decide (e ∈ nodes L)) as [Hin|Hout].
  2: { rewrite remove_absent by done. apply (lists_ext h); [|done]. by apply sc_list_del_self, Hf. }
  apply elem_of_nodes in Hin as (l0 & xs0 & H0 & Hex).
  apply elem_of_cons in Hex as [->|Hex]; [destruct He; by apply (list_elem_of_fmap_2 fst) in H0|].
  apply list_elem_of_split in Hex as (xs & ys & ->).
  pose proof (nodup_entry _ _ _ Hnd H0) as Hnd0.
  destruct (sc_list_del_ring h l0 xs e ys Hnd0 (Hr _ _ H0)) as (D1 & D2 & D3).
  apply list.NoDup_cons in Hnd0 as [_ Hnd0]. apply list.NoDup_app in Hnd0 as (_ & Hd & Hy).
  apply list.NoDup_cons in Hy as [Hey _].
  assert (Hexs : e ∉ xs) by (intros Hx; destruct (Hd e Hx); left).
  split.
  - rewrite nodes_remove by done. by apply list.NoDup_filter.
  - intros l zs Hin. apply list_elem_of_fmap in Hin as ([l' zs'] & [= -> ->] & Hin).
    apply list_elem_of_split in H0 as (L1 & L2 & ->).
    apply elem_of_app in Hin as [Hin|[[= -> ->]|Hin]%elem_of_cons].
    2: { by rewrite filter_present. }
    all: assert (Hin' : (l', zs') ∈ L1 ++ L2) by (apply elem_of_app; tauto);
      assert (Hdis : forall n, n ∈ l' :: zs' -> n ∉ l0 :: xs ++ e :: ys)
        by (intros n Hn Hn0; by apply (nodes_unique _ _ _ _ _ _ n Hnd Hin' Hn0));
      rewrite filter_absent by (intros Hz; apply (Hdis e); [by right|right; apply elem_of_app; right; left]);
      (apply (ring_frame h); [intros x Hx; apply D3; by apply Hdis|]);
      apply Hr, elem_of_app; rewrite elem_of_cons; tauto.
  - intros n Hn. rewrite nodes_remove, list_elem_of_filter in Hn by done.
    destruct (decide (n = e)) as [->|Hne]; [done|].
    assert (Hn' : n ∉ nodes L) by tauto. rewrite D3; [by apply Hf|].
    intros Hx. apply Hn', elem_of_nodes. by exists l0, (xs ++ e :: ys).
Qed.

Lemma update_absent l f L : l ∉ nodes L -> update_list l f L = L.
Proof.
  induction L as [|[l' xs] L IH]; [done|]. rewrite nodes_cons. intros Hn.
  apply not_elem_of_app in Hn as [Hn HL]. apply not_elem_of_cons in Hn as [Hn _].
  unfold update_list in *. cbn [map fst]. rewrite IH by done.
  by rewrite (proj2 (Z.eqb_neq l' l)) by congruence.
Qed.

Lemma update_split l f L1 xs L2 :
  NoDup (nodes (L1 ++ (l, xs) :: L2)) ->
  update_list l f (L1 ++ (l, xs) :: L2) = L1 ++ (l, f xs) :: L2.
Proof.
  rewrite nodes_app, nodes_cons. intros Hnd.
  apply list.NoDup_app in Hnd as (_ & H1 & Hnd). apply list.NoDup_app in Hnd as (_ & H2 & _).
  unfold update_list. rewrite map_app. cbn [map fst snd]. rewrite Z.eqb_refl.
  fold (update_list l f L1). fold (update_list l f L2). rewrite !update_absent; [done| |].
  - apply H2. left.
  - intros Hl. destruct (H1 l Hl). apply elem_of_app. left. left.
Qed.

Lemma sc_list_insert_lists h h' L l xs ys e u p n w :
  lists_are h L -> (l, xs ++ ys) ∈ L -> e ∉ nodes L ->
  l :: xs = u ++ [p] -> ys ++ [l] = n :: w -> inserted h p e n h' ->
  lists_are h' (update_list l (fun _ => xs ++ e :: ys) L).
Proof.
  intros [Hnd Hr Hf] Hin He Eu Ew Hi.
  assert (Hperm : l :: xs ++ e :: ys ≡ₚ e :: l :: xs ++ ys)
    by (rewrite <- (Permutation_middle xs ys e); apply Permutation_swap).
  assert (Hnd0 : NoDup (l :: xs ++ e :: ys)).
  { rewrite Hperm. apply list.NoDup_cons. split; [|by apply (nodup_entry L)].
    intros Hx. apply He, elem_of_nodes. by exists l, (xs ++ ys). }
  destruct (ring_insert h h' l xs e ys u p n w Hnd0 (Hr _ _ Hin) Eu Ew Hi) as [R1 R2].
  apply list_elem_of_split in Hin as (L1 & L2 & ->). rewrite update_split by done.
  assert (Hnodes : nodes (L1 ++ (l, xs ++ e :: ys) :: L2) ≡ₚ e :: nodes (L1 ++ (l, xs ++ ys) :: L2)).
  { rewrite !nodes_app, !nodes_cons, Hperm. cbn [app].
    rewrite <- Permutation_middle. done. }
  split.
  - rewrite Hnodes. by apply list.NoDup_cons.
  - intros l' zs Hin. apply elem_of_app in Hin as [Hin|[[= -> ->]|Hin]%elem_of_cons]; [|done|].
    all: assert (Hin' : (l', zs) ∈ L1 ++ L2) by (apply elem_of_app; tauto);
      assert (Hin2 : (l', zs) ∈ L1 ++ (l, xs ++ ys) :: L2)
        by (rewrite elem_of_app, elem_of_cons; tauto);
      apply (ring_frame h); [|by apply Hr]; intros x Hx; apply R2; rewrite Hperm;
      intros [->|Hx']%elem_of_cons;
      [apply He, elem_of_nodes; by exists l', zs|by apply (nodes_unique _ _ _ _ _ _ x Hnd Hin' Hx')].
  - intros m Hm. rewrite Hnodes in Hm. apply not_elem_of_cons in Hm as [Hme Hm].
    rewrite R2; [by apply Hf|]. rewrite Hperm. intros [->|Hx]%elem_of_cons; [done|].
    apply Hm, elem_of_nodes. exists l, (xs ++ ys). split; [|done]. rewrite elem_of_app, elem_of_cons. tauto.
Qed.

(** ** Refinement *)

Fixpoint members (l : Z) (L : list (Z * list Z)) : list Z :=
  match L with
  | [] => []
  | (l', xs) :: L => if l' =? l then xs else members l L
  end.

Lemma members_in l L : l ∈ map fst L -> (l, members l L) ∈ L.
Proof.
  induction L as [|[l' xs] L IH]; [by intros []%not_elem_of_nil|]. cbn [map fst members].
  intros [->|Hin]%elem_of_cons.
  - rewrite Z.eqb_refl. left.
  - destruct (Z.eqb_spec l' l) as [->|]; [left|right; by apply IH].
Qed.

Inductive list_op := LAddTail (l e : Z) | LAddHead (l e : Z) | LDel (e : Z) | LPopHead (l : Z) | LPopTail (l : Z).

Definition list_exec (h : heap) (op : list_op) : option Z * heap :=
  match op with
  | LAddTail l e => (None, sc_list_add_tail h l e)
  | LAddHead l e => (None, sc_list_add_head h l e)
  | LDel e => (None, sc_list_del h e)
  | LPopHead l => sc_list_pop_head h l
  | LPopTail l => sc_list_pop_tail h l
  end.

(** The heads are lists, the nodes added and deleted are not. *)
Definition op_ok (heads : list Z) (op : list_op) : Prop :=
  match op with
  | LAddTail l e | LAddHead l e => l ∈ heads /\ e ∉ heads
  | LDel e => e ∉ heads
  | LPopHead l | LPopTail l => l ∈ heads
  end.

#[export] Instance op_ok_dec heads op : Decision (op_ok heads op).
Proof. destruct op; simpl; apply _. Defined.

(** The effect on sequences: an added node is first removed from the list it is
    in, whichever it is. *)
Definition lists_exec (L : list (Z * list Z)) (op : list_op) : option Z * list (Z * list Z) :=
  match op with
  | LAddTail l e => (None, update_list l (fun xs => xs ++ [e]) (remove_node e L))
  | LAddHead l e => (None, update_list l (fun xs => e :: xs) (remove_node e L))
  | LDel e => (None, remove_node e L)
  | LPopHead l =>
      match members l L with
      | [] => (None, L)
      | x :: _ => (Some x, remove_node x L)
      end
  | LPopTail l =>
      match reverse (members l L) with
      | [] => (None, L)
      | x :: _ => (Some x, remove_node x L)
      end
  end.

Lemma heads_remove e L : map fst (remove_node e L) = map fst L.
Proof. unfold remove_node. rewrite map_map. by apply map_ext. Qed.

Lemma heads_update l f L : map fst (update_list l f L) = map fst L.
Proof. unfold update_list. rewrite map_map. apply map_ext. intros [l' xs]. simpl. by case_if. Qed.

Lemma update_const l f L :
  NoDup (nodes L) -> l ∈ map fst L -> update_list l f L = update_list l (fun _ => f (members l L)) L.
Proof.
  intros Hnd Hl. pose proof (members_in l L Hl) as Hin.
  apply list_elem_of_split in Hin as (L1 & L2 & E). revert E.
  generalize (members l L). intros xs ->. by rewrite !update_split.
Qed.

Lemma not_head_free e L : e ∉ map fst L -> e ∉ nodes (remove_node e L).
Proof. intros He. rewrite nodes_remove by done. rewrite list_elem_of_filter. by intros [[] _]. Qed.

Lemma ring_empty_iff h l xs : NoDup (l :: xs) -> ring h l xs -> (l_next (h l) = l <-> xs = []).
Proof.
  intros Hnd Hr. destruct (ring_ends h l xs Hr) as [[w E] _]. destruct xs as [|x xs]; simpl in E.
  - injection E as E _. by rewrite <- E.
  - injection E as E _. rewrite <- E. apply list.NoDup_cons in Hnd as [Hl _]. split; [|done].
    intros ->. destruct Hl. left.
Qed.

Lemma add_tail_inserted h l e :
  e <> l -> e <> l_prev (sc_list_del h e l) ->
  inserted (sc_list_del h e) (l_prev (sc_list_del h e l)) e l (sc_list_add_tail h l e).
Proof.
  intros Hl Hp m. unfold sc_list_add_tail. set (h1 := sc_list_del h e) in *.
  assert (Hx : forall q : sc_list, q = mk_link (l_next q) (l_prev q)) by (by intros []).
  rewrite (Hx (set_next _ _ _ m)). f_equal; links.
Qed.

Lemma add_head_inserted h l e :
  e <> l -> e <> l_next (sc_list_del h e l) ->
  inserted (sc_list_del h e) l e (l_next (sc_list_del h e l)) (sc_list_add_head h l e).
Proof.
  intros Hl Hp m. unfold sc_list_add_head. set (h1 := sc_list_del h e) in *.
  assert (Hx : forall q : sc_list, q = mk_link (l_next q) (l_prev q)) by (by intros []).
  rewrite (Hx (set_prev _ _ _ m)). f_equal; links.
Qed.

(** The list an element is added to, once the element is detached. *)
Lemma detached h L l e :
  lists_are h L -> l ∈ map fst L -> e ∉ map fst L ->
  exists xs, (l, xs) ∈ remove_node e L /\ members l (remove_node e L) = xs /\ ~ (e ∈ l :: xs) /\
    lists_are (sc_list_del h e) (remove_node e L) /\ e ∉ nodes (remove_node e L).
Proof.
  intros HL Hl He. pose proof (sc_list_del_lists h L e HL He) as H1.
  assert (Hl1 : l ∈ map fst (remove_node e L)) by (by rewrite heads_remove).
  pose proof (members_in _ _ Hl1) as Hin. pose proof (not_head_free e L He) as Hfree.
  eexists. split; [done|]. split; [done|]. split; [|done].
  intros Hx. apply Hfree, elem_of_nodes. by eexists _, _.
Qed.

Lemma sc_list_add_tail_lists h L l e :
  lists_are h L -> l ∈ map fst L -> e ∉ map fst L ->
  lists_are (sc_list_add_tail h l e) (update_list l (fun xs => xs ++ [e]) (remove_node e L)).
Proof.
  intros HL Hl He. destruct (detached h L l e HL Hl He) as (xs & Hin & Em & Hex & H1 & Hfree).
  rewrite update_const, Em by (apply H1 || by rewrite heads_remove).
  destruct (ring_ends _ _ _ (la_ring _ _ H1 _ _ Hin)) as [_ [u Eu]].
  apply (sc_list_insert_lists (sc_list_del h e) _ _ l xs [] e u (l_prev (sc_list_del h e l)) l []);
    [done|by rewrite app_nil_r|done|done|done|].
  apply not_elem_of_cons in Hex as Hex'. apply add_tail_inserted; [tauto|].
  intros E. apply Hex. rewrite Eu, E at 1. apply elem_of_app. right. rewrite <- E. left.
Qed.

Lemma sc_list_add_head_lists h L l e :
  lists_are h L -> l ∈ map fst L -> e ∉ map fst L ->
  lists_are (sc_list_add_head h l e) (update_list l (fun xs => e :: xs) (remove_node e L)).
Proof.
  intros HL Hl He. destruct (detached h L l e HL Hl He) as (xs & Hin & Em & Hex & H1 & Hfree).
  rewrite update_const, Em by (apply H1 || by rewrite heads_remove).
  destruct (ring_ends _ _ _ (la_ring _ _ H1 _ _ Hin)) as [[w Ew] _].
  apply (sc_list_insert_lists (sc_list_del h e) _ _ l [] xs e [] l (l_next (sc_list_del h e l)) w);
    [done..|].
  apply not_elem_of_cons in Hex as Hex'. apply add_head_inserted; [tauto|].
  intros E. assert (Hx : e ∈ xs ++ [l]) by (rewrite Ew, <- E; left).
  apply elem_of_app in Hx as [Hx|Hx%list_elem_of_singleton]; tauto.
Qed.

(** Next to a member of a list, once the element is detached. *)
Lemma sc_list_add_after_lists h L l xs p ys e :
  lists_are h L -> e ∉ map fst L -> (l, xs ++ p :: ys) ∈ remove_node e L ->
  lists_are (sc_list_add_after h p e) (update_list l (fun _ => (xs ++ [p]) ++ e :: ys) (remove_node e L)).
Proof.
  intros HL He Hin. pose proof (sc_list_del_lists h L e HL He) as H1.
  pose proof (not_head_free e L He) as Hfree.
  destruct (ring_split _ _ _ _ _ (la_ring _ _ H1 _ _ Hin)) as (u & q & n & w & _ & Ew & _ & [Hn _] & _).
  apply (sc_list_insert_lists (sc_list_del h e) _ _ l (xs ++ [p]) ys e (l :: xs) p n w);
    [done|by rewrite <- app_assoc|done|done|done|].
  assert (Hne : forall x, x ∈ l :: xs ++ p :: ys -> x <> e)
    by (intros x Hx ->; apply Hfree, elem_of_nodes; by eexists _, _).
  assert (Hp : p <> e) by (apply Hne; right; apply elem_of_app; right; left).
  assert (n <> e).
  { assert (Hx : n ∈ ys ++ [l]) by (rewrite Ew; left). apply Hne. rewrite elem_of_cons, elem_of_app, elem_of_cons.
    apply elem_of_app in Hx as [Hx|Hx%list_elem_of_singleton]; tauto. }
  intros m. unfold sc_list_add_after. set (h1 := sc_list_del h e) in *. rewrite Hn.
  assert (Hx : forall q : sc_list, q = mk_link (l_next q) (l_prev q)) by (by intros []).
  rewrite (Hx (set_prev _ _ _ m)). f_equal; links.
Qed.

Lemma sc_list_add_before_lists h L l xs n ys e :
  lists_are h L -> e ∉ map fst L -> (l, xs ++ n :: ys) ∈ remove_node e L ->
  lists_are (sc_list_add_before h n e) (update_list l (fun _ => xs ++ e :: n :: ys) (remove_node e L)).
Proof.
  intros HL He Hin. pose proof (sc_list_del_lists h L e HL He) as H1.
  pose proof (not_head_free e L He) as Hfree.
  destruct (ring_split _ _ _ _ _ (la_ring _ _ H1 _ _ Hin)) as (u & p & q & w & Eu & _ & [_ Hp] & _).
  apply (sc_list_insert_lists (sc_list_del h e) _ _ l xs (n :: ys) e u p n (ys ++ [l]));
    [done|done|done|done|done|].
  assert (Hne : forall x, x ∈ l :: xs ++ n :: ys -> x <> e)
    by (intros x Hx ->; apply Hfree, elem_of_nodes; by eexists _, _).
  assert (Hn : n <> e) by (apply Hne; right; apply elem_of_app; right; left).
  assert (p <> e).
  { assert (Hx : p ∈ l :: xs) by (rewrite Eu; apply elem_of_app; right; left).
    apply Hne. rewrite app_comm_cons, elem_of_app. tauto. }
  intros m. unfold sc_list_add_before. set (h1 := sc_list_del h e) in *. rewrite Hp.
  assert (Hx : forall q : sc_list, q = mk_link (l_next q) (l_prev q)) by (by intros []).
  rewrite (Hx (set_next _ _ _ m)). f_equal; links.
Qed.

(** The ends of a list, as the pops and [sc_list_head]/[sc_list_tail] read them. *)
Lemma list_ends h L l :
  lists_are h L -> l ∈ map fst L ->
  match members l L with
  | [] => l_next (h l) = l /\ l_prev (h l) = l
  | x :: _ => l_next (h l) = x /\ x <> l
  end /\
  match reverse (members l L) with
  | [] => l_next (h l) = l /\ l_prev (h l) = l
  | x :: _ => l_prev (h l) = x /\ x <> l /\ l_next (h l) <> l
  end /\
  forall x, x ∈ members l L -> x ∉ map fst L.
Proof.
  intros HL Hl. pose proof (members_in l L Hl) as Hin.
  pose proof (nodup_entry L l _ (la_nodup _ _ HL) Hin) as Hnd.
  pose proof (la_ring _ _ HL _ _ Hin) as Hr. destruct (ring_ends _ _ _ Hr) as [[w Ew] [u Eu]].
  pose proof (ring_empty_iff h l _ Hnd Hr) as Hemp.
  apply list.NoDup_cons in Hnd as [Hlx _]. split_and!.
  - destruct (members l L) as [|x xs]; simpl in *.
    + split; [by apply Hemp|]. destruct u; [by injection Eu|]. by destruct u.
    + injection Ew as -> _. split; [done|]. intros E. apply Hlx. rewrite E. left.
  - destruct (members l L) as [|x xs _] using rev_ind; simpl in *.
    + split; [by apply Hemp|]. destruct u; [by injection Eu|]. by destruct u.
    + rewrite reverse_app. simpl. rewrite app_comm_cons in Eu. apply app_inj_tail in Eu as [_ ->].
      split; [done|]. split.
      * intros E. apply Hlx. rewrite E. apply elem_of_app. right. left.
      * rewrite Hemp. by destruct xs.
  - intros x Hx Hh. apply list_elem_of_split in Hin as (L1 & L2 & E).
    assert (Hin2 : (x, members x L) ∈ L) by (by apply members_in).
    assert (Hxl : x ∈ l :: members l L) by (by right).
    rewrite E in Hin2 at 2. pose proof (la_nodup _ _ HL) as Hnd. rewrite E in Hnd at 1.
    apply elem_of_app in Hin2 as Hin3. rewrite elem_of_cons in Hin3.
    destruct Hin3 as [H3|[[= ->]|H3]]; [|done|].
    all: apply (nodes_unique L1 l _ L2 x (members x L) x Hnd); [apply elem_of_app; tauto|done|left].
Qed.

Lemma list_exec_spec h L op :
  lists_are h L -> op_ok (map fst L) op ->
  fst (list_exec h op) = fst (lists_exec L op) /\ lists_are (snd (list_exec h op)) (snd (lists_exec L op)) /\
  map fst (snd (lists_exec L op)) = map fst L.
Proof.
  intros HL Hok. destruct op as [l e|l e|e|l|l]; cbn [op_ok list_exec lists_exec fst snd] in *.
  - destruct Hok as [Hl He]. split; [done|]. split; [by apply sc_list_add_tail_lists|].
    by rewrite heads_update, heads_remove.
  - destruct Hok as [Hl He]. split; [done|]. split; [by apply sc_list_add_head_lists|].
    by rewrite heads_update, heads_remove.
  - split; [done|]. split; [by apply sc_list_del_lists|apply heads_remove].
  - destruct (list_ends h L l HL Hok) as (Hh & _ & Hm). unfold sc_list_pop_head, sc_list_is_empty.
    destruct (members l L) as [|x xs] eqn:E.
    + destruct Hh as [Hh _]. rewrite Hh, Z.eqb_refl. done.
    + destruct Hh as [Hh Hne]. rewrite Hh, (proj2 (Z.eqb_neq _ _) Hne). cbn [fst snd].
      split; [done|]. split; [|apply heads_remove]. apply sc_list_del_lists, Hm; [done|left].
  - destruct (list_ends h L l HL Hok) as (_ & Hh & Hm). unfold sc_list_pop_tail, sc_list_is_empty.
    destruct (reverse (members l L)) as [|x xs] eqn:E.
    + destruct Hh as [Hh _]. rewrite Hh, Z.eqb_refl. done.
    + destruct Hh as (Hh & Hne & Hne2). rewrite Hh, (proj2 (Z.eqb_neq _ _) Hne2). cbn [fst snd].
      split; [done|]. split; [|apply heads_remove]. apply sc_list_del_lists, Hm; [done|].
      apply elem_of_reverse. rewrite E. left.
Qed.

(** Traversal visits the members in order, and stops at the head. *)
Lemma foreach_from_ring h l xs n w fuel :
  l ∉ xs -> adj h (n :: w) -> n :: w = xs ++ [l] -> (length xs < fuel)%nat ->
  foreach_from fuel h l n = Some xs.
Proof.
  revert n w fuel. induction xs as [|x xs IH]; intros n w fuel Hl Ha E Hf;
    (destruct fuel as [|fuel]; [simpl in Hf; lia|]); cbn [foreach_from].
  - injection E as -> _. by rewrite Z.eqb_refl.
  - injection E as -> ->. apply not_elem_of_cons in Hl as [Hne Hl].
    rewrite (proj2 (Z.eqb_neq x l)) by congruence.
    destruct (xs ++ [l]) as [|y w] eqn:E; [by destruct xs|].
    destruct Ha as [[Hn _] Ha]. rewrite Hn, (IH y w fuel); [done|done|done|done|]. simpl in Hf. lia.
Qed.

Lemma sc_list_foreach_spec h L l fuel :
  lists_are h L -> l ∈ map fst L -> (length (members l L) < fuel)%nat ->
  sc_list_foreach fuel h l = Some (members l L).
Proof.
  intros HL Hl Hf. pose proof (members_in l L Hl) as Hin.
  pose proof (nodup_entry L l _ (la_nodup _ _ HL) Hin) as Hnd. apply list.NoDup_cons in Hnd as [Hlx _].
  pose proof (la_ring _ _ HL _ _ Hin) as Hr. destruct (ring_ends _ _ _ Hr) as [[w Ew] _].
  unfold sc_list_foreach. unfold ring in Hr. rewrite Ew in Hr. destruct Hr as [_ Hr].
  by apply (foreach_from_ring h l _ _ w).
Qed.

Lemma remove_member L1 l xs x ys L2 :
  NoDup (nodes (L1 ++ (l, xs ++ x :: ys) :: L2)) ->
  remove_node x (L1 ++ (l, xs ++ x :: ys) :: L2) = L1 ++ (l, xs ++ ys) :: L2.
Proof.
  intros Hnd. pose proof (nodup_entry _ l (xs ++ x :: ys) Hnd) as H0.
  rewrite nodes_app, nodes_cons in Hnd. apply list.NoDup_app in Hnd as (_ & H1 & Hnd).
  apply list.NoDup_app in Hnd as (_ & H2 & _).
  assert (Hx : x ∈ l :: xs ++ x :: ys) by (right; apply elem_of_app; right; left).
  unfold remove_node. rewrite map_app. cbn [map fst snd].
  fold (remove_node x L1). fold (remove_node x L2). rewrite !remove_absent.
  - rewrite filter_present; [done| |].
    all: specialize (H0 ltac:(apply elem_of_app; right; left));
      apply list.NoDup_cons in H0 as [_ H0]; apply list.NoDup_app in H0 as (_ & Hd & Hy);
      apply list.NoDup_cons in Hy as [Hy _]; try done.
    intros Hxs. destruct (Hd x Hxs). left.
  - by apply H2.
  - intros Hin. destruct (H1 x Hin). apply elem_of_app. by left.
Qed.

Lemma members_split L1 l xs L2 :
  NoDup (nodes (L1 ++ (l, xs) :: L2)) -> members l (L1 ++ (l, xs) :: L2) = xs.
Proof.
  rewrite nodes_app, nodes_cons. intros Hnd. apply list.NoDup_app in Hnd as (_ & H1 & _).
  assert (Hl : l ∉ nodes L1) by (intros Hin; destruct (H1 l Hin); apply elem_of_app; left; left).
  clear H1. induction L1 as [|[l' zs] L1 IH]; simpl; [by rewrite Z.eqb_refl|].
  rewrite nodes_cons in Hl. apply not_elem_of_app in Hl as [Hne Hl].
  apply not_elem_of_cons in Hne as [Hne _]. rewrite (proj2 (Z.eqb_neq l' l)) by congruence. by apply IH.
Qed.

(** The removal loop of [sc_list_clear]: each node's successor is read before the
    node is detached, and is the first of what remains. *)
Lemma clear_from_lists l xs L1 L2 h fuel :
  lists_are h (L1 ++ (l, xs) :: L2) -> (length xs < fuel)%nat ->
  exists h', clear_from fuel h l (l_next (h l)) = Some h' /\ lists_are h' (L1 ++ (l, []) :: L2).
Proof.
  revert h fuel. induction xs as [|x xs IH]; intros h fuel HL Hf;
    (destruct fuel as [|fuel]; [simpl in Hf; lia|]); cbn [clear_from].
  all: assert (Hl : l ∈ map fst (L1 ++ (l, []) :: L2)) by (rewrite map_app; apply elem_of_app; right; left).
  - destruct (list_ends h _ l HL Hl) as (Hh & _). rewrite members_split in Hh by apply HL.
    destruct Hh as [-> _]. rewrite Z.eqb_refl. by exists h.
  - rewrite map_app in Hl. cbn [map fst] in Hl. set (L := L1 ++ (l, x :: xs) :: L2) in *.
    assert (Hl' : l ∈ map fst L) by (unfold L; by rewrite map_app).
    destruct (list_ends h L l HL Hl') as (Hh & _ & Hm). unfold L in Hh, Hm.
    rewrite !members_split in Hh by apply HL. rewrite members_split in Hm by apply HL.
    destruct Hh as [Hh Hne]. rewrite Hh, (proj2 (Z.eqb_neq _ _) Hne).
    pose proof (sc_list_del_lists h L x HL (Hm x ltac:(left))) as Hd.
    pose proof (remove_member L1 l [] x xs L2 (la_nodup _ _ HL)) as Erm. cbn [app] in Erm.
    unfold L in Hd. rewrite Erm in Hd.
    assert (Hin : (l, x :: xs) ∈ L) by (apply elem_of_app; right; left).
    assert (En : l_next (sc_list_del h x l) = l_next (h x)).
    { pose proof (la_ring _ _ HL _ _ Hin) as Hr. pose proof (la_ring _ _ Hd l xs) as Hr2.
      specialize (Hr2 ltac:(apply elem_of_app; right; left)).
      destruct (ring_ends _ _ _ Hr2) as [[w Ew] _]. destruct Hr as [_ Hr].
      change (adj h (x :: xs ++ [l])) in Hr. rewrite Ew in Hr. by destruct Hr as [[-> _] _]. }
    rewrite <- En. apply IH; [done|]. simpl in Hf. lia.
Qed.

Lemma sc_list_clear_spec h L l fuel :
  lists_are h L -> l ∈ map fst L -> (length (members l L) < fuel)%nat ->
  exists h', sc_list_clear fuel h l = Some h' /\ lists_are h' (update_list l (fun _ => []) L).
Proof.
  intros HL Hl Hf. pose proof (members_in l L Hl) as Hin. apply list_elem_of_split in Hin as (L1 & L2 & E).
  revert E Hf. generalize (members l L). intros xs -> Hf. rewrite update_split by apply HL.
  by apply (clear_from_lists l xs).
Qed.

Fixpoint list_run (h : heap) (ops : list list_op) : list (option Z) * heap :=
  match ops with
  | [] => ([], h)
  | op :: ops => let (r, h) := list_exec h op in let (rs, h) := list_run h ops in (r :: rs, h)
  end.

Fixpoint lists_run (L : list (Z * list Z)) (ops : list list_op) : list (option Z) * list (Z * list Z) :=
  match ops with
  | [] => ([], L)
  | op :: ops => let (r, L) := lists_exec L op in let (rs, L) := lists_run L ops in (r :: rs, L)
  end.

Lemma list_run_spec ops h L :
  lists_are h L -> Forall (op_ok (map fst L)) ops ->
  fst (list_run h ops) = fst (lists_run L ops) /\ lists_are (snd (list_run h ops)) (snd (lists_run L ops)) /\
  map fst (snd (lists_run L ops)) = map fst L.
Proof.
  revert h L. induction ops as [|op ops IH]; intros h L HL Hok; [done|].
  apply Forall_cons_1 in Hok as [Hop Hok]. destruct (list_exec_spec h L op HL Hop) as (E1 & H1 & H2).
  cbn [list_run lists_run]. destruct (list_exec h op) as [r h1], (lists_exec L op) as [r' L1].
  cbn [fst snd] in *. rewrite <- H2 in Hok. destruct (IH h1 L1 H1 Hok) as (E3 & H3 & H4).
  destruct (list_run h1 ops) as [rs h2], (lists_run L1 ops) as [rs' L2]. cbn [fst snd] in *.
  split_and!; [by rewrite E1, E3|done|congruence].
Qed.

Definition fresh (heads : list Z) : list (Z * list Z) := map (fun l => (l, [])) heads.

Lemma fresh_lists heads : NoDup heads -> lists_are (fun n => mk_link n n) (fresh heads).
Proof.
  intros Hnd. assert (En : nodes (fresh heads) = heads).
  { clear. induction heads as [|l heads IH]; [done|]. cbn [fresh map]. rewrite nodes_cons. simpl. by f_equal. }
  split; [by rewrite En| |done].
  intros l xs Hin. apply list_elem_of_fmap in Hin as (l' & [= -> ->] & _). done.
Qed.

Lemma fresh_heads heads : map fst (fresh heads) = heads.
Proof. unfold fresh. rewrite map_map. apply map_id. Qed.

(** What [sc_list_foreach], [count], [is_empty], [head], [tail] and [clear] give on a heap
    that holds the lists [L]. *)
Definition observes (h : heap) (L : list (Z * list Z)) (l : Z) (xs : list Z) : Prop :=
  sc_list_foreach (S (length xs)) h l = Some xs /\
  sc_list_count (S (length xs)) h l = Some (zlen xs) /\
  sc_list_is_empty h l = bool_decide (xs = []) /\
  sc_list_head h l = head xs /\ sc_list_tail h l = list.last xs /\
  exists h', sc_list_clear (S (length xs)) h l = Some h' /\ lists_are h' (update_list l (fun _ => []) L).

Lemma observes_members h L l : lists_are h L -> l ∈ map fst L -> observes h L l (members l L).
Proof.
  intros HL Hl. destruct (list_ends h L l HL Hl) as (Hh & Ht & _).
  assert (Hfe := sc_list_foreach_spec h L l (S (length (members l L))) HL Hl ltac:(lia)).
  unfold observes, sc_list_count. rewrite Hfe. split; [done|]. split; [done|].
  assert (Hlast : list.last (members l L) = head (reverse (members l L)))
    by (by rewrite <- last_reverse, reverse_involutive).
  rewrite Hlast. unfold sc_list_is_empty, sc_list_head, sc_list_tail. split_and!.
  - destruct (members l L); destruct Hh as [-> Hne]; [by rewrite Z.eqb_refl|].
    by rewrite (proj2 (Z.eqb_neq _ _) Hne).
  - destruct (members l L); destruct Hh as [-> Hne]; [by rewrite Z.eqb_refl|].
    by rewrite (proj2 (Z.eqb_neq _ _) Hne).
  - destruct (reverse (members l L)); [destruct Ht as [_ ->]; by rewrite Z.eqb_refl|].
    destruct Ht as (-> & Hne & _). by rewrite (proj2 (Z.eqb_neq _ _) Hne).
  - apply sc_list_clear_spec; [done|done|lia].
Qed.

(** C27: the pointer surgery of sc_list.c implements a family of disjoint
    sequences.  Start from nodes that are all initialised and any set of list
    heads, and run any sequence of additions at either end, deletions and pops:
    the pops return the elements the sequences give, an element that is added
    while it is in another list (or in the same one) leaves that list first, no
    operation disturbs a list it does not name, and afterwards the traversal
    visits exactly the members, in order, and ends; count, emptiness, head, tail
    and clear agree with the sequence. *)
Theorem sc_list_refines heads ops :
  NoDup heads -> Forall (op_ok heads) ops ->
  let (rs, h) := list_run (fun n => mk_link n n) ops in
  let (rs', L) := lists_run (fresh heads) ops in
  rs = rs' /\ lists_are h L /\ forall l, l ∈ heads -> observes h L l (members l L).
Proof.
  intros Hnd Hok. pose proof (fresh_lists heads Hnd) as HL. rewrite <- (fresh_heads heads) in Hok.
  destruct (list_run_spec ops _ _ HL Hok) as (E1 & H1 & H2). rewrite fresh_heads in H2.
  destruct (list_run _ ops) as [rs h], (lists_run _ ops) as [rs' L]. cbn [fst snd] in *.
  split; [done|]. split; [done|]. intros l Hl. apply observes_members; [done|]. by rewrite H2.
Qed.

Lemma sc_list_refines_witness :
  let ops := [LAddTail 1 10; LAddTail 1 11; LAddHead 1 12; LAddTail 2 11; LPopHead 1; LPopTail 2; LPopTail 2;
              LAddTail 2 10; LDel 12; LAddHead 2 13] in
  Forall (op_ok [1; 2]) ops /\
  fst (list_run (fun n => mk_link n n) ops) = [None; None; None; None; Some 12; Some 11; None; None; None; None] /\
  sc_list_foreach 3 (snd (list_run (fun n => mk_link n n) ops)) 2 = Some [13; 10].
Proof.
  intros ops. assert (Hok : Forall (op_ok [1; 2]) ops) by (apply (bool_decide_unpack _); reflexivity).
  assert (Hnd : NoDup [1; 2]) by (apply (bool_decide_unpack _); reflexivity).
  pose proof (sc_list_refines [1; 2] ops Hnd Hok) as H. split; [done|].
  split; [reflexivity|].
  destruct (list_run _ ops) as [rs h] eqn:E1, (lists_run _ ops) as [rs' L] eqn:E2. cbn [snd].
  destruct H as (_ & _ & Ho). destruct (Ho 2 ltac:(right; left)) as [Hf _].
  assert (Em : members 2 L = [13; 10]).
  { replace L with (snd (lists_run (fresh [1; 2]) ops)) by (by rewrite E2). reflexivity. }
  rewrite Em in Hf. exact Hf.
Defined.
