(* ===== verification/Str.v ===== *)
(** * Strings with their length in front (lib/sc/sc_str.c)

    A string is allocated with its length before the characters and a NUL behind
    them.  [char *] arguments are the bytes up to their NUL, [None] is the null
    pointer.  Allocations go through [rs_malloc] and [rs_realloc] (src/config.h),
    which end the process instead of returning null, so they succeed here.  The
    printf-style functions ([sc_str_create_va], [sc_str_create_fmt],
    [sc_str_set_fmt]) are not modelled. *)

From Stdlib Require Import ZArith Lia.
From Stdlib Require Import Strings.Byte.
From stdpp Require Import base list numbers.
From S2P Require Import Prelude.

(** ** The C library on strings *)

Definition is_prefix (p s : list byte) : bool := bool_decide (take (length p) s = p).

(** [strstr]: offset of the first occurrence. *)
Fixpoint strstr (s needle : list byte) : option nat :=
  if is_prefix needle s then Some O
  else match s with
       | [] => None
       | _ :: s => match strstr s needle with None => None | Some i => Some (S i) end
       end.

(** [strcspn]: number of leading characters not in the set. *)
Fixpoint strcspn (s set : list byte) : nat :=
  match s with
  | [] => O
  | b :: s => if decide (b ∈ set) then O else S (strcspn s set)
  end.

(** [strspn]: number of leading characters in the set. *)
Fixpoint strspn (s set : list byte) : nat :=
  match s with
  | [] => O
  | b :: s => if decide (b ∈ set) then S (strspn s set) else O
  end.

(** [strchr(list, c) != NULL]: the terminator is part of the string searched. *)
Definition strchr (list : list byte) (c : byte) : bool := bool_decide (c = x00 \/ c ∈ list).

(** ** The string *)

(** [struct sc_str]: [s_buf] is the character array with its terminator. *)
Record sc_str := mk_str {
  s_len : Z;
  s_buf : list byte
}.

Definition SC_STR_MAX : Z := UINT32_MAX - 4 - 1.

(** The C string that a [char *] to the characters denotes. *)
Definition chars (s : sc_str) : list byte := cstring (s_buf s).

Definition sc_str_create_len (str : option (list byte)) (len : Z) : option sc_str :=
  match str with
  | None => None
  | Some m => Some (mk_str len (take (Z.to_nat len) m ++ [x00]))
  end.

Definition sc_str_create (str : option (list byte)) : option sc_str :=
  match str with
  | None => None
  | Some s => if zlen s >? SC_STR_MAX then None else sc_str_create_len (Some s) (u32 (zlen s))
  end.

Definition sc_str_destroy (str : option sc_str) : option sc_str := None.

Definition sc_str_length (str : option sc_str) : Z :=
  match str with None => -1 | Some s => s_len s end.

Definition sc_str_dup (str : option sc_str) : option sc_str :=
  match str with
  | None => None
  | Some m => sc_str_create_len (Some (s_buf m)) (s_len m)
  end.

(** The result and the new value of [*str]. *)
Definition sc_str_set (str : option sc_str) (param : option (list byte)) : bool * option sc_str :=
  match sc_str_create param with
  | None => (false, str)
  | Some c => (true, Some c)
  end.

Definition sc_str_append (str : option sc_str) (param : list byte) : bool * option sc_str :=
  match str with
  | None => let r := sc_str_create (Some param) in (bool_decide (is_Some r), r)
  | Some m =>
      let len := zlen param in
      if len >? SC_STR_MAX - s_len m then (false, str)
      else (true, Some (mk_str (s_len m + len) (take (Z.to_nat (s_len m)) (s_buf m) ++ param ++ [x00])))
  end.

Definition sc_str_cmp (str other : sc_str) : bool :=
  (s_len str =? s_len other) &&
  bool_decide (take (Z.to_nat (s_len str)) (s_buf str) = take (Z.to_nat (s_len str)) (s_buf other)).

(** *** Tokens

    The tokenizer cuts the string at a delimiter by exchanging the delimiter with
    the terminator at the end, and puts it back on the next call.  Pointers into
    the string are offsets. *)

Definition char_at (s : sc_str) (i : nat) : byte := nth i (s_buf s) x00.

Definition swap (str : sc_str) (d : nat) : sc_str :=
  let c := Z.to_nat (s_len str) in
  let tmp := char_at str c in
  let b := <[c := char_at str d]> (s_buf str) in
  mk_str (s_len str) (<[d := tmp]> b).

(** The C string that starts at offset [i]. *)
Definition chars_at (s : sc_str) (i : nat) : list byte := cstring (drop i (s_buf s)).

Definition sc_str_token_begin (str : sc_str) (save : option nat) (delim : list byte)
  : option nat * sc_str * option nat :=
  match save with
  | Some it =>
      let str := swap str it in
      if decide (char_at str it = x00) then (None, str, save)
      else
        let it := S it in
        let save := (it + strcspn (chars_at str it) delim)%nat in
        (Some it, swap str save, Some save)
  | None =>
      let it := O in
      let save := (it + strcspn (chars_at str it) delim)%nat in
      (Some it, swap str save, Some save)
  end.

Definition sc_str_token_end (str : sc_str) (save : nat) : sc_str :=
  if decide (char_at str (Z.to_nat (s_len str)) = x00) then str else swap str save.

(** *** Trimming, substrings *)

(** The loop of [sc_str_trim] from the end, [n] characters behind [head]. *)
Fixpoint trim_end (m : list byte) (head n : nat) (list : list byte) : nat :=
  match n with
  | O => O
  | S k => if strchr list (nth (head + k) m x00) then trim_end m head k list else S k
  end.

Definition sc_str_trim (str : option sc_str) (list : list byte) : bool * option sc_str :=
  match str with
  | None => (true, None)
  | Some s =>
      let len := Z.to_nat (s_len s) in
      let head := strspn (chars s) list in
      let n := trim_end (s_buf s) head (len - head) list in
      if negb (bool_decide (head = O)) || negb (bool_decide (head + n = len)%nat)
      then (true, sc_str_create_len (Some (drop head (s_buf s))) (Z.of_nat n))
      else (true, str)
  end.

Definition sc_str_substring (str : option sc_str) (start end_ : Z) : bool * option sc_str :=
  match str with
  | None => (false, None)
  | Some s =>
      if (start >? s_len s) || (end_ >? s_len s) || (start >? end_) then (false, str)
      else (true, sc_str_create_len (Some (drop (Z.to_nat start) (s_buf s))) (end_ - start))
  end.

(** *** Replacement *)

(** The fast path: overwrite each occurrence in place.  [before] is the memory in
    front of the search pointer, [rest] the memory from it on. *)
Fixpoint replace_same (fuel : nat) (before rest rep with_ : list byte) : option (list byte) :=
  match fuel with
  | O => None
  | S fuel =>
      match strstr (cstring rest) rep with
      | None => Some (before ++ rest)
      | Some i => replace_same fuel (before ++ take i rest ++ with_) (drop (i + length rep) rest) rep with_
      end
  end.

(** The counting pass: the inner [None] is the overflow return. *)
Fixpoint replace_count (fuel : nat) (tmp rep : list byte) (diff size : Z) (count : nat)
  : option (option (nat * Z)) :=
  match fuel with
  | O => None
  | S fuel =>
      match strstr (cstring tmp) rep with
      | None => Some (Some (count, size))
      | Some i =>
          if size >? SC_STR_MAX - diff then Some None
          else replace_count fuel (drop (i + length rep) tmp) rep diff (size + diff) (S count)
      end
  end.

(** The copying pass. *)
Fixpoint replace_copy (count : nat) (orig rep with_ tmp : list byte) : list byte :=
  match count with
  | O => tmp ++ orig
  | S count =>
      let len_unmatch := default O (strstr (cstring orig) rep) in
      replace_copy count (drop (len_unmatch + length rep) orig) rep with_
        (tmp ++ take len_unmatch orig ++ with_)
  end.

Definition sc_str_replace (fuel : nat) (str : option sc_str) (rep with_ : list byte)
  : option (bool * option sc_str) :=
  match str with
  | None => Some (true, None)
  | Some s =>
      if (zlen rep >=? UINT32_MAX) || (zlen with_ >=? UINT32_MAX) then Some (false, str)
      else
        let diff := zlen with_ - zlen rep in
        if diff =? 0 then
          match replace_same fuel [] (s_buf s) rep with_ with
          | None => None
          | Some m => Some (true, Some (mk_str (s_len s) m))
          end
        else
          match replace_count fuel (s_buf s) rep diff (s_len s) O with
          | None => None
          | Some None => Some (false, str)
          | Some (Some (O, _)) => Some (true, str)
          | Some (Some (count, size)) =>
              Some (true, Some (mk_str (u32 size) (replace_copy count (s_buf s) rep with_ [])))
          end
  end.

(** ** Well-formed strings *)

(** The string object that holds the characters [x]. *)
Record str_is (s : sc_str) (x : list byte) : Prop := {
  si_len : s_len s = zlen x;
  si_buf : s_buf s = x ++ [x00];
  si_nul : no_nul x;
  si_max : zlen x <= SC_STR_MAX
}.

Lemma cstring_id x : no_nul x -> cstring x = x.
Proof. induction 1 as [|b x Hb Hx IH]; simpl; [done|]. rewrite decide_False by done. by f_equal. Qed.

Lemma no_nul_take n x : no_nul x -> no_nul (take n x).
Proof. apply Forall_take. Qed.
Lemma no_nul_drop n x : no_nul x -> no_nul (drop n x).
Proof. apply Forall_drop. Qed.
#[export] Hint Resolve no_nul_take no_nul_drop : core.

Lemma chars_is s x : str_is s x -> chars s = x.
Proof. intros [_ Hb Hn _]. unfold chars. rewrite Hb. by apply cstring_app. Qed.

Lemma zlen_nat {A} (l : list A) : Z.to_nat (zlen l) = length l.
Proof. unfold zlen. lia. Qed.

Lemma create_is x : no_nul x -> zlen x <= SC_STR_MAX -> exists s, sc_str_create (Some x) = Some s /\ str_is s x.
Proof.
  intros Hn Hm. unfold sc_str_create. rewrite (if_false (_ >? _)) by zbool_solve.
  eexists. split; [done|]. assert (E : u32 (zlen x) = zlen x).
  { apply u32_small. pose proof (zlen_nonneg x). unfold SC_STR_MAX, UINT32_MAX in Hm. lia. }
  rewrite E. split; cbn [s_len s_buf]; [done| |done|done]. by rewrite zlen_nat, firstn_all.
Qed.

Lemma set_is s x : no_nul x -> zlen x <= SC_STR_MAX -> exists s', sc_str_set s (Some x) = (true, Some s') /\ str_is s' x.
Proof.
  intros Hn Hm. destruct (create_is x Hn Hm) as (s' & E & Hs). exists s'.
  unfold sc_str_set. by rewrite E.
Qed.

Lemma append_is s x y :
  str_is s x -> no_nul y -> zlen (x ++ y) <= SC_STR_MAX ->
  exists s', sc_str_append (Some s) y = (true, Some s') /\ str_is s' (x ++ y).
Proof.
  intros [Hl Hb Hn Hm] Hy Hxy. rewrite zlen_app in Hxy. unfold sc_str_append. rewrite Hl.
  rewrite (if_false (_ >? _)) by zbool_solve. eexists. split; [done|].
  split; cbn [s_len s_buf]; [by rewrite zlen_app| |by apply Forall_app|by rewrite zlen_app].
  by rewrite zlen_nat, Hb, take_app_length, app_assoc.
Qed.

Lemma cmp_is s t x y : str_is s x -> str_is t y -> sc_str_cmp s t = bool_decide (x = y).
Proof.
  intros [Hl Hb Hn Hm] [Hl' Hb' Hn' Hm']. unfold sc_str_cmp. rewrite Hl, Hl', Hb, Hb', !zlen_nat, take_app_length.
  destruct (Z.eqb_spec (zlen x) (zlen y)) as [E|E]; simpl.
  - apply bool_decide_ext. replace (length x) with (length y) by (unfold zlen in E; lia).
    by rewrite take_app_length.
  - symmetry. apply bool_decide_eq_false. by intros ->.
Qed.

(** ** Tokens *)

(** The reference: the pieces between delimiters. *)
Fixpoint split_on (delim x : list byte) : list (list byte) :=
  match x with
  | [] => [[]]
  | b :: x =>
      if decide (b ∈ delim) then [] :: split_on delim x
      else match split_on delim x with
           | [] => [[b]]
           | t :: ts => (b :: t) :: ts
           end
  end.

Lemma split_on_strcspn delim x :
  split_on delim x = take (strcspn x delim) x ::
    match drop (strcspn x delim) x with [] => [] | _ :: r => split_on delim r end.
Proof.
  induction x as [|b x IH]; [done|]. cbn [split_on strcspn]. destruct (decide (b ∈ delim)); [done|].
  rewrite IH. cbn [take drop]. done.
Qed.

Lemma strcspn_le x delim : (strcspn x delim <= length x)%nat.
Proof. induction x as [|b x IH]; simpl; [lia|]. destruct (decide (b ∈ delim)); lia. Qed.

(** The loop [while ((tok = sc_str_token_begin(str, &save, delim)) != NULL)], with the
    tokens read and the string it leaves. *)
Fixpoint tokens (fuel : nat) (str : sc_str) (save : option nat) (delim : list byte)
  : option (list (list byte) * sc_str) :=
  match fuel with
  | O => None
  | S fuel =>
      match sc_str_token_begin str save delim with
      | (None, str, _) => Some ([], str)
      | (Some it, str, save) =>
          match tokens fuel str save delim with
          | None => None
          | Some (ts, str') => Some (chars_at str it :: ts, str')
          end
      end
  end.

Section token.
Variables (s : sc_str) (x : list byte).
Hypothesis Hs : str_is s x.

Lemma char_at_is i : char_at s i = nth i x x00.
Proof.
  unfold char_at. rewrite (si_buf _ _ Hs). destruct (decide (i < length x)%nat).
  - by apply app_nth1.
  - rewrite app_nth2, (nth_overflow x) by lia. destruct (i - length x)%nat as [|[]]; done.
Qed.

Lemma swap_back p : (p <= length x)%nat -> swap (swap s p) p = s.
Proof.
  intros Hp. destruct s as [n b]. pose proof (si_len _ _ Hs) as Hl. pose proof (si_buf _ _ Hs) as Hb.
  simpl in Hl, Hb. unfold swap, char_at. cbn [s_len s_buf]. f_equal.
  assert (Hnl : Z.to_nat n = length x) by (rewrite Hl; apply zlen_nat). rewrite Hnl.
  assert (Hlb : length b = S (length x)) by (rewrite Hb, length_app; simpl; lia).
  apply list_eq. intros i. destruct (decide (i < length b)%nat).
  2: { rewrite !lookup_ge_None_2; [done|lia|rewrite !length_insert; lia]. }
  assert (Hnth : forall (l : list byte) j, (j < length l)%nat -> l !! j = Some (nth j l x00)).
  { intros l' j Hj. rewrite nth_lookup. by destruct (lookup_lt_is_Some_2 l' j Hj) as [y ->]. }
  assert (Hi : forall (l : list byte) j (y : byte) k,
    (j < length l)%nat -> nth k (<[j := y]> l) x00 = if decide (j = k) then y else nth k l x00).
  { intros l' j y k Hj. rewrite !nth_lookup. case_decide.
    - subst. by rewrite list_lookup_insert_eq.
    - by rewrite list_lookup_insert_ne. }
  rewrite !Hnth by (rewrite ?length_insert; lia). f_equal.
  rewrite !Hi by (rewrite ?length_insert; lia). repeat case_decide; subst; congruence.
Qed.

Lemma chars_at_cut it p :
  (it <= p <= length x)%nat -> chars_at (swap s p) it = take (p - it) (drop it x).
Proof.
  intros Hp. unfold chars_at, swap. cbn [s_buf s_len].
  rewrite (si_len _ _ Hs), zlen_nat.
  set (c := char_at s p). assert (E0 : char_at s (length x) = x00)
    by (rewrite char_at_is; by apply nth_overflow). rewrite E0, (si_buf _ _ Hs).
  rewrite insert_app_r_alt, Nat.sub_diag by lia. cbn [list_insert].
  assert (E : drop it (<[p:=x00]> (x ++ <[0%nat:=c]> [x00])) =
    take (p - it) (drop it x) ++ x00 :: drop (S p) (x ++ [c])).
  { change (<[0%nat:=c]> [x00]) with [c]. rewrite insert_take_drop by (rewrite length_app; simpl; lia).
    rewrite take_app_le by lia. rewrite drop_app_le by (rewrite length_take; lia).
    by rewrite skipn_firstn_comm. }
  rewrite E. apply cstring_app. pose proof (si_nul _ _ Hs). auto.
Qed.

Lemma chars_at_whole it : (it <= length x)%nat -> chars_at s it = drop it x.
Proof.
  intros Hi. unfold chars_at. rewrite (si_buf _ _ Hs), drop_app_le by done.
  apply cstring_app. pose proof (si_nul _ _ Hs). auto.
Qed.

Lemma tokens_rest delim fuel : forall p,
  (p <= length x)%nat -> (length x - p < fuel)%nat ->
  tokens fuel (swap s p) (Some p) delim =
    Some (match drop p x with [] => [] | _ :: r => split_on delim r end, s).
Proof.
  induction fuel as [|fuel IH]; intros p Hp Hf; [lia|]. cbn [tokens].
  unfold sc_str_token_begin. rewrite swap_back by done. rewrite char_at_is.
  destruct (drop p x) as [|b r] eqn:E.
  - assert (length x <= p)%nat by (apply (f_equal length) in E; rewrite length_drop in E; simpl in E; lia).
    rewrite nth_overflow by done. by rewrite decide_True by done.
  - assert (Hlt : (p < length x)%nat) by (apply (f_equal length) in E; rewrite length_drop in E; simpl in E; lia).
    assert (Hb : x !! p = Some b).
    { rewrite <- (Nat.add_0_r p), <- lookup_drop, E. done. }
    rewrite nth_lookup, Hb. simpl default.
    rewrite decide_False.
    2: { pose proof (si_nul _ _ Hs) as Hn. by apply (Forall_lookup_1 _ _ _ _ Hn Hb). }
    assert (Er : drop (S p) x = r) by (rewrite <- Nat.add_1_r, <- drop_drop, E; done).
    rewrite chars_at_whole by lia. rewrite Er. pose proof (strcspn_le r delim).
    assert (length r = length x - S p)%nat by (rewrite <- Er; apply length_drop).
    rewrite IH by lia. rewrite chars_at_cut by lia. rewrite Er.
    rewrite (split_on_strcspn delim r). repeat f_equal.
    + lia.
    + by rewrite <- drop_drop, Er.
Qed.

Lemma tokens_spec delim : tokens (length x + 2) s None delim = Some (split_on delim x, s).
Proof.
  remember (S (length x)) as f eqn:Ef. replace (length x + 2)%nat with (S f) by lia. cbn [tokens]. unfold sc_str_token_begin.
  rewrite chars_at_whole by lia. rewrite drop_0. cbn [Nat.add]. pose proof (strcspn_le x delim).
  rewrite tokens_rest by lia. rewrite chars_at_cut by lia.
  by rewrite drop_0, Nat.sub_0_r, (split_on_strcspn delim x).
Qed.
End token.

(** ** Trimming and substrings *)

Definition strip_front (set x : list byte) : list byte := drop (strspn x set) x.
Definition strip (set x : list byte) : list byte := reverse (strip_front set (reverse (strip_front set x))).

Lemma strspn_le x set : (strspn x set <= length x)%nat.
Proof. induction x as [|b x IH]; simpl; [lia|]. destruct (decide (b ∈ set)); lia. Qed.

Lemma trim_end_spec m head set y :
  no_nul y -> (forall k, (k < length y)%nat -> nth (head + k) m x00 = nth k y x00) ->
  trim_end m head (length y) set = (length y - strspn (reverse y) set)%nat.
Proof.
  induction y as [|b y IH] using rev_ind; intros Hn Hm; [done|].
  apply Forall_app in Hn as [Hn Hb]. apply Forall_cons_1 in Hb as [Hb _].
  rewrite reverse_app, length_app. cbn [length app reverse rev_append]. rewrite Nat.add_1_r. cbn [trim_end].
  rewrite Hm by (rewrite length_app; simpl; lia). rewrite app_nth2, Nat.sub_diag by lia. cbn [nth strspn].
  unfold strchr. destruct (decide (b ∈ set)).
  - rewrite bool_decide_eq_true_2 by tauto. rewrite IH; [lia|done|].
    intros k Hk. rewrite Hm by (rewrite length_app; simpl; lia). by apply app_nth1.
  - by rewrite bool_decide_eq_false_2 by tauto.
Qed.

Lemma strip_take set x :
  strip set x = take (length (strip_front set x) - strspn (reverse (strip_front set x)) set) (strip_front set x).
Proof.
  unfold strip. set (y := strip_front set x). unfold strip_front at 1.
  by rewrite reverse_drop, reverse_involutive, length_reverse.
Qed.

(** [sc_str_trim] removes the characters of the set from both ends. *)
Lemma sc_str_trim_spec s x set :
  str_is s x -> exists s', sc_str_trim (Some s) set = (true, Some s') /\ str_is s' (strip set x).
Proof.
  intros Hs. pose proof Hs as [Hl Hb Hn Hm]. unfold sc_str_trim.
  rewrite (chars_is _ _ Hs), Hl, zlen_nat. set (hd := strspn x set).
  assert (Hhd : (hd <= length x)%nat) by apply strspn_le.
  assert (Ey : strip_front set x = drop hd x) by done.
  assert (Et : trim_end (s_buf s) hd (length x - hd) set =
    (length (drop hd x) - strspn (reverse (drop hd x)) set)%nat).
  { rewrite <- length_drop. apply trim_end_spec; [auto|]. intros k Hk. rewrite length_drop in Hk.
    rewrite Hb, app_nth1 by lia. rewrite !nth_lookup, lookup_drop. done. }
  rewrite Et. pose proof (strip_take set x) as Es. rewrite Ey in Es.
  set (n := (length (drop hd x) - strspn (reverse (drop hd x)) set)%nat) in *.
  assert (Hn' : (n <= length (drop hd x))%nat) by lia.
  destruct (negb (bool_decide (hd = O)) || negb (bool_decide (hd + n = length x)%nat)) eqn:E.
  - eexists. split; [done|]. rewrite Es. rewrite length_drop in Hn'. split; cbn [s_len s_buf].
    + unfold zlen. rewrite length_take, length_drop. lia.
    + rewrite Nat2Z.id, Hb, drop_app_le, take_app_le by (rewrite ?length_drop; lia). done.
    + auto.
    + unfold zlen in *. rewrite length_take, length_drop. lia.
  - apply orb_false_iff in E as [E1%negb_false_iff%bool_decide_eq_true E2%negb_false_iff%bool_decide_eq_true].
    eexists. split; [done|]. rewrite Es, E1, drop_0, take_ge; [done|lia].
Qed.

Lemma sc_str_substring_spec s x a b :
  str_is s x -> 0 <= a <= b -> b <= zlen x ->
  exists s', sc_str_substring (Some s) a b = (true, Some s') /\ str_is s' (mread x a (b - a)).
Proof.
  intros Hs Hab Hb. pose proof Hs as [Hl Hbuf Hn Hm]. unfold sc_str_substring. rewrite Hl.
  rewrite (if_false (_ || _)) by (rewrite !orb_false_iff, !Z.gtb_ltb, !Z.ltb_ge; lia).
  eexists. split; [done|].
  assert (Hz : zlen (mread x a (b - a)) = b - a) by (apply zlen_mread; lia).
  split; cbn [s_len s_buf]; [by rewrite Hz| |unfold mread; auto|lia].
  unfold mread. unfold zlen in *. rewrite Hbuf, drop_app_le, take_app_le by (rewrite ?length_drop; lia). done.
Qed.

(** ** Replacement *)

(** The reference: left to right, non-overlapping; [skip] characters of an
    occurrence are still to be dropped. *)
Fixpoint subst_from (rep with_ : list byte) (skip : nat) (x : list byte) : list byte :=
  match x with
  | [] => []
  | b :: r =>
      match skip with
      | S skip => subst_from rep with_ skip r
      | O =>
          if is_prefix rep x then with_ ++ subst_from rep with_ (length rep - 1) r
          else b :: subst_from rep with_ O r
      end
  end.

Definition replace_all (rep with_ x : list byte) : list byte := subst_from rep with_ O x.

Section replace.
Variables (rep with_ : list byte).
Hypothesis Hrep : rep <> [].

Lemma subst_skip k x : subst_from rep with_ k x = subst_from rep with_ O (drop k x).
Proof.
  revert k. induction x as [|b x IH]; intros k; [by destruct k|].
  destruct k as [|k]; [done|]. cbn [subst_from drop]. by rewrite IH.
Qed.

Lemma strstr_none x : strstr x rep = None -> replace_all rep with_ x = x.
Proof.
  unfold replace_all. induction x as [|b x IH]; [done|]. cbn [strstr subst_from].
  destruct (is_prefix rep (b :: x)); [done|]. destruct (strstr x rep); [done|]. intros _. by rewrite IH.
Qed.

Lemma strstr_some x i :
  strstr x rep = Some i ->
  (i + length rep <= length x)%nat /\
  replace_all rep with_ x = take i x ++ with_ ++ replace_all rep with_ (drop (i + length rep) x).
Proof.
  unfold replace_all. revert i. induction x as [|b x IH]; intros i; cbn [strstr].
  - unfold is_prefix. rewrite take_nil. by destruct rep.
  - cbn [subst_from]. destruct (is_prefix rep (b :: x)) eqn:E.
    + intros [= <-]. unfold is_prefix in E. apply bool_decide_eq_true in E.
      apply (f_equal length) in E as El. rewrite length_take in El. split; [lia|].
      rewrite subst_skip. destruct rep as [|c r]; [done|]. cbn [length drop Nat.add take app].
      by rewrite Nat.sub_0_r || (replace (S (length r) - 1)%nat with (length r) by lia).
    + destruct (strstr x rep) as [j|]; [|done]. intros [= <-]. destruct (IH j eq_refl) as [H1 H2].
      simpl. split; [lia|]. by rewrite H2.
Qed.

Lemma cstring_drop x n : no_nul x -> (n <= length x)%nat -> cstring (drop n (x ++ [x00])) = drop n x.
Proof. intros Hn Hl. rewrite drop_app_le by done. apply cstring_app. auto. Qed.

Lemma replace_same_spec fuel : forall before x,
  length with_ = length rep -> no_nul x -> (length x < fuel)%nat ->
  replace_same fuel before (x ++ [x00]) rep with_ = Some (before ++ replace_all rep with_ x ++ [x00]).
Proof.
  induction fuel as [|fuel IH]; intros before x Hw Hn Hf; [lia|]. cbn [replace_same].
  rewrite cstring_app by done. destruct (strstr x rep) as [i|] eqn:E.
  - destruct (strstr_some x i E) as [Hi ->]. rewrite take_app_le, drop_app_le by lia.
    assert (Hr : (0 < length rep)%nat) by (destruct rep; [done|simpl; lia]).
    rewrite IH; [|done|auto|rewrite length_drop; lia]. by rewrite <- !app_assoc.
  - by rewrite strstr_none.
Qed.

Lemma zlen_replace_same x : length with_ = length rep -> zlen (replace_all rep with_ x) = zlen x.
Proof.
  intros Hw. remember (length x) as n eqn:En. revert x En.
  induction n as [n IH] using lt_wf_ind. intros x ->. destruct (strstr x rep) as [i|] eqn:E.
  - destruct (strstr_some x i E) as [Hi ->].
    assert (Hr : (0 < length rep)%nat) by (destruct rep; [done|simpl; lia]).
    rewrite !zlen_app, (IH (length (drop (i + length rep) x))); [|rewrite length_drop; lia|done].
    unfold zlen. rewrite length_take, length_drop. lia.
  - by rewrite strstr_none.
Qed.

Lemma no_nul_replace x : no_nul with_ -> no_nul x -> no_nul (replace_all rep with_ x).
Proof.
  intros Hw Hx. unfold replace_all. generalize 0%nat.
  induction Hx as [|b x Hb Hx IH]; intros k; [constructor|]. destruct k as [|k]; cbn [subst_from]; [|apply IH].
  case_if; [apply Forall_app; split; [done|apply IH]|]. constructor; [done|apply IH].
Qed.

(** The counting pass gives the number of occurrences and the size of the result,
    or the overflow; the copying pass with that count builds the result. *)
Lemma replace_passes fuel : forall x,
  no_nul x -> (length x < fuel)%nat ->
  exists k, zlen (replace_all rep with_ x) = zlen x + Z.of_nat k * (zlen with_ - zlen rep) /\
    (k = O -> replace_all rep with_ x = x) /\
    (forall tmp, replace_copy k (x ++ [x00]) rep with_ tmp = tmp ++ replace_all rep with_ x ++ [x00]) /\
    forall size count, size <= SC_STR_MAX ->
      replace_count fuel (x ++ [x00]) rep (zlen with_ - zlen rep) size count =
        Some (if size + Z.of_nat k * (zlen with_ - zlen rep) >? SC_STR_MAX then None
              else Some ((count + k)%nat, size + Z.of_nat k * (zlen with_ - zlen rep))).
Proof.
  induction fuel as [|fuel IH]; intros x Hn Hf; [lia|]. cbn [replace_count].
  rewrite cstring_app by done. destruct (strstr x rep) as [i|] eqn:E.
  - destruct (strstr_some x i E) as [Hi ->].
    assert (Hr : (0 < length rep)%nat) by (destruct rep; [done|simpl; lia]).
    destruct (IH (drop (i + length rep) x)) as (k & H1 & _ & H3 & H4); [auto|rewrite length_drop; lia|].
    exists (S k). split_and!; [|done| |].
    + rewrite !zlen_app, H1. unfold zlen. rewrite length_take, length_drop. lia.
    + intros tmp. cbn [replace_copy]. rewrite cstring_app, E by done. cbn [default]. unfold id.
      rewrite take_app_le, drop_app_le by lia. rewrite H3. by rewrite <- !app_assoc.
    + intros size count Hs. rewrite drop_app_le by lia. destruct (size >? _) eqn:Eo; zb.
      * rewrite (if_true (_ >? _)); [done|]. rewrite Z.gtb_ltb. apply Z.ltb_lt. nia.
      * rewrite H4 by lia. replace (size + _ + _) with (size + Z.of_nat (S k) * (zlen with_ - zlen rep)) by lia.
        by replace (S count + k)%nat with (count + S k)%nat by lia.
  - exists O. rewrite strstr_none by done. split_and!; [lia|done|done|].
    intros size count Hs. rewrite (if_false (_ >? _)) by zbool_solve. do 4 f_equal; lia.
Qed.
End replace.

(** C40: the tokenizer and the two-pass replacement compute their specifications.
    The loop over [sc_str_token_begin], which cuts the string in place by moving
    its terminator, ends after reading the pieces between the delimiters in order
    and leaves the string as it was.  [sc_str_replace] ends and leaves in [*str]
    the text with every occurrence replaced from left to right, on the in-place
    path as on the copying path; it fails, and leaves the string alone, exactly
    when the result would be longer than the largest string. *)
Theorem sc_str_spec s x delim rep with_ :
  str_is s x -> no_nul with_ -> rep <> [] -> zlen rep < UINT32_MAX -> zlen with_ < UINT32_MAX ->
  tokens (length x + 2) s None delim = Some (split_on delim x, s) /\
  if zlen (replace_all rep with_ x) >? SC_STR_MAX
  then sc_str_replace (S (length x)) (Some s) rep with_ = Some (false, Some s)
  else exists s', sc_str_replace (S (length x)) (Some s) rep with_ = Some (true, Some s') /\
    str_is s' (replace_all rep with_ x).
Proof.
  intros Hs Hw Hrep Hlr Hlw. split; [by apply tokens_spec|]. pose proof Hs as [Hl Hb Hn Hm].
  unfold sc_str_replace. rewrite (if_false (_ || _)) by (rewrite orb_false_iff, !Z.geb_leb, !Z.leb_gt; lia).
  rewrite Hb, Hl. destruct (zlen with_ - zlen rep =? 0) eqn:Ed; zb.
  - assert (Hwr : length with_ = length rep) by (unfold zlen in Ed; lia).
    rewrite replace_same_spec by (done || lia). rewrite zlen_replace_same by done.
    rewrite (if_false (_ >? _)) by zbool_solve. eexists. split; [done|].
    split; cbn [s_len s_buf app]; [by rewrite zlen_replace_same|done| |by rewrite zlen_replace_same].
    by apply no_nul_replace.
  - destruct (replace_passes rep with_ Hrep (S (length x)) x Hn ltac:(lia)) as (k & H1 & H2 & H3 & H4).
    rewrite H4, H1 by done. case_if; [done|]. destruct k as [|k]; cbn [Nat.add].
    + exists s. split; [done|]. by rewrite H2.
    + eexists. split; [done|]. rewrite H3. pose proof (zlen_nonneg (replace_all rep with_ x)).
      split; cbn [s_len s_buf app]; [|done|by apply no_nul_replace|lia].
      rewrite u32_small; [lia|]. unfold SC_STR_MAX, UINT32_MAX in *. lia.
Qed.

Lemma sc_str_spec_witness :
  exists s, str_is s [x61; x20; x62; x62; x20; x61] /\
  tokens 8 s None [x20] = Some ([[x61]; [x62; x62]; [x61]], s) /\
  exists s', sc_str_replace 7 (Some s) [x62] [x63; x64] = Some (true, Some s') /\
    str_is s' [x61; x20; x63; x64; x63; x64; x20; x61].
Proof.
  destruct (create_is [x61; x20; x62; x62; x20; x61]) as (s & E & Hs);
    [apply (bool_decide_unpack _); reflexivity|by vm_compute|].
  exists s. split; [done|].
  pose proof (sc_str_spec s _ [x20] [x62] [x63; x64] Hs) as H.
  destruct H as [H1 H2]; [apply (bool_decide_unpack _); reflexivity|done|by vm_compute|by vm_compute|].
  split; [exact H1|exact H2].
Defined.
