(* ===== verification/Uri.v ===== *)
(** * URIs (lib/sc/sc_uri.c)

    [sc_uri_create] first computes pointer and length of each part in the input
    ([uri_parse]) and then prints the parts twice into the allocated object: once
    as the full string, once NUL-separated without their delimiters
    ([uri_build]).  Strings are the bytes before the NUL; reading the terminator
    gives NUL.  Lengths are passed to printf as the precision of [%.*s], so the
    model is of strings below 2^31 bytes. *)

From Stdlib Require Import ZArith Lia.
From Stdlib Require Import Strings.Byte.
From stdpp Require Import base list numbers.
From S2P Require Import Prelude Str.

Abbreviation COLON := x3a.
Abbreviation SLASH := x2f.
Abbreviation AT := x40.
Abbreviation LBRACKET := x5b.
Abbreviation RBRACKET := x5d.
Abbreviation QUESTION := x3f.
Abbreviation HASH := x23.

(** ** The C library *)

(** [strchr]: offset of the first occurrence of a character. *)
Fixpoint strchr_at (s : list byte) (c : byte) : option nat :=
  match s with
  | [] => None
  | b :: s => if decide (b = c) then Some O
              else match strchr_at s c with None => None | Some i => Some (S i) end
  end.

Definition SPACES : list byte := [x20; x09; x0a; x0b; x0c; x0d].
Definition DIGITS : list byte := [x30; x31; x32; x33; x34; x35; x36; x37; x38; x39].

Definition digits_value (s : list byte) : Z := foldl (fun v b => v * 10 + (b2z b - 48)) 0 s.

(** [strtoul(s, &end, 10)]: whether [errno] is set, the value and the number of
    characters consumed.  Spaces and a sign may come first; a minus negates the
    value in the unsigned type; without a digit nothing is consumed. *)
Definition strtoul (s : list byte) : bool * Z * nat :=
  let ws := strspn s SPACES in
  let s1 := drop ws s in
  let neg := bool_decide (head s1 = Some x2d) in
  let sg := if neg || bool_decide (head s1 = Some x2b) then 1%nat else 0%nat in
  let s2 := drop sg s1 in
  let nd := strspn s2 DIGITS in
  let v := digits_value (take nd s2) in
  if decide (nd = 0%nat) then (false, 0, 0%nat)
  else if v >? UINT64_MAX then (true, UINT64_MAX, (ws + sg + nd)%nat)
  else (false, if neg then u64 (- v) else v, (ws + sg + nd)%nat).

(** ** Parsing *)

(** The parts as the pointers and lengths of the function delimit them: the
    scheme ends with its colon, user info with its at sign, port, query and
    fragment start with their delimiter; an absent part is empty. *)
Record parts := mk_parts {
  p_scheme : list byte;
  p_authority : bool;
  p_userinfo : list byte;
  p_host : list byte;
  p_port : list byte;
  p_path : list byte;
  p_query : list byte;
  p_fragment : list byte
}.

(** [*(p + i)] *)
Definition char_of (p : list byte) (i : nat) : byte := nth i p x00.

(** The port: [None] is the error return, otherwise the port and what follows. *)
Definition parse_port (pos : list byte) : option (list byte * list byte) :=
  match strchr_at pos COLON with
  | None => Some ([], pos)
  | Some ptr =>
      if decide (char_of pos (S ptr) = x00) then None
      else
        let '(err, val, k) := strtoul (drop (S ptr) pos) in
        if err || (val >? 65536) then None
        else Some (take (S k) (drop ptr pos), drop (S (ptr + k)) pos)
  end.

(** The authority behind [//]: user info, host and port, and what follows. *)
Definition parse_authority (pos : list byte) : option (list byte * list byte * list byte * list byte) :=
  let '(userinfo, pos) :=
    match strchr_at pos AT with
    | None => ([], pos)
    | Some ptr => (take (S ptr) pos, drop (S ptr) pos)
    end in
  let bracket := bool_decide (char_of pos 0 = LBRACKET) in
  let ptr := strcspn pos (if bracket then [RBRACKET] else [COLON; SLASH; QUESTION; HASH]) in
  let host_len := if bracket then S ptr else ptr in
  if bracket && negb (bool_decide (char_of pos (host_len - 1) = RBRACKET)) then None
  else
    match parse_port (drop host_len pos) with
    | None => None
    | Some (port, rest) => Some (userinfo, take host_len pos, port, rest)
    end.

(** Path, query and fragment. *)
Definition parse_path (pos : list byte) : list byte * list byte * list byte :=
  let path_len := strcspn pos [QUESTION; HASH] in
  let path := take path_len pos in
  let pos := drop path_len pos in
  let '(query, pos) :=
    match strchr_at pos QUESTION with
    | None => ([], pos)
    | Some ptr =>
        let q := drop ptr pos in
        (take (strcspn q [HASH]) q, drop (strcspn q [HASH]) q)
    end in
  (path, query, if decide (char_of pos 0 = HASH) then pos else []).

Definition uri_parse (str : list byte) : option parts :=
  match strstr str [COLON] with
  | None => None
  | Some ptr =>
      let scheme := take (S ptr) str in
      let pos := drop (S ptr) str in
      if bool_decide (char_of pos 0 = SLASH) && bool_decide (char_of pos 1 = SLASH) then
        match parse_authority (drop 2 pos) with
        | None => None
        | Some (userinfo, host, port, rest) =>
            let '(path, query, fragment) := parse_path rest in
            Some (mk_parts scheme true userinfo host port path query fragment)
        end
      else
        let '(path, query, fragment) := parse_path pos in
        Some (mk_parts scheme false [] [] [] path query fragment)
  end.

(** ** The object *)

Record sc_uri := mk_uri {
  u_str : list byte;
  u_scheme : list byte;
  u_host : list byte;
  u_userinfo : list byte;
  u_port : list byte;
  u_path : list byte;
  u_query : list byte;
  u_fragment : list byte
}.

(** The full string, first format. *)
Definition uri_string (p : parts) : list byte :=
  p_scheme p ++ (if p_authority p then [SLASH; SLASH] else []) ++ p_userinfo p ++ p_host p ++
  p_port p ++ p_path p ++ p_query p ++ p_fragment p.

(** The parts without their delimiters, second format. *)
Definition uri_build (p : parts) : sc_uri :=
  mk_uri (uri_string p)
    (take (length (p_scheme p) - 1) (p_scheme p))
    (p_host p)
    (take (length (p_userinfo p) - 1) (p_userinfo p))
    (drop 1 (p_port p))
    (p_path p)
    (drop 1 (p_query p))
    (drop 1 (p_fragment p)).

Definition sc_uri_create (str : option (list byte)) : option sc_uri :=
  match str with
  | None => None
  | Some str => match uri_parse str with None => None | Some p => Some (uri_build p) end
  end.

Definition sc_uri_destroy (uri : option sc_uri) : option sc_uri := None.

(** ** Lemmas on the C library *)

(** The string is empty or starts with a character of the set. *)
Definition stop (set t : list byte) : Prop := match t with [] => True | b :: _ => b ∈ set end.

Lemma strchr_none s c : strchr_at s c = None <-> c ∉ s.
Proof.
  induction s as [|b s IH]; simpl; [split; [intros _; apply not_elem_of_nil|done]|].
  rewrite not_elem_of_cons. destruct (decide (b = c)) as [->|]; [split; [done|by intros []]|].
  destruct (strchr_at s c); split; intros H; try done.
  - destruct H as [_ H]. by apply IH in H.
  - split; [congruence|]. by apply IH.
Qed.

Lemma strchr_app a c b : c ∉ a -> strchr_at (a ++ c :: b) c = Some (length a).
Proof.
  induction a as [|x a IH]; simpl; intros Hc; [by rewrite decide_True|].
  apply not_elem_of_cons in Hc as [? ?]. rewrite decide_False by congruence. by rewrite IH.
Qed.

Lemma strchr_some s c i :
  strchr_at s c = Some i -> exists a b, s = a ++ c :: b /\ (c ∉ a) /\ length a = i.
Proof.
  revert i. induction s as [|x s IH]; intros i; simpl; [done|].
  destruct (decide (x = c)) as [->|Hne].
  - intros [= <-]. exists [], s. split; [done|]. split; [apply not_elem_of_nil|done].
  - destruct (strchr_at s c) as [j|]; [|done]. intros [= <-].
    destruct (IH j eq_refl) as (a & b & -> & Ha & <-). exists (x :: a), b.
    split; [done|]. split; [|done]. apply not_elem_of_cons. by split.
Qed.

Lemma strstr_single s c : strstr s [c] = strchr_at s c.
Proof.
  induction s as [|b s IH]; [done|]. cbn [strstr strchr_at]. unfold is_prefix. cbn [length take].
  rewrite take_0. destruct (decide (b = c)) as [->|Hne]; [by rewrite bool_decide_eq_true_2|].
  rewrite bool_decide_eq_false_2 by congruence. by rewrite IH.
Qed.

Lemma strcspn_app a t set :
  Forall (fun b => b ∉ set) a -> stop set t -> strcspn (a ++ t) set = length a.
Proof.
  intros Ha Ht. induction Ha as [|b a Hb Ha IH]; simpl.
  - destruct t as [|b t]; [done|]. simpl in *. by rewrite decide_True.
  - rewrite decide_False by done. by rewrite IH.
Qed.

Lemma strcspn_split s set : exists a t,
  s = a ++ t /\ Forall (fun b => b ∉ set) a /\ stop set t /\ strcspn s set = length a.
Proof.
  induction s as [|b s (a & t & E & Ha & Ht & Hl)]; [by exists [], []|]. simpl.
  destruct (decide (b ∈ set)).
  - by exists [], (b :: s).
  - exists (b :: a), t. rewrite E, <- E, Hl. simpl. split_and!; [by rewrite E|by constructor|done|done].
Qed.

Lemma strspn_app a t set : (forall b, head t = Some b -> b ∉ set) -> strspn (a ++ t) set = strspn a set.
Proof.
  intros Ht. induction a as [|b a IH]; simpl.
  - destruct t as [|b t]; [done|]. simpl. rewrite decide_False; [done|by apply Ht].
  - by rewrite IH.
Qed.

Definition NUMERIC : list byte := SPACES ++ [x2d; x2b] ++ DIGITS.

(** The number ends where a character that cannot be part of it begins. *)
Lemma strtoul_app a t : (forall b, head t = Some b -> b ∉ NUMERIC) -> strtoul (a ++ t) = strtoul a.
Proof.
  intros Ht. assert (H1 : forall b, head t = Some b -> ~ (b ∈ SPACES) /\ b <> x2d /\ b <> x2b /\ b ∉ DIGITS).
  { intros b Hb. specialize (Ht b Hb). unfold NUMERIC in Ht. rewrite !not_elem_of_app, !not_elem_of_cons in Ht. tauto. }
  assert (Hhd : forall l c, c = x2d \/ c = x2b -> (head (l ++ t) = Some c <-> head l = Some c)).
  { intros [|b l] c Hc; [|done]. simpl. split; [|done]. intros Hb. destruct (H1 c Hb) as (_ & ? & ? & _). tauto. }
  unfold strtoul. rewrite strspn_app by (intros b Hb; by apply H1).
  set (ws := strspn a SPACES). rewrite drop_app_le by apply strspn_le. set (s1 := drop ws a).
  rewrite (bool_decide_ext _ _ (Hhd s1 x2d (or_introl eq_refl))), (bool_decide_ext _ _ (Hhd s1 x2b (or_intror eq_refl))).
  set (neg := bool_decide (head s1 = Some x2d)).
  set (sg := if neg || bool_decide (head s1 = Some x2b) then 1%nat else 0%nat).
  assert (Hsg : (sg <= length s1)%nat).
  { unfold sg, neg. destruct s1 as [|b s1]; simpl; [done|]. case_if; lia. }
  rewrite drop_app_le by done. rewrite strspn_app by (intros b Hb; by apply H1).
  rewrite take_app_le by apply strspn_le. done.
Qed.

Lemma strtoul_len s e v k : strtoul s = (e, v, k) -> (k <= length s)%nat.
Proof.
  unfold strtoul. set (ws := strspn s SPACES). set (s1 := drop ws s).
  set (neg := bool_decide (head s1 = Some x2d)).
  set (sg := if neg || bool_decide (head s1 = Some x2b) then 1%nat else 0%nat).
  pose proof (strspn_le s SPACES). pose proof (strspn_le (drop sg s1) DIGITS) as Hd.
  assert (Hsg : (sg <= length s1)%nat).
  { unfold sg, neg. destruct s1 as [|b l]; simpl; [done|]. case_if; lia. }
  unfold s1 in *. rewrite length_drop in *. rewrite length_drop in Hd. fold ws in H.
  destruct (decide _); [intros [= <- <- <-]; lia|]. case_if; intros [= <- <- <-]; lia.
Qed.

(** ** Canonical parts *)

Definition DELIMS : list byte := [COLON; SLASH; QUESTION; HASH].

Record path_ok (path query fragment : list byte) : Prop := {
  po_path : Forall (fun b => b ∉ [QUESTION; HASH]) path;
  po_query : (query = [] /\ QUESTION ∉ fragment) \/ exists q, query = QUESTION :: q /\ HASH ∉ q;
  po_fragment : fragment = [] \/ exists f, fragment = HASH :: f
}.

Definition port_ok (port rest : list byte) : Prop :=
  (port = [] /\ COLON ∉ rest) \/
  exists d v, port = COLON :: d /\ d ++ rest <> [] /\ strtoul (d ++ rest) = (false, v, length d) /\ v <= 65536.

Definition host_ok (host rest : list byte) : Prop :=
  (exists h, host = LBRACKET :: h ++ [RBRACKET] /\ RBRACKET ∉ h) \/
  (head host <> Some LBRACKET /\ Forall (fun b => b ∉ DELIMS) host /\ stop DELIMS rest).

Definition userinfo_ok (userinfo rest : list byte) : Prop :=
  (userinfo = [] /\ AT ∉ rest) \/ exists u, userinfo = u ++ [AT] /\ AT ∉ u.

(** *** Parsing canonical parts gives them back *)

Lemma forall_notin (c : byte) (a : list byte) : c ∉ a -> Forall (fun b => b ∉ [c]) a.
Proof. intros Hc. apply list.Forall_forall. intros b Hb ->%list_elem_of_singleton. done. Qed.

Lemma parse_path_compose path query fragment :
  path_ok path query fragment -> parse_path (path ++ query ++ fragment) = (path, query, fragment).
Proof.
  intros [Hp Hq Hf]. unfold parse_path.
  assert (Hfr : (if decide (char_of fragment 0 = HASH) then fragment else []) = fragment).
  { destruct Hf as [->|[f ->]]; [done|]. by rewrite decide_True. }
  rewrite strcspn_app; [|done|].
  2: { destruct Hq as [[-> _]|[q [-> _]]]; [|left]. destruct Hf as [->|[f ->]]; [done|]. right. left. }
  rewrite take_app_length, drop_app_length. destruct Hq as [[-> Hq]|[q [-> Hq]]].
  - cbn [app]. rewrite (proj2 (strchr_none _ _) Hq). by rewrite Hfr.
  - cbn [app strchr_at]. rewrite decide_True by done. rewrite drop_0.
    change (QUESTION :: q ++ fragment) with ((QUESTION :: q) ++ fragment).
    rewrite strcspn_app.
    + by rewrite take_app_length, drop_app_length, Hfr.
    + apply forall_notin. apply not_elem_of_cons. by split.
    + destruct Hf as [->|[f ->]]; [done|]. left.
Qed.

Lemma parse_port_compose port rest :
  port_ok port rest -> no_nul (port ++ rest) -> parse_port (port ++ rest) = Some (port, rest).
Proof.
  intros [[-> Hc]|(d & v & -> & Hne & Hs & Hv)] Hn; unfold parse_port.
  - cbn [app]. by rewrite (proj2 (strchr_none _ _) Hc).
  - cbn [app strchr_at]. rewrite decide_True by done. rewrite decide_False.
    + change (drop 1 (COLON :: d ++ rest)) with (d ++ rest). rewrite Hs. cbn [orb]. rewrite (if_false (_ >? _)) by zbool_solve. rewrite drop_0.
      change (drop (S (0 + length d)) (COLON :: d ++ rest)) with (drop (length d) (d ++ rest)).
      change (take (S (length d)) (COLON :: d ++ rest)) with (COLON :: take (length d) (d ++ rest)).
      by rewrite take_app_length, drop_app_length.
    + cbn [app] in Hn. apply Forall_cons_1 in Hn as [_ Hn]. unfold char_of. cbn [nth].
      destruct (d ++ rest) as [|b l]; [done|]. simpl. by apply Forall_cons_1 in Hn as [Hb _].
Qed.

Lemma parse_authority_compose userinfo host port rest :
  userinfo_ok userinfo (host ++ port ++ rest) -> host_ok host (port ++ rest) -> port_ok port rest ->
  no_nul (port ++ rest) ->
  parse_authority (userinfo ++ host ++ port ++ rest) = Some (userinfo, host, port, rest).
Proof.
  intros Hu Hh Hp Hn. unfold parse_authority.
  assert (E : match strchr_at (userinfo ++ host ++ port ++ rest) AT with
    | None => ([], userinfo ++ host ++ port ++ rest)
    | Some ptr => (take (S ptr) (userinfo ++ host ++ port ++ rest), drop (S ptr) (userinfo ++ host ++ port ++ rest))
    end = (userinfo, host ++ port ++ rest)).
  { destruct Hu as [[-> Hu]|(u & -> & Hu)]; [cbn [app]; by rewrite (proj2 (strchr_none _ _) Hu)|].
    rewrite <- (app_assoc u). cbn [app]. rewrite strchr_app by done.
    replace (S (length u)) with (length (u ++ [AT])) by (rewrite length_app; simpl; lia).
    replace (u ++ AT :: host ++ port ++ rest) with ((u ++ [AT]) ++ host ++ port ++ rest)
      by (by rewrite <- app_assoc).
    by rewrite take_app_length, drop_app_length. }
  rewrite E. clear E. destruct Hh as [(h & -> & Hh)|(Hh & Hd & Hs)].
  - rewrite bool_decide_eq_true_2 by done.
    assert (E : strcspn ((LBRACKET :: h ++ [RBRACKET]) ++ port ++ rest) [RBRACKET] = S (length h)).
    { rewrite app_comm_cons, <- app_assoc. change (S (length h)) with (length (LBRACKET :: h)).
      apply strcspn_app; [|left]. apply forall_notin. apply not_elem_of_cons. by split. }
    rewrite E. cbn [Nat.sub andb].
    assert (El : S (S (length h)) = length (LBRACKET :: h ++ [RBRACKET])) by (simpl; rewrite length_app; simpl; lia).
    rewrite bool_decide_eq_true_2.
    + cbn [negb]. rewrite El, take_app_length, drop_app_length. by rewrite parse_port_compose.
    + unfold char_of. cbn [app nth]. rewrite <- app_assoc, app_nth2, Nat.sub_diag by lia. done.
  - rewrite bool_decide_eq_false_2.
    + cbn [andb]. rewrite strcspn_app by done. rewrite take_app_length, drop_app_length. by rewrite parse_port_compose.
    + unfold char_of. destruct host as [|b host]; [|simpl in *; congruence]. cbn [app].
      destruct (port ++ rest) as [|b l]; [done|]. simpl in *. intros ->. exact (bool_decide_pack _ Hs).
Qed.

(** *** The parts found are canonical *)

Lemma drop_S_app {A} (a : list A) c s : drop (S (length a)) (a ++ c :: s) = s.
Proof. induction a as [|x a IH]; [done|exact IH]. Qed.

Lemma take_S_app {A} (a : list A) c s : take (S (length a)) (a ++ c :: s) = a ++ [c].
Proof. induction a as [|x a IH]; [done|]. cbn [length take app]. by f_equal. Qed.

(** What is printed of the text behind the port: the path, and the query and
    fragment found behind it. *)
Definition reprinted (rest rest' : list byte) : Prop := exists path t t',
  rest = path ++ t /\ rest' = path ++ t' /\ stop [QUESTION; HASH] t /\ stop [QUESTION; HASH] t' /\
  (t' = [] -> t = []) /\ (forall b, b ∈ t' -> b ∈ t).

Lemma parse_path_ok pos path query fragment :
  no_nul pos -> parse_path pos = (path, query, fragment) ->
  path_ok path query fragment /\ reprinted pos (path ++ query ++ fragment).
Proof.
  unfold parse_path. intros Hn. destruct (strcspn_split pos [QUESTION; HASH]) as (a & t & -> & Ha & Ht & ->).
  rewrite take_app_length, drop_app_length. apply Forall_app in Hn as [_ Hn].
  destruct (strchr_at t QUESTION) as [i|] eqn:Eq.
  - destruct (strchr_some _ _ _ Eq) as (u & q & -> & Hu & <-). rewrite drop_app_length.
    destruct (strcspn_split (QUESTION :: q) [HASH]) as (q1 & f & E & Hq & Hf & ->).
    rewrite E, take_app_length, drop_app_length.
    assert (Hq1 : exists q2, q1 = QUESTION :: q2 /\ HASH ∉ q2).
    { destruct q1 as [|b q2]; simpl in E; [subst f; simpl in Hf; by apply list_elem_of_singleton in Hf|].
      injection E as <- ->. exists q2. split; [done|]. apply Forall_cons_1 in Hq as [_ Hq].
      intros Hin. rewrite list.Forall_forall in Hq. apply (Hq HASH Hin). left. }
    destruct Hq1 as (q2 & -> & Hq2). intros [= <- <- <-].
    assert (Ef : (if decide (char_of f 0 = HASH) then f else []) = f /\ (f = [] \/ exists f', f = HASH :: f')).
    { destruct f as [|b f]; [split; [done|by left]|]. simpl in Hf. apply list_elem_of_singleton in Hf as ->.
      split; [by rewrite decide_True|]. right. by exists f. }
    destruct Ef as [-> Hf']. split; [split; [done|right; by exists q2|done]|].
    exists a, (u ++ QUESTION :: q), ((QUESTION :: q2) ++ f). split_and!; [by rewrite E|done|done|left|intros E0; discriminate E0|].
    intros b Hb. rewrite <- E in Hb. apply elem_of_app. by right.
  - apply strchr_none in Eq. intros [= <- <- <-].
    assert (Ef : (if decide (char_of t 0 = HASH) then t else []) = t /\ (t = [] \/ exists f', t = HASH :: f')).
    { destruct t as [|b t]; [split; [done|by left]|]. simpl in Ht.
      apply elem_of_cons in Ht as [->|Ht]; [destruct Eq; left|]. apply list_elem_of_singleton in Ht as ->.
      split; [by rewrite decide_True|]. right. by exists t. }
    destruct Ef as [-> Hf']. split; [split; [done|by left|done]|]. cbn [app]. by exists a, t, t.
Qed.

Lemma reprinted_in rest rest' b : reprinted rest rest' -> b ∈ rest' -> b ∈ rest.
Proof.
  intros (path & t & t' & -> & -> & _ & _ & _ & Hb). rewrite !elem_of_app. intros [?|?]; [by left|]. right. auto.
Qed.

(** The characters at which a path ends are not part of a number. *)
Lemma stop_numeric t : stop [QUESTION; HASH] t -> forall b, head t = Some b -> b ∉ NUMERIC.
Proof.
  intros Ht b Hb. destruct t as [|c t]; [done|]. injection Hb as ->. simpl in Ht.
  apply elem_of_cons in Ht as [->|Ht]; [|apply list_elem_of_singleton in Ht as ->];
    intros Hin; exact (bool_decide_pack _ Hin).
Qed.

Lemma parse_port_ok pos port rest rest' :
  no_nul pos -> parse_port pos = Some (port, rest) -> reprinted rest rest' ->
  port_ok port rest' /\ (forall b, b ∈ port ++ rest -> b ∈ pos) /\ (port = [] -> rest = pos) /\
  no_nul (port ++ rest).
Proof.
  unfold parse_port. intros Hn. destruct (strchr_at pos COLON) as [i|] eqn:Ec.
  - destruct (strchr_some _ _ _ Ec) as (a & s & -> & Ha & <-).
    pose proof (drop_S_app a COLON s) as E1. rewrite E1, drop_app_length. destruct (decide _) as [|Hz]; [done|].
    destruct (strtoul s) as [[e v] k] eqn:Es. destruct (e || (v >? 65536)) eqn:Ev; [done|].
    apply orb_false_iff in Ev as [-> Ev]. zb. pose proof (strtoul_len _ _ _ _ Es) as Hk.
    intros [= <- <-] (path & t & t' & Er & -> & Ht & Ht' & Hem & Hb).
    assert (Er2 : drop (S (length a + k)) (a ++ COLON :: s) = drop k s)
      by (rewrite <- Nat.add_succ_l, <- drop_drop, E1; done).
    rewrite Er2 in Er. assert (Esd : s = take k s ++ path ++ t) by (by rewrite <- Er, take_drop).
    cbn [take]. split_and!.
    + right. exists (take k s), v. split; [done|]. rewrite length_take, Nat.min_l by done. split_and!.
      * intros E0. apply app_eq_nil in E0 as [E1' E2']. apply app_eq_nil in E2' as [-> ->].
        rewrite (Hem eq_refl) in Esd. rewrite E1' in Esd. cbn [app] in Esd. subst s.
        apply Hz. unfold char_of. rewrite nth_overflow; [done|]. rewrite length_app. simpl. lia.
      * assert (Hs : strtoul ((take k s ++ path) ++ t) = strtoul s) by (by rewrite <- app_assoc, <- Esd).
        rewrite app_assoc, strtoul_app by (by apply stop_numeric).
        rewrite strtoul_app in Hs by (by apply stop_numeric). congruence.
      * done.
    + rewrite Er2. cbn [app]. rewrite take_drop. intros b Hb'. apply elem_of_app. by right.
    + done.
    + rewrite Er2. cbn [app]. rewrite take_drop. by apply Forall_app in Hn as [_ Hn].
  - apply strchr_none in Ec. intros [= <- <-] Hr. split_and!; [|done|done|done].
    left. split; [done|]. intros Hin. apply Ec. by apply (reprinted_in _ rest').
Qed.

Lemma host_split pos :
  let bracket := bool_decide (char_of pos 0 = LBRACKET) in
  let ptr := strcspn pos (if bracket then [RBRACKET] else DELIMS) in
  let host_len := if bracket then S ptr else ptr in
  bracket && negb (bool_decide (char_of pos (host_len - 1) = RBRACKET)) = false ->
  pos = take host_len pos ++ drop host_len pos /\
  ((exists h, take host_len pos = LBRACKET :: h ++ [RBRACKET] /\ RBRACKET ∉ h) \/
   (head (take host_len pos) <> Some LBRACKET /\ Forall (fun b => b ∉ DELIMS) (take host_len pos) /\
    stop DELIMS (drop host_len pos))).
Proof.
  cbv zeta. intros H. split; [by rewrite take_drop|].
  destruct (bool_decide (char_of pos 0 = LBRACKET)) eqn:Eb.
  - left. apply bool_decide_eq_true in Eb. cbn [andb Nat.sub] in H. rewrite Nat.sub_0_r in H.
    apply negb_false_iff, bool_decide_eq_true in H.
    destruct (strcspn_split pos [RBRACKET]) as (a & t & -> & Ha & Ht & E). rewrite E in *.
    unfold char_of in H, Eb. rewrite app_nth2, Nat.sub_diag in H by lia.
    destruct t as [|c t]; [done|]. simpl in H. subst c. rewrite take_S_app.
    destruct a as [|b a]; simpl in Eb; [done|]. subst b. exists a. split; [done|].
    apply Forall_cons_1 in Ha as [_ Ha]. rewrite list.Forall_forall in Ha. intros Hin. apply (Ha _ Hin). left.
  - right. apply bool_decide_eq_false in Eb.
    destruct (strcspn_split pos DELIMS) as (a & t & -> & Ha & Ht & E). rewrite E.
    rewrite take_app_length, drop_app_length. split; [|done].
    intros Hh. apply Eb. unfold char_of. destruct a as [|b a]; [done|]. simpl in *. congruence.
Qed.

Lemma parse_port_rest pos port rest : no_nul pos -> parse_port pos = Some (port, rest) -> no_nul rest.
Proof.
  unfold parse_port. intros Hn. destruct (strchr_at pos COLON); [|by intros [= <- <-]].
  destruct (decide _); [done|]. destruct (strtoul _) as [[e v] k]. case_if; [done|]. intros [= <- <-]. auto.
Qed.

Lemma parse_authority_rest pos userinfo host port rest :
  no_nul pos -> parse_authority pos = Some (userinfo, host, port, rest) -> no_nul rest.
Proof.
  unfold parse_authority. intros Hn.
  destruct (match strchr_at pos AT with None => _ | Some _ => _ end) as [ui pos1] eqn:Eu.
  assert (Hn1 : no_nul pos1) by (destruct (strchr_at pos AT); injection Eu as <- <-; auto).
  case_if; [done|]. destruct (parse_port _) as [[po r]|] eqn:Ep; [|done]. intros [= <- <- <- <-].
  eapply parse_port_rest; [|done]. auto.
Qed.

Lemma parse_authority_ok pos userinfo host port rest rest' :
  no_nul pos -> parse_authority pos = Some (userinfo, host, port, rest) -> reprinted rest rest' ->
  userinfo_ok userinfo (host ++ port ++ rest') /\ host_ok host (port ++ rest') /\ port_ok port rest' /\
  no_nul (port ++ rest').
Proof.
  unfold parse_authority. intros Hn.
  destruct (match strchr_at pos AT with None => _ | Some _ => _ end) as [ui pos1] eqn:Eu.
  assert (Hu : no_nul pos1 /\ ((ui = [] /\ AT ∉ pos1) \/ exists u, ui = u ++ [AT] /\ AT ∉ u)).
  { destruct (strchr_at pos AT) as [i|] eqn:Ea; injection Eu as <- <-.
    - destruct (strchr_some _ _ _ Ea) as (u & s & -> & Hu & <-). rewrite take_S_app, drop_S_app.
      apply Forall_app in Hn as [_ Hn]. apply Forall_cons_1 in Hn as [_ Hn]. split; [done|]. right. by exists u.
    - split; [done|]. left. split; [done|]. by apply strchr_none. }
  clear Eu. destruct Hu as [Hn1 Hu]. pose proof (host_split pos1) as Hh. cbv zeta in Hh. fold DELIMS.
  set (hl := if bool_decide (char_of pos1 0 = LBRACKET) then _ else _) in *.
  destruct (_ && _) in Hh |- *; [done|]. destruct (Hh eq_refl) as [E Hh']. clear Hh.
  destruct (parse_port (drop hl pos1)) as [[port1 rest1]|] eqn:Ep; [|done].
  intros [= <- <- <- <-] Hr.
  assert (Hn2 : no_nul (drop hl pos1)) by auto.
  destruct (parse_port_ok _ _ _ _ Hn2 Ep Hr) as (Hp & Hin & Hp0 & Hn3).
  assert (Hin' : forall b, b ∈ port1 ++ rest' -> b ∈ drop hl pos1).
  { intros b Hb. apply Hin. rewrite elem_of_app in Hb |- *. destruct Hb as [|Hb]; [by left|].
    right. by apply (reprinted_in _ rest'). }
  split_and!; [| |done|].
  - destruct Hu as [[-> Hu]|Hu]; [left|by right]. split; [done|]. intros Hat. apply Hu. rewrite E.
    rewrite elem_of_app in Hat |- *. destruct Hat as [|Hat]; [by left|]. right. by apply Hin'.
  - destruct Hh' as [Hh|(H1 & H2 & H3)]; [by left|right]. split; [done|]. split; [done|].
    destruct Hp as [[-> Hp]|(d & v & -> & _)]; [|left]. cbn [app]. rewrite (Hp0 eq_refl) in Hr.
    destruct Hr as (path & t & t' & Er & -> & _ & Ht' & _). destruct path as [|b path].
    + cbn [app]. destruct t' as [|c t']; [done|]. simpl in Ht' |- *. unfold DELIMS. right. by right.
    + rewrite Er in H3. exact H3.
  - apply list.Forall_forall. intros b Hb. by apply (proj1 (list.Forall_forall _ _) Hn2), Hin'.
Qed.

(** ** Stability *)

Record uri_ok (p : parts) : Prop := {
  uo_scheme : exists s, p_scheme p = s ++ [COLON] /\ COLON ∉ s;
  uo_path : path_ok (p_path p) (p_query p) (p_fragment p);
  uo_authority :
    let rest := p_path p ++ p_query p ++ p_fragment p in
    if p_authority p then
      userinfo_ok (p_userinfo p) (p_host p ++ p_port p ++ rest) /\
      host_ok (p_host p) (p_port p ++ rest) /\ port_ok (p_port p) rest /\ no_nul (p_port p ++ rest)
    else
      p_userinfo p = [] /\ p_host p = [] /\ p_port p = [] /\
      ~ (char_of rest 0 = SLASH /\ char_of rest 1 = SLASH)
}.

Lemma uri_parse_string p : uri_ok p -> uri_parse (uri_string p) = Some p.
Proof.
  intros [(s & Es & Hs) Hp Ha]. destruct p as [sc au ui ho po pa qu fr]. unfold uri_string, uri_parse.
  cbn [p_scheme p_authority p_userinfo p_host p_port p_path p_query p_fragment] in *. subst sc.
  rewrite strstr_single, <- app_assoc. cbn [app]. rewrite strchr_app by done.
  rewrite drop_S_app, take_S_app. destruct au.
  - destruct Ha as (Hu & Hh & Hpo & Hn). rewrite !bool_decide_eq_true_2 by done. cbn [andb app].
    change (drop 2 (SLASH :: SLASH :: ?l)) with l.
    by rewrite parse_authority_compose, parse_path_compose.
  - destruct Ha as (-> & -> & -> & Hns). cbn [app]. rewrite <- bool_decide_and, bool_decide_eq_false_2 by done.
    by rewrite parse_path_compose.
Qed.

Lemma no_slashes rest rest' :
  reprinted rest rest' -> ~ (char_of rest 0 = SLASH /\ char_of rest 1 = SLASH) ->
  ~ (char_of rest' 0 = SLASH /\ char_of rest' 1 = SLASH).
Proof.
  intros (path & t & t' & -> & -> & _ & Ht' & _) H [H0 H1]. unfold char_of in *.
  assert (Hns : nth 0 t' x00 <> SLASH).
  { destruct t' as [|b t']; [done|]. simpl in *. intros ->. exact (bool_decide_pack _ Ht'). }
  destruct path as [|b [|c path]]; simpl in *; tauto.
Qed.

Lemma uri_parse_ok s p : no_nul s -> uri_parse s = Some p -> uri_ok p.
Proof.
  unfold uri_parse. intros Hn. rewrite strstr_single.
  destruct (strchr_at s COLON) as [i|] eqn:Ec; [|done].
  destruct (strchr_some _ _ _ Ec) as (a & pos & -> & Ha & <-). rewrite take_S_app, drop_S_app.
  apply Forall_app in Hn as [_ Hn]. apply Forall_cons_1 in Hn as [_ Hn].
  rewrite <- bool_decide_and. destruct (bool_decide _) eqn:Es.
  - destruct (parse_authority (drop 2 pos)) as [[[[ui ho] po] rest]|] eqn:Eau; [|done].
    destruct (parse_path rest) as [[pa qu] fr] eqn:Epa. intros [= <-].
    assert (Hnr : no_nul rest) by (eapply parse_authority_rest; [|done]; auto).
    destruct (parse_path_ok _ _ _ _ Hnr Epa) as [Hp Hr].
    split; cbn [p_scheme p_authority p_userinfo p_host p_port p_path p_query p_fragment]; [by exists a|done|].
    eapply parse_authority_ok; [|done|done]. auto.
  - apply bool_decide_eq_false in Es. destruct (parse_path pos) as [[pa qu] fr] eqn:Epa. intros [= <-].
    destruct (parse_path_ok _ _ _ _ Hn Epa) as [Hp Hr].
    split; cbn [p_scheme p_authority p_userinfo p_host p_port p_path p_query p_fragment]; [by exists a|done|].
    split_and!; [done..|]. by apply (no_slashes pos).
Qed.

Lemma sc_uri_create_str s u :
  no_nul s -> sc_uri_create (Some s) = Some u -> sc_uri_create (Some (u_str u)) = Some u.
Proof.
  unfold sc_uri_create. intros Hn. destruct (uri_parse s) as [p|] eqn:E; [|done]. intros [= <-].
  cbn [u_str uri_build]. by rewrite (uri_parse_string p (uri_parse_ok s p Hn E)).
Qed.

(** A number of digits only is read whole. *)
Lemma strspn_all a set : Forall (fun b => b ∈ set) a -> strspn a set = length a.
Proof. induction 1 as [|b a Hb Ha IH]; simpl; [done|]. rewrite decide_True by done. by rewrite IH. Qed.

Lemma strtoul_digits ds :
  ds <> [] -> Forall (fun b => b ∈ DIGITS) ds -> digits_value ds <= UINT64_MAX ->
  strtoul ds = (false, digits_value ds, length ds).
Proof.
  intros Hne Hd Hv. unfold strtoul.
  assert (Hh : forall b, head ds = Some b -> b ∈ DIGITS).
  { intros b Hb. destruct ds as [|c ds]; [done|]. injection Hb as ->. by apply Forall_cons_1 in Hd as [Hd _]. }
  assert (Hws : strspn ds SPACES = 0%nat).
  { destruct ds as [|b ds]; [done|]. simpl. rewrite decide_False; [done|]. intros Hs.
    specialize (Hh b eq_refl). clear -Hs Hh. apply (bool_decide_pack _) in Hs, Hh. by destruct b. }
  rewrite Hws, drop_0.
  assert (Hno : forall c, c = x2d \/ c = x2b -> bool_decide (head ds = Some c) = false).
  { intros c Hc. apply bool_decide_eq_false. intros Hb. specialize (Hh c Hb).
    by destruct Hc as [-> | ->]; apply (bool_decide_pack _) in Hh. }
  rewrite !Hno by tauto. cbn [orb]. rewrite drop_0, strspn_all, firstn_all by done.
  rewrite decide_False by (destruct ds; [done|discriminate]). by rewrite (if_false (_ >? _)) by zbool_solve.
Qed.

(** The address of a node, [scheme://name@host:port], as the configuration gives
    it: every part is found. *)
Lemma sc_uri_node_address scheme name host ds :
  COLON ∉ scheme -> AT ∉ name -> host <> [] -> head host <> Some LBRACKET ->
  Forall (fun b => b ∉ DELIMS) host -> ds <> [] -> Forall (fun b => b ∈ DIGITS) ds -> digits_value ds <= 65535 ->
  let s := (scheme ++ [COLON]) ++ [SLASH; SLASH] ++ (name ++ [AT]) ++ host ++ (COLON :: ds) in
  sc_uri_create (Some s) = Some (mk_uri s scheme host name ds [] [] []).
Proof.
  intros Hs Hn Hh0 Hh Hhd Hd0 Hd Hv s.
  set (p := mk_parts (scheme ++ [COLON]) true (name ++ [AT]) host (COLON :: ds) [] [] []).
  assert (Hok : uri_ok p).
  { split; cbn [p_scheme p_authority p_userinfo p_host p_port p_path p_query p_fragment p app];
      [by exists scheme|split; [done|left; split; [done|apply not_elem_of_nil]|by left]|]. split_and!.
    - right. by exists name.
    - right. split_and!; [done|done|left].
    - right. exists ds, (digits_value ds). rewrite app_nil_r. split_and!; [done|done| |lia].
      apply strtoul_digits; [done|done|]. unfold UINT64_MAX. lia.
    - constructor; [done|]. rewrite app_nil_r. eapply list.Forall_impl; [exact Hd|].
      intros b Hb ->. exact (bool_decide_pack _ Hb). }
  pose proof (uri_parse_string p Hok) as E.
  assert (Es : uri_string p = s).
  { unfold uri_string, s, p. cbn [p_scheme p_authority p_userinfo p_host p_port p_path p_query p_fragment].
    by rewrite !app_nil_r. }
  unfold sc_uri_create. rewrite <- Es, E. unfold uri_build. rewrite Es. unfold p.
  cbn [p_scheme p_authority p_userinfo p_host p_port p_path p_query p_fragment drop]. f_equal. f_equal.
  - rewrite length_app, Nat.add_sub. apply take_app_length.
  - rewrite length_app, Nat.add_sub. apply take_app_length.
Qed.

(** Parsing a URI is stable.  When any C string parses, the full string kept
    in the object parses again, to the same object with the same parts.  Nodes are
    copied, encoded and decoded by their full string alone, so this is what makes
    [meta_copy] and the round trip of [meta_encode] and [meta_decode] keep the
    addresses.  The parts are the substrings the full string is printed from,
    without their delimiters. *)
Theorem sc_uri_stable s u :
  no_nul s -> sc_uri_create (Some s) = Some u ->
  sc_uri_create (Some (u_str u)) = Some u /\
  exists p, uri_ok p /\ u = uri_build p /\ u_str u = uri_string p.
Proof.
  intros Hn E. split; [by apply (sc_uri_create_str s)|]. unfold sc_uri_create in E.
  destruct (uri_parse s) as [p|] eqn:Ep; [|done]. injection E as <-. exists p.
  split; [by apply (uri_parse_ok s)|done].
Qed.

(** [tcp://n@h/p:80]: the port is searched in the whole rest of the string. *)
Definition odd_uri : list byte :=
  [x74; x63; x70; x3a; x2f; x2f; x6e; x40; x68; x2f; x70; x3a; x38; x30].

Lemma sc_uri_stable_witness : exists u,
  sc_uri_create (Some odd_uri) = Some u /\ u_port u = [x38; x30] /\ u_path u = [] /\
  sc_uri_create (Some (u_str u)) = Some u.
Proof.
  destruct (sc_uri_create (Some odd_uri)) as [u|] eqn:E; [|by vm_compute in E].
  exists u. split; [done|]. split; [vm_compute in E; injection E as <-; reflexivity|].
  split; [vm_compute in E; injection E as <-; reflexivity|].
  refine (proj1 (sc_uri_stable odd_uri u _ E)). apply (bool_decide_unpack _). reflexivity.
Defined.

(** The path in front of a colon is lost, and so is a fragment in front of a
    question mark; a port of 65536 is accepted. *)
Lemma sc_uri_loses_text :
  u_str <$> sc_uri_create (Some odd_uri) = Some [x74; x63; x70; x3a; x2f; x2f; x6e; x40; x68; x3a; x38; x30] /\
  u_str <$> sc_uri_create (Some [x78; x3a; x23; x61; x3f; x62]) = Some [x78; x3a; x3f; x62] /\
  u_port <$> sc_uri_create (Some [x78; x3a; x2f; x2f; x68; x3a; x36; x35; x35; x33; x36]) =
    Some [x36; x35; x35; x33; x36].
Proof. split_and!; vm_compute; reflexivity. Qed.
