(* ===== verification/Meta.v ===== *)
(** * Cluster configuration (src/meta.c)

    The members of the cluster with their addresses, the number of voters, and
    the previous configuration while a change is not yet committed.  Arrays are
    lists (Queue.v shows that sc_array behaves as one), strings are the characters
    of a string object or [None] for null, URIs are the parsed objects of Uri.v. *)

From Stdlib Require Import ZArith Lia.
From Stdlib Require Import Strings.Byte.
From stdpp Require Import base list numbers.
From S2P Require Import Prelude Str Uri Buf Msg.

(** [enum meta_role]; the decoder casts an arbitrary byte to it. *)
Definition META_LEADER : Z := 0.
Definition META_FOLLOWER : Z := 1.

(** The characters of the string that [sc_str_create] returns. *)
Definition str_create (s : option (list byte)) : option (list byte) := chars <$> sc_str_create s.

(** [sc_str_set(&old, s)] *)
Definition str_set (old s : option (list byte)) : option (list byte) :=
  match str_create s with None => old | Some x => Some x end.

(** [strcmp(a, b) == 0] for a string object that is present. *)
Definition str_is_eq (a : option (list byte)) (b : list byte) : bool := bool_decide (a = Some b).

Record meta_node := mk_node {
  mn_name : option (list byte);
  mn_role : Z;
  mn_uris : list sc_uri
}.

(** [struct meta]; the last field is the pointer [prev]. *)
#[warnings="-register-all"]
Inductive meta := mk_meta
  (name : option (list byte)) (uris : option (list byte)) (term index voter : Z)
  (nodes : list meta_node) (prev : option meta).

Definition m_name (m : meta) := let 'mk_meta name _ _ _ _ _ _ := m in name.
Definition m_uris (m : meta) := let 'mk_meta _ uris _ _ _ _ _ := m in uris.
Definition m_term (m : meta) := let 'mk_meta _ _ term _ _ _ _ := m in term.
Definition m_index (m : meta) := let 'mk_meta _ _ _ index _ _ _ := m in index.
Definition m_voter (m : meta) := let 'mk_meta _ _ _ _ voter _ _ := m in voter.
Definition m_nodes (m : meta) := let 'mk_meta _ _ _ _ _ nodes _ := m in nodes.
Definition m_prev (m : meta) := let 'mk_meta _ _ _ _ _ _ prev := m in prev.

Definition with_prev (m : meta) (p : option meta) : meta :=
  mk_meta (m_name m) (m_uris m) (m_term m) (m_index m) (m_voter m) (m_nodes m) p.
Definition with_nodes (m : meta) (ns : list meta_node) : meta :=
  mk_meta (m_name m) (m_uris m) (m_term m) (m_index m) (m_voter m) ns (m_prev m).
Definition with_term (m : meta) (t : Z) : meta :=
  mk_meta (m_name m) (m_uris m) t (m_index m) (m_voter m) (m_nodes m) (m_prev m).
Definition with_index (m : meta) (i : Z) : meta :=
  mk_meta (m_name m) (m_uris m) (m_term m) i (m_voter m) (m_nodes m) (m_prev m).

(** ** Nodes *)

Definition meta_node_init (uri : sc_uri) : meta_node :=
  mk_node (str_create (Some (u_userinfo uri))) META_FOLLOWER [uri].

Definition put_uris (b : sc_buf) (uris : list sc_uri) : sc_buf :=
  foldl (fun b uri => sc_buf_put_str b (Some (u_str uri))) b uris.

Definition meta_node_encode (n : meta_node) (b : sc_buf) : sc_buf :=
  let b := sc_buf_put_str b (mn_name n) in
  let b := sc_buf_put_8 b (mn_role n) in
  let b := sc_buf_put_32 b (u32 (zlen (mn_uris n))) in
  put_uris b (mn_uris n).

(** [None] is the failed assertion on an address that does not parse. *)
Fixpoint get_uris (count : nat) : bufM (option (list sc_uri)) :=
  match count with
  | O => mret (Some [])
  | S count =>
      s ← sc_buf_get_str;
      match sc_uri_create s with
      | None => mret None
      | Some uri =>
          r ← get_uris count;
          mret (match r with None => None | Some us => Some (uri :: us) end)
      end
  end.

Definition meta_node_decode : bufM (option meta_node) :=
  name ← sc_buf_get_str;
  role ← sc_buf_get_8;
  count ← sc_buf_get_32;
  uris ← get_uris (Z.to_nat count);
  mret (match uris with None => None | Some us => Some (mk_node (str_create name) role us) end).

(** ** The configuration *)

Definition meta_init (cluster_name : option (list byte)) : meta :=
  mk_meta (str_create cluster_name) (str_create (Some [])) 0 0 0 [] None.

Definition meta_term (m : meta) : meta :=
  mk_meta None None (m_term m) (m_index m) (m_voter m) [] None.

(** [None] would be a null URI in the copy. *)
Fixpoint copy_uris (us : list sc_uri) : option (list sc_uri) :=
  match us with
  | [] => Some []
  | u :: us =>
      match sc_uri_create (Some (u_str u)), copy_uris us with
      | Some v, Some vs => Some (v :: vs)
      | _, _ => None
      end
  end.

Definition meta_node_copy (src : meta_node) : option meta_node :=
  match copy_uris (mn_uris src) with
  | None => None
  | Some us => Some (mk_node (str_create (mn_name src)) (mn_role src) us)
  end.

Fixpoint copy_nodes (ns : list meta_node) : option (list meta_node) :=
  match ns with
  | [] => Some []
  | n :: ns =>
      match meta_node_copy n, copy_nodes ns with
      | Some n, Some ns => Some (n :: ns)
      | _, _ => None
      end
  end.

(** The destination is terminated and initialised again, so the copy depends on
    the source only. *)
Fixpoint meta_copy (src : meta) : option meta :=
  let 'mk_meta name uris term index voter nodes prev := src in
  let m := meta_init name in
  match copy_nodes nodes with
  | None => None
  | Some ns =>
      let m := mk_meta (m_name m) (str_set (m_uris m) uris) term index voter ns None in
      match prev with
      | None => Some m
      | Some p => match meta_copy p with None => None | Some p => Some (with_prev m (Some p)) end
      end
  end.

Definition put_nodes (b : sc_buf) (ns : list meta_node) : sc_buf :=
  foldl (fun b n => meta_node_encode n b) b ns.

Fixpoint meta_encode (m : meta) (b : sc_buf) : sc_buf :=
  let 'mk_meta name uris term index voter nodes prev := m in
  let b := sc_buf_put_str b name in
  let b := sc_buf_put_str b uris in
  let b := sc_buf_put_64 b term in
  let b := sc_buf_put_64 b index in
  let b := sc_buf_put_32 b voter in
  let b := sc_buf_put_32 b (u32 (zlen nodes)) in
  let b := put_nodes b nodes in
  match prev with
  | None => sc_buf_put_bool b false
  | Some p => meta_encode p (sc_buf_put_bool b true)
  end.

Fixpoint get_nodes (count : nat) : bufM (option (list meta_node)) :=
  match count with
  | O => mret (Some [])
  | S count =>
      n ← meta_node_decode;
      match n with
      | None => mret None
      | Some n =>
          r ← get_nodes count;
          mret (match r with None => None | Some ns => Some (n :: ns) end)
      end
  end.

(** Decoding into [m]: the nodes are added to those [m] has, [prev] is replaced
    only when one follows.  Every level of nesting consumes the buffer; [fuel]
    bounds the levels, [None] is a failed assertion or exhausted fuel. *)
Fixpoint meta_decode (fuel : nat) (m : meta) : bufM (option meta) :=
  match fuel with
  | O => mret None
  | S fuel =>
      s ← sc_buf_get_str;
      let name := str_set (m_name m) s in
      s ← sc_buf_get_str;
      let uris := str_set (m_uris m) s in
      term ← sc_buf_get_64;
      index ← sc_buf_get_64;
      voter ← sc_buf_get_32;
      count ← sc_buf_get_32;
      ns ← get_nodes (Z.to_nat count);
      match ns with
      | None => mret None
      | Some ns =>
          let m := mk_meta name uris term index voter (m_nodes m ++ ns) (m_prev m) in
          prev ← sc_buf_get_bool;
          if (prev : bool) then
            p ← meta_decode fuel (meta_init (m_name m));
            mret (match p with None => None | Some p => Some (with_prev m (Some p)) end)
          else mret (Some m)
      end
  end.

(** The addresses in the order clients are told: the leader's first.  [tmp] is the
    text that [sc_buf_put_text] appends. *)
Definition uri_text (n : meta_node) : list byte := concat (map (fun u => u_str u ++ [x20]) (mn_uris n)).

Fixpoint leader_text (ns : list meta_node) : list byte :=
  match ns with
  | [] => []
  | n :: ns => if mn_role n =? META_LEADER then uri_text n else leader_text ns
  end.

Fixpoint others_text (ns : list meta_node) : list byte :=
  match ns with
  | [] => []
  | n :: ns => if negb (mn_role n =? META_LEADER) then uri_text n ++ others_text ns else others_text ns
  end.

Definition meta_update (m : meta) : meta :=
  let tmp := leader_text (m_nodes m) ++ others_text (m_nodes m) in
  mk_meta (m_name m) (str_set (m_uris m) (Some tmp)) (m_term m) (m_index m)
    (u32 (zlen (m_nodes m))) (m_nodes m) (m_prev m).

Definition same_address (r uri : sc_uri) : bool :=
  bool_decide (u_host r = u_host uri) && bool_decide (u_port r = u_port uri).

Fixpoint validate_nodes (ns : list meta_node) (uri : sc_uri) : bool :=
  match ns with
  | [] => true
  | n :: ns =>
      if str_is_eq (mn_name n) (u_userinfo uri) then false
      else if existsb (fun r => same_address r uri) (mn_uris n) then false
      else validate_nodes ns uri
  end.

Definition meta_validate (m : meta) (uri : sc_uri) : bool :=
  if bool_decide (u_userinfo uri = []) || bool_decide (u_scheme uri = []) || bool_decide (u_port uri = [])
  then false
  else validate_nodes (m_nodes m) uri.

Definition meta_exists (m : meta) (name : list byte) : bool :=
  existsb (fun n => str_is_eq (mn_name n) name) (m_nodes m).

(** [None] when an address in use fails to parse again; the inner value is the
    result with the configuration left behind. *)
Definition meta_add (m : meta) (uri : sc_uri) : option (bool * meta) :=
  if negb (meta_validate m uri) then Some (false, m)
  else
    match meta_copy m, sc_uri_create (Some (u_str uri)) with
    | Some tmp, Some u =>
        let m := with_prev m (Some tmp) in
        let m := with_nodes m (m_nodes m ++ [meta_node_init u]) in
        Some (true, meta_update m)
    | _, _ => None
    end.

Fixpoint remove_first (ns : list meta_node) (name : list byte) : list meta_node :=
  match ns with
  | [] => []
  | n :: ns => if str_is_eq (mn_name n) name then ns else n :: remove_first ns name
  end.

Definition meta_remove (m : meta) (name : list byte) : option (bool * meta) :=
  if negb (meta_exists m name) then Some (false, m)
  else
    match meta_copy m with
    | None => None
    | Some tmp =>
        let m := with_prev m (Some tmp) in
        let m := with_nodes m (remove_first (m_nodes m) name) in
        Some (true, meta_update m)
    end.

Definition meta_remove_prev (m : meta) : meta := with_prev m None.

Definition meta_rollback (m : meta) (index : Z) : option meta :=
  match m_prev m with
  | None => Some m
  | Some tmp => if m_index tmp <=? index then Some m else meta_copy tmp
  end.

Definition meta_replace (fuel : nat) (data : list byte) : option meta :=
  fst (meta_decode fuel (meta_init (Some [])) (sc_buf_wrap data (zlen data) SC_BUF_READ)).

Definition meta_set_leader (m : meta) (name : option (list byte)) : meta :=
  let set n :=
    mk_node (mn_name n)
      (if match name with Some x => str_is_eq (mn_name n) x | None => false end
       then META_LEADER else META_FOLLOWER) (mn_uris n) in
  meta_update (with_nodes m (map set (m_nodes m))).

(** *** Addresses of the configuration file *)

Definition node_add_uri (n : meta_node) (uri : sc_uri) : meta_node :=
  mk_node (mn_name n) (mn_role n) (mn_uris n ++ [uri]).

(** Add the address to the node of that name, or a new node. *)
Fixpoint place_uri (ns : list meta_node) (uri : sc_uri) : list meta_node :=
  match ns with
  | [] => [meta_node_init uri]
  | n :: ns => if str_is_eq (mn_name n) (u_userinfo uri) then node_add_uri n uri :: ns else n :: place_uri ns uri
  end.

(** The loop over the tokens: [None] is the jump to the error exit. *)
Fixpoint parse_tokens (ns : list meta_node) (toks : list (list byte)) : bool * list meta_node :=
  match toks with
  | [] => (true, ns)
  | tok :: toks =>
      if bool_decide (tok = []) then (true, ns)
      else
        match sc_uri_create (Some tok) with
        | None => (false, ns)
        | Some uri =>
            if bool_decide (u_userinfo uri = []) || bool_decide (u_port uri = []) || bool_decide (u_host uri = [])
            then (false, ns)
            else parse_tokens (place_uri ns uri) toks
        end
  end.

Definition meta_parse_uris (m : meta) (addrs : option (list byte)) : bool * meta :=
  match sc_str_create addrs with
  | None => (false, m)
  | Some dup =>
      match tokens (length (s_buf dup) + 1) dup None [x20] with
      | None => (false, m)
      | Some (toks, _) =>
          let '(rc, ns) := parse_tokens (m_nodes m) toks in
          let m := with_nodes m ns in
          if rc then (true, meta_update m)
          else (false, mk_meta None None (m_term m) (m_index m) (m_voter m) ns (m_prev m))
      end
  end.

(** ** Readers *)

(** [r] reads the value [v] from the bytes [bs], whatever follows. *)
Definition reads {A} (r : bufM A) (bs : list byte) (v : A) : Prop := forall b rest,
  buf_wf b -> b_err b = 0 -> contents b = bs ++ rest ->
  exists b', r b = (v, b') /\ buf_wf b' /\ b_err b' = 0 /\ contents b' = rest.

Lemma reads_ret {A} (v : A) : reads (mret v) [] v.
Proof. intros b rest Hwf He E. by exists b. Qed.

Lemma reads_bind {A B} (r : bufM A) bs v (k : A -> bufM B) cs w :
  reads r bs v -> reads (k v) cs w -> reads (r ≫= k) (bs ++ cs) w.
Proof.
  intros Hr Hk b rest Hwf He E. rewrite <- app_assoc in E. destruct (Hr b _ Hwf He E) as (b1 & E1 & Hwf1 & He1 & Hc1).
  destruct (Hk b1 _ Hwf1 He1 Hc1) as (b2 & E2 & H2). exists b2. unfold mbind, bufM_bind. by rewrite E1.
Qed.

(** A reader step of Buf.v. *)
Lemma reads_consumed {A} (r : bufM A) bs v :
  (forall b rest, buf_wf b -> b_err b = 0 -> contents b = bs ++ rest -> exists b', r b = (v, b') /\ consumed b bs rest b') ->
  reads r bs v.
Proof.
  intros H b rest Hwf He E. destruct (H b rest Hwf He E) as (b1 & Hg & Hc). exists b1.
  split_and!; [done|apply Hc|by rewrite (consumed_err _ _ _ _ Hc)|apply Hc].
Qed.

Lemma reads_int n v : 0 <= v < 2 ^ (8 * Z.of_nat n) -> reads (sc_buf_get n) (le_split n v) v.
Proof. intros Hv. apply reads_consumed. intros. by apply sc_buf_get_int. Qed.

Lemma reads_str s : str_ok s -> reads sc_buf_get_str (enc_str s) s.
Proof. intros Hs. apply reads_consumed. intros. by apply sc_buf_get_str_spec. Qed.

Lemma reads_bool (v : bool) : reads sc_buf_get_bool (le_split 1 (if v then 1 else 0)) v.
Proof. apply reads_consumed. intros. by apply sc_buf_get_bool_spec. Qed.

(** A block of known length. *)
Lemma reads_data d : reads (sc_buf_get_data (zlen d)) d d.
Proof.
  apply reads_consumed. intros b rest Hwf He E. exists (with_rpos b (b_rpos b + zlen d)).
  split; [|by apply consumed_intro]. pose proof (zlen_contents b Hwf) as Hl. rewrite E, zlen_app in Hl.
  pose proof (zlen_nonneg d). pose proof (zlen_nonneg rest). pose proof Hwf as [H1 H2 H3 H4 H5 H6].
  assert (Eu : b_rpos b +₃₂ zlen d = b_rpos b + zlen d) by (apply u32_small; lia).
  unfold sc_buf_get_data, sc_buf_peek_data. rewrite Eu, He. zif. cbn [negb orb Z.eqb]. zif. rewrite Eu. f_equal.
  unfold contents in E. assert (Ed : mread (mread (b_mem b) (b_rpos b) (b_wpos b - b_rpos b)) 0 (zlen d) = d).
  { rewrite E. unfold mread. rewrite zlen_nat. simpl. by rewrite drop_0, take_app_length. }
  rewrite mread_mread in Ed by lia. by rewrite Z.add_0_r in Ed.
Qed.

(** ** Well-formed configurations *)

(** A string object holds at most [SC_STR_MAX] characters. *)
Definition fits (s : option (list byte)) : Prop :=
  match s with None => True | Some x => no_nul x /\ zlen x <= SC_STR_MAX end.

(** The address can be parsed again from its string. *)
Definition uri_good (u : sc_uri) : Prop :=
  sc_uri_create (Some (u_str u)) = Some u /\ fits (Some (u_str u)) /\ fits (Some (u_userinfo u)).

Record node_ok (n : meta_node) : Prop := {
  no_name : fits (mn_name n);
  no_role : is_u8 (mn_role n);
  no_uris : Forall uri_good (mn_uris n);
  no_count : is_u32 (zlen (mn_uris n))
}.

Fixpoint meta_ok (m : meta) : Prop :=
  let 'mk_meta name uris term index voter nodes prev := m in
  (is_Some name /\ fits name) /\ (is_Some uris /\ fits uris) /\ is_u64 term /\ is_u64 index /\ is_u32 voter /\
  Forall node_ok nodes /\ is_u32 (zlen nodes) /\
  match prev with None => True | Some p => meta_ok p end.

Fixpoint depth (m : meta) : nat :=
  let 'mk_meta _ _ _ _ _ _ prev := m in
  match prev with None => 1%nat | Some p => S (depth p) end.

Lemma meta_ind2 (P : meta -> Prop) :
  (forall n u t i v ns, P (mk_meta n u t i v ns None)) ->
  (forall n u t i v ns p, P p -> P (mk_meta n u t i v ns (Some p))) -> forall m, P m.
Proof.
  intros H0 H1. fix IH 1. intros [n u t i v ns [p|]]; [apply H1, IH|apply H0].
Qed.

Lemma str_create_fits s : fits s -> str_create s = s.
Proof.
  destruct s as [x|]; [|done]. intros [Hn Hm]. unfold str_create.
  destruct (create_is x Hn Hm) as (s & -> & Hs). simpl. by rewrite (chars_is _ _ Hs).
Qed.

Lemma str_set_fits old s : is_Some s -> fits s -> str_set old s = s.
Proof. intros [x ->] Hf. unfold str_set. by rewrite str_create_fits. Qed.

(** ** Copying *)

Lemma copy_uris_id us : Forall uri_good us -> copy_uris us = Some us.
Proof. induction 1 as [|u us [Hu _] Hus IH]; [done|]. cbn [copy_uris]. by rewrite Hu, IH. Qed.

Lemma copy_nodes_id ns : Forall node_ok ns -> copy_nodes ns = Some ns.
Proof.
  induction 1 as [|n ns Hn Hns IH]; [done|]. cbn [copy_nodes]. unfold meta_node_copy.
  destruct Hn as [Hname _ Hu _]. rewrite copy_uris_id, str_create_fits, IH by done. by destruct n.
Qed.

Lemma meta_copy_id m : meta_ok m -> meta_copy m = Some m.
Proof.
  induction m as [n u t i v ns|n u t i v ns p IH] using meta_ind2;
    intros ([Hn Hnf] & [Hu Huf] & _ & _ & _ & Hns & _ & Hp); cbn [meta_copy].
  all: rewrite copy_nodes_id by done; unfold meta_init; cbn [m_name m_uris];
    rewrite (str_create_fits n), (str_set_fits _ u) by done.
  - done.
  - by rewrite IH.
Qed.

(** ** Encoding *)

Definition node_bytes (n : meta_node) : list field :=
  [FStr (mn_name n); FInt 1 (mn_role n); FInt 4 (u32 (zlen (mn_uris n)))] ++
  map (fun u => FStr (Some (u_str u))) (mn_uris n).

Fixpoint meta_fields (m : meta) : list field :=
  let 'mk_meta name uris term index voter nodes prev := m in
  [FStr name; FStr uris; FInt 8 term; FInt 8 index; FInt 4 voter; FInt 4 (u32 (zlen nodes))] ++
  concat (map node_bytes nodes) ++
  match prev with None => [FBool false] | Some p => FBool true :: meta_fields p end.

Lemma put_fields_app fs gs b : put_fields b (fs ++ gs) = put_fields (put_fields b fs) gs.
Proof. revert b. induction fs as [|f fs IH]; intros b; [done|apply IH]. Qed.

Lemma enc_fields_app fs gs : enc_fields (fs ++ gs) = enc_fields fs ++ enc_fields gs.
Proof. unfold enc_fields. by rewrite map_app, concat_app. Qed.

Lemma enc_fields_cons f fs : enc_fields (f :: fs) = enc_field f ++ enc_fields fs.
Proof. done. Qed.

Lemma put_uris_fields us b : put_uris b us = put_fields b (map (fun u => FStr (Some (u_str u))) us).
Proof. unfold put_uris. revert b. induction us as [|u us IH]; intros b; [done|apply IH]. Qed.

Lemma node_encode_fields n b : meta_node_encode n b = put_fields b (node_bytes n).
Proof. unfold meta_node_encode, node_bytes. by rewrite put_uris_fields. Qed.

Lemma put_nodes_fields ns b : put_nodes b ns = put_fields b (concat (map node_bytes ns)).
Proof.
  unfold put_nodes. revert b. induction ns as [|n ns IH]; intros b; [done|].
  cbn [foldl map concat]. by rewrite put_fields_app, IH, node_encode_fields.
Qed.

Lemma meta_encode_fields m b : meta_encode m b = put_fields b (meta_fields m).
Proof.
  revert b. induction m as [n u t i v ns|n u t i v ns p IH] using meta_ind2; intros b;
    cbn [meta_encode meta_fields]; rewrite !put_fields_app, put_nodes_fields; cbn [put_fields put_field].
  - done.
  - apply IH.
Qed.

(** ** Decoding *)

Lemma fits_str_ok s : fits s -> str_ok s.
Proof. destruct s; [|done]. cbn [fits str_ok]. unfold SC_STR_MAX, UINT32_MAX. intros [? ?]. split; [done|lia]. Qed.

Lemma reads_uris us :
  Forall uri_good us ->
  reads (get_uris (length us)) (enc_fields (map (fun u => FStr (Some (u_str u))) us)) (Some us).
Proof.
  induction 1 as [|u us [Hu [Hf _]] Hus IH]; [apply reads_ret|]. cbn [length get_uris map].
  rewrite enc_fields_cons. eapply reads_bind; [apply reads_str, fits_str_ok, Hf|]. cbn beta. rewrite Hu.
  rewrite <- (app_nil_r (enc_fields _)). eapply reads_bind; [exact IH|]. apply reads_ret.
Qed.

Ltac read_step :=
  rewrite ?enc_fields_cons;
  eapply reads_bind; [first [apply reads_int; assumption | apply reads_str, fits_str_ok; assumption | apply reads_bool]|];
  cbn beta.

Lemma reads_node n : node_ok n -> reads meta_node_decode (enc_fields (node_bytes n)) (Some n).
Proof.
  intros [Hn Hr Hu Hc]. unfold meta_node_decode, node_bytes. cbn [app].
  rewrite (u32_small (zlen (mn_uris n))) by done.
  do 3 read_step. rewrite zlen_nat. rewrite <- (app_nil_r (enc_fields _)).
  eapply reads_bind; [by apply reads_uris|]. rewrite str_create_fits by done. destruct n. apply reads_ret.
Qed.

Lemma reads_nodes ns :
  Forall node_ok ns -> reads (get_nodes (length ns)) (enc_fields (concat (map node_bytes ns))) (Some ns).
Proof.
  induction 1 as [|n ns Hn Hns IH]; [apply reads_ret|]. cbn [length get_nodes map concat].
  rewrite enc_fields_app. eapply reads_bind; [by apply reads_node|]. cbn beta iota.
  rewrite <- (app_nil_r (enc_fields _)). eapply reads_bind; [exact IH|]. apply reads_ret.
Qed.

(** Into a fresh configuration, as [meta_replace], the state and the server's file
    decode. *)
Lemma reads_meta m : forall fuel m0,
  meta_ok m -> (depth m <= fuel)%nat -> m_nodes m0 = [] -> m_prev m0 = None ->
  reads (meta_decode fuel m0) (enc_fields (meta_fields m)) (Some m).
Proof.
  induction m as [n u t i v ns|n u t i v ns p IH] using meta_ind2;
    intros fuel m0 ([Hn Hnf] & [Hu Huf] & Ht & Hi & Hv & Hns & Hc & Hp) Hd H0 H1;
    cbn [depth] in Hd; (destruct fuel as [|fuel]; [lia|]); cbn [meta_decode meta_fields app];
    rewrite (u32_small (zlen ns)) by done; do 6 read_step;
    rewrite zlen_nat, enc_fields_app; (eapply reads_bind; [by apply reads_nodes|]); cbn beta iota;
    rewrite (str_set_fits _ n), (str_set_fits _ u), H0, H1 by done; cbn [app]; read_step; cbn [m_name].
  - apply reads_ret.
  - rewrite <- (app_nil_r (enc_fields _)). eapply reads_bind; [apply IH; [done|lia|done|done]|]. apply reads_ret.
Qed.

(** Decidable parts, for concrete configurations. *)
#[export] Instance fits_dec s : Decision (fits s).
Proof. destruct s; simpl; apply _. Defined.

#[export] Instance sc_uri_eq_dec : EqDecision sc_uri.
Proof. solve_decision. Defined.

#[export] Instance uri_good_dec u : Decision (uri_good u).
Proof. unfold uri_good. apply _. Defined.

#[export] Instance node_ok_dec n : Decision (node_ok n).
Proof.
  destruct (decide (fits (mn_name n) /\ is_u8 (mn_role n) /\ Forall uri_good (mn_uris n) /\ is_u32 (zlen (mn_uris n))))
    as [H|H]; [left|right].
  - destruct H as (? & ? & ? & ?). by split.
  - intros []. tauto.
Defined.

#[export] Instance meta_ok_dec : forall m, Decision (meta_ok m).
Proof.
  fix IH 1. intros [n u t i v ns [p|]]; cbn [meta_ok].
  - specialize (IH p). apply _.
  - apply _.
Defined.

(** C29: a configuration survives encoding and copying.  For any well-formed
    configuration, also one with a pending change, [meta_encode] appends its bytes,
    and [meta_decode] into a fresh configuration with at least as many levels as the
    chain of previous configurations reads exactly those bytes and gives it back, as
    [meta_replace] does with the data of a log entry; [meta_copy] gives an equal
    configuration. *)
Theorem meta_roundtrip m b rest :
  meta_ok m -> buf_wf b -> b_err b = 0 -> contents b = [] ->
  room b (zlen (enc_fields (meta_fields m))) -> no_wrap b (zlen (enc_fields (meta_fields m))) ->
  contents (meta_encode m b) = enc_fields (meta_fields m) /\
  (exists b', meta_decode (depth m) (meta_init (Some [])) (meta_encode m b) = (Some m, b') /\
     contents b' = [] /\ b_err b' = 0) /\
  (zlen (enc_fields (meta_fields m) ++ rest) < 2 ^ 32 ->
   meta_replace (depth m) (enc_fields (meta_fields m) ++ rest) = Some m) /\
  meta_copy m = Some m.
Proof.
  intros Hm Hwf He Hc Hr Hw. rewrite meta_encode_fields.
  assert (Ha : appended b (enc_fields (meta_fields m)) (put_fields b (meta_fields m)))
    by (apply put_outcome_ok; [done..|by apply put_fields_outcome]).
  pose proof (appended_contents b _ _ Hwf Ha) as E. rewrite Hc in E. cbn [app] in E.
  pose proof (reads_meta m (depth m) (meta_init (Some [])) Hm (le_n _) eq_refl eq_refl) as Hd.
  split_and!; [done| | |by apply meta_copy_id].
  - destruct (Hd _ [] (a_wf _ _ _ Ha)) as (b' & E1 & _ & E2 & E3);
      [by rewrite (a_err _ _ _ Ha)|by rewrite app_nil_r|]. by exists b'.
  - intros Hl. destruct (wrap_contents _ SC_BUF_READ eq_refl Hl) as [Hwf' Ec].
    destruct (Hd _ rest Hwf' eq_refl Ec) as (b' & E1 & _). unfold meta_replace. by rewrite E1.
Qed.

(** A cluster of two nodes: [tcp://a@h:1] and [tcp://b@h:2]. *)
Definition demo_uri (name port : byte) : list byte :=
  [x74; x63; x70; COLON; SLASH; SLASH; name; AT; x68; COLON; port].

Definition demo_meta : meta :=
  snd (meta_parse_uris (meta_init (Some [x63])) (Some (demo_uri x61 x31 ++ [x20] ++ demo_uri x62 x32))).

(** The address of a third node, and the configuration with it added. *)
Definition demo_third : sc_uri := default (mk_uri [] [] [] [] [] [] [] []) (sc_uri_create (Some (demo_uri x63 x33))).

Definition demo_changed : meta :=
  match meta_add demo_meta demo_third with Some (_, m) => with_index m 5 | None => demo_meta end.

Lemma meta_roundtrip_witness :
  let b := sc_buf_init 4096 in
  depth demo_changed = 2%nat /\
  (exists b', meta_decode 2 (meta_init (Some [])) (meta_encode demo_changed b) = (Some demo_changed, b')) /\
  meta_copy demo_changed = Some demo_changed.
Proof.
  intros b. split; [reflexivity|].
  assert (Hm : meta_ok demo_changed) by (apply (bool_decide_unpack _); vm_compute; reflexivity).
  assert (Hl : zlen (enc_fields (meta_fields demo_changed)) <= 1024) by (vm_compute; discriminate).
  pose proof (zlen_nonneg (enc_fields (meta_fields demo_changed))).
  assert (Hwf : buf_wf b) by (split; vm_compute; try split; congruence).
  destruct (meta_roundtrip demo_changed b [] Hm Hwf eq_refl eq_refl) as (_ & (b' & E & _) & _ & Hc).
  - left. change (b_cap b) with 4096. change (b_wpos b) with 0. lia.
  - left. change (b_cap b) with 4096. change (b_wpos b) with 0. lia.
  - split; [by exists b'|exact Hc].
Defined.

(** ** Membership *)

Definition names (m : meta) : list (option (list byte)) := map mn_name (m_nodes m).
Definition node_addrs (n : meta_node) : list (list byte * list byte) :=
  map (fun u => (u_host u, u_port u)) (mn_uris n).
Definition addrs (m : meta) : list (list byte * list byte) := concat (map node_addrs (m_nodes m)).

(** Every node is one voter under its own name and its own addresses. *)
Record config_ok (m : meta) : Prop := {
  co_ok : meta_ok m;
  co_names : NoDup (names m);
  co_addrs : NoDup (addrs m);
  co_voter : m_voter m = zlen (m_nodes m)
}.

Lemma str_set_ok old x : is_Some old -> fits old -> no_nul x -> is_Some (str_set old (Some x)) /\ fits (str_set old (Some x)).
Proof.
  intros Ho Hf Hn. unfold str_set. destruct (decide (zlen x <= SC_STR_MAX)) as [Hx|Hx].
  - rewrite str_create_fits by done. split; [by eexists|done].
  - unfold str_create, sc_str_create. by rewrite (if_true (_ >? _)) by zbool_solve.
Qed.

Lemma uri_text_no_nul n : node_ok n -> no_nul (uri_text n).
Proof.
  intros [_ _ Hu _]. unfold uri_text. induction Hu as [|u us [_ [[Hn _] _]] Hus IH]; [constructor|].
  cbn [map concat]. apply Forall_app. split; [|done]. apply Forall_app. split; [done|by constructor].
Qed.

Lemma texts_no_nul ns : Forall node_ok ns -> no_nul (leader_text ns ++ others_text ns).
Proof.
  intros H. apply Forall_app. split.
  - induction H as [|n ns Hn Hns IH]; [constructor|]. cbn [leader_text]. case_if; [by apply uri_text_no_nul|done].
  - induction H as [|n ns Hn Hns IH]; [constructor|]. cbn [others_text]. case_if; [|done].
    apply Forall_app. split; [by apply uri_text_no_nul|done].
Qed.

(** Only the addresses text and the number of voters are recomputed. *)
Lemma meta_update_ok name uris term index voter ns prev :
  meta_ok (mk_meta name uris term index voter [] prev) -> Forall node_ok ns -> is_u32 (zlen ns) ->
  let m' := meta_update (mk_meta name uris term index voter ns prev) in
  meta_ok m' /\ m_voter m' = zlen ns.
Proof.
  intros (Hn & [Hu Huf] & Ht & Hi & _ & _ & _ & Hp) Hns Hl. unfold meta_update.
  cbn [m_name m_uris m_term m_index m_voter m_nodes m_prev].
  pose proof (str_set_ok uris _ Hu Huf (texts_no_nul ns Hns)) as Hs.
  rewrite (u32_small (zlen ns)) by done. split; [|done]. cbn [meta_ok]. tauto.
Qed.

Lemma validate_nodes_spec ns uri :
  validate_nodes ns uri = true ->
  ~ (Some (u_userinfo uri) ∈ map mn_name ns) /\ (u_host uri, u_port uri) ∉ concat (map node_addrs ns).
Proof.
  induction ns as [|n ns IH]; cbn [validate_nodes map concat].
  - intros _. split; apply not_elem_of_nil.
  - unfold str_is_eq. case_bool_decide as Hn; [done|]. case_if; [done|]. intros [H1 H2]%IH.
    split; [apply not_elem_of_cons; split; [congruence|done]|]. apply not_elem_of_app. split; [|done].
    intros Hin. apply list_elem_of_fmap in Hin as (u & Eu & Hin).
    apply not_true_iff_false in Heqb. apply Heqb. apply existsb_exists. exists u.
    split; [by apply list_elem_of_In|]. unfold same_address. injection Eu as -> ->.
    by rewrite !bool_decide_eq_true_2.
Qed.

Lemma role_follower_u8 : is_u8 META_FOLLOWER.
Proof. unfold META_FOLLOWER. lia. Qed.

(** Adding a node: the configuration before is kept, one voter is added. *)
Lemma meta_add_spec m uri :
  config_ok m -> m_prev m = None -> uri_good uri -> zlen (m_nodes m) + 1 < 2 ^ 32 ->
  if meta_validate m uri
  then exists m', meta_add m uri = Some (true, m') /\ config_ok m' /\ m_prev m' = Some m /\
    m_nodes m' = m_nodes m ++ [mk_node (Some (u_userinfo uri)) META_FOLLOWER [uri]] /\
    names m' = names m ++ [Some (u_userinfo uri)] /\ m_index m' = m_index m /\ m_term m' = m_term m
  else meta_add m uri = Some (false, m).
Proof.
  intros [Hok Hnd Had Hv] Hp [Hu [Hf Hfu]] Hl. unfold meta_add. destruct (meta_validate m uri) eqn:Ev; [|done].
  cbn [negb]. rewrite meta_copy_id, Hu by done. eexists. split; [done|].
  unfold meta_validate in Ev. destruct (_ || _) in Ev; [done|].
  apply validate_nodes_spec in Ev as [Hn Ha]. unfold meta_node_init. rewrite (str_create_fits _ Hfu).
  pose proof Hok as Hok'. destruct m as [na us te ix vo ns pr]. cbn [m_prev] in Hp. subst pr.
  destruct Hok' as (H1 & H2 & H3 & H4 & H5 & H6 & H7 & _).
  unfold with_nodes, with_prev, names, addrs in *. cbn [m_name m_uris m_term m_index m_voter m_nodes m_prev] in *.
  set (n := mk_node _ _ _).
  assert (Hns : Forall node_ok (ns ++ [n])).
  { apply Forall_app. split; [done|]. constructor; [|constructor]. split; cbn [mn_name mn_role mn_uris n];
      [done|apply role_follower_u8|by constructor|vm_compute; split; congruence]. }
  assert (Hz : zlen (ns ++ [n]) = zlen ns + 1) by (rewrite zlen_app; done).
  pose proof (meta_update_ok na us te ix vo (ns ++ [n]) (Some (mk_meta na us te ix vo ns None))) as [U1 U2].
  { refine (conj H1 (conj H2 (conj H3 (conj H4 (conj H5 (conj (Forall_nil_2 _) (conj _ Hok))))))).
    change (zlen []) with 0. lia. }
  { done. }
  { pose proof (zlen_nonneg ns). lia. }
  split_and!; [split| | | | |]; try done.
  - unfold meta_update, names. cbn [m_nodes]. rewrite map_app. apply list.NoDup_app. split_and!; [done| |].
    + intros x Hx Hx'. cbn [map] in Hx'. apply list_elem_of_singleton in Hx' as ->. done.
    + apply NoDup_singleton.
  - unfold meta_update, addrs. cbn [m_nodes]. rewrite map_app, concat_app. apply list.NoDup_app. split_and!; [done| |].
    + intros x Hx Hx'. cbn in Hx'. apply list_elem_of_singleton in Hx' as ->. done.
    + apply NoDup_singleton.
  - unfold meta_update. cbn [m_nodes]. by rewrite map_app.
Qed.

Lemma remove_first_split ns name :
  existsb (fun n => str_is_eq (mn_name n) name) ns = true ->
  exists l1 n l2, ns = l1 ++ n :: l2 /\ mn_name n = Some name /\ remove_first ns name = l1 ++ l2.
Proof.
  induction ns as [|n ns IH]; [done|]. cbn [existsb remove_first]. unfold str_is_eq at 1 3.
  case_bool_decide as E.
  - intros _. by exists [], n, ns.
  - intros H. destruct (IH H) as (l1 & n' & l2 & -> & E1 & E2). exists (n :: l1), n', l2.
    split_and!; [done|done|]. cbn [app]. by rewrite E2.
Qed.

Lemma sublist_ok {A} (l1 l2 : list A) x : NoDup (l1 ++ x :: l2) -> NoDup (l1 ++ l2).
Proof. intros H. eapply sublist_NoDup; [exact H|]. apply sublist_app; [done|]. by apply sublist_cons. Qed.

Lemma sublist_concat_ok {A} (l1 l2 x : list A) : NoDup (l1 ++ x ++ l2) -> NoDup (l1 ++ l2).
Proof. intros H. eapply sublist_NoDup; [exact H|]. apply sublist_app; [done|]. by apply sublist_inserts_l. Qed.

(** Removing a node: the configuration before is kept, one voter less. *)
Lemma meta_remove_spec m name :
  config_ok m -> m_prev m = None ->
  if meta_exists m name
  then exists m', meta_remove m name = Some (true, m') /\ config_ok m' /\ m_prev m' = Some m /\
    (exists l1 n l2, m_nodes m = l1 ++ n :: l2 /\ mn_name n = Some name /\ m_nodes m' = l1 ++ l2) /\
    m_index m' = m_index m /\ m_term m' = m_term m
  else meta_remove m name = Some (false, m).
Proof.
  intros [Hok Hnd Had Hv] Hp. unfold meta_remove. destruct (meta_exists m name) eqn:Ev; [|done].
  cbn [negb]. rewrite meta_copy_id by done. eexists. split; [done|].
  apply remove_first_split in Ev as (l1 & n & l2 & El & En & Er).
  pose proof Hok as Hok'. destruct m as [na us te ix vo ns pr]. cbn [m_prev] in Hp. subst pr.
  destruct Hok' as (H1 & H2 & H3 & H4 & H5 & H6 & H7 & _).
  unfold with_nodes, with_prev, names, addrs in *. cbn [m_name m_uris m_term m_index m_voter m_nodes m_prev] in *.
  rewrite Er. assert (Hns : Forall node_ok (l1 ++ l2)).
  { rewrite El in H6. apply Forall_app in H6 as [? [? ?]%Forall_cons_1]. by apply Forall_app. }
  assert (Hz : zlen ns = zlen (l1 ++ l2) + 1) by (rewrite El, !zlen_app, zlen_cons; lia).
  pose proof (meta_update_ok na us te ix vo (l1 ++ l2) (Some (mk_meta na us te ix vo ns None))) as [U1 U2].
  { refine (conj H1 (conj H2 (conj H3 (conj H4 (conj H5 (conj (Forall_nil_2 _) (conj _ Hok))))))).
    change (zlen []) with 0. lia. }
  { done. }
  { pose proof (zlen_nonneg (l1 ++ l2)). lia. }
  split_and!; [split| | | |]; try done.
  - unfold meta_update, names. cbn [m_nodes]. rewrite El, map_app in Hnd. rewrite map_app. by apply sublist_ok in Hnd.
  - unfold meta_update, addrs. cbn [m_nodes]. rewrite El, map_app, concat_app in Had. cbn [map concat] in Had.
    rewrite map_app, concat_app. by apply sublist_concat_ok in Had.
  - by exists l1, n, l2.
Qed.

(** Majorities of two sets of voters, one of which contains the other and one more
    voter, intersect. *)
Lemma quorums_meet {A} `{EqDecision A} (big small Q Q' : list A) :
  zlen big = zlen small + 1 -> (forall x, x ∈ small -> x ∈ big) ->
  NoDup Q -> NoDup Q' -> (forall x, x ∈ Q -> x ∈ big) -> (forall x, x ∈ Q' -> x ∈ small) ->
  zlen big / 2 + 1 <= zlen Q -> zlen small / 2 + 1 <= zlen Q' -> exists x, x ∈ Q /\ x ∈ Q'.
Proof.
  intros Hz Hsub HQ HQ' HQb HQs' Hq Hq'. destruct (decide (Exists (fun x => x ∈ Q') Q)) as [He|Hne].
  - apply list.Exists_exists in He as (x & ? & ?). by exists x.
  - exfalso. assert (Hnd : NoDup (Q ++ Q')).
    { apply list.NoDup_app. split_and!; [done| |done]. intros x Hx Hx'. apply Hne. apply list.Exists_exists. by exists x. }
    assert (Hle : (length (Q ++ Q') <= length big)%nat).
    { apply submseteq_length, NoDup_submseteq; [done|]. intros x Hx. apply elem_of_app in Hx as [?|?]; auto. }
    rewrite length_app in Hle. unfold zlen in *. Z.div_mod_to_equations. lia.
Qed.

(** Majorities of the voters of two configurations have a node in common. *)
Definition quorums_share (m m' : meta) : Prop := forall Q Q',
  NoDup Q -> NoDup Q' -> (forall x, x ∈ Q -> x ∈ names m) -> (forall x, x ∈ Q' -> x ∈ names m') ->
  m_voter m / 2 + 1 <= zlen Q -> m_voter m' / 2 + 1 <= zlen Q' -> exists x, x ∈ Q /\ x ∈ Q'.

Lemma quorums_share_sym m m' : quorums_share m m' -> quorums_share m' m.
Proof. intros H Q Q' ? ? ? ? ? ?. destruct (H Q' Q) as (x & ? & ?); [done..|]. by exists x. Qed.

(** [big] is [small] with one node more, anywhere. *)
Lemma quorums_share_one small big l1 n l2 :
  config_ok small -> config_ok big -> m_nodes big = l1 ++ n :: l2 -> m_nodes small = l1 ++ l2 ->
  quorums_share big small /\ m_voter big = m_voter small + 1.
Proof.
  intros Cs Cb Eb Es.
  assert (Hz : zlen (m_nodes big) = zlen (m_nodes small) + 1) by (rewrite Eb, Es, !zlen_app, zlen_cons; lia).
  split; [|by rewrite (co_voter _ Cb), (co_voter _ Cs)]. intros Q Q' HQ HQ' Hs Hs'.
  rewrite (co_voter _ Cb), (co_voter _ Cs). intros Hq Hq'.
  apply (quorums_meet (names big) (names small)); try done;
    unfold names, zlen in *; rewrite ?length_map; try done.
  intros x. rewrite Eb, Es, !map_app, !elem_of_app. cbn [map]. rewrite elem_of_cons. tauto.
Qed.

(** C17: configuration changes are safe.  From a configuration in which every node
    votes once under its own name and addresses and no change is pending, an
    accepted addition or removal leaves such a configuration with exactly one voter
    more or less and the old configuration, unchanged, as the previous one; a
    rejected one changes nothing.  Any majority of the old voters and any majority of
    the new voters have a node in common, so the two configurations cannot elect two
    leaders. *)
Theorem meta_change_safe m uri name :
  config_ok m -> m_prev m = None -> uri_good uri -> zlen (m_nodes m) + 1 < 2 ^ 32 ->
  (if meta_validate m uri
   then exists m', meta_add m uri = Some (true, m') /\ config_ok m' /\ m_prev m' = Some m /\
     m_voter m' = m_voter m + 1 /\ names m' = names m ++ [Some (u_userinfo uri)] /\ quorums_share m m'
   else meta_add m uri = Some (false, m)) /\
  (if meta_exists m name
   then exists m', meta_remove m name = Some (true, m') /\ config_ok m' /\ m_prev m' = Some m /\
     m_voter m' = m_voter m - 1 /\ ~ (Some name ∈ names m') /\ quorums_share m m'
   else meta_remove m name = Some (false, m)).
Proof.
  intros Hc Hp Hu Hl. split.
  - pose proof (meta_add_spec m uri Hc Hp Hu Hl) as Ha. case_if; [|done].
    destruct Ha as (m' & Ea & Ca & Pa & Na & Nm & _). exists m'.
    destruct (quorums_share_one m m' (m_nodes m) (mk_node (Some (u_userinfo uri)) META_FOLLOWER [uri]) [])
      as [Hq Hv]; [done|done|done|by rewrite app_nil_r|].
    split_and!; [done..|]. by apply quorums_share_sym.
  - pose proof (meta_remove_spec m name Hc Hp) as Hr. case_if; [|done].
    destruct Hr as (m' & Er & Cr & Pr & (l1 & n & l2 & N1 & N2 & N3) & _). exists m'.
    destruct (quorums_share_one m' m l1 n l2) as [Hq Hv]; [done..|].
    split_and!; [done..|lia| |done]. pose proof (co_names _ Hc) as Hnd. unfold names in *.
    rewrite N1, map_app in Hnd. rewrite N3, map_app. cbn [map] in Hnd. rewrite N2 in Hnd.
    apply list.NoDup_app in Hnd as (_ & H1 & H2). apply list.NoDup_cons in H2 as [H2 _].
    rewrite elem_of_app. intros [Hin|Hin]; [|done]. destruct (H1 _ Hin). left.
Qed.

#[export] Instance config_ok_dec m : Decision (config_ok m).
Proof.
  destruct (decide (meta_ok m /\ NoDup (names m) /\ NoDup (addrs m) /\ m_voter m = zlen (m_nodes m))) as [H|H];
    [left|right].
  - destruct H as (? & ? & ? & ?). by split.
  - intros []. tauto.
Defined.

Lemma meta_change_safe_witness :
  (exists m', meta_add demo_meta demo_third = Some (true, m') /\ m_prev m' = Some demo_meta /\ m_voter m' = 3) /\
  (exists m', meta_remove demo_meta [x61] = Some (true, m') /\ m_prev m' = Some demo_meta /\ m_voter m' = 1).
Proof.
  destruct (meta_change_safe demo_meta demo_third [x61]) as [Ha Hr];
    [apply (bool_decide_unpack _); vm_compute; reflexivity|reflexivity
    |apply (bool_decide_unpack _); vm_compute; reflexivity|reflexivity|].
  change (meta_validate demo_meta demo_third) with true in Ha. change (meta_exists demo_meta [x61]) with true in Hr.
  split.
  - destruct Ha as (m' & E & _ & Hp & Hv & _). exists m'. split; [exact E|]. split; [exact Hp|].
    rewrite Hv. vm_compute. reflexivity.
  - destruct Hr as (m' & E & _ & Hp & Hv & _). exists m'. split; [exact E|]. split; [exact Hp|].
    rewrite Hv. vm_compute. reflexivity.
Defined.

(** ** Rolling back *)

Lemma meta_ok_prev m p : meta_ok m -> m_prev m = Some p -> meta_ok p.
Proof. destruct m as [na us te ix vo ns pr]. cbn [m_prev]. intros (_ & _ & _ & _ & _ & _ & _ & H) ->. done. Qed.

Lemma meta_rollback_spec m index :
  meta_ok m ->
  meta_rollback m index = Some (match m_prev m with
    | Some p => if m_index p <=? index then m else p
    | None => m
    end).
Proof.
  intros Hm. unfold meta_rollback. destruct (m_prev m) as [p|] eqn:E; [|done]. case_if; [done|].
  by apply meta_copy_id, (meta_ok_prev m).
Qed.

(** A rolled back log can keep its uncommitted configuration.  After a node was
    added and the new configuration was given the log index [i], as
    [server_write_meta_cmd] does, truncating the log behind any index [k] that keeps
    the entry of the previous configuration but not the one at [i] leaves the new
    configuration in place: [meta_rollback] compares [k] with the index of the
    previous configuration, not with [i].  Only a truncation that also drops the
    previous configuration's entry goes back to it. *)
Theorem meta_rollback_pending m uri m1 i k :
  config_ok m -> m_prev m = None -> uri_good uri -> zlen (m_nodes m) + 1 < 2 ^ 32 -> is_u64 i ->
  meta_add m uri = Some (true, m1) -> k < i ->
  let m' := with_index m1 i in
  meta_rollback m' k = Some (if m_index m <=? k then m' else m) /\
  names m' <> names m /\ m_prev m' = Some m.
Proof.
  intros Hc Hp Hu Hl Hi E Hk m'. pose proof (meta_add_spec m uri Hc Hp Hu Hl) as Ha.
  destruct (meta_validate m uri); [|congruence]. destruct Ha as (m2 & E2 & Ca & Pa & _ & Nm & _).
  assert (m2 = m1) as -> by congruence. assert (Hpr : m_prev m' = Some m) by (by destruct m1).
  split_and!; [|unfold m'|done].
  - rewrite meta_rollback_spec, Hpr; [done|]. pose proof (co_ok _ Ca) as Hok. unfold m'. clear -Hok Hi.
    destruct m1 as [na us te ix vo ns pr]. unfold with_index.
    cbn [m_name m_uris m_term m_index m_voter m_nodes m_prev].
    destruct Hok as (H1 & H2 & H3 & _ & H5). exact (conj H1 (conj H2 (conj H3 (conj Hi H5)))).
  - assert (En : names (with_index m1 i) = names m1) by (by destruct m1). rewrite En, Nm. intros Ex.
    apply (f_equal length) in Ex. rewrite length_app in Ex. simpl in Ex. lia.
Qed.

Lemma meta_rollback_pending_witness :
  demo_changed = with_index (default demo_meta (snd <$> meta_add demo_meta demo_third)) 5 /\
  meta_rollback demo_changed 4 = Some demo_changed /\ names demo_changed <> names demo_meta.
Proof.
  split; [vm_compute; reflexivity|].
  destruct (meta_add demo_meta demo_third) as [[[|] m1]|] eqn:E; [|vm_compute in E; discriminate E..].
  assert (Hc : config_ok demo_meta) by (apply (bool_decide_unpack _); vm_compute; reflexivity).
  assert (Hu : uri_good demo_third) by (apply (bool_decide_unpack _); vm_compute; reflexivity).
  assert (Hl : zlen (m_nodes demo_meta) + 1 < 2 ^ 32) by (vm_compute; reflexivity).
  assert (Hi : is_u64 5) by (split; [discriminate|reflexivity]).
  pose proof (meta_rollback_pending demo_meta demo_third m1 5 4 Hc eq_refl Hu Hl Hi E eq_refl) as (H1 & H2 & _).
  assert (Ed : demo_changed = with_index m1 5) by (unfold demo_changed; by rewrite E).
  rewrite Ed. change (m_index demo_meta <=? 4) with true in H1. split; [exact H1|exact H2].
Defined.

(** ** Leaders and configured addresses *)

(** At most one node is the leader after [meta_set_leader], the one named. *)
Lemma meta_set_leader_spec m name n :
  n ∈ m_nodes (meta_set_leader m name) ->
  mn_role n = (if bool_decide (name <> None /\ mn_name n = name) then META_LEADER else META_FOLLOWER).
Proof.
  unfold meta_set_leader, meta_update, with_nodes. cbn [m_nodes]. intros Hin.
  apply list_elem_of_fmap in Hin as (n0 & -> & Hin). cbn [mn_role mn_name]. destruct name as [x|].
  - unfold str_is_eq. destruct (decide (mn_name n0 = Some x)) as [E|E].
    + by rewrite !bool_decide_eq_true_2.
    + rewrite !bool_decide_eq_false_2; [done| |done]. by intros [].
  - rewrite bool_decide_eq_false_2; [done|]. by intros [].
Qed.

Lemma place_uri_names ns uri :
  fits (Some (u_userinfo uri)) -> NoDup (map mn_name ns) -> NoDup (map mn_name (place_uri ns uri)) /\
  (forall x, x ∈ map mn_name (place_uri ns uri) -> x = Some (u_userinfo uri) \/ x ∈ map mn_name ns).
Proof.
  intros Hf. induction ns as [|n ns IH]; intros Hnd; cbn [place_uri map].
  - unfold meta_node_init. rewrite (str_create_fits _ Hf). cbn [mn_name]. split; [apply NoDup_singleton|].
    intros x ->%list_elem_of_singleton. by left.
  - apply list.NoDup_cons in Hnd as [Hn Hnd]. destruct (IH Hnd) as [IH1 IH2]. unfold str_is_eq. case_bool_decide as E.
    + cbn [map node_add_uri mn_name]. split; [by apply list.NoDup_cons|]. intros x Hx. by right.
    + cbn [map]. split.
      * apply list.NoDup_cons. split; [|done]. intros Hin. by destruct (IH2 _ Hin).
      * intros x [->|Hx]%elem_of_cons; [right; left|]. destruct (IH2 x Hx); [by left|right; by right].
Qed.

(** The configured nodes have distinct names. *)
Lemma parse_tokens_names toks : forall ns ns',
  (forall tok uri, tok ∈ toks -> sc_uri_create (Some tok) = Some uri -> fits (Some (u_userinfo uri))) ->
  NoDup (map mn_name ns) -> parse_tokens ns toks = (true, ns') -> NoDup (map mn_name ns').
Proof.
  induction toks as [|tok toks IH]; intros ns ns' Hf Hnd; cbn [parse_tokens]; [by intros [= <-]|].
  case_bool_decide; [by intros [= <-]|]. destruct (sc_uri_create (Some tok)) as [uri|] eqn:E; [|done].
  case_if; [done|]. apply IH.
  - intros t u Ht. apply Hf. by right.
  - apply place_uri_names; [|done]. apply (Hf tok); [left|done].
Qed.
