(* ===== verification/Cmd.v ===== *)
(** * Commands of the log (src/cmd.c)

    The data of a log entry is a command of the server: its encoders append to the
    entry buffer, its decoders read it when the entry is applied.  The clocks the
    encoders read ([sc_time_ms], [sc_time_mono_ms]) are arguments. *)

From Stdlib Require Import ZArith Lia.
From Stdlib Require Import Strings.Byte.
From stdpp Require Import base list numbers.
From S2P Require Import Prelude Buf Msg Meta.

(** [enum cmd_id] *)
Definition CMD_INIT : Z := 0.
Definition CMD_META : Z := 1.
Definition CMD_TERM : Z := 2.
Definition CMD_REQUEST : Z := 3.
Definition CMD_CONNECT : Z := 4.
Definition CMD_DISCONNECT : Z := 5.
Definition CMD_TIMESTAMP : Z := 6.
Definition CMD_INFO : Z := 7.
Definition CMD_LOG : Z := 8.

Record cmd_init := mk_init { ci_monotonic : Z; ci_realtime : Z; ci_rand : list byte }.
Record cmd_term := mk_term { ct_monotonic : Z; ct_realtime : Z }.
Record cmd_connect := mk_connect { cc_name : option (list byte); cc_local : option (list byte); cc_remote : option (list byte) }.
Record cmd_disconnect := mk_disconnect { cd_name : option (list byte); cd_clean : bool }.
Record cmd_timestamp := mk_timestamp { cs_monotonic : Z; cs_realtime : Z }.
Record cmd_log := mk_log { cl_level : option (list byte); cl_log : option (list byte) }.

Section clocks.
(** The clocks at the time of the call. *)
Variables (sc_time_ms sc_time_mono_ms : Z).

Definition cmd_encode_init (b : sc_buf) (rand : list byte) : sc_buf :=
  let b := sc_buf_put_64 b sc_time_ms in
  let b := sc_buf_put_64 b sc_time_mono_ms in
  sc_buf_put_raw b rand.

Definition cmd_encode_term (b : sc_buf) : sc_buf :=
  let b := sc_buf_put_64 b sc_time_ms in
  sc_buf_put_64 b sc_time_mono_ms.

Definition cmd_encode_timestamp (b : sc_buf) : sc_buf :=
  let b := sc_buf_put_64 b sc_time_ms in
  sc_buf_put_64 b sc_time_mono_ms.
End clocks.

Definition cmd_decode_init : bufM cmd_init :=
  realtime ← sc_buf_get_64;
  monotonic ← sc_buf_get_64;
  rand ← sc_buf_get_data 256;
  mret (mk_init monotonic realtime rand).

Definition cmd_decode_term : bufM cmd_term :=
  realtime ← sc_buf_get_64;
  monotonic ← sc_buf_get_64;
  mret (mk_term monotonic realtime).

Definition cmd_encode_meta (b : sc_buf) (m : meta) : sc_buf := meta_encode m b.

Definition cmd_decode_meta (fuel : nat) : bufM (option meta) := meta_decode fuel (meta_init (Some [])).

Definition cmd_encode_connect (b : sc_buf) (name local remote : option (list byte)) : sc_buf :=
  let b := sc_buf_put_str b name in
  let b := sc_buf_put_str b local in
  sc_buf_put_str b remote.

Definition cmd_decode_connect : bufM cmd_connect :=
  name ← sc_buf_get_str;
  local ← sc_buf_get_str;
  remote ← sc_buf_get_str;
  mret (mk_connect name local remote).

Definition cmd_encode_disconnect (b : sc_buf) (name : option (list byte)) (clean : bool) : sc_buf :=
  let b := sc_buf_put_str b name in
  sc_buf_put_bool b clean.

Definition cmd_decode_disconnect : bufM cmd_disconnect :=
  name ← sc_buf_get_str;
  clean ← sc_buf_get_bool;
  mret (mk_disconnect name clean).

Definition cmd_decode_timestamp : bufM cmd_timestamp :=
  realtime ← sc_buf_get_64;
  monotonic ← sc_buf_get_64;
  mret (mk_timestamp monotonic realtime).

Definition cmd_encode_log (b : sc_buf) (level log : option (list byte)) : sc_buf :=
  let b := sc_buf_put_str b level in
  sc_buf_put_str b log.

Definition cmd_decode_log : bufM cmd_log :=
  level ← sc_buf_get_str;
  log ← sc_buf_get_str;
  mret (mk_log level log).

(** ** Round trip *)

(** [struct cmd]: the union of the commands, with the id the log entry carries. *)
Inductive cmd :=
| CInit (c : cmd_init)
| CMeta (m : meta)
| CTerm (c : cmd_term)
| CConnect (c : cmd_connect)
| CDisconnect (c : cmd_disconnect)
| CTimestamp (c : cmd_timestamp)
| CLog (c : cmd_log).

Definition cmd_encode (c : cmd) (b : sc_buf) : sc_buf :=
  match c with
  | CInit c => cmd_encode_init (ci_realtime c) (ci_monotonic c) b (ci_rand c)
  | CMeta m => cmd_encode_meta b m
  | CTerm c => cmd_encode_term (ct_realtime c) (ct_monotonic c) b
  | CConnect c => cmd_encode_connect b (cc_name c) (cc_local c) (cc_remote c)
  | CDisconnect c => cmd_encode_disconnect b (cd_name c) (cd_clean c)
  | CTimestamp c => cmd_encode_timestamp (cs_realtime c) (cs_monotonic c) b
  | CLog c => cmd_encode_log b (cl_level c) (cl_log c)
  end.

(** The decoder that [state_apply] calls for the entry flags. *)
Definition cmd_decode (fuel : nat) (id : Z) : bufM (option cmd) :=
  if id =? CMD_INIT then c ← cmd_decode_init; mret (Some (CInit c))
  else if id =? CMD_META then m ← cmd_decode_meta fuel; mret (CMeta <$> m)
  else if id =? CMD_TERM then c ← cmd_decode_term; mret (Some (CTerm c))
  else if id =? CMD_CONNECT then c ← cmd_decode_connect; mret (Some (CConnect c))
  else if id =? CMD_DISCONNECT then c ← cmd_decode_disconnect; mret (Some (CDisconnect c))
  else if id =? CMD_TIMESTAMP then c ← cmd_decode_timestamp; mret (Some (CTimestamp c))
  else if id =? CMD_LOG then c ← cmd_decode_log; mret (Some (CLog c))
  else mret None.

Definition cmd_id (c : cmd) : Z :=
  match c with
  | CInit _ => CMD_INIT | CMeta _ => CMD_META | CTerm _ => CMD_TERM | CConnect _ => CMD_CONNECT
  | CDisconnect _ => CMD_DISCONNECT | CTimestamp _ => CMD_TIMESTAMP | CLog _ => CMD_LOG
  end.

Definition cmd_ok (c : cmd) : Prop :=
  match c with
  | CInit c => is_u64 (ci_realtime c) /\ is_u64 (ci_monotonic c) /\ zlen (ci_rand c) = 256
  | CMeta m => meta_ok m
  | CTerm c => is_u64 (ct_realtime c) /\ is_u64 (ct_monotonic c)
  | CConnect c => str_ok (cc_name c) /\ str_ok (cc_local c) /\ str_ok (cc_remote c)
  | CDisconnect c => str_ok (cd_name c)
  | CTimestamp c => is_u64 (cs_realtime c) /\ is_u64 (cs_monotonic c)
  | CLog c => str_ok (cl_level c) /\ str_ok (cl_log c)
  end.

Definition cmd_fields (c : cmd) : list field :=
  match c with
  | CInit c => [FInt 8 (ci_realtime c); FInt 8 (ci_monotonic c)]
  | CMeta m => meta_fields m
  | CTerm c => [FInt 8 (ct_realtime c); FInt 8 (ct_monotonic c)]
  | CConnect c => [FStr (cc_name c); FStr (cc_local c); FStr (cc_remote c)]
  | CDisconnect c => [FStr (cd_name c); FBool (cd_clean c)]
  | CTimestamp c => [FInt 8 (cs_realtime c); FInt 8 (cs_monotonic c)]
  | CLog c => [FStr (cl_level c); FStr (cl_log c)]
  end.

Definition cmd_tail (c : cmd) : list byte := match c with CInit c => ci_rand c | _ => [] end.
Definition cmd_bytes (c : cmd) : list byte := enc_fields (cmd_fields c) ++ cmd_tail c.

Definition cmd_fuel (c : cmd) : nat := match c with CMeta m => depth m | _ => O end.

Lemma cmd_encode_outcome c b :
  buf_wf b -> no_wrap b (zlen (cmd_bytes c)) -> put_outcome b (cmd_bytes c) (cmd_encode c b).
Proof.
  intros Hwf Hw. unfold cmd_bytes in *. rewrite zlen_app in Hw.
  pose proof (zlen_nonneg (enc_fields (cmd_fields c))). pose proof (zlen_nonneg (cmd_tail c)).
  assert (Hp : put_outcome b (enc_fields (cmd_fields c)) (put_fields b (cmd_fields c)))
    by (apply put_fields_outcome; [done|unfold no_wrap in *; lia]).
  destruct c as [c|m|c|c|c|c|c]; cbn [cmd_tail] in *; rewrite ?app_nil_r; try exact Hp.
  - eapply put_outcome_trans; [done|exact Hp|]. intros Hwf1 Hw1 Hc1.
    apply sc_buf_put_raw_outcome; [done|]. unfold no_wrap in *. lia.
  - cbn [cmd_encode cmd_fields] in *. unfold cmd_encode_meta. by rewrite meta_encode_fields.
Qed.

Ltac step := rewrite ?enc_fields_cons, <- ?app_assoc; eapply reads_bind;
  [first [apply reads_int; assumption | apply reads_str; assumption | apply reads_bool]|]; cbn beta.

Lemma cmd_decode_reads c :
  cmd_ok c -> reads (cmd_decode (cmd_fuel c) (cmd_id c)) (cmd_bytes c) (Some c).
Proof.
  assert (Hret : forall A (r : bufM A) bs v (f : A -> cmd),
    reads r bs v -> reads (x ← r; mret (Some (f x))) bs (Some (f v))).
  { intros A r bs v f Hr. rewrite <- (app_nil_r bs). eapply reads_bind; [exact Hr|apply reads_ret]. }
  unfold cmd_bytes. destruct c as [c|m|c|c|c|c|c]; cbn [cmd_ok cmd_tail cmd_fields cmd_id cmd_fuel cmd_decode]; intros Hok;
    unfold cmd_decode; cbn [Z.eqb Pos.eqb CMD_INIT CMD_META CMD_TERM CMD_CONNECT CMD_DISCONNECT CMD_TIMESTAMP CMD_LOG];
    rewrite ?app_nil_r; try apply Hret.
  - destruct Hok as (H1 & H2 & H3). unfold cmd_decode_init. do 2 step. cbn [enc_fields map concat app].
    rewrite <- (app_nil_r (ci_rand c)), <- H3. eapply reads_bind; [apply reads_data|]. destruct c. apply reads_ret.
  - unfold cmd_decode_meta. rewrite <- (app_nil_r (enc_fields _)).
    eapply reads_bind; [by apply reads_meta|]. apply reads_ret.
  - destruct Hok as [H1 H2]. unfold cmd_decode_term. do 2 step. destruct c. apply reads_ret.
  - destruct Hok as (H1 & H2 & H3). unfold cmd_decode_connect. do 3 step. destruct c. apply reads_ret.
  - unfold cmd_decode_disconnect. do 2 step. destruct c. apply reads_ret.
  - destruct Hok as [H1 H2]. unfold cmd_decode_timestamp. do 2 step. destruct c. apply reads_ret.
  - destruct Hok as [H1 H2]. unfold cmd_decode_log. do 2 step. destruct c. apply reads_ret.
Qed.

(** C30: every command of the log is read back as it was written.  Encoding a command
    into a buffer with room appends its bytes; the decoder selected by the entry's
    flags, run on those bytes as the entry data, returns the command, consumes all of
    them and reports no error. *)
Theorem cmd_roundtrip c b :
  cmd_ok c -> buf_wf b -> b_err b = 0 -> contents b = [] ->
  room b (zlen (cmd_bytes c)) -> no_wrap b (zlen (cmd_bytes c)) -> zlen (cmd_bytes c) < 2 ^ 32 ->
  let data := contents (cmd_encode c b) in
  exists b', cmd_decode (cmd_fuel c) (cmd_id c) (sc_buf_wrap data (zlen data) SC_BUF_READ) = (Some c, b') /\
    contents b' = [] /\ b_err b' = 0.
Proof.
  intros Hok Hwf He Hc Hr Hw Hl data.
  assert (Ha : appended b (cmd_bytes c) (cmd_encode c b))
    by (apply put_outcome_ok; [done..|by apply cmd_encode_outcome]).
  assert (Ed : data = cmd_bytes c) by (unfold data; rewrite (appended_contents b _ _ Hwf Ha), Hc; done).
  rewrite Ed. destruct (wrap_contents (cmd_bytes c) SC_BUF_READ eq_refl Hl) as [Hwf' Ec].
  destruct (cmd_decode_reads c Hok _ [] Hwf' eq_refl) as (b' & E1 & _ & E2 & E3); [by rewrite app_nil_r|].
  by exists b'.
Qed.

Lemma cmd_roundtrip_witness :
  let b := sc_buf_init 4096 in
  let connect := CConnect (mk_connect (Some [x61]) (Some [x62; x63]) None) in
  let init := CInit (mk_init 7 1600000000000 (replicate 256 x11)) in
  (exists b1, cmd_decode 0 CMD_CONNECT (sc_buf_wrap (contents (cmd_encode connect b))
     (zlen (contents (cmd_encode connect b))) SC_BUF_READ) = (Some connect, b1) /\ contents b1 = [] /\ b_err b1 = 0) /\
  (exists b1, cmd_decode 0 CMD_INIT (sc_buf_wrap (contents (cmd_encode init b))
     (zlen (contents (cmd_encode init b))) SC_BUF_READ) = (Some init, b1) /\ contents b1 = [] /\ b_err b1 = 0).
Proof.
  intros b connect init.
  assert (Hwf : buf_wf b) by (split; vm_compute; try split; congruence).
  split.
  - apply (cmd_roundtrip connect b); [apply (bool_decide_unpack _); vm_compute; reflexivity|exact Hwf|reflexivity
      |reflexivity|left; vm_compute; discriminate|left; vm_compute; discriminate|reflexivity].
  - apply (cmd_roundtrip init b); [split; [split; [discriminate|reflexivity]|split; [split; [discriminate|reflexivity]|reflexivity]]
      |exact Hwf|reflexivity|reflexivity|left; vm_compute; discriminate|left; vm_compute; discriminate|vm_compute; reflexivity].
Defined.
