(* ===== verification/Node.v ===== *)
(** * Peers (src/node.c)

    The object the server keeps for each other member: how far its log is known to
    match and what was sent to it last.  Sockets and the buffers of the connection
    are not part of it; a connected node is one in the server's list of connected
    nodes. *)

From Stdlib Require Import ZArith Lia.
From Stdlib Require Import Strings.Byte.
From stdpp Require Import base list numbers.
From S2P Require Import Prelude Uri.

Record node := mk_peer {
  n_name : list byte;
  n_uris : list sc_uri;
  n_interval : Z;
  n_next : Z;
  n_match : Z;
  n_round : Z;
  n_ss_pos : Z;
  n_ss_index : Z;
  n_msg_inflight : Z;
  n_in_timestamp : Z;
  n_out_timestamp : Z
}.

Definition node_create (name : list byte) : node := mk_peer name [] 32 1 0 0 0 0 0 0 0.

Definition node_update_indexes (n : node) (round match_ : Z) : node :=
  mk_peer (n_name n) (n_uris n) (n_interval n) (n_next n) match_ round (n_ss_pos n) (n_ss_index n)
    (n_msg_inflight n) (n_in_timestamp n) (n_out_timestamp n).

Definition node_clear_indexes (n : node) (match_ : Z) : node :=
  mk_peer (n_name n) (n_uris n) (n_interval n) (match_ +₆₄ 1) match_ 0 0 0 0 0 0.

(** The effect on the object; the caller also takes it from the connected nodes. *)
Definition node_disconnect (n : node) : node := node_clear_indexes n (n_match n).

Definition node_add_uris (n : node) (uris : list sc_uri) : node :=
  mk_peer (n_name n) (n_uris n ++ omap (fun u => sc_uri_create (Some (u_str u))) uris) (n_interval n) (n_next n)
    (n_match n) (n_round n) (n_ss_pos n) (n_ss_index n) (n_msg_inflight n) (n_in_timestamp n) (n_out_timestamp n).

Definition node_set_in_timestamp (n : node) (t : Z) : node :=
  mk_peer (n_name n) (n_uris n) (n_interval n) (n_next n) (n_match n) (n_round n) (n_ss_pos n) (n_ss_index n)
    (n_msg_inflight n) t (n_out_timestamp n).

Definition node_set_inflight (n : node) (i : Z) : node :=
  mk_peer (n_name n) (n_uris n) (n_interval n) (n_next n) (n_match n) (n_round n) (n_ss_pos n) (n_ss_index n)
    i (n_in_timestamp n) (n_out_timestamp n).

Definition node_set_match (n : node) (match_ next : Z) : node :=
  mk_peer (n_name n) (n_uris n) (n_interval n) next match_ (n_round n) (n_ss_pos n) (n_ss_index n)
    (n_msg_inflight n) (n_in_timestamp n) (n_out_timestamp n).

Definition node_set_round (n : node) (round : Z) : node :=
  mk_peer (n_name n) (n_uris n) (n_interval n) (n_next n) (n_match n) round (n_ss_pos n) (n_ss_index n)
    (n_msg_inflight n) (n_in_timestamp n) (n_out_timestamp n).

(** [node_try_connect]: the delay until the next trial, the return code when the node
    is connected already and otherwise the address to connect to; the addresses are
    tried in turn. *)
Definition node_try_connect (n : node) (connected : bool) (randtimer : Z) : Z * option sc_uri * node :=
  let interval := if connected then n_interval n else Z.min (32 * 1024) (n_interval n * 2) in
  let timeout := (randtimer `mod` 512) + interval + 32 in
  let with_ uris interval :=
    mk_peer (n_name n) uris interval (n_next n) (n_match n) (n_round n) (n_ss_pos n) (n_ss_index n)
      (n_msg_inflight n) (n_in_timestamp n) (n_out_timestamp n) in
  if connected then (timeout, None, with_ (n_uris n) 64)
  else
    match n_uris n with
    | [] => (timeout, None, with_ [] interval)
    | uri :: uris => (timeout, Some uri, with_ (uris ++ [uri]) interval)
    end.

(** The delay grows up to 32 s and stays in bounds. *)
Lemma node_try_connect_delay n connected r :
  0 <= r -> 0 <= n_interval n <= 32 * 1024 ->
  let '(timeout, _, n') := node_try_connect n connected r in
  32 <= timeout < 32 * 1024 + 512 + 32 /\ 0 <= n_interval n' <= 32 * 1024.
Proof.
  intros Hr Hi. pose proof (Z.mod_pos_bound r 512). unfold node_try_connect. destruct connected; cbn [n_interval]; [lia|].
  destruct (n_uris n); cbn [n_interval]; lia.
Qed.
