(* ===== verification/Server.v ===== *)
(** * The server: elections and replication (src/server.c)

    The state of [struct server] that the cluster protocol uses, and the functions
    of server.c that run it: elections, appending to the log of a follower, and the
    commit index of a leader.

    - The log is the sequence of entries that Store.v shows the store to be; what the
      disk answers to an append is an answer of the environment.
    - Node objects live in a heap and are named by their address, since the arrays
      of nodes, the list of connected nodes and the leader pointer share them.
    - Messages are collected in the order in which they are put into the output
      buffers, with the node they are for.  Msg.v shows that the peer reads them back.
    - Every call whose outcome depends on the outside (files, sockets, the snapshot
      thread, clocks, random bytes) takes the next answer of a sequence [io]. *)

From Stdlib Require Import ZArith Lia.
From Stdlib Require Import Strings.Byte.
From stdpp Require Import base list numbers gmap.
From S2P Require Import Prelude Str Uri Buf Entry Page Store Msg Map Meta Cmd Node.

Inductive server_role := SERVER_ROLE_FOLLOWER | SERVER_ROLE_CANDIDATE | SERVER_ROLE_LEADER.

#[export] Instance server_role_eq_dec : EqDecision server_role.
Proof. solve_decision. Defined.

(** The part of the configuration file the functions read. *)
Record conf := mk_conf { c_name : list byte; c_heartbeat : Z; c_fsync : bool }.

(** ** The log *)

Record rlog := mk_rlog {
  l_prev : Z;                (* index before the first entry *)
  l_entries : list entry;
  l_ss_term : Z;
  l_ss_index : Z
}.

Definition last_index (l : rlog) : Z := l_prev l + zlen (l_entries l).
Definition last_term (l : rlog) : Z := last_term_of (l_ss_term l) (l_entries l).
Definition log_entry (l : rlog) (index : Z) : option entry := log_at (l_prev l, l_entries l) index.

(** [store_prev_term] *)
Definition log_prev_term (l : rlog) (index : Z) : Z :=
  match log_entry l index with Some e => e_term e | None => l_ss_term l end.

Definition log_append (l : rlog) (e : entry) : rlog :=
  mk_rlog (l_prev l) (l_entries l ++ [e]) (l_ss_term l) (l_ss_index l).

(** [store_remove_after] *)
Definition log_remove_after (l : rlog) (index : Z) : rlog :=
  mk_rlog (l_prev l) (take (Z.to_nat (index - l_prev l)) (l_entries l)) (l_ss_term l) (l_ss_index l).

(** [store_snapshot_taken]: the entries up to [index] are covered by the snapshot. *)
Definition log_snapshot_taken (l : rlog) (term index : Z) : rlog :=
  mk_rlog index (drop (Z.to_nat (index - l_prev l)) (l_entries l)) term index.

(** [struct snapshot]: the snapshot in use, the one the thread wrote last, and the one
    being received. *)
Record snapshot := mk_snapshot {
  ss_index : Z;
  ss_term : Z;
  ss_latest_index : Z;
  ss_latest_term : Z;
  ss_recv_index : Z;
  ss_recv_term : Z;
  ss_tmp : bool              (* a file is being received *)
}.

Definition snapshot_clear (ss : snapshot) : snapshot :=
  if ss_tmp ss
  then mk_snapshot (ss_index ss) (ss_term ss) (ss_latest_index ss) (ss_latest_term ss) 0 0 false
  else ss.

(** [snapshot_replace]: the last snapshot written becomes the one in use, when it can
    be mapped. *)
Definition snapshot_replace (mapped : bool) (ss : snapshot) : snapshot :=
  if negb mapped then ss
  else mk_snapshot (ss_latest_index ss) (ss_latest_term ss) (ss_latest_index ss) (ss_latest_term ss)
         (ss_recv_index ss) (ss_recv_term ss) (ss_tmp ss).

(** The file [server_write_meta] writes. *)
Record meta_file := mk_file { f_name : list byte; f_voted_for : option (list byte); f_meta : meta }.

(** ** The state *)

(** Elections.  [leader] points to a node object. *)
Record voting := mk_voting {
  v_role : server_role;
  v_leader : option Z;
  v_voted_for : option (list byte);
  v_prevote_count : Z;
  v_prevote_term : Z;
  v_vote_count : Z;
  v_vote_timestamp : Z;
  v_cluster_up : bool
}.

(** The node objects and the arrays and the list that point to them. *)
Record peers := mk_peers {
  p_in_cluster : bool;
  p_nodes : list Z;
  p_unknown_nodes : list Z;
  p_connected_nodes : list Z;
  p_own : Z;
  p_heap : gmap Z node
}.

(** The time of the current iteration of the event loop, and rounds. *)
Record clock := mk_clock {
  k_timestamp : Z;
  k_last_ts : Z;
  k_last_quorum : Z;
  k_round : Z;
  k_round_match : Z
}.

(** Configuration, its file, the log, the commit index and the snapshot. *)
Record core := mk_core {
  c_meta : meta;
  c_disk : meta_file;
  c_log : rlog;
  c_commit : Z;
  c_ss_inprogress : bool;
  c_ss : snapshot
}.

(** Connected clients by name and by id, and those waiting to be destroyed. *)
Record sessions := mk_sessions {
  d_clients : gmap (list byte) Z;
  d_vclients : gmap Z Z;
  d_term_clients : list Z
}.

(** Messages put into the output buffers of connections, oldest first, and the number of
    answers the environment has given. *)
Record effects := mk_effects {
  e_out : list (Z * msg);
  e_io : nat
}.

(** [struct server] *)
Record server := mk_server {
  s_conf : conf;
  s_vote_ : voting;
  s_peers_ : peers;
  s_clock_ : clock;
  s_core_ : core;
  s_sess_ : sessions;
  s_eff_ : effects
}.

Definition on_vote (s : server) (f : voting -> voting) : server :=
  let x := f (s_vote_ s) in
  mk_server (s_conf s) x (s_peers_ s) (s_clock_ s) (s_core_ s) (s_sess_ s) (s_eff_ s).
Definition on_peers (s : server) (f : peers -> peers) : server :=
  let x := f (s_peers_ s) in
  mk_server (s_conf s) (s_vote_ s) x (s_clock_ s) (s_core_ s) (s_sess_ s) (s_eff_ s).
Definition on_clock (s : server) (f : clock -> clock) : server :=
  let x := f (s_clock_ s) in
  mk_server (s_conf s) (s_vote_ s) (s_peers_ s) x (s_core_ s) (s_sess_ s) (s_eff_ s).
Definition on_core (s : server) (f : core -> core) : server :=
  let x := f (s_core_ s) in
  mk_server (s_conf s) (s_vote_ s) (s_peers_ s) (s_clock_ s) x (s_sess_ s) (s_eff_ s).
Definition on_sess (s : server) (f : sessions -> sessions) : server :=
  let x := f (s_sess_ s) in
  mk_server (s_conf s) (s_vote_ s) (s_peers_ s) (s_clock_ s) (s_core_ s) x (s_eff_ s).
Definition on_eff (s : server) (f : effects -> effects) : server :=
  let x := f (s_eff_ s) in
  mk_server (s_conf s) (s_vote_ s) (s_peers_ s) (s_clock_ s) (s_core_ s) (s_sess_ s) x.

Abbreviation s_role s := (v_role (s_vote_ s)).
Abbreviation s_leader s := (v_leader (s_vote_ s)).
Abbreviation s_voted_for s := (v_voted_for (s_vote_ s)).
Abbreviation s_prevote_count s := (v_prevote_count (s_vote_ s)).
Abbreviation s_prevote_term s := (v_prevote_term (s_vote_ s)).
Abbreviation s_vote_count s := (v_vote_count (s_vote_ s)).
Abbreviation s_vote_timestamp s := (v_vote_timestamp (s_vote_ s)).
Abbreviation s_cluster_up s := (v_cluster_up (s_vote_ s)).
Abbreviation s_in_cluster s := (p_in_cluster (s_peers_ s)).
Abbreviation s_nodes s := (p_nodes (s_peers_ s)).
Abbreviation s_unknown_nodes s := (p_unknown_nodes (s_peers_ s)).
Abbreviation s_connected_nodes s := (p_connected_nodes (s_peers_ s)).
Abbreviation s_own s := (p_own (s_peers_ s)).
Abbreviation s_heap s := (p_heap (s_peers_ s)).
Abbreviation s_timestamp s := (k_timestamp (s_clock_ s)).
Abbreviation s_last_ts s := (k_last_ts (s_clock_ s)).
Abbreviation s_last_quorum s := (k_last_quorum (s_clock_ s)).
Abbreviation s_round s := (k_round (s_clock_ s)).
Abbreviation s_round_match s := (k_round_match (s_clock_ s)).
Abbreviation s_meta s := (c_meta (s_core_ s)).
Abbreviation s_disk s := (c_disk (s_core_ s)).
Abbreviation s_log s := (c_log (s_core_ s)).
Abbreviation s_commit s := (c_commit (s_core_ s)).
Abbreviation s_ss_inprogress s := (c_ss_inprogress (s_core_ s)).
Abbreviation s_ss s := (c_ss (s_core_ s)).
Abbreviation s_clients s := (d_clients (s_sess_ s)).
Abbreviation s_vclients s := (d_vclients (s_sess_ s)).
Abbreviation s_term_clients s := (d_term_clients (s_sess_ s)).
Abbreviation s_out s := (e_out (s_eff_ s)).
Abbreviation s_io s := (e_io (s_eff_ s)).

Definition set_role (s : server) (x : server_role) : server :=
  on_vote s (fun v => mk_voting x (v_leader v) (v_voted_for v) (v_prevote_count v) (v_prevote_term v) (v_vote_count v) (v_vote_timestamp v) (v_cluster_up v)).
Definition set_leader (s : server) (x : option Z) : server :=
  on_vote s (fun v => mk_voting (v_role v) x (v_voted_for v) (v_prevote_count v) (v_prevote_term v) (v_vote_count v) (v_vote_timestamp v) (v_cluster_up v)).
Definition set_voted_for (s : server) (x : option (list byte)) : server :=
  on_vote s (fun v => mk_voting (v_role v) (v_leader v) x (v_prevote_count v) (v_prevote_term v) (v_vote_count v) (v_vote_timestamp v) (v_cluster_up v)).
Definition set_prevote_count (s : server) (x : Z) : server :=
  on_vote s (fun v => mk_voting (v_role v) (v_leader v) (v_voted_for v) x (v_prevote_term v) (v_vote_count v) (v_vote_timestamp v) (v_cluster_up v)).
Definition set_prevote_term (s : server) (x : Z) : server :=
  on_vote s (fun v => mk_voting (v_role v) (v_leader v) (v_voted_for v) (v_prevote_count v) x (v_vote_count v) (v_vote_timestamp v) (v_cluster_up v)).
Definition set_vote_count (s : server) (x : Z) : server :=
  on_vote s (fun v => mk_voting (v_role v) (v_leader v) (v_voted_for v) (v_prevote_count v) (v_prevote_term v) x (v_vote_timestamp v) (v_cluster_up v)).
Definition set_vote_timestamp (s : server) (x : Z) : server :=
  on_vote s (fun v => mk_voting (v_role v) (v_leader v) (v_voted_for v) (v_prevote_count v) (v_prevote_term v) (v_vote_count v) x (v_cluster_up v)).
Definition set_cluster_up (s : server) (x : bool) : server :=
  on_vote s (fun v => mk_voting (v_role v) (v_leader v) (v_voted_for v) (v_prevote_count v) (v_prevote_term v) (v_vote_count v) (v_vote_timestamp v) x).
Definition set_in_cluster (s : server) (x : bool) : server :=
  on_peers s (fun v => mk_peers x (p_nodes v) (p_unknown_nodes v) (p_connected_nodes v) (p_own v) (p_heap v)).
Definition set_nodes (s : server) (x : list Z) : server :=
  on_peers s (fun v => mk_peers (p_in_cluster v) x (p_unknown_nodes v) (p_connected_nodes v) (p_own v) (p_heap v)).
Definition set_unknown_nodes (s : server) (x : list Z) : server :=
  on_peers s (fun v => mk_peers (p_in_cluster v) (p_nodes v) x (p_connected_nodes v) (p_own v) (p_heap v)).
Definition set_connected_nodes (s : server) (x : list Z) : server :=
  on_peers s (fun v => mk_peers (p_in_cluster v) (p_nodes v) (p_unknown_nodes v) x (p_own v) (p_heap v)).
Definition set_heap (s : server) (x : gmap Z node) : server :=
  on_peers s (fun v => mk_peers (p_in_cluster v) (p_nodes v) (p_unknown_nodes v) (p_connected_nodes v) (p_own v) x).
Definition set_timestamp (s : server) (x : Z) : server :=
  on_clock s (fun v => mk_clock x (k_last_ts v) (k_last_quorum v) (k_round v) (k_round_match v)).
Definition set_last_ts (s : server) (x : Z) : server :=
  on_clock s (fun v => mk_clock (k_timestamp v) x (k_last_quorum v) (k_round v) (k_round_match v)).
Definition set_last_quorum (s : server) (x : Z) : server :=
  on_clock s (fun v => mk_clock (k_timestamp v) (k_last_ts v) x (k_round v) (k_round_match v)).
Definition set_round (s : server) (x : Z) : server :=
  on_clock s (fun v => mk_clock (k_timestamp v) (k_last_ts v) (k_last_quorum v) x (k_round_match v)).
Definition set_round_match (s : server) (x : Z) : server :=
  on_clock s (fun v => mk_clock (k_timestamp v) (k_last_ts v) (k_last_quorum v) (k_round v) x).
Definition set_meta (s : server) (x : meta) : server :=
  on_core s (fun v => mk_core x (c_disk v) (c_log v) (c_commit v) (c_ss_inprogress v) (c_ss v)).
Definition set_disk (s : server) (x : meta_file) : server :=
  on_core s (fun v => mk_core (c_meta v) x (c_log v) (c_commit v) (c_ss_inprogress v) (c_ss v)).
Definition set_log (s : server) (x : rlog) : server :=
  on_core s (fun v => mk_core (c_meta v) (c_disk v) x (c_commit v) (c_ss_inprogress v) (c_ss v)).
Definition set_commit (s : server) (x : Z) : server :=
  on_core s (fun v => mk_core (c_meta v) (c_disk v) (c_log v) x (c_ss_inprogress v) (c_ss v)).
Definition set_ss_inprogress (s : server) (x : bool) : server :=
  on_core s (fun v => mk_core (c_meta v) (c_disk v) (c_log v) (c_commit v) x (c_ss v)).
Definition set_ss (s : server) (x : snapshot) : server :=
  on_core s (fun v => mk_core (c_meta v) (c_disk v) (c_log v) (c_commit v) (c_ss_inprogress v) x).
Definition set_clients (s : server) (x : gmap (list byte) Z) : server :=
  on_sess s (fun v => mk_sessions x (d_vclients v) (d_term_clients v)).
Definition set_vclients (s : server) (x : gmap Z Z) : server :=
  on_sess s (fun v => mk_sessions (d_clients v) x (d_term_clients v)).
Definition set_term_clients (s : server) (x : list Z) : server :=
  on_sess s (fun v => mk_sessions (d_clients v) (d_vclients v) x).
Definition set_out (s : server) (x : list (Z * msg)) : server :=
  on_eff s (fun v => mk_effects x (e_io v)).
Definition set_io (s : server) (x : nat) : server :=
  on_eff s (fun v => mk_effects (e_out v) x).

Definition s_term (s : server) : Z := m_term (s_meta s).
Definition set_term (s : server) (t : Z) : server := set_meta s (with_term (s_meta s) t).

(** The object of a node; the source never holds a pointer to a node that was freed. *)
Definition node_at (s : server) (n : Z) : node := default (node_create []) (s_heap s !! n).
Definition set_node (s : server) (n : Z) (x : node) : server := set_heap s (<[n := x]> (s_heap s)).

(** A message in the output buffer of a node's connection. *)
Definition put_msg (s : server) (n : Z) (m : msg) : server := set_out s (s_out s ++ [(n, m)]).

(** ** The environment *)

(** One answer: a return code, a flag, the clocks, and random bytes. *)
Record answer := mk_answer { a_rc : rs_rc; a_ok : bool; a_ms : Z; a_mono : Z; a_rand : list byte }.

Section server.
Variable io : nat -> answer.

Definition ask (s : server) : answer * server := (io (s_io s), set_io s (S (s_io s))).

(** ** Configuration file *)

(** Open, write, flush, close, rename, and fsync of the directory; the file is replaced
    by the rename. *)
Definition server_write_meta (s : server) : rs_rc * server :=
  let file := mk_file (c_name (s_conf s)) (s_voted_for s) (s_meta s) in
  let '(a, s) := ask s in
  if negb (bool_decide (a_rc a = RS_OK)) then (a_rc a, s)
  else
    let '(a, s) := ask s in
    if negb (bool_decide (a_rc a = RS_OK)) then (a_rc a, s)
    else
      let '(a, s) := ask s in
      if negb (bool_decide (a_rc a = RS_OK)) then (a_rc a, s)
      else
        let '(a, s) := ask s in
        if negb (bool_decide (a_rc a = RS_OK)) then (a_rc a, s)
        else
          let '(a, s) := ask s in
          if negb (bool_decide (a_rc a = RS_OK)) then (a_rc a, s)
          else
            let s := set_disk s file in
            let '(a, s) := ask s in
            (a_rc a, s).

Definition server_update_meta (s : server) (term : Z) (voted_for : option (list byte)) : rs_rc * server :=
  let s := set_term s term in
  let s := set_voted_for s (str_set (s_voted_for s) voted_for) in
  server_write_meta s.

(** ** Appending to the own log *)

Definition server_sending_snapshot (s : server) : bool :=
  existsb (fun n => n_match (node_at s n) <? ss_index (s_ss s)) (s_connected_nodes s).

Definition server_wait_snapshot (s : server) : rs_rc * server :=
  if negb (s_ss_inprogress s) then (RS_NOOP, s)
  else
    let s := set_ss_inprogress s false in
    let '(a, s) := ask s in
    if negb (bool_decide (a_rc a = RS_OK)) then (a_rc a, s)
    else
      let s := set_log s (log_snapshot_taken (s_log s) (ss_latest_term (s_ss s)) (ss_latest_index (s_ss s))) in
      let '(a, s) := ask s in
      (RS_OK, set_ss s (snapshot_replace (a_ok a) (s_ss s))).

(** The three steps of [server_create_entry] when the store is full; [retry] is the jump
    back.  Wait for the snapshot, if one is being taken: *)
Definition full_wait (retry : server -> rs_rc * server) (s : server) (k : server -> rs_rc * server)
  : rs_rc * server :=
  let '(rc, s) := server_wait_snapshot s in
  match rc with
  | RS_OK => retry s
  | RS_NOOP => k s
  | _ => (rc, s)
  end.

(** ... wait for it once more before failing: *)
Definition full_last (retry : server -> rs_rc * server) (force : bool) (s : server) : rs_rc * server :=
  let exhausted s := (if force then RS_FULL else RS_REJECT, s) in
  if s_ss_inprogress s then full_wait retry s exhausted else exhausted s.

(** ... and make the current page larger, which for requests of clients is done for the
    first page only. *)
Definition full_reserve (retry : server -> rs_rc * server) (force : bool) (s : server) : rs_rc * server :=
  let '(reserve, s) :=
    if force then (true, s)
    else let '(a, s) := ask s in (negb (a_ok a), s) in          (* store_last_part *)
  if (reserve : bool) then
    let '(a, s) := ask s in                                     (* store_reserve *)
    match a_rc a with
    | RS_OK => retry s
    | RS_FULL => full_last retry force s
    | rc => (rc, s)
    end
  else full_last retry force s.

(** [fuel] bounds the jumps to [retry]; [RS_FAIL] is exhausted fuel. *)
Fixpoint server_create_entry (fuel : nat) (s : server) (force : bool) (seq cid flags : Z) (data : list byte)
  : rs_rc * server :=
  match fuel with
  | O => (RS_FAIL, s)
  | S fuel =>
      let retry s := server_create_entry fuel s force seq cid flags data in
      let '(a, s) := ask s in                                   (* store_create_entry *)
      match a_rc a with
      | RS_OK =>
          let s := set_log s (log_append (s_log s) (mk_entry (s_term s) seq cid flags data)) in
          let diff := s_timestamp s -₆₄ s_last_ts s in
          if diff >? 3 then
            let s := set_last_ts s (s_timestamp s) in
            let '(a, s) := ask s in
            let data := cmd_bytes (CTimestamp (mk_timestamp (a_mono a) (a_ms a))) in
            (RS_OK, snd (server_create_entry fuel s true 0 0 CMD_TIMESTAMP data))
          else (RS_OK, s)
      | RS_FULL =>
          let '(a, s) := ask s in                               (* snapshot_running *)
          let ss_running := a_ok a in
          let ss_sending := server_sending_snapshot s in
          if negb ss_sending && negb ss_running
          then full_wait retry s (full_reserve retry force)
          else full_reserve retry force s
      | rc => (rc, s)
      end
  end.

Definition CREATE_FUEL : nat := 8.

Definition server_write_init_cmd (s : server) : rs_rc * server :=
  let '(a, s) := ask s in                               (* rs_urandom *)
  if negb (bool_decide (a_rc a = RS_OK)) then (a_rc a, s)
  else
    let data := cmd_bytes (CInit (mk_init (a_mono a) (a_ms a) (a_rand a))) in
    server_create_entry CREATE_FUEL s true 0 0 CMD_INIT data.

Definition server_write_meta_cmd (s : server) : rs_rc * server :=
  let s := set_meta s (meta_set_leader (s_meta s) (Some (c_name (s_conf s)))) in
  let s := set_meta s (with_index (s_meta s) (last_index (s_log s) +₆₄ 1)) in
  server_create_entry CREATE_FUEL s true 0 0 CMD_META (cmd_bytes (CMeta (s_meta s))).

Definition server_write_term_start_cmd (s : server) : rs_rc * server :=
  let '(a, s) := ask s in
  server_create_entry CREATE_FUEL s true 0 0 CMD_TERM (cmd_bytes (CTerm (mk_term (a_mono a) (a_ms a)))).

(** ** Roles *)

Definition server_become_follower (s : server) (leader : option Z) (term : Z) : server :=
  let s :=
    if negb (bool_decide (s_leader s = leader)) then
      let s := set_leader s leader in
      set_meta s (meta_set_leader (s_meta s)
        (match leader with Some n => Some (n_name (node_at s n)) | None => None end))
    else s in
  let s := set_role s SERVER_ROLE_FOLLOWER in
  let s := set_leader s leader in
  let s := set_prevote_count s 0 in
  let s := set_prevote_term s 0 in
  let s := set_vote_count s 0 in
  let s := set_cluster_up s false in
  let s := set_term s term in
  let s := set_ss s (snapshot_clear (s_ss s)) in
  let s := set_term_clients s (s_term_clients s ++ map snd (map_to_list (s_clients s))) in
  let s := set_clients s ∅ in
  set_vclients s ∅.

Definition server_on_node_disconnect (s : server) (n : Z) : server :=
  let s := set_connected_nodes s (filter (fun m => m <> n) (s_connected_nodes s)) in
  let s := set_node s n (node_disconnect (node_at s n)) in
  if decide (s_leader s = Some n) then set_leader s None else s.

Definition clear_all (s : server) (ns : list Z) : server :=
  foldl (fun s n => set_node s n (node_clear_indexes (node_at s n) (last_index (s_log s)))) s ns.

Definition server_become_leader (s : server) : rs_rc * server :=
  let s := set_role s SERVER_ROLE_LEADER in
  let s := set_leader s (Some (s_own s)) in
  let s := clear_all s (s_nodes s) in
  let s := clear_all s (s_unknown_nodes s) in
  let '(rc, s) := if last_index (s_log s) =? 0 then server_write_init_cmd s else (RS_OK, s) in
  if negb (bool_decide (rc = RS_OK)) then (rc, s)
  else
    let '(rc, s) := server_write_meta_cmd s in
    if negb (bool_decide (rc = RS_OK)) then (rc, s)
    else server_write_term_start_cmd s.

(** ** Elections *)

(** The loops over the connected nodes: put the message, flush, and disconnect the node
    when that fails. *)
Fixpoint broadcast (s : server) (ns : list Z) (m : msg) : server :=
  match ns with
  | [] => s
  | n :: ns =>
      let s := put_msg s n m in
      let '(a, s) := ask s in
      let s := if bool_decide (a_rc a = RS_OK) then s else server_on_node_disconnect s n in
      broadcast s ns m
  end.

Definition majority (s : server) : Z := m_voter (s_meta s) / 2 + 1.

Definition server_check_prevote_count (s : server) : rs_rc * server :=
  if s_prevote_count s >=? majority s then
    let s := set_vote_count s 0 in
    let vote := if s_in_cluster s then Some (c_name (s_conf s)) else None in
    let s := if s_in_cluster s then set_vote_count s (s_vote_count s +₃₂ 1) else s in
    let '(rc, s) := server_update_meta s (s_prevote_term s) vote in
    if negb (bool_decide (rc = RS_OK)) then (rc, s)
    else
      let s := broadcast s (s_connected_nodes s)
                 (reqvote_req (s_term s) (last_term (s_log s)) (last_index (s_log s))) in
      if s_vote_count s >=? majority s then server_become_leader s else (RS_OK, s)
  else (RS_OK, s).

(** The leader was heard of within the heartbeat. *)
Definition leader_alive (s : server) : bool :=
  match s_leader s with
  | None => false
  | Some n => c_heartbeat (s_conf s) >? s_timestamp s -₆₄ n_in_timestamp (node_at s n)
  end.

Definition server_on_election_timeout (s : server) : rs_rc * server :=
  let timeout := c_heartbeat (s_conf s) in
  if bool_decide (s_role s = SERVER_ROLE_LEADER) then
    let diff := s_timestamp s -₆₄ s_last_quorum s in
    let s := if diff >? timeout then set_round s (s_round s +₆₄ 1) else s in
    let s := if diff >? u64 (timeout * 4) then server_become_follower s None (s_term s) else s in
    (RS_OK, s)
  else if timeout >? s_timestamp s -₆₄ s_vote_timestamp s then (RS_OK, s)
  else if leader_alive s then (RS_OK, s)
  else if negb (s_in_cluster s) && bool_decide (m_prev (s_meta s) = None) then (RS_OK, s)
  else
    let connected := zlen (s_connected_nodes s) + (if s_in_cluster s then 1 else 0) in
    if connected <? majority s then (RS_OK, s)
    else
      let s := set_role s SERVER_ROLE_CANDIDATE in
      let s := set_prevote_count s 0 in
      let s := if s_in_cluster s then set_prevote_count s (s_prevote_count s +₃₂ 1) else s in
      let s := set_prevote_term s (s_term s +₆₄ 1) in
      let s := broadcast s (s_connected_nodes s)
                 (prevote_req (s_term s +₆₄ 1) (last_term (s_log s)) (last_index (s_log s))) in
      server_check_prevote_count s.

(** The test both request handlers make. *)
Definition vote_refused (s : server) (term : Z) : bool :=
  leader_alive s || ((term =? s_term s) && bool_decide (s_voted_for s <> None)).

Definition server_on_reqvote_req (s : server) (n : Z) (term last_log_index : Z) : rs_rc * server :=
  let index := last_index (s_log s) in
  if vote_refused s term then (RS_OK, put_msg s n (reqvote_resp term index false))
  else if (term >=? s_term s) && (last_log_index >=? index) then
    let '(rc, s) := server_update_meta s term (Some (n_name (node_at s n))) in
    if negb (bool_decide (rc = RS_OK)) then (rc, s)
    else
      let s := set_vote_timestamp s (s_timestamp s) in
      (RS_OK, put_msg s n (reqvote_resp term index true))
  else (RS_OK, put_msg s n (reqvote_resp term index false)).

Definition server_on_reqvote_resp (s : server) (term : Z) (granted : bool) : rs_rc * server :=
  if negb (bool_decide (s_role s = SERVER_ROLE_CANDIDATE)) || negb (s_term s =? term) then (RS_OK, s)
  else if term >? s_term s then (RS_OK, server_become_follower s None term)
  else if negb granted then (RS_OK, s)
  else
    let s := set_vote_count s (s_vote_count s +₃₂ 1) in
    if s_vote_count s >=? majority s then server_become_leader s else (RS_OK, s).

Definition server_on_prevote_req (s : server) (n : Z) (term last_log_index : Z) : rs_rc * server :=
  let index := last_index (s_log s) in
  let result :=
    if vote_refused s term then false
    else (term >=? s_term s) && (last_log_index >=? index) in
  (RS_OK, put_msg s n (prevote_resp term index result)).

Definition server_on_prevote_resp (s : server) (term : Z) (granted : bool) : rs_rc * server :=
  if negb (bool_decide (s_role s = SERVER_ROLE_CANDIDATE)) || negb (s_prevote_term s =? term) then (RS_OK, s)
  else if negb granted then (RS_OK, s)
  else server_check_prevote_count (set_prevote_count s (s_prevote_count s +₃₂ 1)).
End server.
