(* ===== verification/Election.v ===== *)
(** * Elections of a server

    What the handlers of Server.v do to the state that decides elections, as transitions that
    are the same for every cluster, and why these transitions let no two candidates have a
    majority in one term.  Cluster.v puts the complete servers together. *)

From Stdlib Require Import ZArith Lia.
From Stdlib Require Import Strings.Byte.
From stdpp Require Import base list numbers gmap.
From S2P Require Import Prelude Str Uri Buf Entry Page Store Msg Map Meta Cmd Node Server.

#[local] Set Warnings "-clear-no-such-hyp".

(** ** Servers of a small cluster *)

(** Three nodes, with ids 1, 2 and 3 and names of one letter. *)
Definition trio_uri (name port : byte) : list byte := demo_uri name port.
Definition trio_meta : meta :=
  snd (meta_parse_uris (meta_init (Some [x63]))
    (Some (demo_uri x61 x31 ++ [x20] ++ demo_uri x62 x32 ++ [x20] ++ demo_uri x63 x33))).

Definition trio_name (i : Z) : list byte := [z2b (96 + i)].

Definition trio_server (i : Z) (log : rlog) : server :=
  mk_server (mk_conf (trio_name i) 4000 true)
    (mk_voting SERVER_ROLE_FOLLOWER None None 0 0 0 0 false)
    (mk_peers true [1; 2; 3] [] (filter (fun j => j <> i) [1; 2; 3]) i
      (list_to_map (map (fun j => (j, node_create (trio_name j))) [1; 2; 3])))
    (mk_clock 0 0 0 0 0)
    (mk_core trio_meta (mk_file (trio_name i) None trio_meta) log 0 false (mk_snapshot 0 0 0 0 0 0 false))
    (mk_sessions ∅ ∅ [])
    (mk_effects [] 0).

Definition empty_log : rlog := mk_rlog 0 [] 0 0.

(** Everything outside succeeds. *)
Definition all_ok : nat -> answer := fun _ => mk_answer RS_OK true 0 0 (replicate 256 x00).

(** ** What the parts of a handler leave alone *)

(** Everything but the log, the clocks, the clients and the snapshot. *)
Record quiet (s s' : server) : Prop := {
  q_commit : s_commit s' = s_commit s;
  q_vote : s_vote_ s' = s_vote_ s;
  q_peers : s_peers_ s' = s_peers_ s;
  q_meta : s_meta s' = s_meta s;
  q_disk : s_disk s' = s_disk s;
  q_conf : s_conf s' = s_conf s;
  q_out : s_out s' = s_out s
}.

Lemma quiet_refl s : quiet s s.
Proof. by split. Qed.

Lemma quiet_trans s1 s2 s3 : quiet s1 s2 -> quiet s2 s3 -> quiet s1 s3.
Proof. intros [] []. split; congruence. Qed.

#[local] Hint Resolve quiet_refl : core.

Lemma quiet_ask io s : quiet s (snd (ask io s)).
Proof. by split. Qed.

Lemma wait_quiet io s : quiet s (snd (server_wait_snapshot io s)).
Proof.
  unfold server_wait_snapshot. destruct (negb _); [done|]. unfold ask. cbv zeta beta iota.
  destruct (negb _); by split.
Qed.

Lemma full_wait_quiet io retry s k :
  (forall s, quiet s (snd (retry s))) -> (forall s, quiet s (snd (k s))) -> quiet s (snd (full_wait io retry s k)).
Proof.
  intros Hr Hk. unfold full_wait. pose proof (wait_quiet io s) as H0.
  destruct (server_wait_snapshot io s) as [rc s1]. cbn [snd] in H0.
  destruct rc; try exact H0; (eapply quiet_trans; [exact H0|]); [apply Hr|apply Hk].
Qed.

Lemma full_last_quiet io retry force s :
  (forall s, quiet s (snd (retry s))) -> quiet s (snd (full_last io retry force s)).
Proof. intros Hr. unfold full_last. case_if; [|done]. by apply full_wait_quiet. Qed.

Lemma full_reserve_quiet io retry force s :
  (forall s, quiet s (snd (retry s))) -> quiet s (snd (full_reserve io retry force s)).
Proof.
  intros Hr. unfold full_reserve.
  assert (H : forall s, quiet s (snd (let '(a, s) := ask io s in
    match a_rc a with RS_OK => retry s | RS_FULL => full_last io retry force s | rc => (rc, s) end))).
  { intros s0. pose proof (quiet_ask io s0) as H0. unfold ask in *. cbn [snd] in H0.
    destruct (a_rc _); try exact H0; (eapply quiet_trans; [exact H0|]); [apply Hr|by apply full_last_quiet]. }
  destruct force; cbn [negb]; [apply H|]. pose proof (quiet_ask io s) as H0. unfold ask at 1. unfold ask in H0.
  cbv beta iota zeta. cbn [snd] in H0. eapply quiet_trans; [exact H0|]. destruct (negb _); [apply H|by apply full_last_quiet].
Qed.

Lemma create_quiet io fuel : forall s force seq cid flags data,
  quiet s (snd (server_create_entry io fuel s force seq cid flags data)).
Proof.
  induction fuel as [|fuel IH]; intros s force seq cid flags data; [done|]. cbn [server_create_entry].
  unfold ask at 1. cbv beta iota zeta. set (s1 := set_io s _).
  assert (H1 : quiet s s1) by (by split). destruct (a_rc (io (s_io s))); try exact H1.
  - set (s2 := set_log s1 _). assert (H2 : quiet s s2) by (by split). case_if; [|exact H2].
    unfold ask. cbv beta iota zeta. cbn [snd]. eapply quiet_trans; [|apply IH]. by split.
  - eapply quiet_trans; [exact H1|]. unfold ask at 1. cbv beta iota zeta.
    eapply quiet_trans; [apply (quiet_ask io)|]. unfold ask. cbn [snd].
    destruct (negb _ && negb _); [apply full_wait_quiet|apply full_reserve_quiet]; intros;
      try apply full_reserve_quiet; intros; apply IH.
Qed.

(** ** The state that decides elections *)

(** Role, term, whether a vote was given, the term of the own prevote, counted votes, and
    term and vote in the file. *)
Record view := mk_view {
  v_is : server_role;
  v_term : Z;
  v_voted : bool;
  v_pterm : Z;
  v_count : Z;
  v_dterm : Z;
  v_dvoted : bool
}.

Definition is_set (x : option (list byte)) : bool := bool_decide (x <> None).

Definition view_of (s : server) : view :=
  mk_view (s_role s) (s_term s) (is_set (s_voted_for s)) (s_prevote_term s) (s_vote_count s)
    (m_term (f_meta (s_disk s))) (is_set (f_voted_for (s_disk s))).

(** A configuration of [n] voters. *)
Definition voters (n : Z) (m : meta) : Prop := m_voter m = n /\ zlen (m_nodes m) = n.

(** A member of a cluster of [n] nodes, between two handlers when [out] is empty. *)
Record member (n : Z) (s : server) : Prop := {
  mb_meta : voters n (s_meta s);
  mb_disk : voters n (f_meta (s_disk s));
  mb_in : s_in_cluster s = true;
  mb_name : fits (Some (c_name (s_conf s)));
  mb_names : forall j, fits (Some (n_name (node_at s j)))
}.

Lemma voters_set_leader n m name : 0 <= n < 2 ^ 32 -> voters n m -> voters n (meta_set_leader m name) /\
  m_term (meta_set_leader m name) = m_term m.
Proof.
  intros Hn [Hv Hl]. unfold meta_set_leader, meta_update, with_nodes, voters. cbn [m_nodes m_voter m_term].
  unfold zlen in *. rewrite length_map. rewrite u32_small by lia. done.
Qed.

Lemma voters_with n m t i : voters n m -> voters n (with_term m t) /\ voters n (with_index m i) /\
  m_term (with_term m t) = t /\ m_term (with_index m i) = m_term m.
Proof. intros [Hv Hl]. by destruct m. Qed.

Lemma quiet_member n s s' : quiet s s' -> member n s -> member n s' /\ view_of s' = view_of s.
Proof.
  intros [_ H1 H2 H3 H4 H5 _] [M1 M2 M3 M4 M5]. unfold view_of, s_term. rewrite H1, H3, H4. split; [|done].
  split; [by rewrite H3|by rewrite H4|by rewrite H2|by rewrite H5|].
  intros j. unfold node_at. rewrite H2. apply M5.
Qed.

Lemma member_set_node n s j x :
  member n s -> n_name x = n_name (node_at s j) ->
  member n (set_node s j x) /\ view_of (set_node s j x) = view_of s.
Proof.
  intros [M1 M2 M3 M4 M5] E. split; [|done]. split; try done. intros k. unfold node_at, set_node. cbn.
  destruct (decide (j = k)) as [->|Hne].
  - rewrite lookup_insert_eq. cbn. unfold id. rewrite E. apply M5.
  - rewrite lookup_insert_ne by done. apply M5.
Qed.

Lemma member_clear_all n ns : forall s,
  member n s -> member n (clear_all s ns) /\ view_of (clear_all s ns) = view_of s /\
  s_out (clear_all s ns) = s_out s /\ s_conf (clear_all s ns) = s_conf s.
Proof.
  induction ns as [|j ns IH]; intros s Hm; [done|]. cbn [clear_all foldl]. fold (clear_all).
  destruct (member_set_node n s j (node_clear_indexes (node_at s j) (last_index (s_log s))) Hm eq_refl) as [H1 H2].
  destruct (IH _ H1) as (H3 & H4 & H5 & H6). unfold clear_all in *. split_and!; [done|congruence|done|done].
Qed.

(** The vote is in the file exactly when writing it succeeded, or failed after the
    rename. *)
Lemma write_meta_spec io s : exists rc s',
  server_write_meta io s = (rc, s') /\ s_vote_ s' = s_vote_ s /\ s_peers_ s' = s_peers_ s /\
  s_meta s' = s_meta s /\ s_conf s' = s_conf s /\ s_out s' = s_out s /\
  let file := mk_file (c_name (s_conf s)) (s_voted_for s) (s_meta s) in
  (s_disk s' = file \/ (s_disk s' = s_disk s /\ rc <> RS_OK)).
Proof.
  unfold server_write_meta, ask. cbv beta iota zeta.
  do 5 (case_bool_decide; cbn [negb]; [|eexists _, _; split; [reflexivity|]; split_and!; try done; by right]).
  eexists _, _. split; [reflexivity|]. split_and!; try done. by left.
Qed.

Lemma update_meta_spec io n s t x :
  member n s -> fits (Some x) ->
  exists rc s', server_update_meta io s t (Some x) = (rc, s') /\ member n s' /\ s_out s' = s_out s /\
    s_conf s' = s_conf s /\
    let v := view_of s in
    (view_of s' = mk_view (v_is v) t true (v_pterm v) (v_count v) t true \/
     (rc <> RS_OK /\ view_of s' = mk_view (v_is v) t true (v_pterm v) (v_count v) (v_dterm v) (v_dvoted v))).
Proof.
  intros [M1 M2 M3 M4 M5] Hx. unfold server_update_meta. rewrite (str_set_fits _ (Some x)) by (done || by eexists).
  set (s1 := set_voted_for _ _). destruct (write_meta_spec io s1) as (rc & s' & E & H1 & H2 & H3 & H4 & H5 & H6).
  destruct (voters_with n (s_meta s) t 0 M1) as (V1 & _ & V2 & _).
  exists rc, s'. split; [done|].
  assert (Hm : voters n (s_meta s')) by (rewrite H3; exact V1).
  assert (Hd : voters n (f_meta (s_disk s'))) by (destruct H6 as [-> | [-> _]]; [exact V1|exact M2]).
  split_and!; [split; [done|done|by rewrite H2|by rewrite H4|]|done|done|].
  - intros j. unfold node_at. rewrite H2. apply M5.
  - unfold view_of, s_term. rewrite H1, H3. cbv zeta. cbn [v_is v_pterm v_count v_dterm v_dvoted].
    destruct H6 as [-> | [-> Hrc]]; [left|right; split; [done|]]; reflexivity.
Qed.

Definition with_is (v : view) (r : server_role) : view :=
  mk_view r (v_term v) (v_voted v) (v_pterm v) (v_count v) (v_dterm v) (v_dvoted v).

Lemma create_member io n s force seq cid flags data :
  member n s ->
  let s' := snd (server_create_entry io CREATE_FUEL s force seq cid flags data) in
  member n s' /\ view_of s' = view_of s /\ s_out s' = s_out s /\ s_conf s' = s_conf s.
Proof.
  intros Hm s'. pose proof (create_quiet io CREATE_FUEL s force seq cid flags data) as Hq. fold s' in Hq.
  destruct (quiet_member n _ _ Hq Hm) as [H1 H2]. split_and!; [done|done|apply Hq|apply Hq].
Qed.

Lemma member_io n s k : member n s -> member n (set_io s k) /\ view_of (set_io s k) = view_of s.
Proof. intros []. by split. Qed.

Lemma init_cmd_member io n s :
  member n s ->
  let s' := snd (server_write_init_cmd io s) in
  member n s' /\ view_of s' = view_of s /\ s_out s' = s_out s /\ s_conf s' = s_conf s.
Proof.
  intros Hm. unfold server_write_init_cmd, ask. cbv beta iota zeta.
  destruct (member_io n s (S (s_io s)) Hm) as [H1 H2].
  destruct (negb _); [by split_and!|]. set (s1 := set_io s _) in *.
  destruct (create_member io n s1 true 0 0 CMD_INIT
    (cmd_bytes (CInit (mk_init (a_mono (io (s_io s))) (a_ms (io (s_io s))) (a_rand (io (s_io s)))))) H1) as (H3 & H4 & H5 & H6).
  split_and!; [done|congruence|done|done].
Qed.

Lemma term_cmd_member io n s :
  member n s ->
  let s' := snd (server_write_term_start_cmd io s) in
  member n s' /\ view_of s' = view_of s /\ s_out s' = s_out s /\ s_conf s' = s_conf s.
Proof.
  intros Hm. unfold server_write_term_start_cmd, ask. cbv beta iota zeta.
  destruct (member_io n s (S (s_io s)) Hm) as [H1 H2]. set (s1 := set_io s _) in *.
  destruct (create_member io n s1 true 0 0 CMD_TERM
    (cmd_bytes (CTerm (mk_term (a_mono (io (s_io s))) (a_ms (io (s_io s)))))) H1) as (H3 & H4 & H5 & H6).
  split_and!; [done|congruence|done|done].
Qed.

Lemma set_meta_member n s m :
  member n s -> voters n m -> m_term m = s_term s ->
  member n (set_meta s m) /\ view_of (set_meta s m) = view_of s.
Proof. intros [M1 M2 M3 M4 M5] Hv Ht. split; [by split|]. unfold view_of, s_term in *. cbn. by rewrite Ht. Qed.

Lemma meta_cmd_member io n s :
  0 <= n < 2 ^ 32 -> member n s ->
  let s' := snd (server_write_meta_cmd io s) in
  member n s' /\ view_of s' = view_of s /\ s_out s' = s_out s /\ s_conf s' = s_conf s.
Proof.
  intros Hn Hm. unfold server_write_meta_cmd.
  destruct (voters_set_leader n (s_meta s) (Some (c_name (s_conf s))) Hn (mb_meta _ _ Hm)) as [V1 T1].
  destruct (set_meta_member n s _ Hm V1 T1) as [H1 H2]. set (s1 := set_meta s _) in *.
  destruct (voters_with n (s_meta s1) 0 (last_index (s_log s1) +₆₄ 1) (mb_meta _ _ H1)) as (_ & V2 & _ & T2).
  destruct (set_meta_member n s1 _ H1 V2 T2) as [H3 H4]. set (s2 := set_meta s1 _) in *.
  destruct (create_member io n s2 true 0 0 CMD_META (cmd_bytes (CMeta (s_meta s2))) H3) as (H5 & H6 & H7 & H8).
  split_and!; [done|congruence|done|done].
Qed.

Lemma become_leader_spec io n s :
  0 <= n < 2 ^ 32 -> member n s ->
  let s' := snd (server_become_leader io s) in
  member n s' /\ view_of s' = with_is (view_of s) SERVER_ROLE_LEADER /\ s_out s' = s_out s /\ s_conf s' = s_conf s.
Proof.
  intros Hn Hm. unfold server_become_leader. set (s1 := set_leader _ _).
  assert (H1 : member n s1) by (destruct Hm; by split).
  assert (E1 : view_of s1 = with_is (view_of s) SERVER_ROLE_LEADER) by done.
  assert (O1 : s_out s1 = s_out s) by done. assert (C1 : s_conf s1 = s_conf s) by done.
  destruct (member_clear_all n (s_nodes s1) s1 H1) as (H2 & E2 & O2 & C2).
  set (s2 := clear_all s1 (s_nodes s1)) in *.
  destruct (member_clear_all n (s_unknown_nodes s2) s2 H2) as (H3 & E3 & O3 & C3).
  set (s3 := clear_all s2 (s_unknown_nodes s2)) in *. cbv zeta.
  assert (Hi : let r := if last_index (s_log s3) =? 0 then server_write_init_cmd io s3 else (RS_OK, s3) in
    member n (snd r) /\ view_of (snd r) = view_of s3 /\ s_out (snd r) = s_out s3 /\ s_conf (snd r) = s_conf s3)
    by (cbv zeta; case_if; [by apply init_cmd_member|done]).
  destruct (if last_index (s_log s3) =? 0 then _ else _) as [rc s4]. cbn [snd] in Hi. destruct Hi as (H4 & E4 & O4 & C4).
  destruct (negb _); [cbn [snd]; split_and!; [done|congruence..]|].
  destruct (meta_cmd_member io n s4 Hn H4) as (H5 & E5 & O5 & C5).
  destruct (server_write_meta_cmd io s4) as [rc' s5]. cbn [snd] in *.
  destruct (negb _); [split_and!; [done|cbn [snd]; congruence..]|].
  destruct (term_cmd_member io n s5 H5) as (H6 & E6 & O6 & C6). split_and!; [done|congruence..].
Qed.

Lemma disconnect_member n s j :
  member n s -> let s' := server_on_node_disconnect s j in
  member n s' /\ view_of s' = view_of s /\ s_out s' = s_out s /\ s_conf s' = s_conf s.
Proof.
  intros Hm. unfold server_on_node_disconnect. set (s1 := set_connected_nodes s _).
  assert (H1 : member n s1) by (destruct Hm; by split).
  destruct (member_set_node n s1 j (node_disconnect (node_at s1 j)) H1 eq_refl) as [H2 E2].
  cbv zeta. set (s2 := set_node s1 j _) in *. destruct (decide _); [|by split_and!].
  split_and!; [destruct H2; by split|done|done|done].
Qed.

Lemma broadcast_spec io n m ns : forall s,
  member n s -> let s' := broadcast io s ns m in
  member n s' /\ view_of s' = view_of s /\ s_out s' = s_out s ++ map (fun j => (j, m)) ns /\ s_conf s' = s_conf s.
Proof.
  induction ns as [|j ns IH]; intros s Hm; cbn [broadcast map]; [by rewrite app_nil_r|].
  unfold ask. cbv beta iota zeta. set (s1 := put_msg s j m). set (s2 := set_io s1 _).
  assert (H2 : member n s2) by (destruct Hm; by split).
  set (s3 := if bool_decide _ then s2 else _).
  assert (H3 : member n s3 /\ view_of s3 = view_of s /\ s_out s3 = s_out s ++ [(j, m)] /\ s_conf s3 = s_conf s).
  { unfold s3. case_bool_decide; [by split_and!|]. destruct (disconnect_member n s2 j H2) as (A & B & C & D).
    split_and!; [done|rewrite B; done|rewrite C; done|rewrite D; done]. }
  destruct H3 as (A & B & C & D). destruct (IH s3 A) as (A' & B' & C' & D').
  split_and!; [done|congruence|by rewrite C', C, <- app_assoc|congruence].
Qed.

(** ** Elections as transitions of one view *)

(** Handlers that have nothing to do with votes, and a start: the file keeps its term or gets a
    larger one, with the vote it had or the one in memory.  Either the term is not lowered, the
    vote is kept, and the server steps down or goes on (a candidate or leader in its term), or
    the server starts as a follower with what its file has. *)
Record other (v v' : view) : Prop := {
  ot_dterm : v_dterm v <= v_dterm v';
  ot_dvoted : v_dvoted v' = v_dvoted v \/ v_dvoted v' = v_voted v;
  ot_rest :
    (v_term v <= v_term v' /\ v_voted v' = v_voted v /\
      ((v_is v' = SERVER_ROLE_FOLLOWER /\ v_count v' = 0) \/
       (v_is v' = v_is v /\ v_count v' = v_count v /\ v_pterm v' = v_pterm v /\
         (v_is v = SERVER_ROLE_FOLLOWER \/ v_term v' = v_term v)))) \/
    (v_is v' = SERVER_ROLE_FOLLOWER /\ v_term v' = v_dterm v' /\ v_voted v' = v_dvoted v' /\
      (v_count v' = 0 \/ v_count v' = v_count v))
}.

(** Votes by term and candidate. *)
Definition ballots : Type := Z * Z -> Prop.

(** The transitions a handler of node [i] is made of, with the votes it gives.  [P] are the
    candidacies it knows of: term and node. *)
Inductive local (n i : Z) (P : ballots) : view -> view -> list (Z * Z) -> Prop :=
| l_other v v' : other v v' -> local n i P v v' []
| l_candidate v :
    v_is v <> SERVER_ROLE_LEADER ->
    local n i P v (mk_view SERVER_ROLE_CANDIDATE (v_term v) (v_voted v) (v_term v + 1) (v_count v) (v_dterm v) (v_dvoted v)) []
| l_try v :
    v_is v = SERVER_ROLE_CANDIDATE ->
    local n i P v (mk_view SERVER_ROLE_CANDIDATE (v_term v) (v_voted v) (v_pterm v) 1 (v_dterm v) (v_dvoted v)) []
| l_self v :
    v_is v = SERVER_ROLE_CANDIDATE ->
    local n i P v (mk_view SERVER_ROLE_CANDIDATE (v_pterm v) true (v_pterm v) 1 (v_pterm v) true) [(v_pterm v, i)]
| l_lead v :
    v_is v = SERVER_ROLE_CANDIDATE -> v_pterm v = v_term v \/ P (v_term v, i) -> n / 2 + 1 <= v_count v ->
    local n i P v (with_is v SERVER_ROLE_LEADER) []
| l_grant v t c :
    c <> i -> P (t, c) -> v_is v = SERVER_ROLE_FOLLOWER -> v_term v <= t -> (t = v_term v -> v_voted v = false) ->
    local n i P v (mk_view SERVER_ROLE_FOLLOWER t true (v_pterm v) (v_count v) t true) [(t, c)]
| l_persist v t :
    v_term v <= t -> (t = v_term v -> v_voted v = false) ->
    local n i P v (mk_view (v_is v) (v_term v) (v_voted v) (v_pterm v) (v_count v) t true) [].

Inductive locals (n i : Z) (P : ballots) : view -> view -> list (Z * Z) -> Prop :=
| ls_nil v : locals n i P v v []
| ls_cons v v1 v2 g gs : local n i P v v1 g -> locals n i P v1 v2 gs -> locals n i P v v2 (g ++ gs).

Lemma locals_one n i P v v' g : local n i P v v' g -> locals n i P v v' g.
Proof. intros H. rewrite <- (app_nil_r g). eapply ls_cons; [exact H|constructor]. Qed.

Lemma locals_app n i P v v1 v2 g gs : locals n i P v v1 g -> locals n i P v1 v2 gs -> locals n i P v v2 (g ++ gs).
Proof.
  induction 1 as [|v v1 v2' g1 gs1 Hl Hls IH]; intros H; [done|]. rewrite <- app_assoc. eapply ls_cons; [exact Hl|by apply IH].
Qed.

Lemma locals_then n i P v v1 v2 g : locals n i P v v1 g -> local n i P v1 v2 [] -> locals n i P v v2 g.
Proof. intros H1 H2. rewrite <- (app_nil_r g). eapply locals_app; [exact H1|by apply locals_one]. Qed.

(** What a server knows after it was closed. *)
Definition down (v : view) : view :=
  mk_view SERVER_ROLE_FOLLOWER (v_dterm v) (v_dvoted v) (v_pterm v) (v_count v) (v_dterm v) (v_dvoted v).

Lemma down_other v : other v (down v).
Proof. split; cbn; [lia|by left|]. right. split_and!; [done|done|done|by right]. Qed.

(** *** Messages with votes and requests *)

(** Votes in a sequence of messages: voter, term, candidate. *)
Definition granted (i : Z) (dm : Z * msg) : option (Z * Z * Z) :=
  match snd dm with reqvote_resp t _ true => Some (i, t, fst dm) | _ => None end.
Definition grants (i : Z) (out : list (Z * msg)) : list (Z * Z * Z) := omap (granted i) out.

(** The terms in which votes are asked for. *)
Definition requested (m : msg) : option Z := match m with reqvote_req t _ _ => Some t | _ => None end.
Definition requests (out : list (Z * msg)) : list Z := omap (fun dm => requested (snd dm)) out.

(** A message that has nothing to do with votes. *)
Definition plain (m : msg) : bool :=
  match m with reqvote_req _ _ _ | reqvote_resp _ _ true => false | _ => true end.

Lemma grants_app i a b : grants i (a ++ b) = grants i a ++ grants i b.
Proof. unfold grants. by rewrite omap_app. Qed.

Lemma requests_app a b : requests (a ++ b) = requests a ++ requests b.
Proof. unfold requests. by rewrite omap_app. Qed.

Lemma plain_out i j m : plain m = true -> grants i [(j, m)] = [] /\ requests [(j, m)] = [].
Proof. destruct m as [| | | | | | | | | | |t ix g| | | | |]; try done. by destruct g. Qed.

Lemma grants_broadcast i m ns :
  granted i (0, m) = None -> grants i (map (fun j => (j, m)) ns) = [].
Proof.
  intros Hm. induction ns as [|j ns IH]; [done|]. cbn [map grants omap list_omap]. fold (grants i).
  assert (granted i (j, m) = None) as -> by (unfold granted in *; cbn [snd] in *; by destruct m; try destruct granted0).
  exact IH.
Qed.

Lemma requests_broadcast m ns t : t ∈ requests (map (fun j => (j, m)) ns) -> requested m = Some t.
Proof.
  unfold requests. induction ns as [|j ns IH]; [by intros ?%elem_of_nil|]. cbn [map omap list_omap snd].
  destruct (requested m) as [x|]; [|exact IH]. intros [->|Ht]%elem_of_cons; [done|by apply IH].
Qed.

(** The votes for others among those given. *)
Definition given (i : Z) (gs : list (Z * Z)) : list (Z * Z * Z) :=
  map (fun tc => (i, fst tc, snd tc)) (filter (fun tc => snd tc <> i) gs).

Lemma given_app i a b : given i (a ++ b) = given i a ++ given i b.
Proof. unfold given. by rewrite filter_app, map_app. Qed.

(** The messages of a handler: exactly the votes it gives to others, and requests in terms in
    which it has voted for itself. *)
Record speaks (i : Z) (gs : list (Z * Z)) (s s' : server) : Prop := {
  sp_grants : grants i (s_out s') = grants i (s_out s) ++ given i gs;
  sp_requests : forall t, t ∈ requests (s_out s') -> t ∈ requests (s_out s) \/ (t, i) ∈ gs
}.

Lemma speaks_same i s s' : s_out s' = s_out s -> speaks i [] s s'.
Proof. intros E. split; rewrite E; [by rewrite app_nil_r|by left]. Qed.

Lemma speaks_more i gs s s1 s' : speaks i gs s s1 -> speaks i [] s1 s' -> speaks i gs s s'.
Proof.
  intros [G1 R1] [G2 R2]. split; [by rewrite G2, app_nil_r, G1|].
  intros t [H| []%elem_of_nil]%R2. by apply R1.
Qed.

(** A handler moves the view by local transitions, and speaks accordingly; when it fails only
    the file is left. *)
Definition handles (n i : Z) (P : ballots) (s : server) (r : rs_rc * server) : Prop :=
  exists gs v', locals n i P (view_of s) v' gs /\ speaks i gs s (snd r) /\
    (if decide (fst r = RS_OK) then member n (snd r) /\ view_of (snd r) = v' else down (view_of (snd r)) = down v').

Lemma handles_ok n i P s s' gs :
  member n s' -> locals n i P (view_of s) (view_of s') gs -> speaks i gs s s' -> handles n i P s (RS_OK, s').
Proof. intros Hm Hl Ho. exists gs, (view_of s'). by split_and!. Qed.

Lemma handles_fail n i P s rc s' v1 gs :
  rc <> RS_OK -> locals n i P (view_of s) v1 gs -> down (view_of s') = down v1 -> speaks i gs s s' ->
  handles n i P s (rc, s').
Proof. intros Hrc Hl Hd Ho. exists gs, v1. cbn [fst snd]. by rewrite decide_False. Qed.

Lemma become_leader_handles io n i P s s1 gs :
  0 <= n < 2 ^ 32 -> member n s1 -> locals n i P (view_of s) (view_of s1) gs ->
  s_role s1 = SERVER_ROLE_CANDIDATE -> s_prevote_term s1 = s_term s1 \/ P (s_term s1, i) ->
  n / 2 + 1 <= s_vote_count s1 -> speaks i gs s s1 -> handles n i P s (server_become_leader io s1).
Proof.
  intros Hn Hm Hl Hr Hp Hc Ho. destruct (become_leader_spec io n s1 Hn Hm) as (H1 & H2 & H3 & _).
  destruct (server_become_leader io s1) as [rc s2]. cbn [snd] in *.
  assert (Hls : locals n i P (view_of s) (view_of s2) gs)
    by (eapply locals_then; [exact Hl|]; rewrite H2; by apply l_lead).
  assert (Hs : speaks i gs s s2) by (eapply speaks_more; [exact Ho|by apply speaks_same]).
  destruct (decide (rc = RS_OK)) as [->|Hrc]; [by eapply handles_ok|by eapply handles_fail].
Qed.

(** The request for votes that follows the own vote. *)
Lemma ask_speaks ns i s s1 s2 t :
  speaks i [] s s1 -> s_out s2 = s_out s1 ++ map (fun j => (j, reqvote_req (s_term s1) (last_term (s_log s1)) (last_index (s_log s1)))) ns ->
  s_term s1 = t -> speaks i [(t, i)] s s2.
Proof.
  intros [G R] Ho <-. split; rewrite Ho.
  - rewrite grants_app, grants_broadcast, app_nil_r, G by done. unfold given. cbn. by rewrite decide_False by (intros H; by apply H).
  - intros t. rewrite requests_app. intros [H|[= ->]%requests_broadcast]%elem_of_app; [|right; by left].
    destruct (R _ H) as [|[]%elem_of_nil]; by left.
Qed.

Lemma check_prevote_handles io n i P s s1 :
  0 <= n < 2 ^ 32 -> member n s1 -> s_role s1 = SERVER_ROLE_CANDIDATE -> locals n i P (view_of s) (view_of s1) [] ->
  speaks i [] s s1 -> handles n i P s (server_check_prevote_count io s1).
Proof.
  intros Hn Hm Hr Hl Ho. unfold server_check_prevote_count. case_if; [|by eapply handles_ok].
  set (s2 := set_vote_count s1 0). assert (Hin : s_in_cluster s2 = true) by apply Hm. rewrite Hin.
  set (s3 := set_vote_count s2 _). assert (H3 : member n s3) by (destruct Hm; by split).
  destruct (update_meta_spec io n s3 (s_prevote_term s3) (c_name (s_conf s2)) H3 (mb_name _ _ Hm))
    as (rc & s4 & -> & H4 & O4 & C4 & V4).
  set (pt := s_prevote_term s1) in *.
  assert (Hself : locals n i P (view_of s) (mk_view SERVER_ROLE_CANDIDATE pt true pt 1 pt true) [(pt, i)])
    by (eapply (locals_app _ _ _ _ _ _ [] _); [exact Hl|]; apply locals_one, (l_self n i P (view_of s1)); done).
  assert (Ho4 : speaks i [] s s4) by (eapply speaks_more; [exact Ho|by apply speaks_same]).
  case_bool_decide as Erc; cbn [negb].
  - assert (E4 : view_of s4 = mk_view SERVER_ROLE_CANDIDATE pt true pt 1 pt true)
      by (destruct V4 as [-> | [? _]]; [cbn; by rewrite Hr|done]).
    destruct (broadcast_spec io n (reqvote_req (s_term s4) (last_term (s_log s4)) (last_index (s_log s4)))
      (s_connected_nodes s4) s4 H4) as (H5 & E5 & O5 & C5). cbv zeta. set (s5 := broadcast io s4 _ _) in *.
    assert (Hls : locals n i P (view_of s) (view_of s5) [(pt, i)]) by (by rewrite E5, E4).
    assert (Hs5 : speaks i [(pt, i)] s s5) by (eapply ask_speaks; [exact Ho4|exact O5|exact (f_equal v_term E4)]).
    pose proof (eq_trans E5 E4) as E. case_if; [|by eapply handles_ok].
    apply (become_leader_handles io n i P s s5 [(pt, i)]); try done.
    + exact (f_equal v_is E).
    + left. transitivity pt; [exact (f_equal v_pterm E)|symmetry; exact (f_equal v_term E)].
    + unfold majority in *. rewrite (proj1 (mb_meta _ _ H5)) in *. zb. lia.
  - destruct V4 as [V4 | [_ V4]].
    + eapply handles_fail; [done|exact Hself|by rewrite V4|].
      split; [|intros t Ht; left; by destruct (sp_requests _ _ _ _ Ho4 t Ht) as [|[]%elem_of_nil]].
      rewrite (sp_grants _ _ _ _ Ho4). unfold given. cbn. by rewrite decide_False by (intros H; by apply H).
    + eapply handles_fail; [done|eapply locals_then; [exact Hl|by apply l_try]|by rewrite V4|exact Ho4].
Qed.

Lemma demote_spec n s leader t :
  0 <= n < 2 ^ 32 -> member n s ->
  let s' := server_become_follower s leader t in
  member n s' /\ s_out s' = s_out s /\
  view_of s' = mk_view SERVER_ROLE_FOLLOWER t (v_voted (view_of s)) 0 0 (v_dterm (view_of s)) (v_dvoted (view_of s)).
Proof.
  intros Hn Hm. unfold server_become_follower. set (s1 := if negb _ then _ else s). cbv zeta.
  assert (H1 : member n s1 /\ s_out s1 = s_out s /\ s_voted_for s1 = s_voted_for s /\ s_disk s1 = s_disk s).
  { unfold s1. destruct (negb _); [|done]. set (s0 := set_leader s leader).
    assert (H0 : member n s0) by (destruct Hm; by split).
    destruct (voters_set_leader n (s_meta s0)
      (match leader with Some j => Some (n_name (node_at s0 j)) | None => None end) Hn (mb_meta _ _ H0)) as [V1 T1].
    destruct (set_meta_member n s0 _ H0 V1 T1) as [A _]. done. }
  destruct H1 as ([M1 M2 M3 M4 M5] & O1 & E1 & D1).
  destruct (voters_with n (s_meta s1) t 0 M1) as (V1 & _ & T1 & _). split_and!; [split; try done; exact V1|exact O1|].
  unfold view_of, s_term. cbn. f_equal; [by rewrite E1|by rewrite D1|by rewrite D1].
Qed.

Lemma demote_handles n i P s s1 leader t :
  0 <= n < 2 ^ 32 -> member n s1 -> view_of s1 = view_of s -> s_out s1 = s_out s -> v_term (view_of s) <= t ->
  handles n i P s (RS_OK, server_become_follower s1 leader t).
Proof.
  intros Hn Hm Ev Eo Ht. destruct (demote_spec n s1 leader t Hn Hm) as (H1 & H2 & H3).
  eapply (handles_ok n i P s _ []); [done| |apply speaks_same; congruence].
  rewrite H3, Ev. apply locals_one, l_other. split; cbn; [lia|by left|]. left. split_and!; [done|done|by left].
Qed.

Lemma unchanged_handles n i P s s1 :
  member n s1 -> view_of s1 = view_of s -> speaks i [] s s1 -> handles n i P s (RS_OK, s1).
Proof. intros Hm Ev Eo. eapply (handles_ok n i P s s1 []); [done|rewrite Ev; constructor|done]. Qed.

Lemma speaks_id i s : speaks i [] s s.
Proof. by apply speaks_same. Qed.
#[local] Hint Resolve speaks_id : core.

Lemma timeout_handles io n i P s :
  0 <= n < 2 ^ 32 -> member n s -> 0 <= s_term s -> s_term s + 1 < 2 ^ 64 ->
  handles n i P s (server_on_election_timeout io s).
Proof.
  intros Hn Hm H0 Ht. unfold server_on_election_timeout. case_bool_decide as Hr.
  { cbv zeta. set (s1 := if _ >? c_heartbeat _ then _ else s).
    assert (H1 : member n s1 /\ view_of s1 = view_of s /\ s_out s1 = s_out s)
      by (unfold s1; case_if; [split_and!; [destruct Hm; by split|done|done]|done]).
    destruct H1 as (M1 & V1 & O1). case_if; [|by apply unchanged_handles; [| |apply speaks_same]].
    apply demote_handles; try done. pose proof (f_equal v_term V1) as X. cbn in X. rewrite X. cbn. lia. }
  case_if; [by apply unchanged_handles|]. case_if; [by apply unchanged_handles|].
  case_if; [by apply unchanged_handles|]. case_if; [by apply unchanged_handles|].
  assert (Hin : s_in_cluster s = true) by apply Hm. cbv zeta.
  set (s1 := set_prevote_count (set_role s SERVER_ROLE_CANDIDATE) 0).
  replace (s_in_cluster s1) with true by (symmetry; exact Hin). set (s2 := set_prevote_count s1 _).
  set (s3 := set_prevote_term s2 _). assert (H3 : member n s3) by (destruct Hm; by split).
  assert (Et : s_term s2 +₆₄ 1 = s_term s + 1) by (apply u64_small; unfold s_term in *; cbn; lia).
  assert (V3 : view_of s3 = mk_view SERVER_ROLE_CANDIDATE (v_term (view_of s)) (v_voted (view_of s))
    (v_term (view_of s) + 1) (v_count (view_of s)) (v_dterm (view_of s)) (v_dvoted (view_of s))).
  { unfold view_of, s3. cbn. f_equal. exact Et. }
  destruct (broadcast_spec io n (prevote_req (s_term s3 +₆₄ 1) (last_term (s_log s3)) (last_index (s_log s3)))
    (s_connected_nodes s3) s3 H3) as (H4 & V4 & O4 & _). set (s4 := broadcast io s3 _ _) in *.
  apply check_prevote_handles; try done.
  - pose proof (f_equal v_is V4) as X. exact X.
  - rewrite V4, V3. apply locals_one, l_candidate. exact Hr.
  - split; rewrite O4; [by rewrite grants_app, grants_broadcast by done|].
    intros t. rewrite requests_app. by intros [|?%requests_broadcast]%elem_of_app; [left|].
Qed.

Lemma out_put s j m : s_out (put_msg s j m) = s_out s ++ [(j, m)].
Proof. done. Qed.

Lemma plain_speaks i s s1 j m : s_out s1 = s_out s -> plain m = true -> speaks i [] s (put_msg s1 j m).
Proof.
  intros E Hp. destruct (plain_out i j m Hp) as [G R].
  split; rewrite out_put, E; [by rewrite grants_app, G|]. intros t. rewrite requests_app, R, app_nil_r. by left.
Qed.

Lemma reply_handles n i P s j m : member n s -> plain m = true -> handles n i P s (RS_OK, put_msg s j m).
Proof. intros Hm Hp. apply unchanged_handles; [destruct Hm; by split|done|by apply plain_speaks]. Qed.

Lemma prevote_req_handles n i P s j t ix : member n s -> handles n i P s (server_on_prevote_req s j t ix).
Proof. intros Hm. unfold server_on_prevote_req. case_if; by apply reply_handles. Qed.

Lemma prevote_resp_handles io n i P s t granted :
  0 <= n < 2 ^ 32 -> member n s -> handles n i P s (server_on_prevote_resp io s t granted).
Proof.
  intros Hn Hm. unfold server_on_prevote_resp. case_bool_decide as Hr; cbn [negb orb]; [|by apply unchanged_handles].
  case_if; [by apply unchanged_handles|]. destruct granted; cbn [negb]; [|by apply unchanged_handles].
  set (s1 := set_prevote_count s _). apply check_prevote_handles; try done; [destruct Hm; by split|constructor|by apply speaks_same].
Qed.

(** A request that would be granted. *)
Definition would_grant (s : server) (t ix : Z) : bool :=
  negb (vote_refused s t) && (t >=? s_term s) && (ix >=? last_index (s_log s)).

Lemma reqvote_req_handles io n i P s j t ix :
  member n s -> (would_grant s t ix = true -> s_role s = SERVER_ROLE_FOLLOWER) -> j <> i -> P (t, j) ->
  handles n i P s (server_on_reqvote_req io s j t ix).
Proof.
  intros Hm Hf Hj HP. unfold server_on_reqvote_req.
  assert (Href : handles n i P s (RS_OK, put_msg s j (reqvote_resp t (last_index (s_log s)) false))) by (by apply reply_handles).
  unfold would_grant in Hf. destruct (vote_refused s t) eqn:Er; [exact Href|]. cbn [negb andb] in Hf.
  destruct (_ && _) eqn:Eg; [|exact Href]. specialize (Hf eq_refl).
  apply andb_true_iff in Eg as [Eg _]. zb.
  destruct (update_meta_spec io n s t (n_name (node_at s j)) Hm (mb_names _ _ Hm j)) as (rc & s1 & -> & H1 & O1 & _ & V1).
  assert (Ht : v_term (view_of s) <= t) by (cbn; lia).
  assert (Hv : t = v_term (view_of s) -> v_voted (view_of s) = false).
  { intros ->. unfold vote_refused in Er. apply orb_false_iff in Er as [_ Er]. cbn [view_of v_term v_voted] in *.
    rewrite Z.eqb_refl in Er. exact Er. }
  cbv zeta in V1. cbn [view_of v_is] in V1. rewrite Hf in V1. case_bool_decide as Erc; cbn [negb].
  - destruct V1 as [V1|[? _]]; [|done]. eapply (handles_ok n i P s _ [(t, j)]).
    + destruct H1. by split.
    + pose proof (l_grant n i P (view_of s) t j Hj HP Hf Ht Hv) as Hl. rewrite <- V1 in Hl. exact (locals_one _ _ _ _ _ _ Hl).
    + split; rewrite out_put; cbn [set_vote_timestamp on_vote s_eff_]; rewrite O1.
      * rewrite grants_app. unfold given. cbn. by rewrite decide_True by done.
      * intros t'. rewrite requests_app. intros [|[]%elem_of_nil]%elem_of_app. by left.
  - destruct V1 as [V1|[_ V1]].
    + eapply handles_fail; [done|apply locals_one; by apply (l_persist n i P (view_of s) t)|by rewrite V1; cbn; rewrite Hf|by apply speaks_same].
    + eapply handles_fail; [done|constructor|by rewrite V1|by apply speaks_same].
Qed.

(** A response that is counted. *)
Definition counts (s : server) (t : Z) (granted : bool) : bool :=
  bool_decide (s_role s = SERVER_ROLE_CANDIDATE) && (s_term s =? t) && granted.

Lemma reqvote_resp_handles io n i P s t granted :
  0 <= n < 2 ^ 32 -> member n s -> (counts s t granted = true -> P (t, i)) ->
  handles n i P (if counts s t granted then set_vote_count s (s_vote_count s +₃₂ 1) else s)
    (server_on_reqvote_resp io s t granted).
Proof.
  intros Hn Hm. unfold server_on_reqvote_resp, counts. case_bool_decide as Hr; cbn [negb orb andb]; [|by intros _; apply unchanged_handles].
  destruct (Z.eqb_spec (s_term s) t) as [<-|]; cbn [negb orb andb]; [|by intros _; apply unchanged_handles].
  rewrite (if_false (_ >? _)) by zbool_solve. destruct granted; cbn [negb]; [|by intros _; apply unchanged_handles]. intros HP.
  set (s1 := set_vote_count s _). assert (H1 : member n s1) by (destruct Hm; by split).
  cbv zeta. case_if; [|by apply unchanged_handles].
  apply (become_leader_handles io n i P s1 s1 []); try done; [constructor|right; by apply HP|].
  unfold majority in Heqb. rewrite (proj1 (mb_meta _ _ H1)) in Heqb. zb. lia.
Qed.

(** ** The votes of a cluster *)

(** The votes for a candidate in a term. *)
Definition votes_for (t c : Z) (V : gset (Z * Z * Z)) : gset (Z * Z * Z) := filter (fun x => x.1.2 = t /\ x.2 = c) V.

(** What a server owes to the votes it gave ([V], voter, term and candidate, of the whole
    past) and to the answers that are on their way ([G]).  The counter means something in a
    term in which the server has voted for itself; [server_close] does not reset it. *)
Record honest (n : Z) (V : gset (Z * Z * Z)) (G : list (Z * Z * Z)) (i : Z) (v : view) : Prop := {
  ho_pos : 0 <= v_term v /\ 0 <= v_dterm v /\ 0 <= v_count v;
  ho_vote : forall t c, (i, t, c) ∈ V -> t <= v_term v /\ t <= v_dterm v /\ v_voted v = true /\ v_dvoted v = true;
  ho_count : forall t, t = v_term v \/ t = v_dterm v -> (i, t, i) ∈ V ->
    v_count v <= Z.of_nat (size (votes_for t i (V ∖ list_to_set G)));
  ho_cand : v_is v = SERVER_ROLE_CANDIDATE ->
    v_pterm v = v_term v + 1 \/ (v_pterm v = v_term v /\ (i, v_term v, i) ∈ V);
  ho_lead : v_is v = SERVER_ROLE_LEADER -> n / 2 + 1 <= Z.of_nat (size (votes_for (v_term v) i V))
}.

Record sound (n : Z) (vs : gmap Z view) (V : gset (Z * Z * Z)) (G : list (Z * Z * Z)) : Prop := {
  so_size : Z.of_nat (size vs) = n;
  so_dom : forall i t c, (i, t, c) ∈ V -> is_Some (vs !! i);
  so_once : forall i t c c', (i, t, c) ∈ V -> (i, t, c') ∈ V -> c = c';
  so_asked : forall i t c, (i, t, c) ∈ V -> (c, t, c) ∈ V;
  so_sent : NoDup G /\ (forall x, x ∈ G -> x ∈ V /\ x.1.1 <> x.2);
  so_honest : forall i v, vs !! i = Some v -> honest n V G i v
}.

Lemma votes_mono t c V V' : V ⊆ V' -> (size (votes_for t c V) <= size (votes_for t c V'))%nat.
Proof. intros H. apply subseteq_size. unfold votes_for. intros x. rewrite !elem_of_filter. intros [? ?]. split; [done|by apply H]. Qed.

Lemma votes_for_in t c V x : x ∈ votes_for t c V <-> x ∈ V /\ x.1.2 = t /\ x.2 = c.
Proof. unfold votes_for. rewrite elem_of_filter. tauto. Qed.

Lemma one_vote t c V x : x ∈ votes_for t c V -> 1 <= Z.of_nat (size (votes_for t c V)).
Proof.
  intros Hx. assert (size (votes_for t c V) <> 0)%nat; [|lia].
  intros H0. apply size_empty_inv in H0. by apply H0, not_elem_of_empty in Hx.
Qed.

(** Others' votes change nothing for a server that keeps its promises. *)
Lemma honest_mono n V V' G G' i v :
  honest n V G i v -> V ⊆ V' -> (forall x, x ∈ V' -> ~ (x ∈ V) -> x.1.1 <> i) ->
  (forall x, x ∈ G' -> ~ (x ∈ G) -> ~ (x ∈ V)) -> honest n V' G' i v.
Proof.
  intros [H1 H2 H3 H4 H5] HV Hnew HG.
  assert (Hin : forall t c, (i, t, c) ∈ V' -> (i, t, c) ∈ V).
  { intros t c Hx. destruct (decide ((i, t, c) ∈ V)) as [|Hn]; [done|]. by apply Hnew in Hn. }
  split; try done.
  - intros t c Hx. by apply (H2 t c), Hin.
  - intros t Ht Hx%Hin. etrans; [by apply (H3 t)|]. apply inj_le, votes_mono. intros x.
    rewrite !elem_of_difference, !elem_of_list_to_set. intros [Hv Hg]. split; [by apply HV|]. intros Hg'. by apply (HG x).
  - intros Hc. destruct (H4 Hc) as [|[A B]]; [by left|right]. split; [done|by apply HV].
  - intros Hl. etrans; [by apply H5|]. by apply inj_le, votes_mono.
Qed.

Lemma size_insert_same (vs : gmap Z view) i v v' : vs !! i = Some v -> size (<[i := v']> vs) = size vs.
Proof. intros H. apply map_size_insert_Some. by eexists. Qed.

(** A step of one server: its votes are new or none, the others keep theirs. *)
Lemma sound_step n vs V G i v v' V' G' :
  sound n vs V G -> vs !! i = Some v -> V ⊆ V' ->
  (forall x, x ∈ V' -> ~ (x ∈ V) -> x.1.1 = i) ->
  (forall t c c', (i, t, c) ∈ V' -> (i, t, c') ∈ V' -> c = c') ->
  (forall j t c, (j, t, c) ∈ V' -> (c, t, c) ∈ V') ->
  NoDup G' -> (forall x, x ∈ G' -> x ∈ V' /\ x.1.1 <> x.2) -> (forall x, x ∈ G' -> ~ (x ∈ G) -> ~ (x ∈ V)) ->
  honest n V' G' i v' -> sound n (<[i := v']> vs) V' G'.
Proof.
  intros [S1 S2 S3 S7 [S4 S5] S6] Hi HV Hnew Honce Hasked HG1 HG2 HG3 Hh. split.
  - by rewrite (size_insert_same _ _ v).
  - intros j t c Hx. rewrite lookup_insert_is_Some. destruct (decide (i = j)) as [|Hne]; [by left|right].
    split; [done|]. destruct (decide ((j, t, c) ∈ V)) as [Hv|Hn]; [by eapply S2|].
    by specialize (Hnew _ Hx Hn).
  - intros j t c c' Hx Hx'. destruct (decide (j = i)) as [->|Hne]; [by eapply Honce|].
    apply (S3 j t); destruct (decide ((j, t, c) ∈ V)) as [|Hn]; destruct (decide ((j, t, c') ∈ V)) as [|Hn']; try done;
      solve [by specialize (Hnew _ Hx Hn)|by specialize (Hnew _ Hx' Hn')].
  - done.
  - done.
  - intros j w. destruct (decide (i = j)) as [<-|Hne].
    + rewrite lookup_insert_eq. by intros [= <-].
    + rewrite lookup_insert_ne by done. intros Hj. eapply honest_mono; [by apply S6|done| |done].
      intros x Hx Hn. rewrite (Hnew x Hx Hn). done.
Qed.

(** No new votes. *)
Lemma sound_quiet n vs V G i v v' :
  sound n vs V G -> vs !! i = Some v -> honest n V G i v' -> sound n (<[i := v']> vs) V (G ++ []).
Proof.
  intros Hs Hi Hh. rewrite app_nil_r. eapply sound_step; try done; apply Hs.
Qed.

(** A vote in a term in which the server gave none. *)
Lemma sound_vote n vs V G i v v' t c gs :
  sound n vs V G -> vs !! i = Some v ->
  (forall t' c', (i, t', c') ∈ V -> t' < t) -> c = i \/ (c, t, c) ∈ V ->
  gs = [] \/ (gs = [(i, t, c)] /\ c <> i) ->
  honest n ({[(i, t, c)]} ∪ V) (G ++ gs) i v' ->
  sound n (<[i := v']> vs) ({[(i, t, c)]} ∪ V) (G ++ gs).
Proof.
  intros Hs Hi Hlt Hc Hgs Hh.
  assert (Hno : forall c', ~ ((i, t, c') ∈ V)) by (intros c' Hx; apply Hlt in Hx; lia).
  destruct (so_sent _ _ _ _ Hs) as [HG1 HG2].
  eapply sound_step; try done.
  - set_solver.
  - intros x Hx Hn. assert (x = (i, t, c)) as -> by set_solver. done.
  - intros t' c1 c2 H1 H2. destruct (decide (t' = t)) as [->|Hne].
    + assert ((i, t, c1) = (i, t, c)) as [= ->] by (specialize (Hno c1); set_solver).
      assert ((i, t, c2) = (i, t, c)) as [= ->] by (specialize (Hno c2); set_solver). done.
    + apply (so_once _ _ _ _ Hs i t'); set_solver.
  - intros j t' c'. rewrite !elem_of_union, !elem_of_singleton. intros [[= -> -> ->]|Hx].
    + destruct Hc as [->|Hc]; [by left|by right].
    + right. by eapply (so_asked _ _ _ _ Hs).
  - destruct Hgs as [-> | [-> Hne]]; [by rewrite app_nil_r|]. apply list.NoDup_app. split_and!; [done| |apply NoDup_singleton].
    intros x Hx Hx'. apply list_elem_of_singleton in Hx' as ->. by apply (Hno c), HG2.
  - intros x. rewrite elem_of_app. intros [Hx|Hx]; [apply HG2 in Hx; set_solver|].
    destruct Hgs as [-> | [-> Hne]]; [by apply elem_of_nil in Hx|]. apply list_elem_of_singleton in Hx as ->. set_solver.
  - intros x. rewrite elem_of_app. intros [Hx|Hx] Hn; [done|].
    destruct Hgs as [-> | [-> Hne]]; [by apply elem_of_nil in Hx|]. apply list_elem_of_singleton in Hx as ->. apply Hno.
Qed.

(** ** Every step keeps the votes sound *)

Lemma other_honest n V G i v v' : honest n V G i v -> other v v' -> honest n V G i v'.
Proof.
  intros [H1 H2 H3 H4 H5] [O1 O2 O3]. split.
  - destruct O3 as [(A & _ & [[_ ->]|(_ & -> & _)])|(_ & -> & _ & [->| ->])]; lia.
  - intros t c Hx. destruct (H2 t c Hx) as (A & B & C & D).
    assert (v_dvoted v' = true) by (destruct O2; congruence).
    destruct O3 as [(T & F & _)|(_ & T & F & _)]; (split_and!; [lia|lia|congruence|done]).
  - intros t Ht Hx. destruct (H2 t i Hx) as (A & B & _).
    assert (Hk : v_count v' = 0 \/ v_count v' = v_count v) by (destruct O3 as [(_ & _ & [[_ ?]|(_ & ? & _)])|(_ & _ & _ & ?)]; auto).
    destruct Hk as [->| ->]; [lia|]. apply H3; [|done]. destruct O3 as [(T & _)|(_ & T & _)]; destruct Ht; lia.
  - intros Hc. destruct O3 as [(T & _ & [[F _]|(F & _ & P & E)])|(F & _)]; [congruence| |congruence].
    rewrite F in Hc. destruct E as [E|E]; [congruence|]. rewrite P, E. by apply H4.
  - intros Hl. destruct O3 as [(T & _ & [[F _]|(F & _ & P & E)])|(F & _)]; [congruence| |congruence].
    rewrite F in Hl. destruct E as [E|E]; [congruence|]. rewrite E. by apply H5.
Qed.

Lemma persist_honest n V G i v t :
  honest n V G i v -> v_term v <= t -> (t = v_term v -> v_voted v = false) ->
  honest n V G i (mk_view (v_is v) (v_term v) (v_voted v) (v_pterm v) (v_count v) t true).
Proof.
  intros [H1 H2 H3 H4 H5] Ht Hv. split; cbn; try done; [lia| |].
  - intros t' c Hx. destruct (H2 t' c Hx) as (A & _ & C & _). split_and!; [lia|lia|done|done].
  - intros t' [->| ->] Hx; [apply H3; [by left|done]|]. destruct (H2 t i Hx) as (A & _ & C & _).
    rewrite Hv in C by lia. done.
Qed.

Lemma lead_honest n V G i v :
  honest n V G i v -> (i, v_term v, i) ∈ V -> n / 2 + 1 <= v_count v -> honest n V G i (with_is v SERVER_ROLE_LEADER).
Proof.
  intros [H1 H2 H3 H4 H5] Hi Hc. split; cbn; try done. intros _.
  etrans; [exact Hc|]. etrans; [by apply (H3 (v_term v)); [left|]|]. apply inj_le, votes_mono. set_solver.
Qed.

Lemma self_counted t i V G : (i, t, i) ∈ V -> ~ ((i, t, i) ∈ G) -> 1 <= Z.of_nat (size (votes_for t i (V ∖ list_to_set G))).
Proof.
  intros Hx Hg. apply (one_vote _ _ _ (i, t, i)), votes_for_in. split; [|done].
  by rewrite elem_of_difference, elem_of_list_to_set.
Qed.

Lemma try_honest n V G i v :
  (forall t, ~ ((i, t, i) ∈ G)) -> honest n V G i v -> v_is v = SERVER_ROLE_CANDIDATE ->
  honest n V G i (mk_view SERVER_ROLE_CANDIDATE (v_term v) (v_voted v) (v_pterm v) 1 (v_dterm v) (v_dvoted v)).
Proof.
  intros HG [H1 H2 H3 H4 H5] Hr. split; cbn; try done; [lia| |intros _; by apply H4].
  intros t _ Hx. by apply self_counted.
Qed.

(** The state right after voting for itself. *)
Lemma self_honest n V G i t :
  (forall t, ~ ((i, t, i) ∈ G)) -> (forall t' c', (i, t', c') ∈ V -> t' <= t) -> 0 <= t -> (i, t, i) ∈ V ->
  honest n V G i (mk_view SERVER_ROLE_CANDIDATE t true t 1 t true).
Proof.
  intros HG Hle Ht Hx. split; cbn; try done.
  - intros t' c Hv%Hle. done.
  - intros t' [->| ->] Hv; by apply self_counted.
  - intros _. by right.
Qed.

(** The state right after voting for another node. *)
Lemma grant_honest n V G i v t c :
  honest n V G i v -> v_term v <= t -> (forall t' c', (i, t', c') ∈ V -> t' < t) -> c <> i ->
  honest n ({[(i, t, c)]} ∪ V) (G ++ [(i, t, c)]) i
    (mk_view SERVER_ROLE_FOLLOWER t true (v_pterm v) (v_count v) t true).
Proof.
  intros [H1 H2 H3 H4 H5] Ht Hlt Hc. split; cbn; try done; [lia| |].
  - intros t' c'. rewrite elem_of_union, elem_of_singleton. intros [[= -> ->]|Hx]; [done|]. apply Hlt in Hx. split_and!; [lia|lia|done|done].
  - intros t' Ht'. assert (t' = t) as -> by (by destruct Ht').
    rewrite elem_of_union, elem_of_singleton. intros [[= H]|Hx]; [done|]. apply Hlt in Hx. lia.
Qed.

Lemma sent_self n vs V G i t : sound n vs V G -> ~ ((i, t, i) ∈ G).
Proof. intros Hs Hx. by destruct (proj2 (so_sent _ _ _ _ Hs) _ Hx). Qed.

Lemma local_sound n vs V G i P v v' gs :
  sound n vs V G -> vs !! i = Some v -> local n i P v v' gs -> (forall t c, P (t, c) -> (c, t, c) ∈ V) ->
  exists V', V ⊆ V' /\ (forall t, (t, i) ∈ gs -> (i, t, i) ∈ V') /\ sound n (<[i := v']> vs) V' (G ++ given i gs).
Proof.
  intros Hs Hi Hl HP. pose proof (so_honest _ _ _ _ Hs i v Hi) as Hh.
  assert (Hself : forall t, ~ ((i, t, i) ∈ G)) by (intros t; by eapply sent_self).
  assert (Hkeep : forall v', honest n V G i v' ->
    exists V', V ⊆ V' /\ (forall t, (t, i) ∈ ([] : list (Z * Z)) -> (i, t, i) ∈ V') /\ sound n (<[i := v']> vs) V' (G ++ given i [])).
  { intros w Hw. exists V. split_and!; [done|by intros t ?%elem_of_nil|by eapply sound_quiet]. }
  destruct Hl as [v v' Ho|v Hr|v Hr|v Hr|v Hr Hp Hc|v t c Hc HPc Hr Ht Hv|v t Ht Hv].
  - by eapply Hkeep, other_honest.
  - apply Hkeep. destruct Hh as [H1 H2 H3 H4 H5]. split; cbn; try done. by left.
  - apply Hkeep. by apply try_honest.
  - assert (E : given i [(v_pterm v, i)] = []) by (unfold given; cbn; by rewrite decide_False by (intros H; by apply H)).
    rewrite E. pose proof (ho_pos _ _ _ _ _ Hh). destruct (ho_cand _ _ _ _ _ Hh Hr) as [Hp|[Hp Hin]].
    + assert (Hlt : forall t' c', (i, t', c') ∈ V -> t' < v_pterm v)
        by (intros t' c' Hx; apply (ho_vote _ _ _ _ _ Hh) in Hx; lia).
      exists ({[(i, v_pterm v, i)]} ∪ V). split_and!; [set_solver|intros t [[= ->]|?%elem_of_nil]%elem_of_cons; set_solver|].
      eapply sound_vote; [done|done|done|by left|by left|]. rewrite app_nil_r.
      apply self_honest; [done| |lia|set_solver].
      intros t' c'. rewrite elem_of_union, elem_of_singleton. intros [[= -> ->]|Hx]; [done|]. apply Hlt in Hx. lia.
    + exists V. split_and!; [done|intros t [[= ->]|[]%elem_of_nil]%elem_of_cons; by rewrite Hp|].
      eapply sound_quiet; [done|done|]. rewrite Hp. apply self_honest; [done| |lia|done].
      intros t' c' Hx. by destruct (ho_vote _ _ _ _ _ Hh t' c' Hx).
  - apply Hkeep. apply lead_honest; [done| |done]. destruct Hp as [Hp|Hp]; [|by apply HP in Hp].
    destruct (ho_cand _ _ _ _ _ Hh Hr) as [?|[_ ?]]; [lia|done].
  - assert (E : given i [(t, c)] = [(i, t, c)]) by (unfold given; cbn; by rewrite decide_True by done). rewrite E.
    assert (Hlt : forall t' c', (i, t', c') ∈ V -> t' < t).
    { intros t' c' Hx. destruct (ho_vote _ _ _ _ _ Hh t' c' Hx) as (A & _ & B & _).
      destruct (decide (v_term v = t)) as [<-|]; [by rewrite Hv in B|lia]. }
    exists ({[(i, t, c)]} ∪ V). split_and!; [set_solver|intros t' [[= -> ?]|?%elem_of_nil]%elem_of_cons; [congruence|set_solver]|].
    eapply sound_vote; [done|done|done|right; by apply HP|by right|]. by apply grant_honest.
  - by apply Hkeep, persist_honest.
Qed.

Lemma locals_sound n i P v v' gs :
  locals n i P v v' gs -> forall vs V G, sound n vs V G -> vs !! i = Some v -> (forall t c, P (t, c) -> (c, t, c) ∈ V) ->
  exists V', V ⊆ V' /\ (forall t, (t, i) ∈ gs -> (i, t, i) ∈ V') /\ sound n (<[i := v']> vs) V' (G ++ given i gs).
Proof.
  induction 1 as [v|v v1 v2 g gs Hl Hls IH]; intros vs V G Hs Hi HP.
  - exists V. rewrite insert_id by done. rewrite app_nil_r. split_and!; [done|by intros t ?%elem_of_nil|done].
  - destruct (local_sound n vs V G i P v v1 g Hs Hi Hl HP) as (V1 & S1 & A1 & H1).
    destruct (IH _ _ _ H1 (lookup_insert_eq _ _ _)) as (V2 & S2 & A2 & H2); [by intros t c Hc%HP; apply S1|].
    exists V2. rewrite insert_insert_eq in H2. rewrite given_app, app_assoc. split_and!; [by etrans| |done].
    intros t [Hx%A1|Hx%A2]%elem_of_app; [by apply S2|done].
Qed.

(** A lost answer. *)
Lemma sound_lose n vs V G1 x G2 : sound n vs V (G1 ++ x :: G2) -> sound n vs V (G1 ++ G2).
Proof.
  intros [S1 S2 S3 S7 [S4 S5] S6].
  assert (Hsub : forall y, y ∈ G1 ++ G2 -> y ∈ G1 ++ x :: G2) by (intros y; rewrite !elem_of_app, elem_of_cons; tauto).
  split; try done.
  - split; [|by auto]. apply list.NoDup_app in S4 as (A & B & C). apply list.NoDup_app. split_and!; [done| |by apply list.NoDup_cons in C as [_ C]].
    intros y Hy Hy'. apply (B y Hy). by right.
  - intros i v Hi. eapply honest_mono; [by apply S6|done|done|]. intros y Hy Hn. by apply Hsub in Hy.
Qed.

(** One answer fewer on its way is one vote more. *)
Lemma votes_count t i V G1 x G2 :
  NoDup (G1 ++ x :: G2) -> x ∈ V -> x.1.2 = t -> x.2 = i ->
  size (votes_for t i (V ∖ list_to_set (G1 ++ G2))) = S (size (votes_for t i (V ∖ list_to_set (G1 ++ x :: G2)))).
Proof.
  intros Hnd Hv Ht Hi.
  assert (Hx : ~ (x ∈ G1 ++ G2)).
  { apply list.NoDup_app in Hnd as (_ & B & C). rewrite elem_of_app. intros [Hx|Hx].
    - apply (B _ Hx). by left.
    - by apply list.NoDup_cons in C as [C _]. }
  replace (S _) with (size ({[x]} ∪ votes_for t i (V ∖ list_to_set (G1 ++ x :: G2)))).
  - f_equal. apply leibniz_equiv. intros y. rewrite elem_of_union, elem_of_singleton, !votes_for_in.
    rewrite !elem_of_difference, !elem_of_list_to_set, !elem_of_app, elem_of_cons.
    rewrite elem_of_app in Hx. destruct (decide (y = x)) as [->|]; [|tauto].
    split; [by left|]. intros _. done.
  - rewrite size_union, size_singleton; [done|]. intros y Hy. apply elem_of_singleton in Hy as ->.
    rewrite votes_for_in, elem_of_difference, elem_of_list_to_set. intros [[_ Hn] _]. apply Hn.
    rewrite elem_of_app. right. by left.
Qed.

(** A counted answer. *)
Lemma sound_count n vs V G1 G2 j i v :
  sound n vs V (G1 ++ (j, v_term v, i) :: G2) -> vs !! i = Some v -> v_is v = SERVER_ROLE_CANDIDATE ->
  sound n (<[i := mk_view (v_is v) (v_term v) (v_voted v) (v_pterm v) (v_count v +₃₂ 1) (v_dterm v) (v_dvoted v)]> vs)
    V (G1 ++ G2).
Proof.
  intros Hs Hi Hr. pose proof (sound_lose _ _ _ _ _ _ Hs) as Hs'. rewrite <- (app_nil_r (G1 ++ G2)).
  set (x := (j, v_term v, i)) in *.
  eapply sound_quiet; [done|done|]. destruct (so_sent _ _ _ _ Hs) as [Hnd HGV].
  assert (Hxv : x ∈ V) by (apply HGV; rewrite elem_of_app; right; by left).
  assert (Hk : 0 <= v_count v +₃₂ 1 <= v_count v + 1)
    by (pose proof (ho_pos _ _ _ _ _ (so_honest _ _ _ _ Hs i v Hi)); apply u32_le; lia).
  pose proof (ho_count _ _ _ _ _ (so_honest _ _ _ _ Hs i v Hi) (v_term v) (or_introl eq_refl)) as Hc.
  destruct (so_honest _ _ _ _ Hs' i v Hi) as [H1 H2 _ H4 H5]. split; cbn; try done; [lia|].
  intros t Ht Hx. assert (t = v_term v) as ->.
  { destruct Ht as [|Ht]; [done|]. destruct (H2 _ _ Hx) as [A _].
    destruct (H2 _ _ (so_asked _ _ _ _ Hs _ _ _ Hxv)) as (_ & B & _). lia. }
  rewrite (votes_count _ _ _ _ x) by done. specialize (Hc Hx). lia.
Qed.

(** Two majorities of the servers share a voter. *)
Lemma majorities_meet n vs V G t i j :
  sound n vs V G -> n / 2 + 1 <= Z.of_nat (size (votes_for t i V)) -> n / 2 + 1 <= Z.of_nat (size (votes_for t j V)) ->
  i = j.
Proof.
  intros Hs Hi Hj. destruct (decide (i = j)) as [|Hne]; [done|exfalso].
  set (U := votes_for t i V ∪ votes_for t j V).
  assert (HU : forall x, x ∈ U -> x ∈ V /\ x.1.2 = t)
    by (intros x; unfold U; rewrite elem_of_union, !votes_for_in; tauto).
  assert (Hsize : size U = (size (votes_for t i V) + size (votes_for t j V))%nat).
  { apply size_union. intros x. rewrite !votes_for_in. intros (_ & _ & <-) (_ & _ & E). done. }
  assert (Hle : (length (map (fun x : Z * Z * Z => x.1.1) (elements U)) <= length (elements (dom vs)))%nat).
  { apply submseteq_length, NoDup_submseteq.
    - apply NoDup_fmap_2_strong; [|apply NoDup_elements]. intros [[v1 t1] c1] [[v2 t2] c2].
      rewrite !elem_of_elements. intros [Hx E1]%HU [Hy E2]%HU. cbn in *. intros ->. subst.
      by rewrite (so_once _ _ _ _ Hs _ _ _ _ Hx Hy).
    - intros v. rewrite list_elem_of_fmap. intros ([[v1 t1] c1] & -> & Hx). apply elem_of_elements in Hx. apply elem_of_elements.
      apply HU in Hx as [Hx _]. apply elem_of_dom. by eapply (so_dom _ _ _ _ Hs). }
  rewrite length_map in Hle. change (length (elements U)) with (size U) in Hle.
  change (length (elements (dom vs))) with (size (dom vs)) in Hle. rewrite size_dom in Hle.
  pose proof (so_size _ _ _ _ Hs). pose proof (Z.div_mod n 2). pose proof (Z.mod_pos_bound n 2). lia.
Qed.
