(* ===== verification/Sql.v ===== *)
(** * SQLite and its callbacks (src/state.c, src/aux.c)

    SQLite is a library the repository only ships and calls (lib/sqlite).  It is a record of operations on a database
    type, one for each function of its API that the state machine calls.  A call may call
    back into the state machine, for random bytes, the time, the page limit, permissions
    and the SQL function [resql]; the callbacks of state.c are defined here, and a call is
    a tree of the callbacks it makes.  The functions of aux.c, which bind and step the
    statements for the tables of the server, are written over the record. *)

From Stdlib Require Import ZArith Lia.
From Stdlib Require Import Strings.Byte.
From stdpp Require Import base list numbers gmap strings.
From S2P Require Import Prelude Str Sc Buf Meta.

(** The bytes of a literal. *)
Definition text (s : string) : list byte := String.list_byte_of_string s.

(** ** Codes and values *)

Definition SQLITE_OK : Z := 0.
Definition SQLITE_ERROR : Z := 1.
Definition SQLITE_FULL : Z := 13.
Definition SQLITE_TOOBIG : Z := 18.
Definition SQLITE_CONSTRAINT : Z := 19.
Definition SQLITE_MISMATCH : Z := 20.
Definition SQLITE_MISUSE : Z := 21.
Definition SQLITE_AUTH : Z := 23.
Definition SQLITE_RANGE : Z := 25.
Definition SQLITE_ROW : Z := 100.
Definition SQLITE_DONE : Z := 101.

(** A value of a column.  A float is the bit pattern of the double. *)
Inductive value :=
| VInteger (v : Z)
| VFloat (bits : Z)
| VText (s : list byte)
| VBlob (b : list byte)
| VNull.

(** A parameter for [sqlite3_bind_*]: text and blob are a pointer and a size. *)
Inductive param :=
| PInteger (v : Z)
| PFloat (bits : Z)
| PText (s : option (list byte)) (size : Z)
| PBlob (b : option (list byte)) (size : Z)
| PNull.

Definition aux_rc (rc : Z) : rs_rc :=
  if (rc =? SQLITE_OK) || (rc =? SQLITE_ROW) || (rc =? SQLITE_DONE) then RS_OK
  else if (rc =? SQLITE_ERROR) || (rc =? SQLITE_TOOBIG) || (rc =? SQLITE_CONSTRAINT)
       || (rc =? SQLITE_MISMATCH) || (rc =? SQLITE_AUTH) || (rc =? SQLITE_RANGE) then RS_ERROR
  else if rc =? SQLITE_FULL then RS_FULL
  else RS_FATAL.

(** ** What the callbacks use *)

(** [struct server_job] *)
Inductive server_job :=
| SERVER_JOB_ADD_NODE (data : option (list byte))
| SERVER_JOB_REMOVE_NODE (data : option (list byte))
| SERVER_JOB_SHUTDOWN (data : option (list byte)).

(** The fields of [struct state] that callbacks read or write.  [h_cb] tells whether the
    functions of the server are set, [h_leading] whether the server leads in the term of
    the state, and [h_jobs] is its queue. *)
Record hooks := mk_hooks {
  h_client : bool;
  h_readonly : bool;
  h_full : bool;
  h_max_page : Z;
  h_session_timeout : Z;
  h_realtime : Z;
  h_wrand : sc_rand;
  h_rrand : sc_rand;
  h_cb : bool;
  h_leading : bool;
  h_jobs : list server_job
}.

Definition with_flags (h : hooks) (client readonly full : bool) : hooks :=
  mk_hooks client readonly full (h_max_page h) (h_session_timeout h) (h_realtime h) (h_wrand h) (h_rrand h)
    (h_cb h) (h_leading h) (h_jobs h).
Definition with_client (h : hooks) (client : bool) : hooks := with_flags h client (h_readonly h) (h_full h).
Definition with_full (h : hooks) (full : bool) : hooks := with_flags h (h_client h) (h_readonly h) full.
Definition with_limits (h : hooks) (max_page session_timeout : Z) : hooks :=
  mk_hooks (h_client h) (h_readonly h) (h_full h) max_page session_timeout (h_realtime h) (h_wrand h) (h_rrand h)
    (h_cb h) (h_leading h) (h_jobs h).
Definition with_realtime (h : hooks) (realtime : Z) : hooks :=
  mk_hooks (h_client h) (h_readonly h) (h_full h) (h_max_page h) (h_session_timeout h) realtime (h_wrand h)
    (h_rrand h) (h_cb h) (h_leading h) (h_jobs h).
Definition with_rand (h : hooks) (wrand rrand : sc_rand) : hooks :=
  mk_hooks (h_client h) (h_readonly h) (h_full h) (h_max_page h) (h_session_timeout h) (h_realtime h) wrand rrand
    (h_cb h) (h_leading h) (h_jobs h).
Definition with_jobs (h : hooks) (jobs : list server_job) : hooks :=
  mk_hooks (h_client h) (h_readonly h) (h_full h) (h_max_page h) (h_session_timeout h) (h_realtime h) (h_wrand h)
    (h_rrand h) (h_cb h) (h_leading h) jobs.

(** ** The callbacks *)

(** [server_add_node], [server_remove_node], [server_shutdown] *)
Definition add_job (h : hooks) (job : server_job) : hooks :=
  if h_leading h then with_jobs h (h_jobs h ++ [job]) else h.

Definition job_data (value : option (list byte)) : option (list byte) := str_create value.

Definition server_add_node (h : hooks) (node : option (list byte)) : list byte * hooks :=
  (text "Config change is in progress. Check resql_log table for details",
   add_job h (SERVER_JOB_ADD_NODE (job_data node))).
Definition server_remove_node (h : hooks) (node : option (list byte)) : list byte * hooks :=
  (text "Config change is in progress. Check resql_log table for details",
   add_job h (SERVER_JOB_REMOVE_NODE (job_data node))).
Definition server_shutdown (h : hooks) (node : option (list byte)) : list byte * hooks :=
  (text "Shutdown in progress.", add_job h (SERVER_JOB_SHUTDOWN (job_data node))).

(** What the SQL function sets as its result; [CNone] leaves it unset, [CUndefined] is a
    [strcmp] of a null pointer. *)
Inductive config_result :=
| CError (msg : list byte)
| CText (msg : list byte)
| CInt (v : Z)
| CNone
| CUndefined.

Definition usage_default : list byte := text "usage : SELECT resql('config-name', 'param');".
Definition usage_add_node : list byte :=
  text "usage : SELECT resql('add-node', 'tcp://name@127.0.0.1:8085');".
Definition usage_remove_node : list byte := text "usage : SELECT resql('remove-node', 'node0');".
Definition usage_max_size : list byte := text "usage : SELECT resql('max-size', 5000000);".
Definition usage_session_timeout : list byte := text "usage : SELECT resql('session-timeout', 60000);".

(** A call of one of the three functions of the server. *)
Definition config_node (h : hooks) (argc : Z) (usage : list byte) (arg : option (list byte))
    (f : hooks -> option (list byte) -> list byte * hooks) : config_result * hooks :=
  if negb (argc =? 2) then (CError usage, h)
  else if h_cb h then let '(ret, h) := f h arg in (CText ret, h)
  else (CNone, h).

(** [value_text] and [value_int64] are SQLite's conversions.  A signed division
    truncates. *)
Definition state_config (value_text : value -> option (list byte)) (value_int64 : value -> Z)
    (h : hooks) (argv : list value) : config_result * hooks :=
  let argc := zlen argv in
  if argc <=? 0 then (CError usage_default, h)
  else
    let arg1 := nth 1 argv VNull in
    match value_text (nth 0 argv VNull) with
    | None => (CUndefined, h)
    | Some cmd =>
        if bool_decide (cmd = text "add-node") then
          config_node h argc usage_add_node (value_text arg1) server_add_node
        else if bool_decide (cmd = text "remove-node") then
          config_node h argc usage_remove_node (value_text arg1) server_remove_node
        else if bool_decide (cmd = text "shutdown") then
          config_node h argc usage_remove_node (value_text arg1) server_shutdown
        else if bool_decide (cmd = text "max-size") then
          if argc >? 2 then (CError usage_max_size, h)
          else
            let val := value_int64 arg1 in
            if (argc =? 2) && (val <? 0) then (CError (text "Max size cannot be negative"), h)
            else
              let h := if argc =? 2 then with_limits h (Z.quot val 4096) (h_session_timeout h) else h in
              (CInt (h_max_page h * 4096), h)
        else if bool_decide (cmd = text "session-timeout") then
          if argc >? 2 then (CError usage_session_timeout, h)
          else
            let val := value_int64 arg1 in
            if (argc =? 2) && (val <? 30000) then (CError (text "Timeout must be greater than 30 seconds"), h)
            else
              let h := if argc =? 2 then with_limits h (h_max_page h) val else h in
              (CInt (h_session_timeout h), h)
        else (CError (text "Unknown command"), h)
    end.

Definition state_randomness (h : hooks) (size : Z) : list byte * hooks :=
  if h_readonly h
  then let '(out, r) := sc_rand_read (h_rrand h) size in (out, with_rand h (h_wrand h) r)
  else let '(out, r) := sc_rand_read (h_wrand h) size in (out, with_rand h r (h_rrand h)).

Definition UNIX_EPOCH : Z := 24405875 * 8640000.

Definition state_currenttime (h : hooks) : Z := u64 (UNIX_EPOCH + h_realtime h).

Definition state_max_page (h : hooks) (curr : Z) : Z * hooks :=
  if h_client h && (curr >? h_max_page h) then (-1, with_full h true) else (0, h).

(** [strncmp(prefix, s, strlen(prefix)) == 0] *)
Definition starts_with (prefix : list byte) (s : option (list byte)) : bool :=
  match s with None => false | Some s => bool_decide (take (length prefix) s = prefix) end.

(** The actions the switch names. *)
Inductive auth_action :=
| SQLITE_READ | SQLITE_ALTER_TABLE
| SQLITE_CREATE_TABLE | SQLITE_DELETE | SQLITE_DROP_TABLE | SQLITE_INSERT | SQLITE_UPDATE | SQLITE_DROP_VTABLE
| SQLITE_OTHER_ACTION.

Definition SQLITE_DENY : Z := 1.
Definition SQLITE_IGNORE : Z := 2.

(** Reading falls through to the case of [ALTER TABLE], which looks at the second
    argument. *)
Definition state_authorizer (h : hooks) (action : auth_action) (arg0 arg1 : option (list byte)) : Z :=
  if negb (h_client h) then SQLITE_OK
  else
    let protected arg := if starts_with (text "resql") arg then SQLITE_DENY else SQLITE_OK in
    match action with
    | SQLITE_READ =>
        if starts_with (text "resql_clients") arg0 && starts_with (text "resp") arg1 then SQLITE_IGNORE
        else protected arg1
    | SQLITE_ALTER_TABLE => protected arg1
    | SQLITE_OTHER_ACTION => SQLITE_OK
    | _ => protected arg0
    end.

(** ** Calls *)

(** A call of SQLite: its result, after the callbacks it makes. *)
Inductive prog (A : Type) : Type :=
| Done (a : A)
| Randomness (size : Z) (k : list byte -> prog A)
| CurrentTime (k : Z -> prog A)
| MaxPage (curr : Z) (k : Z -> prog A)
| Authorize (action : auth_action) (arg0 arg1 : option (list byte)) (k : Z -> prog A)
| Config (argv : list value) (k : config_result -> prog A).
Arguments Done {A} a.
Arguments Randomness {A} size k.
Arguments CurrentTime {A} k.
Arguments MaxPage {A} curr k.
Arguments Authorize {A} action arg0 arg1 k.
Arguments Config {A} argv k.

(** The functions of the API.  A statement is a handle.  [sq_left] is the number of rows a
    statement can still return. *)
Record sqlite := mk_sqlite {
  db : Type;
  sq_prepare : db -> option (list byte) -> Z -> prog ((Z * Z) * db);   (* code, statement *)
  sq_finalize : db -> Z -> db;
  sq_clear_bindings : db -> Z -> db;
  sq_reset : db -> Z -> db;
  sq_stmt_readonly : db -> Z -> bool;
  sq_sql : db -> Z -> list byte;
  sq_bind_parameter_index : db -> Z -> option (list byte) -> Z;
  sq_bind : db -> Z -> Z -> param -> Z * db;
  sq_step : db -> Z -> prog (Z * db);
  sq_left : db -> Z -> nat;
  sq_changes : db -> Z;
  sq_last_insert_rowid : db -> Z;
  sq_columns : db -> Z -> list (option (list byte));
  sq_row : db -> Z -> list value;
  sq_errmsg : db -> option (list byte);
  sq_value_text : value -> option (list byte);
  sq_value_int64 : value -> Z
}.

(** The statements that [aux_prepare] prepares. *)
Record aux_stmts := mk_aux {
  aux_begin : Z;
  aux_commit : Z;
  aux_rollback : Z;
  aux_add_node_stmt : Z;
  aux_add_session_stmt : Z;
  aux_rm_session_stmt : Z;
  aux_add_stmt_stmt : Z;
  aux_rm_stmt_stmt : Z;
  aux_rm_all_stmts_stmt : Z;
  aux_add_log_stmt : Z;
  aux_rotate_log_stmt : Z
}.

Section sql.
Variable Q : sqlite.
Variable aux : aux_stmts.

(** The connection: the database and what callbacks use. *)
Record conn := mk_conn { k_db : db Q; k_hooks : hooks }.

Fixpoint call {A} (p : prog A) (h : hooks) : A * hooks :=
  match p with
  | Done a => (a, h)
  | Randomness size k => let '(out, h) := state_randomness h size in call (k out) h
  | CurrentTime k => call (k (state_currenttime h)) h
  | MaxPage curr k => let '(rc, h) := state_max_page h curr in call (k rc) h
  | Authorize action arg0 arg1 k => call (k (state_authorizer h action arg0 arg1)) h
  | Config argv k => let '(r, h) := state_config (sq_value_text Q) (sq_value_int64 Q) h argv in call (k r) h
  end.

Definition sqlM (A : Type) : Type := conn -> A * conn.

#[export] Instance sqlM_ret : MRet sqlM := fun A x c => (x, c).
#[export] Instance sqlM_bind : MBind sqlM := fun A B f m c => let '(x, c) := m c in f x c.

Definition on_db (f : db Q -> db Q) : sqlM () := fun c => ((), mk_conn (f (k_db c)) (k_hooks c)).
Definition on_hooks (f : hooks -> hooks) : sqlM () := fun c => ((), mk_conn (k_db c) (f (k_hooks c))).
Definition see {A} (f : db Q -> A) : sqlM A := fun c => (f (k_db c), c).

Definition sqlite3_prepare_v3 (sql : option (list byte)) (len : Z) : sqlM (Z * Z) := fun c =>
  let '((r, d), h) := call (sq_prepare Q (k_db c) sql len) (k_hooks c) in (r, mk_conn d h).
Definition sqlite3_finalize (stmt : Z) : sqlM () := on_db (fun d => sq_finalize Q d stmt).
Definition sqlite3_step (stmt : Z) : sqlM Z := fun c =>
  let '((rc, d), h) := call (sq_step Q (k_db c) stmt) (k_hooks c) in (rc, mk_conn d h).
Definition sqlite3_bind (stmt idx : Z) (p : param) : sqlM Z := fun c =>
  let '(rc, d) := sq_bind Q (k_db c) stmt idx p in (rc, mk_conn d (k_hooks c)).
Definition sqlite3_reset (stmt : Z) : sqlM () := on_db (fun d => sq_reset Q d stmt).

(** ** Statements for the tables of the server (src/aux.c) *)

Definition aux_clear (stmt : Z) : sqlM () :=
  on_db (fun d => sq_clear_bindings Q d stmt);;
  on_db (fun d => sq_reset Q d stmt).

(** Binds in a row, [rc |= sqlite3_bind_...]. *)
Fixpoint bind_all (stmt idx rc : Z) (ps : list param) : sqlM Z :=
  match ps with
  | [] => mret rc
  | p :: ps => r ← sqlite3_bind stmt idx p; bind_all stmt (idx + 1) (Z.lor rc r) ps
  end.

(** A statement that is prepared, stepped once and finalized. *)
Definition aux_once (sql : list byte) (ps : list param) : sqlM rs_rc :=
  '(rc, stmt) ← sqlite3_prepare_v3 (Some sql) (zlen sql + 1);
  if negb (rc =? SQLITE_OK) then mret (aux_rc rc)
  else
    rc ← (fix binds (idx : Z) (ps : list param) : sqlM Z :=
            match ps with
            | [] => mret SQLITE_OK
            | p :: ps =>
                rc ← sqlite3_bind stmt idx p;
                if negb (rc =? SQLITE_OK) then mret rc else binds (idx + 1) ps
            end) 1 ps;
    if negb (rc =? SQLITE_OK) then sqlite3_finalize stmt;; mret (aux_rc rc)
    else
      rc ← sqlite3_step stmt;
      sqlite3_finalize stmt;;
      mret (aux_rc rc).

Definition aux_clear_nodes : sqlM rs_rc := aux_once (text "DELETE FROM resql_nodes") [].
Definition aux_clear_sessions : sqlM rs_rc := aux_once (text "DELETE FROM resql_clients") [].

(** [buf]: the unread bytes of the buffer. *)
Definition aux_write_kv (key buf : list byte) : sqlM rs_rc :=
  aux_once (text "INSERT OR REPLACE INTO resql_kv VALUES(?,?);") [PText (Some key) (-1); PBlob (Some buf) (zlen buf)].

Definition aux_add_log (id : Z) (level log : option (list byte)) : sqlM rs_rc :=
  let add := aux_add_log_stmt aux in
  let rotate := aux_rotate_log_stmt aux in
  rc ← bind_all add 1 0 [PInteger id; PText level (-1); PText log (-1)];
  rc ← (if negb (rc =? SQLITE_OK) then mret rc
        else
          rc ← sqlite3_step add;
          if negb (rc =? SQLITE_DONE) then mret rc else sqlite3_step rotate);
  aux_clear add;;
  aux_clear rotate;;
  mret (aux_rc rc).

Definition aux_add_stmt (client : option (list byte)) (cid id : Z) (sql : option (list byte)) : sqlM rs_rc :=
  let stmt := aux_add_stmt_stmt aux in
  rc ← bind_all stmt 1 0 [PInteger id; PInteger cid; PText client (-1); PText sql (-1)];
  rc ← (if negb (rc =? SQLITE_OK) then mret rc else sqlite3_step stmt);
  aux_clear stmt;;
  mret (aux_rc rc).

Definition aux_rm_stmt (id : Z) : sqlM rs_rc :=
  let stmt := aux_rm_stmt_stmt aux in
  rc ← sqlite3_bind stmt 1 (PInteger id);
  rc ← (if negb (rc =? SQLITE_OK) then mret rc else sqlite3_step stmt);
  aux_clear stmt;;
  mret (aux_rc rc).
End sql.
Arguments mk_conn {Q}.
Arguments k_db {Q}.
Arguments k_hooks {Q}.

(** ** A small database

    It records the texts of the statements it ran; used by the examples. *)
Record demo_db := mk_demo {
  dd_next : Z;
  dd_texts : gmap Z (list byte);
  dd_done : list (list byte);
  dd_save : option (list (list byte))
}.

Definition demo_aux : aux_stmts := mk_aux 1 2 3 4 5 6 7 8 9 10 11.

(** An empty text has no statement: the handle is null, and stepping it is a misuse. *)
Definition demo_prepare (d : demo_db) (sql : option (list byte)) (len : Z) : prog ((Z * Z) * demo_db) :=
  match sql with
  | None => Done ((SQLITE_MISUSE, 0), d)
  | Some [] => Done ((SQLITE_OK, 0), d)
  | Some s =>
      Done ((SQLITE_OK, dd_next d), mk_demo (dd_next d + 1) (<[dd_next d := s]> (dd_texts d)) (dd_done d) (dd_save d))
  end.

Definition demo_step (d : demo_db) (stmt : Z) : prog (Z * demo_db) :=
  if stmt =? 0 then Done (SQLITE_MISUSE, d)
  else if stmt =? 1 then Done (SQLITE_DONE, mk_demo (dd_next d) (dd_texts d) (dd_done d) (Some (dd_done d)))
  else if stmt =? 2 then
    match dd_save d with
    | None => Done (SQLITE_ERROR, d)
    | Some _ => Done (SQLITE_DONE, mk_demo (dd_next d) (dd_texts d) (dd_done d) None)
    end
  else if stmt =? 3 then
    match dd_save d with
    | None => Done (SQLITE_ERROR, d)
    | Some old => Done (SQLITE_DONE, mk_demo (dd_next d) (dd_texts d) old None)
    end
  else
    match dd_texts d !! stmt with
    | None => Done (SQLITE_DONE, d)
    | Some s => Done (SQLITE_DONE, mk_demo (dd_next d) (dd_texts d) (dd_done d ++ [s]) (dd_save d))
    end.

Definition demo_sqlite : sqlite := {|
  db := demo_db;
  sq_prepare := demo_prepare;
  sq_finalize := fun d stmt => mk_demo (dd_next d) (delete stmt (dd_texts d)) (dd_done d) (dd_save d);
  sq_clear_bindings := fun d _ => d;
  sq_reset := fun d _ => d;
  sq_stmt_readonly := fun d stmt => false;
  sq_sql := fun d stmt => default [] (dd_texts d !! stmt);
  sq_bind_parameter_index := fun d stmt name => match name with None => 0 | Some _ => 1 end;
  sq_bind := fun d stmt idx p => (SQLITE_OK, d);
  sq_step := demo_step;
  sq_left := fun d stmt => O;
  sq_changes := fun d => zlen (dd_done d);
  sq_last_insert_rowid := fun d => 0;
  sq_columns := fun d stmt => [];
  sq_row := fun d stmt => [];
  sq_errmsg := fun d => Some (text "error");
  sq_value_text := fun v => match v with VText s => Some s | _ => None end;
  sq_value_int64 := fun v => match v with VInteger z => z | _ => 0 end
|}.

Definition demo_hooks : hooks :=
  mk_hooks false false false 4294967295 60000 0 (mk_rand 0 0 []) (mk_rand 0 0 []) true false [].
Definition demo_conn : conn demo_sqlite := @mk_conn demo_sqlite (mk_demo 100 ∅ [] None) demo_hooks.
