(* ===== verification/Session.v ===== *)
(** * Client sessions (src/session.c, and their tables in src/aux.c)

    What the state machine keeps of a client: the sequence number of its last request, the
    response to it, and its prepared statements.  Session objects are shared by the maps
    and the list of State.v and are named there by their address. *)

From Stdlib Require Import ZArith Lia.
From Stdlib Require Import Strings.Byte.
From stdpp Require Import base list numbers gmap strings.
From S2P Require Import Prelude Str Buf Meta Sql.

(** [struct session]; strings are [NULL] or a string, statements are handles by id. *)
Record session := mk_session {
  se_name : option (list byte);
  se_local : option (list byte);
  se_remote : option (list byte);
  se_connect_time : option (list byte);
  se_id : Z;
  se_seq : Z;
  se_disconnect_time : Z;
  se_resp : sc_buf;
  se_stmts : gmap Z Z
}.

Definition se_with_stmts (s : session) (stmts : gmap Z Z) : session :=
  mk_session (se_name s) (se_local s) (se_remote s) (se_connect_time s) (se_id s) (se_seq s)
    (se_disconnect_time s) (se_resp s) stmts.
Definition se_with_resp (s : session) (resp : sc_buf) : session :=
  mk_session (se_name s) (se_local s) (se_remote s) (se_connect_time s) (se_id s) (se_seq s)
    (se_disconnect_time s) resp (se_stmts s).
Definition se_with_seq (s : session) (seq : Z) : session :=
  mk_session (se_name s) (se_local s) (se_remote s) (se_connect_time s) (se_id s) seq
    (se_disconnect_time s) (se_resp s) (se_stmts s).

Definition session_create (name : option (list byte)) (id : Z) : session :=
  mk_session (str_create name) (str_create (Some [])) (str_create (Some [])) None id 0 0 (sc_buf_init 64) ∅.

(** [local_time] is [localtime_r] and [strftime] of the machine, [None] when one of them
    fails.  The session also leaves the list of disconnected sessions (State.v). *)
Definition session_connected (local_time : Z -> option (list byte)) (s : session)
    (local remote : option (list byte)) (ts : Z) : session :=
  let s := mk_session (se_name s) (str_set (se_local s) local) (str_set (se_remote s) remote)
             (se_connect_time s) (se_id s) (se_seq s) 0 (se_resp s) (se_stmts s) in
  match local_time (ts / 1000) with
  | None => s
  | Some tmp =>
      mk_session (se_name s) (se_local s) (se_remote s) (str_set (se_connect_time s) (Some tmp)) (se_id s)
        (se_seq s) (se_disconnect_time s) (se_resp s) (se_stmts s)
  end.

Definition session_disconnected (s : session) (timestamp : Z) : session :=
  mk_session (se_name s) (str_set (se_local s) (Some [])) (str_set (se_remote s) (Some []))
    (se_connect_time s) (se_id s) (se_seq s) timestamp (se_resp s) (se_stmts s).

(** [(int) sc_str_len(s)] *)
Definition name_len (s : option (list byte)) : Z := match s with None => -1 | Some s => zlen s end.

Section session.
Variable Q : sqlite.
Variable aux : aux_stmts.

(** Statements are finalized in the order of the table; their order does not matter to
    the result. *)
Definition session_destroy (s : session) : sqlM Q () :=
  foldr (fun stmt m => sqlite3_finalize Q stmt;; m) (mret ()) (map snd (map_to_list (se_stmts s))).

Definition session_sql_to_id (d : db Q) (s : session) (sql : list byte) : Z :=
  match find (fun x => bool_decide (sq_sql Q d (snd x) = sql)) (map_to_list (se_stmts s)) with
  | Some x => fst x
  | None => 0
  end.

Definition session_add_stmt (s : session) (id stmt : Z) : session := se_with_stmts s (<[id := stmt]> (se_stmts s)).

Definition session_get_stmt (s : session) (id : Z) : option Z := se_stmts s !! id.

Definition session_del_stmt (s : session) (id : Z) : sqlM Q (rs_rc * session) :=
  match se_stmts s !! id with
  | None => mret (RS_ERROR, s)
  | Some stmt =>
      sqlite3_finalize Q stmt;;
      mret (RS_OK, se_with_stmts s (delete id (se_stmts s)))
  end.

(** ** The tables of sessions *)

(** The loop of [aux_write_session] over the prepared statements. *)
Fixpoint write_stmts (s : session) (stmts : list (Z * Z)) (rc : Z) : sqlM Q Z :=
  match stmts with
  | [] => mret rc
  | (id, stmt) :: stmts =>
      sql ← see Q (fun d => sq_sql Q d stmt);
      let add := aux_add_stmt_stmt aux in
      rc ← bind_all Q add 1 0 [PInteger id; PInteger (se_id s); PText (se_name s) (name_len (se_name s)); PText (Some sql) (-1)];
      if negb (rc =? SQLITE_OK) then mret rc
      else
        rc ← sqlite3_step Q add;
        if negb (rc =? SQLITE_DONE) then mret rc
        else
          aux_clear Q add;;
          write_stmts s stmts rc
  end.

Definition aux_write_session (s : session) : sqlM Q rs_rc :=
  let add := aux_add_session_stmt aux in
  let resp := take (Z.to_nat (sc_buf_size (se_resp s))) (sc_buf_rbuf (se_resp s)) in
  rc ← bind_all Q add 1 0
    [PText (se_name s) (name_len (se_name s)); PInteger (se_id s); PInteger (se_seq s);
     PText (se_local s) (name_len (se_local s)); PText (se_remote s) (name_len (se_remote s));
     PText (se_connect_time s) (name_len (se_connect_time s)); PBlob (Some resp) (zlen resp)];
  rc ← (if negb (rc =? SQLITE_OK) then mret rc
        else
          rc ← sqlite3_step Q add;
          if negb (rc =? SQLITE_DONE) then mret rc
          else
            aux_clear Q add;;
            write_stmts s (map_to_list (se_stmts s)) rc);
  aux_clear Q (aux_add_stmt_stmt aux);;
  aux_clear Q add;;
  mret (aux_rc rc).

Definition aux_del_session (s : session) : sqlM Q rs_rc :=
  let rm := aux_rm_session_stmt aux in
  let rm_all := aux_rm_all_stmts_stmt aux in
  sqlite3_reset Q rm;;
  rc ← sqlite3_bind Q rm 1 (PText (se_name s) (name_len (se_name s)));
  rc ← (if negb (rc =? SQLITE_OK) then mret rc
        else
          rc ← sqlite3_step Q rm;
          if negb (rc =? SQLITE_DONE) then mret rc
          else
            sqlite3_reset Q rm_all;;
            rc ← sqlite3_bind Q rm_all 1 (PInteger (se_id s));
            if negb (rc =? SQLITE_OK) then mret rc else sqlite3_step Q rm_all);
  aux_clear Q rm;;
  aux_clear Q rm_all;;
  mret (aux_rc rc).

(** A row of [resql_clients] becomes a session; its statements are prepared again by
    [aux_read_session] and are not part of this function. *)
Definition session_of_row (s : session) (name : option (list byte)) (id seq : Z)
    (local remote connect_time : option (list byte)) (resp : list byte) : option session :=
  let b := sc_buf_put_raw (sc_buf_clear (se_resp s)) resp in
  if negb (sc_buf_valid b) then None
  else Some (mk_session (str_set (se_name s) name) (str_set (se_local s) local) (str_set (se_remote s) remote)
               (str_set (se_connect_time s) connect_time) id seq (se_disconnect_time s) b (se_stmts s)).
End session.
