(* ===== verification/Exec.v ===== *)
(** * Execution of client requests (src/state.c)

    A request is a buffer of operations; the state machine reads them one after the other,
    hands the statements to SQLite inside a transaction, and writes the response.  The
    loops that read the request return [None] when they do not end. *)

From Stdlib Require Import ZArith Lia.
From Stdlib Require Import Strings.Byte.
From stdpp Require Import base list numbers gmap strings.
From S2P Require Import Prelude Str Buf Msg Meta Sql Session.

Definition MSG_FLAG_OK : Z := 0.
Definition MSG_FLAG_ERROR : Z := 1.
Definition MSG_FLAG_STMT : Z := 2.
Definition MSG_FLAG_STMT_ID : Z := 3.
Definition MSG_FLAG_STMT_PREPARE : Z := 4.
Definition MSG_FLAG_STMT_DEL_PREPARED : Z := 5.
Definition MSG_FLAG_OP : Z := 6.
Definition MSG_FLAG_OP_END : Z := 7.
Definition MSG_FLAG_ROW : Z := 8.
Definition MSG_FLAG_MSG_END : Z := 9.

Definition MSG_PARAM_INTEGER : Z := 0.
Definition MSG_PARAM_FLOAT : Z := 1.
Definition MSG_PARAM_TEXT : Z := 2.
Definition MSG_PARAM_BLOB : Z := 3.
Definition MSG_PARAM_NULL : Z := 4.

Definition MSG_BIND_NAME : Z := 0.
Definition MSG_BIND_INDEX : Z := 1.
Definition MSG_BIND_END : Z := 2.

Section exec.
Variable Q : sqlite.
Variable aux : aux_stmts.

(** What a request works on: the connection, [last_err], the session, the request and the
    response. *)
Record ex := mk_ex {
  x_conn : conn Q;
  x_last_err : option (list byte);
  x_sess : session;
  x_req : sc_buf;
  x_resp : sc_buf
}.

Definition execM (A : Type) : Type := ex -> option (A * ex).

#[export] Instance execM_ret : MRet execM := fun A a x => Some (a, x).
#[export] Instance execM_bind : MBind execM :=
  fun A B f m x => match m x with None => None | Some (a, x) => f a x end.

Definition diverges {A} : execM A := fun _ => None.

Definition req {A} (m : bufM A) : execM A := fun x =>
  let '(a, b) := m (x_req x) in Some (a, mk_ex (x_conn x) (x_last_err x) (x_sess x) b (x_resp x)).
Definition resp (f : sc_buf -> sc_buf) : execM () := fun x =>
  Some ((), mk_ex (x_conn x) (x_last_err x) (x_sess x) (x_req x) (f (x_resp x))).
Definition ask_resp {A} (f : sc_buf -> A) : execM A := fun x => Some (f (x_resp x), x).
Definition sql {A} (m : sqlM Q A) : execM A := fun x =>
  let '(a, c) := m (x_conn x) in Some (a, mk_ex c (x_last_err x) (x_sess x) (x_req x) (x_resp x)).
Definition with_session {A} (f : session -> A * session) : execM A := fun x =>
  let '(a, s) := f (x_sess x) in Some (a, mk_ex (x_conn x) (x_last_err x) s (x_req x) (x_resp x)).
Definition last_err (e : option (list byte)) : execM () := fun x =>
  Some ((), mk_ex (x_conn x) e (x_sess x) (x_req x) (x_resp x)).
Definition get_err : execM (option (list byte)) := fun x => Some (x_last_err x, x).

(** [st->last_err = msg; return RS_ERROR] *)
Definition fails (msg : list byte) : execM rs_rc := last_err (Some msg);; mret RS_ERROR.

Definition req_valid : execM bool := req (fun b => (sc_buf_valid b, b)).

(** ** Parameters *)

(** One parameter: [None] for an unknown type. *)
Definition bind_value : execM (option param) :=
  type ← req sc_buf_get_8;
  if type =? MSG_PARAM_INTEGER then t ← req sc_buf_get_64; mret (Some (PInteger t))
  else if type =? MSG_PARAM_FLOAT then f ← req sc_buf_get_64; mret (Some (PFloat f))
  else if type =? MSG_PARAM_TEXT then
    size ← req sc_buf_peek_32; val ← req sc_buf_get_str; mret (Some (PText val size))
  else if type =? MSG_PARAM_BLOB then
    size ← req sc_buf_get_32; data ← req (sc_buf_get_blob size); mret (Some (PBlob data size))
  else if type =? MSG_PARAM_NULL then mret (Some PNull)
  else mret None.

(** The index of the parameter: an [int], or [None] for an unknown kind and [Some 0] for
    an unknown name. *)
Definition bind_index (stmt type : Z) : execM (option Z) :=
  if type =? MSG_BIND_INDEX then i ← req sc_buf_get_32; mret (Some (to_int (i +₃₂ 1)))
  else if type =? MSG_BIND_NAME then
    param ← req sc_buf_get_str;
    idx ← sql (see Q (fun d => sq_bind_parameter_index Q d stmt param));
    mret (Some idx)
  else mret None.

Fixpoint state_bind_params (fuel : nat) (stmt : Z) : execM rs_rc :=
  match fuel with
  | O => diverges
  | S fuel =>
      type ← req sc_buf_get_8;
      if type =? MSG_BIND_END then mret RS_OK
      else
        idx ← bind_index stmt type;
        match idx with
        | None => fails (text "Invalid message")
        | Some idx =>
            if (type =? MSG_BIND_NAME) && (idx =? 0) then fails (text "Invalid parameter name")
            else
              p ← bind_value;
              match p with
              | None => fails (text "Invalid message")
              | Some p =>
                  rc ← sql (sqlite3_bind Q stmt idx p);
                  if negb (rc =? SQLITE_OK) then mret (aux_rc rc)
                  else state_bind_params fuel stmt
              end
        end
  end.

(** ** Results *)

Definition encode_value (b : sc_buf) (v : value) : sc_buf :=
  match v with
  | VInteger val => sc_buf_put_64 (sc_buf_put_8 b MSG_PARAM_INTEGER) val
  | VFloat d => sc_buf_put_64 (sc_buf_put_8 b MSG_PARAM_FLOAT) d
  | VText data => sc_buf_put_str_len (sc_buf_put_8 b MSG_PARAM_TEXT) (Some data)
  | VBlob data => sc_buf_put_blob (sc_buf_put_8 b MSG_PARAM_BLOB) data
  | VNull => sc_buf_put_8 b MSG_PARAM_NULL
  end.

Definition state_encode_row (row : list value) : execM () := resp (fun b => foldl encode_value b row).

(** The loop over the rows of a result; [fuel] is the number of rows that can be left. *)
Fixpoint encode_rows (fuel : nat) (stmt row : Z) : execM (Z * Z) :=
  match fuel with
  | O => diverges
  | S fuel =>
      let row := row +₃₂ 1 in
      vs ← sql (see Q (fun d => sq_row Q d stmt));
      state_encode_row vs;;
      rc ← sql (sqlite3_step Q stmt);
      if rc =? SQLITE_ROW then encode_rows fuel stmt row else mret (rc, row)
  end.

Definition state_step (stmt : Z) : execM rs_rc :=
  rc ← sql (sqlite3_step Q stmt);
  changes ← sql (see Q (sq_changes Q));
  resp (fun b => sc_buf_put_32 b changes);;
  rowid ← sql (see Q (sq_last_insert_rowid Q));
  resp (fun b => sc_buf_put_64 b rowid);;
  rc ← (if rc =? SQLITE_ROW then
          resp (fun b => sc_buf_put_8 b MSG_FLAG_ROW);;
          names ← sql (see Q (fun d => sq_columns Q d stmt));
          resp (fun b => sc_buf_put_32 b (zlen names));;
          resp (fun b => foldl sc_buf_put_str b names);;
          row_pos ← ask_resp b_wpos;
          resp (fun b => sc_buf_put_32 b 0);;
          left ← sql (see Q (fun d => sq_left Q d stmt));
          '(rc, row) ← encode_rows (S left) stmt 0;
          resp (fun b => sc_buf_set_32_at b row_pos row);;
          mret rc
        else mret rc);
  if negb (rc =? SQLITE_DONE) then mret (aux_rc rc) else mret RS_OK.

(** ** Operations *)

Definition state_exec_prepared_statement (fuel : nat) (stmt : Z) (readonly : bool) : execM rs_rc :=
  ro ← sql (see Q (fun d => sq_stmt_readonly Q d stmt));
  if readonly && negb ro then fails (text "Operation is not readonly.")
  else
    rc ← state_bind_params fuel stmt;
    if negb (bool_decide (rc = RS_OK)) then mret rc else state_step stmt.

Definition state_exec_stmt (fuel : nat) (readonly : bool) : execM rs_rc :=
  len ← req sc_buf_peek_32;
  str ← req sc_buf_get_str;
  '(rc, stmt) ← sql (sqlite3_prepare_v3 Q str len);
  if negb (rc =? SQLITE_OK) then mret (aux_rc rc)
  else
    rc ← state_exec_prepared_statement fuel stmt readonly;
    sql (sqlite3_finalize Q stmt);;
    mret rc.

Definition state_exec_stmt_id (fuel : nat) (readonly : bool) : execM rs_rc :=
  id ← req sc_buf_get_64;
  valid ← req_valid;
  if negb valid then fails (text "Invalid message")
  else
    stmt ← with_session (fun s => (session_get_stmt s id, s));
    match stmt with
    | None => fails (text "Prepared statement does not exist.")
    | Some stmt =>
        rc ← state_exec_prepared_statement fuel stmt readonly;
        sql (aux_clear Q stmt);;
        mret rc
    end.

(** A null string is compared with the statements of the session, which is undefined when
    there are any. *)
Definition find_sql (str : option (list byte)) : execM Z :=
  d ← sql (see Q id);
  s ← with_session (fun s => (s, s));
  match str with
  | Some str => mret (session_sql_to_id Q d s str)
  | None => if decide (se_stmts s = ∅) then mret 0 else diverges
  end.

Definition state_prepare_stmt (index : Z) : execM rs_rc :=
  len ← req sc_buf_peek_32;
  str ← req sc_buf_get_str;
  valid ← req_valid;
  if negb valid then fails (text "Corrupt message")
  else
    found ← find_sql str;
    added ← (if negb (found =? 0) then mret (SQLITE_OK, found)
             else
               '(rc, stmt) ← sql (sqlite3_prepare_v3 Q str len);
               if negb (rc =? SQLITE_OK) then mret (rc, 0)
               else with_session (fun s => ((SQLITE_OK, index), session_add_stmt s index stmt)));
    let '(rc, id) := added : Z * Z in
    if negb (rc =? SQLITE_OK) then mret (aux_rc rc)
    else
      s ← with_session (fun s => (s, s));
      sql (on_hooks Q (fun h => with_client h false));;
      rc ← sql (aux_add_stmt Q aux (se_name s) (se_id s) id str);
      sql (on_hooks Q (fun h => with_client h true));;
      resp (fun b => sc_buf_put_64 b id);;
      mret rc.

Definition state_del_prepared : execM rs_rc :=
  id ← req sc_buf_get_64;
  valid ← req_valid;
  if negb valid then fails (text "Corrupt message")
  else
    s ← with_session (fun s => (s, s));
    '(rc, s) ← sql (session_del_stmt Q s id);
    with_session (fun old => ((), se_with_stmts old (se_stmts s)));;
    if negb (bool_decide (rc = RS_OK)) then fails (text "Prepared statement does not exist.")
    else
      sql (on_hooks Q (fun h => with_client h false));;
      rc ← sql (aux_rm_stmt Q aux id);
      sql (on_hooks Q (fun h => with_client h true));;
      mret rc.

(** ** Requests *)

Definition state_errstr : execM (option (list byte)) :=
  e ← get_err;
  match e with
  | Some err => last_err None;; mret (Some err)
  | None => sql (see Q (sq_errmsg Q))
  end.

Definition state_encode_error : execM () :=
  resp (fun b => snd (msg_create_client_resp_header (sc_buf_clear b)));;
  resp (fun b => sc_buf_put_8 b MSG_FLAG_ERROR);;
  err ← state_errstr;
  resp (fun b => sc_buf_put_str b err);;
  resp (fun b => sc_buf_put_8 b MSG_FLAG_MSG_END);;
  resp (fun b => snd (msg_finalize_client_resp b)).

(** One operation: the code of the statement, or [None] for a jump to the error exit
    whose message is already set. *)
Definition exec_op (fuel : nat) (readonly : bool) (index flag : Z) : execM (option rs_rc) :=
  if readonly && ((flag =? MSG_FLAG_STMT_PREPARE) || (flag =? MSG_FLAG_STMT_DEL_PREPARED)) then
    last_err (Some (text "Not a readonly operation"));; mret None
  else if flag =? MSG_FLAG_STMT then rc ← state_exec_stmt fuel readonly; mret (Some rc)
  else if flag =? MSG_FLAG_STMT_ID then rc ← state_exec_stmt_id fuel readonly; mret (Some rc)
  else if flag =? MSG_FLAG_STMT_PREPARE then rc ← state_prepare_stmt index; mret (Some rc)
  else if flag =? MSG_FLAG_STMT_DEL_PREPARED then rc ← state_del_prepared; mret (Some rc)
  else last_err (Some (text "Invalid message"));; mret None.

(** The loop over the operations: the code with which it jumps to the error exit, or the
    flag that ends it. *)
Fixpoint exec_ops (fuel : nat) (readonly : bool) (index : Z) : execM (rs_rc + Z) :=
  match fuel with
  | O => diverges
  | S fuel =>
      flag ← req sc_buf_get_8;
      if negb (flag =? MSG_FLAG_OP) then mret (inr flag)
      else
        resp (fun b => sc_buf_put_8 b MSG_FLAG_OP);;
        pos ← ask_resp b_wpos;
        resp (fun b => sc_buf_put_32 b 0);;
        flag ← req sc_buf_get_8;
        r ← exec_op fuel readonly index flag;
        match r with
        | None => mret (inl RS_OK)
        | Some rc =>
            flag ← req sc_buf_get_8;
            if negb (bool_decide (rc = RS_OK)) || negb (flag =? MSG_FLAG_OP_END) then mret (inl rc)
            else
              resp (fun b => sc_buf_put_8 b MSG_FLAG_OP_END);;
              resp (fun b => sc_buf_set_32_at b pos (b_wpos b -₃₂ pos));;
              exec_ops fuel readonly index
        end
  end.

(** The error exit: everything but a fatal error is answered and counts as success. *)
Definition exec_error (rc : rs_rc) : execM rs_rc :=
  state_encode_error;;
  sql (on_hooks Q (fun h => with_client h false));;
  sql (sqlite3_step Q (aux_rollback aux));;
  mret (if decide (rc = RS_FATAL) then RS_FATAL else RS_OK).

(** Behind a successful [COMMIT]. *)
Definition exec_finish : execM rs_rc :=
  resp (fun b => sc_buf_put_8 b MSG_FLAG_MSG_END);;
  resp (fun b => snd (msg_finalize_client_resp b));;
  valid ← ask_resp sc_buf_valid;
  if (valid : bool) then mret RS_OK
  else
    err ← ask_resp b_err;
    last_err (Some (if err =? SC_BUF_OOM then text "Response is too big." else text "Internal error."));;
    exec_error RS_OK.

Definition state_exec_request (fuel : nat) (index : Z) (readonly : bool) : execM rs_rc :=
  resp (fun b => snd (msg_create_client_resp_header (sc_buf_clear b)));;
  resp (fun b => sc_buf_put_8 b MSG_FLAG_OK);;
  rc ← sql (sqlite3_step Q (aux_begin aux));
  if negb (rc =? SQLITE_DONE) then mret (aux_rc rc)
  else
    r ← exec_ops fuel readonly index;
    match r with
    | inl rc => exec_error rc
    | inr flag =>
        valid ← req_valid;
        if negb (flag =? MSG_FLAG_MSG_END) || negb valid then
          last_err (Some (text "Invalid message"));;
          exec_error RS_OK
        else
          rc ← sql (sqlite3_step Q (aux_commit aux));
          if negb (rc =? SQLITE_DONE) then exec_error (aux_rc rc) else exec_finish
    end.

(** ** A request changes only the statements of its session *)

Definition stmts_only {A} (m : execM A) : Prop :=
  forall x r x', m x = Some (r, x') -> exists stmts, x_sess x' = se_with_stmts (x_sess x) stmts.

Lemma se_with_stmts_id s : se_with_stmts s (se_stmts s) = s.
Proof. by destruct s. Qed.

Lemma only_same {A} (m : execM A) :
  (forall x r x', m x = Some (r, x') -> x_sess x' = x_sess x) -> stmts_only m.
Proof. intros H x r x' E. exists (se_stmts (x_sess x)). rewrite se_with_stmts_id. by eapply H. Qed.

Lemma only_bind {A B} (m : execM A) (f : A -> execM B) :
  stmts_only m -> (forall a, stmts_only (f a)) -> stmts_only (m ≫= f).
Proof.
  intros Hm Hf x r x' H. unfold mbind, execM_bind in H. destruct (m x) as [[a x1]|] eqn:E; [|done].
  destruct (Hm _ _ _ E) as [s1 E1]. destruct (Hf _ _ _ _ H) as [s2 E2]. exists s2. by rewrite E2, E1.
Qed.

Lemma only_ret {A} (a : A) : stmts_only (mret a).
Proof. apply only_same. by intros x r x' [= <- <-]. Qed.
Lemma only_diverges {A} : stmts_only (@diverges A).
Proof. by intros x r x'. Qed.
Lemma only_req {A} (m : bufM A) : stmts_only (req m).
Proof. apply only_same. intros x r x' H. unfold req in H. destruct (m (x_req x)). by injection H as <- <-. Qed.
Lemma only_resp f : stmts_only (resp f).
Proof. apply only_same. by intros x r x' [= <- <-]. Qed.
Lemma only_ask_resp {A} (f : sc_buf -> A) : stmts_only (ask_resp f).
Proof. apply only_same. by intros x r x' [= <- <-]. Qed.
Lemma only_sql {A} (m : sqlM Q A) : stmts_only (sql m).
Proof. apply only_same. intros x r x' H. unfold sql in H. destruct (m (x_conn x)). by injection H as <- <-. Qed.
Lemma only_last_err e : stmts_only (last_err e).
Proof. apply only_same. by intros x r x' [= <- <-]. Qed.
Lemma only_get_err : stmts_only get_err.
Proof. apply only_same. by intros x r x' [= <- <-]. Qed.
Lemma only_session {A} (f : session -> A * session) :
  (forall s, exists stmts, snd (f s) = se_with_stmts s stmts) -> stmts_only (with_session f).
Proof.
  intros Hf x r x' H. unfold with_session in H. destruct (Hf (x_sess x)) as [stmts E].
  destruct (f (x_sess x)) as [a s]. injection H as <- <-. by exists stmts.
Qed.
Lemma only_peek {A} (g : session -> A) : stmts_only (with_session (fun s => (g s, s))).
Proof. apply only_session. intros s. exists (se_stmts s). by rewrite se_with_stmts_id. Qed.

Ltac walk known :=
  repeat first
    [ known | apply only_bind; [|intros ?] | apply only_ret | apply only_req | apply only_resp | apply only_ask_resp
    | apply only_sql | apply only_last_err | apply only_get_err | apply only_diverges | apply only_peek
    | match goal with |- stmts_only (if ?b then _ else _) => destruct b end
    | match goal with |- stmts_only (match ?b with _ => _ end) => destruct b end ].

Lemma only_bind_params fuel stmt : stmts_only (state_bind_params fuel stmt).
Proof.
  induction fuel as [|fuel IH]; [apply only_diverges|]. cbn [state_bind_params].
  unfold bind_index, bind_value, fails. walk ltac:(exact IH).
Qed.

Lemma only_rows fuel stmt : forall row, stmts_only (encode_rows fuel stmt row).
Proof.
  induction fuel as [|fuel IH]; intros row; [apply only_diverges|]. cbn [encode_rows]. unfold state_encode_row.
  walk ltac:(apply IH).
Qed.

Lemma only_prepared fuel stmt readonly : stmts_only (state_exec_prepared_statement fuel stmt readonly).
Proof.
  unfold state_exec_prepared_statement, state_step, fails. walk ltac:(apply only_bind_params || apply only_rows).
Qed.

Lemma only_op fuel readonly index flag : stmts_only (exec_op fuel readonly index flag).
Proof.
  unfold exec_op, state_exec_stmt, state_exec_stmt_id, state_prepare_stmt, state_del_prepared, find_sql, fails, req_valid.
  walk ltac:(apply only_prepared).
  all: apply only_session; intros ?; by eexists.
Qed.

Lemma only_ops fuel readonly index : stmts_only (exec_ops fuel readonly index).
Proof.
  induction fuel as [|fuel IH]; [apply only_diverges|]. cbn [exec_ops].
  walk ltac:(apply only_op || exact IH).
Qed.

Lemma only_request fuel index readonly : stmts_only (state_exec_request fuel index readonly).
Proof.
  unfold state_exec_request, exec_finish, exec_error, state_encode_error, state_errstr, req_valid.
  walk ltac:(apply only_ops).
Qed.

(** ** A request that hangs the state machine *)

(** The parameters of a statement: the first one by index, a null; the second one by name,
    with a length that moves the read position back to the type of the first. *)
Definition endless : list byte :=
  [x01; x00; x00; x00; x00; x04] ++ [x00] ++ [xf9; xff; xff; xff] ++ text ":a" ++ [x00].

Definition endless_at (pos : Z) : sc_buf := with_rpos (sc_buf_wrap endless (zlen endless) SC_BUF_READ) pos.

(** What SQLite documents for a prepared statement that is not running: the parameter [:a] has a
    number, nulls can be bound to the first parameter and to this one, and binding leaves the
    statement as it is. *)
Record binds_null (stmt k : Z) (ready : db Q -> Prop) : Prop := {
  bn_name : forall d, ready d -> sq_bind_parameter_index Q d stmt (Some (text ":a")) = k;
  bn_found : k <> 0;
  bn_ok : forall d idx, ready d -> idx = 1 \/ idx = k ->
    fst (sq_bind Q d stmt idx PNull) = SQLITE_OK /\ ready (snd (sq_bind Q d stmt idx PNull))
}.

(** Binding a null at the end of a turn of the loop. *)
Definition bind_turn (fuel : nat) (stmt idx : Z) : execM rs_rc :=
  rc ← sql (sqlite3_bind Q stmt idx PNull);
  if negb (rc =? SQLITE_OK) then mret (aux_rc rc) else state_bind_params fuel stmt.

Lemma bind_turn_ok fuel stmt k ready idx x :
  binds_null stmt k ready -> ready (k_db (x_conn x)) -> idx = 1 \/ idx = k ->
  exists x', bind_turn fuel stmt idx x = state_bind_params fuel stmt x' /\ x_req x' = x_req x /\ ready (k_db (x_conn x')).
Proof.
  intros H Hr Hi. unfold bind_turn, mbind, execM_bind, sql, sqlite3_bind. destruct (bn_ok _ _ _ H _ idx Hr Hi) as [H1 H2].
  destruct (sq_bind Q _ stmt idx PNull) as [rc d]. cbn in H1, H2. subst rc. eexists. by split_and!.
Qed.

Lemma first_turn fuel stmt c e s o :
  state_bind_params (S fuel) stmt (mk_ex c e s (endless_at 0) o) = bind_turn fuel stmt 1 (mk_ex c e s (endless_at 6) o).
Proof. reflexivity. Qed.

Lemma next_turn fuel stmt c e s o :
  let idx := sq_bind_parameter_index Q (k_db c) stmt (Some (text ":a")) in
  state_bind_params (S fuel) stmt (mk_ex c e s (endless_at 6) o) =
  (if idx =? 0 then fails (text "Invalid parameter name") (mk_ex c e s (endless_at 5) o)
   else bind_turn fuel stmt idx (mk_ex c e s (endless_at 6) o)).
Proof.
  intros idx. transitivity ((if idx =? 0 then fails (text "Invalid parameter name") else
    p ← bind_value;
    match p with
    | None => fails (text "Invalid message")
    | Some p => rc ← sql (sqlite3_bind Q stmt idx p); if negb (rc =? SQLITE_OK) then mret (aux_rc rc) else state_bind_params fuel stmt
    end) (mk_ex c e s (endless_at 5) o)); [reflexivity|]. by destruct (idx =? 0).
Qed.

Lemma endless_loop stmt k ready fuel : binds_null stmt k ready -> forall x,
  ready (k_db (x_conn x)) -> x_req x = endless_at 6 -> state_bind_params fuel stmt x = None.
Proof.
  intros Hb. induction fuel as [|fuel IH]; intros [c e s r o] Hd Hr; [done|]. cbn [x_req x_conn] in Hr, Hd. subst r. rewrite next_turn.
  rewrite (bn_name _ _ _ Hb _ Hd), (proj2 (Z.eqb_neq _ _) (bn_found _ _ _ Hb)).
  destruct (bind_turn_ok fuel stmt k ready k (mk_ex c e s (endless_at 6) o) Hb Hd (or_intror eq_refl)) as (x' & -> & E & Hd'). by apply IH.
Qed.

(** C38: a request can hang the state machine for ever.  A statement whose second parameter
    is bound by a name with the length field 0xFFFFFFF9 makes the loop of
    [state_bind_params] read the same bytes again and again, whatever the fuel, if SQLite binds
    nulls to the two parameters of the statement as documented. *)
Theorem bind_params_hangs stmt k ready fuel c e s o :
  binds_null stmt k ready -> ready (k_db c) -> state_bind_params fuel stmt (mk_ex c e s (endless_at 0) o) = None.
Proof.
  intros Hb Hd. destruct fuel as [|fuel]; [done|]. rewrite first_turn.
  destruct (bind_turn_ok fuel stmt k ready 1 (mk_ex c e s (endless_at 6) o) Hb Hd (or_introl eq_refl)) as (x' & -> & E & Hd').
  by apply (endless_loop stmt k ready fuel Hb).
Qed.

(** ** A request that stops the server *)

(** One operation: the empty statement. *)
Definition empty_request : list byte := [x06; x02] ++ [x00; x00; x00; x00] ++ [x00] ++ [x02; x07; x09].
Definition empty_at (pos : Z) : sc_buf := with_rpos (sc_buf_wrap empty_request (zlen empty_request) SC_BUF_READ) pos.

Lemma sql_eq {A} (m : sqlM Q A) c e s r o :
  sql m (mk_ex c e s r o) = Some (fst (m c), mk_ex (snd (m c)) e s r o).
Proof. unfold sql. cbn. by destruct (m c). Qed.

(** Stepping a statement that fails at once. *)
Lemma step_fails stmt rc c e s r o :
  fst (sqlite3_step Q stmt c) = rc -> rc <> SQLITE_ROW -> rc <> SQLITE_DONE ->
  exists x, state_step stmt (mk_ex c e s r o) = Some (aux_rc rc, x) /\ x_req x = r.
Proof.
  intros H H1 H2. unfold state_step, mbind, execM_bind. rewrite sql_eq, H, sql_eq. cbn [fst snd see].
  unfold resp. cbn [x_conn x_last_err x_sess x_req x_resp]. rewrite sql_eq. cbn [fst snd see].
  rewrite (proj2 (Z.eqb_neq _ _) H1). unfold mret, execM_ret. rewrite (proj2 (Z.eqb_neq _ _) H2). cbn [negb].
  eexists. by split.
Qed.

Lemma error_exit rc x : exists x', exec_error rc x = Some (if decide (rc = RS_FATAL) then RS_FATAL else RS_OK, x').
Proof.
  destruct x as [c e s r o]. unfold exec_error, state_encode_error, state_errstr, mbind, execM_bind, mret, execM_ret, resp, get_err, last_err.
  cbn [x_conn x_last_err x_sess x_req x_resp]. destruct e as [e|].
  - cbn [x_conn x_last_err x_sess x_req x_resp]. rewrite !sql_eq. by eexists.
  - rewrite sql_eq. cbn [x_conn x_last_err x_sess x_req x_resp]. rewrite !sql_eq. by eexists.
Qed.

(** The request reaches the null statement. *)
Lemma empty_op fuel index null c e s o :
  (forall len, fst (sqlite3_prepare_v3 Q (Some []) len c) = (SQLITE_OK, null)) ->
  (forall c, fst (sqlite3_step Q null c) = SQLITE_MISUSE) ->
  exists x, exec_op (S fuel) false index MSG_FLAG_STMT (mk_ex c e s (empty_at 2) o) = Some (Some RS_FATAL, x) /\
    x_req x = empty_at 8.
Proof.
  intros Hp Hs. unfold exec_op. change (MSG_FLAG_STMT =? MSG_FLAG_STMT) with true. cbn [andb].
  unfold state_exec_stmt, mbind, execM_bind, req. cbn [x_req x_conn x_last_err x_sess x_resp].
  change (sc_buf_peek_32 (empty_at 2)) with (0, empty_at 2). cbv beta iota. cbn [x_req x_conn x_last_err x_sess x_resp].
  change (sc_buf_get_str (empty_at 2)) with (Some (@nil byte), empty_at 7). cbv beta iota.
  rewrite sql_eq, Hp. change (negb (SQLITE_OK =? SQLITE_OK)) with false. cbv beta iota.
  unfold state_exec_prepared_statement, mbind, execM_bind. rewrite sql_eq. cbn [fst snd see andb].
  cbn [state_bind_params]. unfold mbind, execM_bind, req. cbn [x_req x_conn x_last_err x_sess x_resp].
  change (sc_buf_get_8 (empty_at 7)) with (2, empty_at 8). cbv beta iota. change (2 =? MSG_BIND_END) with true. cbv iota.
  unfold mret, execM_ret. cbv beta iota. rewrite bool_decide_true by done. cbn [negb].
  match goal with |- context [state_step null (mk_ex ?c ?e ?s ?r ?o)] =>
    destruct (step_fails null SQLITE_MISUSE c e s r o (Hs c)) as ([c1 e1 s1 r1 o1] & -> & E1); [done..|] end.
  rewrite sql_eq. cbn in E1. subst r1. eexists. by split.
Qed.

(** C37: an empty statement is a fatal error.  SQLite prepares a text without SQL to a null
    statement and calls stepping it a misuse; [aux_rc] takes that for a fatal error, and
    [state_exec_request] hands it on instead of answering the client.  The transaction of the
    request has started: stepping BEGIN, outside of a transaction, is done. *)
Theorem empty_statement_fatal fuel index null c e s o :
  let begun := sqlite3_step Q (aux_begin aux) c in
  fst begun = SQLITE_DONE ->
  (forall len, fst (sqlite3_prepare_v3 Q (Some []) len (snd begun)) = (SQLITE_OK, null)) ->
  (forall c, fst (sqlite3_step Q null c) = SQLITE_MISUSE) ->
  exists x, state_exec_request (S (S fuel)) index false (mk_ex c e s (empty_at 0) o) = Some (RS_FATAL, x).
Proof.
  intros begun Hb Hp Hs. unfold state_exec_request, mbind, execM_bind, resp. cbn [x_req x_conn x_last_err x_sess x_resp].
  fold begun. rewrite sql_eq. fold begun. rewrite Hb. change (negb (SQLITE_DONE =? SQLITE_DONE)) with false. cbv iota.
  cbn [exec_ops]. unfold mbind, execM_bind, req, resp, ask_resp. cbn [x_req x_conn x_last_err x_sess x_resp].
  change (sc_buf_get_8 (empty_at 0)) with (6, empty_at 1). cbv beta iota. change (6 =? MSG_FLAG_OP) with true. cbn [negb].
  cbn [x_req x_conn x_last_err x_sess x_resp]. change (sc_buf_get_8 (empty_at 1)) with (MSG_FLAG_STMT, empty_at 2). cbv beta iota.
  match goal with |- context [exec_op (S fuel) false index MSG_FLAG_STMT (mk_ex ?c ?e ?s (empty_at 2) ?o)] =>
    destruct (empty_op fuel index null c e s o Hp Hs) as ([c1 e1 s1 r1 o1] & -> & E1) end.
  cbn in E1. subst r1. cbn [x_req x_conn x_last_err x_sess x_resp].
  change (sc_buf_get_8 (empty_at 8)) with (7, empty_at 9). cbv beta iota. rewrite bool_decide_false by done. cbn [negb orb].
  unfold mret, execM_ret. cbv beta iota. apply (error_exit RS_FATAL).
Qed.
End exec.
Arguments mk_ex {Q}.
Arguments x_conn {Q}.
Arguments x_last_err {Q}.
Arguments x_sess {Q}.
Arguments x_req {Q}.
Arguments x_resp {Q}.

Lemma bind_params_hangs_witness :
  state_bind_params demo_sqlite 1000 100 (mk_ex demo_conn None (session_create None 0) (endless_at 0) (sc_buf_init 64)) = None.
Proof.
  apply (bind_params_hangs demo_sqlite 100 1 (fun _ => True) 1000).
  - split; [intros d _; reflexivity|discriminate|intros d idx _ _; split; [reflexivity|exact I]].
  - exact I.
Defined.

Lemma empty_statement_fatal_witness :
  exists x, state_exec_request demo_sqlite demo_aux 10 1 false
    (mk_ex demo_conn None (session_create None 0) (empty_at 0) (sc_buf_init 64)) = Some (RS_FATAL, x).
Proof.
  apply (empty_statement_fatal demo_sqlite demo_aux 8 1 0).
  - reflexivity.
  - intros len. reflexivity.
  - intros c. reflexivity.
Defined.
