(* ===== verification/Conn.v ===== *)
(** * Connections (src/conn.c, the buffers of server.c, lib/sc/sc_sock.c)

    A connection has a non-blocking socket, the events it is registered for, an
    output buffer that is flushed as far as the socket takes it and an input buffer
    that messages are parsed from.  Empty buffers go back to a cache of the server.

    The kernel is an argument: each system call takes the next answer of
    [h_kernel].  What a socket does with the bytes is modelled: those it took are in
    [k_sent] until they arrive, those that arrived are in [k_avail] until they are
    read.  The address strings, the statistics of metric.c and the links of the lists
    a connection is in are left out; freeing a connection has no effect here.

    The theorem joins two connections by a network that delivers bytes late and in
    pieces: whatever the sockets take and give at a time, messages arrive unchanged,
    in order and at most once, and all of them once everything has been passed on. *)

From Stdlib Require Import ZArith Lia.
From Stdlib Require Import Strings.Byte.
From stdpp Require Import base list numbers relations.
From S2P Require Import Prelude Buf Msg Timer.
Open Scope Z_scope.

(** ** The socket *)

Inductive errno := EAGAIN | EOF | EOTHER.

(** What the kernel answers: success, with the number of bytes it is ready to pass, that the
    call would block, or an error.  An interrupted call is repeated by the wrappers. *)
Inductive answer := Took (n : Z) | Again | Failed.

Inductive fd_type :=
| SERVER_FD_NODE_RECV | SERVER_FD_CLIENT_RECV | SERVER_FD_INCOMING_CONN | SERVER_FD_OUTGOING_CONN
| SERVER_FD_WAIT_FIRST_REQ | SERVER_FD_WAIT_FIRST_RESP | SERVER_FD_TASK | SERVER_FD_SIGNAL.

Definition SC_SOCK_NONE : Z := 0.
Definition SC_SOCK_READ : Z := 1.
Definition SC_SOCK_WRITE : Z := 2.

Record sc_sock := mk_sock {
  k_type : fd_type;
  k_op : Z;
  k_sent : list byte;
  k_avail : list byte
}.

Inductive conn_state := CONN_DISCONNECTED | CONN_TCP_ATTEMPT | CONN_CONNECTED.

Record conn := mk_conn {
  c_addr : Z;
  c_state : conn_state;
  c_sock : sc_sock;
  c_out : sc_buf;
  c_in : sc_buf;
  c_timer_id : Z
}.

(** What a connection uses of its server. *)
Record host := mk_host {
  h_kernel : nat -> answer;
  h_calls : nat;
  h_errno : errno;
  h_cache : list sc_buf;
  h_timer : @sc_timer Z
}.

(** Operations change the connection and its server; [None] is a call that does not return. *)
Definition connM (A : Type) : Type := conn * host -> option (A * (conn * host)).

#[export] Instance connM_ret : MRet connM := fun A x s => Some (x, s).
#[export] Instance connM_bind : MBind connM :=
  fun A B f m s => match m s with None => None | Some (x, s) => f x s end.

Definition stuck {A} : connM A := fun _ => None.
Definition gets {A} (f : conn -> A) : connM A := fun s => Some (f (fst s), s).
Definition modify (f : conn -> conn) : connM unit := fun s => Some (tt, (f (fst s), snd s)).
Definition host_gets {A} (f : host -> A) : connM A := fun s => Some (f (snd s), s).
Definition host_modify (f : host -> host) : connM unit := fun s => Some (tt, (fst s, f (snd s))).

Definition with_state (c : conn) (x : conn_state) : conn :=
  mk_conn (c_addr c) x (c_sock c) (c_out c) (c_in c) (c_timer_id c).
Definition with_sock (c : conn) (x : sc_sock) : conn :=
  mk_conn (c_addr c) (c_state c) x (c_out c) (c_in c) (c_timer_id c).
Definition with_out (c : conn) (x : sc_buf) : conn :=
  mk_conn (c_addr c) (c_state c) (c_sock c) x (c_in c) (c_timer_id c).
Definition with_in (c : conn) (x : sc_buf) : conn :=
  mk_conn (c_addr c) (c_state c) (c_sock c) (c_out c) x (c_timer_id c).
Definition with_timer_id (c : conn) (x : Z) : conn :=
  mk_conn (c_addr c) (c_state c) (c_sock c) (c_out c) (c_in c) x.
Definition with_op (c : conn) (x : Z) : conn :=
  with_sock c (mk_sock (k_type (c_sock c)) x (k_sent (c_sock c)) (k_avail (c_sock c))).
Definition with_cache (h : host) (x : list sc_buf) : host :=
  mk_host (h_kernel h) (h_calls h) (h_errno h) x (h_timer h).
Definition with_timer (h : host) (x : sc_timer) : host :=
  mk_host (h_kernel h) (h_calls h) (h_errno h) (h_cache h) x.
Definition with_errno (h : host) (x : errno) : host :=
  mk_host (h_kernel h) (h_calls h) x (h_cache h) (h_timer h).

Definition system : connM answer := fun s =>
  let h := snd s in
  Some (h_kernel h (h_calls h),
        (fst s, mk_host (h_kernel h) (S (h_calls h)) (h_errno h) (h_cache h) (h_timer h))).

(** A positive length is passed as far as the kernel likes, at least one byte of it. *)
Definition sc_sock_send (buf : list byte) (len : Z) : connM Z :=
  if len <=? 0 then mret len else
  a ← system;
  match a with
  | Took n =>
      let n := Z.max 1 (Z.min n len) in
      modify (fun c => with_sock c (mk_sock (k_type (c_sock c)) (k_op (c_sock c))
        (k_sent (c_sock c) ++ take (Z.to_nat n) buf) (k_avail (c_sock c))));;
      mret n
  | Again => host_modify (fun h => with_errno h EAGAIN);; mret (-1)
  | Failed => host_modify (fun h => with_errno h EOTHER);; mret (-1)
  end.

(** The received bytes; with none available a blocking answer is the only other one than an
    error or the end of the stream. *)
Definition sc_sock_recv (len : Z) : connM (Z * list byte) :=
  if len <=? 0 then mret (len, []) else
  a ← system;
  avail ← gets (fun c => k_avail (c_sock c));
  match a with
  | Took n =>
      let n := Z.min (Z.max 1 (Z.min n len)) (zlen avail) in
      if n =? 0 then host_modify (fun h => with_errno h EOF);; mret (-1, [])
      else
        modify (fun c => with_sock c (mk_sock (k_type (c_sock c)) (k_op (c_sock c))
          (k_sent (c_sock c)) (drop (Z.to_nat n) (k_avail (c_sock c)))));;
        mret (n, take (Z.to_nat n) avail)
  | Again => host_modify (fun h => with_errno h EAGAIN);; mret (-1, [])
  | Failed => host_modify (fun h => with_errno h EOTHER);; mret (-1, [])
  end.

(** A socket that is not registered yet may need room in the table of events. *)
Definition sc_sock_poll_add (events : Z) : connM Z :=
  op ← gets (fun c => k_op (c_sock c));
  let mask := Z.lor op events in
  if Z.land op events =? events then mret 0 else
  room ← (if op =? SC_SOCK_NONE then system else mret (Took 0));
  match room with
  | Took _ =>
      rc ← system;
      match rc with
      | Took _ => modify (fun c => with_op c mask);; mret 0
      | _ => mret (-1)
      end
  | _ => mret (-1)
  end.

Definition sc_sock_poll_del (events : Z) : connM Z :=
  op ← gets (fun c => k_op (c_sock c));
  if Z.land op events =? 0 then mret 0 else
  modify (fun c => with_op c (Z.ldiff op events));;
  rc ← system;
  match rc with Took _ => mret 0 | _ => mret (-1) end.

(** ** Buffers of the server (src/server.c) *)

Definition server_buf_alloc : connM sc_buf :=
  cache ← host_gets h_cache;
  match cache with
  | b :: cache => host_modify (fun h => with_cache h cache);; mret b
  | [] => mret (sc_buf_init 4096)
  end.

Definition server_buf_free (b : sc_buf) : connM unit :=
  cache ← host_gets h_cache;
  if zlen cache >=? 1024 then mret tt
  else
    let b := snd (sc_buf_shrink (sc_buf_clear b) (32 * 1024)) in
    host_modify (fun h => with_cache h (b :: h_cache h)).

(** [(struct sc_buf){0}] *)
Definition no_buf : sc_buf := mk_buf [] 0 0 0 0 0 false.

(** ** src/conn.c *)

Definition events (read write : bool) : Z :=
  Z.lor (if read then SC_SOCK_READ else 0) (if write then SC_SOCK_WRITE else 0).

Definition conn_register (read write : bool) : connM rs_rc :=
  rc ← sc_sock_poll_add (events read write);
  mret (if rc =? 0 then RS_OK else RS_ERROR).

Definition conn_unregister (read write : bool) : connM rs_rc :=
  rc ← sc_sock_poll_del (events read write);
  mret (if rc =? 0 then RS_OK else RS_ERROR).

(** [if (rc != RS_OK) return rc;] *)
Definition or_return (rc : rs_rc) (k : connM rs_rc) : connM rs_rc :=
  if decide (rc = RS_OK) then k else mret rc.

Definition conn_established : connM rs_rc :=
  modify (fun c => with_state c CONN_CONNECTED);;
  rc ← conn_unregister false true;
  or_return rc (conn_register true false).

Definition conn_init (addr : Z) : conn :=
  mk_conn addr CONN_DISCONNECTED (mk_sock SERVER_FD_NODE_RECV SC_SOCK_NONE [] []) no_buf no_buf
    SC_TIMER_INVALID.

Definition conn_set_type (t : fd_type) : connM unit :=
  modify (fun c => with_sock c (mk_sock t (k_op (c_sock c)) (k_sent (c_sock c)) (k_avail (c_sock c)))).

(** The accepted socket [s] is moved into a new connection; [None] stands for the null pointer. *)
Definition conn_create (addr : Z) (s : sc_sock) (h : host) : option (option conn * host) :=
  let c := with_sock (conn_init addr)
    (mk_sock SERVER_FD_WAIT_FIRST_REQ (k_op s) (k_sent s) (k_avail s)) in
  match conn_established (c, h) with
  | None => None
  | Some (rc, (c, h)) => Some (if decide (rc = RS_OK) then Some c else None, h)
  end.

Definition clear_one (get : conn -> sc_buf) (set : conn -> sc_buf -> conn) (empty : bool)
    : connM unit :=
  b ← gets get;
  if negb (b_cap b =? 0) && (negb empty || (sc_buf_size b =? 0))
  then server_buf_free b;; modify (fun c => set c no_buf)
  else mret tt.

Definition conn_clear_buf : connM unit :=
  clear_one c_in with_in true;; clear_one c_out with_out true.

(** Afterwards the caller writes to [c_out]. *)
Definition conn_out : connM unit :=
  b ← gets c_out;
  if b_cap b =? 0 then b ← server_buf_alloc; modify (fun c => with_out c b) else mret tt.

(** [sc_sock_term]: the socket is closed; an error is only logged. *)
Definition conn_cleanup_sock : connM unit :=
  st ← gets c_state;
  match st with
  | CONN_DISCONNECTED => mret tt
  | _ =>
      _ ← conn_unregister true true;
      _ ← system;
      modify (fun c => with_state c CONN_DISCONNECTED)
  end.

Definition cancel_timer : connM unit :=
  id ← gets c_timer_id;
  t ← host_gets h_timer;
  let '(id, t) := sc_timer_cancel 0 t id in
  host_modify (fun h => with_timer h t);; modify (fun c => with_timer_id c id).

Definition conn_term : connM unit :=
  cancel_timer;;
  conn_cleanup_sock;;
  clear_one c_in with_in false;;
  clear_one c_out with_out false.

(** The connection [src] is moved to the object at [addr]. *)
Definition conn_set (addr : Z) (src : conn) : connM rs_rc :=
  modify (fun _ => mk_conn addr (c_state src) (c_sock src) (c_out src) (c_in src) (c_timer_id src));;
  cancel_timer;;
  rc ← conn_unregister true true;
  or_return rc (conn_register true false).

Definition conn_schedule (type timeout : Z) (malloc_ok : bool) : connM unit :=
  cancel_timer;;
  a ← gets c_addr;
  t ← host_gets h_timer;
  let '(id, t) := sc_timer_add 0 malloc_ok t timeout type a in
  host_modify (fun h => with_timer h t);; modify (fun c => with_timer_id c id).

(** A new socket: nothing is registered and nothing has been sent. *)
Definition conn_try_connect : connM rs_rc :=
  st ← gets c_state;
  match st with
  | CONN_CONNECTED => mret RS_EXISTS
  | _ =>
      conn_cleanup_sock;;
      modify (fun c => with_state c CONN_TCP_ATTEMPT);;
      modify (fun c => with_sock c (mk_sock SERVER_FD_OUTGOING_CONN SC_SOCK_NONE [] []));;
      a ← system;
      match a with
      | Took _ => conn_set_type SERVER_FD_WAIT_FIRST_RESP;; conn_established
      | Again =>
          rc ← conn_register false true;
          mret (if decide (rc = RS_OK) then RS_INPROGRESS else rc)
      | Failed => mret RS_ERROR
      end
  end.

Definition conn_on_out_connected : connM rs_rc :=
  cancel_timer;;
  a ← system;
  match a with
  | Took _ => conn_set_type SERVER_FD_WAIT_FIRST_RESP;; conn_established
  | _ => mret RS_ERROR
  end.

Fixpoint send_loop (fuel : nat) : connM rs_rc :=
  match fuel with
  | O => stuck
  | S fuel =>
      out ← gets c_out;
      let len := to_int (sc_buf_size out) in
      if len =? 0 then conn_clear_buf;; mret RS_OK else
      rc ← sc_sock_send (sc_buf_rbuf out) len;
      if rc <? 0 then
        e ← host_gets h_errno;
        match e with
        | EAGAIN =>
            rc ← conn_register false true;
            or_return rc (conn_clear_buf;; mret RS_OK)
        | _ => mret RS_ERROR
        end
      else
        modify (fun c => with_out c (sc_buf_mark_read (c_out c) (u32 rc)));;
        out ← gets c_out;
        if sc_buf_size out >? 0 then send_loop fuel else conn_clear_buf;; mret RS_OK
  end.

(** Each round of the loop sends a byte at least. *)
Definition conn_flush : connM rs_rc :=
  out ← gets c_out;
  if negb (sc_buf_valid out) then mret RS_ERROR
  else send_loop (S (Z.to_nat (sc_buf_size out))).

Definition conn_on_writable : connM rs_rc :=
  rc ← conn_unregister false true;
  or_return rc conn_flush.

Fixpoint readable_loop (fuel : nat) : connM rs_rc :=
  match fuel with
  | O => stuck
  | S fuel =>
      b ← gets c_in;
      let cap := to_int (sc_buf_quota b) in
      if cap =? 0 then
        let '(success, b') := sc_buf_reserve b (u32 (b_cap b * 2)) in
        modify (fun c => with_in c b');;
        if success then readable_loop fuel else mret RS_ERROR
      else
        r ← sc_sock_recv cap;
        let '(rc, bs) := r in
        if rc <=? 0 then
          e ← host_gets h_errno;
          mret (match e with EAGAIN => RS_OK | _ => RS_ERROR end)
        else
          modify (fun c => with_in c
            (sc_buf_mark_write (with_mem (c_in c) (mwrite (b_mem (c_in c)) (b_wpos (c_in c)) bs)) rc));;
          mret RS_OK
  end.

Definition conn_on_readable (fuel : nat) : connM rs_rc :=
  b ← gets c_in;
  (if b_cap b =? 0 then b ← server_buf_alloc; modify (fun c => with_in c b) else mret tt);;
  modify (fun c => with_in c (sc_buf_compact (c_in c)));;
  readable_loop fuel.

(** ** Invariant *)

(** A buffer of the cache. *)
Record fresh (b : sc_buf) : Prop := {
  fr_wf : buf_wf b;
  fr_rpos : b_rpos b = 0;
  fr_wpos : b_wpos b = 0;
  fr_err : b_err b = 0;
  fr_cap : 0 < b_cap b <= 32 * 1024
}.

Record conn_ok (s : conn * host) : Prop := {
  co_in : buf_wf (c_in (fst s));
  co_out : buf_wf (c_out (fst s));
  co_cache : Forall fresh (h_cache (snd s))
}.

(** The bytes of a connection stay where they are. *)
Record kept (s s' : conn * host) : Prop := {
  kp_ok : conn_ok s';
  kp_in : contents (c_in (fst s')) = contents (c_in (fst s));
  kp_out : contents (c_out (fst s')) = contents (c_out (fst s));
  kp_sent : k_sent (c_sock (fst s')) = k_sent (c_sock (fst s));
  kp_avail : k_avail (c_sock (fst s')) = k_avail (c_sock (fst s))
}.

#[export] Instance kept_preorder_trans : Transitive kept.
Proof. intros s1 s2 s3 [] []. split; [done | congruence..]. Qed.

Lemma kept_refl s : conn_ok s -> kept s s.
Proof. by split. Qed.

Lemma wf_no_buf : buf_wf no_buf.
Proof. by split. Qed.

Lemma contents_no_buf : contents no_buf = [].
Proof. done. Qed.

Lemma contents_nil b : buf_wf b -> sc_buf_size b = 0 -> contents b = [].
Proof.
  intros Hwf Hs. rewrite sc_buf_size_wf in Hs by done. unfold contents. by rewrite Hs, mread_nil.
Qed.

Lemma fresh_init : fresh (sc_buf_init 4096).
Proof. split; [by apply wf_init | done..]. Qed.

Lemma fresh_contents b : fresh b -> contents b = [].
Proof.
  intros []. apply contents_nil; [done |]. rewrite sc_buf_size_wf by done. lia.
Qed.

Lemma fresh_freed b :
  buf_wf b -> b_cap b <> 0 -> fresh (snd (sc_buf_shrink (sc_buf_clear b) (32 * 1024))).
Proof.
  intros Hwf Hc. assert (Hcl : buf_wf (sc_buf_clear b)) by (destruct Hwf; split; cbn; done || lia).
  pose proof (wf_shrink (sc_buf_clear b) (32 * 1024) ltac:(lia) ltac:(lia) Hcl) as Hsh.
  pose proof (wf_cap _ Hwf). revert Hsh. unfold sc_buf_shrink, sc_buf_compact, sc_buf_clear. cbn -[round_4096 mrealloc].
  destruct (_ || _) eqn:E; cbn -[round_4096 mrealloc]; intros Hw; split; cbn -[round_4096]; try done.
  - rewrite orb_true_iff in E. destruct E; zb; lia.
Qed.

Lemma server_buf_alloc_ok c h :
  Forall fresh (h_cache h) ->
  exists b h', server_buf_alloc (c, h) = Some (b, (c, h')) /\ fresh b /\ Forall fresh (h_cache h').
Proof.
  intros Hf. unfold server_buf_alloc, mbind, connM_bind, host_gets. cbn [snd].
  destruct (h_cache h) as [| b cache] eqn:E.
  - exists (sc_buf_init 4096), h. rewrite E. split; [done |]. split; [apply fresh_init | constructor].
  - apply Forall_cons in Hf as [Hb Hf]. by exists b, (with_cache h cache).
Qed.

Lemma server_buf_free_ok b c h :
  buf_wf b -> b_cap b <> 0 -> Forall fresh (h_cache h) ->
  exists h', server_buf_free b (c, h) = Some (tt, (c, h')) /\ Forall fresh (h_cache h').
Proof.
  intros Hwf Hc Hf. unfold server_buf_free, mbind, connM_bind, host_gets. cbn [snd].
  destruct (_ >=? _); [by exists h |]. eexists. split; [done |]. cbn [h_cache with_cache snd].
  constructor; [by apply fresh_freed | done].
Qed.

(** ** Events and buffers *)

Lemma land_lor_same a b : Z.land (Z.lor a b) b = b.
Proof.
  apply Z.bits_inj'. intros n _. rewrite Z.land_spec, Z.lor_spec.
  by destruct (Z.testbit a n), (Z.testbit b n).
Qed.

Lemma ldiff_disjoint a b : Z.land a b = 0 -> Z.ldiff a b = a.
Proof.
  intros H. apply Z.bits_inj'. intros n _. apply (f_equal (fun z => Z.testbit z n)) in H.
  rewrite Z.land_spec, Z.bits_0 in H. rewrite Z.ldiff_spec.
  by destruct (Z.testbit a n), (Z.testbit b n).
Qed.

Lemma conn_register_ok r w s :
  conn_ok s ->
  exists rc s', conn_register r w s = Some (rc, s') /\ kept s s' /\
    c_in (fst s') = c_in (fst s) /\ c_out (fst s') = c_out (fst s) /\
    (rc = RS_OK -> Z.land (k_op (c_sock (fst s'))) (events r w) = events r w).
Proof.
  destruct s as [c h]. intros Hok.
  unfold conn_register, sc_sock_poll_add, mbind, connM_bind, gets, system, modify, mret, connM_ret.
  cbn [fst snd]. destruct (Z.eqb_spec (Z.land (k_op (c_sock c)) (events r w)) (events r w)).
  { eexists _, _. split; [done |]. split; [by apply kept_refl | done]. }
  destruct (k_op (c_sock c) =? SC_SOCK_NONE); cbn [fst snd];
    repeat match goal with |- context [h_kernel ?h ?n] =>
      destruct (h_kernel h n); cbn [fst snd h_kernel h_calls]
    end; eexists _, _; (split; [done |]); destruct Hok as [Hin Hout Hca];
    (split; [by split |]); split_and!; try done;
    cbn [c_sock with_op with_sock k_op fst]; intros _; apply land_lor_same.
Qed.

Lemma conn_unregister_ok r w s :
  conn_ok s ->
  exists rc s', conn_unregister r w s = Some (rc, s') /\ kept s s' /\
    c_in (fst s') = c_in (fst s) /\ c_out (fst s') = c_out (fst s) /\
    k_op (c_sock (fst s')) = Z.ldiff (k_op (c_sock (fst s))) (events r w).
Proof.
  destruct s as [c h]. intros Hok.
  unfold conn_unregister, sc_sock_poll_del, mbind, connM_bind, gets, system, modify, mret, connM_ret.
  cbn [fst snd]. destruct (Z.eqb_spec (Z.land (k_op (c_sock c)) (events r w)) 0) as [Hz |].
  { eexists _, _. split; [done |]. split; [by apply kept_refl |].
    split; [done |]. split; [done |]. cbn [fst]. by rewrite ldiff_disjoint. }
  cbn [fst snd]. destruct (h_kernel h (h_calls h)); eexists _, _; (split; [done |]);
    destruct Hok as [Hin Hout Hca]; (split; [by split |]); by split_and!.
Qed.

(** A buffer that holds bytes is not given back. *)
Lemma clear_in_ok s :
  conn_ok s ->
  exists s', clear_one c_in with_in true s = Some (tt, s') /\ kept s s' /\
    c_sock (fst s') = c_sock (fst s) /\ c_out (fst s') = c_out (fst s).
Proof.
  destruct s as [c h]. intros Hok. pose proof Hok as [Hin Hout Hca].
  unfold clear_one, mbind, connM_bind, gets. cbn [fst negb orb].
  destruct (_ && _) eqn:Hc; [| exists (c, h); by split; [done | split; [apply kept_refl |]]].
  zb. destruct (server_buf_free_ok (c_in c) c h Hin) as (h' & Hf & Hca'); [done.. |].
  rewrite Hf. unfold modify. cbn [fst snd]. eexists. split; [done |].
  split; [| done]. split; [by split; [apply wf_no_buf | done..] | | done..].
  cbn [fst c_in with_in]. by rewrite (contents_nil (c_in c)).
Qed.

Lemma clear_out_ok s :
  conn_ok s ->
  exists s', clear_one c_out with_out true s = Some (tt, s') /\ kept s s' /\
    c_sock (fst s') = c_sock (fst s).
Proof.
  destruct s as [c h]. intros Hok. pose proof Hok as [Hin Hout Hca].
  unfold clear_one, mbind, connM_bind, gets. cbn [fst negb orb].
  destruct (_ && _) eqn:Hc; [| exists (c, h); by split; [done | split; [apply kept_refl |]]].
  zb. destruct (server_buf_free_ok (c_out c) c h Hout) as (h' & Hf & Hca'); [done.. |].
  rewrite Hf. unfold modify. cbn [fst snd]. eexists. split; [done |].
  split; [| done]. split; [by split; [done | apply wf_no_buf | done] | done | | done..].
  cbn [fst c_out with_out]. by rewrite (contents_nil (c_out c)).
Qed.

Lemma conn_clear_buf_ok s :
  conn_ok s ->
  exists s', conn_clear_buf s = Some (tt, s') /\ kept s s' /\ c_sock (fst s') = c_sock (fst s).
Proof.
  intros Hok. destruct (clear_in_ok s Hok) as (s1 & H1 & Hk1 & Hs1 & _).
  destruct (clear_out_ok s1 (kp_ok _ _ Hk1)) as (s2 & H2 & Hk2 & Hs2).
  exists s2. unfold conn_clear_buf, mbind, connM_bind. rewrite H1, H2.
  split; [done |]. split; [by transitivity s1 | congruence].
Qed.

Lemma conn_out_ok s :
  conn_ok s -> exists s', conn_out s = Some (tt, s') /\ kept s s'.
Proof.
  destruct s as [c h]. intros Hok. pose proof Hok as [Hin Hout Hca].
  unfold conn_out, mbind, connM_bind, gets. cbn [fst].
  destruct (Z.eqb_spec (b_cap (c_out c)) 0) as [Hz |];
    [| by exists (c, h); split; [| apply kept_refl]].
  destruct (server_buf_alloc_ok c h Hca) as (b & h' & -> & Hb & Hca').
  eexists. split; [done |]. cbn [fst snd with_out].
  split; [by split; [done | apply Hb | done] | done | | done..].
  cbn [fst c_out]. rewrite fresh_contents by done. symmetry.
  apply contents_nil; [done |]. rewrite sc_buf_size_wf by done.
  cbn [fst] in *. pose proof (wf_rpos _ Hout). pose proof (wf_wpos _ Hout). lia.
Qed.

(** ** Flushing *)

(** What was sent and what is still in the buffer, and likewise for input. *)
Definition stream_out (s : conn * host) : list byte :=
  k_sent (c_sock (fst s)) ++ contents (c_out (fst s)).
Definition stream_in (s : conn * host) : list byte :=
  contents (c_in (fst s)) ++ k_avail (c_sock (fst s)).

Lemma kept_streams s s' : kept s s' -> stream_out s' = stream_out s /\ stream_in s' = stream_in s.
Proof. intros []. unfold stream_out, stream_in. by split; f_equal. Qed.

(** A round of the loop moves the first bytes of the buffer to the socket. *)
Lemma sent_prefix b n :
  buf_wf b -> 0 <= n <= sc_buf_size b ->
  take (Z.to_nat n) (sc_buf_rbuf b) ++ contents (sc_buf_mark_read b (u32 n)) = contents b /\
  buf_wf (sc_buf_mark_read b (u32 n)) /\
  sc_buf_size (sc_buf_mark_read b (u32 n)) = sc_buf_size b - n.
Proof.
  intros Hwf Hn. pose proof Hwf as []. rewrite sc_buf_size_wf in * by done.
  unfold sc_buf_mark_read. rewrite (u32_small n), (u32_small (b_rpos b + n)) by lia.
  assert (Hw : buf_wf (with_rpos b (b_rpos b + n))) by (apply wf_with_rpos; [done | lia]).
  split; [| split; [done | rewrite !sc_buf_size_wf by done; cbn [b_wpos b_rpos with_rpos]; lia]].
  rewrite contents_advance by (done || lia).
  replace (take (Z.to_nat n) (sc_buf_rbuf b)) with (take (Z.to_nat n) (contents b)).
  - apply take_drop.
  - unfold contents, mread, sc_buf_rbuf. rewrite take_take. f_equal. lia.
Qed.

(** The outcome of a flush: it returns, what was sent and what is left is the same sequence of
    bytes, and after a success the rest, if any, waits for the socket to become writable. *)
Definition flushed (s : conn * host) (r : option (rs_rc * (conn * host))) : Prop :=
  exists rc s', r = Some (rc, s') /\ conn_ok s' /\
    stream_out s' = stream_out s /\ stream_in s' = stream_in s /\
    (rc = RS_OK -> contents (c_out (fst s')) = [] \/
       Z.land (k_op (c_sock (fst s'))) SC_SOCK_WRITE = SC_SOCK_WRITE).

Lemma flushed_end s :
  conn_ok s ->
  contents (c_out (fst s)) = [] \/ Z.land (k_op (c_sock (fst s))) SC_SOCK_WRITE = SC_SOCK_WRITE ->
  flushed s ((conn_clear_buf;; mret RS_OK) s).
Proof.
  intros Hok Hw. destruct (conn_clear_buf_ok s Hok) as (s1 & H1 & Hk & Hs).
  destruct (kept_streams _ _ Hk) as [Ho Hi]. exists RS_OK, s1.
  unfold mbind, connM_bind. rewrite H1. split_and!; try done; [apply Hk |].
  intros _. by rewrite (kp_out _ _ Hk), Hs.
Qed.

Lemma flushed_kept s s1 r : kept s s1 -> flushed s1 r -> flushed s r.
Proof.
  intros Hk (rc & s' & -> & Hok & Ho & Hi & Hw). destruct (kept_streams _ _ Hk) as [Hko Hki].
  exists rc, s'. split_and!; try done; congruence.
Qed.

(** The socket takes the first [n] bytes, or none. *)
Lemma sc_sock_send_cases s buf len :
  conn_ok s -> 0 < len ->
  (exists n s', sc_sock_send buf len s = Some (n, s') /\ 1 <= n <= len /\
     c_out (fst s') = c_out (fst s) /\ c_in (fst s') = c_in (fst s) /\ conn_ok s' /\
     k_sent (c_sock (fst s')) = k_sent (c_sock (fst s)) ++ take (Z.to_nat n) buf /\
     k_avail (c_sock (fst s')) = k_avail (c_sock (fst s))) \/
  (exists s', sc_sock_send buf len s = Some (-1, s') /\ kept s s').
Proof.
  destruct s as [c h]. intros [Hin Hout Hca] Hl.
  unfold sc_sock_send, mbind, connM_bind, system, modify, host_modify, mret, connM_ret. zif.
  cbn [fst snd]. destruct (h_kernel h (h_calls h)) as [n | |].
  - left. eexists _, _. split; [done |]. split; [lia |]. by split_and!.
  - right. eexists. split; [done |]. by split.
  - right. eexists. split; [done |]. by split.
Qed.

(** The branch for a socket that takes nothing. *)
Lemma flush_blocked s :
  conn_ok s ->
  flushed s ((e ← host_gets h_errno;
    match e with
    | EAGAIN => rc ← conn_register false true; or_return rc (conn_clear_buf;; mret RS_OK)
    | _ => mret RS_ERROR
    end) s).
Proof.
  intros Hok. unfold mbind at 1, connM_bind at 1, host_gets.
  assert (Herr : flushed s ((mret RS_ERROR : connM rs_rc) s)) by (by exists RS_ERROR, s).
  destruct (h_errno (snd s)); [| done | done].
  destruct (conn_register_ok false true s Hok) as (rc & s1 & H1 & Hk & Hi & Ho & Hev).
  unfold mbind at 1, connM_bind at 1. rewrite H1. apply (flushed_kept s s1); [done |].
  unfold or_return. case_decide as Hrc.
  - apply flushed_end; [apply Hk |]. right. by apply Hev.
  - exists rc, s1. split_and!; try done. apply Hk.
Qed.

Lemma flush_loop_ok fuel s :
  conn_ok s -> (Z.to_nat (sc_buf_size (c_out (fst s))) < fuel)%nat ->
  flushed s (send_loop fuel s).
Proof.
  revert s. induction fuel as [| fuel IH]; intros s Hok Hf; [lia |].
  cbn [send_loop]. unfold mbind at 1, connM_bind at 1, gets at 1.
  pose proof (co_out _ Hok) as Hout. set (len := to_int _).
  destruct (Z.eqb_spec len 0) as [Hz | Hnz].
  { apply flushed_end; [done |]. left. apply contents_nil; [done |]. unfold len, to_int in Hz.
    pose proof (u32_range (b_wpos (c_out (fst s)) - b_rpos (c_out (fst s)))). unfold sc_buf_size in *.
    destruct (_ <? _) eqn:?; zb; lia. }
  destruct (Z.lt_ge_cases len 0) as [Hneg | Hpos].
  { unfold mbind at 1, connM_bind at 1, sc_sock_send. zif. unfold mret at 1, connM_ret at 1. zif.
    by apply flush_blocked. }
  assert (Hlen : 0 < len <= sc_buf_size (c_out (fst s))).
  { unfold len, to_int in *. destruct (_ <? _) eqn:?; zb; [lia |].
    unfold sc_buf_size in *. pose proof (u32_range (b_wpos (c_out (fst s)) - b_rpos (c_out (fst s)))). lia. }
  unfold mbind at 1, connM_bind at 1.
  destruct (sc_sock_send_cases s (sc_buf_rbuf (c_out (fst s))) len Hok ltac:(lia))
    as [(n & s1 & -> & Hn & Ho1 & Hi1 & Hok1 & Hse & Hav) | (s1 & -> & Hk)]; zif.
  2: { apply (flushed_kept s s1); [done |]. apply flush_blocked. apply Hk. }
  destruct (sent_prefix (c_out (fst s)) n Hout ltac:(lia)) as (Hp & Hw & Hsz).
  unfold mbind, connM_bind, modify, gets. cbn [fst snd]. rewrite Ho1.
  set (s2 := (with_out (fst s1) _, snd s1)).
  assert (Hok2 : conn_ok s2) by (split; [apply Hok1 | done | apply Hok1]).
  assert (Hso : stream_out s2 = stream_out s).
  { unfold stream_out. cbn [s2 fst c_sock c_out with_out]. rewrite Hse, <- app_assoc. by f_equal. }
  assert (Hsi : stream_in s2 = stream_in s).
  { unfold stream_in. cbn [s2 fst c_sock c_in with_out]. by rewrite Hi1, Hav. }
  enough (Hr : flushed s2 (if sc_buf_size (sc_buf_mark_read (c_out (fst s)) (u32 n)) >? 0
     then send_loop fuel s2 else (conn_clear_buf;; mret RS_OK) s2)).
  { destruct Hr as (rc & s' & He & Hok' & H1 & H2 & H3). exists rc, s'.
    split; [by destruct (_ >? _) |]. split_and!; try done; congruence. }
  destruct (_ >? _) eqn:Hgt; zb.
  - apply IH; [done |]. cbn [s2 fst c_out with_out]. lia.
  - apply flushed_end; [done |]. left. cbn [s2 fst c_out with_out].
    apply contents_nil; [done |]. lia.
Qed.

Lemma conn_flush_ok s : conn_ok s -> flushed s (conn_flush s).
Proof.
  intros Hok. unfold conn_flush, mbind, connM_bind, gets. destruct (sc_buf_valid _); cbn [negb].
  - apply flush_loop_ok; [done | lia].
  - by exists RS_ERROR, s.
Qed.

Lemma conn_on_writable_ok s : conn_ok s -> flushed s (conn_on_writable s).
Proof.
  intros Hok. destruct (conn_unregister_ok false true s Hok) as (rc & s1 & H1 & Hk & _).
  unfold conn_on_writable, mbind, connM_bind. rewrite H1. apply (flushed_kept s s1); [done |].
  unfold or_return. case_decide; [apply conn_flush_ok, Hk |].
  exists rc, s1. split_and!; try done. apply Hk.
Qed.

(** ** Reading *)

(** A full buffer grows to three times its size while that fits 32 bits. *)
Lemma reserve_full b :
  buf_wf b -> b_wpos b = b_cap b -> 0 < b_cap b -> 3 * b_cap b + 4095 < 2 ^ 32 ->
  exists ok b', sc_buf_reserve b (u32 (b_cap b * 2)) = (ok, b') /\ buf_wf b' /\
    contents b' = contents b /\ (ok = true -> 0 < sc_buf_quota b').
Proof.
  intros Hwf Hfull Hc Hb. pose proof Hwf as []. unfold sc_buf_reserve.
  rewrite (u32_small (b_cap b * 2)), (u32_small (b_wpos b + _)) by lia.
  rewrite if_true by (rewrite Z.gtb_ltb; apply Z.ltb_lt; lia).
  assert (Hfail : exists ok b', (false, or_err b SC_BUF_OOM) = (ok, b') /\ buf_wf b' /\
    contents b' = contents b /\ (ok = true -> 0 < sc_buf_quota b')).
  { eexists _, _. split; [done |]. split; [apply wf_or_err; unfold SC_BUF_OOM; done || lia |]. done. }
  destruct (b_ref b); [done |]. destruct (_ || _); [done |].
  destruct (round_4096_spec (b_cap b + b_cap b * 2)) as [Hlo Hhi]; [lia.. |].
  set (b' := mk_buf _ _ _ _ _ _ _).
  assert (Hwf' : buf_wf b') by (split; cbn [b' b_mem b_cap b_limit b_rpos b_wpos b_err];
    rewrite ?length_mrealloc; done || lia).
  eexists _, b'. split; [done |]. split; [done |]. split.
  - rewrite !contents_written by done. unfold written. cbn [b' b_mem b_wpos b_rpos].
    by rewrite mread_mrealloc by lia.
  - intros _. rewrite sc_buf_quota_wf by done. cbn [b' b_cap b_wpos]. lia.
Qed.

(** Reading appends what was available. *)
Definition readied (s : conn * host) (r : option (rs_rc * (conn * host))) : Prop :=
  exists rc s', r = Some (rc, s') /\ conn_ok s' /\
    stream_out s' = stream_out s /\ stream_in s' = stream_in s.

Lemma contents_mark_write b bs :
  buf_wf b -> 0 < zlen bs <= sc_buf_quota b ->
  let b' := sc_buf_mark_write (with_mem b (mwrite (b_mem b) (b_wpos b) bs)) (zlen bs) in
  buf_wf b' /\ contents b' = contents b ++ bs.
Proof.
  intros Hwf Hl. rewrite sc_buf_quota_wf in Hl by done. pose proof Hwf as [].
  unfold sc_buf_mark_write. cbn [b_wpos with_mem]. rewrite u32_small by lia.
  pose proof (written_mwrite b bs Hwf ltac:(lia)) as Ha. split; [apply Ha |].
  by apply appended_contents.
Qed.

(** The socket gives the first [n] bytes that arrived, or none. *)
Lemma sc_sock_recv_cases s len :
  conn_ok s ->
  (exists n s', sc_sock_recv len s = Some ((n, take (Z.to_nat n) (k_avail (c_sock (fst s)))), s') /\
     1 <= n <= len /\ n <= zlen (k_avail (c_sock (fst s))) /\
     c_out (fst s') = c_out (fst s) /\ c_in (fst s') = c_in (fst s) /\ conn_ok s' /\
     k_sent (c_sock (fst s')) = k_sent (c_sock (fst s)) /\
     k_avail (c_sock (fst s')) = drop (Z.to_nat n) (k_avail (c_sock (fst s)))) \/
  (exists rc s', sc_sock_recv len s = Some ((rc, []), s') /\ rc <= 0 /\ kept s s').
Proof.
  destruct s as [c h]. intros Hok. unfold sc_sock_recv.
  destruct (Z.leb_spec len 0) as [Hneg | Hpos].
  { right. exists len, (c, h). split; [done |]. split; [done |]. by apply kept_refl. }
  pose proof Hok as [Hin Hout Hca]. pose proof (zlen_nonneg (k_avail (c_sock c))).
  unfold mbind, connM_bind, system, gets, host_modify, modify, mret, connM_ret.
  cbn [fst snd]. destruct (h_kernel h (h_calls h)) as [n | |]; cbn [fst snd].
  2, 3: right; eexists _, _; split; [done |]; split; [lia | by split].
  set (k := Z.min _ _). destruct (Z.eqb_spec k 0) as [Hz | Hnz]; cbn [fst snd].
  - right. eexists _, _. split; [done |]. split; [lia | by split].
  - left. eexists k, _. split; [done |]. split; [lia |]. split; [lia |]. by split_and!.
Qed.

Lemma readable_loop_recv s fuel :
  conn_ok s -> to_int (sc_buf_quota (c_in (fst s))) <> 0 ->
  readied s (readable_loop (S fuel) s).
Proof.
  intros Hok Hq. pose proof (co_in _ Hok) as Hin.
  cbn [readable_loop]. unfold mbind at 1, connM_bind at 1, gets at 1. zif.
  set (cap := to_int _) in *. unfold mbind at 1, connM_bind at 1.
  destruct (sc_sock_recv_cases s cap Hok)
    as [(n & s1 & -> & Hn & Hav & Ho1 & Hi1 & Hok1 & Hse & Hre) | (rc & s1 & -> & Hrc & Hk)].
  2: { zif. eexists _, s1. split; [done |]. split; [apply Hk | by apply kept_streams]. }
  zif. set (bs := take (Z.to_nat n) (k_avail (c_sock (fst s)))).
  assert (Hbs : zlen bs = n) by (unfold bs, zlen in *; rewrite length_take; lia).
  assert (Hcap : cap <= sc_buf_quota (c_in (fst s))).
  { unfold cap, to_int. destruct (_ <? _); [lia |].
    pose proof (u32_range (b_cap (c_in (fst s)) - b_wpos (c_in (fst s)))). unfold sc_buf_quota. lia. }
  destruct (contents_mark_write (c_in (fst s)) bs Hin ltac:(lia)) as [Hwf Hct]. rewrite Hbs in Hwf, Hct.
  unfold mbind, connM_bind, modify. rewrite Hi1.
  eexists _, _. split; [done |]. split; [split; [done | apply Hok1..] |]. split.
  - unfold stream_out. cbn [fst c_out c_sock with_in]. by rewrite Ho1, Hse.
  - unfold stream_in. cbn [fst c_in c_sock with_in]. rewrite Hct, Hre, <- app_assoc. f_equal.
    apply take_drop.
Qed.

Lemma to_int_zero z : is_u32 z -> to_int z = 0 -> z = 0.
Proof. intros Hz. unfold to_int. destruct (_ <? _) eqn:?; zb; lia. Qed.

(** A buffer for the input, from the cache when there is none. *)
Lemma readable_alloc s :
  conn_ok s -> 3 * b_cap (c_in (fst s)) + 4095 < 2 ^ 32 ->
  exists s', (b ← gets c_in;
      (if b_cap b =? 0 then b ← server_buf_alloc; modify (fun c => with_in c b) else mret tt)) s
      = Some (tt, s') /\ kept s s' /\
      0 < b_cap (c_in (fst s')) /\ 3 * b_cap (c_in (fst s')) + 4095 < 2 ^ 32.
Proof.
  destruct s as [c h]. intros Hok Hb. pose proof Hok as [Hin Hout Hca]. cbn [fst] in *.
  unfold mbind, connM_bind, gets. cbn [fst]. destruct (Z.eqb_spec (b_cap (c_in c)) 0) as [Hz | Hnz].
  - destruct (server_buf_alloc_ok c h Hca) as (b & h' & -> & Hf & Hc').
    pose proof (fr_cap _ Hf). eexists. split; [done |]. cbn [fst c_in with_in snd].
    split; [| lia]. split; [split; [apply Hf | done..] | | done..].
    cbn [fst c_in with_in]. rewrite fresh_contents by done. symmetry. apply contents_nil; [done |].
    rewrite sc_buf_size_wf by done. destruct Hin. lia.
  - exists (c, h). pose proof (wf_cap _ Hin). split; [done |]. cbn [fst].
    split; [by apply kept_refl | lia].
Qed.

Lemma readied_kept s s1 r : kept s s1 -> readied s1 r -> readied s r.
Proof.
  intros Hk (rc & s' & -> & Hok & Ho & Hi). destruct (kept_streams _ _ Hk) as [Hko Hki].
  exists rc, s'. split_and!; try done; congruence.
Qed.

(** One round grows a full buffer, the next one reads. *)
Lemma readable_loop_ok s fuel :
  conn_ok s -> 0 < b_cap (c_in (fst s)) -> 3 * b_cap (c_in (fst s)) + 4095 < 2 ^ 32 ->
  readied s (readable_loop (S (S fuel)) s).
Proof.
  intros Hok Hc Hb. pose proof (co_in _ Hok) as Hin.
  destruct (decide (to_int (sc_buf_quota (c_in (fst s))) = 0)) as [Hz | Hnz];
    [| by apply readable_loop_recv].
  assert (Hq : sc_buf_quota (c_in (fst s)) = 0) by (by apply to_int_zero; [apply u32_range |]).
  rewrite sc_buf_quota_wf in Hq by done.
  destruct (reserve_full (c_in (fst s)) Hin) as (ok & b' & Hres & Hwf' & Hct & Hroom); [lia.. |].
  remember (S fuel) as fuel' eqn:Hf'. cbn [readable_loop].
  unfold mbind at 1, connM_bind at 1, gets at 1. rewrite Hz, Z.eqb_refl, Hres.
  unfold mbind, connM_bind, modify. set (s1 := (with_in (fst s) b', snd s)).
  assert (Hk : kept s s1) by (split; [split; [done | apply Hok..] | done..]).
  apply (readied_kept s s1); [done |].
  destruct ok; [| eexists _, s1; split; [done |]; split; [apply Hk | done]].
  subst fuel'. apply readable_loop_recv; [apply Hk |]. cbn [s1 fst c_in with_in]. intros Hz'.
  apply to_int_zero in Hz'; [| apply u32_range]. specialize (Hroom eq_refl). lia.
Qed.

Lemma conn_on_readable_ok s fuel :
  conn_ok s -> 3 * b_cap (c_in (fst s)) + 4095 < 2 ^ 32 ->
  readied s (conn_on_readable (S (S fuel)) s).
Proof.
  intros Hok Hb. destruct (readable_alloc s Hok Hb) as (s1 & H1 & Hk1 & Hc1 & Hb1).
  pose proof (kp_ok _ _ Hk1) as [Hin Hout Hca].
  set (s2 := (with_in (fst s1) (sc_buf_compact (c_in (fst s1))), snd s1)).
  assert (Hk2 : kept s1 s2) by (split; [split; [by apply wf_compact | done..] |
    by apply sc_buf_compact_contents | done..]).
  assert (Hcap : b_cap (c_in (fst s2)) = b_cap (c_in (fst s1))) by
    (cbn [s2 fst c_in with_in]; unfold sc_buf_compact; by repeat case_if).
  replace (conn_on_readable (S (S fuel)) s) with (readable_loop (S (S fuel)) s2).
  2: { unfold conn_on_readable. unfold mbind, connM_bind in H1 |- *. unfold gets in H1 |- *.
       destruct (b_cap (c_in (fst s)) =? 0); [| injection H1 as <-; done].
       destruct (server_buf_alloc s) as [[b s0] |]; [| done]. unfold modify in *. by injection H1 as <-. }
  apply (readied_kept s s1), (readied_kept s1 s2); [done.. |].
  apply readable_loop_ok; [apply Hk2 | lia..].
Qed.

(** When twice the capacity added to a full buffer wraps below the capacity, the buffer is not
    grown, although [sc_buf_reserve] reports success, and the loop never ends. *)
Lemma readable_spins s fuel :
  let b := c_in (fst s) in
  buf_wf b -> b_wpos b = b_cap b -> 0 < b_cap b ->
  u32 (b_cap b + u32 (b_cap b * 2)) <= b_cap b -> readable_loop fuel s = None.
Proof.
  intros b Hwf Hfull Hc Hw. induction fuel as [| fuel IH]; [done |]. cbn [readable_loop].
  unfold mbind at 1, connM_bind at 1, gets at 1. fold b.
  rewrite sc_buf_quota_wf, Hfull, Z.sub_diag by done. change (to_int 0 =? 0) with true. cbv iota.
  unfold sc_buf_reserve. rewrite Hfull, if_false by (rewrite Z.gtb_ltb; apply Z.ltb_ge; lia).
  unfold mbind, connM_bind, modify. rewrite <- IH. f_equal. destruct s as [[] h]. done.
Qed.

(** A buffer of 8192 bytes from the cache that grew eleven times. *)
Lemma readable_spins_at : u32 (8192 * 3 ^ 11 + u32 (8192 * 3 ^ 11 * 2)) <= 8192 * 3 ^ 11 < MSG_MAX_SIZE.
Proof. by vm_compute. Qed.

(** ** Two connections *)

(** [l_put] and [l_got] are the messages that were put into the output buffer of one side and
    those that were parsed on the other side. *)
Record link := mk_link {
  l_a : conn * host;
  l_b : conn * host;
  l_put : list msg;
  l_got : list msg
}.

Definition on_sock (s : conn * host) (f : sc_sock -> sc_sock) : conn * host :=
  (with_sock (fst s) (f (c_sock (fst s))), snd s).

(** What either side and the network do: write a message, flush, be told that the socket is
    writable, carry bytes, read, parse and give back empty buffers.  A call may fail, and the
    kernel may answer anything. *)
Inductive link_step : link -> link -> Prop :=
| ls_put l a m ok out :
    conn_out (l_a l) = Some (tt, a) -> creatable m -> msg_ok m ->
    no_wrap (c_out (fst a)) (frame_len m) -> msg_create (c_out (fst a)) m = (ok, out) ->
    link_step l (mk_link (with_out (fst a) out, snd a) (l_b l)
      (if ok then l_put l ++ [m] else l_put l) (l_got l))
| ls_flush l rc a :
    conn_flush (l_a l) = Some (rc, a) -> link_step l (mk_link a (l_b l) (l_put l) (l_got l))
| ls_writable l rc a :
    conn_on_writable (l_a l) = Some (rc, a) -> link_step l (mk_link a (l_b l) (l_put l) (l_got l))
| ls_carry l bs rest :
    k_sent (c_sock (fst (l_a l))) = bs ++ rest ->
    link_step l (mk_link
      (on_sock (l_a l) (fun k => mk_sock (k_type k) (k_op k) rest (k_avail k)))
      (on_sock (l_b l) (fun k => mk_sock (k_type k) (k_op k) (k_sent k) (k_avail k ++ bs)))
      (l_put l) (l_got l))
| ls_read l rc b fuel :
    3 * b_cap (c_in (fst (l_b l))) + 4095 < 2 ^ 32 ->
    conn_on_readable (S (S fuel)) (l_b l) = Some (rc, b) ->
    link_step l (mk_link (l_a l) b (l_put l) (l_got l))
| ls_parse l m b :
    msg_parse (c_in (fst (l_b l))) = ((RS_OK, Some m), b) ->
    link_step l (mk_link (l_a l) (with_in (fst (l_b l)) b, snd (l_b l)) (l_put l) (l_got l ++ [m]))
| ls_clear l b :
    conn_clear_buf (l_b l) = Some (tt, b) ->
    link_step l (mk_link (l_a l) b (l_put l) (l_got l)).

(** The bytes under way are those of the messages that were put and not yet parsed. *)
Record link_ok (l : link) : Prop := {
  lk_a : conn_ok (l_a l);
  lk_b : conn_ok (l_b l);
  lk_put : Forall msg_ok (l_put l);
  lk_bytes : exists rest, l_put l = l_got l ++ rest /\
    stream_in (l_b l) ++ stream_out (l_a l) = concat (map enc_msg rest)
}.

Lemma put_preserves a m ok out :
  conn_ok a -> creatable m -> msg_ok m -> no_wrap (c_out (fst a)) (frame_len m) ->
  msg_create (c_out (fst a)) m = (ok, out) ->
  conn_ok (with_out (fst a) out, snd a) /\
  contents out = contents (c_out (fst a)) ++ (if ok then enc_msg m else []).
Proof.
  intros [Hin Hout Hca] Hc Hm Hw He. rewrite (msg_create_eq _ m Hc Hm) in He.
  pose proof (put_msg_outcome _ m Hout Hw) as Ho.
  destruct (msg_end_outcome _ _ _ Hout Ho) as [(_ & Hq & Ha) | (_ & b2 & Hq & Hwf & _ & Hct)];
    rewrite Hq in He; injection He as <- <-.
  - split; [split; [done | apply Ha | done] |]. by apply appended_contents.
  - split; [by split |]. by rewrite app_nil_r.
Qed.

(** Two ways to cut a sequence. *)
Lemma app_cut {A} (xs ys us vs : list A) :
  xs ++ ys = us ++ vs ->
  (exists r, xs = us ++ r /\ vs = r ++ ys) \/ (exists r, us = xs ++ r /\ r <> [] /\ ys = r ++ vs).
Proof.
  revert us. induction xs as [| x xs IH]; intros us H.
  - destruct us as [| u us]; [by left; exists [] | right; by exists (u :: us)].
  - destruct us as [| u us]; [left; by exists (x :: xs) |]. injection H as -> H.
    destruct (IH us H) as [(r & -> & ->) | (r & -> & Hr & ->)]; [left | right]; by exists r.
Qed.

(** Parsing gives the next message or waits for more bytes. *)
Lemma parse_next l rest :
  link_ok l -> l_put l = l_got l ++ rest ->
  stream_in (l_b l) ++ stream_out (l_a l) = concat (map enc_msg rest) ->
  (exists m rest' b, rest = m :: rest' /\ msg_parse (c_in (fst (l_b l))) = ((RS_OK, Some m), b) /\
     buf_wf b /\ contents (c_in (fst (l_b l))) = enc_msg m ++ contents b) \/
  msg_parse (c_in (fst (l_b l))) = ((RS_PARTIAL, None), c_in (fst (l_b l))).
Proof.
  intros [Ha Hb Hput _] Hp Hs. pose proof (co_in _ Hb) as Hin.
  unfold stream_in in Hs. rewrite <- app_assoc in Hs.
  destruct rest as [| m rest].
  - right. apply app_eq_nil in Hs as [Hc _]. unfold msg_parse, MSG_SIZE_LEN.
    pose proof (zlen_contents _ Hin) as Hl. rewrite Hc in Hl. change (zlen (@nil byte)) with 0 in Hl.
    rewrite sc_buf_size_wf by done. by zif.
  - cbn [map concat] in Hs. rewrite Hp in Hput. apply Forall_app in Hput as [_ Hput].
    apply Forall_cons in Hput as [Hm _]. apply app_cut in Hs as [(r & Hc & _) | (r & Hc & Hr & _)].
    + left. destruct (msg_parse_complete m _ r Hin Hm Hc) as (b & Hpa & Hco).
      exists m, rest, b. split_and!; try done; [apply Hco |]. by rewrite (c_rest _ _ _ _ Hco).
    + right. by apply (msg_parse_partial m _ (contents (c_in (fst (l_b l)))) r).
Qed.

Lemma link_step_ok l l' : link_step l l' -> link_ok l -> link_ok l'.
Proof.
  intros Hs Hok. pose proof Hok as [Ha Hb Hput (rest & Hp & Hby)].
  destruct Hs as [l a m ok out Ho Hc Hm Hw He | l rc a He | l rc a He | l bs rest' He
    | l rc b fuel Hcap He | l m b He | l b He].
  - destruct (conn_out_ok _ Ha) as (a' & Ho' & Hk). rewrite Ho in Ho'. injection Ho' as <-.
    destruct (put_preserves a m ok out (kp_ok _ _ Hk) Hc Hm Hw He) as [Hok' Hct].
    destruct (kept_streams _ _ Hk) as [Hso _]. split; cbn [l_a l_b l_put l_got]; [done | done | |].
    { destruct ok; [| done]. apply Forall_app. by split; [| constructor]. }
    exists (rest ++ if ok then [m] else []). split.
    { destruct ok; rewrite ?app_nil_r, ?app_assoc; [by rewrite Hp | done]. }
    rewrite map_app, concat_app, <- Hby, <- Hso, <- app_assoc. f_equal. unfold stream_out.
    cbn [fst c_sock c_out with_out]. rewrite Hct, <- app_assoc. do 2 f_equal.
    destruct ok; [cbn [map concat]; by rewrite app_nil_r | done].
  - destruct (conn_flush_ok _ Ha) as (rc' & a' & He' & Ha' & Ho & _ & _). rewrite He in He'.
    injection He' as <- <-. split; [done.. |]. exists rest. cbn [l_a l_b l_put l_got]. by rewrite Ho.
  - destruct (conn_on_writable_ok _ Ha) as (rc' & a' & He' & Ha' & Ho & _ & _). rewrite He in He'.
    injection He' as <- <-. split; [done.. |]. exists rest. cbn [l_a l_b l_put l_got]. by rewrite Ho.
  - split; cbn [l_a l_b l_put l_got]; [by destruct Ha | by destruct Hb | done |]. exists rest.
    split; [done |]. rewrite <- Hby. unfold stream_in, stream_out, on_sock.
    cbn [fst c_sock c_in c_out with_sock k_sent k_avail]. rewrite He. by rewrite <- !app_assoc.
  - destruct (conn_on_readable_ok _ fuel Hb Hcap) as (rc' & b' & He' & Hb' & _ & Hi).
    rewrite He in He'. injection He' as <- <-. split; [done.. |]. exists rest.
    cbn [l_a l_b l_put l_got]. by rewrite Hi.
  - destruct (parse_next l rest Hok Hp Hby) as [(m' & rest' & b' & -> & He' & Hwf & Hct) | He'];
      rewrite He in He'; [| done]. injection He' as <- <-.
    split; cbn [l_a l_b l_put l_got]; [done | by destruct Hb; split | done |]. exists rest'.
    rewrite <- app_assoc. split; [done |]. cbn [map concat] in Hby. unfold stream_in in *.
    cbn [fst c_in c_sock with_in]. rewrite Hct, <- !app_assoc in Hby. apply app_inv_head in Hby.
    by rewrite <- app_assoc.
  - destruct (conn_clear_buf_ok _ Hb) as (b' & He' & Hk & _). rewrite He in He'. injection He' as <-.
    destruct (kept_streams _ _ Hk) as [_ Hi]. split; [done | apply Hk | done |]. exists rest.
    cbn [l_a l_b l_put l_got]. by rewrite Hi.
Qed.

(** Two connections before the first message. *)
Definition link_start (l : link) : Prop :=
  conn_ok (l_a l) /\ conn_ok (l_b l) /\ l_put l = [] /\ l_got l = [] /\
  stream_out (l_a l) = [] /\ stream_in (l_b l) = [].

(** C5: A connection is a reliable queue of messages.  In every run, whatever part of the bytes
    the sockets take and give at a time and whichever calls fail, the messages parsed on one side
    are the first of those put on the other side, unchanged and in order; parsing never finds a
    corrupt message; once nothing is under way and parsing waits, all have arrived; and a flush
    returns, and when it succeeds either everything was sent or the connection waits to become
    writable. *)
Theorem conn_delivers l0 l :
  link_start l0 -> rtc link_step l0 l ->
  (exists rest, l_put l = l_got l ++ rest /\
    match fst (msg_parse (c_in (fst (l_b l)))) with
    | (RS_OK, m) => m = head rest
    | (RS_PARTIAL, None) =>
        stream_out (l_a l) = [] -> k_avail (c_sock (fst (l_b l))) = [] -> rest = []
    | _ => False
    end) /\
  (exists rc a, conn_flush (l_a l) = Some (rc, a) /\
    (rc = RS_OK -> contents (c_out (fst a)) = [] \/
       Z.land (k_op (c_sock (fst a))) SC_SOCK_WRITE = SC_SOCK_WRITE)).
Proof.
  intros (Ha0 & Hb0 & Hp0 & Hg0 & Ho0 & Hi0) Hrun.
  assert (Hok : link_ok l).
  { assert (H0 : link_ok l0) by (split; rewrite ?Hp0; try done; exists []; by rewrite Hg0, Ho0, Hi0).
    clear -Hrun H0. induction Hrun; eauto using link_step_ok. }
  split.
  - pose proof Hok as [Ha Hb Hput (rest & Hp & Hby)]. exists rest. split; [done |].
    destruct (parse_next l rest Hok Hp Hby) as [(m & rest' & b & -> & -> & _ & _) | Hpa]; [done |].
    rewrite Hpa. cbn [fst]. intros Hout Hav. destruct rest as [| m rest]; [done |].
    rewrite Hp in Hput. apply Forall_app in Hput as [_ [Hm _]%Forall_cons].
    unfold stream_in in Hby. rewrite Hout, Hav, !app_nil_r in Hby. cbn [map concat] in Hby.
    destruct (msg_parse_complete m _ _ (co_in _ Hb) Hm Hby) as (b & Hpc & _). by rewrite Hpa in Hpc.
  - destruct (conn_flush_ok _ (lk_a _ Hok)) as (rc & a & He & _ & _ & _ & Hw). by exists rc, a.
Qed.

(** Two sides whose kernels pass at most four bytes at a time, with small buffers. *)
Definition small_host : host := mk_host (fun _ => Took 4) 0 EOTHER [] (sc_timer_init 0).
Definition small_link : link :=
  mk_link (with_out (conn_init 1) (sc_buf_init 16), small_host)
    (with_in (conn_init 2) (sc_buf_init 16), small_host) [] [].

Lemma conn_delivers_witness :
  exists l, rtc link_step small_link l /\ l_put l = [shutdown_req true] /\
    (exists rest, l_put l = l_got l ++ rest) /\
    fst (msg_parse (c_in (fst (l_b l)))) = (RS_OK, Some (shutdown_req true)).
Proof.
  assert (Hrun : exists l, rtc link_step small_link l /\ l_put l = [shutdown_req true] /\
    fst (msg_parse (c_in (fst (l_b l)))) = (RS_OK, Some (shutdown_req true))).
  { eexists. split.
    - eapply rtc_l; [eapply (ls_put small_link (_, _) (shutdown_req true));
        [vm_compute; reflexivity | done | | | vm_compute; reflexivity] |].
      { apply (bool_decide_unpack _). vm_compute. exact I. }
      { left. vm_compute. discriminate. }
      eapply rtc_l; [eapply ls_flush; vm_compute; reflexivity |].
      eapply rtc_l; [eapply (ls_carry _ _ []); rewrite app_nil_r; reflexivity |].
      eapply rtc_l; [eapply (ls_read _ _ (_, _) 0); vm_compute; reflexivity |].
      eapply rtc_l; [eapply (ls_read _ _ (_, _) 0); vm_compute; reflexivity |].
      apply rtc_refl.
    - split; [reflexivity | vm_compute; reflexivity]. }
  destruct Hrun as (l & Hrun & Hput & Hp). exists l. split; [done |]. split; [done |].
  split; [| done]. destruct (conn_delivers small_link l) as [(rest & Hrest & _) _]; [| done | by exists rest].
  split_and!; try done; split; (apply wf_no_buf || by apply wf_init || constructor).
Defined.

(** A connection that was told not to watch for input while output was left is not registered
    for anything once the output is drained. *)
Lemma drained_client_deaf :
  exists s', conn_on_writable
      (with_op (with_out (conn_init 1) (sc_buf_put_8 (sc_buf_init 16) 7)) SC_SOCK_WRITE, small_host)
    = Some (RS_OK, s') /\ contents (c_out (fst s')) = [] /\ k_op (c_sock (fst s')) = SC_SOCK_NONE.
Proof. eexists. split; [vm_compute; reflexivity |]. by vm_compute. Qed.
