(* ===== verification/Wire.v ===== *)
(** * What a request means (src/state.c)

    [Exec] reads a request byte by byte and writes the response as it goes.  Here a request
    is a list of operations and a response a list of replies; the run of a request on the
    database is defined on these directly, without buffers, and the state machine is shown
    to do the same on their encodings. *)

From Stdlib Require Import ZArith Lia.
From Stdlib Require Import Strings.Byte.
From stdpp Require Import base list numbers gmap strings.
From S2P Require Import Prelude Str Buf Msg Meta Sql Session Exec.

(** ** Requests *)

(** How a parameter is named, and its value. *)
Inductive locator := ByName (name : option (list byte)) | ByIndex (index : Z).
Inductive datum := DInteger (v : Z) | DFloat (bits : Z) | DText (s : option (list byte)) | DBlob (b : list byte) | DNull.

Inductive op :=
| OStmt (sql : option (list byte)) (binds : list (locator * datum))
| OStmtId (id : Z) (binds : list (locator * datum))
| OPrepare (sql : option (list byte))
| ODelPrepared (id : Z).

Definition enc_flag (f : Z) : list byte := le_split 1 f.

Definition enc_locator (l : locator) : list byte :=
  match l with
  | ByName name => enc_flag MSG_BIND_NAME ++ enc_str name
  | ByIndex i => enc_flag MSG_BIND_INDEX ++ le_split 4 i
  end.

Definition enc_datum (d : datum) : list byte :=
  match d with
  | DInteger v => enc_flag MSG_PARAM_INTEGER ++ le_split 8 v
  | DFloat bits => enc_flag MSG_PARAM_FLOAT ++ le_split 8 bits
  | DText s => enc_flag MSG_PARAM_TEXT ++ enc_str s
  | DBlob b => enc_flag MSG_PARAM_BLOB ++ le_split 4 (zlen b) ++ b
  | DNull => enc_flag MSG_PARAM_NULL
  end.

Definition enc_bind (b : locator * datum) : list byte := enc_locator b.1 ++ enc_datum b.2.
Definition enc_binds (bs : list (locator * datum)) : list byte := concat (map enc_bind bs) ++ enc_flag MSG_BIND_END.

Definition enc_op (o : op) : list byte :=
  enc_flag MSG_FLAG_OP ++
  match o with
  | OStmt sql binds => enc_flag MSG_FLAG_STMT ++ enc_str sql ++ enc_binds binds
  | OStmtId id binds => enc_flag MSG_FLAG_STMT_ID ++ le_split 8 id ++ enc_binds binds
  | OPrepare sql => enc_flag MSG_FLAG_STMT_PREPARE ++ enc_str sql
  | ODelPrepared id => enc_flag MSG_FLAG_STMT_DEL_PREPARED ++ le_split 8 id
  end ++ enc_flag MSG_FLAG_OP_END.

Definition enc_request (ops : list op) : list byte := concat (map enc_op ops) ++ enc_flag MSG_FLAG_MSG_END.

(** What the wire can carry. *)
Definition locator_ok (l : locator) : Prop :=
  match l with ByName name => str_ok name | ByIndex i => is_u32 i end.
Definition datum_ok (d : datum) : Prop :=
  match d with
  | DInteger v => - 2 ^ 63 <= v < 2 ^ 63
  | DFloat bits => is_u64 bits
  | DText s => str_ok s
  | DBlob b => zlen b < 2 ^ 31
  | DNull => True
  end.
Definition bind_ok (b : locator * datum) : Prop := locator_ok b.1 /\ datum_ok b.2.
Definition op_ok (o : op) : Prop :=
  match o with
  | OStmt sql binds => str_ok sql /\ Forall bind_ok binds
  | OStmtId id binds => is_u64 id /\ Forall bind_ok binds
  | OPrepare sql => str_ok sql
  | ODelPrepared id => is_u64 id
  end.

#[export] Instance locator_ok_dec l : Decision (locator_ok l).
Proof. destruct l; simpl; apply _. Defined.
#[export] Instance datum_ok_dec d : Decision (datum_ok d).
Proof. destruct d; simpl; apply _. Defined.
#[export] Instance bind_ok_dec b : Decision (bind_ok b).
Proof. unfold bind_ok. apply _. Defined.
#[export] Instance op_ok_dec o : Decision (op_ok o).
Proof. destruct o; simpl; apply _. Defined.

(** ** Responses *)

(** The reply to an operation: the changes, the row id and, for a statement with rows, the
    names of the columns and the rows; or the id of a prepared statement; or nothing. *)
Inductive reply :=
| RDone (changes rowid : Z)
| RRows (changes rowid : Z) (names : list (option (list byte))) (rows : list (list value))
| RId (id : Z)
| RNothing.

Inductive answer :=
| Answered (replies : list reply)
| Refused (msg : option (list byte)).

Definition enc_value (v : value) : list byte :=
  match v with
  | VInteger v => enc_flag MSG_PARAM_INTEGER ++ le_split 8 v
  | VFloat d => enc_flag MSG_PARAM_FLOAT ++ le_split 8 d
  | VText s => enc_flag MSG_PARAM_TEXT ++ enc_str (Some s)
  | VBlob b => enc_flag MSG_PARAM_BLOB ++ le_split 4 (zlen b) ++ b
  | VNull => enc_flag MSG_PARAM_NULL
  end.

Definition enc_row (row : list value) : list byte := concat (map enc_value row).

Definition enc_body (r : reply) : list byte :=
  match r with
  | RDone changes rowid => le_split 4 changes ++ le_split 8 rowid
  | RRows changes rowid names rows =>
      le_split 4 changes ++ le_split 8 rowid ++ enc_flag MSG_FLAG_ROW ++
      le_split 4 (zlen names) ++ concat (map enc_str names) ++
      le_split 4 (zlen rows) ++ concat (map enc_row rows)
  | RId id => le_split 8 id
  | RNothing => []
  end.

(** The length counts itself and what follows. *)
Definition enc_reply (r : reply) : list byte :=
  enc_flag MSG_FLAG_OP ++ le_split 4 (zlen (enc_body r) + 5) ++ enc_body r ++ enc_flag MSG_FLAG_OP_END.

Definition enc_answer (a : answer) : list byte :=
  match a with
  | Answered rs => enc_flag MSG_FLAG_OK ++ concat (map enc_reply rs) ++ enc_flag MSG_FLAG_MSG_END
  | Refused msg => enc_flag MSG_FLAG_ERROR ++ enc_str msg ++ enc_flag MSG_FLAG_MSG_END
  end.

(** ** The run of a request *)

Section direct.
Variable Q : sqlite.
Variable aux : aux_stmts.

Record world := mk_world { g_conn : conn Q; g_err : option (list byte); g_sess : session }.

Definition dirM (A : Type) : Type := world -> option (A * world).

#[export] Instance dirM_ret : MRet dirM := fun A a w => Some (a, w).
#[export] Instance dirM_bind : MBind dirM :=
  fun A B f m w => match m w with None => None | Some (a, w) => f a w end.

Definition dstop {A} : dirM A := fun _ => None.
Definition dsql {A} (m : sqlM Q A) : dirM A := fun w =>
  let '(a, c) := m (g_conn w) in Some (a, mk_world c (g_err w) (g_sess w)).
Definition dsess {A} (f : session -> A * session) : dirM A := fun w =>
  let '(a, s) := f (g_sess w) in Some (a, mk_world (g_conn w) (g_err w) s).
Definition derr (e : option (list byte)) : dirM () := fun w => Some ((), mk_world (g_conn w) e (g_sess w)).
Definition dget_err : dirM (option (list byte)) := fun w => Some (g_err w, w).
Definition dfails (msg : list byte) : dirM rs_rc := derr (Some msg);; mret RS_ERROR.
Definition dhooks (client : bool) : dirM () := dsql (on_hooks Q (fun h => with_client h client)).

(** A parameter as SQLite gets it. *)
Definition to_param (d : datum) : param :=
  match d with
  | DInteger v => PInteger (u64 v)
  | DFloat bits => PFloat bits
  | DText s => PText s (match s with None => UINT32_MAX | Some s => zlen s end)
  | DBlob b => PBlob (if decide (b = []) then None else Some b) (zlen b)
  | DNull => PNull
  end.

(** Parameters are counted from 0 on the wire and from 1 in SQLite. *)
Definition direct_index (stmt : Z) (l : locator) : dirM Z :=
  match l with
  | ByIndex i => mret (to_int (i +₃₂ 1))
  | ByName name => dsql (see Q (fun d => sq_bind_parameter_index Q d stmt name))
  end.

Definition by_name (l : locator) : bool := match l with ByName _ => true | ByIndex _ => false end.

Fixpoint direct_binds (stmt : Z) (bs : list (locator * datum)) : dirM rs_rc :=
  match bs with
  | [] => mret RS_OK
  | (l, d) :: bs =>
      idx ← direct_index stmt l;
      if by_name l && (idx =? 0) then dfails (text "Invalid parameter name")
      else
        rc ← dsql (sqlite3_bind Q stmt idx (to_param d));
        if negb (rc =? SQLITE_OK) then mret (aux_rc rc) else direct_binds stmt bs
  end.

Fixpoint direct_rows (fuel : nat) (stmt : Z) : dirM (Z * list (list value)) :=
  match fuel with
  | O => dstop
  | S fuel =>
      row ← dsql (see Q (fun d => sq_row Q d stmt));
      rc ← dsql (sqlite3_step Q stmt);
      if rc =? SQLITE_ROW then '(rc, rows) ← direct_rows fuel stmt; mret (rc, row :: rows)
      else mret (rc, [row])
  end.

Definition direct_step (stmt : Z) : dirM (rs_rc * reply) :=
  rc ← dsql (sqlite3_step Q stmt);
  changes ← dsql (see Q (sq_changes Q));
  rowid ← dsql (see Q (sq_last_insert_rowid Q));
  '(rc, r) ← (if rc =? SQLITE_ROW then
                names ← dsql (see Q (fun d => sq_columns Q d stmt));
                left ← dsql (see Q (fun d => sq_left Q d stmt));
                '(rc, rows) ← direct_rows (S left) stmt;
                mret (rc, RRows changes rowid names rows)
              else mret (rc, RDone changes rowid));
  mret (if negb (rc =? SQLITE_DONE) then aux_rc rc else RS_OK, r).

Definition direct_prepared (stmt : Z) (readonly : bool) (bs : list (locator * datum)) : dirM (rs_rc * reply) :=
  ro ← dsql (see Q (fun d => sq_stmt_readonly Q d stmt));
  if readonly && negb ro then rc ← dfails (text "Operation is not readonly."); mret (rc, RNothing)
  else
    rc ← direct_binds stmt bs;
    if negb (bool_decide (rc = RS_OK)) then mret (rc, RNothing) else direct_step stmt.

Definition direct_stmt (readonly : bool) (sql : option (list byte)) (bs : list (locator * datum)) : dirM (rs_rc * reply) :=
  '(rc, stmt) ← dsql (sqlite3_prepare_v3 Q sql (match sql with None => UINT32_MAX | Some s => zlen s end));
  if negb (rc =? SQLITE_OK) then mret (aux_rc rc, RNothing)
  else
    r ← direct_prepared stmt readonly bs;
    dsql (sqlite3_finalize Q stmt);;
    mret r.

Definition direct_stmt_id (readonly : bool) (id : Z) (bs : list (locator * datum)) : dirM (rs_rc * reply) :=
  stmt ← dsess (fun s => (session_get_stmt s id, s));
  match stmt with
  | None => rc ← dfails (text "Prepared statement does not exist."); mret (rc, RNothing)
  | Some stmt =>
      r ← direct_prepared stmt readonly bs;
      dsql (aux_clear Q stmt);;
      mret r
  end.

Definition direct_find (sql : option (list byte)) : dirM Z :=
  d ← dsql (see Q id);
  s ← dsess (fun s => (s, s));
  match sql with
  | Some sql => mret (session_sql_to_id Q d s sql)
  | None => if decide (se_stmts s = ∅) then mret 0 else dstop
  end.

Definition direct_prepare (index : Z) (sql : option (list byte)) : dirM (rs_rc * reply) :=
  found ← direct_find sql;
  '(rc, id) ← (if negb (found =? 0) then mret (SQLITE_OK, found)
               else
                 '(rc, stmt) ← dsql (sqlite3_prepare_v3 Q sql (match sql with None => UINT32_MAX | Some s => zlen s end));
                 if negb (rc =? SQLITE_OK) then mret (rc, 0)
                 else dsess (fun s => ((SQLITE_OK, index), session_add_stmt s index stmt)));
  if negb (rc =? SQLITE_OK) then mret (aux_rc rc, RNothing)
  else
    s ← dsess (fun s => (s, s));
    dhooks false;;
    rc ← dsql (aux_add_stmt Q aux (se_name s) (se_id s) id sql);
    dhooks true;;
    mret (rc, RId id).

Definition direct_del_prepared (id : Z) : dirM (rs_rc * reply) :=
  s ← dsess (fun s => (s, s));
  '(rc, s) ← dsql (session_del_stmt Q s id);
  dsess (fun old => ((), se_with_stmts old (se_stmts s)));;
  rc ← (if negb (bool_decide (rc = RS_OK)) then dfails (text "Prepared statement does not exist.")
        else
          dhooks false;;
          rc ← dsql (aux_rm_stmt Q aux id);
          dhooks true;;
          mret rc);
  mret (rc, RNothing).

(** Only statements may be read-only: [None] is the refusal of the two other operations. *)
Definition direct_op (readonly : bool) (index : Z) (o : op) : dirM (option rs_rc * reply) :=
  match o with
  | OStmt sql bs => '(rc, r) ← direct_stmt readonly sql bs; mret (Some rc, r)
  | OStmtId id bs => '(rc, r) ← direct_stmt_id readonly id bs; mret (Some rc, r)
  | OPrepare sql =>
      if readonly then derr (Some (text "Not a readonly operation"));; mret (None, RNothing)
      else '(rc, r) ← direct_prepare index sql; mret (Some rc, r)
  | ODelPrepared id =>
      if readonly then derr (Some (text "Not a readonly operation"));; mret (None, RNothing)
      else '(rc, r) ← direct_del_prepared id; mret (Some rc, r)
  end.

(** The operations up to the first that fails: the code of the failure, if any, with what
    the failed operation wrote, and the replies before it. *)
Fixpoint direct_ops (readonly : bool) (index : Z) (ops : list op) : dirM (option (rs_rc * reply) * list reply) :=
  match ops with
  | [] => mret (None, [])
  | o :: ops =>
      '(rc, r) ← direct_op readonly index o;
      match rc with
      | None => mret (Some (RS_OK, r), [])
      | Some rc =>
          if negb (bool_decide (rc = RS_OK)) then mret (Some (rc, r), [])
          else '(fail, rs) ← direct_ops readonly index ops; mret (fail, r :: rs)
      end
  end.

(** The message of the error: the last one of the state machine, or SQLite's. *)
Definition direct_errstr : dirM (option (list byte)) :=
  e ← dget_err;
  match e with
  | Some err => derr None;; mret (Some err)
  | None => dsql (see Q (sq_errmsg Q))
  end.

Definition direct_refuse (rc : rs_rc) : dirM (rs_rc * answer) :=
  err ← direct_errstr;
  dhooks false;;
  dsql (sqlite3_step Q (aux_rollback aux));;
  mret (if decide (rc = RS_FATAL) then RS_FATAL else RS_OK, Refused err).

(** The bytes of the replies and of what a failed operation wrote. *)
Definition enc_failed (f : option (rs_rc * reply)) : list byte :=
  match f with None => [] | Some (_, r) => enc_flag MSG_FLAG_OP ++ le_split 4 0 ++ enc_body r end.

Definition enc_progress (f : option (rs_rc * reply)) (rs : list reply) : list byte :=
  enc_flag MSG_FLAG_OK ++ concat (map enc_reply rs) ++ enc_failed f.

(** A transaction around the operations.  The result has the code, the answer, which
    is missing when the transaction does not begin, and the bytes of the response before
    the end of the transaction. *)
Definition direct_request (readonly : bool) (index : Z) (ops : list op) : dirM (rs_rc * option answer * list byte) :=
  rc ← dsql (sqlite3_step Q (aux_begin aux));
  if negb (rc =? SQLITE_DONE) then mret (aux_rc rc, None, [])
  else
    '(fail, rs) ← direct_ops readonly index ops;
    match fail with
    | Some (rc, r) => '(rc, a) ← direct_refuse rc; mret (rc, Some a, enc_progress fail rs)
    | None =>
        rc ← dsql (sqlite3_step Q (aux_commit aux));
        if negb (rc =? SQLITE_DONE) then '(rc, a) ← direct_refuse (aux_rc rc); mret (rc, Some a, enc_progress fail rs)
        else mret (RS_OK, Some (Answered rs), enc_progress fail rs)
    end.
End direct.
Arguments mk_world {Q}.
Arguments g_conn {Q}.
Arguments g_err {Q}.
Arguments g_sess {Q}.
Arguments dstop {Q A}.

(** ** Two runs side by side *)

Lemma sc_buf_put_str_len_outcome b s :
  buf_wf b -> no_wrap b (zlen (enc_str (Some s))) ->
  put_outcome b (enc_str (Some s)) (sc_buf_put_str_len b (Some s)).
Proof.
  intros Hwf Hw. rewrite zlen_enc_str in Hw. pose proof (zlen_nonneg s). unfold no_wrap in Hw.
  cbn [enc_str sc_buf_put_str_len]. unfold sc_buf_put_32, sc_buf_put_8.
  eapply put_outcome_trans; [done|apply sc_buf_put_outcome; [done|unfold no_wrap; lia]|].
  intros Hwf1 Hw1 Hc1. rewrite zlen_le_split in Hw1.
  eapply put_outcome_trans; [done|apply sc_buf_put_raw_outcome; [done|unfold no_wrap; lia]|].
  intros Hwf2 Hw2 Hc2. change [x00] with (le_split 1 0). apply sc_buf_put_outcome; [done|]. unfold no_wrap. lia.
Qed.

(** A function on buffers that appends [bs]. *)
Definition puts (bs : list byte) (f : sc_buf -> sc_buf) : Prop :=
  forall b, buf_wf b -> no_wrap b (zlen bs) -> put_outcome b bs (f b).

Lemma puts_int n v : puts (le_split n v) (fun b => sc_buf_put n b v).
Proof. intros b Hwf Hw. apply sc_buf_put_outcome; [done|]. by rewrite zlen_le_split in Hw. Qed.

Lemma puts_str s : puts (enc_str s) (fun b => sc_buf_put_str b s).
Proof. intros b. apply sc_buf_put_str_outcome. Qed.

Lemma puts_app xs ys f g : puts xs f -> puts ys g -> puts (xs ++ ys) (fun b => g (f b)).
Proof.
  intros Hf Hg b Hwf Hw. rewrite zlen_app in Hw. unfold no_wrap in Hw.
  pose proof (zlen_nonneg xs). pose proof (zlen_nonneg ys).
  eapply put_outcome_trans; [done|apply Hf; [done|unfold no_wrap; lia]|].
  intros Hwf1 Hw1 Hc1. apply Hg; [done|]. unfold no_wrap. lia.
Qed.

Lemma puts_blob bs : puts (le_split 4 (zlen bs) ++ bs) (fun b => sc_buf_put_blob b bs).
Proof.
  intros b Hwf Hw. apply sc_buf_put_blob_outcome; [done|]. by rewrite zlen_app, zlen_le_split in Hw.
Qed.

Lemma puts_nil : puts [] (fun b => b).
Proof. intros b Hwf _. by apply put_outcome_nil. Qed.

Lemma puts_fold {A} (enc : A -> list byte) (f : sc_buf -> A -> sc_buf) l :
  (forall a, puts (enc a) (fun b => f b a)) -> puts (concat (map enc l)) (fun b => foldl f b l).
Proof.
  intros H. induction l as [|a l IH]; [apply puts_nil|]. cbn [map concat foldl].
  apply (puts_app _ _ (fun b => f b a) (fun b => foldl f b l)); [apply H|done].
Qed.

Lemma puts_value v : puts (enc_value v) (fun b => encode_value b v).
Proof.
  destruct v; cbn [enc_value encode_value]; unfold enc_flag, sc_buf_put_64, sc_buf_put_8; try apply puts_int.
  - apply (puts_app _ _ (fun b => sc_buf_put 1 b _) (fun b => sc_buf_put 8 b _)); apply puts_int.
  - apply (puts_app _ _ (fun b => sc_buf_put 1 b _) (fun b => sc_buf_put 8 b _)); apply puts_int.
  - apply (puts_app _ _ (fun b => sc_buf_put 1 b _) (fun b => sc_buf_put_str_len b _)); [apply puts_int|].
    intros b. apply sc_buf_put_str_len_outcome.
  - apply (puts_app _ _ (fun b => sc_buf_put 1 b _) (fun b => sc_buf_put_blob b _)); [apply puts_int|apply puts_blob].
Qed.

Create HintDb wire.
#[export] Hint Resolve puts_int puts_str puts_blob puts_value puts_nil : wire.

(** [n] bytes fit behind the write position of [o]. *)
Definition fits (o : sc_buf) (n : Z) : Prop := no_wrap o n /\ room o n.

Lemma fits_le o n m : fits o m -> n <= m -> fits o n.
Proof. unfold fits, no_wrap, room. intros [H1 [H2|[H2 H3]]] H; (split; [lia|]); [left|right; split; [done|]]; lia. Qed.

Lemma puts_appended o xs ys b f :
  buf_wf o -> b_err o = 0 -> fits o (zlen (xs ++ ys)) -> appended o xs b -> puts ys f -> appended o (xs ++ ys) (f b).
Proof.
  intros Hwf He [Hn Hr] Ha Hf. rewrite zlen_app in Hn, Hr. apply (appended_trans _ _ _ b); [done|].
  apply put_outcome_ok; [by rewrite (a_err _ _ _ Ha)|by eapply room_appended|].
  apply Hf; [apply Ha|by eapply no_wrap_appended].
Qed.

Section refine.
Variable Q : sqlite.
Variable aux : aux_stmts.

(** The response buffer when a request begins. *)
Variable o : sc_buf.
Hypothesis o_wf : buf_wf o.
Hypothesis o_err : b_err o = 0.

Definition view (x : ex Q) : world Q := mk_world (x_conn x) (x_last_err x) (x_sess x).

(** What was written is [out], and then [K], if [out] fits. *)
Definition wrote (out : list byte) (K : Prop) (b : sc_buf) : Prop :=
  fits o (zlen out) -> appended o out b /\ K.

(** The run on buffers stands where [rest] is to be read and [out] has been written. *)
Record stands (rest out : list byte) (K : Prop) (x : ex Q) (w : world Q) : Prop := {
  st_view : view x = w;
  st_wf : buf_wf (x_req x);
  st_err : b_err (x_req x) = 0;
  st_rest : contents (x_req x) = rest;
  st_out : wrote out K (x_resp x)
}.

(** The request was left in the middle. *)
Definition strayed (out : list byte) (x : ex Q) (w : world Q) : Prop :=
  view x = w /\ wrote out True (x_resp x).

(** Both runs stop, or both end in results that [P] relates. *)
Definition agree {A B} (P : A -> B -> ex Q -> world Q -> Prop) (m : option (A * ex Q)) (d : option (B * world Q)) : Prop :=
  match m, d with
  | Some (a, x), Some (b, w) => P a b x w
  | None, None => True
  | _, _ => False
  end.

Lemma agree_bind {A A' B B'} (P : A -> B -> ex Q -> world Q -> Prop) (P' : A' -> B' -> ex Q -> world Q -> Prop)
    (m : execM Q A) (d : dirM Q B) f g x w :
  agree P (m x) (d w) -> (forall a b x w, P a b x w -> agree P' (f a x) (g b w)) ->
  agree P' ((m ≫= f) x) ((d ≫= g) w).
Proof.
  intros H Hk. unfold mbind, execM_bind, dirM_bind. unfold agree in H.
  destruct (m x) as [[a x1]|], (d w) as [[b w1]|]; try done. by apply Hk.
Qed.

Lemma agree_then {A B C} (P : A -> B -> ex Q -> world Q -> Prop) (P' : A -> C -> ex Q -> world Q -> Prop)
    m (d : dirM Q B) (g : B -> dirM Q C) w :
  agree P m (d w) -> (forall a b x w, P a b x w -> agree P' (Some (a, x)) (g b w)) -> agree P' m ((d ≫= g) w).
Proof.
  intros H Hk. unfold mbind, dirM_bind. unfold agree in H. destruct m as [[a x1]|], (d w) as [[b w1]|]; try done. by apply Hk.
Qed.

Lemma agree_weaken {A B} (P P' : A -> B -> ex Q -> world Q -> Prop) m d :
  (forall a b x w, P a b x w -> P' a b x w) -> agree P m d -> agree P' m d.
Proof. intros H. unfold agree. destruct m as [[a x]|], d as [[b w]|]; auto. Qed.

(** *** One call of SQLite or of the session on both sides *)

Section steps.
Context {A B C : Type} (P : A -> B -> ex Q -> world Q -> Prop).

Lemma agree_sql_fact (F : C -> Prop) (m : sqlM Q C) f g rest out K x w :
  stands rest out K x w -> (forall k, F (m k).1) ->
  (forall c x w, F c -> stands rest out K x w -> agree P (f c x) (g c w)) ->
  agree P ((sql Q m ≫= f) x) ((dsql Q m ≫= g) w).
Proof.
  intros [<- Hwf He Hr Ho] HF Hk. unfold mbind, execM_bind, dirM_bind, sql, dsql. cbn [view g_conn].
  specialize (HF (x_conn x)). destruct (m (x_conn x)) as [c k]. apply Hk; [done|]. by split.
Qed.

Lemma agree_sql (m : sqlM Q C) f g rest out K x w :
  stands rest out K x w ->
  (forall c x w, stands rest out K x w -> agree P (f c x) (g c w)) ->
  agree P ((sql Q m ≫= f) x) ((dsql Q m ≫= g) w).
Proof. intros Hx Hk. apply (agree_sql_fact (fun _ => True) m f g rest out K); auto. Qed.

Lemma agree_session (h : session -> C * session) f g rest out K x w :
  stands rest out K x w ->
  (forall c x w, stands rest out K x w -> agree P (f c x) (g c w)) ->
  agree P ((with_session Q h ≫= f) x) ((dsess Q h ≫= g) w).
Proof.
  intros [<- Hwf He Hr Ho] Hk. unfold mbind, execM_bind, dirM_bind, with_session, dsess. cbn [view g_sess].
  destruct (h (x_sess x)) as [c k]. apply Hk. by split.
Qed.

Lemma agree_left_sql (m : sqlM Q C) f g out x w :
  strayed out x w ->
  (forall c x w, strayed out x w -> agree P (f c x) (g c w)) ->
  agree P ((sql Q m ≫= f) x) ((dsql Q m ≫= g) w).
Proof.
  intros [<- Ho] Hk. unfold mbind, execM_bind, dirM_bind, sql, dsql. cbn [view g_conn].
  destruct (m (x_conn x)) as [c k]. by apply Hk.
Qed.

(** *** Reading *)

Lemma agree_get n v f d rest out K x w :
  stands (le_split n v ++ rest) out K x w -> 0 <= v < 2 ^ (8 * Z.of_nat n) ->
  (forall x w, stands rest out K x w -> agree P (f v x) (d w)) ->
  agree P ((req Q (sc_buf_get n) ≫= f) x) (d w).
Proof.
  intros [<- Hwf He Hr Ho] Hv Hk. destruct (sc_buf_get_int n _ v rest Hwf Hr Hv) as (b & Hg & Hc).
  unfold mbind, execM_bind, req. rewrite Hg. apply Hk. split; try done; try apply Hc.
  by rewrite <- He; apply (consumed_err _ _ _ _ Hc).
Qed.

Lemma agree_get_str s f d rest out K x w :
  stands (enc_str s ++ rest) out K x w -> str_ok s ->
  (forall x w, stands rest out K x w -> agree P (f s x) (d w)) ->
  agree P ((req Q sc_buf_get_str ≫= f) x) (d w).
Proof.
  intros [<- Hwf He Hr Ho] Hs Hk. destruct (sc_buf_get_str_spec _ s rest Hwf Hr Hs) as (b & Hg & Hc).
  unfold mbind, execM_bind, req. rewrite Hg. apply Hk. split; try done; try apply Hc.
  by rewrite <- He; apply (consumed_err _ _ _ _ Hc).
Qed.

Lemma ex_eta (x : ex Q) : mk_ex (x_conn x) (x_last_err x) (x_sess x) (x_req x) (x_resp x) = x.
Proof. by destruct x. Qed.

Lemma agree_peek v f d rest out K x w :
  stands (le_split 4 v ++ rest) out K x w -> is_u32 v ->
  (stands (le_split 4 v ++ rest) out K x w -> agree P (f v x) (d w)) ->
  agree P ((req Q sc_buf_peek_32 ≫= f) x) (d w).
Proof.
  intros Hx Hv Hk. pose proof Hx as [_ Hwf _ Hr _]. unfold mbind, execM_bind, req.
  rewrite peek_32_contents, Hr, le_combine_prefix by (done || rewrite Hr, zlen_app, zlen_le_split; pose proof (zlen_nonneg rest); lia).
  rewrite ex_eta. by apply Hk.
Qed.

Lemma agree_valid f d rest out K x w :
  stands rest out K x w -> agree P (f true x) (d w) -> agree P ((req_valid Q ≫= f) x) (d w).
Proof.
  intros Hx Hk. unfold mbind, execM_bind, req_valid, req, sc_buf_valid. by rewrite (st_err _ _ _ _ _ Hx), ex_eta.
Qed.

Lemma agree_get_left n f d out x w :
  strayed out x w -> (forall v x w, strayed out x w -> agree P (f v x) (d w)) ->
  agree P ((req Q (sc_buf_get n) ≫= f) x) (d w).
Proof.
  intros [<- Ho] Hk. unfold mbind, execM_bind, req. destruct (sc_buf_get n (x_req x)) as [v b]. by apply Hk.
Qed.

(** *** Writing *)

Lemma agree_put bs h f d rest out K x w :
  stands rest out K x w -> puts bs h ->
  (forall x w, stands rest (out ++ bs) K x w -> agree P (f () x) (d w)) ->
  agree P ((resp Q h ≫= f) x) (d w).
Proof.
  intros [<- Hwf He Hr Ho] Hp Hk. unfold mbind, execM_bind, resp. apply Hk. split; try done.
  intros Hf. destruct Ho as [Ha HK].
  { apply (fits_le _ _ _ Hf). rewrite zlen_app. pose proof (zlen_nonneg bs). lia. }
  split; [|done]. by apply puts_appended.
Qed.

Lemma agree_wpos f d rest out K x w :
  stands rest out K x w ->
  (forall p, stands rest out (K /\ p = b_wpos o + zlen out) x w -> agree P (f p x) (d w)) ->
  agree P ((ask_resp Q b_wpos ≫= f) x) (d w).
Proof.
  intros [<- Hwf He Hr Ho] Hk. unfold mbind, execM_bind, ask_resp. apply Hk. split; try done.
  intros Hf. destruct (Ho Hf) as [Ha HK]. split_and!; try done. by apply a_wpos.
Qed.

Lemma agree_patch pos v h f d rest xs old ys K x w :
  stands rest (xs ++ old ++ ys) K x w -> length old = 4%nat -> (K -> pos = b_wpos o + zlen xs) ->
  (forall b, K -> appended o (xs ++ old ++ ys) b -> h b = sc_buf_set_32_at b pos v) ->
  (forall x w, stands rest (xs ++ le_split 4 v ++ ys) K x w -> agree P (f () x) (d w)) ->
  agree P ((resp Q h ≫= f) x) (d w).
Proof.
  intros [<- Hwf He Hr Ho] Hl Hp Hh Hk. unfold mbind, execM_bind, resp. apply Hk. split; try done.
  intros Hf. destruct Ho as [Ha HK].
  { apply (fits_le _ _ _ Hf). rewrite !zlen_app, zlen_le_split. unfold zlen at 2. rewrite Hl. lia. }
  split; [|done]. cbn [x_resp]. rewrite (Hh _ HK Ha), (Hp HK). by apply (appended_patch _ _ old).
Qed.
End steps.

Definition skip : dirM Q () := mret ().

(** A reader of [bs] that returns [a]. *)
Definition reads {A} (m : execM Q A) (bs : list byte) (a : A) : Prop :=
  forall rest out K x w, stands (bs ++ rest) out K x w ->
  agree (fun a' (_ : ()) x w => a' = a /\ stands rest out K x w) (m x) (skip w).

Lemma agree_reads {A B C} (P : B -> C -> ex Q -> world Q -> Prop) (m : execM Q A) bs a f d rest out K x w :
  reads m bs a -> stands (bs ++ rest) out K x w ->
  (forall x w, stands rest out K x w -> agree P (f a x) (d w)) ->
  agree P ((m ≫= f) x) (d w).
Proof.
  intros Hm Hx Hk. change (d w) with ((skip ≫= (fun _ : () => d)) w).
  eapply agree_bind; [by apply Hm|]. intros a' [] x1 w1 [-> H]. by apply Hk.
Qed.

Lemma req_map {A B} (m : execM Q A) bs a (g : A -> B) : reads m bs a -> reads (v ← m; mret (g v)) bs (g a).
Proof. intros Hm rest out K x w Hx. eapply agree_reads; [done..|]. intros x1 w1 H1. by split. Qed.

Lemma req_int n v : 0 <= v < 2 ^ (8 * Z.of_nat n) -> reads (req Q (sc_buf_get n)) (le_split n v) v.
Proof.
  intros Hv rest out K x w [<- Hwf He Hr Ho]. destruct (sc_buf_get_int n _ v rest Hwf Hr Hv) as (b & Hg & Hc).
  unfold req. rewrite Hg. split; [done|]. split; try done; try apply Hc.
  by rewrite <- He; apply (consumed_err _ _ _ _ Hc).
Qed.

Lemma req_str s : str_ok s -> reads (req Q sc_buf_get_str) (enc_str s) s.
Proof.
  intros Hs rest out K x w [<- Hwf He Hr Ho]. destruct (sc_buf_get_str_spec _ s rest Hwf Hr Hs) as (b & Hg & Hc).
  unfold req. rewrite Hg. split; [done|]. split; try done; try apply Hc.
  by rewrite <- He; apply (consumed_err _ _ _ _ Hc).
Qed.

Lemma req_blob d : zlen d < 2 ^ 31 ->
  reads (req Q (sc_buf_get_blob (zlen d))) d (if decide (d = []) then None else Some d).
Proof.
  intros Hd rest out K x w [<- Hwf He Hr Ho]. pose proof (zlen_nonneg d). pose proof (zlen_nonneg rest).
  pose proof (zlen_contents _ Hwf) as Hl. rewrite Hr, zlen_app in Hl. pose proof Hwf as [].
  unfold req, sc_buf_get_blob. destruct (decide (d = [])) as [->|Hne].
  - cbn [zlen length Z.of_nat Z.eqb]. split; [done|]. rewrite ex_eta. by split.
  - assert (0 < zlen d) by (destruct d; [done|rewrite zlen_cons; pose proof (zlen_nonneg d); lia]).
    rewrite u32_small by lia. zif.
    split; [f_equal; exact (contents_take _ _ _ Hwf Hr)|].
    pose proof (consumed_intro _ _ _ Hwf Hr) as [_ Hw Hc]. by split.
Qed.

(** The length of a string is read before the string. *)
Definition text_len (s : option (list byte)) : Z := match s with None => UINT32_MAX | Some s => zlen s end.

Lemma agree_text {A B} (P : A -> B -> ex Q -> world Q -> Prop) s f d rest out K x w :
  str_ok s -> stands (enc_str s ++ rest) out K x w ->
  (forall x w, stands rest out K x w -> agree P (f (text_len s) s x) (d w)) ->
  agree P ((len ← req Q sc_buf_peek_32; str ← req Q sc_buf_get_str; f len str) x) (d w).
Proof.
  intros Hs Hx Hk.
  assert (exists tl, enc_str s ++ rest = le_split 4 (text_len s) ++ tl) as [tl E].
  { destruct s; eexists; cbn [enc_str]; rewrite <- ?app_assoc; done. }
  rewrite E in Hx. eapply agree_peek; [exact Hx|destruct s as [s|]; [destruct Hs as [_ Hs]; pose proof (zlen_nonneg s)|];
    unfold text_len, UINT32_MAX in *; lia|].
  clear Hx. intros Hx. rewrite <- E in Hx. eapply agree_reads; [by apply req_str|exact Hx|]. done.
Qed.

Lemma le_split_mod n v : le_split n (v mod 2 ^ (8 * Z.of_nat n)) = le_split n v.
Proof.
  apply le_combine_inj; [by rewrite !length_le_split|].
  by rewrite !le_combine_split, Z.mod_mod by (apply Z.pow_nonzero; lia).
Qed.

Lemma req_seq {A B} (m : execM Q A) (f : A -> execM Q B) xs ys a b :
  reads m xs a -> reads (f a) ys b -> reads (m ≫= f) (xs ++ ys) b.
Proof.
  intros Hm Hf rest out K x w Hx. rewrite <- app_assoc in Hx. eapply agree_reads; [exact Hm|exact Hx|].
  intros x1 w1 H1. by apply Hf.
Qed.

Lemma req_value d : datum_ok d -> reads (bind_value Q) (enc_datum d) (Some (to_param d)).
Proof.
  intros Hd. unfold bind_value.
  assert (H : forall f ys b (g : Z -> execM Q (option param)), is_u8 f -> reads (g f) ys b ->
    reads (type ← req Q sc_buf_get_8; g type) (enc_flag f ++ ys) b).
  { intros f ys b g Hf Hg. eapply req_seq; [|exact Hg]. by apply (req_int 1). }
  unfold MSG_PARAM_INTEGER, MSG_PARAM_FLOAT, MSG_PARAM_TEXT, MSG_PARAM_BLOB, MSG_PARAM_NULL.
  destruct d as [v|bits|s|b|]; cbn [enc_datum datum_ok to_param] in *;
    [| | | |rewrite <- (app_nil_r (enc_flag _))]; apply H; try done; zif.
  - rewrite <- (le_split_mod 8). apply (req_map _ _ _ (fun t => Some (PInteger t))), req_int, u64_range.
  - by apply (req_map _ _ _ (fun t => Some (PFloat t))), req_int.
  - intros rest out K x w Hx. eapply agree_text; [done|exact Hx|]. intros y v Hy. by split.
  - eapply req_seq; [apply (req_int 4); pose proof (zlen_nonneg b); lia|].
    by apply (req_map _ _ _ (fun data => Some (PBlob data (zlen b)))), req_blob.
Qed.

(** *** Parameters *)

(** SQLite's functions that prepare a statement or bind a parameter return [SQLITE_OK] or the
    code of an error. *)
Definition ok_or_error (rc : Z) : Prop := aux_rc rc = RS_OK -> rc = SQLITE_OK.

Record sqlite_answers : Prop := {
  bind_answers : forall stmt idx p k, ok_or_error (sqlite3_bind Q stmt idx p k).1;
  prepare_answers : forall sql len k, ok_or_error (sqlite3_prepare_v3 Q sql len k).1.1
}.

(** A code on both sides: after a success the run stands behind what it read, after a
    failure anywhere. *)
Definition ended (rest out : list byte) (K : Prop) (rc rc' : rs_rc) (x : ex Q) (w : world Q) : Prop :=
  rc = rc' /\ if decide (rc = RS_OK) then stands rest out K x w else strayed out x w.

Lemma stands_left rest out K x w : stands rest out K x w -> strayed out x w.
Proof. intros [Hv _ _ _ Ho]. split; [done|]. intros Hf. split; [by apply Ho|done]. Qed.

Lemma agree_fails {A B} (P : A -> B -> ex Q -> world Q -> Prop) msg f g out x w :
  strayed out x w ->
  (forall x w, strayed out x w -> agree P (f RS_ERROR x) (g RS_ERROR w)) ->
  agree P ((fails Q msg ≫= f) x) ((dfails Q msg ≫= g) w).
Proof. intros [<- Ho] Hk. by apply Hk. Qed.

Lemma agree_fails_end msg rest out K x w :
  strayed out x w -> agree (ended rest out K) (fails Q msg x) (dfails Q msg w).
Proof. intros [<- Ho]. by split. Qed.

Lemma req_flag f : is_u8 f -> reads (req Q sc_buf_get_8) (enc_flag f) f.
Proof. apply (req_int 1). Qed.

(** Read what the state [H] says comes next. *)
Ltac reading H L := eapply agree_reads; [|exact H|]; [by apply L|clear H; intros ? ? H].

Definition kind_of_locator (l : locator) : Z := if by_name l then MSG_BIND_NAME else MSG_BIND_INDEX.

Lemma index_agrees stmt l rest out K x w :
  locator_ok l -> stands (match l with ByName name => enc_str name | ByIndex i => le_split 4 i end ++ rest) out K x w ->
  agree (fun a b x w => a = Some b /\ stands rest out K x w)
    (bind_index Q stmt (kind_of_locator l) x) (direct_index Q stmt l w).
Proof.
  intros Hl Hx. unfold bind_index, kind_of_locator, MSG_BIND_NAME, MSG_BIND_INDEX.
  destruct l as [name|i]; cbn [by_name direct_index]; zif.
  - reading Hx req_str.
    unfold dsql, mbind, execM_bind, sql, see. destruct Hx as [<- ? ? ? ?]. by split.
  - reading Hx (req_int 4). by split.
Qed.

Lemma binds_agree stmt bs : sqlite_answers -> Forall bind_ok bs -> forall fuel rest out K x w,
  (length bs < fuel)%nat -> stands (enc_binds bs ++ rest) out K x w ->
  agree (ended rest out K) (state_bind_params Q fuel stmt x) (direct_binds Q stmt bs w).
Proof.
  intros Hb. induction bs as [|[l d] bs IH]; intros Hok [|fuel] rest out K x w Hl Hx; try (simpl in Hl; lia);
    cbn [state_bind_params direct_binds].
  - unfold enc_binds in Hx. cbn [map concat app] in Hx. reading Hx req_flag. by split.
  - apply Forall_cons in Hok as [[Hl1 Hd] Hok]. cbn [fst snd] in Hl1, Hd.
    assert (E : enc_binds ((l, d) :: bs) ++ rest = enc_flag (kind_of_locator l) ++
      match l with ByName name => enc_str name | ByIndex i => le_split 4 i end ++ enc_datum d ++ enc_binds bs ++ rest).
    { unfold enc_binds, enc_bind, enc_locator, kind_of_locator. cbn [map concat fst snd].
      destruct l; by rewrite <- !app_assoc. }
    rewrite E in Hx. assert (is_u8 (kind_of_locator l)) by (by destruct l). reading Hx req_flag.
    rewrite (proj2 (Z.eqb_neq _ _)) by (by destruct l).
    eapply agree_bind; [by apply index_agrees|]. intros idx i x2 w2 [-> H2].
    replace (kind_of_locator l =? MSG_BIND_NAME) with (by_name l) by (by destruct l).
    destruct (by_name l && (i =? 0)); [by eapply agree_fails_end, stands_left|].
    reading H2 req_value.
    eapply (agree_sql_fact _ ok_or_error); [exact H2|apply Hb|]. intros rc x4 w4 Hrc H4.
    destruct (Z.eqb_spec rc SQLITE_OK) as [->|Hne]; cbn [negb].
    + apply IH; [done|simpl in Hl; lia|done].
    + split; [done|]. destruct (decide _); [by destruct Hne; apply Hrc|by eapply stands_left].
Qed.

(** *** Rows *)

Lemma stands_weaken rest out out' (K K' : Prop) x w :
  stands rest out K x w -> out = out' -> (K -> K') -> stands rest out' K' x w.
Proof. intros [? ? ? ? Ho] <- HK. split; try done. intros Hf. destruct (Ho Hf). auto. Qed.

Lemma puts_row row : puts (enc_row row) (fun b => foldl encode_value b row).
Proof. apply (puts_fold enc_value encode_value), puts_value. Qed.

Lemma puts_names names : puts (concat (map enc_str names)) (fun b => foldl sc_buf_put_str b names).
Proof. apply (puts_fold enc_str sc_buf_put_str), puts_str. Qed.

(** Call SQLite, or write, in the state [H]. *)
Ltac calling H := eapply agree_sql; [exact H|clear H; intros ? ? ? H].
Ltac writing H L := eapply agree_put; [exact H|apply L|clear H; intros ? ? H].

Lemma rows_agree stmt fuel : forall row rest out K x w,
  stands rest out K x w ->
  agree (fun a b x w => a.1 = b.1 /\ a.2 = u32 (row + zlen b.2) /\ stands rest (out ++ concat (map enc_row b.2)) K x w)
    (encode_rows Q fuel stmt row x) (direct_rows Q fuel stmt w).
Proof.
  induction fuel as [|fuel IH]; intros row rest out K x w Hx; [done|]. cbn [encode_rows direct_rows].
  calling Hx. unfold state_encode_row. writing Hx puts_row. calling Hx.
  destruct (c0 =? SQLITE_ROW).
  - eapply agree_then; [by apply IH|]. intros [rc n] [rc' rows] x3 w3 (E1 & E2 & H3). cbn [fst snd] in *.
    split_and!; [done| |].
    + cbn [snd]. rewrite E2, zlen_cons. unfold u32. rewrite Zplus_mod_idemp_l. f_equal. lia.
    + apply (stands_weaken _ _ _ _ _ _ _ H3); [|done]. cbn [snd map concat]. by rewrite <- app_assoc.
  - split_and!; [done..|]. apply (stands_weaken _ _ _ _ _ _ _ Hx); [|done]. cbn [snd map concat]. by rewrite app_nil_r.
Qed.

Lemma step_agrees stmt rest out K x w :
  stands rest out K x w ->
  agree (fun rc r x w => rc = r.1 /\ stands rest (out ++ enc_body r.2) K x w)
    (state_step Q stmt x) (direct_step Q stmt w).
Proof.
  intros Hx. unfold state_step, direct_step, sc_buf_put_32, sc_buf_put_64, sc_buf_put_8.
  calling Hx. calling Hx. writing Hx puts_int. calling Hx. writing Hx puts_int.
  eapply (agree_bind (fun rc r x w => rc = r.1 /\ stands rest (out ++ enc_body r.2) K x w)).
  - destruct (c =? SQLITE_ROW).
    + writing Hx puts_int. calling Hx. writing Hx puts_int. writing Hx puts_names.
      eapply agree_wpos; [exact Hx|]. clear Hx. intros p Hx. writing Hx puts_int. calling Hx.
      eapply agree_bind; [by apply rows_agree|]. intros [rc n] [rc' rows] y v (E1 & E2 & H3). cbn [fst snd] in *.
      rewrite <- (app_assoc _ (le_split 4 0)) in H3.
      eapply (agree_patch _ p n); [exact H3|done|by intros [_ ->]|done|]. clear H3. intros y4 v4 H4. split; [done|].
      apply (stands_weaken _ _ _ _ _ _ _ H4); [|by intros [? _]]. cbn [snd enc_body]. unfold enc_flag.
      rewrite E2, Z.add_0_l. change (u32 (zlen rows)) with (zlen rows mod 2 ^ (8 * Z.of_nat 4)).
      by rewrite le_split_mod, <- !app_assoc.
    + split; [done|]. apply (stands_weaken _ _ _ _ _ _ _ Hx); [|done]. cbn [snd enc_body]. by rewrite <- !app_assoc.
  - intros rc [rc' r] y v [E H3]. cbn [fst snd] in *. subst rc'. destruct (negb (rc =? SQLITE_DONE)); by split.
Qed.

(** *** Operations *)

(** A code and a reply: the reply has been written. *)
Definition did (rest out : list byte) (K : Prop) (rc : rs_rc) (r : rs_rc * reply) (x : ex Q) (w : world Q) : Prop :=
  rc = r.1 /\
  if decide (rc = RS_OK) then stands rest (out ++ enc_body r.2) K x w else strayed (out ++ enc_body r.2) x w.

Lemma did_left rest out K rc r x w : did rest out K rc r x w -> strayed (out ++ enc_body r.2) x w.
Proof. intros [_ H]. destruct (decide _); [by eapply stands_left|done]. Qed.

Lemma did_ok rest out K r x w : did rest out K RS_OK r x w -> stands rest (out ++ enc_body r.2) K x w.
Proof. by intros [_ H]. Qed.

Lemma did_nothing rest out K rc x w : rc <> RS_OK -> strayed out x w -> did rest out K rc (rc, RNothing) x w.
Proof. intros Hne H. split; [done|]. rewrite decide_False by done. cbn [snd enc_body]. by rewrite app_nil_r. Qed.

Lemma agree_did_sql {A B C} (P : A -> B -> ex Q -> world Q -> Prop) (m : sqlM Q C) f g rest out K rc r x w :
  did rest out K rc r x w ->
  (forall c x w, did rest out K rc r x w -> agree P (f c x) (g c w)) ->
  agree P ((sql Q m ≫= f) x) ((dsql Q m ≫= g) w).
Proof.
  intros [E H] Hk. destruct (decide (rc = RS_OK)) as [Hr|Hr] eqn:D; [eapply agree_sql|eapply agree_left_sql]; try exact H;
    intros c x1 w1 H1; apply Hk; split; try done; by rewrite D.
Qed.

Lemma fails_did {A B} (P : A -> B -> ex Q -> world Q -> Prop) msg (f : rs_rc -> execM Q A) (g : rs_rc -> dirM Q B) rest out K x w :
  strayed out x w ->
  (forall x w, did rest out K RS_ERROR (RS_ERROR, RNothing) x w -> agree P (f RS_ERROR x) (g RS_ERROR w)) ->
  agree P ((fails Q msg ≫= f) x) ((dfails Q msg ≫= g) w).
Proof. intros H Hk. eapply agree_fails; [done|]. intros x1 w1 H1. apply Hk. by apply did_nothing. Qed.

Lemma fails_did_end msg rest out K x w :
  strayed out x w -> agree (did rest out K) (fails Q msg x) ((rc ← dfails Q msg; mret (rc, RNothing)) w).
Proof. intros [<- Ho]. by apply did_nothing. Qed.

Lemma prepared_agrees fuel stmt readonly bs rest out K x w :
  sqlite_answers -> Forall bind_ok bs -> (length bs < fuel)%nat -> stands (enc_binds bs ++ rest) out K x w ->
  agree (did rest out K) (state_exec_prepared_statement Q fuel stmt readonly x) (direct_prepared Q stmt readonly bs w).
Proof.
  intros Hb Hok Hl Hx. unfold state_exec_prepared_statement, direct_prepared. calling Hx.
  destruct (readonly && negb c); [by eapply fails_did_end, stands_left|].
  eapply agree_bind; [by apply binds_agree|]. intros rc rc' y v [<- H].
  destruct (bool_decide_reflect (rc = RS_OK)) as [->|Hne]; cbn [negb].
  - rewrite decide_True in H by done. eapply agree_weaken; [|by apply step_agrees]. intros rc r z u [E Hz]. split; [done|].
    destruct (decide _); [done|by eapply stands_left].
  - apply did_nothing; [done|]. by rewrite decide_False in H.
Qed.

Lemma stmt_agrees fuel readonly sql bs rest out K x w :
  sqlite_answers -> str_ok sql -> Forall bind_ok bs -> (length bs < fuel)%nat ->
  stands (enc_str sql ++ enc_binds bs ++ rest) out K x w ->
  agree (did rest out K) (state_exec_stmt Q fuel readonly x) (direct_stmt Q readonly sql bs w).
Proof.
  intros Hb Hs Hok Hl Hx. unfold state_exec_stmt, direct_stmt.
  eapply agree_text; [done|exact Hx|]. clear Hx. intros y v Hx.
  eapply (agree_sql_fact _ (fun c => ok_or_error c.1)); [exact Hx|apply Hb|]. clear Hx. intros [rc stmt] y1 v1 Hrc Hx.
  destruct (Z.eqb_spec rc SQLITE_OK) as [->|Hne]; cbn [negb].
  - eapply agree_bind; [by apply prepared_agrees|]. intros rc r z u H.
    eapply agree_did_sql; [exact H|]. intros _ z1 u1 H1. exact H1.
  - apply did_nothing; [by contradict Hne; apply Hrc|by eapply stands_left].
Qed.

Lemma stmt_id_agrees fuel readonly id bs rest out K x w :
  sqlite_answers -> is_u64 id -> Forall bind_ok bs -> (length bs < fuel)%nat ->
  stands (le_split 8 id ++ enc_binds bs ++ rest) out K x w ->
  agree (did rest out K) (state_exec_stmt_id Q fuel readonly x) (direct_stmt_id Q readonly id bs w).
Proof.
  intros Hb Hid Hok Hl Hx. unfold state_exec_stmt_id, direct_stmt_id.
  reading Hx (req_int 8). eapply agree_valid; [exact Hx|]. cbn [negb].
  eapply agree_session; [exact Hx|]. clear Hx. intros [stmt|] y v Hx; [|by eapply fails_did_end, stands_left].
  eapply agree_bind; [by apply prepared_agrees|]. intros rc r z u H.
  eapply agree_did_sql; [exact H|]. intros _ z1 u1 H1. exact H1.
Qed.

Lemma find_agrees sql rest out K x w :
  stands rest out K x w ->
  agree (fun a b x w => a = b /\ stands rest out K x w) (find_sql Q sql x) (direct_find Q sql w).
Proof.
  intros Hx. unfold find_sql, direct_find. calling Hx. eapply agree_session; [exact Hx|]. clear Hx. intros s y v Hx.
  destruct sql; [done|]. by destruct (decide (se_stmts s = ∅)).
Qed.

Lemma hooks_agree {A B} (P : A -> B -> ex Q -> world Q -> Prop) client f g rest out K x w :
  stands rest out K x w ->
  (forall x w, stands rest out K x w -> agree P (f () x) (g () w)) ->
  agree P ((sql Q (on_hooks Q (fun h => with_client h client)) ≫= f) x) ((dhooks Q client ≫= g) w).
Proof. intros Hx Hk. eapply agree_sql; [exact Hx|]. intros [] y v. apply Hk. Qed.

Lemma did_stands rest out K rc r x w : stands rest (out ++ enc_body r) K x w -> did rest out K rc (rc, r) x w.
Proof. intros H. split; [done|]. destruct (decide _); [done|by eapply stands_left]. Qed.

Lemma prepare_agrees index sql rest out K x w :
  sqlite_answers -> str_ok sql -> stands (enc_str sql ++ rest) out K x w ->
  agree (did rest out K) (state_prepare_stmt Q aux index x) (direct_prepare Q aux index sql w).
Proof.
  intros Hb Hs Hx. unfold state_prepare_stmt, direct_prepare, sc_buf_put_64.
  eapply agree_text; [done|exact Hx|]. clear Hx. intros y v Hx. eapply agree_valid; [exact Hx|]. cbn [negb].
  eapply agree_bind; [by apply find_agrees|]. clear Hx. intros found ? y1 v1 [<- Hx].
  eapply (agree_bind (fun a b x w => a = b /\ ok_or_error a.1 /\ stands rest out K x w)).
  - destruct (negb (found =? 0)); [done|].
    eapply (agree_sql_fact _ (fun c => ok_or_error c.1)); [exact Hx|apply Hb|]. clear Hx. intros [rc stmt] y2 v2 Hrc Hx.
    destruct (negb (rc =? SQLITE_OK)); [done|]. destruct Hx as [<- ? ? ? ?]. by split_and!.
  - clear Hx. intros [rc id] ? y2 v2 (<- & Hrc & Hx). cbn [fst] in Hrc.
    destruct (Z.eqb_spec rc SQLITE_OK) as [->|Hne]; cbn [negb].
    + eapply agree_session; [exact Hx|]. clear Hx. intros s y3 v3 Hx. eapply hooks_agree; [exact Hx|].
      clear Hx. intros y4 v4 Hx. calling Hx. eapply hooks_agree; [exact Hx|]. clear Hx. intros y5 v5 Hx.
      writing Hx puts_int. by apply did_stands.
    + apply did_nothing; [by contradict Hne; apply Hrc|by eapply stands_left].
Qed.

Lemma del_prepared_agrees id rest out K x w :
  is_u64 id -> stands (le_split 8 id ++ rest) out K x w ->
  agree (did rest out K) (state_del_prepared Q aux x) (direct_del_prepared Q aux id w).
Proof.
  intros Hid Hx. unfold state_del_prepared, direct_del_prepared.
  reading Hx (req_int 8). eapply agree_valid; [exact Hx|]. cbn [negb].
  eapply agree_session; [exact Hx|]. clear Hx. intros s y v Hx. calling Hx. destruct c as [rc s'].
  eapply agree_session; [exact Hx|]. clear Hx. intros [] y1 v1 Hx.
  destruct (negb (bool_decide (rc = RS_OK))); [by eapply fails_did_end, stands_left|].
  eapply (agree_then (fun rc rc' x w => rc = rc' /\ stands rest out K x w)).
  - eapply hooks_agree; [exact Hx|]. clear Hx. intros y2 v2 Hx. calling Hx.
    eapply hooks_agree; [exact Hx|]. clear Hx. intros y3 v3 Hx. by split.
  - clear Hx. intros r ? y2 v2 [<- Hx]. apply did_stands. cbn [enc_body]. by rewrite app_nil_r.
Qed.

(** The flag of an operation and what follows it. *)
Definition op_flag (o : op) : Z :=
  match o with
  | OStmt _ _ => MSG_FLAG_STMT
  | OStmtId _ _ => MSG_FLAG_STMT_ID
  | OPrepare _ => MSG_FLAG_STMT_PREPARE
  | ODelPrepared _ => MSG_FLAG_STMT_DEL_PREPARED
  end.
Definition op_args (o : op) : list byte :=
  match o with
  | OStmt sql bs => enc_str sql ++ enc_binds bs
  | OStmtId id bs => le_split 8 id ++ enc_binds bs
  | OPrepare sql => enc_str sql
  | ODelPrepared id => le_split 8 id
  end.

Lemma enc_op_eq p : enc_op p = enc_flag MSG_FLAG_OP ++ enc_flag (op_flag p) ++ op_args p ++ enc_flag MSG_FLAG_OP_END.
Proof. unfold enc_op. by destruct p; cbn [op_flag op_args]; rewrite <- ?app_assoc. Qed.

(** Turns of the loop over the parameters of an operation. *)
Definition op_fuel (o : op) : nat :=
  match o with OStmt _ bs | OStmtId _ bs => S (length bs) | _ => O end.

Definition did_op (rest out : list byte) (K : Prop) (rc : option rs_rc) (r : option rs_rc * reply) (x : ex Q) (w : world Q) : Prop :=
  rc = r.1 /\
  match rc with
  | Some rc => did rest out K rc (rc, r.2) x w
  | None => strayed (out ++ enc_body r.2) x w
  end.

Lemma agree_did_op {B} (m : execM Q rs_rc) (d : dirM Q (rs_rc * reply)) (f : rs_rc * reply -> dirM Q B) rest out K x w P :
  agree (did rest out K) (m x) (d w) ->
  (forall rc r x w, did rest out K rc (rc, r) x w -> agree P (Some (Some rc, x)) (f (rc, r) w)) ->
  agree P ((rc ← m; mret (Some rc)) x) ((d ≫= f) w).
Proof.
  intros H Hk. eapply agree_bind; [exact H|]. intros rc [rc' r] y v Hd. pose proof Hd as [E _]. cbn in E. subst rc'. by apply Hk.
Qed.

Lemma op_agrees fuel readonly index op rest out K x w :
  sqlite_answers -> op_ok op -> (op_fuel op <= fuel)%nat -> stands (op_args op ++ rest) out K x w ->
  agree (did_op rest out K) (exec_op Q aux fuel readonly index (op_flag op) x) (direct_op Q aux readonly index op w).
Proof.
  intros Hb Hok Hl Hx. unfold exec_op.
  unfold MSG_FLAG_STMT, MSG_FLAG_STMT_ID, MSG_FLAG_STMT_PREPARE, MSG_FLAG_STMT_DEL_PREPARED.
  destruct op as [sql bs|id bs|sql|id]; cbn [op_flag op_args op_ok op_fuel direct_op] in *; try destruct Hok;
    rewrite <- ?app_assoc in Hx; destruct readonly; cbn -[state_exec_stmt state_exec_stmt_id state_prepare_stmt
      state_del_prepared direct_stmt direct_stmt_id direct_prepare direct_del_prepared mbind text].
  all: try (eapply agree_did_op; [first [by apply stmt_agrees | by apply stmt_id_agrees | by apply prepare_agrees | by apply del_prepared_agrees]|];
    intros rc r y v Hd; by split).
  all: destruct (stands_left _ _ _ _ _ Hx) as [<- Ho]; split; [done|]; cbn [snd enc_body]; by rewrite app_nil_r.
Qed.

(** *** The request *)

Fixpoint ops_fuel (ops : list op) : nat :=
  match ops with
  | [] => 1
  | p :: ops => S (op_fuel p `max` ops_fuel ops)
  end.

Definition did_ops (rest out : list byte) (K : Prop) (a : rs_rc + Z) (r : option (rs_rc * reply) * list reply)
    (x : ex Q) (w : world Q) : Prop :=
  let out := out ++ concat (map enc_reply r.2) ++ enc_failed r.1 in
  match a, r.1 with
  | inl rc, Some (rc', _) => rc = rc' /\ strayed out x w
  | inr flag, None => flag = MSG_FLAG_MSG_END /\ stands rest out K x w
  | _, _ => False
  end.

Lemma did_ops_cons rest out K a fail rs r x w :
  did_ops rest (out ++ enc_reply r) K a (fail, rs) x w -> did_ops rest out K a (fail, r :: rs) x w.
Proof.
  unfold did_ops. cbn [fst snd map concat]. rewrite <- !app_assoc. done.
Qed.

Lemma strayed_eq out out' x w : strayed out x w -> out = out' -> strayed out' x w.
Proof. by intros H <-. Qed.

(** The length the state machine computes for a reply. *)
Lemma reply_length xs body b :
  appended o (xs ++ le_split 4 0 ++ body ++ le_split 1 MSG_FLAG_OP_END) b ->
  sc_buf_set_32_at b (b_wpos o + zlen xs) (b_wpos b -₃₂ (b_wpos o + zlen xs)) =
  sc_buf_set_32_at b (b_wpos o + zlen xs) (zlen body + 5).
Proof.
  intros Ha. f_equal. pose proof (a_wpos _ _ _ o_wf Ha) as Hw. rewrite !zlen_app, !zlen_le_split in Hw.
  pose proof (a_wf _ _ _ Ha) as []. pose proof o_wf as []. pose proof (zlen_nonneg body). pose proof (zlen_nonneg xs).
  rewrite u32_small by lia. lia.
Qed.

Lemma ops_agree readonly index ops : sqlite_answers -> Forall op_ok ops -> forall fuel rest out K x w,
  (ops_fuel ops <= fuel)%nat -> stands (enc_request ops ++ rest) out K x w ->
  agree (did_ops rest out K) (exec_ops Q aux fuel readonly index x) (direct_ops Q aux readonly index ops w).
Proof.
  intros Hb. induction ops as [|p ops IH]; intros Hok [|fuel] rest out K x w Hl Hx; try (simpl in Hl; lia);
    cbn [exec_ops direct_ops].
  - unfold enc_request in Hx. cbn [map concat app] in Hx. reading Hx req_flag. split; [done|].
    apply (stands_weaken _ _ _ _ _ _ _ Hx); [|done]. by rewrite app_nil_r.
  - apply Forall_cons in Hok as [Hp Hok]. unfold enc_request in Hx. cbn [map concat] in Hx. rewrite enc_op_eq, <- !app_assoc in Hx.
    reading Hx req_flag. change (negb (MSG_FLAG_OP =? MSG_FLAG_OP)) with false. cbv iota.
    unfold sc_buf_put_8, sc_buf_put_32. writing Hx puts_int.
    eapply agree_wpos; [exact Hx|]. clear Hx. intros pos Hx. writing Hx puts_int.
    assert (is_u8 (op_flag p)) by (by destruct p). reading Hx req_flag.
    eapply agree_bind; [apply op_agrees; try done; simpl in Hl; lia|]. clear Hx.
    intros rc [rc' r] y v [E Hd]. cbn [fst snd] in *. subst rc'. destruct rc as [rc|].
    2: { split; [done|]. eapply strayed_eq; [exact Hd|]. cbn [map concat app enc_failed fst snd]. by rewrite <- !app_assoc. }
    destruct (bool_decide_reflect (rc = RS_OK)) as [->|Hne]; cbn [negb orb].
    + apply did_ok in Hd. cbn [snd] in Hd. reading Hd req_flag.
      change (negb (MSG_FLAG_OP_END =? MSG_FLAG_OP_END)) with false. cbv iota. writing Hd puts_int.
      rewrite <- (app_assoc _ (enc_body r)), <- (app_assoc _ (le_split 4 0)) in Hd.
      eapply (agree_patch _ pos (zlen (enc_body r) + 5)); [exact Hd|done|by intros [_ ->]|by intros b [_ ->]; apply reply_length|].
      clear Hd. intros y1 v1 Hd. eapply agree_then.
      * apply IH; [done|simpl in Hl; lia|]. unfold enc_request. rewrite <- app_assoc.
        apply (stands_weaken _ _ _ _ _ _ _ Hd); [reflexivity|]. by intros [? _].
      * intros a [fail rs] y2 v2 Ha. apply did_ops_cons. unfold enc_reply, enc_flag. by rewrite <- !app_assoc in Ha.
    + apply did_left in Hd. cbn [snd] in Hd. eapply agree_get_left; [exact Hd|]. clear Hd. intros flag y1 v1 Hd.
      split; [done|]. eapply strayed_eq; [exact Hd|]. cbn [map concat app enc_failed fst snd]. by rewrite <- !app_assoc.
Qed.

End refine.

(** The header of a response, whose length is set at the end. *)
Definition resp_header : list byte := le_split 4 0 ++ le_split 1 MSG_CLIENT_RESP.

Lemma puts_header : puts resp_header (fun b => snd (msg_create_client_resp_header b)).
Proof. apply (puts_app _ _ (fun b => sc_buf_put 4 b 0) (fun b => sc_buf_put 1 b MSG_CLIENT_RESP)); apply puts_int. Qed.

Definition frame (a : answer) : list byte := enc_msg (client_resp (enc_answer a)).

Lemma enc_client_resp d : enc_msg (client_resp d) = le_split 4 (zlen d + 5) ++ le_split 1 MSG_CLIENT_RESP ++ d.
Proof.
  unfold enc_msg, frame_fields, enc_fields, frame_len. cbn [map concat enc_field msg_fields msg_type msg_payload default fields_size foldr].
  unfold MSG_FIXED_LEN, MSG_SIZE_LEN, MSG_TYPE_LEN, id. rewrite <- !app_assoc. do 2 f_equal. lia.
Qed.

(** Setting the length makes a response a frame. *)
Lemma finalize_frame o d b :
  buf_wf o -> b_err o = 0 -> b_rpos o = 0 -> b_wpos o = 0 -> appended o (resp_header ++ d) b ->
  let b' := snd (msg_finalize_client_resp b) in
  sc_buf_valid b' = true /\ buf_wf b' /\ b_rpos b' = 0 /\ contents b' = enc_msg (client_resp d).
Proof.
  intros Hwf He Hr Hw Ha. unfold resp_header in Ha. rewrite <- app_assoc in Ha. pose proof (a_wpos _ _ _ Hwf Ha) as Hl.
  rewrite !zlen_app, !zlen_le_split, Hw in Hl.
  pose proof (appended_patch o [] (le_split 4 0) _ b 4 (zlen d + 5) Hwf He Ha (length_le_split 4 0)) as Hp.
  rewrite Hw in Hp. change (0 + zlen []) with 0 in Hp. cbn [app] in Hp. cbv zeta.
  replace (snd (msg_finalize_client_resp b)) with (snd (sc_buf_set_pos 4 b 0 (zlen d + 5))).
  2: { unfold msg_finalize_client_resp, sc_buf_set_32_at, sc_buf_set_32_pos. cbn [snd]. do 2 f_equal. lia. }
  remember (snd (sc_buf_set_pos 4 b 0 (zlen d + 5))) as b' eqn:E. clear E.
  unfold sc_buf_valid. rewrite (a_err _ _ _ Hp), He, (a_rpos _ _ _ Hp), Hr. split_and!; try done; [apply Hp|].
  rewrite contents_wpos, (a_written _ _ _ Hp), enc_client_resp by (apply Hp || by rewrite (a_rpos _ _ _ Hp)).
  unfold written. by rewrite Hw, mread_nil.
Qed.

(** A buffer that grew from [o] and is cleared has the room of [o]. *)
Lemma clear_again o out b :
  b_wpos o = 0 -> appended o out b ->
  let c := sc_buf_clear b in
  buf_wf c /\ b_err c = 0 /\ b_rpos c = 0 /\ b_wpos c = 0 /\ forall n, fits o n -> fits c n.
Proof.
  intros Hw Ha. pose proof (a_wf _ _ _ Ha) as []. cbv zeta. split_and!; try done; [split; simpl; lia|].
  intros n [Hn Hr]. unfold fits, no_wrap, room in *. cbn [sc_buf_clear b_wpos b_cap b_limit b_ref].
  rewrite (a_limit _ _ _ Ha), (a_ref _ _ _ Ha). pose proof (a_cap _ _ _ Ha). rewrite Hw in *.
  split; [lia|]. destruct Hr as [?|[? ?]]; [left|right; split; [done|]]; lia.
Qed.

(** The buffer of a refusal. *)
Definition error_buf (b : sc_buf) (err : option (list byte)) : sc_buf :=
  let b := snd (msg_create_client_resp_header (sc_buf_clear b)) in
  let b := sc_buf_put_str (sc_buf_put_8 b MSG_FLAG_ERROR) err in
  snd (msg_finalize_client_resp (sc_buf_put_8 b MSG_FLAG_MSG_END)).

Lemma error_frame o out b err :
  b_wpos o = 0 -> appended o out b -> fits o (zlen (frame (Refused err))) ->
  let b' := error_buf b err in
  sc_buf_valid b' = true /\ buf_wf b' /\ b_rpos b' = 0 /\ contents b' = frame (Refused err).
Proof.
  intros Hw Ha Hf. destruct (clear_again o out b Hw Ha) as (Hwf & He & Hr & Hw' & Hfit). apply Hfit in Hf.
  unfold error_buf, frame. cbv zeta. apply (finalize_frame (sc_buf_clear b)); try done.
  rewrite <- (app_nil_l (resp_header ++ _)). unfold frame in Hf. rewrite enc_client_resp in Hf.
  apply (puts_appended _ [] _ _ (fun b => sc_buf_put_8 (sc_buf_put_str (sc_buf_put_8
    (snd (msg_create_client_resp_header b)) MSG_FLAG_ERROR) err) MSG_FLAG_MSG_END)); [done|done|..].
  - eapply fits_le; [exact Hf|]. unfold resp_header. cbn [app]. rewrite !zlen_app, !zlen_le_split. lia.
  - by apply appended_nil.
  - apply (puts_app _ _ (fun b => snd (msg_create_client_resp_header b)) (fun b => sc_buf_put_8 (sc_buf_put_str
      (sc_buf_put_8 b MSG_FLAG_ERROR) err) MSG_FLAG_MSG_END)); [apply puts_header|].
    apply (puts_app _ _ (fun b => sc_buf_put_8 b MSG_FLAG_ERROR) (fun b => sc_buf_put_8 (sc_buf_put_str b err) MSG_FLAG_MSG_END));
      [apply puts_int|].
    apply (puts_app _ _ (fun b => sc_buf_put_str b err) (fun b => sc_buf_put_8 b MSG_FLAG_MSG_END)); [apply puts_str|apply puts_int].
Qed.

(** A buffer that holds one frame to be sent. *)
Definition holds (b : sc_buf) (f : list byte) : Prop :=
  sc_buf_valid b = true /\ buf_wf b /\ b_rpos b = 0 /\ contents b = f.

Section request.
Variable Q : sqlite.
Variable aux : aux_stmts.
Variable o : sc_buf.
Hypothesis o_wf : buf_wf o.
Hypothesis o_err : b_err o = 0.
Hypothesis o_rpos : b_rpos o = 0.
Hypothesis o_wpos : b_wpos o = 0.

Lemma refuse_agrees rc out x w :
  strayed Q o out x w ->
  agree Q (fun rc r x w => rc = r.1 /\ view Q x = w /\
      (fits o (zlen out) -> fits o (zlen (frame r.2)) -> holds (x_resp x) (frame r.2)))
    (exec_error Q aux rc x) (direct_refuse Q aux rc w).
Proof.
  intros [<- Ho]. destruct x as [c e s r b]. unfold exec_error, direct_refuse, state_encode_error, state_errstr, direct_errstr.
  unfold mbind, execM_bind, dirM_bind, resp, get_err, dget_err, last_err, derr, view, dhooks, sql, dsql, on_hooks, see.
  destruct e as [e|]; cbn [x_conn x_last_err x_sess x_req x_resp g_conn g_err g_sess mret execM_ret dirM_ret].
  all: destruct (sqlite3_step Q (aux_rollback aux) _) as [rc1 c1]; split_and!; [done..|].
  all: intros Hf Hf'; destruct (Ho Hf) as [Ha _]; by apply (error_frame o out b).
Qed.

(** The outcome of a request, if the response fits while it is written and at the end. *)
Definition answers (rc : rs_rc) (r : rs_rc * option answer * list byte) (x : ex Q) (w : world Q) : Prop :=
  let '(rc', a, progress) := r in
  fits o (zlen (resp_header ++ progress)) -> (forall a', a = Some a' -> fits o (zlen (frame a'))) ->
  rc = rc' /\ view Q x = w /\ forall a', a = Some a' -> holds (x_resp x) (frame a').

Lemma finish_agrees rest rs K x w :
  stands Q o rest (resp_header ++ enc_progress None rs) K x w ->
  agree Q answers (exec_finish Q aux x) (Some ((RS_OK, Some (Answered rs), enc_progress None rs), w)).
Proof.
  intros [<- _ _ _ Ho]. destruct x as [c e s r b]. unfold exec_finish.
  unfold mbind, execM_bind, resp, ask_resp. cbn [x_conn x_last_err x_sess x_req x_resp] in *.
  set (b' := snd (msg_finalize_client_resp (sc_buf_put_8 b MSG_FLAG_MSG_END))).
  assert (H : fits o (zlen (resp_header ++ enc_progress None rs)) -> fits o (zlen (frame (Answered rs))) ->
    holds b' (frame (Answered rs))).
  { intros Hf Hf'. destruct (Ho Hf) as [Ha _]. unfold frame in *. rewrite enc_client_resp in Hf'.
    apply (finalize_frame o); try done. cbn [enc_answer]. unfold enc_progress in Ha. cbn [enc_failed] in Ha. rewrite app_nil_r in Ha.
    rewrite !app_assoc in Ha. rewrite !app_assoc. apply (puts_appended o _ (enc_flag MSG_FLAG_MSG_END) b (fun b => sc_buf_put_8 b MSG_FLAG_MSG_END)); [done..| |done|apply puts_int].
    eapply fits_le; [exact Hf'|]. cbn [enc_answer]. unfold resp_header. rewrite !zlen_app, !zlen_le_split. lia. }
  destruct (sc_buf_valid b') eqn:E.
  - intros Hf Hf'. split_and!; [done..|]. intros a' [= <-]. by apply H, Hf'.
  - destruct (error_exit Q aux RS_OK (mk_ex c (Some (if b_err b' =? SC_BUF_OOM then text "Response is too big." else text "Internal error.")) s r b'))
      as [x' Ex]. unfold last_err. cbn [x_conn x_last_err x_sess x_req x_resp]. rewrite Ex.
    intros Hf Hf'. destruct (H Hf (Hf' _ eq_refl)) as [Hv _]. congruence.
Qed.

Lemma refused_answers rc out fail rs x w :
  strayed Q o (resp_header ++ enc_progress fail rs) x w -> out = enc_progress fail rs ->
  agree Q answers (exec_error Q aux rc x) (('(rc, a) ← direct_refuse Q aux rc; mret (rc, Some a, out)) w).
Proof.
  intros Hx ->. eapply agree_then; [by apply refuse_agrees|]. intros rc1 [rc' a] y v (E & Hv & H). cbn [fst snd] in *.
  intros Hf Hf'. split_and!; [done..|]. intros a' [= <-]. auto.
Qed.
End request.

Section theorem.
Variable Q : sqlite.
Variable aux : aux_stmts.

Lemma request_agrees fuel index readonly ops rest x :
  sqlite_answers Q -> Forall op_ok ops -> (ops_fuel ops <= fuel)%nat ->
  buf_wf (x_req x) -> b_err (x_req x) = 0 -> contents (x_req x) = enc_request ops ++ rest -> buf_wf (x_resp x) ->
  agree Q (answers Q (sc_buf_clear (x_resp x))) (state_exec_request Q aux fuel index readonly x)
    (direct_request Q aux readonly index ops (view Q x)).
Proof.
  intros Hb Hok Hfuel Hwf He Hc Hwr. pose proof (wf_clear _ Hwr) as Ho. set (o := sc_buf_clear (x_resp x)) in *.
  assert (Hx : stands Q o (enc_request ops ++ rest) (resp_header ++ enc_flag MSG_FLAG_OK) True
    (mk_ex (x_conn x) (x_last_err x) (x_sess x) (x_req x)
       (sc_buf_put_8 (snd (msg_create_client_resp_header o)) MSG_FLAG_OK)) (view Q x)).
  { split; try done. intros Hf. split; [|done].
    apply (puts_appended o [] (resp_header ++ enc_flag MSG_FLAG_OK) o (fun b => sc_buf_put_8 (snd (msg_create_client_resp_header b)) MSG_FLAG_OK)); [done..|by apply appended_nil|].
    apply (puts_app resp_header (enc_flag MSG_FLAG_OK) (fun b => snd (msg_create_client_resp_header b))
      (fun b => sc_buf_put_8 b MSG_FLAG_OK)); [apply puts_header|apply puts_int]. }
  unfold state_exec_request, direct_request.
  eapply (agree_sql _ o); [exact Hx|]. clear Hx. intros rc y v Hx.
  destruct (negb (rc =? SQLITE_DONE)); [intros _ _; split_and!; [done|by destruct Hx|done]|].
  eapply agree_bind; [by apply (ops_agree Q aux o)|]. clear Hx. intros a [fail rs] y1 v1 Hx.
  unfold did_ops in Hx. cbn [fst snd] in Hx. rewrite <- app_assoc in Hx. fold (enc_progress fail rs) in Hx.
  destruct a as [rc1|flag], fail as [[rc2 r]|]; try done.
  - destruct Hx as [<- Hx]. by eapply refused_answers.
  - destruct Hx as [-> Hx]. eapply agree_valid; [exact Hx|].
    change (negb (MSG_FLAG_MSG_END =? MSG_FLAG_MSG_END) || negb true) with false. cbv iota.
    eapply (agree_sql _ o); [exact Hx|]. clear Hx. intros rc2 y2 v2 Hx. destruct (negb (rc2 =? SQLITE_DONE)).
    + eapply refused_answers; [done..|by eapply stands_left|done].
    + by eapply finish_agrees.
Qed.

(** C4: requests and responses.  The state machine runs the bytes of a request exactly as
    the operations it encodes: it makes the same calls of SQLite and of the session in the
    same order, with the parameters of the operations, ends with the same code and the same
    database and session, and the response buffer holds one frame, which encodes the
    replies of the operations or the message of the error.  Bytes behind the end of the
    request are not read. *)
Theorem request_refines fuel index readonly ops rest x rc a progress w :
  sqlite_answers Q -> Forall op_ok ops -> (ops_fuel ops <= fuel)%nat ->
  buf_wf (x_req x) -> b_err (x_req x) = 0 -> contents (x_req x) = enc_request ops ++ rest -> buf_wf (x_resp x) ->
  direct_request Q aux readonly index ops (view Q x) = Some (rc, a, progress, w) ->
  fits (sc_buf_clear (x_resp x)) (zlen (resp_header ++ progress)) ->
  (forall a', a = Some a' -> fits (sc_buf_clear (x_resp x)) (zlen (frame a'))) ->
  exists x', state_exec_request Q aux fuel index readonly x = Some (rc, x') /\ view Q x' = w /\
    forall a', a = Some a' -> holds (x_resp x') (frame a').
Proof.
  intros Hb Hok Hfuel Hwf He Hc Hwr Hd Hf Hf'.
  pose proof (request_agrees fuel index readonly ops rest x Hb Hok Hfuel Hwf He Hc Hwr) as H. rewrite Hd in H. unfold agree in H.
  destruct (state_exec_request Q aux fuel index readonly x) as [[rc' x']|]; [|done].
  destruct (H Hf Hf') as (-> & Hv & Ha). by exists x'.
Qed.
End theorem.

(** ** A small database

    A statement that is not one of the server's returns two rows. *)
Definition rows_sqlite : sqlite := {|
  db := nat;
  sq_prepare := fun d sql len => Done ((SQLITE_OK, 100), 2%nat);
  sq_finalize := fun d stmt => d;
  sq_clear_bindings := fun d stmt => d;
  sq_reset := fun d stmt => d;
  sq_stmt_readonly := fun d stmt => true;
  sq_sql := fun d stmt => [];
  sq_bind_parameter_index := fun d stmt name => 1;
  sq_bind := fun d stmt idx p => (SQLITE_OK, d);
  sq_step := fun d stmt =>
    if stmt =? 100 then match d with O => Done (SQLITE_DONE, O) | S d => Done (SQLITE_ROW, d) end else Done (SQLITE_DONE, d);
  sq_left := fun d stmt => S d;
  sq_changes := fun d => 3;
  sq_last_insert_rowid := fun d => -7;
  sq_columns := fun d stmt => [Some (text "id"); Some (text "name")];
  sq_row := fun d stmt => [VInteger (-1); VText (text "ada")];
  sq_errmsg := fun d => None;
  sq_value_text := fun v => None;
  sq_value_int64 := fun v => 0
|}.

Lemma rows_sqlite_answers : sqlite_answers rows_sqlite.
Proof. split; intros; intros ?; done. Qed.

Definition rows_conn : conn rows_sqlite :=
  mk_conn (2%nat : db rows_sqlite) demo_hooks.
Definition rows_world : world rows_sqlite := mk_world rows_conn None (session_create (Some (text "client")) 1).

Definition rows_ops : list op :=
  [OStmt (Some (text "SELECT * FROM t WHERE id = ? AND name = :n;")) [(ByIndex 0, DInteger (-5)); (ByName (Some (text ":n")), DText (Some (text "ada")))];
   OPrepare (Some (text "SELECT 1;"))].

Definition rows_ex : ex rows_sqlite :=
  mk_ex rows_conn None (session_create (Some (text "client")) 1)
    (sc_buf_wrap (enc_request rows_ops) (zlen (enc_request rows_ops)) SC_BUF_READ) (sc_buf_init 512).

Definition rows_reply : reply :=
  RRows 3 (-7) [Some (text "id"); Some (text "name")] [[VInteger (-1); VText (text "ada")]; [VInteger (-1); VText (text "ada")]].

Lemma rows_run : exists progress w,
  direct_request rows_sqlite demo_aux false 9 rows_ops (view rows_sqlite rows_ex) =
    Some (RS_OK, Some (Answered [rows_reply; RId 9]), progress, w) /\ zlen progress = 94.
Proof. eexists _, _. split; [vm_compute; reflexivity|]. vm_compute. reflexivity. Qed.

Lemma request_refines_witness : exists x,
  state_exec_request rows_sqlite demo_aux 10 9 false rows_ex = Some (RS_OK, x) /\
  holds (x_resp x) (frame (Answered [rows_reply; RId 9])).
Proof.
  destruct rows_run as (progress & w & E & Hl).
  destruct (request_refines rows_sqlite demo_aux 10 9 false rows_ops [] rows_ex RS_OK (Some (Answered [rows_reply; RId 9])) progress w)
    as (x & Ex & _ & Hh).
  - apply rows_sqlite_answers.
  - apply (bool_decide_unpack _). vm_compute. reflexivity.
  - vm_compute. repeat constructor.
  - apply wf_wrap. vm_compute. reflexivity.
  - reflexivity.
  - vm_compute. reflexivity.
  - apply wf_init. lia.
  - exact E.
  - rewrite zlen_app, Hl. split; left; vm_compute; discriminate.
  - intros a' [= <-]. split; left; vm_compute; discriminate.
  - exists x. split; [exact Ex|]. apply Hh. reflexivity.
Defined.
