(* ===== verification/Resql.v ===== *)
(** * The client library (cresql/resql.c)

    A client builds a request in its buffer [req], sends it to the node it is connected to,
    reconnects and sends it again until a response arrives or the time is over, and reads the
    results out of the response.  The library has its own copies of the buffers, strings and
    URIs of lib/sc, with the same code: the definitions of [Buf], [Str] and [Uri] are used
    for them.  An allocation that fails makes a buffer invalid just as its limit does.

    The network, the clock and the address resolution are operations on a state of the
    environment; [None] is the result of a call that does not return or whose behaviour is
    undefined. *)

From Stdlib Require Import ZArith Lia.
From Stdlib Require Import Strings.Byte.
From stdpp Require Import base list numbers gmap strings.
From S2P Require Import Prelude Str Uri Buf Msg Sql Exec.

Inductive resql_rc :=
| RESQL_OK | RESQL_ERROR | RESQL_SQL_ERROR | RESQL_CONFIG_ERROR | RESQL_OOM
| RESQL_DONE | RESQL_PARTIAL | RESQL_INVALID | RESQL_FATAL.

#[export] Instance resql_rc_eq_dec : EqDecision resql_rc.
Proof. solve_decision. Defined.

(** ** Results *)

(** The type of a column selects the member of the union; [None] is a null pointer, and
    [RESQL_UNSET] a column that no row was read into. *)
Inductive cell :=
| RESQL_INTEGER (intval : Z)
| RESQL_FLOAT (floatval : Z)
| RESQL_TEXT (text : option (list byte))
| RESQL_BLOB (blob : option (list byte))
| RESQL_NULL
| RESQL_UNSET.

Record resql_column := mk_column { c_name : option (list byte); c_len : Z; c_val : cell }.

(** [row] has [column_cap] columns. *)
Record resql_result := mk_result {
  rs_next_result : Z;
  rs_changes : Z;
  rs_last_row_id : Z;
  rs_row_count : Z;
  rs_remaining_rows : Z;
  rs_row_pos : Z;
  rs_column_count : Z;
  rs_buf : sc_buf;
  rs_row : list resql_column;
  rs_column_cap : Z
}.

Definition rs_with_buf (r : resql_result) (b : sc_buf) : resql_result :=
  mk_result (rs_next_result r) (rs_changes r) (rs_last_row_id r) (rs_row_count r) (rs_remaining_rows r)
    (rs_row_pos r) (rs_column_count r) b (rs_row r) (rs_column_cap r).

Definition to_int64 (v : Z) : Z := if v <? 2 ^ 63 then v else v - 2 ^ 64.

Definition resql_reset_rows (r : resql_result) : resql_result :=
  mk_result (rs_next_result r) (rs_changes r) (rs_last_row_id r) (rs_row_count r) (rs_row_count r)
    (rs_row_pos r) (rs_column_count r) (sc_buf_set_rpos (rs_buf r) (rs_row_pos r)) (rs_row r) (rs_column_cap r).

(** [rs->row[i].name = sc_buf_get_str()] for the next [n] columns. *)
Fixpoint read_names (n : nat) (row : list resql_column) : bufM (list resql_column) :=
  match n, row with
  | S n, c :: row =>
      name ← sc_buf_get_str;
      rest ← read_names n row;
      mret (mk_column name (c_len c) (c_val c) :: rest)
  | _, _ => mret row
  end.

Definition new_column : resql_column := mk_column None 0 RESQL_UNSET.

(** What [vsnprintf] prints for a format without arguments, if that is defined. *)
Fixpoint printed (format : list byte) : option (list byte) :=
  match format with
  | [] => Some []
  | x25 :: x25 :: format => cons x25 <$> printed format
  | x25 :: _ => None
  | b :: format => cons b <$> printed format
  end.

(** [realloc] of the columns. *)
Definition grow_row (row : list resql_column) (n : Z) : list resql_column :=
  row ++ replicate (Z.to_nat n - length row) new_column.

(** The sum [sc_buf_rpos(&rs->buf) + sc_buf_get_32(&rs->buf)] has an operand that changes
    what the other reads, and C leaves the order open: [left_first] is the choice of the
    compiler.  [alloc] tells whether the columns can be allocated. *)
Definition resql_next (left_first alloc : bool) (r : resql_result) : resql_rc * resql_result :=
  let b := sc_buf_set_rpos (rs_buf r) (rs_next_result r) in
  let '(op, b) := sc_buf_get_8 b in
  if negb (op =? MSG_FLAG_OP) then (RESQL_DONE, rs_with_buf r b)
  else
    let pos := b_rpos b in
    let '(len, b) := sc_buf_get_32 b in
    let next := (if left_first then pos else b_rpos b) +₃₂ len in
    let '(changes, b) := sc_buf_get_32 b in
    let '(rowid, b) := sc_buf_get_64 b in
    let '(flag, b) := sc_buf_get_8 b in
    if flag =? MSG_FLAG_ROW then
      let '(n, b) := sc_buf_get_32 b in
      let count := to_int n in
      if (count >? rs_column_cap r) && negb alloc then
        (RESQL_OOM, mk_result next (to_int changes) (to_int64 rowid) (-1) (-1) (rs_row_pos r) count b (rs_row r) (rs_column_cap r))
      else
        let '(row, cap) := if count >? rs_column_cap r then (grow_row (rs_row r) count, count) else (rs_row r, rs_column_cap r) in
        let '(row, b) := read_names (Z.to_nat count) row b in
        let '(rows, b) := sc_buf_get_32 b in
        (RESQL_OK, mk_result next (to_int changes) (to_int64 rowid) (to_int rows) (to_int rows) (b_rpos b) count b row cap)
    else
      (if flag =? MSG_FLAG_OP_END then RESQL_OK else RESQL_DONE,
       mk_result next (to_int changes) (to_int64 rowid) (-1) (-1) (rs_row_pos r) (rs_column_count r) b (rs_row r) (rs_column_cap r)).

(** One column: [None] for an unknown type. *)
Definition read_cell : bufM (option (Z * cell)) :=
  param ← sc_buf_get_8;
  if param =? 0 then v ← sc_buf_get_64; mret (Some (-1, RESQL_INTEGER (to_int64 v)))
  else if param =? 1 then v ← sc_buf_get_64; mret (Some (-1, RESQL_FLOAT v))
  else if param =? 2 then
    len ← sc_buf_peek_32; s ← sc_buf_get_str; mret (Some (to_int len, RESQL_TEXT s))
  else if param =? 3 then
    len ← sc_buf_get_32; d ← sc_buf_get_blob len; mret (Some (to_int len, RESQL_BLOB d))
  else if param =? 4 then mret (Some (-1, RESQL_NULL))
  else mret None.

(** The columns with what was read into them, and whether all of them were read. *)
Fixpoint read_cells (n : nat) (row : list resql_column) : bufM (bool * list resql_column) :=
  match n, row with
  | S n, c :: row =>
      v ← read_cell;
      match v with
      | None => mret (false, c :: row)
      | Some (len, v) => '(ok, rest) ← read_cells n row; mret (ok, mk_column (c_name c) len v :: rest)
      end
  | _, _ => mret (true, row)
  end.

Definition resql_row (r : resql_result) : option (list resql_column) * resql_result :=
  if rs_remaining_rows r <=? 0 then (None, r)
  else
    let '((ok, row), b) := read_cells (Z.to_nat (rs_column_count r)) (rs_row r) (rs_buf r) in
    (if ok : bool then Some row else None,
     mk_result (rs_next_result r) (rs_changes r) (rs_last_row_id r) (rs_row_count r) (rs_remaining_rows r - 1)
       (rs_row_pos r) (rs_column_count r) b row (rs_column_cap r)).

(** ** Messages *)

Definition MSG_CLIENT_REQ_HEADER : Z := MSG_FIXED_LEN + 8 + 1.

(** The switch over the types a client receives; [None] is the default case. *)
Definition client_parse_body (type : Z) : bufM (option msg) :=
  if type =? MSG_CONNECT_RESP then
    rc ← sc_buf_get_8; sequence ← sc_buf_get_64; term ← sc_buf_get_64; nodes ← sc_buf_get_str;
    mret (Some (connect_resp rc sequence term nodes))
  else if type =? MSG_DISCONNECT_REQ then
    rc ← sc_buf_get_8; flags ← sc_buf_get_32; mret (Some (disconnect_req rc flags))
  else if type =? MSG_DISCONNECT_RESP then
    rc ← sc_buf_get_8; flags ← sc_buf_get_32; mret (Some (disconnect_resp rc flags))
  else if type =? MSG_CLIENT_RESP then
    d ← rest_of; mret (Some (client_resp d))
  else mret None.

(** The message is left as it was unless a frame is complete; then it is set even with
    [RESQL_ERROR]. *)
Definition client_msg_parse (buf : sc_buf) : (resql_rc * option msg) * sc_buf :=
  if sc_buf_size buf <? MSG_SIZE_LEN then ((RESQL_PARTIAL, None), buf)
  else
    let '(len, buf) := sc_buf_peek_32 buf in
    if len >? MSG_MAX_SIZE then ((RESQL_INVALID, None), buf)
    else if len =? 0 then ((RESQL_PARTIAL, None), buf)
    else if len >? sc_buf_size buf then ((RESQL_PARTIAL, None), buf)
    else
      let p := take (Z.to_nat len) (sc_buf_rbuf buf) in
      let buf := sc_buf_mark_read buf len in
      let tmp := sc_buf_wrap p len SC_BUF_READ in
      let '(_, tmp) := sc_buf_get_32 tmp in
      let '(type, tmp) := sc_buf_get_8 tmp in
      match client_parse_body type tmp with
      | (None, _) => ((RESQL_ERROR, Some (unknown_msg type)), buf)
      | (Some m, tmp) => ((if sc_buf_valid tmp then RESQL_OK else RESQL_ERROR, Some m), buf)
      end.

Definition client_create_connect_req (buf : sc_buf) (cluster_name name : option (list byte)) : bool * sc_buf :=
  let head := b_wpos buf in
  let len := u32 (MSG_SIZE_LEN + MSG_TYPE_LEN + 4 + sc_buf_str_len (Some MSG_RESQL_STR) +
                  sc_buf_str_len cluster_name + sc_buf_str_len name) in
  let buf := sc_buf_put_32 buf len in
  let buf := sc_buf_put_8 buf MSG_CONNECT_REQ in
  let buf := sc_buf_put_32 buf 0 in
  let buf := sc_buf_put_str buf (Some MSG_RESQL_STR) in
  let buf := sc_buf_put_str buf cluster_name in
  let buf := sc_buf_put_str buf name in
  if sc_buf_valid buf then (true, buf) else (false, sc_buf_set_wpos buf head).

Definition client_create_disconnect_req (buf : sc_buf) (rc flags : Z) : bool * sc_buf :=
  let head := b_wpos buf in
  let buf := sc_buf_put_32 buf (MSG_FIXED_LEN + MSG_RC_LEN + 4) in
  let buf := sc_buf_put_8 buf MSG_DISCONNECT_REQ in
  let buf := sc_buf_put_8 buf rc in
  let buf := sc_buf_put_32 buf flags in
  if sc_buf_valid buf then (true, buf) else (false, sc_buf_set_wpos buf head).

(** The header is left open; its bytes are set when the request is sent. *)
Definition msg_create_client_req_header (buf : sc_buf) : bool * sc_buf :=
  let buf := sc_buf_set_wpos buf MSG_CLIENT_REQ_HEADER in
  (sc_buf_valid buf, buf).

Definition msg_finalize_client_req (buf : sc_buf) (readonly : bool) (seq : Z) : bool * sc_buf :=
  let buf := sc_buf_set_32_at buf 0 (b_wpos buf) in
  let buf := sc_buf_set_8_at buf 4 MSG_CLIENT_REQ in
  let buf := sc_buf_set_8_at buf 5 (if readonly then 1 else 0) in
  let buf := sc_buf_set_64_at buf 6 seq in
  (sc_buf_valid buf, buf).

(** ** The client *)

(** The texts of [err]; those with arguments keep the arguments. *)
Inductive err_msg :=
| Err_none
| Err_text (s : list byte)
| Err_errno (prefix : list byte)
| Err_sock
| Err_rejected (rc : Z)
| Err_gone (server_seq client_seq : Z)
| Err_uri (token : list byte).

Record resql := mk_resql {
  cl_name : option (list byte);
  cl_cluster_name : option (list byte);
  cl_source_addr : option (list byte);
  cl_source_port : option (list byte);
  cl_timeout : Z;
  cl_connected : bool;
  cl_statement : bool;
  cl_error : bool;
  cl_seq : Z;
  cl_uris : list sc_uri;
  cl_uri_trial : Z;
  cl_uri_term : Z;
  cl_rs : resql_result;
  cl_resp : sc_buf;
  cl_req : sc_buf;
  cl_msg : option msg;
  cl_err : err_msg
}.

Definition set_flags (c : resql) (connected statement error : bool) (seq : Z) : resql :=
  mk_resql (cl_name c) (cl_cluster_name c) (cl_source_addr c) (cl_source_port c) (cl_timeout c) connected statement error seq
    (cl_uris c) (cl_uri_trial c) (cl_uri_term c) (cl_rs c) (cl_resp c) (cl_req c) (cl_msg c) (cl_err c).
Definition set_uris (c : resql) (uris : list sc_uri) (trial term : Z) : resql :=
  mk_resql (cl_name c) (cl_cluster_name c) (cl_source_addr c) (cl_source_port c) (cl_timeout c) (cl_connected c) (cl_statement c)
    (cl_error c) (cl_seq c) uris trial term (cl_rs c) (cl_resp c) (cl_req c) (cl_msg c) (cl_err c).
Definition set_bufs (c : resql) (rs : resql_result) (resp req : sc_buf) (m : option msg) : resql :=
  mk_resql (cl_name c) (cl_cluster_name c) (cl_source_addr c) (cl_source_port c) (cl_timeout c) (cl_connected c) (cl_statement c)
    (cl_error c) (cl_seq c) (cl_uris c) (cl_uri_trial c) (cl_uri_term c) rs resp req m (cl_err c).
Definition set_err (c : resql) (e : err_msg) : resql :=
  mk_resql (cl_name c) (cl_cluster_name c) (cl_source_addr c) (cl_source_port c) (cl_timeout c) (cl_connected c) (cl_statement c)
    (cl_error c) (cl_seq c) (cl_uris c) (cl_uri_trial c) (cl_uri_term c) (cl_rs c) (cl_resp c) (cl_req c) (cl_msg c) e.

Definition set_connected (c : resql) (v : bool) : resql := set_flags c v (cl_statement c) (cl_error c) (cl_seq c).
Definition set_statement (c : resql) (v : bool) : resql := set_flags c (cl_connected c) v (cl_error c) (cl_seq c).
Definition set_error (c : resql) (v : bool) : resql := set_flags c (cl_connected c) (cl_statement c) v (cl_seq c).
Definition set_seq (c : resql) (v : Z) : resql := set_flags c (cl_connected c) (cl_statement c) (cl_error c) v.
Definition set_rs (c : resql) (r : resql_result) : resql := set_bufs c r (cl_resp c) (cl_req c) (cl_msg c).
Definition set_resp (c : resql) (b : sc_buf) : resql := set_bufs c (cl_rs c) b (cl_req c) (cl_msg c).
Definition set_req (c : resql) (b : sc_buf) : resql := set_bufs c (cl_rs c) (cl_resp c) b (cl_msg c).
Definition set_msg (c : resql) (m : option msg) : resql := set_bufs c (cl_rs c) (cl_resp c) (cl_req c) m.

Definition resql_clear (c : resql) : resql :=
  let c := set_statement (set_error c false) false in
  set_req c (snd (msg_create_client_req_header (sc_buf_clear (cl_req c)))).

(** *** Building a request *)

Definition put_req (f : sc_buf -> sc_buf) (c : resql) : resql := set_req c (f (cl_req c)).

(** The end of the statement before. *)
Definition end_statement (c : resql) : resql :=
  if cl_statement c then put_req (fun b => sc_buf_put_8 (sc_buf_put_8 b MSG_BIND_END) MSG_FLAG_OP_END) c else c.

Definition resql_put_sql (c : resql) (sql : option (list byte)) : resql :=
  let c := end_statement c in
  let c := put_req (fun b => sc_buf_put_str (sc_buf_put_8 (sc_buf_put_8 b MSG_FLAG_OP) MSG_FLAG_STMT) sql) c in
  set_statement c true.

Definition resql_put_prepared (c : resql) (stmt : Z) : resql :=
  let c := end_statement c in
  let c := put_req (fun b => sc_buf_put_64 (sc_buf_put_8 (sc_buf_put_8 b MSG_FLAG_OP) MSG_FLAG_STMT_ID) stmt) c in
  set_statement c true.

(** The guard of the ten bind functions. *)
Definition binding (c : resql) (f : sc_buf -> sc_buf) : resql :=
  if negb (cl_statement c) then set_err (set_error c true) (Err_text (text "missing statement before binding"))
  else put_req f c.

Definition put_param (b : sc_buf) (param : option (list byte)) : sc_buf := sc_buf_put_str (sc_buf_put_8 b MSG_BIND_NAME) param.
Definition put_index (b : sc_buf) (index : Z) : sc_buf := sc_buf_put_32 (sc_buf_put_8 b MSG_BIND_INDEX) (u32 index).

(** The values; a double is its bit pattern, [data] has [len] bytes. *)
Definition put_int (b : sc_buf) (val : Z) : sc_buf := sc_buf_put_64 (sc_buf_put_8 b MSG_PARAM_INTEGER) (u64 val).
Definition put_float (b : sc_buf) (val : Z) : sc_buf := sc_buf_put_64 (sc_buf_put_8 b MSG_PARAM_FLOAT) val.
Definition put_text (b : sc_buf) (val : option (list byte)) : sc_buf := sc_buf_put_str (sc_buf_put_8 b MSG_PARAM_TEXT) val.
Definition put_blob (b : sc_buf) (data : list byte) : sc_buf := sc_buf_put_blob (sc_buf_put_8 b MSG_PARAM_BLOB) data.
Definition put_null (b : sc_buf) : sc_buf := sc_buf_put_8 b MSG_PARAM_NULL.

Definition resql_bind_param_int (c : resql) (param : option (list byte)) (val : Z) : resql :=
  binding c (fun b => put_int (put_param b param) val).
Definition resql_bind_param_float (c : resql) (param : option (list byte)) (val : Z) : resql :=
  binding c (fun b => put_float (put_param b param) val).
Definition resql_bind_param_text (c : resql) (param val : option (list byte)) : resql :=
  binding c (fun b => put_text (put_param b param) val).
Definition resql_bind_param_blob (c : resql) (param : option (list byte)) (data : list byte) : resql :=
  binding c (fun b => put_blob (put_param b param) data).
Definition resql_bind_param_null (c : resql) (param : option (list byte)) : resql :=
  binding c (fun b => put_null (put_param b param)).
Definition resql_bind_index_int (c : resql) (index val : Z) : resql :=
  binding c (fun b => put_int (put_index b index) val).
Definition resql_bind_index_float (c : resql) (index val : Z) : resql :=
  binding c (fun b => put_float (put_index b index) val).
Definition resql_bind_index_text (c : resql) (index : Z) (val : option (list byte)) : resql :=
  binding c (fun b => put_text (put_index b index) val).
Definition resql_bind_index_blob (c : resql) (index : Z) (data : list byte) : resql :=
  binding c (fun b => put_blob (put_index b index) data).
Definition resql_bind_index_null (c : resql) (index : Z) : resql :=
  binding c (fun b => put_null (put_index b index)).

(** ** The environment *)

Inductive family := SC_SOCK_INET | SC_SOCK_INET6 | SC_SOCK_UNIX.
Inductive dialed := Dial_ok | Dial_error | Dial_fatal.

(** The clock, and the socket of the client.  Dialing is the connection of the socket with
    its timeouts set; it fails or is fatal.  Sending returns the number of bytes or -1.
    Receiving at most a number of bytes returns some, or [None] for a failure. *)
Record net := mk_net {
  net_state : Type;
  mono_ms : net_state -> Z * net_state;
  time_sleep : Z -> net_state -> net_state;
  dial : family -> list byte -> list byte -> option (list byte) -> option (list byte) -> net_state -> dialed * net_state;
  net_send : list byte -> net_state -> Z * net_state;
  net_recv : Z -> net_state -> option (list byte) * net_state;
  sock_term : net_state -> net_state
}.

Section client.
Variable E : net.

Definition clientM (A : Type) : Type := resql * net_state E -> option (A * (resql * net_state E)).

#[export] Instance clientM_ret : MRet clientM := fun A a s => Some (a, s).
#[export] Instance clientM_bind : MBind clientM :=
  fun A B f m s => match m s with None => None | Some (a, s) => f a s end.

Definition undefined {A} : clientM A := fun _ => None.
Definition upd (f : resql -> resql) : clientM () := fun '(c, n) => Some ((), (f c, n)).
Definition get {A} (f : resql -> A) : clientM A := fun '(c, n) => Some (f c, (c, n)).
Definition env {A} (f : net_state E -> A * net_state E) : clientM A := fun '(c, n) => let '(a, n) := f n in Some (a, (c, n)).
Definition env_ (f : net_state E -> net_state E) : clientM () := env (fun n => ((), f n)).
Definition on_resp {A} (f : sc_buf -> A * sc_buf) : clientM A := fun '(c, n) =>
  let '(a, b) := f (cl_resp c) in Some (a, (set_resp c b, n)).

Definition resql_err (e : err_msg) : clientM () := upd (fun c => set_err c e).

(** The text of the server is the format of the message, without arguments: two percent signs
    print one; another conversion, or no text at all, is undefined. *)
Definition resql_err_format (s : option (list byte)) : clientM () :=
  match s ≫= printed with
  | None => undefined
  | Some s => resql_err (Err_text (take 255 s))
  end.

Definition resql_disconnect : clientM () :=
  connected ← get cl_connected;
  if (connected : bool) then upd (fun c => set_connected c false);; env_ (sock_term E) else mret ().

Definition resql_reset : clientM () :=
  upd (fun c => set_uris c (cl_uris c) 0 0);;
  upd (fun c => set_statement (set_error c false) false);;
  upd (fun c => set_resp c (sc_buf_clear (cl_resp c)));;
  resql_disconnect;;
  upd resql_clear.

Definition resql_fatal (e : err_msg) : clientM () := resql_err e;; resql_reset.

(** [sc_sock_recv] into the response buffer, without moving its write position. *)
Definition sock_recv : clientM Z :=
  quota ← get (fun c => sc_buf_quota (cl_resp c));
  let len := to_int quota in
  if len <=? 0 then mret len
  else
    data ← env (net_recv E len);
    match data with
    | None => mret (-1)
    | Some d => upd (fun c => set_resp c (with_mem (cl_resp c) (mwrite (b_mem (cl_resp c)) (b_wpos (cl_resp c)) d)));; mret (zlen d)
    end.

(** [sc_sock_send] of the unread bytes of a buffer. *)
Definition sock_send (b : sc_buf) : clientM Z :=
  let len := to_int (sc_buf_size b) in
  if len <=? 0 then mret len else env (net_send E (take (Z.to_nat len) (sc_buf_rbuf b))).

(** ** Connecting *)

Definition CAP : nat := 16.

(** The nodes the server told, if it knows a later term. *)
Definition resql_copy_uris (term : Z) (nodes : option (list byte)) : clientM resql_rc :=
  last ← get cl_uri_term;
  if negb (last <? term) then mret RESQL_OK
  else
    match sc_str_create nodes with
    | None => mret RESQL_OOM
    | Some s =>
        match tokens (length (chars s) + 2) s None [x20] with
        | None => undefined
        | Some (ts, _) =>
            let uris := take CAP (omap (fun t => sc_uri_create (Some t)) ts) in
            if decide (uris = []) then mret RESQL_OK
            else upd (fun c => set_uris c uris 0 term);; mret RESQL_OK
        end
    end.

(** The loop that receives the response: [inl] is the code of a failed receive. *)
Fixpoint recv_connect_resp (fuel : nat) : clientM (resql_rc + resql_rc * option msg) :=
  match fuel with
  | O => undefined
  | S fuel =>
      rc ← sock_recv;
      if rc <? 0 then resql_err (Err_errno (text "sock recv failure : "));; mret (inl RESQL_ERROR)
      else
        upd (fun c => set_resp c (sc_buf_mark_write (cl_resp c) rc));;
        '(ret, m) ← on_resp client_msg_parse;
        if decide (ret = RESQL_PARTIAL) then recv_connect_resp fuel else mret (inr (ret, m))
  end.

Definition MSG_OK : Z := 0.
Definition MSG_CLUSTER_NAME_MISMATCH : Z := 2.

(** What the client does with the response: the number of the last request must be the one of
    the client or the one before. *)
Definition accept_connect_resp (rc sequence term : Z) (nodes : option (list byte)) : clientM resql_rc :=
  copied ← resql_copy_uris term nodes;
  if negb (bool_decide (copied = RESQL_OK)) then resql_err (Err_text (text "out of memory"));; mret RESQL_FATAL
  else if rc =? MSG_CLUSTER_NAME_MISMATCH then resql_err (Err_text (text "cluster name mismatch"));; mret RESQL_FATAL
  else if negb (rc =? MSG_OK) then resql_err (Err_rejected rc);; mret RESQL_ERROR
  else
    size ← get (fun c => sc_buf_size (cl_req c));
    if size =? 0 then upd (fun c => set_connected (set_seq c sequence) true);; mret RESQL_OK
    else
      seq ← get cl_seq;
      if negb (sequence =? seq) && negb (sequence =? seq -₆₄ 1) then
        resql_err (Err_gone sequence seq);; upd (fun c => set_seq c sequence);; mret RESQL_FATAL
      else upd (fun c => set_connected c true);; mret RESQL_OK.

Definition resql_recv_connect_resp (fuel : nat) : clientM resql_rc :=
  upd (fun c => set_resp c (sc_buf_clear (cl_resp c)));;
  c ← get id;
  b ← on_resp (fun b => client_create_connect_req b (cl_cluster_name c) (cl_name c));
  if negb b then resql_err (Err_text (text "out of memory"));; mret RESQL_FATAL
  else
    resp ← get cl_resp;
    rc ← sock_send resp;
    if rc <? 0 then resql_err (Err_errno (text "sock send failure : "));; mret RESQL_ERROR
    else
      upd (fun c => set_resp c (sc_buf_clear (cl_resp c)));;
      r ← recv_connect_resp fuel;
      match r with
      | inl rc => mret rc
      | inr (ret, m) =>
          match m with
          | Some (connect_resp rc sequence term nodes) =>
              if decide (ret = RESQL_INVALID) then resql_err (Err_text (text "received malformed message."));; mret RESQL_FATAL
              else accept_connect_resp rc sequence term nodes
          | _ => resql_err (Err_text (text "received malformed message."));; mret RESQL_FATAL
          end
      end.

Definition uri_family (u : sc_uri) : family :=
  if bool_decide (u_scheme u = text "unix") then SC_SOCK_UNIX
  else if bool_decide (head (u_host u) = Some LBRACKET) then SC_SOCK_INET6
  else SC_SOCK_INET.

Definition resql_connect (fuel : nat) : clientM resql_rc :=
  resql_disconnect;;
  c ← get id;
  match cl_uris c !! Z.to_nat (Z.rem (cl_uri_trial c) (zlen (cl_uris c))) with
  | None => undefined
  | Some uri =>
      upd (fun c => set_uris c (cl_uris c) (cl_uri_trial c + 1) (cl_uri_term c));;
      let fam := uri_family uri in
      let host := match fam with SC_SOCK_UNIX => u_path uri | _ => u_host uri end in
      d ← env (dial E fam host (u_port uri) (cl_source_addr c) (cl_source_port c));
      match d with
      | Dial_error => resql_err Err_sock;; env_ (sock_term E);; mret RESQL_ERROR
      | Dial_fatal => resql_err Err_sock;; env_ (sock_term E);; mret RESQL_FATAL
      | Dial_ok =>
          rc ← resql_recv_connect_resp fuel;
          if decide (rc = RESQL_OK) then mret RESQL_OK else env_ (sock_term E);; mret rc
      end
  end.

(** ** Sending a request *)

(** The time since [start] is over. *)
Definition timed_out (start : Z) : clientM bool :=
  now ← env (mono_ms E);
  timeout ← get cl_timeout;
  mret ((now -₆₄ start) >? timeout).

(** The end of the loop that receives the response. *)
Inductive received := Lost | No_memory | Parsed (rc : resql_rc).

Fixpoint recv_resp (fuel : nat) : clientM received :=
  match fuel with
  | O => undefined
  | S fuel =>
      n ← sock_recv;
      if n <=? 0 then upd (fun c => set_connected c false);; env_ (sock_term E);; mret Lost
      else
        upd (fun c => set_resp c (sc_buf_mark_write (cl_resp c) n));;
        '(rc, m) ← on_resp client_msg_parse;
        upd (fun c => match m with None => c | Some _ => set_msg c m end);;
        if decide (rc = RESQL_PARTIAL) then
          len ← get (fun c => msg_len (cl_resp c));
          if len =? -1 then recv_resp fuel
          else
            b ← on_resp (fun b => sc_buf_reserve b (u32 len));
            if (b : bool) then recv_resp fuel
            else resql_fatal (Err_text (text "Out of memory."));; mret No_memory
        else mret (Parsed rc)
  end.

(** Behind a response: the buffer the results are read from.  A message of another type is
    read as if it were a response, which is undefined. *)
Definition take_resp (rc : resql_rc) : clientM (resql_rc * option sc_buf) :=
  upd resql_clear;;
  if decide (rc = RESQL_ERROR \/ rc = RESQL_INVALID) then
    resql_fatal (Err_text (text "Out of memory."));; mret (RESQL_ERROR, None)
  else
    m ← get cl_msg;
    match m with
    | Some (client_resp d) =>
        let '(flag, resp) := sc_buf_get_8 (sc_buf_wrap d (zlen d) SC_BUF_READ) in
        if flag =? MSG_FLAG_ERROR then
          let '(s, resp) := sc_buf_get_str resp in
          resql_err_format s;; mret (RESQL_SQL_ERROR, Some resp)
        else mret (RESQL_OK, Some resp)
    | _ => undefined
    end.

(** Turns of [retry_op]. *)
Fixpoint send_req (fuel : nat) (start : Z) : clientM (resql_rc * option sc_buf) :=
  match fuel with
  | O => undefined
  | S fuel =>
      late ← timed_out start;
      if (late : bool) then resql_err (Err_text (text "Operation timeout."));; mret (RESQL_ERROR, None)
      else
        connected ← get cl_connected;
        rc ← (if (connected : bool) then mret RESQL_OK else resql_connect fuel);
        if decide (rc = RESQL_FATAL) then resql_reset;; mret (RESQL_ERROR, None)
        else if negb (bool_decide (rc = RESQL_OK)) then env_ (time_sleep E 500);; send_req fuel start
        else
          req ← get cl_req;
          n ← sock_send req;
          if n <? 0 then upd (fun c => set_connected c false);; env_ (sock_term E);; send_req fuel start
          else
            upd (fun c => set_resp c (sc_buf_clear (cl_resp c)));;
            r ← recv_resp fuel;
            match r with
            | Lost => send_req fuel start
            | No_memory => mret (RESQL_ERROR, None)
            | Parsed rc => take_resp rc
            end
  end.

Definition resql_send_req (fuel : nat) : clientM (resql_rc * option sc_buf) :=
  start ← env (mono_ms E);
  send_req fuel start.

(** ** Operations *)

(** [c->seq++], the header of the request, and back to its first byte. *)
Definition finalize_req (readonly : bool) : clientM () :=
  upd (fun c => set_req c (sc_buf_set_rpos (snd (msg_finalize_client_req (cl_req c) readonly (cl_seq c))) 0)).

Definition malformed : clientM resql_rc := resql_fatal (Err_text (text "Received malformed response"));; mret RESQL_ERROR.

(** The flags that end a response: the second is read, and must be there, only if the first
    is not the expected one. *)
Definition end_flags (tmp : sc_buf) : bool :=
  let '(f, tmp) := sc_buf_get_8 tmp in
  (f =? MSG_FLAG_OP_END) || (fst (sc_buf_get_8 tmp) =? MSG_FLAG_MSG_END).

(** The statement handle is set with [RESQL_OK] only. *)
Definition resql_prepare (fuel : nat) (sql : option (list byte)) : clientM (resql_rc * option Z) :=
  statement ← get cl_statement;
  if (statement : bool) then
    resql_err (Err_text (text "'Prepare' must be a single operation."));; upd resql_clear;; mret (RESQL_SQL_ERROR, None)
  else
    upd (put_req (fun b => sc_buf_put_8 (sc_buf_put_8 (sc_buf_put_str (sc_buf_put_8 (sc_buf_put_8 b MSG_FLAG_OP)
      MSG_FLAG_STMT_PREPARE) sql) MSG_FLAG_OP_END) MSG_FLAG_MSG_END));;
    upd (fun c => set_seq c (cl_seq c +₆₄ 1));;
    finalize_req false;;
    '(rc, tmp) ← resql_send_req fuel;
    match rc, tmp with
    | RESQL_OK, Some tmp =>
        let '(flag, tmp) := sc_buf_get_8 tmp in
        if negb (flag =? MSG_FLAG_OP) then rc ← malformed; mret (rc, None)
        else
          let '(_, tmp) := sc_buf_get_32 tmp in
          let '(id, tmp) := sc_buf_get_64 tmp in
          if negb (sc_buf_valid tmp) || negb (end_flags tmp) then rc ← malformed; mret (rc, None)
          else mret (RESQL_OK, Some id)
    | _, _ => mret (rc, None)
    end.

(** The handle of the caller is zeroed before the request is sent. *)
Definition resql_del_prepared (fuel : nat) (stmt : Z) : clientM resql_rc :=
  statement ← get cl_statement;
  if (statement : bool) then
    resql_err (Err_text (text "'Delete prepared' must be a single operation."));; upd resql_clear;; mret RESQL_SQL_ERROR
  else
    upd (put_req (fun b => sc_buf_put_8 (sc_buf_put_8 (sc_buf_put_64 (sc_buf_put_8 (sc_buf_put_8 b MSG_FLAG_OP)
      MSG_FLAG_STMT_DEL_PREPARED) stmt) MSG_FLAG_OP_END) MSG_FLAG_MSG_END));;
    upd (fun c => set_seq c (cl_seq c +₆₄ 1));;
    finalize_req false;;
    '(rc, tmp) ← resql_send_req fuel;
    match rc, tmp with
    | RESQL_OK, Some tmp =>
        let '(flag, tmp) := sc_buf_get_8 tmp in
        if negb (flag =? MSG_FLAG_OP) then malformed
        else
          let '(_, tmp) := sc_buf_get_32 tmp in
          if negb (end_flags tmp) then malformed else mret RESQL_OK
    | _, _ => mret rc
    end.

(** Behind a response: the first result is read. *)
Definition exec_end (left_first alloc : bool) (r : resql_rc * option sc_buf) : clientM resql_rc :=
  let '(rc, tmp) := r in
  match rc, tmp with
  | RESQL_OK, Some tmp =>
      upd (fun c =>
        let r := cl_rs c in
        let r := mk_result (b_rpos tmp) (rs_changes r) (rs_last_row_id r) (rs_row_count r) (rs_remaining_rows r)
                   (rs_row_pos r) (rs_column_count r) tmp (rs_row r) (rs_column_cap r) in
        set_rs c (snd (resql_next left_first alloc r)));;
      mret RESQL_OK
  | _, _ => upd resql_clear;; mret rc
  end.

(** The code; the result is [cl_rs] with [RESQL_OK] and a null pointer otherwise. *)
Definition resql_exec (left_first alloc : bool) (fuel : nat) (readonly : bool) : clientM resql_rc :=
  c ← get id;
  if negb (cl_statement c) then resql_err (Err_text (text "Missing statement."));; upd resql_clear;; mret RESQL_SQL_ERROR
  else if cl_error c then upd resql_clear;; mret RESQL_SQL_ERROR
  else if negb (sc_buf_valid (cl_req c)) then
    resql_err (Err_text (text "Out of memory!."));; upd resql_clear;; mret RESQL_SQL_ERROR
  else
    upd (put_req (fun b => sc_buf_put_8 (sc_buf_put_8 (sc_buf_put_8 b MSG_BIND_END) MSG_FLAG_OP_END) MSG_FLAG_MSG_END));;
    upd (fun c => set_statement c false);;
    upd (fun c => if readonly then c else set_seq c (cl_seq c +₆₄ 1));;
    finalize_req readonly;;
    r ← resql_send_req fuel;
    exec_end left_first alloc r.

(** ** Creation *)

Record resql_config := mk_config {
  conf_client_name : option (list byte);
  conf_cluster_name : option (list byte);
  conf_urls : option (list byte);
  conf_outgoing_addr : option (list byte);
  conf_outgoing_port : option (list byte);
  conf_timeout_millis : Z
}.

(** The URIs up to the first that does not parse, which is an error, or the fifteenth. *)
Fixpoint parse_urls (ts : list (list byte)) (uris : list sc_uri) : (list byte * list sc_uri) + list sc_uri :=
  match ts with
  | [] => inr uris
  | t :: ts =>
      match sc_uri_create (Some t) with
      | None => inl (t, uris)
      | Some u => if zlen (uris ++ [u]) + 1 =? 16 then inr (uris ++ [u]) else parse_urls ts (uris ++ [u])
      end
  end.

Fixpoint connect_loop (fuel : nat) (start : Z) : clientM resql_rc :=
  match fuel with
  | O => undefined
  | S fuel =>
      late ← timed_out start;
      if (late : bool) then mret RESQL_ERROR
      else
        rc ← resql_connect fuel;
        if decide (rc = RESQL_OK) then upd resql_clear;; mret RESQL_OK
        else if decide (rc = RESQL_FATAL) then resql_reset;; mret RESQL_ERROR
        else env_ (time_sleep E 500);; connect_loop fuel start
  end.

Definition empty_result : resql_result := mk_result 0 0 0 0 0 0 0 (sc_buf_wrap [] 0 SC_BUF_NONE) [] 0.

(** [user] is the name of the configuration or a generated one. *)
Definition new_client (conf : resql_config) (user : list byte) (uris : list sc_uri) : resql :=
  mk_resql (Some user) (Some (default (text "cluster") (conf_cluster_name conf))) (conf_outgoing_addr conf) (conf_outgoing_port conf)
    (if conf_timeout_millis conf =? 0 then UINT32_MAX else conf_timeout_millis conf) false false false 0 uris 0 0
    empty_result (sc_buf_init 1024) (sc_buf_init 1024) None Err_none.

(** The client exists after any result. *)
Definition resql_create (fuel : nat) (conf : resql_config) (generated : list byte) (n : net_state E) :
    option (resql_rc * (resql * net_state E)) :=
  let user := default generated (conf_client_name conf) in
  match sc_str_create (Some (default (text "tcp://127.0.0.1:7600") (conf_urls conf))) with
  | None => Some (RESQL_OOM, (set_err (new_client conf user []) (Err_text (text "Out of memory.")), n))
  | Some s =>
      match tokens (length (chars s) + 2) s None [x20] with
      | None => None
      | Some (ts, _) =>
          match parse_urls ts [] with
          | inl (t, uris) => Some (RESQL_CONFIG_ERROR, (set_err (new_client conf user uris) (Err_uri t), n))
          | inr uris =>
              let '(start, n) := mono_ms E n in
              connect_loop fuel start (new_client conf user uris, n)
          end
      end
  end.

(** The goodbye of a connected client; the memory is freed. *)
Definition resql_shutdown : clientM resql_rc :=
  connected ← get cl_connected;
  if (connected : bool) then
    upd (fun c => set_req c (snd (client_create_disconnect_req (sc_buf_clear (cl_req c)) MSG_OK 0)));;
    req ← get cl_req;
    n ← sock_send req;
    env_ (sock_term E);;
    mret RESQL_OK
  else mret RESQL_OK.
End client.
