(* ===== verification/Client.v ===== *)
(** * A client and the state machine together (cresql/resql.c, src/state.c)

    The calls of a client build the encoding of the operations they name, the state machine
    answers it as [Wire] says, and the client reads the replies back, however the network cuts
    the response into pieces. *)

From Stdlib Require Import ZArith Lia.
From Stdlib Require Import Strings.Byte.
From stdpp Require Import base list numbers gmap strings.
From S2P Require Import Prelude Str Uri Buf Msg Meta Sql Session Exec Wire Resql.

(** ** Reading a response *)

(** A reader of [bs] that returns [a]. *)
Definition takes {A} (m : bufM A) (bs : list byte) (a : A) : Prop :=
  forall b rest, buf_wf b -> contents b = bs ++ rest -> exists b', m b = (a, b') /\ consumed b bs rest b'.

Lemma takes_bind {A B} (m : bufM A) (f : A -> bufM B) xs ys a c :
  takes m xs a -> takes (f a) ys c -> takes (m ≫= f) (xs ++ ys) c.
Proof.
  intros Hm Hf b rest Hwf E. rewrite <- app_assoc in E. destruct (Hm b _ Hwf E) as (b1 & E1 & H1).
  destruct (Hf b1 rest (c_wf _ _ _ _ H1) (c_rest _ _ _ _ H1)) as (b2 & E2 & H2).
  exists b2. split; [|by eapply consumed_trans]. unfold mbind, bufM_bind. by rewrite E1.
Qed.

Lemma takes_ret {A} (a : A) : takes (mret a) [] a.
Proof.
  intros b rest Hwf E. exists b. split; [done|]. split; try done. change (zlen (@nil byte)) with 0. rewrite Z.add_0_r. by destruct b.
Qed.

Lemma takes_map {A B} (m : bufM A) (f : A -> B) bs a : takes m bs a -> takes (x ← m; mret (f x)) bs (f a).
Proof. intros H. rewrite <- (app_nil_r bs). eapply takes_bind; [exact H|apply takes_ret]. Qed.

Lemma takes_int n v : 0 <= v < 2 ^ (8 * Z.of_nat n) -> takes (sc_buf_get n) (le_split n v) v.
Proof. intros Hv b rest Hwf E. by apply sc_buf_get_int. Qed.

Lemma takes_mod n v : takes (sc_buf_get n) (le_split n v) (v mod 2 ^ (8 * Z.of_nat n)).
Proof. rewrite <- le_split_mod. apply takes_int. apply Z.mod_pos_bound. lia. Qed.

Lemma takes_32 v : takes sc_buf_get_32 (le_split 4 v) (v mod 2 ^ (8 * Z.of_nat 4)).
Proof. apply takes_mod. Qed.

Lemma takes_64 v : takes sc_buf_get_64 (le_split 8 v) (v mod 2 ^ (8 * Z.of_nat 8)).
Proof. apply takes_mod. Qed.

Lemma takes_str s : str_ok s -> takes sc_buf_get_str (enc_str s) s.
Proof. intros Hs b rest Hwf E. by apply sc_buf_get_str_spec. Qed.

Lemma takes_blob d : zlen d < 2 ^ 31 -> takes (sc_buf_get_blob (zlen d)) d (if decide (d = []) then None else Some d).
Proof.
  intros Hd b rest Hwf E. pose proof (zlen_nonneg d). pose proof (zlen_nonneg rest).
  pose proof (zlen_contents _ Hwf) as Hl. rewrite E, zlen_app in Hl. pose proof Hwf as [].
  exists (with_rpos b (b_rpos b + zlen d)). split; [|by apply consumed_intro].
  unfold sc_buf_get_blob. destruct (decide (d = [])) as [->|Hne].
  - change (zlen []) with 0. cbn [Z.eqb]. rewrite Z.add_0_r. by destruct b.
  - assert (0 < zlen d) by (destruct d; [done|rewrite zlen_cons; pose proof (zlen_nonneg d); lia]).
    rewrite u32_small by lia. zif. do 2 f_equal. exact (contents_take _ _ _ Hwf E).
Qed.

(** A length is read twice, the second time with the string. *)
Lemma takes_text {A} (f : Z -> option (list byte) -> A) s :
  str_ok s -> takes (len ← sc_buf_peek_32; v ← sc_buf_get_str; mret (f len v)) (enc_str s) (f (text_len s) s).
Proof.
  intros Hs b rest Hwf E.
  assert (exists tl, enc_str s ++ rest = le_split 4 (text_len s) ++ tl) as [tl Et].
  { destruct s; eexists; cbn [enc_str]; rewrite <- ?app_assoc; done. }
  unfold mbind at 1, bufM_bind at 1. rewrite peek_32_contents, E, Et.
  2: done.
  2: { rewrite E, Et, zlen_app, zlen_le_split. pose proof (zlen_nonneg tl). lia. }
  rewrite le_combine_prefix by (destruct s as [s|]; [destruct Hs as [_ Hs]; pose proof (zlen_nonneg s)|]; unfold text_len, UINT32_MAX in *; simpl; lia).
  by apply (takes_map sc_buf_get_str (f (text_len s)) (enc_str s) s (takes_str s Hs)).
Qed.

(** *** Values *)

(** The value of a column, as a program reads it. *)
Definition value_of (c : cell) : value :=
  match c with
  | RESQL_INTEGER v => VInteger v
  | RESQL_FLOAT v => VFloat v
  | RESQL_TEXT s => VText (default [] s)
  | RESQL_BLOB d => VBlob (default [] d)
  | RESQL_NULL | RESQL_UNSET => VNull
  end.

Definition value_ok (v : value) : Prop :=
  match v with
  | VInteger v => - 2 ^ 63 <= v < 2 ^ 63
  | VFloat bits => is_u64 bits
  | VText s => no_nul s /\ zlen s < 2 ^ 31
  | VBlob d => zlen d < 2 ^ 31
  | VNull => True
  end.

#[export] Instance value_ok_dec v : Decision (value_ok v).
Proof. destruct v; simpl; apply _. Defined.

Lemma to_int64_mod v : - 2 ^ 63 <= v < 2 ^ 63 -> to_int64 (v mod 2 ^ (8 * Z.of_nat 8)) = v.
Proof. intros Hv. unfold to_int64. change (8 * Z.of_nat 8) with 64. case_if; dlia. Qed.

Lemma to_int_mod v : - 2 ^ 31 <= v < 2 ^ 31 -> to_int (v mod 2 ^ (8 * Z.of_nat 4)) = v.
Proof. intros Hv. unfold to_int. change (8 * Z.of_nat 4) with 32. case_if; dlia. Qed.

Lemma takes_flag f : is_u8 f -> takes sc_buf_get_8 (enc_flag f) f.
Proof. apply (takes_int 1). Qed.

Lemma takes_cell v : value_ok v ->
  exists len c, takes read_cell (enc_value v) (Some (len, c)) /\ value_of c = v.
Proof.
  intros Hv. unfold read_cell.
  assert (H : forall f ys r (g : Z -> bufM (option (Z * cell))), is_u8 f -> takes (g f) ys r ->
    takes (type ← sc_buf_get_8; g type) (enc_flag f ++ ys) r).
  { intros f ys r g Hf Hg. eapply takes_bind; [by apply takes_flag|exact Hg]. }
  destruct v as [v|bits|s|d|]; cbn [enc_value value_ok] in *;
    unfold MSG_PARAM_INTEGER, MSG_PARAM_FLOAT, MSG_PARAM_TEXT, MSG_PARAM_BLOB, MSG_PARAM_NULL.
  - exists (-1), (RESQL_INTEGER v). split; [|done]. apply H; [done|]. zif. rewrite <- (to_int64_mod v Hv) at 2.
    apply (takes_map (sc_buf_get 8) (fun v => Some (-1, RESQL_INTEGER (to_int64 v)))), takes_mod.
  - exists (-1), (RESQL_FLOAT bits). split; [|done]. apply H; [done|]. zif.
    by apply (takes_map (sc_buf_get 8) (fun v => Some (-1, RESQL_FLOAT v))), takes_int.
  - exists (to_int (zlen s)), (RESQL_TEXT (Some s)). split; [|done]. apply H; [done|]. zif.
    apply (takes_text (fun len s => Some (to_int len, RESQL_TEXT s))). split; [apply Hv|unfold UINT32_MAX; lia].
  - exists (to_int (zlen d)), (RESQL_BLOB (if decide (d = []) then None else Some d)). split; [|by destruct (decide _) as [->|]].
    apply H; [done|]. zif. eapply takes_bind; [apply (takes_int 4); pose proof (zlen_nonneg d); simpl; lia|].
    by apply (takes_map (sc_buf_get_blob (zlen d)) (fun v => Some (to_int (zlen d), RESQL_BLOB v))), takes_blob.
  - exists (-1), RESQL_NULL. split; [|done]. rewrite <- (app_nil_r (enc_flag _)). apply H; [done|]. zif. apply takes_ret.
Qed.

(** *** Rows *)

Lemma takes_cells vs : Forall value_ok vs -> forall row, (length vs <= length row)%nat ->
  exists row', takes (read_cells (length vs) row) (enc_row vs) (true, row') /\ length row' = length row /\
    map c_name row' = map c_name row /\ map (fun c => value_of (c_val c)) (take (length vs) row') = vs.
Proof.
  induction vs as [|v vs IH]; intros Hok row Hl.
  - exists row. split_and!; try done. apply takes_ret.
  - apply Forall_cons in Hok as [Hv Hok]. destruct row as [|c row]; [simpl in Hl; lia|].
    destruct (takes_cell v Hv) as (len & cv & Hc & Ev). destruct (IH Hok row) as (row' & Hr & Hlen & Hn & Hvs); [simpl in Hl; lia|].
    exists (mk_column (c_name c) len cv :: row'). cbn [length read_cells]. split_and!.
    + unfold enc_row. cbn [map concat]. eapply takes_bind; [exact Hc|].
      rewrite <- (app_nil_r (concat _)). eapply takes_bind; [exact Hr|apply takes_ret].
    + by rewrite Hlen.
    + cbn [map c_name]. by rewrite Hn.
    + cbn [take map c_val]. by rewrite Hvs, Ev.
Qed.

Lemma takes_names names : Forall str_ok names -> forall row, (length names <= length row)%nat ->
  exists row', takes (read_names (length names) row) (concat (map enc_str names)) row' /\ length row' = length row /\
    map c_name (take (length names) row') = names.
Proof.
  induction names as [|s names IH]; intros Hok row Hl.
  - exists row. split_and!; try done. apply takes_ret.
  - apply Forall_cons in Hok as [Hs Hok]. destruct row as [|c row]; [simpl in Hl; lia|].
    destruct (IH Hok row) as (row' & Hr & Hlen & Hn); [simpl in Hl; lia|].
    exists (mk_column s (c_len c) (c_val c) :: row'). cbn [length read_names map concat]. split_and!.
    + eapply takes_bind; [by apply takes_str|]. rewrite <- (app_nil_r (concat _)).
      eapply takes_bind; [exact Hr|apply takes_ret].
    + by rewrite Hlen.
    + cbn [take map c_name]. by rewrite Hn.
Qed.

(** How a program reads the rows of a result, and the results of a response. *)
Fixpoint client_rows (fuel : nat) (r : resql_result) : list (list value) * resql_result :=
  match fuel with
  | O => ([], r)
  | S fuel =>
      match resql_row r with
      | (None, r) => ([], r)
      | (Some row, r) =>
          let '(rows, r') := client_rows fuel r in
          (map (fun c => value_of (c_val c)) (take (Z.to_nat (rs_column_count r)) row) :: rows, r')
      end
  end.

Definition client_reply (fuel : nat) (r : resql_result) : reply * resql_result :=
  if rs_row_count r =? -1 then (RDone (rs_changes r) (rs_last_row_id r), r)
  else
    let '(rows, r') := client_rows fuel r in
    (RRows (rs_changes r) (rs_last_row_id r) (map c_name (take (Z.to_nat (rs_column_count r)) (rs_row r))) rows, r').

Fixpoint client_replies (fuel : nat) (r : resql_result) : list reply :=
  match fuel with
  | O => []
  | S fuel =>
      let '(rep, r) := client_reply fuel r in
      rep :: match resql_next true true r with
             | (RESQL_OK, r) => client_replies fuel r
             | _ => []
             end
  end.

(** The response is in the buffer, and the next result begins at [more]; the columns are
    allocated. *)
Record reading (data more : list byte) (r : resql_result) : Prop := {
  rd_wf : buf_wf (rs_buf r);
  rd_data : written (rs_buf r) = data;
  rd_next : 0 <= rs_next_result r <= zlen data;
  rd_more : drop (Z.to_nat (rs_next_result r)) data = more;
  rd_row : zlen (rs_row r) = rs_column_cap r
}.

(** The rows are to be read. *)
Record at_rows (names : nat) (rows : list (list value)) (r : resql_result) : Prop := {
  ar_rows : exists rest, contents (rs_buf r) = concat (map enc_row rows) ++ rest;
  ar_left : rs_remaining_rows r = zlen rows;
  ar_count : rs_column_count r = Z.of_nat names;
  ar_cap : (names <= length (rs_row r))%nat
}.

Lemma written_rpos b p : written (with_rpos b p) = written b.
Proof. done. Qed.

Definition row_ok (n : nat) (row : list value) : Prop := length row = n /\ Forall value_ok row.

Lemma row_step data more n row rows r :
  reading data more r -> at_rows n (row :: rows) r -> row_ok n row ->
  exists row' r', resql_row r = (Some row', r') /\ reading data more r' /\ at_rows n rows r' /\
    rs_column_count r' = Z.of_nat n /\ map (fun c => value_of (c_val c)) (take n row') = row.
Proof.
  intros [Hwf Hd Hn Hm Hr] [[rest Hc] Hl Hcc Hcap] [<- Hok].
  destruct (takes_cells row Hok (rs_row r) Hcap) as (row' & Ht & Hlen & _ & Hv).
  cbn [map concat] in Hc. rewrite <- app_assoc in Hc. destruct (Ht _ _ Hwf Hc) as (b & Eb & [Hb Hwb Hrb]).
  unfold resql_row. rewrite Hl, zlen_cons. pose proof (zlen_nonneg rows). zif.
  rewrite Hcc, Nat2Z.id, Eb. eexists row', _. split; [reflexivity|]. split_and!; try done.
  - split; cbn; try done; [by rewrite Hb|]. unfold zlen in *. by rewrite Hlen.
  - split; cbn; [by eexists|lia|done|by rewrite Hlen].
Qed.

Lemma rows_read data more n rows : Forall (row_ok n) rows -> forall fuel r,
  (length rows < fuel)%nat -> reading data more r -> at_rows n rows r ->
  exists r', client_rows fuel r = (rows, r') /\ reading data more r'.
Proof.
  induction rows as [|row rows IH]; intros Hok [|fuel] r Hf Hr Ha; try (simpl in Hf; lia); cbn [client_rows].
  - exists r. split; [|done]. unfold resql_row. by rewrite (ar_left _ _ _ Ha).
  - apply Forall_cons in Hok as [Hrow Hok]. destruct (row_step data more n row rows r Hr Ha Hrow) as (row' & r1 & -> & Hr1 & Ha1 & Hcc & Hv).
    destruct (IH Hok fuel r1) as (r2 & -> & Hr2); [simpl in Hf; lia|done..|]. exists r2. split; [|done].
    by rewrite Hcc, Nat2Z.id, Hv.
Qed.

(** *** Results *)

(** What a statement can answer and a client can represent. *)
Definition reply_ok (rep : reply) : Prop :=
  match rep with
  | RDone changes rowid => - 2 ^ 31 <= changes < 2 ^ 31 /\ - 2 ^ 63 <= rowid < 2 ^ 63
  | RRows changes rowid names rows =>
      - 2 ^ 31 <= changes < 2 ^ 31 /\ - 2 ^ 63 <= rowid < 2 ^ 63 /\ Forall str_ok names /\ zlen names < 2 ^ 31 /\
      Forall (row_ok (length names)) rows /\ zlen rows < 2 ^ 31
  | RId _ | RNothing => False
  end.

#[export] Instance row_ok_dec n row : Decision (row_ok n row).
Proof. unfold row_ok. apply _. Defined.
#[export] Instance reply_ok_dec rep : Decision (reply_ok rep).
Proof. destruct rep; simpl; apply _. Defined.

Definition reply_rows (rep : reply) : nat := match rep with RRows _ _ _ rows => length rows | _ => O end.

Lemma zlen_enc_reply rep : zlen (enc_reply rep) = zlen (enc_body rep) + 6.
Proof. unfold enc_reply, enc_flag. rewrite !zlen_app, !zlen_le_split. lia. Qed.

Lemma set_rpos_reading data more r :
  reading data more r ->
  sc_buf_set_rpos (rs_buf r) (rs_next_result r) = with_rpos (rs_buf r) (rs_next_result r) /\
  buf_wf (with_rpos (rs_buf r) (rs_next_result r)) /\ contents (with_rpos (rs_buf r) (rs_next_result r)) = more.
Proof.
  intros [Hwf Hd Hn Hm Hr]. pose proof (zlen_written _ Hwf) as Hw. rewrite Hd in Hw.
  assert (Hwf' : buf_wf (with_rpos (rs_buf r) (rs_next_result r))) by (apply wf_with_rpos; [done|lia]).
  split_and!; [|done|].
  - unfold sc_buf_set_rpos. by zif.
  - by rewrite contents_written, written_rpos, Hd by done.
Qed.

Lemma drop_reply p data rep rest :
  0 <= p -> drop (Z.to_nat p) data = enc_reply rep ++ rest ->
  drop (Z.to_nat (p + zlen (enc_reply rep))) data = rest.
Proof.
  intros Hp E. pose proof (zlen_nonneg (enc_reply rep)). rewrite Z2Nat.inj_add by lia. rewrite <- drop_drop, E.
  apply drop_app_length'. unfold zlen. by rewrite Nat2Z.id.
Qed.

(** The buffer [b] holds [data], of which [more] is left. *)
Record holding (data more : list byte) (b : sc_buf) : Prop := {
  h_wf : buf_wf b;
  h_data : written b = data;
  h_more : contents b = more
}.

Lemma holding_takes {A} data bs more b (m : bufM A) a :
  holding data (bs ++ more) b -> takes m bs a ->
  exists b', m b = (a, b') /\ holding data more b' /\ b_rpos b' = b_rpos b + zlen bs.
Proof.
  intros [Hwf Hd Hc] Hm. destruct (Hm b more Hwf Hc) as (b' & E & [Hb Hwf' Hc']). exists b'. split; [done|].
  split; [split; [done|by rewrite Hb|done]|by rewrite Hb].
Qed.

(** Take what the reader reads off the front of the buffer. *)
Ltac eat H L :=
  let b := fresh "b" in let E := fresh "E" in let Hp := fresh "Hp" in
  edestruct (holding_takes _ _ _ _ _ _ H L) as (b & E & H' & Hp); rewrite E; clear E H; rename H' into H.

(** The header of a reply: where the body begins and the next reply will. *)
Lemma next_head data rep more r :
  reading data (enc_reply rep ++ more) r -> zlen data < 2 ^ 32 ->
  let next := rs_next_result r + zlen (enc_reply rep) in
  exists b b', sc_buf_get_8 (sc_buf_set_rpos (rs_buf r) (rs_next_result r)) = (MSG_FLAG_OP, b) /\
    sc_buf_get_32 b = (zlen (enc_body rep) + 5, b') /\ b_rpos b +₃₂ (zlen (enc_body rep) + 5) = next /\
    holding data (enc_body rep ++ enc_flag MSG_FLAG_OP_END ++ more) b' /\
    0 <= next <= zlen data /\ drop (Z.to_nat next) data = more.
Proof.
  intros Hr Hdata. destruct (set_rpos_reading _ _ _ Hr) as (-> & Hwf & Hc). destruct Hr as [Hwf0 Hd Hn Hm Hrow].
  assert (Hend : rs_next_result r + zlen (enc_reply rep) <= zlen data).
  { pose proof (f_equal zlen Hm) as Hl. rewrite zlen_app in Hl. unfold zlen in *. rewrite length_drop in Hl. lia. }
  pose proof (drop_reply _ _ _ _ (proj1 Hn) Hm) as Hmore. pose proof (zlen_nonneg (enc_body rep)).
  rewrite zlen_enc_reply in *. unfold enc_reply in Hc. rewrite <- !app_assoc in Hc.
  assert (Hh : holding data _ _) by (split; [exact Hwf|exact Hd|exact Hc]). clear Hwf Hc.
  eat Hh (takes_flag MSG_FLAG_OP ltac:(done)). exists b.
  eat Hh (takes_32 (zlen (enc_body rep) + 5)). exists b0. rewrite Z.mod_small by (simpl; lia).
  split_and!; try done; [|lia..]. rewrite Hp. change (b_rpos (with_rpos _ ?p)) with p.
  change (zlen (enc_flag MSG_FLAG_OP)) with 1. rewrite u32_small by lia. lia.
Qed.

(** The names of the columns and the number of rows. *)
Lemma next_columns data names rows more b (row : list resql_column) :
  holding data (concat (map enc_str names) ++ le_split 4 (zlen rows) ++ concat (map enc_row rows) ++ more) b ->
  Forall str_ok names -> zlen rows < 2 ^ 31 -> zlen names <= zlen row ->
  exists row' b1 b2, read_names (Z.to_nat (zlen names)) row b = (row', b1) /\ sc_buf_get_32 b1 = (zlen rows, b2) /\
    holding data (concat (map enc_row rows) ++ more) b2 /\ zlen row' = zlen row /\ map c_name (take (length names) row') = names.
Proof.
  intros Hh Hok Hl Hr. unfold zlen at 1 in Hr. unfold zlen at 1 in Hr. unfold zlen at 1. rewrite Nat2Z.id.
  destruct (takes_names names Hok row) as (row' & Ht & Hlen & Hn); [lia|]. exists row'.
  eat Hh Ht. exists b0. eat Hh (takes_32 (zlen rows)). exists b1. pose proof (zlen_nonneg rows).
  rewrite Z.mod_small by (simpl; lia). split_and!; try done. unfold zlen. by rewrite Hlen.
Qed.

Lemma grow_row_ok row n cap : zlen row = cap -> 0 <= n ->
  let '(row', cap') := if n >? cap then (grow_row row n, n) else (row, cap) in zlen row' = cap' /\ n <= zlen row'.
Proof.
  intros Hr Hn. destruct (Z.gtb_spec n cap); [|lia]. unfold grow_row, zlen in *. rewrite length_app, length_replicate. lia.
Qed.

Lemma next_reads data rep more r fuel :
  reading data (enc_reply rep ++ more) r -> reply_ok rep -> (reply_rows rep < fuel)%nat -> zlen data < 2 ^ 32 ->
  exists r', resql_next true true r = (RESQL_OK, r') /\ reading data more r' /\
    exists r'', client_reply fuel r' = (rep, r'') /\ reading data more r''.
Proof.
  intros Hr Hok Hfuel Hdata. destruct (next_head data rep more r Hr Hdata) as (b & b0 & E1 & E2 & E3 & Hh & Hnext & Hmore).
  unfold resql_next. rewrite E1, Z.eqb_refl. cbn [negb]. rewrite E2, E3. clear E1 E2 E3.
  set (next := rs_next_result r + _) in *. clearbody next.
  destruct rep as [changes rowid|changes rowid names rows| |]; cbn [enc_body reply_ok reply_rows] in *; try done; rewrite <- !app_assoc in Hh.
  - destruct Hok as [Hch Hid]. eat Hh (takes_32 changes). eat Hh (takes_64 rowid). eat Hh (takes_flag MSG_FLAG_OP_END ltac:(done)).
    change (MSG_FLAG_OP_END =? MSG_FLAG_ROW) with false. cbv iota. rewrite Z.eqb_refl, to_int_mod, to_int64_mod by done.
    eexists. split; [reflexivity|].
    assert (Hr' : reading data more (mk_result next changes rowid (-1) (-1) (rs_row_pos r) (rs_column_count r) b3 (rs_row r) (rs_column_cap r)))
      by (split; cbn; first [apply Hh|apply Hr|done]).
    split; [done|]. eexists. by split.
  - destruct Hok as (Hch & Hid & Hnames & Hln & Hrows & Hlr). pose proof (zlen_nonneg names). pose proof (zlen_nonneg rows).
    eat Hh (takes_32 changes). eat Hh (takes_64 rowid). eat Hh (takes_flag MSG_FLAG_ROW ltac:(done)).
    rewrite Z.eqb_refl. eat Hh (takes_32 (zlen names)). rewrite (to_int_mod (zlen names)) by lia. rewrite andb_false_r.
    pose proof (grow_row_ok (rs_row r) (zlen names) (rs_column_cap r) (rd_row _ _ _ Hr) ltac:(done)) as Hg.
    destruct (if zlen names >? rs_column_cap r then _ else _) as [row cap]. destruct Hg as [Hg Hg'].
    destruct (next_columns _ _ _ _ _ row Hh Hnames Hlr Hg') as (row' & b5 & b6 & -> & -> & Hh' & Hl' & Hn').
    rewrite to_int_mod, to_int64_mod by done. replace (to_int (zlen rows)) with (zlen rows) by (unfold to_int; by zif).
    eexists. split; [reflexivity|].
    match goal with |- reading _ _ ?x /\ _ => set (r' := x) end.
    assert (Hr' : reading data more r') by (split; cbn; first [apply Hh'|done|lia]).
    assert (Ha : at_rows (length names) rows r').
    { split; cbn; [eexists; apply Hh'|done|done|]. unfold zlen in *. lia. }
    split; [done|]. destruct (rows_read data more _ rows Hrows fuel r' Hfuel Hr' Ha) as (r'' & Er & Hr'').
    exists r''. split; [|done]. unfold client_reply. rewrite Er. cbn [rs_row_count r' rs_changes rs_last_row_id rs_row rs_column_count].
    rewrite (proj2 (Z.eqb_neq _ _)) by lia. unfold zlen. rewrite Nat2Z.id. by rewrite Hn'.
Qed.

Lemma next_done data more r :
  reading data (enc_flag MSG_FLAG_MSG_END ++ more) r -> exists r', resql_next true true r = (RESQL_DONE, r').
Proof.
  intros Hr. destruct (set_rpos_reading _ _ _ Hr) as (E & Hwf & Hc). unfold resql_next. rewrite E.
  destruct (takes_flag MSG_FLAG_MSG_END ltac:(done) _ _ Hwf Hc) as (b & -> & _). by eexists.
Qed.

(** *** The order of evaluation *)

Definition rs_with_next (r : resql_result) (next : Z) : resql_result :=
  mk_result next (rs_changes r) (rs_last_row_id r) (rs_row_count r) (rs_remaining_rows r) (rs_row_pos r) (rs_column_count r)
    (rs_buf r) (rs_row r) (rs_column_cap r).

(** It changes nothing but the place of the next result. *)
Lemma next_place lf r :
  exists x, resql_next lf true r = ((resql_next true true r).1, rs_with_next (resql_next true true r).2 x).
Proof.
  unfold resql_next. destruct (sc_buf_get_8 _) as [op b]. destruct (negb _); [eexists; by destruct r|].
  destruct (sc_buf_get_32 b) as [len b1]. destruct (sc_buf_get_32 b1) as [changes b2]. destruct (sc_buf_get_64 b2) as [rowid b3].
  destruct (sc_buf_get_8 b3) as [flag b4]. destruct (flag =? MSG_FLAG_ROW); [|by eexists].
  destruct (sc_buf_get_32 b4) as [m b5]. rewrite andb_false_r. destruct (if _ >? _ then _ else _) as [row cap].
  destruct (read_names _ _ _) as [row' b6]. destruct (sc_buf_get_32 b6) as [rows b7]. by eexists.
Qed.

Lemma row_next r x : resql_row (rs_with_next r x) = ((resql_row r).1, rs_with_next (resql_row r).2 x).
Proof.
  unfold resql_row. cbn [rs_with_next rs_remaining_rows rs_column_count rs_row rs_buf]. destruct (_ <=? 0); [done|].
  by destruct (read_cells _ _ _) as [[ok row] b].
Qed.

Lemma client_rows_next fuel : forall r x,
  client_rows fuel (rs_with_next r x) = ((client_rows fuel r).1, rs_with_next (client_rows fuel r).2 x).
Proof.
  induction fuel as [|fuel IH]; intros r x; [done|]. cbn [client_rows]. rewrite row_next.
  destruct (resql_row r) as [[row|] r']; cbn [fst snd]; [|done]. rewrite IH. by destruct (client_rows fuel r').
Qed.

Lemma client_reply_next fuel r x : (client_reply fuel (rs_with_next r x)).1 = (client_reply fuel r).1.
Proof.
  unfold client_reply. cbn [rs_with_next rs_row_count]. destruct (_ =? -1); [done|].
  rewrite client_rows_next. by destruct (client_rows fuel r).
Qed.

(** Turns of the loops over the results of a response. *)
Definition replies_fuel (reps : list reply) : nat := (foldr (fun r n => reply_rows r `max` n) 0 reps + length reps + 1)%nat.

Lemma replies_read data tail reps : Forall reply_ok reps -> zlen data < 2 ^ 32 -> forall rep fuel r,
  reply_ok rep -> (replies_fuel (rep :: reps) <= fuel)%nat ->
  reading data (enc_reply rep ++ concat (map enc_reply reps) ++ enc_flag MSG_FLAG_MSG_END ++ tail) r ->
  exists r', resql_next true true r = (RESQL_OK, r') /\ client_replies fuel r' = rep :: reps.
Proof.
  intros Hok Hdata. induction reps as [|p reps IH]; intros rep [|fuel] r Hrep Hf Hr; unfold replies_fuel in Hf; try (simpl in Hf; lia).
  - destruct (next_reads data rep _ r fuel Hr Hrep) as (r1 & E1 & Hr1 & r2 & E2 & Hr2); [simpl in Hf; lia|done|].
    exists r1. split; [done|]. cbn [client_replies]. rewrite E2. destruct (next_done _ _ _ Hr2) as [r3 ->]. done.
  - apply Forall_cons in Hok as [Hp Hok].
    destruct (next_reads data rep _ r fuel Hr Hrep) as (r1 & E1 & Hr1 & r2 & E2 & Hr2); [simpl in Hf; lia|done|].
    cbn [map concat] in Hr2. rewrite <- app_assoc in Hr2.
    destruct (IH Hok p fuel r2 Hp) as (r3 & E3 & E4); [unfold replies_fuel; simpl in *; lia|exact Hr2|].
    exists r1. split; [done|]. cbn [client_replies]. by rewrite E2, E3, E4.
Qed.

(** ** Building a request *)

Definition bind_call (c : resql) (b : locator * datum) : resql :=
  match b with
  | (ByName p, DInteger v) => resql_bind_param_int c p v
  | (ByName p, DFloat v) => resql_bind_param_float c p v
  | (ByName p, DText s) => resql_bind_param_text c p s
  | (ByName p, DBlob d) => resql_bind_param_blob c p d
  | (ByName p, DNull) => resql_bind_param_null c p
  | (ByIndex i, DInteger v) => resql_bind_index_int c i v
  | (ByIndex i, DFloat v) => resql_bind_index_float c i v
  | (ByIndex i, DText s) => resql_bind_index_text c i s
  | (ByIndex i, DBlob d) => resql_bind_index_blob c i d
  | (ByIndex i, DNull) => resql_bind_index_null c i
  end.

(** The calls for an operation; the two others are requests of their own. *)
Definition op_call (c : resql) (p : op) : resql :=
  match p with
  | OStmt sql bs => foldl bind_call (resql_put_sql c sql) bs
  | OStmtId id bs => foldl bind_call (resql_put_prepared c id) bs
  | OPrepare _ | ODelPrepared _ => c
  end.

Definition is_stmt (p : op) : Prop := match p with OStmt _ _ | OStmtId _ _ => True | _ => False end.

#[export] Instance is_stmt_dec p : Decision (is_stmt p).
Proof. destruct p; simpl; apply _. Defined.

(** The end of an operation is written by the call after it. *)
Definition open_op (p : op) : list byte :=
  match p with
  | OStmt sql bs => enc_flag MSG_FLAG_OP ++ enc_flag MSG_FLAG_STMT ++ enc_str sql ++ concat (map enc_bind bs)
  | OStmtId id bs => enc_flag MSG_FLAG_OP ++ enc_flag MSG_FLAG_STMT_ID ++ le_split 8 id ++ concat (map enc_bind bs)
  | _ => []
  end.
Definition op_end : list byte := enc_flag MSG_BIND_END ++ enc_flag MSG_FLAG_OP_END.

Lemma enc_open_op p : is_stmt p -> enc_op p = open_op p ++ op_end.
Proof. unfold enc_op, open_op, enc_binds, op_end. destruct p; try done; by rewrite <- !app_assoc. Qed.

(** A call that appends [bs] to the request and leaves the rest of the client alone. *)
Definition appends (bs : list byte) (c c' : resql) : Prop :=
  exists f, puts bs f /\ c' = set_req (set_statement c true) (f (cl_req c)).

Lemma appends_trans xs ys c c1 c2 : appends xs c c1 -> appends ys c1 c2 -> appends (xs ++ ys) c c2.
Proof.
  intros (f & Hf & ->) (g & Hg & ->). exists (fun b => g (f b)). split; [by apply puts_app|]. by destruct c.
Qed.

Lemma appends_statement bs c c' : appends bs c c' -> cl_statement c' = true.
Proof. by intros (f & _ & ->). Qed.

Lemma appends_put bs f c : cl_statement c = true -> puts bs f -> appends bs c (put_req f c).
Proof. intros Hs Hf. exists f. split; [done|]. destruct c. simpl in Hs. by subst. Qed.

Lemma puts_u n v : puts (le_split n v) (fun b => sc_buf_put n b (v mod 2 ^ (8 * Z.of_nat n))).
Proof. rewrite <- le_split_mod. apply puts_int. Qed.

Lemma puts_locator_param name : puts (enc_locator (ByName name)) (fun b => put_param b name).
Proof. apply (puts_app _ _ (fun b => sc_buf_put_8 b MSG_BIND_NAME) (fun b => sc_buf_put_str b name)); [apply puts_int|apply puts_str]. Qed.

Lemma puts_locator_index i : puts (enc_locator (ByIndex i)) (fun b => put_index b i).
Proof.
  apply (puts_app _ _ (fun b => sc_buf_put_8 b MSG_BIND_INDEX) (fun b => sc_buf_put_32 b (u32 i))); [apply puts_int|apply (puts_u 4)].
Qed.

Lemma puts_datum d :
  puts (enc_datum d) (fun b => match d with
    | DInteger v => put_int b v | DFloat v => put_float b v | DText s => put_text b s | DBlob d => put_blob b d | DNull => put_null b end).
Proof.
  destruct d as [v|v|s|d|]; cbn [enc_datum].
  - apply (puts_app _ _ (fun b => sc_buf_put_8 b MSG_PARAM_INTEGER) (fun b => sc_buf_put_64 b (u64 v))); [apply puts_int|apply (puts_u 8)].
  - apply (puts_app _ _ (fun b => sc_buf_put_8 b MSG_PARAM_FLOAT) (fun b => sc_buf_put_64 b v)); apply puts_int.
  - apply (puts_app _ _ (fun b => sc_buf_put_8 b MSG_PARAM_TEXT) (fun b => sc_buf_put_str b s)); [apply puts_int|apply puts_str].
  - apply (puts_app _ _ (fun b => sc_buf_put_8 b MSG_PARAM_BLOB) (fun b => sc_buf_put_blob b d)); [apply puts_int|apply puts_blob].
  - apply puts_int.
Qed.

Lemma bind_appends c b : cl_statement c = true -> appends (enc_bind b) c (bind_call c b).
Proof.
  intros Hs. destruct b as [l d].
  assert (Hg : forall f, binding c f = put_req f c) by (intros f; unfold binding; by rewrite Hs).
  unfold enc_bind. cbn [fst snd]. pose proof (puts_datum d) as Hd.
  destruct l as [p|i]; [pose proof (puts_locator_param p) as Hl|pose proof (puts_locator_index i) as Hl];
    destruct d; cbn [bind_call];
    unfold resql_bind_param_int, resql_bind_param_float, resql_bind_param_text, resql_bind_param_blob, resql_bind_param_null,
      resql_bind_index_int, resql_bind_index_float, resql_bind_index_text, resql_bind_index_blob, resql_bind_index_null;
    rewrite Hg; apply appends_put; try done; exact (puts_app _ _ _ _ Hl Hd).
Qed.

Lemma binds_append bs : forall c, cl_statement c = true -> appends (concat (map enc_bind bs)) c (foldl bind_call c bs).
Proof.
  induction bs as [|b bs IH]; intros c Hs; cbn [map concat foldl].
  - exists (fun b => b). split; [apply puts_nil|]. destruct c. simpl in Hs. by subst.
  - pose proof (bind_appends c b Hs) as Hb. eapply appends_trans; [exact Hb|]. by eapply IH, appends_statement.
Qed.

Lemma end_appends c bs f :
  puts bs f ->
  appends ((if cl_statement c then op_end else []) ++ bs) c (set_statement (put_req f (end_statement c)) true).
Proof.
  intros Hf. unfold end_statement. destruct (cl_statement c) eqn:Hs.
  - exists (fun b => f (sc_buf_put_8 (sc_buf_put_8 b MSG_BIND_END) MSG_FLAG_OP_END)). split; [|by destruct c].
    apply (puts_app _ _ (fun b => sc_buf_put_8 (sc_buf_put_8 b MSG_BIND_END) MSG_FLAG_OP_END) f); [|done].
    apply (puts_app _ _ (fun b => sc_buf_put_8 b MSG_BIND_END) (fun b => sc_buf_put_8 b MSG_FLAG_OP_END)); apply puts_int.
  - exists f. split; [done|]. by destruct c.
Qed.

Lemma op_appends c p : is_stmt p -> appends ((if cl_statement c then op_end else []) ++ open_op p) c (op_call c p).
Proof.
  intros Hp. destruct p as [sql bs|id bs| |]; try done; cbn [open_op op_call]; rewrite !app_assoc.
  - eapply appends_trans; [|apply binds_append; done]. rewrite <- !app_assoc. apply (end_appends c _
      (fun b => sc_buf_put_str (sc_buf_put_8 (sc_buf_put_8 b MSG_FLAG_OP) MSG_FLAG_STMT) sql)).
    apply (puts_app _ _ (fun b => sc_buf_put_8 b MSG_FLAG_OP) (fun b => sc_buf_put_str (sc_buf_put_8 b MSG_FLAG_STMT) sql)); [apply puts_int|].
    apply (puts_app _ _ (fun b => sc_buf_put_8 b MSG_FLAG_STMT) (fun b => sc_buf_put_str b sql)); [apply puts_int|apply puts_str].
  - eapply appends_trans; [|apply binds_append; done]. rewrite <- !app_assoc. apply (end_appends c _
      (fun b => sc_buf_put_64 (sc_buf_put_8 (sc_buf_put_8 b MSG_FLAG_OP) MSG_FLAG_STMT_ID) id)).
    apply (puts_app _ _ (fun b => sc_buf_put_8 b MSG_FLAG_OP) (fun b => sc_buf_put_64 (sc_buf_put_8 b MSG_FLAG_STMT_ID) id)); [apply puts_int|].
    apply (puts_app _ _ (fun b => sc_buf_put_8 b MSG_FLAG_STMT_ID) (fun b => sc_buf_put_64 b id)); apply puts_int.
Qed.

(** The operations without the end of the last one. *)
Definition open_ops (p : op) (ps : list op) : list byte := open_op p ++ concat (map (fun q => op_end ++ open_op q) ps).

Lemma open_ops_end ps : Forall is_stmt ps -> forall p, is_stmt p -> open_ops p ps ++ op_end = concat (map enc_op (p :: ps)).
Proof.
  intros Hps. unfold open_ops. induction ps as [|q ps IH]; intros p Hp; cbn [map concat].
  - by rewrite !app_nil_r, enc_open_op.
  - apply Forall_cons in Hps as [Hq Hps]. specialize (IH Hps q Hq). cbn [map concat] in IH.
    rewrite (enc_open_op p Hp), <- IH, <- !app_assoc. done.
Qed.

Lemma ops_append ps : Forall is_stmt ps -> forall p c, is_stmt p -> cl_statement c = false ->
  appends (open_ops p ps) c (foldl op_call c (p :: ps)).
Proof.
  intros Hps p c Hp Hs. pose proof (op_appends c p Hp) as H. rewrite Hs in H. cbn [app] in H.
  unfold open_ops. cbn [foldl]. eapply appends_trans; [exact H|]. apply appends_statement in H.
  generalize dependent (op_call c p). clear Hp Hs. induction Hps as [|q ps Hq Hps IH]; intros c1 Hs; cbn [map concat foldl].
  - exists (fun b => b). split; [apply puts_nil|]. destruct c1. simpl in Hs. by subst.
  - pose proof (op_appends c1 q Hq) as H. rewrite Hs in H. eapply appends_trans; [exact H|]. by eapply IH, appends_statement.
Qed.

(** *** The header *)

Lemma appended_behind z n bs b :
  buf_wf z -> b_rpos z = 0 -> b_wpos z = 0 -> 0 <= n <= b_cap z -> appended (with_wpos z n) bs b ->
  appended z (mread (b_mem z) 0 n ++ bs) b.
Proof.
  intros Hwf Hr Hw Hn Ha. split; try apply Ha. rewrite (a_written _ _ _ Ha). unfold written at 1 2.
  cbn [with_wpos b_mem b_wpos]. by rewrite Hw, mread_nil.
Qed.

Definition bit (v : bool) : Z := if v then 1 else 0.

Lemma header_patched z a1 a2 a3 a4 body b readonly seq :
  buf_wf z -> b_err z = 0 -> b_wpos z = 0 ->
  length a1 = 4%nat -> length a2 = 1%nat -> length a3 = 1%nat -> length a4 = 8%nat ->
  appended z (a1 ++ a2 ++ a3 ++ a4 ++ body) b ->
  appended z (le_split 4 (b_wpos b) ++ le_split 1 MSG_CLIENT_REQ ++ le_split 1 (bit readonly) ++ le_split 8 seq ++ body)
    (snd (msg_finalize_client_req b readonly seq)).
Proof.
  intros Hwf He Hw H1 H2 H3 H4 Ha. unfold msg_finalize_client_req. cbn [snd].
  unfold sc_buf_set_32_at, sc_buf_set_8_at, sc_buf_set_64_at, sc_buf_set_32_pos, sc_buf_set_8_pos, sc_buf_set_64_pos.
  pose proof (appended_patch z [] a1 _ b 4 (b_wpos b) Hwf He Ha H1) as Hb. rewrite Hw in Hb. cbn [app] in Hb.
  change (0 + zlen []) with 0 in Hb. set (b1 := snd (sc_buf_set_pos 4 b 0 (b_wpos b))) in *. clearbody b1.
  pose proof (appended_patch z (le_split 4 (b_wpos b)) a2 _ b1 1 MSG_CLIENT_REQ Hwf He Hb H2) as Hc. rewrite Hw, zlen_le_split in Hc.
  change (0 + Z.of_nat 4) with 4 in Hc. set (b2 := snd (sc_buf_set_pos 1 b1 4 MSG_CLIENT_REQ)) in *. clearbody b2.
  rewrite app_assoc in Hc.
  pose proof (appended_patch z _ a3 _ b2 1 (bit readonly) Hwf He Hc H3) as Hd. rewrite Hw, zlen_app, !zlen_le_split in Hd.
  change (0 + (Z.of_nat 4 + Z.of_nat 1)) with 5 in Hd. fold (bit readonly).
  set (b3 := snd (sc_buf_set_pos 1 b2 5 (bit readonly))) in *. clearbody b3. rewrite app_assoc in Hd.
  pose proof (appended_patch z _ a4 _ b3 8 seq Hwf He Hd H4) as Hf. rewrite Hw, !zlen_app, !zlen_le_split in Hf.
  change (0 + (Z.of_nat 4 + Z.of_nat 1 + Z.of_nat 1)) with 6 in Hf. by rewrite <- !app_assoc in Hf.
Qed.

Lemma enc_client_req seq readonly body :
  enc_msg (client_req seq readonly body) =
  le_split 4 (zlen body + 14) ++ le_split 1 MSG_CLIENT_REQ ++ le_split 1 (bit readonly) ++ le_split 8 seq ++ body.
Proof.
  unfold enc_msg, frame_fields, enc_fields, frame_len.
  cbn [map concat enc_field msg_fields msg_type msg_payload default fields_size foldr field_size].
  unfold MSG_FIXED_LEN, MSG_SIZE_LEN, MSG_TYPE_LEN, id. rewrite <- !app_assoc. do 2 f_equal. lia.
Qed.

Lemma split_header (h : list byte) : length h = 14%nat ->
  exists a1 a2 a3 a4, h = a1 ++ a2 ++ a3 ++ a4 /\ length a1 = 4%nat /\ length a2 = 1%nat /\ length a3 = 1%nat /\ length a4 = 8%nat.
Proof.
  intros Hl. exists (take 4 h), (take 1 (drop 4 h)), (take 1 (drop 5 h)), (drop 6 h).
  split_and!; rewrite ?length_take, ?length_drop; try lia.
  do 14 (destruct h as [|? h]; [done|]). by destruct h.
Qed.

(** The request buffer after [resql_clear], with [body] appended and the header set, is one
    frame from its first byte. *)
Lemma request_frame b0 body f readonly seq :
  buf_wf b0 -> 14 <= b_cap b0 -> puts body f -> fits (with_wpos (sc_buf_clear b0) 14) (zlen body) ->
  let b := sc_buf_set_rpos (snd (msg_finalize_client_req (f (snd (msg_create_client_req_header (sc_buf_clear b0)))) readonly seq)) 0 in
  buf_wf b /\ b_rpos b = 0 /\ contents b = enc_msg (client_req seq readonly body).
Proof.
  intros Hwf Hcap Hf Hfit. set (z := sc_buf_clear b0) in *. assert (Hz : buf_wf z) by (by apply wf_clear).
  unfold msg_create_client_req_header. cbn [snd]. unfold sc_buf_set_wpos. change MSG_CLIENT_REQ_HEADER with 14.
  rewrite if_false by (rewrite Z.gtb_ltb; apply Z.ltb_ge; done).
  set (h := with_wpos z 14) in *. assert (Hh : buf_wf h) by (destruct Hz; split; simpl in *; lia).
  assert (Ha : appended h body (f h)).
  { apply (puts_appended h [] body h f); try done. by apply appended_nil. }
  pose proof (appended_behind z 14 body (f h) Hz eq_refl eq_refl ltac:(simpl; lia) Ha) as Hb.
  assert (Hl : length (mread (b_mem z) 0 14) = 14%nat).
  { apply Nat2Z.inj. change (zlen (mread (b_mem z) 0 14) = 14). apply zlen_mread; [lia..|]. destruct Hwf. simpl. lia. }
  destruct (split_header _ Hl) as (a1 & a2 & a3 & a4 & E & H1 & H2 & H3 & H4). rewrite E, <- !app_assoc in Hb.
  pose proof (a_wpos _ _ _ Hh Ha) as Hw. change (b_wpos h) with 14 in Hw.
  pose proof (header_patched z a1 a2 a3 a4 body (f h) readonly seq Hz eq_refl eq_refl H1 H2 H3 H4 Hb) as Hp.
  set (b' := snd (msg_finalize_client_req (f h) readonly seq)) in *. clearbody b'.
  rewrite Hw, (Z.add_comm 14), <- enc_client_req in Hp.
  pose proof (a_wf _ _ _ Hp) as Hwf'. pose proof (a_rpos _ _ _ Hp) as Hr. cbn in Hr.
  assert (E' : sc_buf_set_rpos b' 0 = b').
  { unfold sc_buf_set_rpos. destruct Hwf'. zif. rewrite <- Hr. by destruct b'. }
  cbv zeta. rewrite E'. split_and!; try done. rewrite contents_wpos, (a_written _ _ _ Hp) by done.
  unfold written. by rewrite mread_nil.
Qed.

(** ** Receiving a response *)

Section parse.
Variable d : list byte.
Hypothesis d_ok : msg_ok (client_resp d).

Lemma resp_len : frame_len (client_resp d) = zlen d + 5 /\ zlen d + 5 <= MSG_MAX_SIZE.
Proof.
  pose proof (ok_size _ d_ok) as H. revert H. unfold frame_len. cbn [msg_fields msg_payload default fields_size foldr].
  unfold MSG_FIXED_LEN, MSG_SIZE_LEN, MSG_TYPE_LEN, id. lia.
Qed.

Lemma zlen_resp : zlen (enc_msg (client_resp d)) = zlen d + 5.
Proof. rewrite zlen_enc_msg. apply resp_len. Qed.

(** The body of a response. *)
Lemma parse_resp_body : exists tmp,
  client_parse_body MSG_CLIENT_RESP (snd (sc_buf_get_8 (snd (sc_buf_get_32 (sc_buf_wrap (enc_msg (client_resp d)) (zlen d + 5) SC_BUF_READ))))) =
    (Some (client_resp d), tmp) /\ sc_buf_valid tmp = true /\
  fst (sc_buf_get_8 (snd (sc_buf_get_32 (sc_buf_wrap (enc_msg (client_resp d)) (zlen d + 5) SC_BUF_READ)))) = MSG_CLIENT_RESP.
Proof.
  destruct resp_len as [_ Hl]. unfold MSG_MAX_SIZE in Hl. pose proof (zlen_nonneg d).
  destruct (wrap_contents (enc_msg (client_resp d)) SC_BUF_READ) as [Hwf E]; [done|rewrite zlen_resp; lia|].
  rewrite zlen_resp in Hwf, E. rewrite enc_client_resp in E at 2.
  pose proof (eq_refl : b_err (sc_buf_wrap (enc_msg (client_resp d)) (zlen d + 5) SC_BUF_READ) = 0) as He.
  generalize dependent (sc_buf_wrap (enc_msg (client_resp d)) (zlen d + 5) SC_BUF_READ). intros b Hwf E He.
  destruct (takes_32 (zlen d + 5) b _ Hwf E) as (b1 & -> & H1). cbn [snd].
  destruct (takes_flag MSG_CLIENT_RESP ltac:(done) b1 _ (c_wf _ _ _ _ H1) (c_rest _ _ _ _ H1)) as (b2 & -> & H2). cbn [fst snd].
  exists b2. split_and!; [|unfold sc_buf_valid; by rewrite (consumed_err _ _ _ _ H2), (consumed_err _ _ _ _ H1), He|done].
  change (client_parse_body MSG_CLIENT_RESP b2) with ((d ← rest_of; mret (Some (client_resp d))) b2).
  unfold mbind, bufM_bind. pose proof (rest_of_contents b2 (c_wf _ _ _ _ H2)) as Hr. rewrite (c_rest _ _ _ _ H2) in Hr.
  destruct (rest_of b2) as [d' b'] eqn:Eb. cbn in Hr. subst d'. unfold rest_of in Eb. by injection Eb as _ <-.
Qed.

Lemma client_parse_complete b :
  buf_wf b -> contents b = enc_msg (client_resp d) ->
  exists b', client_msg_parse b = ((RESQL_OK, Some (client_resp d)), b').
Proof.
  intros Hwf E. destruct resp_len as [Hfl Hl]. unfold MSG_MAX_SIZE in Hl. pose proof (zlen_contents b Hwf) as Hz.
  rewrite E, zlen_resp in Hz. pose proof (zlen_nonneg d).
  unfold client_msg_parse, MSG_SIZE_LEN, MSG_MAX_SIZE. rewrite sc_buf_size_wf by done. zif.
  rewrite peek_32_contents by (done || rewrite E, zlen_resp; lia).
  rewrite E, enc_client_resp, le_combine_prefix by (simpl; lia). rewrite sc_buf_size_wf by done. zif.
  assert (Hp : take (Z.to_nat (zlen d + 5)) (sc_buf_rbuf b) = enc_msg (client_resp d)).
  { rewrite <- zlen_resp. apply (contents_take b _ []); [done|by rewrite app_nil_r]. }
  rewrite Hp. destruct parse_resp_body as (tmp & H1 & H2 & H3).
  destruct (sc_buf_get_32 _) as [v b1]. destruct (sc_buf_get_8 b1) as [ty b2] eqn:E2. cbn [fst snd] in *.
  rewrite E2 in *. cbn [fst snd] in *. subst ty. rewrite H1, H2. by eexists.
Qed.

Lemma client_parse_partial b part rest :
  buf_wf b -> enc_msg (client_resp d) = part ++ rest -> rest <> [] -> contents b = part ->
  client_msg_parse b = ((RESQL_PARTIAL, None), b) /\
  msg_len b = (if zlen part <? 4 then -1 else zlen d + 5).
Proof.
  intros Hwf E Hr Hc. destruct resp_len as [_ Hm]. unfold MSG_MAX_SIZE in Hm. pose proof (zlen_nonneg d).
  assert (Hl : zlen part + zlen rest = zlen d + 5) by (by rewrite <- zlen_app, <- E, zlen_resp).
  assert (0 < zlen rest) by (destruct rest; [done|rewrite zlen_cons; pose proof (zlen_nonneg rest); lia]).
  pose proof (zlen_contents b Hwf) as Hz. rewrite Hc in Hz.
  unfold client_msg_parse, msg_len, MSG_SIZE_LEN, MSG_MAX_SIZE. rewrite sc_buf_size_wf, <- Hz by done.
  destruct (Z.ltb_spec (zlen part) 4) as [|Hge]; [done|].
  rewrite peek_32_contents by (done || rewrite Hc; lia). rewrite enc_client_resp in E.
  assert (Hp : take 4 (contents b) = take 4 (le_split 4 (zlen d + 5) ++ le_split 1 MSG_CLIENT_RESP ++ d)).
  { rewrite Hc, E, take_app_le; [done|]. unfold zlen in *. lia. }
  rewrite Hp, le_combine_prefix by (simpl; lia). rewrite sc_buf_size_wf, <- Hz by done. cbn [fst]. zif. split; [done|].
  unfold to_int. by zif.
Qed.
End parse.

(** The network delivers [bs] in at most [fuel] pieces, each of which fits. *)
Fixpoint delivers (E : net) (fuel : nat) (bs : list byte) (n : net_state E) : Prop :=
  match fuel with
  | O => bs = []
  | S fuel =>
      bs = [] \/
      forall q, 0 < q -> exists k n', (0 < k <= length bs)%nat /\ Z.of_nat k <= q /\
        net_recv E q n = (Some (take k bs), n') /\ delivers E fuel (drop k bs) n'
  end.

Section receive.
Variable E : net.
Variable d : list byte.
Hypothesis d_ok : msg_ok (client_resp d).
Hypothesis d_small : zlen d < 2 ^ 29.

(** The response buffer while a response arrives: it can grow, and has space. *)
Record arriving (part : list byte) (b : sc_buf) : Prop := {
  av_wf : buf_wf b;
  av_rpos : b_rpos b = 0;
  av_part : contents b = part;
  av_cap : 4 <= b_cap b < 2 ^ 31;
  av_space : b_wpos b < b_cap b;
  av_limit : b_limit b = SC_BUF_MAX;
  av_ref : b_ref b = false
}.

Definition filled (b : sc_buf) (p : list byte) : sc_buf :=
  sc_buf_mark_write (with_mem b (mwrite (b_mem b) (b_wpos b) p)) (zlen p).

Lemma filled_appended part b p :
  arriving part b -> b_wpos b + zlen p <= b_cap b -> appended b p (filled b p).
Proof.
  intros [Hwf ? ? ? ? ? ?] Hp. pose proof (zlen_nonneg p). pose proof Hwf as [].
  unfold filled, sc_buf_mark_write. cbn [with_mem b_wpos]. rewrite u32_small by lia. by apply written_mwrite.
Qed.

Lemma arriving_wpos part b : arriving part b -> b_wpos b = zlen part.
Proof. intros [Hwf Hr Hc _ _ _ _]. rewrite <- Hc, zlen_contents by done. lia. Qed.

(** After a piece that does not complete the frame there is space for more. *)
Lemma arriving_more part b p rest :
  arriving part b -> b_wpos b + zlen p <= b_cap b -> enc_msg (client_resp d) = (part ++ p) ++ rest -> rest <> [] ->
  zlen (part ++ p) < 4 -> arriving (part ++ p) (filled b p).
Proof.
  intros Hb Hp Ef Hrest H4. pose proof (filled_appended _ _ _ Hb Hp) as Ha. pose proof Hb as [Hwf Hr Hc Hcap Hs Hl Href].
  pose proof (a_wpos _ _ _ Hwf Ha) as Hw. rewrite (arriving_wpos _ _ Hb), <- zlen_app in Hw. pose proof (a_cap _ _ _ Ha).
  split; try apply Ha.
  - by rewrite (a_rpos _ _ _ Ha).
  - by rewrite (appended_contents _ _ _ Hwf Ha), Hc.
  - cbn. lia.
  - lia.
  - by rewrite (a_limit _ _ _ Ha).
  - by rewrite (a_ref _ _ _ Ha).
Qed.

Lemma arriving_reserve part b p rest :
  arriving part b -> b_wpos b + zlen p <= b_cap b -> enc_msg (client_resp d) = (part ++ p) ++ rest -> rest <> [] ->
  exists b', sc_buf_reserve (filled b p) (zlen d + 5) = (true, b') /\ arriving (part ++ p) b'.
Proof.
  intros Hb Hp Ef Hrest. pose proof (filled_appended _ _ _ Hb Hp) as Ha. pose proof Hb as [Hwf Hr Hc Hcap Hs Hl Href].
  pose proof (a_wpos _ _ _ Hwf Ha) as Hw. rewrite (arriving_wpos _ _ Hb), <- zlen_app in Hw. pose proof (zlen_nonneg d).
  assert (zlen (part ++ p) < zlen d + 5).
  { rewrite <- (zlen_resp d d_ok), Ef, (zlen_app (part ++ p)). destruct rest; [done|]. rewrite zlen_cons. pose proof (zlen_nonneg rest). lia. }
  pose proof (a_wf _ _ _ Ha) as Hwf1. assert (Hcap1 : b_cap (filled b p) = b_cap b) by done. pose proof (zlen_nonneg (part ++ p)).
  destruct (sc_buf_reserve_ok (filled b p) (zlen d + 5) Hwf1) as (b' & Eb & Ha' & Hroom); [lia|right; lia| |].
  { right. rewrite (a_ref _ _ _ Ha), (a_limit _ _ _ Ha), Hl. split; [done|]. unfold SC_BUF_MAX, UINT32_MAX. lia. }
  exists b'. split; [done|]. pose proof (a_wpos _ _ _ Hwf1 Ha') as Hw'. change (zlen []) with 0 in Hw'.
  split; try apply Ha'.
  - by rewrite (a_rpos _ _ _ Ha'), (a_rpos _ _ _ Ha).
  - by rewrite (appended_contents _ _ _ Hwf1 Ha'), (appended_contents _ _ _ Hwf Ha), Hc, app_nil_r.
  - split; [pose proof (a_cap _ _ _ Ha'); lia|]. revert Eb. unfold sc_buf_reserve. rewrite u32_small by lia.
    case_if; [|intros [= <-]; lia]. rewrite (a_ref _ _ _ Ha), Href.
    destruct (round_4096_spec (b_cap b + (zlen d + 5))) as [? ?]; [lia..|].
    destruct (_ || _); [done|]. intros [= <-]. cbn [b_cap]. lia.
  - lia.
  - by rewrite (a_limit _ _ _ Ha'), (a_limit _ _ _ Ha).
  - by rewrite (a_ref _ _ _ Ha'), (a_ref _ _ _ Ha).
Qed.

Lemma sock_recv_piece part c n k n' q p :
  arriving part (cl_resp c) -> q = b_cap (cl_resp c) - b_wpos (cl_resp c) -> net_recv E q n = (Some p, n') -> k = zlen p ->
  sock_recv E (c, n) =
    Some (k, (set_resp c (with_mem (cl_resp c) (mwrite (b_mem (cl_resp c)) (b_wpos (cl_resp c)) p)), n')).
Proof.
  intros Hb -> Hn ->. pose proof Hb as [Hwf _ _ Hcap Hs _ _]. pose proof Hwf as [].
  unfold sock_recv, mbind, clientM_bind, get, env. rewrite sc_buf_quota_wf by done.
  replace (to_int (b_cap (cl_resp c) - b_wpos (cl_resp c))) with (b_cap (cl_resp c) - b_wpos (cl_resp c)) by (unfold to_int; zif; lia).
  zif. by rewrite Hn.
Qed.

(** The loop behind a receive. *)
Definition recv_rest (fuel : nat) : clientM E received :=
  '(rc, m) ← on_resp E client_msg_parse;
  upd E (fun c => match m with None => c | Some _ => set_msg c m end);;
  if decide (rc = RESQL_PARTIAL) then
    len ← get E (fun c => msg_len (cl_resp c));
    if len =? -1 then recv_resp E fuel
    else
      b ← on_resp E (fun b => sc_buf_reserve b (u32 len));
      if (b : bool) then recv_resp E fuel
      else resql_fatal E (Err_text (text "Out of memory."));; mret No_memory
  else mret (Parsed rc).

Lemma after_piece part c p rest n fuel :
  arriving part (cl_resp c) -> b_wpos (cl_resp c) + zlen p <= b_cap (cl_resp c) ->
  enc_msg (client_resp d) = (part ++ p) ++ rest -> rest <> [] ->
  exists b, recv_rest fuel (set_resp c (filled (cl_resp c) p), n) = recv_resp E fuel (set_resp c b, n) /\ arriving (part ++ p) b.
Proof.
  intros Hb Hp Ef Hrest. pose proof (filled_appended _ _ _ Hb Hp) as Ha. pose proof Hb as [Hwf _ Hc _ _ _ _].
  destruct (client_parse_partial d d_ok (filled (cl_resp c) p) (part ++ p) rest (a_wf _ _ _ Ha) Ef Hrest) as [Ep El].
  { by rewrite (appended_contents _ _ _ Hwf Ha), Hc. }
  unfold recv_rest. unfold mbind at 1, clientM_bind at 1, on_resp at 1. cbn [cl_resp set_resp set_bufs]. rewrite Ep.
  unfold mbind at 1, clientM_bind at 1, upd at 1. rewrite decide_True by done.
  unfold mbind at 1, clientM_bind at 1, get at 1. cbn [cl_resp set_resp set_bufs]. rewrite El.
  pose proof (zlen_nonneg d). destruct (Z.ltb_spec (zlen (part ++ p)) 4) as [H4|H4].
  - exists (filled (cl_resp c) p). split; [done|]. by eapply arriving_more.
  - destruct (arriving_reserve part (cl_resp c) p rest Hb Hp Ef Hrest) as (b & Eb & Hb').
    exists b. split; [|done]. rewrite (proj2 (Z.eqb_neq _ _)) by lia. rewrite u32_small by lia.
    unfold mbind at 1, clientM_bind at 1, on_resp at 1. cbn [cl_resp set_resp set_bufs]. rewrite Eb. done.
Qed.

(** The loop ends with the whole response, whatever its pieces are. *)
Lemma recv_resp_ok pieces : forall fuel part rest c n,
  (pieces < fuel)%nat -> enc_msg (client_resp d) = part ++ rest -> rest <> [] ->
  arriving part (cl_resp c) -> delivers E pieces rest n ->
  exists b n', recv_resp E fuel (c, n) = Some (Parsed RESQL_OK, (set_msg (set_resp c b) (Some (client_resp d)), n')).
Proof.
  induction pieces as [|pieces IH]; intros [|fuel] part rest c n Hf Ef Hrest Hb Hd; try lia; [done|].
  destruct Hd as [?|Hd]; [done|]. pose proof Hb as [Hwf _ Hc _ Hs _ _].
  destruct (Hd (b_cap (cl_resp c) - b_wpos (cl_resp c))) as (k & n' & Hk & Hq & Hn & Hd'); [lia|].
  assert (Hz : zlen (take k rest) = Z.of_nat k) by (unfold zlen; rewrite length_take; lia).
  cbn [recv_resp]. unfold mbind at 1, clientM_bind at 1.
  rewrite (sock_recv_piece part c n (Z.of_nat k) n' _ (take k rest) Hb eq_refl Hn (eq_sym Hz)). zif.
  unfold mbind at 1, clientM_bind at 1, upd at 1. cbn [cl_resp set_resp set_bufs].
  rewrite <- Hz. fold (filled (cl_resp c) (take k rest)).
  assert (Hp : b_wpos (cl_resp c) + zlen (take k rest) <= b_cap (cl_resp c)) by lia.
  change (set_resp (set_resp c ?x) ?y) with (set_resp c y).
  assert (Ef' : enc_msg (client_resp d) = (part ++ take k rest) ++ drop k rest) by (by rewrite <- app_assoc, take_drop).
  destruct (decide (drop k rest = [])) as [Ed|Hmore].
  - pose proof (filled_appended _ _ _ Hb Hp) as Ha. rewrite Ed, app_nil_r in Ef'.
    destruct (client_parse_complete d d_ok (filled (cl_resp c) (take k rest)) (a_wf _ _ _ Ha)) as [b' Eb].
    { by rewrite (appended_contents _ _ _ Hwf Ha), Hc. }
    unfold mbind at 1, clientM_bind at 1, on_resp at 1. cbn [cl_resp set_resp set_bufs]. rewrite Eb. by eexists b', n'.
  - destruct (after_piece part c (take k rest) (drop k rest) n' fuel Hb Hp Ef' Hmore) as (b' & Er & Hb').
    unfold recv_rest in Er. rewrite Er.
    apply (IH fuel (part ++ take k rest) (drop k rest) (set_resp c b') n'); try done. lia.
Qed.
End receive.

(** ** A request and its response *)

(** A node at the other end of the connection, which is in time: what it answers arrives, in
    at most one piece for each of [size] bytes. *)
Definition talks (E : net) (size : nat) (timeout : Z) (serve : list byte -> option (list byte)) (n : net_state E) : Prop :=
  exists t0 n1 t1 n2, mono_ms E n = (t0, n1) /\ mono_ms E n1 = (t1, n2) /\ t1 -₆₄ t0 <= timeout /\
  forall bs resp, serve bs = Some resp -> (length resp <= size)%nat ->
    exists k n3, net_send E bs n2 = (k, n3) /\ 0 <= k /\ delivers E size resp n3.

Lemma sock_send_frame E b n f k n' :
  buf_wf b -> contents b = f -> 0 < zlen f < 2 ^ 31 -> net_send E f n = (k, n') ->
  forall c, sock_send E b (c, n) = Some (k, (c, n')).
Proof.
  intros Hwf Hc Hl Hn c. pose proof (zlen_contents b Hwf) as Hz. rewrite Hc in Hz.
  unfold sock_send. rewrite sc_buf_size_wf, <- Hz by done.
  replace (to_int (zlen f)) with (zlen f) by (unfold to_int; by zif). zif. unfold env.
  replace (take (Z.to_nat (zlen f)) (sc_buf_rbuf b)) with f; [by rewrite Hn|].
  symmetry. apply (contents_take b f []); [done|by rewrite app_nil_r].
Qed.

Lemma client_bind {E A B} (m : clientM E A) (f : A -> clientM E B) s a s' :
  m s = Some (a, s') -> (m ≫= f) s = f a s'.
Proof. intros H. unfold mbind, clientM_bind. by rewrite H. Qed.

Lemma get_bind {E A B} (g : resql -> A) (f : A -> clientM E B) c n : (get E g ≫= f) (c, n) = f (g c) (c, n).
Proof. done. Qed.
Lemma upd_bind {E B} (g : resql -> resql) (f : () -> clientM E B) c n : (upd E g ≫= f) (c, n) = f () (g c, n).
Proof. done. Qed.
Lemma ret_bind {E A B} (a : A) (f : A -> clientM E B) s : ((mret a : clientM E A) ≫= f) s = f a s.
Proof. done. Qed.

Section exchange.
Variable E : net.
Variable size : nat.
Variable serve : list byte -> option (list byte).
Variable d : list byte.
Hypothesis d_ok : msg_ok (client_resp d).
Hypothesis d_small : zlen d < 2 ^ 29.

Lemma send_req_ok fuel c n f :
  cl_connected c = true -> buf_wf (cl_req c) -> contents (cl_req c) = f -> 0 < zlen f < 2 ^ 31 ->
  arriving [] (sc_buf_clear (cl_resp c)) -> (size + 1 < fuel)%nat -> (length (enc_msg (client_resp d)) <= size)%nat ->
  talks E size (cl_timeout c) serve n -> serve f = Some (enc_msg (client_resp d)) ->
  exists b n', resql_send_req E fuel (c, n) = take_resp E RESQL_OK (set_msg (set_resp c b) (Some (client_resp d)), n').
Proof.
  intros Hcon Hwf Hc Hl Hresp Hf Hsize (t0 & n1 & t1 & n2 & H0 & H1 & Ht & Hs) Hserve.
  destruct (Hs _ _ Hserve Hsize) as (k & n3 & Hsend & Hk & Hd). destruct fuel as [|fuel]; [lia|].
  assert (Ht0 : env E (mono_ms E) (c, n) = Some (t0, (c, n1))) by (unfold env; by rewrite H0).
  assert (Ht1 : timed_out E t0 (c, n1) = Some (false, (c, n2))).
  { unfold timed_out, mbind, clientM_bind, env, get, mret, clientM_ret. rewrite H1. do 2 f_equal. zbool_solve. }
  unfold resql_send_req. rewrite (client_bind _ _ _ _ _ Ht0). cbn [send_req].
  rewrite (client_bind _ _ _ _ _ Ht1), get_bind, Hcon, ret_bind, (decide_False (P := RESQL_OK = RESQL_FATAL)), bool_decide_true by done. cbn [negb].
  rewrite get_bind, (client_bind _ _ _ _ _ (sock_send_frame E _ n2 f k n3 Hwf Hc Hl Hsend c)), if_false by zbool_solve.
  rewrite upd_bind. destruct (recv_resp_ok E d d_ok d_small size fuel [] (enc_msg (client_resp d)) (set_resp c (sc_buf_clear (cl_resp c))) n3)
    as (b & n' & Er); [lia|done| |done|done|].
  { rewrite enc_client_resp. done. }
  rewrite (client_bind _ _ _ _ _ Er). by exists b, n'.
Qed.
End exchange.

(** A client that is connected and can build a request of [body] bytes. *)
Record client_ready (body : Z) (c : resql) : Prop := {
  cr_connected : cl_connected c = true;
  cr_req : buf_wf (cl_req c);
  cr_req_cap : 14 <= b_cap (cl_req c);
  cr_req_room : fits (with_wpos (sc_buf_clear (cl_req c)) 14) body;
  cr_resp : arriving [] (sc_buf_clear (cl_resp c));
  cr_row : zlen (rs_row (cl_rs c)) = rs_column_cap (cl_rs c);
  cr_seq : is_u64 (cl_seq c)
}.

Definition request_seq (readonly : bool) (c : resql) : Z := if readonly then cl_seq c else cl_seq c +₆₄ 1.

Lemma exec_sends E lf fuel readonly p ps c0 n :
  is_stmt p -> Forall is_stmt ps -> client_ready (zlen (enc_request (p :: ps))) c0 ->
  exists b, buf_wf b /\ contents b = enc_msg (client_req (request_seq readonly c0) readonly (enc_request (p :: ps))) /\
    let c := set_req (set_seq (resql_clear c0) (request_seq readonly c0)) b in
    resql_exec E lf true fuel readonly (foldl op_call (resql_clear c0) (p :: ps), n) =
      (resql_send_req E fuel ≫= exec_end E lf true) (c, n).
Proof.
  intros Hp Hps [Hcon Hwf Hcap Hfit _ _ Hseq].
  destruct (ops_append ps Hps p (resql_clear c0) Hp eq_refl) as (f & Hf & Ec). rewrite Ec. clear Ec.
  set (g := fun b => sc_buf_put_8 (sc_buf_put_8 (sc_buf_put_8 b MSG_BIND_END) MSG_FLAG_OP_END) MSG_FLAG_MSG_END).
  assert (Hg : puts (op_end ++ enc_flag MSG_FLAG_MSG_END) g).
  { unfold op_end. rewrite <- app_assoc.
    apply (puts_app _ _ (fun b => sc_buf_put_8 b MSG_BIND_END) (fun b => sc_buf_put_8 (sc_buf_put_8 b MSG_FLAG_OP_END) MSG_FLAG_MSG_END)); [apply puts_int|].
    apply (puts_app _ _ (fun b => sc_buf_put_8 b MSG_FLAG_OP_END) (fun b => sc_buf_put_8 b MSG_FLAG_MSG_END)); apply puts_int. }
  pose proof (puts_app _ _ _ _ Hf Hg) as Hfg. rewrite app_assoc, open_ops_end in Hfg by done. fold (enc_request (p :: ps)) in Hfg.
  destruct (request_frame (cl_req c0) _ _ readonly (request_seq readonly c0) Hwf Hcap Hfg Hfit) as (Hb & Hr & Hc).
  eexists. split; [exact Hb|]. split; [exact Hc|].
  assert (Hv : sc_buf_valid (f (cl_req (resql_clear c0))) = true).
  { set (h := with_wpos (sc_buf_clear (cl_req c0)) 14) in *.
    assert (Eh : cl_req (resql_clear c0) = h).
    { unfold resql_clear, msg_create_client_req_header, sc_buf_set_wpos. cbn. by rewrite if_false by (rewrite Z.gtb_ltb; apply Z.ltb_ge; done). }
    assert (Hh : buf_wf h) by (destruct Hwf; split; simpl in *; lia).
    assert (Ha : appended h (open_ops p ps) (f h)).
    { apply (puts_appended h [] (open_ops p ps) h f); try done; [|by apply appended_nil]. eapply fits_le; [exact Hfit|]. unfold enc_request.
      change ([] ++ open_ops p ps) with (open_ops p ps). rewrite <- (open_ops_end ps Hps p Hp), !zlen_app.
      pose proof (zlen_nonneg op_end). pose proof (zlen_nonneg (enc_flag MSG_FLAG_MSG_END)). lia. }
    rewrite Eh. unfold sc_buf_valid. by rewrite (a_err _ _ _ Ha). }
  unfold resql_exec. rewrite get_bind. cbn [id set_req set_bufs cl_statement set_statement set_flags negb cl_error cl_req].
  change (cl_error (resql_clear c0)) with false. rewrite Hv. cbn [negb]. unfold finalize_req. rewrite !upd_bind. by destruct readonly.
Qed.

Lemma direct_ops_length Q aux readonly index ops : forall w rs w',
  direct_ops Q aux readonly index ops w = Some ((None, rs), w') -> length rs = length ops.
Proof.
  induction ops as [|p ops IH]; intros w rs w' H; cbn [direct_ops] in H; [by injection H as <- _|].
  unfold mbind, dirM_bind in H. destruct (direct_op Q aux readonly index p w) as [[[[rc|] r] w1]|]; [|done..].
  destruct (negb (bool_decide (rc = RS_OK))); [done|]. destruct (direct_ops Q aux readonly index ops w1) as [[[fail rs'] w2]|] eqn:E; [|done].
  injection H as -> <- _. cbn [length]. f_equal. by eapply IH.
Qed.

Lemma refuse_refuses Q aux rc w r w' : direct_refuse Q aux rc w = Some (r, w') -> exists e, r.2 = Refused e.
Proof.
  unfold direct_refuse, mbind, dirM_bind. destruct (direct_errstr Q w) as [[e w1]|]; [|done].
  destruct (dhooks Q false w1) as [[u w2]|]; [|done]. destruct (dsql Q _ w2) as [[v w3]|]; [|done].
  intros [= <- _]. by eexists.
Qed.

Lemma answered_length Q aux readonly index ops w rc reps progress w' :
  direct_request Q aux readonly index ops w = Some (rc, Some (Answered reps), progress, w') -> length reps = length ops.
Proof.
  unfold direct_request, mbind, dirM_bind. destruct (dsql Q _ w) as [[rc1 w1]|]; [|done].
  destruct (negb (rc1 =? SQLITE_DONE)); [done|]. destruct (direct_ops Q aux readonly index ops w1) as [[[fail rs] w2]|] eqn:E; [|done].
  destruct fail as [[rc2 r]|].
  - destruct (direct_refuse Q aux rc2 w2) as [[[rc3 a] w3]|] eqn:Er; [|done]. intros [= _ -> _ _]. by destruct (refuse_refuses _ _ _ _ _ _ Er).
  - destruct (dsql Q _ w2) as [[rc2 w3]|]; [|done]. destruct (negb (rc2 =? SQLITE_DONE)).
    + destruct (direct_refuse Q aux (aux_rc rc2) w3) as [[[rc3 a] w4]|] eqn:Er; [|done]. intros [= _ -> _ _]. by destruct (refuse_refuses _ _ _ _ _ _ Er).
    + intros [= _ <- _ _]. by eapply direct_ops_length.
Qed.

(** The node: it takes one request off its input, and the state machine executes it. *)
Definition serve (Q : sqlite) (aux : aux_stmts) (fuel : nat) (index : Z) (w : world Q) (out : sc_buf) (bs : list byte) : option (list byte) :=
  match msg_parse (sc_buf_wrap bs (zlen bs) SC_BUF_READ) with
  | ((RS_OK, Some (client_req _ readonly buf)), _) =>
      match state_exec_request Q aux fuel index readonly
        (mk_ex (g_conn w) (g_err w) (g_sess w) (sc_buf_wrap buf (zlen buf) SC_BUF_READ) out) with
      | Some (_, x) => Some (contents (x_resp x))
      | None => None
      end
  | _ => None
  end.

(** What the answers of the node need: the request and the response are legal frames, and the
    response fits into the buffer of the session. *)
Record node_ready (out : sc_buf) (seq : Z) (readonly : bool) (ops : list op) (a : answer) (progress : list byte) : Prop := {
  nr_req : msg_ok (client_req seq readonly (enc_request ops));
  nr_resp : msg_ok (client_resp (enc_answer a));
  nr_small : zlen (enc_answer a) < 2 ^ 29;
  nr_out : buf_wf out;
  nr_progress : fits (sc_buf_clear out) (zlen (resp_header ++ progress));
  nr_frame : fits (sc_buf_clear out) (zlen (frame a))
}.

Lemma serve_answers Q aux fuel index readonly ops w out seq rc a progress w' :
  sqlite_answers Q -> Forall op_ok ops -> (ops_fuel ops <= fuel)%nat -> node_ready out seq readonly ops a progress ->
  direct_request Q aux readonly index ops w = Some (rc, Some a, progress, w') ->
  serve Q aux fuel index w out (enc_msg (client_req seq readonly (enc_request ops))) = Some (frame a).
Proof.
  intros Hb Hok Hf [Hreq Hresp Hsmall Hout Hprog Hframe] Hd. pose proof (frame_len_bound _ Hreq) as Hl. unfold MSG_MAX_SIZE in Hl.
  rewrite <- zlen_enc_msg in Hl. unfold serve.
  destruct (wrap_contents (enc_msg (client_req seq readonly (enc_request ops))) SC_BUF_READ) as [Hwf Hc]; [done|lia|].
  destruct (msg_parse_complete _ _ [] Hwf Hreq) as (b' & -> & _); [by rewrite app_nil_r|].
  rewrite enc_client_req, !zlen_app, !zlen_le_split in Hl.
  destruct (wrap_contents (enc_request ops) SC_BUF_READ) as [Hwf' Hc']; [done|lia|].
  set (x := mk_ex (g_conn w) (g_err w) (g_sess w) (sc_buf_wrap (enc_request ops) (zlen (enc_request ops)) SC_BUF_READ) out).
  assert (Ew : view Q x = w) by (by destruct w). rewrite <- Ew in Hd.
  rewrite <- (app_nil_r (enc_request ops)) in Hc' at 3.
  pose proof (request_agrees Q aux fuel index readonly ops [] x Hb Hok Hf Hwf' eq_refl Hc' Hout) as H. rewrite Hd in H. unfold agree in H.
  destruct (state_exec_request Q aux fuel index readonly x) as [[rc' x']|]; [|done].
  destruct H as (_ & _ & H); [done|by intros ? [= <-]|]. by destruct (H a eq_refl) as (_ & _ & _ & ->).
Qed.

Lemma take_answered E c n reps :
  msg_ok (client_resp (enc_answer (Answered reps))) -> cl_msg c = Some (client_resp (enc_answer (Answered reps))) ->
  exists tmp : sc_buf, take_resp E RESQL_OK (c, n) = Some ((RESQL_OK, Some tmp), (resql_clear c, n)) /\
    buf_wf tmp /\ b_rpos tmp = 1 /\ written tmp = enc_answer (Answered reps).
Proof.
  intros Hok Hm. destruct (resp_len _ Hok) as [_ Hl]. unfold MSG_MAX_SIZE in Hl.
  destruct (wrap_contents (enc_answer (Answered reps)) SC_BUF_READ) as [Hwf Hc]; [done|lia|].
  set (d := enc_answer (Answered reps)) in *. destruct (takes_flag MSG_FLAG_OK ltac:(done) _ _ Hwf Hc) as (tmp & Et & [Hb Hw' Hc']).
  exists tmp. unfold take_resp. rewrite upd_bind, decide_False by (by intros [?|?]). rewrite get_bind.
  change (cl_msg (resql_clear c)) with (cl_msg c). rewrite Hm, Et. change (MSG_FLAG_OK =? MSG_FLAG_ERROR) with false. cbv iota.
  split_and!; [done|done|by rewrite Hb|]. rewrite Hb. unfold written. cbn. apply mread_all.
Qed.

Lemma take_refused E c n err :
  msg_ok (client_resp (enc_answer (Refused (Some err)))) -> cl_msg c = Some (client_resp (enc_answer (Refused (Some err)))) ->
  str_ok (Some err) ->
  match printed err with
  | Some out => exists tmp, take_resp E RESQL_OK (c, n) =
      Some ((RESQL_SQL_ERROR, Some tmp), (set_err (resql_clear c) (Err_text (take 255 out)), n))
  | None => take_resp E RESQL_OK (c, n) = None
  end.
Proof.
  intros Hok Hm Hs. destruct (resp_len _ Hok) as [_ Hl]. unfold MSG_MAX_SIZE in Hl.
  destruct (wrap_contents (enc_answer (Refused (Some err))) SC_BUF_READ) as [Hwf Hc]; [done|lia|].
  set (d := enc_answer (Refused (Some err))) in *. destruct (takes_flag MSG_FLAG_ERROR ltac:(done) _ _ Hwf Hc) as (b1 & E1 & H1).
  destruct (takes_str (Some err) Hs b1 _ (c_wf _ _ _ _ H1) (c_rest _ _ _ _ H1)) as (b2 & E2 & H2).
  unfold take_resp. rewrite upd_bind, decide_False by (by intros [?|?]). rewrite get_bind.
  change (cl_msg (resql_clear c)) with (cl_msg c). rewrite Hm, E1, Z.eqb_refl, E2. unfold resql_err_format.
  cbn [mbind option_bind]. destruct (printed err); [by exists b2|done].
Qed.

(** A null pointer is no format. *)
Lemma take_refused_null E c n :
  cl_msg c = Some (client_resp (enc_answer (Refused None))) -> take_resp E RESQL_OK (c, n) = None.
Proof.
  intros Hm. unfold take_resp. rewrite upd_bind, decide_False by (by intros [?|?]). rewrite get_bind.
  change (cl_msg (resql_clear c)) with (cl_msg c). rewrite Hm. reflexivity.
Qed.

(** What the caller of [resql_exec] gets for an answer of the node.  The first result reads
    as the first reply; when the compiler evaluates the operands of the sum in [resql_next] from
    the left, all results read as the replies.  The message of an error is printed as a format:
    where that is undefined, so is the call. *)
Definition client_sees {N} (left_first : bool) (a : answer) (r : option (resql_rc * (resql * N))) : Prop :=
  match a with
  | Answered reps =>
      Forall reply_ok reps -> forall fuel, (replies_fuel reps <= fuel)%nat ->
      exists c n, r = Some (RESQL_OK, (c, n)) /\ head reps = Some (client_reply fuel (cl_rs c)).1 /\
        (left_first = true -> client_replies fuel (cl_rs c) = reps)
  | Refused (Some err) =>
      str_ok (Some err) ->
      match printed err with
      | Some out => exists c n, r = Some (RESQL_SQL_ERROR, (c, n)) /\ cl_err c = Err_text (take 255 out)
      | None => r = None
      end
  | Refused None => r = None
  end.

Lemma answered_seen E lf c n p reps :
  msg_ok (client_resp (enc_answer (Answered (p :: reps)))) -> cl_msg c = Some (client_resp (enc_answer (Answered (p :: reps)))) ->
  zlen (rs_row (cl_rs c)) = rs_column_cap (cl_rs c) ->
  client_sees lf (Answered (p :: reps)) ((take_resp E RESQL_OK ≫= exec_end E lf true) (c, n)).
Proof.
  intros Hok Hm Hrow Hreps fuel Hf. destruct (take_answered E c n (p :: reps) Hok Hm) as (tmp & Et & Hwf & Hr & Hw).
  rewrite (client_bind _ _ _ _ _ Et). cbn [exec_end]. rewrite upd_bind. eexists _, n. split; [reflexivity|]. cbn [cl_rs set_rs set_bufs].
  apply Forall_cons in Hreps as [Hp Hreps]. destruct (resp_len _ Hok) as [_ Hl]. unfold MSG_MAX_SIZE in Hl.
  match goal with |- context [resql_next lf true ?x] => set (r := x) end.
  assert (Hrd : reading (enc_answer (Answered (p :: reps))) (enc_reply p ++ concat (map enc_reply reps) ++ enc_flag MSG_FLAG_MSG_END ++ []) r).
  { split; cbn [rs_buf rs_next_result rs_row rs_column_cap r]; try done.
    - rewrite Hr. split; [lia|]. cbn [enc_answer]. rewrite zlen_app. change (zlen (enc_flag MSG_FLAG_OK)) with 1.
      match goal with |- context [zlen ?l] => pose proof (zlen_nonneg l) end. lia.
    - rewrite Hr. cbn [enc_answer map concat]. rewrite app_nil_r. change (Z.to_nat 1) with (length (enc_flag MSG_FLAG_OK)).
      rewrite drop_app_length, <- app_assoc. done. }
  destruct (replies_read (enc_answer (Answered (p :: reps))) [] reps Hreps ltac:(lia) p fuel r Hp Hf Hrd) as (r' & En & Er). split.
  - destruct (next_place lf r) as [x Ex]. rewrite Ex, En. cbn [snd]. rewrite client_reply_next.
    unfold replies_fuel in Hf. destruct (next_reads _ p _ r fuel Hrd Hp ltac:(simpl in Hf; lia) ltac:(lia)) as (r1 & E1 & _ & r2 & E2 & _).
    rewrite En in E1. injection E1 as <-. by rewrite E2.
  - intros ->. by rewrite En.
Qed.

Lemma refused_seen E lf c n err :
  msg_ok (client_resp (enc_answer (Refused err))) -> cl_msg c = Some (client_resp (enc_answer (Refused err))) ->
  client_sees lf (Refused err) ((take_resp E RESQL_OK ≫= exec_end E lf true) (c, n)).
Proof.
  intros Hok Hm. destruct err as [err|]; cbn [client_sees].
  - intros Hs. pose proof (take_refused E c n err Hok Hm Hs) as H. destruct (printed err) as [out|].
    + destruct H as [tmp Et]. rewrite (client_bind _ _ _ _ _ Et). cbn [exec_end]. rewrite upd_bind. by eexists _, n.
    + unfold mbind, clientM_bind. by rewrite H.
  - unfold mbind, clientM_bind. by rewrite take_refused_null.
Qed.

Section roundtrip.
Variable Q : sqlite.
Variable aux : aux_stmts.
Variable E : net.

(** C3: a client and the state machine.  A client stages statements with their parameters and
    executes them against a node that is connected and in time; request and response fit a
    message.  The bytes it sends are the request of these operations, and the node runs it.  If SQLite answers, with numbers and
    texts that the types of the client can hold, resql_exec returns RESQL_OK; the first result
    reads, row by row and column by column, as the first reply of SQLite, and all results read
    as the replies when the compiler evaluates the sum in resql_next from the left.  If the node
    refuses with a text, the call returns RESQL_SQL_ERROR with what vsnprintf prints for the
    text as a format, cut to the size of the message; a text with a conversion other than two
    percent signs, or no text, makes the call undefined.  The network may cut the response into
    pieces of any size. *)
Theorem client_roundtrip left_first size sfuel cfuel index readonly p ps c n w out rc a progress w' :
  sqlite_answers Q -> Forall is_stmt (p :: ps) -> Forall op_ok (p :: ps) -> (ops_fuel (p :: ps) <= sfuel)%nat ->
  direct_request Q aux readonly index (p :: ps) w = Some (rc, Some a, progress, w') ->
  node_ready out (request_seq readonly c) readonly (p :: ps) a progress ->
  client_ready (zlen (enc_request (p :: ps))) c ->
  talks E size (cl_timeout c) (serve Q aux sfuel index w out) n -> (length (frame a) <= size)%nat -> (size + 1 < cfuel)%nat ->
  client_sees left_first a (resql_exec E left_first true cfuel readonly (foldl op_call (resql_clear c) (p :: ps), n)).
Proof.
  intros Hb Hst Hok Hf Hd Hn Hc Ht Hsize Hcf. apply Forall_cons in Hst as [Hp Hps].
  destruct (exec_sends E left_first cfuel readonly p ps c n Hp Hps Hc) as (b & Hwf & Hcb & ->).
  pose proof (serve_answers Q aux sfuel index readonly (p :: ps) w out _ rc a progress w' Hb Hok Hf Hn Hd) as Hs.
  pose proof (frame_len_bound _ (nr_req _ _ _ _ _ _ Hn)) as Hl. unfold MSG_MAX_SIZE in Hl. rewrite <- zlen_enc_msg in Hl.
  destruct (send_req_ok E size (serve Q aux sfuel index w out) (enc_answer a) (nr_resp _ _ _ _ _ _ Hn) (nr_small _ _ _ _ _ _ Hn) cfuel
    (set_req (set_seq (resql_clear c) (request_seq readonly c)) b) n _ (cr_connected _ _ Hc) Hwf Hcb) as (b' & n' & Er); try done; [lia|apply Hc|].
  assert (Em : (resql_send_req E cfuel ≫= exec_end E left_first true) (set_req (set_seq (resql_clear c) (request_seq readonly c)) b, n) =
    (take_resp E RESQL_OK ≫= exec_end E left_first true)
      (set_msg (set_resp (set_req (set_seq (resql_clear c) (request_seq readonly c)) b) b') (Some (client_resp (enc_answer a))), n')).
  { unfold mbind, clientM_bind. by rewrite Er. }
  rewrite Em. destruct a as [reps|err]; [|by apply refused_seen; [apply Hn|]].
  pose proof (answered_length _ _ _ _ _ _ _ _ _ _ Hd) as Hlen. destruct reps as [|q reps]; [done|].
  apply answered_seen; [apply Hn|done|apply Hc].
Qed.
End roundtrip.

(** A network that delivers what the node answers in pieces of three bytes. *)
Definition pipe (serve : list byte -> option (list byte)) : net := {|
  net_state := list byte;
  mono_ms := fun n => (1000, n);
  time_sleep := fun _ n => n;
  dial := fun _ _ _ _ _ n => (Dial_ok, n);
  net_send := fun bs n => match serve bs with Some r => (zlen bs, r) | None => (-1, n) end;
  net_recv := fun q n => match n with [] => (None, n) | _ => (Some (take (Z.to_nat q `min` 3) n), drop (Z.to_nat q `min` 3) n) end;
  sock_term := fun n => n
|}.

Lemma pipe_delivers serve fuel : forall bs, (length bs <= fuel)%nat -> delivers (pipe serve) fuel bs bs.
Proof.
  induction fuel as [|fuel IH]; intros bs Hl; [by destruct bs; [|simpl in Hl; lia]|].
  destruct bs as [|b bs]; [by left|]. right. intros q Hq. exists ((Z.to_nat q `min` 3) `min` length (b :: bs))%nat.
  exists (drop (Z.to_nat q `min` 3) (b :: bs)). split_and!; cbn [length]; try lia.
  - cbn [pipe net_recv]. do 2 f_equal. rewrite <- (firstn_all (b :: bs)) at 1. by rewrite take_take.
  - replace (drop ((Z.to_nat q `min` 3) `min` S (length bs)) (b :: bs)) with (drop (Z.to_nat q `min` 3) (b :: bs)).
    + apply IH. rewrite length_drop. cbn [length] in *. lia.
    + destruct (decide (Z.to_nat q `min` 3 <= S (length bs))%nat); [f_equal; lia|]. rewrite !drop_ge by (cbn [length]; lia). done.
Qed.

Lemma pipe_talks serve size timeout n : 0 <= timeout -> talks (pipe serve) size timeout serve n.
Proof.
  intros Ht. exists 1000, n, 1000, n. split_and!; try done. intros bs resp Hs Hl. exists (zlen bs), resp. cbn. rewrite Hs.
  split_and!; [done|apply zlen_nonneg|by apply pipe_delivers].
Qed.

Definition demo_client : resql :=
  set_connected (new_client (mk_config None None None None None 2000) (text "client") []) true.

Definition demo_op : op :=
  OStmt (Some (text "SELECT * FROM t WHERE id = ? AND name = :n;"))
    [(ByIndex 0, DInteger (-5)); (ByName (Some (text ":n")), DText (Some (text "ada")))].
Definition demo_more : list op := [OStmt (Some (text "SELECT * FROM t;")) []].

Lemma demo_run : exists progress w,
  direct_request rows_sqlite demo_aux true 0 (demo_op :: demo_more) rows_world =
    Some (RS_OK, Some (Answered [rows_reply; rows_reply]), progress, w) /\ zlen progress = 159.
Proof. eexists _, _. split; [vm_compute; reflexivity|]. vm_compute. reflexivity. Qed.

Lemma demo_node progress : zlen progress = 159 ->
  node_ready (sc_buf_init 512) (request_seq true demo_client) true (demo_op :: demo_more) (Answered [rows_reply; rows_reply]) progress.
Proof.
  intros Hl. split.
  1,2: apply (bool_decide_unpack _); vm_compute; reflexivity.
  - vm_compute. reflexivity.
  - apply wf_init. lia.
  - rewrite zlen_app, Hl. split; left; vm_compute; discriminate.
  - split; left; vm_compute; discriminate.
Qed.

Lemma demo_ready : client_ready (zlen (enc_request (demo_op :: demo_more))) demo_client.
Proof.
  split; [reflexivity|apply wf_init; lia|vm_compute; discriminate|split; left; vm_compute; discriminate| |reflexivity|vm_compute; split; discriminate || reflexivity].
  split; try (vm_compute; first [reflexivity|discriminate|split; discriminate || reflexivity]). apply wf_clear, wf_init. lia.
Qed.

Abbreviation demo_net := (pipe (serve rows_sqlite demo_aux 10 0 rows_world (sc_buf_init 512))).

Lemma client_roundtrip_witness : exists c n,
  resql_exec demo_net true true 300 true (foldl op_call (resql_clear demo_client) (demo_op :: demo_more), []) = Some (RESQL_OK, (c, n)) /\
  client_replies 5 (cl_rs c) = [rows_reply; rows_reply].
Proof.
  destruct demo_run as (progress & w & Ed & Hl).
  pose proof (client_roundtrip rows_sqlite demo_aux demo_net true 200 10 300 0 true demo_op demo_more demo_client [] rows_world
    (sc_buf_init 512) RS_OK (Answered [rows_reply; rows_reply]) progress w) as H.
  unfold client_sees in H. edestruct H as (c & n & E & _ & Er); clear H.
  - apply rows_sqlite_answers.
  - apply (bool_decide_unpack _). vm_compute. reflexivity.
  - apply (bool_decide_unpack _). vm_compute. reflexivity.
  - vm_compute. repeat constructor.
  - exact Ed.
  - by apply demo_node.
  - apply demo_ready.
  - apply pipe_talks. vm_compute. discriminate.
  - vm_compute. repeat constructor.
  - apply (bool_decide_unpack _). vm_compute. reflexivity.
  - apply (bool_decide_unpack _). vm_compute. reflexivity.
  - vm_compute. repeat constructor.
  - exists c, n. split; [exact E|]. exact (Er eq_refl).
Defined.

(** ** What the client library does not do *)

(** *** A prepare that runs out of time stays in the request

    [resql_prepare] returns the error of [resql_send_req] without [resql_clear]. *)

(** A clock that shows the given times, and a connection that takes requests and is lost
    before it answers. *)
Definition clock_net : net := {|
  net_state := list Z * list (list byte);
  mono_ms := fun '(ts, sent) => (hd 0 ts, (tl ts, sent));
  time_sleep := fun _ n => n;
  dial := fun _ _ _ _ _ n => (Dial_error, n);
  net_send := fun bs '(ts, sent) => (zlen bs, (ts, sent ++ [bs]));
  net_recv := fun q n => (None, n);
  sock_term := fun n => n
|}.

(** The clock is at 0 when [resql_prepare] begins and past the timeout at the first check; the
    request of the next call is then sent behind the one of [resql_prepare]. *)
Lemma prepare_timeout_kept :
  let sql := Some (text "SELECT 1;") in
  let del := OStmt (Some (text "DELETE FROM t;")) [] in
  exists c c' n,
    resql_prepare clock_net 5 sql (resql_clear demo_client, ([0; 5000], [])) = Some ((RESQL_ERROR, None), (c, ([], []))) /\
    resql_exec clock_net true true 5 false (op_call c del, ([0; 0; 5000], [])) = Some (RESQL_ERROR, (c', n)) /\
    n = ([], [enc_msg (client_req 2 false (enc_request [OPrepare sql] ++ enc_request [del]))]).
Proof. eexists _, _, _. split; [vm_compute; reflexivity|]. split; vm_compute; reflexivity. Qed.

(** *** The documented loop

    resql.h says [while (resql_next(rs))], but the code of success is zero: on the last
    result [resql_next] fails for ever. *)
Lemma next_spins data more r k :
  reading data (enc_flag MSG_FLAG_MSG_END ++ more) r ->
  reading data (enc_flag MSG_FLAG_MSG_END ++ more) (Nat.iter k (fun r => (resql_next true true r).2) r) /\
  (resql_next true true (Nat.iter k (fun r => (resql_next true true r).2) r)).1 = RESQL_DONE.
Proof.
  assert (H : forall r, reading data (enc_flag MSG_FLAG_MSG_END ++ more) r ->
    reading data (enc_flag MSG_FLAG_MSG_END ++ more) (resql_next true true r).2 /\ (resql_next true true r).1 = RESQL_DONE).
  { intros r0 Hr. destruct (set_rpos_reading _ _ _ Hr) as (Es & Hwf & Hc). unfold resql_next. rewrite Es.
    destruct (takes_flag MSG_FLAG_MSG_END ltac:(done) _ _ Hwf Hc) as (b & -> & [Hb Hwb _]). cbn. split; [|done].
    destruct Hr. split; cbn; try done. by rewrite Hb. }
  intros Hr. assert (Hk : reading data (enc_flag MSG_FLAG_MSG_END ++ more) (Nat.iter k (fun r => (resql_next true true r).2) r)).
  { induction k as [|k IH]; [done|]. exact (proj1 (H _ IH)). }
  split; [done|]. exact (proj2 (H _ Hk)).
Qed.

(** *** A response to a connection request that does not fit

    The buffer has 1024 bytes, and the loop does not make room as the one of
    [resql_send_req] does; a full buffer receives nothing, which is not taken for an error. *)
Lemma recv_connect_spins E fuel : forall c n,
  buf_wf (cl_resp c) -> b_wpos (cl_resp c) = b_cap (cl_resp c) ->
  client_msg_parse (cl_resp c) = ((RESQL_PARTIAL, None), cl_resp c) ->
  recv_connect_resp E fuel (c, n) = None.
Proof.
  induction fuel as [|fuel IH]; intros c n Hwf Hw Hp; [done|]. cbn [recv_connect_resp].
  assert (Hs : sock_recv E (c, n) = Some (0, (c, n))).
  { unfold sock_recv. rewrite get_bind, sc_buf_quota_wf, Hw, Z.sub_diag by done. done. }
  rewrite (client_bind _ _ _ _ _ Hs). change (0 <? 0) with false. cbv iota. rewrite upd_bind.
  assert (Hm : sc_buf_mark_write (cl_resp c) 0 = cl_resp c).
  { unfold sc_buf_mark_write. destruct Hwf. rewrite Z.add_0_r, u32_small by lia. apply with_wpos_id. }
  rewrite Hm. set (c1 := set_resp c (cl_resp c)).
  assert (Hr : on_resp E client_msg_parse (c1, n) = Some ((RESQL_PARTIAL, None), (c1, n))).
  { unfold on_resp. change (cl_resp c1) with (cl_resp c). by rewrite Hp. }
  rewrite (client_bind _ _ _ _ _ Hr), decide_True by done. exact (IH c1 n Hwf Hw Hp).
Qed.

(** A node that answers with a list of nodes of 1100 bytes. *)
Definition whole_net : net := {|
  net_state := list byte;
  mono_ms := fun n => (0, n);
  time_sleep := fun _ n => n;
  dial := fun _ _ _ _ _ n => (Dial_ok, n);
  net_send := fun bs n => (zlen bs, enc_msg (connect_resp 0 0 1 (Some (replicate 1100 x61))));
  net_recv := fun q n => (Some (take (Z.to_nat q) n), drop (Z.to_nat q) n);
  sock_term := fun n => n
|}.

Definition big_frame : list byte := enc_msg (connect_resp 0 0 1 (Some (replicate 1100 x61))).

(** The buffer when the request has been sent, and after the first bytes of the response. *)
Definition sent_buf : sc_buf := snd (client_create_connect_req (sc_buf_init 1024) (Some (text "cluster")) (Some (text "client"))).
Definition full_buf : sc_buf := filled (sc_buf_clear sent_buf) (take 1024 big_frame).

Lemma full_spins fuel n : recv_connect_resp whole_net fuel (set_resp demo_client full_buf, n) = None.
Proof.
  apply recv_connect_spins; cbn [cl_resp set_resp set_bufs].
  - split; vm_compute; first [reflexivity|discriminate|split; discriminate || reflexivity].
  - vm_compute. reflexivity.
  - vm_compute. reflexivity.
Qed.

Lemma receive_hangs fuel : recv_connect_resp whole_net fuel (set_resp demo_client (sc_buf_clear sent_buf), big_frame) = None.
Proof.
  destruct fuel as [|fuel]; [done|]. cbn [recv_connect_resp].
  assert (Hs : sock_recv whole_net (set_resp demo_client (sc_buf_clear sent_buf), big_frame) = Some (1024,
    (set_resp demo_client (with_mem (sc_buf_clear sent_buf) (mwrite (b_mem sent_buf) 0 (take 1024 big_frame))), drop 1024 big_frame)))
    by (vm_compute; reflexivity).
  rewrite (client_bind _ _ _ _ _ Hs), if_false by done. rewrite (@upd_bind whole_net).
  set (c := set_resp _ (sc_buf_mark_write _ 1024)).
  assert (Hp : on_resp whole_net client_msg_parse (c, drop 1024 big_frame) =
    Some ((RESQL_PARTIAL, None), (set_resp demo_client full_buf, drop 1024 big_frame))) by (vm_compute; reflexivity).
  rewrite (client_bind _ _ _ _ _ Hp), decide_True by done. apply full_spins.
Qed.

Lemma connect_hangs fuel : resql_recv_connect_resp whole_net fuel (demo_client, []) = None.
Proof.
  unfold resql_recv_connect_resp. rewrite (@upd_bind whole_net), (@get_bind whole_net).
  set (c := set_resp demo_client (sc_buf_clear (cl_resp demo_client))).
  assert (Hb : on_resp whole_net (fun b => client_create_connect_req b (cl_cluster_name (id c)) (cl_name (id c))) (c, []) =
    Some (true, (set_resp demo_client sent_buf, []))) by (vm_compute; reflexivity).
  rewrite (client_bind _ _ _ _ _ Hb). cbn [negb]. rewrite (@get_bind whole_net).
  assert (Hs : sock_send whole_net (cl_resp (set_resp demo_client sent_buf)) (set_resp demo_client sent_buf, []) =
    Some (b_wpos sent_buf, (set_resp demo_client sent_buf, big_frame))) by (vm_compute; reflexivity).
  rewrite (client_bind _ _ _ _ _ Hs), if_false by done. rewrite (@upd_bind whole_net).
  unfold mbind at 1, clientM_bind at 1. change (set_resp (set_resp demo_client sent_buf) ?b) with (set_resp demo_client b).
  by rewrite receive_hangs.
Qed.

(** *** The order of evaluation

    A compiler that evaluates [sc_buf_get_32] before [sc_buf_rpos] makes [resql_next] miss the
    second result. *)
Lemma next_order :
  let d := enc_answer (Answered [rows_reply; rows_reply]) in
  let r := mk_result 1 0 0 0 0 0 0 (sc_buf_wrap d (zlen d) SC_BUF_READ) [] 0 in
  (resql_next true true (resql_next true true r).2).1 = RESQL_OK /\
  (resql_next false true (resql_next false true r).2).1 = RESQL_DONE.
Proof. vm_compute. split; reflexivity. Qed.
