(* ===== verification/State.v ===== *)
(** * The replicated state machine (src/state.c, src/info.c)

    [state_apply] applies one entry of the log: requests of clients, the sessions they
    belong to, cluster configurations, terms, time stamps and node information.  Session
    objects live in a heap, since the map of names, the map of ids and the list of
    disconnected sessions point to them.  [None] is a process that stops or hangs: an
    [rs_abort], a null pointer, a loop that does not end.

    The maps are finite maps (Map.v) and are walked in the order of [map_to_list]; the
    list of disconnected sessions is the list of its members (Dlist.v). *)

From Stdlib Require Import ZArith Lia.
From Stdlib Require Import Strings.Byte.
From stdpp Require Import base list numbers gmap strings.
From S2P Require Import Prelude Sc Str Uri Buf Entry Msg Map Meta Cmd Sql Session Exec.

(** [struct info] *)
Record info := mk_info {
  i_name : option (list byte);
  i_urls : option (list byte);
  i_connected : option (list byte);
  i_role : option (list byte);
  i_stats : sc_buf
}.

Definition info_create (name : option (list byte)) : info :=
  mk_info (str_create name) None None None (sc_buf_init 1024).
Definition info_set_connected (n : info) (connected : bool) : info :=
  mk_info (i_name n) (i_urls n) (str_set (i_connected n) (Some (if connected then text "true" else text "false")))
    (i_role n) (i_stats n).
Definition info_set_role (n : info) (role : list byte) : info :=
  mk_info (i_name n) (i_urls n) (i_connected n) (str_set (i_role n) (Some role)) (i_stats n).
Definition info_set_urls (n : info) (urls : list byte) : info :=
  mk_info (i_name n) (str_set (i_urls n) (Some urls)) (i_connected n) (i_role n) (i_stats n).
Definition info_set_stats (n : info) (data : list byte) : info :=
  mk_info (i_name n) (i_urls n) (i_connected n) (i_role n) (sc_buf_put_raw (sc_buf_clear (i_stats n)) data).

Definition meta_role_str (role : Z) : list byte :=
  if role =? META_LEADER then text "leader" else text "follower".

Section state.
Variable Q : sqlite.
Variable aux : aux_stmts.
(** [localtime_r] and [strftime] of the machine. *)
Variable local_time : Z -> option (list byte).
(** The [printf]-style writer: the text of a format without arguments, and the log line
    of a configuration. *)
Variable format : list byte -> list byte.
Variable meta_line : meta -> list byte.

(** [struct state]; the fields that callbacks of SQLite use are in the connection. *)
Record state := mk_state {
  st_conn : conn Q;
  st_last_err : option (list byte);
  st_meta : meta;
  st_term : Z;
  st_index : Z;
  st_timestamp : Z;
  st_monotonic : Z;
  st_disconnects : list Z;
  st_nodes : gmap (list byte) info;
  st_names : gmap (list byte) Z;
  st_ids : gmap Z Z;
  st_heap : gmap Z session
}.

Definition with_conn (st : state) (c : conn Q) : state :=
  mk_state c (st_last_err st) (st_meta st) (st_term st) (st_index st) (st_timestamp st) (st_monotonic st)
    (st_disconnects st) (st_nodes st) (st_names st) (st_ids st) (st_heap st).
Definition with_last_err (st : state) (e : option (list byte)) : state :=
  mk_state (st_conn st) e (st_meta st) (st_term st) (st_index st) (st_timestamp st) (st_monotonic st)
    (st_disconnects st) (st_nodes st) (st_names st) (st_ids st) (st_heap st).
Definition with_meta (st : state) (m : meta) : state :=
  mk_state (st_conn st) (st_last_err st) m (st_term st) (st_index st) (st_timestamp st) (st_monotonic st)
    (st_disconnects st) (st_nodes st) (st_names st) (st_ids st) (st_heap st).
Definition with_pos (st : state) (term index : Z) : state :=
  mk_state (st_conn st) (st_last_err st) (st_meta st) term index (st_timestamp st) (st_monotonic st)
    (st_disconnects st) (st_nodes st) (st_names st) (st_ids st) (st_heap st).
Definition with_time (st : state) (timestamp monotonic : Z) : state :=
  mk_state (st_conn st) (st_last_err st) (st_meta st) (st_term st) (st_index st) timestamp monotonic
    (st_disconnects st) (st_nodes st) (st_names st) (st_ids st) (st_heap st).
Definition with_infos (st : state) (nodes : gmap (list byte) info) : state :=
  mk_state (st_conn st) (st_last_err st) (st_meta st) (st_term st) (st_index st) (st_timestamp st) (st_monotonic st)
    (st_disconnects st) nodes (st_names st) (st_ids st) (st_heap st).
Definition with_sessions (st : state) (disconnects : list Z) (names : gmap (list byte) Z) (ids : gmap Z Z)
    (heap : gmap Z session) : state :=
  mk_state (st_conn st) (st_last_err st) (st_meta st) (st_term st) (st_index st) (st_timestamp st) (st_monotonic st)
    disconnects (st_nodes st) names ids heap.
Definition with_heap (st : state) (heap : gmap Z session) : state :=
  with_sessions st (st_disconnects st) (st_names st) (st_ids st) heap.
Definition with_disconnects (st : state) (l : list Z) : state :=
  with_sessions st l (st_names st) (st_ids st) (st_heap st).

Definition stateM (A : Type) : Type := state -> option (A * state).

#[export] Instance stateM_ret : MRet stateM := fun A a st => Some (a, st).
#[export] Instance stateM_bind : MBind stateM :=
  fun A B f m st => match m st with None => None | Some (a, st) => f a st end.

Definition stops {A} : stateM A := fun _ => None.
Definition modify (f : state -> state) : stateM () := fun st => Some ((), f st).
Definition gets {A} (f : state -> A) : stateM A := fun st => Some (f st, st).
Definition db_do {A} (m : sqlM Q A) : stateM A := fun st =>
  let '(a, c) := m (st_conn st) in Some (a, with_conn st c).

(** [if (rc != RS_OK) return rc] *)
Definition unless_ok {A} (rc : rs_rc) (early : rs_rc -> A) (k : stateM A) : stateM A :=
  if decide (rc = RS_OK) then k else mret (early rc).

(** The object at an address; an address that is not in the heap is dangling. *)
Definition session_at (a : Z) : stateM session := fun st =>
  match st_heap st !! a with None => None | Some s => Some (s, st) end.
Definition set_session (a : Z) (s : session) : stateM () := modify (fun st => with_heap st (<[a := s]> (st_heap st))).

(** ** Sessions *)

(** [session_create]: a new object at an unused address. *)
Definition new_session (name : option (list byte)) (id : Z) : stateM Z := fun st =>
  let a := fresh (dom (st_heap st)) in
  Some (a, with_heap st (<[a := session_create name id]> (st_heap st))).

(** [session_destroy] *)
Definition free_session (a : Z) : stateM () :=
  s ← session_at a;
  modify (fun st => with_disconnects st (filter (fun b => b <> a) (st_disconnects st)));;
  db_do (session_destroy Q s);;
  modify (fun st => with_heap st (delete a (st_heap st))).

Definition state_on_client_connect (name local remote : option (list byte)) : stateM (rs_rc * Z) :=
  match name with
  | None => stops
  | Some key =>
      found ← gets (fun st => st_names st !! key);
      a ← match found with
          | Some a => mret a
          | None =>
              index ← gets st_index;
              a ← new_session name index;
              s ← session_at a;
              match se_name s with
              | None => stops
              | Some key =>
                  modify (fun st => with_sessions st (st_disconnects st) (<[key := a]> (st_names st))
                                      (<[se_id s := a]> (st_ids st)) (st_heap st));;
                  mret a
              end
          end;
      s ← session_at a;
      realtime ← gets (fun st => h_realtime (k_hooks (st_conn st)));
      modify (fun st => with_disconnects st (filter (fun b => b <> a) (st_disconnects st)));;
      let s := session_connected local_time s local remote realtime in
      set_session a s;;
      rc ← db_do (aux_write_session Q aux s);
      mret (rc, a)
  end.

Definition state_on_client_disconnect (name : option (list byte)) (clean : bool) : stateM rs_rc :=
  match name with
  | None => stops
  | Some key =>
      found ← gets (fun st => st_names st !! key);
      match found with
      | None => mret RS_OK
      | Some a =>
          s ← session_at a;
          timestamp ← gets st_timestamp;
          let s := session_disconnected s timestamp in
          set_session a s;;
          if clean then
            rc ← db_do (aux_del_session Q aux s);
            unless_ok rc id (
              modify (fun st => with_sessions st (st_disconnects st) (delete key (st_names st))
                                  (delete (se_id s) (st_ids st)) (st_heap st));;
              free_session a;;
              mret RS_OK)
          else
            rc ← db_do (aux_write_session Q aux s);
            unless_ok rc id (
              modify (fun st => with_disconnects st (filter (fun b => b <> a) (st_disconnects st) ++ [a]));;
              mret RS_OK)
      end
  end.

(** ** Node information *)

(** The 34 texts of a node's metrics, read from its buffer. *)
Fixpoint read_stats (n : nat) : bufM (list param) :=
  match n with
  | O => mret []
  | S n => s ← sc_buf_get_str; ps ← read_stats n; mret (PText s (-1) :: ps)
  end.

Definition aux_write_node (n : info) : sqlM Q (rs_rc * info) :=
  let stmt := aux_add_node_stmt aux in
  rc ← bind_all Q stmt 1 0 [PText (i_name n) (-1); PText (i_connected n) (-1); PText (i_role n) (-1); PText (i_urls n) (-1)];
  let '(ps, stats) := if sc_buf_size (i_stats n) =? 0 then ([], i_stats n) else read_stats 34 (i_stats n) in
  rc ← bind_all Q stmt 5 rc ps;
  rc ← (if negb (rc =? SQLITE_OK) then mret rc else sqlite3_step Q stmt);
  aux_clear Q stmt;;
  mret (aux_rc rc, mk_info (i_name n) (i_urls n) (i_connected n) (i_role n) stats).

Fixpoint write_infos (ns : list (list byte * info)) : stateM rs_rc :=
  match ns with
  | [] => mret RS_OK
  | (key, n) :: ns =>
      '(rc, n) ← db_do (aux_write_node n);
      modify (fun st => with_infos st (<[key := n]> (st_nodes st)));;
      unless_ok rc id (write_infos ns)
  end.

Definition state_write_infos : stateM rs_rc :=
  rc ← db_do (aux_clear_nodes Q);
  unless_ok rc id (
    ns ← gets (fun st => map_to_list (st_nodes st));
    write_infos ns).

(** The bytes that [state_write_vars] writes. *)
Definition vars_bytes (st : state) : list byte :=
  let h := k_hooks (st_conn st) in
  let b := sc_buf_init 1024 in
  let b := sc_buf_put_64 b (st_term st) in
  let b := sc_buf_put_64 b (st_index st) in
  let b := sc_buf_put_64 b (u64 (h_max_page h)) in
  let b := sc_buf_put_64 b (h_session_timeout h) in
  let b := meta_encode (st_meta st) b in
  let b := sc_buf_put_64 b (st_timestamp st) in
  let b := sc_buf_put_64 b (h_realtime h) in
  let b := sc_buf_put_64 b (st_monotonic st) in
  let b := sc_buf_put_8 b (r_i (h_wrand h)) in
  let b := sc_buf_put_8 b (r_j (h_wrand h)) in
  contents (sc_buf_put_raw b (r_init (h_wrand h))).

Definition state_write_vars : stateM rs_rc :=
  vars ← gets vars_bytes;
  rc ← db_do (aux_write_kv Q (text "var") vars);
  unless_ok rc id (
    m ← gets st_meta;
    db_do (aux_write_kv Q (text "cluster_name") (default [] (m_name m) ++ [x00]))).

Definition update_node (nodes : gmap (list byte) info) (n : meta_node) : gmap (list byte) info :=
  let key := default [] (mn_name n) in
  let i := match nodes !! key with Some i => i | None => info_create (mn_name n) end in
  let i := info_set_role i (meta_role_str (mn_role n)) in
  <[key := info_set_urls i (concat (map (fun u => format (u_str u)) (mn_uris n)))]> nodes.

Definition state_update_info (st : state) : state :=
  with_infos st (foldl update_node (st_nodes st) (m_nodes (st_meta st))).

(** The loop that deletes the first node that is not in the configuration. *)
Definition drop_info (st : state) : state :=
  match find (fun x => negb (existsb (fun n => str_is_eq (mn_name n) (fst x)) (m_nodes (st_meta st))))
          (map_to_list (st_nodes st)) with
  | None => st
  | Some x => with_infos st (delete (fst x) (st_nodes st))
  end.

Definition state_on_meta (index : Z) (m : meta) : stateM rs_rc :=
  match meta_copy m with
  | None => stops
  | Some m =>
      modify (fun st => with_meta st m);;
      modify drop_info;;
      modify state_update_info;;
      rc ← state_write_infos;
      unless_ok rc id (
        rc ← state_write_vars;
        unless_ok rc id (db_do (aux_add_log Q aux index (Some (text "INFO")) (Some (meta_line m)))))
  end.

(** One node of the information the leader collected. *)
Fixpoint info_loop (fuel : nat) (buf : sc_buf) : stateM () :=
  match fuel with
  | O => stops
  | S fuel =>
      if sc_buf_size buf =? 0 then mret ()
      else
        let '(name, buf) := sc_buf_get_str buf in
        let '(connected, buf) := sc_buf_get_bool buf in
        let '(len, buf) := sc_buf_get_32 buf in
        let '(ptr, buf) := sc_buf_get_blob len buf in
        match name with
        | None => stops
        | Some key =>
            modify (fun st =>
              match st_nodes st !! key with
              | None => st
              | Some n =>
                  let n := info_set_connected n connected in
                  let n := if negb (len =? 0) then info_set_stats n (default [] ptr) else n in
                  with_infos st (<[key := n]> (st_nodes st))
              end);;
            info_loop fuel buf
        end
  end.

Definition state_on_info (fuel : nat) (buf : sc_buf) : stateM rs_rc :=
  info_loop fuel buf;;
  state_write_infos.

(** ** Time *)

(** Every known session is disconnected. *)
Fixpoint disconnect_all (names : list (list byte)) : stateM rs_rc :=
  match names with
  | [] => mret RS_OK
  | name :: names =>
      rc ← state_on_client_disconnect (Some name) false;
      unless_ok rc id (disconnect_all names)
  end.

Definition state_on_term_start (index realtime monotonic : Z) : stateM rs_rc :=
  modify (fun st =>
    let h := k_hooks (st_conn st) in
    let realtime := if h_realtime h >? realtime then h_realtime h else realtime in
    with_time (with_conn st (mk_conn (k_db (st_conn st)) (with_realtime h realtime))) (st_timestamp st) monotonic);;
  names ← gets (fun st => map fst (map_to_list (st_names st)));
  rc ← disconnect_all names;
  unless_ok rc id (db_do (aux_add_log Q aux index (Some (text "INFO")) (Some (text "Term start")))).

(** The loop over the disconnected sessions. *)
Fixpoint expire (l : list Z) : stateM rs_rc :=
  match l with
  | [] => mret RS_OK
  | a :: l =>
      s ← session_at a;
      now ← gets st_timestamp;
      if now -₆₄ se_disconnect_time s >? 60000 then
        rc ← db_do (aux_del_session Q aux s);
        unless_ok rc id (
          modify (fun st => with_sessions st (st_disconnects st) (delete (default [] (se_name s)) (st_names st))
                              (delete (se_id s) (st_ids st)) (st_heap st));;
          free_session a;;
          expire l)
      else expire l
  end.

Definition state_on_timestamp (realtime monotonic : Z) : stateM rs_rc :=
  modify (fun st =>
    let c := st_conn st in
    with_time (with_conn st (mk_conn (k_db c) (with_realtime (k_hooks c) realtime)))
      (st_timestamp st +₆₄ (monotonic -₆₄ st_monotonic st)) monotonic);;
  l ← gets st_disconnects;
  expire l.

(** ** Requests *)

(** Runs a request on the session at [a], with the response buffer of the session or of a
    connection. *)
Definition exec_on (fuel : nat) (a index : Z) (readonly : bool) (data : list byte) (out : option sc_buf)
    : stateM (rs_rc * sc_buf) := fun st =>
  match st_heap st !! a with
  | None => None
  | Some s =>
      let req := sc_buf_wrap data (zlen data) SC_BUF_READ in
      let resp := match out with None => se_resp s | Some b => b end in
      match state_exec_request Q aux fuel index readonly (mk_ex (st_conn st) (st_last_err st) s req resp) with
      | None => None
      | Some (rc, x) =>
          let s := x_sess x in
          let s := match out with None => se_with_resp s (x_resp x) | Some _ => s end in
          let st := with_heap (with_last_err (with_conn st (x_conn x)) (x_last_err x)) (<[a := s]> (st_heap st)) in
          Some ((rc, x_resp x), st)
      end
  end.

Definition state_on_client_request (fuel : nat) (index cid seq : Z) (data : list byte) : stateM (rs_rc * Z) :=
  modify (fun st => with_last_err st None);;
  found ← gets (fun st => st_ids st !! cid);
  match found with
  | None => stops
  | Some a =>
      s ← session_at a;
      if seq =? se_seq s then
        set_session a (se_with_resp s (sc_buf_set_rpos (se_resp s) 0));;
        mret (RS_OK, a)
      else
        '(rc, _) ← exec_on fuel a index false data None;
        full ← gets (fun st => h_full (k_hooks (st_conn st)));
        let rc := if bool_decide (rc = RS_FULL) && full then RS_OK else rc in
        s ← session_at a;
        set_session a (se_with_seq (se_with_resp s (snd (sc_buf_shrink (se_resp s) (32 * 1024)))) seq);;
        mret (rc, a)
  end.

Definition set_flags (client readonly full : bool) : stateM () :=
  modify (fun st => let c := st_conn st in with_conn st (mk_conn (k_db c) (with_flags (k_hooks c) client readonly full))).

Definition error_response (out : sc_buf) : stateM sc_buf := fun st =>
  let x := mk_ex (st_conn st) (st_last_err st) (session_create None 0) (sc_buf_init 0) out in
  match state_encode_error Q x with
  | None => None
  | Some (_, x) => Some (x_resp x, with_last_err (with_conn st (x_conn x)) (x_last_err x))
  end.

Definition state_apply_readonly (fuel : nat) (cid : Z) (data : list byte) (out : sc_buf) : stateM (rs_rc * sc_buf) :=
  modify (fun st => with_last_err st None);;
  set_flags true true false;;
  found ← gets (fun st => st_ids st !! cid);
  match found with
  | None =>
      modify (fun st => with_last_err st (Some (text "Session does not exist.")));;
      out ← error_response out;
      mret (RS_OK, out)
  | Some a =>
      '(rc, out) ← exec_on fuel a 0 true data (Some out);
      mret (if decide (rc = RS_FULL) then RS_OK else rc, out)
  end.

(** ** Entries *)

Definition state_on_init (realtime monotonic : Z) (rand : list byte) : stateM rs_rc :=
  modify (fun st =>
    let c := st_conn st in
    let h := with_rand (with_realtime (k_hooks c) realtime) (sc_rand_init rand) (sc_rand_init rand) in
    with_time (with_conn st (mk_conn (k_db c) h)) (st_timestamp st) monotonic);;
  db_do (aux_add_log Q aux 0 (Some (text "INFO")) (Some (text "Cluster init."))).

(** Applies the entry at [index].  The session is the one a response goes to.  [fuel]
    bounds the loops over the data of the entry.  The assertions that [index] is the next one
    and, in [state_on_timestamp], that the time does not go back are not represented: the
    function goes on as a build without assertions does. *)
Definition state_apply (fuel : nat) (index : Z) (e : entry) : stateM (rs_rc * option Z) :=
  set_flags false false false;;
  modify (fun st => with_pos st (e_term e) index);;
  let buf := sc_buf_wrap (e_data e) (zlen (e_data e)) SC_BUF_READ in
  let type := e_flags e in
  let none (m : stateM rs_rc) : stateM (rs_rc * option Z) := rc ← m; mret (rc, None) in
  if type =? CMD_INIT then
    let c := fst (cmd_decode_init buf) in none (state_on_init (ci_realtime c) (ci_monotonic c) (ci_rand c))
  else if type =? CMD_META then
    match fst (cmd_decode_meta fuel buf) with
    | None => stops
    | Some m => none (state_on_meta index m)
    end
  else if type =? CMD_TERM then
    let c := fst (cmd_decode_term buf) in none (state_on_term_start index (ct_realtime c) (ct_monotonic c))
  else if type =? CMD_REQUEST then
    c ← gets (fun st => k_hooks (st_conn st));
    set_flags true (h_readonly c) (h_full c);;
    '(rc, a) ← state_on_client_request fuel index (e_cid e) (e_seq e) (e_data e);
    mret (rc, Some a)
  else if type =? CMD_CONNECT then
    let c := fst (cmd_decode_connect buf) in
    '(rc, a) ← state_on_client_connect (cc_name c) (cc_local c) (cc_remote c);
    mret (rc, Some a)
  else if type =? CMD_DISCONNECT then
    let c := fst (cmd_decode_disconnect buf) in none (state_on_client_disconnect (cd_name c) (cd_clean c))
  else if type =? CMD_TIMESTAMP then
    let c := fst (cmd_decode_timestamp buf) in none (state_on_timestamp (cs_realtime c) (cs_monotonic c))
  else if type =? CMD_INFO then none (state_on_info fuel buf)
  else if type =? CMD_LOG then
    let c := fst (cmd_decode_log buf) in none (db_do (aux_add_log Q aux index (cl_level c) (cl_log c)))
  else stops.

(** Entries one after the other, from the index after the last one applied. *)
Fixpoint apply_all (fuel : nat) (es : list entry) : stateM (list (rs_rc * option Z)) :=
  match es with
  | [] => mret []
  | e :: es =>
      index ← gets st_index;
      r ← state_apply fuel (index +₆₄ 1) e;
      rs ← apply_all fuel es;
      mret (r :: rs)
  end.

(** ** Closing and reading back *)

(** A row of the table [resql_clients]: what [aux_write_session] binds. *)
Record client_row := mk_row {
  cr_name : option (list byte);
  cr_id : Z;
  cr_seq : Z;
  cr_local : option (list byte);
  cr_remote : option (list byte);
  cr_connect_time : option (list byte);
  cr_resp : list byte
}.

Definition row_of (s : session) : client_row :=
  mk_row (se_name s) (se_id s) (se_seq s) (se_local s) (se_remote s) (se_connect_time s) (contents (se_resp s)).

(** The rows that [state_close] writes. *)
Definition closed_rows (st : state) : list client_row :=
  omap (fun x => row_of <$> (st_heap st !! snd x)) (map_to_list (st_names st)).

(** The loop of [state_read_vars] over the table.  Prepared statements are left out. *)
Definition read_session (st : option state) (r : client_row) : option state :=
  match st with
  | None => None
  | Some st =>
      match session_of_row (session_create (Some []) 0) (cr_name r) (cr_id r) (cr_seq r) (cr_local r) (cr_remote r)
              (cr_connect_time r) (cr_resp r) with
      | None => None
      | Some s =>
          let a := fresh (dom (st_heap st)) in
          Some (with_sessions st (st_disconnects st) (<[default [] (se_name s) := a]> (st_names st))
                  (<[se_id s := a]> (st_ids st)) (<[a := s]> (st_heap st)))
      end
  end.

(** [state_close], then [state_init], [state_open] and [state_read_vars]: the variables
    come back as they were (Buf.v), the sessions from their table. *)
Definition reopened (st : state) : option state :=
  foldl read_session (Some (with_sessions st [] ∅ ∅ ∅)) (closed_rows st).

(** ** Sessions stay consistent *)

(** Names, ids, objects and the list of disconnected sessions belong together, and no id
    is above [b]. *)
Record sessions_ok (b : Z) (st : state) : Prop := {
  so_names : forall k a, st_names st !! k = Some a ->
    exists s, st_heap st !! a = Some s /\ se_name s = Some k;
  so_heap : forall a s, st_heap st !! a = Some s ->
    exists k, se_name s = Some k /\ st_names st !! k = Some a /\ st_ids st !! se_id s = Some a /\ se_id s <= b;
  so_ids : forall i a, st_ids st !! i = Some a -> exists s, st_heap st !! a = Some s /\ se_id s = i;
  so_list : NoDup (st_disconnects st) /\ forall a, a ∈ st_disconnects st -> is_Some (st_heap st !! a)
}.

(** The part of a session that a repeated request needs. *)
Definition same_client (s s' : session) : Prop :=
  se_id s' = se_id s /\ se_name s' = se_name s /\ se_seq s' = se_seq s /\ se_resp s' = se_resp s.

(** The session of client [c] is untouched or gone. *)
Definition kept (c : Z) (st st' : state) : Prop :=
  forall a s, st_ids st !! c = Some a -> st_heap st !! a = Some s ->
  st_ids st' !! c = None \/
  (st_ids st' !! c = Some a /\ exists s', st_heap st' !! a = Some s' /\ same_client s s').

(** A step of the state machine that leaves client [c] alone: ids grow from [b] to [b']
    at most, and no old id comes back. *)
Definition evolves (b b' c : Z) (st st' : state) : Prop :=
  st_index st' = st_index st /\
  (sessions_ok b st ->
   sessions_ok b' st' /\ kept c st st' /\ forall i, i <= b -> st_ids st !! i = None -> st_ids st' !! i = None).

Definition steps (b b' c : Z) {A} (m : stateM A) : Prop :=
  forall st r st', m st = Some (r, st') -> evolves b b' c st st'.

Lemma evolves_trans b b' b'' c st st1 st2 :
  b <= b' -> evolves b b' c st st1 -> evolves b' b'' c st1 st2 -> evolves b b'' c st st2.
Proof.
  intros Hb [I1 H1] [I2 H2]. split; [congruence|]. intros Hok. destruct (H1 Hok) as (Hok1 & K1 & N1). destruct (H2 Hok1) as (Hok2 & K2 & N2).
  split_and!; [done| |intros i Hi Hn; apply N2; [lia|by apply N1]].
  intros a s Hi Ha. destruct (so_heap _ _ Hok a s Ha) as (k & _ & _ & Hid & Hle).
  destruct (so_ids _ _ Hok c a Hi) as (s0 & Hs0 & Ec). rewrite Ha in Hs0. injection Hs0 as <-.
  destruct (K1 a s Hi Ha) as [Hn|(Hi1 & s1 & Ha1 & E1)]; [left; apply N2; [lia|done]|].
  destruct (K2 a s1 Hi1 Ha1) as [Hn|(Hi2 & s2 & Ha2 & E2)]; [by left|right].
  split; [done|]. exists s2. split; [done|]. unfold same_client in *. intuition congruence.
Qed.

Lemma evolves_assume b b' c st st' :
  st_index st' = st_index st -> (sessions_ok b st -> evolves b b' c st st') -> evolves b b' c st st'.
Proof. intros Hi H. split; [done|]. intros Hok. by apply (H Hok). Qed.

Lemma steps_bind b b' b'' c {A B} (m : stateM A) (f : A -> stateM B) :
  b <= b' -> steps b b' c m -> (forall a, steps b' b'' c (f a)) -> steps b b'' c (m ≫= f).
Proof.
  intros Hb Hm Hf st r st' H. unfold mbind, stateM_bind in H. destruct (m st) as [[a st1]|] eqn:E; [|done].
  eapply evolves_trans; [exact Hb|by eapply Hm|by eapply Hf].
Qed.

Definition same_sessions (st st' : state) : Prop :=
  st_index st' = st_index st /\ st_disconnects st' = st_disconnects st /\ st_names st' = st_names st /\ st_ids st' = st_ids st /\
  st_heap st' = st_heap st.

Lemma same_evolves b c st st' : same_sessions st st' -> evolves b b c st st'.
Proof.
  intros (E0 & E1 & E2 & E3 & E4). split; [done|]. intros [H1 H2 H3 H4]. split_and!.
  - split; rewrite ?E1, ?E2, ?E3, ?E4; done.
  - intros a s Hi Ha. right. rewrite E3, E4. split; [done|]. exists s. by split; [|split_and!].
  - intros i _. by rewrite E3.
Qed.

Lemma steps_same b c {A} (m : stateM A) :
  (forall st r st', m st = Some (r, st') -> same_sessions st st') -> steps b b c m.
Proof. intros H st r st' E. apply same_evolves. by eapply H. Qed.

Lemma steps_ret b c {A} (a : A) : steps b b c (mret a).
Proof. apply steps_same. intros st r st' [= <- <-]. by split_and!. Qed.

Lemma steps_gets b c {A} (f : state -> A) : steps b b c (gets f).
Proof. apply steps_same. intros st r st' [= <- <-]. by split_and!. Qed.

Lemma steps_db b c {A} (m : sqlM Q A) : steps b b c (db_do m).
Proof. apply steps_same. intros st r st' E. unfold db_do in E. destruct (m (st_conn st)). injection E as <- <-. by split_and!. Qed.

Lemma steps_modify b c f : (forall st, same_sessions st (f st)) -> steps b b c (modify f).
Proof. intros H. apply steps_same. intros st r st' [= <- <-]. apply H. Qed.

Lemma steps_stops b b' c {A} : steps b b' c (@stops A).
Proof. by intros st r st'. Qed.

Lemma steps_unless b b' c {A} rc (early : rs_rc -> A) k :
  b <= b' -> (forall st, evolves b b' c st st) -> steps b b' c k -> steps b b' c (unless_ok rc early k).
Proof.
  intros Hb He Hk. unfold unless_ok. destruct (decide _); [done|]. intros st r st' [= <- <-]. apply He.
Qed.

Lemma evolves_refl b c st : evolves b b c st st.
Proof. apply same_evolves. by split_and!. Qed.

Lemma sessions_ok_le b b' st : b <= b' -> sessions_ok b st -> sessions_ok b' st.
Proof.
  intros Hb [H1 H2 H3 H4]. split; try done. intros a s Ha. destruct (H2 a s Ha) as (k & E1 & E2 & E3 & E4).
  exists k. split_and!; [done..|lia].
Qed.

(** An object changes, but not its name and id. *)
Lemma evolves_set b c st st' a s s' :
  st_heap st !! a = Some s -> se_id s' = se_id s -> se_name s' = se_name s ->
  (se_id s <> c \/ (se_seq s' = se_seq s /\ se_resp s' = se_resp s)) ->
  st_index st' = st_index st -> st_disconnects st' = st_disconnects st -> st_names st' = st_names st -> st_ids st' = st_ids st ->
  st_heap st' = <[a := s']> (st_heap st) -> evolves b b c st st'.
Proof.
  intros Ha Ei En Hc E0 E1 E2 E3 E4. split; [done|]. intros [H1 H2 H3 [H4 H5]]. split_and!.
  - split; rewrite ?E1, ?E2, ?E3, ?E4.
    + intros k x Hk. destruct (H1 k x Hk) as (y & Hy & Ey). destruct (decide (a = x)) as [<-|Hne].
      * rewrite lookup_insert_eq. exists s'. split; [done|]. congruence.
      * rewrite lookup_insert_ne by done. by exists y.
    + intros x y. destruct (decide (a = x)) as [<-|Hne].
      * rewrite lookup_insert_eq. intros [= <-]. rewrite Ei, En. by apply H2.
      * rewrite lookup_insert_ne by done. apply H2.
    + intros i x Hx. destruct (H3 i x Hx) as (y & Hy & Ey). destruct (decide (a = x)) as [<-|Hne].
      * rewrite lookup_insert_eq. exists s'. split; [done|]. congruence.
      * rewrite lookup_insert_ne by done. by exists y.
    + split; [done|]. intros x Hx. apply lookup_insert_is_Some. destruct (decide (a = x)); [by left|right]. by auto.
  - intros x y Hx Hy. right. rewrite E3, E4. split; [done|]. destruct (decide (a = x)) as [<-|Hne].
    + rewrite lookup_insert_eq. exists s'. split; [done|]. rewrite Ha in Hy. injection Hy as <-.
      destruct (H3 c a Hx) as (z & Hz & Ez). rewrite Ha in Hz. injection Hz as <-.
      unfold same_client. destruct Hc as [Hc|[? ?]]; [done|by split_and!].
    + rewrite lookup_insert_ne by done. exists y. by split; [|split_and!].
  - intros i _. by rewrite E3.
Qed.

(** The list of disconnected sessions changes. *)
Lemma evolves_list b c st st' l :
  NoDup l -> (forall a, a ∈ l -> a ∈ st_disconnects st \/ is_Some (st_heap st !! a)) ->
  st_index st' = st_index st -> st_disconnects st' = l -> st_names st' = st_names st -> st_ids st' = st_ids st -> st_heap st' = st_heap st ->
  evolves b b c st st'.
Proof.
  intros Hl Hin E0 E1 E2 E3 E4. split; [done|]. intros [H1 H2 H3 [H4 H5]]. split_and!.
  - split; rewrite ?E1, ?E2, ?E3, ?E4; try done. split; [done|]. intros a Ha. destruct (Hin a Ha); auto.
  - intros a s Hi Ha. right. rewrite E3, E4. split; [done|]. exists s. by split; [|split_and!].
  - intros i _. by rewrite E3.
Qed.

(** A session is removed. *)
Lemma evolves_remove b c st st' a s key :
  st_heap st !! a = Some s -> se_name s = Some key ->
  st_index st' = st_index st -> st_disconnects st' = filter (fun x => x <> a) (st_disconnects st) ->
  st_names st' = delete key (st_names st) -> st_ids st' = delete (se_id s) (st_ids st) ->
  st_heap st' = delete a (st_heap st) -> evolves b b c st st'.
Proof.
  intros Ha En E0 E1 E2 E3 E4. split; [done|]. intros [H1 H2 H3 [H4 H5]].
  destruct (H2 a s Ha) as (k0 & Ek & Hk & Hid & _). rewrite En in Ek. injection Ek as <-.
  split_and!.
  - split; rewrite ?E1, ?E2, ?E3, ?E4.
    + intros k x [Hne Hx]%lookup_delete_Some. destruct (H1 k x Hx) as (y & Hy & Ey). exists y. split; [|done].
      rewrite lookup_delete_ne; [done|]. intros <-. rewrite Ha in Hy. injection Hy as <-. congruence.
    + intros x y [Hne Hy]%lookup_delete_Some. destruct (H2 x y Hy) as (k & Ey & Hx & Hi & Hle). exists k.
      split_and!; [done| | |done].
      * rewrite lookup_delete_ne; [done|]. intros <-. rewrite Hk in Hx. by injection Hx.
      * rewrite lookup_delete_ne; [done|]. intros E. rewrite <- E, Hid in Hi. by injection Hi.
    + intros i x [Hne Hx]%lookup_delete_Some. destruct (H3 i x Hx) as (y & Hy & Ey). exists y. split; [|done].
      rewrite lookup_delete_ne; [done|]. intros <-. rewrite Ha in Hy. injection Hy as <-. congruence.
    + split; [by apply list.NoDup_filter|]. intros x [Hne Hx]%list_elem_of_filter.
      rewrite lookup_delete_ne by done. by apply H5.
  - intros x y Hx Hy. rewrite E3, E4. destruct (decide (se_id s = c)) as [<-|Hne].
    + left. apply lookup_delete_eq.
    + right. rewrite lookup_delete_ne by done. split; [done|]. exists y.
      rewrite lookup_delete_ne; [by split; [|split_and!]|]. intros <-.
      destruct (H3 c a Hx) as (z & Hz & Ez). rewrite Ha in Hz. injection Hz as <-. done.
  - intros i _ Hi. rewrite E3. destruct (decide (se_id s = i)) as [<-|]; [apply lookup_delete_eq|by rewrite lookup_delete_ne].
Qed.

(** A session with a new id is added. *)
Lemma evolves_add b c st st' a s key :
  st_heap st !! a = None -> st_names st !! key = None -> se_name s = Some key -> b < se_id s ->
  st_index st' = st_index st -> st_disconnects st' = st_disconnects st ->
  st_names st' = <[key := a]> (st_names st) -> st_ids st' = <[se_id s := a]> (st_ids st) ->
  st_heap st' = <[a := s]> (st_heap st) -> evolves b (se_id s) c st st'.
Proof.
  intros Ha Hk En Hb E0 E1 E2 E3 E4. split; [done|]. intros [H1 H2 H3 [H4 H5]].
  assert (Hid : st_ids st !! se_id s = None).
  { destruct (st_ids st !! se_id s) as [x|] eqn:E; [|done]. destruct (H3 _ _ E) as (y & Hy & Ey).
    destruct (H2 x y Hy) as (_ & _ & _ & _ & Hle). lia. }
  split_and!.
  - split; rewrite ?E1, ?E2, ?E3, ?E4.
    + intros k x. destruct (decide (key = k)) as [<-|Hne].
      * rewrite lookup_insert_eq. intros [= <-]. exists s. by rewrite lookup_insert_eq.
      * rewrite lookup_insert_ne by done. intros Hx. destruct (H1 k x Hx) as (y & Hy & Ey). exists y.
        rewrite lookup_insert_ne; [done|]. intros <-. by rewrite Ha in Hy.
    + intros x y. destruct (decide (a = x)) as [<-|Hne].
      * rewrite lookup_insert_eq. intros [= <-]. exists key. rewrite !lookup_insert_eq. by split_and!.
      * rewrite lookup_insert_ne by done. intros Hy. destruct (H2 x y Hy) as (k & Ey & Hx & Hi & Hle). exists k.
        rewrite !lookup_insert_ne; [split_and!; [done..|lia]| |]; congruence.
    + intros i x. destruct (decide (se_id s = i)) as [<-|Hne].
      * rewrite lookup_insert_eq. intros [= <-]. exists s. by rewrite lookup_insert_eq.
      * rewrite lookup_insert_ne by done. intros Hx. destruct (H3 i x Hx) as (y & Hy & Ey). exists y.
        rewrite lookup_insert_ne; [done|]. intros <-. by rewrite Ha in Hy.
    + split; [done|]. intros x Hx. apply lookup_insert_is_Some. destruct (decide (a = x)); [by left|right]. by auto.
  - intros x y Hx Hy. right. rewrite E3, E4. assert (se_id s <> c) by congruence. assert (a <> x) by congruence.
    rewrite !lookup_insert_ne by done. split; [done|]. exists y. by split; [|split_and!].
  - intros i Hi Hn. rewrite E3, lookup_insert_ne by lia. done.
Qed.

Ltac unfold_steps H :=
  cbv beta iota zeta delta [mbind stateM_bind gets session_at set_session modify db_do mret stateM_ret unless_ok
    free_session new_session stops] in H.

Lemma filter_keeps (l : list Z) a x : x ∈ filter (fun y => y <> a) l -> x ∈ l.
Proof. by intros [_ H]%list_elem_of_filter. Qed.

Lemma filter_snoc_nodup (l : list Z) a : NoDup l -> NoDup (filter (fun y => y <> a) l ++ [a]).
Proof.
  intros H. apply list.NoDup_app. split_and!; [by apply list.NoDup_filter| |apply NoDup_singleton].
  intros x [Hx _]%list_elem_of_filter Hx'. by apply list_elem_of_singleton in Hx'.
Qed.

Lemma disconnect_steps b c name clean : steps b b c (state_on_client_disconnect name clean).
Proof.
  intros st r st' H. destruct name as [key|]; [|done]. unfold state_on_client_disconnect in H. unfold_steps H.
  destruct (st_names st !! key) as [a|] eqn:Ek; [|injection H as <- <-; apply evolves_refl].
  destruct (st_heap st !! a) as [s|] eqn:Ea; [|done]. set (s1 := session_disconnected s (st_timestamp st)) in *.
  set (st1 := with_heap st (<[a := s1]> (st_heap st))) in *.
  assert (E1 : evolves b b c st st1) by (eapply (evolves_set b c st st1 a s s1); try done; by right).
  assert (Ha1 : st_heap st1 !! a = Some s1) by apply lookup_insert_eq. destruct clean.
  - destruct (aux_del_session Q aux s1 _) as [rc cn]. destruct (decide _) as [->|]; cycle 1.
    { injection H as <- <-. eapply evolves_trans; [reflexivity|exact E1|]. by apply same_evolves. }
    cbn [st_heap with_sessions with_conn] in H. rewrite Ha1 in H. destruct (session_destroy Q s1 _) as [u cn'].
    injection H as <- <-. apply evolves_assume; [done|intros Hok]. destruct (so_names _ _ Hok key a Ek) as (s0 & Hs0 & En0).
    rewrite Ea in Hs0. injection Hs0 as <-.
    eapply evolves_trans; [reflexivity|exact E1|]. by eapply (evolves_remove b c st1 _ a s1 key).
  - destruct (aux_write_session Q aux s1 _) as [rc cn]. destruct (decide _) as [->|]; injection H as <- <-.
    2: { eapply evolves_trans; [reflexivity|exact E1|]. by apply same_evolves. }
    eapply evolves_trans; [reflexivity|exact E1|]. apply evolves_assume; [done|intros Hok].
    assert (Hnd : NoDup (st_disconnects st1)) by apply Hok.
    eapply (evolves_list b c st1); [by apply filter_snoc_nodup| |done..].
    intros x [Hx%filter_keeps|Hx]%elem_of_app; [by left|right].
    apply list_elem_of_singleton in Hx as ->. by eexists.
Qed.

Lemma str_create_some x y : no_nul x -> str_create (Some x) = Some y -> y = x.
Proof.
  intros Hn H. destruct (decide (zlen x <= SC_STR_MAX)) as [Hle|Hgt].
  - rewrite str_create_fits in H by done. by injection H.
  - unfold str_create, sc_str_create in H. rewrite if_true in H by zbool_solve. done.
Qed.

Lemma connect_steps b c name local remote st r st' :
  (forall key, name = Some key -> no_nul key) -> b < st_index st -> state_on_client_connect name local remote st = Some (r, st') -> evolves b (st_index st) c st st'.
Proof.
  intros Hnul Hb H. destruct name as [key|]; [|done]. unfold state_on_client_connect in H. unfold_steps H.
  assert (Hup : forall st1 a s, st_heap st1 !! a = Some s ->
    forall s' cn l, se_id s' = se_id s -> se_name s' = se_name s -> se_seq s' = se_seq s -> se_resp s' = se_resp s ->
    l = filter (fun x => x <> a) (st_disconnects st1) ->
    evolves (st_index st) (st_index st) c st1 (with_conn (with_heap (with_disconnects st1 l) (<[a := s']> (st_heap st1))) cn)).
  { intros st1 a s Ha s' cn l E1 E2 E3 E4 ->. set (l := filter _ _).
    eapply (evolves_trans _ _ _ _ _ (with_disconnects st1 l)); [reflexivity| |].
    - apply evolves_assume; [done|intros Hok]. assert (Hnd : NoDup (st_disconnects st1)) by apply Hok.
      eapply (evolves_list _ c st1); [apply (list.NoDup_filter (fun x => x <> a)); exact Hnd| |done..]. intros x Hx. left. by eapply filter_keeps.
    - eapply (evolves_set _ c _ _ a s s'); try done. by right. }
  assert (Hconn : forall s ts, let s' := session_connected local_time s local remote ts in
    se_id s' = se_id s /\ se_name s' = se_name s /\ se_seq s' = se_seq s /\ se_resp s' = se_resp s).
  { intros s ts. unfold session_connected. by destruct (local_time _). }
  destruct (st_names st !! key) as [a|] eqn:Ek.
  - destruct (st_heap st !! a) as [s|] eqn:Ea; [|done].
    destruct (aux_write_session _ _ _ _) as [rc cn]. injection H as <- <-.
    destruct (Hconn s (h_realtime (k_hooks (st_conn st)))) as (C1 & C2 & C3 & C4).
    split; [done|]. intros Hok. apply (sessions_ok_le b (st_index st)) in Hok as Hok'; [|lia].
    destruct (proj2 (Hup st a s Ea _ cn _ C1 C2 C3 C4 eq_refl) Hok') as (A & B & D). split_and!; [done|done|].
    intros i Hi. apply D. lia.
  - set (a := fresh (dom (st_heap st))) in *. cbn [st_heap with_heap with_sessions] in H.
    rewrite lookup_insert_eq in H. set (s := session_create (Some key) (st_index st)) in *.
    destruct (se_name s) as [key'|] eqn:En; [|done]. cbn [st_heap with_heap with_sessions] in H.
    rewrite lookup_insert_eq in H. cbn [st_heap with_heap with_sessions with_disconnects st_conn] in H.
    destruct (aux_write_session _ _ _ _) as [rc cn]. injection H as <- <-.
    destruct (Hconn s (h_realtime (k_hooks (st_conn st)))) as (C1 & C2 & C3 & C4).
    set (st1 := with_sessions st (st_disconnects st) (<[key' := a]> (st_names st)) (<[se_id s := a]> (st_ids st)) (<[a := s]> (st_heap st))).
    eapply (evolves_trans b (se_id s) _ c st st1).
    + cbn. lia.
    + eapply (evolves_add b c st st1 a s key'); try done.
      * apply not_elem_of_dom, is_fresh.
      * assert (key' = key) as ->; [|done]. apply str_create_some; [by apply Hnul|done].
    + apply (Hup st1 a s); try done. apply lookup_insert_eq.
Qed.

Ltac steps_auto known :=
  repeat first
    [ progress known
    | apply steps_ret | apply steps_gets | apply steps_db | apply steps_stops
    | apply steps_modify; intros ?; by split_and!
    | eapply steps_bind; [reflexivity| |intros ?]
    | apply steps_unless; [reflexivity|intros ?; apply evolves_refl|]
    | match goal with |- steps _ _ _ (if ?x then _ else _) => destruct x end
    | match goal with |- steps _ _ _ (match ?x with _ => _ end) => destruct x end ].

Lemma write_infos_steps b c ns : steps b b c (write_infos ns).
Proof. induction ns as [|[key n] ns IH]; cbn [write_infos]; steps_auto ltac:(exact IH). Qed.

Lemma state_write_infos_steps b c : steps b b c state_write_infos.
Proof. unfold state_write_infos. steps_auto ltac:(apply write_infos_steps). Qed.

Lemma state_on_meta_steps b c index m : steps b b c (state_on_meta index m).
Proof.
  unfold state_on_meta, state_write_vars.
  assert (steps b b c (modify drop_info)).
  { apply steps_modify. intros st. unfold drop_info. by destruct (find _ _). }
  steps_auto ltac:(apply state_write_infos_steps || done).
Qed.

Lemma info_loop_steps b c fuel : forall buf, steps b b c (info_loop fuel buf).
Proof.
  induction fuel as [|fuel IH]; intros buf; [apply steps_stops|]. cbn [info_loop].
  destruct (sc_buf_size buf =? 0); [apply steps_ret|].
  destruct (sc_buf_get_str buf) as [name b1]. destruct (sc_buf_get_bool b1) as [connected b2].
  destruct (sc_buf_get_32 b2) as [len b3]. destruct (sc_buf_get_blob len b3) as [ptr b4].
  destruct name as [key|]; [|apply steps_stops]. eapply steps_bind; [reflexivity| |intros ?; apply IH].
  apply steps_modify. intros st. by destruct (st_nodes st !! key).
Qed.

Lemma disconnect_all_steps b c names : steps b b c (disconnect_all names).
Proof. induction names as [|n ns IH]; cbn [disconnect_all]; steps_auto ltac:(exact IH || apply disconnect_steps). Qed.

Lemma expire_steps b c l : steps b b c (expire l).
Proof.
  induction l as [|a l IH]; cbn [expire]; [apply steps_ret|]. intros st r st' H.
  unfold_steps H. destruct (st_heap st !! a) as [s|] eqn:Ea; [|done]. destruct (_ >? 60000); [|by eapply IH].
  destruct (aux_del_session Q aux s (st_conn st)) as [rc cn].
  destruct (decide _) as [->|]; [|injection H as <- <-; by apply same_evolves].
  cbn [st_heap with_sessions with_conn] in H. rewrite Ea in H.
  destruct (session_destroy Q s _) as [u cn']. cbn [st_heap with_sessions with_conn with_disconnects with_heap st_disconnects] in H.
  match type of H with expire l ?st1 = _ => eapply (evolves_trans b b b c st st1); [reflexivity| |by eapply IH] end.
  apply evolves_assume; [done|intros Hok]. destruct (so_heap _ _ Hok a s Ea) as (k & En & _). rewrite En. cbn [default].
  by eapply (evolves_remove b c st _ a s k).
Qed.

Lemma exec_on_steps b c fuel a index readonly data out st r st' :
  (out = None -> forall s, st_heap st !! a = Some s -> se_id s <> c) ->
  exec_on fuel a index readonly data out st = Some (r, st') -> evolves b b c st st'.
Proof.
  intros Hc H. unfold exec_on in H. destruct (st_heap st !! a) as [s|] eqn:Ea; [|done].
  destruct (state_exec_request _ _ _ _ _ _) as [[rc x]|] eqn:Er; [|done]. injection H as <- <-.
  apply only_request in Er as [stmts Es]. cbn [x_sess] in Es.
  eapply (evolves_set b c st _ a s); [done| | | |done..]; rewrite Es; destruct out; try done.
  - by right.
  - left. by apply Hc.
Qed.

Lemma exec_on_index fuel a index readonly data out st r st' :
  exec_on fuel a index readonly data out st = Some (r, st') -> st_index st' = st_index st.
Proof.
  unfold exec_on. destruct (st_heap st !! a); [|done]. destruct (state_exec_request _ _ _ _ _ _) as [[rc x]|]; [|done].
  by intros [= <- <-].
Qed.

Lemma request_index fuel index cid seq data st r st' :
  state_on_client_request fuel index cid seq data st = Some (r, st') -> st_index st' = st_index st.
Proof.
  intros H. unfold state_on_client_request in H. unfold_steps H. set (st1 := with_last_err st None) in *.
  destruct (st_ids st1 !! cid) as [a|]; [|done]. destruct (st_heap st1 !! a) as [s|]; [|done].
  destruct (seq =? se_seq s); [by injection H as <- <-|].
  destruct (exec_on _ _ _ _ _ _ st1) as [[[rc o] st2]|] eqn:Ex; [|done]. apply exec_on_index in Ex.
  destruct (st_heap st2 !! a); [|done]. by injection H as <- <-.
Qed.

Lemma request_steps b c fuel index cid seq data : cid <> c -> steps b b c (state_on_client_request fuel index cid seq data).
Proof.
  intros Hne st r st' H. pose proof (request_index _ _ _ _ _ _ _ _ H) as Hpos. unfold state_on_client_request in H.
  unfold_steps H. set (st1 := with_last_err st None) in *. destruct (st_ids st1 !! cid) as [a|] eqn:Ei; [|done].
  destruct (st_heap st1 !! a) as [s|] eqn:Ea; [|done].
  apply evolves_assume; [done|intros Hok]. assert (Hok1 : sessions_ok b st1) by (by apply (same_evolves b c st st1)).
  destruct (so_ids _ _ Hok1 cid a Ei) as (s0 & Hs0 & Eid). rewrite Ea in Hs0. injection Hs0 as <-.
  assert (E1 : evolves b b c st st1) by (by apply same_evolves).
  destruct (seq =? se_seq s).
  - injection H as <- <-. eapply evolves_trans; [reflexivity|exact E1|].
    eapply (evolves_set b c st1 _ a s (se_with_resp s _)); try done. left. by rewrite Eid.
  - destruct (exec_on _ _ _ _ _ _ st1) as [[[rc o] st2]|] eqn:Ex; [|done].
    assert (E2 : evolves b b c st1 st2).
    { eapply exec_on_steps; [|exact Ex]. intros _ s0 Hs0. rewrite Ea in Hs0. injection Hs0 as <-. by rewrite Eid. }
    assert (Ha2 : exists s2, st_heap st2 !! a = Some s2 /\ se_id s2 = cid).
    { unfold exec_on in Ex. rewrite Ea in Ex. destruct (state_exec_request _ _ _ _ _ _) as [[rc' x]|] eqn:Er; [|done].
      injection Ex as _ _ <-. apply only_request in Er as [stmts Es]. cbn [x_sess] in Es. eexists.
      split; [apply lookup_insert_eq|]. by rewrite Es. }
    destruct Ha2 as (s2 & Ha2 & Eid2). rewrite Ha2 in H. injection H as <- <-.
    eapply evolves_trans; [reflexivity|exact E1|]. eapply evolves_trans; [reflexivity|exact E2|].
    eapply (evolves_set b c st2 _ a s2 (se_with_seq (se_with_resp s2 _) _)); try done. left. by rewrite Eid2.
Qed.

Lemma flags_steps b c client readonly full : steps b b c (set_flags client readonly full).
Proof. apply steps_modify. by intros st. Qed.

Lemma cstring_no_nul m : no_nul (cstring m).
Proof. induction m as [|x m IH]; [constructor|]. cbn [cstring]. destruct (decide _); [constructor|by constructor]. Qed.

Lemma get_str_no_nul b s b' : sc_buf_get_str b = (Some s, b') -> no_nul s.
Proof.
  unfold sc_buf_get_str. destruct (sc_buf_get_32 b) as [len b1]. case_if; [done|]. case_if; [done|].
  intros [= <- <-]. apply cstring_no_nul.
Qed.

Lemma connect_name_no_nul b key : cc_name (fst (cmd_decode_connect b)) = Some key -> no_nul key.
Proof.
  unfold cmd_decode_connect, mbind, bufM_bind. destruct (sc_buf_get_str b) as [n b1] eqn:E1.
  destruct (sc_buf_get_str b1) as [l b2]. destruct (sc_buf_get_str b2) as [r b3]. cbn. intros ->. by eapply get_str_no_nul.
Qed.

(** One entry, as the successor of the last one, leaves the sessions consistent and those of
    other clients alone. *)
Lemma apply_evolves c fuel e st r st' :
  (e_flags e = CMD_REQUEST -> e_cid e <> c) ->
  state_apply fuel (st_index st + 1) e st = Some (r, st') ->
  st_index st' = st_index st + 1 /\
  (sessions_ok (st_index st) st ->
   sessions_ok (st_index st + 1) st' /\ kept c st st' /\
   forall i, i <= st_index st -> st_ids st !! i = None -> st_ids st' !! i = None).
Proof.
  intros Hreq H. set (b := st_index st) in *. unfold state_apply in H.
  unfold mbind at 1, stateM_bind at 1, set_flags at 1, modify at 1 in H.
  unfold mbind at 1, stateM_bind at 1, modify at 1 in H. cbv beta iota in H.
  match type of H with _ ?x = _ => set (st1 := x) in * end.
  assert (E : evolves b (b + 1) c st1 st').
  { assert (Hw : forall A (m : stateM A), steps b b c m -> forall a s', m st1 = Some (a, s') -> evolves b (b + 1) c st1 s').
    { intros A m Hm a s' E. destruct (Hm _ _ _ E) as [I1 H1]. split; [done|]. intros Hok.
      destruct (H1 Hok) as (X & Y & Z). split_and!; [|done|done]. eapply sessions_ok_le; [|exact X]. lia. }
    destruct (_ =? CMD_INIT).
    { eapply Hw; [|exact H]. unfold state_on_init. steps_auto idtac. }
    destruct (_ =? CMD_META).
    { destruct (fst (cmd_decode_meta fuel _)); [|done]. eapply Hw; [|exact H].
      steps_auto ltac:(apply state_on_meta_steps). }
    destruct (_ =? CMD_TERM).
    { eapply Hw; [|exact H]. unfold state_on_term_start. steps_auto ltac:(apply disconnect_all_steps). }
    destruct (_ =? CMD_REQUEST) eqn:Er.
    { zb. eapply Hw; [|exact H]. steps_auto ltac:(apply flags_steps || (apply request_steps; by apply Hreq)). }
    destruct (_ =? CMD_CONNECT).
    { unfold mbind at 1, stateM_bind at 1 in H. destruct (state_on_client_connect _ _ _ st1) as [[[rc a] st2]|] eqn:Ec; [|done].
      injection H as <- <-. eapply (connect_steps b c) in Ec; [exact Ec| |cbn; lia]. intros key. apply connect_name_no_nul. }
    destruct (_ =? CMD_DISCONNECT).
    { eapply Hw; [|exact H]. steps_auto ltac:(apply disconnect_steps). }
    destruct (_ =? CMD_TIMESTAMP).
    { eapply Hw; [|exact H]. unfold state_on_timestamp. steps_auto ltac:(apply expire_steps). }
    destruct (_ =? CMD_INFO).
    { eapply Hw; [|exact H]. unfold state_on_info.
      steps_auto ltac:(apply info_loop_steps || apply state_write_infos_steps). }
    destruct (_ =? CMD_LOG); [|done]. eapply Hw; [|exact H]. steps_auto idtac. }
  destruct E as [Ei Hok']. split; [done|]. intros Hok. apply Hok'. destruct Hok as [H1 H2 H3 H4]. by split.
Qed.

Definition spares (c : Z) (e : entry) : Prop := e_flags e = CMD_REQUEST -> e_cid e <> c.

Lemma apply_all_evolves c fuel es : forall st rs st',
  Forall (spares c) es -> 0 <= st_index st -> st_index st + zlen es < 2 ^ 64 ->
  apply_all fuel es st = Some (rs, st') ->
  st_index st' = st_index st + zlen es /\
  (sessions_ok (st_index st) st ->
   sessions_ok (st_index st') st' /\ kept c st st' /\
   forall i, i <= st_index st -> st_ids st !! i = None -> st_ids st' !! i = None).
Proof.
  induction es as [|e es IH]; intros st rs st' Hs H0 Hb H.
  - injection H as <- <-. unfold zlen. cbn [length]. rewrite Z.add_0_r. split; [done|]. intros Hok.
    destruct (proj2 (evolves_refl (st_index st) c st) Hok) as (A & B & C). by split_and!.
  - cbn [apply_all] in H. apply Forall_cons in Hs as [Hse Hses]. rewrite zlen_cons in Hb |- *.
    pose proof (zlen_nonneg es). unfold_steps H. rewrite u64_small in H by lia.
    destruct (state_apply fuel _ e st) as [[r st1]|] eqn:E1; [|done].
    destruct (apply_all fuel es st1) as [[rs1 st2]|] eqn:E2; [|done]. injection H as <- <-.
    destruct (apply_evolves c fuel e st r st1 Hse E1) as [I1 K1].
    destruct (IH st1 rs1 st2 Hses) as [I2 K2]; [lia..|done|]. split; [lia|]. intros Hok.
    assert (Ev : evolves (st_index st) (st_index st2) c (with_pos st (st_term st) (st_index st2)) st2).
    { eapply (evolves_trans _ (st_index st1) _ _ _ (with_pos st1 (st_term st1) (st_index st2))); [lia| |].
      - split; [done|]. rewrite I1. intros _. destruct (K1 Hok) as ([A1 A2 A3 A4] & B & C). by split_and!.
      - split; [done|]. intros [A1 A2 A3 A4]. apply K2. by split. }
    destruct (proj2 Ev) as (A & B & C); [by destruct Hok|]. by split_and!.
Qed.

(** C25: the sessions of the state machine stay consistent.  After any sequence of entries,
    whatever SQLite answers and whatever the entries contain, the map of names, the map of
    ids and the session objects describe the same sessions, ids are unique and come from
    the log, and the list of disconnected sessions has no dangling or double members. *)
Theorem state_sessions_consistent fuel es st rs st' :
  sessions_ok (st_index st) st -> 0 <= st_index st -> st_index st + zlen es < 2 ^ 64 ->
  apply_all fuel es st = Some (rs, st') ->
  st_index st' = st_index st + zlen es /\ sessions_ok (st_index st') st'.
Proof.
  intros Hok H0 Hb H.
  assert (Hc : exists c, Forall (spares c) es).
  { exists (fresh (list_to_set (map e_cid es) : gset Z)). apply list.Forall_forall. intros e He _ E.
    apply (is_fresh (list_to_set (map e_cid es) : gset Z)). rewrite <- E. apply elem_of_list_to_set.
    apply list_elem_of_fmap. by exists e. }
  destruct Hc as [c Hc]. destruct (apply_all_evolves c fuel es st rs st' Hc H0 Hb H) as [Hi K].
  split; [done|]. by apply K.
Qed.

(** ** Requests are executed once *)

(** What the server sends to the client of the session at [a]. *)
Definition response (st : state) (a : Z) : option (list byte) := (fun s => contents (se_resp s)) <$> (st_heap st !! a).

Lemma compact_rpos b : b_rpos (sc_buf_compact b) = 0.
Proof. unfold sc_buf_compact. repeat case_if; try done; cbn; zb; try done. Qed.

Lemma shrink_rpos b n : b_rpos (snd (sc_buf_shrink b n)) = 0.
Proof. unfold sc_buf_shrink. repeat case_if; apply compact_rpos. Qed.

(** After a request the session has its sequence number and a response to send. *)
Lemma request_result fuel index cid seq data st rc a st' :
  sessions_ok (st_index st) st -> state_on_client_request fuel index cid seq data st = Some ((rc, a), st') ->
  st_ids st' !! cid = Some a /\ exists s, st_heap st' !! a = Some s /\ se_seq s = seq /\ b_rpos (se_resp s) = 0.
Proof.
  intros Hok H. unfold state_on_client_request in H. unfold_steps H. set (st1 := with_last_err st None) in *.
  destruct (st_ids st1 !! cid) as [x|] eqn:Ei; [|done]. destruct (st_heap st1 !! x) as [s|] eqn:Ea; [|done].
  destruct (seq =? se_seq s) eqn:Es.
  - injection H as <- <- <-. zb. split; [done|]. eexists. split; [apply lookup_insert_eq|]. done.
  - destruct (exec_on _ _ _ _ _ _ st1) as [[[rc1 o] st2]|] eqn:Ex; [|done].
    assert (Hi : st_ids st2 = st_ids st1).
    { unfold exec_on in Ex. destruct (st_heap st1 !! x); [|done]. destruct (state_exec_request _ _ _ _ _ _) as [[? ?]|]; [|done].
      by injection Ex as _ _ <-. }
    destruct (st_heap st2 !! x) as [s2|] eqn:Ea2; [|done]. injection H as <- <- <-. cbn [with_heap with_sessions st_ids st_heap].
    split; [by rewrite Hi|]. eexists. split; [apply lookup_insert_eq|]. split; [done|]. apply shrink_rpos.
Qed.

Lemma set_rpos_contents b : b_rpos b = 0 -> contents (sc_buf_set_rpos b 0) = contents b.
Proof. intros H. unfold contents, sc_buf_set_rpos. case_if; cbn; by rewrite H. Qed.

(** The entry of a request, unfolded. *)
Lemma apply_request fuel index e st :
  e_flags e = CMD_REQUEST ->
  exists st0, st_index st0 = index /\ same_sessions (with_pos st (e_term e) index) st0 /\
    k_db (st_conn st0) = k_db (st_conn st) /\
    state_apply fuel index e st =
    match state_on_client_request fuel index (e_cid e) (e_seq e) (e_data e) st0 with
    | None => None
    | Some ((rc, a), st') => Some ((rc, Some a), st')
    end.
Proof.
  intros Hf. unfold state_apply. unfold mbind at 1, stateM_bind at 1, set_flags at 1, modify at 1.
  unfold mbind at 1, stateM_bind at 1, modify at 1. cbv beta iota zeta. rewrite Hf.
  change (CMD_REQUEST =? CMD_INIT) with false. change (CMD_REQUEST =? CMD_META) with false.
  change (CMD_REQUEST =? CMD_TERM) with false. change (CMD_REQUEST =? CMD_REQUEST) with true. cbv iota.
  unfold mbind, stateM_bind, gets, set_flags, modify, mret, stateM_ret. cbv beta iota.
  match goal with |- context [state_on_client_request _ _ _ _ _ ?s] => exists s end.
  split_and!; try done. by destruct (state_on_client_request _ _ _ _ _ _) as [[[? ?] ?]|].
Qed.

(** C14: a request is executed once.  A client that does not get the answer sends its request
    again; the entry is then in the log twice.  However many other entries lie between,
    and whatever they do, as long as the client has sent no other request and its session
    still exists, applying the entry again does not touch the database and gives the
    response of the first time. *)
Theorem state_request_once fuel e es e' st rc a st1 rs st2 :
  sessions_ok (st_index st) st -> 0 <= st_index st -> st_index st + 1 + zlen es < 2 ^ 64 ->
  e_flags e = CMD_REQUEST -> e_flags e' = CMD_REQUEST -> e_cid e' = e_cid e -> e_seq e' = e_seq e ->
  Forall (spares (e_cid e)) es ->
  state_apply fuel (st_index st + 1) e st = Some ((rc, Some a), st1) ->
  apply_all fuel es st1 = Some (rs, st2) -> is_Some (st_ids st2 !! e_cid e) ->
  exists st3, state_apply fuel (st_index st2 + 1) e' st2 = Some ((RS_OK, Some a), st3) /\
    k_db (st_conn st3) = k_db (st_conn st2) /\ response st3 a = response st1 a /\ is_Some (response st1 a).
Proof.
  intros Hok H0 Hb Hf Hf' Hcid Hseq Hes Happ Hall Hsome.
  assert (Hok1 : st_index st1 = st_index st + 1 /\ sessions_ok (st_index st1) st1).
  { assert (Hc : e_cid e <> e_cid e + 1) by lia.
    destruct (apply_evolves (e_cid e + 1) fuel e st _ st1 (fun _ => Hc) Happ) as [I1 K1]. split; [done|].
    rewrite I1. by apply K1. }
  destruct Hok1 as [I1 Hok1].
  assert (Hr : st_ids st1 !! e_cid e = Some a /\ exists s, st_heap st1 !! a = Some s /\ se_seq s = e_seq e /\ b_rpos (se_resp s) = 0).
  { destruct (apply_request fuel (st_index st + 1) e st Hf) as (st0 & I0 & S0 & _ & E0). rewrite E0 in Happ.
    destruct (state_on_client_request _ _ _ _ _ st0) as [[[rc0 a0] st0']|] eqn:Er; [|done].
    injection Happ as <- <- <-. eapply request_result; [|exact Er]. rewrite I0.
    destruct S0 as (_ & E1 & E2 & E3 & E4). apply (sessions_ok_le (st_index st)); [lia|].
    destruct Hok as [A1 A2 A3 A4]. cbn in E1, E2, E3, E4. split; rewrite ?E1, ?E2, ?E3, ?E4; done. }
  destruct Hr as (Hi1 & s1 & Ha1 & Hs1 & Hr1).
  destruct (apply_all_evolves (e_cid e) fuel es st1 rs st2 Hes) as [I2 K2]; [lia..|done|].
  destruct (K2 Hok1) as (Hok2 & Hkept & _).
  destruct (Hkept a s1 Hi1 Ha1) as [Hn|(Hi2 & s2 & Ha2 & Ei & En & Eq & Er)]; [by rewrite Hn in Hsome; destruct Hsome|].
  destruct (apply_request fuel (st_index st2 + 1) e' st2 Hf') as (st0 & I0 & (_ & _ & _ & E3 & E4) & Ed & E0).
  rewrite E0. cbn in E3, E4. unfold state_on_client_request. unfold mbind, stateM_bind, modify, gets, session_at.
  cbn [st_ids st_heap with_last_err]. rewrite E3, Hcid, Hi2. cbv beta iota. cbn [st_heap with_last_err].
  rewrite E4, Ha2. cbv beta iota. rewrite Hseq, Eq, Hs1, Z.eqb_refl.
  unfold set_session, modify. cbv beta iota. eexists. split; [reflexivity|]. cbn [st_conn with_heap with_sessions with_last_err].
  split; [exact Ed|]. unfold response. cbn [st_heap with_heap with_sessions with_last_err]. rewrite lookup_insert_eq, Ha1.
  cbn [fmap option_fmap option_map se_resp se_with_resp]. rewrite Er, set_rpos_contents by done. by split; [|eexists].
Qed.
End state.
Arguments st_conn {Q}.
Arguments st_index {Q}.
Arguments st_ids {Q}.
Arguments st_names {Q}.
Arguments st_heap {Q}.
Arguments st_disconnects {Q}.
Arguments sessions_ok {Q}.
Arguments response {Q}.
Arguments reopened {Q}.

(** ** Examples *)

Definition demo_state : state demo_sqlite :=
  mk_state demo_sqlite demo_conn None (meta_init (Some [x63])) 0 0 0 0 [] ∅ ∅ ∅ ∅.

Definition demo_format (s : list byte) : list byte := s.
Definition demo_line (m : meta) : list byte := [].
Abbreviation demo_apply := (state_apply demo_sqlite demo_aux (fun _ => None) demo_format demo_line 200).
Abbreviation demo_apply_all := (apply_all demo_sqlite demo_aux (fun _ => None) demo_format demo_line 200).

(** A request with one statement. *)
Definition demo_request (sql : list byte) : list byte :=
  let b := sc_buf_init 0 in
  let b := sc_buf_put_8 b MSG_FLAG_OP in
  let b := sc_buf_put_8 b MSG_FLAG_STMT in
  let b := sc_buf_put_str b (Some sql) in
  let b := sc_buf_put_8 b MSG_BIND_END in
  let b := sc_buf_put_8 b MSG_FLAG_OP_END in
  contents (sc_buf_put_8 b MSG_FLAG_MSG_END).

Definition demo_connect (name : byte) : entry :=
  mk_entry 1 0 0 CMD_CONNECT (cmd_bytes (CConnect (mk_connect (Some [name]) (Some [x6c]) (Some [x72])))).
Definition demo_disconnect (name : byte) (clean : bool) : entry :=
  mk_entry 1 0 0 CMD_DISCONNECT (cmd_bytes (CDisconnect (mk_disconnect (Some [name]) clean))).
Definition demo_tick (t : Z) : entry := mk_entry 1 0 0 CMD_TIMESTAMP (cmd_bytes (CTimestamp (mk_timestamp t t))).
Definition demo_query (cid seq : Z) (sql : list byte) : entry := mk_entry 1 seq cid CMD_REQUEST (demo_request sql).

Definition demo_log : list entry :=
  [demo_connect x61; demo_connect x62; demo_query 1 1 (text "insert"); demo_disconnect x61 false; demo_tick 70000;
   demo_connect x61; demo_disconnect x62 true].

Lemma demo_state_ok : sessions_ok 0 demo_state.
Proof.
  split.
  - intros k a H. cbn [demo_state st_names] in H. by rewrite lookup_empty in H.
  - intros a s H. cbn [demo_state st_heap] in H. by rewrite lookup_empty in H.
  - intros i a H. cbn [demo_state st_ids] in H. by rewrite lookup_empty in H.
  - split; [constructor|]. intros a H. by apply elem_of_nil in H.
Qed.

Lemma state_sessions_consistent_witness :
  exists rs st, demo_apply_all demo_log demo_state = Some (rs, st) /\
    map_to_list (st_names st) = [([x61], 2)] /\ map_to_list (st_ids st) = [(6, 2)] /\
    st_index st = 7 /\ sessions_ok (st_index st) st.
Proof.
  assert (Hs : match demo_apply_all demo_log demo_state with
    | Some (_, st) => bool_decide (map_to_list (st_names st) = [([x61], 2)]) && bool_decide (map_to_list (st_ids st) = [(6, 2)])
    | None => false end = true) by (vm_compute; reflexivity).
  destruct (demo_apply_all demo_log demo_state) as [[rs st]|] eqn:E; [|discriminate].
  exists rs, st. split; [reflexivity|]. apply andb_true_iff in Hs as [H1%bool_decide_eq_true H2%bool_decide_eq_true].
  split; [exact H1|]. split; [exact H2|].
  exact (state_sessions_consistent demo_sqlite demo_aux (fun _ => None) demo_format demo_line 200 demo_log demo_state rs st
    demo_state_ok ltac:(vm_compute; discriminate) ltac:(vm_compute; reflexivity) E).
Defined.

(** A request, then the entries of others, then the request again. *)
Definition demo_before : list entry := [demo_connect x61; demo_connect x62].
Definition demo_between : list entry := [demo_query 2 1 (text "delete"); demo_disconnect x61 false; demo_tick 500; demo_connect x61].

Lemma demo_spares : Forall (spares 1) demo_between.
Proof. repeat constructor; discriminate. Qed.

Lemma demo_before_spares : Forall (spares 0) demo_before.
Proof. repeat constructor; discriminate. Qed.

Lemma state_request_once_witness :
  exists rs0 st rc a st1 rs st2 st3,
    demo_apply_all demo_before demo_state = Some (rs0, st) /\
    demo_apply 3 (demo_query 1 1 (text "insert")) st = Some ((rc, Some a), st1) /\
    demo_apply_all demo_between st1 = Some (rs, st2) /\
    demo_apply 8 (demo_query 1 1 (text "insert")) st2 = Some ((RS_OK, Some a), st3) /\
    dd_done (k_db (st_conn st3)) = [text "insert"; text "delete"] /\ response st3 a = response st1 a.
Proof.
  assert (H0 : match demo_apply_all demo_before demo_state with
    | Some (_, st) =>
        match demo_apply 3 (demo_query 1 1 (text "insert")) st with
        | Some ((rc, Some a), st1) =>
            match demo_apply_all demo_between st1 with
            | Some (_, st2) => bool_decide (st_index st2 = 7) && bool_decide (is_Some (st_ids st2 !! 1)) &&
                bool_decide (dd_done (k_db (st_conn st2)) = [text "insert"; text "delete"])
            | None => false
            end
        | _ => false
        end
    | None => false end = true) by (vm_compute; reflexivity).
  destruct (demo_apply_all demo_before demo_state) as [[rs0 st]|] eqn:E0; [|discriminate].
  destruct (apply_all_evolves demo_sqlite demo_aux (fun _ => None) demo_format demo_line 0 200 demo_before demo_state rs0 st
    demo_before_spares ltac:(vm_compute; discriminate) ltac:(vm_compute; reflexivity) E0) as [Hi Hok].
  apply proj1 in Hok; [|exact demo_state_ok].
  change (st_index demo_state + zlen demo_before) with 2 in Hi.
  destruct (demo_apply 3 _ st) as [[[rc [a|]] st1]|] eqn:E1; [|discriminate..].
  destruct (demo_apply_all demo_between st1) as [[rs st2]|] eqn:E2; [|discriminate].
  apply andb_true_iff in H0 as [[H1%bool_decide_eq_true H2%bool_decide_eq_true]%andb_true_iff H3%bool_decide_eq_true].
  exists rs0, st, rc, a, st1, rs, st2.
  rewrite <- (eq_refl : 2 + 1 = 3), <- Hi in E1.
  destruct (state_request_once demo_sqlite demo_aux (fun _ => None) demo_format demo_line 200
    (demo_query 1 1 (text "insert")) demo_between (demo_query 1 1 (text "insert")) st rc a st1 rs st2
    Hok ltac:(lia) ltac:(rewrite Hi; vm_compute; reflexivity) eq_refl eq_refl eq_refl eq_refl demo_spares E1 E2 H2)
    as (st3 & E3 & Ed & Er & _).
  exists st3. rewrite H1 in E3. rewrite Hi in E1. split_and!; [reflexivity|exact E1|exact E2|exact E3|congruence|exact Er].
Defined.

(** A client connects, its connection breaks, and it connects again more than a minute
    later and sends a request. *)
Definition broken_session : list entry := [demo_connect x61; demo_disconnect x61 false].
Definition later_session : list entry := [demo_tick 70000; demo_connect x61; demo_query 4 1 (text "insert")].

Definition ends (st : option (state demo_sqlite)) : bool :=
  match st with None => false | Some st => bool_decide (is_Some (demo_apply_all later_session st)) end.

(** A snapshot forgets which sessions are disconnected.  The time of the disconnection
    is not a column of the table of clients, and the list of disconnected sessions is not
    rebuilt.  A node that reads the state back after the connection broke keeps the
    session that the other nodes drop after a minute; when the client connects again, the
    others make a session with a new id, and at the first request with that id the node
    aborts, where the others execute it. *)
Theorem snapshot_forgets_disconnects :
  match demo_apply_all broken_session demo_state with
  | None => False
  | Some (_, st) => ends (Some st) = true /\ bool_decide (is_Some (reopened st)) = true /\ ends (reopened st) = false
  end.
Proof. vm_compute. repeat split. Qed.
