(* ===== verification/Replicate.v ===== *)
(** * Replication of the log (src/server.c)

    What a leader and a follower do with their logs: the entries of an append request
    are merged into the log of the follower, the leader keeps for each peer how far its
    log is known to match, sends the entries that are missing or the snapshot, and picks
    the index that a majority holds.  Changes of the configuration that entries carry
    take effect when they are stored.

    [None] is a process that stops: an [rs_assert] or [rs_abort] that is hit, a loop that
    does not end, or memory read outside of a message. *)

From Stdlib Require Import ZArith Lia.
From Stdlib Require Import Strings.Byte.
From stdpp Require Import base list numbers gmap strings sorting.
From S2P Require Import Prelude Str Uri Buf Crc32 Entry Page Store Msg Map Meta Cmd Node Server Election Sql.

(** ** Code that can stop *)

Definition runM (S A : Type) : Type := S -> option (A * S).

#[export] Instance runM_ret {S} : MRet (runM S) := fun A a s => Some (a, s).
#[export] Instance runM_bind {S} : MBind (runM S) :=
  fun A B f m s => match m s with None => None | Some (a, s) => f a s end.

Definition halt {S A} : runM S A := fun _ => None.
Definition calls {S A} (f : S -> A * S) : runM S A := fun s => Some (f s).
Definition poke {S} (f : S -> S) : runM S () := fun s => Some ((), f s).
Definition peek {S A} (f : S -> A) : runM S A := fun s => Some (f s, s).

(** [if (rc != RS_OK) return rc] *)
Definition and_then {S} (rc : rs_rc) (k : runM S rs_rc) : runM S rs_rc :=
  if decide (rc = RS_OK) then k else mret rc.

(** The lines [server_log] writes into the replicated log table; the text is made by the
    formatted output functions. *)
Inductive log_line :=
| snapshot_sent (index : Z) (name : list byte)
| sending_snapshot (index len : Z) (name : list byte)
| adding_node (uri : list byte)
| add_node_failed (data msg : list byte)
| removing_node (data : list byte)
| remove_node_failed (data msg : list byte).

Definition log_level (l : log_line) : list byte :=
  match l with
  | snapshot_sent _ _ | adding_node _ | removing_node _ => text "INFO"
  | sending_snapshot _ _ _ => text "WARN"
  | add_node_failed _ _ | remove_node_failed _ _ => text "ERROR"
  end.

(** ** Entries of a message *)

(** [entry_foreach]: the memory at each entry of [buf].  A round that does not move forward
    does not end; an entry that runs past the end is read outside of the message. *)
Fixpoint entry_foreach (fuel : nat) (buf : list byte) : option (list (list byte)) :=
  match fuel with
  | O => None
  | S fuel =>
      if bool_decide (buf = []) then Some []
      else if (zlen buf <? ENTRY_HEADER_SIZE) || (zlen buf <? entry_len buf) || (entry_len buf =? 0) then None
      else
        match entry_foreach fuel (at_off buf (entry_len buf)) with
        | None => None
        | Some es => Some (buf :: es)
        end
  end.

(** The comparison of the checksum [page_put_entry] makes. *)
Definition entry_intact (e : list byte) : bool :=
  entry_crc e =? crc32c 0 (mread (at_off e ENTRY_CRC_LEN) 0 (entry_len e -₃₂ ENTRY_CRC_LEN)).

(** ** The index a majority has reached *)

(** [sc_array_sort] with [server_sort_matches] or [server_sort_rounds], which never call two
    elements equal; an element is moved in front of another one only if its key is larger. *)
Fixpoint sort_insert (key : Z -> Z) (x : Z) (l : list Z) : list Z :=
  match l with
  | [] => [x]
  | y :: l => if key x >? key y then x :: y :: l else y :: sort_insert key x l
  end.

Definition sort_nodes (key : Z -> Z) (l : list Z) : list Z := foldr (sort_insert key) [] l.

Definition server_sort_matches (s : server) : server :=
  set_nodes s (sort_nodes (fun n => n_match (node_at s n)) (s_nodes s)).
Definition server_sort_rounds (s : server) : server :=
  set_nodes s (sort_nodes (fun n => n_round (node_at s n)) (s_nodes s)).

(** [sc_array_at], which asserts that the position is in the array. *)
Definition node_nth (s : server) (index : Z) : option Z := s_nodes s !! Z.to_nat index.

Definition MAX_SIZE : Z := 16 * 1024.

Section replicate.
Variable io : nat -> answer.
Variable line_text : log_line -> list byte.
(** The mapped snapshot file. *)
Variable ss_map : snapshot -> list byte.

Definition server_log (s : server) (l : log_line) : rs_rc * server :=
  server_create_entry io CREATE_FUEL s true 0 0 CMD_LOG
    (cmd_bytes (CLog (mk_log (Some (log_level l)) (Some (line_text l))))).

(** ** Members *)

Definition server_create_node (s : server) (m : meta_node) : server :=
  let name := default [] (mn_name m) in
  if bool_decide (name = c_name (s_conf s)) then s
  else if existsb (fun n => bool_decide (n_name (node_at s n) = name)) (s_nodes s) then s
  else
    let a := base.fresh (dom (s_heap s)) in
    let n := node_clear_indexes (node_add_uris (node_create name) (mn_uris m)) (last_index (s_log s)) in
    set_nodes (set_node s a n) (s_nodes s ++ [a]).

Definition server_update_connections (s : server) : server :=
  let known n := meta_exists (s_meta s) (n_name (node_at s n)) = true in
  let mine := filter (fun n => n <> s_own s) (s_nodes s) in
  let left := filter (fun n => ~ known n) mine in
  let joined := filter known (s_unknown_nodes s) in
  let connected := filter (fun n => n ∉ left) (s_connected_nodes s) in
  let connected := foldl (fun l n => filter (fun m => m <> n) l ++ [n]) connected joined in
  let n_nodes := filter known mine ++ joined in
  let n_unknown := left ++ filter (fun n => ~ known n) (s_unknown_nodes s) in
  let s := set_connected_nodes s connected in
  let s := set_nodes s n_nodes in
  let s := set_unknown_nodes s n_unknown in
  let s := foldl server_create_node s (m_nodes (s_meta s)) in
  if s_in_cluster s then set_nodes s (s_nodes s ++ [s_own s]) else s.

Definition server_meta_change (s : server) : server :=
  let s := set_in_cluster s (meta_exists (s_meta s) (c_name (s_conf s))) in
  let s := server_update_connections s in
  if negb (s_in_cluster s) && bool_decide (s_role s = SERVER_ROLE_LEADER) && bool_decide (m_prev (s_meta s) = None)
  then server_become_follower s None (s_term s)
  else s.

(** ** A follower stores entries *)

(** The loop from [retry]: [store_put_entry], and when the store is full wait for the
    snapshot or make it larger.  [fuel] bounds the jumps; [RS_FAIL] is exhausted fuel. *)
Fixpoint store_put (fuel : nat) (index : Z) (e : list byte) : runM server rs_rc :=
  match fuel with
  | O => mret RS_FAIL
  | S fuel =>
      l ← peek (fun s => s_log s);
      if negb (index =? last_index l +₆₄ 1) || negb (last_term l <=? entry_term e) then halt
      else
        a ← calls (ask io);                                           (* store_put_entry *)
        match a_rc a with
        | RS_OK =>
            if entry_intact e then poke (fun s => set_log s (log_append (s_log s) (view_entry e)));; mret RS_OK
            else halt
        | RS_FULL =>
            rc ← calls (server_wait_snapshot io);
            match rc with
            | RS_OK => store_put fuel index e
            | RS_NOOP =>
                a ← calls (ask io);                                   (* store_reserve *)
                and_then (a_rc a) (store_put fuel index e)
            | rc => mret rc
            end
        | rc => mret rc
        end
  end.

(** A conflicting entry is removed with all that follow it, and the configuration it may
    have brought is rolled back. *)
Definition store_conflict (index : Z) : runM server () :=
  poke (fun s => set_log s (log_remove_after (s_log s) (index -₆₄ 1)));;
  m ← peek (fun s => meta_rollback (s_meta s) (index -₆₄ 1));
  match m with
  | None => halt
  | Some m => poke (fun s => server_meta_change (set_meta s m))
  end.

(** A configuration is in use as soon as its entry is there. *)
Definition store_meta (e : list byte) : runM server () :=
  if entry_flags e =? CMD_META then
    let data := take (Z.to_nat (entry_data_len e)) (entry_data e) in
    match meta_replace (length data) data with
    | None => halt
    | Some m => poke (fun s => server_meta_change (set_meta s m))
    end
  else mret ().

Fixpoint store_loop (index : Z) (es : list (list byte)) : runM server rs_rc :=
  match es with
  | [] => mret RS_OK
  | e :: es =>
      curr ← peek (fun s => log_entry (s_log s) index);
      let put :=
        store_meta e;;
        rc ← store_put CREATE_FUEL index e;
        and_then rc (store_loop (index +₆₄ 1) es) in
      match curr with
      | Some c =>
          if e_term c =? entry_term e then store_loop (index +₆₄ 1) es
          else store_conflict index;; put
      | None => put
      end
  end.

Definition server_store_entries (index : Z) (buf : list byte) : runM server rs_rc :=
  match entry_foreach (S (length buf)) buf with
  | None => halt
  | Some es => store_loop index es
  end.

(** ** The leader hears from a follower *)

Definition server_on_append_resp (s : server) (n : Z) (index term round : Z) (success : bool) : server :=
  let s := set_node s n (node_set_inflight (node_at s n) (n_msg_inflight (node_at s n) -₆₄ 1)) in
  if negb (bool_decide (s_role s = SERVER_ROLE_LEADER)) then s
  else if success then set_node s n (node_update_indexes (node_at s n) round index)
  else
    let s := if term >? s_term s then server_become_follower s None term else s in
    set_node s n (node_set_match (node_at s n) index (index +₆₄ 1)).

Definition server_on_snapshot_resp (s : server) (n : Z) (term round : Z) (done : bool) : rs_rc * server :=
  let s := set_node s n (node_set_inflight (node_at s n) (n_msg_inflight (node_at s n) -₆₄ 1)) in
  let s := set_node s n (node_set_round (node_at s n) round) in
  if term >? s_term s then (RS_OK, server_become_follower s None term)
  else if done then
    let s := set_node s n (node_set_match (node_at s n) (n_match (node_at s n)) (ss_index (s_ss s) +₆₄ 1)) in
    server_log s (snapshot_sent (ss_index (s_ss s)) (n_name (node_at s n)))
  else (RS_OK, s).

(** ** A follower receives a snapshot *)

Definition recv_start (s : server) (term index : Z) : server :=
  let ss := s_ss s in
  if negb (ss_recv_term ss =? term) || negb (ss_recv_index ss =? index) then
    let ss := snapshot_clear ss in
    set_ss s (mk_snapshot (ss_index ss) (ss_term ss) (ss_latest_index ss) (ss_latest_term ss) index term (ss_tmp ss))
  else s.

Definition set_ss_tmp (s : server) (tmp : bool) : server :=
  let ss := s_ss s in
  set_ss s (mk_snapshot (ss_index ss) (ss_term ss) (ss_latest_index ss) (ss_latest_term ss)
    (ss_recv_index ss) (ss_recv_term ss) tmp).

(** [ss->term = 0; ss->index = 0] *)
Definition reset_ss (s : server) : server :=
  let ss := s_ss s in
  set_ss s (mk_snapshot 0 0 (ss_latest_index ss) (ss_latest_term ss) (ss_recv_index ss) (ss_recv_term ss) (ss_tmp ss)).

(** [snapshot_recv] up to the end of the file: the answers are those of the file. *)
Definition snapshot_recv (s : server) (term index : Z) (done : bool) : rs_rc * server :=
  let s := recv_start s term index in
  let '(rc, s) :=
    if ss_tmp (s_ss s) then (RS_OK, s)
    else let '(a, s) := ask io (set_ss_tmp s true) in (a_rc a, s) in                  (* file_open *)
  if negb (bool_decide (rc = RS_OK)) then (rc, s)
  else
    let '(a, s) := ask io s in                                                        (* file_write_at *)
    if negb (bool_decide (a_rc a = RS_OK)) then (a_rc a, s)
    else if negb done then (RS_OK, s)
    else
      let '(a, s) := ask io s in                                                      (* file_flush *)
      if negb (bool_decide (a_rc a = RS_OK)) then (a_rc a, s)
      else
        let '(a, s) := ask io (set_ss_tmp s false) in                                 (* file_rename *)
        if negb (bool_decide (a_rc a = RS_OK)) then (a_rc a, s)
        else (RS_SNAPSHOT, reset_ss s).

Definition server_on_snapshot_req (s : server) (n : Z) (term round ss_term ss_index : Z) (done : bool)
    : rs_rc * server :=
  let out rc success s := (rc, put_msg s n (snapshot_resp (s_term s) round success done)) in
  if s_term s >? term then out RS_OK false s
  else
    let s :=
      if ((s_term s =? term) && bool_decide (s_leader s = None)) || (term >? s_term s)
      then server_become_follower s (Some n) term else s in
    let s := set_node s n (node_set_in_timestamp (node_at s n) (s_timestamp s)) in
    let '(rc, s) := server_wait_snapshot io s in
    if negb (bool_decide (rc = RS_OK)) && negb (bool_decide (rc = RS_NOOP)) then (rc, s)
    else
      let '(rc, s) := snapshot_recv s ss_term ss_index done in
      out rc (bool_decide (rc = RS_OK) || bool_decide (rc = RS_SNAPSHOT)) s.

(** ** The leader sends *)

Definition node_sent (n : node) (next now : Z) : node :=
  mk_peer (n_name n) (n_uris n) (n_interval n) next (n_match n) (n_round n) (n_ss_pos n) (n_ss_index n)
    (n_msg_inflight n +₆₄ 1) (n_in_timestamp n) now.

Definition node_set_ss (n : node) (index pos : Z) : node :=
  mk_peer (n_name n) (n_uris n) (n_interval n) (n_next n) (n_match n) (n_round n) pos index
    (n_msg_inflight n) (n_in_timestamp n) (n_out_timestamp n).

(** [conn_flush], and the node is disconnected when it fails. *)
Definition flush_node (s : server) (n : Z) : server :=
  let '(a, s) := ask io s in
  if bool_decide (a_rc a = RS_OK) then s else server_on_node_disconnect s n.

Definition server_flush_snapshot (s : server) (n : Z) : rs_rc * server :=
  if n_msg_inflight (node_at s n) >? 8 then (RS_OK, s)
  else
    let '(rc, s) :=
      if n_ss_index (node_at s n) =? ss_index (s_ss s) then (RS_OK, s)
      else
        let s := set_node s n (node_set_ss (node_at s n) (ss_index (s_ss s)) 0) in
        server_log s (sending_snapshot (ss_index (s_ss s)) (zlen (ss_map (s_ss s))) (n_name (node_at s n))) in
    if negb (bool_decide (rc = RS_OK)) then (rc, s)
    else
      let map := ss_map (s_ss s) in
      let pos := n_ss_pos (node_at s n) in
      let len := u32 (Z.min MAX_SIZE (zlen map -₆₄ pos)) in
      let done := pos +₆₄ len =? zlen map in
      let s :=
        if len =? 0 then s
        else
          let s := put_msg s n (snapshot_req (s_term s) (s_round s) (ss_term (s_ss s)) (ss_index (s_ss s)) pos done
                                  (mread map pos len)) in
          let x := node_set_ss (node_at s n) (n_ss_index (node_at s n)) (pos +₆₄ len) in
          set_node s n (node_sent x (n_next x) (s_timestamp s)) in
      (RS_OK, flush_node s n).

(** [store_entries]: consecutive entries from [index] on, as many as the page and the limit
    give; the number is the answer of the store (Store.v). *)
Definition store_entries_from (s : server) (index : Z) : list entry * server :=
  let '(a, s) := ask io s in
  let es := drop (Z.to_nat (index - l_prev (s_log s) - 1)) (l_entries (s_log s)) in
  (take (Z.to_nat (Z.max 1 (a_ms a))) es, s).

Definition append_to (s : server) (n : Z) (es : list entry) : server :=
  let x := node_at s n in
  let prev := n_next x -₆₄ 1 in
  let s := put_msg s n (append_req (s_term s) prev (log_prev_term (s_log s) prev) (s_commit s) (s_round s)
                          (enc_entries es)) in
  set_node s n (node_sent x (n_next x +₆₄ zlen es) (s_timestamp s)).

(** One round of the loop over the connected nodes. *)
Definition flush_one (s : server) (n : Z) : rs_rc * server :=
  let x := node_at s n in
  if n_next x <=? l_ss_index (s_log s) then server_flush_snapshot s n
  else
    let s :=
      if (n_msg_inflight x >? 8) || ((n_next x >? last_index (s_log s)) && (n_round x =? s_round s)) then s
      else let '(es, s) := store_entries_from s (n_next x) in append_to s n es in
    let x := node_at s n in
    let s :=
      if (n_msg_inflight x =? 0) && (s_timestamp s -₆₄ n_out_timestamp x >? c_heartbeat (s_conf s) / 2)
      then append_to s n [] else s in
    (RS_OK, flush_node s n).

Fixpoint flush_loop (s : server) (ns : list Z) : rs_rc * server :=
  match ns with
  | [] => (RS_OK, s)
  | n :: ns =>
      let '(rc, s) := flush_one s n in
      if bool_decide (rc = RS_OK) then flush_loop s ns else (rc, s)
  end.

Definition server_flush_nodes (s : server) : rs_rc * server := flush_loop s (s_connected_nodes s).

Definition server_flush_remaining (s : server) : server := foldl flush_node s (s_connected_nodes s).

(** ** The index a majority holds *)

(** [server_check_commit] sorts the nodes by match index and looks at one of them. *)
Definition match_at (index : Z) : runM server Z :=
  poke server_sort_matches;;
  node ← peek (fun s => node_nth s index);
  match node with
  | None => halt
  | Some node => peek (fun s => n_match (node_at s node))
  end.

(** The first half of [server_check_commit]: the match index of the node in the middle, with
    the own log counted in full when that gives more (the log is flushed first). *)
Definition commit_index : runM server Z :=
  index ← peek (fun s => m_voter (s_meta s) / 2);
  poke (fun s => set_node s (s_own s) (node_set_round (node_at s (s_own s)) (s_round s)));;
  match_ ← match_at index;
  own ← peek (fun s => node_at s (s_own s));
  last ← peek (fun s => last_index (s_log s));
  in_cluster ← peek (fun s => s_in_cluster s);
  if in_cluster && negb (n_match own =? last) then
    poke (fun s => set_node s (s_own s) (node_set_match own last (n_next own)));;
    m ← match_at index;
    if m >? match_ then
      poke (fun s => set_node s (s_own s) (node_set_match own last (last +₆₄ 1)));;
      mret m
    else
      poke (fun s => set_node s (s_own s) own);;
      mret match_
  else mret match_.

(** ** What storing entries does to the log *)

Lemma log_entry_append l e j :
  log_entry (log_append l e) j = if j =? last_index l + 1 then Some e else log_entry l j.
Proof.
  unfold log_entry, log_append, last_index. cbn [l_prev l_entries]. rewrite log_at_app.
  destruct (Z.eqb_spec j (l_prev l + zlen (l_entries l) + 1)) as [->|Hj].
  - unfold log_at. cbn [fst snd]. rewrite (proj2 (Z.leb_gt _ (l_prev l + zlen (l_entries l)))), andb_false_r by lia.
    change (zlen [e]) with 1. rewrite (proj2 (Z.ltb_lt _ _)), Z.leb_refl by lia.
    cbn [andb]. by replace (Z.to_nat _) with O by lia.
  - destruct (log_at (l_prev l, l_entries l) j) eqn:E; [done|]. unfold log_at. cbn [fst snd].
    destruct (_ && _) eqn:E2; [|done]. zb. change (zlen [e]) with 1 in *. lia.
Qed.

Lemma last_append l e : last_index (log_append l e) = last_index l + 1.
Proof. unfold last_index, log_append. cbn [l_prev l_entries]. rewrite zlen_app. change (zlen [e]) with 1. lia. Qed.

Lemma log_entry_range l j e : log_entry l j = Some e -> l_prev l < j <= last_index l.
Proof. unfold log_entry, log_at, last_index. cbn [fst snd]. destruct (_ && _) eqn:E; [|done]. zb. lia. Qed.

Lemma log_entry_none l j : log_entry l j = None -> l_prev l < j -> last_index l < j.
Proof.
  unfold log_entry, log_at, last_index. cbn [fst snd]. destruct (_ && _) eqn:E; zb; [|lia].
  intros Hn%lookup_ge_None ?. unfold zlen in *. lia.
Qed.

Lemma last_remove l k : l_prev l <= k <= last_index l -> last_index (log_remove_after l k) = k.
Proof.
  intros H. unfold last_index, log_remove_after in *. cbn [l_prev l_entries]. rewrite zlen_take by lia. lia.
Qed.

Lemma log_entry_remove l k j :
  l_prev l <= k <= last_index l -> log_entry (log_remove_after l k) j = if j <=? k then log_entry l j else None.
Proof.
  intros H. unfold log_entry, log_remove_after, log_at, last_index in *. cbn [l_prev l_entries fst snd].
  rewrite zlen_take by lia. rewrite Z.min_l by lia. destruct (Z.leb_spec j k).
  - rewrite (proj2 (Z.leb_le j _)) by lia. rewrite (proj2 (Z.leb_le j (l_prev l + zlen _))) by lia.
    destruct (_ && _) eqn:E; [|done]. zb. apply lookup_take_lt. lia.
  - rewrite (proj2 (Z.leb_gt j _)) by lia. by rewrite andb_false_r.
Qed.

Lemma last_taken l t k : l_prev l <= k <= last_index l -> last_index (log_snapshot_taken l t k) = last_index l.
Proof.
  intros H. unfold last_index, log_snapshot_taken, zlen in *. cbn [l_prev l_entries]. rewrite length_drop. lia.
Qed.

Lemma log_entry_taken l t k j :
  l_prev l <= k <= last_index l -> log_entry (log_snapshot_taken l t k) j = if k <? j then log_entry l j else None.
Proof.
  intros H. unfold log_entry, log_snapshot_taken, log_at, last_index, zlen in *. cbn [l_prev l_entries fst snd].
  rewrite length_drop. destruct (Z.ltb_spec k j); [|done]. rewrite (proj2 (Z.ltb_lt (l_prev l) j)) by lia. cbn [andb].
  replace (k + Z.of_nat (length (l_entries l) - Z.to_nat (k - l_prev l)))
    with (l_prev l + Z.of_nat (length (l_entries l))) by lia.
  destruct (_ <=? _) eqn:E; [|done]. zb. rewrite lookup_drop. f_equal. lia.
Qed.

(** The effect on the log of a snapshot that may have finished in between. *)
Definition trimmed (s s' : server) : Prop :=
  s_log s' = s_log s \/
  exists t, s_ss_inprogress s = true /\ s_ss_inprogress s' = false /\
    s_log s' = log_snapshot_taken (s_log s) t (ss_latest_index (s_ss s)).

(** The part of the state that the snapshot in progress depends on. *)
Record calm_ss (s s' : server) : Prop := {
  cs_latest : ss_latest_index (s_ss s') = ss_latest_index (s_ss s);
  cs_prog : s_ss_inprogress s' = true -> s_ss_inprogress s = true
}.

Lemma calm_ss_refl s : calm_ss s s.
Proof. by split. Qed.

Lemma calm_ss_trans s1 s2 s3 : calm_ss s1 s2 -> calm_ss s2 s3 -> calm_ss s1 s3.
Proof. intros [] []. split; [congruence|auto]. Qed.

Lemma trimmed_trans s1 s2 s3 : trimmed s1 s2 -> calm_ss s1 s2 -> trimmed s2 s3 -> calm_ss s2 s3 -> trimmed s1 s3.
Proof.
  intros H12 [L12 P12] H23 [L23 P23].
  destruct H23 as [E23|(t & P2 & P3 & E23)].
  - destruct H12 as [E12|(t & P1 & P2 & E12)]; [left; congruence|]. right. exists t.
    destruct (s_ss_inprogress s3); [rewrite P2 in P23; by specialize (P23 eq_refl)|]. split_and!; [done..|congruence].
  - destruct H12 as [E12|(t' & P1 & P2' & E12)]; [|congruence].
    right. exists t. split_and!; [auto|done|congruence].
Qed.

Lemma ask_trimmed s : trimmed s (snd (ask io s)) /\ calm_ss s (snd (ask io s)).
Proof. split; [by left|by split]. Qed.

Lemma wait_trimmed s :
  trimmed s (snd (server_wait_snapshot io s)) /\ calm_ss s (snd (server_wait_snapshot io s)).
Proof.
  unfold server_wait_snapshot. destruct (s_ss_inprogress s) eqn:E; cbn [negb]; [|split; [by left|by split]].
  unfold ask. cbv zeta beta iota. destruct (negb _); cbn [snd].
  - split; [by left|]. split; [done|]. cbn. congruence.
  - split.
    + right. eexists. split_and!; [done|done|]. cbn. reflexivity.
    + split; [|cbn; congruence]. cbn. unfold snapshot_replace. by destruct (negb _).
Qed.

Lemma store_put_spec fuel index e : forall s s',
  store_put fuel index e s = Some (RS_OK, s') ->
  exists s1, trimmed s s1 /\ calm_ss s s1 /\ index = last_index (s_log s1) +₆₄ 1 /\
    s_log s' = log_append (s_log s1) (view_entry e) /\ calm_ss s1 s'.
Proof.
  induction fuel as [|fuel IH]; intros s s'; [by injection 1|]. cbn [store_put].
  unfold mbind, runM_bind, peek, calls, mret, runM_ret. destruct (_ || _) eqn:G; [done|].
  destruct (ask_trimmed s) as [T1 C1]. destruct (ask io s) as [a s1] eqn:Ea. cbn [snd] in *.
  assert (Hnext : forall s2, trimmed s s2 -> calm_ss s s2 -> store_put fuel index e s2 = Some (RS_OK, s') ->
    exists s1, trimmed s s1 /\ calm_ss s s1 /\ index = last_index (s_log s1) +₆₄ 1 /\
      s_log s' = log_append (s_log s1) (view_entry e) /\ calm_ss s1 s').
  { intros s2 T2 C2 (s3 & T3 & C3 & E3)%IH. exists s3. split; [by eapply trimmed_trans|].
    split; [by eapply calm_ss_trans|done]. }
  destruct (a_rc a); try done.
  - unfold poke. destruct (entry_intact e); [|done]. intros [= <-]. exists s1. split_and!; try done; try by split.
    destruct T1 as [->|(? & ? & ? & _)]; [zb; lia|]. unfold ask in Ea. injection Ea as <- <-. cbn in *. congruence.
  - destruct (wait_trimmed s1) as [T2 C2]. destruct (server_wait_snapshot io s1) as [rc s2]. cbn [snd] in *.
    pose proof (trimmed_trans _ _ _ T1 C1 T2 C2) as T. pose proof (calm_ss_trans _ _ _ C1 C2) as C.
    destruct rc; try done; [by apply Hnext|]. destruct (ask_trimmed s2) as [T3 C3].
    destruct (ask io s2) as [b s3]. cbn [snd] in *. unfold and_then. destruct (decide _); [|by intros [=]].
    apply Hnext; [by eapply trimmed_trans|by eapply calm_ss_trans].
Qed.

Lemma create_nodes_core ms : forall s, s_core_ (foldl server_create_node s ms) = s_core_ s.
Proof.
  induction ms as [|m ms IH]; intros s; [done|]. cbn [foldl]. rewrite IH. unfold server_create_node.
  destruct (bool_decide _); [done|]. by destruct (existsb _ _).
Qed.

Lemma update_connections_core s : s_core_ (server_update_connections s) = s_core_ s.
Proof.
  unfold server_update_connections. cbv zeta.
  match goal with |- context [foldl server_create_node ?s0 ?ms] =>
    pose proof (create_nodes_core ms s0) as H; generalize dependent (foldl server_create_node s0 ms) end.
  intros s1 H. by case_if.
Qed.

Lemma meta_change_log s :
  s_log (server_meta_change s) = s_log s /\ calm_ss s (server_meta_change s).
Proof.
  unfold server_meta_change. cbv zeta. set (s1 := set_in_cluster s _).
  pose proof (update_connections_core s1) as H. generalize dependent (server_update_connections s1). intros s2 H.
  assert (H2 : s_core_ s2 = s_core_ s) by done. destruct (_ && _ && _).
  - unfold server_become_follower. cbv zeta. destruct (negb _); cbn; rewrite H2; (split; [done|]);
      split; cbn; rewrite ?H2; auto; unfold snapshot_clear; by destruct (ss_tmp _).
  - rewrite H2. split; [done|]. split; by rewrite H2.
Qed.

Lemma store_meta_log e s s' : store_meta e s = Some ((), s') -> s_log s' = s_log s /\ calm_ss s s'.
Proof.
  unfold store_meta. destruct (_ =? _); [|intros [= <-]; split; [done|apply calm_ss_refl]].
  destruct (meta_replace _ _) as [m|]; [|done]. unfold poke. intros [= <-].
  destruct (meta_change_log (set_meta s m)) as [-> []]. done.
Qed.

Lemma store_conflict_log index s s' :
  store_conflict index s = Some ((), s') ->
  s_log s' = log_remove_after (s_log s) (index -₆₄ 1) /\ calm_ss s s'.
Proof.
  unfold store_conflict, mbind, runM_bind, poke, peek. destruct (meta_rollback _ _) as [m|]; [|done]. intros [= <-].
  match goal with |- context [server_meta_change ?s0] => destruct (meta_change_log s0) as [-> []] end. done.
Qed.

(** The entries of a message that starts at [index] are in the log. *)
Record merged (s : server) (index : Z) (es : list entry) (s' : server) : Prop := {
  mg_prev : l_prev (s_log s) <= l_prev (s_log s');
  mg_before : forall j, l_prev (s_log s') < j < index -> log_entry (s_log s') j = log_entry (s_log s) j;
  mg_sent : forall i e, es !! i = Some e -> l_prev (s_log s') < index + Z.of_nat i ->
    exists e', log_entry (s_log s') (index + Z.of_nat i) = Some e' /\ e_term e' = e_term e /\
      (e' = e \/ log_entry (s_log s) (index + Z.of_nat i) = Some e');
  mg_after : forall j, index + zlen es <= j ->
    log_entry (s_log s') j = None \/ log_entry (s_log s') j = log_entry (s_log s) j;
  mg_last : index + zlen es <= last_index (s_log s') + 1;
  mg_grows :
    (forall i e c, es !! i = Some e -> log_entry (s_log s) (index + Z.of_nat i) = Some c -> e_term c = e_term e) ->
    last_index (s_log s) <= last_index (s_log s')
}.

(** A snapshot in progress is one of entries that the sender has too. *)
Definition snapshot_agrees (s : server) (index : Z) (es : list entry) : Prop :=
  s_ss_inprogress s = true ->
  l_prev (s_log s) <= ss_latest_index (s_ss s) <= last_index (s_log s) /\
  forall i e, es !! i = Some e -> index + Z.of_nat i <= ss_latest_index (s_ss s) ->
    exists c, log_entry (s_log s) (index + Z.of_nat i) = Some c /\ e_term c = e_term e.

(** The memory at an entry. *)
Definition at_entry (m : list byte) (e : entry) : Prop := exists rest, m = enc_entry e ++ rest /\ entry_ok e.

Lemma merged_skip s index e es s' c :
  log_entry (s_log s) index = Some c -> e_term c = e_term e ->
  merged s (index + 1) es s' -> merged s index (e :: es) s'.
Proof.
  intros Hc Ht [P B T A L G]. split; [done|intros; apply B; lia| | |rewrite zlen_cons; lia|].
  - intros [|i] e' He Hl; cbn in He.
    + injection He as <-. rewrite Z.add_0_r in *. exists c. rewrite B by lia. auto.
    + replace (index + Z.of_nat (S i)) with (index + 1 + Z.of_nat i) in * by lia. eauto.
  - intros j Hj. rewrite zlen_cons in Hj. apply A. lia.
  - intros Hno. apply G. intros i e' c' He Hc'. apply (Hno (S i) e' c' He).
    by replace (index + Z.of_nat (S i)) with (index + 1 + Z.of_nat i) by lia.
Qed.

Lemma merged_put s index e es s2 s' :
  l_prev (s_log s) <= l_prev (s_log s2) ->
  (forall j, l_prev (s_log s2) < j < index -> log_entry (s_log s2) j = log_entry (s_log s) j) ->
  log_entry (s_log s2) index = Some e -> last_index (s_log s2) = index ->
  (last_index (s_log s) < index \/ exists c, log_entry (s_log s) index = Some c /\ e_term c <> e_term e) ->
  merged s2 (index + 1) es s' -> merged s index (e :: es) s'.
Proof.
  intros P2 B2 E2 L2 Hs [P B T A L G].
  split; [lia|intros; rewrite B, B2 by lia; done| | |rewrite zlen_cons; lia|].
  - intros [|i] e' He Hl; cbn in He.
    + injection He as <-. rewrite Z.add_0_r in *. exists e. rewrite B by lia. auto.
    + replace (index + Z.of_nat (S i)) with (index + 1 + Z.of_nat i) in * by lia.
      destruct (T i e' He Hl) as (x & Hx & Ht & [->|Ho]); [eauto|]. apply log_entry_range in Ho. lia.
  - intros j Hj. rewrite zlen_cons in Hj. pose proof (zlen_nonneg es). destruct (A j) as [Ha|Ha]; [lia|by left|].
    left. rewrite Ha. destruct (log_entry (s_log s2) j) eqn:Hj2; [|done]. apply log_entry_range in Hj2. lia.
  - intros Hno. pose proof (zlen_nonneg es). destruct Hs as [Hs|(c & Hc & Hne)]; [lia|].
    destruct Hne. apply (Hno O e c eq_refl). by rewrite Z.add_0_r.
Qed.

Lemma at_entry_fields m e :
  at_entry m e -> entry_term m = e_term e /\ entry_flags m = e_flags e /\ view_entry m = e /\
    take (Z.to_nat (entry_data_len m)) (entry_data m) = e_data e /\ entry_intact m = true.
Proof.
  intros (rest & -> & Hok). rewrite entry_term_enc, entry_flags_enc, view_enc_entry by done.
  rewrite entry_data_len_enc, entry_data_enc by done. split_and!; [done..| |].
  - unfold zlen. by rewrite Nat2Z.id, take_app_length.
  - unfold entry_intact. rewrite entry_crc_enc, entry_len_enc by done. pose proof (entry_size_u32 e Hok).
    pose proof (entry_size_min e). unfold ENTRY_HEADER_SIZE, ENTRY_CRC_LEN in *. rewrite u32_small by lia.
    apply Z.eqb_eq. f_equal. unfold enc_entry. rewrite <- app_assoc, (at_off_app _ _ 4) by apply zlen_le_split.
    symmetry. apply mread_app_l, zlen_enc_body.
Qed.

(** A finished snapshot keeps the end of the log. *)
Lemma trimmed_log s s' :
  trimmed s s' ->
  (s_ss_inprogress s = true -> l_prev (s_log s) <= ss_latest_index (s_ss s) <= last_index (s_log s)) ->
  last_index (s_log s') = last_index (s_log s) /\ l_prev (s_log s) <= l_prev (s_log s') /\
  (forall j, l_prev (s_log s') < j -> log_entry (s_log s') j = log_entry (s_log s) j) /\
  (s_ss_inprogress s' = true -> s_log s' = s_log s).
Proof.
  intros [->|(t & P & P' & ->)] Hb; [split_and!; auto; lia|]. specialize (Hb P).
  rewrite last_taken by done. split_and!; [done|cbn; lia| |congruence].
  intros j Hj. rewrite log_entry_taken by done. cbn in Hj. by rewrite (proj2 (Z.ltb_lt _ _) Hj).
Qed.

(** One entry is appended to a log that ends in front of it. *)
Lemma store_put_appends s s1 s2 index m e :
  at_entry m e -> 0 <= l_prev (s_log s) -> last_index (s_log s) + 1 < 2 ^ 64 ->
  (s_ss_inprogress s = true -> l_prev (s_log s) <= ss_latest_index (s_ss s) <= last_index (s_log s)) ->
  store_meta m s = Some ((), s1) -> store_put CREATE_FUEL index m s1 = Some (RS_OK, s2) ->
  last_index (s_log s) = index - 1 /\ last_index (s_log s2) = index /\
  l_prev (s_log s) <= l_prev (s_log s2) /\ calm_ss s s2 /\
  (forall j, l_prev (s_log s2) < j < index -> log_entry (s_log s2) j = log_entry (s_log s) j) /\
  log_entry (s_log s2) index = Some e /\
  (s_ss_inprogress s2 = true -> l_prev (s_log s2) = l_prev (s_log s)).
Proof.
  intros Hm H0 H64 Hfit Hmeta Hput. destruct (at_entry_fields m e Hm) as (_ & _ & Hv & _).
  apply store_meta_log in Hmeta as [L1 C1]. apply store_put_spec in Hput as (s1' & T & C & Hidx & L2 & C2).
  rewrite Hv in L2. destruct (trimmed_log _ _ T) as (TL & TP & TE & TS).
  { intros Hprog. rewrite L1, (cs_latest _ _ C1). by apply Hfit, (cs_prog _ _ C1). }
  rewrite L1 in *. rewrite TL in Hidx. pose proof (zlen_nonneg (l_entries (s_log s))) as Hz.
  rewrite u64_small in Hidx by (unfold last_index in *; lia).
  rewrite L2, last_append, TL. split_and!; [lia|lia|done| | | |].
  - by eapply calm_ss_trans, calm_ss_trans.
  - intros j Hj. rewrite log_entry_append, TL. case_if; [lia|]. apply TE. cbn in Hj. lia.
  - rewrite log_entry_append, TL. case_if; [done|lia].
  - intros Hprog. cbn. by rewrite TS by (by apply (cs_prog _ _ C2)).
Qed.

Record ready (s : server) (index : Z) (es : list entry) : Prop := {
  rd_pos : 1 <= index <= last_index (s_log s) + 1;
  rd_prev : 0 <= l_prev (s_log s);
  rd_64 : index + zlen es < 2 ^ 64;
  rd_last : last_index (s_log s) + 1 < 2 ^ 64;
  rd_ss : snapshot_agrees s index es
}.

(** The log when an entry at [index] is put: nothing is there, or what differs was removed. *)
Definition cleared (s : server) (index : Z) (e : entry) (s0 : server) : Prop :=
  calm_ss s s0 /\
  ((s_log s0 = s_log s /\ log_entry (s_log s) index = None) \/
   exists c, log_entry (s_log s) index = Some c /\ e_term c <> e_term e /\
     s_log s0 = log_remove_after (s_log s) (index - 1)).

Lemma agrees_below s index e es :
  snapshot_agrees s index (e :: es) -> s_ss_inprogress s = true ->
  (forall c, log_entry (s_log s) index = Some c -> e_term c <> e_term e) -> ss_latest_index (s_ss s) < index.
Proof.
  intros Ha Hp Hne. destruct (Ha Hp) as [_ Hc]. destruct (Z.lt_ge_cases (ss_latest_index (s_ss s)) index); [done|].
  destruct (Hc O e eq_refl) as (c & E & Ht); [lia|]. rewrite Z.add_0_r in E. by destruct (Hne c E).
Qed.

Lemma cleared_log s index e es s0 :
  ready s index (e :: es) -> cleared s index e s0 ->
  l_prev (s_log s0) = l_prev (s_log s) /\ last_index (s_log s0) + 1 < 2 ^ 64 /\
  (forall j, j < index -> log_entry (s_log s0) j = log_entry (s_log s) j) /\
  (s_ss_inprogress s0 = true ->
   l_prev (s_log s0) <= ss_latest_index (s_ss s0) <= last_index (s_log s0) /\ ss_latest_index (s_ss s0) < index).
Proof.
  intros [Hi Hp H64 Hl Ha] [C Hs].
  assert (Hb : s_ss_inprogress s0 = true -> l_prev (s_log s) <= ss_latest_index (s_ss s0) <= last_index (s_log s) /\
    ss_latest_index (s_ss s0) < index).
  { intros Hprog%(cs_prog _ _ C). rewrite (cs_latest _ _ C). split; [apply Ha; done|].
    eapply agrees_below; [done..|]. destruct Hs as [(_ & En)|(c & Hc & Ht & _)]; congruence. }
  destruct Hs as [(-> & _)|(c & Hc & Ht & ->)]; [split_and!; auto; lia|].
  apply log_entry_range in Hc. rewrite last_remove by lia. split_and!; [done|lia| |].
  - intros j Hj. rewrite log_entry_remove by lia. by rewrite (proj2 (Z.leb_le _ _)) by lia.
  - intros Hprog. destruct (Hb Hprog). cbn. lia.
Qed.

Lemma store_put_next s s0 s1 s2 index m e es :
  ready s index (e :: es) -> cleared s index e s0 -> at_entry m e ->
  store_meta m s0 = Some ((), s1) -> store_put CREATE_FUEL index m s1 = Some (RS_OK, s2) ->
  ready s2 (index + 1) es /\ forall s', merged s2 (index + 1) es s' -> merged s index (e :: es) s'.
Proof.
  intros Hr Hc Hm Hmeta Hput. destruct (cleared_log _ _ _ _ _ Hr Hc) as (P0 & H64 & E0 & F0).
  destruct Hr as [Hi Hp Hz Hl Ha]. rewrite zlen_cons in Hz. pose proof (zlen_nonneg es) as Hn.
  destruct (store_put_appends s0 s1 s2 index m e Hm) as (L0 & L2 & P2 & C2 & B2 & E2 & F2); try done; [lia| |].
  { intros Hprog. by destruct (F0 Hprog). }
  split.
  - split; [lia|lia|lia|lia|]. intros Hprog. rewrite (F2 Hprog), (cs_latest _ _ C2).
    destruct (F0 (cs_prog _ _ C2 Hprog)). split; [lia|]. intros i e' _ Hle. lia.
  - intros s' Hmg. eapply (merged_put s index e es s2); try done; [lia| |].
    + intros j Hj. rewrite B2, E0 by lia. done.
    + destruct Hc as [_ [(E & _)|(c & Hc & Ht & _)]]; [left; rewrite <- E; lia|right; eauto].
Qed.

Lemma store_loop_merges ms : forall s index es s',
  Forall2 at_entry ms es -> ready s index es -> store_loop index ms s = Some (RS_OK, s') -> merged s index es s'.
Proof.
  induction ms as [|m ms IH]; intros s index es s' Hms Hr; inversion Hms as [|? e ? es' Hm Hms']; subst.
  - intros [= <-]. split; auto; try lia; [by intros [] ? [=]|]. destruct Hr. change (zlen []) with 0. lia.
  - cbn [store_loop]. unfold mbind, runM_bind, peek. destruct (at_entry_fields m e Hm) as (Ht & _).
    pose proof Hr as [Hi Hp Hz Hl Ha]. pose proof Hz as Hz'. rewrite zlen_cons in Hz'. pose proof (zlen_nonneg es').
    rewrite !(u64_small (index + 1)) by lia.
    assert (Hput : forall s0, cleared s index e s0 ->
      match store_meta m s0 with
      | Some (_, s) => match store_put CREATE_FUEL index m s with
                       | Some (rc, s) => and_then rc (store_loop (index + 1) ms) s
                       | None => None end
      | None => None end = Some (RS_OK, s') -> merged s index (e :: es') s').
    { intros s0 Hc. destruct (store_meta m s0) as [[[] s1]|] eqn:E1; [|done].
      destruct (store_put _ _ _ s1) as [[rc s2]|] eqn:E2; [|done]. unfold and_then. destruct (decide _) as [->|]; [|by intros [=]].
      destruct (store_put_next s s0 s1 s2 index m e es') as [R2 M2]; try done. intros H2. by eapply M2, IH. }
    destruct (log_entry (s_log s) index) as [c|] eqn:Ec.
    + destruct (Z.eqb_spec (e_term c) (entry_term m)) as [Et|Et].
      * intros H2. eapply merged_skip; [done|congruence|]. eapply IH; [done| |done].
        apply log_entry_range in Ec as ?. split; [lia|lia|lia|lia|]. intros Hprog. destruct (Ha Hprog) as [Hb Hc].
        split; [done|]. intros i e' He Hle.
        replace (index + 1 + Z.of_nat i) with (index + Z.of_nat (S i)) in * by lia. by apply Hc.
      * destruct (store_conflict index s) as [[[] s0]|] eqn:E0; [|done]. apply Hput.
        apply store_conflict_log in E0 as [E0 C0]. rewrite u64_small in E0 by lia. split; [done|]. right. exists c.
        split_and!; [done|congruence|done].
    + apply Hput. split; [apply calm_ss_refl|]. by left.
Qed.

Lemma entry_foreach_enc es : forall fuel,
  Forall entry_ok es -> (length (enc_entries es) < fuel)%nat ->
  exists ms, entry_foreach fuel (enc_entries es) = Some ms /\ Forall2 at_entry ms es.
Proof.
  induction es as [|e es IH]; intros [|fuel] Hok Hf; try lia; [by exists []|].
  apply Forall_cons in Hok as [He Hes]. cbn [entry_foreach].
  change (enc_entries (e :: es)) with (enc_entry e ++ enc_entries es) in *. pose proof (entry_size_min e) as Hmin.
  unfold ENTRY_HEADER_SIZE in Hmin. pose proof (zlen_enc_entry e) as Hz. pose proof (zlen_nonneg (enc_entries es)).
  rewrite entry_len_enc by done. rewrite bool_decide_eq_false_2.
  2: { intros [E _]%app_nil. rewrite E in Hz. change (zlen []) with 0 in Hz. lia. }
  rewrite zlen_app, Hz. unfold ENTRY_HEADER_SIZE.
  rewrite (proj2 (Z.ltb_ge _ 36)), (proj2 (Z.ltb_ge _ (entry_size e))), (proj2 (Z.eqb_neq (entry_size e) 0)) by lia.
  cbn [orb]. rewrite at_off_app by done. destruct (IH fuel Hes) as (ms & -> & Hms).
  { rewrite length_app in Hf. unfold zlen in Hz. lia. }
  eexists. split; [done|]. constructor; [by eexists|done].
Qed.

Lemma server_store_entries_loop index es :
  Forall entry_ok es ->
  exists ms, Forall2 at_entry ms es /\ server_store_entries index (enc_entries es) = store_loop index ms.
Proof.
  intros Hok. unfold server_store_entries.
  destruct (entry_foreach_enc es (S (length (enc_entries es))) Hok) as (ms & -> & Hms); [lia|]. eauto.
Qed.
End replicate.

Lemma store_entries_merged io s index es s' :
  Forall entry_ok es -> ready s index es ->
  server_store_entries io index (enc_entries es) s = Some (RS_OK, s') -> merged s index es s'.
Proof.
  intros Hok Hr. destruct (server_store_entries_loop io index es Hok) as (ms & Hms & ->). by apply store_loop_merges.
Qed.

(** ** Storing returns when the disk works *)

(** Terms do not decrease from one entry to the next. *)
Fixpoint ascending (term : Z) (es : list entry) : Prop :=
  match es with
  | [] => True
  | e :: es => term <= e_term e /\ ascending (e_term e) es
  end.

(** The configurations in a list of entries can be read. *)
Definition metas_ok (es : list entry) : Prop :=
  Forall (fun e => e_flags e = CMD_META -> meta_replace (length (e_data e)) (e_data e) <> None) es.

Lemma log_prev_term_last l k :
  l_prev l <= k <= last_index l -> last_term (log_remove_after l k) = log_prev_term l k.
Proof.
  intros H. unfold log_prev_term. destruct (log_entry l k) as [c|] eqn:E.
  - apply log_entry_range in E as Hr. unfold last_term, log_remove_after. cbn [l_ss_term l_entries]. unfold last_term_of.
    unfold log_entry, log_at in E. cbn [fst snd] in E. destruct (_ && _); [|done].
    replace (Z.to_nat (k - l_prev l)) with (S (Z.to_nat (k - l_prev l - 1))) by lia.
    by rewrite (take_S_r _ _ _ E), last_snoc.
  - assert (k = l_prev l) as ->; [|unfold last_term, log_remove_after; by rewrite Z.sub_diag].
    destruct (Z.eq_dec k (l_prev l)); [done|]. apply log_entry_none in E; lia.
Qed.

Lemma log_remove_all l : log_remove_after l (last_index l) = l.
Proof.
  unfold log_remove_after, last_index, zlen. rewrite take_ge by lia. by destruct l.
Qed.

Section works.
Variable io : nat -> answer.
Hypothesis disk_ok : forall k, a_rc (io k) = RS_OK.

Lemma store_put_works s index m e :
  at_entry m e -> 0 <= last_index (s_log s) -> last_index (s_log s) + 1 < 2 ^ 64 -> index = last_index (s_log s) + 1 ->
  last_term (s_log s) <= e_term e ->
  exists s', store_put io CREATE_FUEL index m s = Some (RS_OK, s') /\ s_log s' = log_append (s_log s) e.
Proof.
  intros Hm H0 H64 -> Ht. destruct (at_entry_fields m e Hm) as (T & _ & V & _ & I).
  cbn [store_put CREATE_FUEL]. unfold mbind, runM_bind, peek, calls, poke, mret, runM_ret, ask.
  rewrite T, u64_small, Z.eqb_refl, (proj2 (Z.leb_le _ _) Ht) by lia. cbn [negb orb]. rewrite disk_ok, I, V.
  by eexists.
Qed.

Lemma store_meta_works s m e :
  at_entry m e -> metas_ok [e] -> exists s', store_meta m s = Some ((), s') /\ s_log s' = s_log s.
Proof.
  intros Hm [Hmeta _]%Forall_cons. destruct (at_entry_fields m e Hm) as (_ & F & _ & D & _).
  destruct (store_meta m s) as [[[] s']|] eqn:E; [exists s'; split; [done|by apply store_meta_log in E as []]|].
  unfold store_meta in E. rewrite F, D in E. destruct (Z.eqb_spec (e_flags e) CMD_META) as [Ef|]; [|done].
  specialize (Hmeta Ef). by destruct (meta_replace _ _).
Qed.

Lemma store_loop_appends ms : forall s index es,
  Forall2 at_entry ms es -> metas_ok es -> ascending (last_term (s_log s)) es ->
  0 <= last_index (s_log s) -> index = last_index (s_log s) + 1 -> index + zlen es < 2 ^ 64 ->
  exists s', store_loop io index ms s = Some (RS_OK, s').
Proof.
  induction ms as [|m ms IH]; intros s index es Hms Hok Ha H0 Hi H64;
    inversion Hms as [|? e ? es' Hm Hms']; subst; [by eexists|].
  apply Forall_cons in Hok as [Hok1 Hok2]. destruct Ha as [Ha1 Ha2]. rewrite zlen_cons in H64.
  pose proof (zlen_nonneg es'). cbn [store_loop]. unfold mbind, runM_bind, peek.
  destruct (log_entry _ (last_index (s_log s) + 1)) as [c|] eqn:Ec; [apply log_entry_range in Ec; lia|].
  destruct (store_meta_works s m e Hm) as (s1 & -> & L1); [by constructor|].
  destruct (store_put_works s1 (last_index (s_log s) + 1) m e Hm) as (s2 & -> & L2); rewrite ?L1; try done; [lia|].
  unfold and_then. destruct (decide _); [|done]. rewrite u64_small by lia. apply (IH s2 _ es'); rewrite ?L2, ?L1; try done.
  - unfold last_term, log_append. cbn [l_ss_term l_entries]. by rewrite last_term_snoc.
  - rewrite last_append. lia.
  - rewrite last_append. lia.
  - lia.
Qed.

Lemma store_loop_works ms : forall s index es,
  Forall2 at_entry ms es -> metas_ok es -> (forall k, meta_rollback (s_meta s) k <> None) ->
  0 <= l_prev (s_log s) < index -> index <= last_index (s_log s) + 1 -> index + zlen es < 2 ^ 64 ->
  ascending (log_prev_term (s_log s) (index - 1)) es ->
  exists s', store_loop io index ms s = Some (RS_OK, s').
Proof.
  induction ms as [|m ms IH]; intros s index es Hms Hok Hroll Hp Hi H64 Ha;
    [by eexists|]. pose proof Hms as Hall. inversion Hms as [|? e ? es' Hm Hms']; subst.
  pose proof H64 as H64'. rewrite zlen_cons in H64'. pose proof (zlen_nonneg es').
  destruct (log_entry (s_log s) index) as [c|] eqn:Ec.
  2: { assert (Hl : index = last_index (s_log s) + 1) by (apply log_entry_none in Ec; lia).
       apply (store_loop_appends (m :: ms) s index (e :: es')); try done; [|lia].
       rewrite <- (log_remove_all (s_log s)), log_prev_term_last by lia. by replace (last_index _) with (index - 1) by lia. }
  apply log_entry_range in Ec as Hr. destruct (at_entry_fields m e Hm) as (T & _).
  destruct (Z.eq_dec (e_term c) (e_term e)) as [Et|Et].
  - cbn [store_loop]. unfold mbind, runM_bind, peek. rewrite Ec, T, Et, Z.eqb_refl, u64_small by lia.
    apply (IH s (index + 1) es'); try done; try lia; [by apply Forall_cons in Hok as []|].
    replace (index + 1 - 1) with index by lia. unfold log_prev_term. rewrite Ec, Et. apply Ha.
  - destruct (store_conflict index s) as [[[] s0]|] eqn:E0.
    + apply store_conflict_log in E0 as E1. destruct E1 as [E1 _]. rewrite u64_small in E1 by lia.
      assert (L0 : last_index (s_log s0) = index - 1) by (rewrite E1; apply last_remove; lia).
      destruct (store_loop_appends (m :: ms) s0 index (e :: es')) as [s' Hs']; try done; try lia.
      { rewrite E1, log_prev_term_last by lia. done. }
      exists s'. rewrite <- Hs'. cbn [store_loop]. unfold mbind, runM_bind, peek. rewrite Ec, T, (proj2 (Z.eqb_neq _ _) Et), E0.
      destruct (log_entry (s_log s0) index) as [c0|] eqn:Ec0; [apply log_entry_range in Ec0; lia|done].
    + exfalso. unfold store_conflict, mbind, runM_bind, poke, peek in E0.
      specialize (Hroll (index -₆₄ 1)). change (s_meta (set_log s ?l)) with (s_meta s) in E0. by destruct (meta_rollback _ _).
Qed.
End works.

Lemma store_entries_works io s index es :
  (forall k, a_rc (io k) = RS_OK) ->
  Forall entry_ok es -> metas_ok es -> (forall k, meta_rollback (s_meta s) k <> None) ->
  ready s index es -> l_prev (s_log s) < index -> ascending (log_prev_term (s_log s) (index - 1)) es ->
  exists s', server_store_entries io index (enc_entries es) s = Some (RS_OK, s').
Proof.
  intros Hio Hok Hmeta Hroll Hr Hp Ha. destruct (server_store_entries_loop io index es Hok) as (ms & Hms & ->).
  pose proof Hr as [Hi H0 H64 Hl _]. by apply (store_loop_works io Hio ms s index es); try done; try lia.
Qed.


Definition storing_log : rlog :=
  mk_rlog 0 [mk_entry 1 0 0 CMD_LOG []; mk_entry 1 0 0 CMD_LOG [x61]; mk_entry 2 0 0 CMD_LOG [x62]] 0 0.
Definition storing_server : server := trio_server 1 storing_log.
Definition stored_entries : list entry := [mk_entry 1 0 0 CMD_LOG [x61]; mk_entry 3 0 0 CMD_LOG [x63]].

Lemma stored_entries_ok : Forall entry_ok stored_entries /\ ready storing_server 2 stored_entries.
Proof.
  split; [apply (bool_decide_eq_true_1 _); vm_compute; reflexivity|].
  split; try done; vm_compute; split; discriminate.
Qed.


(** ** The index of a majority *)

Section sorting.
Variable key : Z -> Z.

Lemma sort_insert_perm x l : sort_insert key x l ≡ₚ x :: l.
Proof.
  induction l as [|y l IH]; [done|]. cbn [sort_insert]. case_if; [done|]. rewrite IH. constructor.
Qed.

Lemma sort_nodes_perm l : sort_nodes key l ≡ₚ l.
Proof. induction l as [|x l IH]; [done|]. cbn. by rewrite sort_insert_perm, IH. Qed.

Abbreviation descending := (StronglySorted (fun x y => key y <= key x)).

Lemma sort_insert_sorted x l : descending l -> descending (sort_insert key x l).
Proof.
  induction 1 as [|y l Hs IH Hf]; [repeat constructor|]. cbn [sort_insert]. case_if.
  - constructor; [by constructor|]. constructor; [lia|]. eapply Forall_impl; [done|]. cbn. lia.
  - constructor; [done|]. rewrite sort_insert_perm. constructor; [lia|done].
Qed.

Lemma sort_nodes_sorted l : descending (sort_nodes key l).
Proof. induction l; [constructor|]. by apply sort_insert_sorted. Qed.

(** How many have reached [m]. *)
Definition reached (m : Z) (l : list Z) : nat := length (filter (fun n => m <= key n) l).

Lemma reached_perm m l l' : l ≡ₚ l' -> reached m l = reached m l'.
Proof. unfold reached. intros ->. done. Qed.

(** Position [k] of the sorted list is the largest index that [k + 1] have reached. *)
Lemma sorted_nth l k x :
  descending l -> l !! k = Some x ->
  (k < reached (key x) l)%nat /\ forall m, key x < m -> (reached m l <= k)%nat.
Proof.
  intros Hs. revert k. induction Hs as [|y l Hs IH Hf]; intros k; [done|]. unfold reached in *.
  destruct k as [|k]; cbn [lookup list_lookup].
  - intros [= ->]. rewrite filter_cons_True by lia. split; [cbn; lia|]. intros m Hm.
    rewrite filter_cons_False by lia. clear - Hf Hm. induction Hf; [done|]. by rewrite filter_cons_False by lia.
  - intros Hx. destruct (IH k Hx) as [I1 I2]. eapply Forall_lookup_1 in Hf as Hy; [|exact Hx]. cbn in Hy.
    rewrite filter_cons_True by lia. cbn [length]. split; [lia|]. intros m Hm. specialize (I2 m Hm).
    destruct (decide (m <= key y)); [rewrite filter_cons_True by done|rewrite filter_cons_False by done]; cbn [length]; lia.
Qed.

Lemma sort_nodes_nth l k x :
  sort_nodes key l !! k = Some x ->
  (k < reached (key x) l)%nat /\ forall m, key x < m -> (reached m l <= k)%nat.
Proof.
  intros H. destruct (sorted_nth _ k x (sort_nodes_sorted l) H) as [H1 H2].
  rewrite (reached_perm _ _ _ (sort_nodes_perm l)) in H1. split; [done|]. intros m Hm.
  rewrite <- (reached_perm _ _ _ (sort_nodes_perm l)). auto.
Qed.
End sorting.

Lemma reached_cons key m x l : reached key m (x :: l) = ((if bool_decide (m <= key x)%Z then 1 else 0) + reached key m l)%nat.
Proof.
  unfold reached. destruct (bool_decide_reflect (m <= key x));
    [by rewrite filter_cons_True by done|by rewrite filter_cons_False by done].
Qed.

Lemma reached_le key key' m m' l :
  m' <= m -> (forall n, n ∈ l -> key n <= key' n) -> (reached key m l <= reached key' m' l)%nat.
Proof.
  intros Hm. induction l as [|x l IH]; intros H; [done|]. rewrite !reached_cons.
  assert (Hx : key x <= key' x) by (apply H; by left). specialize (IH ltac:(intros n Hn; apply H; by right)).
  destruct (bool_decide_reflect (m <= key x)), (bool_decide_reflect (m' <= key' x)); lia.
Qed.

Lemma reached_all key m l : (forall n, n ∈ l -> m <= key n) -> reached key m l = length l.
Proof.
  induction l as [|x l IH]; intros H; [done|]. rewrite reached_cons, IH by (intros; apply H; by right).
  rewrite bool_decide_eq_true_2 by (apply H; by left). done.
Qed.

Lemma reached_ext key key' m l : (forall n, key n = key' n) -> reached key m l = reached key' m l.
Proof. intros H. apply Nat.le_antisymm; apply reached_le; intros; rewrite ?H; lia. Qed.

Lemma node_at_set s a x n : node_at (set_node s a x) n = if decide (n = a) then x else node_at s n.
Proof.
  unfold node_at. cbn. destruct (decide (n = a)) as [->|]; [by rewrite lookup_insert_eq|by rewrite lookup_insert_ne].
Qed.

Lemma match_at_spec key s index :
  (forall n, n_match (node_at s n) = key n) -> 0 <= index < zlen (s_nodes s) ->
  exists m, match_at index s = Some (m, server_sort_matches s) /\
    index < Z.of_nat (reached key m (s_nodes s)) /\
    forall m', m < m' -> Z.of_nat (reached key m' (s_nodes s)) <= index.
Proof.
  intros Hkey Hi. unfold match_at, mbind, runM_bind, poke, peek, node_nth, zlen in *.
  change (s_nodes (server_sort_matches s)) with (sort_nodes (fun n => n_match (node_at s n)) (s_nodes s)).
  destruct (lookup_lt_is_Some_2 (sort_nodes (fun n => n_match (node_at s n)) (s_nodes s)) (Z.to_nat index)) as [n Hn].
  { rewrite sort_nodes_perm. lia. }
  rewrite Hn. eexists. split; [reflexivity|]. destruct (sort_nodes_nth _ _ _ _ Hn) as [H1 H2].
  rewrite (reached_ext _ key) in H1 by done. change (node_at (server_sort_matches s) n) with (node_at s n).
  split; [lia|]. intros m' Hm'. apply H2 in Hm'. rewrite (reached_ext _ key) in Hm' by done. lia.
Qed.

(** How far the log of a node is known to reach; the own log counts in full. *)
Definition reach (s : server) (n : Z) : Z :=
  if s_in_cluster s && bool_decide (n = s_own s) then last_index (s_log s) else n_match (node_at s n).

Lemma reach_ge s n : n_match (node_at s (s_own s)) <= last_index (s_log s) -> n_match (node_at s n) <= reach s n.
Proof. unfold reach. intros H. case_if; [|done]. zb. apply bool_decide_eq_true_1 in H1 as ->. done. Qed.

Lemma reach_settled s :
  s_in_cluster s && negb (n_match (node_at s (s_own s)) =? last_index (s_log s)) = false ->
  forall n, n_match (node_at s n) = reach s n.
Proof.
  intros Eb n. unfold reach. destruct (s_in_cluster s); [|done]. cbn [andb] in *. zb.
  destruct (bool_decide_reflect (n = s_own s)) as [->|]; [lia|done].
Qed.

Lemma commit_index_spec s :
  0 <= m_voter (s_meta s) -> m_voter (s_meta s) / 2 < zlen (s_nodes s) ->
  n_match (node_at s (s_own s)) <= last_index (s_log s) ->
  exists m s', commit_index s = Some (m, s') /\
    m_voter (s_meta s) / 2 < Z.of_nat (reached (reach s) m (s_nodes s)) /\
    forall m', m < m' -> Z.of_nat (reached (reach s) m' (s_nodes s)) <= m_voter (s_meta s) / 2.
Proof.
  intros Hv Hlen Hown. pose proof (Z.div_pos (m_voter (s_meta s)) 2 Hv ltac:(lia)) as Hk.
  unfold commit_index, mbind, runM_bind, peek, poke, mret, runM_ret. set (k := m_voter (s_meta s) / 2) in *.
  set (s1 := set_node s (s_own s) _).
  destruct (match_at_spec (fun n => n_match (node_at s n)) s1 k) as (m0 & E1 & R1 & M1); [|done|].
  { intros n. unfold s1. rewrite node_at_set. by destruct (decide _) as [->|]. }
  rewrite E1. cbv beta iota. change (s_nodes s1) with (s_nodes s) in *. set (s2 := server_sort_matches s1).
  assert (Eo : n_match (node_at s2 (s_own s2)) = n_match (node_at s (s_own s))).
  { change (node_at s2 (s_own s2)) with (node_at s1 (s_own s)). unfold s1. rewrite node_at_set. by destruct (decide _). }
  rewrite Eo. change (s_in_cluster s2) with (s_in_cluster s). change (s_log s2) with (s_log s).
  destruct (s_in_cluster s && negb _) eqn:Eb.
  2: { exists m0, s2. split; [done|].
       pose proof (reach_settled s Eb) as Hr.
       rewrite (reached_ext _ (reach s)) in R1 by done. split; [done|]. intros m' Hm'. apply M1 in Hm'.
       by rewrite (reached_ext _ (reach s)) in Hm' by done. }
  apply andb_true_iff in Eb as [Ein _]. set (s3 := set_node s2 (s_own s2) _).
  assert (P3 : s_nodes s3 ≡ₚ s_nodes s) by (apply sort_nodes_perm).
  destruct (match_at_spec (reach s) s3 k) as (m & E3 & R3 & M3).
  { intros x. unfold s3, reach. rewrite node_at_set, Ein. cbn [andb]. change (s_own s2) with (s_own s).
    destruct (decide _); [by rewrite bool_decide_eq_true_2 by done|rewrite bool_decide_eq_false_2 by done].
    change (node_at s2 x) with (node_at s1 x). unfold s1. rewrite node_at_set. by destruct (decide _). }
  { unfold zlen. by rewrite P3. }
  rewrite E3. rewrite (reached_perm _ _ _ _ P3) in R3.
  assert (M3' : forall m', m < m' -> Z.of_nat (reached (reach s) m' (s_nodes s)) <= k).
  { intros m' Hm'. rewrite <- (reached_perm _ _ _ _ P3). auto. }
  destruct (m >? m0) eqn:Em; zb; eexists _, _; (split; [reflexivity|]); [done|]. split.
  - eapply Z.lt_le_trans; [exact R1|]. apply inj_le, reached_le; [lia|]. intros. by apply reach_ge.
  - intros m' Hm'. apply M3'. lia.
Qed.

(** C13: the index a leader commits is the largest one that a majority of the voters has
    reached: more than half of the voters are at or beyond it, and no larger index has that
    property. *)
Theorem commit_index_majority s :
  0 <= m_voter (s_meta s) -> m_voter (s_meta s) / 2 < zlen (s_nodes s) ->
  n_match (node_at s (s_own s)) <= last_index (s_log s) ->
  exists m s', commit_index s = Some (m, s') /\
    m_voter (s_meta s) / 2 < Z.of_nat (reached (reach s) m (s_nodes s)) /\
    forall m', m < m' -> Z.of_nat (reached (reach s) m' (s_nodes s)) <= m_voter (s_meta s) / 2.
Proof. apply commit_index_spec. Qed.

Definition settled_server : server :=
  set_node (set_node (trio_server 1 storing_log) 2 (node_update_indexes (node_create (trio_name 2)) 0 2))
    3 (node_update_indexes (node_create (trio_name 3)) 0 1).

Lemma commit_index_majority_witness :
  fst <$> commit_index settled_server = Some 2 /\
  exists m s', commit_index settled_server = Some (m, s') /\
    1 < Z.of_nat (reached (reach settled_server) m [1; 2; 3]) /\
    forall m', m < m' -> Z.of_nat (reached (reach settled_server) m' [1; 2; 3]) <= 1.
Proof.
  split; [vm_compute; reflexivity|].
  exact (commit_index_majority settled_server ltac:(vm_compute; discriminate) ltac:(vm_compute; reflexivity)
    ltac:(vm_compute; discriminate)).
Defined.

(** ** A new leader *)

Lemma node_at_clear_all ns : forall s,
  s_log (clear_all s ns) = s_log s /\ s_nodes (clear_all s ns) = s_nodes s /\
  s_unknown_nodes (clear_all s ns) = s_unknown_nodes s /\
  forall n, n_match (node_at (clear_all s ns) n) =
    if decide (n ∈ ns) then last_index (s_log s) else n_match (node_at s n).
Proof.
  induction ns as [|a ns IH]; intros s; [done|]. cbn [clear_all foldl].
  set (s1 := set_node s a _). destruct (IH s1) as (L & N & U & K). fold (clear_all s1 ns).
  split_and!; [done..|]. intros n. rewrite K. change (s_log s1) with (s_log s). unfold s1. rewrite node_at_set.
  destruct (decide (n ∈ ns)), (decide (n ∈ a :: ns)), (decide (n = a)); try done; rewrite elem_of_cons in *; tauto.
Qed.

Lemma write_cmds_peers io s :
  s_peers_ (snd (server_write_init_cmd io s)) = s_peers_ s /\
  s_peers_ (snd (server_write_meta_cmd io s)) = s_peers_ s /\
  s_peers_ (snd (server_write_term_start_cmd io s)) = s_peers_ s.
Proof.
  unfold server_write_init_cmd, server_write_meta_cmd, server_write_term_start_cmd, ask. cbv zeta beta iota.
  split_and!; [destruct (negb _); [done|]|..]; by rewrite (q_peers _ _ (create_quiet _ _ _ _ _ _ _ _)).
Qed.

Lemma become_leader_matches io s :
  let s' := snd (server_become_leader io s) in
  s_nodes s' = s_nodes s /\ forall n, n ∈ s_nodes s -> n_match (node_at s' n) = last_index (s_log s).
Proof.
  unfold server_become_leader. set (s0 := set_leader _ _).
  destruct (node_at_clear_all (s_nodes s0) s0) as (L1 & N1 & U1 & K1). set (s1 := clear_all s0 (s_nodes s0)) in *.
  destruct (node_at_clear_all (s_unknown_nodes s1) s1) as (L2 & N2 & U2 & K2).
  set (s2 := clear_all s1 (s_unknown_nodes s1)) in *.
  enough (H : s_peers_ (snd (let '(rc, s) := if last_index (s_log s2) =? 0 then server_write_init_cmd io s2 else (RS_OK, s2) in
    if negb (bool_decide (rc = RS_OK)) then (rc, s)
    else let '(rc, s) := server_write_meta_cmd io s in
         if negb (bool_decide (rc = RS_OK)) then (rc, s) else server_write_term_start_cmd io s)) = s_peers_ s2).
  { cbv zeta. unfold node_at. rewrite H. split; [by rewrite N2|]. intros n Hn.
    change (n_match (node_at s2 n) = last_index (s_log s)). rewrite K2, L1, K1.
    destruct (decide _); [done|]. by rewrite decide_True. }
  assert (H : s_peers_ (snd (if last_index (s_log s2) =? 0 then server_write_init_cmd io s2 else (RS_OK, s2))) = s_peers_ s2)
    by (case_if; [apply write_cmds_peers|done]).
  destruct (if last_index (s_log s2) =? 0 then _ else _) as [rc s3]. cbn [snd] in H. rewrite <- H. destruct (negb _); [done|].
  pose proof (write_cmds_peers io s3) as (_ & H3 & _). destruct (server_write_meta_cmd io s3) as [rc4 s4]. cbn [snd] in H3.
  rewrite <- H3. destruct (negb _); [done|]. apply write_cmds_peers.
Qed.

(** C35: a defect.  A new leader assumes of every member that its log matches the own one up
    to the last index, so the first index it commits covers all entries of earlier terms in
    its log although no member has confirmed any of them. *)
Theorem new_leader_commits_unconfirmed io s s' :
  server_become_leader io s = (RS_OK, s') ->
  last_index (s_log s) <= last_index (s_log s') ->
  0 <= m_voter (s_meta s') -> m_voter (s_meta s') / 2 < zlen (s_nodes s) -> s_own s' ∈ s_nodes s ->
  exists m s'', commit_index s' = Some (m, s'') /\ last_index (s_log s) <= m.
Proof.
  intros E Hl Hv Hlen Hown. pose proof (become_leader_matches io s) as [N K]. rewrite E in N, K. cbn [snd] in N, K.
  destruct (commit_index_spec s' Hv) as (m & s'' & Ec & _ & Hm); [by rewrite N|by rewrite K|].
  exists m, s''. split; [done|]. destruct (Z.le_gt_cases (last_index (s_log s)) m); [done|]. exfalso.
  specialize (Hm (last_index (s_log s)) ltac:(lia)). rewrite N, reached_all in Hm; [unfold zlen in Hlen; lia|].
  intros n Hn. rewrite <- (K n Hn). apply reach_ge. by rewrite K.
Qed.

Definition elected_server : server := trio_server 1 storing_log.

Lemma new_leader_commits_unconfirmed_witness :
  exists s' m s'', server_become_leader all_ok elected_server = (RS_OK, s') /\
    commit_index s' = Some (m, s'') /\ 3 <= m.
Proof.
  assert (Hc : let '(rc, s') := server_become_leader all_ok elected_server in
    bool_decide (rc = RS_OK) && (last_index (s_log elected_server) <=? last_index (s_log s')) &&
    (m_voter (s_meta s') =? 3) && (s_own s' =? 1) = true) by (vm_compute; reflexivity).
  destruct (server_become_leader all_ok elected_server) as [rc s'] eqn:E.
  apply andb_true_iff in Hc as [[[Hrc%bool_decide_eq_true_1 Hl%Z.leb_le]%andb_true_iff Hv%Z.eqb_eq]%andb_true_iff Ho%Z.eqb_eq].
  subst rc. destruct (new_leader_commits_unconfirmed all_ok elected_server s' E Hl) as (m & s'' & Ec & Hm).
  - rewrite Hv. discriminate.
  - rewrite Hv. vm_compute. reflexivity.
  - rewrite Ho. apply (bool_decide_eq_true_1 _). vm_compute. reflexivity.
  - exists s', m, s''. split_and!; [reflexivity|exact Ec|exact Hm].
Defined.
