(* ===== verification/Commit.v ===== *)
(** * Committing entries and serving clients (src/server.c, src/client.c)

    The server together with the state machine it applies committed entries to and the
    clients it answers: the commit index moves forward, the state is updated, responses go
    to the clients that wait for them, and configuration changes take effect.  The handlers
    of the messages of nodes and clients, and the work after each round of the event loop,
    are those of server.c.

    [None] is a process that stops or hangs, as in Replicate.v and State.v. *)

From Stdlib Require Import ZArith Lia.
From Stdlib Require Import Strings.Byte.
From stdpp Require Import base list numbers gmap strings.
From S2P Require Import Prelude Sc Str Uri Buf Entry Page Store Msg Map Meta Cmd Node Server Election Sql Session Exec State Replicate.

Definition MSG_OK : Z := 0.
Definition MSG_ERR : Z := 1.
Definition MSG_TIMEOUT : Z := 5.
Definition MSG_NOT_LEADER : Z := 6.

(** [struct client]; a terminated client is one in the server's array of terminated
    clients, and a waiting read is one in its list of read requests. *)
Record client := mk_client {
  w_name : list byte;
  w_id : Z;
  w_seq : Z;
  w_commit_index : Z;
  w_round_index : Z;
  w_msg_wait : bool;
  w_req : list byte;                     (* the request being processed *)
  w_local : option (list byte);
  w_remote : option (list byte)
}.

Definition client_set_session (c : client) (id seq : Z) : client :=
  mk_client (w_name c) id seq (w_commit_index c) (w_round_index c) (w_msg_wait c) (w_req c) (w_local c) (w_remote c).
Definition client_set_wait (c : client) (b : bool) : client :=
  mk_client (w_name c) (w_id c) (w_seq c) (w_commit_index c) (w_round_index c) b (w_req c) (w_local c) (w_remote c).
Definition client_set_read (c : client) (commit round : Z) (req : list byte) : client :=
  mk_client (w_name c) (w_id c) (w_seq c) commit round (w_msg_wait c) req (w_local c) (w_remote c).

(** What is put into the output buffer of a connection: of a client, or of one that has not
    introduced itself yet. *)
Inductive output :=
| to_client (c : Z) (m : msg)
| to_client_raw (c : Z) (bytes : list byte)
| to_pending (conn : Z) (m : msg).

Section commit.
Variable Q : sqlite.
Variable aux : aux_stmts.
Variable local_time : Z -> option (list byte).
Variable format : list byte -> list byte.
Variable meta_line : meta -> list byte.
Variable io : nat -> answer.
Variable line_text : log_line -> list byte.
Variable ss_map : snapshot -> list byte.
(** Bounds the loops over the data of an entry. *)
Variable fuel : nat.

(** The rest of [struct server]. *)
Record replica := mk_replica {
  r_srv : server;
  r_st : state Q;
  r_clients : gmap Z client;
  r_read_reqs : list Z;
  r_sent : list output;
  r_round_prev : Z;
  r_stop_requested : bool
}.

(** A new state of the server; [client_set_terminated] takes a client from the list of read
    requests. *)
Definition put_srv (r : replica) (s : server) : replica :=
  mk_replica s (r_st r) (r_clients r) (filter (fun a => a ∉ s_term_clients s) (r_read_reqs r)) (r_sent r)
    (r_round_prev r) (r_stop_requested r).
Definition put_st (r : replica) (st : state Q) : replica :=
  mk_replica (r_srv r) st (r_clients r) (r_read_reqs r) (r_sent r) (r_round_prev r) (r_stop_requested r).
Definition put_clients (r : replica) (cs : gmap Z client) : replica :=
  mk_replica (r_srv r) (r_st r) cs (r_read_reqs r) (r_sent r) (r_round_prev r) (r_stop_requested r).
Definition put_reads (r : replica) (l : list Z) : replica :=
  mk_replica (r_srv r) (r_st r) (r_clients r) l (r_sent r) (r_round_prev r) (r_stop_requested r).
Definition send (r : replica) (o : output) : replica :=
  mk_replica (r_srv r) (r_st r) (r_clients r) (r_read_reqs r) (r_sent r ++ [o]) (r_round_prev r) (r_stop_requested r).
Definition put_round_prev (r : replica) (x : Z) : replica :=
  mk_replica (r_srv r) (r_st r) (r_clients r) (r_read_reqs r) (r_sent r) x (r_stop_requested r).
Definition request_stop (r : replica) : replica :=
  mk_replica (r_srv r) (r_st r) (r_clients r) (r_read_reqs r) (r_sent r) (r_round_prev r) true.

Definition on_srv {A} (m : runM server A) : runM replica A := fun r =>
  match m (r_srv r) with None => None | Some (a, s) => Some (a, put_srv r s) end.
Definition on_st {A} (m : stateM Q A) : runM replica A := fun r =>
  match m (r_st r) with None => None | Some (a, st) => Some (a, put_st r st) end.
Definition srv {A} (f : server -> A) : runM replica A := peek (fun r => f (r_srv r)).
Definition asks : runM replica answer := on_srv (calls (ask io)).

Definition client_at (a : Z) : runM replica client := fun r =>
  match r_clients r !! a with None => None | Some c => Some (c, r) end.
Definition set_client (a : Z) (c : client) : runM replica () := poke (fun r => put_clients r (<[a := c]> (r_clients r))).

(** ** Clients *)

Definition server_on_client_disconnect (a : Z) (msg_rc : Z) : runM replica rs_rc :=
  c ← client_at a;
  on_srv (poke (fun s =>
    let s := set_vclients s (delete (w_id c) (s_vclients s)) in
    let s := set_clients s (delete (w_name c) (s_clients s)) in
    set_term_clients s (s_term_clients s ++ [a])));;
  role ← srv (fun s => s_role s);
  if bool_decide (role = SERVER_ROLE_LEADER) then
    let data := cmd_bytes (CDisconnect (mk_disconnect (Some (w_name c)) (msg_rc =? MSG_OK))) in
    on_srv (calls (fun s => server_create_entry io CREATE_FUEL s true 0 0 CMD_DISCONNECT data))
  else mret RS_OK.

(** [if (rc != RS_OK) goto err], where [err] disconnects the client. *)
Definition or_disconnect (a : Z) (rc : rs_rc) (k : runM replica rs_rc) : runM replica rs_rc :=
  if decide (rc = RS_OK) then k else server_on_client_disconnect a MSG_ERR.

(** Clears the input and registers the socket again. *)
Definition client_processed (a : Z) : runM replica rs_rc :=
  c ← client_at a;
  set_client a (client_set_wait c false);;
  poke (fun r => put_reads r (filter (fun b => b <> a) (r_read_reqs r)));;
  x ← asks;
  mret (a_rc x).

(** [conn_flush] *)
Definition conn_flush : runM replica rs_rc := x ← asks; mret (a_rc x).

Definition server_on_client_connect_applied (sess : session) : runM replica rs_rc :=
  role ← srv (fun s => s_role s);
  if negb (bool_decide (role = SERVER_ROLE_LEADER)) then mret RS_OK
  else
    found ← srv (fun s => s_clients s !! default [] (se_name sess));
    match found with
    | None => mret RS_OK
    | Some a =>
        c ← client_at a;
        set_client a (client_set_session c (se_id sess) (se_seq sess));;
        m ← srv (fun s => connect_resp MSG_OK (se_seq sess) (s_term s) (m_uris (s_meta s)));
        poke (fun r => send r (to_client a m));;
        rc ← conn_flush;
        or_disconnect a rc (
          rc ← client_processed a;
          or_disconnect a rc (
            on_srv (poke (fun s => set_vclients s (<[se_id sess := a]> (s_vclients s))));;
            mret RS_OK))
    end.

Definition server_on_applied_client_req (cid : Z) (resp : list byte) : runM replica rs_rc :=
  role ← srv (fun s => s_role s);
  if negb (bool_decide (role = SERVER_ROLE_LEADER)) then mret RS_OK
  else
    found ← srv (fun s => s_vclients s !! cid);
    match found with
    | None => mret RS_OK
    | Some a =>
        poke (fun r => send r (to_client_raw a resp));;
        rc ← conn_flush;
        or_disconnect a rc (
          rc ← client_processed a;
          or_disconnect a rc (mret RS_OK))
    end.

(** ** Applied entries *)

(** The copy shares nothing with the configuration of the state. *)
Definition server_on_meta (m : meta) : runM replica rs_rc :=
  mine ← srv (fun s => s_meta s);
  if m_index mine >? m_index m then mret RS_OK
  else
    on_srv (
      if (m_index m =? m_index mine) && bool_decide (m_prev mine <> None)
      then poke (fun s => set_meta s (meta_remove_prev mine))
      else if m_index m >? m_index mine then
        match meta_copy m with None => halt | Some x => poke (fun s => set_meta s x) end
      else mret ());;
    on_srv (poke (fun s =>
      let s := server_meta_change s in
      if negb (s_in_cluster s) && bool_decide (s_role s = SERVER_ROLE_LEADER)
      then server_become_follower s None (s_term s) else s));;
    on_srv (calls (server_write_meta io)).

(** The leader is logged by name. *)
Definition server_on_term_start (m : meta) : runM replica rs_rc :=
  term ← srv s_term;
  if negb (m_term m =? term) then mret RS_OK
  else
    leader ← srv (fun s => s_leader s);
    match leader with
    | None => halt
    | Some _ => on_srv (poke (fun s => set_cluster_up s true));; mret RS_OK
    end.

Definition server_on_applied_entry (e : entry) (sess : option Z) : runM replica rs_rc :=
  let c := e_flags e in
  let session (k : session -> runM replica rs_rc) : runM replica rs_rc :=
    match sess with
    | None => halt
    | Some a => s ← on_st (session_at Q a); k s
    end in
  if c =? CMD_META then m ← peek (fun r => st_meta Q (r_st r)); server_on_meta m
  else if c =? CMD_TERM then m ← peek (fun r => st_meta Q (r_st r)); server_on_term_start m
  else if c =? CMD_REQUEST then session (fun s => server_on_applied_client_req (se_id s) (contents (se_resp s)))
  else if c =? CMD_CONNECT then session server_on_client_connect_applied
  else if existsb (Z.eqb c) [CMD_DISCONNECT; CMD_INIT; CMD_INFO; CMD_TIMESTAMP; CMD_LOG] then mret RS_OK
  else halt.

(** The functions that SQL calls see whether the server leads in the term of the state. *)
Definition set_leading (b : bool) (st : state Q) : state Q :=
  let c := st_conn st in
  let h := k_hooks c in
  with_conn Q st (mk_conn (k_db c) (mk_hooks (h_client h) (h_readonly h) (h_full h) (h_max_page h) (h_session_timeout h)
    (h_realtime h) (h_wrand h) (h_rrand h) (h_cb h) b (h_jobs h))).

(** Applies the [n] entries from [i] on; the last of them is at most the commit index, so the
    counter does not wrap in the loop. *)
Fixpoint apply_from (n : nat) (i : Z) : runM replica rs_rc :=
  match n with
  | O => mret RS_OK
  | S n =>
      entry ← srv (fun s => log_entry (s_log s) i);
      match entry with
      | None => halt
      | Some e =>
          leading ← srv (fun s => (e_term e =? s_term s) && bool_decide (s_role s = SERVER_ROLE_LEADER));
          poke (fun r => put_st r (set_leading leading (r_st r)));;
          '(rc, sess) ← on_st (state_apply Q aux local_time format meta_line fuel i e);
          match rc with
          | RS_OK => rc ← server_on_applied_entry e sess; and_then rc (apply_from n (i + 1))
          | RS_FULL => mret RS_FULL
          | _ => halt
          end
      end
  end.

(** [store_ss_index]: the last index of the first page, when the second page is in use (else
    UINT64_MAX, which no commit index reaches).  The answer tells whether it is and how many
    entries the first page holds. *)
Definition ss_index_of (a : answer) (l : rlog) : option Z :=
  if a_ok a then Some (l_prev l + Z.max 0 (Z.min (a_ms a) (zlen (l_entries l)))) else None.

(** [snapshot_take]: the thread writes a snapshot up to the end of the first page; the result
    is read only after it has finished. *)
Definition snapshot_take (index : Z) : runM replica rs_rc :=
  on_srv (poke (fun s =>
    let ss := s_ss s in
    set_ss s (mk_snapshot (ss_index ss) (ss_term ss) index (log_prev_term (s_log s) index) (ss_recv_index ss)
      (ss_recv_term ss) (ss_tmp ss))));;
  x ← asks;
  mret (a_rc x).

(** The second part of [server_update_commit]. *)
Definition maybe_snapshot : runM replica rs_rc :=
  busy ← srv (fun s => s_ss_inprogress s);
  if (busy : bool) then mret RS_OK
  else
    x ← asks;
    commit ← srv (fun s => s_commit s);
    index ← srv (fun s => ss_index_of x (s_log s));
    match index with
    | None => mret RS_OK
    | Some index =>
        if commit >=? index then
          on_srv (poke (fun s => set_ss_inprogress s true));;
          rc ← snapshot_take index;
          if decide (rc = RS_OK) then mret RS_OK else halt
        else mret RS_OK
    end.

Definition server_update_commit (commit : Z) : runM replica rs_rc :=
  now ← srv (fun s => s_commit s);
  last ← srv (fun s => last_index (s_log s));
  rc ← (if commit >? now then
          let min := Z.min commit last in
          rc ← apply_from (Z.to_nat (min - now)) (now + 1);
          and_then rc (on_srv (poke (fun s => set_last_quorum (set_commit s min) (s_timestamp s)));; mret RS_OK)
        else mret RS_OK);
  and_then rc maybe_snapshot.

(** ** Messages of nodes *)

Definition server_on_append_req (n : Z) (term prev_log_index prev_log_term leader_commit round : Z) (buf : list byte)
    : runM replica rs_rc :=
  let out (success : bool) : runM replica rs_rc :=
    on_srv (poke (fun s =>
      put_msg s n (append_resp (last_index (s_log s)) (s_term s) (if success then round else 0) success)));;
    mret RS_OK in
  mine ← srv s_term;
  if mine >? term then out false
  else
    leader ← srv (fun s => s_leader s);
    on_srv (poke (fun s =>
      if (term >? mine) || ((mine =? term) && bool_decide (leader = None))
      then server_become_follower s (Some n) term else s));;
    on_srv (poke (fun s => set_node s n (node_set_in_timestamp (node_at s n) (s_timestamp s))));;
    prev ← srv (fun s => log_prev_term (s_log s) prev_log_index);
    last ← srv (fun s => last_index (s_log s));
    if (prev_log_index >? last) || negb (prev_log_term =? prev) then out false
    else
      rc ← on_srv (server_store_entries io (prev_log_index +₆₄ 1) buf);
      and_then rc (
        on_srv (poke (fun s => server_become_follower s (Some n) (s_term s)));;
        rc ← server_update_commit leader_commit;
        and_then rc (out true)).

Definition server_on_shutdown_req : runM replica rs_rc := poke request_stop;; mret RS_OK.

(** The switch in [server_on_node_recv]; [None] is a message that closes the connection.  The
    metrics of a node ([info_req]) are kept outside of this state. *)
Definition on_node_msg (n : Z) (m : msg) : runM replica (option rs_rc) :=
  let ret (f : runM replica rs_rc) : runM replica (option rs_rc) := rc ← f; mret (Some rc) in
  match m with
  | append_req term prev_log_index prev_log_term leader_commit round buf =>
      ret (server_on_append_req n term prev_log_index prev_log_term leader_commit round buf)
  | append_resp index term round success =>
      ret (on_srv (poke (fun s => server_on_append_resp s n index term round success));; mret RS_OK)
  | prevote_req term _ last_log_index => ret (on_srv (calls (fun s => server_on_prevote_req s n term last_log_index)))
  | prevote_resp term _ granted => ret (on_srv (calls (fun s => server_on_prevote_resp io s term granted)))
  | reqvote_req term _ last_log_index => ret (on_srv (calls (fun s => server_on_reqvote_req io s n term last_log_index)))
  | reqvote_resp term _ granted => ret (on_srv (calls (fun s => server_on_reqvote_resp io s term granted)))
  | snapshot_req term round ss_term ss_index _ done _ =>
      ret (on_srv (calls (fun s => server_on_snapshot_req io s n term round ss_term ss_index done)))
  | snapshot_resp term round _ done => ret (on_srv (calls (fun s => server_on_snapshot_resp io line_text s n term round done)))
  | info_req _ => mret (Some RS_OK)
  | shutdown_req _ => ret server_on_shutdown_req
  | _ => mret None
  end.

(** [server_on_node_recv] after the socket was read: [ms] are the messages that
    [msg_parse] finds, [invalid] whether it then meets one that is malformed. *)
Fixpoint node_recv (n : Z) (ms : list msg) (invalid : bool) : runM replica rs_rc :=
  let disconnect : runM replica rs_rc := on_srv (poke (fun s => server_on_node_disconnect s n));; mret RS_OK in
  match ms with
  | [] =>
      if invalid then disconnect
      else
        rc ← conn_flush;
        if decide (rc = RS_OK) then mret RS_OK else disconnect
  | m :: ms =>
      rc ← on_node_msg n m;
      match rc with
      | None => disconnect
      | Some rc => and_then rc (node_recv n ms invalid)
      end
  end.

Definition server_on_node_recv := node_recv.

(** ** Connections *)

(** A node introduces itself; a name that is not a member is kept in [unknown_nodes]. *)
Definition server_on_node_connect_req (s : server) (name : list byte) : server :=
  let '(n, s) :=
    match find (fun n => bool_decide (n_name (node_at s n) = name)) (s_nodes s) with
    | Some n => (n, set_connected_nodes s (filter (fun m => m <> n) (s_connected_nodes s) ++ [n]))
    | None =>
        let a := base.fresh (dom (s_heap s)) in
        (a, set_unknown_nodes (set_node s a (node_create name)) (s_unknown_nodes s ++ [a]))
    end in
  let '(a, s) := ask io s in                                   (* node_set_conn *)
  if negb (bool_decide (a_rc a = RS_OK)) then s
  else
    let s := put_msg s n (connect_resp MSG_OK 0 (s_term s) (m_uris (s_meta s))) in
    let '(a, s) := ask io s in                                 (* conn_flush *)
    let s :=
      if bool_decide (a_rc a = RS_OK) then s
      else
        let s := set_connected_nodes s (filter (fun m => m <> n) (s_connected_nodes s)) in
        set_node s n (node_disconnect (node_at s n)) in
    set_node s n (node_clear_indexes (node_at s n) (last_index (s_log s))).

(** What reading a socket gives. *)
Inductive received := recv_failed | recv_partial | recv_msg (m : msg).

(** The node is connected and assumed to have the own log. *)
Definition connect_node (s : server) (n : Z) : server :=
  let s := set_connected_nodes s (filter (fun m => m <> n) (s_connected_nodes s) ++ [n]) in
  set_node s n (node_clear_indexes (node_at s n) (last_index (s_log s))).

(** The answer to the own connection; its code is not looked at.  What follows it in the
    buffer is handled at once. *)
Definition server_on_connect_resp (n : Z) (d : received) (ms : list msg) (invalid : bool) : runM replica rs_rc :=
  let disconnect : runM replica rs_rc := on_srv (poke (fun s => server_on_node_disconnect s n));; mret RS_OK in
  match d with
  | recv_partial => mret RS_OK
  | recv_msg (connect_resp _ _ _ _) =>
      on_srv (poke (fun s => connect_node s n));;
      server_on_node_recv n ms invalid
  | _ => disconnect
  end.

Definition server_on_pending_disconnect (conn rc : Z) : runM replica () :=
  if negb (rc =? MSG_ERR) then
    m ← srv (fun s => connect_resp rc 0 (s_term s) (m_uris (s_meta s)));
    poke (fun r => send r (to_pending conn m));;
    _ ← conn_flush;
    mret ()
  else mret ().

Definition server_on_client_connect_req (conn : Z) (name local remote : option (list byte)) : runM replica rs_rc :=
  let err rc ret : runM replica rs_rc := server_on_pending_disconnect conn rc;; mret ret in
  ready ← srv (fun s => s_cluster_up s && bool_decide (s_role s = SERVER_ROLE_LEADER));
  if negb ready then err MSG_NOT_LEADER RS_OK
  else
    match name with
    | None => err MSG_ERR RS_OK
    | Some name =>
        prev ← srv (fun s => s_clients s !! name);
        rc ← match prev with
             | None => mret (Some RS_OK)
             | Some a =>
                 c ← client_at a;
                 if w_id c =? 0 then mret None
                 else rc ← server_on_client_disconnect a MSG_ERR; mret (Some rc)
             end;
        match rc with
        | None => err MSG_ERR RS_OK
        | Some RS_OK =>
            x ← asks;                                          (* client_create *)
            if negb (bool_decide (a_rc x = RS_OK)) then err MSG_ERR RS_OK
            else
              a ← peek (fun r => base.fresh (dom (r_clients r)));
              set_client a (mk_client name 0 0 0 0 true [] local remote);;
              on_srv (poke (fun s => set_clients s (<[name := a]> (s_clients s))));;
              let data := cmd_bytes (CConnect (mk_connect (Some name) local remote)) in
              on_srv (calls (fun s => server_create_entry io CREATE_FUEL s true 0 0 CMD_CONNECT data))
        | Some rc => err MSG_ERR rc
        end
    end.

(** ** Requests of clients *)

Definition take_request (a : Z) (seq : Z) (readonly : bool) (buf : list byte) : runM replica rs_rc :=
  c ← client_at a;
  if readonly then
    prev ← peek r_round_prev;
    on_srv (poke (fun s => if prev =? s_round s then set_round s (s_round s +₆₄ 1) else s));;
    round ← srv (fun s => s_round s);
    last ← srv (fun s => last_index (s_log s));
    set_client a (client_set_read (client_set_wait c true) last round buf);;
    poke (fun r => put_reads r (filter (fun b => b <> a) (r_read_reqs r) ++ [a]));;
    mret RS_OK
  else
    set_client a (client_set_wait c true);;
    rc ← on_srv (calls (fun s => server_create_entry io CREATE_FUEL s false seq (w_id c) CMD_REQUEST buf));
    match rc with
    | RS_OK => set_client a (client_set_session (client_set_wait c true) (w_id c) seq);; mret RS_OK
    | RS_FULL => mret RS_FULL
    | _ => _ ← server_on_client_disconnect a MSG_ERR; mret RS_OK
    end.

(** A readable socket of a client; [pending] is output that was not sent yet. *)
Definition server_on_client_recv (a : Z) (pending : bool) (d : received) : runM replica rs_rc :=
  let disconnect rc : runM replica rs_rc := _ ← server_on_client_disconnect a rc; mret RS_OK in
  terminated ← srv (fun s => bool_decide (a ∈ s_term_clients s));
  if (terminated : bool) then mret RS_OK
  else
    c ← client_at a;
    if w_msg_wait c || pending then
      x ← asks;                                                (* conn_unregister *)
      if bool_decide (a_rc x = RS_OK) then mret RS_OK else disconnect MSG_ERR
    else
      match d with
      | recv_failed => disconnect MSG_ERR
      | recv_partial => mret RS_OK
      | recv_msg (disconnect_req _ _) => disconnect MSG_OK
      | recv_msg (client_req seq readonly buf) => take_request a seq readonly buf
      | recv_msg _ => disconnect MSG_ERR
      end.

(** ** The commit index of a leader *)

Definition server_process_readonly (a : Z) : runM replica rs_rc :=
  c ← client_at a;
  poke (fun r =>
    let s := r_srv r in
    put_st r (set_leading ((st_term Q (r_st r) =? s_term s) && bool_decide (s_role s = SERVER_ROLE_LEADER)) (r_st r)));;
  '(rc, out) ← on_st (state_apply_readonly Q aux fuel (w_id c) (w_req c) (sc_buf_init 4096));
  if negb (bool_decide (rc = RS_OK)) then halt
  else
    poke (fun r => send r (to_client_raw a (contents out)));;
    rc ← client_processed a;
    or_disconnect a rc (
      rc ← conn_flush;
      or_disconnect a rc (mret RS_OK)).

(** The loop over the read requests. *)
Fixpoint answer_reads (l : list Z) : runM replica rs_rc :=
  match l with
  | [] => mret RS_OK
  | a :: l =>
      c ← client_at a;
      waits ← srv (fun s => (w_round_index c >? s_round_match s) || (w_commit_index c >? s_commit s));
      if (waits : bool) then mret RS_OK
      else
        rc ← server_process_readonly a;
        and_then rc (answer_reads l)
  end.

Definition server_check_commit : runM replica rs_rc :=
  index ← srv (fun s => m_voter (s_meta s) / 2);
  match_ ← on_srv commit_index;
  rc ← server_update_commit match_;
  and_then rc (
    reads ← peek r_read_reqs;
    if bool_decide (reads = []) then mret RS_OK
    else
      on_srv (poke server_sort_rounds);;
      node ← srv (fun s => node_nth s index);
      match node with
      | None => halt
      | Some node =>
          on_srv (poke (fun s =>
            let round_index := n_round (node_at s node) in
            if round_index >? s_round_match s
            then set_last_quorum (set_round_match s round_index) (s_timestamp s) else s));;
          answer_reads reads
      end).

(** ** Jobs *)

Definition server_job_add_node (data : option (list byte)) : runM replica rs_rc :=
  let err msg := on_srv (calls (fun s => server_log io line_text s (add_node_failed (default [] data) msg))) in
  mine ← srv (fun s => s_meta s);
  if bool_decide (m_prev mine <> None) then err (text "Rejected config change, there is a pending change in progress.")
  else
    match sc_uri_create data with
    | None => err (text "Invalid(url format) config change request. ")
    | Some uri =>
        if bool_decide (u_port uri = []) || bool_decide (u_userinfo uri = []) || negb (bool_decide (u_scheme uri = text "tcp"))
        then err (text "Invalid(url format) config change request. ")
        else if meta_exists mine (u_userinfo uri) then err (text "Node already exists")
        else
          match meta_add mine uri with
          | None => halt
          | Some (false, _) => err (text "Invalid uri")
          | Some (true, m) =>
              on_srv (poke (fun s => server_update_connections (set_meta s m)));;
              _ ← on_srv (calls (fun s => server_log io line_text s (adding_node (u_str uri))));
              on_srv (calls (server_write_meta_cmd io))
          end
    end.

Definition server_job_remove_node (data : option (list byte)) : runM replica rs_rc :=
  let err msg := on_srv (calls (fun s => server_log io line_text s (remove_node_failed (default [] data) msg))) in
  mine ← srv (fun s => s_meta s);
  if bool_decide (m_prev mine <> None) then err (text "Rejected config change, there is a pending change in progress.")
  else
    match data with
    | None => halt
    | Some name =>
        match meta_remove mine name with
        | None => halt
        | Some (false, _) => err (text "Node does not exists.")
        | Some (true, m) =>
            on_srv (poke (fun s => set_meta s m));;
            _ ← on_srv (calls (fun s => server_log io line_text s (removing_node name)));
            on_srv (calls (server_write_meta_cmd io))
        end
    end.

(** The loop over the connected nodes.  A node whose flush fails is disconnected, which makes
    its list element point to itself, and the loop, which follows that pointer, does not
    end. *)
Fixpoint shutdown_all (ns : list Z) : runM server () :=
  match ns with
  | [] => mret ()
  | n :: ns =>
      poke (fun s => put_msg s n (shutdown_req true));;
      a ← calls (ask io);
      if bool_decide (a_rc a = RS_OK) then shutdown_all ns else halt
  end.

Definition server_job_shutdown (data : option (list byte)) : runM replica rs_rc :=
  match data with
  | None => halt
  | Some name =>
      let all := bool_decide (head name = Some x2a) in
      nodes ← srv (fun s => if all then s_connected_nodes s else []);
      on_srv (shutdown_all nodes);;
      own ← srv (fun s => c_name (s_conf s));
      if all || bool_decide (name = own) then server_on_shutdown_req else mret RS_OK
  end.

(** Jobs are taken from the queue until one fails. *)
Fixpoint handle_jobs (jobs : list server_job) : runM replica rs_rc :=
  match jobs with
  | [] => mret RS_OK
  | job :: jobs =>
      poke (fun r => put_st r (let c := st_conn (r_st r) in
        with_conn Q (r_st r) (mk_conn (k_db c) (with_jobs (k_hooks c) jobs))));;
      rc ← match job with
           | SERVER_JOB_ADD_NODE data => server_job_add_node data
           | SERVER_JOB_REMOVE_NODE data => server_job_remove_node data
           | SERVER_JOB_SHUTDOWN data => server_job_shutdown data
           end;
      and_then rc (handle_jobs jobs)
  end.

Definition server_handle_jobs : runM replica rs_rc :=
  jobs ← peek (fun r => h_jobs (k_hooks (st_conn (r_st r))));
  handle_jobs jobs.

(** ** After each round of the event loop *)

Definition server_flush : runM replica rs_rc :=
  poke (fun r => put_clients r (foldl (fun cs a => delete a cs) (r_clients r) (s_term_clients (r_srv r))));;
  on_srv (poke (fun s => set_term_clients s []));;
  role ← srv (fun s => s_role s);
  if negb (bool_decide (role = SERVER_ROLE_LEADER)) then on_srv (poke (server_flush_remaining io));; mret RS_OK
  else
    rc ← on_srv (calls (server_flush_nodes io line_text ss_map));
    and_then rc (
      rc ← server_check_commit;
      and_then rc (
        poke (fun r => put_round_prev r (s_round (r_srv r)));;
        server_handle_jobs)).

(** ** Metrics *)

(** What a leader writes into an entry: of each node its name, whether it is connected, and
    its metrics.  Both are kept outside of this state: [peers] gives for a node the state of
    its socket and the text in [n->info], for the own node what [metric_encode] has made. *)
Definition info_data (peers : Z -> bool * list byte) (s : server) : list byte :=
  enc_fields (flat_map (fun n =>
    let name := n_name (node_at s n) in
    let connected := if bool_decide (name = c_name (s_conf s)) then true else fst (peers n) in
    [FStr (Some name); FBool connected; FBlob (snd (peers n))]) (s_nodes s)).

Definition server_on_info_timer (peers : Z -> bool * list byte) : runM replica rs_rc :=
  role ← srv (fun s => s_role s);
  if bool_decide (role = SERVER_ROLE_LEADER) then
    data ← srv (info_data peers);
    on_srv (calls (fun s => server_create_entry io CREATE_FUEL s true 0 0 CMD_INFO data))
  else
    leader ← srv (fun s => s_leader s);
    match leader with
    | None => mret RS_OK
    | Some n => on_srv (poke (fun s => flush_node io (put_msg s n (info_req (snd (peers (s_own s))))) n));; mret RS_OK
    end.

(** ** The event loop *)

(** What one round of the loop in [server_run] handles: timers, and sockets that are readable.
    The timer that opens a connection to a node changes nothing of this state, and the one that
    waits for space on a full disk runs while the server is closed. *)
Inductive event :=
| on_election_timer (now : Z)
| on_info_timer (peers : Z -> bool * list byte)
| on_pending_timer (conn : Z)
| on_node_readable (n : Z) (ms : list msg) (invalid : bool)
| on_node_answer (n : Z) (d : received) (ms : list msg) (invalid : bool)
| on_node_connect (name : list byte)
| on_client_readable (a : Z) (pending : bool) (d : received)
| on_client_connect (conn : Z) (name local remote : option (list byte))
| on_round_end.

Definition server_handle (e : event) : runM replica rs_rc :=
  match e with
  | on_election_timer now =>
      on_srv (poke (fun s => set_timestamp s now));;
      on_srv (calls (server_on_election_timeout io))
  | on_info_timer peers => server_on_info_timer peers
  | on_pending_timer conn => server_on_pending_disconnect conn MSG_TIMEOUT;; mret RS_OK
  | on_node_readable n ms invalid => server_on_node_recv n ms invalid
  | on_node_answer n d ms invalid => server_on_connect_resp n d ms invalid
  | on_node_connect name => on_srv (poke (fun s => server_on_node_connect_req s name));; mret RS_OK
  | on_client_readable a pending d => server_on_client_recv a pending d
  | on_client_connect conn name local remote => server_on_client_connect_req conn name local remote
  | on_round_end => server_flush
  end.

(** Events one after the other.  The first code other than [RS_OK] ends this run: [server_run]
    gives it to [server_handle_rc], which closes or restarts the server. *)
Fixpoint server_loop (es : list event) : runM replica rs_rc :=
  match es with
  | [] => mret RS_OK
  | e :: es => rc ← server_handle e; and_then rc (server_loop es)
  end.
End commit.

(** ** Two defects *)

(** A leader of term 1 with three entries; the two followers have confirmed the first. *)
Definition leading_server : server :=
  let s := set_leader (set_role (trio_server 1 storing_log) SERVER_ROLE_LEADER) (Some 1) in
  let follower j := node_set_match (node_create (trio_name j)) 1 2 in
  set_node (set_node s 2 (follower 2)) 3 (follower 3).

(** A defect.  A leader takes a node that connects for one that has the whole log: with
    one entry confirmed by the followers the commit index is 1, and as soon as one of them
    connects again, and before it has received anything, it is 3. *)
Theorem reconnect_commits_unconfirmed :
  fst <$> commit_index leading_server = Some 1 /\
  fst <$> commit_index (server_on_node_connect_req all_ok leading_server (trio_name 2)) = Some 3.
Proof. split; vm_compute; reflexivity. Qed.

(** A follower that voted for node 1 in term 5 and knows it as the leader. *)
Definition voted_server : server :=
  set_leader (set_voted_for (set_term (trio_server 2 empty_log) 5) (Some (trio_name 1))) (Some 1).

Definition voted_replica : replica demo_sqlite := mk_replica demo_sqlite voted_server demo_state ∅ [] [] 0 false.

(** The configuration that the leader of term 1 stored. *)
Definition old_meta_entry : entry := mk_entry 1 0 0 CMD_META (cmd_bytes (CMeta (with_index (with_term trio_meta 1) 1))).

Abbreviation demo_append_req :=
  (server_on_append_req demo_sqlite demo_aux (fun _ => None) demo_format demo_line all_ok 200).

(** A defect.  Storing an old configuration entry overwrites the current term with the
    term of the configuration: a follower of term 5 that receives such an entry from its
    leader is in term 1 afterwards.  When the leader falls silent it votes in term 5 for
    another node, although it has voted in term 5 before. *)
Lemma old_configuration_lowers_term :
  s_term voted_server = 5 /\ s_voted_for voted_server = Some (trio_name 1) /\
  match demo_append_req 1 5 0 0 0 1 (enc_entries [old_meta_entry]) voted_replica with
  | Some (RS_OK, r) =>
      s_term (r_srv demo_sqlite r) = 1 /\
      let '(rc, s) := server_on_reqvote_req all_ok (set_timestamp (r_srv demo_sqlite r) 10000) 3 5 1 in
      rc = RS_OK /\ s_term s = 5 /\ s_voted_for s = Some (trio_name 3) /\ last (s_out s) = Some (3, reqvote_resp 5 1 true)
  | _ => False
  end.
Proof. vm_compute. repeat split. Qed.
