(* ===== verification/Cluster.v ===== *)
(** * A cluster of servers

    The complete servers of Commit.v with a network between them: every handler of the event
    loop runs, any message may be delayed, overtaken or lost, but is delivered at most once,
    and servers fail, are closed and start again from their files. *)

From Stdlib Require Import ZArith Lia.
From Stdlib Require Import Strings.Byte.
From stdpp Require Import base list numbers gmap strings.
From S2P Require Import Prelude Sc Str Uri Buf Entry Page Store Msg Map Meta Cmd Node Server Election Sql Session Exec State Replicate Commit.

#[local] Set Warnings "-clear-no-such-hyp".

(** ** Code that does not vote *)

(** The vote is kept, the server steps down or keeps role and counters, the file gets no other
    vote, and no vote is sent or asked for. *)
Record tame (s s' : server) : Prop := {
  tm_voted : s_voted_for s' = s_voted_for s;
  tm_role :
    (s_role s' = SERVER_ROLE_FOLLOWER /\ s_vote_count s' = 0) \/
    (s_role s' = s_role s /\ s_vote_count s' = s_vote_count s /\ s_prevote_term s' = s_prevote_term s);
  tm_disk : f_voted_for (s_disk s') = f_voted_for (s_disk s) \/ f_voted_for (s_disk s') = s_voted_for s;
  tm_speaks : forall i, speaks i [] s s'
}.

Lemma tame_refl s : tame s s.
Proof. split; [done|right; done|by left|intros i; by apply speaks_same]. Qed.

Lemma tame_trans s1 s2 s3 : tame s1 s2 -> tame s2 s3 -> tame s1 s3.
Proof.
  intros [V1 R1 D1 S1] [V2 R2 D2 S2]. split.
  - congruence.
  - destruct R2 as [?|(-> & -> & ->)]; [by left|exact R1].
  - rewrite V1 in D2. destruct D2 as [->| ->]; [exact D1|by right].
  - intros i. eapply speaks_more; [apply S1|apply S2].
Qed.

(** What [tame] looks at. *)
Definition ballot (s : server) : voting * option (list byte) * list (Z * msg) :=
  (mk_voting (s_role s) None (s_voted_for s) 0 (s_prevote_term s) (s_vote_count s) 0 false, f_voted_for (s_disk s), s_out s).

Lemma same_tame s s' : ballot s' = ballot s -> tame s s'.
Proof.
  unfold ballot. intros [= E1 E2 E3 E4 E5 E6]. split; [done|right; done|by left|intros i; by apply speaks_same].
Qed.

Lemma ballot_tame {A} (a : A) s s' : ballot s' = ballot s -> tame s (snd (a, s')).
Proof. apply same_tame. Qed.

Lemma put_tame s j m : plain m = true -> tame s (put_msg s j m).
Proof. intros Hm. split; [done|right; done|by left|intros i; by apply plain_speaks]. Qed.

Lemma set_node_tame s x n y : tame s x -> tame s (set_node x n y).
Proof. intros H. apply (tame_trans _ _ _ H). by apply same_tame. Qed.

Lemma quiet_tame s s' : quiet s s' -> tame s s'.
Proof. intros []. apply same_tame. unfold ballot. congruence. Qed.

Lemma follower_tame s leader t : tame s (server_become_follower s leader t).
Proof.
  unfold server_become_follower. set (s1 := if negb _ then _ else s). cbv zeta.
  assert (H1 : ballot s1 = ballot s) by (unfold s1; by destruct (negb _)). clearbody s1.
  unfold ballot in H1. injection H1 as E1 E2 E3 E4 E5 E6.
  split; cbn; [done|by left|by left|intros i; by apply speaks_same].
Qed.

Lemma disconnect_ballot s n : ballot (server_on_node_disconnect s n) = ballot s.
Proof. unfold server_on_node_disconnect. cbv zeta. by destruct (decide _). Qed.

Lemma create_nodes_ballot ms : forall s, ballot (foldl server_create_node s ms) = ballot s.
Proof.
  induction ms as [|m ms IH]; intros s; [done|]. cbn [foldl]. rewrite IH. unfold server_create_node.
  destruct (bool_decide _); [done|]. by destruct (existsb _ _).
Qed.

Lemma update_connections_ballot s : ballot (server_update_connections s) = ballot s.
Proof.
  unfold server_update_connections. cbv zeta.
  match goal with |- context [foldl server_create_node ?s0 ?ms] =>
    pose proof (create_nodes_ballot ms s0) as H; generalize dependent (foldl server_create_node s0 ms) end.
  intros s1 H. by case_if.
Qed.

Lemma meta_change_tame s m : tame s (server_meta_change (set_meta s m)).
Proof.
  unfold server_meta_change. cbv zeta. set (s1 := server_update_connections _).
  assert (H : tame s s1) by (apply same_tame; unfold s1; by rewrite update_connections_ballot).
  destruct (_ && _ && _); [|exact H]. eapply tame_trans; [exact H|apply follower_tame].
Qed.

Ltac cases := repeat (match goal with |- context [if ?b then _ else _] => destruct b end).

Section tame.
Variable io : nat -> answer.
Variable line_text : log_line -> list byte.
Variable ss_map : snapshot -> list byte.

Lemma write_meta_tame s : tame s (snd (server_write_meta io s)).
Proof.
  destruct (write_meta_spec io s) as (rc & s' & -> & H1 & _ & _ & _ & H5 & H6). cbn [snd].
  split; [by rewrite H1|right; by rewrite H1| |intros i; by apply speaks_same].
  destruct H6 as [->|[-> _]]; [by right|by left].
Qed.

Lemma create_tame fuel s force seq cid flags data : tame s (snd (server_create_entry io fuel s force seq cid flags data)).
Proof. apply quiet_tame, create_quiet. Qed.

Lemma log_tame s l : tame s (snd (server_log io line_text s l)).
Proof. apply create_tame. Qed.

Lemma meta_cmd_tame s : tame s (snd (server_write_meta_cmd io s)).
Proof. unfold server_write_meta_cmd. eapply tame_trans; [|apply create_tame]. by apply same_tame. Qed.

Lemma wait_tame s : tame s (snd (server_wait_snapshot io s)).
Proof. apply quiet_tame, wait_quiet. Qed.

Lemma flush_node_tame s n : tame s (flush_node io s n).
Proof. unfold flush_node, ask. apply same_tame. case_if; [done|]. by rewrite disconnect_ballot. Qed.

Lemma flush_remaining_tame s : tame s (server_flush_remaining io s).
Proof.
  unfold server_flush_remaining. generalize (s_connected_nodes s). intros ns. revert s.
  induction ns as [|n ns IH]; intros s; [apply tame_refl|]. cbn. eapply tame_trans; [apply flush_node_tame|apply IH].
Qed.

Lemma append_resp_tame s n index term round success : tame s (server_on_append_resp s n index term round success).
Proof.
  unfold server_on_append_resp. cbv zeta. cases; try (by apply same_tame).
  apply set_node_tame. eapply tame_trans; [|apply follower_tame]. by apply same_tame.
Qed.

(** [via H] goes on behind a call whose effect is [H]. *)
Ltac via H :=
  let E := fresh "E" in
  pose proof H as E;
  match type of E with tame _ (snd ?x) => destruct x as [? ?]; cbn [snd] in E; eapply tame_trans; [exact E|clear E] end.

Lemma snapshot_resp_tame s n term round done : tame s (snd (server_on_snapshot_resp io line_text s n term round done)).
Proof.
  unfold server_on_snapshot_resp. cbv zeta. case_if; [|case_if; [|by apply ballot_tame]].
  - eapply tame_trans; [|apply follower_tame]. by apply same_tame.
  - eapply tame_trans; [|apply log_tame]. by apply same_tame.
Qed.

Lemma recv_tame s term index done : tame s (snd (snapshot_recv io s term index done)).
Proof.
  unfold snapshot_recv, recv_start, ask. cbv zeta. by cases; apply same_tame.
Qed.

Lemma snapshot_req_tame s n term round ss_term ss_index done :
  tame s (snd (server_on_snapshot_req io s n term round ss_term ss_index done)).
Proof.
  unfold server_on_snapshot_req. case_if; [by apply put_tame|]. cbv zeta.
  match goal with |- context [server_wait_snapshot io ?x] => apply (tame_trans _ x) end.
  { apply set_node_tame. case_if; [apply follower_tame|apply tame_refl]. }
  match goal with |- context [server_wait_snapshot io ?x] => via (wait_tame x) end.
  case_if; [apply tame_refl|]. via (recv_tame s0 ss_term ss_index done). by apply put_tame.
Qed.

Lemma flush_snapshot_tame s n : tame s (snd (server_flush_snapshot io line_text ss_map s n)).
Proof.
  unfold server_flush_snapshot. case_if; [apply tame_refl|]. cbv zeta.
  match goal with |- context [let '(_, _) := ?x in _] => assert (H : tame s (snd x))
    by (case_if; [apply tame_refl|]; (eapply tame_trans; [|apply log_tame]); by apply same_tame); via H end.
  case_if; [apply tame_refl|]. cbn [snd]. eapply tame_trans; [|apply flush_node_tame]. case_if; [apply tame_refl|].
  by apply set_node_tame, put_tame.
Qed.

Lemma append_to_tame s n es : tame s (append_to s n es).
Proof. unfold append_to. by apply set_node_tame, put_tame. Qed.

Lemma flush_one_tame s n : tame s (snd (flush_one io line_text ss_map s n)).
Proof.
  unfold flush_one. cbv zeta. case_if; [apply flush_snapshot_tame|]. cbn [snd]. eapply tame_trans; [|apply flush_node_tame].
  set (s1 := if _ || _ then s else _).
  assert (H1 : tame s s1).
  { unfold s1. destruct (_ || _); [apply tame_refl|]. unfold store_entries_from, ask. cbv zeta beta iota.
    eapply tame_trans; [|apply append_to_tame]. by apply same_tame. }
  clearbody s1. case_if; [|exact H1]. eapply tame_trans; [exact H1|apply append_to_tame].
Qed.

Lemma flush_nodes_tame s : tame s (snd (server_flush_nodes io line_text ss_map s)).
Proof.
  unfold server_flush_nodes. generalize (s_connected_nodes s). intros ns. revert s.
  induction ns as [|n ns IH]; intros s; [apply tame_refl|]. cbn [flush_loop]. via (flush_one_tame s n).
  case_if; [apply IH|apply tame_refl].
Qed.

Lemma node_connect_tame s name : tame s (server_on_node_connect_req io s name).
Proof.
  unfold server_on_node_connect_req, ask.
  destruct (find _ _); cbv zeta beta iota; case_if; try (by apply same_tame); apply set_node_tame;
    match goal with |- context [put_msg ?x ?j ?m] => apply (tame_trans _ (put_msg x j m)) end;
    try (by case_if; apply same_tame); match goal with |- tame _ (put_msg ?x _ _) => apply (tame_trans _ x) end;
    solve [by apply same_tame|by apply put_tame].
Qed.
End tame.

(** *** Code in the monad *)

(** [get] is the server in the state of the monad. *)
Definition keeps {S A} (get : S -> server) (m : runM S A) : Prop := forall x a x', m x = Some (a, x') -> tame (get x) (get x').

Section keeps.
Context {S : Type} (get : S -> server).

Lemma keeps_ret {A} (a : A) : keeps get (mret a).
Proof. intros x b x' E. injection E as _ <-. apply tame_refl. Qed.

Lemma keeps_halt {A} : keeps get (@halt S A).
Proof. by intros x. Qed.

Lemma keeps_peek {A} (f : S -> A) : keeps get (peek f).
Proof. intros x a x' E. injection E as _ <-. apply tame_refl. Qed.

Lemma keeps_bind {A B} (m : runM S A) (f : A -> runM S B) : keeps get m -> (forall a, keeps get (f a)) -> keeps get (m ≫= f).
Proof.
  intros Hm Hf x b x'. unfold mbind, runM_bind. destruct (m x) as [[a x1]|] eqn:E; [|done]. intros H.
  eapply tame_trans; [by eapply Hm|by eapply Hf].
Qed.

Lemma keeps_poke f : (forall x, tame (get x) (get (f x))) -> keeps get (poke f).
Proof. unfold poke. intros H x [] x' E. apply (inj Some) in E. injection E as <-. apply H. Qed.

Lemma keeps_calls {A} (f : S -> A * S) : (forall x, tame (get x) (get (snd (f x)))) -> keeps get (calls f).
Proof.
  unfold calls. intros H x a x' E. specialize (H x). destruct (f x) as [a1 x1]. apply (inj Some) in E.
  injection E as <- <-. exact H.
Qed.

Lemma keeps_and_then rc k : keeps get k -> keeps get (and_then rc k).
Proof. intros H. unfold and_then. destruct (decide _); [done|apply keeps_ret]. Qed.
End keeps.

Create HintDb tame.
#[export] Hint Resolve tame_refl write_meta_tame create_tame log_tame meta_cmd_tame wait_tame flush_node_tame
  flush_remaining_tame append_resp_tame snapshot_resp_tame snapshot_req_tame flush_nodes_tame node_connect_tame
  follower_tame meta_change_tame : tame.

Ltac keep := repeat
  lazymatch goal with
  | |- keeps _ (mret _) => apply keeps_ret
  | |- keeps _ halt => apply keeps_halt
  | |- keeps _ (peek _) => apply keeps_peek
  | |- keeps _ (and_then _ _) => apply keeps_and_then
  | |- keeps _ (_ ≫= _) => apply keeps_bind; [|intros ?]
  | |- keeps _ (poke _) => apply keeps_poke; intros ?; unfold id; first [solve [auto with tame nocore]|try by apply same_tame]
  | |- keeps _ (calls _) => apply keeps_calls; intros ?; unfold id; first [solve [auto with tame nocore]|try by apply ballot_tame]
  | |- keeps _ (if ?b then _ else _) => destruct b
  | |- keeps _ (match ?x with _ => _ end) => destruct x
  | |- keeps _ _ => progress auto with tame
  end.

Lemma keeps_commit_index : keeps id commit_index.
Proof. unfold commit_index, match_at. keep. Qed.

Lemma keeps_shutdown_all io ns : keeps id (shutdown_all io ns).
Proof. induction ns as [|n ns IH]; cbn [shutdown_all]; keep. by apply put_tame. Qed.

Lemma keeps_store_put io f index e : keeps id (store_put io f index e).
Proof. induction f as [|f IH]; cbn [store_put]; keep. Qed.

Lemma keeps_store_meta m : keeps id (store_meta m).
Proof. unfold store_meta. cbv zeta. keep. Qed.

Lemma keeps_store_conflict index : keeps id (store_conflict index).
Proof. unfold store_conflict. keep. Qed.

Lemma keeps_store_entries io index buf : keeps id (server_store_entries io index buf).
Proof.
  unfold server_store_entries. destruct (entry_foreach _ _) as [ms|]; [|apply keeps_halt]. revert index.
  induction ms as [|m ms IH]; intros index; cbn [store_loop]; cbv zeta; keep;
    auto using keeps_store_put, keeps_store_meta, keeps_store_conflict.
Qed.
#[export] Hint Resolve keeps_commit_index keeps_shutdown_all keeps_store_entries : tame.

(** ** Members *)

#[export] Instance fits_dec s : Decision (fits s).
Proof. destruct s as [x|]; [|by left]. unfold fits, no_nul. apply _. Defined.

#[export] Instance voters_dec n m : Decision (voters n m).
Proof. unfold voters. apply _. Defined.

(** [member], in a form that can be evaluated. *)
Definition is_member (n : Z) (s : server) : Prop :=
  voters n (s_meta s) /\ voters n (f_meta (s_disk s)) /\ s_in_cluster s = true /\ fits (Some (c_name (s_conf s))) /\
  map_Forall (fun _ x => fits (Some (n_name x))) (s_heap s).

#[export] Instance is_member_dec n s : Decision (is_member n s).
Proof. unfold is_member. apply _. Defined.

Lemma is_member_spec n s : is_member n s -> member n s.
Proof.
  intros (H1 & H2 & H3 & H4 & H5). split; try done. intros j. unfold node_at.
  destruct (s_heap s !! j) as [x|] eqn:E; [by apply (H5 j x)|]. split; [constructor|vm_compute; discriminate].
Qed.

(** What safety asks of a handler that does not vote, and of a start: the term in the file
    is not lowered, and after a success the server is one of [n] voters, its term is not
    lowered and, unless it follows, not changed. *)
Definition steady (n : Z) (rc : rs_rc) (s s' : server) : Prop :=
  m_term (f_meta (s_disk s)) <= m_term (f_meta (s_disk s')) /\
  (rc = RS_OK -> is_member n s' /\ s_term s <= s_term s' /\ (s_role s' = SERVER_ROLE_FOLLOWER \/ s_term s' = s_term s)).

#[export] Instance steady_dec n rc s s' : Decision (steady n rc s s').
Proof. unfold steady. apply _. Defined.

Lemma tame_other n s s' : tame s s' -> steady n RS_OK s s' -> other (view_of s) (view_of s').
Proof.
  intros [V R D _] [H1 H2]. destruct (H2 eq_refl) as (_ & Ht & Hf). split; cbn; [done| |left].
  - destruct D as [->| ->]; [by left|by right].
  - split_and!; [done|by rewrite V|]. destruct R as [[? ?]|(R1 & R2 & R3)]; [by left|right].
    split_and!; try done. by rewrite <- R1.
Qed.

Lemma tame_down n rc s s' : tame s s' -> steady n rc s s' -> other (view_of s) (down (view_of s')).
Proof.
  intros [V R D _] [H1 _]. split; cbn; [done|destruct D as [->| ->]; [by left|by right]|right].
  split_and!; try done. destruct R as [[_ ?]|(_ & ? & _)]; auto.
Qed.

(** ** Closing and starting *)

(** [server_close] frees the nodes and [server_update_connections] creates them again; a node
    that is created again has the address it had. *)
Definition fresh_node (index : Z) (n : node) : node :=
  node_clear_indexes (node_add_uris (node_create (n_name n)) (n_uris n)) index.

(** The part of [server_close] that concerns the state of this model.  The counters of votes
    stay. *)
Definition close_server (s : server) : server :=
  let s := on_vote s (fun v => mk_voting SERVER_ROLE_FOLLOWER None None (v_prevote_count v) (v_prevote_term v)
             (v_vote_count v) (v_vote_timestamp v) false) in
  let s := set_connected_nodes (set_unknown_nodes s []) [] in
  let s := set_round_match (set_round (set_last_ts s 0) 0) 0 in
  let s := set_commit (set_ss_inprogress s false) 0 in
  let s := set_term_clients (set_vclients (set_clients s ∅) ∅) [] in
  set_out s [].

(** A process that starts has everything zero. *)
Definition new_process (s : server) : server :=
  let s := on_vote s (fun _ => mk_voting SERVER_ROLE_FOLLOWER None None 0 0 0 0 false) in
  on_clock s (fun _ => mk_clock 0 0 0 0 0).

(** [server_parse_meta]: name, vote and configuration of the file. *)
Definition parse_file (s : server) : server :=
  let f := s_disk s in
  let s := mk_server (mk_conf (f_name f) (c_heartbeat (s_conf s)) (c_fsync (s_conf s)))
             (s_vote_ s) (s_peers_ s) (s_clock_ s) (s_core_ s) (s_sess_ s) (s_eff_ s) in
  set_meta (set_voted_for s (f_voted_for f)) (f_meta f).

Section cluster.
Variable Q : sqlite.
Variable aux : aux_stmts.
Variable local_time : Z -> option (list byte).
Variable format : list byte -> list byte.
Variable meta_line : meta -> list byte.
Variable line_text : log_line -> list byte.
Variable ss_map : snapshot -> list byte.
Variable fuel : nat.

Abbreviation rep := (replica Q).

(** How a server starts: in a new process or, after a full disk or a received snapshot, in the
    same one; with the option to restore a backup or without; and what [state_open],
    [store_init] and [snapshot_open] find. *)
Record boot := mk_boot {
  b_new : bool;
  b_backup : bool;
  b_state : state Q;
  b_log : rlog;
  b_ss : snapshot
}.

(** [server_read_meta] with the configuration file read: the configuration of the state
    replaces an older one of the file. *)
Definition read_file (io : nat -> answer) (b : boot) (s : server) : option (rs_rc * server) :=
  let s := parse_file (if b_new b then new_process s else s) in
  let s := set_heap s (fresh_node (last_index (b_log b)) <$> s_heap s) in
  let s := set_commit (set_ss (set_log s (b_log b)) (b_ss b)) (st_index (b_state b)) in
  let m := st_meta Q (b_state b) in
  if negb (b_backup b) && (m_index m >? m_index (s_meta s)) then
    match meta_copy m with
    | None => None
    | Some x =>
        let '(rc, s) := server_write_meta io (set_meta s x) in
        if bool_decide (rc = RS_OK) then Some (RS_OK, server_meta_change s) else Some (rc, s)
    end
  else Some (RS_OK, server_meta_change s).

Definition close_replica (r : rep) : rep :=
  mk_replica Q (close_server (r_srv Q r)) (r_st Q r) ∅ [] (r_sent Q r) 0 false.

Definition start_replica (io : nat -> answer) (b : boot) (r : rep) : option (rs_rc * rep) :=
  match read_file io b (close_server (r_srv Q r)) with
  | None => None
  | Some (rc, s) => Some (rc, mk_replica Q s (b_state b) ∅ [] (r_sent Q r) 0 false)
  end.

(** ** Steps *)

(** Servers by node id, those that are closed or have exited, and messages with sender and
    receiver.  The object that a server holds for a peer has the peer's id as its address. *)
Record cluster := mk_cluster { replicas : gmap Z rep; closed : gset Z; net : list (Z * Z * msg) }.

Definition up (c : cluster) (i : Z) : option rep := if decide (i ∈ closed c) then None else replicas c !! i.

(** What happens next: an event that is no message of a node is handled, a message of a node
    arrives or is lost, or a server starts, or starts again after its process was killed.
    Handlers run at a time of the loop and with answers of the environment. *)
Inductive label :=
| Handle (i now : Z) (e : event) (io : nat -> answer)
| Deliver (k : nat) (now : Z) (io : nat -> answer)
| Lose (k : nat)
| Start (i : Z) (io : nat -> answer) (b : boot).

Definition own_event (e : event) : bool :=
  match e with
  | on_node_readable _ _ _ => false
  | on_node_answer _ _ ms _ => bool_decide (ms = [])
  | _ => true
  end.

Definition at_time (now : Z) (r : rep) : rep := put_srv Q r (set_timestamp (r_srv Q r) now).

(** The server that handles the event of a label, the event, and the answers. *)
Definition event_of (c : cluster) (l : label) : option (Z * rep * event * (nat -> answer)) :=
  match l with
  | Handle i now e io =>
      match up c i with
      | Some r => if own_event e then Some (i, at_time now r, e, io) else None
      | None => None
      end
  | Deliver k now io =>
      match net c !! k with
      | Some (src, dst, m) =>
          match up c dst with
          | Some r => Some (dst, at_time now r, on_node_readable src [m] false, io)
          | None => None
          end
      | None => None
      end
  | _ => None
  end.

Definition without (c : cluster) (k : nat) : cluster := mk_cluster (replicas c) (closed c) (delete k (net c)).

Definition set_replica (r : rep) (s : server) : rep :=
  mk_replica Q s (r_st Q r) (r_clients Q r) (r_read_reqs Q r) (r_sent Q r) (r_round_prev Q r) (r_stop_requested Q r).

(** The messages in the output buffers are on their way; no server is connected to itself.  A
    server whose handler or start has failed is closed. *)
Definition finish (c : cluster) (i : Z) (res : rs_rc * rep) : cluster :=
  let '(rc, r) := res in
  let out := filter (fun nm => fst nm <> i) (s_out (r_srv Q r)) in
  mk_cluster
    (<[i := if decide (rc = RS_OK) then set_replica r (set_out (r_srv Q r) []) else close_replica r]> (replicas c))
    (if decide (rc = RS_OK) then closed c ∖ {[i]} else {[i]} ∪ closed c)
    (net c ++ map (fun nm => (i, fst nm, snd nm)) out).

Abbreviation handle io := (server_handle Q aux local_time format meta_line io line_text ss_map fuel).

Definition cluster_step (c : cluster) (l : label) : option cluster :=
  match l with
  | Lose k => Some (without c k)
  | Start i io b =>
      match replicas c !! i with
      | None => None
      | Some r =>
          if b_new b || bool_decide (i ∈ closed c) then finish c i <$> start_replica io b r else None
      end
  | Handle _ _ _ _ =>
      match event_of c l with
      | None => None
      | Some (i, r, e, io) => finish c i <$> handle io e r
      end
  | Deliver k _ _ =>
      match event_of c l with
      | None => None
      | Some (i, r, e, io) => finish (without c k) i <$> handle io e r
      end
  end.

Fixpoint run (c : cluster) (ls : list label) : option cluster :=
  match ls with
  | [] => Some c
  | l :: ls => match cluster_step c l with None => None | Some c => run c ls end
  end.

(** ** Handlers that do not vote *)

Abbreviation calms m := (keeps (r_srv Q) m).

Lemma calms_on_srv {A} (m : runM server A) : keeps id m -> calms (on_srv Q m).
Proof.
  intros Hm r a r'. unfold on_srv. destruct (m (r_srv Q r)) as [[x s]|] eqn:E; [|done]. intros H.
  apply (inj Some) in H. injection H as <- <-. exact (Hm _ _ _ E).
Qed.

Lemma calms_on_st {A} (m : stateM Q A) : calms (on_st Q m).
Proof.
  intros r a r'. unfold on_st. destruct (m (r_st Q r)) as [[x st]|]; [|done]. intros H.
  apply (inj Some) in H. injection H as <- <-. apply tame_refl.
Qed.

Lemma calms_asks io : calms (asks Q io).
Proof. apply calms_on_srv. keep. Qed.

Lemma calms_client_at a : calms (client_at Q a).
Proof. intros r c r'. unfold client_at. destruct (_ !! _); [|done]. intros [= _ <-]. apply tame_refl. Qed.
#[local] Hint Resolve calms_on_st calms_asks calms_client_at : tame.

Ltac calm := repeat (keep;
  try lazymatch goal with
  | |- keeps _ (on_srv Q _) => apply calms_on_srv
  | |- keeps _ (srv Q _) => apply keeps_peek
  | |- keeps _ (or_disconnect _ _ _ _ _) => unfold or_disconnect
  | |- keeps _ (set_client Q _ _) => apply keeps_poke; intros ?; by apply same_tame
  end).

Section events.
Variable io : nat -> answer.

Lemma calms_client_disconnect a rc : calms (server_on_client_disconnect Q io a rc).
Proof. unfold server_on_client_disconnect. calm. Qed.

Lemma calms_client_processed a : calms (client_processed Q io a).
Proof. unfold client_processed. calm. Qed.

Lemma calms_conn_flush : calms (conn_flush Q io).
Proof. unfold conn_flush. calm. Qed.
#[local] Hint Resolve calms_client_disconnect calms_client_processed calms_conn_flush : tame.

Lemma calms_connect_applied sess : calms (server_on_client_connect_applied Q io sess).
Proof. unfold server_on_client_connect_applied. calm. Qed.

Lemma calms_applied_req cid resp : calms (server_on_applied_client_req Q io cid resp).
Proof. unfold server_on_applied_client_req. calm. Qed.

Lemma calms_on_meta m : calms (server_on_meta Q io m).
Proof.
  unfold server_on_meta. calm. cbv beta zeta.
  match goal with |- tame ?s _ => pose proof (meta_change_tame s (s_meta s)) as H end.
  replace (set_meta x (s_meta x)) with x in H by (by destruct x as [? ? ? ? [] ? ?]).
  destruct (_ && _); [|exact H]. eapply tame_trans; [exact H|apply follower_tame].
Qed.
#[local] Hint Resolve calms_connect_applied calms_applied_req calms_on_meta : tame.

Lemma calms_applied_entry e sess : calms (server_on_applied_entry Q io e sess).
Proof. unfold server_on_applied_entry, server_on_term_start. cbv zeta. calm. Qed.
#[local] Hint Resolve calms_applied_entry : tame.

Lemma calms_apply_from n : forall i, calms (apply_from Q aux local_time format meta_line io fuel n i).
Proof. induction n as [|n IH]; intros i; cbn [apply_from]; calm. Qed.
#[local] Hint Resolve calms_apply_from : tame.

Lemma calms_update_commit commit : calms (server_update_commit Q aux local_time format meta_line io fuel commit).
Proof. unfold server_update_commit, maybe_snapshot, snapshot_take. cbv zeta. calm. Qed.
#[local] Hint Resolve calms_update_commit : tame.

Lemma calms_append_req n term prev_log_index prev_log_term leader_commit round buf :
  calms (server_on_append_req Q aux local_time format meta_line io fuel n term prev_log_index prev_log_term leader_commit round buf).
Proof.
  unfold server_on_append_req. cbv zeta. calm; solve [by apply put_tame|case_if; auto with tame].
Qed.
#[local] Hint Resolve calms_append_req : tame.

(** Messages and events of elections. *)
Definition votes_msg (m : msg) : bool :=
  match m with prevote_req _ _ _ | prevote_resp _ _ _ | reqvote_req _ _ _ | reqvote_resp _ _ _ => true | _ => false end.

Definition votes (e : event) : bool :=
  match e with
  | on_election_timer _ => true
  | on_node_readable _ ms _ | on_node_answer _ _ ms _ => existsb votes_msg ms
  | _ => false
  end.

Lemma calms_node_msg n m :
  votes_msg m = false -> calms (on_node_msg Q aux local_time format meta_line io line_text fuel n m).
Proof. intros Hm. unfold on_node_msg, server_on_shutdown_req. cbv zeta. destruct m; try done; calm. Qed.

Lemma calms_disconnect n : calms (on_srv Q (poke (fun s => server_on_node_disconnect s n))).
Proof. calm. apply same_tame, disconnect_ballot. Qed.
#[local] Hint Resolve calms_disconnect : tame.

Lemma calms_node_recv n ms invalid :
  existsb votes_msg ms = false -> calms (node_recv Q aux local_time format meta_line io line_text fuel n ms invalid).
Proof.
  induction ms as [|m ms IH]; cbn [node_recv existsb]; cbv zeta.
  - intros _. destruct invalid; calm; apply same_tame, disconnect_ballot.
  - intros [Hm Hms]%orb_false_iff. apply keeps_bind; [by apply calms_node_msg|intros rc].
    destruct rc; [apply keeps_and_then; by apply IH|]. calm; apply same_tame, disconnect_ballot.
Qed.

Lemma calms_pending conn rc : calms (server_on_pending_disconnect Q io conn rc).
Proof. unfold server_on_pending_disconnect. calm. Qed.
#[local] Hint Resolve calms_pending : tame.

Lemma calms_client_connect conn name local remote : calms (server_on_client_connect_req Q io conn name local remote).
Proof. unfold server_on_client_connect_req. cbv zeta. calm. Qed.

Lemma calms_take_request a seq readonly buf : calms (take_request Q io a seq readonly buf).
Proof. unfold take_request. calm. cbv beta. case_if; by apply same_tame. Qed.
#[local] Hint Resolve calms_client_connect calms_take_request : tame.

Lemma calms_client_recv a pending d : calms (server_on_client_recv Q io a pending d).
Proof. unfold server_on_client_recv. cbv zeta. calm. Qed.

Lemma calms_answer_reads l : calms (answer_reads Q aux io fuel l).
Proof. induction l as [|a l IH]; cbn [answer_reads]; unfold server_process_readonly; calm. Qed.
#[local] Hint Resolve calms_client_recv calms_answer_reads : tame.

Lemma calms_check_commit : calms (server_check_commit Q aux local_time format meta_line io fuel).
Proof. unfold server_check_commit. calm. cbv zeta. case_if; by apply same_tame. Qed.

Lemma calms_jobs jobs : calms (handle_jobs Q io line_text jobs).
Proof.
  induction jobs as [|job jobs IH]; cbn [handle_jobs]; calm;
    unfold server_job_add_node, server_job_remove_node, server_job_shutdown, server_on_shutdown_req; cbv zeta; calm.
  apply same_tame. by rewrite update_connections_ballot.
Qed.
#[local] Hint Resolve calms_check_commit calms_jobs : tame.

Lemma calms_flush : calms (server_flush Q aux local_time format meta_line io line_text ss_map fuel).
Proof. unfold server_flush, server_handle_jobs. calm. Qed.

Lemma calms_info_timer peers : calms (server_on_info_timer Q io peers).
Proof.
  unfold server_on_info_timer. calm. eapply tame_trans; [|apply flush_node_tame]. by apply put_tame.
Qed.
#[local] Hint Resolve calms_flush calms_info_timer calms_node_recv : tame.

(** Whatever the other handlers do. *)
Lemma handle_tame e r rc r' : votes e = false -> handle io e r = Some (rc, r') -> tame (r_srv Q r) (r_srv Q r').
Proof.
  intros He. revert r rc r'. change (calms (handle io e)).
  destruct e; cbn [server_handle votes] in *; try done; calm.
  unfold server_on_connect_resp. cbv zeta. destruct d as [| |m]; [| |destruct m]; calm; try (apply same_tame, disconnect_ballot).
Qed.
End events.

(** ** Handlers of elections *)

(** The messages of elections in [server_on_node_recv]. *)
Definition on_vote_msg (io : nat -> answer) (s : server) (n : Z) (m : msg) : rs_rc * server :=
  match m with
  | reqvote_req term _ index => server_on_reqvote_req io s n term index
  | reqvote_resp term _ granted => server_on_reqvote_resp io s term granted
  | prevote_req term _ index => server_on_prevote_req s n term index
  | prevote_resp term _ granted => server_on_prevote_resp io s term granted
  | _ => (RS_OK, s)
  end.

Lemma timer_result io now r :
  exists x, handle io (on_election_timer now) r =
    Some (fst (server_on_election_timeout io (set_timestamp (r_srv Q r) now)), x) /\
    r_srv Q x = snd (server_on_election_timeout io (set_timestamp (r_srv Q r) now)).
Proof.
  cbn [server_handle]. unfold mbind, runM_bind, on_srv, poke, calls. cbn [r_srv put_srv].
  destruct (server_on_election_timeout _ _) as [rc s]. eexists. split; reflexivity.
Qed.

(** What follows the message in [server_on_node_recv]: the answer is flushed, or the node
    disconnected. *)
Definition after_msg (io : nat -> answer) (n : Z) (r : rs_rc * server) : rs_rc * server :=
  if decide (fst r = RS_OK) then
    let '(a, s) := ask io (snd r) in
    (RS_OK, if decide (a_rc a = RS_OK) then s else server_on_node_disconnect s n)
  else r.

Lemma vote_result io n m r :
  votes_msg m = true ->
  let res := after_msg io n (on_vote_msg io (r_srv Q r) n m) in
  exists x, handle io (on_node_readable n [m] false) r = Some (fst res, x) /\ r_srv Q x = snd res.
Proof.
  intros Hm. cbn [server_handle]. unfold server_on_node_recv. cbn [node_recv]. unfold on_node_msg. cbv zeta.
  assert (H : forall f : server -> rs_rc * server,
    let res := after_msg io n (f (r_srv Q r)) in
    exists x, ((on_srv Q (calls f) ≫= fun rc => mret (Some rc)) ≫= fun rc =>
      match rc with
      | Some rc => and_then rc (rc ← conn_flush Q io; if decide (rc = RS_OK) then mret RS_OK
          else on_srv Q (poke (fun s => server_on_node_disconnect s n));; mret RS_OK)
      | None => on_srv Q (poke (fun s => server_on_node_disconnect s n));; mret RS_OK
      end) r = Some (fst res, x) /\ r_srv Q x = snd res).
  { intros f. cbv zeta. unfold mbind, runM_bind, mret, runM_ret, on_srv, calls. destruct (f (r_srv Q r)) as [rc s]. cbn [fst snd].
    unfold after_msg, and_then. cbn [fst snd]. destruct (decide (rc = RS_OK)); [|by eexists].
    unfold conn_flush, asks, mbind, runM_bind, mret, runM_ret, on_srv, calls, poke, ask. cbn [r_srv put_srv].
    destruct (decide _); by eexists. }
  destruct m; try done; apply H.
Qed.

Lemma handles_from n i P s s1 r : view_of s1 = view_of s -> s_out s1 = s_out s -> handles n i P s r -> handles n i P s1 r.
Proof. intros Ev Eo (gs & v' & Hl & [G R] & H). exists gs, v'. rewrite Ev. split_and!; [done|split; by rewrite Eo|done]. Qed.

Lemma handles_after io n i P s n' r : handles n i P s r -> handles n i P s (after_msg io n' r).
Proof.
  destruct r as [rc s1]. intros (gs & v' & Hl & Hs & H). unfold after_msg. cbn [fst snd] in *.
  destruct (decide (rc = RS_OK)) as [->|Hrc].
  2: { exists gs, v'. cbn [fst snd]. by rewrite decide_False. }
  destruct H as [Hm Ev]. unfold ask. cbv beta iota zeta. destruct (member_io n s1 (S (s_io s1)) Hm) as [Hm2 Ev2].
  set (s2 := set_io s1 _) in *. set (s3 := if decide _ then s2 else _).
  assert (H3 : member n s3 /\ view_of s3 = view_of s1 /\ s_out s3 = s_out s1).
  { unfold s3. destruct (decide _); [by split_and!|]. destruct (disconnect_member n s2 n' Hm2) as (A & B & C & _).
    split_and!; [done|by rewrite B|done]. }
  destruct H3 as (A & B & C). eapply handles_ok; [done|by rewrite B, Ev|].
  eapply speaks_more; [exact Hs|by apply speaks_same].
Qed.

Lemma tame_handles n i P rc s s' : tame s s' -> steady n rc s s' -> handles n i P s (rc, s').
Proof.
  intros Ht Hs. destruct (decide (rc = RS_OK)) as [->|Hrc].
  - apply (handles_ok n i P s s' []); [by apply is_member_spec, Hs|by eapply locals_one, l_other, tame_other|apply Ht].
  - eapply handles_fail; [done|by eapply locals_one, l_other, tame_down|done|apply Ht].
Qed.

(** ** Calm runs *)

(** A start does not lower the term in the file and, when it succeeds, gives one of [n]
    voters. *)
Definition starts_well (n : Z) (rc : rs_rc) (s s' : server) : Prop :=
  m_term (f_meta (s_disk s)) <= m_term (f_meta (s_disk s')) /\ (rc = RS_OK -> is_member n s').

#[export] Instance starts_well_dec n rc s s' : Decision (starts_well n rc s s').
Proof. unfold starts_well. apply _. Defined.

(** What safety asks of an event: terms do not wrap around, a vote is only given by a follower,
    and handlers that do not vote are steady. *)
Definition calm_event (n : Z) (io : nat -> answer) (r : rep) (e : event) : bool :=
  let s := r_srv Q r in
  match e with
  | on_election_timer _ => s_term s + 1 <? 2 ^ 64
  | on_node_readable _ [reqvote_req t _ ix] _ => negb (would_grant s t ix) || bool_decide (s_role s = SERVER_ROLE_FOLLOWER)
  | _ =>
      if votes e then true
      else match handle io e r with Some (rc, r') => bool_decide (steady n rc s (r_srv Q r')) | None => true end
  end.

Definition calm_step (n : Z) (c : cluster) (l : label) : bool :=
  match l with
  | Lose _ => true
  | Start i io b =>
      match replicas c !! i with
      | Some r =>
          match start_replica io b r with
          | Some (rc, r') => bool_decide (starts_well n rc (r_srv Q r) (r_srv Q r'))
          | None => true
          end
      | None => true
      end
  | _ => match event_of c l with Some (_, r, e, io) => calm_event n io r e | None => true end
  end.

Fixpoint calm (n : Z) (c : cluster) (ls : list label) : bool :=
  match ls with
  | [] => true
  | l :: ls => calm_step n c l && match cluster_step c l with None => true | Some c => calm n c ls end
  end.

(** ** Every step is secure *)

(** A closed server knows what its file has. *)
Definition view_at (c : cluster) (i : Z) (r : rep) : view :=
  if decide (i ∈ closed c) then down (view_of (r_srv Q r)) else view_of (r_srv Q r).

Definition views (c : cluster) : gmap Z view := map_imap (fun i r => Some (view_at c i r)) (replicas c).

Lemma views_lookup c i : views c !! i = view_at c i <$> replicas c !! i.
Proof. unfold views. rewrite map_lookup_imap. by destruct (replicas c !! i). Qed.

(** The answers with a vote that are on their way. *)
Definition sent (ms : list (Z * Z * msg)) : list (Z * Z * Z) := omap (fun x => granted x.1.1 (x.1.2, x.2)) ms.

Lemma sent_app a b : sent (a ++ b) = sent a ++ sent b.
Proof. unfold sent. apply omap_app. Qed.

Lemma sent_out i out : sent (map (fun nm : Z * msg => (i, fst nm, snd nm)) out) = grants i out.
Proof.
  unfold sent, grants. induction out as [|[j m] out IH]; [done|]. cbn [map omap list_omap fst snd].
  destruct (granted i (j, m)); [f_equal|]; exact IH.
Qed.

Lemma grants_others i gs out :
  grants i out = given i gs -> grants i (filter (fun nm : Z * msg => fst nm <> i) out) = given i gs.
Proof.
  intros E. assert (Ha : Forall (fun x : Z * Z * Z => x.2 <> i) (grants i out)).
  { rewrite E. unfold given. apply Forall_fmap, Forall_forall. by intros x [? _]%list_elem_of_filter. }
  rewrite <- E. clear E. unfold grants in *. induction out as [|[j m] out IH]; [done|].
  cbn [omap list_omap] in *. unfold filter in *. cbn [list_filter fst].
  destruct (granted i (j, m)) as [x|] eqn:Eg.
  - apply Forall_cons in Ha as [Hx Ha]. assert (x.2 = j) as Ej.
    { unfold granted in Eg. cbn [fst snd] in Eg. destruct m as [| | | | | | | | | | |t ix g| | | | |]; try done.
      destruct g; [|done]. by injection Eg as <-. }
    rewrite decide_True by congruence. cbn [omap list_omap]. rewrite Eg. f_equal. by apply IH.
  - destruct (decide _); [cbn [omap list_omap]; rewrite Eg|]; by apply IH.
Qed.

Record orderly (n : Z) (c : cluster) : Prop := {
  or_net : forall src dst m, (src, dst, m) ∈ net c -> src <> dst;
  or_out : forall i r, replicas c !! i = Some r -> s_out (r_srv Q r) = [];
  or_open : forall i r, up c i = Some r -> member n (r_srv Q r);
  or_closed : forall i r, replicas c !! i = Some r -> i ∈ closed c -> s_role (r_srv Q r) = SERVER_ROLE_FOLLOWER
}.

(** Who asks for votes in a term has voted for itself. *)
Definition asked (c : cluster) (V : gset (Z * Z * Z)) : Prop :=
  forall src dst t lt ix, (src, dst, reqvote_req t lt ix) ∈ net c -> (src, t, src) ∈ V.

Record secure (n : Z) (c : cluster) : Prop := {
  se_orderly : orderly n c;
  se_sound : exists V, sound n (views c) V (sent (net c)) /\ asked c V
}.

(** The result of a handler or a start that began with the view [v]. *)
Definition results (n i : Z) (P : ballots) (v : view) (r : rs_rc * server) : Prop :=
  exists gs v', locals n i P v v' gs /\ grants i (s_out (snd r)) = given i gs /\
    (forall t, t ∈ requests (s_out (snd r)) -> (t, i) ∈ gs) /\
    (if decide (fst r = RS_OK) then member n (snd r) /\ view_of (snd r) = v' else down (view_of (snd r)) = down v').

Lemma handles_results n i P s r : s_out s = [] -> handles n i P s r -> results n i P (view_of s) r.
Proof.
  intros Ho (gs & v' & Hl & [G R] & H). exists gs, v'. rewrite Ho in G, R. split_and!; [done|done| |done].
  intros t [[]%elem_of_nil|]%R. done.
Qed.

(** The view of the server afterwards. *)
Lemma results_settle n i P v rc s' :
  results n i P v (rc, s') ->
  exists gs, locals n i P v (if decide (rc = RS_OK) then view_of s' else down (view_of s')) gs /\
    grants i (s_out s') = given i gs /\ (forall t, t ∈ requests (s_out s') -> (t, i) ∈ gs).
Proof.
  intros (gs & v' & Hl & G & R & H). exists gs. cbn [fst snd] in *. split_and!; [|done|done].
  destruct (decide (rc = RS_OK)); [by destruct H as [_ ->]|]. rewrite H.
  eapply locals_then; [exact Hl|apply l_other, down_other].
Qed.

Lemma finish_views c i rc r r0 :
  replicas c !! i = Some r0 ->
  views (finish c i (rc, r)) =
  <[i := if decide (rc = RS_OK) then view_of (r_srv Q r) else down (view_of (r_srv Q r))]> (views c).
Proof.
  intros Hi. apply map_eq. intros j. rewrite views_lookup. unfold finish. cbn [replicas].
  destruct (decide (i = j)) as [<-|Hne].
  - rewrite !lookup_insert_eq. cbn [fmap option_fmap option_map]. f_equal. unfold view_at. cbn [closed].
    destruct (decide (rc = RS_OK)); [rewrite decide_False|rewrite decide_True]; try done.
    + rewrite elem_of_difference, elem_of_singleton. by intros [_ H].
    + rewrite elem_of_union, elem_of_singleton. by left.
  - rewrite !lookup_insert_ne, views_lookup by done. destruct (replicas c !! j) as [x|]; [|done].
    cbn [fmap option_fmap option_map]. f_equal. unfold view_at. cbn [closed].
    apply decide_ext. destruct (decide (rc = RS_OK)).
    + rewrite elem_of_difference, elem_of_singleton. split; [by intros [? _]|by intros ?; split; [|congruence]].
    + rewrite elem_of_union, elem_of_singleton. split; [by intros [?|]; [congruence|]|by right].
Qed.

Lemma up_some c i r : up c i = Some r <-> replicas c !! i = Some r /\ i ∉ closed c.
Proof. unfold up. destruct (decide _); split; [done|by intros [? ?]|done|by intros [? _]]. Qed.

Lemma finish_orderly n c i rc r :
  orderly n c -> (rc = RS_OK -> member n (r_srv Q r)) -> orderly n (finish c i (rc, r)).
Proof.
  intros [H1 H2 H3 H4] Hm. unfold finish. split; cbn [net replicas closed].
  - intros src dst m [Hx|Hx]%elem_of_app; [by eapply H1|].
    apply list_elem_of_fmap in Hx as ([d x] & [= -> -> ->] & [Hd _]%list_elem_of_filter). cbn in *. congruence.
  - intros j x. destruct (decide (i = j)) as [<-|Hne]; [|rewrite lookup_insert_ne by done; apply H2].
    rewrite lookup_insert_eq. intros [= <-]. by destruct (decide _).
  - intros j x [Hj Hc]%up_some. cbn [replicas closed] in *. destruct (decide (i = j)) as [<-|Hne].
    + rewrite lookup_insert_eq in Hj. injection Hj as <-. destruct (decide (rc = RS_OK)) as [Hrc|]; [|set_solver].
      destruct (Hm Hrc). by split.
    + rewrite lookup_insert_ne in Hj by done. apply (H3 j), up_some. split; [done|]. destruct (decide (rc = RS_OK)); set_solver.
  - intros j x. destruct (decide (i = j)) as [<-|Hne].
    + rewrite lookup_insert_eq. intros [= <-]. destruct (decide (rc = RS_OK)); [set_solver|done].
    + rewrite lookup_insert_ne by done. intros Hj Hc. apply (H4 j x Hj). destruct (decide (rc = RS_OK)); set_solver.
Qed.

Lemma finish_secure n c i P v rc r r0 V :
  orderly n c -> replicas c !! i = Some r0 ->
  sound n (<[i := v]> (views c)) V (sent (net c)) -> asked c V -> (forall t x, P (t, x) -> (x, t, x) ∈ V) ->
  results n i P v (rc, r_srv Q r) -> secure n (finish c i (rc, r)).
Proof.
  intros Ho Hi Hs Ha HP Hr. split.
  { apply finish_orderly; [done|]. intros ->. destruct Hr as (gs & v' & _ & _ & _ & H). cbn in H. apply H. }
  destruct (results_settle _ _ _ _ _ _ Hr) as (gs & Hl & G & R).
  destruct (locals_sound n i P _ _ gs Hl _ V _ Hs (lookup_insert_eq _ _ _) HP) as (V' & HV & Hself & Hs').
  exists V'. rewrite insert_insert_eq in Hs'. rewrite (finish_views c i rc r r0 Hi). unfold finish. cbn [net]. split.
  - rewrite sent_app, sent_out, (grants_others i gs) by done. exact Hs'.
  - intros src dst t lt ix. cbn [net]. intros [Hx|Hx]%elem_of_app; [by eapply HV, Ha|].
    apply list_elem_of_fmap in Hx as ([d m] & [= -> -> <-] & [_ Hx]%list_elem_of_filter). apply Hself, R.
    apply list_elem_of_omap. by exists (d, reqvote_req t lt ix).
Qed.

Lemma sent_without ms k src dst m :
  ms !! k = Some (src, dst, m) ->
  exists G1 G2, sent (delete k ms) = G1 ++ G2 /\
    sent ms = G1 ++ match granted src (dst, m) with Some x => x :: G2 | None => G2 end.
Proof.
  intros Hk. exists (sent (take k ms)), (sent (drop (S k) ms)). split.
  - rewrite delete_take_drop. unfold sent. by rewrite omap_app.
  - rewrite <- (take_drop_middle _ _ _ Hk) at 1. unfold sent. rewrite omap_app. reflexivity.
Qed.

Lemma elem_without c k x : x ∈ net (without c k) -> x ∈ net c.
Proof.
  cbn [without net]. rewrite delete_take_drop. intros [H|H]%elem_of_app; eapply elem_of_submseteq; try exact H;
    [apply submseteq_take|apply submseteq_drop].
Qed.

Lemma without_orderly n c k : orderly n c -> orderly n (without c k).
Proof. intros [H1 H2 H3 H4]. split; try done. intros src dst m Hx%elem_without. by eapply H1. Qed.

Lemma asked_without c k V : asked c V -> asked (without c k) V.
Proof. intros H src dst t lt ix Hx%elem_without. by eapply H. Qed.

Lemma lose_sound n c k V : sound n (views c) V (sent (net c)) -> sound n (views c) V (sent (net (without c k))).
Proof.
  intros Hs. cbn [without net]. destruct (net c !! k) as [[[src dst] m]|] eqn:Hk.
  - destruct (sent_without _ _ _ _ _ Hk) as (G1 & G2 & -> & E). rewrite E in Hs.
    destruct (granted src (dst, m)); [|done]. by eapply sound_lose.
  - apply lookup_ge_None in Hk. rewrite delete_take_drop, take_ge, drop_ge, app_nil_r by lia. exact Hs.
Qed.

Lemma lose_secure n c k : secure n c -> secure n (without c k).
Proof.
  intros [Ho (V & Hs & Ha)]. split; [by apply without_orderly|]. exists V. split; [exact (lose_sound n c k V Hs)|by apply asked_without].
Qed.

(** *** Events *)

Lemma at_time_member n now r : member n (r_srv Q r) -> member n (r_srv Q (at_time now r)).
Proof. intros []. by split. Qed.

Lemma up_view n c i r V :
  up c i = Some r -> sound n (views c) V (sent (net c)) ->
  views c !! i = Some (view_of (r_srv Q r)) /\ sound n (<[i := view_of (r_srv Q r)]> (views c)) V (sent (net c)).
Proof.
  intros [Hi Hc]%up_some Hs.
  assert (Hv : views c !! i = Some (view_of (r_srv Q r))).
  { rewrite views_lookup, Hi. cbn. unfold view_at. by rewrite decide_False. }
  split; [done|]. by rewrite insert_id.
Qed.

Lemma handled_secure n c i now r P rc r' V :
  orderly n c -> up c i = Some r -> sound n (views c) V (sent (net c)) -> asked c V -> (forall t x, P (t, x) -> (x, t, x) ∈ V) ->
  handles n i P (r_srv Q (at_time now r)) (rc, r_srv Q r') -> secure n (finish c i (rc, r')).
Proof.
  intros Ho Hu Hs Ha HP Hh. destruct (up_view n c i r V Hu Hs) as [_ Hs']. apply up_some in Hu as [Hi _].
  eapply finish_secure; [done|exact Hi|exact Hs'|done|exact HP|]. apply handles_results in Hh; [exact Hh|].
  exact (or_out _ _ Ho i r Hi).
Qed.

(** An event that has nothing to do with votes. *)
Lemma calm_handles n i P io r e rc r' :
  votes e = false -> calm_event n io r e = true -> handle io e r = Some (rc, r') ->
  handles n i P (r_srv Q r) (rc, r_srv Q r').
Proof.
  intros Hv Hc Hr. apply tame_handles; [by eapply handle_tame|].
  assert (Hst : match handle io e r with
    | Some (rc, x) => bool_decide (steady n rc (r_srv Q r) (r_srv Q x)) | None => true end = true).
  { unfold calm_event in Hc. rewrite Hv in Hc. destruct e as [| | |? [|[] []]| | | | |]; done. }
  rewrite Hr in Hst. by apply bool_decide_eq_true in Hst.
Qed.

(** An event that is no message of a node. *)
Lemma own_secure n c i now r e io rc r' :
  0 <= n < 2 ^ 32 -> secure n c -> up c i = Some r -> own_event e = true ->
  calm_event n io (at_time now r) e = true -> handle io e (at_time now r) = Some (rc, r') -> secure n (finish c i (rc, r')).
Proof.
  intros Hn [Ho (V & Hs & Ha)] Hu He Hc Hr. pose proof (at_time_member n now r (or_open _ _ Ho i r Hu)) as Hm.
  apply (handled_secure n c i now r (fun _ => False) rc r' V); try done.
  assert (Hcase : votes e = false \/ exists t, e = on_election_timer t).
  { destruct e; cbn [own_event votes] in *; try (by left); [right; by eexists|]. left. by apply bool_decide_eq_true in He as ->. }
  destruct Hcase as [Hv|[t ->]].
  - by eapply calm_handles.
  - destruct (timer_result io t (at_time now r)) as (x & E & Ex). rewrite E in Hr. injection Hr as <- <-. rewrite Ex.
    cbn [calm_event] in Hc. zb.
    assert (H0 : 0 <= s_term (r_srv Q r)).
    { destruct (up_view n c i r V Hu Hs) as [Hv _]. apply (so_honest _ _ _ _ Hs i _ Hv). }
    assert (Hm' : member n (set_timestamp (r_srv Q (at_time now r)) t)) by (destruct Hm; by split).
    pose proof (timeout_handles io n i (fun _ => False) _ Hn Hm' H0 Hc) as H.
    destruct (server_on_election_timeout _ _) as [rc s]. by eapply handles_from, H.
Qed.

(** A vote that is counted. *)
Lemma counted_secure n c k now io src dst t ix g r r' :
  0 <= n < 2 ^ 32 -> secure n c -> net c !! k = Some (src, dst, reqvote_resp t ix g) -> up c dst = Some r ->
  let s := r_srv Q (at_time now r) in
  counts s t g = true ->
  r_srv Q r' = snd (after_msg io src (server_on_reqvote_resp io s t g)) ->
  secure n (finish (without c k) dst (fst (after_msg io src (server_on_reqvote_resp io s t g)), r')).
Proof.
  intros Hn [Ho (V & Hs & Ha)] Hk Hu s Ec Er. pose proof (at_time_member n now r (or_open _ _ Ho dst r Hu)) as Hm.
  pose proof (reqvote_resp_handles io n dst (fun tc => tc = (t, dst)) s t g Hn Hm) as Hh. rewrite Ec in Hh.
  specialize (Hh (fun _ => eq_refl)). pose proof Ec as Ec'. unfold counts in Ec'.
  apply andb_true_iff in Ec' as [[Hr Et]%andb_true_iff Eg]. zb. subst g. apply bool_decide_eq_true in Hr.
  destruct (sent_without _ _ _ _ _ Hk) as (G1 & G2 & E1 & E2). cbn [granted snd fst] in E2. rewrite E2 in Hs.
  assert (Hin : (src, t, dst) ∈ V).
  { apply (so_sent _ _ _ _ Hs). apply elem_of_app. right. by left. }
  assert (Hv : views c !! dst = Some (view_of s)).
  { apply up_some in Hu as [Hi Hc]. rewrite views_lookup, Hi. cbn [fmap option_fmap option_map]. unfold view_at. by rewrite decide_False. }
  rewrite <- Et in Hs. pose proof (sound_count n _ V G1 G2 src dst (view_of s) Hs Hv Hr) as Hs'.
  apply up_some in Hu as [Hi _].
  eapply (finish_secure n (without c k) dst (fun tc => tc = (t, dst)) (view_of (set_vote_count s (s_vote_count s +₃₂ 1))) _ _ r V);
    [by apply without_orderly|exact Hi|cbn [without net]; rewrite E1; exact Hs'|by apply asked_without| |].
  - intros t' x [= -> ->]. by eapply (so_asked _ _ _ _ Hs).
  - rewrite Er, <- surjective_pairing. apply handles_results; [exact (or_out _ _ Ho dst r Hi)|]. by apply handles_after.
Qed.

(** The other messages of elections. *)
Lemma vote_handles n io src dst s m P :
  0 <= n < 2 ^ 32 -> member n s -> votes_msg m = true -> src <> dst ->
  match m with
  | reqvote_req t _ ix => (would_grant s t ix = true -> s_role s = SERVER_ROLE_FOLLOWER) /\ P (t, src)
  | reqvote_resp t _ g => counts s t g = false
  | _ => True
  end -> handles n dst P s (on_vote_msg io s src m).
Proof.
  intros Hn Hm Hv Hne Hx. destruct m as [| | | | | | | |t lt ix|t ix g|t lt ix|t ix g| | | | |]; try done; cbn [on_vote_msg].
  - by apply prevote_req_handles.
  - by apply prevote_resp_handles.
  - apply reqvote_req_handles; [done|apply Hx|done|apply Hx].
  - pose proof (reqvote_resp_handles io n dst P s t g Hn Hm) as H. rewrite Hx in H. by apply H.
Qed.

(** A message of a node. *)
Lemma message_secure n c k now io src dst m r rc r' :
  0 <= n < 2 ^ 32 -> secure n c -> net c !! k = Some (src, dst, m) -> up c dst = Some r ->
  calm_event n io (at_time now r) (on_node_readable src [m] false) = true ->
  handle io (on_node_readable src [m] false) (at_time now r) = Some (rc, r') ->
  secure n (finish (without c k) dst (rc, r')).
Proof.
  intros Hn Hsec Hk Hu Hc Hr. pose proof Hsec as [Ho (V & Hs & Ha)].
  pose proof (at_time_member n now r (or_open _ _ Ho dst r Hu)) as Hm.
  pose proof (list_elem_of_lookup_2 _ _ _ Hk) as Hin. pose proof (or_net _ _ Ho _ _ _ Hin) as Hne.
  assert (Hgo : forall P, (forall t x, P (t, x) -> (x, t, x) ∈ V) ->
    handles n dst P (r_srv Q (at_time now r)) (rc, r_srv Q r') -> secure n (finish (without c k) dst (rc, r'))).
  { intros P HP Hh. apply (handled_secure n (without c k) dst now r P rc r' V); try done;
      [by apply without_orderly|by apply (lose_sound n c k)|by apply asked_without]. }
  destruct (votes_msg m) eqn:Hv.
  - destruct (vote_result io src m (at_time now r) Hv) as (x & E & Ex). rewrite E in Hr. injection Hr as <- <-. clear E.
    rewrite Ex, <- surjective_pairing in Hgo. set (s := r_srv Q (at_time now r)) in *.
    destruct (match m with reqvote_resp t _ g => counts s t g | _ => false end) eqn:Ec.
    { destruct m; try done. by eapply counted_secure. }
    apply (Hgo (fun tc => match m with reqvote_req t _ _ => tc = (t, src) | _ => False end)).
    { intros t x0. destruct m; try done. intros [= -> ->]. by eapply Ha. }
    apply handles_after, vote_handles; try done. destruct m; try done. split; [|done]. intros Hw.
    cbn [calm_event] in Hc. fold s in Hc. rewrite Hw in Hc. by apply bool_decide_eq_true in Hc.
  - apply (Hgo (fun _ => False)); [done|].
    apply (calm_handles n dst _ io (at_time now r) (on_node_readable src [m] false)); [cbn; by rewrite Hv|done|done].
Qed.

(** *** Starts *)

Lemma meta_change_start s :
  s_role s = SERVER_ROLE_FOLLOWER -> view_of (server_meta_change s) = view_of s /\ s_out (server_meta_change s) = s_out s.
Proof.
  intros Hr. unfold server_meta_change. cbv zeta. set (s0 := set_in_cluster s _).
  pose proof (update_connections_ballot s0) as Hb. pose proof (update_connections_core s0) as Hc.
  set (s1 := server_update_connections s0) in *. clearbody s1. unfold ballot in Hb. injection Hb as E1 E2 E3 E4 E5 E6.
  assert (Hf : bool_decide (s_role s1 = SERVER_ROLE_LEADER) = false)
    by (apply bool_decide_eq_false; rewrite E1; cbn; by rewrite Hr).
  rewrite Hf, andb_false_r. cbn [andb]. split; [|done]. unfold view_of, s_term. rewrite Hc. by rewrite E1, E2, E3, E4.
Qed.

(** A server starts with term and vote of its file, which keeps its vote. *)
Lemma read_file_view io b s rc s' :
  read_file io b (close_server s) = Some (rc, s') ->
  s_out s' = [] /\ (v_count (view_of s') = 0 \/ v_count (view_of s') = v_count (view_of s)) /\
  v_dvoted (view_of s') = v_dvoted (view_of s) /\
  (rc = RS_OK -> v_is (view_of s') = SERVER_ROLE_FOLLOWER /\ v_term (view_of s') = v_dterm (view_of s') /\
    v_voted (view_of s') = v_dvoted (view_of s')).
Proof.
  unfold read_file. cbv zeta. set (s1 := set_commit _ _).
  assert (H1 : s_out s1 = [] /\ s_role s1 = SERVER_ROLE_FOLLOWER /\
    (s_vote_count s1 = 0 \/ s_vote_count s1 = s_vote_count s) /\
    s_voted_for s1 = f_voted_for (s_disk s) /\ s_disk s1 = s_disk s /\ s_meta s1 = f_meta (s_disk s)).
  { unfold s1. destruct (b_new b); split_and!; try done; [by left|by right]. }
  clearbody s1. destruct H1 as (O1 & R1 & K1 & V1 & D1 & M1). destruct (negb _ && _).
  - destruct (meta_copy _) as [x|]; [|done].
    destruct (write_meta_spec io (set_meta s1 x)) as (rc0 & s2 & -> & E1 & _ & E3 & _ & E5 & E6).
    assert (D2 : f_voted_for (s_disk s2) = f_voted_for (s_disk s))
      by (destruct E6 as [->|[-> _]]; cbn; [exact V1|by rewrite D1]).
    case_bool_decide as Hrc; intros [= <- <-].
    + destruct E6 as [E6|[_ ?]]; [|done]. destruct (meta_change_start s2) as [-> ->]; [by rewrite E1|].
      unfold view_of, s_term. cbn [v_is v_term v_voted v_count v_dterm v_dvoted]. rewrite D2, E1, E3, E5. cbn.
      rewrite E6. cbn. split_and!; try done. intros _. split_and!; try done. by rewrite V1.
    + cbn [view_of v_is v_term v_voted v_count v_dterm v_dvoted]. rewrite D2, E5, E1. cbn. split_and!; try done.
  - intros [= <- <-]. destruct (meta_change_start s1 R1) as [-> ->]. unfold view_of, s_term.
    cbn [v_is v_term v_voted v_count v_dterm v_dvoted]. rewrite M1, V1, D1. by split_and!.
Qed.

Lemma start_results n i P io b s rc s' :
  read_file io b (close_server s) = Some (rc, s') -> starts_well n rc s s' ->
  results n i P (down (view_of s)) (rc, s').
Proof.
  intros E [Hd Hm]. destruct (read_file_view io b s rc s' E) as (Ho & Hk & Hv & Hok).
  exists []. cbn [fst snd]. rewrite Ho.
  exists (if decide (rc = RS_OK) then view_of s' else down (view_of s')). split_and!; [|done|by intros t ?%elem_of_nil|].
  - apply locals_one, l_other. destruct (decide (rc = RS_OK)) as [Hrc|]; split; cbn; try done; try (by left); right.
    + destruct (Hok Hrc) as (A & B & C). by split_and!.
    + by split_and!.
  - destruct (decide (rc = RS_OK)) as [Hrc|]; [|done]. split; [by apply is_member_spec, Hm|done].
Qed.

Lemma start_secure n c i io b r rc r' :
  secure n c -> replicas c !! i = Some r -> start_replica io b r = Some (rc, r') ->
  starts_well n rc (r_srv Q r) (r_srv Q r') -> secure n (finish c i (rc, r')).
Proof.
  intros [Ho (V & Hs & Ha)] Hi E Hw. unfold start_replica in E.
  destruct (read_file io b _) as [[rc0 s']|] eqn:Er; [|done]. injection E as <- <-.
  destruct (start_results n i (fun _ => False) io b _ _ _ Er Hw) as (gs & v' & Hl & H).
  assert (Hv : views c !! i = Some (view_at c i r)) by (by rewrite views_lookup, Hi).
  apply (finish_secure n c i (fun _ => False) (view_at c i r) _ _ r V); try done; [by rewrite insert_id|].
  exists gs, v'. split; [|exact H]. unfold view_at. destruct (decide (i ∈ closed c)); [exact Hl|].
  change gs with ([] ++ gs). eapply locals_app; [|exact Hl]. apply locals_one, l_other, down_other.
Qed.

(** ** Election safety *)

Lemma step_secure n c l c' :
  0 <= n < 2 ^ 32 -> secure n c -> calm_step n c l = true -> cluster_step c l = Some c' -> secure n c'.
Proof.
  intros Hn Hsec Hc Hstep. destruct l as [i now e io|k now io|k|i io b]; cbn [cluster_step calm_step event_of] in *.
  - destruct (up c i) as [r|] eqn:Hu; [|done]. destruct (own_event e) eqn:He; [|done].
    destruct (handle io e (at_time now r)) as [[rc r']|] eqn:Hr; [|done]. apply (inj Some) in Hstep as <-.
    by eapply own_secure.
  - destruct (net c !! k) as [[[src dst] m]|] eqn:Hk; [|done]. destruct (up c dst) as [r|] eqn:Hu; [|done].
    destruct (handle io _ (at_time now r)) as [[rc r']|] eqn:Hr; [|done]. apply (inj Some) in Hstep as <-.
    by eapply message_secure.
  - apply (inj Some) in Hstep as <-. by apply lose_secure.
  - destruct (replicas c !! i) as [r|] eqn:Hi; [|done]. destruct (_ || _); [|done].
    destruct (start_replica io b r) as [[rc r']|] eqn:Hr; [|done]. apply (inj Some) in Hstep as <-.
    apply bool_decide_eq_true in Hc. by eapply start_secure.
Qed.

Lemma run_secure n ls : forall c c',
  0 <= n < 2 ^ 32 -> secure n c -> calm n c ls = true -> run c ls = Some c' -> secure n c'.
Proof.
  induction ls as [|l ls IH]; intros c c' Hn Hsec Hcalm Hrun; cbn [run calm] in *; [by simplify_eq|].
  apply andb_true_iff in Hcalm as [Hc1 Hc2]. destruct (cluster_step c l) as [c1|] eqn:E; [|done].
  eapply IH; [done|by eapply step_secure|done|done].
Qed.

(** A cluster in which nobody has asked for votes yet: followers, whatever their terms,
    logs and earlier votes. *)
Record fresh (n : Z) (c : cluster) : Prop := {
  fr_size : Z.of_nat (size (replicas c)) = n /\ n < 2 ^ 32;
  fr_net : net c = [];
  fr_server : forall i r, replicas c !! i = Some r ->
    member n (r_srv Q r) /\ s_out (r_srv Q r) = [] /\ s_role (r_srv Q r) = SERVER_ROLE_FOLLOWER /\
    0 <= s_vote_count (r_srv Q r) /\ 0 <= s_term (r_srv Q r) /\ 0 <= m_term (f_meta (s_disk (r_srv Q r)))
}.

Lemma fresh_secure n c : fresh n c -> secure n c.
Proof.
  intros [[H1 _] H2 H3]. split.
  - split.
    + intros src dst m. rewrite H2. by intros ?%elem_of_nil.
    + intros i r Hi. by apply (H3 i r).
    + intros i r [Hi _]%up_some. by apply (H3 i r).
    + intros i r Hi _. by apply (H3 i r).
  - exists ∅. rewrite H2. split; [|intros src dst t lt ix; rewrite H2; by intros ?%elem_of_nil]. split.
    + rewrite <- H1, <- !size_dom. do 2 f_equal. apply set_eq. intros j. by rewrite !elem_of_dom, views_lookup, fmap_is_Some.
    + intros i t x Hx. by apply elem_of_empty in Hx.
    + intros i t x x' Hx. by apply elem_of_empty in Hx.
    + intros i t x Hx. by apply elem_of_empty in Hx.
    + split; [apply base.NoDup_nil_2|]. intros x Hx. by apply elem_of_nil in Hx.
    + intros i v. rewrite views_lookup. destruct (replicas c !! i) as [r|] eqn:Hi; [|done]. intros [= <-].
      destruct (H3 i r Hi) as (_ & _ & Hr & Hc & Ht & Hd). unfold view_at.
      destruct (decide _); split; cbn; try done; try (by rewrite Hr); intros ? ? Hx; by apply elem_of_empty in Hx.
Qed.
End cluster.

(** C2: election safety of the complete servers.  In a cluster of n servers that starts with
    followers, consider every run of their event loops with deliveries and losses of messages,
    timers, clients, applied entries, failing handlers and writes, closed servers, killed
    processes and starts, in which no handler aborts, votes are only given by followers, terms
    do not wrap around, every server stays one of n voters in memory and in its file, and
    neither a handler that has nothing to do with votes nor a start lowers a term.  Then two
    leaders of the same term are the same server. *)
Theorem election_safety Q aux local_time format meta_line line_text ss_map fuel n c0 ls c i j ri rj :
  fresh Q n c0 ->
  calm Q aux local_time format meta_line line_text ss_map fuel n c0 ls = true ->
  run Q aux local_time format meta_line line_text ss_map fuel c0 ls = Some c ->
  replicas Q c !! i = Some ri -> replicas Q c !! j = Some rj ->
  s_role (r_srv Q ri) = SERVER_ROLE_LEADER -> s_role (r_srv Q rj) = SERVER_ROLE_LEADER ->
  s_term (r_srv Q ri) = s_term (r_srv Q rj) -> i = j.
Proof.
  intros Hf Hc Hr Hi Hj Li Lj Et.
  assert (Hn : 0 <= n < 2 ^ 32) by (destruct Hf as [[<- ?] _ _]; lia).
  destruct (run_secure _ _ _ _ _ _ _ _ n ls c0 c Hn (fresh_secure _ n c0 Hf) Hc Hr) as [Ho (V & Hs & _)].
  assert (Hv : forall k r, replicas Q c !! k = Some r -> s_role (r_srv Q r) = SERVER_ROLE_LEADER ->
    n / 2 + 1 <= Z.of_nat (size (votes_for (s_term (r_srv Q r)) k V))).
  { intros k r Hk Hl. assert (Hv : views Q c !! k = Some (view_of (r_srv Q r))).
    { rewrite views_lookup, Hk. cbn. unfold view_at. rewrite decide_False; [done|]. intros Hcl.
      by rewrite (or_closed _ _ _ Ho k r Hk Hcl) in Hl. }
    exact (ho_lead _ _ _ _ _ (so_honest _ _ _ _ Hs k _ Hv) Hl). }
  pose proof (Hv i ri Hi Li) as H1. pose proof (Hv j rj Hj Lj) as H2. rewrite <- Et in H2. by eapply majorities_meet.
Qed.

(** ** Runs of three nodes *)

Definition trio_replica (i : Z) : replica demo_sqlite :=
  mk_replica demo_sqlite (trio_server i empty_log) demo_state ∅ [] [] 0 false.

Definition trio : cluster demo_sqlite :=
  mk_cluster demo_sqlite (list_to_map (map (fun i => (i, trio_replica i)) [1; 2; 3])) ∅ [].

Abbreviation demo_run := (run demo_sqlite demo_aux (fun _ => None) demo_format demo_line (fun _ => []) (fun _ => []) 200).
Abbreviation demo_calm := (calm demo_sqlite demo_aux (fun _ => None) demo_format demo_line (fun _ => []) (fun _ => []) 200).

(** Node 1 asks for a prevote, node 2 answers both requests, node 1 leads. *)
Definition first_election : list (label demo_sqlite) :=
  Handle demo_sqlite 1 10000 (on_election_timer 10000) all_ok :: map (fun k => Deliver demo_sqlite k 10000 all_ok) [0; 1; 1; 2]%nat.

Definition leaders (c : cluster demo_sqlite) : list (Z * Z) :=
  omap (fun x => let s := r_srv demo_sqlite (snd x) in
    if decide (s_role s = SERVER_ROLE_LEADER) then Some (fst x, s_term s) else None) (map_to_list (replicas _ c)).

(** A round of the leader: it sends the next entry, node 2 stores it and answers. *)
Definition one_round (k : nat) : list (label demo_sqlite) :=
  [Handle demo_sqlite 1 10000 on_round_end all_ok; Deliver demo_sqlite k 10000 all_ok; Deliver demo_sqlite (S k) 10000 all_ok].

Definition demo_boot : boot demo_sqlite := mk_boot demo_sqlite true false demo_state empty_log (mk_snapshot 0 0 0 0 0 0 false).

Definition first_term : list (label demo_sqlite) :=
  first_election ++ flat_map one_round [2; 3; 4]%nat ++ [Start demo_sqlite 3 all_ok demo_boot].

(** What a run shows: who leads, and the entries of node 2. *)
Definition shown (c : option (cluster demo_sqlite)) : option (list (Z * Z) * option (list Z)) :=
  c ← c; Some (leaders c, (fun r => map e_flags (l_entries (s_log (r_srv demo_sqlite r)))) <$> replicas _ c !! 2).

Lemma trio_name_fits i : i = 1 \/ i = 2 \/ i = 3 -> fits (Some (trio_name i)).
Proof. intros [-> | [-> | ->]]; (split; [repeat constructor; discriminate|vm_compute; discriminate]). Qed.

Lemma trio_member i : i = 1 \/ i = 2 \/ i = 3 -> member 3 (trio_server i empty_log).
Proof.
  intros Hi. split; [vm_compute; done|vm_compute; done|done| |].
  - by apply trio_name_fits.
  - intros j. unfold node_at. change (s_heap (trio_server i empty_log)) with
      (list_to_map (map (fun j => (j, node_create (trio_name j))) [1; 2; 3]) : gmap Z node).
    destruct (list_to_map _ !! j) as [x|] eqn:E; [|split; [constructor|vm_compute; discriminate]].
    apply elem_of_list_to_map_2 in E. apply list_elem_of_fmap in E as (k & [= -> ->] & Hk).
    apply trio_name_fits. set_solver.
Qed.

Lemma trio_fresh : fresh demo_sqlite 3 trio.
Proof.
  split; [by vm_compute|done|]. intros i r Hs. unfold trio in Hs. cbn [replicas] in Hs.
  apply elem_of_list_to_map_2 in Hs. rewrite list_elem_of_fmap in Hs. destruct Hs as (k & [= -> ->] & Hk).
  split; [apply trio_member; by set_solver|by vm_compute].
Qed.

Lemma election_safety_witness :
  shown (demo_run trio first_term) = Some ([(1, 1)], Some [CMD_INIT; CMD_TIMESTAMP; CMD_META]) /\
  exists c r, demo_run trio first_term = Some c /\ replicas _ c !! 1 = Some r /\ s_role (r_srv _ r) = SERVER_ROLE_LEADER /\
    forall j rj, replicas _ c !! j = Some rj -> s_role (r_srv _ rj) = SERVER_ROLE_LEADER ->
      s_term (r_srv _ r) = s_term (r_srv _ rj) -> 1 = j.
Proof.
  split; [vm_compute; reflexivity|].
  assert (Hs : match demo_run trio first_term with
    | Some c => match replicas _ c !! 1 with Some r => bool_decide (s_role (r_srv _ r) = SERVER_ROLE_LEADER) | None => false end
    | None => false end = true) by (vm_compute; reflexivity).
  assert (Hc : demo_calm 3 trio first_term = true) by (vm_compute; reflexivity).
  destruct (demo_run trio first_term) as [c|] eqn:Er; [|discriminate Hs].
  exists c. destruct (replicas _ c !! 1) as [r|] eqn:E1; [|discriminate Hs].
  apply bool_decide_eq_true in Hs. exists r. split_and!; [reflexivity|reflexivity|exact Hs|].
  intros j rj Hj Hl Ht.
  exact (election_safety demo_sqlite demo_aux (fun _ => None) demo_format demo_line (fun _ => []) (fun _ => []) 200
    3 trio first_term c 1 j r rj trio_fresh Hc Er E1 Hj Hs Hl Ht).
Defined.

(** ** A candidate votes twice *)

Section twice.
Variable io : nat -> answer.
Hypothesis writes : forall k, a_rc (io k) = RS_OK.

Lemma write_meta_ok s :
  exists s', server_write_meta io s = (RS_OK, s') /\ s_vote_ s' = s_vote_ s /\ s_peers_ s' = s_peers_ s /\
    s_meta s' = s_meta s /\ s_conf s' = s_conf s /\ s_out s' = s_out s /\ s_log s' = s_log s.
Proof.
  unfold server_write_meta, ask. cbv beta iota zeta. rewrite !writes. cbn [negb bool_decide decide_rel rs_rc_eq_dec].
  rewrite !bool_decide_eq_true_2 by done. cbn [negb]. by eexists.
Qed.

Lemma broadcast_vote m ns : forall s, s_vote_ (broadcast io s ns m) = s_vote_ s /\ s_meta (broadcast io s ns m) = s_meta s.
Proof.
  induction ns as [|n ns IH]; intros s; [done|]. cbn [broadcast]. unfold ask. cbv zeta. rewrite writes.
  rewrite bool_decide_eq_true_2 by done. destruct (IH (set_io (put_msg s n m) (S (s_io (put_msg s n m))))) as [-> ->]. done.
Qed.

Lemma update_meta_ok s t x :
  fits (Some x) ->
  exists s', server_update_meta io s t (Some x) = (RS_OK, s') /\ s_vote_ s' = s_vote_ (set_voted_for s (Some x)) /\
    s_peers_ s' = s_peers_ s /\ s_meta s' = with_term (s_meta s) t /\ s_conf s' = s_conf s /\ s_out s' = s_out s /\
    s_log s' = s_log s.
Proof.
  intros Hx. unfold server_update_meta. rewrite (str_set_fits _ (Some x)) by (done || by eexists).
  destruct (write_meta_ok (set_voted_for (set_term s t) (Some x))) as (s' & -> & E). by exists s'.
Qed.

Lemma grants_request s j t ix :
  fits (Some (n_name (node_at s j))) -> leader_alive s = false -> s_term s < t -> last_index (s_log s) <= ix ->
  exists s', server_on_reqvote_req io s j t ix = (RS_OK, s') /\
    s_out s' = s_out s ++ [(j, reqvote_resp t (last_index (s_log s)) true)] /\
    s_voted_for s' = Some (n_name (node_at s j)) /\ s_role s' = s_role s /\ s_prevote_term s' = s_prevote_term s /\
    s_prevote_count s' = s_prevote_count s /\ s_peers_ s' = s_peers_ s /\ s_conf s' = s_conf s /\
    s_meta s' = with_term (s_meta s) t.
Proof.
  intros Hx Hl Ht Hix. unfold server_on_reqvote_req, vote_refused. rewrite Hl. cbn [orb].
  rewrite (proj2 (Z.eqb_neq t (s_term s))) by lia. cbn [andb]. rewrite (proj2 (Z.geb_le _ _)), (proj2 (Z.geb_le ix _)) by lia.
  cbn [andb]. destruct (update_meta_ok s t _ Hx) as (s1 & -> & E1 & E2 & E3 & E4 & E5 & E6).
  rewrite bool_decide_eq_true_2 by done. cbn [negb]. eexists. split; [reflexivity|].
  cbn. rewrite E1, E2, E3, E4, E5. by split_and!.
Qed.

Lemma own_candidacy n s :
  2 <= n -> m_voter (s_meta s) = n -> s_in_cluster s = true -> fits (Some (c_name (s_conf s))) ->
  s_role s = SERVER_ROLE_CANDIDATE -> 0 <= s_prevote_count s < 2 ^ 32 - 1 -> majority s <= s_prevote_count s + 1 ->
  let r := server_on_prevote_resp io s (s_prevote_term s) true in
  fst r = RS_OK /\ s_term (snd r) = s_prevote_term s /\ s_voted_for (snd r) = Some (c_name (s_conf s)) /\ s_vote_count (snd r) = 1.
Proof.
  intros Hn M1 M3 M4 Hr Hp Hmaj. cbv zeta. unfold server_on_prevote_resp. rewrite Hr, Z.eqb_refl.
  rewrite bool_decide_eq_true_2 by done. cbn [negb orb]. rewrite (u32_small (s_prevote_count s + 1)) by lia.
  unfold server_check_prevote_count. set (s1 := set_prevote_count s _).
  rewrite (proj2 (Z.geb_le (s_prevote_count s1) (majority s1))) by exact Hmaj.
  cbv zeta. replace (s_in_cluster (set_vote_count s1 0)) with true by (symmetry; exact M3).
  set (s2 := set_vote_count (set_vote_count s1 0) _).
  destruct (update_meta_ok s2 (s_prevote_term s2) (c_name (s_conf s)) M4) as (s3 & E & E1 & E2 & E3 & E4 & E5 & E6).
  change (c_name (s_conf (set_vote_count s1 0))) with (c_name (s_conf s)). rewrite E. rewrite bool_decide_eq_true_2 by done. cbn [negb].
  set (s4 := broadcast io s3 _ _). assert (B : s_vote_ s4 = s_vote_ s3 /\ s_meta s4 = s_meta s3) by apply broadcast_vote.
  destruct B as [B1 B2]. assert (Hk : s_vote_count s4 = 1) by (rewrite B1, E1; reflexivity).
  assert (Hj : majority s4 = n / 2 + 1).
  { unfold majority. rewrite B2, E3. by rewrite <- M1. }
  rewrite (if_false (s_vote_count s4 >=? majority s4))
    by (rewrite Hk, Hj; pose proof (Z.div_le_mono 2 n 2 ltac:(lia) ltac:(lia)); change (2 / 2) with 1 in *; zbool_solve).
  cbn [fst snd]. unfold s_term. rewrite B2, E3, Hk, B1, E1. by split_and!.
Qed.
End twice.

(** C36: a candidate that still collects prevotes can vote twice in one term.  In a cluster of
    two or more voters, take any server that is a candidate with a prevote for the next term,
    one answer short of a majority, without a living leader.  A node whose log is not shorter
    asks for its vote in that term and gets it; the server stays a candidate.  Then the missing
    prevote arrives: in the same term the server overwrites its vote with its own name, counts
    it and goes on as a candidate for this term (all writes succeed). *)
Theorem candidate_votes_twice io n s j ix :
  (forall k, a_rc (io k) = RS_OK) -> 2 <= n < 2 ^ 32 -> member n s -> s_role s = SERVER_ROLE_CANDIDATE ->
  s_prevote_term s = s_term s + 1 -> leader_alive s = false -> last_index (s_log s) <= ix ->
  0 <= s_prevote_count s < 2 ^ 32 - 1 -> majority s <= s_prevote_count s + 1 ->
  let t := s_term s + 1 in
  let r1 := server_on_reqvote_req io s j t ix in
  let r2 := server_on_prevote_resp io (snd r1) t true in
  (fst r1 = RS_OK /\ last (s_out (snd r1)) = Some (j, reqvote_resp t (last_index (s_log s)) true) /\
    s_term (snd r1) = t /\ s_voted_for (snd r1) = Some (n_name (node_at s j))) /\
  (fst r2 = RS_OK /\ s_term (snd r2) = t /\ s_voted_for (snd r2) = Some (c_name (s_conf s)) /\ s_vote_count (snd r2) = 1).
Proof.
  intros Hio Hn Hm Hr Hp Hl Hix Hk Hmaj t.
  destruct (grants_request io Hio s j t ix (mb_names _ _ Hm j) Hl ltac:(unfold t; lia) Hix)
    as (s1 & -> & E1 & E2 & E3 & E4 & E5 & E6 & E7 & E8). cbn [fst snd].
  destruct (voters_with n (s_meta s) t 0 (mb_meta _ _ Hm)) as (V1 & _ & V2 & _). split.
  - rewrite E1, last_snoc. split_and!; try done. unfold s_term. by rewrite E8.
  - pose proof (own_candidacy io Hio n s1) as H. unfold majority in H. rewrite E5, E7, E8, E4, Hp in H. destruct Hm as [M1 M2 M3 M4 M5].
    apply H; try done; [lia|by destruct V1|by rewrite E6|by rewrite E3].
Qed.

(** Node 1 after its election timeout, with one prevote of two. *)
Definition asking_server : server := snd (server_on_election_timeout all_ok (set_timestamp (trio_server 1 empty_log) 10000)).

Lemma candidate_votes_twice_witness :
  let r1 := server_on_reqvote_req all_ok asking_server 2 1 0 in
  let r2 := server_on_prevote_resp all_ok (snd r1) 1 true in
  (s_voted_for (snd r1) = Some (trio_name 2) /\ s_term (snd r1) = 1) /\
  (s_voted_for (snd r2) = Some (trio_name 1) /\ s_term (snd r2) = 1).
Proof.
  assert (Hm : member 3 asking_server) by (apply is_member_spec, (bool_decide_unpack _); vm_compute; exact I).
  destruct (candidate_votes_twice all_ok 3 asking_server 2 0 (fun _ => eq_refl) ltac:(lia) Hm
    ltac:(vm_compute; reflexivity) ltac:(vm_compute; reflexivity) ltac:(vm_compute; reflexivity) ltac:(vm_compute; discriminate)
    ltac:(vm_compute; split; [discriminate|reflexivity]) ltac:(vm_compute; discriminate)) as [(_ & _ & T1 & V1) (_ & T2 & V2 & _)].
  split; [exact (conj V1 T1)|exact (conj V2 T2)].
Defined.

(** ** An old configuration lowers the term *)

Lemma meta_change_term s : s_term (server_meta_change s) = s_term s.
Proof.
  unfold server_meta_change. cbv zeta. set (s0 := set_in_cluster s _). pose proof (update_connections_core s0) as Hc.
  set (s1 := server_update_connections s0) in *. clearbody s1.
  assert (H1 : s_term s1 = s_term s) by (unfold s_term; by rewrite Hc). destruct (_ && _ && _); exact H1.
Qed.



(** Messages of a connection arrive in order: the delivered message is the first of its
    sender for its receiver. *)
Definition in_order (c : cluster demo_sqlite) (l : label demo_sqlite) : bool :=
  match l with
  | Deliver _ k _ _ =>
      match net _ c !! k with
      | None => false
      | Some (src, dst, _) => forallb (fun x => negb (bool_decide (fst x = (src, dst)))) (take k (net _ c))
      end
  | _ => true
  end.

Fixpoint ordered_run (c : cluster demo_sqlite) (ls : list (label demo_sqlite)) : option (cluster demo_sqlite) :=
  match ls with
  | [] => Some c
  | l :: ls => if in_order c l then match demo_run c [l] with None => None | Some c => ordered_run c ls end else None
  end.

(** Nodes 1 and 2 ask for prevotes of term 1.  Node 1 has a majority first and asks for
    votes; node 2, still waiting for prevotes, votes for node 1, which then leads.  The
    answer of node 3 reaches node 2, which overwrites its vote with its own name, gets the
    vote of node 3 and leads too.  The vote request of node 1 to node 3 is still on its
    way. *)
Definition two_candidates : list (label demo_sqlite) :=
  map (fun i => Handle demo_sqlite i 10000 (on_election_timer 10000) all_ok) [1; 2] ++
  map (fun k => Deliver demo_sqlite k 10000 all_ok) [1; 3; 1; 0; 1; 3; 3; 0; 4; 5; 5]%nat.

(** In a run of three nodes in which every message arrives, in the order of its connection, and
    every write succeeds, two nodes lead in term 1. *)
Lemma two_leaders_one_term :
  leaders <$> ordered_run trio two_candidates = Some [(2, 1); (1, 1)] /\ demo_calm 3 trio two_candidates = false.
Proof. vm_compute. split; reflexivity. Qed.
