(* ===== verification/Pace.v ===== *)
(** * Commit index, log and state stay in step

    Every handler of the event loop keeps these together: the commit index lies in the log
    and does not go back, a snapshot covers committed entries only, and the state machine has
    applied exactly the entries up to the commit index, each one read from the log. *)

From Stdlib Require Import ZArith Lia.
From Stdlib Require Import Strings.Byte.
From stdpp Require Import base list numbers gmap strings.
From S2P Require Import Prelude Sc Str Uri Buf Entry Page Store Msg Map Meta Cmd Node Server Election Sql Session Exec State Replicate Commit.

(** ** The commit index lies in the log *)

Record bounded (s : server) : Prop := {
  bd_prev : 0 <= l_prev (s_log s) <= s_commit s;
  bd_last : s_commit s <= last_index (s_log s);
  bd_ss : s_ss_inprogress s = true -> l_prev (s_log s) <= ss_latest_index (s_ss s) <= s_commit s
}.

(** The entries up to [n] are the same, as far as a snapshot has not replaced them. *)
Record kept (n : Z) (l l' : rlog) : Prop := {
  kp_prev : l_prev l <= l_prev l';
  kp_same : forall i, l_prev l' < i <= n -> log_entry l' i = log_entry l i
}.

Lemma kept_id n l : kept n l l.
Proof. by split. Qed.

Lemma kept_trans n l1 l2 l3 : kept n l1 l2 -> kept n l2 l3 -> kept n l1 l3.
Proof. intros [P1 S1] [P2 S2]. split; [lia|]. intros i Hi. rewrite S2 by lia. apply S1. lia. Qed.

Lemma kept_le n m l l' : m <= n -> kept n l l' -> kept m l l'.
Proof. intros Hm [P S]. split; [done|]. intros i Hi. apply S. lia. Qed.

Lemma kept_append n l e : n <= last_index l -> kept n l (log_append l e).
Proof. intros Hn. split; [done|]. intros i Hi. by rewrite log_entry_append, (proj2 (Z.eqb_neq _ _)) by lia. Qed.

Lemma kept_taken n l t k : l_prev l <= k <= last_index l -> kept n l (log_snapshot_taken l t k).
Proof. intros Hk. split; [cbn; lia|]. intros i Hi. cbn in Hi. by rewrite log_entry_taken, (proj2 (Z.ltb_lt _ _)) by lia. Qed.

Lemma kept_removed n l k : n <= k -> l_prev l <= k -> kept n l (log_remove_after l k).
Proof.
  intros Hn Hk. split; [done|]. intros i Hi. cbn in Hi. destruct (Z.le_gt_cases k (last_index l)).
  - by rewrite log_entry_remove, (proj2 (Z.leb_le _ _)) by lia.
  - unfold log_entry, log_remove_after. cbn [l_prev l_entries]. rewrite take_ge; [done|]. unfold last_index, zlen in *. lia.
Qed.

(** The commit index is kept and no entry is lost at the end or changed. *)
Definition grows (s s' : server) : Prop :=
  bounded s -> bounded s' /\ s_commit s' = s_commit s /\ last_index (s_log s) <= last_index (s_log s') /\
    kept (last_index (s_log s)) (s_log s) (s_log s').

Lemma grows_refl s : grows s s.
Proof. intros H. split_and!; [done|done|lia|apply kept_id]. Qed.

Lemma grows_trans s1 s2 s3 : grows s1 s2 -> grows s2 s3 -> grows s1 s3.
Proof.
  intros H12 H23 H1. destruct (H12 H1) as (H2 & C2 & L2 & K2). destruct (H23 H2) as (H3 & C3 & L3 & K3).
  split_and!; [done|congruence|lia|]. eapply kept_trans; [exact K2|]. by eapply kept_le.
Qed.

(** The part of a server that [bounded] looks at. *)
Definition position (s : server) : rlog * Z * bool * Z :=
  (s_log s, s_commit s, s_ss_inprogress s, ss_latest_index (s_ss s)).

Lemma same_grows s s' : position s' = position s -> grows s s'.
Proof.
  unfold position. intros [= E1 E2 E3 E4] [B1 B2 B3]. split_and!; [|done|rewrite E1; lia|rewrite E1; apply kept_id].
  split; rewrite ?E1, ?E2, ?E3, ?E4; auto.
Qed.

Lemma append_grows s e : grows s (set_log s (log_append (s_log s) e)).
Proof.
  intros [B1 B2 B3]. cbn. rewrite last_append. split_and!; [|done|lia|by apply kept_append].
  split; cbn; rewrite ?last_append; auto; lia.
Qed.

Lemma snapshot_clear_latest ss : ss_latest_index (snapshot_clear ss) = ss_latest_index ss.
Proof. unfold snapshot_clear. by destruct (ss_tmp ss). Qed.

Lemma wait_grows io s : grows s (snd (server_wait_snapshot io s)).
Proof.
  unfold server_wait_snapshot. destruct (s_ss_inprogress s) eqn:E; cbn [negb]; [|apply grows_refl].
  unfold ask. cbv zeta beta iota. destruct (negb _); intros [B1 B2 B3]; specialize (B3 E); cbn [snd].
  - split_and!; [by split|done|done|apply kept_id].
  - cbn. rewrite last_taken by lia. split_and!; [|done|lia|apply kept_taken; lia]. split; cbn; [lia|by rewrite last_taken by lia|done].
Qed.

Section create.
Variable io : nat -> answer.

Lemma full_wait_grows retry s k :
  (forall s, grows s (snd (retry s))) -> (forall s, grows s (snd (k s))) -> grows s (snd (full_wait io retry s k)).
Proof.
  intros Hr Hk. unfold full_wait. pose proof (wait_grows io s) as H0.
  destruct (server_wait_snapshot io s) as [rc s1]. cbn [snd] in H0.
  destruct rc; try exact H0; (eapply grows_trans; [exact H0|]); [apply Hr|apply Hk].
Qed.

Lemma full_last_grows retry force s :
  (forall s, grows s (snd (retry s))) -> grows s (snd (full_last io retry force s)).
Proof.
  intros Hr. unfold full_last. case_if; [|apply grows_refl]. apply full_wait_grows; [done|intros; apply grows_refl].
Qed.

Lemma ask_grows s : grows s (snd (ask io s)).
Proof. by apply same_grows. Qed.

Lemma full_reserve_grows retry force s :
  (forall s, grows s (snd (retry s))) -> grows s (snd (full_reserve io retry force s)).
Proof.
  intros Hr. unfold full_reserve.
  assert (H : forall s, grows s (snd (let '(a, s) := ask io s in
    match a_rc a with RS_OK => retry s | RS_FULL => full_last io retry force s | rc => (rc, s) end))).
  { intros s0. pose proof (ask_grows s0) as H0. destruct (ask io s0) as [a s1]. cbn [snd] in H0.
    destruct (a_rc a); try exact H0; (eapply grows_trans; [exact H0|]); [apply Hr|by apply full_last_grows]. }
  destruct force; [apply H|]. pose proof (ask_grows s) as H0. destruct (ask io s) as [a s1]. cbn [snd] in H0.
  eapply grows_trans; [exact H0|]. destruct (negb _); [apply H|by apply full_last_grows].
Qed.

Lemma create_grows fuel : forall s force seq cid flags data,
  grows s (snd (server_create_entry io fuel s force seq cid flags data)).
Proof.
  induction fuel as [|fuel IH]; intros s force seq cid flags data; [apply grows_refl|]. cbn [server_create_entry].
  pose proof (ask_grows s) as H1. destruct (ask io s) as [a s1]. cbn [snd] in H1. destruct (a_rc a); try exact H1.
  - eapply grows_trans; [exact H1|].
    eapply grows_trans; [apply (append_grows s1 (mk_entry (s_term s1) seq cid flags data))|]. cbv zeta.
    case_if; [|apply grows_refl]. unfold ask. cbv zeta beta iota. cbn [snd].
    eapply grows_trans; [|apply IH]. by apply same_grows.
  - eapply grows_trans; [exact H1|]. pose proof (ask_grows s1) as H2. destruct (ask io s1) as [b s2]. cbn [snd] in H2.
    eapply grows_trans; [exact H2|]. cbv zeta. destruct (negb _ && negb _);
      [apply full_wait_grows|apply full_reserve_grows]; intros; try apply full_reserve_grows; intros; apply IH.
Qed.
End create.

(** ** What the functions of the server do to the position *)

(** [via H] goes on behind a call whose effect is [H]. *)
Ltac via H :=
  let E := fresh "E" in
  pose proof H as E;
  match type of E with grows _ (snd ?x) => destruct x as [? ?]; cbn [snd] in E; eapply grows_trans; [exact E|clear E] end.

Ltac cases := repeat (match goal with |- context [if ?b then _ else _] => destruct b end).

Lemma position_grows {A} (r : A) s s' : position s' = position s -> grows s (snd (r, s')).
Proof. apply same_grows. Qed.

Lemma become_follower_position s leader term : position (server_become_follower s leader term) = position s.
Proof. unfold server_become_follower, position. cbv zeta. cases; cbn; by rewrite snapshot_clear_latest. Qed.

Lemma set_node_position s n x : position (set_node s n x) = position s.
Proof. done. Qed.

Lemma disconnect_position s n : position (server_on_node_disconnect s n) = position s.
Proof. unfold server_on_node_disconnect. cbv zeta. by cases. Qed.

Lemma clear_all_position ns : forall s, position (clear_all s ns) = position s.
Proof. induction ns as [|n ns IH]; intros s; [done|]. cbn. by rewrite IH. Qed.

Lemma meta_change_position s : position (server_meta_change s) = position s.
Proof.
  unfold server_meta_change. cbv zeta. set (s1 := server_update_connections _).
  assert (H : s_core_ s1 = s_core_ s) by (unfold s1; by rewrite update_connections_core). clearbody s1.
  case_if; rewrite ?become_follower_position; unfold position; by rewrite H.
Qed.

Section positions.
Variable io : nat -> answer.
Variable line_text : log_line -> list byte.
Variable ss_map : snapshot -> list byte.

Lemma write_meta_position s : position (snd (server_write_meta io s)) = position s.
Proof. unfold server_write_meta, ask. cbv zeta. by cases. Qed.

Lemma broadcast_position m ns : forall s, position (broadcast io s ns m) = position s.
Proof.
  induction ns as [|n ns IH]; intros s; [done|]. cbn [broadcast]. unfold ask. cbv zeta. rewrite IH.
  case_if; [done|]. by rewrite disconnect_position.
Qed.

Lemma flush_node_position s n : position (flush_node io s n) = position s.
Proof. unfold flush_node, ask. case_if; [done|]. by rewrite disconnect_position. Qed.

Lemma flush_remaining_position s : position (server_flush_remaining io s) = position s.
Proof.
  unfold server_flush_remaining. generalize (s_connected_nodes s). intros ns. revert s.
  induction ns as [|n ns IH]; intros s; [done|]. cbn. rewrite IH. apply flush_node_position.
Qed.

Lemma append_resp_position s n index term round success :
  position (server_on_append_resp s n index term round success) = position s.
Proof.
  unfold server_on_append_resp. cbv zeta. cases; rewrite ?set_node_position, ?become_follower_position; done.
Qed.

Lemma recv_position s term index done : position (snd (snapshot_recv io s term index done)) = position s.
Proof.
  assert (H : position (recv_start s term index) = position s).
  { unfold recv_start. cbv zeta. case_if; [|done]. unfold position. cbn. by rewrite snapshot_clear_latest. }
  unfold snapshot_recv, ask. cbv zeta. by cases.
Qed.

Lemma reqvote_req_position s n term index : position (snd (server_on_reqvote_req io s n term index)) = position s.
Proof.
  unfold server_on_reqvote_req, server_update_meta. cases; try done. cbv zeta.
  match goal with |- context [server_write_meta io ?x] => pose proof (write_meta_position x) as E end.
  destruct (server_write_meta io _) as [rc s1]. cbn [snd] in E. cases; exact E.
Qed.

Lemma node_connect_position s name : position (server_on_node_connect_req io s name) = position s.
Proof. unfold server_on_node_connect_req, ask. destruct (find _ _); cbv zeta beta iota; by cases. Qed.

(** *** Functions that append to the own log *)

Lemma write_cmds_grows s :
  grows s (snd (server_write_init_cmd io s)) /\ grows s (snd (server_write_meta_cmd io s)) /\
  grows s (snd (server_write_term_start_cmd io s)).
Proof.
  unfold server_write_init_cmd, server_write_meta_cmd, server_write_term_start_cmd, ask. cbv zeta beta iota.
  split_and!; cases; try (by apply position_grows); (eapply grows_trans; [|apply create_grows]); by apply same_grows.
Qed.

Lemma become_leader_grows s : grows s (snd (server_become_leader io s)).
Proof.
  unfold server_become_leader. set (s1 := clear_all (clear_all _ _) _).
  apply (grows_trans _ s1); [apply same_grows; unfold s1; by rewrite !clear_all_position|].
  assert (H2 : grows s1 (snd (if last_index (s_log s1) =? 0 then server_write_init_cmd io s1 else (RS_OK, s1))))
    by (case_if; [apply write_cmds_grows|apply grows_refl]).
  via H2. case_if; [apply grows_refl|]. via (proj1 (proj2 (write_cmds_grows s0))). case_if; [apply grows_refl|].
  apply write_cmds_grows.
Qed.

Lemma check_prevote_grows s : grows s (snd (server_check_prevote_count io s)).
Proof.
  unfold server_check_prevote_count, server_update_meta. case_if; [|apply grows_refl]. cbv zeta.
  match goal with |- context [server_write_meta io ?x] =>
    apply (grows_trans _ x); [apply same_grows; by cases|]; via (same_grows _ _ (write_meta_position x)) end.
  case_if; [apply grows_refl|]. case_if; [eapply grows_trans; [|apply become_leader_grows]|];
    apply same_grows; apply broadcast_position.
Qed.

Lemma votes_grows s term granted :
  grows s (snd (server_on_reqvote_resp io s term granted)) /\ grows s (snd (server_on_prevote_resp io s term granted)).
Proof.
  unfold server_on_reqvote_resp, server_on_prevote_resp. split; cbv zeta.
  - case_if; [apply grows_refl|]. case_if; [apply position_grows, become_follower_position|]. case_if; [apply grows_refl|].
    case_if; [|by apply position_grows]. eapply grows_trans; [|apply become_leader_grows]. by apply same_grows.
  - case_if; [apply grows_refl|]. case_if; [apply grows_refl|]. eapply grows_trans; [|apply check_prevote_grows].
    by apply same_grows.
Qed.

Lemma timeout_grows s : grows s (snd (server_on_election_timeout io s)).
Proof.
  unfold server_on_election_timeout. cbv zeta. case_if.
  { apply position_grows. cases; by rewrite ?become_follower_position. }
  case_if; [apply grows_refl|]. case_if; [apply grows_refl|]. case_if; [apply grows_refl|]. case_if; [apply grows_refl|].
  eapply grows_trans; [|apply check_prevote_grows]. apply same_grows. rewrite broadcast_position. by cases.
Qed.

Lemma log_grows s l : grows s (snd (server_log io line_text s l)).
Proof. apply create_grows. Qed.

Lemma snapshot_resp_grows s n term round done :
  grows s (snd (server_on_snapshot_resp io line_text s n term round done)).
Proof.
  unfold server_on_snapshot_resp. cbv zeta. case_if; [by apply position_grows; rewrite become_follower_position|].
  case_if; [|by apply position_grows]. eapply grows_trans; [|apply log_grows]. by apply same_grows.
Qed.

Lemma snapshot_req_grows s n term round ss_term ss_index done :
  grows s (snd (server_on_snapshot_req io s n term round ss_term ss_index done)).
Proof.
  unfold server_on_snapshot_req. case_if; [by apply position_grows|]. cbv zeta.
  match goal with |- context [server_wait_snapshot io ?x] => apply (grows_trans _ x);
    [apply same_grows; cases; by rewrite set_node_position, ?become_follower_position|via (wait_grows io x)] end.
  case_if; [apply grows_refl|]. via (same_grows _ _ (recv_position s0 ss_term ss_index done)). by apply position_grows.
Qed.

Lemma flush_snapshot_grows s n : grows s (snd (server_flush_snapshot io line_text ss_map s n)).
Proof.
  unfold server_flush_snapshot. case_if; [apply grows_refl|]. cbv zeta.
  match goal with |- context [let '(_, _) := ?x in _] => assert (H : grows s (snd x))
    by (case_if; [apply grows_refl|]; (eapply grows_trans; [|apply log_grows]); by apply same_grows); via H end.
  case_if; [apply grows_refl|]. apply position_grows. rewrite flush_node_position. by case_if.
Qed.

Lemma flush_one_grows s n : grows s (snd (flush_one io line_text ss_map s n)).
Proof.
  unfold flush_one. cbv zeta. case_if; [apply flush_snapshot_grows|]. apply position_grows. rewrite flush_node_position.
  unfold store_entries_from, append_to, ask. cbv zeta. by cases.
Qed.

Lemma flush_nodes_grows s : grows s (snd (server_flush_nodes io line_text ss_map s)).
Proof.
  unfold server_flush_nodes. generalize (s_connected_nodes s). intros ns. revert s.
  induction ns as [|n ns IH]; intros s; [apply grows_refl|]. cbn [flush_loop]. via (flush_one_grows s n).
  case_if; [apply IH|apply grows_refl].
Qed.
End positions.

(** *** Code in the monad *)

Definition fixes {A} (m : runM server A) : Prop := forall s a s', m s = Some (a, s') -> grows s s'.

Lemma fixes_ret {A} (a : A) : fixes (mret a).
Proof. intros s x s' E. injection E as _ <-. apply grows_refl. Qed.

Lemma fixes_halt {A} : fixes (@halt server A).
Proof. by intros s. Qed.

Lemma fixes_bind {A B} (m : runM server A) (f : A -> runM server B) : fixes m -> (forall a, fixes (f a)) -> fixes (m ≫= f).
Proof.
  intros Hm Hf s b s'. unfold mbind, runM_bind. destruct (m s) as [[a s1]|] eqn:E; [|done]. intros H.
  eapply grows_trans; [by eapply Hm|by eapply Hf].
Qed.

Lemma fixes_peek {A} (f : server -> A) : fixes (peek f).
Proof. intros s a s' E. injection E as _ <-. apply grows_refl. Qed.

Lemma fixes_poke f : (forall s, grows s (f s)) -> fixes (poke f).
Proof. unfold poke. intros H s [] s' E. apply (inj Some) in E. injection E as <-. apply H. Qed.

Lemma fixes_calls {A} (f : server -> A * server) : (forall s, grows s (snd (f s))) -> fixes (calls f).
Proof.
  unfold calls. intros H s a s' E. specialize (H s). destruct (f s) as [a1 s1]. apply (inj Some) in E.
  injection E as <- <-. exact H.
Qed.

Lemma fixes_and_then rc k : fixes k -> fixes (and_then rc k).
Proof. intros H. unfold and_then. destruct (decide _); [done|apply fixes_ret]. Qed.

Lemma write_meta_cmd_grows io s : grows s (snd (server_write_meta_cmd io s)).
Proof. apply write_cmds_grows. Qed.

Create HintDb grow.
#[export] Hint Resolve grows_refl append_grows wait_grows create_grows log_grows write_meta_cmd_grows : grow.

Ltac fixed := repeat
  lazymatch goal with
  | |- fixes (mret _) => apply fixes_ret
  | |- fixes halt => apply fixes_halt
  | |- fixes (peek _) => apply fixes_peek
  | |- fixes (and_then _ _) => apply fixes_and_then
  | |- fixes (_ ≫= _) => apply fixes_bind; [|intros ?]
  | |- fixes (poke _) => apply fixes_poke; intros ?; first [solve [auto with grow nocore]|try by apply same_grows]
  | |- fixes (calls _) => apply fixes_calls; intros ?; first [solve [auto with grow nocore]|try by apply position_grows]
  | |- fixes (if ?b then _ else _) => destruct b
  | |- fixes (match ?x with _ => _ end) => destruct x
  end.

Lemma commit_index_fixes : fixes commit_index.
Proof. unfold commit_index, match_at. fixed. Qed.

Lemma shutdown_all_fixes io ns : fixes (shutdown_all io ns).
Proof. induction ns as [|n ns IH]; cbn [shutdown_all]; fixed. exact IH. Qed.

Lemma store_put_fixes io f index e : fixes (store_put io f index e).
Proof.
  induction f as [|f IH]; cbn [store_put]; fixed; apply IH.
Qed.

Lemma store_meta_fixes m : fixes (store_meta m).
Proof.
  unfold store_meta. cbv zeta. fixed. eapply grows_trans; [|apply same_grows, meta_change_position]. by apply same_grows.
Qed.

(** ** Storing entries of a leader that has the committed ones *)

(** The entries do not contradict a committed one, and their indexes fit 64 bits. *)
Record respects (s : server) (index : Z) (ms : list (list byte)) : Prop := {
  rs_bits : index + zlen ms < 2 ^ 64;
  rs_last : last_index (s_log s) + 1 < 2 ^ 64;
  rs_same : forall i m c, ms !! i = Some m -> index + Z.of_nat i <= s_commit s ->
    log_entry (s_log s) (index + Z.of_nat i) = Some c -> e_term c = entry_term m
}.

(** The commit index and the committed entries are kept; the end of the log may be cut. *)
Definition holds (s s' : server) : Prop :=
  bounded s -> bounded s' /\ s_commit s' = s_commit s /\ kept (s_commit s) (s_log s) (s_log s').

Lemma grows_holds s s' : grows s s' -> holds s s'.
Proof. intros H B. destruct (H B) as (? & ? & _ & K). split_and!; [done|done|]. eapply kept_le, K. apply B. Qed.

Lemma holds_trans s1 s2 s3 : holds s1 s2 -> holds s2 s3 -> holds s1 s3.
Proof.
  intros H12 H23 B. destruct (H12 B) as (B2 & E2 & K2). destruct (H23 B2) as (B3 & E3 & K3). rewrite E2 in K3.
  split_and!; [done|congruence|by eapply kept_trans].
Qed.

Lemma conflict_holds index s s' :
  0 < index < 2 ^ 64 -> s_commit s < index -> store_conflict index s = Some ((), s') -> holds s s'.
Proof.
  intros Hi Hc E. unfold store_conflict, mbind, runM_bind, poke, peek in E.
  destruct (meta_rollback _ _) as [m|]; [|done]. apply (inj Some) in E. injection E as <-.
  match goal with |- holds _ (server_meta_change ?x) => apply (holds_trans _ x);
    [|apply grows_holds, same_grows, meta_change_position] end.
  rewrite u64_small by lia. intros [B1 B2 B3]. split_and!; [|done|apply kept_removed; lia].
  assert (L : s_commit s <= last_index (log_remove_after (s_log s) (index - 1))).
  { unfold last_index, log_remove_after, zlen in *. cbn. rewrite length_take. lia. }
  split; [done|exact L|done].
Qed.

(** Behind the commit index. *)
Lemma store_loop_holds_above io ms : forall index s s',
  s_commit s < index -> 0 < index -> index + zlen ms < 2 ^ 64 ->
  store_loop io index ms s = Some (RS_OK, s') -> holds s s'.
Proof.
  induction ms as [|m ms IH]; intros index s s' Hc Hi H64; [intros [= <-]; apply grows_holds, grows_refl|].
  rewrite zlen_cons in H64. pose proof (zlen_nonneg ms). cbn [store_loop]. unfold mbind, runM_bind, peek.
  rewrite !(u64_small (index + 1)) by lia.
  assert (Hput : forall s0, holds s s0 ->
    match store_meta m s0 with
    | Some (_, s1) => match store_put io CREATE_FUEL index m s1 with
                     | Some (rc, s2) => and_then rc (store_loop io (index + 1) ms) s2
                     | None => None end
    | None => None end = Some (RS_OK, s') -> holds s s').
  { intros s0 H0. destruct (store_meta m s0) as [[[] s1]|] eqn:E1; [|done].
    destruct (store_put io _ _ _ s1) as [[rc s2]|] eqn:E2; [|done].
    unfold and_then. destruct (decide _) as [->|]; [|by intros [=]].
    apply store_meta_fixes, grows_holds in E1. apply store_put_fixes, grows_holds in E2.
    intros E B. pose proof (holds_trans _ _ _ H0 (holds_trans _ _ _ E1 E2)) as H2. destruct (H2 B) as (_ & C2 & _).
    revert B. apply (holds_trans _ s2 _ H2). apply (IH (index + 1)); [lia..|done]. }
  destruct (log_entry (s_log s) index) as [c|]; [|by apply Hput, grows_holds, grows_refl].
  destruct (_ =? _); [apply IH; lia || done|]. destruct (store_conflict index s) as [[[] s0]|] eqn:E0; [|done].
  by apply Hput, (conflict_holds index); [lia|lia|].
Qed.

Lemma store_loop_holds io ms : forall index s s',
  respects s index ms -> 0 <= index -> store_loop io index ms s = Some (RS_OK, s') -> holds s s'.
Proof.
  induction ms as [|m ms IH]; intros index s s' R Hi E B; [injection E as <-; by apply grows_holds, B; apply grows_refl|].
  pose proof R as [R1 R2 R3]. rewrite zlen_cons in R1. pose proof (zlen_nonneg ms).
  destruct (Z.lt_ge_cases (s_commit s) index) as [Hc|Hc].
  { pose proof (bd_prev _ B). apply (store_loop_holds_above io (m :: ms) index s s'); try done; [lia|rewrite zlen_cons; lia]. }
  cbn [store_loop] in E. unfold mbind, runM_bind, peek in E. rewrite !(u64_small (index + 1)) in E by lia.
  destruct (log_entry (s_log s) index) as [c|] eqn:Ec.
  - assert (Ht : e_term c = entry_term m) by (apply (R3 O m c eq_refl); rewrite Z.add_0_r; done).
    rewrite Ht, Z.eqb_refl in E. apply (IH (index + 1) s s'); try done; [|lia]. split; [lia|done|].
    intros i m' c' Hm. replace (index + 1 + Z.of_nat i) with (index + Z.of_nat (S i)) by lia. by apply (R3 (S i)).
  - exfalso. destruct (store_meta m s) as [[[] s1]|] eqn:E1; [|done].
    destruct (store_put io _ _ _ s1) as [[rc s2]|] eqn:E2; [|done]. revert E. unfold and_then.
    destruct (decide _) as [->|]; [|by intros [=]]. intros _.
    apply store_meta_log in E1 as [L1 C1]. apply store_put_spec in E2 as (s1' & T & _ & Hidx & _).
    destruct (trimmed_log _ _ T) as (TL & _).
    { intros Hprog. rewrite L1, (cs_latest _ _ C1). pose proof (bd_ss _ B (cs_prog _ _ C1 Hprog)). pose proof (bd_last _ B). lia. }
    rewrite TL, L1 in Hidx. destruct B as [B1 B2 _]. rewrite u64_small in Hidx by lia. lia.
Qed.

(** ** The state follows *)

Create HintDb pace.

Section pace.
Variable Q : sqlite.
Variable aux : aux_stmts.
Variable local_time : Z -> option (list byte).
Variable format : list byte -> list byte.
Variable meta_line : meta -> list byte.
Variable io : nat -> answer.
Variable line_text : log_line -> list byte.
Variable ss_map : snapshot -> list byte.
Variable fuel : nat.

Abbreviation rep := (replica Q).
Abbreviation idx r := (st_index (r_st Q r)).
Abbreviation com r := (s_commit (r_srv Q r)).

(** The commit index lies in the log, the state has applied the entries up to it, and its
    sessions are consistent. *)
Record in_step (r : rep) : Prop := {
  is_bounded : bounded (r_srv Q r);
  is_applied : idx r = com r;
  is_sessions : sessions_ok (idx r) (r_st Q r)
}.

(** What the server does to the state besides applying entries: it tells it whether it leads,
    takes jobs from its queue, and runs readonly requests. *)
Inductive quiet : state Q -> state Q -> Prop :=
| quiet_leading b st : quiet st (set_leading Q b st)
| quiet_jobs jobs st :
    quiet st (with_conn Q st (mk_conn (k_db (st_conn st)) (with_jobs (k_hooks (st_conn st)) jobs)))
| quiet_readonly cid data out a st st' :
    state_apply_readonly Q aux fuel cid data out st = Some (a, st') -> quiet st st'.

(** The replicated state machine: a log and a state.  The log may change behind the applied
    entries, and before them a snapshot may replace entries; the state changes quietly or by
    applying the next entry of the log. *)
Inductive rsm_step : rlog * state Q -> rlog * state Q -> Prop :=
| rsm_log l l' st : kept (st_index st) l l' -> rsm_step (l, st) (l', st)
| rsm_quiet l st st' : quiet st st' -> rsm_step (l, st) (l, st')
| rsm_apply l e st sess st' :
    log_entry l (st_index st + 1) = Some e ->
    state_apply Q aux local_time format meta_line fuel (st_index st + 1) e st = Some ((RS_OK, sess), st') ->
    rsm_step (l, st) (l, st').

Definition rsm_of (r : rep) : rlog * state Q := (s_log (r_srv Q r), r_st Q r).

Lemma readonly_steps b c cid data out : steps Q b b c (state_apply_readonly Q aux fuel cid data out).
Proof.
  unfold state_apply_readonly. eapply (steps_bind Q local_time format); [done|by apply steps_modify|intros _].
  eapply (steps_bind Q local_time format); [done|apply flags_steps|intros _]. eapply (steps_bind Q local_time format); [done|apply steps_gets|intros found].
  destruct found as [a|].
  - eapply (steps_bind Q local_time format); [done| |intros [rc o]; apply steps_ret].
    intros st r st' E. by eapply exec_on_steps in E.
  - eapply (steps_bind Q local_time format); [done|by apply steps_modify|intros _]. eapply (steps_bind Q local_time format); [done| |intros o; apply steps_ret].
    apply steps_same. intros st r st'. unfold error_response.
    destruct (state_encode_error _ _) as [[? x]|]; [|done]. by intros [= _ <-].
Qed.

Lemma quiet_keeps st st' :
  rtc quiet st st' -> st_index st' = st_index st /\ forall b, sessions_ok b st -> sessions_ok b st'.
Proof.
  assert (H : forall st st', same_sessions Q st st' -> st_index st' = st_index st /\ forall b, sessions_ok b st -> sessions_ok b st').
  { intros s1 s2 Hs. split; [apply Hs|]. intros b Hb. by destruct (same_evolves Q b 0 s1 s2 Hs) as [_ [? _]]. }
  induction 1 as [st|st1 st2 st3 Hq _ [I S]]; [done|].
  enough (st_index st2 = st_index st1 /\ forall b, sessions_ok b st1 -> sessions_ok b st2) as [I1 S1] by (split; [congruence|auto]).
  destruct Hq as [b st|jobs st|cid data out a st st' E]; [by apply H..|].
  split; [by destruct (readonly_steps 0 0 _ _ _ _ _ _ E)|]. intros b Hb. by destruct (readonly_steps b 0 _ _ _ _ _ _ E) as [_ [? _]].
Qed.

(** Code that applies nothing. *)
Definition still (r r' : rep) : Prop :=
  grows (r_srv Q r) (r_srv Q r') /\ rtc quiet (r_st Q r) (r_st Q r').

Definition stays {A} (m : runM rep A) : Prop := forall r a r', m r = Some (a, r') -> still r r'.

Lemma still_refl r : still r r.
Proof. split; [apply grows_refl|done]. Qed.

Lemma still_trans r1 r2 r3 : still r1 r2 -> still r2 r3 -> still r1 r3.
Proof. intros [C1 Q1] [C2 Q2]. split; [by eapply grows_trans|by etrans]. Qed.

Lemma quiet_rsm l st st' : rtc quiet st st' -> rtc rsm_step (l, st) (l, st').
Proof. induction 1; [done|]. eapply rtc_l; [by apply rsm_quiet|done]. Qed.

(** Entries up to the end of the log are not touched by such code, also those behind the commit
    index. *)
Lemma still_rsm r r' :
  still r r' -> bounded (r_srv Q r) -> idx r <= last_index (s_log (r_srv Q r)) -> rtc rsm_step (rsm_of r) (rsm_of r').
Proof.
  intros [C Hq] B L. destruct (C B) as (_ & _ & _ & K). eapply rtc_l; [|by apply quiet_rsm].
  apply rsm_log. by eapply kept_le.
Qed.

(** Only what the server does not contain has changed. *)
Lemma same_still r r' : r_srv Q r' = r_srv Q r -> r_st Q r' = r_st Q r -> still r r'.
Proof. intros E1 E2. unfold still. rewrite E1, E2. apply still_refl. Qed.

Lemma stays_ret {A} (a : A) : stays (mret a).
Proof. intros r x r' E. injection E as _ <-. apply still_refl. Qed.

Lemma stays_halt {A} : stays (@halt rep A).
Proof. by intros r. Qed.

Lemma stays_peek {A} (f : rep -> A) : stays (peek f).
Proof. intros r a r' E. injection E as _ <-. apply still_refl. Qed.

Lemma stays_bind {A B} (m : runM rep A) (f : A -> runM rep B) : stays m -> (forall a, stays (f a)) -> stays (m ≫= f).
Proof.
  intros Hm Hf r b r'. unfold mbind, runM_bind. destruct (m r) as [[a r1]|] eqn:E; [|done]. intros H.
  eapply still_trans; [by eapply Hm|by eapply Hf].
Qed.

Lemma stays_poke f : (forall r, still r (f r)) -> stays (poke f).
Proof. unfold poke. intros H r [] r' E. apply (inj Some) in E. injection E as <-. apply H. Qed.

Lemma stays_and_then rc k : stays k -> stays (and_then rc k).
Proof. intros H. unfold and_then. destruct (decide _); [done|apply stays_ret]. Qed.

Lemma stays_on_srv {A} (m : runM server A) : fixes m -> stays (on_srv Q m).
Proof.
  intros Hm r a r'. unfold on_srv. destruct (m (r_srv Q r)) as [[x s]|] eqn:E; [|done]. intros H.
  apply (inj Some) in H. injection H as <- <-. split; [exact (Hm _ _ _ E)|done].
Qed.

(** Code of the state machine that applies nothing. *)
Lemma stays_on_st {A} (m : stateM Q A) : (forall st a st', m st = Some (a, st') -> rtc quiet st st') -> stays (on_st Q m).
Proof.
  intros Hm r a r'. unfold on_st. destruct (m (r_st Q r)) as [[x st]|] eqn:E; [|done]. intros H.
  apply (inj Some) in H. injection H as <- <-. split; [apply grows_refl|by eapply Hm].
Qed.

Lemma stays_client_at a : stays (client_at Q a).
Proof.
  intros r c r'. unfold client_at. destruct (r_clients Q r !! a); [|done]. intros [= _ <-]. apply still_refl.
Qed.

Lemma stays_asks : stays (asks Q io).
Proof. apply stays_on_srv. fixed. Qed.

Lemma quiet_still r st : quiet (r_st Q r) st -> still r (put_st Q r st).
Proof. intros H. split; [apply grows_refl|by apply rtc_once]. Qed.

Lemma set_leading_still b r : still r (put_st Q r (set_leading Q b (r_st Q r))).
Proof. apply quiet_still, quiet_leading. Qed.

#[local] Hint Resolve stays_client_at stays_asks set_leading_still : pace.

Ltac stay := repeat
  lazymatch goal with
  | |- stays (mret _) => apply stays_ret
  | |- stays halt => apply stays_halt
  | |- stays (peek _) => apply stays_peek
  | |- stays (srv _ _) => apply stays_peek
  | |- stays (and_then _ _) => apply stays_and_then
  | |- stays (or_disconnect _ _ _ _ _) => unfold or_disconnect
  | |- stays (_ ≫= _) => apply stays_bind; [|intros ?]
  | |- stays (poke _) => apply stays_poke; intros ?; auto with pace; try by apply same_still
  | |- stays (set_client _ _ _) => apply stays_poke; intros ?; by apply same_still
  | |- stays (on_srv _ _) => apply stays_on_srv; fixed
  | |- stays (if ?b then _ else _) => destruct b
  | |- stays (match ?x with _ => _ end) => destruct x
  end; auto with pace.

(** *** Clients and applied entries *)

Lemma stays_disconnect a rc : stays (server_on_client_disconnect Q io a rc).
Proof. unfold server_on_client_disconnect. stay. Qed.
#[local] Hint Resolve stays_disconnect : pace.

Lemma stays_processed a : stays (client_processed Q io a).
Proof. unfold client_processed. stay. Qed.

Lemma stays_flush : stays (conn_flush Q io).
Proof. unfold conn_flush. stay. Qed.
#[local] Hint Resolve stays_processed stays_flush : pace.

Lemma stays_applied_req cid resp : stays (server_on_applied_client_req Q io cid resp).
Proof. unfold server_on_applied_client_req. stay. Qed.

Lemma stays_connect_applied sess : stays (server_on_client_connect_applied Q io sess).
Proof. unfold server_on_client_connect_applied. stay. Qed.

Lemma stays_on_meta m : stays (server_on_meta Q io m).
Proof.
  unfold server_on_meta. stay; apply same_grows; [|apply write_meta_position].
  cbv zeta. case_if; rewrite ?become_follower_position; apply meta_change_position.
Qed.

Lemma stays_on_term m : stays (server_on_term_start Q m).
Proof. unfold server_on_term_start. stay. Qed.

Lemma stays_session_at a : stays (on_st Q (session_at Q a)).
Proof.
  apply stays_on_st. intros st s st'. unfold session_at. destruct (st_heap st !! a); [|done]. by intros [= _ <-].
Qed.
#[local] Hint Resolve stays_applied_req stays_connect_applied stays_on_meta stays_on_term stays_session_at : pace.

Lemma stays_applied_entry e sess : stays (server_on_applied_entry Q io e sess).
Proof. unfold server_on_applied_entry. cbv zeta. stay. Qed.

Abbreviation apply_entries := (apply_from Q aux local_time format meta_line io fuel).
Abbreviation update_commit := (server_update_commit Q aux local_time format meta_line io fuel).

(** The entries of the log are applied in the order of their indexes. *)
Lemma apply_from_index n : forall i r r',
  apply_entries n i r = Some (RS_OK, r') -> i = idx r + 1 ->
  grows (r_srv Q r) (r_srv Q r') /\ idx r' = idx r + Z.of_nat n /\
  (sessions_ok (idx r) (r_st Q r) -> sessions_ok (idx r') (r_st Q r')) /\
  (bounded (r_srv Q r) -> idx r + Z.of_nat n <= last_index (s_log (r_srv Q r)) -> rtc rsm_step (rsm_of r) (rsm_of r')).
Proof.
  induction n as [|n IH]; intros i r r'; cbn [apply_from].
  { intros E _. injection E as <-. split_and!; [apply grows_refl|lia|done|done]. }
  unfold mbind, runM_bind, srv, peek, poke. intros E ->. destruct (log_entry _ _) as [e|] eqn:Ee; [|done]. cbv beta iota in E.
  set (r1 := put_st Q r _) in E. destruct (set_leading_still ((e_term e =? s_term (r_srv Q r)) &&
    bool_decide (s_role (r_srv Q r) = SERVER_ROLE_LEADER)) r) as [C1 Q1]. fold r1 in C1, Q1.
  destruct (quiet_keeps _ _ Q1) as [I1 S1].
  unfold on_st in E. destruct (state_apply _ _ _ _ _ _ _ _ (r_st Q r1)) as [[[rc sess] st]|] eqn:Ea; [|done].
  assert (Hc : e_flags e = CMD_REQUEST -> e_cid e <> e_cid e + 1) by lia.
  rewrite <- I1 in Ea. destruct (apply_evolves _ _ _ _ _ _ _ _ _ _ _ Hc Ea) as [I2 S2].
  destruct rc; try done. set (r2 := put_st Q r1 st) in E.
  destruct (server_on_applied_entry _ _ _ _ r2) as [[rc r3]|] eqn:E2; [|done].
  apply stays_applied_entry in E2. pose proof E2 as [C3 Q3]. destruct (quiet_keeps _ _ Q3) as [I3 S3].
  revert E. unfold and_then. destruct (decide _); [|by intros [=]].
  intros E%IH; [|cbn in I3; lia]. destruct E as (C4 & I4 & S4 & R4). cbn in I3.
  split_and!; [exact (grows_trans _ _ _ C3 C4)|lia| |].
  - intros Hok. apply S4. rewrite I3. apply S3. cbn. rewrite I2. apply S2. rewrite I1. by apply S1.
  - intros B L. destruct (C3 B) as (B3 & _ & L3 & _). change (s_log (r_srv Q r2)) with (s_log (r_srv Q r)) in L3.
    transitivity (rsm_of r1); [by apply quiet_rsm|]. eapply rtc_l.
    { apply (rsm_apply (s_log (r_srv Q r)) e (r_st Q r1) sess st); [rewrite I1; exact Ee|exact Ea]. }
    transitivity (rsm_of r3); [|apply R4; [done|lia]]. apply (still_rsm r2 r3 E2 B). cbn. lia.
Qed.

(** ** Every handler keeps them in step *)

(** Code after which, when it succeeds, the state is in step again, nothing was undone, and log
    and state went through steps of the replicated state machine. *)
Definition advances (r r' : rep) : Prop :=
  in_step r -> in_step r' /\ com r <= com r' /\ rtc rsm_step (rsm_of r) (rsm_of r').
Definition paced (m : runM rep rs_rc) : Prop := forall r r', m r = Some (RS_OK, r') -> advances r r'.

Lemma still_advances r r' : still r r' -> advances r r'.
Proof.
  intros H [B E Hok]. pose proof H as [C Hq]. destruct (C B) as (B' & C' & _). destruct (quiet_keeps _ _ Hq) as [I S0].
  split_and!; [|lia|apply still_rsm; [done|done|destruct B; lia]]. split; [done|congruence|rewrite I; auto].
Qed.

Lemma advances_trans r1 r2 r3 : advances r1 r2 -> advances r2 r3 -> advances r1 r3.
Proof. intros H1 H2 (Hs1 & Hl1 & R1)%H1. destruct (H2 Hs1) as (? & ? & ?). split_and!; [done|lia|by etrans]. Qed.

Lemma paced_stays m : stays m -> paced m.
Proof. intros H r r' E. by eapply still_advances, H. Qed.

Lemma paced_bind {A} (m : runM rep A) (f : A -> runM rep rs_rc) : stays m -> (forall a, paced (f a)) -> paced (m ≫= f).
Proof.
  intros Hm Hf r r'. unfold mbind, runM_bind. destruct (m r) as [[a r1]|] eqn:E; [|done]. intros H.
  eapply advances_trans; [by eapply still_advances, Hm|by eapply Hf].
Qed.

Lemma paced_then (m k : runM rep rs_rc) : paced m -> paced k -> paced (m ≫= fun rc => and_then rc k).
Proof.
  intros Hm Hk r r'. unfold mbind, runM_bind, and_then. destruct (m r) as [[rc r1]|] eqn:E; [|done].
  destruct (decide _) as [->|]; [|by intros [=]]. intros H. eapply advances_trans; [by eapply Hm|by eapply Hk].
Qed.

Lemma paced_snapshot : paced (maybe_snapshot Q io).
Proof.
  intros r r'. unfold maybe_snapshot, mbind, runM_bind, srv, peek.
  destruct (s_ss_inprogress (r_srv Q r)) eqn:Ep; [by intros [= <-]|].
  destruct (asks Q io r) as [[x r1]|] eqn:E1; [|done]. apply stays_asks, still_advances in E1. intros E Hr.
  destruct (E1 Hr) as (Hr1 & L1 & R1). clear E1.
  destruct (ss_index_of x (s_log (r_srv Q r1))) as [index|] eqn:Ei; [|injection E as <-; done].
  destruct (_ >=? _) eqn:Ec; [|injection E as <-; done]. zb.
  unfold snapshot_take, mbind, runM_bind, on_srv, poke in E.
  match type of E with context [asks Q io ?x] => set (r2 := x) in E end.
  assert (H2 : in_step r2).
  { destruct Hr1 as [[B1 B2 B3] A1 S1]. split; [|done|done]. split; [done|done|]. intros _. cbn.
    unfold ss_index_of in Ei. destruct (a_ok x); [|done]. injection Ei as <-. pose proof (zlen_nonneg (l_entries (s_log (r_srv Q r1)))). lia. }
  destruct (asks Q io r2) as [[y r3]|] eqn:E3; [|done]. apply stays_asks, still_advances in E3.
  destruct (E3 H2) as (H3 & L3 & R3). unfold mret, runM_ret in E. destruct (decide (a_rc y = RS_OK)); [|done].
  injection E as <-. split_and!; [done|cbn in L3; lia|]. by transitivity (rsm_of r1).
Qed.

(** The commit index moves to [commit], at most to the end of the log, and the state follows. *)
Lemma update_commit_spec commit r r' :
  (commit >? com r) = true -> in_step r ->
  apply_entries (Z.to_nat (Z.min commit (last_index (s_log (r_srv Q r))) - com r)) (com r + 1) r = Some (RS_OK, r') ->
  let s := r_srv Q r' in
  let c := Z.min commit (last_index (s_log (r_srv Q r))) in
  in_step (put_srv Q r' (set_last_quorum (set_commit s c) (s_timestamp s))) /\ com r <= c /\
  rtc rsm_step (rsm_of r) (rsm_of r').
Proof.
  intros Hc [[B1 B2 B3] A S0] E. zb. apply apply_from_index in E as (G & I & S1 & R1); [|lia].
  destruct (G ltac:(by split)) as ([C1 C2 C3] & Ec & L & _). rewrite Z2Nat.id in I, R1 by lia.
  cbv zeta. split_and!; [|lia|apply R1; [by split|lia]].
  split; cbn; [split; cbn| |]; [lia|lia|intros Hp; specialize (C3 Hp); lia|lia|auto].
Qed.

Lemma paced_update_commit commit : paced (update_commit commit).
Proof.
  intros r r'. unfold server_update_commit, mbind, runM_bind, srv, peek.
  destruct (commit >? com r) eqn:Ec; [|unfold mret, runM_ret; apply paced_snapshot].
  destruct (apply_entries _ _ r) as [[rc r1]|] eqn:E1; [|done]. unfold and_then at 2.
  destruct (decide (rc = RS_OK)) as [->|Hrc].
  - unfold on_srv, poke, mret, runM_ret. intros E Hr. destruct (update_commit_spec _ _ _ Ec Hr E1) as (H1 & L1 & R1).
    destruct (paced_snapshot _ _ E H1) as (H2 & L2 & R2). split_and!; [done|cbn in L2; lia|by etrans].
  - unfold and_then, mret, runM_ret. destruct (decide _); [done|]. destruct (decide _); [done|]. by intros [=].
Qed.
#[local] Hint Resolve paced_snapshot paced_update_commit : pace.

Ltac pace := repeat
  lazymatch goal with
  | |- paced (_ ≫= fun rc => and_then rc _) => apply paced_then
  | |- paced (_ ≫= _) => apply paced_bind; [solve [stay]|intros ?]
  | |- paced (if ?b then _ else _) => destruct b
  | |- paced (match ?x with _ => _ end) => destruct x
  | |- paced (mret _) => apply paced_stays, stays_ret
  | |- paced halt => apply paced_stays, stays_halt
  end; auto with pace.

(** *** Messages of nodes *)

(** An append request does not contradict committed entries of its receiver. *)
Definition respectful (s : server) (m : msg) : Prop :=
  match m with
  | append_req _ prev_log_index _ _ _ buf =>
      forall ms, entry_foreach (S (length buf)) buf = Some ms -> respects s (prev_log_index +₆₄ 1) ms
  | _ => True
  end.

Lemma store_entries_advances index buf r r' :
  (forall ms, entry_foreach (S (length buf)) buf = Some ms -> respects (r_srv Q r) index ms) -> 0 <= index ->
  on_srv Q (server_store_entries io index buf) r = Some (RS_OK, r') -> advances r r'.
Proof.
  intros Hr Hi E [B A S0]. unfold on_srv, server_store_entries in E.
  destruct (entry_foreach _ _) as [ms|]; [|done]. destruct (store_loop _ _ _ _) as [[rc s]|] eqn:E1; [|done].
  apply (inj Some) in E. injection E as -> <-. destruct (store_loop_holds io ms _ _ _ (Hr ms eq_refl) Hi E1 B) as (B1 & C1 & K1).
  split_and!; [by split; [|cbn; congruence|]|cbn; lia|]. apply rtc_once, rsm_log. cbn in K1. by rewrite <- A in K1.
Qed.

Abbreviation append_req_handler := (server_on_append_req Q aux local_time format meta_line io fuel).

Lemma bind_run {A B} (m : runM rep A) (k : A -> runM rep B) r :
  (m ≫= k) r = match m r with None => None | Some (a, r1) => k a r1 end.
Proof. done. Qed.

Lemma bind_srv {A B} (f : server -> A) (k : A -> runM rep B) r : (srv Q f ≫= k) r = k (f (r_srv Q r)) r.
Proof. done. Qed.

Lemma bind_poke {B} (f : server -> server) (k : () -> runM rep B) r :
  (on_srv Q (poke f) ≫= k) r = k () (put_srv Q r (f (r_srv Q r))).
Proof. done. Qed.

Lemma position_still r s : position s = position (r_srv Q r) -> still r (put_srv Q r s).
Proof. intros H. by split_and!; [apply same_grows|..]. Qed.

Lemma respects_position s s' index ms : position s' = position s -> respects s index ms -> respects s' index ms.
Proof. unfold position. intros [= E1 E2 _ _] [R1 R2 R3]. by split; rewrite ?E1, ?E2. Qed.

Lemma paced_append n term prev_log_index prev_log_term leader_commit round buf r r' :
  respectful (r_srv Q r) (append_req term prev_log_index prev_log_term leader_commit round buf) ->
  append_req_handler n term prev_log_index prev_log_term leader_commit round buf r = Some (RS_OK, r') -> advances r r'.
Proof.
  intros Hr. unfold server_on_append_req. cbv zeta. rewrite bind_srv.
  assert (Hout : forall b, paced (on_srv Q (poke (fun s =>
      put_msg s n (append_resp (last_index (s_log s)) (s_term s) (if b : bool then round else 0) b)));; mret RS_OK))
    by (intros b; apply paced_stays; stay).
  destruct (_ >? _); [exact (Hout false r r')|]. rewrite bind_srv, !bind_poke. set (r1 := put_srv Q (put_srv Q r _) _).
  assert (P1 : position (r_srv Q r1) = position (r_srv Q r)).
  { unfold r1. cbn [r_srv put_srv]. rewrite set_node_position. case_if; [apply become_follower_position|done]. }
  assert (H1 : advances r r1).
  { apply still_advances. unfold r1. eapply still_trans; apply position_still; [|apply set_node_position].
    case_if; [apply become_follower_position|done]. }
  clearbody r1. rewrite !bind_srv. destruct (_ || _); [intros E; exact (advances_trans _ _ _ H1 (Hout false _ _ E))|].
  unfold mbind at 1, runM_bind at 1. destruct (on_srv Q (server_store_entries _ _ _) r1) as [[rc r2]|] eqn:E2; [|done].
  unfold and_then at 1. destruct (decide _) as [->|]; [|by intros [=]]. rewrite bind_poke. intros E.
  eapply advances_trans; [exact H1|]. eapply advances_trans.
  { apply (store_entries_advances (prev_log_index +₆₄ 1) buf); [|apply u64_range|exact E2]. intros ms Hms.
    eapply respects_position; [exact P1|by apply Hr]. }
  eapply advances_trans; [apply still_advances, position_still, become_follower_position|].
  exact (paced_then _ _ (paced_update_commit leader_commit) (Hout true) _ _ E).
Qed.

Abbreviation node_msg := (on_node_msg Q aux local_time format meta_line io line_text fuel).

Lemma paced_node_msg n m r r' :
  respectful (r_srv Q r) m -> node_msg n m r = Some (Some RS_OK, r') -> advances r r'.
Proof.
  intros Hr. unfold on_node_msg. cbv zeta.
  assert (Hret : forall f : runM rep rs_rc, (f r = Some (RS_OK, r') -> advances r r') ->
    (f ≫= fun rc => mret (Some rc)) r = Some (Some RS_OK, r') -> advances r r').
  { intros f Hf. unfold mbind, runM_bind. destruct (f r) as [[rc r1]|]; [|done].
    intros E. injection E as -> ->. by apply Hf. }
  assert (Hst : forall f : runM rep rs_rc, stays f ->
    (f ≫= fun rc => mret (Some rc)) r = Some (Some RS_OK, r') -> advances r r').
  { intros f Hf. apply Hret. by apply (paced_stays f). }
  destruct m; try (by intros [=]).
  - apply Hret. by apply paced_append.
  - apply Hst. stay. apply same_grows, append_resp_position.
  - apply Hst. stay.
  - apply Hst. stay. apply votes_grows.
  - apply Hst. stay. apply same_grows, reqvote_req_position.
  - apply Hst. stay. apply votes_grows.
  - apply Hst. stay. apply snapshot_req_grows.
  - apply Hst. stay. apply snapshot_resp_grows.
  - intros E. injection E as <-. apply still_advances, still_refl.
  - apply Hst. unfold server_on_shutdown_req. stay.
Qed.

(** Along the messages of a connection, each one is respectful when it arrives. *)
Fixpoint all_respectful (n : Z) (ms : list msg) (r : rep) : Prop :=
  match ms with
  | [] => True
  | m :: ms =>
      respectful (r_srv Q r) m /\ forall r', node_msg n m r = Some (Some RS_OK, r') -> all_respectful n ms r'
  end.

Lemma stays_node_disconnect n : stays (on_srv Q (poke (fun s => server_on_node_disconnect s n));; mret RS_OK).
Proof. stay. apply same_grows, disconnect_position. Qed.
#[local] Hint Resolve stays_node_disconnect : pace.

Abbreviation node_recv_handler := (node_recv Q aux local_time format meta_line io line_text fuel).

Lemma node_msg_none n m r r' : node_msg n m r = Some (None, r') -> still r r'.
Proof.
  unfold on_node_msg. cbv zeta.
  assert (Hret : forall f : runM rep rs_rc, (f ≫= fun rc => mret (Some rc)) r <> Some (None, r')).
  { intros f. unfold mbind, runM_bind. by destruct (f r) as [[rc r1]|]. }
  destruct m; try (by intros ?%Hret); try (by intros [=]); intros E; injection E as <-; apply still_refl.
Qed.

Lemma paced_node_recv n ms invalid : forall r r',
  all_respectful n ms r -> node_recv_handler n ms invalid r = Some (RS_OK, r') -> advances r r'.
Proof.
  induction ms as [|m ms IH]; intros r r' Hr.
  - cbn [node_recv]. revert r r' Hr. cut (paced (if invalid then on_srv Q (poke (fun s => server_on_node_disconnect s n));; mret RS_OK
      else rc ← conn_flush Q io; if decide (rc = RS_OK) then mret RS_OK
        else on_srv Q (poke (fun s => server_on_node_disconnect s n));; mret RS_OK)); [intros H r r' _; exact (H r r')|].
    apply paced_stays. stay; apply same_grows, disconnect_position.
  - destruct Hr as [Hm Hms]. cbn [node_recv]. cbv zeta. rewrite (bind_run (node_msg n m)).
    destruct (node_msg n m r) as [[[rc|] r1]|] eqn:E1; [| |done].
    + unfold and_then. destruct (decide _) as [->|]; [|by intros [=]]. intros E.
      eapply advances_trans; [by eapply paced_node_msg|by eapply IH, E; apply Hms].
    + intros E. eapply advances_trans; [by eapply still_advances, node_msg_none|].
      by eapply still_advances, stays_node_disconnect.
Qed.

(** *** Clients *)

Lemma stays_pending conn rc : stays (server_on_pending_disconnect Q io conn rc).
Proof. unfold server_on_pending_disconnect. stay. Qed.
#[local] Hint Resolve stays_pending : pace.

Lemma stays_client_connect conn name local remote : stays (server_on_client_connect_req Q io conn name local remote).
Proof. unfold server_on_client_connect_req. cbv zeta. stay. Qed.

Lemma stays_take_request a seq readonly buf : stays (take_request Q io a seq readonly buf).
Proof. unfold take_request. stay. cbv beta. case_if; by apply same_grows. Qed.
#[local] Hint Resolve stays_client_connect stays_take_request : pace.

Lemma stays_client_recv a pending d : stays (server_on_client_recv Q io a pending d).
Proof. unfold server_on_client_recv. cbv zeta. stay. Qed.

Lemma stays_readonly cid data out : stays (on_st Q (state_apply_readonly Q aux fuel cid data out)).
Proof. apply stays_on_st. intros st a st' E. by eapply rtc_once, quiet_readonly. Qed.
#[local] Hint Resolve stays_client_recv stays_readonly : pace.

Lemma stays_process_readonly a : stays (server_process_readonly Q aux io fuel a).
Proof. unfold server_process_readonly. stay. Qed.
#[local] Hint Resolve stays_process_readonly : pace.

Lemma stays_answer_reads l : stays (answer_reads Q aux io fuel l).
Proof. induction l as [|a l IH]; cbn [answer_reads]; stay. Qed.
#[local] Hint Resolve stays_answer_reads : pace.

(** *** The work of a leader after each round *)

Lemma paced_check_commit : paced (server_check_commit Q aux local_time format meta_line io fuel).
Proof.
  unfold server_check_commit. apply paced_bind; [stay|intros index].
  apply paced_bind; [apply stays_on_srv, commit_index_fixes|intros match_]. apply paced_then; [apply paced_update_commit|].
  apply paced_stays. stay. cbv zeta. case_if; by apply same_grows.
Qed.

Lemma stays_add_node data : stays (server_job_add_node Q io line_text data).
Proof.
  unfold server_job_add_node. cbv zeta. stay.
  apply same_grows. unfold position. rewrite update_connections_core. done.
Qed.

Lemma stays_remove_node data : stays (server_job_remove_node Q io line_text data).
Proof. unfold server_job_remove_node. cbv zeta. stay. Qed.

Lemma stays_shutdown data : stays (server_job_shutdown Q io data).
Proof. unfold server_job_shutdown, server_on_shutdown_req. cbv zeta. stay. apply shutdown_all_fixes. Qed.
#[local] Hint Resolve stays_add_node stays_remove_node stays_shutdown : pace.

Lemma stays_jobs jobs : stays (handle_jobs Q io line_text jobs).
Proof.
  induction jobs as [|job jobs IH]; cbn [handle_jobs]; stay. apply quiet_still, quiet_jobs.
Qed.

Lemma paced_flush : paced (server_flush Q aux local_time format meta_line io line_text ss_map fuel).
Proof.
  unfold server_flush. apply paced_bind; [stay|intros _]. apply paced_bind; [stay|intros _].
  apply paced_bind; [stay|intros role]. destruct (negb _).
  - apply paced_stays. stay. apply same_grows, flush_remaining_position.
  - apply paced_then; [apply paced_stays; stay; apply flush_nodes_grows|]. apply paced_then; [apply paced_check_commit|].
    apply paced_stays. unfold server_handle_jobs. stay. apply stays_jobs.
Qed.

Lemma stays_info_timer peers : stays (server_on_info_timer Q io peers).
Proof.
  unfold server_on_info_timer. stay. apply same_grows. by rewrite flush_node_position.
Qed.

(** *** The event loop *)

Abbreviation handle := (server_handle Q aux local_time format meta_line io line_text ss_map fuel).
Abbreviation loop := (server_loop Q aux local_time format meta_line io line_text ss_map fuel).

Definition respectful_event (r : rep) (e : event) : Prop :=
  match e with
  | on_node_readable n ms _ => all_respectful n ms r
  | on_node_answer n _ ms _ => all_respectful n ms (put_srv Q r (connect_node (r_srv Q r) n))
  | _ => True
  end.

Fixpoint respectful_run (es : list event) (r : rep) : Prop :=
  match es with
  | [] => True
  | e :: es => respectful_event r e /\ forall r', handle e r = Some (RS_OK, r') -> respectful_run es r'
  end.

Lemma handle_advances e r r' : respectful_event r e -> handle e r = Some (RS_OK, r') -> advances r r'.
Proof.
  destruct e as [now|peers|conn|n ms invalid|n d ms invalid|name|a pending d|conn name local remote|];
    cbn [respectful_event server_handle]; intros Hr.
  - eapply paced_stays. stay. apply timeout_grows.
  - eapply paced_stays, stays_info_timer.
  - eapply paced_stays. stay.
  - by apply paced_node_recv.
  - unfold server_on_connect_resp. cbv zeta. destruct d as [| |m]; [| |destruct m];
      try (intros E; by eapply still_advances, stays_node_disconnect, E);
      try (intros E; injection E as <-; apply still_advances, still_refl).
    rewrite bind_poke. intros E. apply (advances_trans _ _ _ (still_advances r (put_srv Q r (connect_node (r_srv Q r) n))
      (position_still r (connect_node (r_srv Q r) n) eq_refl))).
    exact (paced_node_recv n ms invalid _ _ Hr E).
  - eapply paced_stays. stay. apply same_grows, node_connect_position.
  - eapply paced_stays, stays_client_recv.
  - eapply paced_stays, stays_client_connect.
  - apply paced_flush.
Qed.

Lemma loop_advances es : forall r r', respectful_run es r -> loop es r = Some (RS_OK, r') -> advances r r'.
Proof.
  induction es as [|e es IH]; intros r r' Hr; cbn [server_loop].
  { intros E. injection E as <-. apply still_advances, still_refl. }
  destruct Hr as [He Hes]. rewrite bind_run. destruct (handle e r) as [[rc r1]|] eqn:E1; [|done].
  unfold and_then. destruct (decide _) as [->|]; [|by intros [=]]. intros E.
  eapply advances_trans; [by eapply handle_advances|]. eapply IH; [by apply Hes|exact E].
Qed.
End pace.


Definition serving_server : server := trio_server 1 empty_log.

Definition serving_replica : replica demo_sqlite := mk_replica demo_sqlite serving_server demo_state ∅ [] [] 0 false.

Definition sent_entries : list entry := [demo_connect x61; mk_entry 1 0 0 CMD_LOG (cmd_bytes (CLog (mk_log (Some [x61]) (Some [x62]))))].

Definition serving_events : list event :=
  [on_node_readable 2 [append_req 1 0 0 2 1 (enc_entries sent_entries)] false; on_round_end].

Abbreviation serving_loop :=
  (server_loop demo_sqlite demo_aux (fun _ => None) demo_format demo_line all_ok (fun _ => []) (fun _ => []) 200).

Lemma serving_in_step : in_step demo_sqlite serving_replica.
Proof.
  split; [|vm_compute; reflexivity|exact demo_state_ok].
  split; [vm_compute; split; discriminate|vm_compute; discriminate|vm_compute; discriminate].
Qed.

Lemma serving_respects :
  respectful_run demo_sqlite demo_aux (fun _ => None) demo_format demo_line all_ok (fun _ => []) (fun _ => []) 200
    serving_events serving_replica.
Proof.
  split; [split; [|intros ? ?; exact I]|intros ? ?; split; [exact I|intros ? ?; exact I]]. intros ms Hms.
  assert (Hl : length <$> entry_foreach (S (length (enc_entries sent_entries))) (enc_entries sent_entries) = Some 2%nat)
    by (vm_compute; reflexivity).
  rewrite Hms in Hl. apply (inj Some) in Hl. split.
  - unfold zlen. rewrite Hl. vm_compute. reflexivity.
  - vm_compute. reflexivity.
  - intros i m c _ Hi. exfalso. change (s_commit _) with 0 in Hi. change (0 +₆₄ 1) with 1 in Hi. lia.
Qed.

