(* ===== verification/Hdr.v ===== *)
(** * Latency histograms (lib/hdr/hdr_histogram.c)

    The histogram the benchmark records latencies in: a value is counted in the
    slot given by the position of its highest bit and the bits behind it.  The
    functions the benchmark reaches are translated: the layout of the counters
    ([hdr_calculate_bucket_config]), recording, the iterators over all and over the
    recorded slots, merging ([hdr_add]), minimum, maximum and percentiles.

    Signed integers are [Z] with their two's complement wrap written out.  An access
    outside the counters is [None].  The two places where the code computes with
    [double] are arguments: [log2_trunc v] is [(int32_t) (log((double) v) / log(2))],
    and the rank a percentile asks for. *)
From stdpp Require Import base list sets sorting.
From Stdlib Require Import ZArith Lia.
From S2P Require Import Prelude.
Open Scope Z_scope.

Definition i32 (z : Z) : Z := (z + 2 ^ 31) mod 2 ^ 32 - 2 ^ 31.
Definition i64 (z : Z) : Z := (z + 2 ^ 63) mod 2 ^ 64 - 2 ^ 63.
Definition INT32_MAX : Z := 2 ^ 31 - 1.
Definition INT64_MAX : Z := 2 ^ 63 - 1.
Definition EINVAL : Z := 22.
Definition ENOMEM : Z := 12.

Record hdr_histogram_bucket_config := Cfg {
  lowest_discernible_value : Z;
  highest_trackable_value : Z;
  unit_magnitude : Z;
  significant_figures : Z;
  sub_bucket_half_count_magnitude : Z;
  sub_bucket_half_count : Z;
  sub_bucket_mask : Z;
  sub_bucket_count : Z;
  bucket_count : Z;
  counts_len : Z;
}.

(** The layout is copied into the histogram, here as one field.  The conversion ratio is
    never read. *)
Record hdr_histogram := Hdr {
  h_cfg : hdr_histogram_bucket_config;
  min_value : Z;
  max_value : Z;
  normalizing_index_offset : Z;
  total_count : Z;
  counts : list Z;
}.

(** ** Counters *)

Definition normalize_index (h : hdr_histogram) (index : Z) : Z :=
  if normalizing_index_offset h =? 0 then index else
  let normalized_index := i32 (index - normalizing_index_offset h) in
  let adjustment :=
    if normalized_index <? 0 then counts_len (h_cfg h)
    else if normalized_index >=? counts_len (h_cfg h) then - counts_len (h_cfg h)
    else 0 in
  i32 (normalized_index + adjustment).

Definition counts_get_direct (h : hdr_histogram) (index : Z) : option Z :=
  if index <? 0 then None else counts h !! Z.to_nat index.

Definition counts_get_normalised (h : hdr_histogram) (index : Z) : option Z :=
  counts_get_direct h (normalize_index h index).

Definition counts_inc_normalised (h : hdr_histogram) (index value : Z) : option hdr_histogram :=
  let normalised_index := normalize_index h index in
  match counts_get_direct h normalised_index with
  | None => None
  | Some c =>
      Some (Hdr (h_cfg h) (min_value h) (max_value h) (normalizing_index_offset h)
              (i64 (total_count h + value))
              (<[Z.to_nat normalised_index := i64 (c + value)]> (counts h)))
  end.

Definition update_min_max (h : hdr_histogram) (value : Z) : hdr_histogram :=
  Hdr (h_cfg h)
    (if (value <? min_value h) && negb (value =? 0) then value else min_value h)
    (if value >? max_value h then value else max_value h)
    (normalizing_index_offset h) (total_count h) (counts h).

(** ** Slots *)

(** [base] to the power [exp]: the loop runs [exp] times. *)
Definition power (base exp : Z) : Z :=
  Nat.iter (Z.to_nat exp) (fun result => i64 (result * base)) 1.

(** [__builtin_clzll], undefined for zero, which the mask excludes. *)
Definition count_leading_zeros_64 (value : Z) : Z := 63 - Z.log2 (u64 value).

Definition get_bucket_index (h : hdr_histogram) (value : Z) : Z :=
  let pow2ceiling := 64 - count_leading_zeros_64 (Z.lor value (sub_bucket_mask (h_cfg h))) in
  i32 (pow2ceiling - unit_magnitude (h_cfg h) - (sub_bucket_half_count_magnitude (h_cfg h) + 1)).

Definition get_sub_bucket_index (value bucket_index unit_mag : Z) : Z :=
  i32 (Z.shiftr value (bucket_index + unit_mag)).

Definition counts_index (h : hdr_histogram) (bucket_index sub_bucket_index : Z) : Z :=
  let bucket_base_index :=
    i32 (Z.shiftl (bucket_index + 1) (sub_bucket_half_count_magnitude (h_cfg h))) in
  let offset_in_bucket := i32 (sub_bucket_index - sub_bucket_half_count (h_cfg h)) in
  i32 (bucket_base_index + offset_in_bucket).

Definition value_from_index (bucket_index sub_bucket_index unit_mag : Z) : Z :=
  i64 (Z.shiftl sub_bucket_index (bucket_index + unit_mag)).

Definition counts_index_for (h : hdr_histogram) (value : Z) : Z :=
  let bucket_index := get_bucket_index h value in
  let sub_bucket_index := get_sub_bucket_index value bucket_index (unit_magnitude (h_cfg h)) in
  counts_index h bucket_index sub_bucket_index.

Definition hdr_value_at_index (h : hdr_histogram) (index : Z) : Z :=
  let bucket_index := Z.shiftr index (sub_bucket_half_count_magnitude (h_cfg h)) - 1 in
  let half := sub_bucket_half_count (h_cfg h) in
  let sub_bucket_index := i32 (Z.land index (half - 1) + half) in
  if bucket_index <? 0
  then value_from_index 0 (i32 (sub_bucket_index - half)) (unit_magnitude (h_cfg h))
  else value_from_index bucket_index sub_bucket_index (unit_magnitude (h_cfg h)).

Definition hdr_size_of_equivalent_value_range (h : hdr_histogram) (value : Z) : Z :=
  let bucket_index := get_bucket_index h value in
  let sub_bucket_index := get_sub_bucket_index value bucket_index (unit_magnitude (h_cfg h)) in
  let adjusted_bucket :=
    if sub_bucket_index >=? sub_bucket_count (h_cfg h) then bucket_index + 1 else bucket_index in
  i64 (Z.shiftl 1 (unit_magnitude (h_cfg h) + adjusted_bucket)).

Definition lowest_equivalent_value (h : hdr_histogram) (value : Z) : Z :=
  let bucket_index := get_bucket_index h value in
  let sub_bucket_index := get_sub_bucket_index value bucket_index (unit_magnitude (h_cfg h)) in
  value_from_index bucket_index sub_bucket_index (unit_magnitude (h_cfg h)).

Definition hdr_next_non_equivalent_value (h : hdr_histogram) (value : Z) : Z :=
  i64 (lowest_equivalent_value h value + hdr_size_of_equivalent_value_range h value).

Definition highest_equivalent_value (h : hdr_histogram) (value : Z) : Z :=
  i64 (hdr_next_non_equivalent_value h value - 1).

Definition hdr_median_equivalent_value (h : hdr_histogram) (value : Z) : Z :=
  i64 (lowest_equivalent_value h value
       + Z.shiftr (hdr_size_of_equivalent_value_range h value) 1).

Definition non_zero_min (h : hdr_histogram) : Z :=
  if INT64_MAX =? min_value h then INT64_MAX else lowest_equivalent_value h (min_value h).

(** ** Layout *)

Fixpoint buckets_needed_loop (fuel : nat) (smallest_untrackable_value value buckets_needed : Z)
    : option Z :=
  match fuel with
  | O => None
  | S fuel =>
      if smallest_untrackable_value <=? value then
        if smallest_untrackable_value >? INT64_MAX / 2 then Some (buckets_needed + 1)
        else buckets_needed_loop fuel (i64 (Z.shiftl smallest_untrackable_value 1)) value
               (buckets_needed + 1)
      else Some buckets_needed
  end.

(** A positive value doubles at most 63 times. *)
Definition buckets_needed_to_cover_value (value sub_count unit_mag : Z) : option Z :=
  buckets_needed_loop 64 (i64 (Z.shiftl sub_count unit_mag)) value 1.

(** [ceil(log(v) / log(2))] for the five values [2 * 10^s], none of them a power of two. *)
Definition sub_bucket_magnitude (v : Z) : Z := Z.log2_up v.

Section layout.
Variable log2_trunc : Z -> Z.

Definition hdr_calculate_bucket_config (lowest highest figures : Z)
    : option (Z + hdr_histogram_bucket_config) :=
  if (lowest <? 1) || (figures <? 1) || (5 <? figures) || (i64 (lowest * 2) >? highest)
  then Some (inl EINVAL) else
  let largest_value_with_single_unit_resolution := i64 (2 * power 10 figures) in
  let sub_bucket_count_magnitude :=
    sub_bucket_magnitude largest_value_with_single_unit_resolution in
  let half_magnitude :=
    (if sub_bucket_count_magnitude >? 1 then sub_bucket_count_magnitude else 1) - 1 in
  let unit_mag := log2_trunc lowest in
  if INT32_MAX <? unit_mag then Some (inl EINVAL) else
  let sub_count := i32 (2 ^ (half_magnitude + 1)) in
  let half_count := Z.quot sub_count 2 in
  let mask := i64 (Z.shiftl (sub_count - 1) unit_mag) in
  if unit_mag + half_magnitude >? 61 then Some (inl EINVAL) else
  match buckets_needed_to_cover_value highest sub_count unit_mag with
  | None => None
  | Some n =>
      Some (inr (Cfg lowest highest unit_mag figures half_magnitude half_count mask sub_count n
                   (i32 ((n + 1) * Z.quot sub_count 2))))
  end.

Definition hdr_init_preallocated (cfg : hdr_histogram_bucket_config) (cs : list Z)
    : hdr_histogram :=
  Hdr cfg INT64_MAX 0 0 0 cs.

(** [mem] tells whether the allocations succeed. *)
Definition hdr_init (mem : bool) (lowest highest figures : Z) : option (Z + hdr_histogram) :=
  match hdr_calculate_bucket_config lowest highest figures with
  | None => None
  | Some (inl r) => Some (inl r)
  | Some (inr cfg) =>
      if mem then
        Some (inr (hdr_init_preallocated cfg (replicate (Z.to_nat (counts_len cfg)) 0)))
      else Some (inl ENOMEM)
  end.
End layout.

(** ** Recording *)

Definition hdr_record_values (h : hdr_histogram) (value count : Z) : option (bool * hdr_histogram) :=
  if value <? 0 then Some (false, h) else
  let index := counts_index_for h value in
  if (index <? 0) || (counts_len (h_cfg h) <=? index) then Some (false, h) else
  match counts_inc_normalised h index count with
  | None => None
  | Some h => Some (true, update_min_max h value)
  end.

(** ** Iterators *)

Inductive next_fp := all_values | recorded.

(** [None] is a field that is not initialised. *)
Record hdr_iter := Iter {
  it_counts_index : Z;
  it_total_count : Z;
  it_count : Z;
  it_cumulative_count : Z;
  it_value : Z;
  it_highest_equivalent_value : Z;
  it_lowest_equivalent_value : option Z;
  it_median_equivalent_value : option Z;
  it_value_iterated_from : Z;
  it_value_iterated_to : Z;
  it_count_added : option Z;
  it_next_fp : next_fp;
}.

Section iterators.
(** The histogram the iterator points to. *)
Variable h : hdr_histogram.

Definition has_buckets (it : hdr_iter) : bool := it_counts_index it <? counts_len (h_cfg h).

Definition has_next (it : hdr_iter) : bool := it_cumulative_count it <? it_total_count it.

Definition with_index (it : hdr_iter) (i : Z) : hdr_iter :=
  Iter i (it_total_count it) (it_count it) (it_cumulative_count it) (it_value it)
    (it_highest_equivalent_value it) (it_lowest_equivalent_value it)
    (it_median_equivalent_value it) (it_value_iterated_from it) (it_value_iterated_to it)
    (it_count_added it) (it_next_fp it).

Definition move_next (it : hdr_iter) : option (bool * hdr_iter) :=
  let it := with_index it (i32 (it_counts_index it + 1)) in
  if negb (has_buckets it) then Some (false, it) else
  match counts_get_normalised h (it_counts_index it) with
  | None => None
  | Some c =>
      let value := hdr_value_at_index h (it_counts_index it) in
      Some (true,
        Iter (it_counts_index it) (it_total_count it) c (i64 (it_cumulative_count it + c)) value
          (highest_equivalent_value h value) (Some (lowest_equivalent_value h value))
          (Some (hdr_median_equivalent_value h value)) (it_value_iterated_from it)
          (it_value_iterated_to it) (it_count_added it) (it_next_fp it))
  end.

(** The result of [move_next] is not used. *)
Definition basic_iter_next (it : hdr_iter) : option (bool * hdr_iter) :=
  if negb (has_next it) || (it_counts_index it >=? counts_len (h_cfg h))
  then Some (false, it)
  else match move_next it with
       | None => None
       | Some (_, it) => Some (true, it)
       end.

Definition update_iterated_values (it : hdr_iter) (new_value_iterated_to : Z) : hdr_iter :=
  Iter (it_counts_index it) (it_total_count it) (it_count it) (it_cumulative_count it)
    (it_value it) (it_highest_equivalent_value it) (it_lowest_equivalent_value it)
    (it_median_equivalent_value it) (it_value_iterated_to it) new_value_iterated_to
    (it_count_added it) (it_next_fp it).

Definition all_values_iter_next (it : hdr_iter) : option (bool * hdr_iter) :=
  match move_next it with
  | None => None
  | Some (result, it) =>
      Some (result, if result then update_iterated_values it (it_value it) else it)
  end.

Definition hdr_iter_init : hdr_iter :=
  Iter (-1) (total_count h) 0 0 0 0 None None 0 0 None all_values.

Definition hdr_iter_recorded_init : hdr_iter :=
  let it := hdr_iter_init in
  Iter (it_counts_index it) (it_total_count it) (it_count it) (it_cumulative_count it)
    (it_value it) (it_highest_equivalent_value it) (it_lowest_equivalent_value it)
    (it_median_equivalent_value it) (it_value_iterated_from it) (it_value_iterated_to it)
    (Some 0) recorded.

Definition count_added (it : hdr_iter) (n : Z) : hdr_iter :=
  Iter (it_counts_index it) (it_total_count it) (it_count it) (it_cumulative_count it)
    (it_value it) (it_highest_equivalent_value it) (it_lowest_equivalent_value it)
    (it_median_equivalent_value it) (it_value_iterated_from it) (it_value_iterated_to it)
    (Some n) (it_next_fp it).

Fixpoint recorded_loop (fuel : nat) (it : hdr_iter) : option (bool * hdr_iter) :=
  match fuel with
  | O => None
  | S fuel =>
      match basic_iter_next it with
      | None => None
      | Some (false, it) => Some (false, it)
      | Some (true, it) =>
          if negb (it_count it =? 0)
          then Some (true, count_added (update_iterated_values it (it_value it)) (it_count it))
          else recorded_loop fuel it
      end
  end.

(** Each step of a loop over the slots moves the index, from -1 at the least. *)
Definition iter_fuel : nat := S (S (length (counts h))).

Definition recorded_iter_next (it : hdr_iter) : option (bool * hdr_iter) :=
  recorded_loop iter_fuel it.

Definition hdr_iter_next (it : hdr_iter) : option (bool * hdr_iter) :=
  match it_next_fp it with
  | all_values => all_values_iter_next it
  | recorded => recorded_iter_next it
  end.
End iterators.

(** ** Merging and queries *)

Fixpoint add_loop (fuel : nat) (from h : hdr_histogram) (it : hdr_iter) (dropped : Z)
    : option (Z * hdr_histogram) :=
  match fuel with
  | O => None
  | S fuel =>
      match hdr_iter_next from it with
      | None => None
      | Some (false, _) => Some (dropped, h)
      | Some (true, it) =>
          match hdr_record_values h (it_value it) (it_count it) with
          | None => None
          | Some (ok, h) =>
              add_loop fuel from h it (if ok then dropped else i64 (dropped + it_count it))
          end
      end
  end.

Definition hdr_add (h from : hdr_histogram) : option (Z * hdr_histogram) :=
  add_loop (iter_fuel from) from h (hdr_iter_recorded_init from) 0.

Definition hdr_max (h : hdr_histogram) : Z :=
  if 0 =? max_value h then 0 else highest_equivalent_value h (max_value h).

Definition hdr_count_at_index (h : hdr_histogram) (index : Z) : option Z :=
  counts_get_normalised h index.

Definition hdr_min (h : hdr_histogram) : option Z :=
  match hdr_count_at_index h 0 with
  | None => None
  | Some c => Some (if 0 <? c then 0 else non_zero_min h)
  end.

Fixpoint percentile_loop (fuel : nat) (h : hdr_histogram) (it : hdr_iter)
    (total count_at_percentile : Z) : option Z :=
  match fuel with
  | O => None
  | S fuel =>
      match hdr_iter_next h it with
      | None => None
      | Some (false, _) => Some 0
      | Some (true, it) =>
          let total := i64 (total + it_count it) in
          if total >=? count_at_percentile then Some (highest_equivalent_value h (it_value it))
          else percentile_loop fuel h it total count_at_percentile
      end
  end.

(** [rank] is [(int64_t) (((requested_percentile / 100) * h->total_count) + 0.5)]. *)
Definition hdr_value_at_percentile (h : hdr_histogram) (rank : Z) : option Z :=
  let count_at_percentile := if rank >? 1 then rank else 1 in
  percentile_loop (iter_fuel h) h (hdr_iter_init h) 0 count_at_percentile.

(** The benchmark: a client records each latency for the statements of its batch, and the
    histograms of the clients are merged. *)
Fixpoint client_record (h : hdr_histogram) (latencies : list (Z * Z)) : option hdr_histogram :=
  match latencies with
  | [] => Some h
  | (diff, batch) :: latencies =>
      match hdr_record_values h diff batch with
      | None => None
      | Some (_, h) => client_record h latencies
      end
  end.

Fixpoint merge_clients (h : hdr_histogram) (tasks : list hdr_histogram) : option hdr_histogram :=
  match tasks with
  | [] => Some h
  | t :: tasks =>
      match hdr_add h t with
      | None => None
      | Some (_, h) => merge_clients h tasks
      end
  end.

(** ** Layouts that are accepted *)

Lemma i32_small z : - 2 ^ 31 <= z < 2 ^ 31 -> i32 z = z.
Proof. intros. unfold i32. rewrite Z.mod_small; lia. Qed.

Lemma i64_small z : - 2 ^ 63 <= z < 2 ^ 63 -> i64 z = z.
Proof. intros. unfold i64. rewrite Z.mod_small; lia. Qed.

Lemma i64_pred z : - 2 ^ 63 <= z < 2 ^ 63 -> i64 (i64 (z + 1) - 1) = z.
Proof.
  intros Hz. destruct (decide (z = 2 ^ 63 - 1)) as [-> | Hne]; [reflexivity |].
  rewrite (i64_small (z + 1)), i64_small; lia.
Qed.

(** What the layout promises: with [m] the magnitude of half a bucket and [u] the unit, the
    [bucket_count] buckets cover the highest value and half a bucket has enough slots for the
    requested number of figures. *)
Record layout_ok (c : hdr_histogram_bucket_config) : Prop := {
  lo_m : 0 <= sub_bucket_half_count_magnitude c <= 17;
  lo_u : 0 <= unit_magnitude c /\ unit_magnitude c + sub_bucket_half_count_magnitude c <= 61;
  lo_half : sub_bucket_half_count c = 2 ^ sub_bucket_half_count_magnitude c;
  lo_sub : sub_bucket_count c = 2 ^ (sub_bucket_half_count_magnitude c + 1);
  lo_mask : sub_bucket_mask c
    = Z.shiftl (2 ^ (sub_bucket_half_count_magnitude c + 1) - 1) (unit_magnitude c);
  lo_buckets : 1 <= bucket_count c <= 65;
  lo_len : counts_len c = (bucket_count c + 1) * 2 ^ sub_bucket_half_count_magnitude c;
  lo_highest : highest_trackable_value c < 2 ^ 63;
  lo_cover : highest_trackable_value c
    < 2 ^ (sub_bucket_half_count_magnitude c + unit_magnitude c + bucket_count c);
  lo_figures : 10 ^ significant_figures c <= 2 ^ sub_bucket_half_count_magnitude c;
}.

(** The loop ends: the smallest value that is not covered is [2^k] and doubles until it passes
    [value] or would overflow. *)
Lemma buckets_needed_loop_spec fuel k value n :
  0 <= k <= 62 -> value < 2 ^ 63 -> 63 - k < Z.of_nat fuel ->
  exists n', buckets_needed_loop fuel (2 ^ k) value n = Some n' /\
    n <= n' <= n + 63 - k /\ value < 2 ^ (k + (n' - n)).
Proof.
  revert k n. induction fuel as [| fuel IH]; intros k n Hk Hv Hf; [lia |]. cbn [buckets_needed_loop].
  destruct (Z.leb_spec (2 ^ k) value) as [Hle | Hgt].
  2: { exists n. replace (k + (n - n)) with k by lia. split; [done | lia]. }
  assert (INT64_MAX / 2 = 2 ^ 62 - 1) as -> by reflexivity.
  destruct (decide (k = 62)) as [-> | Hne].
  { exists (n + 1). rewrite (if_true (2 ^ 62 >? 2 ^ 62 - 1)) by reflexivity.
    replace (62 + (n + 1 - n)) with 63 by lia. split; [done | lia]. }
  pose proof (Z.pow_le_mono_r 2 k 61 ltac:(lia) ltac:(lia)).
  rewrite if_false by (rewrite Z.gtb_ltb; apply Z.ltb_ge; lia).
  rewrite Z.shiftl_mul_pow2, Z.pow_1_r, Z.mul_comm, <- Z.pow_succ_r by lia.
  pose proof (Z.pow_le_mono_r 2 (Z.succ k) 62 ltac:(lia) ltac:(lia)).
  pose proof (Z.pow_nonneg 2 (Z.succ k) ltac:(lia)).
  rewrite i64_small by lia.
  destruct (IH (Z.succ k) (n + 1)) as (n' & -> & Hn & Hc); [lia.. |].
  exists n'. split; [done |]. split; [lia |]. eapply Z.lt_le_trans; [exact Hc |].
  apply Z.pow_le_mono_r; lia.
Qed.

(** The magnitude of half a bucket for each number of figures. *)
Lemma figures_magnitude f :
  1 <= f <= 5 ->
  let m := sub_bucket_magnitude (i64 (2 * power 10 f)) in
  m > 1 /\ 0 <= m - 1 <= 17 /\ 10 ^ f <= 2 ^ (m - 1).
Proof.
  intros Hf. assert (f = 1 \/ f = 2 \/ f = 3 \/ f = 4 \/ f = 5) as Hc by lia.
  destruct Hc as [-> | [-> | [-> | [-> | ->]]]]; vm_compute; repeat split; discriminate.
Qed.

Lemma config_ok log2_trunc lowest highest figures r :
  (1 <= lowest -> 0 <= log2_trunc lowest) -> highest < 2 ^ 63 ->
  hdr_calculate_bucket_config log2_trunc lowest highest figures = r ->
  r = Some (inl EINVAL) /\
    ~ (1 <= lowest /\ 2 * lowest <= highest /\ 1 <= figures <= 5 /\ log2_trunc lowest <= 44) \/
  exists c, r = Some (inr c) /\ layout_ok c /\ highest_trackable_value c = highest /\
    significant_figures c = figures /\ unit_magnitude c = log2_trunc lowest.
Proof.
  intros Hlog Hhi <-. unfold hdr_calculate_bucket_config.
  destruct (_ || _) eqn:Hguard.
  { left. split; [done |]. intros (? & ? & ? & ?). rewrite i64_small in Hguard by lia.
    rewrite !orb_true_iff in Hguard. destruct Hguard as [[[?|?]|?]|?]; zb; lia. }
  zb.
  destruct (figures_magnitude figures ltac:(lia)) as (Hm1 & Hm & Hfig).
  set (m1 := sub_bucket_magnitude _) in *. cbv zeta.
  rewrite (if_true (m1 >? 1)) by (rewrite Z.gtb_ltb; apply Z.ltb_lt; lia).
  set (m := m1 - 1) in *. specialize (Hlog ltac:(lia)). set (u := log2_trunc lowest) in *.
  destruct (_ <? u) eqn:Hi; [zb; unfold INT32_MAX in Hi; left; split; [done | lia] |].
  destruct (u + m >? 61) eqn:Hu; [zb; left; split; [done | lia] |]. zb.
  pose proof (Z.pow_le_mono_r 2 (m + 1) 18 ltac:(lia) ltac:(lia)).
  pose proof (Z.pow_pos_nonneg 2 m ltac:(lia) ltac:(lia)).
  assert (Hs : 2 ^ (m + 1) = 2 ^ m * 2) by (rewrite Z.pow_add_r; lia).
  rewrite (i32_small (2 ^ (m + 1))) by lia.
  replace (Z.quot (2 ^ (m + 1)) 2) with (2 ^ m) by (rewrite Hs; symmetry; apply Z.quot_mul; lia).
  unfold buckets_needed_to_cover_value.
  rewrite (Z.shiftl_mul_pow2 (2 ^ (m + 1)) u), <- Z.pow_add_r by lia.
  pose proof (Z.pow_le_mono_r 2 (m + 1 + u) 62 ltac:(lia) ltac:(lia)).
  pose proof (Z.pow_pos_nonneg 2 u ltac:(lia) ltac:(lia)).
  rewrite (i64_small (2 ^ (m + 1 + u))) by (pose proof (Z.pow_nonneg 2 (m + 1 + u)); lia).
  destruct (buckets_needed_loop_spec 64 (m + 1 + u) highest 1) as (n & -> & Hn & Hc); [lia.. |].
  right. eexists. split; [done |]. split; [| done].
  assert (0 <= (n + 1) * 2 ^ m <= 65 * 2 ^ 17) by
    (pose proof (Z.pow_le_mono_r 2 m 17 ltac:(lia) ltac:(lia)); nia).
  assert (0 <= (2 ^ (m + 1) - 1) * 2 ^ u < 2 ^ 62) by
    (rewrite (Z.pow_add_r 2 (m + 1) u) in * by lia; nia).
  constructor; cbn [sub_bucket_half_count_magnitude unit_magnitude sub_bucket_half_count
    sub_bucket_count sub_bucket_mask bucket_count counts_len highest_trackable_value
    significant_figures]; try done; try lia.
  - rewrite Z.shiftl_mul_pow2 by lia. apply i64_small. lia.
  - apply i32_small. lia.
  - eapply Z.lt_le_trans; [exact Hc |]. apply Z.pow_le_mono_r; lia.
Qed.

(** ** The slot of a value *)

(** The bucket is given by the highest bit, the slot in it by the bits behind. *)
Definition bucket_of (c : hdr_histogram_bucket_config) (v : Z) : Z :=
  Z.max 0 (Z.log2 v - (sub_bucket_half_count_magnitude c + unit_magnitude c)).

Definition width_of (c : hdr_histogram_bucket_config) (v : Z) : Z :=
  2 ^ (bucket_of c v + unit_magnitude c).

Definition sub_of (c : hdr_histogram_bucket_config) (v : Z) : Z := v / width_of c v.

Definition slot_of (c : hdr_histogram_bucket_config) (v : Z) : Z :=
  bucket_of c v * 2 ^ sub_bucket_half_count_magnitude c + sub_of c v.

Section slots.
Context (h : hdr_histogram) (Hlay : layout_ok (h_cfg h)).
Abbreviation m := (sub_bucket_half_count_magnitude (h_cfg h)).
Abbreviation u := (unit_magnitude (h_cfg h)).
Abbreviation highest := (highest_trackable_value (h_cfg h)).
Abbreviation bucket := (bucket_of (h_cfg h)).
Abbreviation width := (width_of (h_cfg h)).
Abbreviation sub := (sub_of (h_cfg h)).
Abbreviation slot := (slot_of (h_cfg h)).

#[local] Lemma m_range : 0 <= m <= 17.
Proof. apply (lo_m _ Hlay). Qed.

#[local] Lemma u_range : 0 <= u /\ u + m <= 61.
Proof. apply (lo_u _ Hlay). Qed.

#[local] Lemma half_pos : 1 <= 2 ^ m <= 2 ^ 17.
Proof.
  pose proof m_range. split; [| apply Z.pow_le_mono_r; lia].
  pose proof (Z.pow_pos_nonneg 2 m ltac:(lia) ltac:(lia)). lia.
Qed.

Lemma width_pos v : 0 < width v.
Proof. pose proof u_range. unfold width_of, bucket_of. apply Z.pow_pos_nonneg; lia. Qed.

Lemma bucket_range v : 0 <= v < 2 ^ 63 -> 0 <= bucket v /\ bucket v + u + m <= 62.
Proof.
  intros Hv. pose proof u_range. pose proof m_range. unfold bucket_of. split; [lia |].
  destruct (decide (v = 0)) as [-> | Hn]; [cbn [Z.log2]; lia |].
  pose proof (Z.log2_lt_pow2 v 63 ltac:(lia)). lia.
Qed.

(** A value is below the end of its bucket, and, but for the first one, in its upper half. *)
Lemma sub_range v :
  0 <= v -> 0 <= sub v < 2 * 2 ^ m /\ (0 < bucket v -> 2 ^ m <= sub v).
Proof.
  intros Hv. pose proof u_range. pose proof m_range. pose proof (width_pos v) as Hw.
  assert (Hp : 2 ^ m * width v = 2 ^ (m + (bucket v + u))) by
    (unfold width_of, bucket_of; rewrite <- Z.pow_add_r; [done | lia..]).
  split; [split |].
  - apply Z.div_pos; lia.
  - apply Z.div_lt_upper_bound; [done |].
    replace (width v * (2 * 2 ^ m)) with (2 * (2 ^ m * width v)) by lia.
    rewrite Hp, <- Z.pow_succ_r by (unfold bucket_of; lia).
    destruct (decide (v = 0)) as [-> | Hn]; [apply Z.pow_pos_nonneg; unfold bucket_of; lia |].
    apply Z.log2_lt_pow2; [lia |]. unfold bucket_of. lia.
  - intros Hb. apply Z.div_le_lower_bound; [done |]. rewrite Z.mul_comm, Hp.
    destruct (decide (v = 0)) as [-> | Hn]; [unfold bucket_of in Hb; cbn [Z.log2] in Hb; lia |].
    apply Z.log2_le_pow2; [lia |]. unfold bucket_of in *. lia.
Qed.

Lemma slot_value v : sub v * width v <= v < sub v * width v + width v.
Proof. pose proof (width_pos v). unfold sub_of. pose proof (Z.mul_div_le v (width v)).
  pose proof (Z.mul_succ_div_gt v (width v)). lia. Qed.

(** The code computes them. *)
Lemma get_bucket_index_eq v : 0 <= v < 2 ^ 63 -> get_bucket_index h v = bucket v.
Proof.
  intros Hv. pose proof u_range. pose proof m_range. pose proof (bucket_range v Hv).
  unfold get_bucket_index, count_leading_zeros_64. rewrite (lo_mask _ Hlay).
  set (k := Z.shiftl _ _).
  assert (Hk : k = (2 ^ (m + 1) - 1) * 2 ^ u) by (unfold k; rewrite Z.shiftl_mul_pow2; lia).
  assert (Hl : Z.log2 k = m + u).
  { pose proof half_pos. pose proof (Z.pow_pos_nonneg 2 u).
    apply Z.log2_unique; [lia |]. rewrite Hk. unfold Z.succ.
    rewrite !Z.pow_add_r, Z.pow_1_r by lia. nia. }
  assert (Hn : 0 <= k) by (rewrite Hk; pose proof half_pos; rewrite Z.pow_add_r, Z.pow_1_r by lia; nia).
  assert (Hlor : Z.log2 (Z.lor v k) = Z.max (Z.log2 v) (m + u)) by
    (rewrite Z.log2_lor, Hl; lia).
  assert (Hb : 0 <= Z.lor v k < 2 ^ 63).
  { split; [apply Z.lor_nonneg; lia |].
    destruct (decide (Z.lor v k = 0)) as [-> | Hne]; [lia |].
    assert (0 <= Z.lor v k) by (apply Z.lor_nonneg; lia).
    apply Z.log2_lt_pow2; [lia |]. rewrite Hlor. unfold bucket_of in *. lia. }
  rewrite u64_small by lia. rewrite Hlor, i32_small; unfold bucket_of in *; lia.
Qed.

Lemma get_sub_bucket_index_eq v :
  0 <= v < 2 ^ 63 -> get_sub_bucket_index v (bucket v) u = sub v.
Proof.
  intros Hv. pose proof (bucket_range v Hv). pose proof u_range. pose proof half_pos.
  pose proof (sub_range v ltac:(lia)) as [? _].
  unfold get_sub_bucket_index. rewrite Z.shiftr_div_pow2 by lia. apply i32_small.
  change (v / 2 ^ (bucket v + u)) with (sub v). lia.
Qed.

Lemma counts_index_for_eq v : 0 <= v < 2 ^ 63 -> counts_index_for h v = slot v.
Proof.
  intros Hv. unfold counts_index_for, counts_index.
  rewrite get_bucket_index_eq, get_sub_bucket_index_eq, (lo_half _ Hlay) by done.
  pose proof (bucket_range v Hv). pose proof u_range. pose proof m_range. pose proof half_pos.
  pose proof (sub_range v ltac:(lia)) as [? _].
  rewrite Z.shiftl_mul_pow2 by lia. unfold slot_of.
  rewrite (i32_small ((bucket v + 1) * 2 ^ m)), (i32_small (sub v - 2 ^ m)), i32_small; nia.
Qed.

Lemma lowest_equivalent_value_eq v :
  0 <= v < 2 ^ 63 -> lowest_equivalent_value h v = sub v * width v.
Proof.
  intros Hv. unfold lowest_equivalent_value, value_from_index.
  rewrite get_bucket_index_eq, get_sub_bucket_index_eq by done.
  pose proof (bucket_range v Hv). pose proof u_range. pose proof (slot_value v).
  pose proof (sub_range v ltac:(lia)) as [? _]. pose proof (width_pos v).
  rewrite Z.shiftl_mul_pow2 by lia. apply i64_small. fold (width v). nia.
Qed.

Lemma size_eq v : 0 <= v < 2 ^ 63 -> hdr_size_of_equivalent_value_range h v = width v.
Proof.
  intros Hv. unfold hdr_size_of_equivalent_value_range.
  rewrite get_bucket_index_eq, get_sub_bucket_index_eq, (lo_sub _ Hlay) by done.
  pose proof (bucket_range v Hv). pose proof u_range. pose proof m_range.
  pose proof (sub_range v ltac:(lia)) as [? _].
  assert (2 ^ (m + 1) = 2 * 2 ^ m) by (rewrite Z.pow_add_r; lia). zif.
  rewrite Z.shiftl_mul_pow2, Z.mul_1_l, (Z.add_comm u) by lia. apply i64_small.
  fold (width v). pose proof (width_pos v). unfold width_of in *.
  pose proof (Z.pow_le_mono_r 2 (bucket v + u) 62). lia.
Qed.

(** The last value of a slot fits 63 bits, though the first one behind it may not. *)
Lemma slot_end v : 0 <= v < 2 ^ 63 -> sub v * width v + width v <= 2 ^ 63.
Proof.
  intros Hv. pose proof (bucket_range v Hv). pose proof u_range. pose proof m_range.
  pose proof (sub_range v ltac:(lia)) as [? _].
  assert (Hp : 2 ^ 63 = width v * 2 ^ (63 - (bucket v + u))) by
    (unfold width_of; rewrite <- Z.pow_add_r by lia; f_equal; lia).
  pose proof (slot_value v). pose proof (width_pos v).
  assert (sub v < 2 ^ (63 - (bucket v + u))) by nia. nia.
Qed.

Lemma highest_equivalent_value_eq v :
  0 <= v < 2 ^ 63 -> highest_equivalent_value h v = sub v * width v + width v - 1.
Proof.
  intros Hv. unfold highest_equivalent_value, hdr_next_non_equivalent_value.
  rewrite lowest_equivalent_value_eq, size_eq by done.
  pose proof (slot_end v Hv). pose proof (slot_value v). pose proof (sub_range v ltac:(lia)) as [? _].
  pose proof (width_pos v).
  replace (sub v * width v + width v) with (sub v * width v + width v - 1 + 1) at 1 by lia.
  apply i64_pred. nia.
Qed.

(** ** Slots are ordered like values *)

Lemma bucket_mono v w : v <= w -> bucket v <= bucket w.
Proof. intros H. pose proof (Z.log2_le_mono v w H). unfold bucket_of. lia. Qed.

Lemma slot_mono v w : 0 <= v <= w -> slot v <= slot w.
Proof.
  intros Hv. pose proof (bucket_mono v w ltac:(lia)). pose proof half_pos.
  pose proof (sub_range v ltac:(lia)) as [? _]. pose proof (sub_range w ltac:(lia)) as [? Hup].
  unfold slot_of. destruct (decide (bucket v = bucket w)) as [He | Hne].
  - assert (sub v <= sub w) by (unfold sub_of, width_of; rewrite He; apply Z.div_le_mono;
      [pose proof (width_pos w); unfold width_of in *; lia | lia]). rewrite He. lia.
  - specialize (Hup ltac:(unfold bucket_of in *; lia)). nia.
Qed.

(** Values of one slot have the same bucket and the same bits. *)
Lemma slot_inj v w :
  0 <= v -> 0 <= w -> slot v = slot w -> sub v = sub w /\ width v = width w.
Proof.
  assert (Hb : forall v w, 0 <= v -> 0 <= w -> slot v = slot w -> bucket v <= bucket w).
  { clear v w. intros v w Hv Hw He. pose proof half_pos.
    pose proof (sub_range v Hv) as [? Hupv]. pose proof (sub_range w Hw) as [? _].
    unfold slot_of in He. destruct (decide (bucket v <= bucket w)) as [| Hgt]; [done |].
    specialize (Hupv ltac:(unfold bucket_of in *; lia)).
    assert (0 <= bucket w) by (unfold bucket_of; lia). nia. }
  intros Hv Hw He. pose proof (Hb v w Hv Hw He). pose proof (Hb w v Hw Hv (eq_sym He)).
  assert (Heq : bucket v = bucket w) by lia. unfold width_of. rewrite Heq. split; [| done].
  unfold slot_of in He. rewrite Heq in He. lia.
Qed.

Lemma slot_range v :
  0 <= v <= highest -> 0 <= slot v < counts_len (h_cfg h).
Proof.
  intros Hv. pose proof u_range. pose proof m_range. pose proof half_pos.
  pose proof (sub_range v ltac:(lia)) as [? _]. pose proof (lo_buckets _ Hlay).
  rewrite (lo_len _ Hlay). unfold slot_of.
  assert (bucket v <= bucket_count (h_cfg h) - 1).
  { unfold bucket_of. destruct (decide (v = 0)) as [-> | Hn]; [cbn [Z.log2]; lia |].
    pose proof (proj1 (Z.log2_lt_pow2 v (m + u + bucket_count (h_cfg h)) ltac:(lia))
      ltac:(pose proof (lo_cover _ Hlay); lia)). lia. }
  assert (0 <= bucket v) by (unfold bucket_of; lia). nia.
Qed.

Lemma counts_len_range : 0 < counts_len (h_cfg h) <= 66 * 2 ^ 17.
Proof.
  pose proof (lo_buckets _ Hlay). pose proof half_pos. rewrite (lo_len _ Hlay). nia.
Qed.

(** The value of a slot is the lowest one that is counted there. *)
Lemma hdr_value_at_index_eq v :
  0 <= v < 2 ^ 63 -> hdr_value_at_index h (slot v) = sub v * width v.
Proof.
  intros Hv. pose proof (bucket_range v Hv). pose proof u_range. pose proof m_range.
  pose proof half_pos. pose proof (sub_range v ltac:(lia)) as [Hs Hup].
  pose proof (slot_value v). pose proof (width_pos v).
  unfold hdr_value_at_index, value_from_index. rewrite (lo_half _ Hlay).
  rewrite Z.shiftr_div_pow2 by lia.
  replace (2 ^ m - 1) with (Z.ones m) by (rewrite Z.ones_equiv; lia).
  rewrite Z.land_ones by lia.
  destruct (decide (sub v < 2 ^ m)) as [Hlow | Hhigh].
  - assert (bucket v = 0) as Hb by (destruct (decide (bucket v = 0)); [done | lia]).
    assert (Hsl : slot v = sub v) by (unfold slot_of; rewrite Hb; lia).
    rewrite Hsl, Z.div_small, Z.mod_small by lia. zif.
    rewrite (i32_small (sub v + 2 ^ m)), Z.add_simpl_r, i32_small by lia.
    rewrite Z.shiftl_mul_pow2, <- Hb by lia. apply i64_small. fold (width v). nia.
  - assert (Hsl : slot v = (sub v - 2 ^ m) + (bucket v + 1) * 2 ^ m) by (unfold slot_of; lia).
    rewrite Hsl, Z.div_add, Z.mod_add, Z.div_small, Z.mod_small by lia. zif.
    rewrite Z.sub_add, i32_small, Z.add_0_l, Z.add_simpl_r, Z.shiftl_mul_pow2 by lia.
    apply i64_small. fold (width v). nia.
Qed.

(** The lowest value of a slot is in the slot. *)
Lemma slot_lowest v : 0 <= v < 2 ^ 63 -> slot (sub v * width v) = slot v.
Proof.
  intros Hv. pose proof u_range. pose proof m_range. pose proof (slot_value v).
  pose proof (width_pos v). pose proof (sub_range v ltac:(lia)) as [? Hup].
  assert (Hb : bucket (sub v * width v) = bucket v).
  { apply Z.le_antisymm; [apply bucket_mono; lia |].
    destruct (decide (bucket v = 0)) as [-> | Hb]; [unfold bucket_of; lia |].
    specialize (Hup ltac:(unfold bucket_of in *; lia)). pose proof (bucket_range v Hv).
    assert (2 ^ (m + (bucket v + u)) <= sub v * width v) as Hp by
      (rewrite Z.pow_add_r by lia; fold (width v); nia).
    apply Z.log2_le_mono in Hp. rewrite Z.log2_pow2 in Hp by lia. unfold bucket_of at 2. lia. }
  assert (Hw : width (sub v * width v) = width v) by
    (change (2 ^ (bucket (sub v * width v) + u) = width v); by rewrite Hb).
  unfold slot_of at 1. rewrite Hb. unfold slot_of. f_equal. unfold sub_of at 1. rewrite Hw. apply Z.div_mul. lia.
Qed.

Lemma highest_equivalent_value_slot v w :
  0 <= v < 2 ^ 63 -> 0 <= w < 2 ^ 63 -> slot v = slot w ->
  highest_equivalent_value h v = highest_equivalent_value h w.
Proof.
  intros Hv Hw He. destruct (slot_inj v w ltac:(lia) ltac:(lia) He) as [Hs Hwd].
  by rewrite !highest_equivalent_value_eq, Hs, Hwd by done.
Qed.

Lemma lowest_equivalent_value_slot v w :
  0 <= v < 2 ^ 63 -> 0 <= w < 2 ^ 63 -> slot v = slot w ->
  lowest_equivalent_value h v = lowest_equivalent_value h w.
Proof.
  intros Hv Hw He. destruct (slot_inj v w ltac:(lia) ltac:(lia) He) as [Hs Hwd].
  by rewrite !lowest_equivalent_value_eq, Hs, Hwd by done.
Qed.
End slots.

(** ** Histograms *)

Definition sum (l : list Z) : Z := foldr Z.add 0 l.

Lemma sum_cons x l : sum (x :: l) = x + sum l.
Proof. done. Qed.

Lemma sum_app l k : sum (l ++ k) = sum l + sum k.
Proof. induction l as [| x l IH]; [done |]. cbn [app]. rewrite !sum_cons. lia. Qed.

Lemma sum_nonneg l : Forall (Z.le 0) l -> 0 <= sum l.
Proof. induction 1; rewrite ?sum_cons; [done | lia]. Qed.

Lemma sum_insert l i c d :
  l !! i = Some c -> sum (<[i := d]> l) = sum l - c + d.
Proof.
  intros Hi. rewrite insert_take_drop by (by eapply lookup_lt_Some).
  rewrite <- (take_drop_middle l i c Hi) at 3. rewrite !sum_app, !sum_cons. lia.
Qed.

Lemma sum_take_S l i c : l !! i = Some c -> sum (take (S i) l) = sum (take i l) + c.
Proof. intros Hi. rewrite (take_S_r _ _ _ Hi), sum_app, sum_cons. unfold sum. cbn. lia. Qed.

Lemma sum_take_le l i : Forall (Z.le 0) l -> sum (take i l) <= sum l.
Proof.
  intros Hl. rewrite <- (take_drop i l) at 2. rewrite sum_app.
  pose proof (sum_nonneg (drop i l) (Forall_drop _ _ _ Hl)). lia.
Qed.

(** When the slots up to [i] hold everything, the others are empty. *)
Lemma sum_take_all l i k c :
  Forall (Z.le 0) l -> sum l <= sum (take i l) -> (i <= k)%nat -> l !! k = Some c -> c = 0.
Proof.
  intros Hl Hs Hk Hc. rewrite <- (take_drop i l) in Hs at 1. rewrite sum_app in Hs.
  assert (Hd : drop i l !! (k - i)%nat = Some c) by (rewrite lookup_drop; rewrite <- Hc; f_equal; lia).
  rewrite <- (take_drop_middle _ _ _ Hd), sum_app, sum_cons in Hs.
  assert (HF : Forall (Z.le 0) (drop i l)) by (by apply Forall_drop).
  pose proof (sum_nonneg _ (Forall_take _ (k - i) _ HF)).
  pose proof (sum_nonneg _ (Forall_drop _ (S (k - i)) _ HF)).
  pose proof (proj1 (Forall_lookup _ _) Hl k c Hc). cbv beta in *. lia.
Qed.

Definition trackable (c : hdr_histogram_bucket_config) (v : Z) : Prop :=
  0 <= v < 2 ^ 63 /\ slot_of c v < counts_len c.

(** A counter in use, by the slot of the value. *)
Definition used (h : hdr_histogram) (i : Z) : Prop :=
  exists c, counts h !! Z.to_nat i = Some c /\ 0 < c.

(** The counters have the length of the layout, are not negative and add up to the total; a
    counter is only used for values that have its slot, and the slots of the maximum and of the
    smallest value that is not zero are the last and the first used one. *)
Record hist_ok (h : hdr_histogram) : Prop := {
  ok_layout : layout_ok (h_cfg h);
  ok_offset : normalizing_index_offset h = 0;
  ok_len : zlen (counts h) = counts_len (h_cfg h);
  ok_counts : Forall (Z.le 0) (counts h);
  ok_total : total_count h = sum (counts h);
  ok_bound : sum (counts h) < 2 ^ 63;
  ok_used : forall i, 0 <= i -> used h i ->
    exists v, trackable (h_cfg h) v /\ slot_of (h_cfg h) v = i;
  ok_max_in : max_value h = 0 \/
    trackable (h_cfg h) (max_value h) /\ used h (slot_of (h_cfg h) (max_value h));
  ok_max : forall i, 0 <= i -> used h i -> i <= slot_of (h_cfg h) (max_value h);
  ok_min_in : min_value h = INT64_MAX \/
    trackable (h_cfg h) (min_value h) /\ used h (slot_of (h_cfg h) (min_value h));
  ok_min : forall i, 0 < i -> used h i ->
    min_value h <> INT64_MAX -> slot_of (h_cfg h) (min_value h) <= i;
  ok_min_set : forall i, 0 < i < slot_of (h_cfg h) INT64_MAX -> used h i -> min_value h <> INT64_MAX;
}.

Lemma init_ok c n :
  layout_ok c -> n = Z.to_nat (counts_len c) ->
  hist_ok (hdr_init_preallocated c (replicate n 0)).
Proof.
  intros Hc ->. pose proof (counts_len_range (Hdr c 0 0 0 0 []) Hc) as Hr. cbn [h_cfg] in Hr.
  assert (Hz : forall k, sum (replicate k 0) = 0) by (induction k; [done |]; cbn; unfold sum in *; lia).
  assert (Hu : forall i, ~ used (hdr_init_preallocated c (replicate (Z.to_nat (counts_len c)) 0)) i).
  { intros i (x & Hx & Hp). apply lookup_replicate in Hx as [-> _]. lia. }
  constructor; cbn [h_cfg normalizing_index_offset total_count counts max_value min_value
    hdr_init_preallocated]; try done; try (by left); try (intros i ? []%Hu).
  - unfold zlen. rewrite length_replicate. lia.
  - by apply Forall_replicate.
  - by rewrite Hz.
Qed.

Lemma slot_nonneg h v : layout_ok (h_cfg h) -> 0 <= v -> 0 <= slot_of (h_cfg h) v.
Proof.
  intros Hl Hv. pose proof (sub_range h Hl v Hv) as [? _]. unfold slot_of, bucket_of.
  pose proof (Z.pow_nonneg 2 (sub_bucket_half_count_magnitude (h_cfg h))). nia.
Qed.

Lemma slot_zero h : layout_ok (h_cfg h) -> slot_of (h_cfg h) 0 = 0.
Proof.
  intros Hl. pose proof (lo_m _ Hl). pose proof (lo_u _ Hl).
  unfold slot_of, sub_of, bucket_of. cbn [Z.log2]. rewrite Zdiv_0_l. lia.
Qed.

(** The counter of a value, in range. *)
Lemma lookup_slot h v :
  hist_ok h -> trackable (h_cfg h) v ->
  exists c, counts h !! Z.to_nat (slot_of (h_cfg h) v) = Some c /\ 0 <= c <= total_count h.
Proof.
  intros Hh [Hv Hs]. pose proof (ok_len _ Hh) as Hl. unfold zlen in Hl.
  pose proof (slot_nonneg h v (ok_layout _ Hh) ltac:(lia)).
  destruct (lookup_lt_is_Some_2 (counts h) (Z.to_nat (slot_of (h_cfg h) v))) as [c Hc]; [lia |].
  exists c. split; [done |]. split; [by apply (proj1 (Forall_lookup _ _) (ok_counts _ Hh) _ _ Hc) |].
  rewrite (ok_total _ Hh). pose proof (sum_take_S _ _ _ Hc) as HS.
  pose proof (sum_take_le (counts h) (S (Z.to_nat (slot_of (h_cfg h) v))) (ok_counts _ Hh)).
  pose proof (sum_nonneg _ (Forall_take _ (Z.to_nat (slot_of (h_cfg h) v)) _ (ok_counts _ Hh))). lia.
Qed.

(** [count] times the value [v] is recorded. *)
Definition bumped (h : hdr_histogram) (v count : Z) (h' : hdr_histogram) : Prop :=
  h_cfg h' = h_cfg h /\ total_count h' = total_count h + count /\
  normalizing_index_offset h' = normalizing_index_offset h /\
  (exists c, counts h !! Z.to_nat (slot_of (h_cfg h) v) = Some c /\
     counts h' = <[Z.to_nat (slot_of (h_cfg h) v) := c + count]> (counts h)) /\
  min_value h' = (if (v <? min_value h) && negb (v =? 0) then v else min_value h) /\
  max_value h' = (if v >? max_value h then v else max_value h).

Lemma record_runs h v count :
  hist_ok h -> trackable (h_cfg h) v -> 0 < count -> total_count h + count < 2 ^ 63 ->
  exists h', hdr_record_values h v count = Some (true, h') /\ bumped h v count h'.
Proof.
  intros Hh Hv Hc Ht. destruct (lookup_slot h v Hh Hv) as (c & Hl & Hr).
  destruct Hv as [Hv Hs]. pose proof (slot_nonneg h v (ok_layout _ Hh) ltac:(lia)).
  pose proof (sum_nonneg _ (ok_counts _ Hh)). rewrite <- (ok_total _ Hh) in *.
  unfold hdr_record_values. rewrite counts_index_for_eq by (done || apply (ok_layout _ Hh)). zif.
  unfold counts_inc_normalised, normalize_index, counts_get_direct.
  rewrite (if_true (normalizing_index_offset h =? 0)) by (apply Z.eqb_eq, (ok_offset _ Hh)). zif.
  rewrite Hl, !i64_small by lia. eexists. split; [done |].
  repeat split; try done. exists c. done.
Qed.

(** A slot is used after recording when it was before or is the slot of the value. *)
Lemma bumped_used h v count h' i :
  hist_ok h -> 0 <= v -> 0 <= i -> 0 < count -> bumped h v count h' ->
  used h' i <-> used h i \/ i = slot_of (h_cfg h) v.
Proof.
  intros Hh Hv Hi Hc (_ & _ & _ & (c & Hl & Hcs) & _).
  pose proof (slot_nonneg h v (ok_layout _ Hh) Hv).
  pose proof (proj1 (Forall_lookup _ _) (ok_counts _ Hh) _ _ Hl) as Hp. cbv beta in Hp.
  unfold used. rewrite Hcs. destruct (decide (i = slot_of (h_cfg h) v)) as [-> | Hne].
  - split; [by right |]. intros _. exists (c + count). split; [| lia].
    apply list_lookup_insert_eq. by eapply lookup_lt_Some.
  - rewrite list_lookup_insert_ne by lia. split; [by left |]. by intros [? | ?].
Qed.

Section bump.
Context (h h' : hdr_histogram) (v count : Z).
Context (Hh : hist_ok h) (Hv : trackable (h_cfg h) v) (Hc : 0 < count)
  (Hb : total_count h + count < 2 ^ 63) (Hbump : bumped h v count h').
Abbreviation slot := (slot_of (h_cfg h)).

Lemma bumped_max :
  (max_value h' = 0 \/ trackable (h_cfg h) (max_value h') /\ used h' (slot (max_value h'))) /\
  forall i, 0 <= i -> used h' i -> i <= slot (max_value h').
Proof.
  pose proof Hbump as (_ & _ & _ & _ & _ & Hmax). pose proof (proj1 Hv) as Hv0.
  pose proof (ok_layout _ Hh) as Hlay. pose proof (slot_nonneg h v Hlay ltac:(lia)) as Hs0.
  pose proof (fun i Hi => bumped_used h v count h' i Hh ltac:(lia) Hi Hc Hbump) as Hu.
  assert (0 <= max_value h) by (destruct (ok_max_in _ Hh) as [-> | [[? _] _]]; lia).
  split.
  - right. rewrite Hmax. destruct (v >? max_value h) eqn:Hgt.
    { split; [done |]. apply Hu; [done | by right]. }
    destruct (ok_max_in _ Hh) as [Hz | [Ht Hin]].
    + zb. assert (Hv' : v = 0) by lia. rewrite Hz, <- Hv'. split; [done |]. apply Hu; [done | by right].
    + split; [done |]. apply Hu; [by apply slot_nonneg | by left].
  - intros i Hi Hin. assert (slot v <= slot (max_value h') /\
      slot (max_value h) <= slot (max_value h')) as [H1 H2].
    { split; apply slot_mono; try done; rewrite Hmax; destruct (v >? max_value h) eqn:?; zb; lia. }
    apply Hu in Hin as [Hin | ->]; [| done | done]. pose proof (ok_max _ Hh i Hi Hin). lia.
Qed.

Lemma bumped_min_in :
  min_value h' = INT64_MAX \/ trackable (h_cfg h) (min_value h') /\ used h' (slot (min_value h')).
Proof.
  pose proof Hbump as (_ & _ & _ & _ & Hmin & _). pose proof (proj1 Hv) as Hv0.
  pose proof (ok_layout _ Hh) as Hlay. pose proof (slot_nonneg h v Hlay ltac:(lia)) as Hs0.
  pose proof (fun i Hi => bumped_used h v count h' i Hh ltac:(lia) Hi Hc Hbump) as Hu.
  rewrite Hmin. destruct (_ && _); [right; split; [done | apply Hu; [done | by right]] |].
  destruct (ok_min_in _ Hh) as [| [Ht Hin]]; [by left |].
  right. split; [done |]. apply Hu; [| by left]. apply slot_nonneg; [done | apply Ht].
Qed.

Lemma bumped_min i :
  0 < i -> used h' i -> min_value h' <> INT64_MAX -> slot (min_value h') <= i.
Proof.
  pose proof Hbump as (_ & _ & _ & _ & Hmin & _). pose proof (proj1 Hv) as Hv0.
  pose proof (ok_layout _ Hh) as Hlay. pose proof (slot_nonneg h v Hlay ltac:(lia)) as Hs0.
  pose proof (fun i Hi => bumped_used h v count h' i Hh ltac:(lia) Hi Hc Hbump) as Hu.
  intros Hi Hin Hne. rewrite Hmin in *. pose proof (ok_min _ Hh) as Hm.
  destruct (_ && _) eqn:Hlt.
  - apply andb_true_iff in Hlt as [Hlt Hnz]. zb.
    apply Hu in Hin as [Hin | ->]; [| done | lia].
    destruct (decide (min_value h = INT64_MAX)) as [He | Hn].
    + destruct (Z.lt_ge_cases i (slot INT64_MAX));
        [by destruct (ok_min_set _ Hh i ltac:(lia) Hin) |].
      pose proof (slot_mono h Hlay v INT64_MAX ltac:(unfold INT64_MAX in *; lia)). lia.
    + pose proof (Hm i Hi Hin Hn). pose proof (slot_mono h Hlay v (min_value h) ltac:(lia)). lia.
  - apply Hu in Hin as [Hin | ->]; [by apply Hm | | lia].
    rewrite andb_false_iff in Hlt. destruct Hlt as [Hlt | Hz]; zb.
    + apply slot_mono; [done |]. destruct (ok_min_in _ Hh) as [| [[? _] _]]; lia.
    + rewrite Hz, slot_zero in Hi by done. lia.
Qed.

Lemma bumped_min_set i :
  0 < i < slot INT64_MAX -> used h' i -> min_value h' <> INT64_MAX.
Proof.
  pose proof Hbump as (_ & _ & _ & _ & Hmin & _). pose proof (proj1 Hv) as Hv0.
  pose proof (ok_layout _ Hh) as Hlay. intros Hi Hin. rewrite Hmin. destruct (_ && _) eqn:Hlt.
  - apply andb_true_iff in Hlt as [Hlt _]. zb.
    destruct (ok_min_in _ Hh) as [He | [[? _] _]]; unfold INT64_MAX in *; lia.
  - apply (bumped_used h v count h') in Hin as [Hin | Hiv]; try done; try lia;
      [by apply (ok_min_set _ Hh i) |].
    intros He. rewrite andb_false_iff in Hlt. destruct Hlt as [Hlt | Hz]; zb.
    + assert (v = INT64_MAX) as Hvm by (unfold INT64_MAX in *; lia). rewrite Hiv, Hvm in Hi. lia.
    + rewrite Hiv, Hz, slot_zero in Hi by done. lia.
Qed.

Lemma bumped_ok : hist_ok h'.
Proof.
  pose proof Hbump as (Hcfg & Htot & Hoff & (c & Hl & Hcs) & _).
  pose proof (ok_layout _ Hh) as Hlay. pose proof (proj1 Hv) as Hv0.
  pose proof (proj1 (Forall_lookup _ _) (ok_counts _ Hh) _ _ Hl) as Hp. cbv beta in Hp.
  assert (Hsum : sum (counts h') = total_count h + count) by
    (rewrite Hcs, (sum_insert _ _ _ _ Hl), (ok_total _ Hh); lia).
  constructor; rewrite ?Hcfg; try lia.
  - done.
  - rewrite Hoff. apply (ok_offset _ Hh).
  - rewrite Hcs. unfold zlen. rewrite length_insert. apply (ok_len _ Hh).
  - rewrite Hcs. apply Forall_insert; [apply (ok_counts _ Hh) | lia].
  - intros i Hi Hin. apply (bumped_used h v count h') in Hin as [? | ->]; try done; try lia;
      [by apply (ok_used _ Hh) | by exists v].
  - apply bumped_max.
  - apply bumped_max.
  - apply bumped_min_in.
  - apply bumped_min.
  - apply bumped_min_set.
Qed.
End bump.

(** ** Iteration *)

(** The iterator stands before slot [k] of a well-formed histogram and has counted the slots
    before it. *)
Definition stands_before (h : hdr_histogram) (k : nat) (it : hdr_iter) : Prop :=
  it_counts_index it = Z.of_nat k - 1 /\ it_total_count it = total_count h /\
  it_cumulative_count it = sum (take k (counts h)).

Lemma move_next_slot h k c it :
  hist_ok h -> stands_before h k it -> counts h !! k = Some c ->
  exists it', move_next h it = Some (true, it') /\ stands_before h (S k) it' /\
    it_count it' = c /\ it_value it' = hdr_value_at_index h (Z.of_nat k) /\
    it_next_fp it' = it_next_fp it.
Proof.
  intros Hh (Hi & Ht & Hcum) Hk. pose proof (lookup_lt_Some _ _ _ Hk) as Hlt.
  pose proof (ok_len _ Hh) as Hl. unfold zlen in Hl.
  pose proof (counts_len_range h (ok_layout _ Hh)) as Hr.
  unfold move_next, has_buckets. rewrite Hi, Z.sub_add. cbn [it_counts_index with_index].
  rewrite i32_small by lia.
  rewrite (proj2 (Z.ltb_lt _ _)) by lia. cbn [negb].
  unfold counts_get_normalised, normalize_index, counts_get_direct.
  rewrite (if_true (normalizing_index_offset h =? 0)) by (apply Z.eqb_eq, (ok_offset _ Hh)). zif.
  rewrite Nat2Z.id, Hk. eexists. split; [done |].
  unfold stands_before. cbn [it_counts_index it_total_count it_cumulative_count it_count it_value
    it_next_fp with_index]. rewrite Hcum, (sum_take_S _ _ _ Hk).
  pose proof (sum_take_S _ _ _ Hk). pose proof (sum_take_le (counts h) (S k) (ok_counts _ Hh)).
  pose proof (sum_nonneg _ (Forall_take _ k _ (ok_counts _ Hh))).
  pose proof (proj1 (Forall_lookup _ _) (ok_counts _ Hh) _ _ Hk) as Hp. cbv beta in Hp.
  pose proof (ok_bound _ Hh). rewrite i64_small by lia. repeat split; [lia | done].
Qed.

(** The loop behind [hdr_value_at_percentile] stops in the slot where the running total passes
    the rank. *)
Lemma percentile_loop_slot h k n rank c it fuel :
  hist_ok h -> stands_before h n it -> it_next_fp it = all_values -> (n <= k)%nat ->
  (k - n < fuel)%nat -> counts h !! k = Some c ->
  sum (take k (counts h)) < rank <= sum (take (S k) (counts h)) ->
  percentile_loop fuel h it (sum (take n (counts h))) rank
  = Some (highest_equivalent_value h (hdr_value_at_index h (Z.of_nat k))).
Proof.
  intros Hh. revert n it. induction fuel as [| fuel IH]; intros n it Hst Hfp Hn Hf Hk Hr; [lia |].
  pose proof (lookup_lt_Some _ _ _ Hk) as Hlt.
  destruct (lookup_lt_is_Some_2 (counts h) n) as [d Hd]; [lia |].
  destruct (move_next_slot h n d it Hh Hst Hd) as (it' & Hmv & Hst' & Hct & Hval & Hfp').
  cbn [percentile_loop]. unfold hdr_iter_next, all_values_iter_next. rewrite Hfp, Hmv.
  cbn [it_count it_value update_iterated_values]. rewrite Hct, <- (sum_take_S _ _ _ Hd).
  pose proof (sum_take_le (counts h) (S n) (ok_counts _ Hh)). pose proof (ok_bound _ Hh).
  pose proof (sum_nonneg _ (Forall_take _ (S n) _ (ok_counts _ Hh))).
  rewrite i64_small by lia. destruct (decide (n = k)) as [-> | Hne].
  - zif. by rewrite Hval.
  - assert (sum (take (S n) (counts h)) <= sum (take k (counts h))).
    { rewrite <- (take_drop (S n) (take k (counts h))), take_take, Nat.min_l, sum_app by lia.
      pose proof (sum_nonneg (drop (S n) (take k (counts h)))
        (Forall_drop _ _ _ (Forall_take _ _ _ (ok_counts _ Hh)))). lia. }
    zif. apply IH; try done; try lia. by rewrite <- Hfp.
Qed.

(** The next recorded slot: the first one with a count, or none. *)
Lemma recorded_loop_slot h n it fuel :
  hist_ok h -> stands_before h n it -> (n <= length (counts h))%nat ->
  (length (counts h) - n < fuel)%nat ->
  (exists it', recorded_loop h fuel it = Some (false, it') /\
     forall i d, (n <= i)%nat -> counts h !! i = Some d -> d = 0) \/
  (exists k c it', recorded_loop h fuel it = Some (true, it') /\ (n <= k)%nat /\
     counts h !! k = Some c /\ 0 < c /\
     (forall i d, (n <= i < k)%nat -> counts h !! i = Some d -> d = 0) /\
     stands_before h (S k) it' /\ it_count it' = c /\
     it_value it' = hdr_value_at_index h (Z.of_nat k) /\ it_next_fp it' = it_next_fp it).
Proof.
  intros Hh. revert n it. induction fuel as [| fuel IH]; intros n it Hst Hn Hf; [lia |].
  pose proof Hst as (Hi & Ht & Hcum). pose proof (ok_len _ Hh) as Hl. unfold zlen in Hl.
  cbn [recorded_loop]. unfold basic_iter_next, has_next. rewrite Hi, Ht, Hcum, (ok_total _ Hh).
  destruct (Z.ltb_spec (sum (take n (counts h))) (sum (counts h))) as [Hlt | Hge].
  2: { left. cbn [negb orb]. eexists. split; [done |]. intros i d Hni Hd.
       by eapply (sum_take_all (counts h) n); eauto; apply (ok_counts _ Hh). }
  assert (n < length (counts h))%nat as Hnl by
    (destruct (decide (n = length (counts h))) as [-> |]; [rewrite firstn_all in Hlt |]; lia).
  cbn [negb orb]. zif. destruct (lookup_lt_is_Some_2 _ _ Hnl) as [c Hc].
  destruct (move_next_slot h n c it Hh Hst Hc) as (it' & -> & Hst' & Hct & Hval & Hfp).
  pose proof (proj1 (Forall_lookup _ _) (ok_counts _ Hh) _ _ Hc) as Hp. cbv beta in Hp.
  rewrite Hct. destruct (Z.eqb_spec c 0) as [-> | Hne]; cbn [negb].
  - assert (Hz : forall i d, (n <= i < S n)%nat -> counts h !! i = Some d -> d = 0) by
      (intros i d Hr Hd; assert (i = n) as -> by lia; congruence).
    destruct (IH (S n) it' Hst') as [(it2 & -> & Hrest) | (k & c & it2 & -> & Hk & Hck & Hp2 & Hrest & Hx)];
      [lia | lia | left | right].
    + exists it2. split; [done |]. intros i d Hni. destruct (decide (i = n)) as [-> |]; [apply Hz | apply Hrest]; lia.
    + exists k, c, it2. rewrite <- Hfp. split_and!; try done; try lia; try apply Hx.
      intros i d Hni. destruct (decide (i = n)) as [-> |]; [apply Hz | apply Hrest]; lia.
  - right. exists n, c. eexists. split; [done |]. split_and!; try done; try lia.
Qed.

(** A used slot of one histogram can be recorded in another one of the same layout. *)
Lemma value_at_used h i :
  hist_ok h -> 0 <= i -> used h i ->
  trackable (h_cfg h) (hdr_value_at_index h i) /\ slot_of (h_cfg h) (hdr_value_at_index h i) = i.
Proof.
  intros Hh Hi Hu. destruct (ok_used _ Hh i Hi Hu) as (v & [Hv Hs] & <-).
  pose proof (ok_layout _ Hh) as Hlay. rewrite (hdr_value_at_index_eq h Hlay v Hv).
  assert (He : slot_of (h_cfg h) (sub_of (h_cfg h) v * width_of (h_cfg h) v) = slot_of (h_cfg h) v)
    by (by apply slot_lowest).
  split; [| done]. split; [| lia]. pose proof (slot_value h Hlay v).
  pose proof (width_pos h Hlay v). pose proof (sub_range h Hlay v ltac:(lia)) as [? _]. nia.
Qed.

(** The counters of [h'] are those of [h] and, from slot [n] on, those of [from]. *)
Definition gained (from h h' : hdr_histogram) (n : nat) : Prop :=
  forall i c d, counts h !! i = Some c -> counts from !! i = Some d ->
    counts h' !! i = Some (if (n <=? i)%nat then c + d else c).

Lemma bumped_lookup h v count h' i c :
  bumped h v count h' -> counts h !! i = Some c ->
  counts h' !! i = Some (if decide (i = Z.to_nat (slot_of (h_cfg h) v)) then c + count else c).
Proof.
  intros (_ & _ & _ & (c' & Hl & ->) & _) Hi. case_decide as Hd.
  - subst i. rewrite Hl in Hi. injection Hi as <-. apply list_lookup_insert_eq.
    by eapply lookup_lt_Some.
  - by rewrite list_lookup_insert_ne.
Qed.

Lemma add_loop_gains from h n it dropped fuel :
  hist_ok from -> hist_ok h -> h_cfg h = h_cfg from -> stands_before from n it ->
  it_next_fp it = recorded -> (n <= length (counts from))%nat ->
  (length (counts from) - n < fuel)%nat ->
  total_count h + (total_count from - sum (take n (counts from))) < 2 ^ 63 ->
  exists h', add_loop fuel from h it dropped = Some (dropped, h') /\ hist_ok h' /\
    h_cfg h' = h_cfg h /\ gained from h h' n.
Proof.
  intros Hf. revert n h it. induction fuel as [| fuel IH];
    intros n h it Hh Hcfg Hst Hfp Hn Hfu Ht; [lia |].
  cbn [add_loop]. unfold hdr_iter_next, recorded_iter_next. rewrite Hfp.
  destruct (recorded_loop_slot from n it (iter_fuel from) Hf Hst Hn) as
    [(it' & -> & Hz) | (k & c & it' & -> & Hk & Hc & Hp & Hz & Hst' & Hct & Hval & Hfp')];
    [unfold iter_fuel; lia | |].
  { exists h. split_and!; try done. intros i a d Ha Hd. destruct (Nat.leb_spec n i); [| done].
    rewrite (Hz i d ltac:(lia) Hd), Z.add_0_r. done. }
  assert (Hu : used from (Z.of_nat k)) by (exists c; by rewrite Nat2Z.id).
  destruct (value_at_used from (Z.of_nat k) Hf ltac:(lia) Hu) as [Htr Hsl].
  pose proof (sum_take_S _ _ _ Hc) as HS.
  pose proof (sum_take_le (counts from) (S k) (ok_counts _ Hf)) as Hle.
  assert (Hmid : sum (take k (counts from)) >= sum (take n (counts from))).
  { rewrite <- (take_drop n (take k (counts from))), take_take, Nat.min_l, sum_app by lia.
    pose proof (sum_nonneg _ (Forall_drop _ n _ (Forall_take _ k _ (ok_counts _ Hf)))). lia. }
  rewrite (ok_total _ Hf) in *. rewrite <- Hcfg in Htr, Hsl. rewrite Hval, Hct.
  destruct (record_runs h _ c Hh Htr Hp) as (h1 & -> & Hb); [lia |].
  pose proof (bumped_ok h h1 _ c Hh Htr Hp ltac:(lia) Hb) as Hh1.
  pose proof Hb as (Hcfg1 & Ht1 & _).
  pose proof (lookup_lt_Some _ _ _ Hc) as Hkl.
  destruct (IH (S k) h1 it') as (h' & -> & Hh' & Hcfg' & Hg); try done; try lia; [congruence.. |].
  exists h'. split_and!; try done; [congruence |]. intros i a d Ha Hd.
  pose proof (bumped_lookup _ _ _ _ i a Hb Ha) as Hb1. rewrite Hsl, Nat2Z.id in Hb1.
  rewrite (Hg i _ d Hb1 Hd). f_equal.
  destruct (Nat.leb_spec (S k) i), (Nat.leb_spec n i); case_decide; try lia.
  - subst i. rewrite Hc in Hd. congruence.
  - rewrite (Hz i d ltac:(lia) Hd). lia.
Qed.

Lemma hdr_add_gains h from :
  hist_ok from -> hist_ok h -> h_cfg h = h_cfg from ->
  total_count h + total_count from < 2 ^ 63 ->
  exists h', hdr_add h from = Some (0, h') /\ hist_ok h' /\ h_cfg h' = h_cfg h /\
    gained from h h' 0.
Proof.
  intros Hf Hh Hcfg Ht. apply add_loop_gains; try done; try lia.
  - unfold iter_fuel. lia.
  - change (sum (take 0 (counts from))) with 0. lia.
Qed.

(** ** The values behind the counters *)

(** How many of the values satisfy [p]. *)
Definition number (p : Z -> bool) (xs : list Z) : Z :=
  sum ((fun x => if p x then 1 else 0) <$> xs).

Lemma number_app p xs ys : number p (xs ++ ys) = number p xs + number p ys.
Proof. unfold number. by rewrite fmap_app, sum_app. Qed.

Lemma number_cons p x xs : number p (x :: xs) = (if p x then 1 else 0) + number p xs.
Proof. done. Qed.

Lemma number_perm p xs ys : xs ≡ₚ ys -> number p xs = number p ys.
Proof. induction 1; rewrite ?number_cons; lia. Qed.

Lemma number_mono p q xs :
  (forall x, x ∈ xs -> p x = true -> q x = true) -> number p xs <= number q xs.
Proof.
  induction xs as [| x xs IH]; intros Hpq; [done |]. rewrite !number_cons.
  assert (number p xs <= number q xs) by (apply IH; intros y Hy; apply Hpq; set_solver).
  destruct (p x) eqn:Hp; [rewrite (Hpq x ltac:(set_solver) Hp) | destruct (q x)]; lia.
Qed.

Lemma number_all p xs : (forall x, x ∈ xs -> p x = true) -> number p xs = zlen xs.
Proof.
  induction xs as [| x xs IH]; intros Hp; [done |]. rewrite number_cons, zlen_cons, IH, Hp;
    set_solver.
Qed.

Lemma number_none p xs : (forall x, x ∈ xs -> p x = false) -> number p xs = 0.
Proof.
  induction xs as [| x xs IH]; intros Hp; [done |]. rewrite number_cons, IH, Hp; set_solver.
Qed.

Lemma number_replicate p n x : number p (replicate n x) = if p x then Z.of_nat n else 0.
Proof.
  induction n as [| n IH]; [by destruct (p x) |]. cbn [replicate]. rewrite number_cons, IH.
  destruct (p x); lia.
Qed.

Lemma number_nonneg p xs : 0 <= number p xs.
Proof.
  rewrite <- (number_none (fun _ => false) xs ltac:(done)). by apply number_mono.
Qed.

Lemma number_pos p xs : 0 < number p xs <-> exists x, x ∈ xs /\ p x = true.
Proof.
  induction xs as [| x xs IH]; [split; [done | intros (? & ?%elem_of_nil & _); done] |].
  rewrite number_cons. pose proof (number_nonneg p xs). split.
  - destruct (p x) eqn:Hp; [exists x; split; [apply elem_of_cons; by left | done] |]. intros Hn.
    destruct (proj1 IH Hn) as (y & ? & ?). exists y. split; [apply elem_of_cons; by right | done].
  - intros (y & [-> | Hy]%elem_of_cons & Hp); [rewrite Hp; lia |].
    assert (0 < number p xs) by (apply IH; by exists y). destruct (p x); lia.
Qed.

(** At most [r] values are below the one at position [r] of the sorted values, and more than
    [r] are not above it. *)
Lemma sorted_rank xs r v :
  merge_sort Z.le xs !! r = Some v ->
  number (fun x => x <? v) xs <= Z.of_nat r < number (fun x => x <=? v) xs.
Proof.
  intros Hr. pose proof (StronglySorted_merge_sort Z.le xs) as HS.
  rewrite <- !(number_perm _ _ _ (merge_sort_Permutation Z.le xs)).
  set (ys := merge_sort Z.le xs) in *. pose proof (lookup_lt_Some _ _ _ Hr) as Hlt.
  rewrite <- (take_drop_middle ys r v Hr) in HS |- *.
  assert (Hlo : forall x, x ∈ take r ys -> x <= v) by
    (intros x Hx; apply (StronglySorted_app_1_elem_of Z.le _ _ x v HS); set_solver).
  assert (Hhi : forall x, x ∈ drop (S r) ys -> v <= x).
  { rewrite cons_middle, app_assoc in HS.
    intros x Hx; apply (StronglySorted_app_1_elem_of Z.le _ _ v x HS); set_solver. }
  rewrite !number_app, !number_cons, (number_all (fun x => x <=? v) (take r ys)) by
    (intros x Hx; apply Z.leb_le; auto).
  rewrite (number_none (fun x => x <? v) (drop (S r) ys)) by
    (intros x Hx; apply Z.ltb_ge; auto).
  pose proof (number_mono (fun x => x <? v) (fun _ => true) (take r ys) ltac:(done)) as Hm.
  rewrite (number_all (fun _ => true)) in Hm by done.
  assert (zlen (take r ys) = Z.of_nat r) as Hz by (unfold zlen; rewrite length_take; lia).
  rewrite Z.leb_refl, Z.ltb_irrefl.
  pose proof (number_nonneg (fun x => x <=? v) (drop (S r) ys)). lia.
Qed.

Lemma number_negb p xs : number p xs + number (fun x => negb (p x)) xs = zlen xs.
Proof.
  induction xs as [| x xs IH]; [done |]. rewrite !number_cons, zlen_cons.
  destruct (p x); cbn [negb]; lia.
Qed.

Lemma sorted_first xs v x : merge_sort Z.le xs !! 0%nat = Some v -> x ∈ xs -> v <= x.
Proof.
  intros Hv Hx. pose proof (sorted_rank xs 0 v Hv). destruct (Z.lt_ge_cases x v); [| done].
  assert (0 < number (fun x => x <? v) xs); [| lia].
  apply number_pos. exists x. split; [done | by apply Z.ltb_lt].
Qed.

Lemma sorted_last xs v x : last (merge_sort Z.le xs) = Some v -> x ∈ xs -> x <= v.
Proof.
  intros Hv Hx. rewrite last_lookup in Hv. pose proof (sorted_rank xs _ v Hv) as Hr.
  rewrite (Permutation_length (merge_sort_Permutation Z.le xs)) in Hr.
  destruct (Z.lt_ge_cases v x); [| done]. pose proof (number_negb (fun x => x <=? v) xs) as Hn.
  assert (0 < number (fun x => negb (x <=? v)) xs); [| unfold zlen in Hn; lia].
  apply number_pos. exists x. split; [done |]. by apply negb_true_iff, Z.leb_gt.
Qed.

(** The histogram counts exactly the values [xs]. *)
Record tallies (h : hdr_histogram) (xs : list Z) : Prop := {
  ty_ok : hist_ok h;
  ty_values : Forall (trackable (h_cfg h)) xs;
  ty_counts : forall i, (i < length (counts h))%nat ->
    counts h !! i = Some (number (fun x => slot_of (h_cfg h) x =? Z.of_nat i) xs);
}.

Lemma tallies_init c :
  layout_ok c ->
  tallies (hdr_init_preallocated c (replicate (Z.to_nat (counts_len c)) 0)) [].
Proof.
  intros Hc. constructor; [by apply init_ok | done |]. cbn [counts hdr_init_preallocated].
  intros i Hi. rewrite length_replicate in Hi. by apply lookup_replicate_2.
Qed.

Lemma tallies_record h xs v count :
  tallies h xs -> trackable (h_cfg h) v -> 0 < count -> total_count h + count < 2 ^ 63 ->
  exists h', hdr_record_values h v count = Some (true, h') /\ h_cfg h' = h_cfg h /\
    total_count h' = total_count h + count /\
    tallies h' (xs ++ replicate (Z.to_nat count) v).
Proof.
  intros [Hh Hx Hcs] Hv Hc Ht. destruct (record_runs h v count Hh Hv Hc Ht) as (h' & Hrec & Hb).
  pose proof Hb as (Hcfg & Htot & _ & (c & _ & Hcs') & _).
  exists h'. split_and!; try done. constructor; rewrite ?Hcfg.
  - by apply (bumped_ok h h' v count).
  - apply Forall_app. split; [done |]. by apply Forall_replicate.
  - intros i Hi. rewrite Hcs', length_insert in Hi. rewrite (bumped_lookup _ _ _ _ _ _ Hb (Hcs i Hi)).
    f_equal. rewrite number_app, number_replicate.
    pose proof (slot_nonneg h v (ok_layout _ Hh) ltac:(apply Hv)).
    case_decide; destruct (Z.eqb_spec (slot_of (h_cfg h) v) (Z.of_nat i)); lia.
Qed.

Lemma tallies_add h from xs ys :
  tallies h xs -> tallies from ys -> h_cfg h = h_cfg from ->
  total_count h + total_count from < 2 ^ 63 ->
  exists h', hdr_add h from = Some (0, h') /\ h_cfg h' = h_cfg h /\ tallies h' (xs ++ ys).
Proof.
  intros [Hh Hx Hcs] [Hf Hy Hds] Hcfg Ht.
  destruct (hdr_add_gains h from Hf Hh Hcfg Ht) as (h' & Hadd & Hh' & Hcfg' & Hg).
  exists h'. split_and!; try done. constructor; [done | rewrite Hcfg' |].
  - apply Forall_app. split; [done |]. by rewrite Hcfg.
  - intros i Hi. pose proof (ok_len _ Hh). pose proof (ok_len _ Hf). pose proof (ok_len _ Hh').
    unfold zlen in *. rewrite Hcfg' in *. rewrite Hcfg in *.
    rewrite (Hg i _ _ (Hcs i ltac:(lia)) (Hds i ltac:(lia))), number_app. done.
Qed.

(** The running total is the number of values in the slots passed. *)
Lemma tallies_take h xs k :
  tallies h xs -> (k <= length (counts h))%nat ->
  sum (take k (counts h)) = number (fun x => slot_of (h_cfg h) x <? Z.of_nat k) xs.
Proof.
  intros [Hh Hx Hcs] Hk. induction k as [| k IH].
  - symmetry. rewrite take_0. apply number_none. intros x Hin. apply Z.ltb_ge.
    pose proof (proj1 (Forall_forall _ _) Hx x Hin) as [? _]. apply slot_nonneg; [apply (ok_layout _ Hh) | lia].
  - rewrite (sum_take_S _ _ _ (Hcs k ltac:(lia))), IH by lia. clear.
    induction xs as [| x xs IHx]; [done |]. rewrite !number_cons.
    destruct (Z.ltb_spec (slot_of (h_cfg h) x) (Z.of_nat k)),
      (Z.ltb_spec (slot_of (h_cfg h) x) (Z.of_nat (S k))),
      (Z.eqb_spec (slot_of (h_cfg h) x) (Z.of_nat k)); lia.
Qed.

Lemma tallies_total h xs : tallies h xs -> total_count h = zlen xs.
Proof.
  intros Ht. rewrite (ok_total _ (ty_ok _ _ Ht)).
  rewrite <- (firstn_all (counts h)), (tallies_take h xs) by done.
  apply number_all. intros x Hx. apply Z.ltb_lt.
  pose proof (proj1 (Forall_forall _ _) (ty_values _ _ Ht) x Hx) as [_ Hs].
  pose proof (ok_len _ (ty_ok _ _ Ht)) as Hl. unfold zlen in Hl. lia.
Qed.

(** ** Queries *)

Section queries.
Context (h : hdr_histogram) (xs : list Z) (Ht : tallies h xs).
Abbreviation slot := (slot_of (h_cfg h)).

#[local] Lemma lay : layout_ok (h_cfg h).
Proof. apply ok_layout, (ty_ok _ _ Ht). Qed.

Lemma value_trackable x : x ∈ xs -> trackable (h_cfg h) x.
Proof. apply (proj1 (Forall_forall _ _) (ty_values _ _ Ht)). Qed.

Lemma slot_in_counts x :
  x ∈ xs -> 0 <= slot x /\ (Z.to_nat (slot x) < length (counts h))%nat.
Proof.
  intros Hx. destruct (value_trackable x Hx) as [Hr Hs].
  pose proof (slot_nonneg h x lay ltac:(lia)). pose proof (ok_len _ (ty_ok _ _ Ht)) as Hl.
  unfold zlen in Hl. lia.
Qed.

(** The used slots are those of the values. *)
Lemma used_iff i : 0 <= i -> used h i <-> exists x, x ∈ xs /\ slot x = i.
Proof.
  intros Hi. split.
  - intros (c & Hc & Hp). pose proof (lookup_lt_Some _ _ _ Hc) as Hl.
    rewrite (ty_counts _ _ Ht _ Hl), Z2Nat.id in Hc by done. injection Hc as <-.
    apply number_pos in Hp as (x & Hx & He%Z.eqb_eq). by exists x.
  - intros (x & Hx & <-). destruct (slot_in_counts x Hx) as [H0 Hl].
    eexists. split; [by apply (ty_counts _ _ Ht) |]. rewrite Z2Nat.id by done.
    apply number_pos. exists x. by rewrite Z.eqb_refl.
Qed.

Lemma slot_le a b : a ∈ xs -> a <= b -> slot a <= slot b.
Proof. intros Ha Hab. destruct (value_trackable a Ha). apply slot_mono; [apply lay | lia]. Qed.

Lemma sorted_elem r v : merge_sort Z.le xs !! r = Some v -> v ∈ xs.
Proof.
  intros Hr. rewrite <- (merge_sort_Permutation Z.le xs). by eapply list_elem_of_lookup_2.
Qed.

(** The value at a rank is the end of the slot of the value with that rank. *)
Lemma tallies_percentile rank v :
  1 <= rank -> merge_sort Z.le xs !! Z.to_nat (rank - 1) = Some v ->
  hdr_value_at_percentile h rank = Some (highest_equivalent_value h v).
Proof.
  intros Hrk Hv. pose proof (sorted_elem _ _ Hv) as Hin.
  destruct (value_trackable v Hin) as [Hv63 _]. destruct (slot_in_counts v Hin) as [Hs0 Hsl].
  pose proof (sorted_rank xs _ _ Hv) as Hsr. rewrite Z2Nat.id in Hsr by lia.
  pose proof (tallies_take h xs (Z.to_nat (slot v)) Ht ltac:(lia)) as Hlo.
  pose proof (tallies_take h xs (S (Z.to_nat (slot v))) Ht ltac:(lia)) as Hhi.
  assert (number (fun x => slot x <? Z.of_nat (Z.to_nat (slot v))) xs <= number (fun x => x <? v) xs).
  { apply number_mono. intros x Hx Hlt. zb. apply Z.ltb_lt. destruct (Z.lt_ge_cases x v); [done |].
    pose proof (slot_le v x Hin ltac:(lia)). lia. }
  assert (number (fun x => x <=? v) xs
    <= number (fun x => slot x <? Z.of_nat (S (Z.to_nat (slot v)))) xs).
  { apply number_mono. intros x Hx Hle. zb. apply Z.ltb_lt. pose proof (slot_le x v Hx Hle). lia. }
  unfold hdr_value_at_percentile.
  replace (if rank >? 1 then rank else 1) with rank by (destruct (rank >? 1) eqn:?; zb; lia).
  change 0 with (sum (take 0 (counts h))).
  rewrite (percentile_loop_slot h (Z.to_nat (slot v)) 0 rank
    (number (fun x => slot x =? Z.of_nat (Z.to_nat (slot v))) xs)); try done; try lia.
  - rewrite Z2Nat.id by done. f_equal. rewrite hdr_value_at_index_eq by (done || apply lay).
    pose proof (slot_value h lay v). pose proof (width_pos h lay v).
    pose proof (sub_range h lay v ltac:(lia)) as [? _].
    apply highest_equivalent_value_slot; [apply lay | nia | done |]. apply slot_lowest; [apply lay | done].
  - apply (ty_ok _ _ Ht).
  - unfold iter_fuel. lia.
  - by apply (ty_counts _ _ Ht).
Qed.

(** The largest and the smallest value. *)
Lemma tallies_max v :
  v ∈ xs -> (forall x, x ∈ xs -> x <= v) -> slot v <> 0 ->
  hdr_max h = highest_equivalent_value h v.
Proof.
  intros Hin Hmax Hs. destruct (value_trackable v Hin) as [Hv63 _].
  destruct (slot_in_counts v Hin) as [Hs0 _]. pose proof (ty_ok _ _ Ht) as Hh.
  pose proof (ok_max _ Hh (slot v) Hs0 ltac:(apply used_iff; [done | by exists v])) as Hge.
  unfold hdr_max. destruct (ok_max_in _ Hh) as [Hz | [[Hm _] Hu]].
  { rewrite Hz, (slot_zero h lay) in Hge. lia. }
  destruct (Z.eqb_spec 0 (max_value h)) as [Hz | _].
  { rewrite <- Hz, (slot_zero h lay) in Hge. lia. }
  apply used_iff in Hu as (x & Hx & He); [| lia]. pose proof (slot_le x v Hx (Hmax x Hx)).
  apply highest_equivalent_value_slot; [apply lay | done.. | lia].
Qed.

Lemma tallies_min v :
  v ∈ xs -> (forall x, x ∈ xs -> v <= x) -> slot v < slot INT64_MAX ->
  hdr_min h = Some (lowest_equivalent_value h v).
Proof.
  intros Hin Hmin Hlt. destruct (value_trackable v Hin) as [Hv63 _].
  destruct (slot_in_counts v Hin) as [Hs0 Hl]. pose proof (ty_ok _ _ Ht) as Hh.
  unfold hdr_min, hdr_count_at_index, counts_get_normalised, normalize_index, counts_get_direct.
  rewrite (if_true (normalizing_index_offset h =? 0)) by (apply Z.eqb_eq, (ok_offset _ Hh)). zif.
  rewrite (ty_counts _ _ Ht) by (change (Z.to_nat 0) with 0%nat; lia). f_equal.
  destruct (Z.ltb_spec 0 (number (fun x => slot x =? Z.of_nat (Z.to_nat 0)) xs)) as [Hp | Hn].
  - apply number_pos in Hp as (x & Hx & He%Z.eqb_eq).
    pose proof (slot_le v x Hin (Hmin x Hx)).
    rewrite (lowest_equivalent_value_slot h lay v 0), lowest_equivalent_value_eq, Z.mul_comm by
      (try apply lay; rewrite ?(slot_zero h lay); lia).
    unfold sub_of. rewrite Zdiv_0_l. lia.
  - assert (slot v <> 0) as Hne.
    { intros Hz. apply Z.le_ngt in Hn. apply Hn, number_pos. exists v. split; [done |].
      apply Z.eqb_eq. lia. }
    assert (Hu : used h (slot v)) by (apply used_iff; [done | by exists v]).
    pose proof (ok_min_set _ Hh (slot v) ltac:(lia) Hu) as Hset.
    unfold non_zero_min. zif. pose proof (ok_min _ Hh (slot v) ltac:(lia) Hu Hset).
    destruct (ok_min_in _ Hh) as [| [[Hm _] Hum]]; [done |].
    apply used_iff in Hum as (x & Hx & He); [| apply slot_nonneg; [apply lay | lia]].
    pose proof (slot_le v x Hin (Hmin x Hx)).
    apply lowest_equivalent_value_slot; [apply lay | done.. | lia].
Qed.
End queries.

(** A histogram for values up to 1000 with one figure. *)
Definition small_hist : hdr_histogram :=
  hdr_init_preallocated (Cfg 1 1000 0 1 4 16 31 32 6 112) (replicate 112 0).

Lemma small_hist_init : hdr_init Z.log2 true 1 1000 1 = Some (inr small_hist).
Proof. vm_compute. reflexivity. Qed.

(** C33: Every layout is accepted or refused with a code, and in an accepted one each trackable value
    has a counter, the range of values it stands for contains the value, and the range is a single
    unit or narrower than the value by the requested number of decimal figures. *)
Theorem hdr_accuracy log2_trunc mem lowest highest figures :
  (1 <= lowest -> 0 <= log2_trunc lowest) -> highest < 2 ^ 63 ->
  exists r, hdr_init log2_trunc mem lowest highest figures = Some r /\
  match r with
  | inl e => e = ENOMEM /\ mem = false \/
      e = EINVAL /\ ~ (1 <= lowest /\ 2 * lowest <= highest /\ 1 <= figures <= 5 /\
                       log2_trunc lowest <= 44)
  | inr h => forall v, 0 <= v <= highest ->
      0 <= counts_index_for h v < counts_len (h_cfg h) /\
      hdr_value_at_index h (counts_index_for h v) = lowest_equivalent_value h v /\
      lowest_equivalent_value h v <= v <= highest_equivalent_value h v /\
      highest_equivalent_value h v - lowest_equivalent_value h v + 1
        = hdr_size_of_equivalent_value_range h v /\
      (hdr_size_of_equivalent_value_range h v = 2 ^ log2_trunc lowest \/
       hdr_size_of_equivalent_value_range h v * 10 ^ figures <= v)
  end.
Proof.
  intros Hlog Hhi. unfold hdr_init.
  destruct (config_ok log2_trunc lowest highest figures _ Hlog Hhi eq_refl)
    as [[-> Hno] | (c & -> & Hc & Hh & Hf & Hu)]; [eexists; split; [done | by right] |].
  destruct mem; [| eexists; split; [done | by left]]. eexists. split; [done |]. intros v Hv.
  set (h := hdr_init_preallocated _ _). assert (Hcfg : h_cfg h = c) by done.
  clearbody h. subst c.
  assert (Hv' : 0 <= v < 2 ^ 63) by lia. pose proof (slot_value h Hc v).
  rewrite counts_index_for_eq, hdr_value_at_index_eq, lowest_equivalent_value_eq,
    highest_equivalent_value_eq, size_eq by done.
  split; [apply slot_range; [done | lia] |]. split_and!; try done; try lia.
  destruct (sub_range h Hc v ltac:(lia)) as [_ Hup].
  destruct (Z.lt_ge_cases 0 (bucket_of (h_cfg h) v)) as [Hb | Hb].
  - right. specialize (Hup Hb). pose proof (lo_figures _ Hc) as Hfig. rewrite Hf in Hfig.
    pose proof (width_pos h Hc v). nia.
  - left. unfold width_of. rewrite Hu. f_equal. unfold bucket_of in *. lia.
Qed.

Lemma hdr_accuracy_witness :
  0 <= counts_index_for small_hist 777 < 112 /\
  highest_equivalent_value small_hist 777 - lowest_equivalent_value small_hist 777 + 1 = 32 /\
  lowest_equivalent_value small_hist 777 <= 777 <= highest_equivalent_value small_hist 777.
Proof.
  destruct (hdr_accuracy Z.log2 true 1 1000 1) as (r & He & Hr); [by vm_compute | by vm_compute |].
  rewrite small_hist_init in He. injection He as <-.
  destruct (Hr 777) as (H1 & _ & H2 & H3 & _); [lia |].
  split; [exact H1 |]. split; [| exact H2]. rewrite H3. vm_compute. reflexivity.
Defined.

(** Latencies as they were measured, each as often as the batch says. *)
Definition latencies_of (rs : list (Z * Z)) : list Z :=
  rs ≫= fun r => replicate (Z.to_nat (snd r)) (fst r).

Definition measured (highest : Z) (r : Z * Z) : Prop := 0 <= fst r <= highest /\ 0 < snd r.

Lemma client_record_tallies h xs rs :
  tallies h xs -> Forall (measured (highest_trackable_value (h_cfg h))) rs ->
  zlen xs + zlen (latencies_of rs) < 2 ^ 63 ->
  exists h', client_record h rs = Some h' /\ h_cfg h' = h_cfg h /\
    tallies h' (xs ++ latencies_of rs).
Proof.
  revert h xs. induction rs as [| [v c] rs IH]; intros h xs Ht Hrs Hb.
  - exists h. rewrite app_nil_r. done.
  - apply Forall_cons in Hrs as [[Hv Hc] Hrs]. cbn [fst snd] in Hv, Hc.
    unfold latencies_of in Hb |- *. cbn [mbind list_bind fst snd] in Hb |- *.
    rewrite app_assoc. rewrite zlen_app in Hb. unfold zlen at 2 in Hb. rewrite length_replicate in Hb.
    pose proof (ty_ok _ _ Ht) as Hh. pose proof (lo_highest _ (ok_layout _ Hh)).
    pose proof (slot_range h (ok_layout _ Hh) v Hv).
    pose proof (zlen_nonneg (rs ≫= fun r => replicate (Z.to_nat (snd r)) (fst r))).
    destruct (tallies_record h xs v c Ht) as (h1 & Hr & Hcfg & _ & Ht1);
      [split; lia | done | rewrite (tallies_total _ _ Ht); lia |].
    cbn [client_record]. rewrite Hr.
    destruct (IH h1 (xs ++ replicate (Z.to_nat c) v) Ht1) as (h' & Hr' & Hcfg' & Ht').
    + by rewrite Hcfg.
    + rewrite zlen_app. unfold zlen at 2. rewrite length_replicate. unfold latencies_of. lia.
    + exists h'. split; [done |]. split; [congruence | done].
Qed.

Lemma merge_clients_tallies h xs tasks yss :
  tallies h xs -> Forall2 (fun t ys => h_cfg t = h_cfg h /\ tallies t ys) tasks yss ->
  zlen xs + zlen (concat yss) < 2 ^ 63 ->
  exists h', merge_clients h tasks = Some h' /\ h_cfg h' = h_cfg h /\
    tallies h' (xs ++ concat yss).
Proof.
  revert h xs yss. induction tasks as [| t tasks IH]; intros h xs yss Ht HF Hb;
    inversion HF as [| ? ys ? yss' [Hcfg Hty] HF']; subst.
  - exists h. by rewrite app_nil_r.
  - cbn [concat] in Hb |- *. rewrite zlen_app in Hb. pose proof (zlen_nonneg (concat yss')).
    destruct (tallies_add h t xs ys Ht Hty) as (h1 & Ha & Hcfg1 & Ht1); [done | |].
    { rewrite (tallies_total _ _ Ht), (tallies_total _ _ Hty). lia. }
    cbn [merge_clients]. rewrite Ha, app_assoc, <- Hcfg1. apply IH; [done | by rewrite Hcfg1 |].
    rewrite zlen_app. lia.
Qed.

(** Each client has its own histogram. *)
Lemma clients_record_tallies h tasks :
  tallies h [] -> Forall (Forall (measured (highest_trackable_value (h_cfg h)))) tasks ->
  zlen (concat (latencies_of <$> tasks)) < 2 ^ 63 ->
  exists hs, mapM (client_record h) tasks = Some hs /\
    Forall2 (fun t ys => h_cfg t = h_cfg h /\ tallies t ys) hs (latencies_of <$> tasks).
Proof.
  intros Ht. induction tasks as [| rs tasks IH]; intros Hm Hb.
  - exists []. split; [done | constructor].
  - apply Forall_cons in Hm as [Hrs Hm]. cbn [fmap list_fmap concat] in Hb. rewrite zlen_app in Hb.
    pose proof (zlen_nonneg (latencies_of rs)).
    pose proof (zlen_nonneg (concat (latencies_of <$> tasks))).
    destruct (client_record_tallies h [] rs Ht Hrs) as (h' & Hr & Hcfg & Ht').
    { change (zlen (@nil Z)) with 0. lia. }
    destruct (IH Hm) as (hs & Hhs & HF); [lia |].
    exists (h' :: hs). cbn [mapM]. rewrite Hr. cbn [mbind option_bind]. rewrite Hhs.
    split; [done |]. by constructor.
Qed.

Lemma latency_range highest tasks v :
  Forall (Forall (measured highest)) tasks -> v ∈ concat (latencies_of <$> tasks) ->
  0 <= v <= highest.
Proof.
  intros Hm (ys & Hys & Hv)%list_elem_of_In%in_concat.
  apply list_elem_of_In, list_elem_of_fmap in Hys as (rs & -> & Hrs).
  apply list_elem_of_In, list_elem_of_bind in Hv as ([x n] & Hv%elem_of_replicate & Hr).
  destruct Hv as [-> _]. rewrite Forall_forall in Hm.
  by destruct (proj1 (Forall_forall _ _) (Hm rs Hrs) _ Hr).
Qed.

(** A value of a lower bucket has a lower slot. *)
Lemma slot_bucket_lt h v w :
  layout_ok (h_cfg h) -> 0 <= v -> 0 <= w -> bucket_of (h_cfg h) v < bucket_of (h_cfg h) w ->
  slot_of (h_cfg h) v < slot_of (h_cfg h) w.
Proof.
  intros Hl Hv Hw Hb. pose proof (sub_range h Hl v Hv) as [? _].
  pose proof (sub_range h Hl w Hw) as [_ Hup]. assert (0 <= bucket_of (h_cfg h) v) by (unfold bucket_of; lia).
  specialize (Hup ltac:(lia)). pose proof (half_pos h Hl). unfold slot_of. nia.
Qed.

Lemma below_int64_max h v :
  layout_ok (h_cfg h) -> 0 <= v < 2 ^ 62 -> slot_of (h_cfg h) v < slot_of (h_cfg h) INT64_MAX.
Proof.
  intros Hl Hv. pose proof (lo_u _ Hl). pose proof (lo_m _ Hl).
  apply slot_bucket_lt; [done | lia | by vm_compute |]. unfold bucket_of.
  change (Z.log2 INT64_MAX) with 62.
  destruct (decide (v = 0)) as [-> | Hne]; [cbn [Z.log2]; lia |].
  pose proof (proj1 (Z.log2_lt_pow2 v 62 ltac:(lia)) ltac:(lia)). lia.
Qed.

(** C32: The benchmark reports what was measured: when every client records its latencies and the
    histograms are merged, nothing is dropped, the value at a rank is the end of the range of
    the latency that has this rank among all latencies in order, and the minimum and maximum
    belong to the ranges of the first and the last one. *)
Theorem hdr_merged_percentiles log2_trunc lowest highest figures h0 tasks :
  (1 <= lowest -> 0 <= log2_trunc lowest) -> highest < 2 ^ 62 ->
  hdr_init log2_trunc true lowest highest figures = Some (inr h0) ->
  Forall (Forall (measured highest)) tasks ->
  zlen (concat (latencies_of <$> tasks)) < 2 ^ 63 ->
  exists hs h, mapM (client_record h0) tasks = Some hs /\ merge_clients h0 hs = Some h /\
    let sorted := merge_sort Z.le (concat (latencies_of <$> tasks)) in
    total_count h = zlen sorted /\
    (forall rank v, 1 <= rank -> sorted !! Z.to_nat (rank - 1) = Some v ->
       hdr_value_at_percentile h rank = Some (highest_equivalent_value h v)) /\
    (forall v, sorted !! 0%nat = Some v -> hdr_min h = Some (lowest_equivalent_value h v)) /\
    (forall v, last sorted = Some v -> lowest_equivalent_value h v <> 0 ->
       hdr_max h = highest_equivalent_value h v).
Proof.
  intros Hlog Hhi Hinit Hm Hb.
  destruct (config_ok log2_trunc lowest highest figures _ Hlog ltac:(lia) eq_refl)
    as [[He _] | (c & He & Hc & Hhc & _)]; unfold hdr_init in Hinit; rewrite He in Hinit; [done |].
  injection Hinit as <-. pose proof (tallies_init c Hc) as Ht0.
  set (h0 := hdr_init_preallocated _ _) in *.
  assert (Hcfg : h_cfg h0 = c) by done. clearbody h0. subst c. rewrite <- Hhc in Hm.
  destruct (clients_record_tallies h0 tasks Ht0 Hm Hb) as (hs & -> & HF).
  destruct (merge_clients_tallies h0 [] hs _ Ht0 HF) as (h & Hmg & Hcfg & Ht);
    [change (zlen (@nil Z)) with 0; lia |].
  exists hs, h. split; [done |]. split; [done |]. cbv zeta. rewrite app_nil_l in Ht.
  pose proof (ok_layout _ (ty_ok _ _ Ht)) as Hl. set (xs := concat _) in *.
  assert (Hr : forall v, v ∈ xs -> 0 <= v < 2 ^ 62) by
    (intros v Hv; pose proof (latency_range _ _ _ Hm Hv); lia).
  split_and!.
  - rewrite (tallies_total _ _ Ht). unfold zlen.
    by rewrite (Permutation_length (merge_sort_Permutation Z.le xs)).
  - apply (tallies_percentile h xs Ht).
  - intros v Hv. pose proof (sorted_elem xs _ _ Hv) as Hin.
    apply (tallies_min h xs Ht); [done | by eauto using sorted_first | by apply below_int64_max; auto].
  - intros v Hv Hne. rewrite last_lookup in Hv. pose proof (sorted_elem xs _ _ Hv) as Hin.
    rewrite <- last_lookup in Hv. specialize (Hr v Hin).
    apply (tallies_max h xs Ht); [done | by eauto using sorted_last |]. intros Hz. apply Hne.
    rewrite (lowest_equivalent_value_slot h Hl v 0), lowest_equivalent_value_eq by
      (done || lia || by rewrite slot_zero).
    unfold sub_of. by rewrite Zdiv_0_l.
Qed.

Lemma hdr_merged_percentiles_witness :
  exists hs h, mapM (client_record small_hist) [[(5, 2); (700, 1)]; [(0, 1); (33, 3)]] = Some hs /\
    merge_clients small_hist hs = Some h /\ total_count h = 7 /\
    hdr_value_at_percentile h 6 = Some (highest_equivalent_value h 33) /\
    hdr_min h = Some (lowest_equivalent_value h 0) /\
    (lowest_equivalent_value h 700 <> 0 -> hdr_max h = highest_equivalent_value h 700).
Proof.
  destruct (hdr_merged_percentiles Z.log2 1 1000 1 small_hist [[(5, 2); (700, 1)]; [(0, 1); (33, 3)]])
    as (hs & h & Hhs & Hh & Ht & Hp & Hmin & Hmax).
  - by vm_compute.
  - by vm_compute.
  - apply small_hist_init.
  - repeat constructor; unfold measured; cbn [fst snd]; lia.
  - by vm_compute.
  - exists hs, h. split; [done |]. split; [done |]. split; [rewrite Ht; by vm_compute |].
    split; [apply (Hp 6 33); [lia | by vm_compute] |].
    split; [apply (Hmin 0); by vm_compute | apply (Hmax 700); by vm_compute].
Defined.
