(* ===== verification/Conf.v ===== *)
(** * Configuration (src/conf.c, lib/sc/sc_ini.c, lib/sc/sc_option.c)

    A server reads its settings from an ini file and from the command line.  The ini
    parser hands each item to a callback; [conf_add] is the callback of the server, which
    the options of the command line go through as well.

    Strings are the bytes before the NUL.  The file system is an argument: what [access]
    and [fopen] say of a path and the bytes that can be read.  Line numbers are counted in
    an [int] and do not wrap for files below 2^31 lines.  The messages printed for the user
    are left out; the error of [conf_add] is kept as the values its message shows. *)

From Stdlib Require Import ZArith Lia.
From Stdlib Require Import Strings.Byte.
From stdpp Require Import base list numbers strings.
From S2P Require Import Prelude Str Uri Sql.

(** ** The C library *)

Definition isspace (b : byte) : bool := bool_decide (b ∈ SPACES).

Definition tolower (b : byte) : byte :=
  if (65 <=? b2z b) && (b2z b <=? 90) then z2b (b2z b + 32) else b.

(** [strcasecmp(a, b) == 0] *)
Definition same_nocase (a b : list byte) : bool := bool_decide (map tolower a = map tolower b).

(** [strncmp(s, p, strlen(p)) == 0] *)
Definition starts_with (p s : list byte) : bool := bool_decide (take (length p) s = p).

(** [strtoll(s, &end, 10)]: whether [errno] is set, the value and the characters consumed. *)
Definition strtoll (s : list byte) : bool * Z * nat :=
  let ws := strspn s SPACES in
  let s1 := drop ws s in
  let neg := bool_decide (head s1 = Some x2d) in
  let sg := if neg || bool_decide (head s1 = Some x2b) then 1%nat else 0%nat in
  let s2 := drop sg s1 in
  let nd := strspn s2 DIGITS in
  let v := digits_value (take nd s2) in
  let n := (ws + sg + nd)%nat in
  if decide (nd = 0%nat) then (false, 0, 0%nat)
  else if neg then (if v >? 2 ^ 63 then (true, - 2 ^ 63, n) else (false, - v, n))
  else if v >? 2 ^ 63 - 1 then (true, 2 ^ 63 - 1, n) else (false, v, n).

(** [fgets(buf, size, file)]: the bytes stored in [buf] and what is left of the file. *)
Definition fgets (size : nat) (file : list byte) : option (list byte * list byte) :=
  match file with
  | [] => None
  | _ => let n := ((size - 1) `min` S (strcspn file [x0a]))%nat in Some (take n file, drop n file)
  end.

(** ** Lines of an ini file *)

Definition SC_INI_MAX_LINE_LEN : nat := 1024.

Abbreviation SEMICOLON := x3b.
Abbreviation EQUALS := x3d.
Abbreviation SPACE := x20.

(** A string in the line buffer: where it starts and its characters. *)
Record span := mk_span { off : nat; txt : list byte }.

(** Trailing characters of the set; the first character of a line is never tested. *)
Definition strip_back (set x : list byte) : list byte := reverse (strip_front set (reverse x)).

Definition trim_space (str : span) : span :=
  let ws := strspn (txt str) SPACES in
  mk_span (off str + ws)
    (match drop ws (txt str) with [] => [] | b :: s => b :: strip_back SPACES s end).

(** The loop: behind a space, a comment starts. *)
Fixpoint cut_comment (s : list byte) : list byte :=
  match s with
  | [] => []
  | c :: s =>
      if decide (c = SPACE) then
        c :: match s with
             | d :: _ => if decide (d ∈ [SEMICOLON; HASH]) then [] else cut_comment s
             | [] => []
             end
      else c :: cut_comment s
  end.

Definition trim_comment (str : span) : span :=
  match txt str with
  | [] => str
  | c :: _ =>
      if decide (c ∈ [SEMICOLON; HASH]) then mk_span (off str) []
      else mk_span (off str) (cut_comment (txt str))
  end.

Definition trim_bom (str : span) : span :=
  if starts_with [xef; xbb; xbf] (txt str) then mk_span (off str + 3) (drop 3 (txt str)) else str.

(** [strncpy(dst, src, 255)] into an array of 256 zeros, whose last stays. *)
Definition strncpy_255 (s : list byte) : list byte := take 255 s.

Section ini.
Context {A : Type}.
(** [cb(arg, line, section, key, value)] *)
Variable cb : A -> Z -> list byte -> list byte -> list byte -> Z * A.
Context {src : Type}.
(** [next_line(arg1, buf, sizeof(buf) - 1)]: the string in [buf]. *)
Variable next_line : src -> option (list byte * src).

(** The body of the loop behind the trimming: the function returns, or goes on with section
    and key. *)
Definition ini_head (line : Z) (section key : list byte) (head : span) (arg : A)
  : Z * A + list byte * list byte * A :=
  let continue_ section key (r : Z * A) : Z * A + list byte * list byte * A :=
    if fst r =? 0 then inr (section, key, snd r) else inl (line, snd r) in
  match txt head with
  | [] => inr (section, key, arg)
  | c :: _ =>
      if bool_decide (0 < off head)%nat && bool_decide (key <> []) then
        continue_ section key (cb arg line section key (txt head))
      else if decide (c = LBRACKET) then
        match strchr_at (txt head) RBRACKET with
        | None => inl (line, arg)
        | Some e => inr (strncpy_255 (drop 1 (take e (txt head))), [], arg)
        end
      else
        let e := strcspn (txt head) [EQUALS; COLON] in
        if decide (e = length (txt head)) then inl (line, arg)
        else
          let k := txt (trim_space (mk_span 0 (take e (txt head)))) in
          let v := txt (trim_space (mk_span 0 (drop (S e) (txt head)))) in
          continue_ section (strncpy_255 k) (cb arg line section k v)
  end.

Definition ini_line (line : Z) (section key : list byte) (buf : list byte) (arg : A)
  : Z * A + list byte * list byte * A :=
  let head := mk_span 0 buf in
  let head := if line =? 1 then trim_bom head else head in
  ini_head line section key (trim_space (trim_comment head)) arg.

(** [None] is a source of lines that does not end within the fuel. *)
Fixpoint ini_loop (fuel : nat) (line : Z) (section key : list byte) (arg : A) (from : src) : option (Z * A) :=
  match fuel with
  | O => None
  | S fuel =>
      match next_line from with
      | None => Some (0, arg)
      | Some (buf, from) =>
          match ini_line (line + 1) section key buf arg with
          | inl r => Some r
          | inr (section, key, arg) => ini_loop fuel (line + 1) section key arg from
          end
      end
  end.

Definition sc_ini_parse (fuel : nat) (arg : A) (from : src) : option (Z * A) := ini_loop fuel 0 [] [] arg from.
End ini.

Definition file_line (file : list byte) : option (list byte * list byte) :=
  match fgets (SC_INI_MAX_LINE_LEN - 1) file with
  | None => None
  | Some (buf, file) => Some (cstring buf, file)
  end.

Definition string_line (p : option (list byte)) : option (list byte * option (list byte)) :=
  match p with
  | None | Some [] => None
  | Some str =>
      let diff := strcspn str [x0a] in
      let len := (diff `min` (SC_INI_MAX_LINE_LEN - 1))%nat in
      Some (take len str, if decide (diff = length str) then None else Some (drop (S diff) str))
  end.

(** A path: it does not exist, cannot be opened, or can be read to its end or up to an
    error. *)
Inductive file := missing | unreadable | contents (bytes : list byte) (error : bool).

Section parse.
Context {A : Type} (cb : A -> Z -> list byte -> list byte -> list byte -> Z * A).

Definition sc_ini_parse_file (arg : A) (f : file) : option (Z * A) :=
  match f with
  | missing | unreadable => Some (-1, arg)
  | contents bytes error =>
      match sc_ini_parse cb file_line (S (length bytes)) arg bytes with
      | None => None
      | Some (rc, arg) => Some (if rc =? 0 then (if error then -1 else 0) else rc, arg)
      end
  end.

Definition sc_ini_parse_string (arg : A) (str : list byte) : option (Z * A) :=
  sc_ini_parse cb string_line (S (S (length str))) arg (Some str).
End parse.

(** ** Options of the command line *)

Record sc_option_item := mk_option { letter : byte; o_name : list byte }.

(** The letter of the option, [?] for none, and the value. *)
Definition sc_option_at (options : list sc_option_item) (arg : list byte) : byte * option (list byte) :=
  let none := (QUESTION, None) in
  let value (pos : list byte) := if decide (head pos = Some EQUALS) then drop 1 pos else pos in
  match arg with
  | x2d :: pos =>
      if negb (bool_decide (head pos = Some x2d)) then
        match pos with
        | [] => none
        | c :: pos =>
            if existsb (fun o => bool_decide (letter o = c)) options && strchr [EQUALS; SPACE] (char_of pos 0)
            then (c, Some (value pos)) else none
        end
      else
        let curr := drop 1 pos in
        let len := strcspn curr [EQUALS] in
        match find (fun o => bool_decide (o_name o = take len curr)) options with
        | None => none
        | Some o => (letter o, Some (value (drop len curr)))
        end
  | _ => none
  end.

(** ** The settings *)

Record conf := mk_conf {
  node_name : list byte;
  node_bind_url : list byte;
  node_ad_url : list byte;
  node_source_addr : list byte;
  node_source_port : list byte;
  node_log_level : list byte;
  node_log_dest : list byte;
  node_dir : list byte;
  node_in_memory : bool;
  cluster_name : list byte;
  cluster_nodes : list byte;
  advanced_fsync : bool;
  advanced_heartbeat : Z;
  cmdline_systemd : bool;
  cmdline_backup : bool;
  cmdline_config_file : list byte
}.

Inductive conf_index :=
| CONF_NODE_NODE_NAME
| CONF_NODE_BIND_URL
| CONF_NODE_ADVERTISE_URL
| CONF_NODE_SOURCE_ADDR
| CONF_NODE_SOURCE_PORT
| CONF_NODE_LOG_LEVEL
| CONF_NODE_LOG_DESTINATION
| CONF_NODE_DIRECTORY
| CONF_NODE_IN_MEMORY
| CONF_CLUSTER_NAME
| CONF_CLUSTER_NODES
| CONF_ADVANCED_HEARTBEAT
| CONF_ADVANCED_FSYNC
| CONF_CMDLINE_CONF_FILE
| CONF_CMDLINE_SYSTEMD
| CONf_CMDLINE_BACKUP
| CONF_INVALID.

#[export] Instance conf_index_eq_dec : EqDecision conf_index.
Proof. solve_decision. Defined.

Definition conf_list : list (conf_index * list byte * list byte) :=
  [ (CONF_NODE_NODE_NAME, text "node", text "name");
    (CONF_NODE_BIND_URL, text "node", text "bind-url");
    (CONF_NODE_ADVERTISE_URL, text "node", text "advertise-url");
    (CONF_NODE_SOURCE_ADDR, text "node", text "source-addr");
    (CONF_NODE_SOURCE_PORT, text "node", text "source-port");
    (CONF_NODE_LOG_LEVEL, text "node", text "log-level");
    (CONF_NODE_LOG_DESTINATION, text "node", text "log-destination");
    (CONF_NODE_DIRECTORY, text "node", text "directory");
    (CONF_NODE_IN_MEMORY, text "node", text "in-memory");
    (CONF_CLUSTER_NAME, text "cluster", text "name");
    (CONF_CLUSTER_NODES, text "cluster", text "nodes");
    (CONF_ADVANCED_HEARTBEAT, text "advanced", text "heartbeat");
    (CONF_ADVANCED_FSYNC, text "advanced", text "fsync");
    (CONF_CMDLINE_CONF_FILE, text "cmd-line", text "config");
    (CONF_CMDLINE_SYSTEMD, text "cmd-line", text "systemd");
    (CONf_CMDLINE_BACKUP, text "cmd-line", text "backup") ].

Definition conf_init : conf :=
  mk_conf (text "node0") (text "tcp://127.0.0.1:7600") (text "tcp://127.0.0.1:7600") [] [] (text "INFO")
    (text "stdout") (text "./") true (text "cluster") (text "tcp://node0@127.0.0.1:7600") true 4000 false false
    (text "resql.ini").

(** [sc_str_set(&old, value)] *)
Definition set_str (old value : list byte) : list byte :=
  match sc_str_create (Some value) with None => old | Some s => chars s end.

(** What the message in [c->err] shows. *)
Inductive conf_err :=
| boolean_expected (section key value : list byte)
| parse_failed (section key value : list byte)
| unknown_config (section key value : list byte).

Definition with_text (c : conf) (i : conf_index) (v : list byte) : conf :=
  let '(mk_conf a1 a2 a3 a4 a5 a6 a7 a8 a9 a10 a11 a12 a13 a14 a15 a16) := c in
  match i with
  | CONF_NODE_NODE_NAME => mk_conf (set_str a1 v) a2 a3 a4 a5 a6 a7 a8 a9 a10 a11 a12 a13 a14 a15 a16
  | CONF_NODE_BIND_URL => mk_conf a1 (set_str a2 v) a3 a4 a5 a6 a7 a8 a9 a10 a11 a12 a13 a14 a15 a16
  | CONF_NODE_ADVERTISE_URL => mk_conf a1 a2 (set_str a3 v) a4 a5 a6 a7 a8 a9 a10 a11 a12 a13 a14 a15 a16
  | CONF_NODE_SOURCE_ADDR => mk_conf a1 a2 a3 (set_str a4 v) a5 a6 a7 a8 a9 a10 a11 a12 a13 a14 a15 a16
  | CONF_NODE_SOURCE_PORT => mk_conf a1 a2 a3 a4 (set_str a5 v) a6 a7 a8 a9 a10 a11 a12 a13 a14 a15 a16
  | CONF_NODE_LOG_LEVEL => mk_conf a1 a2 a3 a4 a5 (set_str a6 v) a7 a8 a9 a10 a11 a12 a13 a14 a15 a16
  | CONF_NODE_LOG_DESTINATION => mk_conf a1 a2 a3 a4 a5 a6 (set_str a7 v) a8 a9 a10 a11 a12 a13 a14 a15 a16
  | CONF_NODE_DIRECTORY => mk_conf a1 a2 a3 a4 a5 a6 a7 (set_str a8 v) a9 a10 a11 a12 a13 a14 a15 a16
  | CONF_CLUSTER_NAME => mk_conf a1 a2 a3 a4 a5 a6 a7 a8 a9 (set_str a10 v) a11 a12 a13 a14 a15 a16
  | CONF_CLUSTER_NODES => mk_conf a1 a2 a3 a4 a5 a6 a7 a8 a9 a10 (set_str a11 v) a12 a13 a14 a15 a16
  | CONF_CMDLINE_CONF_FILE => mk_conf a1 a2 a3 a4 a5 a6 a7 a8 a9 a10 a11 a12 a13 a14 a15 (set_str a16 v)
  | _ => c
  end.

Definition with_flag (c : conf) (i : conf_index) (b : bool) : conf :=
  let '(mk_conf a1 a2 a3 a4 a5 a6 a7 a8 a9 a10 a11 a12 a13 a14 a15 a16) := c in
  match i with
  | CONF_NODE_IN_MEMORY => mk_conf a1 a2 a3 a4 a5 a6 a7 a8 b a10 a11 a12 a13 a14 a15 a16
  | CONF_ADVANCED_FSYNC => mk_conf a1 a2 a3 a4 a5 a6 a7 a8 a9 a10 a11 b a13 a14 a15 a16
  | CONF_CMDLINE_SYSTEMD => mk_conf a1 a2 a3 a4 a5 a6 a7 a8 a9 a10 a11 a12 a13 b a15 a16
  | CONf_CMDLINE_BACKUP => mk_conf a1 a2 a3 a4 a5 a6 a7 a8 a9 a10 a11 a12 a13 a14 b a16
  | _ => c
  end.

Definition with_heartbeat (c : conf) (h : Z) : conf :=
  let '(mk_conf a1 a2 a3 a4 a5 a6 a7 a8 a9 a10 a11 a12 _ a14 a15 a16) := c in
  mk_conf a1 a2 a3 a4 a5 a6 a7 a8 a9 a10 a11 a12 h a14 a15 a16.

(** The loop over the table; it does not stop at a match. *)
Definition conf_find (section key : list byte) : conf_index :=
  foldl (fun index '(i, s, k) => if same_nocase s section && same_nocase k key then i else index)
    CONF_INVALID conf_list.

Definition conf_add (c : conf) (section key value : list byte) : option conf_err * conf :=
  let is_true := same_nocase value (text "true") in
  let is_false := same_nocase value (text "false") in
  let index := conf_find section key in
  match index with
  | CONF_NODE_NODE_NAME | CONF_NODE_BIND_URL | CONF_NODE_ADVERTISE_URL | CONF_NODE_SOURCE_ADDR
  | CONF_NODE_SOURCE_PORT | CONF_NODE_LOG_DESTINATION | CONF_NODE_LOG_LEVEL | CONF_NODE_DIRECTORY
  | CONF_CLUSTER_NAME | CONF_CLUSTER_NODES => (None, with_text c index value)
  | CONF_NODE_IN_MEMORY | CONF_ADVANCED_FSYNC =>
      if negb is_true && negb is_false then (Some (boolean_expected section key value), c)
      else (None, with_flag c index is_true)
  | CONF_ADVANCED_HEARTBEAT =>
      let '(errno, val, parsed) := strtoll value in
      if errno || bool_decide (parsed = O) then (Some (parse_failed section key value), c)
      else (None, with_heartbeat c (u64 val))
  | _ => (Some (unknown_config section key value), c)
  end.

(** [conf_add] as the callback of the ini parser. *)
Definition conf_on_item (c : conf) (line : Z) (section key value : list byte) : Z * conf :=
  let '(err, c) := conf_add c section key value in (if decide (err = None) then 0 else -1, c).

(** ** Reading the configuration *)

Definition conf_options : list sc_option_item :=
  [ mk_option x62 (text "backup"); mk_option x63 (text "config"); mk_option x68 (text "help");
    mk_option x73 (text "systemd"); mk_option x76 (text "version");
    mk_option x61 (text "node-advertise-url"); mk_option x64 (text "node-directory");
    mk_option x66 (text "advanced-fsync"); mk_option x69 (text "node-in-memory");
    mk_option x6b (text "advanced-heartbeat"); mk_option x6c (text "node-log-level");
    mk_option x6e (text "node-name"); mk_option x6f (text "cluster-nodes");
    mk_option x70 (text "node-source-port"); mk_option x72 (text "node-source-addr");
    mk_option x74 (text "node-log-destination"); mk_option x75 (text "cluster-name");
    mk_option x79 (text "node-bind-url") ].

(** The process ends with a code, or goes on with the settings. *)
Inductive outcome := exits (code : Z) | configured (c : conf).

(** The first argument that names a configuration file. *)
Fixpoint config_path (argv : list (list byte)) : option (list byte) :=
  match argv with
  | [] => None
  | arg :: argv =>
      if starts_with (text "-c=") arg then Some (drop 3 arg)
      else if starts_with (text "--config=") arg then Some (drop 9 arg)
      else config_path argv
  end.

(** One turn of the last loop. *)
Definition conf_arg (c : conf) (arg : list byte) : outcome :=
  let '(ch, value) := sc_option_at conf_options arg in
  let add section key :=
    match value with
    | None => exits 1
    | Some v =>
        let '(err, c) := conf_add c (text section) (text key) v in
        if decide (err = None) then configured c else exits 1
    end in
  match ch with
  | x62 => configured (with_flag c CONf_CMDLINE_BACKUP true)
  | x63 => configured c
  | x73 => configured (with_flag c CONF_CMDLINE_SYSTEMD true)
  | x68 | x76 => exits 0
  | x61 => add "node" "advertise-url"
  | x64 => add "node" "directory"
  | x66 => add "advanced" "fsync"
  | x69 => add "node" "in-memory"
  | x6b => add "advanced" "heartbeat"
  | x6c => add "node" "log-level"
  | x6e => add "node" "name"
  | x6f => add "cluster" "nodes"
  | x70 => add "node" "source-port"
  | x72 => add "node" "source-addr"
  | x74 => add "node" "log-destination"
  | x75 => add "cluster" "name"
  | x79 => add "node" "bind-url"
  | _ => exits 1
  end.

Fixpoint conf_args (c : conf) (argv : list (list byte)) : outcome :=
  match argv with
  | [] => configured c
  | arg :: argv => match conf_arg c arg with configured c => conf_args c argv | r => r end
  end.

(** [argv] is without the name of the program. *)
Definition conf_read_config (fs : list byte -> file) (c : conf) (read_file : bool) (argv : list (list byte))
  : option outcome :=
  let with_path :=
    match config_path argv with
    | None => configured c
    | Some path => if decide (path = []) then exits 1 else configured (with_text c CONF_CMDLINE_CONF_FILE path)
    end in
  match with_path with
  | exits n => Some (exits n)
  | configured c =>
      if negb read_file then Some (conf_args c argv)
      else
        match fs (cmdline_config_file c) with
        | missing => Some (conf_args c argv)
        | f =>
            match sc_ini_parse_file conf_on_item c f with
            | None => None
            | Some (rc, c) => if rc =? 0 then Some (conf_args c argv) else Some (exits 1)
            end
        end
  end.

(** ** Trimming *)

Lemma strspn_app_all set a b : Forall (fun c => c ∈ set) a -> strspn (a ++ b) set = (length a + strspn b set)%nat.
Proof. induction 1 as [|c a Hc _ IH]; [done|]. cbn [app strspn length]. rewrite decide_True by done. by rewrite IH. Qed.

Lemma strip_front_app_all set a b : Forall (fun c => c ∈ set) a -> strip_front set (a ++ b) = strip_front set b.
Proof.
  intros Ha. unfold strip_front. rewrite strspn_app_all by done. rewrite <- drop_drop, drop_app_length. done.
Qed.

(** A string whose first character is not in the set. *)
Definition hard (set x : list byte) : bool := match x with [] => false | b :: _ => bool_decide (b ∉ set) end.

Lemma strip_front_hard set x : hard set x = true -> strip_front set x = x.
Proof.
  destruct x as [|b x]; [done|]. cbn. intros H%bool_decide_eq_true. unfold strip_front. cbn [strspn].
  by rewrite decide_False.
Qed.

Lemma hard_app set x y : hard set x = true -> hard set (x ++ y) = true.
Proof. by destruct x. Qed.

Lemma strip_back_app_all set a b : Forall (fun c => c ∈ set) b -> strip_back set (a ++ b) = strip_back set a.
Proof.
  intros Hb. unfold strip_back. rewrite reverse_app, strip_front_app_all; [done|]. by apply Forall_reverse.
Qed.

Lemma strip_back_hard set a b : hard set (reverse b) = true -> strip_back set (a ++ b) = a ++ b.
Proof.
  intros Hb. unfold strip_back. rewrite strip_front_hard; [apply reverse_involutive|].
  rewrite reverse_app. by apply hard_app.
Qed.

Lemma strip_back_cons set a b w : b ∉ set -> strip_back set (a ++ b :: w) = a ++ b :: strip_back set w.
Proof.
  intros Hb. unfold strip_back. rewrite reverse_app, reverse_cons, <- app_assoc. cbn [app].
  unfold strip_front at 1. set (rw := reverse w). set (ra := reverse a).
  assert (Hs : forall x, strspn (x ++ b :: ra) set = strspn x set).
  { induction x as [|c x IH]; cbn [app strspn]; [by rewrite decide_False|]. case_decide; [by rewrite IH|done]. }
  rewrite Hs, drop_app_le by apply strspn_le. rewrite reverse_app, reverse_cons. unfold ra. rewrite reverse_involutive.
  rewrite <- app_assoc. done.
Qed.

Lemma txt_trim o x : txt (trim_space (mk_span o x)) = strip SPACES x.
Proof.
  unfold trim_space. cbn [txt]. unfold strip. change (drop (strspn x SPACES) x) with (strip_front SPACES x).
  assert (H : strip_front SPACES x = [] \/ hard SPACES (strip_front SPACES x) = true).
  { unfold strip_front. induction x as [|b x IH]; [by left|]. cbn [strspn]. case_decide; [done|].
    right. by apply bool_decide_eq_true. }
  destruct (strip_front SPACES x) as [|b s]; [done|]. destruct H as [H|H]; [done|].
  apply bool_decide_eq_true in H. change (reverse _) with (strip_back SPACES (b :: s)).
  symmetry. exact (strip_back_cons SPACES [] b s H).
Qed.

(** A string without spaces at its ends. *)
Definition neat (x : list byte) : bool :=
  bool_decide (x = []) || (hard SPACES x && hard SPACES (reverse x)).

(** Spaces around a neat string are removed. *)
Lemma strip_neat a x b :
  Forall (fun c => c ∈ SPACES) a -> Forall (fun c => c ∈ SPACES) b -> neat x = true ->
  strip SPACES (a ++ x ++ b) = x.
Proof.
  intros Ha Hb Hx. unfold strip. rewrite strip_front_app_all by done.
  unfold neat in Hx. apply orb_true_iff in Hx as [Hx|[H1 H2]%andb_true_iff].
  - apply bool_decide_eq_true in Hx as ->. cbn [app]. rewrite <- (app_nil_r b), strip_front_app_all by done. done.
  - rewrite (strip_front_hard _ (x ++ b)) by by apply hard_app. change (reverse _) with (strip_back SPACES (x ++ b)).
    rewrite strip_back_app_all by done. apply (strip_back_hard SPACES [] x H2).
Qed.

(** ** Files that are read back

    The lines of a file: sections, items with any spaces around the separator, comments and
    empty lines.  Behind a section or an item a comment may follow, [note]. *)
Inductive ini_text :=
| section_line (name note : list byte)
| item_line (key before : list byte) (sep : byte) (behind value note : list byte)
| comment_line (mark : byte) (s : list byte)
| blank_line (s : list byte).

(** A line without the comment behind it. *)
Definition bare (l : ini_text) : list byte :=
  match l with
  | section_line name _ => LBRACKET :: name ++ [RBRACKET]
  | item_line key before sep behind value _ => key ++ before ++ sep :: behind ++ value
  | comment_line mark s => mark :: s
  | blank_line s => s
  end.

Definition note_of (l : ini_text) : list byte :=
  match l with section_line _ note | item_line _ _ _ _ _ note => note | _ => [] end.

Definition render (l : ini_text) : list byte := bare l ++ note_of l.

Abbreviation spaces s := (Forall (fun c => c ∈ SPACES) s).
Abbreviation free_of set s := (Forall (fun c => c ∉ set) s).

(** Nothing, or a comment: a space and a mark. *)
Definition note_ok (note : list byte) : Prop :=
  match note with [] => True | [_] => False | c :: mark :: _ => c = SPACE /\ mark ∈ [SEMICOLON; HASH] end.

(** Lines that mean what they show: no line breaks inside, short enough for the buffer, sections
    and items in the first column, and no mark of a comment behind a space inside of them. *)
Record line_ok (l : ini_text) : Prop := {
  lk_break : free_of [x00; x0a] (render l);
  lk_len : (length (render l) <= 1018)%nat;
  lk_form : match l with
    | section_line name note => (RBRACKET ∉ name) /\ (length name <= 255)%nat /\ cut_comment (bare l) = bare l /\ note_ok note
    | item_line key before sep behind value note =>
        sep ∈ [EQUALS; COLON] /\ free_of [EQUALS; COLON] key /\ hard [LBRACKET; SEMICOLON; HASH; xef] key = true /\
        neat key = true /\ neat value = true /\ spaces before /\ spaces behind /\ cut_comment (bare l) = bare l /\ note_ok note
    | comment_line mark _ => mark ∈ [SEMICOLON; HASH]
    | blank_line s => spaces s
    end
}.

(** The items of a file, with the number of their line and their section. *)
Fixpoint items (line : Z) (section : list byte) (ls : list ini_text) : list (Z * list byte * list byte * list byte) :=
  match ls with
  | [] => []
  | section_line name _ :: ls => items (line + 1) name ls
  | item_line key _ _ _ value _ :: ls => (line, section, key, value) :: items (line + 1) section ls
  | _ :: ls => items (line + 1) section ls
  end.

(** The callback on each item, up to the first it refuses. *)
Fixpoint feed {A} (cb : A -> Z -> list byte -> list byte -> list byte -> Z * A)
    (its : list (Z * list byte * list byte * list byte)) (arg : A) : Z * A :=
  match its with
  | [] => (0, arg)
  | (line, section, key, value) :: its =>
      let '(rc, arg) := cb arg line section key value in
      if rc =? 0 then feed cb its arg else (line, arg)
  end.

(** Membership of concrete bytes. *)
Ltac concrete := apply (bool_decide_unpack _); vm_compute; reflexivity.

Lemma mark_not_space d : d ∈ [SEMICOLON; HASH] -> d ∉ SPACES.
Proof. intros [->|[->|[]%elem_of_nil]%elem_of_cons]%elem_of_cons; concrete. Qed.

Lemma sep_not_space d : d ∈ [EQUALS; COLON] -> d ∉ SPACES.
Proof. intros [->|[->|[]%elem_of_nil]%elem_of_cons]%elem_of_cons; concrete. Qed.

Lemma spaces_free s : spaces s -> free_of [EQUALS; COLON] s.
Proof. intros Hs. eapply Forall_impl; [exact Hs|]. intros d Hd H. by apply (sep_not_space d). Qed.

Lemma cut_comment_spaces s : spaces s -> cut_comment s = s.
Proof.
  induction 1 as [|c s Hc Hs IH]; [done|]. cbn [cut_comment]. case_decide; [|by rewrite IH].
  destruct Hs as [|d s Hd Hs]; [done|]. rewrite decide_False; [by rewrite IH|]. intros Hm.
  by apply (mark_not_space d).
Qed.

Lemma cut_comment_break s : cut_comment s = s -> cut_comment (s ++ [x0a]) = s ++ [x0a].
Proof.
  induction s as [|c s IH]; [done|]. cbn [cut_comment app]. case_decide.
  - destruct s as [|d s]; [done|]. cbn [app]. case_decide; [done|]. intros [= E]. f_equal. by apply IH.
  - intros [= E]. f_equal. by apply IH.
Qed.

Lemma strcspn_app_free set a b : free_of set a -> strcspn (a ++ b) set = (length a + strcspn b set)%nat.
Proof. induction 1 as [|c a Hc _ IH]; [done|]. cbn [app strcspn length]. rewrite decide_False by done. by rewrite IH. Qed.

Lemma strchr_at_app s c r : c ∉ s -> strchr_at (s ++ c :: r) c = Some (length s).
Proof.
  induction s as [|b s IH]; intros H; cbn [app strchr_at length]; [by rewrite decide_True|].
  apply not_elem_of_cons in H as [H1 H2]. rewrite decide_False by congruence. by rewrite IH.
Qed.

Lemma drop_behind {B} (x y : list B) b : drop (S (length x)) (x ++ b :: y) = y.
Proof. induction x; [done|]. cbn. done. Qed.

(** An item stripped of the spaces around it, and its value. *)
Lemma strip_item k b sep h v tail :
  hard [LBRACKET; SEMICOLON; HASH; xef] k = true -> sep ∉ SPACES -> neat k = true -> neat v = true ->
  spaces h -> spaces tail ->
  exists w, strip SPACES ((k ++ b ++ sep :: h ++ v) ++ tail) = (k ++ b) ++ sep :: w /\ strip SPACES w = v.
Proof.
  intros Hf Hsep Hnk Hnv Hh Ht. exists (strip_back SPACES (h ++ v ++ tail)).
  replace ((k ++ b ++ sep :: h ++ v) ++ tail) with ((k ++ b) ++ sep :: (h ++ v ++ tail))
    by (rewrite <- !app_assoc; cbn; by rewrite <- !app_assoc). split.
  - unfold strip. rewrite (strip_front_hard _ (_ ++ _)).
    2: { do 2 apply hard_app. destruct k; [done|]. unfold neat in Hnk.
         apply orb_true_iff in Hnk as [Hx|[Hx _]%andb_true_iff]; done. }
    by apply strip_back_cons.
  - rewrite app_assoc, strip_back_app_all by done. unfold neat in Hnv.
    apply orb_true_iff in Hnv as [Hx|[H1 H2]%andb_true_iff].
    + apply bool_decide_eq_true in Hx as ->. rewrite app_nil_r. rewrite <- (app_nil_l h), strip_back_app_all by done.
      done.
    + rewrite strip_back_hard by done. rewrite <- (app_nil_r v) at 1. apply strip_neat; [done|done|].
      unfold neat. by rewrite H1, H2, orb_true_r.
Qed.

Section reading.
Context {A : Type} (cb : A -> Z -> list byte -> list byte -> list byte -> Z * A).

(** What one line does. *)
Definition line_effect (l : ini_text) (line : Z) (section key : list byte) (arg : A)
  : Z * A + list byte * list byte * A :=
  match l with
  | section_line name _ => inr (name, [], arg)
  | item_line k _ _ _ value _ =>
      let '(rc, arg) := cb arg line section k value in
      if rc =? 0 then inr (section, strncpy_255 k, arg) else inl (line, arg)
  | _ => inr (section, key, arg)
  end.

Lemma section_effect name note tail o line section key arg :
  line_ok (section_line name note) -> spaces tail -> o = O \/ key = [] ->
  ini_head cb line section key (mk_span o (strip SPACES (bare (section_line name note) ++ tail))) arg
  = inr (name, [], arg).
Proof.
  intros [_ _ (Hn & Hlen & _)] Ht Ho. change (bare _ ++ tail) with ([] ++ bare (section_line name note) ++ tail).
  rewrite strip_neat; [|done|done|].
  2: { unfold neat, bare. apply orb_true_iff. right. rewrite reverse_cons, reverse_app. cbn. done. }
  unfold ini_head. cbn [txt off bare]. rewrite (if_false (_ && _)).
  2: { destruct Ho as [->| ->]; [done|]. rewrite andb_false_r. done. }
  rewrite decide_True by done. change (LBRACKET :: name ++ [RBRACKET]) with ((LBRACKET :: name) ++ [RBRACKET]).
  rewrite strchr_at_app by (apply not_elem_of_cons; by split). rewrite take_app_length. cbn [drop]. unfold strncpy_255.
  by rewrite drop_0, take_ge.
Qed.

Lemma item_effect k b sep h v note tail o line section key arg :
  line_ok (item_line k b sep h v note) -> spaces tail -> o = O \/ key = [] ->
  ini_head cb line section key (mk_span o (strip SPACES (bare (item_line k b sep h v note) ++ tail))) arg
  = line_effect (item_line k b sep h v note) line section key arg.
Proof.
  intros [_ _ (Hsep & Hk & Hf & Hnk & Hnv & Hb & Hh & _)] Ht Ho. cbn [bare].
  destruct (strip_item k b sep h v tail) as (w & -> & Hw); try done; [by apply sep_not_space|].
  assert (He : strcspn ((k ++ b) ++ sep :: w) [EQUALS; COLON] = length (k ++ b)).
  { rewrite strcspn_app_free by (apply Forall_app; split; [done|by apply spaces_free]). cbn [strcspn].
    rewrite decide_True by done. lia. }
  unfold ini_head. cbn [txt off]. destruct k as [|c k]; [done|]. rewrite He.
  cbn [app]. rewrite (if_false (_ && _)) by (destruct Ho as [->| ->]; [done|by rewrite andb_false_r]).
  apply bool_decide_eq_true in Hf. rewrite decide_False by (intros ->; apply Hf; concrete).
  change (c :: (k ++ b) ++ sep :: w) with ((c :: k ++ b) ++ sep :: w).
  rewrite decide_False by (rewrite length_app; cbn [length]; lia).
  rewrite take_app_length, !txt_trim, drop_behind, Hw. change (c :: k ++ b) with ([] ++ (c :: k) ++ b). rewrite strip_neat by done.
  cbn [line_effect]. by destruct (cb _ _ _ _ _).
Qed.

Lemma trim_space_hard o x : hard SPACES x = true -> trim_space (mk_span o x) = mk_span o (strip SPACES x).
Proof.
  intros Hx. rewrite <- (txt_trim o x). unfold trim_space. cbn [txt off].
  assert (strspn x SPACES = O) as ->; [|by rewrite Nat.add_0_r].
  destruct x as [|b x]; [done|]. apply bool_decide_eq_true in Hx. cbn [strspn]. by rewrite decide_False.
Qed.

(** The end of a line as [next_line] leaves it. *)
Definition line_end (tail : list byte) : Prop := tail = [] \/ tail = [x0a].

Lemma line_end_spaces tail : line_end tail -> spaces tail.
Proof. intros [->| ->]; repeat constructor. Qed.

Lemma cut_comment_note x mark s : cut_comment x = x -> mark ∈ [SEMICOLON; HASH] -> cut_comment (x ++ SPACE :: mark :: s) = x ++ [SPACE].
Proof.
  intros Hx Hm. revert Hx. induction x as [|c x IH]; intros Hx.
  { cbn [app cut_comment]. rewrite decide_True by done. by rewrite decide_True. }
  cbn [app cut_comment] in *. case_decide.
  - destruct x as [|d x]; [subst c; cbn [app]; rewrite decide_False by (intros H; revert H; concrete); f_equal; by apply IH|].
    cbn [app] in *. case_decide; [done|]. injection Hx as Hx. f_equal. by apply IH.
  - injection Hx as Hx. f_equal. by apply IH.
Qed.

(** Of sections and items [trim_comment] takes the comment behind them. *)
Lemma trim_comment_note o x note tail :
  hard [SEMICOLON; HASH] x = true -> cut_comment x = x -> note_ok note -> line_end tail ->
  exists rest, spaces rest /\ trim_comment (mk_span o (x ++ note ++ tail)) = mk_span o (x ++ rest).
Proof.
  intros Hx Hc Hn Ht. unfold trim_comment. cbn [txt off].
  assert (Hr : exists rest, spaces rest /\ cut_comment (x ++ note ++ tail) = x ++ rest).
  { destruct note as [|c [|mark s]]; [|done|destruct Hn as [-> Hm]].
    - exists tail. split; [by apply line_end_spaces|]. cbn [app].
      destruct Ht as [->| ->]; [by rewrite app_nil_r|by apply cut_comment_break].
    - exists [SPACE]. split; [repeat constructor|]. by apply cut_comment_note. }
  destruct Hr as (rest & Hr & E). exists rest. split; [done|].
  destruct x as [|c x]; [done|]. apply bool_decide_eq_true in Hx. cbn [app] in *. rewrite decide_False by done. by rewrite E.
Qed.

Lemma head_effect l tail o line section key arg :
  line_ok l -> line_end tail -> o = O \/ key = [] ->
  ini_head cb line section key (trim_space (trim_comment (mk_span o (render l ++ tail)))) arg
  = line_effect l line section key arg.
Proof.
  intros Hl Ht Ho. pose proof (line_end_spaces _ Ht) as Hs.
  assert (Hempty : forall x, txt x = [] -> ini_head cb line section key x arg = inr (section, key, arg))
    by (intros x Hx; unfold ini_head; by rewrite Hx).
  unfold render. destruct l as [name note|k b sep h v note|mark s|s]; cbn [note_of]; rewrite ?app_nil_r, <- ?app_assoc.
  - pose proof (lk_form _ Hl) as (_ & _ & Hc & Hn).
    destruct (trim_comment_note o (bare (section_line name note)) note tail) as (rest & Hr & ->); [done..|].
    rewrite trim_space_hard by done. by apply section_effect.
  - pose proof (lk_form _ Hl) as (Hsep & Hk & Hf & Hnk & Hnv & Hb & Hh & Hc & Hn). destruct k as [|c k]; [done|].
    assert (Hm : hard [SEMICOLON; HASH] (c :: k) = true).
    { apply bool_decide_eq_true in Hf. apply bool_decide_eq_true. intros H. apply Hf.
      apply elem_of_cons in H as [->|[->|[]%elem_of_nil]%elem_of_cons]; concrete. }
    destruct (trim_comment_note o (bare (item_line (c :: k) b sep h v note)) note tail) as (rest & Hr & ->); [by apply hard_app|done..|].
    unfold neat in Hnk. apply orb_true_iff in Hnk as [Hx|[Hx _]%andb_true_iff]; [done|].
    rewrite trim_space_hard by by do 2 apply hard_app. by apply item_effect.
  - apply Hempty. pose proof (lk_form _ Hl) as Hm. cbn in Hm. unfold trim_comment. cbn [txt bare app].
    rewrite decide_True by done. done.
  - apply Hempty. pose proof (lk_form _ Hl) as Hb. cbn [bare] in *.
    assert (Hall : spaces (s ++ tail)) by by apply Forall_app.
    unfold trim_comment. cbn [txt off]. destruct (s ++ tail) as [|c x] eqn:E; [done|].
    rewrite decide_False. 2: { intros Hm. apply Forall_cons_1 in Hall as [Hc _]. by apply (mark_not_space c). }
    rewrite cut_comment_spaces by done. rewrite txt_trim, <- (app_nil_r (c :: x)).
    by apply (strip_neat _ [] []).
Qed.

Definition BOM : list byte := [xef; xbb; xbf].

Lemma line_no_bom l tail : line_ok l -> line_end tail -> starts_with BOM (render l ++ tail) = false.
Proof.
  intros Hl Ht. apply bool_decide_eq_false. intros E. pose proof (lk_form _ Hl) as Hf.
  assert (Hh : head (render l ++ tail) = Some xef) by (destruct (render l ++ tail); [done|]; cbn in E; by injection E as ->).
  assert (Hs : forall c : byte, c ∈ SPACES -> c <> xef) by (intros c Hc ->; revert Hc; concrete).
  unfold render in Hh. destruct l as [name note|k b sep h v note|mark s|s]; cbn in Hh.
  - done.
  - destruct Hf as (_ & _ & Hf & _). destruct k as [|c k]; [done|]. injection Hh as ->. done.
  - injection Hh as ->. revert Hf. concrete.
  - rewrite app_nil_r in Hh. destruct s as [|c s]; [by destruct Ht as [->| ->]|]. injection Hh as ->. apply Forall_cons_1 in Hf as [Hc _].
    by apply (Hs xef).
Qed.

Lemma ini_line_effect l tail line section key arg :
  line_ok l -> line_end tail -> ini_line cb line section key (render l ++ tail) arg = line_effect l line section key arg.
Proof.
  intros Hl Ht. unfold ini_line, trim_bom. cbn [txt off]. change [xef; xbb; xbf] with BOM.
  rewrite (line_no_bom l tail) by done. destruct (line =? 1); by apply head_effect; [..|left].
Qed.

Lemma ini_line_bom l tail section arg :
  line_ok l -> line_end tail ->
  ini_line cb 1 section [] (BOM ++ render l ++ tail) arg = line_effect l 1 section [] arg.
Proof. intros Hl Ht. unfold ini_line. by apply head_effect; [..|right]. Qed.

Context {src : Type} (next_line : src -> option (list byte * src)).

(** The lines that a source gives. *)
Fixpoint yields (from : src) (bufs : list (list byte)) : Prop :=
  match bufs with
  | [] => next_line from = None
  | buf :: bufs => exists from', next_line from = Some (buf, from') /\ yields from' bufs
  end.

Lemma loop_feed ls : forall fuel line section key arg from bufs,
  (length ls < fuel)%nat -> Forall line_ok ls -> yields from bufs ->
  Forall2 (fun l buf => exists tail, line_end tail /\ buf = render l ++ tail) ls bufs ->
  ini_loop cb next_line fuel line section key arg from = Some (feed cb (items (line + 1) section ls) arg).
Proof.
  induction ls as [|l ls IH]; intros fuel line section key arg from bufs Hfuel Hok Hy H2;
    (destruct fuel as [|fuel]; [cbn in Hfuel; lia|]); cbn [ini_loop].
  - apply Forall2_nil_inv_l in H2 as ->. cbn in Hy. by rewrite Hy.
  - apply Forall2_cons_inv_l in H2 as (buf & bufs' & (tail & Ht & ->) & H2 & ->).
    destruct Hy as (from' & -> & Hy). apply Forall_cons_1 in Hok as [Hl Hls]. rewrite ini_line_effect by done.
    cbn [length] in Hfuel. destruct l as [name note|k b sep h v note|mark s|s]; cbn [line_effect items].
    1,3,4: eapply IH; eauto; lia.
    cbn [feed]. destruct (cb arg (line + 1) section k v) as [rc arg']. destruct (rc =? 0); [|done].
    eapply IH; eauto; lia.
Qed.

(** With the mark of an UTF-8 file in front of the first line, or without. *)
Lemma parse_feed (bom : bool) ls fuel arg from bufs :
  (length ls < fuel)%nat -> Forall line_ok ls ->
  yields from (match bufs with [] => [] | buf :: bufs => ((if bom then BOM else []) ++ buf) :: bufs end) ->
  Forall2 (fun l buf => exists tail, line_end tail /\ buf = render l ++ tail) ls bufs ->
  sc_ini_parse cb next_line fuel arg from = Some (feed cb (items 1 [] ls) arg).
Proof.
  intros Hfuel Hok Hy H2. unfold sc_ini_parse. destruct bom; [|by destruct bufs; eapply loop_feed].
  destruct H2 as [|l buf ls bufs (tail & Ht & ->) H2]; [by eapply loop_feed|].
  destruct fuel as [|fuel]; [cbn in Hfuel; lia|]. cbn [ini_loop length] in *.
  destruct Hy as (from' & -> & Hy). apply Forall_cons_1 in Hok as [Hl Hls].
  change (0 + 1) with 1. rewrite ini_line_bom by done.
  destruct l as [name note|k b sep h v note|mark s|s]; cbn [line_effect items].
  1,3,4: eapply loop_feed; eauto; lia.
  cbn [feed]. destruct (cb arg 1 [] k v) as [rc arg']. destruct (rc =? 0); [|done].
  eapply loop_feed; eauto; lia.
Qed.
End reading.

(** ** Files and strings *)

(** The lines of a file, the first behind the mark if there is one, and its bytes. *)
Definition with_bom {B} (mark : list B) (bufs : list (list B)) : list (list B) :=
  match bufs with [] => [] | buf :: bufs => (mark ++ buf) :: bufs end.

Definition ini_bytes (bom : bool) (ls : list ini_text) : list byte :=
  concat (map (fun buf => buf ++ [x0a]) (with_bom (if bom then BOM else []) (map render ls))).

Definition short_line (buf : list byte) : Prop := free_of [x00; x0a] buf /\ (length buf <= 1021)%nat.

Lemma cstring_free s : free_of [x00; x0a] s -> cstring (s ++ [x0a]) = s ++ [x0a].
Proof.
  intros H. apply cstring_id. apply Forall_app. split; [|by repeat constructor].
  eapply Forall_impl; [exact H|]. intros c Hc ->. apply Hc. by left.
Qed.

Lemma line_break_at buf rest : free_of [x00; x0a] buf -> strcspn (buf ++ x0a :: rest) [x0a] = length buf.
Proof.
  intros H. rewrite strcspn_app_free; [cbn [strcspn]; rewrite decide_True by (by left); lia|]. eapply Forall_impl; [exact H|]. intros c Hc Hin. apply Hc. by right.
Qed.

Lemma file_line_yields bufs :
  Forall short_line bufs ->
  yields file_line (concat (map (fun buf => buf ++ [x0a]) bufs)) (map (fun buf => buf ++ [x0a]) bufs).
Proof.
  induction 1 as [|buf bufs [Hf Hl] _ IH]; [done|]. cbn [map concat yields].
  set (rest := concat _) in *. exists rest. split; [|done]. unfold file_line, fgets.
  rewrite <- app_assoc. cbn [app]. destruct (buf ++ x0a :: rest) as [|c x] eqn:E; [by destruct buf|].
  rewrite <- E. rewrite line_break_at by done. rewrite Nat.min_r by (unfold SC_INI_MAX_LINE_LEN; lia).
  rewrite drop_behind. replace (buf ++ x0a :: rest) with ((buf ++ [x0a]) ++ rest) by by rewrite <- app_assoc.
  rewrite take_app_length' by (rewrite length_app; cbn; lia). by rewrite cstring_free.
Qed.

Lemma string_line_yields bufs :
  Forall short_line bufs ->
  yields string_line (Some (concat (map (fun buf => buf ++ [x0a]) bufs))) bufs.
Proof.
  induction 1 as [|buf bufs [Hf Hl] _ IH]; [done|]. cbn [map concat yields].
  set (rest := concat _) in *. exists (Some rest). split; [|done]. unfold string_line.
  rewrite <- app_assoc. cbn [app]. destruct (buf ++ x0a :: rest) as [|c x] eqn:E; [by destruct buf|].
  rewrite <- E. rewrite line_break_at by done. rewrite Nat.min_l by (unfold SC_INI_MAX_LINE_LEN; lia).
  rewrite drop_behind, take_app_length. rewrite decide_False; [done|]. rewrite length_app. cbn. lia.
Qed.

Lemma short_lines (bom : bool) ls :
  Forall line_ok ls -> Forall short_line (with_bom (if bom then BOM else []) (map render ls)).
Proof.
  assert (H : forall l, line_ok l -> short_line (render l)) by (intros l [H1 H2 _]; split; [done|lia]).
  intros Hok. destruct Hok as [|l ls Hl Hls]; [constructor|]. cbn [map with_bom]. constructor.
  - destruct Hl as [H1 H2 _]. unfold short_line. rewrite length_app. split; [apply Forall_app; split; [|done]|destruct bom; cbn; lia].
    destruct bom; [|done]. repeat (constructor; [concrete|]). done.
  - apply Forall_map. eapply Forall_impl; [exact Hls|]. exact H.
Qed.

Lemma lines_fuel (bom : bool) ls : (length ls <= length (ini_bytes bom ls))%nat.
Proof.
  unfold ini_bytes. rewrite <- (length_map render ls).
  assert (H : forall bufs, (length bufs <= length (concat (map (fun buf => buf ++ [x0a]) bufs)))%nat).
  { induction bufs as [|b bufs IH]; cbn; [lia|]. rewrite !length_app. cbn. lia. }
  etrans; [|apply H]. by destruct (map render ls).
Qed.

Lemma rendered tail ls :
  line_end tail ->
  Forall2 (fun l buf => exists tail, line_end tail /\ buf = render l ++ tail) ls (map (fun l => render l ++ tail) ls).
Proof. intros Ht. induction ls; constructor; eauto. Qed.

Section roundtrip.
Context {A : Type} (cb : A -> Z -> list byte -> list byte -> list byte -> Z * A).

Lemma parse_file_feed (bom : bool) ls error arg :
  Forall line_ok ls ->
  sc_ini_parse_file cb arg (contents (ini_bytes bom ls) error) =
    (let '(rc, arg) := feed cb (items 1 [] ls) arg in Some (if rc =? 0 then if error then -1 else 0 else rc, arg)).
Proof.
  intros Hok. unfold sc_ini_parse_file.
  rewrite (parse_feed cb file_line bom ls _ arg _ (map (fun l => render l ++ [x0a]) ls)).
  - by destruct (feed _ _ _).
  - pose proof (lines_fuel bom ls). lia.
  - done.
  - pose proof (file_line_yields _ (short_lines bom ls Hok)) as H. unfold ini_bytes.
    destruct ls as [|l ls]; [done|]. cbn [map with_bom] in *. rewrite app_assoc.
    rewrite (map_map render) in H |- *. exact H.
  - apply rendered. by right.
Qed.

Lemma parse_string_feed (bom : bool) ls arg :
  Forall line_ok ls -> sc_ini_parse_string cb arg (ini_bytes bom ls) = Some (feed cb (items 1 [] ls) arg).
Proof.
  intros Hok. unfold sc_ini_parse_string. apply (parse_feed cb string_line bom ls _ arg _ (map render ls)).
  - pose proof (lines_fuel bom ls). lia.
  - done.
  - apply (string_line_yields _ (short_lines bom ls Hok)).
  - clear. induction ls; constructor; [|done]. exists []. split; [by left|by rewrite app_nil_r].
Qed.
End roundtrip.

(** ** Settings *)

(** A value as the program uses it. *)
Inductive setting := CText (s : list byte) | CFlag (b : bool) | CInt (z : Z).

Definition conf_get (c : conf) (i : conf_index) : option setting :=
  match i with
  | CONF_NODE_NODE_NAME => Some (CText (node_name c))
  | CONF_NODE_BIND_URL => Some (CText (node_bind_url c))
  | CONF_NODE_ADVERTISE_URL => Some (CText (node_ad_url c))
  | CONF_NODE_SOURCE_ADDR => Some (CText (node_source_addr c))
  | CONF_NODE_SOURCE_PORT => Some (CText (node_source_port c))
  | CONF_NODE_LOG_LEVEL => Some (CText (node_log_level c))
  | CONF_NODE_LOG_DESTINATION => Some (CText (node_log_dest c))
  | CONF_NODE_DIRECTORY => Some (CText (node_dir c))
  | CONF_NODE_IN_MEMORY => Some (CFlag (node_in_memory c))
  | CONF_CLUSTER_NAME => Some (CText (cluster_name c))
  | CONF_CLUSTER_NODES => Some (CText (cluster_nodes c))
  | CONF_ADVANCED_HEARTBEAT => Some (CInt (advanced_heartbeat c))
  | CONF_ADVANCED_FSYNC => Some (CFlag (advanced_fsync c))
  | CONF_CMDLINE_CONF_FILE => Some (CText (cmdline_config_file c))
  | CONF_CMDLINE_SYSTEMD => Some (CFlag (cmdline_systemd c))
  | CONf_CMDLINE_BACKUP => Some (CFlag (cmdline_backup c))
  | CONF_INVALID => None
  end.

(** What the text of a value means for a setting that the file can change; [None] is a value
    that is refused. *)
Definition meaning (i : conf_index) (v : list byte) : option setting :=
  match i with
  | CONF_NODE_NODE_NAME | CONF_NODE_BIND_URL | CONF_NODE_ADVERTISE_URL | CONF_NODE_SOURCE_ADDR
  | CONF_NODE_SOURCE_PORT | CONF_NODE_LOG_DESTINATION | CONF_NODE_LOG_LEVEL | CONF_NODE_DIRECTORY
  | CONF_CLUSTER_NAME | CONF_CLUSTER_NODES =>
      if decide (no_nul v /\ zlen v <= SC_STR_MAX) then Some (CText v) else None
  | CONF_NODE_IN_MEMORY | CONF_ADVANCED_FSYNC =>
      if same_nocase v (text "true") then Some (CFlag true)
      else if same_nocase v (text "false") then Some (CFlag false) else None
  | CONF_ADVANCED_HEARTBEAT =>
      let '(errno, val, parsed) := strtoll v in
      if errno || bool_decide (parsed = O) then None else Some (CInt (u64 val))
  | _ => None
  end.

Lemma set_str_ok old v : no_nul v -> zlen v <= SC_STR_MAX -> set_str old v = v.
Proof.
  intros Hn Hz. unfold set_str. destruct (create_is v Hn Hz) as (s & -> & Hs). by apply chars_is.
Qed.

(** A value that means something changes its setting and no other. *)
Lemma conf_add_spec c section key v x :
  meaning (conf_find section key) v = Some x ->
  exists c', conf_add c section key v = (None, c') /\
    forall j, conf_get c' j = if decide (j = conf_find section key) then Some x else conf_get c j.
Proof.
  unfold conf_add. generalize (conf_find section key). intros i Hx. destruct c, i; cbn [meaning] in Hx; try done.
  all: try (destruct (decide (no_nul v /\ _)) as [[Hn Hz]|]; [|done]; injection Hx as <-; eexists; split; [done|];
    intros j; destruct j; cbn; rewrite ?set_str_ok by done; done).
  1,3: destruct (same_nocase v (text "true")); [|destruct (same_nocase v (text "false")); [|done]];
    injection Hx as <-; eexists; (split; [done|]); intros j; by destruct j.
  destruct (strtoll v) as [[errno val] parsed]. destruct (errno || _); [done|]. injection Hx as <-.
  eexists. split; [done|]. intros j. by destruct j.
Qed.

(** The last assignment decides. *)
Definition assigned (l : list (conf_index * list byte)) (i : conf_index) (x : option setting) : option setting :=
  foldl (fun x '(j, v) => if decide (i = j) then meaning j v else x) x l.

Abbreviation meaningful l := (Forall (fun '(i, v) => is_Some (meaning i v)) l).

Definition file_settings (ls : list ini_text) : list (conf_index * list byte) :=
  map (fun '(_, section, key, value) => (conf_find section key, value)) (items 1 [] ls).

Lemma feed_settings its : forall c,
  meaningful (map (fun '(_, section, key, value) => (conf_find section key, value)) its) ->
  exists c', feed conf_on_item its c = (0, c') /\
    forall i, conf_get c' i =
      assigned (map (fun '(_, section, key, value) => (conf_find section key, value)) its) i (conf_get c i).
Proof.
  induction its as [|[[[line section] key] v] its IH]; intros c Hm; [by exists c|].
  cbn [map] in *. apply Forall_cons_1 in Hm as [[x Hx] Hm]. destruct (conf_add_spec c _ _ _ _ Hx) as (c1 & E & H1).
  destruct (IH c1 Hm) as (c' & E' & H'). exists c'. cbn [feed]. unfold conf_on_item at 1. rewrite E. split; [done|].
  intros i. rewrite H', H1. unfold assigned at 2. cbn [foldl]. rewrite Hx. done.
Qed.

(** An option of the command line for a setting. *)
Definition option_text (i : conf_index) (v : list byte) : list byte :=
  match find (fun '(j, _, _) => bool_decide (j = i)) conf_list with
  | None => []
  | Some (_, section, key) => text "--" ++ section ++ text "-" ++ key ++ text "=" ++ v
  end.

Lemma option_text_spec c i v x :
  meaning i v = Some x ->
  config_path [option_text i v] = None /\
  exists c', conf_arg c (option_text i v) = configured c' /\
    forall j, conf_get c' j = if decide (j = i) then Some x else conf_get c j.
Proof.
  intros Hx.
  assert (H : exists section key, conf_find (text section) (text key) = i /\ config_path [option_text i v] = None /\
    conf_arg c (option_text i v) =
      (let '(err, c) := conf_add c (text section) (text key) v in if decide (err = None) then configured c else exits 1)).
  { destruct i; try done.
    - by exists "node"%string, "name"%string.
    - by exists "node"%string, "bind-url"%string.
    - by exists "node"%string, "advertise-url"%string.
    - by exists "node"%string, "source-addr"%string.
    - by exists "node"%string, "source-port"%string.
    - by exists "node"%string, "log-level"%string.
    - by exists "node"%string, "log-destination"%string.
    - by exists "node"%string, "directory"%string.
    - by exists "node"%string, "in-memory"%string.
    - by exists "cluster"%string, "name"%string.
    - by exists "cluster"%string, "nodes"%string.
    - by exists "advanced"%string, "heartbeat"%string.
    - by exists "advanced"%string, "fsync"%string. }
  destruct H as (section & key & Hi & Hp & ->). split; [done|].
  destruct (conf_add_spec c (text section) (text key) v x) as (c' & -> & Hc); [by rewrite Hi|].
  exists c'. split; [done|]. intros j. by rewrite Hc, Hi.
Qed.

Lemma args_settings args : forall c,
  meaningful args ->
  config_path (map (fun '(i, v) => option_text i v) args) = None /\
  exists c', conf_args c (map (fun '(i, v) => option_text i v) args) = configured c' /\
    forall i, conf_get c' i = assigned args i (conf_get c i).
Proof.
  induction args as [|[i v] args IH]; intros c Hm; [split; [done|]; by exists c|].
  apply Forall_cons_1 in Hm as [[x Hx] Hm]. destruct (option_text_spec c i v x Hx) as (Hp & c1 & E & H1).
  destruct (IH c1 Hm) as (Hps & c' & E' & H'). cbn [map]. split.
  - cbn [config_path] in *. destruct (starts_with (text "-c=") _); [done|].
    by destruct (starts_with (text "--config=") _).
  - exists c'. cbn [conf_args]. rewrite E. split; [done|]. intros j. rewrite H', H1. unfold assigned at 2. cbn [foldl].
    by rewrite Hx.
Qed.

(** The path of the file cannot be assigned. *)
Lemma assigned_path l path :
  meaningful l -> assigned l CONF_CMDLINE_CONF_FILE (Some (CText path)) = Some (CText path).
Proof.
  induction l as [|[j v] l IH] using rev_ind; [done|]. intros [Hl [[x Hx] _]%Forall_cons_1]%Forall_app.
  unfold assigned in *. rewrite foldl_app, IH by done. cbn. by destruct j.
Qed.


Definition demo_lines : list ini_text :=
  [comment_line HASH (text " a node"); section_line (text "node") (text " ; this one");
   item_line (text "name") [SPACE] EQUALS [SPACE] (text "n1") (text " # not n0");
   item_line (text "in-memory") [] COLON [x09] (text "FALSE") []; blank_line [SPACE]; section_line (text "ADVANCED") [];
   item_line (text "heartbeat") [SPACE] EQUALS [SPACE] (text "2000") []].

Lemma demo_lines_ok : Forall line_ok demo_lines.
Proof.
  unfold demo_lines. repeat constructor; try concrete; try (vm_compute; reflexivity).
Qed.


(** ** Where the parser surprises *)

(** A comment that is indented with a tab is taken for another value of the setting above it. *)
Lemma tab_comment_is_value :
  exists c', conf_read_config (fun _ => contents (text "[node]" ++ [x0a] ++ text "name = a" ++ [x0a; x09] ++ text "# note")
    false) conf_init true [] = Some (configured c') /\ node_name c' = text "# note".
Proof. eexists. split; vm_compute; reflexivity. Qed.

(** The heartbeat is read as a signed number and stored as an unsigned one. *)
Lemma negative_heartbeat c :
  exists c', conf_add c (text "advanced") (text "heartbeat") (text "-1") = (None, c') /\ advanced_heartbeat c' = UINT64_MAX.
Proof.
  destruct (conf_add_spec c (text "advanced") (text "heartbeat") (text "-1") (CInt UINT64_MAX)) as (c' & E & H);
    [by vm_compute|].
  exists c'. split; [done|]. specialize (H CONF_ADVANCED_HEARTBEAT).
  rewrite decide_True in H by (by vm_compute). cbn in H. by injection H.
Qed.

(** A line of a file that does not fit into the buffer is not cut: the rest is the next line. *)
Lemma long_line_splits x :
  free_of [x00; x0a] x -> (1022 < length x)%nat -> file_line x = Some (take 1022 x, drop 1022 x).
Proof.
  intros Hf Hl. unfold file_line, fgets. destruct x as [|c x]; [cbn in Hl; lia|]. set (y := c :: x) in *.
  assert (Hs : strcspn y [x0a] = length y).
  { rewrite <- (app_nil_r y), strcspn_app_free; [cbn [strcspn]; by rewrite app_nil_r, Nat.add_0_r|].
    eapply Forall_impl; [exact Hf|]. intros d Hd Hin. apply Hd. by right. }
  rewrite Hs, Nat.min_l by (unfold SC_INI_MAX_LINE_LEN; lia). change (SC_INI_MAX_LINE_LEN - 1 - 1)%nat with 1022%nat.
  rewrite cstring_id; [done|]. apply no_nul_take. eapply Forall_impl; [exact Hf|]. intros d Hd ->. apply Hd. by left.
Qed.
