(* ===== verification/Goresql.v ===== *)
(** * The Go client (goresql/buffer.go, goresql/client.go)

    The second client library of the repository.  A method [m] of a type [t] is [t_m]; a
    slice is its backing array from the start of the slice on, whose length is the capacity,
    and its length.  [None] is a panic or a loop that does not end.

    The result object of a client points to the response buffer of the client, so its methods
    work on both.  The blobs they return are slices of that buffer as well; the model has
    their bytes at the time of the call.  Floating point numbers are their bits.

    Connections, the clock and [url.Parse] are operations on a state of the environment.  The
    outgoing address of the configuration is left out: it is only passed on to the dialer. *)

From Stdlib Require Import ZArith Lia.
From Stdlib Require Import Strings.Byte.
From stdpp Require Import base list numbers gmap strings.
From S2P Require Import Prelude Str Uri Buf Msg Map Meta Sql Session Exec Wire Resql Client.

Definition maxInt : Z := 2 ^ 63 - 1.
Definition maxStrLen : Z := Z.shiftr (2 ^ 31 - 1) 1.
Definition nilStrLen : Z := 2 ^ 32 - 1.
Definition smallBufferSize : Z := 1024.
Definition minRead : Z := 512.

(** ** Buffers *)

Record buffer := mk_buffer {
  g_nil : bool;              (* the slice is nil *)
  g_mem : list byte;
  g_len : Z;
  g_off : Z
}.

Abbreviation g_cap b := (zlen (g_mem b)).

(** The zero value of the type. *)
Definition new_buffer : buffer := mk_buffer true [] 0 0.

Definition set_len (b : buffer) (n : Z) : buffer := mk_buffer (g_nil b) (g_mem b) n (g_off b).
Definition set_off (b : buffer) (n : Z) : buffer := mk_buffer (g_nil b) (g_mem b) (g_len b) n.
Definition set_gmem (b : buffer) (m : list byte) : buffer := mk_buffer (g_nil b) m (g_len b) (g_off b).

Definition zeros (n : Z) : list byte := replicate (Z.to_nat n) x00.

Definition goM (A : Type) : Type := buffer -> option (A * buffer).
#[export] Instance goM_ret : MRet goM := fun A a b => Some (a, b).
#[export] Instance goM_bind : MBind goM := fun A B f m b =>
  match m b with None => None | Some (a, b) => f a b end.

Definition panic {A} : goM A := fun _ => None.
Definition gets {A} (f : buffer -> A) : goM A := fun b => Some (f b, b).
Definition puts_buf (f : buffer -> buffer) : goM () := fun b => Some ((), f b).

Definition buffer_len (b : buffer) : Z := g_len b - g_off b.
Definition buffer_empty (b : buffer) : bool := g_len b <=? g_off b.
Definition buffer_reset (b : buffer) : buffer := set_off (set_len b 0) 0.

Definition tryGrowByReslice (n : Z) (b : buffer) : option (Z * buffer) :=
  if n <=? g_cap b - g_len b then Some (g_len b, set_len b (g_len b + n)) else None.

(** The end of [grow]: the unread bytes are moved to the front of [mem]. *)
Definition regrow (mem : list byte) (m n : Z) : goM Z := fun b =>
  Some (m, mk_buffer false mem (m + n) 0).

Definition buffer_grow (n : Z) : goM Z := fun b =>
  let m := buffer_len b in
  let b := if (m =? 0) && negb (g_off b =? 0) then buffer_reset b else b in
  match tryGrowByReslice n b with
  | Some r => Some r
  | None =>
      if g_nil b && (n <=? smallBufferSize) then Some (0, mk_buffer false (zeros smallBufferSize) n (g_off b))
      else if m <? 0 then None                                  (* b.buf[b.off:] *)
      else
        let c := g_cap b in
        if n <=? c / 2 - m then regrow (mwrite (g_mem b) 0 (mread (g_mem b) (g_off b) m)) m n b
        else if c >? maxInt - c - n then None
        else regrow (mread (g_mem b) (g_off b) m ++ zeros (2 * c + n - m)) m n b
  end.

(** [tryGrowByReslice], and [grow] if that fails. *)
Definition room (n : Z) : goM Z := fun b =>
  match tryGrowByReslice n b with Some r => Some r | None => buffer_grow n b end.

(** Room for [bs], and the copy. *)
Definition append_bytes (bs : list byte) : goM () :=
  m ← room (zlen bs);
  puts_buf (fun b => set_gmem b (mwrite (g_mem b) m bs)).

Definition buffer_writeUint8 (v : Z) : goM () := append_bytes (le_split 1 v).
Definition buffer_writeUint32 (v : Z) : goM () := append_bytes (le_split 4 v).
Definition buffer_writeUint64 (v : Z) : goM () := append_bytes (le_split 8 v).
Definition buffer_writeBool (v : bool) : goM () := buffer_writeUint8 (if v then 1 else 0).

Definition buffer_writeString (s : option (list byte)) : goM () :=
  match s with
  | None => buffer_writeUint32 nilStrLen
  | Some s => buffer_writeUint32 (zlen s);; append_bytes s;; buffer_writeUint8 0
  end.

Definition buffer_writeBlob (d : list byte) : goM () := buffer_writeUint32 (zlen d);; append_bytes d.

Definition buffer_reserve (n : Z) : goM () := _ ← room n; mret ().

Definition buffer_position (n : Z) : goM () := fun b =>
  if n >? g_cap b then None else Some ((), mk_buffer (g_nil b) (drop (Z.to_nat n) (g_mem b)) 0 (g_off b)).
Definition buffer_setLength (n : Z) : goM () := fun b => if n >? g_cap b then None else Some ((), set_len b n).
Definition buffer_setOffset (n : Z) : goM () := fun b => if n >? g_cap b then None else Some ((), set_off b n).

(** Little-endian integers of [n] bytes. *)
Definition buffer_peek (n : nat) : goM Z := fun b =>
  if buffer_len b <? Z.of_nat n then None else Some (le_combine (mread (g_mem b) (g_off b) (Z.of_nat n)), b).
Definition buffer_read (n : nat) : goM Z :=
  v ← buffer_peek n; puts_buf (fun b => set_off b (g_off b + Z.of_nat n));; mret v.

Definition buffer_peekUint32 : goM Z := buffer_peek 4.
Definition buffer_readUint8 : goM Z := buffer_read 1.
Definition buffer_readUint32 : goM Z := buffer_read 4.
Definition buffer_readUint64 : goM Z := buffer_read 8.

(** The sum [length + 1] is of 32 bits; [copy] takes what the buffer has. *)
Definition buffer_readString : goM (option (list byte)) :=
  length ← buffer_readUint32;
  if length =? maxStrLen then mret None
  else
    have ← gets buffer_len;
    if have <? u32 (length + 1) then panic
    else
      let n := Z.min length have in
      tmp ← gets (fun b => mread (g_mem b) (g_off b) n ++ zeros (length - n));
      puts_buf (fun b => set_off b (g_off b + n + 1));;
      mret (Some tmp).

(** A slice may reach up to the capacity. *)
Definition buffer_readBlob : goM (list byte) :=
  length ← buffer_readUint32;
  fits ← gets (fun b => g_off b + length <=? g_cap b);
  if (fits : bool) then
    s ← gets (fun b => mread (g_mem b) (g_off b) length);
    puts_buf (fun b => set_off b (g_off b + length));;
    mret s
  else panic.

(** [stringLen]; the sum is of 32 bits. *)
Definition stringLen (s : option (list byte)) : option Z :=
  match s with
  | None => Some 4
  | Some s => if zlen s >? maxStrLen then None else Some (u32 (4 + zlen s + 1))
  end.

(** ** The environment *)

Record url := mk_url { u_scheme_of : list byte; u_host_of : list byte }.

(** Times are in nanoseconds; a count of bytes comes with a flag for an error. *)
Record gonet := {
  gn_state : Type;
  now : gn_state -> Z * gn_state;
  dial_tcp : list byte -> gn_state -> bool * gn_state;
  set_deadline : gn_state -> gn_state;
  conn_write : list byte -> gn_state -> (Z * bool) * gn_state;
  conn_read : Z -> gn_state -> (list byte * bool) * gn_state;
  conn_close : gn_state -> bool * gn_state;
  url_parse : list byte -> option url
}.

(** ** The client *)

Record result := mk_gresult {
  r_lastRowId : Z;
  r_linesChanged : Z;
  r_nextResultSet : Z;
  r_rowCount : Z;
  r_remainingRows : Z;
  r_columns : Z;
  r_indexes : gmap (list byte) Z;
  r_names : list (list byte);
  r_values : list value
}.

Record go_client := mk_goclient {
  gc_name : list byte;
  gc_clusterName : list byte;
  gc_timeout : Z;
  gc_urls : list url;
  gc_urlsTerm : Z;
  gc_seq : Z;
  gc_req : buffer;
  gc_resp : buffer;
  gc_connected : bool;
  gc_hasStatement : bool;
  gc_misuse : bool;
  gc_conn : bool;            (* the field conn is not nil *)
  gc_result : result;
  gc_lastRc : Z
}.

Inductive go_error :=
| errConnFail | errClusterNameMismatch | errDiskFull | errSessionDoesNotExist
| errInvalidMessage | errTimeout | errMissingStatement | errSingleOperation
| errConn                                    (* an error of the connection *)
| errShortWrite
| errDialFail
| errServer (msg : list byte)
| errUrl
| errProtocol (scheme : list byte)
| errRange | errMismatch | errUnknownType | errNoColumn.

Definition with_urls (c : go_client) (urls : list url) (term : Z) : go_client :=
  mk_goclient (gc_name c) (gc_clusterName c) (gc_timeout c) urls term (gc_seq c) (gc_req c) (gc_resp c) (gc_connected c)
    (gc_hasStatement c) (gc_misuse c) (gc_conn c) (gc_result c) (gc_lastRc c).
Definition with_seq (c : go_client) (seq : Z) : go_client :=
  mk_goclient (gc_name c) (gc_clusterName c) (gc_timeout c) (gc_urls c) (gc_urlsTerm c) seq (gc_req c) (gc_resp c) (gc_connected c)
    (gc_hasStatement c) (gc_misuse c) (gc_conn c) (gc_result c) (gc_lastRc c).
Definition with_req (c : go_client) (b : buffer) : go_client :=
  mk_goclient (gc_name c) (gc_clusterName c) (gc_timeout c) (gc_urls c) (gc_urlsTerm c) (gc_seq c) b (gc_resp c) (gc_connected c)
    (gc_hasStatement c) (gc_misuse c) (gc_conn c) (gc_result c) (gc_lastRc c).
Definition with_resp (c : go_client) (b : buffer) : go_client :=
  mk_goclient (gc_name c) (gc_clusterName c) (gc_timeout c) (gc_urls c) (gc_urlsTerm c) (gc_seq c) (gc_req c) b (gc_connected c)
    (gc_hasStatement c) (gc_misuse c) (gc_conn c) (gc_result c) (gc_lastRc c).
Definition with_connected (c : go_client) (x : bool) : go_client :=
  mk_goclient (gc_name c) (gc_clusterName c) (gc_timeout c) (gc_urls c) (gc_urlsTerm c) (gc_seq c) (gc_req c) (gc_resp c) x
    (gc_hasStatement c) (gc_misuse c) (gc_conn c) (gc_result c) (gc_lastRc c).
Definition with_batch (c : go_client) (hasStatement misuse : bool) : go_client :=
  mk_goclient (gc_name c) (gc_clusterName c) (gc_timeout c) (gc_urls c) (gc_urlsTerm c) (gc_seq c) (gc_req c) (gc_resp c) (gc_connected c)
    hasStatement misuse (gc_conn c) (gc_result c) (gc_lastRc c).
Definition with_socket (c : go_client) (x : bool) : go_client :=
  mk_goclient (gc_name c) (gc_clusterName c) (gc_timeout c) (gc_urls c) (gc_urlsTerm c) (gc_seq c) (gc_req c) (gc_resp c) (gc_connected c)
    (gc_hasStatement c) (gc_misuse c) x (gc_result c) (gc_lastRc c).
Definition with_result (c : go_client) (r : result) : go_client :=
  mk_goclient (gc_name c) (gc_clusterName c) (gc_timeout c) (gc_urls c) (gc_urlsTerm c) (gc_seq c) (gc_req c) (gc_resp c) (gc_connected c)
    (gc_hasStatement c) (gc_misuse c) (gc_conn c) r (gc_lastRc c).
Definition with_rc (c : go_client) (rc : Z) : go_client :=
  mk_goclient (gc_name c) (gc_clusterName c) (gc_timeout c) (gc_urls c) (gc_urlsTerm c) (gc_seq c) (gc_req c) (gc_resp c) (gc_connected c)
    (gc_hasStatement c) (gc_misuse c) (gc_conn c) (gc_result c) rc.

(** ** Results *)

(** The columns of a result: their names are added to those that are there. *)
Fixpoint read_columns (n : nat) (i : Z) (indexes : gmap (list byte) Z) (names : list (list byte))
  : goM (gmap (list byte) Z * list (list byte)) :=
  match n with
  | O => mret (indexes, names)
  | S n =>
      s ← buffer_readString;
      match s with
      | None => panic
      | Some s => read_columns n (i + 1) (<[s := i]> indexes) (names ++ [s])
      end
  end.

(** [NextResultSet] behind [setOffset].  [offset] is called before [readUint32]: calls are
    made from left to right. *)
Definition next_result (r : result) : goM (bool * result) :=
  flag ← buffer_readUint8;
  if negb (flag =? MSG_FLAG_OP)
  then mret (false, mk_gresult 0 0 (r_nextResultSet r) (-1) (-1) (-1) (r_indexes r) (r_names r) (r_values r))
  else
    off ← gets g_off;
    n ← buffer_readUint32;
    lines ← buffer_readUint32;
    rowid ← buffer_readUint64;
    flag ← buffer_readUint8;
    if flag =? MSG_FLAG_ROW then
      columns ← buffer_readUint32;
      '(indexes, names) ← read_columns (Z.to_nat columns) 0 (r_indexes r) (r_names r);
      rows ← buffer_readUint32;
      mret (true, mk_gresult (to_int64 rowid) lines (off + n) rows rows columns indexes names (r_values r))
    else if negb (flag =? MSG_FLAG_OP_END) then panic
    else mret (true, mk_gresult (to_int64 rowid) lines (off + n) (-1) (-1) (-1) (r_indexes r) (r_names r) (r_values r)).

Definition result_NextResultSet (r : result) : goM (bool * result) :=
  buffer_setOffset (r_nextResultSet r);; next_result r.

Definition result_set (r : result) : goM result :=
  off ← gets g_off;
  '(_, r) ← result_NextResultSet (mk_gresult (r_lastRowId r) (r_linesChanged r) off (r_rowCount r) (r_remainingRows r)
    (r_columns r) ∅ [] []);
  mret r.

Definition read_value : goM value :=
  param ← buffer_readUint8;
  if param =? MSG_PARAM_INTEGER then v ← buffer_readUint64; mret (VInteger (to_int64 v))
  else if param =? MSG_PARAM_FLOAT then v ← buffer_readUint64; mret (VFloat v)
  else if param =? MSG_PARAM_TEXT then
    s ← buffer_readString;
    match s with None => panic | Some s => mret (VText s) end
  else if param =? MSG_PARAM_BLOB then d ← buffer_readBlob; mret (VBlob d)
  else if param =? MSG_PARAM_NULL then mret VNull
  else panic.

Fixpoint read_values (n : nat) (values : list value) : goM (list value) :=
  match n with
  | O => mret values
  | S n => v ← read_value; read_values n (values ++ [v])
  end.

(** Whether there is a row; it is the result itself. *)
Definition result_Row (r : result) : goM (bool * result) :=
  if r_remainingRows r <=? 0 then mret (false, r)
  else
    values ← read_values (Z.to_nat (r_columns r)) [];
    mret (true, mk_gresult (r_lastRowId r) (r_linesChanged r) (r_nextResultSet r) (r_rowCount r) (r_remainingRows r - 1)
      (r_columns r) (r_indexes r) (r_names r) values).

Definition result_GetIndex (r : result) (index : Z) : go_error + value :=
  if (index <? 0) || (index >=? zlen (r_values r)) then inl errRange
  else inr (nth (Z.to_nat index) (r_values r) VNull).

(** [None]: the index of the name is outside of the row. *)
Definition result_GetColumn (r : result) (param : list byte) : option (go_error + value) :=
  match r_indexes r !! param with
  | None => Some (inl errNoColumn)
  | Some v => match r_values r !! Z.to_nat v with None => None | Some x => Some (inr x) end
  end.

Definition result_ColumnName (r : result) (index : Z) : go_error + list byte :=
  if (index <? 0) || (index >=? zlen (r_names r)) then inl errRange
  else inr (nth (Z.to_nat index) (r_names r) []).

(** The types of the variables a row is read into, and what they get. *)
Inductive scan_type := NullInt32 | NullInt64 | NullString | NullFloat64 | Bytes | OtherType.
Inductive scanned := Null | Valid (v : value).

Definition to_int32 (v : Z) : Z := to_int (u32 v).

Definition scan_value (d : scan_type) (v : value) : go_error + scanned :=
  match d, v with
  | OtherType, _ => inl errUnknownType
  | _, VNull => inr Null
  | NullInt32, VInteger v => inr (Valid (VInteger (to_int32 v)))
  | NullInt64, VInteger v => inr (Valid (VInteger v))
  | NullString, VText s => inr (Valid (VText s))
  | NullFloat64, VFloat bits => inr (Valid (VFloat bits))
  | Bytes, VBlob d => inr (Valid (VBlob d))
  | _, _ => inl errMismatch
  end.

Fixpoint scan_values (ds : list scan_type) (vs : list value) : option go_error * list scanned :=
  match ds, vs with
  | d :: ds, v :: vs =>
      match scan_value d v with
      | inl e => (Some e, [])
      | inr x => let '(e, xs) := scan_values ds vs in (e, x :: xs)
      end
  | _, _ => (None, [])
  end.

(** The variables in front of an error are set. *)
Definition result_Read (r : result) (columns : list scan_type) : option go_error * list scanned :=
  if zlen columns >? zlen (r_values r) then (Some errRange, []) else scan_values columns (r_values r).

Section go.
Variable E : gonet.

(** Programs on a client and its environment. *)
Definition runsM (A : Type) : Type := go_client * gn_state E -> option (A * (go_client * gn_state E)).
#[local] Instance runsM_ret : MRet runsM := fun A a s => Some (a, s).
#[local] Instance runsM_bind : MBind runsM := fun A B f m s =>
  match m s with None => None | Some (a, s) => f a s end.

Definition crash {A} : runsM A := fun _ => None.
Definition look {A} (f : go_client -> A) : runsM A := fun s => Some (f s.1, s).
Definition change (f : go_client -> go_client) : runsM () := fun s => Some ((), (f s.1, s.2)).
Definition does {A} (f : gn_state E -> A * gn_state E) : runsM A := fun s =>
  let '(a, n) := f s.2 in Some (a, (s.1, n)).
Definition in_req {A} (m : goM A) : runsM A := fun s =>
  match m (gc_req s.1) with None => None | Some (a, b) => Some (a, (with_req s.1 b, s.2)) end.
Definition in_resp {A} (m : goM A) : runsM A := fun s =>
  match m (gc_resp s.1) with None => None | Some (a, b) => Some (a, (with_resp s.1 b, s.2)) end.

(** [b.writeTo(c.conn)] for the buffer that [at_] works on; [None] is success. *)
Definition buffer_writeTo (get : go_client -> buffer) (at_ : goM () -> runsM ()) : runsM (option go_error) :=
  b ← look get;
  let nBytes := buffer_len b in
  if nBytes >? 0 then
    '(m, e) ← does (conn_write E (mread (g_mem b) (g_off b) nBytes));
    if m >? nBytes then crash
    else
      at_ (puts_buf (fun b => set_off b (g_off b + m)));;
      if (e : bool) then mret (Some errConn)
      else if negb (m =? nBytes) then mret (Some errShortWrite) else mret None
  else mret None.

(** [c.resp.readFrom(c.conn)]; the loop of the source returns in its first turn. *)
Definition buffer_readFrom : runsM (option go_error) :=
  i ← in_resp (buffer_grow minRead);
  in_resp (puts_buf (fun b => set_len b i));;
  space ← look (fun c => g_cap (gc_resp c) - i);
  '(bs, e) ← does (conn_read E space);
  in_resp (puts_buf (fun b => set_len (set_gmem b (mwrite (g_mem b) i bs)) (i + zlen bs)));;
  mret (if (e : bool) then Some errConn else None).

Definition clientReqHeader : Z := 14.

Definition client_Clear : runsM () :=
  in_req (puts_buf buffer_reset);;
  in_req (buffer_reserve clientReqHeader);;
  change (fun c => with_batch c false false).

(** *** Messages *)

Definition connectReq : Z := 0.
Definition connectResp : Z := 1.
Definition disconnectReq : Z := 2.
Definition clientReq : Z := 4.
Definition clientResp : Z := 5.

Definition encodeConnectReq (c : go_client) : goM () :=
  match stringLen (Some (text "resql")), stringLen (Some (gc_clusterName c)), stringLen (Some (gc_name c)) with
  | Some a, Some b, Some d =>
      buffer_writeUint32 (u32 (4 + 1 + 4 + a + b + d));;
      buffer_writeUint8 connectReq;;
      buffer_writeUint32 0;;
      buffer_writeString (Some (text "resql"));;
      buffer_writeString (Some (gc_clusterName c));;
      buffer_writeString (Some (gc_name c))
  | _, _, _ => panic
  end.

Definition encodeClientReq (readonly : bool) (sequence : Z) : goM () :=
  length ← gets buffer_len;
  buffer_position 0;;
  buffer_writeUint32 (u32 length);;
  buffer_writeUint8 clientReq;;
  buffer_writeBool readonly;;
  buffer_writeUint64 sequence;;
  buffer_setLength length.

Definition encodeDisconnectReq (rc flags : Z) : goM () :=
  buffer_writeUint32 (4 + 1 + 1 + 1 + 4);;
  buffer_writeUint8 disconnectReq;;
  buffer_writeUint8 rc;;
  buffer_writeUint32 flags.

(** *** Connecting *)

(** The urls are used in turn. *)
Definition client_connectSock : runsM (option go_error) :=
  urls ← look gc_urls;
  match urls with
  | [] => crash
  | u :: rest =>
      change (fun c => with_urls c (rest ++ [u]) (gc_urlsTerm c));;
      if decide (u_scheme_of u = text "tcp") then
        ok ← does (dial_tcp E (u_host_of u));
        if (ok : bool) then change (fun c => with_socket c true);; mret None else mret (Some errConn)
      else mret (Some errDialFail)
  end.

(** The label [retry]: [send] looks at the clock in each turn, without an effect. *)
Fixpoint read_message (timed : bool) (fuel : nat) : runsM (option go_error) :=
  match fuel with
  | O => crash
  | S fuel =>
      (if timed then _ ← does (now E); mret () else mret ());;
      e ← buffer_readFrom;
      match e with
      | Some e => mret (Some e)
      | None =>
          have ← look (fun c => buffer_len (gc_resp c));
          if have <? 4 then read_message timed fuel
          else
            n ← in_resp buffer_peekUint32;
            if n >? have then read_message timed fuel else mret None
      end
  end.

Definition connect_urls (term : Z) (nodes : option (list byte)) : runsM () :=
  mine ← look gc_urlsTerm;
  if term >? mine then
    match nodes with
    | None => crash
    | Some s => change (fun c => with_urls c (omap (url_parse E) (split_on [x20] s)) term)
    end
  else mret ().

(** The response to the request, and what follows from it. *)
Definition connect_answer : runsM (option go_error) :=
  _ ← in_resp buffer_readUint32;
  id ← in_resp buffer_readUint8;
  if negb (id =? connectResp) then mret (Some errInvalidMessage)
  else
    rc ← in_resp buffer_readUint8;
    seq ← in_resp buffer_readUint64;
    term ← in_resp buffer_readUint64;
    nodes ← in_resp buffer_readString;
    connect_urls term nodes;;
    change (fun c => with_rc c rc);;
    if rc =? 0 then
      fresh ← look (fun c => buffer_empty (gc_req c));
      mine ← look gc_seq;
      if (fresh : bool) then change (fun c => with_connected (with_seq c seq) true);; client_Clear;; mret None
      else if negb (seq =? mine) && negb (seq =? u64 (mine - 1)) then
        change (fun c => with_seq c seq);; mret (Some errSessionDoesNotExist)
      else change (fun c => with_connected c true);; client_Clear;; mret None
    else if rc =? 2 then mret (Some errClusterNameMismatch)
    else if rc =? 7 then mret (Some errDiskFull)
    else mret (Some errConnFail).

Definition client_connect (fuel : nat) : runsM (option go_error) :=
  in_resp (puts_buf buffer_reset);;
  c ← look id;
  in_resp (encodeConnectReq c);;
  (if gc_conn c then _ ← does (conn_close E); change (fun c => with_socket c false) else mret ());;
  e ← client_connectSock;
  match e with
  | Some e => mret (Some e)
  | None =>
      does (fun n => ((), set_deadline E n));;
      e ← buffer_writeTo gc_resp in_resp;
      match e with
      | Some e => mret (Some e)
      | None =>
          in_resp (puts_buf buffer_reset);;
          e ← read_message false fuel;
          match e with
          | Some e => mret (Some e)
          | None => connect_answer
          end
      end
  end.

(** *** Sending *)

Definition elapsed (start t : Z) : Z := Z.quot (t - start) 1000000.

(** The response behind its length. *)
Definition send_answer : runsM (option go_error) :=
  _ ← in_resp buffer_readUint32;
  client_Clear;;
  id ← in_resp buffer_readUint8;
  if negb (id =? clientResp) then mret (Some errInvalidMessage)
  else
    rc ← in_resp buffer_readUint8;
    if negb (rc =? MSG_FLAG_OK) then
      s ← in_resp buffer_readString;
      match s with None => crash | Some s => mret (Some (errServer s)) end
    else mret None.

(** One turn of the loop once the client is connected: [None] is [continue]. *)
Definition send_connected (fuel : nat) : runsM (option (option go_error)) :=
  does (fun n => ((), set_deadline E n));;
  e ← buffer_writeTo gc_req in_req;
  match e with
  | Some _ => change (fun c => with_connected c false);; mret None
  | None =>
      in_req (buffer_setOffset 0);;
      in_resp (puts_buf buffer_reset);;
      e ← read_message true fuel;
      match e with
      | Some _ => change (fun c => with_connected c false);; mret None
      | None => r ← send_answer; mret (Some r)
      end
  end.

Fixpoint go_send_loop (rfuel fuel : nat) (start : Z) : runsM (option go_error) :=
  match fuel with
  | O => crash
  | S fuel =>
      t ← does (now E);
      timeout ← look gc_timeout;
      if elapsed start t <? timeout then
        connected ← look gc_connected;
        e ← (if (connected : bool) then mret None else client_connect rfuel);
        match e with
        | Some _ => go_send_loop rfuel fuel start
        | None =>
            r ← send_connected rfuel;
            match r with
            | None => go_send_loop rfuel fuel start
            | Some r => mret r
            end
        end
      else mret (Some errTimeout)
  end.

Definition client_send (rfuel fuel : nat) : runsM (option go_error) :=
  start ← does (now E);
  go_send_loop rfuel fuel start.

(** *** Batches *)

(** The dynamic type of a value. *)
Inductive go_value :=
| go_int (v : Z) | go_int64 (v : Z) | go_float64 (bits : Z) | go_string (s : list byte) | go_bytes (d : list byte)
| go_nil | go_other.

Definition end_statement : runsM () :=
  has ← look gc_hasStatement;
  if (has : bool) then in_req (buffer_writeUint8 MSG_BIND_END);; in_req (buffer_writeUint8 MSG_FLAG_OP_END) else mret ().

Definition client_PutStatement (sql : list byte) : runsM () :=
  end_statement;;
  change (fun c => with_batch c true (gc_misuse c));;
  in_req (buffer_writeUint8 MSG_FLAG_OP);;
  in_req (buffer_writeUint8 MSG_FLAG_STMT);;
  in_req (buffer_writeString (Some sql)).

Definition client_PutPrepared (id : Z) : runsM () :=
  end_statement;;
  change (fun c => with_batch c true (gc_misuse c));;
  in_req (buffer_writeUint8 MSG_FLAG_OP);;
  in_req (buffer_writeUint8 MSG_FLAG_STMT_ID);;
  in_req (buffer_writeUint64 id).

Definition bind_go (v : go_value) : goM () :=
  match v with
  | go_int v | go_int64 v => buffer_writeUint8 MSG_PARAM_INTEGER;; buffer_writeUint64 v
  | go_float64 bits => buffer_writeUint8 MSG_PARAM_FLOAT;; buffer_writeUint64 bits
  | go_string s => buffer_writeUint8 MSG_PARAM_TEXT;; buffer_writeString (Some s)
  | go_bytes d => buffer_writeUint8 MSG_PARAM_BLOB;; buffer_writeBlob d
  | go_nil => buffer_writeUint8 MSG_PARAM_NULL
  | go_other => panic
  end.

Definition client_BindParam (param : list byte) (val : go_value) : runsM () :=
  has ← look gc_hasStatement;
  if negb has then change (fun c => with_batch c (gc_hasStatement c) true)
  else
    in_req (buffer_writeUint8 MSG_BIND_NAME);;
    in_req (buffer_writeString (Some param));;
    in_req (bind_go val).

Definition client_BindIndex (index : Z) (val : go_value) : runsM () :=
  has ← look gc_hasStatement;
  if negb has then change (fun c => with_batch c (gc_hasStatement c) true)
  else
    in_req (buffer_writeUint8 MSG_BIND_INDEX);;
    in_req (buffer_writeUint32 index);;
    in_req (bind_go val).

(** The sequence number of the request, and its header. *)
Definition stamp (readonly : bool) : runsM () :=
  (if readonly then mret () else change (fun c => with_seq c (u64 (gc_seq c + 1))));;
  c ← look id;
  in_req (encodeClientReq readonly (gc_seq c)).

(** A request of a single operation: [inl] is an error. *)
Definition single (rfuel fuel : nat) (m : goM ()) : runsM (option go_error) :=
  has ← look gc_hasStatement;
  if (has : bool) then client_Clear;; mret (Some errSingleOperation)
  else
    in_req (buffer_writeUint8 MSG_FLAG_OP);;
    in_req m;;
    in_req (buffer_writeUint8 MSG_FLAG_OP_END);;
    in_req (buffer_writeUint8 MSG_FLAG_MSG_END);;
    stamp false;;
    e ← client_send rfuel fuel;
    match e with
    | Some e => mret (Some e)
    | None =>
        flag ← in_resp buffer_readUint8;
        if negb (flag =? MSG_FLAG_OP) then mret (Some errInvalidMessage) else mret None
    end.

Definition client_Prepare (rfuel fuel : nat) (sql : list byte) : runsM (go_error + Z) :=
  e ← single rfuel fuel (buffer_writeUint8 MSG_FLAG_STMT_PREPARE;; buffer_writeString (Some sql));
  match e with
  | Some e => mret (inl e)
  | None =>
      _ ← in_resp buffer_readUint32;
      id ← in_resp buffer_readUint64;
      mret (inr id)
  end.

Definition client_Delete (rfuel fuel : nat) (id : Z) : runsM (option go_error) :=
  single rfuel fuel (buffer_writeUint8 MSG_FLAG_STMT_DEL_PREPARED;; buffer_writeUint64 id).

(** *** Executing *)

(** The response is in the buffer, unless sending failed. *)
Definition execute_end (e : option go_error) : runsM (option go_error) :=
  match e with
  | Some e => mret (Some e)
  | None =>
      r ← look gc_result;
      r ← in_resp (result_set r);
      change (fun c => with_result c r);;
      mret None
  end.

Definition client_Execute (rfuel fuel : nat) (readonly : bool) : runsM (option go_error) :=
  c ← look id;
  if negb (gc_hasStatement c) || gc_misuse c then client_Clear;; mret (Some errMissingStatement)
  else
    in_req (buffer_writeUint8 MSG_BIND_END);;
    in_req (buffer_writeUint8 MSG_FLAG_OP_END);;
    in_req (buffer_writeUint8 MSG_FLAG_MSG_END);;
    change (fun c => with_batch c false (gc_misuse c));;
    stamp readonly;;
    e ← client_send rfuel fuel;
    execute_end e.

(** *** Creation and shutdown *)

Definition client_Shutdown : runsM (option go_error) :=
  in_resp (puts_buf buffer_reset);;
  connected ← look gc_connected;
  if negb connected then mret None
  else
    in_resp (encodeDisconnectReq 0 0);;
    ret ← buffer_writeTo gc_resp in_resp;
    ok ← does (conn_close E);
    change (fun c => with_connected c false);;
    mret (if negb ok && bool_decide (ret <> None) then Some errConn else ret).

Record Config := mk_Config {
  ClientName : list byte;
  ClusterName : list byte;
  TimeoutMillis : Z;
  Urls : option (list (list byte))
}.

Fixpoint go_parse_urls (urls : list (list byte)) : go_error + list url :=
  match urls with
  | [] => inr []
  | s :: urls =>
      match url_parse E s with
      | None => inl errUrl
      | Some u =>
          if bool_decide (u_scheme_of u = text "tcp") || bool_decide (u_scheme_of u = text "unix")
          then match go_parse_urls urls with inl e => inl e | inr us => inr (u :: us) end
          else inl (errProtocol (u_scheme_of u))
      end
  end.

Definition new_go_client (config : Config) (random : list byte) (urls : list url) : go_client :=
  mk_goclient
    (if decide (ClientName config = []) then random else ClientName config)
    (if decide (ClusterName config = []) then text "cluster" else ClusterName config)
    (if TimeoutMillis config =? 0 then 2 ^ 63 - 1 else TimeoutMillis config)
    urls 0 0 new_buffer new_buffer false false false false (mk_gresult 0 0 0 0 0 0 ∅ [] []) 0.

(** The loop; [last] is the error of the last turn. *)
Fixpoint create_loop (rfuel fuel : nat) (start : Z) (last : option go_error) : runsM (option go_error) :=
  match fuel with
  | O => crash
  | S fuel =>
      t ← does (now E);
      timeout ← look gc_timeout;
      if elapsed start t <? timeout then
        e ← client_connect rfuel;
        match e with
        | Some errClusterNameMismatch | Some errSessionDoesNotExist => mret e
        | None => mret None
        | e => create_loop rfuel fuel start e
        end
      else mret last
  end.

(** [random] is the result of [randomName]. *)
Definition Create (rfuel fuel : nat) (config : Config) (random : list byte) (n : gn_state E)
  : option ((go_error + go_client) * gn_state E) :=
  match go_parse_urls (default [text "tcp://127.0.0.1:7600"] (Urls config)) with
  | inl e => Some (inl e, n)
  | inr urls =>
      match (start ← does (now E); create_loop rfuel fuel start None) (new_go_client config random urls, n) with
      | None => None
      | Some (Some e, (_, n)) => Some (inl e, n)
      | Some (None, (c, n)) => Some (inr c, n)
      end
  end.
End go.

(** ** Reading from a buffer *)

Record gwf (b : buffer) : Prop := { gw_off : 0 <= g_off b <= g_len b; gw_len : g_len b <= g_cap b }.

(** The unread bytes. *)
Definition unread (b : buffer) : list byte := mread (g_mem b) (g_off b) (buffer_len b).

Lemma zlen_unread b : gwf b -> zlen (unread b) = buffer_len b.
Proof. intros [? ?]. unfold unread, buffer_len. apply zlen_mread; lia. Qed.

Lemma unread_prefix b bs rest :
  gwf b -> unread b = bs ++ rest -> mread (g_mem b) (g_off b) (zlen bs) = bs /\ zlen bs <= buffer_len b.
Proof.
  intros Hwf E. pose proof (zlen_unread b Hwf) as Hl. rewrite E, zlen_app in Hl. pose proof (zlen_nonneg rest).
  pose proof (zlen_nonneg bs). split; [|lia].
  apply (f_equal (take (length bs))) in E. rewrite take_app_length in E. unfold unread, mread in E.
  rewrite take_take in E. etrans; [|exact E]. unfold mread. f_equal. unfold zlen in *. lia.
Qed.

Lemma unread_skip b bs rest :
  gwf b -> unread b = bs ++ rest -> gwf (set_off b (g_off b + zlen bs)) /\ unread (set_off b (g_off b + zlen bs)) = rest.
Proof.
  intros Hwf E. destruct (unread_prefix b bs rest Hwf E) as [_ Hl]. pose proof Hwf as [? ?]. pose proof (zlen_nonneg bs).
  unfold buffer_len in Hl. split; [split; cbn; lia|].
  apply (f_equal (drop (length bs))) in E. rewrite drop_app_length in E. rewrite <- E. unfold unread, mread, buffer_len. cbn.
  rewrite skipn_firstn_comm, drop_drop. unfold zlen in *. f_equal; [lia|]. f_equal. lia.
Qed.

(** A reader of [bs] that returns [a]. *)
Definition gtakes {A} (m : goM A) (bs : list byte) (a : A) : Prop :=
  forall b rest, gwf b -> unread b = bs ++ rest -> m b = Some (a, set_off b (g_off b + zlen bs)).

Lemma gtakes_bind {A B} (m : goM A) (f : A -> goM B) xs ys a c :
  gtakes m xs a -> gtakes (f a) ys c -> gtakes (m ≫= f) (xs ++ ys) c.
Proof.
  intros Hm Hf b rest Hwf E. rewrite <- app_assoc in E. unfold mbind, goM_bind. rewrite (Hm b _ Hwf E).
  destruct (unread_skip _ _ _ Hwf E) as [Hwf' E']. rewrite (Hf _ _ Hwf' E'). rewrite zlen_app. cbn. by rewrite Z.add_assoc.
Qed.

Lemma gtakes_ret {A} (a : A) : gtakes (mret a) [] a.
Proof. intros b rest Hwf E. unfold mret, goM_ret. change (zlen []) with 0. rewrite Z.add_0_r. by destruct b. Qed.

Lemma gtakes_map {A B} (m : goM A) (f : A -> B) bs a : gtakes m bs a -> gtakes (x ← m; mret (f x)) bs (f a).
Proof. intros H. rewrite <- (app_nil_r bs). eapply gtakes_bind; [exact H|apply gtakes_ret]. Qed.

Lemma gtakes_int n v : gtakes (buffer_read n) (le_split n v) (v mod 2 ^ (8 * Z.of_nat n)).
Proof.
  intros b rest Hwf E. destruct (unread_prefix b _ _ Hwf E) as [Hm Hl]. rewrite zlen_le_split in *.
  unfold buffer_read, buffer_peek, mbind, goM_bind, puts_buf, mret, goM_ret.
  rewrite (proj2 (Z.ltb_ge _ _)) by lia. by rewrite Hm, le_combine_split.
Qed.

Lemma gtakes_int_small n v : 0 <= v < 2 ^ (8 * Z.of_nat n) -> gtakes (buffer_read n) (le_split n v) v.
Proof. intros Hv. pose proof (gtakes_int n v) as H. by rewrite Z.mod_small in H. Qed.

Lemma gtakes_flag f : is_u8 f -> gtakes buffer_readUint8 (enc_flag f) f.
Proof. apply (gtakes_int_small 1). Qed.

Lemma mread_without_nul m pos a bs : 0 <= a -> mread m pos (a + 1) = bs ++ [x00] -> zlen bs = a -> mread m pos a = bs.
Proof.
  intros Ha E Hl. apply (f_equal (take (length bs))) in E. rewrite take_app_length in E. unfold mread in *.
  rewrite take_take in E. rewrite <- E. f_equal. unfold zlen in Hl. lia.
Qed.

Lemma gtakes_string s : zlen s < 2 ^ 30 - 1 -> gtakes buffer_readString (enc_str (Some s)) (Some s).
Proof.
  intros Hs b rest Hwf E. pose proof (zlen_nonneg s). cbn [enc_str] in E. rewrite <- app_assoc in E.
  unfold buffer_readString, buffer_readUint32, mbind, goM_bind.
  rewrite (gtakes_int_small 4 (zlen s)) with (rest := (s ++ [x00]) ++ rest); [|simpl; lia|done|exact E].
  destruct (unread_skip _ _ _ Hwf E) as [Hwf1 E1]. rewrite zlen_le_split in *. change (Z.of_nat 4) with 4 in *.
  set (b1 := set_off b (g_off b + 4)) in *. destruct (unread_prefix b1 _ _ Hwf1 E1) as [Hm Hl]. rewrite zlen_app in *.
  change (zlen [x00]) with 1 in *.
  rewrite (proj2 (Z.eqb_neq (zlen s) maxStrLen)) by (change maxStrLen with (2 ^ 30 - 1); lia).
  unfold gets. rewrite u32_small by lia. rewrite (proj2 (Z.ltb_ge _ _)) by lia.
  rewrite Z.min_l by lia. rewrite (mread_without_nul _ _ (zlen s) s) by (done || lia).
  rewrite Z.sub_diag. unfold zeros. cbn [Z.to_nat replicate]. rewrite app_nil_r.
  assert (Hz : zlen (enc_str (Some s)) = 4 + (zlen s + 1)) by (cbn [enc_str]; by rewrite !zlen_app, zlen_le_split).
  rewrite Hz. unfold puts_buf, mret, goM_ret, b1, set_off. cbn [g_nil g_mem g_len g_off]. do 3 f_equal. lia.
Qed.

Lemma gtakes_blob d : zlen d < 2 ^ 31 -> gtakes buffer_readBlob (le_split 4 (zlen d) ++ d) d.
Proof.
  intros Hd b rest Hwf E. pose proof (zlen_nonneg d). rewrite <- app_assoc in E.
  unfold buffer_readBlob, buffer_readUint32, mbind, goM_bind.
  rewrite (gtakes_int_small 4 (zlen d)) with (rest := d ++ rest); [|simpl; lia|done|done].
  destruct (unread_skip _ _ _ Hwf E) as [Hwf1 E1]. rewrite zlen_le_split in *. change (Z.of_nat 4) with 4 in *.
  set (b1 := set_off b (g_off b + 4)) in *. destruct (unread_prefix b1 _ _ Hwf1 E1) as [Hm Hl].
  unfold gets. pose proof Hwf1 as [? ?]. unfold buffer_len in Hl. rewrite (proj2 (Z.leb_le _ _)) by lia.
  rewrite zlen_app, zlen_le_split. unfold puts_buf, mret, goM_ret. rewrite Hm. unfold b1, set_off.
  cbn [g_nil g_mem g_len g_off]. do 3 f_equal. lia.
Qed.

(** A reader at the offset [p]. *)
Definition gtakes_at {A} (m : goM A) (p : Z) (bs : list byte) (a : A) : Prop :=
  forall b rest, gwf b -> g_off b = p -> unread b = bs ++ rest -> m b = Some (a, set_off b (p + zlen bs)).

Lemma gtakes_any {A} (m : goM A) p bs a : gtakes m bs a -> gtakes_at m p bs a.
Proof. intros H b rest Hwf <- E. by apply (H b rest). Qed.

Lemma gtakes_at_bind {A B} (m : goM A) (f : A -> goM B) p xs ys a c :
  gtakes m xs a -> gtakes_at (f a) (p + zlen xs) ys c -> gtakes_at (m ≫= f) p (xs ++ ys) c.
Proof.
  intros Hm Hf b rest Hwf <- E. rewrite <- app_assoc in E. unfold mbind, goM_bind. rewrite (Hm b _ Hwf E).
  destruct (unread_skip _ _ _ Hwf E) as [Hwf' E']. rewrite (Hf _ _ Hwf' eq_refl E'). rewrite zlen_app.
  unfold set_off. cbn. by rewrite Z.add_assoc.
Qed.

Lemma gtakes_at_off {B} (f : Z -> goM B) p ys c : gtakes_at (f p) p ys c -> gtakes_at (off ← gets g_off; f off) p ys c.
Proof. intros Hf b rest Hwf Hp E. unfold mbind, goM_bind, gets. rewrite Hp. by apply (Hf b rest). Qed.

(** *** Values and columns *)

(** A string that [readString] does not take for nil. *)
Definition go_short (v : value) : Prop := match v with VText s => zlen s < maxStrLen | _ => True end.

Lemma gtakes_value v : value_ok v -> go_short v -> gtakes read_value (enc_value v) v.
Proof.
  intros Hv Hs. unfold read_value.
  assert (H : forall f ys r (g : Z -> goM value), is_u8 f -> gtakes (g f) ys r ->
    gtakes (param ← buffer_readUint8; g param) (enc_flag f ++ ys) r).
  { intros f ys r g Hf Hg. eapply gtakes_bind; [by apply gtakes_flag|exact Hg]. }
  destruct v as [v|bits|s|d|]; cbn [enc_value value_ok go_short] in *;
    unfold MSG_PARAM_INTEGER, MSG_PARAM_FLOAT, MSG_PARAM_TEXT, MSG_PARAM_BLOB, MSG_PARAM_NULL.
  - apply H; [done|]. zif. rewrite <- (to_int64_mod v Hv) at 2.
    apply (gtakes_map (buffer_read 8) (fun v => VInteger (to_int64 v))), gtakes_int.
  - apply H; [done|]. zif. by apply (gtakes_map (buffer_read 8) VFloat), gtakes_int_small.
  - apply H; [done|]. zif. rewrite <- (app_nil_r (enc_str _)). eapply gtakes_bind; [by apply gtakes_string|apply gtakes_ret].
  - apply H; [done|]. zif. by apply (gtakes_map buffer_readBlob VBlob), gtakes_blob.
  - rewrite <- (app_nil_r (enc_flag _)). apply H; [done|]. zif. apply gtakes_ret.
Qed.

Definition go_row_ok (n : nat) (row : list value) : Prop := row_ok n row /\ Forall go_short row.

Lemma gtakes_values vs : Forall value_ok vs -> Forall go_short vs -> forall acc,
  gtakes (read_values (length vs) acc) (enc_row vs) (acc ++ vs).
Proof.
  induction vs as [|v vs IH]; intros Hok Hs acc; cbn [length read_values].
  - rewrite app_nil_r. apply gtakes_ret.
  - apply Forall_cons in Hok as [Hv Hok]. apply Forall_cons in Hs as [Hsv Hs].
    unfold enc_row. cbn [map concat]. eapply gtakes_bind; [by apply gtakes_value|].
    replace (acc ++ v :: vs) with ((acc ++ [v]) ++ vs) by by rewrite <- app_assoc. by apply IH.
Qed.

Lemma gtakes_columns ns : Forall (fun s => zlen s < maxStrLen) ns -> forall i indexes names,
  exists indexes', gtakes (read_columns (length ns) i indexes names) (concat (map enc_str (map Some ns))) (indexes', names ++ ns).
Proof.
  induction ns as [|s ns IH]; intros Hok i indexes names; cbn [length read_columns].
  - exists indexes. rewrite app_nil_r. apply gtakes_ret.
  - apply Forall_cons in Hok as [Hs Hok]. destruct (IH Hok (i + 1) (<[s := i]> indexes) (names ++ [s])) as [indexes' H].
    exists indexes'. cbn [map concat]. eapply gtakes_bind; [by apply gtakes_string|].
    replace (names ++ s :: ns) with ((names ++ [s]) ++ ns) by by rewrite <- app_assoc. exact H.
Qed.

(** *** A program that reads the results *)

Fixpoint go_rows (fuel : nat) (r : result) : goM (list (list value) * result) :=
  match fuel with
  | O => mret ([], r)
  | S fuel =>
      '(ok, r) ← result_Row r;
      if (ok : bool) then '(rows, r') ← go_rows fuel r; mret (r_values r :: rows, r') else mret ([], r)
  end.

(** The names of the columns are left out. *)
Definition go_reply (fuel : nat) (r : result) : goM (reply * result) :=
  if r_rowCount r =? -1 then mret (RDone (r_linesChanged r) (r_lastRowId r), r)
  else '(rows, r') ← go_rows fuel r; mret (RRows (r_linesChanged r) (r_lastRowId r) [] rows, r').

Fixpoint go_replies (fuel : nat) (r : result) : goM (list reply) :=
  match fuel with
  | O => mret []
  | S fuel =>
      '(rep, r) ← go_reply fuel r;
      '(ok, r) ← result_NextResultSet r;
      if (ok : bool) then reps ← go_replies fuel r; mret (rep :: reps) else mret [rep]
  end.

Definition unnamed (rep : reply) : reply :=
  match rep with RRows changes rowid _ rows => RRows changes rowid [] rows | _ => rep end.

(** What a statement can answer and this client can represent. *)
Definition go_reply_ok (rep : reply) : Prop :=
  reply_ok rep /\
  match rep with
  | RDone changes _ => 0 <= changes
  | RRows changes _ names rows =>
      0 <= changes /\ Forall (fun s => match s with None => False | Some s => zlen s < maxStrLen end) names /\
      Forall (Forall go_short) rows
  | _ => True
  end.

Lemma gtakes_rows n rows : forall fuel r,
  Forall (go_row_ok n) rows -> (length rows < fuel)%nat -> r_remainingRows r = zlen rows -> r_columns r = Z.of_nat n ->
  exists r', gtakes (go_rows fuel r) (concat (map enc_row rows)) (rows, r') /\ r_nextResultSet r' = r_nextResultSet r.
Proof.
  induction rows as [|row rows IH]; intros [|fuel] r Hok Hf Hl Hc; try (simpl in Hf; lia); cbn [go_rows]; unfold result_Row.
  - exists r. split; [|done]. rewrite Hl. apply gtakes_ret.
  - apply Forall_cons in Hok as [[[Hn Hv] Hs] Hok]. rewrite Hl, zlen_cons. pose proof (zlen_nonneg rows).
    rewrite (proj2 (Z.leb_gt _ _)) by lia. rewrite Hc, Nat2Z.id.
    destruct (IH fuel (mk_gresult (r_lastRowId r) (r_linesChanged r) (r_nextResultSet r) (r_rowCount r)
      (1 + zlen rows - 1) (r_columns r) (r_indexes r) (r_names r) row)) as (r' & Ht & Hn'); [done|simpl in Hf; lia|cbn; lia|done|].
    exists r'. split; [|done]. cbn [map concat]. eapply gtakes_bind.
    + rewrite <- Hn. eapply (gtakes_map (read_values (length row) []) (fun values => (true, _))). by apply (gtakes_values row).
    + cbn [app]. cbv beta iota zeta. rewrite Hc, <- Hn in Ht. rewrite <- (app_nil_r (concat _)).
      eapply gtakes_bind; [exact Ht|]. cbn. apply gtakes_ret.
Qed.

(** *** Results *)

(** What [NextResultSet] reads of a reply, and what is left to [Row]. *)
Definition reply_head (rep : reply) : list byte :=
  enc_flag MSG_FLAG_OP ++ le_split 4 (zlen (enc_body rep) + 5) ++
  match rep with
  | RRows changes rowid names rows =>
      le_split 4 changes ++ le_split 8 rowid ++ enc_flag MSG_FLAG_ROW ++ le_split 4 (zlen names) ++
      concat (map enc_str names) ++ le_split 4 (zlen rows)
  | _ => enc_body rep ++ enc_flag MSG_FLAG_OP_END
  end.

Definition reply_rest (rep : reply) : list byte :=
  match rep with RRows _ _ _ rows => concat (map enc_row rows) | _ => [] end.

Lemma enc_reply_parts rep : exists tail, enc_reply rep = reply_head rep ++ reply_rest rep ++ tail.
Proof.
  unfold enc_reply, reply_head. destruct rep as [c i|c i names rows|id|]; cbn [enc_body reply_rest];
    first [exists (enc_flag MSG_FLAG_OP_END); rewrite <- !app_assoc; done
          |exists []; rewrite ?app_nil_r; cbn [app]; rewrite <- ?app_assoc; by rewrite ?app_nil_r].
Qed.

(** The fields of a result that stands at a reply. *)
Definition shows (rep : reply) (next : Z) (r : result) : Prop :=
  r_nextResultSet r = next /\
  match rep with
  | RDone changes rowid => r_linesChanged r = changes /\ r_lastRowId r = rowid /\ r_rowCount r = -1
  | RRows changes rowid names rows =>
      r_linesChanged r = changes /\ r_lastRowId r = rowid /\ r_rowCount r = zlen rows /\ r_remainingRows r = zlen rows /\
      r_columns r = zlen names
  | _ => False
  end.

Lemma some_names (P : list byte -> Prop) names :
  Forall (fun s => match s with None => False | Some s => P s end) names -> exists ns, names = map Some ns /\ Forall P ns.
Proof.
  induction 1 as [|[s|] names Hs _ (ns & -> & IH)]; [by exists []| |done]. exists (s :: ns). by split; [|constructor].
Qed.

Ltac next_flag := eapply gtakes_at_bind; [by apply gtakes_flag|].
Ltac next_int L := eapply gtakes_at_bind; [apply L|].

Lemma next_takes rep p r :
  go_reply_ok rep -> zlen (enc_reply rep) < 2 ^ 31 ->
  exists r', gtakes_at (next_result r) p (reply_head rep) (true, r') /\ shows rep (p + zlen (enc_reply rep)) r'.
Proof.
  intros [Hok Hgo] Hl. unfold next_result, reply_head. rewrite zlen_enc_reply in *.
  pose proof (zlen_nonneg (enc_body rep)).
  destruct rep as [changes rowid|changes rowid names rows|id|]; cbn [reply_ok] in Hok; try done.
  - destruct Hok as [Hch Hid]. eexists. split.
    + next_flag. rewrite Z.eqb_refl. cbn [negb]. apply gtakes_at_off.
      next_int (gtakes_int_small 4 (zlen (enc_body (RDone changes rowid)) + 5) ltac:(simpl in *; lia)).
      cbn [enc_body]. rewrite <- !app_assoc. next_int (gtakes_int 4 changes). next_int (gtakes_int 8 rowid).
      rewrite <- (app_nil_r (enc_flag MSG_FLAG_OP_END)). next_flag. apply gtakes_any.
      change (MSG_FLAG_OP_END =? MSG_FLAG_ROW) with false. cbv iota. rewrite Z.eqb_refl. cbn [negb]. apply gtakes_ret.
    + change (zlen (enc_flag MSG_FLAG_OP)) with 1. split; cbn [r_nextResultSet r_linesChanged r_lastRowId r_rowCount enc_body]; [lia|]. split_and!; [|by apply to_int64_mod|done].
      rewrite Z.mod_small; lia.
  - destruct Hok as (Hch & Hid & _ & Hln & _ & Hlr). destruct Hgo as (Hch0 & Hnames & _).
    destruct (some_names _ _ Hnames) as (ns & -> & Hns). pose proof (zlen_nonneg (map Some ns)). pose proof (zlen_nonneg rows).
    destruct (gtakes_columns ns Hns 0 (r_indexes r) (r_names r)) as [indexes Hc]. eexists. split.
    + next_flag. rewrite Z.eqb_refl. cbn [negb]. apply gtakes_at_off.
      next_int (gtakes_int_small 4 (zlen (enc_body (RRows changes rowid (map Some ns) rows)) + 5) ltac:(simpl in *; lia)).
      next_int (gtakes_int 4 changes). next_int (gtakes_int 8 rowid). next_flag.
      rewrite Z.eqb_refl. next_int (gtakes_int_small 4 (zlen (map Some ns)) ltac:(simpl; lia)).
      apply gtakes_any. rewrite zlen_nat, length_map. eapply gtakes_bind; [exact Hc|]. cbv beta iota.
      rewrite <- (app_nil_r (le_split 4 (zlen rows))).
      eapply gtakes_bind; [apply (gtakes_int_small 4); simpl; lia|apply gtakes_ret].
    + change (zlen (enc_flag MSG_FLAG_OP)) with 1. split; cbn [r_nextResultSet r_linesChanged r_lastRowId r_rowCount r_remainingRows r_columns]; [lia|]. split_and!; try done; [|by apply to_int64_mod].
      rewrite Z.mod_small; lia.
Qed.

(** All the bytes of a buffer, and a place in them. *)
Definition gdata (b : buffer) : list byte := mread (g_mem b) 0 (g_len b).

Lemma unread_at b p : gwf b -> 0 <= p <= g_len b -> unread (set_off b p) = drop (Z.to_nat p) (gdata b).
Proof.
  intros [? ?] Hp. unfold unread, gdata, mread, buffer_len. cbn. rewrite drop_0, skipn_firstn_comm. f_equal. lia.
Qed.

Lemma zlen_gdata b : gwf b -> zlen (gdata b) = g_len b.
Proof. intros [? ?]. unfold gdata. apply zlen_mread; lia. Qed.

Lemma reply_shown rep next fuel r :
  go_reply_ok rep -> (reply_rows rep < fuel)%nat -> shows rep next r ->
  exists r', gtakes (go_reply fuel r) (reply_rest rep) (unnamed rep, r') /\ r_nextResultSet r' = next.
Proof.
  intros [Hok Hgo] Hf [Hn Hs]. unfold go_reply.
  destruct rep as [changes rowid|changes rowid names rows|id|]; try done; cbn [unnamed reply_rest reply_rows] in *.
  - destruct Hs as (<- & <- & ->). exists r. split; [apply gtakes_ret|done].
  - destruct Hs as (<- & <- & Hr & Hrem & Hc). destruct Hok as (_ & _ & _ & _ & Hrows & _). destruct Hgo as (_ & _ & Hshort).
    pose proof (zlen_nonneg rows). rewrite Hr, (proj2 (Z.eqb_neq _ _)) by lia.
    destruct (gtakes_rows (length names) rows fuel r) as (r' & Ht & Hn'); [|done|done|done|].
    { clear -Hrows Hshort. induction Hrows as [|row rows H _ IH]; [done|].
      apply Forall_cons in Hshort as [? ?]. constructor; [by split|by apply IH]. }
    exists r'. split; [|congruence]. rewrite <- (app_nil_r (concat _)). eapply gtakes_bind; [exact Ht|]. apply gtakes_ret.
Qed.

(** The buffer holds a response, and the next reply begins at [next]. *)
Record at_reply (data more : list byte) (next : Z) (b : buffer) : Prop := {
  ap_wf : gwf b;
  ap_data : gdata b = data;
  ap_next : 0 <= next <= zlen data;
  ap_more : drop (Z.to_nat next) data = more
}.

Lemma set_next data more r b :
  at_reply data more (r_nextResultSet r) b ->
  result_NextResultSet r b = next_result r (set_off b (r_nextResultSet r)) /\
  gwf (set_off b (r_nextResultSet r)) /\ unread (set_off b (r_nextResultSet r)) = more.
Proof.
  intros [Hwf Hd Hn Hm]. assert (Hl : zlen data = g_len b) by (by rewrite <- Hd, zlen_gdata). pose proof Hwf as [? ?]. split_and!.
  - unfold result_NextResultSet, buffer_setOffset, mbind, goM_bind. by rewrite if_false by (rewrite Z.gtb_ltb; apply Z.ltb_ge; lia).
  - split; cbn; lia.
  - rewrite unread_at by (done || lia). by rewrite Hd.
Qed.

Lemma reply_step data rep more fuel r b :
  at_reply data (enc_reply rep ++ more) (r_nextResultSet r) b -> zlen data < 2 ^ 31 ->
  go_reply_ok rep -> (reply_rows rep < fuel)%nat ->
  exists r' b', result_NextResultSet r b = Some ((true, r'), b') /\
    exists r'' b'', go_reply fuel r' b' = Some ((unnamed rep, r''), b'') /\ at_reply data more (r_nextResultSet r'') b''.
Proof.
  intros Hat Hsmall Hok Hf. destruct (set_next _ _ _ _ Hat) as (E1 & Hwf1 & Hu1).
  assert (Hend : r_nextResultSet r + zlen (enc_reply rep) <= zlen data).
  { pose proof (f_equal zlen (ap_more _ _ _ _ Hat)) as Hl. rewrite zlen_app in Hl. pose proof (ap_next _ _ _ _ Hat).
    pose proof (zlen_nonneg more). unfold zlen in *. rewrite length_drop in Hl. lia. }
  pose proof (ap_next _ _ _ _ Hat) as Hn. pose proof (zlen_nonneg (enc_reply rep)).
  destruct (next_takes rep (r_nextResultSet r) r Hok) as (r' & Ht & Hs); [lia|].
  destruct (enc_reply_parts rep) as [tail Ep]. rewrite Ep, <- !app_assoc in Hu1.
  exists r', (set_off b (r_nextResultSet r + zlen (reply_head rep))). split.
  { rewrite E1. by rewrite (Ht _ _ Hwf1 eq_refl Hu1). }
  destruct (unread_skip _ _ _ Hwf1 Hu1) as [Hwf2 Hu2]. cbn [g_off set_off] in Hwf2, Hu2.
  change (set_off (set_off b ?x) ?y) with (set_off b y) in Hwf2, Hu2.
  destruct (reply_shown rep _ fuel r' Hok Hf Hs) as (r'' & Hr & Hnext).
  eexists r'', _. split; [exact (Hr _ _ Hwf2 Hu2)|]. change (set_off (set_off b ?x) ?y) with (set_off b y). cbn [g_off set_off].
  rewrite Hnext. assert (Hz : zlen (reply_head rep) + zlen (reply_rest rep) <= zlen (enc_reply rep)).
  { rewrite Ep, !zlen_app. pose proof (zlen_nonneg tail). lia. }
  pose proof (zlen_nonneg (reply_head rep)). pose proof (zlen_nonneg (reply_rest rep)).
  destruct Hat as [Hwf Hd _ Hm]. pose proof Hwf as [? ?].
  assert (Hl : zlen data = g_len b) by (by rewrite <- Hd, zlen_gdata).
  split; [split; cbn [g_off g_len g_mem set_off]; lia|done|lia|by apply drop_reply; [lia|]].
Qed.

Lemma replies_step data tail reps : Forall go_reply_ok reps -> zlen data < 2 ^ 31 -> forall rep fuel r b,
  go_reply_ok rep -> (replies_fuel (rep :: reps) <= fuel)%nat ->
  at_reply data (enc_reply rep ++ concat (map enc_reply reps) ++ enc_flag MSG_FLAG_MSG_END ++ tail) (r_nextResultSet r) b ->
  exists r' b', result_NextResultSet r b = Some ((true, r'), b') /\
    exists b'', go_replies fuel r' b' = Some (map unnamed (rep :: reps), b'').
Proof.
  intros Hok Hsmall. induction reps as [|p reps IH]; intros rep [|fuel] r b Hrep Hf Hat; unfold replies_fuel in Hf; try (simpl in Hf; lia).
  - destruct (reply_step data rep _ fuel r b Hat Hsmall Hrep) as (r1 & b1 & E1 & r2 & b2 & E2 & H2); [simpl in Hf; lia|].
    exists r1, b1. split; [done|]. cbn [go_replies]. unfold mbind, goM_bind. rewrite E2.
    destruct (set_next _ _ _ _ H2) as (E3 & Hwf & Hu). cbn [map concat app] in Hu. rewrite E3. unfold next_result, mbind, goM_bind.
    rewrite (gtakes_flag MSG_FLAG_MSG_END ltac:(done) _ _ Hwf Hu). change (MSG_FLAG_MSG_END =? MSG_FLAG_OP) with false.
    cbn [negb]. by eexists.
  - apply Forall_cons in Hok as [Hp Hok].
    destruct (reply_step data rep _ fuel r b Hat Hsmall Hrep) as (r1 & b1 & E1 & r2 & b2 & E2 & H2); [simpl in Hf; lia|].
    cbn [map concat] in H2. rewrite <- app_assoc in H2.
    destruct (IH Hok p fuel r2 b2 Hp) as (r3 & b3 & E3 & b4 & E4); [unfold replies_fuel; simpl in *; lia|exact H2|].
    exists r1, b1. split; [done|]. cbn [go_replies]. unfold mbind, goM_bind. rewrite E2, E3, E4. by eexists.
Qed.

(** ** Writing to a buffer *)

(** A slice that can exist. *)
Record gsane (b : buffer) : Prop := { gs_nil : g_nil b = true -> g_mem b = []; gs_cap : g_cap b < 2 ^ 40 }.

(** The buffer holds [xs], of which nothing is read. *)
Record gfull (b : buffer) (xs : list byte) : Prop := {
  gf_sane : gsane b;
  gf_wf : gwf b;
  gf_off : g_off b = 0;
  gf_data : gdata b = xs
}.

Lemma gfull_len b xs : gfull b xs -> g_len b = zlen xs.
Proof. intros [_ Hwf _ <-]. by rewrite zlen_gdata. Qed.

Lemma gfull_reset b : gsane b -> gfull (buffer_reset b) [].
Proof.
  intros Hs. split; [by destruct Hs|split; cbn; pose proof (zlen_nonneg (g_mem b)); lia|done|]. apply mread_nil.
Qed.

(** Room for [n] bytes behind [xs]. *)
Definition roomy (xs : list byte) (n : Z) (b : buffer) : Prop :=
  gsane b /\ g_off b = 0 /\ g_len b = zlen xs + n /\ g_len b <= g_cap b /\ mread (g_mem b) 0 (zlen xs) = xs.

Lemma zlen_zeros n : 0 <= n -> zlen (zeros n) = n.
Proof. intros. unfold zeros, zlen. rewrite length_replicate. lia. Qed.

Lemma try_room n b xs r :
  gfull b xs -> 0 <= n -> tryGrowByReslice n b = Some r -> r.1 = zlen xs /\ roomy xs n r.2.
Proof.
  intros Hb Hn. pose proof (gfull_len _ _ Hb) as Hl. destruct Hb as [[Hs1 Hs2] [? ?] Ho Hd]. unfold tryGrowByReslice.
  destruct (Z.leb_spec n (g_cap b - g_len b)); [|done]. intros [= <-]. split; [done|].
  split_and!; cbn; [by split|done|lia|lia|]. rewrite <- Hl. exact Hd.
Qed.

Lemma grow_room n b xs :
  gfull b xs -> 0 <= n -> zlen xs + n < 2 ^ 34 -> exists b', buffer_grow n b = Some (zlen xs, b') /\ roomy xs n b'.
Proof.
  intros Hb Hn Hsum. pose proof (gfull_len _ _ Hb) as Hl. pose proof (zlen_nonneg xs). unfold buffer_grow. cbv zeta.
  rewrite (gf_off _ _ Hb). rewrite andb_false_r. destruct (tryGrowByReslice n b) as [[i b']|] eqn:Et.
  { destruct (try_room n b xs _ Hb Hn Et) as [Hi Hr]. cbn in Hi, Hr. subst i. by exists b'. }
  unfold tryGrowByReslice in Et. destruct (Z.leb_spec n (g_cap b - g_len b)) as [|Hfull]; [done|]. clear Et.
  destruct Hb as [[Hs1 Hs2] [Hw1 Hw2] Ho Hd]. pose proof (zlen_nonneg (g_mem b)).
  destruct (g_nil b && (n <=? smallBufferSize)) eqn:Enil.
  - apply andb_true_iff in Enil as [Enil Hsm%Z.leb_le]. unfold smallBufferSize in *. specialize (Hs1 Enil). rewrite Hs1 in *.
    change (zlen []) with 0 in *. assert (xs = []) as -> by (destruct xs; [done|rewrite zlen_cons in *; pose proof (zlen_nonneg xs); lia]).
    eexists. split; [reflexivity|]. by split_and!; cbn; try done; try lia.
  - unfold buffer_len. rewrite Ho, Z.sub_0_r, (proj2 (Z.ltb_ge _ _)) by lia.
    rewrite (proj2 (Z.leb_gt n _)) by dlia. rewrite if_false by (rewrite Z.gtb_ltb; apply Z.ltb_ge; unfold maxInt; lia).
    assert (Hm : mread (g_mem b) 0 (g_len b) = xs) by exact Hd. unfold regrow. rewrite Hm, Hl. eexists. split; [reflexivity|].
    assert (Hz : zlen (xs ++ zeros (2 * g_cap b + n - zlen xs)) = 2 * g_cap b + n) by (rewrite zlen_app, zlen_zeros; lia).
    split_and!; cbn [g_nil g_mem g_len g_off]; [split; cbn [g_nil g_mem]; [done|lia]|done|done|lia|].
    unfold mread. cbn [Z.to_nat drop]. rewrite drop_0. by rewrite zlen_nat, take_app_length.
Qed.

Lemma room_roomy n b xs :
  gfull b xs -> 0 <= n -> zlen xs + n < 2 ^ 34 -> exists b', room n b = Some (zlen xs, b') /\ roomy xs n b'.
Proof.
  intros Hb Hn Hsum. unfold room. destruct (tryGrowByReslice n b) as [[i b']|] eqn:Et; [|by apply grow_room].
  destruct (try_room n b xs _ Hb Hn Et) as [Hi Hr]. cbn in Hi, Hr. subst i. by exists b'.
Qed.

(** A copy into the room. *)
Lemma roomy_write xs bs b :
  roomy xs (zlen bs) b -> gfull (set_gmem b (mwrite (g_mem b) (zlen xs) bs)) (xs ++ bs).
Proof.
  intros ([Hs1 Hs2] & Ho & Hl & Hc & Hm). pose proof (zlen_nonneg xs). pose proof (zlen_nonneg bs).
  assert (Hz : zlen (mwrite (g_mem b) (zlen xs) bs) = g_cap b) by (apply zlen_mwrite; lia).
  split; cbn [g_nil g_mem g_len g_off set_gmem].
  - split; cbn [g_nil g_mem set_gmem]; [|lia]. intros Hn. specialize (Hs1 Hn). rewrite Hs1 in *. change (zlen []) with 0 in *.
    destruct (mwrite [] (zlen xs) bs); [done|]. rewrite zlen_cons in Hz. pose proof (zlen_nonneg l). lia.
  - split; cbn [g_off g_len g_mem set_gmem]; lia.
  - done.
  - unfold gdata. cbn [g_mem g_len set_gmem]. rewrite Hl, mread_split by lia. f_equal.
    + by rewrite mread_write_before by lia.
    + by apply mread_write_same; lia.
Qed.

(** A writer that appends [bs]. *)
Definition gputs (m : goM ()) (bs : list byte) : Prop :=
  forall b xs, gfull b xs -> zlen xs + zlen bs < 2 ^ 34 -> exists b', m b = Some ((), b') /\ gfull b' (xs ++ bs).

Lemma gputs_bytes bs : gputs (append_bytes bs) bs.
Proof.
  intros b xs Hb Hl. destruct (room_roomy (zlen bs) b xs Hb (zlen_nonneg _) Hl) as (b' & E & Hr).
  unfold append_bytes, mbind, goM_bind. rewrite E. eexists. split; [reflexivity|]. by apply roomy_write.
Qed.

Lemma gputs_seq m k xs ys : gputs m xs -> gputs k ys -> gputs (m;; k) (xs ++ ys).
Proof.
  intros Hm Hk b zs Hb Hl. rewrite zlen_app in Hl. pose proof (zlen_nonneg ys).
  destruct (Hm b zs Hb) as (b1 & E1 & H1); [lia|]. destruct (Hk b1 _ H1) as (b2 & E2 & H2); [rewrite zlen_app; lia|].
  exists b2. split; [|by rewrite app_assoc]. unfold mbind, goM_bind. by rewrite E1.
Qed.

Lemma gputs_flag f : gputs (buffer_writeUint8 f) (enc_flag f).
Proof. apply gputs_bytes. Qed.

Lemma gputs_string s : gputs (buffer_writeString (Some s)) (enc_str (Some s)).
Proof. cbn [enc_str]. apply gputs_seq; [apply gputs_bytes|]. apply gputs_seq; apply gputs_bytes. Qed.

(** ** Building a request *)

(** The statements and parameters that the calls can name. *)
Definition go_datum (d : datum) : option go_value :=
  match d with
  | DInteger v => Some (go_int64 v)
  | DFloat bits => Some (go_float64 bits)
  | DText s => go_string <$> s
  | DBlob d => Some (go_bytes d)
  | DNull => Some go_nil
  end.

Lemma gputs_datum d v : go_datum d = Some v -> gputs (bind_go v) (enc_datum d).
Proof.
  intros Hv. destruct d as [z|bits|[s|]|d|]; cbn in Hv; try done; injection Hv as <-; cbn [bind_go enc_datum].
  - apply gputs_seq; [apply gputs_flag|apply gputs_bytes].
  - apply gputs_seq; [apply gputs_flag|apply gputs_bytes].
  - apply gputs_seq; [apply gputs_flag|apply gputs_string].
  - apply gputs_seq; [apply gputs_flag|]. apply gputs_seq; apply gputs_bytes.
  - apply gputs_flag.
Qed.

Section calls.
Variable E : gonet.
#[local] Existing Instances runsM_ret runsM_bind.

Definition go_bind_call (b : locator * datum) : runsM E () :=
  match b with
  | (ByName (Some p), d) => match go_datum d with Some v => client_BindParam E p v | None => crash E end
  | (ByIndex i, d) => match go_datum d with Some v => client_BindIndex E i v | None => crash E end
  | _ => crash E
  end.

Fixpoint go_bind_calls (bs : list (locator * datum)) : runsM E () :=
  match bs with
  | [] => mret ()
  | b :: bs => go_bind_call b;; go_bind_calls bs
  end.

Definition go_op_call (p : op) : runsM E () :=
  match p with
  | OStmt (Some sql) bs => client_PutStatement E sql;; go_bind_calls bs
  | OStmtId id bs => client_PutPrepared E id;; go_bind_calls bs
  | _ => crash E
  end.

Fixpoint go_op_calls (ps : list op) : runsM E () :=
  match ps with
  | [] => mret ()
  | p :: ps => go_op_call p;; go_op_calls ps
  end.

(** A program that appends [bs] to the request of a client with a statement. *)
Definition rputs (m : runsM E ()) (bs : list byte) : Prop :=
  forall c n xs, gc_hasStatement c = true -> gfull (gc_req c) xs -> zlen xs + zlen bs < 2 ^ 34 ->
  exists b, m (c, n) = Some ((), (with_req c b, n)) /\ gfull b (xs ++ bs).

Lemma rputs_req m bs : gputs m bs -> rputs (in_req E m) bs.
Proof.
  intros Hm c n xs _ Hc Hl. destruct (Hm _ _ Hc Hl) as (b & Eb & Hb). exists b. split; [|done].
  unfold in_req. cbn [fst snd]. by rewrite Eb.
Qed.

Lemma rputs_seq m k xs ys : rputs m xs -> rputs k ys -> rputs (m;; k) (xs ++ ys).
Proof.
  intros Hm Hk c n zs Hs Hc Hl. rewrite zlen_app in Hl. pose proof (zlen_nonneg ys).
  destruct (Hm c n zs Hs Hc) as (b1 & E1 & H1); [lia|].
  destruct (Hk (with_req c b1) n _ Hs H1) as (b2 & E2 & H2); [rewrite zlen_app; lia|].
  exists b2. split; [|by rewrite app_assoc]. unfold mbind, runsM_bind. by rewrite E1.
Qed.

Lemma rputs_nil : rputs (mret ()) [].
Proof. intros c n xs _ Hc _. exists (gc_req c). rewrite app_nil_r. split; [by destruct c|done]. Qed.

Definition go_bind_ok (b : locator * datum) : bool :=
  match b with
  | (ByName None, _) => false
  | (_, d) => bool_decide (is_Some (go_datum d))
  end.

(** Under the test for a statement. *)
Lemma rputs_bound (m k : runsM E ()) bs :
  rputs k bs -> rputs (has ← look E gc_hasStatement; if negb has then m else k) bs.
Proof. intros Hk c n xs Hs Hc Hl. unfold mbind, runsM_bind, look. cbn [fst]. rewrite Hs. by apply (Hk c n xs). Qed.

Lemma rputs_bind_call b : go_bind_ok b = true -> rputs (go_bind_call b) (enc_bind b).
Proof.
  destruct b as [[[p|]|i] d]; cbn [go_bind_ok go_bind_call]; intros Hb; try done; apply bool_decide_eq_true in Hb as [v Hv];
    rewrite Hv; unfold enc_bind; cbn [fst snd enc_locator]; rewrite <- app_assoc.
  - apply rputs_bound, rputs_seq; [apply rputs_req, gputs_flag|]. apply rputs_seq; apply rputs_req; [apply gputs_string|by apply gputs_datum].
  - apply rputs_bound, rputs_seq; [apply rputs_req, gputs_flag|]. apply rputs_seq; apply rputs_req; [apply gputs_bytes|by apply gputs_datum].
Qed.

Lemma rputs_bind_calls bs : forallb go_bind_ok bs = true -> rputs (go_bind_calls bs) (concat (map enc_bind bs)).
Proof.
  induction bs as [|b bs IH]; cbn [forallb go_bind_calls map concat]; [intros _; apply rputs_nil|].
  intros [Hb Hbs]%andb_true_iff. apply rputs_seq; [by apply rputs_bind_call|by apply IH].
Qed.

(** *** Operations *)

Definition go_op_ok (p : op) : bool :=
  match p with
  | OStmt (Some _) bs | OStmtId _ bs => forallb go_bind_ok bs
  | _ => false
  end.

(** An operation up to its end. *)
Definition op_open (p : op) : list byte :=
  enc_flag MSG_FLAG_OP ++
  match p with
  | OStmt sql bs => enc_flag MSG_FLAG_STMT ++ enc_str sql ++ concat (map enc_bind bs)
  | OStmtId id bs => enc_flag MSG_FLAG_STMT_ID ++ le_split 8 id ++ concat (map enc_bind bs)
  | _ => []
  end.

Definition op_close : list byte := enc_flag MSG_BIND_END ++ enc_flag MSG_FLAG_OP_END.

Lemma op_open_close p : go_op_ok p = true -> enc_op p = op_open p ++ op_close.
Proof.
  destruct p as [[sql|] bs|id bs| |]; try done; intros _; unfold enc_op, op_open, op_close, enc_binds; by rewrite <- !app_assoc.
Qed.

(** [m] puts the operation, behind the end of the one before. *)
Definition opens (m : runsM E ()) (bs : list byte) : Prop :=
  forall c n xs, gfull (gc_req c) xs -> zlen xs + 2 + zlen bs < 2 ^ 34 ->
  exists b, m (c, n) = Some ((), (with_req (with_batch c true (gc_misuse c)) b, n)) /\
    gfull b (xs ++ (if gc_hasStatement c then op_close else []) ++ bs).

Lemma opens_rest (k : runsM E ()) bs :
  rputs k bs -> opens (end_statement E;; (change E (fun c => with_batch c true (gc_misuse c));; k)) bs.
Proof.
  intros Hk c n xs Hc Hl. pose proof (zlen_nonneg bs).
  assert (He : exists b, end_statement E (c, n) = Some ((), (with_req c b, n)) /\
    gfull b (xs ++ if gc_hasStatement c then op_close else [])).
  { unfold end_statement, mbind, runsM_bind, look. cbn [fst]. destruct (gc_hasStatement c) eqn:Hs.
    - apply (rputs_seq _ _ _ _ (rputs_req _ _ (gputs_flag MSG_BIND_END)) (rputs_req _ _ (gputs_flag MSG_FLAG_OP_END)));
        [done|done|]. change (zlen (enc_flag MSG_BIND_END ++ enc_flag MSG_FLAG_OP_END)) with 2. lia.
    - exists (gc_req c). rewrite app_nil_r. split; [by destruct c|done]. }
  destruct He as (b & Eb & Hb). set (c1 := with_batch (with_req c b) true (gc_misuse c)).
  destruct (Hk c1 n _ eq_refl Hb) as (b' & Eb' & Hb').
  { rewrite zlen_app. destruct (gc_hasStatement c); [change (zlen op_close) with 2|change (zlen []) with 0]; lia. }
  exists b'. split; [|by rewrite app_assoc]. unfold mbind, runsM_bind in *. rewrite Eb. unfold change. cbn [fst snd].
  change (gc_misuse (with_req c b)) with (gc_misuse c). fold c1. by rewrite Eb'.
Qed.

Lemma opens_then (k r : runsM E ()) xs ys :
  rputs k xs -> rputs r ys -> opens ((end_statement E;; (change E (fun c => with_batch c true (gc_misuse c));; k));; r) (xs ++ ys).
Proof.
  intros Hk Hr c n zs Hc Hl. destruct (opens_rest (k;; r) (xs ++ ys) (rputs_seq _ _ _ _ Hk Hr) c n zs Hc Hl) as (b & Eb & Hb).
  exists b. split; [|done]. rewrite <- Eb. unfold mbind, runsM_bind. destruct (end_statement E (c, n)) as [[[] s]|]; [|done].
  by destruct (change E _ s) as [[[] s1]|].
Qed.

Lemma opens_call p : go_op_ok p = true -> opens (go_op_call p) (op_open p).
Proof.
  assert (H : forall f args m bs, gputs m args -> forallb go_bind_ok bs = true ->
    opens ((end_statement E;; (change E (fun c => with_batch c true (gc_misuse c));;
      (in_req E (buffer_writeUint8 MSG_FLAG_OP);; (in_req E (buffer_writeUint8 f);; in_req E m))));; go_bind_calls bs)
      ((enc_flag MSG_FLAG_OP ++ enc_flag f ++ args) ++ concat (map enc_bind bs))).
  { intros f args m bs Hm Hbs. apply opens_then; [|by apply rputs_bind_calls].
    apply rputs_seq; [apply rputs_req, gputs_flag|]. apply rputs_seq; apply rputs_req; [apply gputs_flag|done]. }
  destruct p as [[sql|] bs|id bs| |]; try done; cbn [go_op_ok go_op_call]; intros Hbs.
  - pose proof (H MSG_FLAG_STMT (enc_str (Some sql)) _ bs (gputs_string sql) Hbs) as H1. rewrite <- !app_assoc in H1. exact H1.
  - pose proof (H MSG_FLAG_STMT_ID (le_split 8 id) _ bs (gputs_bytes (le_split 8 id)) Hbs) as H1. rewrite <- !app_assoc in H1. exact H1.
Qed.

(** All operations: each but the last is closed. *)
Lemma calls_put ps : forallb go_op_ok ps = true -> forall p c n xs,
  go_op_ok p = true -> gfull (gc_req c) xs -> zlen xs + zlen (concat (map enc_op (p :: ps))) < 2 ^ 33 ->
  exists b ys, go_op_calls (p :: ps) (c, n) = Some ((), (with_req (with_batch c true (gc_misuse c)) b, n)) /\
    gfull b (xs ++ ys) /\
    ys ++ op_close = (if gc_hasStatement c then op_close else []) ++ concat (map enc_op (p :: ps)).
Proof.
  induction ps as [|q ps IH]; intros Hps p c n xs Hp Hc Hl;
    change (concat (map enc_op (p :: ?l))) with (enc_op p ++ concat (map enc_op l)) in Hl; rewrite zlen_app in Hl;
    pose proof (op_open_close p Hp) as Ep; rewrite Ep, zlen_app in Hl; change (zlen op_close) with 2 in Hl.
  - change (zlen (concat _)) with 0 in Hl. destruct (opens_call p Hp c n xs Hc) as (b & Eb & Hb); [lia|].
    exists b, ((if gc_hasStatement c then op_close else []) ++ op_open p). split_and!.
    + cbn [go_op_calls]. unfold mbind, runsM_bind. by rewrite Eb.
    + done.
    + cbn [map concat]. rewrite Ep, app_nil_r. by rewrite <- !app_assoc.
  - cbn [forallb] in Hps. apply andb_true_iff in Hps as [Hq Hps]. pose proof (zlen_nonneg (concat (map enc_op (q :: ps)))).
    destruct (opens_call p Hp c n xs Hc) as (b & Eb & Hb); [lia|].
    set (c1 := with_req (with_batch c true (gc_misuse c)) b) in *. pose proof (zlen_nonneg (op_open p)).
    destruct (IH Hps q c1 n _ Hq Hb) as (b2 & ys & E2 & H2 & Hy).
    { rewrite !zlen_app. destruct (gc_hasStatement c); [change (zlen op_close) with 2|change (zlen []) with 0]; lia. }
    exists b2, ((if gc_hasStatement c then op_close else []) ++ op_open p ++ ys). split_and!.
    + remember (q :: ps) as qs. cbn [go_op_calls]. unfold mbind, runsM_bind in *. rewrite Eb. fold c1. by rewrite E2.
    + by rewrite <- !app_assoc in H2.
    + change (gc_hasStatement c1) with true in Hy. rewrite <- !app_assoc, Hy. cbn [map concat]. rewrite Ep. by rewrite <- !app_assoc.
Qed.
End calls.

(** ** Sending a request *)

(** The start of [mem] is overwritten with [xs]. *)
Definition over (nil : bool) (mem xs : list byte) : buffer :=
  mk_buffer nil (xs ++ drop (length xs) mem) (zlen xs) 0.

Lemma over_append nil mem xs bs :
  zlen xs + zlen bs <= zlen mem -> append_bytes bs (over nil mem xs) = Some ((), over nil mem (xs ++ bs)).
Proof.
  intros Hl. pose proof (zlen_nonneg bs). unfold append_bytes, mbind, goM_bind, room, tryGrowByReslice, over. cbn [g_mem g_len].
  assert (Hz : zlen (xs ++ drop (length xs) mem) = zlen mem).
  { unfold zlen in *. rewrite length_app, length_drop. lia. }
  rewrite Hz, (proj2 (Z.leb_le _ _)) by lia. unfold puts_buf, set_gmem, set_len. cbn [g_nil g_mem g_len g_off].
  do 3 f_equal; [|by rewrite zlen_app]. unfold mwrite. rewrite zlen_nat, take_app_length, <- app_assoc. do 2 f_equal.
  rewrite drop_app_ge by lia. rewrite drop_drop, length_app. f_equal. lia.
Qed.

Lemma over_seq nil mem xs bs (k : goM ()) :
  zlen xs + zlen bs <= zlen mem -> (append_bytes bs;; k) (over nil mem xs) = k (over nil mem (xs ++ bs)).
Proof. intros Hl. unfold mbind at 1, goM_bind at 1. by rewrite over_append. Qed.

Lemma header_written b hdr body readonly seq :
  gfull b (hdr ++ body) -> zlen hdr = 14 -> zlen body + 14 < 2 ^ 32 ->
  exists b', encodeClientReq readonly seq b = Some ((), b') /\ gfull b' (enc_msg (client_req seq readonly body)).
Proof.
  intros Hb Hh Hl. pose proof (gfull_len _ _ Hb) as Hn. rewrite zlen_app, Hh in Hn. pose proof (zlen_nonneg body).
  destruct Hb as [[Hs1 Hs2] [Hw1 Hw2] Ho Hd]. unfold encodeClientReq, mbind at 1, goM_bind at 1, gets.
  unfold buffer_len. rewrite Ho, Hn, Z.sub_0_r.
  unfold mbind at 1, goM_bind at 1, buffer_position at 1. pose proof (zlen_nonneg (g_mem b)).
  rewrite if_false by (rewrite Z.gtb_ltb; apply Z.ltb_ge; lia). cbn [Z.to_nat drop]. rewrite drop_0, Ho.
  change (mk_buffer (g_nil b) (g_mem b) 0 0) with (over (g_nil b) (g_mem b) []). rewrite u32_small by lia.
  unfold buffer_writeBool, buffer_writeUint32, buffer_writeUint8, buffer_writeUint64.
  rewrite !over_seq by (rewrite ?zlen_app, ?zlen_le_split; change (zlen []) with 0; simpl; lia).
  set (h := ((([] ++ le_split 4 (14 + zlen body)) ++ le_split 1 clientReq) ++ le_split 1 (if readonly then 1 else 0)) ++ le_split 8 seq).
  assert (Hlh : length h = 14%nat) by (unfold h; rewrite !length_app, !length_le_split; done).
  unfold buffer_setLength, over. cbn [g_mem set_len].
  assert (Hz : zlen (h ++ drop (length h) (g_mem b)) = g_cap b).
  { unfold zlen in *. rewrite length_app, length_drop. lia. }
  rewrite if_false by (rewrite Z.gtb_ltb; apply Z.ltb_ge; lia). eexists. split; [reflexivity|].
  unfold set_len. split; cbn [g_nil g_mem g_len g_off].
  - split; cbn [g_nil g_mem]; [|lia]. intros Hnil. rewrite (Hs1 Hnil) in Hw2. change (zlen []) with 0 in Hw2. lia.
  - split; cbn [g_mem g_len g_off]; lia.
  - done.
  - unfold gdata, mread. cbn [g_mem g_len]. rewrite drop_0. rewrite enc_client_req, (Z.add_comm (zlen body)).
    replace (Z.to_nat (14 + zlen body)) with (length h + length body)%nat by (unfold zlen; lia).
    rewrite firstn_app_2. replace (take (length body) (drop (length h) (g_mem b))) with body.
    + unfold h. cbn [app]. rewrite <- !app_assoc. by destruct readonly.
    + unfold gdata, mread in Hd. rewrite drop_0 in Hd. apply (f_equal (drop (length hdr))) in Hd. rewrite drop_app_length in Hd.
      rewrite skipn_firstn_comm in Hd. rewrite <- Hd at 1. unfold zlen in *. f_equal; [lia|]. f_equal. lia.
Qed.

Section exchange.
Variable E : gonet.
#[local] Existing Instances runsM_ret runsM_bind.

(** The connection delivers [bs] in at most [fuel] pieces, each of which fits. *)
Fixpoint go_delivers (fuel : nat) (bs : list byte) (n : gn_state E) : Prop :=
  match fuel with
  | O => bs = []
  | S fuel =>
      bs = [] \/
      forall q, 0 < q -> exists k n', (0 < k <= length bs)%nat /\ Z.of_nat k <= q /\
        conn_read E q (snd (now E n)) = ((take k bs, false), n') /\ go_delivers fuel (drop k bs) n'
  end.

(** One read of the response. *)
Lemma read_piece c n xs bs (P : nat -> gn_state E -> Prop) :
  gfull (gc_resp c) xs -> zlen xs + 512 < 2 ^ 34 ->
  (forall q, 0 < q -> exists k n', (0 < k <= length bs)%nat /\ Z.of_nat k <= q /\
    conn_read E q n = ((take k bs, false), n') /\ P k n') ->
  exists k n' b, buffer_readFrom E (c, n) = Some (None, (with_resp c b, n')) /\ gfull b (xs ++ take k bs) /\
    (0 < k <= length bs)%nat /\ P k n'.
Proof.
  intros Hc Hl Hr. destruct (grow_room minRead (gc_resp c) xs Hc) as (b1 & E1 & Hb1); [done|done|].
  pose proof Hb1 as (Hs & Ho & Hlen & Hcap & Hm). pose proof (zlen_nonneg xs). unfold minRead in Hlen.
  destruct (Hr (g_cap b1 - zlen xs)) as (k & n' & Hk & Hq & Er & HP); [lia|].
  exists k, n', (set_gmem (set_len b1 (zlen xs + zlen (take k bs))) (mwrite (g_mem b1) (zlen xs) (take k bs))).
  assert (Hz : zlen (take k bs) = Z.of_nat k) by (unfold zlen; rewrite length_take; lia). split_and!; [| |lia|lia|done].
  - unfold buffer_readFrom, mbind, runsM_bind, in_resp, look, does. cbn [fst snd]. rewrite E1. cbn. by rewrite Er.
  - apply (roomy_write xs (take k bs) (set_len b1 (zlen xs + zlen (take k bs)))).
    split_and!; cbn [g_nil g_mem g_len g_off set_len]; try done; [by destruct Hs|lia].
Qed.

(** The length in front of the frame. *)
Lemma peek_frame b ys zs f g :
  gfull b ys -> ys ++ zs = f -> f = le_split 4 (zlen f) ++ g -> zlen f < 2 ^ 31 -> 4 <= zlen ys ->
  buffer_peekUint32 b = Some (zlen f, b).
Proof.
  intros Hb Ey Hf Hs Hl. pose proof (gfull_len _ _ Hb) as Hn. pose proof (zlen_nonneg f). destruct Hb as [_ [Hw1 Hw2] Ho Hd].
  unfold buffer_peekUint32, buffer_peek, buffer_len. rewrite Ho, Hn, (proj2 (Z.ltb_ge _ _)) by (simpl; lia).
  assert (Em : mread (g_mem b) 0 (Z.of_nat 4) = le_split 4 (zlen f)).
  { transitivity (take 4 f).
    - rewrite <- Ey, <- Hd, take_app_le by (rewrite <- Hd in Hl; unfold zlen in Hl; lia). unfold gdata, mread.
      rewrite take_take. f_equal. rewrite Hn. unfold zlen in *. lia.
    - rewrite Hf at 1. apply take_app_length'. by rewrite length_le_split. }
  rewrite Em, le_combine_split, Z.mod_small; [done|simpl; lia].
Qed.

(** The loop ends when the frame is complete. *)
Lemma read_whole (f g : list byte) :
  f = le_split 4 (zlen f) ++ g -> zlen f < 2 ^ 31 -> forall fuel rfuel bs n c xs,
  xs ++ bs = f -> bs <> [] -> go_delivers fuel bs n -> (fuel < rfuel)%nat -> gfull (gc_resp c) xs ->
  exists b n', read_message E true rfuel (c, n) = Some (None, (with_resp c b, n')) /\ gfull b f.
Proof.
  intros Hf Hsmall. induction fuel as [|fuel IH]; intros [|rfuel] bs n c xs Hx Hne Hd Hfuel Hc; try lia; [done|].
  destruct Hd as [Hd|Hd]; [done|]. cbn [read_message]. pose proof (f_equal zlen Hx) as Hzx. rewrite zlen_app in Hzx.
  pose proof (zlen_nonneg xs). pose proof (zlen_nonneg bs).
  destruct (read_piece c (now E n).2 xs bs _ Hc ltac:(lia) Hd) as (k & n' & b & Er & Hb & Hk & Hd').
  unfold mbind at 1, runsM_bind at 1. unfold mbind at 1, runsM_bind at 1, does at 1. cbn [fst snd].
  destruct (now E n) as [t n1] eqn:En. cbn [snd] in *. unfold mret at 1, runsM_ret at 1.
  unfold mbind at 1, runsM_bind at 1. rewrite Er. unfold mbind at 1, runsM_bind at 1, look at 1. cbn [fst gc_resp with_resp].
  set (ys := xs ++ take k bs) in *. assert (Ey : ys ++ drop k bs = f) by (unfold ys; rewrite <- app_assoc, take_drop; done).
  assert (Hl : buffer_len b = zlen ys) by (unfold buffer_len; rewrite (gf_off _ _ Hb), (gfull_len _ _ Hb); lia). rewrite Hl.
  assert (Hzy : zlen ys + zlen (drop k bs) = zlen f) by (by rewrite <- zlen_app, Ey).
  pose proof (zlen_nonneg (drop k bs)).
  assert (Hrec : drop k bs <> [] -> exists b' n'', read_message E true rfuel (with_resp c b, n') = Some (None, (with_resp c b', n'')) /\ gfull b' f).
  { intros Hmore. destruct (IH rfuel (drop k bs) n' (with_resp c b) ys) as (b' & n'' & E' & H'); [done|done|done|lia|done|].
    by exists b', n''. }
  destruct (decide (drop k bs = [])) as [Hend|Hmore].
  - rewrite Hend in Ey, Hzy. rewrite app_nil_r in Ey. change (zlen []) with 0 in Hzy.
    assert (4 <= zlen f) by (rewrite Hf, zlen_app, zlen_le_split; pose proof (zlen_nonneg g); lia).
    rewrite (proj2 (Z.ltb_ge _ _)) by lia. exists b, n'. split; [|by rewrite <- Ey].
    unfold mbind, runsM_bind, in_resp. cbn [fst snd gc_resp with_resp].
    rewrite (peek_frame b ys [] f g) by (done || (by rewrite app_nil_r) || lia). cbn [fst snd].
    rewrite if_false by (rewrite Z.gtb_ltb; apply Z.ltb_ge; lia). done.
  - destruct (Z.ltb_spec (zlen ys) 4); [by apply Hrec|].
    unfold mbind at 1, runsM_bind at 1, in_resp at 1. cbn [fst snd gc_resp with_resp].
    rewrite (peek_frame b ys (drop k bs) f g) by (done || lia). cbn [fst snd].
    assert (0 < zlen (drop k bs)) by (destruct (drop k bs) as [|x l]; [done|rewrite zlen_cons; pose proof (zlen_nonneg l); lia]).
    rewrite if_true by (rewrite Z.gtb_ltb; apply Z.ltb_lt; lia). by apply Hrec.
Qed.
(** A node at the other end of the connection, which is in time. *)
Definition go_talks (size : nat) (timeout : Z) (serve : list byte -> option (list byte)) (n : gn_state E) : Prop :=
  let '(t0, n0) := now E n in
  let '(t1, n1) := now E n0 in
  elapsed t0 t1 < timeout /\
  forall bs resp, serve bs = Some resp -> (length resp <= size)%nat ->
    exists n2, conn_write E bs (set_deadline E n1) = ((zlen bs, false), n2) /\ go_delivers size resp n2.

Lemma clear_ok c n :
  gsane (gc_req c) ->
  exists b hdr, client_Clear E (c, n) = Some ((), (with_batch (with_req c b) false false, n)) /\ gfull b hdr /\ zlen hdr = 14.
Proof.
  intros Hs. destruct (room_roomy 14 _ [] (gfull_reset _ Hs)) as (b & Eb & Hs' & Ho & Hl & Hc & _); [done|done|].
  change (zlen []) with 0 in Hl. exists b, (gdata b).
  assert (Hwf : gwf b) by (split; lia). split_and!.
  - unfold client_Clear, mbind, runsM_bind, in_req, puts_buf, buffer_reserve, change. cbn [fst snd gc_req with_req].
    unfold mbind, goM_bind. unfold clientReqHeader. rewrite Eb. done.
  - by split.
  - rewrite zlen_gdata by done. lia.
Qed.

Lemma write_frame c n f n2 :
  gfull (gc_req c) f -> 0 < zlen f -> conn_write E f n = ((zlen f, false), n2) ->
  buffer_writeTo E gc_req (in_req E) (c, n) = Some (None, (with_req c (set_off (gc_req c) (zlen f)), n2)).
Proof.
  intros Hc Hf Hw. pose proof (gfull_len _ _ Hc) as Hl. destruct Hc as [_ _ Ho Hd]. unfold buffer_writeTo, mbind, runsM_bind, look.
  cbn [fst snd]. unfold buffer_len. rewrite Ho, Hl, Z.sub_0_r, if_true by (rewrite Z.gtb_ltb; by apply Z.ltb_lt).
  unfold gdata in Hd. rewrite Hl in Hd. rewrite Hd. unfold does. cbn [fst snd]. rewrite Hw.
  rewrite if_false by (rewrite Z.gtb_ltb; apply Z.ltb_ge; lia). unfold in_req, puts_buf. cbn [fst snd].
  by rewrite Z.eqb_refl, Ho.
Qed.

Lemma send_ok size serve c n f d rfuel fuel :
  gc_connected c = true -> gfull (gc_req c) f -> 0 < zlen f -> gsane (gc_resp c) ->
  msg_ok (client_resp d) -> zlen d < 2 ^ 29 -> serve f = Some (enc_msg (client_resp d)) ->
  go_talks size (gc_timeout c) serve n -> (length (enc_msg (client_resp d)) <= size)%nat -> (size < rfuel)%nat ->
  exists r n', client_send E rfuel (S fuel) (c, n) = send_answer E (with_resp c r, n') /\ gfull r (enc_msg (client_resp d)).
Proof.
  intros Hcon Hreq Hf Hresp Hmsg Hd Hs Ht Hsize Hfuel. unfold go_talks in Ht.
  destruct (now E n) as [t0 n0] eqn:E0. destruct (now E n0) as [t1 n1] eqn:E1. destruct Ht as [Htime Htalk].
  destruct (Htalk _ _ Hs Hsize) as (n2 & Hw & Hdel).
  pose proof (write_frame c (set_deadline E n1) f n2 Hreq Hf Hw) as Hwrite.
  set (c1 := with_resp c (buffer_reset (gc_resp c))).
  assert (Hz : zlen (enc_msg (client_resp d)) = zlen d + 5) by (rewrite enc_client_resp, !zlen_app, !zlen_le_split; lia).
  pose proof (zlen_nonneg d).
  destruct (read_whole (enc_msg (client_resp d)) (le_split 1 MSG_CLIENT_RESP ++ d)) with
    (fuel := size) (rfuel := rfuel) (bs := enc_msg (client_resp d)) (n := n2) (c := c1) (xs := @nil byte)
    as (r & n' & Er & Hr).
  { rewrite Hz. apply enc_client_resp. }
  1: lia. 1: done. 2: done. 2: done. 2: by apply gfull_reset.
  { intros En. rewrite En in Hz. change (zlen []) with 0 in Hz. lia. }
  exists r, n'. split; [|done].
  assert (Hset : buffer_setOffset 0 (set_off (gc_req c) (zlen f)) = Some ((), gc_req c)).
  { unfold buffer_setOffset. cbn [g_mem set_off]. pose proof (zlen_nonneg (g_mem (gc_req c))).
    rewrite if_false by (rewrite Z.gtb_ltb; apply Z.ltb_ge; lia). rewrite <- (gf_off _ _ Hreq). by destruct (gc_req c). }
  unfold client_send, mbind, runsM_bind, does. cbn [fst snd]. rewrite E0. cbn [go_send_loop].
  unfold mbind, runsM_bind, does, look. cbn [fst snd]. rewrite E1, (proj2 (Z.ltb_lt _ _)) by done. cbn [fst snd]. rewrite Hcon.
  unfold mret, runsM_ret, send_connected, mbind, runsM_bind, does. cbn [fst snd]. rewrite Hwrite.
  unfold in_req at 1. cbn [fst snd gc_req with_req]. rewrite Hset. unfold in_resp at 1, puts_buf. cbn [fst snd gc_resp with_req with_resp].
  replace (with_resp (with_req (with_req c (set_off (gc_req c) (zlen f))) (gc_req c)) (buffer_reset (gc_resp c))) with c1
    by (unfold c1; by destruct c).
  rewrite Er. unfold c1. change (with_resp (with_resp c ?x) ?y) with (with_resp c y).
  by destruct (send_answer E (with_resp c r, n')) as [[e s]|].
Qed.
End exchange.

(** ** The answer *)

Section answers.
Variable E : gonet.
#[local] Existing Instances runsM_ret runsM_bind.

(** What the caller of [Execute] gets for an answer of the node. *)
Definition go_sees (a : answer) (r : option (option go_error * (go_client * gn_state E))) : Prop :=
  match a with
  | Answered reps =>
      Forall go_reply_ok reps -> forall fuel, (replies_fuel reps <= fuel)%nat ->
      exists c n b, r = Some (None, (c, n)) /\ go_replies fuel (gc_result c) (gc_resp c) = Some (map unnamed reps, b)
  | Refused (Some err) => zlen err < maxStrLen -> exists s, r = Some (Some (errServer err), s)
  | Refused None => True
  end.

Lemma in_resp_takes {A} (m : goM A) bs a c n r rest :
  gtakes m bs a -> gwf r -> unread r = bs ++ rest ->
  in_resp E m (with_resp c r, n) = Some (a, (with_resp c (set_off r (g_off r + zlen bs)), n)).
Proof. intros Hm Hwf Hu. unfold in_resp. cbn [fst snd gc_resp with_resp]. by rewrite (Hm r rest Hwf Hu). Qed.

(** The first bytes of a response: [send] clears the request and comes to the answer. *)
Lemma answer_head c n r d :
  gfull r (enc_msg (client_resp d)) -> gsane (gc_req c) -> zlen d + 5 < 2 ^ 31 ->
  exists b, send_answer E (with_resp c r, n) =
    (rc ← in_resp E buffer_readUint8;
     if negb (rc =? MSG_FLAG_OK) then
       s ← in_resp E buffer_readString;
       match s with None => crash E | Some s => mret (Some (errServer s)) end
     else mret None) (with_resp (with_batch (with_req c b) false false) (set_off r 5), n) /\
    gwf (set_off r 5) /\ unread (set_off r 5) = d.
Proof.
  intros Hr Hs Hl. pose proof (zlen_nonneg d). pose proof (gf_wf _ _ Hr) as Hwf. pose proof (gf_off _ _ Hr) as Ho.
  assert (Hu : unread r = le_split 4 (zlen d + 5) ++ le_split 1 MSG_CLIENT_RESP ++ d).
  { rewrite <- enc_client_resp, <- (gf_data _ _ Hr). unfold unread, gdata, buffer_len. by rewrite Ho, Z.sub_0_r. }
  destruct (unread_skip _ _ _ Hwf Hu) as [Hwf1 Hu1]. rewrite Ho, zlen_le_split in Hwf1, Hu1. change (0 + Z.of_nat 4) with 4 in *.
  destruct (unread_skip _ _ _ Hwf1 Hu1) as [Hwf2 Hu2]. cbn [g_off set_off] in Hwf2, Hu2. rewrite zlen_le_split in Hwf2, Hu2.
  change (set_off (set_off r 4) (4 + Z.of_nat 1)) with (set_off r 5) in *.
  destruct (clear_ok E (with_resp c (set_off r 4)) n Hs) as (b & hdr & Ec & _ & _). exists b. split_and!; [|done|done].
  unfold send_answer. unfold mbind at 1, runsM_bind at 1.
  rewrite (in_resp_takes buffer_readUint32 _ _ c n r _ (gtakes_int_small 4 (zlen d + 5) ltac:(simpl; lia)) Hwf Hu).
  rewrite Ho, zlen_le_split. change (0 + Z.of_nat 4) with 4. unfold mbind at 1, runsM_bind at 1. rewrite Ec.
  change (with_batch (with_req (with_resp c (set_off r 4)) b) false false) with (with_resp (with_batch (with_req c b) false false) (set_off r 4)).
  unfold mbind at 1, runsM_bind at 1.
  by rewrite (in_resp_takes _ _ _ _ n (set_off r 4) _ (gtakes_flag MSG_CLIENT_RESP ltac:(done)) Hwf1 Hu1).
Qed.

Lemma answered_seen_go c n r p reps :
  gfull r (enc_msg (client_resp (enc_answer (Answered (p :: reps))))) -> gsane (gc_req c) ->
  zlen (enc_answer (Answered (p :: reps))) < 2 ^ 29 ->
  go_sees (Answered (p :: reps)) ((send_answer E ≫= execute_end E) (with_resp c r, n)).
Proof.
  intros Hr Hs Hl Hok fuel Hf. destruct (answer_head c n r _ Hr Hs) as (b & Ea & Hwf & Hu); [lia|].
  set (d := enc_answer (Answered (p :: reps))) in *. set (c1 := with_batch (with_req c b) false false) in *.
  assert (Hd : d = enc_flag MSG_FLAG_OK ++ enc_reply p ++ concat (map enc_reply reps) ++ enc_flag MSG_FLAG_MSG_END)
    by (unfold d; cbn [enc_answer map concat]; by rewrite <- app_assoc).
  rewrite Hd in Hu. destruct (unread_skip _ _ _ Hwf Hu) as [Hwf6 Hu6]. cbn [g_off set_off] in Hwf6, Hu6.
  change (set_off (set_off r 5) (5 + zlen (enc_flag MSG_FLAG_OK))) with (set_off r 6) in *.
  apply Forall_cons in Hok as [Hp Hok].
  assert (Hat : at_reply (enc_msg (client_resp d)) (enc_reply p ++ concat (map enc_reply reps) ++ enc_flag MSG_FLAG_MSG_END ++ [])
    6 (set_off r 6)).
  { pose proof (gf_wf _ _ Hr) as Hwr. split; [done|exact (gf_data _ _ Hr)| |].
    - rewrite enc_client_resp, Hd, !zlen_app, !zlen_le_split. change (zlen (enc_flag MSG_FLAG_OK)) with 1.
      repeat match goal with |- context [zlen ?l] => lazymatch goal with H : 0 <= zlen l |- _ => fail | _ => pose proof (zlen_nonneg l) end end. lia.
    - rewrite app_nil_r, <- Hu6. rewrite unread_at; [by rewrite (gf_data _ _ Hr)|done|]. pose proof Hwf6 as [Hx _]. exact Hx. }
  set (r0 := mk_gresult (r_lastRowId (gc_result c)) (r_linesChanged (gc_result c)) 6 (r_rowCount (gc_result c))
    (r_remainingRows (gc_result c)) (r_columns (gc_result c)) ∅ [] []).
  assert (Hsmall : zlen (enc_msg (client_resp d)) < 2 ^ 31) by (rewrite enc_client_resp, !zlen_app, !zlen_le_split; lia).
  destruct (replies_step _ [] reps Hok Hsmall p fuel r0 (set_off r 6) Hp Hf Hat) as (r' & b' & E1 & b'' & E2).
  exists (with_result (with_resp c1 b') r'), n, b''. split; [|exact E2].
  unfold mbind at 1, runsM_bind at 1. rewrite Ea. unfold mbind at 1, runsM_bind at 1.
  rewrite (in_resp_takes _ _ _ c1 n (set_off r 5) _ (gtakes_flag MSG_FLAG_OK ltac:(done)) Hwf Hu).
  rewrite Z.eqb_refl. cbn [negb]. unfold mret at 1, runsM_ret at 1. unfold execute_end, mbind, runsM_bind, look, change, in_resp.
  cbn [fst snd gc_result gc_resp with_resp]. unfold result_set, mbind, goM_bind, gets.
  change (set_off (set_off r 5) (g_off (set_off r 5) + zlen (enc_flag MSG_FLAG_OK))) with (set_off r 6).
  change (gc_result c1) with (gc_result c). cbn [g_off set_off]. fold r0. rewrite E1. done.
Qed.

Lemma refused_seen_go c n r err :
  gfull r (enc_msg (client_resp (enc_answer (Refused err)))) -> gsane (gc_req c) ->
  zlen (enc_answer (Refused err)) < 2 ^ 29 ->
  go_sees (Refused err) ((send_answer E ≫= execute_end E) (with_resp c r, n)).
Proof.
  intros Hr Hs Hl. destruct err as [err|]; [|done]. intros Herr.
  destruct (answer_head c n r _ Hr Hs) as (b & Ea & Hwf & Hu); [lia|].
  set (c1 := with_batch (with_req c b) false false) in *. cbn [enc_answer] in Hu.
  destruct (unread_skip _ _ _ Hwf Hu) as [Hwf6 Hu6]. cbn [g_off set_off] in Hwf6, Hu6.
  change (set_off (set_off r 5) (5 + zlen (enc_flag MSG_FLAG_ERROR))) with (set_off r 6) in *.
  unfold mbind at 1, runsM_bind at 1. rewrite Ea. unfold mbind at 1, runsM_bind at 1.
  rewrite (in_resp_takes _ _ _ c1 n (set_off r 5) _ (gtakes_flag MSG_FLAG_ERROR ltac:(done)) Hwf Hu).
  change (negb (MSG_FLAG_ERROR =? MSG_FLAG_OK)) with true. cbv iota. unfold mbind at 1, runsM_bind at 1.
  change (set_off (set_off r 5) (g_off (set_off r 5) + zlen (enc_flag MSG_FLAG_ERROR))) with (set_off r 6).
  rewrite (in_resp_takes _ _ _ c1 n (set_off r 6) _ (gtakes_string err Herr) Hwf6 Hu6). by eexists.
Qed.
End answers.

Definition go_request_seq (readonly : bool) (c : go_client) : Z := if readonly then gc_seq c else u64 (gc_seq c + 1).

Section theorem.
Variable E : gonet.
#[local] Existing Instances runsM_ret runsM_bind.

(** [Execute] closes the last statement and writes the header. *)
Lemma execute_sends rfuel fuel readonly c n hdr ys ops :
  gc_hasStatement c = true -> gc_misuse c = false -> gfull (gc_req c) (hdr ++ ys) -> zlen hdr = 14 ->
  ys ++ op_close = concat (map enc_op ops) -> zlen (enc_request ops) + 14 < 2 ^ 32 ->
  exists c', client_Execute E rfuel fuel readonly (c, n) = (client_send E rfuel fuel ≫= execute_end E) (c', n) /\
    gfull (gc_req c') (enc_msg (client_req (go_request_seq readonly c) readonly (enc_request ops))) /\
    gc_connected c' = gc_connected c /\ gc_timeout c' = gc_timeout c /\ gc_resp c' = gc_resp c.
Proof.
  intros Hst Hmis Hreq Hh Hy Hl. assert (Er : ys ++ op_close ++ enc_flag MSG_FLAG_MSG_END = enc_request ops)
    by (unfold enc_request; by rewrite <- Hy, <- app_assoc).
  pose proof (f_equal zlen Er) as Hz. rewrite zlen_app in Hz. change (zlen (op_close ++ enc_flag MSG_FLAG_MSG_END)) with 3 in Hz.
  destruct (rputs_seq E _ _ _ _ (rputs_req E _ _ (gputs_flag MSG_BIND_END))
    (rputs_seq E _ _ _ _ (rputs_req E _ _ (gputs_flag MSG_FLAG_OP_END)) (rputs_req E _ _ (gputs_flag MSG_FLAG_MSG_END))) c n _ Hst Hreq)
    as (b & Eb & Hb).
  { rewrite zlen_app. change (zlen (enc_flag MSG_BIND_END ++ enc_flag MSG_FLAG_OP_END ++ enc_flag MSG_FLAG_MSG_END)) with 3. lia. }
  assert (Hb' : gfull b (hdr ++ enc_request ops)) by (rewrite <- Er; unfold op_close; by rewrite <- !app_assoc in *).
  set (c1 := with_batch (with_req c b) false false).
  set (c2 := if readonly then c1 else with_seq c1 (u64 (gc_seq c1 + 1))).
  assert (Hseq : gc_seq c2 = go_request_seq readonly c) by (unfold c2, go_request_seq; by destruct readonly).
  destruct (header_written b hdr (enc_request ops) readonly (gc_seq c2) Hb' Hh) as (b2 & Eh & Hb2); [lia|].
  exists (with_req c2 b2). split_and!.
  2: by rewrite <- Hseq.
  2,3,4: unfold c2; by destruct readonly.
  unfold client_Execute. unfold mbind at 1, runsM_bind at 1, look at 1. cbn [fst snd id]. rewrite Hst, Hmis. cbn [negb orb].
  unfold mbind, runsM_bind in Eb |- *. revert Eb.
  destruct (in_req E (buffer_writeUint8 MSG_BIND_END) (c, n)) as [[[] s1]|]; [|done].
  destruct (in_req E (buffer_writeUint8 MSG_FLAG_OP_END) s1) as [[[] s2]|]; [|done]. intros ->.
  unfold change at 1. cbn [fst snd]. change (gc_misuse (with_req c b)) with (gc_misuse c). rewrite Hmis. fold c1.
  assert (Es : stamp E readonly (c1, n) = Some ((), (with_req c2 b2, n))).
  { unfold stamp, mbind, runsM_bind, look, change, in_req, mret, runsM_ret. unfold c2 in *. destruct readonly; cbn [fst snd id].
    - change (gc_req c1) with b. by rewrite Eh.
    - change (gc_req (with_seq c1 ?x)) with b. by rewrite Eh. }
  by rewrite Es.
Qed.

(** C6: the Go client and the state machine.  A client with an open connection stages
    statements and parameters and executes them.  The bytes it sends are the request of these
    operations, the node runs it, and [Execute] returns without an error and with result sets
    whose rows, values, changes and row ids are the replies of SQLite to the operations, or
    with the message of the node as the error.  The response may arrive in pieces of any
    size. *)
Theorem go_roundtrip Q aux size sfuel rfuel fuel index readonly p ps c n w out rc a progress w' :
  sqlite_answers Q -> forallb go_op_ok (p :: ps) = true -> Forall op_ok (p :: ps) -> (ops_fuel (p :: ps) <= sfuel)%nat ->
  direct_request Q aux readonly index (p :: ps) w = Some (rc, Some a, progress, w') ->
  node_ready out (go_request_seq readonly c) readonly (p :: ps) a progress ->
  gc_connected c = true -> gsane (gc_req c) -> gsane (gc_resp c) ->
  go_talks E size (gc_timeout c) (serve Q aux sfuel index w out) n -> (length (frame a) <= size)%nat -> (size < rfuel)%nat ->
  go_sees E a ((client_Clear E;; (go_op_calls E (p :: ps);; client_Execute E rfuel (S fuel) readonly)) (c, n)).
Proof.
  intros Hq Hgo Hok Hf Hd Hn Hcon Hreq Hresp Ht Hsize Hrf. cbn [forallb] in Hgo. apply andb_true_iff in Hgo as [Hp Hps].
  pose proof (serve_answers Q aux sfuel index readonly (p :: ps) w out _ rc a progress w' Hq Hok Hf Hn Hd) as Hs.
  pose proof (frame_len_bound _ (nr_req _ _ _ _ _ _ Hn)) as Hl. unfold MSG_MAX_SIZE in Hl.
  rewrite <- zlen_enc_msg, enc_client_req, !zlen_app, !zlen_le_split in Hl. pose proof (zlen_nonneg (enc_request (p :: ps))).
  destruct (clear_ok E c n Hreq) as (b & hdr & Ec & Hb & Hh). set (c1 := with_batch (with_req c b) false false) in *.
  destruct (calls_put E ps Hps p c1 n hdr Hp Hb) as (b1 & ys & E1 & H1 & Hy).
  { unfold enc_request in Hl. rewrite zlen_app in Hl. pose proof (zlen_nonneg (enc_flag MSG_FLAG_MSG_END)). lia. }
  set (c2 := with_req (with_batch c1 true (gc_misuse c1)) b1) in *. cbn [app] in Hy. change (gc_hasStatement c1) with false in Hy.
  destruct (execute_sends rfuel (S fuel) readonly c2 n hdr ys (p :: ps) eq_refl eq_refl H1 Hh Hy) as (c3 & E3 & Hb3 & Hcon3 & Ht3 & Hr3); [lia|].
  change (go_request_seq readonly c2) with (go_request_seq readonly c) in Hb3.
  set (f := enc_msg (client_req (go_request_seq readonly c) readonly (enc_request (p :: ps)))) in *.
  assert (Hf0 : 0 < zlen f) by (unfold f; rewrite enc_client_req, !zlen_app, !zlen_le_split; lia).
  destruct (send_ok E size (serve Q aux sfuel index w out) c3 n f (enc_answer a) rfuel fuel) as (r & n' & Es & Hr);
    try first [exact Hb3|exact Hs|done|apply Hn]; [by rewrite Hcon3|by rewrite Hr3|by rewrite Ht3|].
  unfold mbind at 1, runsM_bind at 1. rewrite Ec. unfold mbind at 1, runsM_bind at 1. fold c1. rewrite E1. fold c2. rewrite E3.
  assert (Em : (client_send E rfuel (S fuel) ≫= execute_end E) (c3, n) = (send_answer E ≫= execute_end E) (with_resp c3 r, n')).
  { unfold mbind, runsM_bind. by rewrite Es. }
  rewrite Em. pose proof (gf_sane _ _ Hb3) as Hsane. destruct a as [reps|err].
  - pose proof (answered_length _ _ _ _ _ _ _ _ _ _ Hd) as Hlen. destruct reps as [|q reps]; [done|].
    apply answered_seen_go; [exact Hr|exact Hsane|apply Hn].
  - apply refused_seen_go; [exact Hr|exact Hsane|apply Hn].
Qed.
End theorem.

(** A connection that delivers what the node answers in pieces of three bytes; the time
    stands still and the node is never dialed. *)
Definition go_pipe (serve : list byte -> option (list byte)) : gonet := {|
  gn_state := list byte;
  now := fun n => (0, n);
  dial_tcp := fun _ n => (false, n);
  set_deadline := fun n => n;
  conn_write := fun bs n => match serve bs with Some r => ((zlen bs, false), r) | None => ((0, true), n) end;
  conn_read := fun q n =>
    match n with
    | [] => (([], true), n)
    | _ => ((take (Z.to_nat q `min` 3) n, false), drop (Z.to_nat q `min` 3) n)
    end;
  conn_close := fun n => (true, n);
  url_parse := fun s => Some (mk_url (text "tcp") s)
|}.

Lemma go_pipe_delivers serve fuel : forall bs, (length bs <= fuel)%nat -> go_delivers (go_pipe serve) fuel bs bs.
Proof.
  induction fuel as [|fuel IH]; intros bs Hl; [by destruct bs; [|simpl in Hl; lia]|].
  destruct bs as [|b bs]; [by left|]. right. intros q Hq. set (m := (Z.to_nat q `min` 3)%nat).
  assert (Hm : (0 < m)%nat) by lia. exists (m `min` length (b :: bs))%nat, (drop m (b :: bs)). split_and!.
  - cbn [length]. lia.
  - lia.
  - lia.
  - cbn [go_pipe conn_read now snd]. fold m. by rewrite <- take_take, firstn_all.
  - replace (drop (m `min` length (b :: bs)) (b :: bs)) with (drop m (b :: bs)).
    + apply IH. rewrite length_drop. lia.
    + destruct (decide (m <= length (b :: bs))%nat); [f_equal; lia|]. rewrite !drop_ge by lia. done.
Qed.

Lemma go_pipe_talks serve size timeout n : 0 < timeout -> go_talks (go_pipe serve) size timeout serve n.
Proof.
  intros Ht. split; [exact Ht|]. intros bs resp Hs Hl. exists resp. cbn [go_pipe conn_write set_deadline]. rewrite Hs.
  split; [done|by apply go_pipe_delivers].
Qed.

Definition demo_go_client : go_client :=
  with_connected (new_go_client (mk_Config (text "client") [] 2000 None) [] []) true.

Abbreviation demo_go_net := (go_pipe (serve rows_sqlite demo_aux 10 0 rows_world (sc_buf_init 512))).

Lemma new_buffer_sane : gsane new_buffer.
Proof. split; [done|]. vm_compute. reflexivity. Qed.

Lemma go_roundtrip_witness : exists c n b,
  (let ret := runsM_ret demo_go_net in let bind := runsM_bind demo_go_net in
   client_Clear demo_go_net;; (go_op_calls demo_go_net (demo_op :: demo_more);; client_Execute demo_go_net 300 1 true))
    (demo_go_client, []) = Some (None, (c, n)) /\
  go_replies 10 (gc_result c) (gc_resp c) = Some (map unnamed [rows_reply; rows_reply], b).
Proof.
  destruct demo_run as (progress & w & Ed & Hl).
  pose proof (go_roundtrip demo_go_net rows_sqlite demo_aux 200 10 300 0 0 true demo_op demo_more demo_go_client [] rows_world
    (sc_buf_init 512) RS_OK (Answered [rows_reply; rows_reply]) progress w) as H.
  unfold go_sees in H. apply H; clear H.
  - apply rows_sqlite_answers.
  - vm_compute. reflexivity.
  - apply (bool_decide_unpack _). vm_compute. reflexivity.
  - vm_compute. repeat constructor.
  - exact Ed.
  - by apply demo_node.
  - reflexivity.
  - apply new_buffer_sane.
  - apply new_buffer_sane.
  - apply go_pipe_talks. vm_compute. reflexivity.
  - vm_compute. repeat constructor.
  - apply (bool_decide_unpack _). vm_compute. reflexivity.
  - repeat constructor; vm_compute; first [reflexivity|discriminate|split; discriminate || reflexivity|idtac].
  - vm_compute. repeat constructor.
Defined.

(** ** What the Go client does not do *)

(** *** A request is lost with its connection

    [connect] ends with [Clear], also when [send] calls it for a request that is waiting: what
    is sent on the new connection is the header alone, for which the node waits for the
    rest. *)
Lemma clear_cuts E c n f :
  gfull (gc_req c) f -> 14 <= zlen f ->
  exists b, client_Clear E (c, n) = Some ((), (with_batch (with_req c b) false false, n)) /\ gfull b (take 14 f).
Proof.
  intros Hf Hl. pose proof (gfull_len _ _ Hf) as Hn. destruct Hf as [Hs [Hw1 Hw2] Ho Hd].
  exists (set_len (buffer_reset (gc_req c)) 14). split.
  - unfold client_Clear, mbind, runsM_bind, in_req, puts_buf, change, buffer_reserve. cbn [fst snd gc_req with_req].
    unfold mbind, goM_bind, room, tryGrowByReslice, clientReqHeader. cbn [g_mem g_len buffer_reset set_off set_len].
    rewrite (proj2 (Z.leb_le _ _)) by lia. done.
  - split; [by destruct Hs|split; cbn -[zlen]; lia|done|]. unfold gdata in *. cbn [g_mem g_len buffer_reset set_off set_len].
    rewrite <- Hd. unfold mread. rewrite drop_0, take_take. f_equal. rewrite Hn. unfold zlen in *. lia.
Qed.

Lemma cleared_request_partial E c n seq readonly body :
  msg_ok (client_req seq readonly body) -> body <> [] -> gfull (gc_req c) (enc_msg (client_req seq readonly body)) ->
  exists b hdr, client_Clear E (c, n) = Some ((), (with_batch (with_req c b) false false, n)) /\ gfull b hdr /\
    msg_parse (sc_buf_wrap hdr (zlen hdr) SC_BUF_READ) = ((RS_PARTIAL, None), sc_buf_wrap hdr (zlen hdr) SC_BUF_READ).
Proof.
  intros Hok Hne Hf. set (f := enc_msg (client_req seq readonly body)) in *.
  assert (Hz : zlen f = 14 + zlen body) by (unfold f; rewrite enc_client_req, !zlen_app, !zlen_le_split; lia).
  pose proof (zlen_nonneg body).
  destruct (clear_cuts E c n f Hf) as (b & Ec & Hb); [lia|]. exists b, (take 14 f). split_and!; [done|done|].
  assert (Hl : zlen (take 14 f) = 14) by (unfold zlen in *; rewrite length_take; lia).
  destruct (wrap_contents (take 14 f) SC_BUF_READ) as [Hwf Hc]; [done|lia|].
  apply (msg_parse_partial _ _ (take 14 f) (drop 14 f) Hwf Hok); [by rewrite take_drop| |done].
  intros Hd. apply (f_equal length) in Hd. rewrite length_drop in Hd. change (length []) with 0%nat in Hd. destruct body; [done|].
  rewrite zlen_cons in Hz. pose proof (zlen_nonneg body). unfold zlen in *. lia.
Qed.

(** A connection that is lost when the request is sent.  Every reading of the clock takes half a
    second; the node accepts new connections and gives no answer to what it cannot parse. *)
Record lost := mk_lost { lo_time : Z; lo_broken : bool; lo_log : list (list byte); lo_pending : list byte }.

Definition lost_net : gonet := {|
  gn_state := lost;
  now := fun n => (lo_time n, mk_lost (lo_time n + 500000000) (lo_broken n) (lo_log n) (lo_pending n));
  dial_tcp := fun _ n => (true, mk_lost (lo_time n) false (lo_log n) []);
  set_deadline := fun n => n;
  conn_write := fun bs n =>
    if lo_broken n then ((0, true), n)
    else
      let answer := match msg_parse (sc_buf_wrap bs (zlen bs) SC_BUF_READ) with
        | ((RS_OK, Some (connect_req _ _ _ _)), _) => enc_msg (connect_resp 0 0 1 (Some (text "tcp://n@h:1")))
        | _ => []
        end in
      ((zlen bs, false), mk_lost (lo_time n) false (lo_log n ++ [bs]) answer);
  conn_read := fun q n =>
    match lo_pending n with
    | [] => (([], true), n)
    | bs => ((bs, false), mk_lost (lo_time n) false (lo_log n) [])
    end;
  conn_close := fun n => (true, n);
  url_parse := fun s => Some (mk_url (text "tcp") s)
|}.

(** The request is 31 bytes long; what the node sees of it after the client has connected again
    is its header, until the time is over. *)
Lemma reconnect_loses_request :
  let ret := runsM_ret lost_net in let bind := runsM_bind lost_net in
  let c := with_urls demo_go_client [mk_url (text "tcp") (text "h:1")] 0 in
  exists hello hdr c' n,
    (client_Clear lost_net;; (go_op_calls lost_net [OStmt (Some (text "SELECT 1")) []];; client_Execute lost_net 5 10 true))
      (c, mk_lost 0 true [] []) = Some (Some errTimeout, (c', n)) /\
    lo_log n = [hello; hdr] /\ zlen hdr = 14 /\
    hdr = take 14 (enc_msg (client_req 0 true (enc_request [OStmt (Some (text "SELECT 1")) []]))).
Proof. eexists _, _, _, _. split; [vm_compute; reflexivity|]. split_and!; vm_compute; reflexivity. Qed.

(** *** The message of [Shutdown] is one byte short

    The length counts the return code twice, so the node waits for an eleventh byte. *)
Lemma disconnect_is_partial : exists b,
  encodeDisconnectReq 0 0 new_buffer = Some ((), b) /\ zlen (gdata b) = 10 /\
  msg_parse (sc_buf_wrap (gdata b) 10 SC_BUF_READ) = ((RS_PARTIAL, None), sc_buf_wrap (gdata b) 10 SC_BUF_READ).
Proof. eexists. split; [vm_compute; reflexivity|]. split; vm_compute; reflexivity. Qed.

(** *** Column names of the first result stay

    [NextResultSet] adds the names of the columns behind those of the results before. *)
Lemma second_result_names :
  let d := enc_reply (RRows 0 0 [Some (text "a")] []) ++ enc_reply (RRows 0 0 [Some (text "b")] []) in
  fst <$> (r ← result_set (mk_gresult 0 0 0 0 0 0 ∅ [] []); '(ok, r) ← result_NextResultSet r;
    mret (ok, r_columns r, result_ColumnName r 0, result_ColumnName r 1)) (mk_buffer false d (zlen d) 0)
  = Some (true, 1, inr (text "a"), inr (text "b")).
Proof. vm_compute. reflexivity. Qed.

(** *** A null string is not recognized

    [readString] compares the length with the largest length of a string instead of the mark
    of a null string; the sum [length + 1] wraps to zero, and the result is a string of 2^32 - 1
    bytes. *)
Lemma null_string_read b rest :
  gwf b -> unread b = enc_str None ++ rest -> zlen rest < 2 ^ 31 ->
  exists s b', buffer_readString b = Some (Some s, b') /\ zlen s = 2 ^ 32 - 1 /\ g_off b' = g_len b + 1.
Proof.
  intros Hwf Hu Hl. cbn [enc_str] in Hu. destruct (unread_skip _ _ _ Hwf Hu) as [Hwf1 Hu1]. rewrite zlen_le_split in Hwf1, Hu1.
  pose proof (zlen_unread _ Hwf1) as Hz. rewrite Hu1 in Hz. pose proof (zlen_nonneg rest).
  unfold buffer_readString, buffer_readUint32, mbind, goM_bind.
  rewrite (gtakes_int_small 4 UINT32_MAX ltac:(done) b rest Hwf Hu). rewrite zlen_le_split.
  set (b1 := set_off b (g_off b + Z.of_nat 4)) in *. change (UINT32_MAX =? maxStrLen) with false. cbv iota. unfold gets.
  change (u32 (UINT32_MAX + 1)) with 0. rewrite (proj2 (Z.ltb_ge _ _)) by lia. rewrite <- Hz, Z.min_r by (unfold UINT32_MAX; lia).
  unfold puts_buf, mret, goM_ret. eexists _, _. split; [reflexivity|]. split.
  - unfold unread in Hu1. rewrite <- Hz in Hu1. rewrite Hu1, zlen_app, zlen_zeros by (unfold UINT32_MAX; lia). unfold UINT32_MAX. lia.
  - unfold buffer_len in Hz. cbn [g_off set_off]. unfold b1 in *. cbn [g_off g_len set_off] in *. lia.
Qed.
