(* ===== verification/Disk.v ===== *)
(** * Files and crashes (src/file.c, and the files of src/server.c and src/snapshot.c)

    The functions of file.c over a model of the file system, and what the server writes
    with them: the file with the vote and the configuration, and the snapshots.

    - A file is an inode with its bytes; bytes that were written and not flushed with
      fsync can be anything after a crash.
    - Creating, removing and renaming files changes the directory in the cache; these
      changes reach the disk in their order, at the latest when the directory is flushed.
    - Every call of the operating system takes the next outcome of a sequence [io]: it may
      fail, and a write may take a part of the bytes.  All states the file system goes
      through are kept, since a crash may happen between any two calls. *)

From Stdlib Require Import ZArith Lia.
From Stdlib Require Import Strings.Byte.
From stdpp Require Import base list numbers gmap strings.
From S2P Require Import Prelude Str Uri Buf Entry Page Store Msg Map Meta Sql Server.

Abbreviation path := (list byte).

(** ** The file system *)

Record inode := mk_inode { i_data : list byte; i_synced : bool }.

Inductive dir_op :=
| Link (p : path) (i : nat)
| Unlink (p : path)
| Rename (src dst : path).

(** Files, the directory as it is on the disk, and the changes that are only in the cache. *)
Record fs := mk_fs { fs_inodes : list inode; fs_disk : gmap path nat; fs_pending : list dir_op }.

Definition dir_apply (m : gmap path nat) (op : dir_op) : gmap path nat :=
  match op with
  | Link p i => <[p := i]> m
  | Unlink p => delete p m
  | Rename src dst => match m !! src with None => m | Some i => <[dst := i]> (delete src m) end
  end.

(** The directory when the first [k] changes have reached the disk. *)
Definition dir_after (s : fs) (k : nat) : gmap path nat := foldl dir_apply (fs_disk s) (take k (fs_pending s)).

(** The directory a program sees. *)
Definition dir_now (s : fs) : gmap path nat := dir_after s (length (fs_pending s)).

Definition file_in (s : fs) (m : gmap path nat) (p : path) : option (list byte) :=
  i ← m !! p; i_data <$> fs_inodes s !! i.

(** The bytes a program reads from a file. *)
Definition visible (s : fs) (p : path) : option (list byte) := file_in s (dir_now s) p.

(** A crash: [k] changes of the directory have reached the disk, and files that were not
    flushed hold the bytes [junk]. *)
Definition crash (k : nat) (junk : nat -> list byte) (s : fs) : fs :=
  mk_fs (imap (fun i n => mk_inode (if i_synced n then i_data n else junk i) true) (fs_inodes s)) (dir_after s k) [].

Definition set_inode (s : fs) (i : nat) (n : inode) : fs := mk_fs (<[i := n]> (fs_inodes s)) (fs_disk s) (fs_pending s).
Definition dir_do (s : fs) (op : dir_op) : fs := mk_fs (fs_inodes s) (fs_disk s) (fs_pending s ++ [op]).

(** Bytes written at a position; a gap behind the end is filled with zeros. *)
Definition pwrite (data : list byte) (pos : nat) (bs : list byte) : list byte :=
  take pos (data ++ replicate (pos - length data) x00) ++ bs ++ drop (pos + length bs) data.

Definition write_inode (s : fs) (i pos : nat) (bs : list byte) : fs :=
  match bs, fs_inodes s !! i with
  | [], _ | _, None => s
  | _, Some n => set_inode s i (mk_inode (pwrite (i_data n) pos bs) false)
  end.

Definition sync_inode (s : fs) (i : nat) : fs :=
  match fs_inodes s !! i with
  | None => s
  | Some n => set_inode s i (mk_inode (i_data n) true)
  end.

Definition sync_dir (s : fs) : fs := mk_fs (fs_inodes s) (dir_now s) [].

(** [O_CREAT | O_TRUNC] *)
Definition create (s : fs) (p : path) : nat * fs :=
  match dir_now s !! p with
  | Some i => (i, set_inode s i (mk_inode [] false))
  | None =>
      let i := length (fs_inodes s) in
      (i, dir_do (mk_fs (fs_inodes s ++ [mk_inode [] false]) (fs_disk s) (fs_pending s)) (Link p i))
  end.

(** ** System calls *)

(** [EIO] stands for every other error. *)
Inductive errno := ENOSPC | EINTR | ENOENT | EIO.

#[export] Instance errno_eq_dec : EqDecision errno.
Proof. solve_decision. Defined.

(** What a call answers: an error, and how many bytes it took. *)
Record outcome := mk_outcome { o_err : option errno; o_n : nat }.

(** The file system, the number of calls made, and the states the file system was in. *)
Record disk := mk_disk { d_fs : fs; d_io : nat; d_seen : list fs }.

(** A result [None]: the process ends in the middle of a function. *)
Definition fsM (A : Type) : Type := disk -> option A * disk.

#[export] Instance fsM_ret : MRet fsM := fun A a d => (Some a, d).
#[export] Instance fsM_bind : MBind fsM := fun A B k m d =>
  match m d with (Some a, d) => k a d | (None, d) => (None, d) end.

Definition dies {A} : fsM A := fun d => (None, d).

Section calls.
Variable io : nat -> outcome.

Definition sys {A} (f : outcome -> fs -> A * fs) : fsM A := fun d =>
  let '(a, s) := f (io (d_io d)) (d_fs d) in (Some a, mk_disk s (S (d_io d)) (s :: d_seen d)).

(** [FILE]: the inode, the position, and the bytes that are still in the buffer of the
    stream. *)
Record stream := mk_stream { sm_ino : nat; sm_pos : nat; sm_buf : list byte }.

Inductive file_mode := mode_w | mode_r.

(** [fopen(path, "w+")] and [fopen(path, "r")] *)
Definition fopen (p : path) (mode : file_mode) : fsM (errno + stream) := sys (fun o s =>
  match o_err o, mode with
  | Some e, _ => (inl e, s)
  | None, mode_w => let '(i, s) := create s p in (inr (mk_stream i 0 []), s)
  | None, mode_r =>
      match dir_now s !! p with
      | None => (inl ENOENT, s)
      | Some i => (inr (mk_stream i 0 []), s)
      end
  end).

(** The kernel takes [n] bytes of those in the buffer. *)
Definition drain (fp : stream) (n : nat) (s : fs) : stream * fs :=
  let bs := take n (sm_buf fp) in
  (mk_stream (sm_ino fp) (sm_pos fp + length bs) (drop n (sm_buf fp)), write_inode s (sm_ino fp) (sm_pos fp) bs).

(** [fwrite]: some of the bytes are written, the others stay in the buffer.  An error is
    returned as a count that is too small. *)
Definition fwrite (bs : list byte) (fp : stream) : fsM (option errno * stream) :=
  match bs with
  | [] => mret (None, fp)
  | _ => sys (fun o s =>
      let '(fp, s) := drain (mk_stream (sm_ino fp) (sm_pos fp) (sm_buf fp ++ bs)) (o_n o) s in ((o_err o, fp), s))
  end.

Definition fflush (fp : stream) : fsM (option errno * stream) := sys (fun o s =>
  let n := match o_err o with None => length (sm_buf fp) | Some _ => o_n o end in
  let '(fp, s) := drain fp n s in ((o_err o, fp), s)).

(** The stream is gone also when writing the buffer failed. *)
Definition fclose (fp : stream) : fsM (option errno) := sys (fun o s =>
  let n := match o_err o with None => length (sm_buf fp) | Some _ => o_n o end in
  let '(_, s) := drain fp n s in (o_err o, s)).

Definition fseek (fp : stream) (off : nat) : fsM (option errno * stream) := sys (fun o s =>
  let n := match o_err o with None => length (sm_buf fp) | Some _ => o_n o end in
  let '(fp, s) := drain fp n s in
  match o_err o with
  | None => ((None, mk_stream (sm_ino fp) off (sm_buf fp)), s)
  | Some e => ((Some e, fp), s)
  end).

(** [fread]: the bytes, fewer than [size] at the end of the file or after an error. *)
Definition fread (fp : stream) (size : nat) : fsM (list byte * stream) := sys (fun o s =>
  let data := match fs_inodes s !! sm_ino fp with None => [] | Some n => i_data n end in
  let bs := take size (drop (sm_pos fp) data) in
  let bs := match o_err o with None => bs | Some _ => take (Nat.min (o_n o) (size - 1)) bs end in
  ((bs, mk_stream (sm_ino fp) (sm_pos fp + length bs) (sm_buf fp)), s)).

Definition fsync (i : nat) : fsM (option errno) := sys (fun o s =>
  match o_err o with None => (None, sync_inode s i) | Some e => (Some e, s) end).

Definition fsync_dir : fsM (option errno) := sys (fun o s =>
  match o_err o with None => (None, sync_dir s) | Some e => (Some e, s) end).

Definition remove (p : path) : fsM (option errno) := sys (fun o s =>
  match o_err o, dir_now s !! p with
  | Some e, _ => (Some e, s)
  | None, None => (Some ENOENT, s)
  | None, Some _ => (None, dir_do s (Unlink p))
  end).

Definition rename (src dst : path) : fsM (option errno) := sys (fun o s =>
  match o_err o, dir_now s !! src with
  | Some e, _ => (Some e, s)
  | None, None => (Some ENOENT, s)
  | None, Some _ => (None, dir_do s (Rename src dst))
  end).

(** [stat]: the size. *)
Definition stat (p : path) : fsM (option Z) := sys (fun o s =>
  match o_err o with
  | Some _ => (None, s)
  | None => (zlen <$> visible s p, s)
  end).

(** [access(path, F_OK) != -1] *)
Definition access (p : path) : fsM bool := sys (fun o s =>
  match o_err o with
  | Some _ => (false, s)
  | None => (bool_decide (is_Some (dir_now s !! p)), s)
  end).

(** [open] for reading and for writing a new file; [close] has no effect on the files. *)
Definition open_r (p : path) : fsM (option nat) := sys (fun o s =>
  match o_err o with Some _ => (None, s) | None => (dir_now s !! p, s) end).

Definition open_dir : fsM (option ()) := sys (fun o s =>
  match o_err o with Some _ => (None, s) | None => (Some (), s) end).

Definition open_w (p : path) : fsM (option nat) := sys (fun o s =>
  match o_err o with
  | Some _ => (None, s)
  | None => let '(i, s) := create s p in (Some i, s)
  end).

Definition read (i pos size : nat) : fsM (option (list byte)) := sys (fun o s =>
  match o_err o with
  | Some _ => (None, s)
  | None =>
      let data := match fs_inodes s !! i with None => [] | Some n => i_data n end in
      let all := take size (drop pos data) in
      (Some (take (S (o_n o)) all), s)
  end).

(** [write]: how many bytes were taken. *)
Definition write (i pos : nat) (bs : list byte) : fsM (errno + nat) := sys (fun o s =>
  match o_err o with
  | Some e => (inl e, s)
  | None => let n := Nat.min (o_n o) (length bs) in (inr n, write_inode s i pos (take n bs))
  end).
End calls.

(** ** File objects (src/file.c) *)

(** [struct file] *)
Record file := mk_f { fl_path : option path; fl_fp : option stream }.

Definition file_init : file := mk_f None None.

(** Logging the error does not change errno. *)
Definition full_or_error (e : errno) : rs_rc := if bool_decide (e = ENOSPC) then RS_FULL else RS_ERROR.

Definition error_of (e : option errno) : rs_rc := match e with None => RS_OK | Some _ => RS_ERROR end.

Section file.
Variable io : nat -> outcome.

Definition file_open (f : file) (p : path) (mode : file_mode) : fsM (rs_rc * file) :=
  r ← fopen io p mode;
  match r with
  | inl e => mret (full_or_error e, f)
  | inr fp => mret (RS_OK, mk_f (str_set (fl_path f) (Some p)) (Some fp))
  end.

Definition file_close (f : file) : fsM (rs_rc * file) :=
  match fl_fp f with
  | None => mret (RS_OK, f)
  | Some fp =>
      e ← fclose io fp;
      mret (error_of e, mk_f (fl_path f) None)
  end.

Definition file_term (f : file) : fsM (rs_rc * file) :=
  '(rc, f) ← file_close f;
  mret (rc, mk_f None (fl_fp f)).

Definition file_destroy (f : file) : fsM () :=
  file_term f ≫= (fun _ => mret ()).

Definition file_size_at (p : path) : fsM Z :=
  n ← stat io p;
  mret (match n with None => -1 | Some n => n end).

(** [stat(NULL)] fails with EFAULT. *)
Definition file_size (f : file) : fsM Z :=
  match fl_path f with
  | None => mret (-1)
  | Some p => file_size_at p
  end.

Definition file_remove_path (p : path) : fsM rs_rc :=
  e ← remove io p;
  mret (match e with
        | Some e => if bool_decide (e = ENOENT) then RS_OK else RS_ERROR
        | None => RS_OK
        end).

(** [remove(NULL)] fails with EFAULT. *)
Definition file_remove (f : file) : fsM rs_rc :=
  match fl_path f with
  | None => mret RS_ERROR
  | Some p => file_remove_path p
  end.

(** Here and below a stream that is not open is a null pointer given to the C library. *)
Definition file_flush (f : file) : fsM (rs_rc * file) :=
  match fl_fp f with
  | None => dies
  | Some fp =>
      '(e, fp) ← fflush io fp;
      let f := mk_f (fl_path f) (Some fp) in
      match e with
      | Some e => mret (full_or_error e, f)
      | None =>
          e ← fsync io (sm_ino fp);
          mret (match e with Some e => full_or_error e | None => RS_OK end, f)
      end
  end.

Definition file_write (f : file) (bs : list byte) : fsM (rs_rc * file) :=
  match fl_fp f with
  | None => dies
  | Some fp =>
      '(e, fp) ← fwrite io bs fp;
      mret (match e with Some e => full_or_error e | None => RS_OK end, mk_f (fl_path f) (Some fp))
  end.

Definition file_lseek (f : file) (offset : nat) : fsM (rs_rc * file) :=
  match fl_fp f with
  | None => dies
  | Some fp =>
      '(e, fp) ← fseek io fp offset;
      mret (error_of e, mk_f (fl_path f) (Some fp))
  end.

Definition file_write_at (f : file) (off : nat) (bs : list byte) : fsM (rs_rc * file) :=
  '(rc, f) ← file_lseek f off;
  if bool_decide (rc = RS_OK) then file_write f bs else mret (RS_ERROR, f).

Definition file_read (f : file) (size : nat) : fsM (rs_rc * list byte * file) :=
  match fl_fp f with
  | None => dies
  | Some fp =>
      '(bs, fp) ← fread io fp size;
      mret (if Nat.eqb (length bs) size then RS_OK else RS_ERROR, bs, mk_f (fl_path f) (Some fp))
  end.

Definition file_exists_at (p : path) : fsM bool := access io p.

Definition file_rename (dst src : path) : fsM rs_rc :=
  e ← rename io src dst;
  mret (match e with Some e => full_or_error e | None => RS_OK end).

(** [file_fsync] of the directory. *)
Definition file_fsync : fsM rs_rc :=
  fd ← open_dir io;
  match fd with
  | None => mret RS_ERROR
  | Some _ =>
      e ← fsync_dir io;
      mret (error_of e)
  end.

(** The inner loop of [file_copy]: [out] is still to be written. *)
Fixpoint copy_write (fuel : nat) (fd pos : nat) (out : list byte) : fsM rs_rc :=
  match fuel with
  | O => dies
  | S fuel =>
      r ← write io fd pos out;
      match r with
      | inl e =>
          if bool_decide (e = EINTR) then match out with [] => mret RS_OK | _ => copy_write fuel fd pos out end
          else mret (full_or_error e)
      | inr n =>
          match drop n out with
          | [] => mret RS_OK
          | rest => copy_write fuel fd (pos + n) rest
          end
      end
  end.

(** [sizeof(buf)] *)
Definition COPY_SIZE : nat := Z.to_nat (4096 * 8).

(** The outer loop: the two files are read and written at the same position. *)
Fixpoint copy_loop (wfuel fuel : nat) (src dst pos : nat) : fsM rs_rc :=
  match fuel with
  | O => dies
  | S fuel =>
      r ← read io src pos COPY_SIZE;
      match r with
      | None => mret RS_ERROR
      | Some [] => mret RS_OK
      | Some buf =>
          rc ← copy_write wfuel dst pos buf;
          if bool_decide (rc = RS_OK) then copy_loop wfuel fuel src dst (pos + length buf) else mret rc
      end
  end.

Definition file_copy (wfuel fuel : nat) (dst src : path) : fsM rs_rc :=
  fd_src ← open_r io src;
  rc ← match fd_src with
       | None => mret RS_ERROR
       | Some fd_src =>
           fd_dest ← open_w io dst;
           match fd_dest with
           | None => mret RS_ERROR
           | Some fd_dest => copy_loop wfuel fuel fd_src fd_dest 0
           end
       end;
  if bool_decide (rc = RS_OK) then mret rc else remove io dst ≫= (fun _ => mret rc).
End file.

(** ** The file with the vote and the configuration (src/server.c) *)

(** What the server keeps in memory of it, and the buffer it encodes into. *)
Record voter := mk_voter { vt_name : option (list byte); vt_voted_for : option (list byte); vt_meta : meta; vt_tmp : sc_buf }.

Section meta_file.
Variable io : nat -> outcome.
Variable dir : path.
Variable cluster_name : option (list byte).

Definition in_dir (name : list byte) : path := dir ++ [x2f] ++ name.
Definition meta_path : path := in_dir (text "meta.resql").
Definition meta_tmp_path : path := in_dir (text "meta.tmp.resql").

Definition encode_meta_file (v : voter) : sc_buf :=
  let b := sc_buf_clear (vt_tmp v) in
  let b := sc_buf_put_str b (vt_name v) in
  let b := sc_buf_put_str b (vt_voted_for v) in
  meta_encode (vt_meta v) b.

(** The labels [cleanup_tmp] and [cleanup_file]. *)
Definition cleanup_tmp (rc : rs_rc) : fsM rs_rc :=
  file_remove_path io meta_tmp_path ≫= (fun _ => mret rc).

Definition cleanup_file (f : file) (rc : rs_rc) : fsM rs_rc :=
  file_term io f ≫= (fun _ => cleanup_tmp rc).

(** [server_write_meta] behind the encoding: the bytes go to a temporary file. *)
Definition write_file (f : file) (bs : list byte) : fsM rs_rc :=
  '(rc, f) ← file_write io f bs;
  if negb (bool_decide (rc = RS_OK)) then cleanup_file f rc
  else
    '(rc, f) ← file_flush io f;
    if negb (bool_decide (rc = RS_OK)) then cleanup_file f rc
    else
      '(rc, _) ← file_term io f;
      if negb (bool_decide (rc = RS_OK)) then cleanup_tmp rc
      else
        rc ← file_rename io meta_path meta_tmp_path;
        if negb (bool_decide (rc = RS_OK)) then cleanup_tmp rc
        else
          rc ← file_fsync io;
          if negb (bool_decide (rc = RS_OK)) then cleanup_tmp rc
          else mret RS_OK.

Definition write_meta (v : voter) : fsM (rs_rc * voter) :=
  '(rc, f) ← file_open io file_init meta_tmp_path mode_w;
  if negb (bool_decide (rc = RS_OK)) then mret (rc, v)
  else
    let b := encode_meta_file v in
    rc ← write_file f (take (Z.to_nat (sc_buf_size b)) (sc_buf_rbuf b));
    mret (rc, mk_voter (vt_name v) (vt_voted_for v) (vt_meta v) b).

Definition update_meta (v : voter) (term : Z) (voted_for : option (list byte)) : fsM (rs_rc * voter) :=
  write_meta (mk_voter (vt_name v) (str_set (vt_voted_for v) voted_for) (with_term (vt_meta v) term) (vt_tmp v)).

(** Reading [size] bytes of the file to the end of the buffer: beyond its memory, the
    process ends. *)
Definition read_into (f : file) (size : Z) (b : sc_buf) : fsM (rs_rc * sc_buf * file) :=
  if b_cap b <? b_wpos b + size then dies
  else
    '(rc, bs, f) ← file_read io f (Z.to_nat size);
    mret (rc, with_mem b (mwrite (b_mem b) (b_wpos b) bs), f).

(** The end of [server_parse_meta]; [None] is an address in the file that does not parse. *)
Definition decode_meta_file (v : voter) (b : sc_buf) : option voter :=
  let '(name, b) := sc_buf_get_str b in
  let '(voted_for, b) := sc_buf_get_str b in
  let '(m, b) := meta_decode (S (Z.to_nat (sc_buf_size b))) (meta_init cluster_name) b in
  m ← m; Some (mk_voter (str_set (vt_name v) name) (str_set (vt_voted_for v) voted_for) m b).

Definition parse_meta (v : voter) : fsM (rs_rc * voter) :=
  '(rc, f) ← file_open io file_init meta_path mode_r;
  if negb (bool_decide (rc = RS_OK)) then file_term io f ≫= (fun _ => mret (rc, v))
  else
    size ← file_size io f;
    if size <? 0 then file_term io f ≫= (fun _ => mret (RS_ERROR, v))
    else
      let b := sc_buf_clear (vt_tmp v) in
      let b := snd (sc_buf_reserve b (u32 size)) in
      '(rc, b, f) ← read_into f size b;
      if negb (bool_decide (rc = RS_OK))
      then file_term io f ≫= (fun _ => mret (rc, mk_voter (vt_name v) (vt_voted_for v) (vt_meta v) b))
      else
        match decode_meta_file v (sc_buf_mark_write b (u32 size)) with
        | None => dies
        | Some v => file_term io f ≫= (fun _ => mret (RS_OK, v))
        end.

Definition create_meta (v : voter) (urls : option (list byte)) : fsM (rs_rc * voter) :=
  let '(ok, m) := meta_parse_uris (meta_init cluster_name) urls in
  let v := mk_voter (vt_name v) (vt_voted_for v) m (vt_tmp v) in
  if negb ok then mret (RS_ERROR, v) else write_meta v.

(** The first part of [server_read_meta]. *)
Definition read_meta (v : voter) (urls : option (list byte)) : fsM (rs_rc * voter) :=
  rc ← file_remove_path io meta_tmp_path;
  if negb (bool_decide (rc = RS_OK)) then mret (rc, v)
  else
    exist ← file_exists_at io meta_path;
    if (exist : bool) then parse_meta v else create_meta v urls.
End meta_file.

(** ** Reasoning about crashes *)

(** [m] ends with a result for which [Post] holds, and [K] holds in every state the file
    system is in on the way. *)
Definition crash_spec {A} (K Pre : fs -> Prop) (m : fsM A) (Post : A -> fs -> Prop) : Prop := forall d,
  Pre (d_fs d) ->
  exists a d', m d = (Some a, d') /\ Post a (d_fs d') /\ exists new, d_seen d' = new ++ d_seen d /\ Forall K new.

Section spec.
Context {A B : Type} (K : fs -> Prop).

Lemma spec_ret (Pre : fs -> Prop) (a : A) (Post : A -> fs -> Prop) :
  (forall s, Pre s -> Post a s) -> crash_spec K Pre (mret a) Post.
Proof. intros H d Hd. exists a, d. split_and!; [done|by apply H|]. by exists []. Qed.

Lemma spec_bind Pre (m : fsM A) (Mid : A -> fs -> Prop) (k : A -> fsM B) (Post : B -> fs -> Prop) :
  crash_spec K Pre m Mid -> (forall a, crash_spec K (Mid a) (k a) Post) -> crash_spec K Pre (m ≫= k) Post.
Proof.
  intros Hm Hk d Hd. destruct (Hm d Hd) as (a & d1 & E1 & H1 & new1 & Es1 & Hn1).
  destruct (Hk a d1 H1) as (b & d2 & E2 & H2 & new2 & Es2 & Hn2). exists b, d2. unfold mbind, fsM_bind. rewrite E1.
  split_and!; [done..|]. exists (new2 ++ new1). rewrite Es2, Es1, app_assoc. split; [done|]. by apply Forall_app.
Qed.

Lemma spec_weaken (Pre Pre' : fs -> Prop) (m : fsM A) (Post Post' : A -> fs -> Prop) :
  crash_spec K Pre m Post -> (forall s, Pre' s -> Pre s) -> (forall a s, Post a s -> Post' a s) ->
  crash_spec K Pre' m Post'.
Proof.
  intros H H1 H2 d Hd. destruct (H d (H1 _ Hd)) as (a & d' & E & Hp & Hn). exists a, d'. split_and!; [done|by apply H2|done].
Qed.

Lemma spec_sys io Pre (f : outcome -> fs -> A * fs) (Post : A -> fs -> Prop) :
  (forall n s, Pre s -> let '(a, s') := f (io n) s in Post a s' /\ K s') -> crash_spec K Pre (sys io f) Post.
Proof.
  intros H d Hd. specialize (H (d_io d) (d_fs d) Hd). unfold sys. destruct (f (io (d_io d)) (d_fs d)) as [a s'].
  destruct H as [H1 H2]. exists a, (mk_disk s' (S (d_io d)) (s' :: d_seen d)). split_and!; [done..|].
  exists [s']. split; [done|by constructor].
Qed.

(** The test of a return code. *)
Lemma spec_code (Pre : fs -> Prop) rc (m k : fsM A) (Post : A -> fs -> Prop) :
  (rc <> RS_OK -> crash_spec K Pre m Post) -> (rc = RS_OK -> crash_spec K Pre k Post) ->
  crash_spec K Pre (if negb (bool_decide (rc = RS_OK)) then m else k) Post.
Proof. intros H1 H2. case_bool_decide; [by apply H2|by apply H1]. Qed.
End spec.

(** *** A file that is replaced by renaming another one *)

Lemma dir_after_do s op k :
  dir_after (dir_do s op) k = if decide (k <= length (fs_pending s))%nat then dir_after s k else dir_apply (dir_now s) op.
Proof.
  unfold dir_after, dir_now, dir_after, dir_do. cbn [fs_pending fs_disk]. case_decide as Hk.
  - rewrite take_app_le by done. done.
  - rewrite take_ge by (rewrite length_app; cbn; lia). rewrite foldl_app. by rewrite firstn_all.
Qed.

Lemma dir_now_do s op : dir_now (dir_do s op) = dir_apply (dir_now s) op.
Proof. unfold dir_now at 1. rewrite dir_after_do. cbn [fs_pending dir_do]. rewrite length_app. case_decide; [cbn in *; lia|done]. Qed.

Lemma dir_after_ge s k : (length (fs_pending s) <= k)%nat -> dir_after s k = dir_now s.
Proof. intros Hk. unfold dir_now, dir_after. by rewrite !take_ge. Qed.

Lemma length_pwrite data pos bs : (pos <= length data)%nat -> length (pwrite data pos bs) = Nat.max (length data) (pos + length bs).
Proof. intros Hp. unfold pwrite. rewrite !length_app, length_take, length_app, length_drop, length_replicate. lia. Qed.

Lemma pwrite_nil data pos : (pos <= length data)%nat -> pwrite data pos [] = data.
Proof.
  intros Hp. unfold pwrite. replace (pos - length data)%nat with 0%nat by lia. cbn [replicate app length].
  by rewrite app_nil_r, Nat.add_0_r, take_drop.
Qed.

Lemma pwrite_start bs : pwrite [] 0 bs = bs.
Proof. unfold pwrite. cbn. by rewrite drop_nil, app_nil_r. Qed.

Lemma pwrite_pwrite data pos a b : (pos <= length data)%nat ->
  pwrite (pwrite data pos a) (pos + length a) b = pwrite data pos (a ++ b).
Proof.
  intros Hp. unfold pwrite at 1. rewrite length_pwrite by done.
  replace (pos + length a - _)%nat with 0%nat by lia. cbn [replicate]. rewrite app_nil_r. unfold pwrite.
  replace (pos - length data)%nat with 0%nat by lia. cbn [replicate]. rewrite app_nil_r.
  assert (Ht : length (take pos data) = pos) by (rewrite length_take; lia).
  rewrite (app_assoc (take pos data) a), take_app_length' by (rewrite length_app; lia). rewrite <- !app_assoc. do 3 f_equal.
  rewrite (app_assoc (take pos data)), drop_app_ge by (rewrite length_app; lia). rewrite !length_app, drop_drop. f_equal. lia.
Qed.

(** No crash makes [i] the file [p]. *)
Definition apart (s : fs) (p : path) (i : nat) : Prop := forall k, dir_after s k !! p <> Some i.

(** Whatever is on the disk of the changes of the directory, the file [p] is flushed and
    [P] holds for its bytes; the file [tmp] is another one. *)
Record keeps (P : option (list byte) -> Prop) (p tmp : path) (s : fs) : Prop := {
  ks_value : forall k, P (file_in s (dir_after s k) p);
  ks_synced : forall k i, dir_after s k !! p = Some i -> exists n, fs_inodes s !! i = Some n /\ i_synced n = true;
  ks_tmp : forall i, dir_now s !! tmp = Some i -> apart s p i;
  ks_each : forall k i, dir_after s k !! tmp = Some i -> (i < length (fs_inodes s))%nat /\ dir_after s k !! p <> Some i
}.

Section keeps.
Context (P : option (list byte) -> Prop) (p tmp : path).
Implicit Types s : fs.

Lemma keeps_visible s : keeps P p tmp s -> P (visible s p).
Proof. intros H. apply (ks_value _ _ _ _ H). Qed.

Lemma keeps_set_inode s i n : keeps P p tmp s -> apart s p i -> keeps P p tmp (set_inode s i n).
Proof.
  intros [Hv Hs Ht He] Ha. split; unfold set_inode, apart, dir_now, dir_after in *; cbn [fs_inodes fs_disk fs_pending]; [| |done|].
  - intros k. specialize (Hv k). unfold file_in in *. cbn [fs_inodes]. destruct (foldl _ _ _ !! p) as [j|] eqn:E; [|done].
    cbn in *. rewrite list_lookup_insert_ne by (intros ->; by apply (Ha k)). done.
  - intros k j E. destruct (Hs k j E) as (m & Hm & Hy). exists m. rewrite list_lookup_insert_ne by (intros ->; by apply (Ha k)). done.
  - rewrite length_insert. done.
Qed.

Lemma keeps_write_inode s i pos bs : keeps P p tmp s -> apart s p i -> keeps P p tmp (write_inode s i pos bs).
Proof. intros H Ha. unfold write_inode. destruct bs; [done|]. destruct (fs_inodes s !! i); [by apply keeps_set_inode|done]. Qed.

Lemma keeps_sync_inode s i : keeps P p tmp s -> apart s p i -> keeps P p tmp (sync_inode s i).
Proof. intros H Ha. unfold sync_inode. destruct (fs_inodes s !! i); [by apply keeps_set_inode|done]. Qed.

(** A change of the directory after which [p] is [q] and [tmp] is [t]. *)
Lemma keeps_dir_do s op :
  keeps P p tmp s -> P (file_in s (dir_apply (dir_now s) op) p) ->
  (forall i, dir_apply (dir_now s) op !! p = Some i -> exists n, fs_inodes s !! i = Some n /\ i_synced n = true) ->
  (forall i, dir_apply (dir_now s) op !! tmp = Some i ->
    (i < length (fs_inodes s))%nat /\ apart s p i /\ dir_apply (dir_now s) op !! p <> Some i) ->
  keeps P p tmp (dir_do s op).
Proof.
  intros [Hv Hs Ht He] Hp Hsy Htmp. split.
  - intros k. rewrite dir_after_do. case_decide; [apply Hv|done].
  - intros k i. rewrite dir_after_do. case_decide; [apply Hs|apply Hsy].
  - intros i. rewrite dir_now_do. intros E k. destruct (Htmp i E) as (_ & Ha & Hn). rewrite dir_after_do. by case_decide.
  - intros k i. rewrite dir_after_do. cbn [fs_inodes dir_do]. case_decide; [apply He|]. intros E. by destruct (Htmp i E) as (? & _ & ?).
Qed.

Lemma keeps_unlink s : tmp <> p -> keeps P p tmp s -> keeps P p tmp (dir_do s (Unlink tmp)).
Proof.
  intros Hn H. assert (E : dir_apply (dir_now s) (Unlink tmp) !! p = dir_now s !! p) by (by apply lookup_delete_ne).
  apply keeps_dir_do; [done| | |].
  - unfold file_in. rewrite E. apply (ks_value _ _ _ _ H).
  - intros i. rewrite E. apply (ks_synced _ _ _ _ H).
  - intros i. cbn. by rewrite lookup_delete_eq.
Qed.

(** The renamed file is flushed and has the bytes [bs]. *)
Lemma keeps_rename s i bs :
  tmp <> p -> keeps P p tmp s -> dir_now s !! tmp = Some i -> fs_inodes s !! i = Some (mk_inode bs true) -> P (Some bs) ->
  keeps P p tmp (dir_do s (Rename tmp p)).
Proof.
  intros Hn H Ei En Hb.
  assert (Ed : dir_apply (dir_now s) (Rename tmp p) = <[p := i]> (delete tmp (dir_now s))) by (cbn; by rewrite Ei).
  apply keeps_dir_do; [done| | |]; rewrite Ed; unfold file_in.
  - rewrite lookup_insert_eq. cbn. by rewrite En.
  - rewrite lookup_insert_eq. intros j [= <-]. by exists (mk_inode bs true).
  - intros j. rewrite lookup_insert_ne, lookup_delete_eq by done. done.
Qed.

Lemma keeps_link s i :
  tmp <> p -> keeps P p tmp s -> (i < length (fs_inodes s))%nat -> apart s p i -> keeps P p tmp (dir_do s (Link tmp i)).
Proof.
  intros Hn H Hi Ha. assert (E : dir_apply (dir_now s) (Link tmp i) !! p = dir_now s !! p) by (by apply lookup_insert_ne).
  apply keeps_dir_do; [done| | |].
  - unfold file_in. rewrite E. apply (ks_value _ _ _ _ H).
  - intros j. rewrite E. apply (ks_synced _ _ _ _ H).
  - intros j. rewrite E. cbn. rewrite lookup_insert_eq. intros [= <-]. split_and!; [done..|apply Ha].
Qed.

(** Only one directory is left: the [k]-th one. *)
Lemma keeps_one s k s' :
  keeps P p tmp s -> fs_pending s' = [] -> fs_disk s' = dir_after s k -> length (fs_inodes s') = length (fs_inodes s) ->
  (forall i n, fs_inodes s !! i = Some n -> i_synced n = true -> fs_inodes s' !! i = Some n) -> keeps P p tmp s'.
Proof.
  intros [Hv Hs Ht He] Hp Hd Hl Hi. assert (E : forall k', dir_after s' k' = dir_after s k).
  { intros k'. unfold dir_after at 1. by rewrite Hp, Hd, take_nil. }
  assert (En : dir_now s' = dir_after s k) by apply E. split.
  - intros k'. specialize (Hv k). unfold file_in in *. rewrite E. destruct (dir_after s k !! p) as [i|] eqn:Ei; [|done].
    cbn in *. destruct (Hs k i Ei) as (n & Hn & Hy). by rewrite (Hi i n Hn Hy), <- Hn.
  - intros k' i. rewrite E. intros Ei. destruct (Hs k i Ei) as (n & Hn & Hy). exists n. split; [by apply Hi|done].
  - intros i. rewrite En. intros Ei k'. rewrite E. by apply (He k i Ei).
  - intros k' i. rewrite E, Hl. apply He.
Qed.

Lemma keeps_sync_dir s : keeps P p tmp s -> keeps P p tmp (sync_dir s).
Proof. intros H. by apply (keeps_one s (length (fs_pending s))). Qed.

Lemma keeps_crash s k junk : keeps P p tmp s -> keeps P p tmp (crash k junk s).
Proof.
  intros H. apply (keeps_one s k); [done..| |]; unfold crash; cbn [fs_inodes].
  - apply length_imap.
  - intros i [n y] E Hy. cbn in Hy. subst y. by rewrite list_lookup_imap, E.
Qed.

(** After a successful flush of the directory only the visible file is left. *)
Lemma keeps_settled s : keeps P p tmp s -> keeps (eq (visible s p)) p tmp (sync_dir s).
Proof.
  intros H. pose proof (keeps_sync_dir s H) as [Hv Hs Ht He]. split; [|done..]. intros k. unfold visible, file_in.
  cbn [fs_inodes sync_dir]. unfold dir_after at 1. cbn [fs_pending fs_disk sync_dir]. by rewrite take_nil.
Qed.

Lemma keeps_impl (R : option (list byte) -> Prop) s : keeps P p tmp s -> (forall x, P x -> R x) -> keeps R p tmp s.
Proof. intros [Hv Hs Ht He] HR. split; [|done..]. intros k. by apply HR. Qed.

Lemma keeps_fresh s n : keeps P p tmp s -> let s' := mk_fs (fs_inodes s ++ [n]) (fs_disk s) (fs_pending s) in
  keeps P p tmp s' /\ apart s' p (length (fs_inodes s)).
Proof.
  intros [Hv Hs Ht He] s'. assert (Hin : forall k i, dir_after s k !! p = Some i -> (i < length (fs_inodes s))%nat).
  { intros k i E. destruct (Hs k i E) as (m & Hm & _). by apply lookup_lt_Some in Hm. }
  split; [split|].
  - intros k. specialize (Hv k). unfold s', file_in, dir_after in *. cbn [fs_inodes fs_disk fs_pending].
    destruct (foldl _ _ _ !! p) as [i|] eqn:Ei; [|done]. cbn in *. by rewrite lookup_app_l by (by apply (Hin k)).
  - intros k i E. destruct (Hs k i E) as (m & Hm & Hy). exists m. cbn. split; [by apply lookup_app_l_Some|done].
  - apply Ht.
  - intros k i E. cbn. rewrite length_app. cbn. destruct (He k i E). split; [lia|done].
  - intros k E. apply Hin in E. lia.
Qed.

Lemma keeps_create s i s' :
  tmp <> p -> keeps P p tmp s -> create s tmp = (i, s') ->
  keeps P p tmp s' /\ dir_now s' !! tmp = Some i /\ fs_inodes s' !! i = Some (mk_inode [] false).
Proof.
  intros Hn H. unfold create. destruct (dir_now s !! tmp) as [j|] eqn:E; intros [= <- <-].
  - split_and!; [apply keeps_set_inode; [done|by apply (ks_tmp _ _ _ _ H)]|exact E|].
    cbn. apply list_lookup_insert_eq. by apply (ks_each _ _ _ _ H _ _ E).
  - destruct (keeps_fresh s (mk_inode [] false) H) as [H1 H2]. split_and!.
    + apply keeps_link; [done..| |done]. cbn. rewrite length_app. cbn. lia.
    + rewrite dir_now_do. cbn. by rewrite lookup_insert_eq.
    + cbn. by rewrite lookup_app_r, Nat.sub_diag by lia.
Qed.
End keeps.

(** *** Writing the temporary file *)

Section writing.
Context (io : nat -> outcome) (P : option (list byte) -> Prop) (p tmp : path) (Hn : tmp <> p).
Local Abbreviation K := (keeps P p tmp).

(** Some call has failed. *)
Definition failed : Prop := exists n, o_err (io n) <> None.

(** The stream writes the file [tmp] at [cur]; with what is in its buffer the file is [bs]. *)
Record writing (fp : stream) (bs : list byte) (cur : nat) (s : fs) : Prop := {
  wr_keeps : K s;
  wr_tmp : dir_now s !! tmp = Some (sm_ino fp);
  wr_cur : (sm_pos fp + length (sm_buf fp) = cur)%nat;
  wr_data : exists n, fs_inodes s !! sm_ino fp = Some n /\ (sm_pos fp <= length (i_data n))%nat /\
    pwrite (i_data n) (sm_pos fp) (sm_buf fp) = bs
}.

(** The file [tmp] is complete and flushed. *)
Definition written_out (bs : list byte) (s : fs) : Prop :=
  K s /\ exists i, dir_now s !! tmp = Some i /\ fs_inodes s !! i = Some (mk_inode bs true).

Lemma drain_writing fp bs cur s n : writing fp bs cur s -> let '(fp', s') := drain fp n s in
  writing fp' bs cur s' /\ sm_buf fp' = drop n (sm_buf fp) /\ sm_ino fp' = sm_ino fp.
Proof.
  intros [Hk Ht Hc (m & Hm & Hp & Hd)]. unfold drain. split; [|done].
  pose proof (ks_tmp _ _ _ _ Hk _ Ht) as Ha. split; cbn [sm_ino sm_pos sm_buf].
  - by apply keeps_write_inode.
  - unfold write_inode. destruct (take n (sm_buf fp)); [done|]. by rewrite Hm.
  - rewrite length_take, length_drop. lia.
  - unfold write_inode. destruct (take n (sm_buf fp)) as [|x xs] eqn:E.
    + exists m. rewrite Nat.add_0_r. split_and!; [done..|]. rewrite <- Hd. f_equal. rewrite <- (take_drop n (sm_buf fp)) at 2. by rewrite E.
    + rewrite Hm. cbn [fs_inodes set_inode]. rewrite list_lookup_insert_eq by (by apply lookup_lt_Some in Hm).
      eexists. split; [done|]. cbn [i_data]. rewrite length_pwrite, pwrite_pwrite by done. split; [lia|].
      by rewrite <- E, take_drop.
Qed.

Lemma append_buf fp bs cur cs s :
  writing fp bs cur s -> writing (mk_stream (sm_ino fp) (sm_pos fp) (sm_buf fp ++ cs)) (pwrite bs cur cs) (cur + length cs) s.
Proof.
  intros [Hk Ht Hc (m & Hm & Hp & Hd)]. split; [done..| |].
  - cbn. rewrite length_app. lia.
  - exists m. cbn. split_and!; [done..|]. by rewrite <- Hd, <- Hc, pwrite_pwrite by done.
Qed.

(** An error is reported exactly when the outcome of the call is one. *)
Definition code_of (e : option errno) : Prop := e <> None -> failed.

Lemma fwrite_spec fp bs cur cs : (cur <= length bs)%nat -> crash_spec K (writing fp bs cur) (fwrite io cs fp)
  (fun '(e, fp') s => writing fp' (pwrite bs cur cs) (cur + length cs) s /\ code_of e).
Proof.
  intros Hl. unfold fwrite. destruct cs as [|c cs].
  - apply spec_ret. intros s Hs. rewrite pwrite_nil, Nat.add_0_r by done. split; [done|]. intros []; done.
  - apply spec_sys. intros n s Hs. apply (append_buf _ _ _ (c :: cs)) in Hs.
    pose proof (drain_writing _ _ _ _ (o_n (io n)) Hs) as Hd. destruct (drain _ _ s) as [fp' s']. destruct Hd as (Hd & _).
    split_and!; [done| |apply Hd]. intros He. by exists n.
Qed.

Lemma fflush_spec fp bs cur : crash_spec K (writing fp bs cur) (fflush io fp)
  (fun '(e, fp') s => writing fp' bs cur s /\ code_of e /\ (e = None -> sm_buf fp' = [])).
Proof.
  apply spec_sys. intros n s Hs. set (k := match o_err (io n) with None => _ | _ => _ end). cbv zeta.
  pose proof (drain_writing _ _ _ _ k Hs) as Hd. destruct (drain _ _ s) as [fp' s']. destruct Hd as (Hd & Hb & _).
  split_and!; [done| | |apply Hd]; [intros He; by exists n|]. intros He. rewrite Hb. unfold k. rewrite He. apply drop_all.
Qed.

Lemma fclose_spec fp bs cur : crash_spec K (writing fp bs cur) (fclose io fp) (fun e s => K s /\ code_of e).
Proof.
  apply spec_sys. intros n s Hs. set (k := match o_err (io n) with None => _ | _ => _ end). cbv zeta.
  pose proof (drain_writing _ _ _ _ k Hs) as Hd. destruct (drain _ _ s) as [fp' s']. destruct Hd as (Hd & _).
  split_and!; [apply Hd| |apply Hd]. intros He. by exists n.
Qed.

(** Closing a stream whose buffer is empty leaves the file as it is. *)
Lemma fclose_flushed fp bs : sm_buf fp = [] -> crash_spec K (written_out bs) (fclose io fp) (fun e s => written_out bs s /\ code_of e).
Proof.
  intros Hb. apply spec_sys. intros n s Hs. unfold drain. rewrite Hb, take_nil. cbn [write_inode].
  split_and!; [done| |apply Hs]. intros He. by exists n.
Qed.

Lemma fsync_spec fp bs cur : sm_buf fp = [] -> crash_spec K (writing fp bs cur) (fsync io (sm_ino fp))
  (fun e s => code_of e /\ if e is None then written_out bs s else writing fp bs cur s).
Proof.
  intros Hb. apply spec_sys. intros n s [Hk Ht Hc (m & Hm & Hp & Hd)]. rewrite Hb, pwrite_nil in Hd by done.
  destruct (o_err (io n)) as [e|] eqn:E.
  - split_and!; [intros _; exists n; by rewrite E| |done]. split; [done..|]. exists m. rewrite Hb, pwrite_nil by done. done.
  - assert (H1 : K (sync_inode s (sm_ino fp))) by (apply keeps_sync_inode; [done|by apply (ks_tmp _ _ _ _ Hk)]).
    split_and!; [intros []; done| |done]. split; [done|]. exists (sm_ino fp). unfold sync_inode. rewrite Hm. split; [done|].
    cbn. rewrite list_lookup_insert_eq by (by apply lookup_lt_Some in Hm). by rewrite Hd.
Qed.

Lemma fseek_spec fp bs cur off : (off <= length bs)%nat -> crash_spec K (writing fp bs cur) (fseek io fp off)
  (fun '(e, fp') s => code_of e /\ exists cur', writing fp' bs cur' s /\ (e = None -> cur' = off)).
Proof.
  intros Hl. apply spec_sys. intros n s Hs. set (k := match o_err (io n) with None => _ | _ => _ end). cbv zeta.
  pose proof (drain_writing _ _ _ _ k Hs) as Hd. destruct (drain _ _ s) as [fp' s']. destruct Hd as (Hd & Hb & _).
  destruct (o_err (io n)) as [e|] eqn:E.
  - split_and!; [intros _; exists n; by rewrite E| |apply Hd]. by exists cur.
  - split_and!; [intros []; done| |apply Hd]. exists off. split; [|done]. destruct Hd as [Hk Ht Hc (m & Hm & Hp & Hd)].
    unfold k in Hb. rewrite drop_all in Hb. rewrite Hb, pwrite_nil in Hd by done.
    split; [done..| |]; cbn [sm_pos sm_buf sm_ino]; rewrite Hb; [cbn; lia|]. exists m. rewrite Hd. split_and!; [done..|]. by apply pwrite_nil.
Qed.

(** ** The functions of file.c *)

Lemma file_term_spec f fp bs cur : fl_fp f = Some fp ->
  crash_spec K (writing fp bs cur) (file_term io f) (fun _ s => K s).
Proof.
  intros Hf. unfold file_term, file_close. rewrite Hf. eapply spec_bind.
  - eapply spec_bind; [apply fclose_spec|]. intros e. apply (spec_ret _ _ _ (fun _ s => K s)). by intros s [H _].
  - intros [rc f']. by apply spec_ret.
Qed.

(** A flushed file is closed without a failure that has not happened. *)
Lemma file_term_flushed f fp bs : fl_fp f = Some fp -> sm_buf fp = [] ->
  crash_spec K (written_out bs) (file_term io f) (fun '(rc, _) s => written_out bs s /\ (rc <> RS_OK -> failed)).
Proof.
  intros Hf Hb. unfold file_term, file_close. rewrite Hf. eapply spec_bind.
  - eapply spec_bind; [by apply fclose_flushed|]. intros e.
    apply (spec_ret _ _ _ (fun '(rc, _) s => written_out bs s /\ (rc <> RS_OK -> failed))). intros s [H He].
    split; [done|]. intros Hr. apply He. by destruct e.
  - intros [rc f']. by apply spec_ret.
Qed.

Lemma full_or_error_neq e : full_or_error e <> RS_OK.
Proof. unfold full_or_error. by case_bool_decide. Qed.

Lemma file_open_spec : crash_spec K K (file_open io file_init tmp mode_w)
  (fun '(rc, f) s => (rc = RS_OK /\ exists fp, fl_fp f = Some fp /\ writing fp [] 0 s) \/ (rc <> RS_OK /\ failed /\ K s)).
Proof.
  unfold file_open. eapply (spec_bind _ _ _ (fun r s => match r with inl _ => failed /\ K s | inr fp => writing fp [] 0 s end)).
  - apply spec_sys. intros n s Hs. destruct (o_err (io n)) as [e|] eqn:E.
    + split_and!; [|done|done]. exists n. by rewrite E.
    + destruct (create s tmp) as [i s'] eqn:Ec. destruct (keeps_create _ _ _ _ _ _ Hn Hs Ec) as (H1 & H2 & H3).
      split; [|done]. split; [done..|]. by exists (mk_inode [] false).
  - intros [e|fp]; apply spec_ret; intros s Hs.
    + right. split; [apply full_or_error_neq|done].
    + left. split; [done|]. by exists fp.
Qed.

Lemma file_write_spec f fp bs cur cs : fl_fp f = Some fp -> (cur <= length bs)%nat ->
  crash_spec K (writing fp bs cur) (file_write io f cs)
  (fun '(rc, f') s => exists fp', fl_fp f' = Some fp' /\ writing fp' (pwrite bs cur cs) (cur + length cs) s /\ (rc <> RS_OK -> failed)).
Proof.
  intros Hf Hl. unfold file_write. rewrite Hf. eapply spec_bind; [by apply fwrite_spec|]. intros [e fp']. apply spec_ret.
  intros s [Hs He]. exists fp'. split_and!; [done..|]. intros Hr. apply He. by destruct e.
Qed.

Lemma file_write_at_spec f fp bs cur off cs : fl_fp f = Some fp -> (off <= length bs)%nat ->
  crash_spec K (writing fp bs cur) (file_write_at io f off cs)
  (fun '(rc, f') s => (rc <> RS_OK -> failed) /\
     exists fp' bs' cur', fl_fp f' = Some fp' /\ writing fp' bs' cur' s /\ (rc = RS_OK -> bs' = pwrite bs off cs)).
Proof.
  intros Hf Hl. unfold file_write_at. eapply (spec_bind _ _ _ (fun '(rc, f') s => (rc <> RS_OK -> failed) /\
    exists fp' cur', fl_fp f' = Some fp' /\ writing fp' bs cur' s /\ (rc = RS_OK -> cur' = off))).
  - unfold file_lseek. rewrite Hf. eapply spec_bind; [by apply (fseek_spec fp bs cur off)|]. intros [e fp']. apply spec_ret.
    intros s (He & cur' & Hw & Hc). split.
    + intros Hr. apply He. by destruct e.
    + exists fp', cur'. split_and!; [done..|]. intros Hr. apply Hc. by destruct e.
  - intros [rc f1]. case_bool_decide as Hr.
    + intros d (_ & fp1 & cur1 & Hf1 & Hw & Hc). rewrite (Hc Hr) in Hw. revert d Hw.
      eapply spec_weaken; [by apply (file_write_spec f1 fp1 bs off cs)|done|]. intros [rc' f'] s (fp' & Hf' & Hw & He).
      split; [done|]. by exists fp', (pwrite bs off cs), (off + length cs)%nat.
    + apply spec_ret. intros s (He & fp1 & cur1 & Hf1 & Hw & _). split; [intros _; by apply He|]. by exists fp1, bs, cur1.
Qed.

Lemma file_flush_spec f fp bs cur : fl_fp f = Some fp -> crash_spec K (writing fp bs cur) (file_flush io f)
  (fun '(rc, f') s => exists fp', fl_fp f' = Some fp' /\
     ((rc = RS_OK /\ sm_buf fp' = [] /\ written_out bs s) \/ (rc <> RS_OK /\ failed /\ writing fp' bs cur s))).
Proof.
  intros Hf. unfold file_flush. rewrite Hf. eapply spec_bind; [apply fflush_spec|]. intros [[e|] fp'].
  - apply spec_ret. intros s (Hs & He & _). exists fp'. split; [done|]. right. split_and!; [apply full_or_error_neq|by apply He|done].
  - destruct (decide (sm_buf fp' = [])) as [Hb|Hb].
    + eapply spec_bind.
      * eapply spec_weaken; [by apply (fsync_spec fp' bs cur)| |by intros e s H; exact H]. by intros s [Hs _].
      * intros [e|]; apply spec_ret; intros s [He Hs]; exists fp'; (split; [done|]).
        -- right. split_and!; [apply full_or_error_neq|by apply He|done].
        -- by left.
    + intros d (_ & _ & H). by destruct Hb, H.
Qed.

Lemma file_remove_path_spec : crash_spec K K (file_remove_path io tmp) (fun _ s => K s).
Proof.
  unfold file_remove_path. eapply (spec_bind _ _ _ (fun _ s => K s)); [|intros e; by apply spec_ret].
  apply spec_sys. intros n s Hs. destruct (o_err (io n)); [done|]. destruct (dir_now s !! tmp); [|done].
  split; by apply keeps_unlink.
Qed.

(** The renamed file is what a program sees from now on. *)
Lemma file_rename_spec bs : P (Some bs) -> crash_spec K (written_out bs) (file_rename io p tmp)
  (fun rc s => K s /\ (rc = RS_OK -> visible s p = Some bs) /\ (rc <> RS_OK -> failed)).
Proof.
  intros Hb. unfold file_rename. eapply (spec_bind _ _ _ (fun e s => K s /\ (e = None -> visible s p = Some bs) /\ code_of e)).
  - apply spec_sys. intros n s [Hk (i & Hi & Hd)]. destruct (o_err (io n)) as [e|] eqn:E.
    + split_and!; [done|done| |done]. intros _. exists n. by rewrite E.
    + rewrite Hi. assert (H1 : K (dir_do s (Rename tmp p))) by (by apply (keeps_rename _ _ _ _ i bs)).
      split_and!; [done| |intros []; done|done]. intros _. unfold visible, file_in. rewrite dir_now_do. cbn.
      rewrite Hi, lookup_insert_eq. cbn. by rewrite Hd.
  - intros [e|]; apply spec_ret; intros s (Hk & Hv & He); (split_and!; [done| |]).
    + intros Hr. by apply full_or_error_neq in Hr.
    + intros _. by apply He.
    + intros _. by apply Hv.
    + done.
Qed.

Lemma file_fsync_spec bs : crash_spec K (fun s => K s /\ visible s p = Some bs) (file_fsync io)
  (fun rc s => K s /\ (rc = RS_OK -> keeps (eq (Some bs)) p tmp s) /\ (rc <> RS_OK -> failed)).
Proof.
  unfold file_fsync. eapply (spec_bind _ _ _ (fun r s => (K s /\ visible s p = Some bs) /\ (r = None -> failed))).
  - apply spec_sys. intros n s Hs. destruct (o_err (io n)) eqn:E; (split; [split; [exact Hs|]|apply Hs]); [|done].
    intros _. exists n. by rewrite E.
  - intros [[]|].
    + eapply (spec_bind _ _ _ (fun e s => K s /\ (e = None -> keeps (eq (Some bs)) p tmp s) /\ code_of e)).
      * apply spec_sys. intros n s [[Hs Hv] _]. destruct (o_err (io n)) eqn:E.
        -- split_and!; [done|done| |done]. intros _. exists n. by rewrite E.
        -- split_and!; [by apply keeps_sync_dir| |intros []; done|by apply keeps_sync_dir]. intros _. rewrite <- Hv.
           by apply (keeps_settled P).
      * intros [e|]; apply spec_ret; intros s (Hk & Hv & He); (split_and!; [done| |]);
          first [done|intros _; by apply He|intros _; by apply Hv].
    + apply spec_ret. intros s [[Hs Hv] Hf]. split_and!; [done..|]. intros _. by apply Hf.
Qed.
End writing.

(** ** The file with the vote *)

Lemma meta_paths dir : meta_tmp_path dir <> meta_path dir.
Proof. unfold meta_tmp_path, meta_path, in_dir. intros E. apply app_inv_head in E. done. Qed.

Section write_meta.
Context (io : nat -> outcome) (P : option (list byte) -> Prop) (dir : path).
Local Abbreviation K := (keeps P (meta_path dir) (meta_tmp_path dir)).
Local Abbreviation settled bs := (keeps (eq (Some bs)) (meta_path dir) (meta_tmp_path dir)).

(** The file is replaced and flushed, or a call has failed. *)
Definition replaced (bs : list byte) (rc : rs_rc) (s : fs) : Prop :=
  (rc = RS_OK /\ settled bs s) \/ (rc <> RS_OK /\ failed io /\ K s).

Lemma cleanup_tmp_spec bs rc : rc <> RS_OK -> crash_spec K (fun s => failed io /\ K s) (cleanup_tmp io dir rc) (replaced bs).
Proof.
  intros Hr d [Hf Hd]. revert d Hd. eapply spec_bind; [apply file_remove_path_spec, meta_paths|].
  intros rc'. apply spec_ret. intros s Hs. by right.
Qed.

Lemma cleanup_file_spec f fp bs cur cs rc : rc <> RS_OK -> fl_fp f = Some fp ->
  crash_spec K (fun s => failed io /\ writing P (meta_path dir) (meta_tmp_path dir) fp bs cur s) (cleanup_file io dir f rc) (replaced cs).
Proof.
  intros Hr Hf d [He Hd]. revert d Hd. eapply spec_bind; [by apply file_term_spec|].
  intros x. eapply spec_weaken; [by apply cleanup_tmp_spec| |by intros a s H; exact H]. done.
Qed.

Lemma replace_spec bs : P (Some bs) ->
  crash_spec K (written_out P (meta_path dir) (meta_tmp_path dir) bs)
    (rc ← file_rename io (meta_path dir) (meta_tmp_path dir);
     if negb (bool_decide (rc = RS_OK)) then cleanup_tmp io dir rc
     else rc ← file_fsync io; if negb (bool_decide (rc = RS_OK)) then cleanup_tmp io dir rc else mret RS_OK) (replaced bs).
Proof.
  intros Hb. eapply spec_bind; [apply file_rename_spec; [apply meta_paths|done]|]. intros rc. apply spec_code; intros Hr.
  - eapply spec_weaken; [by apply cleanup_tmp_spec| |by intros a s H; exact H]. intros s (Hk & _ & Hf). split; [by apply Hf|done].
  - eapply spec_bind.
    + eapply spec_weaken; [apply (file_fsync_spec io P _ _ bs)| |by intros a s H; exact H]. intros s (Hk & Hv & _). split; [done|by apply Hv].
    + intros rc'. apply spec_code; intros Hr'.
      * eapply spec_weaken; [by apply cleanup_tmp_spec| |by intros a s H; exact H]. intros s (Hk & _ & Hf). split; [by apply Hf|done].
      * apply spec_ret. intros s (Hk & Hs & _). left. split; [done|by apply Hs].
Qed.

Lemma write_file_spec f fp bs : P (Some bs) -> fl_fp f = Some fp ->
  crash_spec K (writing P (meta_path dir) (meta_tmp_path dir) fp [] 0) (write_file io dir f bs) (replaced bs).
Proof.
  intros Hb Hf. unfold write_file. eapply spec_bind; [by apply (file_write_spec io P _ _ f fp [] 0 bs)|]. intros [rc f1]. apply spec_code; intros Hr.
  { intros d (fp1 & Hf1 & Hw & He). by apply (cleanup_file_spec f1 fp1 (pwrite [] 0 bs) (0 + length bs) bs rc); [| |split; [apply He|]]. }
  intros d (fp1 & Hf1 & Hw & _). rewrite pwrite_start in Hw. revert d Hw.
  eapply spec_bind; [by apply file_flush_spec|]. intros [rc2 f2]. apply spec_code; intros Hr2.
  { intros d (fp2 & Hf2 & [[? _]|(_ & He & Hw)]); [done|]. by apply (cleanup_file_spec f2 fp2 bs (0 + length bs) bs rc2). }
  intros d (fp2 & Hf2 & [(_ & Hb2 & Hw)|[? _]]); [|done]. revert d Hw.
  eapply spec_bind; [by apply (file_term_flushed io P _ _ f2 fp2)|]. intros [rc3 f3]. apply spec_code; intros Hr3.
  { eapply spec_weaken; [by apply cleanup_tmp_spec| |by intros a s H; exact H]. intros s [[Hk _] He]. split; [by apply He|done]. }
  eapply spec_weaken; [by apply replace_spec| |by intros a s H; exact H]. by intros s [H _].
Qed.

(** What [server_write_meta] writes. *)
Definition meta_bytes (v : voter) : list byte :=
  take (Z.to_nat (sc_buf_size (encode_meta_file v))) (sc_buf_rbuf (encode_meta_file v)).

Lemma write_meta_crash_spec v : P (Some (meta_bytes v)) ->
  crash_spec K K (write_meta io dir v) (fun '(rc, _) s => replaced (meta_bytes v) rc s).
Proof.
  intros Hb. unfold write_meta. eapply spec_bind; [apply file_open_spec, meta_paths|]. intros [rc f]. apply spec_code; intros Hr.
  - apply spec_ret. intros s [[? _]|H]; [done|by right].
  - intros d [[_ (fp & Hf & Hw)]|[? _]]; [|done]. revert d Hw.
    eapply spec_bind; [by apply (write_file_spec f fp (meta_bytes v))|]. intros rc'. by apply spec_ret.
Qed.
End write_meta.

(** *** Reading it back *)

Definition file_fields (x : meta_file) : list field :=
  FStr (Some (f_name x)) :: FStr (f_voted_for x) :: meta_fields (f_meta x).

Definition enc_file (x : meta_file) : list byte := enc_fields (file_fields x).

Definition file_ok (x : meta_file) : Prop := fits (Some (f_name x)) /\ fits (f_voted_for x) /\ meta_ok (f_meta x).

#[export] Instance file_ok_dec x : Decision (file_ok x).
Proof. unfold file_ok. apply _. Defined.

(** The buffer has room for [n] bytes. *)
Definition buffers (b : sc_buf) (n : Z) : Prop := buf_wf b /\ room (sc_buf_clear b) n /\ no_wrap (sc_buf_clear b) n.

(** The server holds [x] and can encode it. *)
Record holds (v : voter) (x : meta_file) : Prop := {
  hd_name : vt_name v = Some (f_name x);
  hd_voted_for : vt_voted_for v = f_voted_for x;
  hd_meta : vt_meta v = f_meta x;
  hd_ok : file_ok x;
  hd_tmp : buffers (vt_tmp v) (zlen (enc_file x))
}.

Lemma clear_contents b : contents (sc_buf_clear b) = [].
Proof. unfold contents, mread, sc_buf_clear. cbn. by rewrite take_0. Qed.

Lemma readable_bytes b : buf_wf b -> take (Z.to_nat (sc_buf_size b)) (sc_buf_rbuf b) = contents b.
Proof.
  intros []. unfold contents, mread, sc_buf_size, sc_buf_rbuf. rewrite u32_small by lia. done.
Qed.

Lemma meta_bytes_file v x : holds v x -> meta_bytes v = enc_file x.
Proof.
  intros [Hn Hv Hm Hok (Hwf & Hr & Hw)]. unfold meta_bytes, encode_meta_file. rewrite Hn, Hv, Hm, meta_encode_fields.
  change (put_fields _ (meta_fields (f_meta x))) with (put_fields (sc_buf_clear (vt_tmp v)) (file_fields x)).
  assert (Hc : buf_wf (sc_buf_clear (vt_tmp v))) by (by apply wf_clear).
  assert (Ha : appended (sc_buf_clear (vt_tmp v)) (enc_file x) (put_fields (sc_buf_clear (vt_tmp v)) (file_fields x)))
    by (apply put_outcome_ok; [done..|by apply put_fields_outcome]).
  rewrite readable_bytes by apply Ha. by rewrite (appended_contents _ _ _ Hc Ha), clear_contents.
Qed.

Lemma depth_bytes m : (depth m <= length (enc_fields (meta_fields m)))%nat.
Proof.
  induction m as [n u t i v ns|n u t i v ns p IH] using meta_ind2; cbn [depth meta_fields];
    rewrite !enc_fields_app, !length_app, enc_fields_cons, length_app; cbn; [lia|]. fold (enc_fields (meta_fields p)). lia.
Qed.

Lemma decode_meta_spec cluster v x b :
  file_ok x -> vt_voted_for v = None -> buf_wf b -> b_err b = 0 -> contents b = enc_file x ->
  exists b', decode_meta_file cluster v b = Some (mk_voter (Some (f_name x)) (f_voted_for x) (f_meta x) b') /\ buf_wf b'.
Proof.
  intros (Hn & Hv & Hm) H0 Hwf He Hc. unfold enc_file, file_fields in Hc. rewrite !enc_fields_cons in Hc. unfold decode_meta_file.
  destruct (reads_str _ (fits_str_ok _ Hn) b _ Hwf He Hc) as (b1 & E1 & Hwf1 & He1 & Hc1). rewrite E1.
  destruct (reads_str _ (fits_str_ok _ Hv) b1 _ Hwf1 He1 Hc1) as (b2 & E2 & Hwf2 & He2 & Hc2). rewrite E2.
  pose proof (depth_bytes (f_meta x)) as Hd. pose proof (zlen_contents _ Hwf2) as Hz.
  assert (Hf : (depth (f_meta x) <= S (Z.to_nat (sc_buf_size b2)))%nat).
  { unfold sc_buf_size. rewrite u32_small by (destruct Hwf2; lia). rewrite <- Hz, Hc2, zlen_nat. lia. }
  rewrite <- (app_nil_r (enc_fields (meta_fields _))) in Hc2.
  destruct (reads_meta _ _ (meta_init cluster) Hm Hf eq_refl eq_refl b2 [] Hwf2 He2 Hc2) as (b3 & E3 & Hwf3 & _). rewrite E3.
  exists b3. split; [|done]. cbn. rewrite str_set_fits by done. rewrite H0. do 2 f_equal.
  unfold str_set. rewrite str_create_fits by done. by destruct (f_voted_for x).
Qed.

(** Filling the buffer by hand, as the server does, is [sc_buf_put_raw]. *)
Lemma fill_buffer b bs : buffers b (zlen bs) -> let r := snd (sc_buf_reserve (sc_buf_clear b) (zlen bs)) in
  let b' := sc_buf_mark_write (with_mem r (mwrite (b_mem r) (b_wpos r) bs)) (zlen bs) in
  b_wpos r + zlen bs <= b_cap r /\ buf_wf b' /\ b_err b' = 0 /\ contents b' = bs.
Proof.
  intros (Hwf & Hr & Hw). apply wf_clear in Hwf. set (c := sc_buf_clear b) in *.
  destruct (sc_buf_reserve_ok c (zlen bs) Hwf (zlen_nonneg _) Hw Hr) as (b1 & E & Ha & Hl). cbv zeta. rewrite E. cbn [snd].
  assert (H0 : b_wpos b1 = 0) by (rewrite (a_wpos _ _ _ Hwf Ha); done). assert (He : b_err b1 = 0) by (by rewrite (a_err _ _ _ Ha)).
  assert (Ep : sc_buf_put_raw c bs = sc_buf_mark_write (with_mem b1 (mwrite (b_mem b1) (b_wpos b1) bs)) (zlen bs)).
  { unfold sc_buf_put_raw. rewrite E. unfold sc_buf_set_data. rewrite He, H0, Z.add_0_l. pose proof (zlen_nonneg bs).
    destruct (a_wf _ _ _ Ha) as [Hm Hcap _ _ _ _]. rewrite u32_small by lia. rewrite if_false by zbool_solve.
    destruct bs as [|x bs]; [|by rewrite if_false by zbool_solve].
    change (zlen [] =? 0) with true. cbn [sc_buf_mark_write]. destruct b1. cbn in *. unfold mwrite. done. }
  pose proof (sc_buf_put_raw_outcome c bs Hwf Hw) as Ho. apply put_outcome_ok in Ho; [|done|done]. rewrite Ep in Ho.
  split_and!; [done|apply Ho|by rewrite (a_err _ _ _ Ho)|]. rewrite (appended_contents _ _ _ Hwf Ho). unfold c. by rewrite clear_contents.
Qed.

Section parse_meta.
Context (io : nat -> outcome) (dir : path) (cluster : option (list byte)) (s0 : fs).
Local Abbreviation same := (fun s : fs => s = s0).

(** The file is open for reading at its start. *)
Definition reading (bs : list byte) (f : file) : Prop :=
  fl_path f = Some (meta_path dir) /\ exists i n, dir_now s0 !! meta_path dir = Some i /\
    fs_inodes s0 !! i = Some n /\ i_data n = bs /\ fl_fp f = Some (mk_stream i 0 []).

Lemma visible_inode bs : visible s0 (meta_path dir) = Some bs ->
  exists i n, dir_now s0 !! meta_path dir = Some i /\ fs_inodes s0 !! i = Some n /\ i_data n = bs.
Proof.
  unfold visible, file_in. destruct (dir_now s0 !! _) as [i|] eqn:E; [|done]. cbn. intros H.
  apply fmap_Some in H as (n & Hn & ->). by exists i, n.
Qed.

Lemma open_reading bs : fits (Some (meta_path dir)) -> visible s0 (meta_path dir) = Some bs ->
  crash_spec same same (file_open io file_init (meta_path dir) mode_r)
    (fun '(rc, f) s => s = s0 /\ ((rc = RS_OK /\ reading bs f) \/ (rc <> RS_OK /\ failed io /\ fl_fp f = None))).
Proof.
  intros Hfit Hv. destruct (visible_inode bs Hv) as (i & n & Hi & Hn & Hd). unfold file_open.
  eapply (spec_bind _ _ _ (fun r s => s = s0 /\ match r with inl _ => failed io | inr fp => fp = mk_stream i 0 [] end)).
  - apply spec_sys. intros k s ->. destruct (o_err (io k)) as [e|] eqn:E.
    + split_and!; [done| |done]. exists k. by rewrite E.
    + by rewrite Hi.
  - intros [e|fp]; apply spec_ret; intros s [-> Hs]; (split; [done|]).
    + right. split_and!; [apply full_or_error_neq|done|done].
    + left. subst fp. split; [done|]. split; [cbn; by apply str_set_fits|]. exists i, n. done.
Qed.

Lemma term_reading f : (fl_fp f = None \/ exists fp, fl_fp f = Some fp /\ sm_buf fp = []) ->
  crash_spec same same (file_term io f) (fun _ s => s = s0).
Proof.
  intros Hf. unfold file_term, file_close. eapply (spec_bind _ _ _ (fun _ s => s = s0)); [|intros [rc f']; by apply spec_ret].
  destruct (fl_fp f) as [fp|]; [|by apply spec_ret]. destruct Hf as [?|(fp' & [= <-] & Hb)]; [done|].
  eapply (spec_bind _ _ _ (fun _ s => s = s0)); [|intros e; by apply spec_ret].
  apply spec_sys. intros n s ->. unfold drain. rewrite Hb, take_nil. done.
Qed.

Lemma size_reading bs f : visible s0 (meta_path dir) = Some bs -> reading bs f ->
  crash_spec same same (file_size io f) (fun n s => s = s0 /\ (n = zlen bs \/ (n = -1 /\ failed io))).
Proof.
  intros Hv [Hp _]. unfold file_size. rewrite Hp. unfold file_size_at.
  eapply (spec_bind _ _ _ (fun r s => s = s0 /\ (r = Some (zlen bs) \/ (r = None /\ failed io)))).
  - apply spec_sys. intros n s ->. destruct (o_err (io n)) as [e|] eqn:E.
    + split_and!; [done| |done]. right. split; [done|]. exists n. by rewrite E.
    + rewrite Hv. split_and!; [done| |done]. by left.
  - intros r. apply spec_ret. intros s [-> [->|[-> Hf]]]; (split; [done|]); [by left|by right].
Qed.

Lemma read_reading bs f : reading bs f ->
  crash_spec same same (file_read io f (length bs))
    (fun '(rc, cs, f') s => s = s0 /\ (exists fp, fl_fp f' = Some fp /\ sm_buf fp = []) /\
       ((rc = RS_OK /\ cs = bs) \/ (rc <> RS_OK /\ failed io))).
Proof.
  intros [_ (i & n & Hi & Hn & Hd & Hf)]. unfold file_read. rewrite Hf. unfold fread.
  eapply (spec_bind _ _ _ (fun '(cs, fp) s => s = s0 /\ sm_buf fp = [] /\ (length cs = length bs -> cs = bs) /\ (cs <> bs -> failed io))).
  - apply spec_sys. intros k s ->. cbn [sm_ino sm_pos]. rewrite Hn, Hd, drop_0, firstn_all.
    destruct (o_err (io k)) as [e|] eqn:E; (split_and!; [done|done| | |done]); try done.
    + rewrite length_take. intros Hl. by rewrite take_ge by lia.
    + intros _. exists k. by rewrite E.
  - intros [cs fp]. apply spec_ret. intros s (-> & Hb & Hl & Hc). split_and!; [done|by exists fp|].
    destruct (Nat.eqb_spec (length cs) (length bs)) as [El|El]; [left; auto|right]. split; [done|]. apply Hc. by intros ->.
Qed.

Lemma spec_pull {A} (R : Prop) (m : fsM A) (Post : A -> fs -> Prop) :
  (R -> crash_spec same same m Post) -> crash_spec same (fun s => s = s0 /\ R) m Post.
Proof. intros H d [Hd HR]. by apply H. Qed.

(** What [server_parse_meta] returns: the file, or an error when a call has failed. *)
Definition parsed (x : meta_file) (rc : rs_rc) (v : voter) : Prop :=
  (rc = RS_OK /\ vt_name v = Some (f_name x) /\ vt_voted_for v = f_voted_for x /\ vt_meta v = f_meta x) \/
  (rc <> RS_OK /\ failed io).

Lemma parse_read v x f : file_ok x -> vt_voted_for v = None -> buffers (vt_tmp v) (zlen (enc_file x)) -> reading (enc_file x) f ->
  let r := snd (sc_buf_reserve (sc_buf_clear (vt_tmp v)) (zlen (enc_file x))) in
  crash_spec same same
    ('(rc, b, f) ← read_into io f (zlen (enc_file x)) r;
     if negb (bool_decide (rc = RS_OK))
     then file_term io f ≫= (fun _ => mret (rc, mk_voter (vt_name v) (vt_voted_for v) (vt_meta v) b))
     else
       match decode_meta_file cluster v (sc_buf_mark_write b (zlen (enc_file x))) with
       | None => dies
       | Some v => file_term io f ≫= (fun _ => mret (RS_OK, v))
       end) (fun '(rc, v') s => s = s0 /\ parsed x rc v').
Proof.
  intros Hok H0 Hb Hf r. pose proof (fill_buffer _ _ Hb) as (Hl & Hwf & He & Hc). fold r in Hl, Hwf, He, Hc.
  unfold read_into. rewrite if_false by zbool_solve. rewrite zlen_nat.
  eapply (spec_bind _ _ _ (fun '(rc, b, f') s => s = s0 /\ ((exists fp, fl_fp f' = Some fp /\ sm_buf fp = []) /\
    ((rc = RS_OK /\ b = with_mem r (mwrite (b_mem r) (b_wpos r) (enc_file x))) \/ (rc <> RS_OK /\ failed io))))).
  { eapply spec_bind; [by apply read_reading|]. intros [[rc' cs] f']. apply spec_ret.
    intros s (-> & Hfp & [[-> ->]|H]); (split_and!; [done|done|]); [by left|by right]. }
  intros [[rc' b'] f']. apply spec_pull. intros (Hfp & Hx). case_bool_decide as Hr'; cbn [negb].
  - destruct Hx as [[_ ->]|[? _]]; [|done].
    destruct (decode_meta_spec cluster v x _ Hok H0 Hwf He Hc) as (b3 & -> & _).
    eapply spec_bind; [apply term_reading; by right|]. intros y. apply spec_ret. intros s ->. split; [done|by left].
  - destruct Hx as [[? _]|[_ Hx]]; [done|]. eapply spec_bind; [apply term_reading; by right|].
    intros y. apply spec_ret. intros s ->. split; [done|by right].
Qed.

Lemma parse_meta_spec v x :
  fits (Some (meta_path dir)) -> visible s0 (meta_path dir) = Some (enc_file x) -> file_ok x -> vt_voted_for v = None ->
  buffers (vt_tmp v) (zlen (enc_file x)) ->
  crash_spec same same (parse_meta io dir cluster v) (fun '(rc, v') s => s = s0 /\ parsed x rc v').
Proof.
  intros Hfit Hv Hok H0 Hb. pose proof (fill_buffer _ _ Hb) as Hfill. cbv zeta in Hfill.
  assert (Hu : u32 (zlen (enc_file x)) = zlen (enc_file x)).
  { destruct Hfill as (Hl & Hw & _). apply u32_small. pose proof (zlen_nonneg (enc_file x)).
    destruct Hw as [_ Hc _ _ _ _]. cbn in Hc. cbn in Hl. destruct Hb as (Hwf & _).
    destruct (sc_buf_reserve _ _) as [ok r] eqn:E. cbn in *. destruct Hwf, Hc. cbn in *.
    assert (0 <= b_wpos r); [|lia]. revert E. unfold sc_buf_reserve. repeat case_if; intros [= _ <-]; cbn; lia. }
  unfold parse_meta. eapply spec_bind; [by apply open_reading|]. intros [rc f]. apply spec_pull. intros Hf.
  case_bool_decide as Hr; cbn [negb].
  2:{ destruct Hf as [[? _]|(_ & He & Hf)]; [done|]. eapply spec_bind; [apply term_reading; by left|].
      intros r. apply spec_ret. intros s ->. split; [done|by right]. }
  destruct Hf as [[_ Hf]|[? _]]; [|done]. eapply spec_bind; [by apply (size_reading _ _ Hv Hf)|]. intros size.
  apply spec_pull. intros [->|[-> He]].
  2:{ cbn [Z.ltb Z.compare]. eapply spec_bind; [apply term_reading; right|].
      - destruct Hf as [_ (i & n & _ & _ & _ & Ef)]. by eexists.
      - intros r. apply spec_ret. intros s ->. split; [done|by right]. }
  rewrite if_false by (pose proof (zlen_nonneg (enc_file x)); zbool_solve). rewrite Hu. by apply parse_read.
Qed.
End parse_meta.

(** ** Crashes *)

(** The file system of a node with what its file can hold after a crash: the last version
    that was written without an error, and the versions that were tried after it. *)
Inductive life (dir : path) : fs -> list (option meta_file) -> Prop :=
| life_new s :
    fs_pending s = [] -> fs_disk s !! meta_path dir = None -> fs_disk s !! meta_tmp_path dir = None -> life dir s [None]
| life_write io v x s vs n rc :
    life dir s vs -> holds v x ->
    let r := write_meta io dir v (mk_disk s n []) in
    fst <$> fst r = Some rc -> life dir (d_fs (snd r)) (if bool_decide (rc = RS_OK) then [Some x] else Some x :: vs)
| life_write_crash io v x s vs n s1 k junk :
    life dir s vs -> holds v x -> s1 ∈ s :: d_seen (snd (write_meta io dir v (mk_disk s n []))) ->
    life dir (crash k junk s1) (Some x :: vs)
| life_crash s vs k junk : life dir s vs -> life dir (crash k junk s) vs
| life_clean io s vs n :
    life dir s vs -> life dir (d_fs (snd (file_remove_path io (meta_tmp_path dir) (mk_disk s n [])))) vs.

Definition allowed (vs : list (option meta_file)) (data : option (list byte)) : Prop :=
  exists y, y ∈ vs /\ data = enc_file <$> y /\ match y with None => True | Some x => file_ok x end.

Lemma allowed_cons vs x data : allowed vs data -> allowed (x :: vs) data.
Proof. intros (y & Hy & H). exists y. split; [by right|done]. Qed.

Lemma allowed_here vs x : file_ok x -> allowed (Some x :: vs) (Some (enc_file x)).
Proof. intros Hx. exists (Some x). split; [left|done]. Qed.

Lemma spec_run {A} K Pre (m : fsM A) Post s n :
  crash_spec K Pre m Post -> Pre s -> K s ->
  exists a d', m (mk_disk s n []) = (Some a, d') /\ Post a (d_fs d') /\ forall s1, s1 ∈ s :: d_seen d' -> K s1.
Proof.
  intros H Hs HK. destruct (H (mk_disk s n []) Hs) as (a & d' & E & Hp & new & Es & Hn). exists a, d'. split_and!; [done..|].
  cbn [d_seen] in Es. rewrite app_nil_r in Es. rewrite Es. intros s1 [->|Hi]%elem_of_cons; [done|]. by apply (Forall_forall K new).
Qed.

Lemma life_keeps dir s vs : life dir s vs -> keeps (allowed vs) (meta_path dir) (meta_tmp_path dir) s.
Proof.
  induction 1 as [s Hp Hm Ht|io v x s vs n rc Hl IH Hx r Hr|io v x s vs n s1 k junk Hl IH Hx Hs|s vs k junk Hl IH|io s vs n Hl IH].
  - assert (E : forall k, dir_after s k = fs_disk s) by (intros k; unfold dir_after; by rewrite Hp, take_nil). split.
    + intros k. unfold file_in. rewrite E, Hm. exists None. split; [left|done].
    + intros k i. rewrite E, Hm. done.
    + intros i. unfold dir_now. rewrite E, Ht. done.
    + intros k i. rewrite E, Ht. done.
  - set (P := allowed (Some x :: vs)). assert (Hk : keeps P (meta_path dir) (meta_tmp_path dir) s)
      by (apply (keeps_impl _ _ _ _ _ IH), allowed_cons).
    assert (Hb : P (Some (meta_bytes v))) by (rewrite (meta_bytes_file v x Hx); apply allowed_here, Hx).
    destruct (spec_run _ _ _ _ s n (write_meta_crash_spec io P dir v Hb) Hk Hk) as ([rc' v'] & d' & E & Hrep & _).
    unfold r in *. rewrite E in *. cbn in Hr. injection Hr as ->. cbn [snd]. destruct Hrep as [[-> H]|(Hn & _ & H)].
    + rewrite bool_decide_true by done. apply (keeps_impl _ _ _ _ _ H). intros y <-. rewrite (meta_bytes_file v x Hx).
      apply allowed_here, Hx.
    + by rewrite bool_decide_false by done.
  - set (P := allowed (Some x :: vs)). assert (Hk : keeps P (meta_path dir) (meta_tmp_path dir) s)
      by (apply (keeps_impl _ _ _ _ _ IH), allowed_cons).
    assert (Hb : P (Some (meta_bytes v))) by (rewrite (meta_bytes_file v x Hx); apply allowed_here, Hx).
    destruct (spec_run _ _ _ _ s n (write_meta_crash_spec io P dir v Hb) Hk Hk) as (a & d' & E & _ & Hall).
    rewrite E in Hs. apply keeps_crash. by apply Hall.
  - by apply keeps_crash.
  - destruct (spec_run _ _ _ _ s n (file_remove_path_spec io _ _ _ (meta_paths dir)) IH IH) as (a & d' & E & H & _). by rewrite E.
Qed.

(** *** Starting the server *)

Lemma visible_unlinked dir s : visible (dir_do s (Unlink (meta_tmp_path dir))) (meta_path dir) = visible s (meta_path dir).
Proof. unfold visible, file_in. rewrite dir_now_do. cbn. by rewrite lookup_delete_ne by apply meta_paths. Qed.

(** The start removes the temporary file, or ends with an error if that fails. *)
Lemma read_meta_begins io dir cluster v urls s n :
  exists s', visible s' (meta_path dir) = visible s (meta_path dir) /\ (forall vs, life dir s vs -> life dir s' vs) /\
    ((exists rc, rc <> RS_OK /\ o_err (io n) <> None /\ read_meta io dir cluster v urls (mk_disk s n []) = (Some (rc, v), mk_disk s' (S n) [s'])) \/
     read_meta io dir cluster v urls (mk_disk s n []) =
       (exist ← file_exists_at io (meta_path dir);
        if (exist : bool) then parse_meta io dir cluster v else create_meta io dir cluster v urls) (mk_disk s' (S n) [s'])).
Proof.
  set (m := file_remove_path io (meta_tmp_path dir)). exists (d_fs (snd (m (mk_disk s n [])))). split_and!.
  - unfold m, file_remove_path, remove, mbind, fsM_bind, sys. cbn [d_io d_fs].
    destruct (o_err (io n)) as [e|]; [done|]. destruct (dir_now s !! _); [apply visible_unlinked|done].
  - intros vs Hl. by apply life_clean.
  - unfold read_meta, m, file_remove_path, remove, mbind, fsM_bind, sys, mret, fsM_ret. cbn [d_io d_fs].
    destruct (o_err (io n)) as [e|] eqn:Ee; [|destruct (dir_now s !! _); by right].
    destruct (decide (e = ENOENT)) as [->|Hn]; [by right|]. left. exists RS_ERROR.
    split_and!; [done|done|]. by rewrite (bool_decide_false (e = ENOENT)) by done.
Qed.

Lemma exists_visible io dir s n seen : o_err (io n) = None -> (forall i, dir_now s !! meta_path dir = Some i -> is_Some (fs_inodes s !! i)) ->
  file_exists_at io (meta_path dir) (mk_disk s n seen) = (Some (bool_decide (is_Some (visible s (meta_path dir)))), mk_disk s (S n) (s :: seen)).
Proof.
  intros He Hi. unfold file_exists_at, access, sys. cbn [d_io d_fs]. rewrite He. do 3 f_equal. apply bool_decide_ext.
  unfold visible, file_in. destruct (dir_now s !! _) as [i|] eqn:E; cbn; [|done]. rewrite fmap_is_Some. split; [|by eauto]. intros _. by apply Hi.
Qed.

Lemma life_inodes dir s vs i : life dir s vs -> dir_now s !! meta_path dir = Some i -> is_Some (fs_inodes s !! i).
Proof. intros Hl Hi. destruct (ks_synced _ _ _ _ (life_keeps _ _ _ Hl) _ _ Hi) as (n & Hn & _). by exists n. Qed.

Lemma write_meta_vote io dir v d rc v' d' : write_meta io dir v d = (Some (rc, v'), d') -> vt_voted_for v' = vt_voted_for v.
Proof.
  unfold write_meta, mbind, fsM_bind, mret, fsM_ret. destruct (file_open io file_init _ mode_w d) as [[[rc1 f]|] d1]; [|done].
  destruct (negb _); [by intros [= _ <- _]|]. destruct (write_file io dir f _ d1) as [[rc2|] d2]; [|done]. by intros [= _ <- _].
Qed.

(** Without a file the server starts with the configured nodes; it has no vote. *)
Lemma create_meta_vote io dir cluster v urls s n seen vs : life dir s vs -> exists rc v' d',
  create_meta io dir cluster v urls (mk_disk s n seen) = (Some (rc, v'), d') /\ vt_voted_for v' = vt_voted_for v.
Proof.
  intros Hl. unfold create_meta. destruct (meta_parse_uris _ urls) as [[] m]; cbn [negb]; [|by do 3 eexists].
  set (v1 := mk_voter (vt_name v) (vt_voted_for v) m (vt_tmp v)).
  destruct (write_meta_crash_spec io (fun _ => True) dir v1 I (mk_disk s n seen)) as ([rc v'] & d' & E & _).
  { apply (keeps_impl _ _ _ _ _ (life_keeps _ _ _ Hl)). done. }
  exists rc, v', d'. split; [done|]. by apply write_meta_vote in E.
Qed.

(** A start whose second call, [access], does not fail. *)
Lemma read_meta_spec io dir cluster v urls s n vs y :
  life dir s vs -> fits (Some (meta_path dir)) -> visible s (meta_path dir) = enc_file <$> y ->
  match y with None => True | Some x => file_ok x /\ buffers (vt_tmp v) (zlen (enc_file x)) end ->
  vt_voted_for v = None -> o_err (io (S n)) = None ->
  exists rc v' d', read_meta io dir cluster v urls (mk_disk s n []) = (Some (rc, v'), d') /\
    match y with
    | Some x => parsed io x rc v' /\ visible (d_fs d') (meta_path dir) = visible s (meta_path dir) /\ life dir (d_fs d') vs
    | None => vt_voted_for v' = None
    end.
Proof.
  intros Hl Hfit Hv Hy H0 Ha. destruct (read_meta_begins io dir cluster v urls s n) as (s' & Hs & Hl' & [(rc & Hr & Hf & E)|E]).
  { do 3 eexists. split; [exact E|]. destruct y; [|done]. split_and!; [right; split; [done|by exists n]|done|by apply Hl']. }
  specialize (Hl' _ Hl). revert E. unfold mbind at 1, fsM_bind at 1.
  rewrite exists_visible by (done || (intros i; by apply (life_inodes _ _ _ _ Hl'))). rewrite Hs, Hv.
  destruct y as [x|]; cbn [fmap option_fmap option_map].
  - rewrite bool_decide_true by done. destruct Hy as [Hok Hb].
    destruct (parse_meta_spec io dir cluster s' v x Hfit ltac:(by rewrite Hs, Hv) Hok H0 Hb (mk_disk s' (S (S n)) [s'; s']) eq_refl)
      as ([rc v'] & d' & E & [Hd Hp] & _).
    intros ->. exists rc, v', d'. rewrite Hd, Hs, Hv. done.
  - rewrite bool_decide_false by (by intros []). intros ->.
    destruct (create_meta_vote io dir cluster v urls s' (S (S n)) [s'; s'] vs Hl') as (rc & v' & d' & E & Hvote).
    exists rc, v', d'. by rewrite Hvote.
Qed.

(** A defect.  A failing call of [access] is taken for a missing file: the server replaces the
    file by one with the configured nodes and without a vote. *)
Theorem failing_access_forgets io dir cluster v urls m s n e :
  o_err (io n) = None -> o_err (io (S n)) = Some e -> meta_parse_uris (meta_init cluster) urls = (true, m) ->
  exists d, read_meta io dir cluster v urls (mk_disk s n []) =
      write_meta io dir (mk_voter (vt_name v) (vt_voted_for v) m (vt_tmp v)) d /\
    visible (d_fs d) (meta_path dir) = visible s (meta_path dir).
Proof.
  intros En Ea Em. destruct (read_meta_begins io dir cluster v urls s n) as (s' & Hs & _ & [(rc & _ & He & _)|E]); [done|].
  exists (mk_disk s' (S (S n)) [s'; s']). split; [|done]. rewrite E. unfold mbind at 1, fsM_bind at 1, file_exists_at, access, sys.
  cbn [d_io d_fs d_seen]. rewrite Ea. unfold create_meta. by rewrite Em.
Qed.

(** C8: a vote is not forgotten.  A server writes the file with its vote and configuration any
    number of times and removes what a write has left when it starts; calls of the operating
    system fail and crashes happen, between the writes or in the middle of one, and lose what was
    not flushed.  The file is then the version of the last write that returned without an error,
    or a version that was tried after it, and never a mixture.  A start of the server in which
    the call of [access] does not fail reads this version and leaves it in place; it reports an
    error only if one of its calls fails.  Only if no write has ever succeeded there may be no
    file, and the server starts without a vote. *)
Theorem vote_survives dir cluster s vs :
  life dir s vs -> fits (Some (meta_path dir)) ->
  exists y, y ∈ vs /\ visible s (meta_path dir) = enc_file <$> y /\ forall io v urls n,
    vt_voted_for v = None -> match y with None => True | Some x => buffers (vt_tmp v) (zlen (enc_file x)) end ->
    o_err (io (S n)) = None ->
    exists rc v' d', read_meta io dir cluster v urls (mk_disk s n []) = (Some (rc, v'), d') /\
      match y with
      | Some x => parsed io x rc v' /\ visible (d_fs d') (meta_path dir) = visible s (meta_path dir) /\ life dir (d_fs d') vs
      | None => vt_voted_for v' = None
      end.
Proof.
  intros Hl Hfit. destruct (keeps_visible _ _ _ _ (life_keeps _ _ _ Hl)) as (y & Hy & Hv & Hok). exists y. split_and!; [done..|].
  intros io v urls n H0 Hb Ha. apply read_meta_spec; [done..| |done|done]. by destruct y.
Qed.

(** A node that voted for [a], and then for [b] when the power failed behind the rename. *)
Definition calm : nat -> outcome := fun _ => mk_outcome None 7.

Definition demo_file (vote : byte) (term : Z) : meta_file := mk_file [x6e] (Some [vote]) (with_term demo_meta term).

Definition demo_voter (x : meta_file) : voter := mk_voter (Some (f_name x)) (f_voted_for x) (f_meta x) (sc_buf_init 1024).

Definition demo_first : fs := d_fs (snd (write_meta calm [x64] (demo_voter (demo_file x61 1)) (mk_disk (mk_fs [] ∅ []) 0 []))).

(** The state after the [j]-th call from the end of a write, or the state before it. *)
Definition seen_at (io : nat -> outcome) (dir : path) (v : voter) (s : fs) (j : nat) : fs :=
  default s (d_seen (snd (write_meta io dir v (mk_disk s 0 []))) !! j).

Definition demo_lost : fs := crash 1 (fun _ => []) (seen_at calm [x64] (demo_voter (demo_file x62 2)) demo_first 2).

Lemma life_seen io dir v x s vs j k junk :
  life dir s vs -> holds v x -> life dir (crash k junk (seen_at io dir v s j)) (Some x :: vs).
Proof.
  intros Hl Hx. apply (life_write_crash dir io v x s vs 0); [done..|]. unfold seen_at.
  destruct (_ !! j) as [s1|] eqn:E; cbn [default]; [right; by apply list_elem_of_lookup_2 in E|left].
Qed.

Lemma demo_holds vote term : bool_decide (file_ok (demo_file vote term)) = true ->
  (zlen (enc_file (demo_file vote term)) <=? 1024) = true -> holds (demo_voter (demo_file vote term)) (demo_file vote term).
Proof.
  intros Hok Hl. apply Z.leb_le in Hl. split; [done..|by apply bool_decide_eq_true in Hok|].
  split; [apply wf_init; lia|]. split; left; cbn -[zlen enc_file]; lia.
Qed.

Lemma demo_life1 : life [x64] demo_first [Some (demo_file x61 1)].
Proof.
  assert (H1 : holds (demo_voter (demo_file x61 1)) (demo_file x61 1)) by (apply demo_holds; vm_compute; reflexivity).
  assert (H0 : life [x64] (mk_fs [] ∅ []) [None]) by (by apply life_new).
  refine (life_write [x64] calm _ _ _ _ 0 RS_OK H0 H1 _). vm_compute. reflexivity.
Qed.

Lemma demo_life2 : life [x64] demo_lost [Some (demo_file x62 2); Some (demo_file x61 1)].
Proof. refine (life_seen calm [x64] _ _ _ _ 2 1 _ demo_life1 _). apply demo_holds; vm_compute; reflexivity. Qed.

Lemma demo_cases x : Some x ∈ [Some (demo_file x62 2); Some (demo_file x61 1)] -> x = demo_file x62 2 \/ x = demo_file x61 1.
Proof. intros [[= H]|[[= H]|H%elem_of_nil]%elem_of_cons]%elem_of_cons; [by left|by right|done]. Qed.

Lemma demo_buffers x : x = demo_file x62 2 \/ x = demo_file x61 1 -> buffers (sc_buf_init 1024) (zlen (enc_file x)).
Proof.
  intros Hx. assert (Hz : (zlen (enc_file x) <=? 1024) = true) by (destruct Hx as [-> | ->]; vm_compute; reflexivity).
  apply Z.leb_le in Hz. split; [apply wf_init; lia|]. split; left; cbn -[zlen enc_file]; lia.
Qed.

Lemma demo_path : fits (Some (meta_path [x64])).
Proof. apply (bool_decide_unpack _). vm_compute. reflexivity. Qed.

Lemma vote_survives_witness : exists x rc v' d',
  (x = demo_file x62 2 \/ x = demo_file x61 1) /\
  read_meta calm [x64] None (mk_voter None None (meta_init None) (sc_buf_init 1024)) None (mk_disk demo_lost 0 []) = (Some (rc, v'), d') /\
  parsed calm x rc v'.
Proof.
  destruct (vote_survives [x64] None demo_lost _ demo_life2 demo_path) as ([x|] & Hx & _ & H).
  - apply demo_cases in Hx.
    destruct (H calm (mk_voter None None (meta_init None) (sc_buf_init 1024)) None 0%nat eq_refl (demo_buffers x Hx) eq_refl)
      as (rc & v' & d' & E & Hp & _).
    exact (ex_intro _ x (ex_intro _ rc (ex_intro _ v' (ex_intro _ d' (conj Hx (conj E Hp)))))).
  - exfalso. revert Hx. rewrite !elem_of_cons, elem_of_nil. intros [E|[E|E]]; discriminate || exact E.
Defined.
