(* ===== verification/Snap.v ===== *)
(** * Snapshot files (src/snapshot.c, and the files of src/state.c)

    How a node keeps the snapshot of its state in a file: receiving it from the leader in
    pieces, mapping it, writing a new one from the log, and opening the state at the start.

    The files and crashes are those of Disk.v.  What SQLite and the state machine (State.v)
    do to a database file is an argument, [database]: here only the names of the files
    matter, and the order in which they are copied, removed and renamed. *)

From Stdlib Require Import ZArith Lia.
From Stdlib Require Import Strings.Byte.
From stdpp Require Import base list numbers gmap strings.
From S2P Require Import Prelude Str Uri Buf Entry Page Store Msg Map Meta Node Sql Server Replicate Disk.

(** [struct snapshot]: the mapped file is named by its inode, which a rename does not change. *)
Record snap := mk_snap {
  sn_open : bool;
  sn_map : option nat;
  sn_term : Z;
  sn_index : Z;
  sn_latest_term : Z;
  sn_latest_index : Z;
  sn_recv_term : Z;
  sn_recv_index : Z;
  sn_tmp : option file
}.

Definition with_map (ss : snap) (m : option nat) : snap :=
  mk_snap (sn_open ss) m (sn_term ss) (sn_index ss) (sn_latest_term ss) (sn_latest_index ss)
    (sn_recv_term ss) (sn_recv_index ss) (sn_tmp ss).
Definition with_recv (ss : snap) (term index : Z) (tmp : option file) : snap :=
  mk_snap (sn_open ss) (sn_map ss) (sn_term ss) (sn_index ss) (sn_latest_term ss) (sn_latest_index ss) term index tmp.
Definition with_tmp (ss : snap) (tmp : option file) : snap := with_recv ss (sn_recv_term ss) (sn_recv_index ss) tmp.
Definition with_current (ss : snap) (is_open : bool) (term index : Z) : snap :=
  mk_snap is_open (sn_map ss) term index (sn_latest_term ss) (sn_latest_index ss)
    (sn_recv_term ss) (sn_recv_index ss) (sn_tmp ss).
Definition with_latest (ss : snap) (term index : Z) : snap :=
  mk_snap (sn_open ss) (sn_map ss) (sn_term ss) (sn_index ss) term index (sn_recv_term ss) (sn_recv_index ss) (sn_tmp ss).

(** The operations on databases: the file a database is opened from is given, [None] is a
    database in memory.  [db_read] is [state_read_vars], [db_write] is [state_write_vars]. *)
Record database := mk_database {
  db_init : option path -> fsM rs_rc;
  db_create : path -> fsM rs_rc;
  db_load : path -> fsM rs_rc;
  db_read : fsM (rs_rc * (Z * Z));
  db_write : fsM rs_rc;
  db_term : fsM rs_rc;
  db_apply : Z -> fsM (rs_rc * (Z * Z));
  db_close : fsM rs_rc
}.

Section snap.
Variable io : nat -> outcome.
Variable D : database.
Variable dir : path.
Variable wfuel fuel : nat.

Definition ss_path : path := in_dir dir (text "snapshot.resql").
Definition ss_tmp_path : path := in_dir dir (text "snapshot.tmp.resql").
Definition ss_recv_path : path := in_dir dir (text "snapshot.tmp.recv.resql").
Definition state_path : path := in_dir dir (text "state.resql").

(** ** Mapping a file for reading (lib/sc/sc_mmap.c) *)

(** [mmap] of an empty file fails. *)
Definition mmap (len : Z) : fsM bool := sys io (fun o s =>
  match o_err o with Some _ => (false, s) | None => (negb (len =? 0), s) end).

Definition munmap : fsM bool := sys io (fun o s => (bool_decide (o_err o = None), s)).

(** [sc_mmap_init(m, name, O_RDONLY, PROT_READ, MAP_SHARED, 0, 0)]; the size of a memory
    page is always known. *)
Definition sc_mmap_init (name : path) : fsM (option nat) :=
  fd ← open_r io name;
  match fd with
  | None => mret None
  | Some fd =>
      st ← stat io name;
      match st with
      | None => mret None
      | Some len =>
          ok ← mmap len;
          mret (if (ok : bool) then Some fd else None)
      end
  end.

Definition sc_mmap_term (m : option nat) : fsM (bool * option nat) :=
  match m with
  | None => mret (true, None)
  | Some _ => ok ← munmap; mret (ok, None)
  end.

(** ** The snapshot in use *)

Definition disk_snapshot_open (ss : snap) (p : path) (term index : Z) : fsM (rs_rc * snap) :=
  m ← sc_mmap_init p;
  match m with
  | None => mret (RS_ERROR, with_map ss None)
  | Some _ => mret (RS_OK, with_current (with_map ss m) true term index)
  end.

Definition disk_snapshot_close (ss : snap) : fsM (rs_rc * snap) :=
  '(ok, m) ← sc_mmap_term (sn_map ss);
  mret (if (ok : bool) then RS_OK else RS_ERROR, with_map ss m).

Definition disk_snapshot_replace (ss : snap) : fsM (rs_rc * snap) :=
  '(rc, ss) ← disk_snapshot_close ss;
  if negb (bool_decide (rc = RS_OK)) then mret (rc, ss)
  else disk_snapshot_open ss ss_path (sn_latest_term ss) (sn_latest_index ss).

(** ** Receiving a snapshot *)

Definition disk_snapshot_clear (ss : snap) : fsM snap :=
  match sn_tmp ss with
  | None => mret ss
  | Some f =>
      '(_, f) ← file_close io f;
      file_remove io f ≫= (fun _ =>
      file_destroy io f ≫= (fun _ =>
      mret (with_recv ss 0 0 None)))
  end.

(** The end of the file has arrived. *)
Definition recv_done (ss : snap) (f : file) : fsM (rs_rc * snap) :=
  '(_, ss) ← disk_snapshot_close ss;
  '(rc, f) ← file_flush io f;
  if negb (bool_decide (rc = RS_OK)) then mret (rc, with_tmp ss (Some f))
  else
    file_destroy io f ≫= (fun _ =>
    let ss := with_tmp ss None in
    rc ← file_rename io ss_path ss_recv_path;
    if negb (bool_decide (rc = RS_OK)) then mret (rc, ss)
    else mret (RS_SNAPSHOT, with_current ss (sn_open ss) 0 0)).

Definition disk_snapshot_recv (ss : snap) (term index : Z) (done : bool) (offset : nat) (data : list byte)
    : fsM (rs_rc * snap) :=
  ss ← (if negb (sn_recv_term ss =? term) || negb (sn_recv_index ss =? index) then
          ss ← disk_snapshot_clear ss; mret (with_recv ss term index (sn_tmp ss))
        else mret ss);
  '(rc, ss, f) ← match sn_tmp ss with
                 | Some f => mret (RS_OK, ss, f)
                 | None =>
                     '(rc, f) ← file_open io file_init ss_recv_path mode_w;
                     mret (rc, with_tmp ss (Some f), f)
                 end;
  if negb (bool_decide (rc = RS_OK)) then mret (rc, ss)
  else
    '(rc, f) ← file_write_at io f offset data;
    let ss := with_tmp ss (Some f) in
    if negb (bool_decide (rc = RS_OK)) then mret (rc, ss)
    else if done : bool then recv_done ss f
    else mret (RS_OK, ss).

(** ** Opening the state (src/state.c) *)

Definition state_read_snapshot (in_memory : bool) (st : Z * Z) : fsM (rs_rc * (Z * Z)) :=
  b ← file_exists_at io ss_path;
  if negb b then mret (RS_ENOENT, st)
  else
    rc ← (if in_memory then
            rc ← db_init D None;
            if negb (bool_decide (rc = RS_OK)) then mret rc
            else
              rc ← db_load D ss_path;
              if negb (bool_decide (rc = RS_OK)) then db_term D ≫= (fun _ => mret rc) else mret RS_OK
          else
            rc ← file_copy io wfuel fuel state_path ss_path;
            if negb (bool_decide (rc = RS_OK)) then mret rc else db_init D (Some state_path));
    if negb (bool_decide (rc = RS_OK)) then mret (rc, st) else db_read D.

Definition state_initial_snapshot : fsM rs_rc :=
  rc ← db_create D ss_tmp_path;
  if negb (bool_decide (rc = RS_OK)) then mret rc
  else
    rc ← db_write D;
    if negb (bool_decide (rc = RS_OK)) then db_term D ≫= (fun _ => mret rc)
    else
      rc ← db_term D;
      if negb (bool_decide (rc = RS_OK)) then mret rc
      else
        e ← rename io ss_tmp_path ss_path;
        db_term D ≫= (fun _ => mret (error_of e)).

(** The result has the term and the index of the state. *)
Definition state_open (in_memory : bool) : fsM (rs_rc * (Z * Z)) :=
  rc ← file_remove_path io ss_tmp_path;
  if negb (bool_decide (rc = RS_OK)) then mret (rc, (0, 0))
  else
    '(rc, st) ← state_read_snapshot in_memory (0, 0);
    if bool_decide (rc = RS_ERROR) || bool_decide (rc = RS_FULL) then mret (rc, st)
    else if bool_decide (rc = RS_ENOENT) then
      rc ← state_initial_snapshot;
      if negb (bool_decide (rc = RS_OK)) then mret (rc, st)
      else
        '(rc, st) ← state_read_snapshot in_memory st;
        if negb (bool_decide (rc = RS_OK)) then mret (rc, st)
        else file_size_at io ss_path ≫= (fun _ => mret (rc, st))
    else mret (rc, st).

(** [rs_abort] ends the process. *)
Definition state_read_for_snapshot : fsM (rs_rc * (Z * Z)) :=
  b ← file_exists_at io ss_path;
  if negb b then dies
  else
    rc ← file_copy io wfuel fuel ss_tmp_path ss_path;
    if negb (bool_decide (rc = RS_OK)) then mret (rc, (0, 0))
    else
      rc ← db_init D (Some ss_tmp_path);
      if negb (bool_decide (rc = RS_OK)) then dies
      else
        '(rc, st) ← db_read D;
        if negb (bool_decide (rc = RS_OK)) then dies else mret (RS_OK, st).

(** ** Writing a snapshot: the snapshot thread *)

(** The loop over the entries of the page. *)
Fixpoint apply_page (js : list Z) (st : Z * Z) : fsM (rs_rc * (Z * Z)) :=
  match js with
  | [] => mret (RS_OK, st)
  | j :: js =>
      '(rc, st) ← db_apply D j;
      if negb (bool_decide (rc = RS_OK)) then mret (rc, st) else apply_page js st
  end.

(** [snapshot_compact] for a page whose last index is [last]: the code that is signalled. *)
Definition snapshot_compact (ss : snap) (last : Z) : fsM (rs_rc * snap) :=
  '(rc, st) ← state_read_for_snapshot;
  if negb (bool_decide (rc = RS_OK)) then db_close D ≫= (fun _ => mret (rc, ss))
  else
    let first := snd st +₆₄ 1 in
    '(rc, st) ← apply_page (seqZ first (last - first + 1)) st;
    if negb (bool_decide (rc = RS_OK)) then db_close D ≫= (fun _ => mret (rc, ss))
    else
      db_close D ≫= (fun _ =>
      file_remove_path io ss_path ≫= (fun _ =>
      e ← rename io ss_tmp_path ss_path;
      match e with
      | Some _ => dies
      | None =>
          file_size_at io ss_path ≫= (fun _ =>
          mret (RS_OK, with_latest ss (fst st) (snd st)))
      end)).
End snap.

(** ** Receiving a snapshot in pieces *)

Record piece := mk_piece { pc_offset : nat; pc_data : list byte; pc_done : bool }.

(** The handler is called for one piece after the other until it does not return [RS_OK]. *)
Fixpoint recv_all (io : nat -> outcome) (dir : path) (term index : Z) (ss : snap) (ps : list piece) : fsM (rs_rc * snap) :=
  match ps with
  | [] => mret (RS_OK, ss)
  | p :: ps =>
      '(rc, ss) ← disk_snapshot_recv io dir ss term index (pc_done p) (pc_offset p) (pc_data p);
      if bool_decide (rc = RS_OK) then recv_all io dir term index ss ps else mret (rc, ss)
  end.

(** Pieces of [data] of which the first [m] bytes have arrived: there is no gap before a
    piece, and the last one ends the file.  A transfer that was interrupted starts again at
    any earlier position. *)
Fixpoint pieces_of (data : list byte) (m : nat) (ps : list piece) : Prop :=
  match ps with
  | [] => False
  | p :: ps =>
      (pc_offset p <= m)%nat /\ pc_data p = take (length (pc_data p)) (drop (pc_offset p) data) /\
      if pc_done p then ps = [] /\ (pc_offset p + length (pc_data p) = length data)%nat
      else pieces_of data (Nat.max m (pc_offset p + length (pc_data p))) ps
  end.

Lemma pwrite_slice data m off cs :
  (off <= m)%nat -> (m <= length data)%nat -> cs = take (length cs) (drop off data) ->
  pwrite (take m data) off cs = take (Nat.max m (off + length cs)) data.
Proof.
  intros Ho Hm Hc. assert (Hl : (off + length cs <= length data)%nat).
  { apply (f_equal length) in Hc. rewrite length_take, length_drop in Hc. lia. }
  unfold pwrite. rewrite length_take. replace (off - _)%nat with 0%nat by lia. cbn [replicate]. rewrite app_nil_r.
  rewrite take_take, Nat.min_l by lia. rewrite Hc at 1. rewrite app_assoc, take_take_drop.
  rewrite <- (take_drop (off + length cs) (take (Nat.max m (off + length cs)) data)), take_take, Nat.min_l by lia.
  f_equal. rewrite !skipn_firstn_comm. destruct (decide (off + length cs <= m)%nat) as [H|H].
  - by rewrite Nat.max_l by lia.
  - replace (m - (off + length cs))%nat with 0%nat by lia. by rewrite Nat.max_r, Nat.sub_diag by lia.
Qed.

Lemma ss_paths dir : ss_recv_path dir <> ss_path dir.
Proof. unfold ss_recv_path, ss_path, in_dir. intros E. apply app_inv_head in E. done. Qed.

(** *** Return codes *)

(** What the functions of file.c return. *)
Definition file_code (rc : rs_rc) : Prop := rc <> RS_SNAPSHOT.

Definition ranges {A} (m : fsM A) (R : A -> Prop) : Prop := forall d a d', m d = (Some a, d') -> R a.

Lemma ranges_ret {A} (a : A) (R : A -> Prop) : R a -> ranges (mret a) R.
Proof. intros H d b d' [= <- _]. done. Qed.

Lemma ranges_bind {A B} (m : fsM A) (k : A -> fsM B) (R : B -> Prop) : (forall a, ranges (k a) R) -> ranges (m ≫= k) R.
Proof. intros H d b d'. unfold mbind, fsM_bind. destruct (m d) as [[a|] d1]; [apply H|done]. Qed.

Lemma ranges_dies {A} (R : A -> Prop) : ranges dies R.
Proof. intros d a d' [=]. Qed.

Lemma spec_ranges {A} K Pre (m : fsM A) Post (R : A -> Prop) :
  crash_spec K Pre m Post -> ranges m R -> crash_spec K Pre m (fun a s => Post a s /\ R a).
Proof.
  intros H HR d Hd. destruct (H d Hd) as (a & d' & E & Hp & Hn). exists a, d'. split_and!; [done..|by apply (HR _ _ _ E)|done].
Qed.

Lemma full_or_error_code e : file_code (full_or_error e).
Proof. unfold file_code, full_or_error. by case_bool_decide. Qed.

Lemma error_of_code e : file_code (error_of e).
Proof. by destruct e. Qed.

Create HintDb codes.
#[export] Hint Resolve ranges_dies full_or_error_code error_of_code : codes.
#[export] Hint Extern 1 (file_code _) => discriminate : codes.

(** Splits a function into its branches. *)
Ltac code_step :=
  match goal with
  | |- ranges (mret _) _ => apply ranges_ret
  | |- ranges (_ ≫= _) _ => apply ranges_bind; let a := fresh in intros a
  | |- ranges (match ?x with _ => _ end) _ => destruct x
  | |- ranges (if ?x then _ else _) _ => destruct x
  | |- file_code (match ?x with _ => _ end) => destruct x
  | |- ranges dies _ => apply ranges_dies
  end; cbn [fst snd].

Lemma file_flush_code io f : ranges (file_flush io f) (fun r => file_code (fst r)).
Proof. unfold file_flush. repeat code_step; auto with codes. Qed.

Lemma file_open_code io f p mode : ranges (file_open io f p mode) (fun r => file_code (fst r)).
Proof. unfold file_open. repeat code_step; auto with codes. Qed.

Lemma file_write_at_code io f off bs : ranges (file_write_at io f off bs) (fun r => file_code (fst r)).
Proof. unfold file_write_at, file_write. repeat code_step; auto with codes. Qed.

Lemma file_rename_code io dst src : ranges (file_rename io dst src) file_code.
Proof. unfold file_rename. repeat code_step; auto with codes. Qed.

Section recv.
Context (io : nat -> outcome) (dir : path) (old : option (list byte)) (data : list byte) (term index : Z).

(** The old snapshot, or the whole new one. *)
Definition old_or_new (x : option (list byte)) : Prop := x = old \/ x = Some data.

Local Abbreviation K := (keeps old_or_new (ss_path dir) (ss_recv_path dir)).
Local Abbreviation writes := (writing old_or_new (ss_path dir) (ss_recv_path dir)).

(** The first [m] bytes have arrived. *)
Definition received (m : nat) (ss : snap) (s : fs) : Prop :=
  match sn_tmp ss with
  | None => K s /\ m = 0%nat
  | Some f => sn_recv_term ss = term /\ sn_recv_index ss = index /\
      exists fp cur, fl_fp f = Some fp /\ writes fp (take m data) cur s
  end.

(** The outcome of a transfer. *)
Definition transferred (rc : rs_rc) (s : fs) : Prop :=
  (rc = RS_SNAPSHOT /\ visible s (ss_path dir) = Some data /\ K s) \/ (rc <> RS_OK /\ rc <> RS_SNAPSHOT /\ failed io /\ K s).

Lemma close_spec P Q (R : fs -> Prop) ss : (forall s, R s -> keeps P (ss_path dir) Q s) ->
  crash_spec (keeps P (ss_path dir) Q) R (disk_snapshot_close io ss) (fun _ s => R s).
Proof.
  intros HR. unfold disk_snapshot_close, sc_mmap_term.
  eapply (spec_bind _ _ _ (fun _ s => R s)); [|intros [ok m]; by apply spec_ret].
  destruct (sn_map ss) as [i|]; [|by apply spec_ret]. eapply (spec_bind _ _ _ (fun _ s => R s)); [|intros ok; by apply spec_ret].
  apply spec_sys. intros n s Hs. split; [done|by apply HR].
Qed.

Lemma recv_done_spec ss f fp cur : fl_fp f = Some fp ->
  crash_spec K (writes fp data cur) (recv_done io dir ss f) (fun '(rc, _) s => transferred rc s).
Proof.
  intros Hf. unfold recv_done. eapply spec_bind; [apply (close_spec _ _ (writes fp data cur)); by intros s []|]. intros [rc0 ss0].
  eapply spec_bind; [apply spec_ranges; [by apply file_flush_spec|apply file_flush_code]|]. intros [rc f1]. cbn [fst].
  apply spec_code; intros Hr.
  { apply spec_ret. intros s [(fp1 & _ & [[? _]|(_ & He & [])]) Hc]; [done|]. by right. }
  intros d [(fp1 & Hf1 & [(_ & Hb & Hw)|[? _]]) _]; [|done]. revert d Hw.
  eapply spec_bind; [eapply spec_bind; [by apply (file_term_flushed io old_or_new _ _ f1 fp1)|]|].
  { intros [rc1 f2]. apply (spec_ret _ _ _ (fun _ => written_out old_or_new (ss_path dir) (ss_recv_path dir) data)). by intros s []. }
  intros []. eapply spec_bind.
  { apply spec_ranges; [apply file_rename_spec; [apply ss_paths|by right]|apply file_rename_code]. }
  intros rc2. apply spec_code; intros Hr2; apply spec_ret; intros s [(Hk & Hv & He) Hc].
  - right. split_and!; [done..|by apply He|done].
  - left. split_and!; [done|by apply Hv|done].
Qed.

(** The transfer is of this snapshot. *)
Definition receiving (m : nat) (ss : snap) (s : fs) : Prop :=
  received m ss s /\ sn_recv_term ss = term /\ sn_recv_index ss = index.

Lemma recv_start_spec m ss : crash_spec K (received m ss)
  (if negb (sn_recv_term ss =? term) || negb (sn_recv_index ss =? index) then
     ss ← disk_snapshot_clear io ss; mret (with_recv ss term index (sn_tmp ss))
   else mret ss) (receiving m).
Proof.
  unfold receiving, received, disk_snapshot_clear. destruct (sn_tmp ss) as [f|] eqn:Et.
  - intros d (E1 & E2 & H). rewrite E1, E2, !Z.eqb_refl. cbn [negb orb]. exists ss, d. rewrite Et. split_and!; [done..|]. by exists [].
  - destruct (negb (sn_recv_term ss =? term) || negb (sn_recv_index ss =? index)) eqn:Hc.
    + eapply (spec_bind _ _ _ (fun ss' s => ss' = ss /\ (K s /\ m = 0%nat))); [by apply spec_ret|]. intros ss'. apply spec_ret.
      intros s [-> H]. cbn. by rewrite Et.
    + apply spec_ret. intros s H. rewrite Et. apply orb_false_iff in Hc as [H1 H2]. apply negb_false_iff in H1, H2.
      by apply Z.eqb_eq in H1, H2.
Qed.

(** The file is open, or could not be opened. *)
Definition opened (m : nat) (rc : rs_rc) (ss : snap) (f : file) (s : fs) : Prop :=
  file_code rc /\ (rc <> RS_OK -> failed io /\ K s) /\
  (rc = RS_OK -> sn_recv_term ss = term /\ sn_recv_index ss = index /\
     exists fp cur, fl_fp f = Some fp /\ writes fp (take m data) cur s).

Lemma recv_open_spec m ss : crash_spec K (receiving m ss)
  (match sn_tmp ss with
   | Some f => mret (RS_OK, ss, f)
   | None => '(rc, f) ← file_open io file_init (ss_recv_path dir) mode_w; mret (rc, with_tmp ss (Some f), f)
   end) (fun '(rc, ss', f) s => opened m rc ss' f s).
Proof.
  intros d (Hr & Ht & Hi). unfold received in Hr. destruct (sn_tmp ss) as [f|].
  - exists (RS_OK, ss, f), d. split_and!; [done..| |by exists []]. split_and!; [done..|]. intros _. split_and!; [done..|]. apply Hr.
  - destruct Hr as [Hk ->]. revert d Hk. eapply spec_bind.
    { apply spec_ranges; [apply (file_open_spec io old_or_new), ss_paths|apply file_open_code]. }
    intros [rc f]. apply spec_ret. intros s [Hs Hc]. split; [done|]. destruct Hs as [[-> (fp & Hf & Hw)]|(Hr & Hf & Hk)].
    + split; [done|]. intros _. split_and!; [done..|]. by exists fp, 0%nat.
    + split; done.
Qed.

(** One piece. *)
Lemma recv_piece_spec m ss p : (m <= length data)%nat -> (pc_offset p <= m)%nat ->
  pc_data p = take (length (pc_data p)) (drop (pc_offset p) data) ->
  (pc_done p = true -> (pc_offset p + length (pc_data p) = length data)%nat) ->
  crash_spec K (received m ss) (disk_snapshot_recv io dir ss term index (pc_done p) (pc_offset p) (pc_data p))
    (fun '(rc, ss') s =>
       (pc_done p = false /\ rc = RS_OK /\ received (Nat.max m (pc_offset p + length (pc_data p))) ss' s) \/ transferred rc s).
Proof.
  intros Hm Ho Hd He. unfold disk_snapshot_recv. eapply spec_bind; [apply recv_start_spec|]. intros ss1.
  eapply spec_bind; [apply recv_open_spec|]. intros [[rc ss2] f]. apply spec_code; intros Hr.
  { apply spec_ret. intros s (Hc & Hf & _). right. right. destruct (Hf Hr). done. }
  intros d (_ & _ & Hs). destruct (Hs Hr) as (Ht & Hi & fp & cur & Hf & Hw). clear Hs. revert d Hw.
  eapply spec_bind.
  { apply spec_ranges; [apply file_write_at_spec; [done|rewrite length_take; lia]|apply file_write_at_code]. }
  intros [rc1 f1]. cbn [fst]. apply spec_code; intros Hr1.
  { apply spec_ret. intros s [(Hf1 & fp1 & bs1 & cur1 & _ & [] & _) Hc]. right. right. by specialize (Hf1 Hr1). }
  intros d [(_ & fp1 & bs1 & cur1 & Hf1 & Hw & Hb) _]. rewrite (Hb Hr1), pwrite_slice in Hw by done. revert d Hw.
  destruct (pc_done p).
  - rewrite (He eq_refl), Nat.max_r, firstn_all by lia. eapply spec_weaken; [by apply recv_done_spec|done|]. intros [rc' ss'] s H. by right.
  - apply spec_ret. intros s Hw. left. split_and!; [done..|]. cbn. split_and!; [done..|]. by exists fp1, cur1.
Qed.

Lemma recv_all_spec ps : forall m ss, (m <= length data)%nat -> pieces_of data m ps ->
  crash_spec K (received m ss) (recv_all io dir term index ss ps) (fun '(rc, _) s => transferred rc s).
Proof.
  induction ps as [|p ps IH]; intros m ss Hm Hp; [done|]. cbn [recv_all]. destruct Hp as (Ho & Hd & Hp).
  assert (Hl : (pc_offset p + length (pc_data p) <= length data)%nat).
  { apply (f_equal length) in Hd. rewrite length_take, length_drop in Hd. lia. }
  eapply spec_bind; [apply (recv_piece_spec m); [done..|]; intros E; rewrite E in Hp; apply Hp|].
  intros [rc ss']. destruct (pc_done p) eqn:Ed.
  - case_bool_decide as Hr.
    + intros d [[? _]|[[? _]|[? _]]]; [done|by subst|done].
    + apply spec_ret. by intros s [[? _]|H].
  - case_bool_decide as Hr.
    + intros d [(_ & _ & H)|[[? _]|[? _]]]; [|by subst|done]. revert d H. apply IH; [lia|done].
    + apply spec_ret. by intros s [(_ & ? & _)|H].
Qed.
End recv.

(** ** The pieces a leader sends *)

(** The piece that [server_flush_snapshot] sends when it has come to [pos]. *)
Definition chunk (map : list byte) (pos : Z) : piece :=
  let len := u32 (Z.min MAX_SIZE (zlen map -₆₄ pos)) in
  mk_piece (Z.to_nat pos) (mread map pos len) (pos +₆₄ len =? zlen map).

Fixpoint chunks (fuel : nat) (map : list byte) (pos : Z) : list piece :=
  match fuel with
  | O => []
  | S fuel =>
      let p := chunk map pos in
      p :: if pc_done p then [] else chunks fuel map (pos + zlen (pc_data p))
  end.

(** A whole transfer, after attempts that a lost connection has cut. *)
Definition transfer (map : list byte) (cuts : list nat) : list piece :=
  let all := chunks (length map) map 0 in
  concat ((fun k => take (Nat.min k (length all - 1)) all) <$> cuts) ++ all.

(** What a chunk is. *)
Lemma chunk_spec map pos : 0 <= pos < zlen map -> zlen map < 2 ^ 63 ->
  let p := chunk map pos in
  pc_offset p = Z.to_nat pos /\ zlen (pc_data p) = Z.min MAX_SIZE (zlen map - pos) /\
  pc_data p = take (length (pc_data p)) (drop (pc_offset p) map) /\
  pc_done p = (pos + zlen (pc_data p) =? zlen map).
Proof.
  intros Hp Hl. unfold chunk, MAX_SIZE. rewrite (u64_small (zlen map - pos)) by lia. rewrite u32_small by lia. cbn [pc_offset pc_data pc_done].
  set (len := Z.min _ _). assert (Hz : zlen (mread map pos len) = len) by (apply zlen_mread; lia). rewrite Hz.
  split_and!; [done..| |].
  - unfold mread at 1. f_equal. unfold zlen in Hz. lia.
  - by rewrite u64_small by lia.
Qed.

(** The next piece of the snapshot in use goes into the output buffer of the node. *)
Lemma flush_sends_chunk io line_text ss_map s n :
  let map := ss_map (s_ss s) in
  let p := chunk map (n_ss_pos (node_at s n)) in
  n_msg_inflight (node_at s n) <= 8 -> n_ss_index (node_at s n) = ss_index (s_ss s) ->
  0 <= n_ss_pos (node_at s n) < zlen map -> zlen map < 2 ^ 63 ->
  exists s1, server_flush_snapshot io line_text ss_map s n = (RS_OK, flush_node io s1 n) /\
    s_out s1 = s_out s ++ [(n, snapshot_req (s_term s) (s_round s) (ss_term (s_ss s)) (ss_index (s_ss s))
                                 (n_ss_pos (node_at s n)) (pc_done p) (pc_data p))] /\
    n_ss_pos (node_at s1 n) = n_ss_pos (node_at s n) + zlen (pc_data p).
Proof.
  intros map p Hi Hx Hp Hl. destruct (chunk_spec map _ Hp Hl) as (_ & Hz & _). fold p in Hz.
  unfold server_flush_snapshot. rewrite (if_false (_ >? 8)) by zbool_solve. rewrite Hx, Z.eqb_refl. cbn [negb bool_decide].
  rewrite bool_decide_true by done. cbn [negb]. fold map.
  assert (El : u32 (Z.min MAX_SIZE (zlen map -₆₄ n_ss_pos (node_at s n))) = zlen (pc_data p)).
  { rewrite Hz, u64_small by lia. apply u32_small. unfold MAX_SIZE. lia. }
  rewrite (if_false (_ =? 0)) by (rewrite El, Hz; unfold MAX_SIZE; zbool_solve). eexists. split; [done|]. split; [done|].
  rewrite El, node_at_set, decide_True by done. cbn [n_ss_pos node_sent node_set_ss]. rewrite u64_small; [done|]. rewrite Hz. unfold MAX_SIZE. lia.
Qed.


Lemma chunks_pieces map : zlen map < 2 ^ 63 -> forall fuel pos m,
  0 <= pos < zlen map -> (Z.to_nat (zlen map - pos) <= fuel)%nat -> pos <= Z.of_nat m ->
  pieces_of map m (chunks fuel map pos).
Proof.
  intros Hl. induction fuel as [|fuel IH]; intros pos m Hp Hf Hm; [unfold zlen in *; lia|].
  destruct (chunk_spec map pos Hp Hl) as (Ho & Hz & Hd & Hn). cbn [chunks pieces_of]. split_and!; [lia|done|].
  unfold MAX_SIZE in Hz. destruct (pc_done (chunk map pos)) eqn:E.
  - split; [done|]. symmetry in Hn. apply Z.eqb_eq in Hn. unfold zlen in *. lia.
  - symmetry in Hn. apply Z.eqb_neq in Hn. apply IH; unfold zlen in *; lia.
Qed.

(** Cutting a transfer before its last piece leaves only pieces without the end mark. *)
Lemma pieces_cut data ps qs : forall m k, (k < length ps)%nat -> pieces_of data m ps ->
  (forall m', pieces_of data m' qs) -> pieces_of data m (take k ps ++ qs).
Proof.
  induction ps as [|p ps IH]; intros m k Hk Hp Hq; [cbn in Hk; lia|]. destruct k as [|k]; [apply Hq|].
  cbn [take app pieces_of]. destruct Hp as (Ho & Hd & Hp). split_and!; [done..|]. destruct (pc_done p).
  - destruct Hp as [-> _]. cbn in Hk. lia.
  - apply IH; [cbn in Hk; lia|done|done].
Qed.

Lemma transfer_pieces map cuts m : 0 < zlen map < 2 ^ 63 -> pieces_of map m (transfer map cuts).
Proof.
  intros Hl. assert (Ha : forall m', pieces_of map m' (chunks (length map) map 0)).
  { intros m'. apply chunks_pieces; unfold zlen in *; lia. }
  revert m. unfold transfer. induction cuts as [|k cuts IH]; intros m; [apply Ha|]. cbn [fmap list_fmap concat]. rewrite <- app_assoc.
  apply pieces_cut; [|apply Ha|apply IH]. destruct (chunks _ _ _) eqn:E; [|cbn; lia]. exfalso. exact (Ha 0%nat).
Qed.

(** C9: a snapshot arrives whole or not at all.  The leader sends its snapshot in pieces and starts
    again from the beginning, any number of times, when the connection is lost.  The follower
    writes them to a temporary file and renames it at the end.  Whatever calls fail and
    wherever a crash happens, the snapshot of the follower is afterwards the old one or
    exactly the file of the leader; when the handler reports the new snapshot it is in place,
    and an error means that a call has failed. *)
Theorem snapshot_arrives io dir old data term index ss cuts s n :
  keeps (eq old) (ss_path dir) (ss_recv_path dir) s -> sn_tmp ss = None -> 0 < zlen data < 2 ^ 63 ->
  exists rc ss' d', recv_all io dir term index ss (transfer data cuts) (mk_disk s n []) = (Some (rc, ss'), d') /\
    (forall s1 k junk, s1 ∈ s :: d_seen d' ->
       visible (crash k junk s1) (ss_path dir) = old \/ visible (crash k junk s1) (ss_path dir) = Some data) /\
    ((rc = RS_SNAPSHOT /\ visible (d_fs d') (ss_path dir) = Some data) \/
     (rc <> RS_OK /\ rc <> RS_SNAPSHOT /\ failed io)).
Proof.
  intros Hk Ht Hl. assert (HK : keeps (old_or_new old data) (ss_path dir) (ss_recv_path dir) s)
    by (apply (keeps_impl _ _ _ _ _ Hk); intros x <-; by left).
  assert (Hr : received dir old data term index 0 ss s) by (unfold received; by rewrite Ht).
  destruct (spec_run _ _ _ _ s n (recv_all_spec io dir old data term index _ 0 ss (Nat.le_0_l _) (transfer_pieces data cuts 0 Hl)) Hr HK)
    as ([rc ss'] & d' & E & Hp & Hall).
  exists rc, ss', d'. split_and!; [done| |].
  - intros s1 k junk H1. apply (keeps_visible _ _ _ _ (keeps_crash _ _ _ _ k junk (Hall s1 H1))).
  - destruct Hp as [(-> & Hv & _)|(H1 & H2 & H3 & _)]; [by left|by right].
Qed.

(** A node that has no snapshot yet; the first attempt brought nothing. *)
Lemma snapshot_arrives_witness : exists ss' d',
  recv_all calm [x64] 1 5 (mk_snap false None 0 0 0 0 0 0 None) (transfer [x61; x62; x63] [0%nat]) (mk_disk (mk_fs [] ∅ []) 0 [])
    = (Some (RS_SNAPSHOT, ss'), d') /\ visible (d_fs d') (ss_path [x64]) = Some [x61; x62; x63].
Proof.
  destruct (snapshot_arrives calm [x64] None [x61; x62; x63] 1 5 (mk_snap false None 0 0 0 0 0 0 None) [0%nat] (mk_fs [] ∅ []) 0)
    as (rc & ss' & d' & E & _ & [[Hr Hv]|(_ & _ & k & Hk)]).
  - split; intros k; unfold file_in, dir_now, dir_after; cbn [fs_disk fs_pending]; rewrite take_nil; done.
  - reflexivity.
  - split; reflexivity.
  - exists ss', d'. rewrite <- Hr. split; [exact E|exact Hv].
  - exfalso. apply Hk. reflexivity.
Defined.

(** ** What the snapshot files do not survive *)

(** A result of two steps. *)
Lemma bind_inv {A B} (m : fsM A) (k : A -> fsM B) d b d' :
  (m ≫= k) d = (Some b, d') -> exists a d1, m d = (Some a, d1) /\ k a d1 = (Some b, d').
Proof. unfold mbind, fsM_bind. destruct (m d) as [[a|] d1]; [|done]. intros E. by exists a, d1. Qed.

(** *** Writing a snapshot

    [snapshot_compact] removes the old snapshot before it renames the new one: when every
    call succeeds there is a moment in which a crash leaves none. *)
Lemma compact_gap io D dir wfuel fuel ss last d ss' d' :
  (forall n, o_err (io n) = None) -> snapshot_compact io D dir wfuel fuel ss last d = (Some (RS_OK, ss'), d') ->
  exists s1, s1 ∈ d_seen d' /\ forall junk, dir_now (crash (length (fs_pending s1)) junk s1) !! ss_path dir = None.
Proof.
  intros Hio E. unfold snapshot_compact in E. apply bind_inv in E as ([rc st] & d1 & _ & E).
  case_bool_decide; cbn [negb] in E; [|apply bind_inv in E as (? & ? & _ & [= ? _ _]); done].
  apply bind_inv in E as ([rc1 st1] & d2 & _ & E).
  case_bool_decide; cbn [negb] in E; [|apply bind_inv in E as (? & ? & _ & [= ? _ _]); done].
  apply bind_inv in E as (rc2 & d3 & _ & E). unfold file_remove_path in E.
  apply bind_inv in E as (rc3 & d4 & E4 & E). apply bind_inv in E4 as (e4 & d4' & E4 & [= _ <-]).
  apply bind_inv in E as (e5 & d5 & E5 & E). destruct e5; [done|]. unfold file_size_at in E.
  apply bind_inv in E as (z & d6 & E6 & [= _ <-]). apply bind_inv in E6 as (w & d6' & E6 & [= _ <-]).
  unfold remove, rename, stat, sys in E4, E5, E6. rewrite Hio in E4, E5, E6.
  exists (d_fs d4'). split.
  - destruct (dir_now (d_fs d4') !! ss_tmp_path dir); [|done]. injection E5 as <-. injection E6 as _ <-. cbn [d_seen].
    right. right. destruct (dir_now (d_fs d3) !! ss_path dir); injection E4 as _ <-; left.
  - intros junk. unfold crash, dir_now at 1, dir_after at 1. cbn [fs_pending fs_disk]. rewrite take_nil. cbn [foldl].
    change (dir_now (d_fs d4') !! ss_path dir = None).
    destruct (dir_now (d_fs d3) !! ss_path dir) eqn:Ep; injection E4 as _ <-; cbn [d_fs]; [|done].
    rewrite dir_now_do. cbn. apply lookup_delete_eq.
Qed.

(** A node that is started then finds no snapshot, and has removed the new one before it
    looked: it begins with an empty state. *)
Lemma gap_restarts_empty io D dir wfuel fuel in_memory d :
  (forall n, o_err (io n) = None) -> dir_now (d_fs d) !! ss_path dir = None ->
  exists d1, fst (file_remove_path io (ss_tmp_path dir) d) = Some RS_OK /\ snd (file_remove_path io (ss_tmp_path dir) d) = d1 /\
    dir_now (d_fs d1) !! ss_tmp_path dir = None /\
    fst (state_read_snapshot io D dir wfuel fuel in_memory (0, 0) d1) = Some (RS_ENOENT, (0, 0)).
Proof.
  intros Hio Hd. eexists. split; [|split; [reflexivity|]].
  - unfold file_remove_path, remove, sys, mbind, fsM_bind. rewrite Hio. by destruct (dir_now (d_fs d) !! ss_tmp_path dir).
  - unfold file_remove_path, remove, sys, mbind, fsM_bind. rewrite Hio.
    assert (Hn : ss_tmp_path dir <> ss_path dir) by (unfold ss_tmp_path, ss_path, in_dir; intros E; apply app_inv_head in E; done).
    destruct (dir_now (d_fs d) !! ss_tmp_path dir) eqn:Et; cbn [snd d_fs mret fsM_ret].
    + unfold state_read_snapshot, file_exists_at, access, sys, mbind, fsM_bind. cbn [d_fs d_io]. rewrite Hio, dir_now_do. cbn [dir_apply].
      rewrite lookup_delete_eq, lookup_delete_ne, Hd by done. done.
    + unfold state_read_snapshot, file_exists_at, access, sys, mbind, fsM_bind. cbn [d_fs d_io]. by rewrite Hio, Hd.
Qed.

(** *** Receiving a snapshot

    The directory is not flushed behind the rename, so a crash may bring back the snapshot
    before it, although the handler has reported the new one and the log was set to it. *)
Lemma received_not_flushed :
  let r := recv_all calm [x64] 1 5 (mk_snap false None 0 0 0 0 0 0 None) (transfer [x61; x62; x63] []) (mk_disk (mk_fs [] ∅ []) 0 []) in
  fst <$> fst r = Some RS_SNAPSHOT /\ visible (crash 0 (fun _ => []) (d_fs (snd r))) (ss_path [x64]) = None.
Proof. split; vm_compute; reflexivity. Qed.
