(* ===== verification/Handoff.v ===== *)
(** * The snapshot thread (src/snapshot.c, lib/sc/sc_cond.c)

    The server thread hands the page it wants to compact to the snapshot thread through a
    pipe and later waits for the result at a condition variable.  Each step of the relation
    below is one access to memory the threads share, or one call that may block: locking the
    mutex, sleeping, reading an empty pipe, joining the thread.

    - Snapshots are numbered in the order in which they are taken; [code k] is what writing
      the [k]-th returns.  What is written is in Snap.v and State.v.
    - A sleeping thread may wake up without a signal. *)

From Stdlib Require Import Arith Lia.
From stdpp Require Import base list numbers sets.
From S2P Require Import Prelude.

(** Where the server thread is. *)
Inductive server_pc :=
| SIdle                    (* in the event loop *)
| STaking                  (* snapshot_take: before sc_sock_pipe_write *)
| SLock                    (* sc_cond_wait: before pthread_mutex_lock *)
| SCheck                   (* while (c->done == false) *)
| SAsleep                  (* in pthread_cond_wait *)
| SWoken                   (* in pthread_cond_wait, before the mutex is locked again *)
| SGet                     (* data = c->data, ... *)
| SUnlock (rc : rs_rc)     (* before pthread_mutex_unlock *)
| SReplace (rc : rs_rc)    (* server_wait_snapshot: behind snapshot_wait *)
| SJoining                 (* snapshot_term: in sc_thread_term *)
| SEnd.

(** Where the snapshot thread is. *)
Inductive worker_pc :=
| KRead                    (* sc_sock_pipe_read *)
| KCompact (k : nat)       (* snapshot_compact *)
| KLock (k : nat)          (* sc_cond_signal: before pthread_mutex_lock *)
| KSet (k : nat)           (* c->data = data; c->done = true *)
| KSignal                  (* before pthread_cond_signal *)
| KUnlock                  (* before pthread_mutex_unlock *)
| KClear                   (* before ss->running = false *)
| KEnd.

Inductive thread := Server | Worker.

(** [struct snapshot] and [struct sc_cond], with the pipe: a task is the number of a snapshot
    or [None] to stop. *)
Record shared := mk_shared {
  h_pipe : list (option nat);
  h_owner : option thread;
  h_done : bool;
  h_data : rs_rc;
  h_running : bool;
  h_latest : option nat
}.

(** The threads, [ss_inprogress] of the server, how many snapshots were taken, and the codes
    [snapshot_wait] has returned. *)
Record handoff := mk_handoff {
  h_server : server_pc;
  h_worker : worker_pc;
  h_shared : shared;
  h_inprogress : bool;
  h_taken : nat;
  h_results : list rs_rc
}.

Definition handoff_init : handoff := mk_handoff SIdle KRead (mk_shared [] None false RS_OK false None) false 0 [].

Section steps.
Variable code : nat -> rs_rc.

(** What [snapshot_compact] leaves in [latest_index]. *)
Definition compacted (k : nat) (latest : option nat) : option nat :=
  if bool_decide (code k = RS_OK) then Some k else latest.

(** One step; the flag tells that a sleeping thread wakes up without a signal.  Writing a
    snapshot, which uses nothing that the server thread writes and ends, is one step. *)
Inductive hstep : bool -> handoff -> handoff -> Prop :=
(* server_update_commit, snapshot_take *)
| step_take w p o b v r l n rs :
    hstep false (mk_handoff SIdle w (mk_shared p o b v r l) false n rs)
                (mk_handoff STaking w (mk_shared p o b v true l) true (S n) rs)
| step_write w p o b v r l i n rs :
    hstep false (mk_handoff STaking w (mk_shared p o b v r l) i (S n) rs)
                (mk_handoff SIdle w (mk_shared (p ++ [Some n]) o b v r l) i (S n) rs)
(* server_wait_snapshot, sc_cond_wait *)
| step_wait w m n rs :
    hstep false (mk_handoff SIdle w m true n rs) (mk_handoff SLock w m false n rs)
| step_lock w p b v r l i n rs :
    hstep false (mk_handoff SLock w (mk_shared p None b v r l) i n rs)
                (mk_handoff SCheck w (mk_shared p (Some Server) b v r l) i n rs)
| step_found w p o v r l i n rs :
    hstep false (mk_handoff SCheck w (mk_shared p o true v r l) i n rs)
                (mk_handoff SGet w (mk_shared p o true v r l) i n rs)
| step_sleep w p o v r l i n rs :
    hstep false (mk_handoff SCheck w (mk_shared p o false v r l) i n rs)
                (mk_handoff SAsleep w (mk_shared p None false v r l) i n rs)
| step_spurious w m i n rs :
    hstep true (mk_handoff SAsleep w m i n rs) (mk_handoff SWoken w m i n rs)
| step_relock w p b v r l i n rs :
    hstep false (mk_handoff SWoken w (mk_shared p None b v r l) i n rs)
                (mk_handoff SCheck w (mk_shared p (Some Server) b v r l) i n rs)
| step_get w p o b v r l i n rs :
    hstep false (mk_handoff SGet w (mk_shared p o b v r l) i n rs)
                (mk_handoff (SUnlock v) w (mk_shared p o false RS_OK r l) i n rs)
| step_unlock w p o b v r l i n rs rc :
    hstep false (mk_handoff (SUnlock rc) w (mk_shared p o b v r l) i n rs)
                (mk_handoff (SReplace rc) w (mk_shared p None b v r l) i n (rs ++ [rc]))
| step_replace w m i n rs rc :
    hstep false (mk_handoff (SReplace rc) w m i n rs) (mk_handoff SIdle w m i n rs)
(* snapshot_term *)
| step_stop w p o b v r l i n rs :
    hstep false (mk_handoff SIdle w (mk_shared p o b v r l) i n rs)
                (mk_handoff SJoining w (mk_shared (p ++ [None]) o b v r l) i n rs)
| step_join m i n rs :
    hstep false (mk_handoff SJoining KEnd m i n rs) (mk_handoff SEnd KEnd m i n rs)
(* snapshot_run, snapshot_compact *)
| step_read s k p o b v r l i n rs :
    hstep false (mk_handoff s KRead (mk_shared (Some k :: p) o b v r l) i n rs)
                (mk_handoff s (KCompact k) (mk_shared p o b v r l) i n rs)
| step_read_stop s p o b v r l i n rs :
    hstep false (mk_handoff s KRead (mk_shared (None :: p) o b v r l) i n rs)
                (mk_handoff s KEnd (mk_shared p o b v r l) i n rs)
| step_compact s k p o b v r l i n rs :
    hstep false (mk_handoff s (KCompact k) (mk_shared p o b v r l) i n rs)
                (mk_handoff s (KLock k) (mk_shared p o b v r (compacted k l)) i n rs)
(* sc_cond_signal *)
| step_klock s k p b v r l i n rs :
    hstep false (mk_handoff s (KLock k) (mk_shared p None b v r l) i n rs)
                (mk_handoff s (KSet k) (mk_shared p (Some Worker) b v r l) i n rs)
| step_set s k p o b v r l i n rs :
    hstep false (mk_handoff s (KSet k) (mk_shared p o b v r l) i n rs)
                (mk_handoff s KSignal (mk_shared p o true (code k) r l) i n rs)
| step_signal s m i n rs :
    hstep false (mk_handoff s KSignal m i n rs)
                (mk_handoff (match s with SAsleep => SWoken | _ => s end) KUnlock m i n rs)
| step_kunlock s p o b v r l i n rs :
    hstep false (mk_handoff s KUnlock (mk_shared p o b v r l) i n rs)
                (mk_handoff s KClear (mk_shared p None b v r l) i n rs)
| step_clear s p o b v r l i n rs :
    hstep false (mk_handoff s KClear (mk_shared p o b v r l) i n rs)
                (mk_handoff s KRead (mk_shared p o b v false l) i n rs).

Inductive reached : handoff -> Prop :=
| reached_init : reached handoff_init
| reached_step f h h' : reached h -> hstep f h h' -> reached h'.

(** ** The invariant *)

(** A snapshot was taken and its result has not been fetched. *)
Definition outstanding (h : handoff) : bool :=
  match h_server h with
  | SIdle | SJoining | SEnd => h_inprogress h
  | STaking | SLock | SCheck | SAsleep | SWoken | SGet => true
  | SUnlock _ | SReplace _ => false
  end.

(** How many snapshots are done before the outstanding one. *)
Definition fetched (h : handoff) : nat := if outstanding h then pred (h_taken h) else h_taken h.

(** The snapshot the worker is busy with, until its result can be fetched. *)
Definition busy (w : worker_pc) : option nat :=
  match w with KCompact k | KLock k | KSet k => Some k | _ => None end.

(** The numbers of the snapshots that are in the pipe or with the worker. *)
Definition in_flight (h : handoff) : list nat :=
  match busy (h_worker h) with Some k => [k] | None => [] end ++ omap id (h_pipe (h_shared h)).

Definition holds_lock (t : thread) (h : handoff) : bool :=
  match t with
  | Server => match h_server h with SCheck | SGet | SUnlock _ => true | _ => false end
  | Worker => match h_worker h with KSet _ | KSignal | KUnlock => true | _ => false end
  end.

(** Where the outstanding snapshot [m] is: before the pipe, in the pipe or with the worker, or
    its code waits to be fetched. *)
Inductive placed (m : nat) (h : handoff) : Prop :=
| placed_taking :
    h_server h = STaking -> in_flight h = [] -> h_done (h_shared h) = false -> placed m h
| placed_flight :
    h_server h <> STaking -> h_server h <> SGet -> in_flight h = [m] -> h_done (h_shared h) = false -> placed m h
| placed_done :
    h_server h <> STaking -> in_flight h = [] -> h_done (h_shared h) = true -> h_data (h_shared h) = code m -> placed m h.

(** The code that [sc_cond_wait] has read and not returned. *)
Definition held (s : server_pc) : list rs_rc := match s with SUnlock rc => [rc] | _ => [] end.

(** The mutex is held by the thread that is between locking and unlocking it. *)
Definition locked (h : handoff) : Prop :=
  h_owner (h_shared h) = (if holds_lock Server h then Some Server else if holds_lock Worker h then Some Worker else None) /\
  holds_lock Server h && holds_lock Worker h = false.

Lemma locked_step f h h' : locked h -> hstep f h h' -> locked h'.
Proof.
  unfold locked. intros [H1 H2] Hs. destruct Hs;
    repeat match goal with w : worker_pc |- _ => destruct w | s : server_pc |- _ => destruct s end; cbn in *; simplify_eq; done.
Qed.

(** [ss_inprogress] is set while a snapshot is taken and cleared before the wait. *)
Definition flagged (h : handoff) : Prop :=
  match h_server h with
  | STaking => h_inprogress h = true
  | SIdle | SJoining | SEnd => True
  | _ => h_inprogress h = false
  end.

Lemma flagged_step f h h' : flagged h -> hstep f h h' -> flagged h'.
Proof. unfold flagged. intros H Hs. destruct Hs; cbn in *; try done. by destruct s. Qed.

(** *** Every snapshot is at one place *)

Definition accounted (h : handoff) : Prop :=
  if outstanding h then exists m, h_taken h = S m /\ placed m h
  else in_flight h = [] /\ h_done (h_shared h) = false.

Lemma in_flight_app w p q o b v r l s i n rs :
  in_flight (mk_handoff s w (mk_shared (p ++ q) o b v r l) i n rs) =
  in_flight (mk_handoff s w (mk_shared p o b v r l) i n rs) ++ omap id q.
Proof. unfold in_flight. cbn. by rewrite omap_app, app_assoc. Qed.

(** Steps that leave the pipe, the condition and the snapshot of the worker alone. *)
Lemma placed_same m h h' :
  placed m h -> (h_server h' = STaking <-> h_server h = STaking) -> (h_server h' = SGet -> h_server h = SGet \/ h_done (h_shared h) = true) ->
  in_flight h' = in_flight h -> h_done (h_shared h') = h_done (h_shared h) -> h_data (h_shared h') = h_data (h_shared h) -> placed m h'.
Proof.
  intros Hp Ht Hg Hf Hd Hv. destruct Hp as [Hs Hi Hn|Hs Hg' Hi Hn|Hs Hi Hn Hc].
  - apply placed_taking; [by apply Ht|congruence..].
  - apply placed_flight; [tauto| |congruence..]. intros E. destruct (Hg E); congruence.
  - apply placed_done; [tauto|congruence..].
Qed.

(** The same for both kinds of states. *)
Lemma accounted_same h h' :
  accounted h -> outstanding h' = outstanding h -> h_taken h' = h_taken h -> (h_server h' = STaking <-> h_server h = STaking) ->
  (h_server h' = SGet -> h_server h = SGet \/ h_done (h_shared h) = true) ->
  in_flight h' = in_flight h -> h_done (h_shared h') = h_done (h_shared h) -> h_data (h_shared h') = h_data (h_shared h) ->
  accounted h'.
Proof.
  unfold accounted. intros H Ho Hn Ht Hg Hf Hd Hv. rewrite Ho. destruct (outstanding h).
  - destruct H as (m & Hm & Hp). exists m. split; [congruence|]. by apply (placed_same m h).
  - by rewrite Hf, Hd.
Qed.

(** The code is set for the snapshot that is with the worker. *)
Lemma accounted_set s k p o o' b v r l i n rs :
  accounted (mk_handoff s (KSet k) (mk_shared p o b v r l) i n rs) ->
  accounted (mk_handoff s KSignal (mk_shared p o' true (code k) r l) i n rs).
Proof.
  unfold accounted. change (outstanding (mk_handoff s KSignal _ i n rs)) with (outstanding (mk_handoff s (KSet k) (mk_shared p o b v r l) i n rs)).
  destruct (outstanding _); [|by intros [? _]]. intros (m & Hm & Hp). exists m. split; [done|].
  destruct Hp as [_ Hi _|Hs _ Hi _|_ Hi _ _]; [done| |done]. injection Hi as -> Hi. by apply placed_done.
Qed.

Lemma accounted_step f h h' : flagged h -> accounted h -> hstep f h h' -> accounted h'.
Proof.
  intros Hi H Hs. destruct Hs; cbn [flagged h_server h_inprogress] in Hi; try subst i.
  all: try (apply (accounted_same _ _ H); cbn; tauto || done || (by destruct s)).
  - destruct H as [Hf Hd]. exists n. split; [done|]. by apply placed_taking.
  - destruct H as (m & [= <-] & Hp). inversion Hp as [_ Hf Hd| |]; [|done..]. exists n. split; [done|].
    apply placed_flight; [done..| |done]. rewrite in_flight_app. change (in_flight _) with (in_flight (mk_handoff STaking w (mk_shared p o b v r l) true (S n) rs)).
    by rewrite Hf.
  - destruct H as (m & Hm & Hp). by inversion Hp as [| |_ Hf _ _].
  - apply (accounted_same _ _ H); try done. rewrite in_flight_app. cbn [omap list_omap id]. by rewrite app_nil_r.
  - by apply (accounted_set _ _ _ o _ b v).
  - apply (accounted_same _ _ H); cbn; destruct s; naive_solver.
Qed.

(** *** Results, sleeping and stopping *)

Definition delivered (h : handoff) : Prop := h_results h ++ held (h_server h) = code <$> seq 0 (fetched h).

Lemma delivered_step f h h' : flagged h -> accounted h -> delivered h -> hstep f h h' -> delivered h'.
Proof.
  unfold delivered. intros Hi Ha H Hs. destruct Hs; cbn [flagged h_server h_inprogress h_results] in *; try subst i; try done.
  - destruct Ha as (m & Hm & Hp). cbn [h_taken h_shared] in Hm. subst n. inversion Hp as [| |_ _ _ Hc]; [done..|].
    cbn [h_data h_shared] in Hc. subst v. cbn [held] in *. unfold fetched in *. cbn [outstanding h_server h_taken pred] in *.
    rewrite app_nil_r in H. rewrite H, seq_S, fmap_app. done.
  - cbn [held] in *. rewrite app_nil_r. exact H.
  - destruct s; done.
Qed.

Definition returned (h : handoff) : Prop := forall rc, h_server h = SReplace rc -> last (h_results h) = Some rc.

Lemma returned_step f h h' : returned h -> hstep f h h' -> returned h'.
Proof.
  unfold returned. intros H Hs. destruct Hs; cbn in *; intros rc' E; simplify_eq; try (by apply H); [by rewrite last_snoc|]. apply H. by destruct s.
Qed.

(** A sleeping server has not missed its signal. *)
Definition unmissed (h : handoff) : Prop :=
  h_server h = SAsleep -> h_done (h_shared h) = false \/ h_worker h = KSignal.

Lemma unmissed_step f h h' : unmissed h -> hstep f h h' -> unmissed h'.
Proof.
  unfold unmissed. intros H Hs. destruct Hs; cbn in *; intros E; try done; try (by left); try (by right).
  all: try (destruct (H E) as [?|?]; [by left|done]). by destruct s.
Qed.

Definition stopping (s : server_pc) : bool := match s with SJoining | SEnd => true | _ => false end.

(** The snapshot thread ends only when the server has asked for it. *)
Definition serving (h : handoff) : Prop :=
  stopping (h_server h) = false -> h_worker h <> KEnd /\ None ∉ h_pipe (h_shared h).

Lemma serving_step f h h' : serving h -> hstep f h h' -> serving h'.
Proof.
  unfold serving. intros H Hs. destruct Hs; cbn in *; intros E;
    first [done|destruct (H E) as [H1 H2]|assert (Es : stopping s = false) by (by destruct s); destruct (H Es) as [H1 H2]]; try done.
  - split; [done|]. rewrite elem_of_app, list_elem_of_singleton. by intros [?|?].
  - by apply not_elem_of_cons in H2 as [_ H2].
  - by apply not_elem_of_cons in H2 as [H2 _].
Qed.

(** The result of the last snapshot is recorded once it is written. *)
Definition recorded (h : handoff) : Prop := forall m,
  h_taken h = S m -> code m = RS_OK -> h_server h <> STaking ->
  Some m ∉ h_pipe (h_shared h) -> h_worker h <> KCompact m -> h_latest (h_shared h) = Some m.

Lemma recorded_step f h h' : accounted h -> recorded h -> hstep f h h' -> recorded h'.
Proof.
  unfold recorded. intros Ha H Hs. destruct Hs; cbn in *; intros m' Hm Hc Hs Hp Hk; try done; try (by apply (H m')).
  - injection Hm as <-. destruct Hp. apply elem_of_app. right. by left.
  - apply (H m'); try done. intros Hi. apply Hp. apply elem_of_app. by left.
  - apply (H m'); try done. rewrite not_elem_of_cons. split; [congruence|done].
  - apply (H m'); try done. by rewrite not_elem_of_cons.
  - assert (k = m') as ->; [|unfold compacted; by rewrite bool_decide_true].
    unfold accounted in Ha. destruct (outstanding _); [|by destruct Ha]. destruct Ha as (m & Hm1 & [_ Hi _|_ _ Hi _|_ Hi _ _]); [done| |done].
    cbn in Hm1, Hi. congruence.
  - apply (H m'); try done. by destruct s.
Qed.

(** All of it. *)
Record hinv (h : handoff) : Prop := {
  hi_locked : locked h;
  hi_flagged : flagged h;
  hi_accounted : accounted h;
  hi_delivered : delivered h;
  hi_returned : returned h;
  hi_unmissed : unmissed h;
  hi_serving : serving h;
  hi_recorded : recorded h
}.

Lemma reached_hinv h : reached h -> hinv h.
Proof.
  induction 1 as [|f h h' _ [H1 H2 H3 H4 H5 H6 H7 H8] Hs].
  - split; done || (intros _; split; [done|apply not_elem_of_nil]).
  - split; [by apply (locked_step f h)|by apply (flagged_step f h)|by apply (accounted_step f h)|by apply (delivered_step f h)|
      by apply (returned_step f h)|by apply (unmissed_step f h)|by apply (serving_step f h)|by apply (recorded_step f h)].
Qed.

(** ** Waiting ends *)

Definition waiting (h : handoff) : bool :=
  match h_server h with SLock | SCheck | SAsleep | SWoken | SGet | SUnlock _ => true | _ => false end.

Definition worker_left (w : worker_pc) : nat :=
  match w with KCompact _ => 6 | KLock _ => 5 | KSet _ => 4 | KSignal => 3 | KUnlock => 2 | KClear => 1 | KRead | KEnd => 0 end.

Definition server_left (s : server_pc) : nat :=
  match s with SLock | SWoken => 3 | SCheck => 2 | SGet => 1 | _ => 0 end.

(** A bound on the steps until the server goes on. *)
Definition steps_left (h : handoff) : nat :=
  4 * (7 * length (h_pipe (h_shared h)) + worker_left (h_worker h)) + server_left (h_server h).

Lemma steps_decrease h h' : waiting h = true -> hstep false h h' -> waiting h' = true -> (steps_left h' < steps_left h)%nat.
Proof.
  intros Hw Hs. unfold steps_left. inversion Hs; subst; try done; cbn in *; intros Hw'; try lia. destruct s; cbn in *; try done; lia.
Qed.

Lemma worker_moves h : hinv h -> h_worker h <> KEnd -> None ∉ h_pipe (h_shared h) -> in_flight h <> [] ->
  (h_owner (h_shared h) = None \/ holds_lock Worker h = true) -> exists h', hstep false h h'.
Proof.
  destruct h as [s w [p o b v r l] i n rs]. cbn. intros _ Hk Hp Hf Ho. destruct w; try (eexists; by constructor); try done.
  - destruct p as [|[k|] p]; [done|eexists; by constructor|]. destruct Hp. by left.
  - destruct Ho as [->|?]; [|done]. eexists. by constructor.
Qed.

Lemma waiting_moves h : hinv h -> waiting h = true -> exists h', hstep false h h'.
Proof.
  intros Hi Hw. pose proof Hi as [[Ho _] _ Ha _ _ Hu Hs _]. destruct h as [s w [p o b v r l] i n rs]. cbn in *. subst o.
  assert (Hst : stopping s = false) by (by destruct s). destruct (Hs Hst) as [Hk Hp]. cbn in Hk, Hp.
  destruct s; try done; cbn in *.
  - destruct w; eexists; by constructor.
  - destruct b; eexists; by constructor.
  - destruct (Hu eq_refl) as [Hb|Hb]; cbn in Hb; subst; [|eexists; by constructor].
    apply worker_moves; [done..| |].
    + destruct Ha as (m & _ & [? _ _|_ _ Hf _|_ _ ? _]); [done| |done]. by rewrite Hf.
    + cbn. destruct w; auto.
  - destruct w; eexists; by constructor.
  - eexists; by constructor.
  - eexists; by constructor.
Qed.

(** What is true between the wait and the use of the result. *)
Lemma replacing h rc : hinv h -> h_server h = SReplace rc ->
  exists m, h_taken h = S m /\ rc = code m /\ (rc = RS_OK -> h_latest (h_shared h) = Some m) /\
    busy (h_worker h) = None /\ h_pipe (h_shared h) = [].
Proof.
  intros [_ _ Ha Hd Hr _ Hs Hl] E. destruct h as [s w [p o b v r l] i n rs]. cbn in E. subst s.
  destruct Ha as [Hf _]. unfold delivered in Hd. cbn in *. rewrite app_nil_r in Hd. unfold fetched in Hd. cbn in Hd.
  pose proof (Hr rc eq_refl) as Hlast. cbn in Hlast. rewrite Hd in Hlast.
  destruct n as [|m]; [done|]. rewrite seq_S, fmap_app in Hlast.
  change (code <$> [(0 + m)%nat]) with [code m] in Hlast. rewrite last_snoc in Hlast. injection Hlast as <-.
  unfold in_flight in Hf. cbn in Hf. apply app_eq_nil in Hf as [Hb Hp]. destruct (Hs eq_refl) as [_ Hn]. cbn in Hn.
  assert (Ep : p = []) by (destruct p as [|[k|] p]; [done..|]; destruct Hn; by left). subst p.
  exists m. cbn. split_and!; [done..| | |done].
  - intros Hc. apply (Hl m); [done..| |]; cbn; [apply not_elem_of_nil|]. by intros ->.
  - by destruct (busy w).
Qed.
End steps.

(** C10: the threads agree.  In every interleaving of the server thread and the snapshot thread, with
    spurious wake-ups, the codes the server has received are those of the snapshots it has
    taken, in their order and each once.  When it goes on after a wait the result is that of the last
    snapshot, what the snapshot thread recorded is in place, and that thread is not
    writing.  A wait always ends: some thread can move, and every move but a spurious
    wake-up brings the end nearer, so a wait with finitely many spurious wake-ups is over after
    finitely many moves. *)
Theorem snapshot_handoff code h :
  reached code h ->
  h_results h = code <$> seq 0 (length (h_results h)) /\
  (length (h_results h) <= h_taken h <= S (length (h_results h)))%nat /\
  (forall rc, h_server h = SReplace rc -> exists m, h_taken h = S m /\ rc = code m /\
     (rc = RS_OK -> h_latest (h_shared h) = Some m) /\ busy (h_worker h) = None /\ h_pipe (h_shared h) = []) /\
  (waiting h = true -> (exists h', hstep code false h h') /\
     forall h', hstep code false h h' -> waiting h' = false \/ (steps_left h' < steps_left h)%nat).
Proof.
  intros Hr. apply reached_hinv in Hr as Hi. pose proof (hi_delivered _ _ Hi) as Hd. unfold delivered in Hd.
  assert (Hl : (length (h_results h) + length (held (h_server h)) = fetched h)%nat).
  { apply (f_equal length) in Hd. by rewrite length_app, length_fmap, length_seq in Hd. }
  assert (Hh : (length (held (h_server h)) <= 1)%nat) by (destruct (h_server h); cbn; lia).
  split_and!.
  - apply (f_equal (take (length (h_results h)))) in Hd. rewrite take_app_length, <- fmap_take, take_seq, Nat.min_l in Hd by lia. done.
  - unfold fetched in Hl. destruct (outstanding h); lia.
  - pose proof (hi_accounted _ _ Hi) as Ha. unfold accounted, fetched in *. destruct (outstanding h) eqn:Eo; [|lia].
    destruct Ha as (m & Hm & _). unfold outstanding in Eo. destruct (h_server h); cbn in *; lia || done.
  - intros rc. by apply replacing.
  - intros Hw. split; [by apply waiting_moves|]. intros h' Hs. destruct (waiting h') eqn:Ew; [right|by left]. by apply (steps_decrease code).
Qed.

(** The server waits for a snapshot the worker has not seen yet. *)
Definition demo_waiting : handoff := mk_handoff SLock KRead (mk_shared [Some 0%nat] None false RS_OK true None) false 1 [].

Lemma demo_reached : reached (fun _ => RS_OK) demo_waiting.
Proof.
  eapply reached_step; [|apply (step_wait (fun _ => RS_OK))]. eapply reached_step; [|apply (step_write _ _ [])].
  eapply reached_step; [|apply step_take]. apply reached_init.
Qed.

Lemma snapshot_handoff_witness :
  waiting demo_waiting = true /\ steps_left demo_waiting = 31%nat /\ exists h', hstep (fun _ => RS_OK) false demo_waiting h'.
Proof.
  split; [reflexivity|split; [reflexivity|]].
  destruct (snapshot_handoff (fun _ => RS_OK) demo_waiting demo_reached) as (_ & _ & _ & H). exact (proj1 (H eq_refl)).
Defined.

(** ** The flag [running]

    The snapshot thread clears it behind the signal.  The server may have taken the next
    snapshot by then: the flag is false while that one is written, and the server waits for
    it where it would have made room in the log. *)
Lemma running_cleared_late code : exists h, reached code h /\ h_worker h = KCompact 1 /\ h_running (h_shared h) = false.
Proof.
  exists (mk_handoff SIdle (KCompact 1) (mk_shared [] None false RS_OK false (compacted code 0 None)) true 2 [code 0%nat]).
  split; [|done].
  eapply reached_step; [|apply step_read]. eapply reached_step; [|apply step_clear].
  eapply reached_step; [|apply (step_write _ _ [])]. eapply reached_step; [|apply step_take].
  eapply reached_step; [|apply step_replace]. eapply reached_step; [|apply (step_unlock _ _ _ (Some Server) _ _ _ _ _ _ [])].
  eapply reached_step; [|apply step_get]. eapply reached_step; [|apply step_found].
  eapply reached_step; [|apply step_lock]. eapply reached_step; [|apply step_wait].
  eapply reached_step; [|apply (step_kunlock _ SIdle _ (Some Worker))]. eapply reached_step; [|apply (step_signal _ SIdle)].
  eapply reached_step; [|apply step_set]. eapply reached_step; [|apply step_klock].
  eapply reached_step; [|apply step_compact]. eapply reached_step; [|apply step_read].
  eapply reached_step; [|apply (step_write _ _ [])]. eapply reached_step; [|apply step_take]. apply reached_init.
Qed.
