(* ===== verification/Life.v ===== *)
(** * Starting, restarting and stopping (src/server.c)

    What a server acquires and releases over its life: the objects of its own and of the
    other nodes, the snapshot thread, and the flags of the event loop.  The functions that
    create, move, use and destroy nodes and that open and close the parts of the server are
    the source's; what the parts answer (files, threads, the state machine: Disk.v, Snap.v,
    State.v) is an argument.  Which of these functions a handler calls, in which order and
    with which arguments, is an argument, too: the theorem is about all of them.  Memory that
    is freed twice or used behind its end and threads that nobody can end are faults.

    The last section is the first message on an accepted connection. *)

From Stdlib Require Import ZArith Lia.
From Stdlib Require Import Strings.Byte.
From stdpp Require Import base list numbers.
From S2P Require Import Prelude Str Buf Msg Sql Commit.

(** ** Node objects *)

Inductive fault :=
| FreedTwice               (* node_destroy of an object that is gone *)
| UsedFreed                (* access to an object that is gone *)
| LostThread.              (* a snapshot thread nobody can end *)

(** An object that [node_create] has returned; its address is its place in the heap. *)
Record object := mk_object { ob_name : list byte; ob_freed : bool }.

(** The fields of [struct server] that point to nodes, with those that the functions below
    look at, and the faults so far. *)
Record members := mk_members {
  mb_heap : list object;
  mb_own : option nat;
  mb_nodes : list nat;
  mb_unknown : list nat;
  mb_leader : option nat;
  mb_leading : bool;                 (* s->role == SERVER_ROLE_LEADER *)
  mb_in_cluster : bool;
  mb_name : list byte;               (* s->conf.node.name *)
  mb_faults : list fault
}.

Definition set_heap (m : members) (h : list object) : members :=
  mk_members h (mb_own m) (mb_nodes m) (mb_unknown m) (mb_leader m) (mb_leading m) (mb_in_cluster m) (mb_name m) (mb_faults m).
Definition set_own (m : members) (a : option nat) : members :=
  mk_members (mb_heap m) a (mb_nodes m) (mb_unknown m) (mb_leader m) (mb_leading m) (mb_in_cluster m) (mb_name m) (mb_faults m).
Definition set_lists (m : members) (nodes unknown : list nat) : members :=
  mk_members (mb_heap m) (mb_own m) nodes unknown (mb_leader m) (mb_leading m) (mb_in_cluster m) (mb_name m) (mb_faults m).
Definition set_role (m : members) (leader : option nat) (leading : bool) : members :=
  mk_members (mb_heap m) (mb_own m) (mb_nodes m) (mb_unknown m) leader leading (mb_in_cluster m) (mb_name m) (mb_faults m).
Definition set_cluster (m : members) (b : bool) (name : list byte) : members :=
  mk_members (mb_heap m) (mb_own m) (mb_nodes m) (mb_unknown m) (mb_leader m) (mb_leading m) b name (mb_faults m).
Definition add_fault (f : fault) (m : members) : members :=
  mk_members (mb_heap m) (mb_own m) (mb_nodes m) (mb_unknown m) (mb_leader m) (mb_leading m) (mb_in_cluster m) (mb_name m)
    (mb_faults m ++ [f]).

Definition alive (m : members) (a : nat) : bool :=
  match mb_heap m !! a with Some o => negb (ob_freed o) | None => false end.

Definition name_at (m : members) (a : nat) : list byte := match mb_heap m !! a with Some o => ob_name o | None => [] end.

(** Reading or writing a node. *)
Definition use (m : members) (a : nat) : members := if alive m a then m else add_fault UsedFreed m.
Definition use_all (m : members) (l : list nat) : members := foldl use m l.
Definition use_if (m : members) (a : option nat) : members := match a with None => m | Some a => use m a end.

Definition node_create (m : members) (name : list byte) : nat * members :=
  (length (mb_heap m), set_heap m (mb_heap m ++ [mk_object name false])).

Definition node_destroy (m : members) (a : nat) : members :=
  if alive m a then set_heap m (alter (fun o => mk_object (ob_name o) true) a (mb_heap m)) else add_fault FreedTwice m.

(** The loops that look for a name and stop at the first node that has it. *)
Definition find_node (m : members) (name : list byte) : option nat * members :=
  match list_find (fun a => name_at m a = name) (mb_nodes m) with
  | Some (i, a) => (Some a, use_all m (take (S i) (mb_nodes m)))
  | None => (None, use_all m (mb_nodes m))
  end.

Definition life_create_node (m : members) (name : list byte) : members :=
  if bool_decide (name = mb_name m) then m
  else
    match find_node m name with
    | (Some _, m) => m
    | (None, m) => let '(a, m) := node_create m name in set_lists m (mb_nodes m ++ [a]) (mb_unknown m)
    end.

(** [config] has the names of the configuration. *)
Definition life_update_connections (m : members) (config : list (list byte)) : members :=
  let old := filter (fun a => Some a <> mb_own m) (mb_nodes m) in
  let m := use_all (use_all m old) (mb_unknown m) in
  let known := fun a => name_at m a ∈ config in
  let n_nodes := filter known old ++ filter known (mb_unknown m) in
  let n_unknown := filter (fun a => ~ known a) old ++ filter (fun a => ~ known a) (mb_unknown m) in
  let m := foldl life_create_node (set_lists m n_nodes n_unknown) config in
  if mb_in_cluster m then set_lists m (mb_nodes m ++ option_list (mb_own m)) (mb_unknown m) else m.

(** The name of the new leader is read. *)
Definition life_become_follower (m : members) (leader : option nat) : members :=
  let m := if bool_decide (mb_leader m = leader) then m else use_if m leader in
  set_role m leader false.

(** [pending] tells that [s->meta.prev] is not null. *)
Definition life_meta_change (m : members) (config : list (list byte)) (pending : bool) : members :=
  let m := set_cluster m (bool_decide (mb_name m ∈ config)) (mb_name m) in
  let m := life_update_connections m config in
  if negb (mb_in_cluster m) && mb_leading m && negb pending then life_become_follower m None else m.

Definition life_node_connect (m : members) (name : list byte) : members :=
  match find_node m name with
  | (Some a, m) => use m a
  | (None, m) => let '(a, m) := node_create m name in use (set_lists m (mb_nodes m) (mb_unknown m ++ [a])) a
  end.

Definition life_become_leader (m : members) : members :=
  let m := set_role m (mb_own m) true in
  use_all (use_all m (mb_nodes m)) (mb_unknown m).

Definition life_node_disconnect (m : members) (a : nat) : members :=
  let m := use m a in
  if bool_decide (mb_leader m = Some a) then set_role m None (mb_leading m) else m.

(** [flushed]: the message to the leader was written. *)
Definition life_info_timer (m : members) (flushed : bool) : members :=
  let m := use_if m (mb_own m) in
  if mb_leading m then use_all m (mb_nodes m)
  else
    match mb_leader m with
    | None => m
    | Some a => let m := use m a in if flushed then m else life_node_disconnect m a
    end.

(** ** Handlers *)

(** What the handlers of connections, timers and log entries do with nodes.  A node that a
    connection, a timer or an entry of [connected_nodes] belongs to is the [k]-th of those in
    the two arrays. *)
Inductive act :=
| ANode (k : nat)                                      (* conn_on_readable, node_try_connect, ... *)
| ADisconnect (k : nat)                                (* server_on_node_disconnect *)
| AConnect (name : list byte)                          (* server_on_node_connect_req *)
| AMetaChange (config : list (list byte)) (pending : bool)
| AUpdate (config : list (list byte))                  (* server_job_add_node *)
| ALeader                                              (* s->leader->in_timestamp, s->leader->name *)
| ABecomeLeader
| ABecomeFollower (k : option nat).

Definition member_at (m : members) (k : nat) : option nat := (mb_nodes m ++ mb_unknown m) !! k.

Definition do_act (m : members) (x : act) : members :=
  match x with
  | ANode k => use_if m (member_at m k)
  | ADisconnect k => match member_at m k with None => m | Some a => life_node_disconnect m a end
  | AConnect name => life_node_connect m name
  | AMetaChange config pending => life_meta_change m config pending
  | AUpdate config => life_update_connections m config
  | ALeader => use_if m (mb_leader m)
  | ABecomeLeader => life_become_leader m
  | ABecomeFollower k => life_become_follower m (k ≫= member_at m)
  end.

(** [server_check_commit]; the entries that are applied do [acts]. *)
Definition life_check_commit (m : members) (acts : list act) : members :=
  let m := use_if m (mb_own m) in
  let m := use_all m (mb_nodes m) in
  let m := foldl do_act m acts in
  use_all m (mb_nodes m).

(** ** The server *)

(** What the rest of the program answers: return codes, whether the task that ends the
    snapshot thread was written into its pipe, whether [pthread_join] succeeds, and the name
    of the node and the names of the configuration that the files have. *)
Record parts := mk_parts {
  pa_rc : nat -> rs_rc;
  pa_told : nat -> bool;
  pa_joined : nat -> bool;
  pa_config : nat -> list byte * list (list byte)
}.

(** The nodes, the flags and timers of [struct server], the snapshot threads that run, and the
    number of answers so far. *)
Record life := mk_life {
  lf_mem : members;
  lf_ss_init : bool;
  lf_full : bool;
  lf_full_timer : bool;
  lf_info_timer : bool;
  lf_stop_requested : bool;
  lf_timer_rc : rs_rc;
  lf_threads : nat;
  lf_io : nat
}.

(** A server [server_init] has prepared, with the name of the node that is configured. *)
Definition life_init (name : list byte) : life :=
  mk_life (mk_members [] None [] [] None false false name []) false false false false false RS_OK 0 0.

(** A result [None]: [rs_exit], or a wait that does not end. *)
Definition lifeM (A : Type) : Type := life -> option A * life.

#[export] Instance lifeM_ret : MRet lifeM := fun A a s => (Some a, s).
#[export] Instance lifeM_bind : MBind lifeM := fun A B k m s =>
  match m s with (Some a, s) => k a s | (None, s) => (None, s) end.

Definition exits {A} : lifeM A := fun s => (None, s).
Definition hangs {A} : lifeM A := fun s => (None, s).
Definition edit (f : life -> life) : lifeM () := fun s => (Some (), f s).
Definition view {A} (f : life -> A) : lifeM A := fun s => (Some (f s), s).

Definition set_mem (s : life) (m : members) : life :=
  mk_life m (lf_ss_init s) (lf_full s) (lf_full_timer s) (lf_info_timer s) (lf_stop_requested s) (lf_timer_rc s) (lf_threads s) (lf_io s).
Definition set_thread (s : life) (is_init : bool) (n : nat) : life :=
  mk_life (lf_mem s) is_init (lf_full s) (lf_full_timer s) (lf_info_timer s) (lf_stop_requested s) (lf_timer_rc s) n (lf_io s).
Definition set_full (s : life) (b t : bool) : life :=
  mk_life (lf_mem s) (lf_ss_init s) b t (lf_info_timer s) (lf_stop_requested s) (lf_timer_rc s) (lf_threads s) (lf_io s).
Definition set_timers (s : life) (full info : bool) : life :=
  mk_life (lf_mem s) (lf_ss_init s) (lf_full s) full info (lf_stop_requested s) (lf_timer_rc s) (lf_threads s) (lf_io s).
Definition set_stop (s : life) (b : bool) : life :=
  mk_life (lf_mem s) (lf_ss_init s) (lf_full s) (lf_full_timer s) (lf_info_timer s) b (lf_timer_rc s) (lf_threads s) (lf_io s).
Definition set_timer_rc (s : life) (rc : rs_rc) : life :=
  mk_life (lf_mem s) (lf_ss_init s) (lf_full s) (lf_full_timer s) (lf_info_timer s) (lf_stop_requested s) rc (lf_threads s) (lf_io s).
Definition set_count (s : life) (n : nat) : life :=
  mk_life (lf_mem s) (lf_ss_init s) (lf_full s) (lf_full_timer s) (lf_info_timer s) (lf_stop_requested s) (lf_timer_rc s) (lf_threads s) n.

Definition on_mem (f : members -> members) : lifeM () := edit (fun s => set_mem s (f (lf_mem s))).

Section life.
Variable io : parts.

Definition ask {A} (f : nat -> A) : lifeM A := fun s => (Some (f (lf_io s)), set_count s (S (lf_io s))).
Definition answer : lifeM rs_rc := ask (pa_rc io).

(** *** Parts *)

(** [snapshot_init] clears the structure, starts the thread and notes it. *)
Definition snapshot_init : lifeM rs_rc :=
  ready ← view lf_ss_init;
  (if (ready : bool) then on_mem (add_fault LostThread) else mret ());;
  edit (fun s => set_thread s false (lf_threads s));;
  rc ← answer;
  if bool_decide (rc = RS_OK) then edit (fun s => set_thread s true (S (lf_threads s)));; mret RS_OK
  else mret RS_ERROR.

(** [sc_thread_term]: a thread that does not know that it shall end is waited for without end;
    when joining it fails it goes on without the server. *)
Definition join_thread (told : bool) : lifeM bool :=
  joined ← ask (pa_joined io);
  if (joined : bool) then
    if told then edit (fun s => set_thread s (lf_ss_init s) (pred (lf_threads s)));; mret true else hangs
  else on_mem (add_fault LostThread);; mret false.

(** [snapshot_term] tells the thread to stop, waits for its end and releases the rest, which is
    answered. *)
Definition snapshot_term : lifeM rs_rc :=
  ready ← view lf_ss_init;
  if negb ready then mret RS_OK
  else
    told ← ask (pa_told io);
    joined ← join_thread told;
    rc ← answer;
    edit (fun s => set_thread s false (lf_threads s));;
    mret (if told && joined && bool_decide (rc = RS_OK) then RS_OK else RS_ERROR).

(** *** The functions of server.c *)

(** The pointer to the own node is overwritten. *)
Definition create_own (m : members) : members :=
  let '(a, m) := node_create (set_role m None false) (mb_name m) in set_own m (Some a).

Definition server_prepare_cluster : lifeM rs_rc :=
  on_mem create_own;;
  snapshot_init.

(** [server_read_meta]: the file gives the name of the node; when everything could be opened
    the nodes of the configuration are created. *)
Definition life_read_meta : lifeM rs_rc :=
  '(name, config) ← ask (pa_config io);
  on_mem (fun m => set_cluster m (mb_in_cluster m) name);;
  rc ← answer;
  if negb (bool_decide (rc = RS_OK)) then mret rc
  else on_mem (fun m => life_meta_change m config false);; mret RS_OK.

Definition server_prepare_start : lifeM rs_rc :=
  rc ← server_prepare_cluster;
  if negb (bool_decide (rc = RS_OK)) then mret rc
  else
    rc ← life_read_meta;
    if negb (bool_decide (rc = RS_OK)) then mret rc
    else
      edit (fun s => set_timers s (lf_full_timer s) true);;
      mret RS_OK.

(** [if (s->own) node_destroy(s->own)]; the pointer keeps its value. *)
Definition destroy_own (m : members) : members := match mb_own m with None => m | Some a => node_destroy m a end.

(** The loops over the two arrays; the own node is skipped in the first. *)
Definition destroy_nodes (m : members) : members :=
  let m := foldl (fun m a => if bool_decide (mb_own m = Some a) then m else node_destroy m a) m (mb_nodes m) in
  foldl node_destroy m (mb_unknown m).

Definition server_close : lifeM rs_rc :=
  on_mem destroy_own;;
  on_mem destroy_nodes;;
  rc1 ← snapshot_term;
  rc2 ← answer;                                             (* state_term *)
  on_mem (fun m => set_role (set_lists m [] []) None false);;
  edit (fun s => set_timers s false false);;                (* sc_timer_clear *)
  edit (fun s => set_stop s false);;
  mret (if bool_decide (rc2 = RS_OK) then rc1 else rc2).

Definition server_on_full_disk : lifeM () :=
  full ← view lf_full;
  if (full : bool) then mret ()
  else
    rc ← server_close;
    if negb (bool_decide (rc = RS_OK)) && negb (bool_decide (rc = RS_FULL)) then exits
    else edit (fun s => set_full s true true).

(** [reason] is [RS_SNAPSHOT]; removing the old state of a server that is not in memory is
    answered. *)
Definition server_restart (in_memory : bool) : lifeM rs_rc :=
  rc ← answer;                                              (* state_close *)
  if negb (bool_decide (rc = RS_OK)) then exits
  else
    rc ← (if in_memory then mret RS_OK else answer);
    if negb (bool_decide (rc = RS_OK)) then exits
    else
      rc ← server_close;
      if negb (bool_decide (rc = RS_OK)) && negb (bool_decide (rc = RS_FULL)) then exits
      else server_prepare_start.

(** [space] tells that the directory has enough free space. *)
Definition server_on_full_timer (space : bool) : lifeM () :=
  let rearm := edit (fun s => set_timers s true (lf_info_timer s)) in
  if space then
    rc ← server_prepare_start;
    match rc with
    | RS_OK => edit (fun s => set_full s false (lf_full_timer s))
    | RS_FULL => rearm
    | _ => exits
    end
  else rearm.

Definition server_handle_rc (in_memory : bool) (rc : rs_rc) : lifeM () :=
  match rc with
  | RS_OK => mret ()
  | RS_FULL => server_on_full_disk
  | RS_SNAPSHOT =>
      rc ← server_restart in_memory;
      if bool_decide (rc = RS_FULL) then server_on_full_disk else mret ()
  | _ => exits
  end.

(** *** The event loop *)

(** A handler: what it does with nodes, and its code.  While the disk is full there is no
    connection of a node and no timer of one, and [server_on_connect_req] lets none in. *)
Record handler := mk_handler { h_acts : list act; h_rc : rs_rc }.

Definition run_handler (h : handler) : lifeM rs_rc :=
  full ← view lf_full;
  (if (full : bool) then mret () else on_mem (fun m => foldl do_act m (h_acts h)));;
  mret (h_rc h).

(** The timers of [server_timeout]: the one that looks for free space, the one that collects
    metrics, and those of elections, connections and pending connections. *)
Inductive timer_event := TFull (space : bool) | TInfo (flushed : bool) (rc : rs_rc) | TOther (h : handler).

(** A timer that is not set does not fire. *)
Definition life_timeout (e : timer_event) : lifeM () :=
  skip ← view (fun s => negb (bool_decide (lf_timer_rc s = RS_OK)));
  if (skip : bool) then mret ()
  else
    rc ← match e with
         | TFull space =>
             armed ← view lf_full_timer;
             if (armed : bool) then
               edit (fun s => set_timers s false (lf_info_timer s));;
               server_on_full_timer space;;
               mret RS_OK
             else mret RS_OK
         | TInfo flushed rc =>
             armed ← view lf_info_timer;
             if (armed : bool) then on_mem (fun m => life_info_timer m flushed);; mret rc else mret RS_OK
         | TOther h => run_handler h
         end;
    edit (fun s => set_timer_rc s rc).

Fixpoint life_timers (es : list timer_event) : lifeM () :=
  match es with
  | [] => mret ()
  | e :: es => life_timeout e;; life_timers es
  end.

(** A request to stop ([server_on_task], [server_on_signal]), and any other event of a
    connection. *)
Inductive fd_event := EvStop | EvHandled (h : handler).

Definition life_handle (e : fd_event) : lifeM rs_rc :=
  match e with
  | EvStop => edit (fun s => set_stop s true);; mret RS_OK
  | EvHandled h => run_handler h
  end.

(** The events of one call of poll, up to the first one whose handler reports a code. *)
Fixpoint life_events (in_memory : bool) (es : list fd_event) : lifeM () :=
  match es with
  | [] => mret ()
  | e :: es =>
      rc ← life_handle e;
      if bool_decide (rc = RS_OK) then life_events in_memory es else server_handle_rc in_memory rc
  end.

(** [server_flush]: sending, and, on a leader, committing and the jobs. *)
Record flushing := mk_flushing { fl_nodes : handler; fl_commit : handler; fl_jobs : handler }.

Definition life_flush (f : flushing) : lifeM rs_rc :=
  rc ← run_handler (fl_nodes f);
  leading ← view (fun s => mb_leading (lf_mem s));
  if negb leading then mret RS_OK
  else if negb (bool_decide (rc = RS_OK)) then mret rc
  else
    on_mem (fun m => life_check_commit m (h_acts (fl_commit f)));;
    if negb (bool_decide (h_rc (fl_commit f) = RS_OK)) then mret (h_rc (fl_commit f))
    else run_handler (fl_jobs f).

(** One round of the loop in [server_run]; the request to stop is looked at between the
    rounds. *)
Record round := mk_round { rd_timers : list timer_event; rd_events : list fd_event; rd_flush : flushing }.

Definition life_round (in_memory : bool) (r : round) : lifeM () :=
  life_timers (rd_timers r);;
  rc ← view lf_timer_rc;
  (match rc with
   | RS_ERROR => exits
   | RS_FULL => edit (fun s => set_timer_rc s RS_OK);; server_on_full_disk
   | _ => mret ()
   end);;
  life_events in_memory (rd_events r);;
  rc ← life_flush (rd_flush r);
  server_handle_rc in_memory rc.

(** [true]: the loop has ended. *)
Fixpoint life_loop (in_memory : bool) (rounds : list round) : lifeM bool :=
  stop ← view lf_stop_requested;
  if (stop : bool) then mret true
  else
    match rounds with
    | [] => mret false
    | r :: rounds => life_round in_memory r;; life_loop in_memory rounds
    end.

(** [server_run]: the start, the loop, and [server_term], which begins with
    [server_close]. *)
Definition server_run (in_memory : bool) (rounds : list round) : lifeM bool :=
  rc ← server_prepare_start;
  match rc with
  | RS_OK => mret ()
  | RS_FULL => server_on_full_disk
  | _ => exits
  end;;
  ended ← life_loop in_memory rounds;
  if (ended : bool) then server_close ≫= (fun _ => mret true) else mret false.
End life.

(** ** Who owns which node *)

(** The nodes that the server can reach. *)
Definition owned (m : members) : list nat :=
  option_list (mb_own m) ++ filter (fun a => Some a <> mb_own m) (mb_nodes m) ++ mb_unknown m.

(** The server is open: the nodes it reaches are those that exist, each is reached once, and the
    leader is one of them. *)
Record linked (m : members) : Prop := {
  lk_own : is_Some (mb_own m);
  lk_once : NoDup (owned m);
  lk_live : forall a, alive m a = true <-> a ∈ owned m;
  lk_leader : forall a, mb_leader m = Some a -> alive m a = true;
  lk_faults : mb_faults m = []
}.

(** The server is closed: no node exists. *)
Record released (m : members) : Prop := {
  rl_lists : mb_nodes m = [] /\ mb_unknown m = [];
  rl_live : forall a, alive m a = false;
  rl_faults : mb_faults m = []
}.

Lemma use_alive m a : alive m a = true -> use m a = m.
Proof. intros H. unfold use. by rewrite H. Qed.

Lemma use_all_alive m l : (forall a, a ∈ l -> alive m a = true) -> use_all m l = m.
Proof.
  unfold use_all. induction l as [|a l IH]; intros H; [done|]. cbn [foldl]. rewrite use_alive by (apply H; left).
  apply IH. intros b Hb. apply H. by right.
Qed.

Lemma own_owned m a : mb_own m = Some a -> a ∈ owned m.
Proof. intros E. unfold owned. rewrite E. left. Qed.

Lemma nodes_owned m a : a ∈ mb_nodes m -> a ∈ owned m.
Proof.
  intros Ha. destruct (decide (mb_own m = Some a)) as [E|E]; [by apply own_owned|]. unfold owned. apply elem_of_app. right.
  apply elem_of_app. left. apply list_elem_of_filter. split; [by apply not_eq_sym|done].
Qed.

Lemma unknown_owned m a : a ∈ mb_unknown m -> a ∈ owned m.
Proof. intros Ha. unfold owned. rewrite !elem_of_app. auto. Qed.

Lemma filter_whole (P : nat -> Prop) `{forall x, Decision (P x)} (l : list nat) : (forall a, a ∈ l -> P a) -> filter P l = l.
Proof.
  induction l as [|a l IH]; intros Hl; [done|]. rewrite filter_cons_True by (apply Hl; left). f_equal. apply IH. intros b Hb. apply Hl. by right.
Qed.

Section linked.
Context (m : members) (H : linked m).

Lemma own_alive a : mb_own m = Some a -> alive m a = true.
Proof. intros E. by apply (lk_live _ H), own_owned. Qed.

Lemma nodes_alive a : a ∈ mb_nodes m -> alive m a = true.
Proof. intros E. by apply (lk_live _ H), nodes_owned. Qed.

Lemma unknown_alive a : a ∈ mb_unknown m -> alive m a = true.
Proof. intros E. by apply (lk_live _ H), unknown_owned. Qed.

Lemma use_nodes : use_all m (mb_nodes m) = m.
Proof. apply use_all_alive, nodes_alive. Qed.

Lemma use_own : use_if m (mb_own m) = m.
Proof. destruct (mb_own m) as [a|] eqn:E; [|done]. by apply use_alive, own_alive. Qed.

Lemma use_leader : use_if m (mb_leader m) = m.
Proof. destruct (mb_leader m) as [a|] eqn:E; [|done]. apply use_alive. by apply (lk_leader _ H). Qed.

Lemma member_alive k a : member_at m k = Some a -> alive m a = true.
Proof.
  intros E%list_elem_of_lookup_2. apply elem_of_app in E as [E|E]; [by apply nodes_alive|by apply unknown_alive].
Qed.

(** Other arrays with the same nodes. *)
Lemma linked_lists nodes unknown :
  filter (fun a => Some a <> mb_own m) nodes ++ unknown ≡ₚ filter (fun a => Some a <> mb_own m) (mb_nodes m) ++ mb_unknown m ->
  linked (set_lists m nodes unknown).
Proof.
  intros Hp. assert (Ho : owned (set_lists m nodes unknown) ≡ₚ owned m) by (unfold owned; cbn; by rewrite Hp).
  destruct H as [H1 H2 H3 H4 H5]. split; [done| | |done|done].
  - by rewrite Ho.
  - intros a. rewrite Ho. apply H3.
Qed.

Lemma linked_role leader leading : (forall a, leader = Some a -> alive m a = true) -> linked (set_role m leader leading).
Proof. intros Hl. by destruct H. Qed.

Lemma linked_cluster b name : linked (set_cluster m b name).
Proof. by destruct H. Qed.

Lemma find_node_found name : match find_node m name with
  | (Some a, m') => m' = m /\ a ∈ mb_nodes m
  | (None, m') => m' = m
  end.
Proof.
  unfold find_node. destruct (list_find _ _) as [[i a]|] eqn:E; [|by rewrite use_nodes].
  apply list_find_Some in E as (Ha & _). split; [|by apply list_elem_of_lookup_2 in Ha].
  apply use_all_alive. intros b Hb. apply nodes_alive. by apply elem_of_take in Hb as (j & Hb & _); apply list_elem_of_lookup_2 in Hb.
Qed.
End linked.

(** A new object is alive, and the others are as before. *)
Lemma alive_create m name b : alive (snd (node_create m name)) b = (alive m b || bool_decide (b = length (mb_heap m))).
Proof.
  unfold alive, node_create. cbn. destruct (decide (b < length (mb_heap m))%nat) as [Hb|Hb].
  - rewrite lookup_app_l by done. rewrite bool_decide_false by lia. by rewrite orb_false_r.
  - rewrite (lookup_ge_None_2 (mb_heap m)) by lia. cbn [orb]. destruct (decide (b = length (mb_heap m))) as [->|Hn].
    + rewrite lookup_app_r, Nat.sub_diag by lia. by rewrite bool_decide_true.
    + rewrite lookup_ge_None_2 by (rewrite length_app; cbn; lia). by rewrite bool_decide_false.
Qed.

Lemma alive_new m : alive m (length (mb_heap m)) = false.
Proof. unfold alive. by rewrite lookup_ge_None_2. Qed.

(** A new node in one of the arrays. *)
Lemma linked_create m name nodes unknown :
  linked m ->
  filter (fun a => Some a <> mb_own m) nodes ++ unknown ≡ₚ
    length (mb_heap m) :: filter (fun a => Some a <> mb_own m) (mb_nodes m) ++ mb_unknown m ->
  linked (set_lists (snd (node_create m name)) nodes unknown).
Proof.
  intros H Hp. set (a := length (mb_heap m)) in *.
  assert (Ho : owned (set_lists (snd (node_create m name)) nodes unknown) ≡ₚ a :: owned m).
  { unfold owned. cbn. rewrite Hp. symmetry. apply Permutation_middle. }
  destruct H as [H1 H2 H3 H4 H5]. assert (Hl : forall b, alive (set_lists (snd (node_create m name)) nodes unknown) b = (alive m b || bool_decide (b = a)))
    by (intros b; exact (alive_create m name b)).
  split; [done| | | |done].
  - rewrite Ho. constructor; [|done]. intros Ha%H3. unfold a in Ha. by rewrite alive_new in Ha.
  - intros b. rewrite Ho, Hl, orb_true_iff, elem_of_cons, bool_decide_eq_true, H3. tauto.
  - intros b Hb. rewrite Hl. by rewrite (H4 b Hb).
Qed.

Lemma fresh_not_own m : linked m -> Some (length (mb_heap m)) <> mb_own m.
Proof. intros H E. pose proof (own_alive m H (length (mb_heap m)) (eq_sym E)) as Ha. by rewrite alive_new in Ha. Qed.

Lemma create_node_linked m name : linked m -> linked (life_create_node m name).
Proof.
  intros H. unfold life_create_node. case_bool_decide; [done|]. pose proof (find_node_found m H name) as Hf.
  destruct (find_node m name) as [[a|] m']; [by destruct Hf as [-> _]|]. subst m'. apply linked_create; [done|].
  rewrite list_basics.list.filter_app, filter_cons_True, filter_nil by (by apply fresh_not_own). rewrite <- app_assoc. symmetry. apply Permutation_middle.
Qed.

Lemma update_connections_linked m config : linked m -> linked (life_update_connections m config).
Proof.
  intros H. unfold life_update_connections. cbv zeta. set (old := filter _ (mb_nodes m)).
  rewrite (use_all_alive m old) by (intros a Ha; apply (nodes_alive m H); by apply list_elem_of_filter in Ha as [_ Ha]).
  rewrite (use_all_alive m (mb_unknown m)) by (apply (unknown_alive m H)). set (known := fun a => name_at m a ∈ config).
  match goal with |- context [set_lists m ?n ?u] => set (nodes := n); set (unknown := u) end.
  assert (Hown : forall a, a ∈ old ++ mb_unknown m -> Some a <> mb_own m).
  { intros a Ha E. pose proof (lk_once _ H) as Hn. unfold owned in Hn. fold old in Hn. rewrite <- E in Hn. cbn in Hn.
    by inversion_clear Hn. }
  assert (Hnodes : forall a, a ∈ nodes -> Some a <> mb_own m).
  { intros a Ha. apply Hown. unfold nodes in Ha. rewrite !elem_of_app, !list_elem_of_filter in *. tauto. }
  assert (H1 : linked (set_lists m nodes unknown)).
  { apply linked_lists; [done|]. fold old. rewrite (filter_whole (fun a => Some a <> mb_own m) nodes).
    - transitivity ((filter known old ++ filter (fun a => ~ known a) old) ++ (filter known (mb_unknown m) ++ filter (fun a => ~ known a) (mb_unknown m))).
      + unfold nodes, unknown. rewrite <- !app_assoc. apply Permutation_app_head. rewrite !app_assoc. apply Permutation_app_tail, Permutation_app_comm.
      + by rewrite !filter_app_complement.
    - done. }
  clearbody nodes unknown. generalize dependent (set_lists m nodes unknown). intros m1 H1.
  assert (H2 : linked (foldl life_create_node m1 config)).
  { revert m1 H1. induction config as [|n config IH]; intros m1 H1; [done|]. cbn [foldl]. apply IH. by apply create_node_linked. }
  revert H2. generalize (foldl life_create_node m1 config). intros m2 H2. destruct (mb_in_cluster m2); [|done].
  apply linked_lists; [done|]. destruct (lk_own _ H2) as [o Eo]. rewrite Eo. change (option_list (Some o)) with [o].
  rewrite list_basics.list.filter_app, filter_cons_False, filter_nil, app_nil_r by (intros Hn; by apply Hn). done.
Qed.

Lemma become_follower_linked m leader : linked m -> (forall a, leader = Some a -> alive m a = true) -> linked (life_become_follower m leader).
Proof.
  intros H Hl. unfold life_become_follower. assert (E : use_if m leader = m) by (destruct leader; [by apply use_alive, Hl|done]).
  rewrite E. case_bool_decide; by apply linked_role.
Qed.

Lemma meta_change_linked m config pending : linked m -> linked (life_meta_change m config pending).
Proof.
  intros H. unfold life_meta_change. set (m1 := life_update_connections _ _).
  assert (H1 : linked m1) by (by apply update_connections_linked, linked_cluster). destruct (_ && _ && _); [|done].
  by apply become_follower_linked.
Qed.

Lemma node_connect_linked m name : linked m -> linked (life_node_connect m name).
Proof.
  intros H. unfold life_node_connect. pose proof (find_node_found m H name) as Hf. destruct (find_node m name) as [[a|] m'].
  - destruct Hf as [-> Ha]. rewrite use_alive; [done|by apply (nodes_alive m H)].
  - subst m'. change (let '(a, m0) := node_create m name in use (set_lists m0 (mb_nodes m0) (mb_unknown m0 ++ [a])) a) with
      (use (set_lists (snd (node_create m name)) (mb_nodes m) (mb_unknown m ++ [length (mb_heap m)])) (length (mb_heap m))).
    rewrite use_alive.
    + apply linked_create; [done|]. rewrite app_assoc. symmetry. apply Permutation_cons_append.
    + change (alive (snd (node_create m name)) (length (mb_heap m)) = true). rewrite alive_create, bool_decide_true by done. apply orb_true_r.
Qed.

Lemma become_leader_linked m : linked m -> linked (life_become_leader m).
Proof.
  intros H. unfold life_become_leader. set (m1 := set_role m (mb_own m) true).
  assert (H1 : linked m1) by (apply linked_role; [done|apply (own_alive m H)]). rewrite use_nodes by done.
  by rewrite use_all_alive by (apply (unknown_alive m1 H1)).
Qed.

Lemma node_disconnect_linked m a : linked m -> alive m a = true -> linked (life_node_disconnect m a).
Proof. intros H Ha. unfold life_node_disconnect. rewrite use_alive by done. case_bool_decide; [by apply linked_role|done]. Qed.

Lemma info_timer_linked m flushed : linked m -> linked (life_info_timer m flushed).
Proof.
  intros H. unfold life_info_timer. rewrite use_own by done. destruct (mb_leading m); [by rewrite use_nodes|].
  destruct (mb_leader m) as [a|] eqn:E; [|done]. rewrite use_alive by (by apply (lk_leader _ H)).
  destruct flushed; [done|]. apply node_disconnect_linked; [done|]. by apply (lk_leader _ H).
Qed.

Lemma act_linked m x : linked m -> linked (do_act m x).
Proof.
  intros H. destruct x as [k|k|name|config pending|config| | |k]; cbn [do_act].
  - destruct (member_at m k) as [a|] eqn:E; [|done]. cbn. rewrite use_alive; [done|by apply (member_alive m H k)].
  - destruct (member_at m k) as [a|] eqn:E; [|done]. apply node_disconnect_linked; [done|]. by apply (member_alive m H k).
  - by apply node_connect_linked.
  - by apply meta_change_linked.
  - by apply update_connections_linked.
  - by rewrite use_leader.
  - by apply become_leader_linked.
  - apply become_follower_linked; [done|]. intros a. destruct k as [k|]; [|done]. cbn. apply (member_alive m H k).
Qed.

Lemma acts_linked acts : forall m, linked m -> linked (foldl do_act m acts).
Proof. induction acts as [|x acts IH]; intros m H; [done|]. cbn [foldl]. apply IH. by apply act_linked. Qed.

Lemma check_commit_linked m acts : linked m -> linked (life_check_commit m acts).
Proof.
  intros H. unfold life_check_commit. cbv zeta. rewrite (use_own m H), (use_nodes m H). assert (H1 := acts_linked acts m H).
  by rewrite (use_nodes _ H1).
Qed.

(** *** Opening and closing *)

Lemma alive_destroy m a b : alive m a = true -> alive (node_destroy m a) b = (alive m b && negb (bool_decide (b = a))).
Proof.
  intros Ha. unfold node_destroy. rewrite Ha. unfold alive in *. cbn. destruct (decide (b = a)) as [->|Hn].
  - rewrite list_lookup_alter_eq. destruct (mb_heap m !! a); [|done]. rewrite bool_decide_true by done. cbn. by rewrite andb_false_r.
  - rewrite list_lookup_alter_ne by done. rewrite bool_decide_false by done. by rewrite andb_true_r.
Qed.

Lemma destroy_same m a : alive m a = true ->
  mb_own (node_destroy m a) = mb_own m /\ mb_nodes (node_destroy m a) = mb_nodes m /\ mb_unknown (node_destroy m a) = mb_unknown m /\
  mb_faults (node_destroy m a) = mb_faults m.
Proof. intros Ha. unfold node_destroy. by rewrite Ha. Qed.

(** Destroying different nodes that exist. *)
Lemma destroy_list l : forall m, NoDup l -> (forall a, a ∈ l -> alive m a = true) ->
  let m' := foldl node_destroy m l in
  (forall b, alive m' b = true <-> alive m b = true /\ b ∉ l) /\ mb_own m' = mb_own m /\ mb_unknown m' = mb_unknown m /\ mb_faults m' = mb_faults m.
Proof.
  induction l as [|a l IH]; intros m Hn Ha; cbn [foldl]; cbv zeta.
  { split_and!; [|done..]. intros b. split; [|by intros []]. intros Hb. split; [done|by intros Hi%elem_of_nil]. }
  assert (H0 : alive m a = true) by (apply Ha; left). assert (Hl : (a ∉ l) /\ NoDup l) by (by inversion_clear Hn). destruct Hl as [Hal Hl].
  assert (Hb : forall b, alive (node_destroy m a) b = true <-> alive m b = true /\ b <> a).
  { intros b. rewrite alive_destroy by done. rewrite andb_true_iff, negb_true_iff, bool_decide_eq_false. done. }
  destruct (IH (node_destroy m a) Hl) as (H1 & H2 & H3 & H4).
  { intros b Hi. apply Hb. split; [apply Ha; by right|]. intros ->. done. }
  destruct (destroy_same m a H0) as (E1 & _ & E3 & E4). split_and!; [|by rewrite H2|by rewrite H3|by rewrite H4].
  intros b. rewrite H1, Hb, not_elem_of_cons. tauto.
Qed.

(** The loop that skips the own node. *)
Lemma destroy_others l : forall m, (forall a, a ∈ l -> Some a <> mb_own m -> alive m a = true) -> NoDup (filter (fun a => Some a <> mb_own m) l) ->
  foldl (fun m a => if bool_decide (mb_own m = Some a) then m else node_destroy m a) m l =
  foldl node_destroy m (filter (fun a => Some a <> mb_own m) l).
Proof.
  induction l as [|a l IH]; intros m Ha Hn; [done|]. cbn [foldl]. case_bool_decide as Eo.
  - rewrite filter_cons_False in * by (intros Hx; by apply Hx). apply IH; [|done]. intros b Hb. apply Ha. by right.
  - assert (En : Some a <> mb_own m) by (by apply not_eq_sym). rewrite filter_cons_True in * by done. cbn [foldl].
    assert (H0 : alive m a = true) by (apply Ha; [left|done]). destruct (destroy_same m a H0) as (E & _).
    assert (Hl : (a ∉ filter (fun a => Some a <> mb_own m) l) /\ NoDup (filter (fun a => Some a <> mb_own m) l)) by (by inversion_clear Hn).
    rewrite IH; rewrite E; [done| |apply Hl]. intros b Hb Hbo. rewrite alive_destroy by done.
    rewrite (Ha b) by (done || by right). rewrite bool_decide_false; [done|]. intros ->. apply (proj1 Hl).
    by apply list_elem_of_filter.
Qed.

(** What [server_close] destroys are the nodes that the server owns, each once. *)
Lemma destroy_releases m : linked m -> let m' := destroy_nodes (destroy_own m) in
  (forall a, alive m' a = false) /\ mb_faults m' = [].
Proof.
  intros H. destruct (lk_own _ H) as [o Eo]. pose proof (lk_once _ H) as Hn. unfold owned in Hn. rewrite Eo in Hn. change (option_list (Some o)) with [o] in Hn. cbn [app] in Hn.
  set (others := filter (fun a => Some a <> Some o) (mb_nodes m)) in *.
  assert (Ho : alive m o = true) by (by apply (own_alive m H)). unfold destroy_own. rewrite Eo. set (m1 := node_destroy m o).
  destruct (destroy_same m o Ho) as (E1 & E2 & E3 & E4). fold m1 in E1, E2, E3, E4.
  assert (Hl : (o ∉ others ++ mb_unknown m) /\ NoDup (others ++ mb_unknown m)) by (by inversion_clear Hn). destruct Hl as [Hoo Hl].
  assert (H1 : forall a, a ∈ others ++ mb_unknown m -> alive m1 a = true).
  { intros a Ha. unfold m1. rewrite alive_destroy by done. rewrite bool_decide_false by (intros ->; done). rewrite andb_true_r.
    apply (lk_live _ H). unfold owned. rewrite Eo. by right. }
  assert (Ed : destroy_nodes m1 = foldl node_destroy m1 (others ++ mb_unknown m)).
  { unfold destroy_nodes. rewrite E2, destroy_others; rewrite E1, Eo; fold others.
    - rewrite foldl_app. f_equal. apply list_relations.list.NoDup_app in Hl as (Hl & _ & _).
      destruct (destroy_list others m1 Hl) as (_ & _ & E & _); [|by rewrite E, E3]. intros a Ha. apply H1. apply elem_of_app. by left.
    - intros a Ha Hao. apply H1. apply elem_of_app. left. by apply list_elem_of_filter.
    - by apply list_relations.list.NoDup_app in Hl as (Hl & _ & _). }
  destruct (destroy_list _ m1 Hl H1) as (H2 & _ & _ & H4). cbv zeta. rewrite Ed. split.
  - intros a. apply not_true_is_false. intros [Ha Hi]%H2. unfold m1 in Ha. rewrite alive_destroy in Ha by done.
    apply andb_true_iff in Ha as [Ha Hne]. apply negb_true_iff, bool_decide_eq_false in Hne.
    apply (lk_live _ H) in Ha. unfold owned in Ha. rewrite Eo in Ha. by apply elem_of_cons in Ha as [Ha|Ha].
  - rewrite H4, E4. apply (lk_faults _ H).
Qed.

Lemma create_own_linked m : released m -> linked (create_own m).
Proof.
  intros [[E1 E2] Hl Hf]. unfold create_own. set (m0 := set_role m None false).
  change (let '(a, m1) := node_create m0 (mb_name m) in set_own m1 (Some a)) with
    (set_own (snd (node_create m0 (mb_name m))) (Some (length (mb_heap m)))).
  assert (Ho : owned (set_own (snd (node_create m0 (mb_name m))) (Some (length (mb_heap m)))) = [length (mb_heap m)])
    by (unfold owned; cbn; rewrite E1, E2; done).
  split; [done| | |done|done].
  - rewrite Ho. apply NoDup_singleton.
  - intros b. rewrite Ho, list_elem_of_singleton. change (alive (snd (node_create m0 (mb_name m))) b = true <-> b = length (mb_heap m)).
    rewrite alive_create, orb_true_iff, bool_decide_eq_true. change (alive m0 b) with (alive m b). rewrite Hl. split; [by intros [|]|by right].
Qed.

(** ** A server whose disk is never full *)

Abbreviation faults s := (mb_faults (lf_mem s)).

(** [m] ends with [Post], or the process ends; without a fault in both cases. *)
Definition sound {A} (Pre : life -> Prop) (m : lifeM A) (Post : A -> life -> Prop) : Prop := forall s, Pre s ->
  let '(r, s') := m s in faults s' = [] /\ match r with Some a => Post a s' | None => True end.

Lemma sound_ret {A} (Pre : life -> Prop) (a : A) (Post : A -> life -> Prop) :
  (forall s, Pre s -> faults s = [] /\ Post a s) -> sound Pre (mret a) Post.
Proof. intros H s Hs. by apply H. Qed.

Lemma sound_bind {A B} Pre (m : lifeM A) (Mid : A -> life -> Prop) (k : A -> lifeM B) Post :
  sound Pre m Mid -> (forall a, sound (Mid a) (k a) Post) -> sound Pre (m ≫= k) Post.
Proof.
  intros Hm Hk s Hs. specialize (Hm s Hs). unfold mbind, lifeM_bind. destruct (m s) as [[a|] s1]; [|done].
  apply Hk, Hm.
Qed.

Lemma sound_edit (Pre : life -> Prop) f (Post : () -> life -> Prop) :
  (forall s, Pre s -> faults (f s) = [] /\ Post () (f s)) -> sound Pre (edit f) Post.
Proof. intros H s Hs. by apply H. Qed.

Lemma sound_view {A} (Pre : life -> Prop) (f : life -> A) (Post : A -> life -> Prop) :
  (forall s, Pre s -> faults s = [] /\ Post (f s) s) -> sound Pre (view f) Post.
Proof. intros H s Hs. by apply H. Qed.

Lemma sound_exits {A} (Pre : life -> Prop) (Post : A -> life -> Prop) :
  (forall s, Pre s -> faults s = []) -> sound Pre exits Post.
Proof. intros H s Hs. split; [by apply H|done]. Qed.

(** The test of a return code. *)
Lemma sound_code {A} (Pre : life -> Prop) rc (m k : lifeM A) Post :
  sound Pre m Post -> sound Pre k Post -> sound Pre (if negb (bool_decide (rc = RS_OK)) then m else k) Post.
Proof. intros Hm Hk. by case_bool_decide. Qed.

(** The threads that run are those that are noted, and the disk is not full. *)
Record steady (s : life) : Prop := {
  sd_threads : lf_threads s = if lf_ss_init s then 1%nat else 0%nat;
  sd_full : lf_full s = false;
  sd_timer : lf_full_timer s = false;
  sd_timer_rc : lf_timer_rc s <> RS_FULL
}.

Definition opened (s : life) : Prop := linked (lf_mem s) /\ steady s.
Definition closed (s : life) : Prop := released (lf_mem s) /\ steady s /\ lf_ss_init s = false.

(** The nodes are gone, the thread may run. *)
Definition half_closed (s : life) : Prop := (forall a, alive (lf_mem s) a = false) /\ faults s = [] /\ steady s.

Lemma opened_faults s : opened s -> faults s = [].
Proof. by intros [[] _]. Qed.

Lemma opened_stays {A} (a : A) : sound opened (mret a) (fun _ s => opened s).
Proof. apply sound_ret. intros s Hs. split; [by apply opened_faults|done]. Qed.

Lemma opened_exits {A} (Post : A -> life -> Prop) : sound opened exits Post.
Proof. apply sound_exits, opened_faults. Qed.

Lemma opened_mem f : (forall m, linked m -> linked (f m)) -> sound opened (on_mem f) (fun _ s => opened s).
Proof. intros Hf. apply sound_edit. intros s [Hl Hs]. split; [by destruct (Hf _ Hl)|]. split; [by apply Hf|by destruct Hs]. Qed.

Lemma opened_view {A} (f : life -> A) : sound opened (view f) (fun _ s => opened s).
Proof. apply sound_view. intros s Hs. split; [by apply opened_faults|done]. Qed.

Lemma ask_sound {A} (P : life -> Prop) (f : nat -> A) :
  (forall s n, P s -> P (set_count s n)) -> (forall s, P s -> faults s = []) ->
  sound P (ask f) (fun a s => (exists n, a = f n) /\ P s).
Proof. intros H1 H2 s Hs. split; [exact (H2 s Hs)|]. split; [by exists (lf_io s)|by apply H1]. Qed.

Lemma opened_ask {A} (f : nat -> A) : sound opened (ask f) (fun a s => (exists n, a = f n) /\ opened s).
Proof. apply ask_sound; [|apply opened_faults]. intros s n [H1 []]. by split. Qed.

Section never_full.
Variable io : parts.
Hypothesis never_full : forall n, pa_rc io n <> RS_FULL.
Hypothesis joins : forall n, pa_joined io n = true.

Lemma opened_answer : sound opened (answer io) (fun rc s => rc <> RS_FULL /\ opened s).
Proof.
  intros s Hs. pose proof (opened_ask (pa_rc io) s Hs) as H. unfold answer. destruct (ask _ s) as [[rc|] s'].
  - destruct H as (Hf & [n ->] & Ho). split; [done|]. split; [apply never_full|done].
  - done.
Qed.

Lemma snapshot_init_sound : sound (fun s => opened s /\ lf_ss_init s = false) (snapshot_init io) (fun rc s => rc <> RS_FULL /\ opened s).
Proof.
  unfold snapshot_init. set (P := fun s => opened s /\ lf_ss_init s = false).
  assert (HP : forall s, P s -> faults s = []) by (intros s [Hs _]; by apply opened_faults).
  eapply (sound_bind _ _ (fun b s => P s /\ b = false)).
  { apply sound_view. intros s Hs. split; [by apply HP|]. split; [done|apply Hs]. }
  intros b. eapply (sound_bind _ _ (fun _ s => P s)).
  { intros s [Hs ->]. split; [by apply HP|done]. }
  intros _. eapply (sound_bind _ _ (fun _ s => P s)).
  { apply sound_edit. intros s [[Hl [H1 H2 H3 H4]] Hi]. rewrite Hi in H1. split; [by destruct Hl|]. split; [|done]. split; [done|by split]. }
  intros _. eapply sound_bind.
  { apply (ask_sound P (pa_rc io)); [|done]. intros s n [[H1 []] H2]. split; [|done]. split; [done|by split]. }
  intros rc. case_bool_decide.
  - eapply (sound_bind _ _ (fun _ s => opened s)).
    + apply sound_edit. intros s (_ & [Hl [H1 H2 H3 H4]] & Hi). rewrite Hi in H1. split; [by destruct Hl|]. split; [done|].
      split; cbn; [by rewrite H1|done..].
    + intros _. apply sound_ret. intros s Hs. split; [by apply opened_faults|done].
  - apply sound_ret. intros s (_ & Hs & _). split; [by apply opened_faults|done].
Qed.

Lemma read_meta_sound : sound opened (life_read_meta io) (fun rc s => rc <> RS_FULL /\ opened s).
Proof.
  unfold life_read_meta. eapply sound_bind; [apply opened_ask|]. intros [name config]. eapply (sound_bind _ _ (fun _ s => opened s)).
  { intros s [_ Hs]. revert s Hs. apply opened_mem. intros m Hm. by apply linked_cluster. }
  intros _. eapply sound_bind; [apply opened_answer|]. intros rc. apply sound_code.
  - apply sound_ret. intros s [Hr Hs]. split; [by apply opened_faults|done].
  - eapply (sound_bind _ _ (fun _ s => opened s)).
    + intros s [_ Hs]. revert s Hs. apply opened_mem. intros m Hm. by apply meta_change_linked.
    + intros _. apply sound_ret. intros s Hs. split; [by apply opened_faults|done].
Qed.

Lemma prepare_start_sound : sound closed (server_prepare_start io) (fun rc s => rc <> RS_FULL /\ opened s).
Proof.
  assert (Hr : forall rc, sound (fun s => rc <> RS_FULL /\ opened s) (mret rc) (fun rc s => rc <> RS_FULL /\ opened s)).
  { intros rc. apply sound_ret. intros s [? Hs]. split; [by apply opened_faults|done]. }
  unfold server_prepare_start, server_prepare_cluster. eapply sound_bind.
  { eapply (sound_bind _ _ (fun _ s => opened s /\ lf_ss_init s = false)); [|intros _; apply snapshot_init_sound].
    apply sound_edit. intros s (Hl & Hs & Hi). assert (Hc : linked (create_own (lf_mem s))) by (by apply create_own_linked).
    split; [by destruct Hc|]. split; [|done]. split; [done|by destruct Hs]. }
  intros rc. apply sound_code; [apply Hr|]. eapply sound_bind; [intros s [_ Hs]; revert s Hs; apply read_meta_sound|].
  intros rc'. apply sound_code; [apply Hr|]. eapply (sound_bind _ _ (fun _ s => opened s)).
  - apply sound_edit. intros s (_ & Hl & []). split; [by destruct Hl|]. split; [done|by split].
  - intros _. apply sound_ret. intros s Hs. split; [by apply opened_faults|done].
Qed.

Lemma half_count s n : half_closed s -> half_closed (set_count s n).
Proof. intros (H1 & H2 & []). split_and!; [done..|by split]. Qed.

Lemma half_ask {A} (f : nat -> A) : sound half_closed (ask f) (fun a s => (exists n, a = f n) /\ half_closed s).
Proof. apply ask_sound; [apply half_count|]. by intros s (_ & ? & _). Qed.

(** The thread has ended, and is not noted any more. *)
Lemma snapshot_term_sound : sound half_closed (snapshot_term io) (fun rc s => rc <> RS_FULL /\ half_closed s /\ lf_ss_init s = false).
Proof.
  unfold snapshot_term. set (H1 := fun s => half_closed s /\ lf_ss_init s = true).
  eapply (sound_bind _ _ (fun b s => half_closed s /\ lf_ss_init s = b)).
  { apply sound_view. by intros s (? & ? & ?). }
  intros []; cbn [negb].
  2:{ apply sound_ret. intros s [Hs Hi]. split; [by destruct Hs as (_ & ? & _)|done]. }
  assert (Hf : forall s, H1 s -> faults s = []) by (by intros s [(_ & ? & _) _]).
  assert (Ha : forall A (f : nat -> A), sound H1 (ask f) (fun a s => (exists n, a = f n) /\ H1 s)).
  { intros A f. apply ask_sound; [|done]. intros s n [Hs Hi]. split; [by apply half_count|done]. }
  eapply sound_bind; [apply Ha|]. intros told. set (ended := fun s => half_closed (set_thread s false (lf_threads s))).
  assert (He : forall s, ended s -> faults s = []) by (by intros s (_ & ? & _)).
  eapply (sound_bind _ _ (fun _ s => ended s)).
  - unfold join_thread. eapply sound_bind; [intros s [_ Hs]; revert s Hs; apply Ha|]. intros b.
    intros s [[n ->] Hs]. rewrite joins. revert s Hs. destruct told; [|intros s Hs; split; [by apply Hf|done]].
    eapply (sound_bind _ _ (fun _ s => ended s)); [|intros _; apply sound_ret; intros s Hs; split; [by apply He|done]].
    apply sound_edit. intros s [(H2 & H3 & [H4 H5 H6 H7]) Hi]. rewrite Hi in H4. split; [done|]. split_and!; [done..|].
    split; cbn; [by rewrite H4|done..].
  - intros joined. eapply (sound_bind _ _ (fun _ s => ended s)).
    { intros s Hs. change (faults s = [] /\ ended (set_count s (S (lf_io s)))). split; [by apply He|]. destruct Hs as (H2 & H3 & []). split_and!; [done..|by split]. }
    intros rc. eapply (sound_bind _ _ (fun _ s => half_closed s /\ lf_ss_init s = false)).
    { apply sound_edit. intros s Hs. split; [by apply He in Hs|done]. }
    intros _. apply sound_ret. intros s [Hs Hi]. split; [by destruct Hs as (_ & ? & _)|]. split; [|done]. by destruct (_ && _ && _).
Qed.

Lemma close_sound : sound opened (server_close io) (fun rc s => rc <> RS_FULL /\ closed s).
Proof.
  unfold server_close. eapply (sound_bind _ _ (fun _ s => (forall a, alive (destroy_nodes (lf_mem s)) a = false) /\
    mb_faults (destroy_nodes (lf_mem s)) = [] /\ faults s = [] /\ steady s)).
  { apply sound_edit. intros s [Hl Hs]. destruct (destroy_releases _ Hl) as [H1 H2].
    assert (H3 : mb_faults (destroy_own (lf_mem s)) = []).
    { destruct (lk_own _ Hl) as [o Eo]. unfold destroy_own. rewrite Eo.
      destruct (destroy_same _ _ (own_alive _ Hl o Eo)) as (_ & _ & _ & ->). apply (lk_faults _ Hl). }
    split; [done|]. split_and!; [done..|by destruct Hs]. }
  intros _. eapply (sound_bind _ _ (fun _ s => half_closed s)).
  { apply sound_edit. intros s (H1 & H2 & _ & []). split; [done|]. split_and!; [done..|by split]. }
  intros _. eapply sound_bind; [apply snapshot_term_sound|]. intros rc1.
  set (H1 := fun rc s => (rc1 <> RS_FULL /\ rc <> RS_FULL) /\ half_closed s /\ lf_ss_init s = false).
  set (H2 := fun rc s => (rc1 <> RS_FULL /\ rc <> RS_FULL) /\ closed s).
  eapply (sound_bind _ _ H1).
  { intros s (Hr & Hs & Hi). pose proof (half_ask (pa_rc io) s Hs) as H. unfold answer. cbn in *. destruct H as (Hf & _ & Hs').
    split; [done|]. split_and!; [done|apply never_full|done..]. }
  intros rc2. eapply (sound_bind _ _ (fun _ s => H2 rc2 s)).
  { apply sound_edit. intros s (Hr & (H3 & H4 & []) & Hi). split; [done|]. split; [done|]. split_and!; [by split|by split|done]. }
  intros _. eapply (sound_bind _ _ (fun _ s => H2 rc2 s)).
  { apply sound_edit. intros s (Hr & H3 & [] & Hi). split; [by destruct H3|]. split; [done|]. split_and!; [done|by split|done]. }
  intros _. eapply (sound_bind _ _ (fun _ s => H2 rc2 s)).
  { apply sound_edit. intros s (Hr & H3 & [] & Hi). split; [by destruct H3|]. split; [done|]. split_and!; [done|by split|done]. }
  intros _. apply sound_ret. intros s ([Hr1 Hr2] & Hs). split; [by destruct Hs as [[] _]|]. split; [by case_bool_decide|done].
Qed.

Lemma restart_sound in_memory : sound opened (server_restart io in_memory) (fun rc s => rc <> RS_FULL /\ opened s).
Proof.
  unfold server_restart. eapply sound_bind; [apply opened_answer|]. intros rc.
  intros s [_ Hs]. revert s Hs. apply sound_code; [apply opened_exits|]. eapply (sound_bind _ _ (fun _ s => opened s)).
  { destruct in_memory; [apply opened_stays|]. intros s Hs. pose proof (opened_answer s Hs) as H. by destruct (answer io s) as [[]]; destruct_and?. }
  intros rc1. apply sound_code; [apply opened_exits|]. eapply sound_bind; [apply close_sound|]. intros rc2.
  destruct (negb (bool_decide (rc2 = RS_OK)) && negb (bool_decide (rc2 = RS_FULL))).
  - apply sound_exits. by intros s (_ & [] & _).
  - intros s [_ Hs]. revert s Hs. apply prepare_start_sound.
Qed.

Lemma handle_rc_sound in_memory rc : rc <> RS_FULL -> sound opened (server_handle_rc io in_memory rc) (fun _ s => opened s).
Proof.
  intros Hr. unfold server_handle_rc. destruct rc; try apply opened_exits; [apply opened_stays|done|].
  eapply sound_bind; [apply restart_sound|]. intros rc s [Hrc Hs]. rewrite bool_decide_false by done. split; [by apply opened_faults|done].
Qed.

(** *** Handlers that do not report a full disk *)

Definition handler_ok (h : handler) : Prop := h_rc h <> RS_FULL.
Definition timer_ok (e : timer_event) : Prop := match e with TFull _ => True | TInfo _ rc => rc <> RS_FULL | TOther h => handler_ok h end.
Definition fd_ok (e : fd_event) : Prop := match e with EvStop => True | EvHandled h => handler_ok h end.

Record round_ok (r : round) : Prop := {
  ro_timers : Forall timer_ok (rd_timers r);
  ro_events : Forall fd_ok (rd_events r);
  ro_nodes : handler_ok (fl_nodes (rd_flush r));
  ro_commit : handler_ok (fl_commit (rd_flush r));
  ro_jobs : handler_ok (fl_jobs (rd_flush r))
}.

Lemma run_handler_sound h : handler_ok h -> sound opened (run_handler h) (fun rc s => rc <> RS_FULL /\ opened s).
Proof.
  intros Hh. unfold run_handler. eapply (sound_bind _ _ (fun _ s => opened s)); [apply opened_view|]. intros full.
  eapply (sound_bind _ _ (fun _ s => opened s)).
  - destruct full; [apply opened_stays|]. apply opened_mem, acts_linked.
  - intros _. apply sound_ret. intros s Hs. split; [by apply opened_faults|done].
Qed.

Lemma timeout_sound e : timer_ok e -> sound opened (life_timeout io e) (fun _ s => opened s).
Proof.
  intros He. unfold life_timeout. eapply (sound_bind _ _ (fun _ s => opened s)); [apply opened_view|]. intros [].
  { apply opened_stays. }
  assert (Hret : forall rc, rc <> RS_FULL -> sound opened (mret rc) (fun rc s => rc <> RS_FULL /\ opened s)).
  { intros rc Hr. apply sound_ret. intros s Hs. split; [by apply opened_faults|done]. }
  eapply (sound_bind _ _ (fun rc s => rc <> RS_FULL /\ opened s)).
  - destruct e as [space|flushed rc|h]; cbn [timer_ok] in He.
    + eapply (sound_bind _ _ (fun b s => b = false /\ opened s)).
      { apply sound_view. intros s Hs. split; [by apply opened_faults|]. split; [by destruct Hs as [_ []]|done]. }
      intros []; [by intros s [? _]|]. intros s [_ Hs]. revert s Hs. by apply Hret.
    + eapply (sound_bind _ _ (fun _ s => opened s)); [apply opened_view|]. intros []; [|by apply Hret].
      eapply (sound_bind _ _ (fun _ s => opened s)); [|intros _; by apply Hret]. apply opened_mem. intros m Hm. by apply info_timer_linked.
    + by apply run_handler_sound.
  - intros rc. apply sound_edit. intros s (Hr & Hl & []). split; [by destruct Hl|]. split; [done|by split].
Qed.

Lemma timers_sound es : Forall timer_ok es -> sound opened (life_timers io es) (fun _ s => opened s).
Proof.
  induction 1 as [|e es He Hes IH]; cbn [life_timers]; [apply opened_stays|].
  eapply sound_bind; [by apply timeout_sound|]. intros []. exact IH.
Qed.

Lemma events_sound in_memory es : Forall fd_ok es -> sound opened (life_events io in_memory es) (fun _ s => opened s).
Proof.
  induction 1 as [|e es He Hes IH]; cbn [life_events]; [apply opened_stays|].
  eapply (sound_bind _ _ (fun rc s => rc <> RS_FULL /\ opened s)).
  - destruct e as [|h]; [|by apply run_handler_sound]. cbn [life_handle]. eapply (sound_bind _ _ (fun _ s => opened s)).
    + apply sound_edit. intros s [Hl []]. split; [by destruct Hl|]. split; [done|by split].
    + intros _. apply sound_ret. intros s Hs. split; [by apply opened_faults|done].
  - intros rc s [Hr Hs]. case_bool_decide; [by apply IH|by apply handle_rc_sound].
Qed.

Lemma flush_sound r : round_ok r -> sound opened (life_flush (rd_flush r)) (fun rc s => rc <> RS_FULL /\ opened s).
Proof.
  intros [_ _ H1 H2 H3]. unfold life_flush. eapply sound_bind; [by apply run_handler_sound|]. intros rc.
  eapply (sound_bind _ _ (fun _ s => rc <> RS_FULL /\ opened s)).
  { apply sound_view. intros s [Hr Hs]. split; [by apply opened_faults|done]. }
  intros []; cbn [negb]; [|apply sound_ret; intros s [_ Hs]; split; [by apply opened_faults|done]].
  apply sound_code; [apply sound_ret; intros s [Hr Hs]; split; [by apply opened_faults|done]|].
  eapply (sound_bind _ _ (fun _ s => opened s)).
  { intros s [_ Hs]. revert s Hs. apply opened_mem. intros m Hm. by apply check_commit_linked. }
  intros _. apply sound_code; [|by apply run_handler_sound]. apply sound_ret. intros s Hs. split; [by apply opened_faults|done].
Qed.

Lemma round_sound in_memory r : round_ok r -> sound opened (life_round io in_memory r) (fun _ s => opened s).
Proof.
  intros Hr. unfold life_round. eapply sound_bind; [by apply timers_sound, Hr|]. intros [].
  eapply (sound_bind _ _ (fun rc s => rc <> RS_FULL /\ opened s)).
  { apply sound_view. intros s Hs. split; [by apply opened_faults|]. split; [by destruct Hs as [_ []]|done]. }
  intros rc. eapply (sound_bind _ _ (fun _ s => opened s)).
  { intros s [Hrc Hs]. destruct rc; try (split; [by apply opened_faults|done]). done. }
  intros _. eapply sound_bind; [by apply events_sound, Hr|]. intros []. eapply sound_bind; [by apply flush_sound|].
  intros rc' s [Hrc Hs]. by apply handle_rc_sound.
Qed.

Lemma loop_sound in_memory rounds : Forall round_ok rounds -> sound opened (life_loop io in_memory rounds) (fun _ s => opened s).
Proof.
  induction 1 as [|r rounds Hr Hrs IH]; cbn [life_loop];
    (eapply (sound_bind _ _ (fun _ s => opened s)); [apply opened_view|]); intros []; try apply opened_stays.
  eapply sound_bind; [by apply round_sound|]. intros []. exact IH.
Qed.
End never_full.

(** C11: nothing is released twice or left behind.  In every run of a server whose disk is never
    full, with restarts for received snapshots, failing parts, nodes that connect, join and leave
    in any order, and any events, no node object is freed twice or used after it was freed, and
    no snapshot thread is lost (joining a thread does not fail).  While the server runs, the node
    objects that exist are those it can reach, each once, and at most one snapshot thread runs.
    When the server has stopped all node objects are freed and no snapshot thread runs. *)
Theorem server_releases io in_memory name rounds :
  (forall n, pa_rc io n <> RS_FULL) -> (forall n, pa_joined io n = true) -> Forall round_ok rounds ->
  let '(r, s) := server_run io in_memory rounds (life_init name) in
  faults s = [] /\
  match r with
  | Some true => (forall a, alive (lf_mem s) a = false) /\ lf_threads s = 0%nat
  | Some false => (forall a, alive (lf_mem s) a = true <-> a ∈ owned (lf_mem s)) /\ NoDup (owned (lf_mem s)) /\ (lf_threads s <= 1)%nat
  | None => True
  end.
Proof.
  intros Hio Hj Hr.
  assert (H : sound closed (server_run io in_memory rounds) (fun (ended : bool) s => if ended then closed s else opened s)).
  { unfold server_run. eapply sound_bind; [by apply prepare_start_sound|]. intros rc. eapply (sound_bind _ _ (fun _ s => opened s)).
    - intros s [Hrc Hs]. destruct rc; try (split; [by apply opened_faults|done]). done.
    - intros _. eapply sound_bind; [by apply loop_sound|]. intros [].
      + eapply sound_bind; [by apply close_sound|]. intros rc'. apply sound_ret. intros s [_ Hs]. split; [by destruct Hs as [[] _]|done].
      + apply sound_ret. intros s Hs. split; [by apply opened_faults|done]. }
  assert (H0 : closed (life_init name)) by (split_and!; [split; [done| |done]; by intros []|by split|done]).
  specialize (H _ H0). destruct (server_run _ _ _ _) as [[[]|] s]; destruct H as [Hf H]; (split; [done|]).
  - destruct H as ([_ Hl _] & [Ht _ _ _] & Hi). rewrite Hi in Ht. done.
  - destruct H as [[_ H1 H2 _ _] [Ht _ _ _]]. split_and!; [done..|]. rewrite Ht. destruct (lf_ss_init s); lia.
  - done.
Qed.

(** A cluster of three: a node connects and leads, a configuration without it arrives, this
    server receives a snapshot, becomes the leader, and is stopped. *)
Definition demo_parts : parts := mk_parts (fun _ => RS_OK) (fun _ => true) (fun _ => true) (fun _ => ([x61], [[x61]; [x62]; [x63]])).

Definition idle : flushing := mk_flushing (mk_handler [] RS_OK) (mk_handler [] RS_OK) (mk_handler [] RS_OK).

Definition demo_rounds : list round :=
  [mk_round [TInfo true RS_OK] [EvHandled (mk_handler [AConnect [x62]; AConnect [x64]; ABecomeFollower (Some 1%nat)] RS_OK)] idle;
   mk_round [TInfo false RS_OK] [EvHandled (mk_handler [AMetaChange [[x61]; [x64]] false; ALeader] RS_OK);
     EvHandled (mk_handler [] RS_SNAPSHOT)] idle;
   mk_round [TOther (mk_handler [ALeader; ABecomeLeader] RS_OK)] [EvStop] idle].

Lemma server_releases_witness :
  let run := server_run demo_parts false demo_rounds (life_init [x61]) in
  fst run = Some true /\ faults (snd run) = [] /\ (forall a, alive (lf_mem (snd run)) a = false) /\ lf_threads (snd run) = 0%nat.
Proof.
  intros run. assert (H1 : fst run = Some true) by (vm_compute; reflexivity). split; [exact H1|].
  assert (H : let '(r, s) := run in faults s = [] /\
    match r with
    | Some true => (forall a, alive (lf_mem s) a = false) /\ lf_threads s = 0%nat
    | Some false => (forall a, alive (lf_mem s) a = true <-> a ∈ owned (lf_mem s)) /\ NoDup (owned (lf_mem s)) /\ (lf_threads s <= 1)%nat
    | None => True
    end).
  { apply server_releases; [intros n; discriminate|intros n; reflexivity|repeat constructor; discriminate]. }
  revert H1 H. clearbody run. destruct run as [r s]. cbn [fst snd]. intros ->. exact id.
Defined.

(** ** A full disk, and restarts that fail *)

(** Every call succeeds but the [k]-th. *)
Definition fails_at (k : nat) (rc : rs_rc) : parts :=
  mk_parts (fun n => if Nat.eqb n k then rc else RS_OK) (fun _ => true) (fun _ => true) (fun _ => ([x61], [[x61]; [x62]])).

(** One round with an event and its code, or with the timer of the full disk. *)
Definition ends_with (rc : rs_rc) : round := mk_round [] [EvHandled (mk_handler [] rc)] idle.
Definition retries : round := mk_round [TFull true] [] idle.

(** The objects that exist and that the server does not reach. *)
Definition lost_nodes (m : members) : list nat := filter (fun a => alive m a = true /\ a ∉ owned m) (seq 0 (length (mb_heap m))).

(** [server_close] leaves [own] behind; a server that is stopped while its disk is full
    frees the node a second time in [server_term]. *)
Lemma full_stop_frees_twice :
  faults (snd (server_run demo_parts false [ends_with RS_FULL; mk_round [] [EvStop] idle] (life_init [x61]))) = [FreedTwice].
Proof. vm_compute. reflexivity. Qed.

(** A start that fails because the disk is still full is tried again ten seconds later,
    without ending the snapshot thread and destroying the node of the attempt before. *)
Lemma full_retry_loses_thread :
  let s := snd (server_run (fails_at 9 RS_FULL) false [ends_with RS_FULL; retries; retries] (life_init [x61])) in
  faults s = [LostThread] /\ length (lost_nodes (lf_mem s)) = 1%nat /\ lf_threads s = 2%nat.
Proof. vm_compute. auto. Qed.

(** [server_close] clears [stop_requested]: when the request to stop and a full disk fall
    into one round the loop goes on, and [server_stop] waits for the thread for ever. *)
Lemma stop_is_lost :
  fst (server_run demo_parts false [mk_round [] [EvStop; EvHandled (mk_handler [] RS_FULL)] idle; ends_with RS_OK] (life_init [x61]))
    = Some false.
Proof. vm_compute. reflexivity. Qed.

(** [server_handle_rc] ends the process for every error but those of a restart: a server
    whose files could not be read goes on. *)
Lemma restart_error_ignored :
  fst (server_run (fails_at 11 RS_ERROR) false [ends_with RS_SNAPSHOT; ends_with RS_OK] (life_init [x61])) = Some false /\
  fst (server_run (fails_at 2 RS_ERROR) false [ends_with RS_OK] (life_init [x61])) = None.
Proof. split; vm_compute; reflexivity. Qed.

(** When the task that ends the snapshot thread cannot be written, closing the server waits for
    a thread that waits for a task. *)
Lemma untold_thread_hangs io s :
  lf_ss_init s = true -> pa_told io (lf_io s) = false -> pa_joined io (S (lf_io s)) = true -> fst (snapshot_term io s) = None.
Proof. intros H1 H2 H3. unfold snapshot_term, join_thread, mbind, lifeM_bind, view. rewrite H1. cbn. rewrite H3. cbn. by rewrite H2. Qed.

(** ** The first message on an accepted connection *)

Definition MSG_CLUSTER_NAME_MISMATCH : Z := 2.
Definition MSG_CORRUPT : Z := 3.
Definition MSG_UNEXPECTED : Z := 4.
Definition MSG_DISK_FULL : Z := 7.
Definition MSG_CONNECT_TYPE : Z := 1.
Definition MSG_CLIENT : Z := 0.
Definition MSG_NODE : Z := 1.

(** What [server_on_connect_req] does next: wait for the rest, call
    [server_on_pending_disconnect] with a code, or one of the two functions that accept a
    connection (Commit.v).  [FmCrash] is [strcmp] of a null pointer. *)
Inductive first_message :=
| FmWait
| FmRefused (resp_code : Z)
| FmClient (name : option (list byte))
| FmNode (name : option (list byte))
| FmCrash.

(** [rc] is the result of [conn_on_readable], [b] the input of the connection behind it. *)
Definition server_on_connect_req (rc : rs_rc) (full : bool) (cluster : list byte) (b : sc_buf) : first_message * sc_buf :=
  if negb (bool_decide (rc = RS_OK)) then (FmRefused MSG_ERR, b)
  else
    let '((rc, m), b) := msg_parse b in
    (match rc, m with
     | RS_INVALID, _ => FmRefused MSG_CORRUPT
     | RS_PARTIAL, _ => FmWait
     | _, Some (connect_req flags protocol cluster_name name) =>
         match cluster_name with
         | None => FmCrash
         | Some c =>
             if negb (bool_decide (c = cluster)) then FmRefused MSG_CLUSTER_NAME_MISMATCH
             else if full then FmRefused MSG_DISK_FULL
             else
               let type := Z.land flags MSG_CONNECT_TYPE in
               if type =? MSG_CLIENT then FmClient name
               else if type =? MSG_NODE then FmNode name
               else FmRefused MSG_CORRUPT
         end
     | _, _ => FmRefused MSG_UNEXPECTED
     end, b).

(** Which messages are let in, however the frame arrived and whatever follows it: those
    that name the cluster, while the disk is not full; the lowest bit of the flags tells
    nodes from clients.  The name of the protocol is not looked at. *)
Lemma connect_req_seen full cluster b m rest :
  buf_wf b -> msg_ok m -> contents b = enc_msg m ++ rest ->
  exists b', server_on_connect_req RS_OK full cluster b =
    (match m with
     | connect_req flags _ (Some c) name =>
         if negb (bool_decide (c = cluster)) then FmRefused MSG_CLUSTER_NAME_MISMATCH
         else if full then FmRefused MSG_DISK_FULL
         else if Z.odd flags then FmNode name else FmClient name
     | connect_req _ _ None _ => FmCrash
     | _ => FmRefused MSG_UNEXPECTED
     end, b') /\ contents b' = rest.
Proof.
  intros Hwf Hok E. destruct (msg_parse_complete m b rest Hwf Hok E) as (b' & Hp & Hc). exists b'.
  split; [|exact (c_rest _ _ _ _ Hc)]. unfold server_on_connect_req. rewrite Hp. cbn [negb bool_decide decide].
  destruct m as [flags p [c|] n| | | | | | | | | | | | | | | |]; try done.
  assert (Hl : Z.land flags MSG_CONNECT_TYPE = if Z.odd flags then 1 else 0).
  { change MSG_CONNECT_TYPE with (Z.ones 1). rewrite Z.land_ones by lia. apply Zmod_odd. }
  cbn. rewrite Hl. by destruct (Z.odd flags).
Qed.

(** A connection that is still incomplete is kept. *)
Lemma connect_req_waits full cluster b m part rest :
  buf_wf b -> msg_ok m -> enc_msg m = part ++ rest -> rest <> [] -> contents b = part ->
  server_on_connect_req RS_OK full cluster b = (FmWait, b).
Proof.
  intros Hwf Hok E Hr Hc. unfold server_on_connect_req. by rewrite (msg_parse_partial m b part rest).
Qed.

(** A client that sends the length -1 for the name of the cluster ends the server. *)
Lemma null_cluster_name_crashes :
  let frame := [x1f; x00; x00; x00; x00; x00; x00; x00; x00; x05; x00; x00; x00; x72; x65; x73; x71; x6c; x00;
                xff; xff; xff; xff; x03; x00; x00; x00; x61; x62; x63; x00] in
  fst (server_on_connect_req RS_OK false [x63] (sc_buf_wrap frame 31 SC_BUF_READ)) = FmCrash.
Proof. vm_compute. reflexivity. Qed.
