(* ===== verification/Jresql.v ===== *)
(** * The Java client (jresql: RawBuffer, Msg, Client, Result)

    The third client library of the repository.  A method [m] of a class is [rb_m] for
    [RawBuffer], [msg_m] for [Msg], [jr_m] for [Result] and [jc_m] for [Client].  A
    [ByteBuffer] is its memory, position and limit; its order is little endian throughout.

    A computation changes a state and returns a value or throws; the state keeps what was done
    before the exception, as the handlers see it.  The result object of a client reads the
    response buffer of the client, so its methods work on both.

    A string is its UTF-8 bytes.  Decoding bytes that are not UTF-8 replaces them; the decoder
    is a parameter.  Floating point numbers are their bits.  Sockets, the clock and the parser
    of URIs are operations on a state of the environment. *)

From Stdlib Require Import ZArith Lia.
From Stdlib Require Import Strings.Byte.
From stdpp Require Import base list numbers gmap strings.
From S2P Require Import Prelude Str Uri Buf Msg Map Meta Sql Session Exec Wire Resql Client Goresql.

(** ** The language *)

Inductive jexn :=
| JIO                                     (* IOException *)
| JResql                                  (* ResqlException *)
| JFatal                                  (* ResqlFatalException *)
| JSQL (msg : option (list byte))         (* ResqlSQLException *)
| JUnderflow                              (* BufferUnderflowException *)
| JOverflow                               (* BufferOverflowException *)
| JIllegal                                (* IllegalArgumentException *)
| JIndex                                  (* IndexOutOfBoundsException *)
| JNegativeSize                           (* NegativeArraySizeException *)
| JNull                                   (* NullPointerException *)
| JSpins.                                 (* no exception: the loop has not ended yet *)

Definition exnM (S A : Type) : Type := S -> (jexn + A) * S.

#[export] Instance exnM_ret S : MRet (exnM S) := fun A a s => (inr a, s).
#[export] Instance exnM_bind S : MBind (exnM S) := fun A B f m s =>
  match m s with (inr a, s) => f a s | (inl e, s) => (inl e, s) end.

Definition throw {S A} (e : jexn) : exnM S A := fun s => (inl e, s).
Definition jlook {S A} (f : S -> A) : exnM S A := fun s => (inr (f s), s).
Definition jedit {S} (f : S -> S) : exnM S () := fun s => (inr (), f s).

(** [try m catch h]; [h] says which exceptions it handles. *)
Definition catching {S A} (m : exnM S A) (h : jexn -> option (exnM S A)) : exnM S A := fun s =>
  match m s with
  | (inl e, s) => match h e with Some k => k s | None => (inl e, s) end
  | r => r
  end.

(** [try m finally k] *)
Definition finally {S A} (m : exnM S A) (k : exnM S ()) : exnM S A := fun s =>
  let '(r, s) := m s in
  match k s with (inr _, s) => (r, s) | (inl e, s) => (inl e, s) end.

(** The 32 and 64 bits of [int] and [long]; [get] extends the sign of a byte. *)
Definition jint (z : Z) : Z := to_int (u32 z).
Definition jlong (z : Z) : Z := to_int64 (u64 z).
Definition jbyte (v : Z) : Z := if v <? 2 ^ 7 then v else v - 2 ^ 8.

(** ** Buffers *)

Record bytebuffer := mk_bb { j_mem : list byte; j_pos : Z; j_lim : Z }.

Abbreviation j_cap b := (zlen (j_mem b)).

Definition bb_allocate (size : Z) : bytebuffer := mk_bb (zeros size) 0 size.
Definition bb_remaining (b : bytebuffer) : Z := j_lim b - j_pos b.
Definition bb_flip (b : bytebuffer) : bytebuffer := mk_bb (j_mem b) 0 (j_pos b).
Definition bb_clear (b : bytebuffer) : bytebuffer := mk_bb (j_mem b) 0 (j_cap b).
Definition bb_rewind (b : bytebuffer) : bytebuffer := mk_bb (j_mem b) 0 (j_lim b).

Definition bb_put (bs : list byte) : exnM bytebuffer () := fun b =>
  if bb_remaining b <? zlen bs then (inl JOverflow, b)
  else (inr (), mk_bb (mwrite (j_mem b) (j_pos b) bs) (j_pos b + zlen bs) (j_lim b)).

Definition bb_get (n : Z) : exnM bytebuffer (list byte) := fun b =>
  if bb_remaining b <? n then (inl JUnderflow, b)
  else (inr (mread (j_mem b) (j_pos b) n), mk_bb (j_mem b) (j_pos b + n) (j_lim b)).

Definition rb_position (n : Z) : exnM bytebuffer () := fun b =>
  if (n <? 0) || (n >? j_lim b) then (inl JIllegal, b) else (inr (), mk_bb (j_mem b) n (j_lim b)).
Definition rb_limit (n : Z) : exnM bytebuffer () := fun b =>
  if (n <? 0) || (n >? j_cap b) then (inl JIllegal, b) else (inr (), mk_bb (j_mem b) (j_pos b `min` n) n).

Definition rb_reserve (len : Z) : exnM bytebuffer () := fun b =>
  if bb_remaining b <? len then
    let count := j_cap b - bb_remaining b in
    let size := jint (Z.quot (jint (count + len + 1024)) 1024 * 1024) in
    if size <? 0 then (inl JIllegal, b)
    else
      match bb_put (mread (j_mem b) 0 (j_pos b)) (bb_allocate size) with
      | (inr _, b') => (inr (), b')
      | (inl e, _) => (inl e, bb_flip b)
      end
  else (inr (), b).

Definition rb_put (bs : list byte) : exnM bytebuffer () := rb_reserve (zlen bs);; bb_put bs.
Definition rb_putByte (v : Z) : exnM bytebuffer () := rb_put (le_split 1 v).
Definition rb_putBoolean (v : bool) : exnM bytebuffer () := rb_putByte (if v then 1 else 0).
Definition rb_putInt (v : Z) : exnM bytebuffer () := rb_put (le_split 4 v).
Definition rb_putLong (v : Z) : exnM bytebuffer () := rb_put (le_split 8 v).
Definition rb_putDouble (bits : Z) : exnM bytebuffer () := rb_put (le_split 8 bits).

Definition rb_putString (s : option (list byte)) : exnM bytebuffer () :=
  match s with
  | None => rb_putInt (-1)
  | Some s => rb_putInt (zlen s);; (rb_reserve (zlen s + 1);; (bb_put s;; bb_put [x00]))
  end.

Definition rb_putBlob (d : list byte) : exnM bytebuffer () := rb_putInt (zlen d);; rb_put d.

Definition rb_get : exnM bytebuffer Z := bs ← bb_get 1; mret (jbyte (le_combine bs)).
Definition rb_getInt : exnM bytebuffer Z := bs ← bb_get 4; mret (to_int (le_combine bs)).
Definition rb_getLong : exnM bytebuffer Z := bs ← bb_get 8; mret (to_int64 (le_combine bs)).
Definition rb_getDouble : exnM bytebuffer Z := bs ← bb_get 8; mret (le_combine bs).

(** [new String(bytes, UTF_8)] *)
Class Charset := decode_utf8 : list byte -> list byte.

Section strings.
Context `{U : Charset}.

(** The assertion about the last byte is not enabled. *)
Definition rb_getString : exnM bytebuffer (option (list byte)) :=
  len ← rb_getInt;
  if len =? -1 then mret None
  else if len <? 0 then throw JNegativeSize
  else bs ← bb_get len; _ ← bb_get 1; mret (Some (decode_utf8 bs)).

(** The array keeps zeros where the buffer ends before it. *)
Definition rb_getBlob : exnM bytebuffer (list byte) :=
  len ← rb_getInt;
  if len <? 0 then throw JNegativeSize
  else
    left ← jlook bb_remaining;
    bs ← bb_get (len `min` left);
    mret (bs ++ zeros (len - len `min` left)).

(** ** Messages *)

Definition jCONNECT_REQ : Z := 0.
Definition jCONNECT_RESP : Z := 1.
Definition jDISCONNECT_REQ : Z := 2.
Definition jCLIENT_REQ : Z := 4.
Definition jCLIENT_RESP : Z := 5.
Definition CLIENT_REQ_HEADER : Z := 14.

Definition rb_stringLen (s : option (list byte)) : Z :=
  match s with None => 4 | Some s => jint (4 + zlen s + 1) end.

(** What is missing of the message at the start, or 0 and the buffer behind its length. *)
Definition msg_remaining : exnM bytebuffer Z :=
  len ← rb_getInt;
  b ← jlook id;
  if len >? bb_remaining b + j_pos b then rb_position 0;; mret len else mret 0.

Definition msg_encodeConnectReq (clusterName name : option (list byte)) : exnM bytebuffer () :=
  let length := jint (4 + 1 + 4 + rb_stringLen (Some (text "resql")) + rb_stringLen clusterName + rb_stringLen name) in
  rb_putInt length;; (rb_putByte jCONNECT_REQ;; (rb_putInt 0;;
  (rb_putString (Some (text "resql"));; (rb_putString clusterName;; (rb_putString name;; jedit bb_flip))))).

Definition msg_encodeDisconnectReq (rc flags : Z) : exnM bytebuffer () :=
  rb_putInt (4 + 1 + 1 + 4);; (rb_putByte jDISCONNECT_REQ;; (rb_putByte rc;; (rb_putInt flags;; jedit bb_flip))).

Definition msg_reserveClientReqHeader : exnM bytebuffer () := rb_position CLIENT_REQ_HEADER.

Definition msg_encodeClientReq (readonly : bool) (seq : Z) : exnM bytebuffer () :=
  pos ← jlook j_pos;
  rb_position 0;; (rb_putInt pos;; (rb_putByte jCLIENT_REQ;; (rb_putBoolean readonly;; (rb_putLong seq;; rb_position pos)))).

(** ** Results *)

(** [columnMap] and [columnNames] can have null for a name; the null in a row is [VNull]. *)
Record jresult := mk_jresult {
  jr_lastRowId : Z;
  jr_linesChanged : Z;
  jr_next : Z;                             (* nextResultSet *)
  jr_rowCount : Z;
  jr_remainingRows : Z;
  jr_columnCount : Z;
  jr_columnMap : gmap (option (list byte)) Z;
  jr_columnNames : list (option (list byte));
  jr_columnValues : list value
}.

Definition resM (A : Type) : Type := exnM (jresult * bytebuffer) A.
#[local] Instance resM_ret : MRet resM := exnM_ret _.
#[local] Instance resM_bind : MBind resM := exnM_bind _.

Definition on_buf {A} (m : exnM bytebuffer A) : resM A := fun s =>
  let '(r, b) := m s.2 in (r, (s.1, b)).
Definition on_result (f : jresult -> jresult) : resM () := jedit (fun s => (f s.1, s.2)).

Definition jr_reset (r : jresult) : jresult :=
  mk_jresult (jr_lastRowId r) 0 (jr_next r) (-1) (-1) (-1) (jr_columnMap r) (jr_columnNames r) (jr_columnValues r).
Definition jr_set_next (r : jresult) (n : Z) : jresult :=
  mk_jresult (jr_lastRowId r) (jr_linesChanged r) n (jr_rowCount r) (jr_remainingRows r) (jr_columnCount r)
    (jr_columnMap r) (jr_columnNames r) (jr_columnValues r).
Definition jr_set_lines (r : jresult) (n : Z) : jresult :=
  mk_jresult (jr_lastRowId r) n (jr_next r) (jr_rowCount r) (jr_remainingRows r) (jr_columnCount r)
    (jr_columnMap r) (jr_columnNames r) (jr_columnValues r).
Definition jr_set_rowid (r : jresult) (n : Z) : jresult :=
  mk_jresult n (jr_linesChanged r) (jr_next r) (jr_rowCount r) (jr_remainingRows r) (jr_columnCount r)
    (jr_columnMap r) (jr_columnNames r) (jr_columnValues r).
Definition jr_set_columns (r : jresult) (n : Z) : jresult :=
  mk_jresult (jr_lastRowId r) (jr_linesChanged r) (jr_next r) (jr_rowCount r) (jr_remainingRows r) n
    (jr_columnMap r) (jr_columnNames r) (jr_columnValues r).
Definition jr_set_rows (r : jresult) (n left : Z) : jresult :=
  mk_jresult (jr_lastRowId r) (jr_linesChanged r) (jr_next r) n left (jr_columnCount r)
    (jr_columnMap r) (jr_columnNames r) (jr_columnValues r).
Definition jr_add_name (r : jresult) (name : option (list byte)) (i : Z) : jresult :=
  mk_jresult (jr_lastRowId r) (jr_linesChanged r) (jr_next r) (jr_rowCount r) (jr_remainingRows r) (jr_columnCount r)
    (<[name := i]> (jr_columnMap r)) (jr_columnNames r ++ [name]) (jr_columnValues r).
Definition jr_set_values (r : jresult) (vs : list value) : jresult :=
  mk_jresult (jr_lastRowId r) (jr_linesChanged r) (jr_next r) (jr_rowCount r) (jr_remainingRows r) (jr_columnCount r)
    (jr_columnMap r) (jr_columnNames r) vs.

(** The names of the columns. *)
Fixpoint jr_read_names (n : nat) (i : Z) : resM () :=
  match n with
  | O => mret ()
  | S n =>
      name ← on_buf rb_getString;
      on_result (fun r => jr_add_name r name i);;
      jr_read_names n (i + 1)
  end.

(** [nextResultSet] behind the call of [position]. *)
Definition jr_read_result : resM bool :=
  flag ← on_buf rb_get;
  if negb (flag =? MSG_FLAG_OP) then mret false
  else
    pos ← on_buf (jlook j_pos);
    len ← on_buf rb_getInt;
    on_result (fun r => jr_set_next r (jint (pos + len)));;
    lines ← on_buf rb_getInt;
    on_result (fun r => jr_set_lines r lines);;
    rowid ← on_buf rb_getLong;
    on_result (fun r => jr_set_rowid r rowid);;
    flag ← on_buf rb_get;
    if flag =? MSG_FLAG_ROW then
      columns ← on_buf rb_getInt;
      on_result (fun r => jr_set_columns r columns);;
      jr_read_names (Z.to_nat columns) 0;;
      rows ← on_buf rb_getInt;
      on_result (fun r => jr_set_rows r rows rows);;
      mret true
    else if negb (flag =? MSG_FLAG_OP_END) then throw JResql
    else mret true.

Definition jr_nextResultSet : resM bool :=
  on_result jr_reset;;
  next ← jlook (fun s => jr_next s.1);
  on_buf (rb_position next);;
  jr_read_result.

Definition jr_setBuf : resM () :=
  pos ← on_buf (jlook j_pos);
  on_result (fun r => mk_jresult (jr_lastRowId r) (jr_linesChanged r) pos (jr_rowCount r) (jr_remainingRows r)
    (jr_columnCount r) ∅ [] []);;
  _ ← jr_nextResultSet;
  mret ().

Definition jr_read_value : exnM bytebuffer value :=
  param ← rb_get;
  if param =? MSG_PARAM_INTEGER then v ← rb_getLong; mret (VInteger v)
  else if param =? MSG_PARAM_FLOAT then v ← rb_getDouble; mret (VFloat v)
  else if param =? MSG_PARAM_TEXT then s ← rb_getString; mret (match s with Some s => VText s | None => VNull end)
  else if param =? MSG_PARAM_BLOB then d ← rb_getBlob; mret (VBlob d)
  else if param =? MSG_PARAM_NULL then mret VNull
  else throw (JSQL (Some (text "Unexpected column type"))).

Fixpoint jr_read_values (n : nat) : resM () :=
  match n with
  | O => mret ()
  | S n =>
      v ← on_buf jr_read_value;
      on_result (fun r => jr_set_values r (jr_columnValues r ++ [v]));;
      jr_read_values n
  end.

(** [next]; [false] is the result null. *)
Definition jr_next_row : resM bool :=
  left ← jlook (fun s => jr_remainingRows s.1);
  on_result (fun r => jr_set_rows r (jr_rowCount r) (jint (left - 1)));;
  if left <=? 0 then mret false
  else
    on_result (fun r => jr_set_values r []);;
    n ← jlook (fun s => jr_columnCount s.1);
    jr_read_values (Z.to_nat n);;
    mret true.

Definition jr_hasNext (r : jresult) : bool := jr_remainingRows r >? 0.

(** [ResultRow] *)
Definition row_columnCount (r : jresult) : Z := Z.of_nat (size (jr_columnMap r)).
Definition row_get_name (r : jresult) (name : option (list byte)) : jexn + value :=
  match jr_columnMap r !! name with
  | None => inl (JSQL (Some (text "Column does not exists")))
  | Some i => match jr_columnValues r !! Z.to_nat i with Some v => inr v | None => inl JIndex end
  end.
Definition row_get (r : jresult) (index : Z) : jexn + value :=
  if index <? 0 then inl (JSQL None)
  else match jr_columnValues r !! Z.to_nat index with Some v => inr v | None => inl (JSQL None) end.
Definition row_getColumnName (r : jresult) (index : Z) : jexn + option (list byte) :=
  if index <? 0 then inl (JSQL None)
  else match jr_columnNames r !! Z.to_nat index with Some s => inr s | None => inl (JSQL None) end.
End strings.

(** ** The environment *)

(** [connect] of a channel: it is blocking, so [CoPending] does not happen; an address that was
    not resolved is an unchecked exception. *)
Inductive connecting := CoDone | CoPending | CoFailed | CoUnresolved.

(** [read]: bytes, the end of the stream, or an exception. *)
Inductive reading := RdBytes (bs : list byte) | RdEnd | RdFailed.

(** Times are in milliseconds; [false] and [None] are an [IOException]. *)
Record jnet := {
  jn_state : Type;
  clock : jn_state -> Z * jn_state;
  sock_open : jn_state -> bool * jn_state;
  sock_options : jn_state -> bool * jn_state;
  sock_bind : list byte -> Z -> jn_state -> bool * jn_state;
  sock_connect : list byte -> jn_state -> connecting * jn_state;
  sock_write : list byte -> jn_state -> option Z * jn_state;
  sock_read : Z -> jn_state -> reading * jn_state;
  sock_close : jn_state -> bool * jn_state;
  uri_ok : list byte -> bool                (* new URI(s) does not throw *)
}.

(** ** The client *)

Record jclient := mk_jclient {
  jc_clientName : list byte;
  jc_clusterName : list byte;
  jc_timeout : Z;
  jc_outgoing : option (list byte * Z);
  jc_lastConnectRc : Z;
  jc_seq : Z;
  jc_connected : bool;
  jc_hasStatement : bool;
  jc_sock : bool;                           (* sock is not null *)
  jc_urlIndex : Z;
  jc_urlsTerm : Z;
  jc_urls : list (list byte);
  jc_result : jresult;
  jc_resp : bytebuffer;
  jc_req : bytebuffer
}.

Definition jset_rc (c : jclient) (rc : Z) : jclient :=
  mk_jclient (jc_clientName c) (jc_clusterName c) (jc_timeout c) (jc_outgoing c) rc (jc_seq c) (jc_connected c)
    (jc_hasStatement c) (jc_sock c) (jc_urlIndex c) (jc_urlsTerm c) (jc_urls c) (jc_result c) (jc_resp c) (jc_req c).
Definition jset_seq (c : jclient) (seq : Z) : jclient :=
  mk_jclient (jc_clientName c) (jc_clusterName c) (jc_timeout c) (jc_outgoing c) (jc_lastConnectRc c) seq (jc_connected c)
    (jc_hasStatement c) (jc_sock c) (jc_urlIndex c) (jc_urlsTerm c) (jc_urls c) (jc_result c) (jc_resp c) (jc_req c).
Definition jset_connected (c : jclient) (x : bool) : jclient :=
  mk_jclient (jc_clientName c) (jc_clusterName c) (jc_timeout c) (jc_outgoing c) (jc_lastConnectRc c) (jc_seq c) x
    (jc_hasStatement c) (jc_sock c) (jc_urlIndex c) (jc_urlsTerm c) (jc_urls c) (jc_result c) (jc_resp c) (jc_req c).
Definition jset_has (c : jclient) (x : bool) : jclient :=
  mk_jclient (jc_clientName c) (jc_clusterName c) (jc_timeout c) (jc_outgoing c) (jc_lastConnectRc c) (jc_seq c) (jc_connected c)
    x (jc_sock c) (jc_urlIndex c) (jc_urlsTerm c) (jc_urls c) (jc_result c) (jc_resp c) (jc_req c).
Definition jset_sock (c : jclient) (x : bool) : jclient :=
  mk_jclient (jc_clientName c) (jc_clusterName c) (jc_timeout c) (jc_outgoing c) (jc_lastConnectRc c) (jc_seq c) (jc_connected c)
    (jc_hasStatement c) x (jc_urlIndex c) (jc_urlsTerm c) (jc_urls c) (jc_result c) (jc_resp c) (jc_req c).
Definition jset_urls (c : jclient) (index term : Z) (urls : list (list byte)) : jclient :=
  mk_jclient (jc_clientName c) (jc_clusterName c) (jc_timeout c) (jc_outgoing c) (jc_lastConnectRc c) (jc_seq c) (jc_connected c)
    (jc_hasStatement c) (jc_sock c) index term urls (jc_result c) (jc_resp c) (jc_req c).
Definition jset_result (c : jclient) (r : jresult) : jclient :=
  mk_jclient (jc_clientName c) (jc_clusterName c) (jc_timeout c) (jc_outgoing c) (jc_lastConnectRc c) (jc_seq c) (jc_connected c)
    (jc_hasStatement c) (jc_sock c) (jc_urlIndex c) (jc_urlsTerm c) (jc_urls c) r (jc_resp c) (jc_req c).
Definition jset_resp (c : jclient) (b : bytebuffer) : jclient :=
  mk_jclient (jc_clientName c) (jc_clusterName c) (jc_timeout c) (jc_outgoing c) (jc_lastConnectRc c) (jc_seq c) (jc_connected c)
    (jc_hasStatement c) (jc_sock c) (jc_urlIndex c) (jc_urlsTerm c) (jc_urls c) (jc_result c) b (jc_req c).
Definition jset_req (c : jclient) (b : bytebuffer) : jclient :=
  mk_jclient (jc_clientName c) (jc_clusterName c) (jc_timeout c) (jc_outgoing c) (jc_lastConnectRc c) (jc_seq c) (jc_connected c)
    (jc_hasStatement c) (jc_sock c) (jc_urlIndex c) (jc_urlsTerm c) (jc_urls c) (jc_result c) (jc_resp c) b.

(** [split] of a string with one space as the expression: the empty pieces at the end are
    dropped, unless there is no space at all. *)
Fixpoint strip_empty (ts : list (list byte)) : list (list byte) :=
  match ts with
  | [] => []
  | t :: ts => match strip_empty ts with [] => if bool_decide (t = []) then [] else [t] | ts => t :: ts end
  end.
Definition java_split (s : list byte) : list (list byte) :=
  if bool_decide (x20 ∈ s) then strip_empty (split_on [x20] s) else [s].

Section java.
Context `{U : Charset}.
Variable E : jnet.

Definition jcM (A : Type) : Type := exnM (jclient * jn_state E) A.
#[local] Instance jcM_ret : MRet jcM := exnM_ret _.
#[local] Instance jcM_bind : MBind jcM := exnM_bind _.

Definition jsee {A} (f : jclient -> A) : jcM A := jlook (fun s => f s.1).
Definition jmod (f : jclient -> jclient) : jcM () := jedit (fun s => (f s.1, s.2)).
Definition jdo {A} (f : jn_state E -> A * jn_state E) : jcM A := fun s =>
  let '(a, n) := f s.2 in (inr a, (s.1, n)).
Definition jio (f : jn_state E -> bool * jn_state E) : jcM () :=
  ok ← jdo f; if (ok : bool) then mret () else throw JIO.
Definition jreq {A} (m : exnM bytebuffer A) : jcM A := fun s =>
  let '(r, b) := m (jc_req s.1) in (r, (jset_req s.1 b, s.2)).
Definition jresp {A} (m : exnM bytebuffer A) : jcM A := fun s =>
  let '(r, b) := m (jc_resp s.1) in (r, (jset_resp s.1 b, s.2)).
Definition jres {A} (m : resM A) : jcM A := fun s =>
  let '(r, (res, b)) := m (jc_result s.1, jc_resp s.1) in (r, (jset_resp (jset_result s.1 res) b, s.2)).

(** [sock.write(buf)]: the position advances by what was written. *)
Definition write_buf (get : jclient -> bytebuffer) (at_ : exnM bytebuffer () -> jcM ()) : jcM Z :=
  b ← jsee get;
  r ← jdo (sock_write E (mread (j_mem b) (j_pos b) (bb_remaining b)));
  match r with
  | None => throw JIO
  | Some k => at_ (jedit (fun b => mk_bb (j_mem b) (j_pos b + k) (j_lim b)));; mret k
  end.

(** [sock.read(resp)] reads at most the remaining bytes. *)
Definition read_resp : jcM Z :=
  b ← jsee jc_resp;
  r ← jdo (sock_read E (bb_remaining b));
  match r with
  | RdFailed => throw JIO
  | RdEnd => mret (-1)
  | RdBytes bs =>
      let bs := take (Z.to_nat (bb_remaining b)) bs in
      jresp (bb_put bs);; mret (zlen bs)
  end.

Definition jc_clear : jcM () :=
  jreq (jedit bb_clear);; (jreq msg_reserveClientReqHeader;; jmod (fun c => jset_has c false)).

Definition jc_disconnect : jcM () :=
  open ← jsee jc_sock;
  (if (open : bool) then
     ok ← jdo (sock_close E);
     if (ok : bool) then jmod (fun c => jset_sock c false) else mret ()
   else mret ());;
  jmod (fun c => jset_connected c false).

(** *** Connecting *)

(** The first part of [connect], up to an answer; [false] is a return. *)
Definition connect_sock (uri : list byte) : jcM bool :=
  catching
    (outgoing ← jsee jc_outgoing;
     match outgoing with Some (addr, port) => jio (sock_bind E addr port) | None => mret () end;;
     r ← jdo (sock_connect E uri);
     match r with
     | CoFailed => throw JIO
     | CoUnresolved => throw JIllegal
     | CoPending => mret false
     | CoDone =>
         jresp (jedit bb_clear);;
         c ← jsee id;
         jresp (msg_encodeConnectReq (Some (jc_clusterName c)) (Some (jc_clientName c)));;
         _ ← write_buf jc_resp jresp;
         left ← jsee (fun c => bb_remaining (jc_resp c));
         if negb (left =? 0) then mret false
         else
           jresp (jedit bb_clear);;
           k ← read_resp;
           mret (negb (k <=? 0))
     end)
    (fun e => match e with JIO => Some (jc_disconnect;; throw JResql) | _ => None end).

Definition connect_nodes (term : Z) (nodes : option (list byte)) : jcM () :=
  mine ← jsee jc_urlsTerm;
  if term >? mine then
    match nodes with
    | None => throw JNull
    | Some s =>
        let latest := base.filter (fun s => uri_ok E s = true) (java_split s) in
        if bool_decide (latest = []) then mret () else jmod (fun c => jset_urls c 0 term latest)
    end
  else mret ().

(** The end of [connect]: whether the session is the one the request belongs to. *)
Definition connect_session (seq : Z) : jcM () :=
  waiting ← jsee (fun c => bb_remaining (jc_req c) >? 0);
  (if negb waiting then jmod (fun c => jset_seq c seq)
   else
     mine ← jsee jc_seq;
     if negb (seq =? mine) && negb (seq =? jlong (mine - 1)) then
       jmod (fun c => jset_seq c seq);; throw JFatal
     else mret ());;
  jmod (fun c => jset_connected c true).

Definition jc_connect : jcM () :=
  c ← jsee id;
  match jc_urls c !! Z.to_nat (jc_urlIndex c) with
  | None => throw JIndex
  | Some uri =>
      jmod (fun c => jset_urls c ((jc_urlIndex c + 1) mod zlen (jc_urls c)) (jc_urlsTerm c) (jc_urls c));;
      jc_disconnect;;
      catching (jio (sock_open E);; (jmod (fun c => jset_sock c true);; jio (sock_options E)))
        (fun e => match e with JIO => Some (jc_disconnect;; throw JFatal) | _ => None end);;
      answered ← connect_sock uri;
      if negb answered then mret ()
      else
        jresp (jedit bb_flip);;
        len ← jresp rb_getInt;
        limit ← jsee (fun c => j_lim (jc_resp c));
        if negb (len =? limit) then mret ()
        else
          type ← jresp rb_get;
          if negb (type =? jCONNECT_RESP) then mret ()
          else
            rc ← jresp rb_get;
            seq ← jresp rb_getLong;
            term ← jresp rb_getLong;
            nodes ← jresp rb_getString;
            connect_nodes term nodes;;
            jmod (fun c => jset_rc c rc);;
            if rc =? MSG_CLUSTER_NAME_MISMATCH then throw JFatal
            else if negb (rc =? MSG_OK) then mret ()
            else connect_session seq
  end.

(** *** Sending *)

(** The inner loop of [sendRequest]; [true]: the response is complete and the function
    returns. *)
Fixpoint java_read_loop (fuel : nat) (ts : Z) : jcM bool :=
  match fuel with
  | O => throw JSpins
  | S fuel =>
      t ← jdo (clock E);
      timeout ← jsee jc_timeout;
      if negb (timeout >? jlong (t - ts)) then mret false
      else
        more ← catching
          (k ← read_resp;
           if k <=? 0 then jmod (fun c => jset_connected c false);; (jresp (jedit bb_clear);; mret false)
           else mret true)
          (fun e => match e with JIO => Some (jmod (fun c => jset_connected c false);; mret false) | _ => None end);
        if negb more then mret false
        else
          jresp (jedit bb_flip);;
          remaining ← jresp msg_remaining;
          if remaining =? 0 then mret true
          else
            cap ← jsee (fun c => j_cap (jc_resp c));
            limit ← jsee (fun c => j_lim (jc_resp c));
            jresp (rb_limit cap);;
            jresp (rb_position limit);;
            (if remaining >? cap then jresp (pos ← jlook j_pos; rb_reserve (remaining - pos)) else mret ());;
            java_read_loop fuel ts
  end.

(** One connection, opened if there is none, and the write; [true]: all was written. *)
Definition java_send_once : jcM bool :=
  catching
    (connected ← jsee jc_connected; if (connected : bool) then mret () else jc_connect)
    (fun e =>
       match e with
       | JFatal => Some (jc_clear;; throw JResql)
       | JResql | JSQL _ => Some (mret ())
       | _ => None
       end);;
  connected ← jsee jc_connected;
  if negb connected then mret false
  else
    catching
      (k ← write_buf jc_req jreq;
       left ← jsee (fun c => bb_remaining (jc_req c));
       if (k =? 0) || negb (left =? 0) then mret false
       else jreq (jedit bb_rewind);; mret true)
      (fun e => match e with JIO => Some (jc_disconnect;; mret false) | _ => None end).

Fixpoint java_send_loop (rfuel fuel : nat) (ts : Z) : jcM () :=
  match fuel with
  | O => throw JSpins
  | S fuel =>
      t ← jdo (clock E);
      timeout ← jsee jc_timeout;
      if negb (timeout >? jlong (t - ts)) then throw JResql
      else
        sent ← java_send_once;
        if negb sent then java_send_loop rfuel fuel ts
        else
          done ← java_read_loop rfuel ts;
          if (done : bool) then mret () else java_send_loop rfuel fuel ts
  end.

Definition jc_sendRequest (rfuel fuel : nat) : jcM () :=
  ts ← jdo (clock E);
  jreq (jedit bb_flip);;
  jresp (jedit bb_clear);;
  java_send_loop rfuel fuel ts.

(** *** Batches *)

(** The classes that [bind] looks for. *)
Inductive jobject :=
| JoNull | JoInteger (v : Z) | JoLong (v : Z) | JoDouble (bits : Z) | JoString (s : list byte) | JoBytes (d : list byte)
| JoOther.

Definition jc_end_statement : jcM () :=
  has ← jsee jc_hasStatement;
  if (has : bool) then jreq (rb_putByte MSG_BIND_END);; jreq (rb_putByte MSG_FLAG_OP_END) else mret ().

Definition jc_put (statement : option (list byte)) : jcM () :=
  jc_end_statement;; (jmod (fun c => jset_has c true);;
  (jreq (rb_putByte MSG_FLAG_OP);; (jreq (rb_putByte MSG_FLAG_STMT);; jreq (rb_putString statement)))).

Definition jc_put_prepared (id : Z) : jcM () :=
  jc_end_statement;; (jmod (fun c => jset_has c true);;
  (jreq (rb_putByte MSG_FLAG_OP);; (jreq (rb_putByte MSG_FLAG_STMT_ID);; jreq (rb_putLong id)))).

Definition jc_bind_value (v : jobject) : exnM bytebuffer () :=
  match v with
  | JoNull => rb_putByte MSG_PARAM_NULL
  | JoInteger v | JoLong v => rb_putByte MSG_PARAM_INTEGER;; rb_putLong v
  | JoDouble bits => rb_putByte MSG_PARAM_FLOAT;; rb_putDouble bits
  | JoString s => rb_putByte MSG_PARAM_TEXT;; rb_putString (Some s)
  | JoBytes d => rb_putByte MSG_PARAM_BLOB;; rb_putBlob d
  | JoOther => mret ()
  end.

Definition jc_bind_index (index : Z) (v : jobject) : jcM () :=
  has ← jsee jc_hasStatement;
  if negb has then throw (JSQL (Some (text "Put statement first.")))
  else jreq (rb_putByte MSG_BIND_INDEX);; (jreq (rb_putInt index);; jreq (jc_bind_value v)).

Definition jc_bind_name (param : option (list byte)) (v : jobject) : jcM () :=
  has ← jsee jc_hasStatement;
  if negb has then throw (JSQL (Some (text "Put statement first.")))
  else jreq (rb_putByte MSG_BIND_NAME);; (jreq (rb_putString param);; jreq (jc_bind_value v)).

(** *** Executing *)

(** The first two bytes of the answer. *)
Definition jc_answer : jcM () :=
  type ← jresp rb_get;
  if negb (type =? jCLIENT_RESP) then throw JResql
  else
    flag ← jresp rb_get;
    if flag =? MSG_FLAG_ERROR then err ← jresp rb_getString; throw (JSQL err) else mret ().

(** The header, the exchange, and the answer. *)
Definition jc_exchange (rfuel fuel : nat) (readonly : bool) : jcM () :=
  (if negb readonly then jmod (fun c => jset_seq c (jlong (jc_seq c + 1))) else mret ());;
  seq ← jsee jc_seq;
  jreq (msg_encodeClientReq readonly seq);;
  jc_sendRequest rfuel fuel;;
  jc_clear;;
  jc_answer.

Definition jc_execute (rfuel fuel : nat) (readonly : bool) : jcM () :=
  has ← jsee jc_hasStatement;
  if negb has then throw (JSQL (Some (text "Put a statement first.")))
  else
    jreq (rb_putByte MSG_BIND_END);; (jreq (rb_putByte MSG_FLAG_OP_END);; (jreq (rb_putByte MSG_FLAG_MSG_END);;
    (jmod (fun c => jset_has c false);; (jc_exchange rfuel fuel readonly;; jres jr_setBuf)))).

(** An operation that is alone in its request, up to the size of its result. *)
Definition jc_single (rfuel fuel : nat) (m : exnM bytebuffer ()) : jcM () :=
  jreq (rb_putByte MSG_FLAG_OP);; (jreq m;; (jreq (rb_putByte MSG_FLAG_OP_END);; (jreq (rb_putByte MSG_FLAG_MSG_END);;
  (jc_exchange rfuel fuel false;;
  (flag ← jresp rb_get;
   if negb (flag =? MSG_FLAG_OP) then throw JResql
   else _ ← jresp rb_getInt; mret ()))))).

(** The conditions are joined by [&&]. *)
Definition jc_single_end : jcM () :=
  flag ← jresp rb_get;
  if negb (flag =? MSG_FLAG_OP_END) then
    flag ← jresp rb_get;
    if negb (flag =? MSG_FLAG_MSG_END) then throw JResql else mret ()
  else mret ().

Definition jc_prepare (rfuel fuel : nat) (sql : option (list byte)) : jcM Z :=
  has ← jsee jc_hasStatement;
  match sql with
  | None => throw (JSQL (Some (text "Prepare sql cannot be null.")))
  | Some _ =>
      if (has : bool) then throw (JSQL (Some (text "Statement prepare must be a single operation.")))
      else
        jc_single rfuel fuel (rb_putByte MSG_FLAG_STMT_PREPARE;; rb_putString sql);;
        id ← jresp rb_getLong;
        jc_single_end;;
        mret id
  end.

Definition jc_delete (rfuel fuel : nat) (id : Z) : jcM () :=
  has ← jsee jc_hasStatement;
  if (has : bool) then throw (JSQL (Some (text "Delete must be a single operation")))
  else
    jc_single rfuel fuel (rb_putByte MSG_FLAG_STMT_DEL_PREPARED;; rb_putLong id);;
    jc_single_end.

(** *** Creation and shutdown *)

Definition jc_shutdown : jcM () :=
  jresp (jedit bb_clear);;
  connected ← jsee jc_connected;
  if negb connected then mret ()
  else
    jresp (msg_encodeDisconnectReq 0 0);;
    finally
      (catching (_ ← write_buf jc_resp jresp; mret ()) (fun e => match e with JIO => Some (throw JResql) | _ => None end))
      jc_disconnect.

Record jconfig := mk_jconfig {
  cf_clientName : option (list byte);
  cf_clusterName : option (list byte);
  cf_outgoing : option (list byte * Z);
  cf_timeoutMillis : Z;
  cf_urls : option (list (list byte))
}.

Definition new_jresult : jresult := mk_jresult 0 0 0 0 0 0 ∅ [] [].

(** The fields before the loop of the constructor; [random] is the name of a random UUID. *)
Definition new_jclient (cf : jconfig) (cluster random : list byte) (urls : list (list byte)) : jclient :=
  mk_jclient (default random (cf_clientName cf)) cluster (cf_timeoutMillis cf) (cf_outgoing cf) 0 0 false false false 0 0 urls
    new_jresult (bb_allocate 32768) (bb_flip (bb_allocate 32768)).

Fixpoint jcreate_loop (fuel : nat) (ts : Z) : jcM () :=
  match fuel with
  | O => throw JSpins
  | S fuel =>
      connected ← jsee jc_connected;
      if (connected : bool) then mret ()
      else
        t ← jdo (clock E);
        timeout ← jsee jc_timeout;
        if negb (timeout >? jlong (t - ts)) then mret ()
        else
          catching jc_connect
            (fun e =>
               match e with
               | JFatal => Some (jc_clear;; throw JResql)
               | JResql | JSQL _ => Some (mret ())
               | _ => None
               end);;
          jcreate_loop fuel ts
  end.

(** The constructor; [inl]: it throws. *)
Definition jc_create (fuel : nat) (cf : jconfig) (random : list byte) (n : jn_state E) : jexn + (jclient * jn_state E) :=
  match cf_clusterName cf, cf_urls cf with
  | Some cluster, Some (u :: us) =>
      if cf_timeoutMillis cf <? 2000 then inl JResql
      else if forallb (uri_ok E) (u :: us) then
        match (ts ← jdo (clock E);
               jcreate_loop fuel ts;;
               connected ← jsee jc_connected;
               if negb connected then throw JResql else jc_clear) (new_jclient cf cluster random (u :: us), n) with
        | (inr _, s) => inr s
        | (inl e, _) => inl e
        end
      else inl JResql
  | _, _ => inl JResql
  end.
End java.

(** ** Reading from a buffer *)

Record jwf (b : bytebuffer) : Prop := { jw_pos : 0 <= j_pos b <= j_lim b; jw_lim : j_lim b <= j_cap b }.

(** The bytes between position and limit. *)
Definition junread (b : bytebuffer) : list byte := mread (j_mem b) (j_pos b) (bb_remaining b).
Definition jat (b : bytebuffer) (p : Z) : bytebuffer := mk_bb (j_mem b) p (j_lim b).

Lemma zlen_junread b : jwf b -> zlen (junread b) = bb_remaining b.
Proof. intros [? ?]. unfold junread, bb_remaining. apply zlen_mread; lia. Qed.

Lemma junread_prefix b bs rest :
  jwf b -> junread b = bs ++ rest -> mread (j_mem b) (j_pos b) (zlen bs) = bs /\ zlen bs <= bb_remaining b.
Proof.
  intros Hwf E. pose proof (zlen_junread b Hwf) as Hl. rewrite E, zlen_app in Hl. pose proof (zlen_nonneg rest).
  pose proof (zlen_nonneg bs). split; [|lia].
  apply (f_equal (take (length bs))) in E. rewrite take_app_length in E. unfold junread, mread in E.
  rewrite take_take in E. etrans; [|exact E]. unfold mread. f_equal. unfold zlen in *. lia.
Qed.

Lemma junread_skip b bs rest :
  jwf b -> junread b = bs ++ rest -> jwf (jat b (j_pos b + zlen bs)) /\ junread (jat b (j_pos b + zlen bs)) = rest.
Proof.
  intros Hwf E. destruct (junread_prefix b bs rest Hwf E) as [_ Hl]. pose proof Hwf as [? ?]. pose proof (zlen_nonneg bs).
  unfold bb_remaining in Hl. split; [split; cbn; lia|].
  apply (f_equal (drop (length bs))) in E. rewrite drop_app_length in E. rewrite <- E. unfold junread, mread, bb_remaining. cbn.
  rewrite skipn_firstn_comm, drop_drop. unfold zlen in *. f_equal; [lia|]. f_equal. lia.
Qed.

(** A reader of [bs] that returns [a]. *)
Definition jtakes {A} (m : exnM bytebuffer A) (bs : list byte) (a : A) : Prop :=
  forall b rest, jwf b -> junread b = bs ++ rest -> m b = (inr a, jat b (j_pos b + zlen bs)).

Lemma jtakes_bind {A B} (m : exnM bytebuffer A) (f : A -> exnM bytebuffer B) xs ys a c :
  jtakes m xs a -> jtakes (f a) ys c -> jtakes (m ≫= f) (xs ++ ys) c.
Proof.
  intros Hm Hf b rest Hwf E. rewrite <- app_assoc in E. unfold mbind, exnM_bind. rewrite (Hm b _ Hwf E).
  destruct (junread_skip _ _ _ Hwf E) as [Hwf' E']. rewrite (Hf _ _ Hwf' E'). rewrite zlen_app. cbn. by rewrite Z.add_assoc.
Qed.

Lemma jtakes_ret {A} (a : A) : jtakes (mret a) [] a.
Proof. intros b rest Hwf E. unfold mret, exnM_ret. change (zlen []) with 0. rewrite Z.add_0_r. by destruct b. Qed.

Lemma jtakes_map {A B} (m : exnM bytebuffer A) (f : A -> B) bs a : jtakes m bs a -> jtakes (x ← m; mret (f x)) bs (f a).
Proof. intros H. rewrite <- (app_nil_r bs). eapply jtakes_bind; [exact H|apply jtakes_ret]. Qed.

Lemma jtakes_bytes bs n : zlen bs = n -> jtakes (bb_get n) bs bs.
Proof.
  intros <- b rest Hwf E. destruct (junread_prefix b _ _ Hwf E) as [Hm Hl]. unfold bb_get.
  rewrite (proj2 (Z.ltb_ge _ _)) by lia. by rewrite Hm.
Qed.

Lemma jtakes_num (f : Z -> Z) n v w :
  f (v mod 2 ^ (8 * Z.of_nat n)) = w -> jtakes (bs ← bb_get (Z.of_nat n); mret (f (le_combine bs))) (le_split n v) w.
Proof.
  intros <-. pose proof (jtakes_map (bb_get (Z.of_nat n)) (fun bs => f (le_combine bs)) (le_split n v) (le_split n v)) as H.
  cbv beta in H. rewrite le_combine_split in H. apply H, jtakes_bytes. by rewrite zlen_le_split.
Qed.

Lemma jtakes_flag f : 0 <= f < 2 ^ 7 -> jtakes rb_get (enc_flag f) f.
Proof.
  intros Hf. apply (jtakes_num jbyte 1). rewrite Z.mod_small by (simpl; lia). unfold jbyte. by rewrite (proj2 (Z.ltb_lt _ _)) by lia.
Qed.

Lemma jint_id v : - 2 ^ 31 <= v < 2 ^ 31 -> jint v = v.
Proof. apply to_int_mod. Qed.

Lemma jtakes_int v : - 2 ^ 31 <= v < 2 ^ 31 -> jtakes rb_getInt (le_split 4 v) v.
Proof. intros Hv. apply (jtakes_num to_int 4). by apply to_int_mod. Qed.

Lemma jtakes_long v : - 2 ^ 63 <= v < 2 ^ 63 -> jtakes rb_getLong (le_split 8 v) v.
Proof. intros Hv. apply (jtakes_num to_int64 8). by apply to_int64_mod. Qed.

Section reading.
Context `{U : Charset}.

(** Text that the decoder leaves as it is. *)
Definition utf8 (s : list byte) : Prop := decode_utf8 s = s.

Lemma jtakes_string s : utf8 s -> zlen s < 2 ^ 31 -> jtakes rb_getString (enc_str (Some s)) (Some s).
Proof.
  intros Hu Hs. pose proof (zlen_nonneg s). cbn [enc_str]. unfold rb_getString. eapply jtakes_bind; [apply jtakes_int; lia|].
  rewrite (proj2 (Z.eqb_neq _ _)), (proj2 (Z.ltb_ge _ _)) by lia. eapply jtakes_bind; [by apply jtakes_bytes|].
  rewrite <- (app_nil_r [x00]). eapply jtakes_bind; [by apply (jtakes_bytes [x00])|]. rewrite Hu. apply jtakes_ret.
Qed.

Lemma jtakes_blob d : zlen d < 2 ^ 31 -> jtakes rb_getBlob (le_split 4 (zlen d) ++ d) d.
Proof.
  intros Hd. pose proof (zlen_nonneg d). unfold rb_getBlob. eapply jtakes_bind; [apply jtakes_int; lia|].
  rewrite (proj2 (Z.ltb_ge _ _)) by lia. intros b rest Hwf E. destruct (junread_prefix b d rest Hwf E) as [_ Hl].
  unfold mbind at 1, exnM_bind at 1, jlook. rewrite Z.min_l by lia. rewrite Z.sub_diag. change (zeros 0) with (@nil byte).
  rewrite (jtakes_map (bb_get (zlen d)) (fun bs => bs ++ []) d d (jtakes_bytes d _ eq_refl) b rest Hwf E).
  by rewrite app_nil_r.
Qed.

(** *** Values *)

Definition jtext_ok (v : value) : Prop := match v with VText s => utf8 s /\ zlen s < 2 ^ 31 | _ => True end.

Lemma jtakes_value v : value_ok v -> jtext_ok v -> jtakes jr_read_value (enc_value v) v.
Proof.
  intros Hv Ht. unfold jr_read_value.
  assert (H : forall f ys r (g : Z -> exnM bytebuffer value), 0 <= f < 2 ^ 7 -> jtakes (g f) ys r ->
    jtakes (param ← rb_get; g param) (enc_flag f ++ ys) r).
  { intros f ys r g Hf Hg. eapply jtakes_bind; [by apply jtakes_flag|exact Hg]. }
  destruct v as [v|bits|s|d|]; cbn [enc_value value_ok jtext_ok] in *;
    unfold MSG_PARAM_INTEGER, MSG_PARAM_FLOAT, MSG_PARAM_TEXT, MSG_PARAM_BLOB, MSG_PARAM_NULL.
  - apply H; [done|]. zif. by apply (jtakes_map rb_getLong VInteger), jtakes_long.
  - apply H; [done|]. zif. apply (jtakes_map rb_getDouble VFloat), (jtakes_num id 8). by apply Z.mod_small.
  - apply H; [done|]. zif. destruct Ht. rewrite <- (app_nil_r (enc_str _)).
    eapply jtakes_bind; [by apply jtakes_string|apply jtakes_ret].
  - apply H; [done|]. zif. by apply (jtakes_map rb_getBlob VBlob), jtakes_blob.
  - rewrite <- (app_nil_r (enc_flag _)). apply H; [done|]. zif. apply jtakes_ret.
Qed.

(** *** Results *)

#[local] Existing Instances resM_ret resM_bind.

(** A reader at the position [p] that changes the result from [r] to [r']. *)
Definition rtakes {A} (m : resM A) (r : jresult) (p : Z) (bs : list byte) (a : A) (r' : jresult) : Prop :=
  forall b rest, jwf b -> j_pos b = p -> junread b = bs ++ rest -> m (r, b) = (inr a, (r', jat b (p + zlen bs))).

Lemma rtakes_bind {A B} (m : resM A) (f : A -> resM B) r p xs a r1 ys c r2 :
  rtakes m r p xs a r1 -> rtakes (f a) r1 (p + zlen xs) ys c r2 -> rtakes (m ≫= f) r p (xs ++ ys) c r2.
Proof.
  intros Hm Hf b rest Hwf Hp E. rewrite <- app_assoc in E. unfold mbind, resM_bind, exnM_bind. rewrite (Hm b _ Hwf Hp E).
  subst p. destruct (junread_skip _ _ _ Hwf E) as [Hwf' E']. rewrite (Hf _ _ Hwf' eq_refl E'). rewrite zlen_app.
  unfold jat. cbn. by rewrite Z.add_assoc.
Qed.

Lemma rtakes_ret {A} (a : A) r p : rtakes (mret a) r p [] a r.
Proof.
  intros b rest Hwf <- E. unfold mret, resM_ret, exnM_ret. change (zlen []) with 0. rewrite Z.add_0_r. by destruct b.
Qed.

Lemma rtakes_buf {A} (m : exnM bytebuffer A) bs a r p : jtakes m bs a -> rtakes (on_buf m) r p bs a r.
Proof. intros Hm b rest Hwf <- E. unfold on_buf. cbn [fst snd]. by rewrite (Hm b rest Hwf E). Qed.

Lemma rtakes_edit {B} f (k : resM B) r p ys c r2 :
  rtakes k (f r) p ys c r2 -> rtakes (on_result f;; k) r p ys c r2.
Proof. intros Hk b rest Hwf Hp E. exact (Hk b rest Hwf Hp E). Qed.

Lemma rtakes_see {A B} (g : jresult -> A) (k : A -> resM B) r p ys c r2 :
  rtakes (k (g r)) r p ys c r2 -> rtakes (jlook (fun s => g s.1) ≫= k) r p ys c r2.
Proof. intros Hk b rest Hwf Hp E. exact (Hk b rest Hwf Hp E). Qed.

Lemma rtakes_pos {B} (k : Z -> resM B) r p ys c r2 :
  rtakes (k p) r p ys c r2 -> rtakes (on_buf (jlook j_pos) ≫= k) r p ys c r2.
Proof.
  intros Hk b rest Hwf Hp E. specialize (Hk b rest Hwf Hp E). unfold mbind, resM_bind, exnM_bind, on_buf, jlook. cbn [fst snd].
  by rewrite Hp.
Qed.

Lemma rtakes_end {A} (m : resM A) r p bs a r' : rtakes m r p (bs ++ []) a r' -> rtakes m r p bs a r'.
Proof. by rewrite app_nil_r. Qed.

(** *** Names and rows *)

Definition jname_ok (s : option (list byte)) : Prop := match s with None => True | Some s => utf8 s /\ zlen s < 2 ^ 31 end.

Lemma jtakes_name s : jname_ok s -> jtakes rb_getString (enc_str s) s.
Proof.
  destruct s as [s|]; [intros []; by apply jtakes_string|intros _]. cbn [enc_str]. unfold rb_getString.
  rewrite <- (app_nil_r (le_split 4 UINT32_MAX)). eapply jtakes_bind; [by apply (jtakes_num to_int 4 UINT32_MAX (-1))|].
  apply jtakes_ret.
Qed.

Fixpoint jr_add_names (r : jresult) (names : list (option (list byte))) (i : Z) : jresult :=
  match names with [] => r | s :: names => jr_add_names (jr_add_name r s i) names (i + 1) end.

(** The fields that the names of the columns and the values of a row leave alone. *)
Definition counts (r : jresult) : Z * Z * Z * Z * Z := (jr_lastRowId r, jr_linesChanged r, jr_next r, jr_rowCount r, jr_columnCount r).

Lemma add_names_counts names : forall r i, counts (jr_add_names r names i) = counts r.
Proof. induction names as [|s names IH]; intros r i; [done|]. cbn [jr_add_names]. by rewrite IH. Qed.

Lemma rtakes_names names : Forall jname_ok names -> forall r i p,
  rtakes (jr_read_names (length names) i) r p (concat (map enc_str names)) () (jr_add_names r names i).
Proof.
  induction 1 as [|s names Hs _ IH]; intros r i p; cbn [length jr_read_names map concat jr_add_names].
  - apply rtakes_ret.
  - eapply rtakes_bind; [by apply rtakes_buf, jtakes_name|]. apply rtakes_edit, IH.
Qed.

Lemma rtakes_values vs : Forall value_ok vs -> Forall jtext_ok vs -> forall r p,
  rtakes (jr_read_values (length vs)) r p (enc_row vs) () (jr_set_values r (jr_columnValues r ++ vs)).
Proof.
  induction vs as [|v vs IH]; intros Hok Ht r p; cbn [length jr_read_values].
  - rewrite app_nil_r. destruct r. apply rtakes_ret.
  - apply Forall_cons in Hok as [Hv Hok]. apply Forall_cons in Ht as [Htv Ht].
    unfold enc_row. cbn [map concat]. eapply rtakes_bind; [by apply rtakes_buf, jtakes_value|]. apply rtakes_edit.
    pose proof (IH Hok Ht (jr_set_values r (jr_columnValues r ++ [v])) (p + zlen (enc_value v))) as H.
    cbn [jr_columnValues jr_set_values] in H. rewrite <- app_assoc in H. exact H.
Qed.

(** *** A program that reads the results *)

Fixpoint java_rows (fuel : nat) : resM (list (list value)) :=
  match fuel with
  | O => mret []
  | S fuel =>
      has ← jlook (fun s => jr_hasNext s.1);
      if (has : bool) then
        _ ← jr_next_row;
        row ← jlook (fun s => jr_columnValues s.1);
        rows ← java_rows fuel;
        mret (row :: rows)
      else mret []
  end.

(** The names of the columns are left out. *)
Definition java_reply (fuel : nat) : resM reply :=
  r ← jlook (fun s => s.1);
  if jr_rowCount r =? -1 then mret (RDone (jr_linesChanged r) (jr_lastRowId r))
  else rows ← java_rows fuel; mret (RRows (jr_linesChanged r) (jr_lastRowId r) [] rows).

Fixpoint java_replies (fuel : nat) : resM (list reply) :=
  match fuel with
  | O => mret []
  | S fuel =>
      rep ← java_reply fuel;
      ok ← jr_nextResultSet;
      if (ok : bool) then reps ← java_replies fuel; mret (rep :: reps) else mret [rep]
  end.

Definition jrow_ok (n : nat) (row : list value) : Prop := row_ok n row /\ Forall jtext_ok row.

Lemma rtakes_rows n rows : forall fuel r p,
  Forall (jrow_ok n) rows -> (length rows < fuel)%nat -> jr_remainingRows r = zlen rows -> zlen rows < 2 ^ 31 ->
  jr_columnCount r = Z.of_nat n ->
  exists r', rtakes (java_rows fuel) r p (concat (map enc_row rows)) rows r' /\ counts r' = counts r.
Proof.
  induction rows as [|row rows IH]; intros [|fuel] r p Hok Hf Hl Hs Hc; try (simpl in Hf; lia); cbn [java_rows].
  - exists r. split; [|done]. apply (rtakes_see jr_hasNext). unfold jr_hasNext. rewrite Hl. apply rtakes_ret.
  - apply Forall_cons in Hok as [[[Hn Hv] Ht] Hok]. rewrite zlen_cons in Hl, Hs. pose proof (zlen_nonneg rows).
    set (r1 := jr_set_values (jr_set_values (jr_set_rows r (jr_rowCount r) (zlen rows)) []) row).
    destruct (IH fuel r1 (p + zlen (enc_row row))) as (r' & Hr & Hcr); [done|simpl in Hf; lia|done|lia|done|].
    exists r'. split; [|by rewrite Hcr]. cbn [map concat]. apply (rtakes_see jr_hasNext). unfold jr_hasNext.
    rewrite if_true by (rewrite Z.gtb_ltb; apply Z.ltb_lt; lia). eapply rtakes_bind.
    + unfold jr_next_row. apply (rtakes_see jr_remainingRows). apply rtakes_edit. rewrite Hl, (proj2 (Z.leb_gt _ _)) by lia.
      replace (jint (1 + zlen rows - 1)) with (zlen rows) by (rewrite jint_id; lia).
      apply rtakes_edit, (rtakes_see jr_columnCount). cbn [jr_columnCount jr_set_values jr_set_rows]. rewrite Hc, Nat2Z.id.
      apply rtakes_end. rewrite <- Hn. eapply rtakes_bind; [by apply rtakes_values|apply rtakes_ret].
    + apply (rtakes_see jr_columnValues). apply rtakes_end. eapply rtakes_bind; [exact Hr|apply rtakes_ret].
Qed.

(** *** Replies *)

(** What a statement can answer and this client can represent. *)
Definition j_reply_ok (rep : reply) : Prop :=
  reply_ok rep /\
  match rep with
  | RRows _ _ names rows => Forall jname_ok names /\ Forall (Forall jtext_ok) rows
  | _ => True
  end.

(** The fields of a result that stands at a reply. *)
Definition j_shows (rep : reply) (next : Z) (r : jresult) : Prop :=
  match rep with
  | RDone changes rowid => counts r = (rowid, changes, next, -1, -1)
  | RRows changes rowid names rows =>
      counts r = (rowid, changes, next, zlen rows, zlen names) /\ jr_remainingRows r = zlen rows
  | _ => False
  end.

Ltac rnext L := eapply rtakes_bind; [apply rtakes_buf, L|].

Lemma read_result_takes rep p r :
  j_reply_ok rep -> 0 <= p -> p + zlen (enc_reply rep) < 2 ^ 31 ->
  exists r', rtakes jr_read_result (jr_reset r) p (reply_head rep) true r' /\ j_shows rep (p + zlen (enc_reply rep)) r'.
Proof.
  intros [Hok Hj] Hp Hl. unfold jr_read_result, reply_head. rewrite zlen_enc_reply in *. pose proof (zlen_nonneg (enc_body rep)).
  assert (Hnext : jint (p + zlen (enc_flag MSG_FLAG_OP) + (zlen (enc_body rep) + 5)) = p + (zlen (enc_body rep) + 6)).
  { change (zlen (enc_flag MSG_FLAG_OP)) with 1. rewrite jint_id; lia. }
  destruct rep as [changes rowid|changes rowid names rows|id|]; cbn [reply_ok] in Hok; try done.
  - destruct Hok as [Hch Hid]. eexists. split.
    + rnext (jtakes_flag MSG_FLAG_OP ltac:(done)). rewrite Z.eqb_refl. cbn [negb]. apply rtakes_pos.
      rnext (jtakes_int (zlen (enc_body (RDone changes rowid)) + 5) ltac:(simpl in *; lia)). apply rtakes_edit.
      rewrite Hnext. cbn [enc_body]. rewrite <- !app_assoc. rnext (jtakes_int changes Hch). apply rtakes_edit.
      rnext (jtakes_long rowid Hid). apply rtakes_edit. apply rtakes_end. rnext (jtakes_flag MSG_FLAG_OP_END ltac:(done)).
      change (MSG_FLAG_OP_END =? MSG_FLAG_ROW) with false. cbv iota. rewrite Z.eqb_refl. cbn [negb]. apply rtakes_ret.
    + done.
  - destruct Hok as (Hch & Hid & _ & Hln & _ & Hlr). destruct Hj as [Hnames _]. pose proof (zlen_nonneg names). pose proof (zlen_nonneg rows).
    eexists. split.
    + rnext (jtakes_flag MSG_FLAG_OP ltac:(done)). rewrite Z.eqb_refl. cbn [negb]. apply rtakes_pos.
      rnext (jtakes_int (zlen (enc_body (RRows changes rowid names rows)) + 5) ltac:(simpl in *; lia)). apply rtakes_edit.
      rewrite Hnext. rnext (jtakes_int changes Hch). apply rtakes_edit. rnext (jtakes_long rowid Hid). apply rtakes_edit.
      rnext (jtakes_flag MSG_FLAG_ROW ltac:(done)). rewrite Z.eqb_refl.
      rnext (jtakes_int (zlen names) ltac:(lia)). apply rtakes_edit. rewrite zlen_nat.
      eapply rtakes_bind; [by apply rtakes_names|]. cbv beta. apply rtakes_end.
      rnext (jtakes_int (zlen rows) ltac:(lia)). apply rtakes_edit, rtakes_ret.
    + cbv zeta. split; [|done]. set (r1 := jr_add_names _ _ _). assert (Hc := add_names_counts names
        (jr_set_columns (jr_set_rowid (jr_set_lines (jr_set_next (jr_reset r) (p + (zlen (enc_body (RRows changes rowid names rows)) + 6))) changes) rowid) (zlen names)) 0).
      fold r1 in Hc. unfold counts in *. cbn [jr_lastRowId jr_linesChanged jr_next jr_rowCount jr_columnCount jr_set_rows jr_set_columns jr_set_rowid jr_set_lines jr_set_next jr_reset] in *.
      by simplify_eq Hc; intros -> -> -> _ ->.
Qed.

Lemma j_reply_shown rep next fuel r p :
  j_reply_ok rep -> (reply_rows rep < fuel)%nat -> j_shows rep next r ->
  exists r', rtakes (java_reply fuel) r p (reply_rest rep) (unnamed rep) r' /\ jr_next r' = next.
Proof.
  intros [Hok Hj] Hf Hs. unfold java_reply.
  destruct rep as [changes rowid|changes rowid names rows|id|]; try done; cbn [unnamed reply_rest reply_rows j_shows] in *.
  - unfold counts in Hs. simplify_eq Hs. intros <- <- <- Hr _. exists r. split; [|done]. apply (rtakes_see id). unfold id. rewrite Hr. apply rtakes_ret.
  - destruct Hs as [Hs Hrem]. destruct Hok as (_ & _ & _ & _ & Hrows & Hlr). destruct Hj as [_ Ht]. pose proof (zlen_nonneg rows).
    destruct (rtakes_rows (length names) rows fuel r p) as (r' & Hr & Hc); [|done|done|done| |].
    { clear -Hrows Ht. induction Hrows as [|row rows H _ IH]; [done|].
      apply Forall_cons in Ht as [? ?]. constructor; [by split|by apply IH]. }
    { unfold counts in Hs. by simplify_eq Hs. }
    exists r'. unfold counts in *. simplify_eq Hs. intros <- <- <- Hrc _. split; [|by simplify_eq Hc]. apply (rtakes_see id). unfold id.
    rewrite Hrc, (proj2 (Z.eqb_neq _ _)) by lia. apply rtakes_end. eapply rtakes_bind; [exact Hr|apply rtakes_ret].
Qed.

(** All the bytes up to the limit. *)
Definition jdata (b : bytebuffer) : list byte := mread (j_mem b) 0 (j_lim b).

Lemma zlen_jdata b : jwf b -> zlen (jdata b) = j_lim b.
Proof. intros [? ?]. unfold jdata. apply zlen_mread; lia. Qed.

Lemma junread_at b p : jwf b -> 0 <= p <= j_lim b -> junread (jat b p) = drop (Z.to_nat p) (jdata b).
Proof.
  intros [? ?] Hp. unfold junread, jdata, mread, bb_remaining. cbn. rewrite drop_0, skipn_firstn_comm. f_equal. lia.
Qed.

(** The buffer holds a response, and the next reply begins at [next]. *)
Record j_at_reply (data more : list byte) (next : Z) (b : bytebuffer) : Prop := {
  ja_wf : jwf b;
  ja_data : jdata b = data;
  ja_next : 0 <= next <= zlen data;
  ja_more : drop (Z.to_nat next) data = more
}.

Lemma j_set_next data more r b :
  j_at_reply data more (jr_next r) b ->
  jr_nextResultSet (r, b) = jr_read_result (jr_reset r, jat b (jr_next r)) /\
  jwf (jat b (jr_next r)) /\ junread (jat b (jr_next r)) = more.
Proof.
  intros [Hwf Hd Hn Hm]. assert (Hl : zlen data = j_lim b) by (by rewrite <- Hd, zlen_jdata). pose proof Hwf as [? ?]. split_and!.
  - unfold jr_nextResultSet, on_result, jedit, jlook, on_buf, mbind, resM_bind, exnM_bind. cbn [fst snd jr_next jr_reset].
    unfold rb_position. rewrite (proj2 (Z.ltb_ge _ _)) by lia. rewrite Z.gtb_ltb, (proj2 (Z.ltb_ge _ _)) by lia. done.
  - split; cbn; lia.
  - rewrite junread_at by (done || lia). by rewrite Hd.
Qed.

Lemma j_reply_step data rep more fuel r b :
  j_at_reply data (enc_reply rep ++ more) (jr_next r) b -> zlen data < 2 ^ 31 ->
  j_reply_ok rep -> (reply_rows rep < fuel)%nat ->
  exists s, jr_nextResultSet (r, b) = (inr true, s) /\
    exists r'' b'', java_reply fuel s = (inr (unnamed rep), (r'', b'')) /\ j_at_reply data more (jr_next r'') b''.
Proof.
  intros Hat Hsmall Hok Hf. destruct (j_set_next _ _ _ _ Hat) as (E1 & Hwf1 & Hu1).
  assert (Hend : jr_next r + zlen (enc_reply rep) <= zlen data).
  { pose proof (f_equal zlen (ja_more _ _ _ _ Hat)) as Hl. rewrite zlen_app in Hl. pose proof (ja_next _ _ _ _ Hat).
    pose proof (zlen_nonneg more). unfold zlen in *. rewrite length_drop in Hl. lia. }
  pose proof (ja_next _ _ _ _ Hat) as Hn. pose proof (zlen_nonneg (enc_reply rep)).
  destruct (read_result_takes rep (jr_next r) r Hok) as (r' & Ht & Hs); [lia|lia|].
  destruct (enc_reply_parts rep) as [tail Ep]. rewrite Ep, <- !app_assoc in Hu1.
  exists (r', jat b (jr_next r + zlen (reply_head rep))). split.
  { rewrite E1. by rewrite (Ht _ _ Hwf1 eq_refl Hu1). }
  destruct (junread_skip _ _ _ Hwf1 Hu1) as [Hwf2 Hu2]. cbn [j_pos jat] in Hwf2, Hu2.
  change (jat (jat b ?x) ?y) with (jat b y) in Hwf2, Hu2.
  destruct (j_reply_shown rep _ fuel r' (jr_next r + zlen (reply_head rep)) Hok Hf Hs) as (r'' & Hr & Hnext).
  eexists r'', _. split; [exact (Hr _ _ Hwf2 eq_refl Hu2)|]. change (jat (jat b ?x) ?y) with (jat b y).
  rewrite Hnext. assert (Hz : zlen (reply_head rep) + zlen (reply_rest rep) <= zlen (enc_reply rep)).
  { rewrite Ep, !zlen_app. pose proof (zlen_nonneg tail). lia. }
  pose proof (zlen_nonneg (reply_head rep)). pose proof (zlen_nonneg (reply_rest rep)).
  destruct Hat as [Hwf Hd _ Hm]. pose proof Hwf as [? ?].
  assert (Hl : zlen data = j_lim b) by (by rewrite <- Hd, zlen_jdata).
  split; [split; cbn [j_pos j_lim j_mem jat]; lia|done|lia|by apply drop_reply; [lia|]].
Qed.

Lemma j_replies_step data tail reps : Forall j_reply_ok reps -> zlen data < 2 ^ 31 -> forall rep fuel r b,
  j_reply_ok rep -> (replies_fuel (rep :: reps) <= fuel)%nat ->
  j_at_reply data (enc_reply rep ++ concat (map enc_reply reps) ++ enc_flag MSG_FLAG_MSG_END ++ tail) (jr_next r) b ->
  exists s, jr_nextResultSet (r, b) = (inr true, s) /\ exists s', java_replies fuel s = (inr (map unnamed (rep :: reps)), s').
Proof.
  intros Hok Hsmall. induction reps as [|p reps IH]; intros rep [|fuel] r b Hrep Hf Hat; unfold replies_fuel in Hf; try (simpl in Hf; lia).
  - destruct (j_reply_step data rep _ fuel r b Hat Hsmall Hrep) as (s1 & E1 & r2 & b2 & E2 & H2); [simpl in Hf; lia|].
    exists s1. split; [done|]. cbn [java_replies]. unfold mbind, resM_bind, exnM_bind. rewrite E2.
    destruct (j_set_next _ _ _ _ H2) as (E3 & Hwf & Hu). cbn [map concat app] in Hu. rewrite E3.
    unfold jr_read_result, mbind, resM_bind, exnM_bind, on_buf. cbn [fst snd].
    rewrite (jtakes_flag MSG_FLAG_MSG_END ltac:(done) _ _ Hwf Hu). change (MSG_FLAG_MSG_END =? MSG_FLAG_OP) with false.
    cbn [negb]. by eexists.
  - apply Forall_cons in Hok as [Hp Hok].
    destruct (j_reply_step data rep _ fuel r b Hat Hsmall Hrep) as (s1 & E1 & r2 & b2 & E2 & H2); [simpl in Hf; lia|].
    cbn [map concat] in H2. rewrite <- app_assoc in H2.
    destruct (IH Hok p fuel r2 b2 Hp) as (s3 & E3 & s4 & E4); [unfold replies_fuel; simpl in *; lia|exact H2|].
    exists s1. split; [done|]. cbn [java_replies]. unfold mbind, resM_bind, exnM_bind in *. rewrite E2, E3, E4. by eexists.
Qed.
End reading.

(** ** Writing to a buffer *)

(** The buffer is being written and holds [xs]. *)
Record jfull (b : bytebuffer) (xs : list byte) : Prop := {
  jf_pos : j_pos b = zlen xs;
  jf_lim : j_lim b = j_cap b;
  jf_cap : zlen xs <= j_cap b;
  jf_data : mread (j_mem b) 0 (zlen xs) = xs
}.

Lemma reserve_room b xs n :
  jfull b xs -> 0 <= n -> zlen xs + n + 1024 < 2 ^ 31 ->
  exists b', rb_reserve n b = (inr (), b') /\ jfull b' xs /\ n <= bb_remaining b'.
Proof.
  intros [Hp Hl Hc Hd] Hn Hs. unfold rb_reserve, bb_remaining. rewrite Hp, Hl. pose proof (zlen_nonneg xs).
  destruct (Z.ltb_spec (j_cap b - zlen xs) n).
  - replace (j_cap b - (j_cap b - zlen xs) + n + 1024) with (zlen xs + n + 1024) by lia. rewrite (jint_id (_ + 1024)) by lia.
    rewrite Z.quot_div_nonneg by lia. set (size := (zlen xs + n + 1024) / 1024 * 1024).
    assert (Hsize : zlen xs + n < size <= zlen xs + n + 1024) by (unfold size; dlia). rewrite jint_id by lia.
    rewrite (proj2 (Z.ltb_ge _ _)) by lia. unfold bb_put, bb_allocate, bb_remaining. cbn [j_mem j_pos j_lim]. rewrite Hd.
    rewrite (proj2 (Z.ltb_ge _ _)) by lia. eexists. split; [reflexivity|].
    assert (Hz : zlen (mwrite (zeros size) 0 xs) = size) by (rewrite zlen_mwrite; rewrite ?zlen_zeros by lia; lia).
    split; [split|]; cbn [j_mem j_pos j_lim]; rewrite ?Hz; try lia. rewrite mread_write_same; rewrite ?zlen_zeros by lia; done || lia.
  - exists b. split; [done|]. split; [by split|lia].
Qed.

Lemma jput_room b xs bs :
  jfull b xs -> zlen bs <= bb_remaining b ->
  exists b', bb_put bs b = (inr (), b') /\ jfull b' (xs ++ bs) /\ bb_remaining b' = bb_remaining b - zlen bs.
Proof.
  intros [Hp Hl Hc Hd] Hr. pose proof (zlen_nonneg bs). pose proof (zlen_nonneg xs). unfold bb_put.
  rewrite (proj2 (Z.ltb_ge _ _)) by lia. unfold bb_remaining in *.
  assert (Hz : zlen (mwrite (j_mem b) (zlen xs) bs) = j_cap b) by (apply zlen_mwrite; lia).
  eexists. split; [reflexivity|]. rewrite Hp. split; [split|]; cbn [j_mem j_pos j_lim]; rewrite ?Hz, ?zlen_app; try lia.
  rewrite mread_split by lia. rewrite mread_write_before, Hd by lia. f_equal. by rewrite mread_write_same by lia.
Qed.

(** A writer that appends [bs]. *)
Definition jputs (m : exnM bytebuffer ()) (bs : list byte) : Prop :=
  forall b xs, jfull b xs -> zlen xs + zlen bs + 1024 < 2 ^ 31 -> exists b', m b = (inr (), b') /\ jfull b' (xs ++ bs).

Lemma jputs_bytes bs : jputs (rb_put bs) bs.
Proof.
  intros b xs Hb Hl. destruct (reserve_room b xs (zlen bs) Hb (zlen_nonneg _) Hl) as (b1 & E1 & H1 & Hr).
  destruct (jput_room b1 xs bs H1 Hr) as (b2 & E2 & H2 & _). exists b2. split; [|done].
  unfold rb_put, mbind, exnM_bind. by rewrite E1.
Qed.

Lemma jputs_seq m k xs ys : jputs m xs -> jputs k ys -> jputs (m;; k) (xs ++ ys).
Proof.
  intros Hm Hk b zs Hb Hl. rewrite zlen_app in Hl. pose proof (zlen_nonneg ys).
  destruct (Hm b zs Hb) as (b1 & E1 & H1); [lia|]. destruct (Hk b1 _ H1) as (b2 & E2 & H2); [rewrite zlen_app; lia|].
  exists b2. split; [|by rewrite app_assoc]. unfold mbind, exnM_bind. by rewrite E1.
Qed.

Lemma jputs_flag f : jputs (rb_putByte f) (enc_flag f).
Proof. apply jputs_bytes. Qed.

Lemma jputs_string s : jputs (rb_putString s) (enc_str s).
Proof.
  destruct s as [s|]; cbn [enc_str rb_putString].
  - apply jputs_seq; [apply jputs_bytes|]. intros b xs Hb Hl. rewrite zlen_app in Hl. change (zlen [x00]) with 1 in Hl.
    pose proof (zlen_nonneg s). destruct (reserve_room b xs (zlen s + 1) Hb) as (b1 & E1 & H1 & Hr); [lia|lia|].
    destruct (jput_room b1 xs s H1) as (b2 & E2 & H2 & Hr2); [lia|].
    destruct (jput_room b2 _ [x00] H2) as (b3 & E3 & H3 & _); [change (zlen [x00]) with 1; lia|].
    exists b3. split; [|by rewrite app_assoc]. unfold mbind, exnM_bind. by rewrite E1, E2.
  - unfold rb_putInt. rewrite <- (le_split_mod 4 (-1)). apply jputs_bytes.
Qed.

Lemma le_split_jint v : le_split 4 (jint v) = le_split 4 v.
Proof.
  rewrite <- (le_split_mod 4 (jint v)), <- (le_split_mod 4 v). f_equal. change (2 ^ (8 * Z.of_nat 4)) with (2 ^ 32).
  unfold jint, to_int, u32. destruct (Z.ltb_spec (v mod 2 ^ 32) (2 ^ 31)); [by rewrite Zmod_mod|].
  by rewrite Zminus_mod, Z_mod_same_full, Z.sub_0_r, !Zmod_mod.
Qed.

Lemma le_split_jlong v : le_split 8 (jlong v) = le_split 8 v.
Proof.
  rewrite <- (le_split_mod 8 (jlong v)), <- (le_split_mod 8 v). f_equal. change (2 ^ (8 * Z.of_nat 8)) with (2 ^ 64).
  unfold jlong, to_int64, u64. destruct (Z.ltb_spec (v mod 2 ^ 64) (2 ^ 63)); [by rewrite Zmod_mod|].
  by rewrite Zminus_mod, Z_mod_same_full, Z.sub_0_r, !Zmod_mod.
Qed.

(** ** Building a request *)

(** The values that an argument of [bind] can have. *)
Definition java_datum (d : datum) : option jobject :=
  match d with
  | DInteger v => Some (JoLong v)
  | DFloat bits => Some (JoDouble bits)
  | DText s => JoString <$> s
  | DBlob d => Some (JoBytes d)
  | DNull => Some JoNull
  end.

Lemma jputs_datum d v : java_datum d = Some v -> jputs (jc_bind_value v) (enc_datum d).
Proof.
  intros Hv. destruct d as [z|bits|[s|]|d|]; cbn in Hv; try done; injection Hv as <-; cbn [jc_bind_value enc_datum].
  - apply jputs_seq; [apply jputs_flag|apply jputs_bytes].
  - apply jputs_seq; [apply jputs_flag|apply jputs_bytes].
  - apply jputs_seq; [apply jputs_flag|apply jputs_string].
  - apply jputs_seq; [apply jputs_flag|]. apply jputs_seq; apply jputs_bytes.
  - apply jputs_flag.
Qed.

Section java_calls.
Variable E : jnet.
#[local] Existing Instances jcM_ret jcM_bind.

Definition java_bind_call (b : locator * datum) : jcM E () :=
  match java_datum b.2 with
  | None => throw JNull
  | Some v => match b.1 with ByName p => jc_bind_name E p v | ByIndex i => jc_bind_index E (jint i) v end
  end.

Fixpoint java_bind_calls (bs : list (locator * datum)) : jcM E () :=
  match bs with
  | [] => mret ()
  | b :: bs => java_bind_call b;; java_bind_calls bs
  end.

Definition java_op_call (p : op) : jcM E () :=
  match p with
  | OStmt sql bs => jc_put E sql;; java_bind_calls bs
  | OStmtId id bs => jc_put_prepared E (jlong id);; java_bind_calls bs
  | _ => throw JNull
  end.

Fixpoint java_op_calls (ps : list op) : jcM E () :=
  match ps with
  | [] => mret ()
  | p :: ps => java_op_call p;; java_op_calls ps
  end.

(** The operations that [put] and [bind] can name: a text is not null. *)
Definition j_bind_ok (b : locator * datum) : bool := bool_decide (is_Some (java_datum b.2)).
Definition j_op_ok (p : op) : bool :=
  match p with OStmt _ bs | OStmtId _ bs => forallb j_bind_ok bs | _ => false end.

(** A program that appends [bs] to the request of a client with a statement. *)
Definition jcputs (m : jcM E ()) (bs : list byte) : Prop :=
  forall c n xs, jc_hasStatement c = true -> jfull (jc_req c) xs -> zlen xs + zlen bs + 1024 < 2 ^ 31 ->
  exists b, m (c, n) = (inr (), (jset_req c b, n)) /\ jfull b (xs ++ bs).

Lemma jcputs_req m bs : jputs m bs -> jcputs (jreq E m) bs.
Proof.
  intros Hm c n xs _ Hc Hl. destruct (Hm _ _ Hc Hl) as (b & Eb & Hb). exists b. split; [|done].
  unfold jreq. cbn [fst snd]. by rewrite Eb.
Qed.

Lemma jcputs_seq m k xs ys : jcputs m xs -> jcputs k ys -> jcputs (m;; k) (xs ++ ys).
Proof.
  intros Hm Hk c n zs Hs Hc Hl. rewrite zlen_app in Hl. pose proof (zlen_nonneg ys).
  destruct (Hm c n zs Hs Hc) as (b1 & E1 & H1); [lia|].
  destruct (Hk (jset_req c b1) n _ Hs H1) as (b2 & E2 & H2); [rewrite zlen_app; lia|].
  exists b2. split; [|by rewrite app_assoc]. unfold mbind, jcM_bind, exnM_bind. by rewrite E1.
Qed.

Lemma jcputs_nil : jcputs (mret ()) [].
Proof. intros c n xs _ Hc _. exists (jc_req c). rewrite app_nil_r. split; [by destruct c|done]. Qed.

(** Under the test for a statement. *)
Lemma jcputs_bound (m k : jcM E ()) bs :
  jcputs k bs -> jcputs (has ← jsee E jc_hasStatement; if negb has then m else k) bs.
Proof.
  intros Hk c n xs Hs Hc Hl. unfold mbind, jcM_bind, exnM_bind, jsee, jlook. cbn [fst]. rewrite Hs. by apply (Hk c n xs).
Qed.

Lemma jcputs_bind_call b : j_bind_ok b = true -> jcputs (java_bind_call b) (enc_bind b).
Proof.
  destruct b as [l d]. unfold j_bind_ok, java_bind_call. cbn [fst snd]. intros [v Hv]%bool_decide_eq_true. rewrite Hv.
  unfold enc_bind. cbn [fst snd]. destruct l as [p|i]; cbn [enc_locator]; rewrite <- app_assoc.
  - apply jcputs_bound, jcputs_seq; [apply jcputs_req, jputs_flag|]. apply jcputs_seq; apply jcputs_req; [apply jputs_string|by apply jputs_datum].
  - apply jcputs_bound, jcputs_seq; [apply jcputs_req, jputs_flag|]. rewrite <- le_split_jint.
    apply jcputs_seq; apply jcputs_req; [apply jputs_bytes|by apply jputs_datum].
Qed.

Lemma jcputs_bind_calls bs : forallb j_bind_ok bs = true -> jcputs (java_bind_calls bs) (concat (map enc_bind bs)).
Proof.
  induction bs as [|b bs IH]; cbn [forallb java_bind_calls map concat]; [intros _; apply jcputs_nil|].
  intros [Hb Hbs]%andb_true_iff. apply jcputs_seq; [by apply jcputs_bind_call|by apply IH].
Qed.

(** *** Operations *)

Lemma j_op_open_close p : j_op_ok p = true -> enc_op p = op_open p ++ op_close.
Proof.
  destruct p as [sql bs|id bs| |]; try done; intros _; unfold enc_op, op_open, op_close, enc_binds; by rewrite <- !app_assoc.
Qed.

(** [m] puts the operation, behind the end of the one before. *)
Definition jopens (m : jcM E ()) (bs : list byte) : Prop :=
  forall c n xs, jfull (jc_req c) xs -> zlen xs + 2 + zlen bs + 1024 < 2 ^ 31 ->
  exists b, m (c, n) = (inr (), (jset_req (jset_has c true) b, n)) /\
    jfull b (xs ++ (if jc_hasStatement c then op_close else []) ++ bs).

Lemma end_statement_puts c n xs :
  jfull (jc_req c) xs -> zlen xs + 2 + 1024 < 2 ^ 31 ->
  exists b, jc_end_statement E (c, n) = (inr (), (jset_req c b, n)) /\ jfull b (xs ++ if jc_hasStatement c then op_close else []).
Proof.
  intros Hc Hl. unfold jc_end_statement, mbind at 1, jcM_bind at 1, exnM_bind at 1, jsee, jlook. cbn [fst].
  destruct (jc_hasStatement c) eqn:Hs.
  - apply (jcputs_seq _ _ _ _ (jcputs_req _ _ (jputs_flag MSG_BIND_END)) (jcputs_req _ _ (jputs_flag MSG_FLAG_OP_END)));
      [done|done|]. change (zlen (enc_flag MSG_BIND_END ++ enc_flag MSG_FLAG_OP_END)) with 2. lia.
  - exists (jc_req c). rewrite app_nil_r. split; [by destruct c|done].
Qed.

Lemma jopens_rest (k r : jcM E ()) xs ys :
  jcputs k xs -> jcputs r ys -> jopens ((jc_end_statement E;; (jmod E (fun c => jset_has c true);; k));; r) (xs ++ ys).
Proof.
  intros Hk Hr c n zs Hc Hl. pose proof (zlen_nonneg (xs ++ ys)).
  destruct (end_statement_puts c n zs Hc) as (b & Eb & Hb); [lia|]. set (c1 := jset_has (jset_req c b) true).
  destruct (jcputs_seq _ _ _ _ Hk Hr c1 n _ eq_refl Hb) as (b' & Eb' & Hb').
  { rewrite zlen_app. destruct (jc_hasStatement c); [change (zlen op_close) with 2|change (zlen []) with 0]; lia. }
  exists b'. split; [|by rewrite app_assoc]. unfold mbind, jcM_bind, exnM_bind in *. rewrite Eb. unfold jmod, jedit. cbn [fst snd].
  fold c1. destruct (k (c1, n)) as [[e|[]] s]; [done|]. exact Eb'.
Qed.

Lemma jopens_call p : j_op_ok p = true -> jopens (java_op_call p) (op_open p).
Proof.
  assert (H : forall f args m bs, jputs m args -> forallb j_bind_ok bs = true ->
    jopens ((jc_end_statement E;; (jmod E (fun c => jset_has c true);;
      (jreq E (rb_putByte MSG_FLAG_OP);; (jreq E (rb_putByte f);; jreq E m))));; java_bind_calls bs)
      ((enc_flag MSG_FLAG_OP ++ enc_flag f ++ args) ++ concat (map enc_bind bs))).
  { intros f args m bs Hm Hbs. apply jopens_rest; [|by apply jcputs_bind_calls].
    apply jcputs_seq; [apply jcputs_req, jputs_flag|]. apply jcputs_seq; apply jcputs_req; [apply jputs_flag|done]. }
  destruct p as [sql bs|id bs| |]; try done; cbn [j_op_ok java_op_call]; intros Hbs.
  - pose proof (H MSG_FLAG_STMT (enc_str sql) _ bs (jputs_string sql) Hbs) as H1. rewrite <- !app_assoc in H1. exact H1.
  - pose proof (H MSG_FLAG_STMT_ID (le_split 8 id) (rb_putLong (jlong id)) bs) as H1. rewrite <- !app_assoc in H1. apply H1; [|done].
    rewrite <- le_split_jlong. apply jputs_bytes.
Qed.

(** All operations: each but the last is closed. *)
Lemma java_calls_put ps : forallb j_op_ok ps = true -> forall p c n xs,
  j_op_ok p = true -> jfull (jc_req c) xs -> zlen xs + zlen (concat (map enc_op (p :: ps))) + 2048 < 2 ^ 31 ->
  exists b ys, java_op_calls (p :: ps) (c, n) = (inr (), (jset_req (jset_has c true) b, n)) /\
    jfull b (xs ++ ys) /\
    ys ++ op_close = (if jc_hasStatement c then op_close else []) ++ concat (map enc_op (p :: ps)).
Proof.
  induction ps as [|q ps IH]; intros Hps p c n xs Hp Hc Hl;
    change (concat (map enc_op (p :: ?l))) with (enc_op p ++ concat (map enc_op l)) in Hl; rewrite zlen_app in Hl;
    pose proof (j_op_open_close p Hp) as Ep; rewrite Ep, zlen_app in Hl; change (zlen op_close) with 2 in Hl.
  - change (zlen (concat _)) with 0 in Hl. destruct (jopens_call p Hp c n xs Hc) as (b & Eb & Hb); [lia|].
    exists b, ((if jc_hasStatement c then op_close else []) ++ op_open p). split_and!.
    + cbn [java_op_calls]. unfold mbind, jcM_bind, exnM_bind. by rewrite Eb.
    + done.
    + cbn [map concat]. rewrite Ep, app_nil_r. by rewrite <- !app_assoc.
  - cbn [forallb] in Hps. apply andb_true_iff in Hps as [Hq Hps]. pose proof (zlen_nonneg (concat (map enc_op (q :: ps)))).
    destruct (jopens_call p Hp c n xs Hc) as (b & Eb & Hb); [lia|].
    set (c1 := jset_req (jset_has c true) b) in *. pose proof (zlen_nonneg (op_open p)).
    destruct (IH Hps q c1 n _ Hq Hb) as (b2 & ys & E2 & H2 & Hy).
    { rewrite !zlen_app. destruct (jc_hasStatement c); [change (zlen op_close) with 2|change (zlen []) with 0]; lia. }
    exists b2, ((if jc_hasStatement c then op_close else []) ++ op_open p ++ ys). split_and!.
    + remember (q :: ps) as qs. cbn [java_op_calls]. unfold mbind, jcM_bind, exnM_bind in *. rewrite Eb. fold c1. by rewrite E2.
    + by rewrite <- !app_assoc in H2.
    + change (jc_hasStatement c1) with true in Hy. rewrite <- !app_assoc, Hy. cbn [map concat]. rewrite Ep. by rewrite <- !app_assoc.
Qed.
End java_calls.

(** ** Sending a request *)

(** The start of [mem] is overwritten with [xs]. *)
Definition jover (mem xs : list byte) : bytebuffer := mk_bb (xs ++ drop (length xs) mem) (zlen xs) (zlen mem).

Lemma jover_append mem xs bs :
  zlen xs + zlen bs <= zlen mem -> rb_put bs (jover mem xs) = (inr (), jover mem (xs ++ bs)).
Proof.
  intros Hl. pose proof (zlen_nonneg bs). unfold rb_put, mbind, exnM_bind, rb_reserve, bb_put, jover, bb_remaining.
  cbn [j_mem j_pos j_lim]. rewrite (proj2 (Z.ltb_ge _ _)) by lia. cbn [j_mem j_pos j_lim].
  rewrite (proj2 (Z.ltb_ge _ _)) by lia. do 2 f_equal; [|by rewrite zlen_app].
  unfold mwrite. rewrite zlen_nat, take_app_length, <- app_assoc. do 2 f_equal.
  rewrite drop_app_ge by lia. rewrite drop_drop, length_app. f_equal. lia.
Qed.

Lemma jover_seq mem xs bs (k : exnM bytebuffer ()) :
  zlen xs + zlen bs <= zlen mem -> (rb_put bs;; k) (jover mem xs) = k (jover mem (xs ++ bs)).
Proof. intros Hl. unfold mbind at 1, exnM_bind at 1. by rewrite jover_append. Qed.

Lemma j_header_written b hdr body readonly seq :
  jfull b (hdr ++ body) -> zlen hdr = 14 -> zlen body + 14 < 2 ^ 31 ->
  exists b', msg_encodeClientReq readonly seq b = (inr (), b') /\ jfull b' (enc_msg (client_req (u64 seq) readonly body)).
Proof.
  intros [Hp Hl Hc Hd] Hh Hb. rewrite zlen_app, Hh in *. pose proof (zlen_nonneg body).
  unfold msg_encodeClientReq, mbind at 1, exnM_bind at 1, jlook. rewrite Hp.
  unfold mbind at 1, exnM_bind at 1, rb_position at 1. rewrite Hl, Z.gtb_ltb, (proj2 (Z.ltb_ge (j_cap b) 0)) by lia. cbn [Z.ltb Z.compare orb].
  change (mk_bb (j_mem b) 0 (j_cap b)) with (jover (j_mem b) []).
  unfold rb_putInt, rb_putByte, rb_putBoolean, rb_putByte, rb_putLong.
  rewrite !jover_seq by (rewrite ?zlen_app, ?zlen_le_split; change (zlen []) with 0; simpl; lia).
  set (h := ((([] ++ le_split 4 (14 + zlen body)) ++ le_split 1 jCLIENT_REQ) ++ le_split 1 (if readonly then 1 else 0)) ++ le_split 8 seq).
  assert (Hlh : length h = 14%nat) by (unfold h; rewrite !length_app, !length_le_split; done).
  unfold rb_position, jover. cbn [j_mem j_pos j_lim]. rewrite (proj2 (Z.ltb_ge (14 + zlen body) 0)), Z.gtb_ltb, (proj2 (Z.ltb_ge (zlen (j_mem b)) _)) by lia.
  eexists. split; [reflexivity|].
  assert (Hz : zlen (h ++ drop (length h) (j_mem b)) = j_cap b) by (unfold zlen in *; rewrite length_app, length_drop; lia).
  assert (He : zlen (enc_msg (client_req (u64 seq) readonly body)) = 14 + zlen body)
    by (rewrite enc_client_req, !zlen_app, !zlen_le_split; lia).
  split; cbn [j_mem j_pos j_lim]; rewrite ?Hz, ?He; try lia.
  unfold mread. rewrite drop_0. replace (Z.to_nat (14 + zlen body)) with (length h + length body)%nat by (unfold zlen; lia).
  rewrite firstn_app_2, enc_client_req, (Z.add_comm (zlen body)). replace (take (length body) (drop (length h) (j_mem b))) with body.
  - unfold h. cbn [app]. rewrite <- !app_assoc. change (u64 seq) with (seq mod 2 ^ (8 * Z.of_nat 8)). rewrite le_split_mod. by destruct readonly.
  - unfold mread in Hd. rewrite drop_0 in Hd. apply (f_equal (drop (length hdr))) in Hd. rewrite drop_app_length in Hd.
    rewrite skipn_firstn_comm in Hd. rewrite <- Hd at 1. unfold zlen in *. f_equal; [lia|]. f_equal. lia.
Qed.

Section java_exchange.
Context `{U : Charset}.
Variable E : jnet.
#[local] Existing Instances jcM_ret jcM_bind.

(** The channel delivers [bs] in at most [fuel] pieces, each of which fits, and in time; the
    first one has [least] bytes or more. *)
Fixpoint java_delivers (ts timeout : Z) (fuel least : nat) (bs : list byte) (n : jn_state E) : Prop :=
  match fuel with
  | O => bs = []
  | S fuel =>
      bs = [] \/
      jlong (fst (clock E n) - ts) < timeout /\
      forall q, Z.of_nat least <= q -> exists k n', (least <= k <= length bs)%nat /\ Z.of_nat k <= q /\
        sock_read E q (snd (clock E n)) = (RdBytes (take k bs), n') /\ java_delivers ts timeout fuel 1 (drop k bs) n'
  end.

(** [clear] leaves the room for the header. *)
Lemma java_clear_ok c n :
  14 <= j_cap (jc_req c) ->
  exists b hdr, jc_clear E (c, n) = (inr (), (jset_has (jset_req c b) false, n)) /\ jfull b hdr /\ zlen hdr = 14.
Proof.
  intros Hc. set (b := mk_bb (j_mem (jc_req c)) 14 (j_cap (jc_req c))). exists b, (mread (j_mem (jc_req c)) 0 14).
  assert (Hz : zlen (mread (j_mem (jc_req c)) 0 14) = 14) by (apply zlen_mread; lia). split_and!.
  - unfold jc_clear, mbind, jcM_bind, exnM_bind, jreq, jedit, msg_reserveClientReqHeader, rb_position, CLIENT_REQ_HEADER.
    cbn [fst snd jc_req jset_req bb_clear j_lim j_mem]. rewrite Z.gtb_ltb, (proj2 (Z.ltb_ge (j_cap (jc_req c)) 14)) by lia. done.
  - split; cbn [b j_pos j_lim j_mem]; rewrite ?Hz; done || lia.
  - done.
Qed.

Lemma java_write_frame c n f n2 :
  jfull (jc_req c) f -> 0 < zlen f -> sock_write E f n = (Some (zlen f), n2) ->
  exists b, write_buf E jc_req (jreq E) (jset_req c (bb_flip (jc_req c)), n) = (inr (zlen f), (jset_req c b, n2)) /\
    bb_remaining b = 0 /\ j_cap b = j_cap (jc_req c).
Proof.
  intros [Hp Hl Hc Hd] Hf Hw. exists (mk_bb (j_mem (jc_req c)) (0 + zlen f) (j_pos (jc_req c))). split.
  - unfold write_buf, mbind, jcM_bind, exnM_bind, jsee, jlook, jdo. cbn [fst snd jc_req jset_req bb_flip j_mem j_pos].
    unfold bb_remaining. cbn [bb_flip j_lim j_pos]. rewrite Hp, Z.sub_0_r, Hd, Hw. unfold jreq, jedit. cbn [fst snd jc_req jset_req bb_flip j_mem j_lim j_pos]. by rewrite Hp.
  - unfold bb_remaining. cbn [j_lim j_pos j_mem]. rewrite Hp. split; [lia|done].
Qed.

(** The response is complete: the position is behind its length. *)
Definition j_complete (b : bytebuffer) (f : list byte) : Prop := jwf b /\ j_pos b = 4 /\ jdata b = f.

(** The bytes that are there, flipped. *)
Lemma jfull_flip b ys : jfull b ys -> jwf (bb_flip b) /\ jdata (bb_flip b) = ys /\ junread (bb_flip b) = ys.
Proof.
  intros [Hp Hl Hc Hd]. pose proof (zlen_nonneg ys). unfold jdata, junread, bb_remaining, bb_flip. cbn [j_mem j_pos j_lim].
  rewrite Hp, Z.sub_0_r. split_and!; [split; cbn; lia|done|done].
Qed.

(** [remaining] of a frame of which [zs] is missing. *)
Lemma remaining_frame b ys zs f g :
  jfull b ys -> ys ++ zs = f -> f = le_split 4 (zlen f) ++ g -> zlen f < 2 ^ 31 -> 4 <= zlen ys ->
  msg_remaining (bb_flip b) = if decide (zs = []) then (inr 0, jat (bb_flip b) 4) else (inr (zlen f), bb_flip b).
Proof.
  intros Hb Ey Hf Hs Hl. destruct (jfull_flip _ _ Hb) as (Hwf & Hd & Hu). pose proof (zlen_nonneg f).
  assert (Hy : exists more, ys = le_split 4 (zlen f) ++ more).
  { exists (drop 4 ys). rewrite <- (take_drop 4 ys) at 1. f_equal. transitivity (take 4 f).
    - rewrite <- Ey, take_app_le; [done|]. unfold zlen in Hl. lia.
    - rewrite Hf at 1. apply take_app_length'. by rewrite length_le_split. }
  destruct Hy as [more Hy]. rewrite Hy in Hu. unfold msg_remaining, mbind at 1, exnM_bind at 1.
  rewrite (jtakes_int (zlen f) ltac:(lia) _ more Hwf Hu). rewrite zlen_le_split. change (j_pos (bb_flip b) + Z.of_nat 4) with 4.
  unfold mbind at 1, exnM_bind at 1, jlook, id. pose proof (zlen_jdata _ Hwf) as Hz. rewrite Hd in Hz.
  unfold bb_remaining. cbn [j_lim j_pos jat]. rewrite <- Hz. replace (zlen ys - 4 + 4) with (zlen ys) by lia.
  assert (Hzz : zlen ys + zlen zs = zlen f) by (by rewrite <- zlen_app, Ey). rewrite Z.gtb_ltb. case_decide as Hzs.
  - subst zs. change (zlen []) with 0 in Hzz. by rewrite (proj2 (Z.ltb_ge _ _)) by lia.
  - assert (0 < zlen zs) by (destruct zs; [done|rewrite zlen_cons; pose proof (zlen_nonneg zs); lia]).
    rewrite (proj2 (Z.ltb_lt _ _)) by lia. unfold mbind, exnM_bind, rb_position. cbn [j_lim j_mem jat].
    rewrite Z.gtb_ltb, (proj2 (Z.ltb_ge (j_lim (bb_flip b)) 0)) by lia. done.
Qed.

(** The room for the rest of the frame. *)
Lemma room_for_rest c n b ys len :
  jfull b ys -> jc_resp c = bb_flip b -> zlen ys < len -> len + 1024 < 2 ^ 31 ->
  exists b', (jresp E (rb_limit (j_cap (bb_flip b)));; (jresp E (rb_position (j_lim (bb_flip b)));;
    (if len >? j_cap (bb_flip b) then jresp E (pos ← jlook j_pos; rb_reserve (len - pos)) else mret ()))) (c, n)
    = (inr (), (jset_resp c b', n)) /\ jfull b' ys /\ len <= j_cap b'.
Proof.
  intros Hb Hc Hy Hl. pose proof Hb as [Hp Hlm Hcap Hd]. pose proof (zlen_nonneg ys).
  assert (E1 : rb_limit (j_cap (bb_flip b)) (bb_flip b) = (inr (), mk_bb (j_mem b) 0 (j_cap b))).
  { unfold rb_limit. cbn [bb_flip j_mem j_pos]. rewrite (proj2 (Z.ltb_ge (j_cap b) 0)), Z.gtb_ltb, Z.ltb_irrefl by lia.
    cbn [orb]. by rewrite Z.min_l by lia. }
  assert (E2 : rb_position (j_lim (bb_flip b)) (mk_bb (j_mem b) 0 (j_cap b)) = (inr (), b)).
  { unfold rb_position. cbn [bb_flip j_lim j_mem]. rewrite Hp, (proj2 (Z.ltb_ge (zlen ys) 0)), Z.gtb_ltb, (proj2 (Z.ltb_ge (j_cap b) _)) by lia.
    cbn [orb]. do 2 f_equal. destruct b. cbn in *. by subst. }
  unfold mbind at 1, jcM_bind at 1, exnM_bind at 1, jresp at 1. cbn [fst snd]. rewrite Hc, E1.
  unfold mbind at 1, jcM_bind at 1, exnM_bind at 1, jresp at 1. cbn [fst snd jc_resp jset_resp]. rewrite E2.
  change (j_cap (bb_flip b)) with (j_cap b). rewrite Z.gtb_ltb. destruct (Z.ltb_spec (j_cap b) len).
  - destruct (reserve_room b ys (len - zlen ys) Hb) as (b' & Er & Hb' & Hr); [lia|lia|]. exists b'. split_and!; [|done|].
    + unfold jresp. cbn [fst snd jc_resp jset_resp]. unfold mbind, exnM_bind, jlook. rewrite Hp, Er. done.
    + destruct Hb' as [? ? ? ?]. unfold bb_remaining in Hr. lia.
  - exists b. split_and!; [done|done|lia].
Qed.

(** One turn of the loop. *)
Lemma java_read_step fuel ts c n xs bs k n' f g :
  jfull (jc_resp c) xs -> (0 < k <= length bs)%nat -> xs ++ bs = f -> f = le_split 4 (zlen f) ++ g -> zlen f + 1024 < 2 ^ 31 ->
  4 <= zlen xs + Z.of_nat k -> jlong (fst (clock E n) - ts) < jc_timeout c -> Z.of_nat k <= bb_remaining (jc_resp c) ->
  sock_read E (bb_remaining (jc_resp c)) (snd (clock E n)) = (RdBytes (take k bs), n') ->
  if decide (drop k bs = []) then exists r, java_read_loop E (S fuel) ts (c, n) = (inr true, (jset_resp c r, n')) /\ j_complete r f
  else exists b, java_read_loop E (S fuel) ts (c, n) = java_read_loop E fuel ts (jset_resp c b, n') /\
    jfull b (xs ++ take k bs) /\ zlen f <= j_cap b.
Proof.
  intros Hc Hk Hx Hf Hs H4 Ht Hr Er. assert (Hz : zlen (take k bs) = Z.of_nat k) by (unfold zlen; rewrite length_take; lia).
  destruct (jput_room _ _ (take k bs) Hc) as (b1 & E1 & H1 & _); [lia|]. set (ys := xs ++ take k bs) in *.
  assert (Ey : ys ++ drop k bs = f) by (unfold ys; rewrite <- app_assoc, take_drop; done).
  assert (Hly : 4 <= zlen ys) by (unfold ys; rewrite zlen_app; lia).
  pose proof (remaining_frame b1 ys (drop k bs) f g H1 Ey Hf ltac:(lia) Hly) as Em.
  assert (Erd : read_resp E (c, snd (clock E n)) = (inr (Z.of_nat k), (jset_resp c b1, n'))).
  { unfold read_resp, mbind, jcM_bind, exnM_bind, jsee, jlook, jdo. cbn [fst snd]. rewrite Er, take_take.
    rewrite Nat.min_r by lia. unfold jresp. cbn [fst snd]. rewrite E1. by rewrite Hz. }
  assert (Estep : java_read_loop E (S fuel) ts (c, n) =
    (jresp E (jedit bb_flip);; (remaining ← jresp E msg_remaining;
      if remaining =? 0 then mret true
      else
        cap ← jsee E (fun c => j_cap (jc_resp c));
        limit ← jsee E (fun c => j_lim (jc_resp c));
        jresp E (rb_limit cap);; (jresp E (rb_position limit);;
        ((if remaining >? cap then jresp E (pos ← jlook j_pos; rb_reserve (remaining - pos)) else mret ());;
        java_read_loop E fuel ts)))) (jset_resp c b1, n')).
  { cbn [java_read_loop]. unfold mbind at 1, jcM_bind at 1, exnM_bind at 1, jdo at 1. cbn [snd fst].
    destruct (clock E n) as [t n1]. cbn [fst snd] in *. unfold mbind at 1, jcM_bind at 1, exnM_bind at 1, jsee at 1, jlook at 1.
    cbn [fst snd]. rewrite Z.gtb_ltb, (proj2 (Z.ltb_lt _ _)) by done. cbn [negb]. unfold mbind at 1, jcM_bind at 1, exnM_bind at 1, catching.
    unfold mbind at 1, jcM_bind at 1, exnM_bind at 1. rewrite Erd, (proj2 (Z.leb_gt _ _)) by lia. done. }
  rewrite Estep. clear Estep Erd. set (c1 := jset_resp c (bb_flip b1)).
  assert (Hflip : forall h : Z -> jcM E bool, (jresp E (jedit bb_flip);; (remaining ← jresp E msg_remaining; h remaining)) (jset_resp c b1, n') =
    if decide (drop k bs = []) then h 0 (jset_resp c (jat (bb_flip b1) 4), n') else h (zlen f) (c1, n')).
  { intros h. unfold mbind, jcM_bind, exnM_bind, jresp, jedit. cbn [fst snd jc_resp jset_resp]. rewrite Em. by case_decide. }
  rewrite Hflip. clear Hflip. destruct (decide (drop k bs = [])) as [Hend|Hmore].
  - exists (jat (bb_flip b1) 4). split; [done|]. destruct (jfull_flip _ _ H1) as ([Hw1 Hw2] & Hd & _).
    rewrite Hend, app_nil_r in Ey. cbn [bb_flip j_pos j_lim j_mem] in Hw1, Hw2. pose proof (jf_pos _ _ H1).
    split; [split; cbn [jat bb_flip j_pos j_lim j_mem]; lia|]. split; [done|]. rewrite <- Ey. exact Hd.
  - assert (0 < zlen (drop k bs)) by (destruct (drop k bs) as [|x l]; [done|rewrite zlen_cons; pose proof (zlen_nonneg l); lia]).
    assert (Hzy : zlen ys + zlen (drop k bs) = zlen f) by (by rewrite <- zlen_app, Ey).
    destruct (room_for_rest c1 n' b1 ys (zlen f) H1 eq_refl) as (b2 & E2 & H2 & Hc2); [lia|lia|]. exists b2. split_and!; [|done|done].
    rewrite (proj2 (Z.eqb_neq _ _)) by lia.
    unfold mbind at 1, jcM_bind at 1, exnM_bind at 1, jsee at 1, jlook at 1. unfold mbind at 1, jcM_bind at 1, exnM_bind at 1, jsee at 1, jlook at 1.
    cbn [fst snd]. change (jc_resp c1) with (bb_flip b1). unfold mbind, jcM_bind, exnM_bind in E2 |- *.
    destruct (jresp E (rb_limit (j_cap (bb_flip b1))) (c1, n')) as [[e|[]] s1]; [done|].
    destruct (jresp E (rb_position (j_lim (bb_flip b1))) s1) as [[e|[]] s2]; [done|]. by rewrite E2.
Qed.

(** The loop ends when the frame is complete. *)
Lemma java_read_whole (f g : list byte) ts :
  f = le_split 4 (zlen f) ++ g -> zlen f + 1024 < 2 ^ 31 -> forall fuel rfuel least bs n c xs,
  xs ++ bs = f -> bs <> [] -> java_delivers ts (jc_timeout c) fuel least bs n -> (fuel < rfuel)%nat -> jfull (jc_resp c) xs ->
  (0 < least)%nat -> 4 <= zlen xs + Z.of_nat least -> Z.of_nat least <= bb_remaining (jc_resp c) ->
  exists r n', java_read_loop E rfuel ts (c, n) = (inr true, (jset_resp c r, n')) /\ j_complete r f.
Proof.
  intros Hf Hsmall. induction fuel as [|fuel IH]; intros [|rfuel] least bs n c xs Hx Hne Hd Hfuel Hc Hl H4 Hroom; try lia; [done|].
  destruct Hd as [Hd|[Ht Hd]]; [done|]. destruct (Hd _ Hroom) as (k & n' & Hk & Hq & Er & Hd'). clear Hd.
  pose proof (java_read_step rfuel ts c n xs bs k n' f g Hc ltac:(lia) Hx Hf Hsmall ltac:(lia) Ht Hq Er) as H.
  destruct (decide (drop k bs = [])) as [Hend|Hmore].
  - destruct H as (r & Eq & Hr). by exists r, n'.
  - destruct H as (b & Eq & Hb & Hcap). rewrite Eq.
    assert (Ey : (xs ++ take k bs) ++ drop k bs = f) by (rewrite <- app_assoc, take_drop; done).
    pose proof (f_equal zlen Ey) as Hz. rewrite zlen_app in Hz.
    assert (0 < zlen (drop k bs)) by (destruct (drop k bs) as [|x l]; [done|rewrite zlen_cons; pose proof (zlen_nonneg l); lia]).
    destruct (IH rfuel 1%nat (drop k bs) n' (jset_resp c b) (xs ++ take k bs)) as (r & n'' & Er' & Hr); [done|done|done|lia|done|lia| | |].
    + rewrite zlen_app. assert (zlen (take k bs) = Z.of_nat k) by (unfold zlen; rewrite length_take; lia). lia.
    + cbn [jc_resp jset_resp]. destruct Hb as [Hp Hlm _ _]. unfold bb_remaining. lia.
    + by exists r, n''.
Qed.

(** A node at the other end of the channel, which is in time. *)
Definition java_talks (size : nat) (timeout : Z) (serve : list byte -> option (list byte)) (n : jn_state E) : Prop :=
  let '(t0, n0) := clock E n in
  let '(t1, n1) := clock E n0 in
  jlong (t1 - t0) < timeout /\
  forall bs resp, serve bs = Some resp -> (4 <= length resp <= size)%nat ->
    exists n2, sock_write E bs n1 = (Some (zlen bs), n2) /\ java_delivers t0 timeout size 4 resp n2.

Lemma java_send_once_ok c n f n2 :
  jc_connected c = true -> jfull (jc_req c) f -> 0 < zlen f -> sock_write E f n = (Some (zlen f), n2) ->
  exists b, java_send_once E (jset_req c (bb_flip (jc_req c)), n) = (inr true, (jset_req c b, n2)) /\ j_cap b = j_cap (jc_req c).
Proof.
  intros Hcon Hreq Hf Hw. destruct (java_write_frame c n f n2 Hreq Hf Hw) as (b & Eb & Hr & Hcap).
  exists (bb_rewind b). split; [|by rewrite <- Hcap]. unfold java_send_once, mbind at 1, jcM_bind at 1, exnM_bind at 1, catching at 1.
  unfold mbind at 1, jcM_bind at 1, exnM_bind at 1, jsee at 1, jlook at 1. cbn [fst snd jc_connected jset_req]. rewrite Hcon.
  unfold mret at 1, jcM_ret at 1, exnM_ret at 1. unfold mbind at 1, jcM_bind at 1, exnM_bind at 1, jsee at 1, jlook at 1.
  cbn [fst snd jc_connected jset_req]. rewrite Hcon. cbn [negb]. unfold catching, mbind, jcM_bind, exnM_bind. rewrite Eb.
  unfold jsee, jlook. cbn [fst snd jc_req jset_req]. rewrite Hr, (proj2 (Z.eqb_neq (zlen f) 0)) by lia. done.
Qed.

Lemma java_send_ok size serve c n f d rfuel fuel :
  jc_connected c = true -> jfull (jc_req c) f -> 0 < zlen f -> 4 <= j_cap (jc_resp c) ->
  msg_ok (client_resp d) -> zlen d < 2 ^ 29 -> serve f = Some (enc_msg (client_resp d)) ->
  java_talks size (jc_timeout c) serve n -> (length (enc_msg (client_resp d)) <= size)%nat -> (size < rfuel)%nat ->
  exists b r n', jc_sendRequest E rfuel (S fuel) (c, n) = (inr (), (jset_resp (jset_req c b) r, n')) /\
    j_cap b = j_cap (jc_req c) /\ j_complete r (enc_msg (client_resp d)).
Proof.
  intros Hcon Hreq Hf Hresp Hmsg Hd Hs Ht Hsize Hfuel. unfold java_talks in Ht.
  destruct (clock E n) as [t0 n0] eqn:E0. destruct (clock E n0) as [t1 n1] eqn:E1. destruct Ht as [Htime Htalk].
  assert (Hz : zlen (enc_msg (client_resp d)) = zlen d + 5) by (rewrite enc_client_resp, !zlen_app, !zlen_le_split; lia).
  pose proof (zlen_nonneg d). pose proof (zlen_nonneg (j_mem (jc_resp c))).
  destruct (Htalk _ _ Hs) as (n2 & Hw & Hdel); [unfold zlen in Hz; lia|]. set (c1 := jset_resp c (bb_clear (jc_resp c))).
  destruct (java_send_once_ok c1 n1 f n2 Hcon Hreq Hf Hw) as (b & Eb & Hcap).
  destruct (java_read_whole (enc_msg (client_resp d)) (le_split 1 MSG_CLIENT_RESP ++ d) t0) with
    (fuel := size) (rfuel := rfuel) (least := 4%nat) (bs := enc_msg (client_resp d)) (n := n2) (c := jset_req c1 b) (xs := @nil byte)
    as (r & n' & Er & Hr).
  { rewrite Hz. apply enc_client_resp. }
  1: lia. 1: done. 2: done. 2: done. 3: lia. 3: done. 3: cbn; unfold bb_remaining; cbn; lia.
  { intros En. rewrite En in Hz. change (zlen []) with 0 in Hz. lia. }
  { split; cbn [jc_resp jset_req jset_resp c1 bb_clear j_pos j_lim j_mem]; done. }
  exists b, r, n'. split_and!; [|done|done].
  unfold jc_sendRequest, mbind at 1, jcM_bind at 1, exnM_bind at 1, jdo at 1. cbn [fst snd]. rewrite E0.
  unfold mbind at 1, jcM_bind at 1, exnM_bind at 1, jreq at 1, jedit at 1. unfold mbind at 1, jcM_bind at 1, exnM_bind at 1, jresp at 1, jedit at 1.
  cbn [fst snd]. change (jset_resp (jset_req c (bb_flip (jc_req c))) (bb_clear (jc_resp (jset_req c (bb_flip (jc_req c)))))) with (jset_req c1 (bb_flip (jc_req c1))).
  cbn [java_send_loop]. unfold mbind at 1, jcM_bind at 1, exnM_bind at 1, jdo at 1. cbn [fst snd]. rewrite E1.
  unfold mbind at 1, jcM_bind at 1, exnM_bind at 1, jsee at 1, jlook at 1. cbn [fst snd].
  change (jc_timeout (jset_req c1 (bb_flip (jc_req c1)))) with (jc_timeout c). rewrite Z.gtb_ltb, (proj2 (Z.ltb_lt _ _)) by done. cbn [negb].
  unfold mbind at 1, jcM_bind at 1, exnM_bind at 1. rewrite Eb. cbn [negb]. unfold mbind at 1, jcM_bind at 1, exnM_bind at 1. rewrite Er. done.
Qed.
End java_exchange.

(** ** The answer *)

Section java_answers.
Context `{U : Charset}.
Variable E : jnet.
#[local] Existing Instances jcM_ret jcM_bind resM_ret resM_bind.

(** What the caller of [execute] gets for an answer of the node. *)
Definition java_sees (a : answer) (r : (jexn + ()) * (jclient * jn_state E)) : Prop :=
  match a with
  | Answered reps =>
      Forall j_reply_ok reps -> forall fuel, (replies_fuel reps <= fuel)%nat ->
      exists c n s, r = (inr (), (c, n)) /\ java_replies fuel (jc_result c, jc_resp c) = (inr (map unnamed reps), s)
  | Refused err => jname_ok err -> exists s, r = (inl (JSQL err), s)
  end.

Lemma jresp_takes {A} (m : exnM bytebuffer A) bs a c n r rest :
  jtakes m bs a -> jwf r -> junread r = bs ++ rest ->
  jresp E m (jset_resp c r, n) = (inr a, (jset_resp c (jat r (j_pos r + zlen bs)), n)).
Proof. intros Hm Hwf Hu. unfold jresp. cbn [fst snd jc_resp jset_resp]. by rewrite (Hm r rest Hwf Hu). Qed.

(** The first two bytes of a response. *)
Lemma java_answer_head c n r d flag rest :
  j_complete r (enc_msg (client_resp d)) -> d = enc_flag flag ++ rest -> 0 <= flag < 2 ^ 7 ->
  jc_answer E (jset_resp c r, n) =
    (if flag =? MSG_FLAG_ERROR then err ← jresp E rb_getString; throw (JSQL err) else mret ()) (jset_resp c (jat r 6), n) /\
  jwf (jat r 6) /\ junread (jat r 6) = rest.
Proof.
  intros (Hwf & Hp & Hd) -> Hf. rewrite enc_client_resp in Hd.
  assert (Hu : junread r = enc_flag MSG_CLIENT_RESP ++ enc_flag flag ++ rest).
  { assert (Hl : 4 <= j_lim r) by (destruct Hwf; lia). pose proof (junread_at r 4 Hwf ltac:(lia)) as H.
    replace (jat r 4) with r in H by (unfold jat; rewrite <- Hp; by destruct r). rewrite H, Hd.
    rewrite drop_app_length' by (by rewrite length_le_split). done. }
  destruct (junread_skip _ _ _ Hwf Hu) as [Hwf1 Hu1]. rewrite Hp in Hwf1, Hu1. change (4 + zlen (enc_flag MSG_CLIENT_RESP)) with 5 in *.
  destruct (junread_skip _ _ _ Hwf1 Hu1) as [Hwf2 Hu2]. change (j_pos (jat r 5) + zlen (enc_flag flag)) with (5 + zlen (le_split 1 flag)) in *.
  rewrite zlen_le_split in Hwf2, Hu2. split; [|done]. unfold jc_answer, mbind at 1, jcM_bind at 1, exnM_bind at 1.
  rewrite (jresp_takes _ _ _ c n r _ (jtakes_flag MSG_CLIENT_RESP ltac:(done)) Hwf Hu).
  change (MSG_CLIENT_RESP =? jCLIENT_RESP) with true. cbn [negb]. rewrite Hp. change (4 + zlen (enc_flag MSG_CLIENT_RESP)) with 5.
  unfold mbind at 1, jcM_bind at 1, exnM_bind at 1. rewrite (jresp_takes _ _ _ c n (jat r 5) _ (jtakes_flag flag Hf) Hwf1 Hu1).
  change (j_pos (jat r 5) + zlen (enc_flag flag)) with (5 + zlen (le_split 1 flag)). by rewrite zlen_le_split.
Qed.

Lemma java_answered_seen c n r p reps :
  j_complete r (enc_msg (client_resp (enc_answer (Answered (p :: reps))))) -> zlen (enc_answer (Answered (p :: reps))) < 2 ^ 29 ->
  java_sees (Answered (p :: reps)) ((jc_answer E;; jres E jr_setBuf) (jset_resp c r, n)).
Proof.
  intros Hr Hl Hok fuel Hf. set (d := enc_answer (Answered (p :: reps))) in *.
  set (more := enc_reply p ++ concat (map enc_reply reps) ++ enc_flag MSG_FLAG_MSG_END).
  assert (Hd : d = enc_flag MSG_FLAG_OK ++ more) by (unfold d, more; cbn [enc_answer map concat]; by rewrite <- app_assoc).
  destruct (java_answer_head c n r d MSG_FLAG_OK more Hr Hd ltac:(done)) as (Ea & Hwf & Hu).
  destruct Hr as (Hwr & Hp & Hdata). apply Forall_cons in Hok as [Hpk Hok].
  set (r0 := mk_jresult (jr_lastRowId (jc_result c)) (jr_linesChanged (jc_result c)) 6 (jr_rowCount (jc_result c))
    (jr_remainingRows (jc_result c)) (jr_columnCount (jc_result c)) ∅ [] []).
  assert (Hlen : zlen (enc_msg (client_resp d)) = j_lim r) by (by rewrite <- Hdata, zlen_jdata).
  assert (Hat : j_at_reply (enc_msg (client_resp d)) (enc_reply p ++ concat (map enc_reply reps) ++ enc_flag MSG_FLAG_MSG_END ++ [])
    (jr_next r0) (jat r 6)).
  { rewrite app_nil_r. split; [done|done| |]; cbn [jr_next r0].
    - rewrite Hlen. destruct Hwf as [H _]. exact H.
    - fold more. rewrite <- Hu. rewrite junread_at; [by rewrite Hdata|done|]. destruct Hwf as [H _]. exact H. }
  assert (Hsmall : zlen (enc_msg (client_resp d)) < 2 ^ 31) by (rewrite enc_client_resp, !zlen_app, !zlen_le_split; lia).
  destruct (j_replies_step _ [] reps Hok Hsmall p fuel r0 (jat r 6) Hpk Hf Hat) as ([r' b'] & E1 & s' & E2).
  exists (jset_resp (jset_result c r') b'), n, s'. split; [|exact E2].
  unfold mbind at 1, jcM_bind at 1, exnM_bind at 1. rewrite Ea. change (MSG_FLAG_OK =? MSG_FLAG_ERROR) with false. cbv iota.
  unfold mret at 1, jcM_ret at 1, exnM_ret at 1. unfold jres. cbn [fst snd jc_result jc_resp jset_resp].
  unfold jr_setBuf, mbind, resM_bind, exnM_bind, on_buf, on_result, jlook, jedit. cbn [fst snd j_pos jat]. fold r0. by rewrite E1.
Qed.

Lemma java_refused_seen c n r err (k : jcM E ()) :
  j_complete r (enc_msg (client_resp (enc_answer (Refused err)))) ->
  java_sees (Refused err) ((jc_answer E;; k) (jset_resp c r, n)).
Proof.
  intros Hr Herr. cbn [enc_answer] in Hr.
  destruct (java_answer_head c n r _ MSG_FLAG_ERROR _ Hr eq_refl ltac:(done)) as (Ea & Hwf & Hu).
  unfold mbind at 1, jcM_bind at 1, exnM_bind at 1. rewrite Ea. rewrite Z.eqb_refl. unfold mbind at 1, jcM_bind at 1, exnM_bind at 1.
  rewrite (jresp_takes _ _ _ c n (jat r 6) _ (jtakes_name err Herr) Hwf Hu). by eexists.
Qed.

Definition java_request_seq (readonly : bool) (c : jclient) : Z := u64 (if readonly then jc_seq c else jc_seq c + 1).
End java_answers.

Section java_theorem.
Context `{U : Charset}.
Variable E : jnet.
#[local] Existing Instances jcM_ret jcM_bind.

(** [execute] closes the last statement and writes the header. *)
Lemma java_execute_sends rfuel fuel readonly c n hdr ys ops :
  jc_hasStatement c = true -> jfull (jc_req c) (hdr ++ ys) -> zlen hdr = 14 ->
  ys ++ op_close = concat (map enc_op ops) -> zlen (enc_request ops) + 2048 < 2 ^ 31 ->
  exists c', jc_execute E rfuel fuel readonly (c, n) =
      ((jc_sendRequest E rfuel fuel;; (jc_clear E;; jc_answer E));; jres E jr_setBuf) (c', n) /\
    jfull (jc_req c') (enc_msg (client_req (java_request_seq readonly c) readonly (enc_request ops))) /\
    jc_connected c' = jc_connected c /\ jc_timeout c' = jc_timeout c /\ jc_resp c' = jc_resp c.
Proof.
  intros Hst Hreq Hh Hy Hl. assert (Er : ys ++ op_close ++ enc_flag MSG_FLAG_MSG_END = enc_request ops)
    by (unfold enc_request; by rewrite <- Hy, <- app_assoc).
  pose proof (f_equal zlen Er) as Hz. rewrite zlen_app in Hz. change (zlen (op_close ++ enc_flag MSG_FLAG_MSG_END)) with 3 in Hz.
  destruct (jcputs_seq E _ _ _ _ (jcputs_req E _ _ (jputs_flag MSG_BIND_END))
    (jcputs_seq E _ _ _ _ (jcputs_req E _ _ (jputs_flag MSG_FLAG_OP_END)) (jcputs_req E _ _ (jputs_flag MSG_FLAG_MSG_END))) c n _ Hst Hreq)
    as (b & Eb & Hb).
  { rewrite zlen_app. change (zlen (enc_flag MSG_BIND_END ++ enc_flag MSG_FLAG_OP_END ++ enc_flag MSG_FLAG_MSG_END)) with 3. lia. }
  assert (Hb' : jfull b (hdr ++ enc_request ops)) by (rewrite <- Er; unfold op_close; by rewrite <- !app_assoc in *).
  set (c1 := jset_has (jset_req c b) false).
  set (c2 := if readonly then c1 else jset_seq c1 (jlong (jc_seq c1 + 1))).
  assert (Hc2 : jc_req c2 = b) by (unfold c2; by destruct readonly).
  destruct (j_header_written b hdr (enc_request ops) readonly (jc_seq c2) Hb' Hh) as (b2 & Eh & Hb2); [lia|].
  assert (Hseq : enc_msg (client_req (u64 (jc_seq c2)) readonly (enc_request ops)) =
    enc_msg (client_req (java_request_seq readonly c) readonly (enc_request ops))).
  { rewrite !enc_client_req. unfold c2, java_request_seq, u64. change (2 ^ 64) with (2 ^ (8 * Z.of_nat 8)). rewrite !le_split_mod.
    destruct readonly; [done|]. cbn [jc_seq jset_seq]. by rewrite le_split_jlong. }
  exists (jset_req c2 b2). split_and!.
  2: by rewrite <- Hseq.
  2,3,4: unfold c2; by destruct readonly.
  unfold jc_execute. unfold mbind at 1, jcM_bind at 1, exnM_bind at 1, jsee at 1, jlook at 1. cbn [fst snd]. rewrite Hst. cbn [negb].
  unfold mbind, jcM_bind, exnM_bind in Eb |- *. revert Eb.
  destruct (jreq E (rb_putByte MSG_BIND_END) (c, n)) as [[e|[]] s1]; [done|].
  destruct (jreq E (rb_putByte MSG_FLAG_OP_END) s1) as [[e|[]] s2]; [done|]. intros ->.
  unfold jmod at 1, jedit at 1. cbn [fst snd]. fold c1. unfold jc_exchange, mbind, jcM_bind, exnM_bind.
  assert (Es : (if negb readonly then jmod E (fun c => jset_seq c (jlong (jc_seq c + 1))) else mret ()) (c1, n) = (inr (), (c2, n)))
    by (unfold c2; by destruct readonly).
  rewrite Es. unfold jsee at 1, jlook at 1. cbn [fst snd]. unfold jreq at 1. cbn [fst snd]. by rewrite Hc2, Eh.
Qed.

(** C7: the Java client and the state machine.  A client with an open connection stages
    statements and parameters and executes them.  The bytes it sends are the request of these
    operations, the node runs it, and [execute] returns a result set whose rows, values, changes
    and row ids are the replies of SQLite to the operations, or throws the message of the node.
    The response may arrive in pieces of any size, if the first one has the four bytes of the
    length. *)
Theorem java_roundtrip Q aux size sfuel rfuel fuel index readonly p ps c n w out rc a progress w' :
  sqlite_answers Q -> forallb j_op_ok (p :: ps) = true -> Forall op_ok (p :: ps) -> (ops_fuel (p :: ps) <= sfuel)%nat ->
  direct_request Q aux readonly index (p :: ps) w = Some (rc, Some a, progress, w') ->
  node_ready out (java_request_seq readonly c) readonly (p :: ps) a progress ->
  jc_connected c = true -> 14 <= j_cap (jc_req c) -> 4 <= j_cap (jc_resp c) ->
  java_talks E size (jc_timeout c) (serve Q aux sfuel index w out) n -> (length (frame a) <= size)%nat -> (size < rfuel)%nat ->
  java_sees E a ((jc_clear E;; (java_op_calls E (p :: ps);; jc_execute E rfuel (S fuel) readonly)) (c, n)).
Proof.
  intros Hq Hgo Hok Hf Hd Hn Hcon Hreq Hresp Ht Hsize Hrf. cbn [forallb] in Hgo. apply andb_true_iff in Hgo as [Hp Hps].
  pose proof (serve_answers Q aux sfuel index readonly (p :: ps) w out _ rc a progress w' Hq Hok Hf Hn Hd) as Hs.
  pose proof (frame_len_bound _ (nr_req _ _ _ _ _ _ Hn)) as Hl. unfold MSG_MAX_SIZE in Hl.
  rewrite <- zlen_enc_msg, enc_client_req, !zlen_app, !zlen_le_split in Hl. pose proof (zlen_nonneg (enc_request (p :: ps))).
  destruct (java_clear_ok E c n Hreq) as (b & hdr & Ec & Hb & Hh). set (c1 := jset_has (jset_req c b) false) in *.
  destruct (java_calls_put E ps Hps p c1 n hdr Hp Hb) as (b1 & ys & E1 & H1 & Hy).
  { unfold enc_request in Hl. rewrite zlen_app in Hl. pose proof (zlen_nonneg (enc_flag MSG_FLAG_MSG_END)). lia. }
  set (c2 := jset_req (jset_has c1 true) b1) in *. cbn [app] in Hy. change (jc_hasStatement c1) with false in Hy.
  destruct (java_execute_sends rfuel (S fuel) readonly c2 n hdr ys (p :: ps) eq_refl H1 Hh Hy) as (c3 & E3 & Hb3 & Hcon3 & Ht3 & Hr3); [lia|].
  change (java_request_seq readonly c2) with (java_request_seq readonly c) in Hb3.
  set (f := enc_msg (client_req (java_request_seq readonly c) readonly (enc_request (p :: ps)))) in *.
  assert (Hf0 : 14 <= zlen f) by (unfold f; rewrite enc_client_req, !zlen_app, !zlen_le_split; lia).
  destruct (java_send_ok E size (serve Q aux sfuel index w out) c3 n f (enc_answer a) rfuel fuel) as (b4 & r & n' & Es & Hcap & Hr);
    try first [exact Hb3|exact Hs|done|apply Hn]; [by rewrite Hcon3|by rewrite Hr3|by rewrite Ht3|].
  destruct (java_clear_ok E (jset_resp (jset_req c3 b4) r) n') as (b5 & hdr5 & E5 & _).
  { cbn [jc_req jset_resp jset_req]. rewrite Hcap. pose proof (jf_cap _ _ Hb3). lia. }
  unfold mbind at 1, jcM_bind at 1, exnM_bind at 1. rewrite Ec. unfold mbind at 1, jcM_bind at 1, exnM_bind at 1. fold c1. rewrite E1. fold c2. rewrite E3.
  set (c5 := jset_has (jset_req (jset_req c3 b4) b5) false).
  assert (Em : ((jc_sendRequest E rfuel (S fuel);; (jc_clear E;; jc_answer E));; jres E jr_setBuf) (c3, n) =
    (jc_answer E;; jres E jr_setBuf) (jset_resp c5 r, n')).
  { unfold mbind, jcM_bind, exnM_bind. by rewrite Es, E5. }
  rewrite Em. destruct a as [reps|err].
  - pose proof (answered_length _ _ _ _ _ _ _ _ _ _ Hd) as Hlen. destruct reps as [|q reps]; [done|].
    apply java_answered_seen; [exact Hr|apply Hn].
  - by apply java_refused_seen.
Qed.
End java_theorem.

(** A channel that delivers what the node answers in pieces of [piece] bytes; the time stands
    still and the node is never connected to. *)
Definition java_pipe (piece : nat) (serve : list byte -> option (list byte)) : jnet := {|
  jn_state := list byte;
  clock := fun n => (0, n);
  sock_open := fun n => (false, n);
  sock_options := fun n => (false, n);
  sock_bind := fun _ _ n => (false, n);
  sock_connect := fun _ n => (CoFailed, n);
  sock_write := fun bs n => match serve bs with Some r => (Some (zlen bs), r) | None => (None, n) end;
  sock_read := fun q n =>
    match n with
    | [] => (RdEnd, n)
    | _ => (RdBytes (take (Z.to_nat q `min` piece) n), drop (Z.to_nat q `min` piece) n)
    end;
  sock_close := fun n => (true, n);
  uri_ok := fun _ => true
|}.

Lemma java_pipe_delivers serve timeout : 0 < timeout -> forall fuel least bs, (length bs <= fuel)%nat ->
  (0 < least <= 5)%nat -> (least <= length bs \/ bs = [])%nat -> java_delivers (java_pipe 5 serve) 0 timeout fuel least bs bs.
Proof.
  intros Ht. induction fuel as [|fuel IH]; intros least bs Hl Hm Hb; [by destruct bs; [|simpl in Hl; lia]|].
  destruct bs as [|b bs]; [by left|]. right. split; [done|]. intros q Hq. set (m := (Z.to_nat q `min` 5)%nat).
  assert (Hm' : (least <= m)%nat) by lia. destruct Hb as [Hb|]; [|done].
  exists (m `min` length (b :: bs))%nat, (drop m (b :: bs)). split_and!.
  - lia.
  - lia.
  - lia.
  - cbn [java_pipe sock_read clock snd]. fold m. by rewrite <- take_take, firstn_all.
  - replace (drop (m `min` length (b :: bs)) (b :: bs)) with (drop m (b :: bs)).
    + apply IH; [rewrite length_drop; lia|lia|]. destruct (drop m (b :: bs)); [by right|left; simpl; lia].
    + destruct (decide (m <= length (b :: bs))%nat); [f_equal; lia|]. rewrite !drop_ge by lia. done.
Qed.

Lemma java_pipe_talks serve size timeout n : 0 < timeout -> java_talks (java_pipe 5 serve) size timeout serve n.
Proof.
  intros Ht. split; [exact Ht|]. intros bs resp Er Hl. exists resp. cbn [java_pipe sock_write]. rewrite Er.
  split; [done|]. apply java_pipe_delivers; [done|lia|lia|left; lia].
Qed.

(** The decoder on texts of ASCII characters. *)
Definition ascii : Charset := fun s => s.

Definition demo_java_client : jclient :=
  jset_connected (new_jclient (mk_jconfig (Some (text "client")) None None 2000 None) (text "cluster") [] []) true.

Abbreviation demo_java_net := (java_pipe 5 (serve rows_sqlite demo_aux 10 0 rows_world (sc_buf_init 512))).

Lemma java_roundtrip_witness : exists c n s,
  (let charset := ascii in let ret := jcM_ret demo_java_net in let bind := jcM_bind demo_java_net in
   jc_clear demo_java_net;; (java_op_calls demo_java_net (demo_op :: demo_more);; jc_execute demo_java_net 300 1 true))
    (demo_java_client, []) = (inr (), (c, n)) /\
  java_replies (U := ascii) 10 (jc_result c, jc_resp c) = (inr (map unnamed [rows_reply; rows_reply]), s).
Proof.
  destruct demo_run as (progress & w & Ed & Hl).
  pose proof (java_roundtrip (U := ascii) demo_java_net rows_sqlite demo_aux 200 10 300 0 0 true demo_op demo_more demo_java_client [] rows_world
    (sc_buf_init 512) RS_OK (Answered [rows_reply; rows_reply]) progress w) as H.
  unfold java_sees in H. apply H; clear H.
  - apply rows_sqlite_answers.
  - vm_compute. reflexivity.
  - apply (bool_decide_unpack _). vm_compute. reflexivity.
  - vm_compute. repeat constructor.
  - exact Ed.
  - by apply demo_node.
  - reflexivity.
  - vm_compute. discriminate.
  - vm_compute. discriminate.
  - apply java_pipe_talks. vm_compute. reflexivity.
  - vm_compute. repeat constructor.
  - apply (bool_decide_unpack _). vm_compute. reflexivity.
  - repeat constructor; vm_compute; first [reflexivity|discriminate|split; discriminate || reflexivity|idtac].
  - vm_compute. repeat constructor.
Defined.

(** ** What the Java client does not do *)

(** *** No request survives a lost connection

    [connect] reads its answer into the response buffer and leaves it flipped, at its end.
    [sendRequest] clears the buffer only before its loop, so on a connection that the loop has
    opened the channel reads at most zero bytes, which is taken for the end of the stream. *)
Lemma no_room_no_answer E fuel ts c n :
  bb_remaining (jc_resp c) = 0 -> exists s, java_read_loop E (S fuel) ts (c, n) = (inr false, s).
Proof.
  intros Hr. cbn [java_read_loop]. unfold mbind at 1, jcM_bind at 1, exnM_bind at 1, jdo at 1. cbn [fst snd].
  destruct (clock E n) as [t n1]. unfold mbind at 1, jcM_bind at 1, exnM_bind at 1, jsee at 1, jlook at 1. cbn [fst snd].
  destruct (jc_timeout c >? jlong (t - ts)); cbn [negb]; [|by eexists].
  unfold mbind at 1, jcM_bind at 1, exnM_bind at 1, catching, read_resp, mbind, jcM_bind, exnM_bind, jsee, jlook, jdo. cbn [fst snd].
  rewrite Hr. destruct (sock_read E 0 n1) as [[bs| |] n2]; [|by eexists..]. change (take (Z.to_nat 0) bs) with (@nil byte).
  unfold jresp, bb_put. cbn [fst snd]. rewrite Hr. by eexists.
Qed.

(** A node that cannot be reached before the time [dr_up] and answers every request; every
    reading of the clock takes a third of a second. *)
Record dropping := mk_dropping { dr_time : Z; dr_up : Z; dr_open : bool; dr_log : list (list byte); dr_pending : list byte }.

Definition drop_net : jnet := {|
  jn_state := dropping;
  clock := fun n => (dr_time n, mk_dropping (dr_time n + 333) (dr_up n) (dr_open n) (dr_log n) (dr_pending n));
  sock_open := fun n => (true, n);
  sock_options := fun n => (true, n);
  sock_bind := fun _ _ n => (true, n);
  sock_connect := fun _ n =>
    if dr_up n <=? dr_time n then (CoDone, mk_dropping (dr_time n) (dr_up n) true (dr_log n) []) else (CoFailed, n);
  sock_write := fun bs n =>
    if dr_open n then
      let answer := match msg_parse (sc_buf_wrap bs (zlen bs) SC_BUF_READ) with
        | ((RS_OK, Some (connect_req _ _ _ _)), _) => enc_msg (connect_resp 0 0 1 (Some (text "tcp://n@h:1")))
        | _ => enc_msg (client_resp (enc_answer (Answered [RDone 1 1])))
        end in
      (Some (zlen bs), mk_dropping (dr_time n) (dr_up n) true (dr_log n ++ [bs]) answer)
    else (None, n);
  sock_read := fun q n =>
    match dr_pending n with
    | [] => (RdEnd, n)
    | bs => (RdBytes (take (Z.to_nat q) bs), mk_dropping (dr_time n) (dr_up n) (dr_open n) (dr_log n) (drop (Z.to_nat q) bs))
    end;
  sock_close := fun n => (true, mk_dropping (dr_time n) (dr_up n) false (dr_log n) (dr_pending n));
  uri_ok := fun _ => true
|}.

Definition drop_client : jclient := jset_urls demo_java_client 0 0 [text "tcp://n@h:1"].
Definition select_1 : list op := [OStmt (Some (text "SELECT 1")) []].

(** The connection of a client is lost.  It connects again, the node runs the request and
    answers, and the client connects and sends it again, until the time is over. *)
Lemma reconnect_hears_nothing :
  let charset := ascii in let ret := jcM_ret drop_net in let bind := jcM_bind drop_net in
  let request := enc_msg (client_req 0 true (enc_request select_1)) in
  let hello := enc_msg (connect_req 0 (Some MSG_RESQL_STR) (Some (text "cluster")) (Some (text "client"))) in
  let r := (jc_clear drop_net;; (java_op_calls drop_net select_1;; jc_execute drop_net 9 9 true))
    (drop_client, mk_dropping 0 0 false [] []) in
  fst r = inl JResql /\ dr_log (snd (snd r)) = [hello; request; hello; request; hello; request].
Proof. cbv zeta. split; vm_compute; reflexivity. Qed.

(** *** A request that failed stays in the buffer

    Only a fatal error clears the request.  Behind a timeout the buffer is flipped and rewound:
    the next statement is written over its start, and the header over the first fourteen bytes
    of the statement. *)
Lemma failed_request_spoils_next :
  let charset := ascii in let ret := jcM_ret drop_net in let bind := jcM_bind drop_net in
  let more := [OStmt (Some (text "SELECT name FROM people")) []] in
  let first := (jc_clear drop_net;; (java_op_calls drop_net select_1;; jc_execute drop_net 9 9 true))
    (drop_client, mk_dropping 0 2500 false [] []) in
  let second := (java_op_calls drop_net more;; jc_execute drop_net 9 9 true) (snd first) in
  fst first = inl JResql /\ dr_log (snd (snd first)) = [] /\
  nth_error (dr_log (snd (snd second))) 1 = Some (enc_msg (client_req 0 true (drop 14 (enc_request more)))).
Proof. cbv zeta. split_and!; vm_compute; reflexivity. Qed.

(** *** A first piece without the length

    [remaining] reads four bytes; if the first piece of a response has fewer, the exception
    leaves [execute]. *)
Lemma short_piece_escapes :
  let charset := ascii in
  let net := java_pipe 3 (serve rows_sqlite demo_aux 10 0 rows_world (sc_buf_init 512)) in
  let ret := jcM_ret net in let bind := jcM_bind net in
  fst ((jc_clear net;; (java_op_calls net (demo_op :: demo_more);; jc_execute net 300 1 true)) (demo_java_client, [])) = inl JUnderflow.
Proof. vm_compute. reflexivity. Qed.

(** *** A value of another class

    [bind] writes the place of the parameter and nothing for its value. *)
Lemma bind_other_class E i : jcputs E (jc_bind_index E i JoOther) (enc_flag MSG_BIND_INDEX ++ le_split 4 i).
Proof.
  rewrite <- (app_nil_r (le_split 4 i)). apply jcputs_bound, jcputs_seq; [apply jcputs_req, jputs_flag|].
  apply jcputs_seq; apply jcputs_req; [apply jputs_bytes|]. intros b xs Hb _. exists b. by rewrite app_nil_r.
Qed.

(** *** Columns of the first result stay

    [nextResultSet] adds names to those of the results before: behind a result with the column
    [a] and one with the column [b], the row has two columns, its first name is [a], and [a]
    has the value of [b]. *)
Lemma second_result_columns :
  let charset := ascii in
  let ret := resM_ret in let bind := resM_bind in
  let d := enc_reply (RRows 0 0 [Some (text "a")] []) ++ enc_reply (RRows 0 0 [Some (text "b")] [[VInteger 7]]) in
  fst ((jr_setBuf;; (_ ← jr_nextResultSet; (_ ← jr_next_row; r ← jlook (fun s => s.1);
    mret (row_columnCount r, row_getColumnName r 0, row_get_name r (Some (text "a")), row_get_name r (Some (text "b"))))))
    (new_jresult, mk_bb d 0 (zlen d)))
  = inr (2, inr (Some (text "a")), inr (VInteger 7), inr (VInteger 7)).
Proof. vm_compute. reflexivity. Qed.

(** *** A host that cannot be resolved

    The exception of [connect] for an address without an IP is none of those that [Client]
    catches: the other addresses are not tried. *)
Definition unresolved_net : jnet := {|
  jn_state := ();
  clock := fun n => (0, n);
  sock_open := fun n => (true, n);
  sock_options := fun n => (true, n);
  sock_bind := fun _ _ n => (true, n);
  sock_connect := fun uri n => (if bool_decide (uri = text "tcp://nowhere:1") then CoUnresolved else CoDone, n);
  sock_write := fun bs n => (Some (zlen bs), n);
  sock_read := fun q n => (RdBytes (enc_msg (connect_resp 0 0 1 (Some (text "tcp://n@h:1")))), n);
  sock_close := fun n => (true, n);
  uri_ok := fun _ => true
|}.

Lemma unresolved_host_ends :
  let charset := ascii in
  let config urls := mk_jconfig (Some (text "client")) (Some (text "cluster")) None 2000 (Some urls) in
  let create urls := match jc_create unresolved_net 9 (config urls) [] () with inl e => Some e | inr _ => None end in
  create [text "tcp://h:1"] = None /\ create [text "tcp://nowhere:1"; text "tcp://h:1"] = Some JIllegal.
Proof. cbv zeta. split; vm_compute; reflexivity. Qed.
